(* ===== verification/_CoqProject ===== *)
-Q . S2P
Prelude.v
Errors.v
FsPath.v
SparseFile.v
Clock.v
Blocking.v
AddrAreas.v
FileLocks.v
SysvIpc.v
SysvSem.v
SysvMsg.v
Polling.v
Pipe.v
EventFd.v
TimerFd.v
BlockDevice.v
BlockCache.v
FrameBoot.v
Tmpfs.v
TmpfsTree.v
TmpfsProps.v
SignalData.v
Threads.v
ThreadsProps.v
Futex.v
FutexProps.v
Signals.v
SignalProps.v
Processes.v
ProcessEnd.v
ProcessWait.v
Ptrace.v
ProcessProps.v
ProcessWake.v
Ioctl.v
Console.v
LineDiscipline.v
Poller.v
PollerProps.v
Epoll.v
PollSelect.v
EpollProps.v
OutputFilter.v
Tty.v
Keyboard.v
Pty.v
PtyProps.v
FdTable.v
FdTableProps.v
Vm.v
VmUser.v
VmCalls.v
VmFrames.v
VmKinds.v
VmOps.v
VmSteps.v
VmAccess.v
VmFork.v
SysvShm.v
VmHeld.v
VmProps.v
VmRoundtrip.v
VmFault.v
VmFindings.v
Vfs.v
VfsProps.v
VfsResolve.v
VfsCreate.v
VfsTmpfs.v
UnixSocket.v
UnixSocketProps.v
UnixSocketChanges.v
UnixSocketWakes.v
UnixSocketRuns.v
UnixSocketTraffic.v
UnixSocketNames.v
UnixFindings.v
PageCache.v
OpenFile.v
OpenTmpfs.v
