(* ===== verification/Prelude.v ===== *)
(** * Verification library of the Seele kernel

    Seele is a Linux-compatible kernel in Rust (kernel/src); control/ holds host tools that
    build and run it.  User programs enter through system-call handlers
    (systemcall/implementations), which act on kernel objects behind file descriptors
    (object/, polling/, socket/), on the tables of the IPC mechanisms (ipc/), on files
    (filesystem/) and on the address space of the process (memory/).  Threads block in
    thread/yielding.rs and are woken by the object they wait for.  This library models the
    sequential core of those parts: each global table or object is a state, each handler or
    method a function on it, and interleaving is made explicit as a sequence of steps.

    ** Conventions

    A [u64], [usize] or [VirtAddr] is a [Z]; where the code can wrap, saturate or be
    checked, the operation is written out ([uwrap], [sat_add], [sat_sub], [sat_mul], checked
    comparisons).  [Result] is [result E A], a monad; [Err] carries the source's error
    enums.  A lock taken for a whole pass makes that pass atomic, so a pass is one function
    from state to state.  A loop that blocks is [Blocking.blocking_loop]: a pass returns or
    sleeps, and each sleep consumes one item of a list of wake-ups in which the environment
    says what the other threads did to the state and how the sleep ended; the loop is
    structural on that list and a call whose list ends asleep has no result yet ([None]).
    Wake-ups the code sends are logged in the state, so that theorems can say who is woken.

    ** Files and the code they model

    - Prelude: this header, [result], saturating and wrapping arithmetic, list, sorting and
      byte-order lemmas shared by all.
    - Errors: [SyscallError], the error enum of each subsystem, and the conversions between
      them and errno values (systemcall/utils.rs and the error.rs files).
    - FsPath: path strings, [Path] and [AbsolutePath] (filesystem/path.rs,
      filesystem/absolute_path.rs).
    - SparseFile: contents of in-memory files by page (filesystem/sparse_file.rs).
    - Clock: time since boot, wall clock, [Time] (misc/time.rs).
    - Blocking: the blocking loop, and the interface of user memory (memory/user_safe.rs):
      the classes [UserMemory] (typed values) and [UserBuffer] (bytes) with the laws the
      callers rely on; a map of cells, a map of bytes and a memory that always faults are
      instances.
    - AddrAreas: the area list of an address space (memory/addrspace).
    - FrameBoot: the physical frames of the memory map at boot, and how they are divided
      between the kernel heap and the run-time allocator (memory/paging.rs, boot.rs).
    - FileLocks: [fcntl] and [flock] locks, waiting and deadlock search
      (object/file_locks.rs).
    - SysvIpc, SysvSem, SysvMsg: System V semaphores and message queues (ipc); what the
      copies share is stated once over the class [IpcObject].
    - Polling: file flags and events (object/mod.rs, polling/event.rs).
    - Pipe, EventFd, TimerFd: the kernel objects of object/pipe.rs, object/anon/eventfd.rs
      and object/anon/timerfd.rs, with their readiness and wake-ups.
    - BlockDevice, BlockCache: the trait of block devices with byte access on top of it and
      the RAM disk, and the write-back cache (filesystem/block_device).  The trait is a
      class; its laws are what clients are proved against and what the RAM disk and the
      cache are proved to keep.
    - Tmpfs, TmpfsTree, TmpfsProps: the temporary file system (filesystem/tmpfs): its node
      and path tables with every operation, the lemmas on the tree they form, and the
      properties of reachable file systems and of file handles.
    - SignalData: signals, sets of them, what accompanies them and actions (misc/signal.rs).
    - Threads, ThreadsProps: the [World] of threads and processes; the blocked queues, the
      ready queues, blocking and waking, threads that come and go (thread/yielding.rs,
      thread/manager.rs, parts of thread/scheduling.rs); its steps and properties.
    - Futex, FutexProps: futexes (systemcall/implementations/memory_sync.rs), and the end of
      threads, which wakes them (thread/manager.rs); their steps and properties.
    - Signals, SignalProps: queueing and delivering signals, masks, handlers and the system
      calls on them (misc/signal.rs, systemcall/implementations/signal.rs and select.rs,
      object/anon/signalfd.rs), and their properties.
    - Processes: numbers of processes and what a namespace shows of them, user maps, fork,
      clone and vfork (process/misc.rs, process/fork.rs, thread/clone.rs,
      systemcall/implementations/misc.rs and misc/process.rs).  ProcessEnd: the end of a
      process and of a thread (process/manager.rs, thread/scheduling.rs).  ProcessWait:
      waiting, groups and sessions (process/wait.rs, systemcall/implementations/process.rs).
      Ptrace: tracing (process/ptrace.rs, systemcall/implementations/ptrace.rs).
      ProcessProps: the tree of processes and what a wait reports; ProcessWake: how a death
      or a traced call reaches the parent, numbers, users and tracers.
    - Ioctl: the numbers of control requests and what they decode to (object/linux_ioctl.rs,
      object/config.rs, drm).  Console: keyboard and display modes, key tables and the
      requests on them (terminal/linux_kd.rs).  LineDiscipline: terminal settings, input
      editing and output processing (terminal/termios.rs, terminal/line_discipline.rs).
    - Poller: pollers, their entries, the registry of watched objects and notifications
      (polling/); PollerProps: its invariant, and that a notification reaches every sleeper.
      Epoll: the epoll calls (systemcall/implementations/polling.rs); PollSelect: poll and
      select (poll.rs, select.rs); EpollProps: their properties and concrete runs.
    - OutputFilter: escape sequences in output (terminal/output_filter.rs).  Tty: the virtual
      terminals, the console device and reads that wait (object/tty_device.rs,
      object/queue_helpers.rs, terminal/linux_vt.rs, terminal/object.rs).  Keyboard: from
      scancodes to input (keyboard/).  Pty: pseudo terminals (terminal/pty).  PtyProps: input
      reaches its readers, who owns the framebuffer, the registry of pairs.
    - FdTable: descriptor tables, the ends of pipes they refer to, and the calls that open,
      copy, mark and close descriptors (process/object.rs, process/fd_table.rs,
      object/control.rs, systemcall/implementations/objects.rs and pipe.rs); FdTableProps.
    - Vm: frames, reference counts, what page tables translate, copy-on-write, lazy pages,
      files in memory and their write-back, cloning and release of address spaces
      (memory/paging.rs, memory/addrspace).  VmUser: copies to and from user memory and the
      page fault handler (memory/addrspace/user.rs, memory/user_safe.rs,
      interrupts/pagefault.rs).  VmCalls: mmap and its relatives
      (systemcall/implementations/memory_sync.rs).  SysvShm: shared memory segments
      (ipc/sysv_shm.rs).
    - VmFrames, VmKinds, VmOps, VmSteps, VmAccess, VmFork, VmHeld: the proof library of the
      memory system (triples for operations that can panic, the invariant of frames and of
      areas, and each operation against it); VmProps, VmRoundtrip, VmFault: its properties;
      VmFindings: runs that show what the code does not mean.
    - Vfs: the table of mounts, what mounts the processes of a namespace see, the walk along
      a path, and the operations on names (filesystem/vfs.rs, filesystem/resolve.rs,
      filesystem/vfs_operations.rs, process/manager.rs), over the class [FileSystems] of what
      the traits of filesystem/vfs_traits.rs offer.  VfsProps: the order of the table;
      VfsResolve: the walk; VfsCreate: creating a file, against the laws of [CreationLaws];
      VfsTmpfs: the temporary file systems of Tmpfs as an instance of both classes,
      and runs that show what the code does not mean.
    - UnixSocket: Unix domain sockets, their registry of names, connections and messages, the
      objects that go with bytes, addresses, and [recvmsg] (socket/,
      systemcall/implementations/socket).  UnixSocketProps: the invariant of the table and
      the histories of what was sent and received; UnixSocketChanges: an abstract machine of
      twelve kinds of change, which keep both; UnixSocketWakes: a change that makes a socket
      ready says so; UnixSocketRuns: every operation is a sequence of changes;
      UnixSocketTraffic: runs, whole calls and the properties; UnixSocketNames: addresses;
      UnixFindings: runs that show what the code does not mean.  The nodes of pathname
      sockets and the programs of filters are the class [SocketEnv].
    - PageCache: clusters of file contents by device, inode and place, their eviction, and
      reads through them (filesystem/page_cache.rs).  OpenFile: the operations of an open
      regular file that use or drop them (filesystem/object.rs).  Both are over the class
      [Files] of what the trait [File] offers, their
      properties against the laws of [FilesLaws].  OpenTmpfs: temporary files as an
      instance, and runs that show what the code does not mean.

    The files from Threads to PtyProps share one state, the [World]: a thread or process is named by
    its number where the code has a reference counted pointer, the current thread is an
    argument [t], and the [World] of Threads is also the table of futexes and the sleepers
    of every kernel object.  Objects modelled before it (Pipe, EventFd, the IPC tables) log
    the wake-ups they send; the theorems of ThreadsProps say what those wake-ups do.

    ** What the theorems show

    - AddrAreas: the areas of a reachable address space are sorted, disjoint and non-empty;
      unmapping, locking, protecting and registering change exactly the addresses of their
      range, where they cut no shared-frames area in two, stated through the view
      [AddrAreas.view] of what each address maps to; the lookup by
      cached index and binary search finds exactly the area of an address; the check before
      a change of protection accepts exactly the ranges without holes that permit it.
    - FileLocks: reachable tables hold no conflicting locks of two owners; a grant changes
      exactly the requested bytes of the requester; the deadlock search terminates and
      decides reachability; a request is refused by the lowest conflicting lock, whose owner
      alone is tested for a deadlock; F_GETLK predicts F_SETLK; a whole
      blocking call is a sequence of atomic steps.
    - Pipe, EventFd, TimerFd: a pipe is a first-in first-out byte stream within its
      capacity and loses no wake-up for input or space; an event counter accounts for all
      that was added and read; the timer registry holds the deadline of every live timer, a
      poll misses no due timer, and a periodic timer counts exactly.
    - FsPath: normal forms, the round trip through text, and confinement: from a working
      directory below a process root, resolution does not leave the root.
    - SysvSem, SysvMsg: table invariants over every operation, atomicity of [semop] where it
      holds, and what one pass of each blocking call does.
    - SparseFile: the paged representation refines a plain byte sequence.
    - BlockDevice, BlockCache: byte access on a lawful device is access to one byte array
      where it reads whole runs; the cache is the device it fronts, but for multi-block reads
      over dirty blocks, and a flush makes its contents durable.
    - FrameBoot: the frames served at boot are the usable ones in order, and the heap and
      the run-time allocator share none of them.
    - Clock, Errors: monotone time, the wall clock round trip, the errno encoding.
    - Tmpfs: through any operations but a link of an open file to a name with a trailing
      slash, the table of paths is the tree of the directories, link counts are exact and
      nodes live as long as they are needed; a rename moves exactly one subtree; unlinked
      files stay usable while open; a handle is a byte sequence with a position.
    - Threads: in every reachable state each ready thread is in one ready queue, each
      sleeper in the queue of its reason and with its deadline; of the threads that are not
      stopped an event wakes exactly its sleepers; a direct wake-up before the sleep is not
      lost; ready threads take turns.
    - Futex: queues and sleepers agree, as long as no waiter is stopped, no requeue is to the
      same word and no unlock fails; a wait misses no wake that reaches it; a wake takes the
      first waiters and a requeue moves the next ones.
    - Signals: exactly the deliverable signals are taken, the process ends or stops as they
      say and the handler of the last is entered; [kill] reaches exactly the processes it
      names; masks nest around handlers entered together; actions read back.
    - Processes: the parents of every reachable world form a tree, so the search for an heir
      ends; the end of a process gives its children to that heir with the signals they asked
      for; a wait reports the first child with something to report and each death once; a
      death wakes a waiting parent and answers its wait; a new number is the first free one;
      user numbers go through a map and back; only a tracer acts on a traced process, whose
      calls stop, are seen and go on.
    - Polling: the registry agrees with the entries of the pollers and no poller contains
      itself; an event reaches every thread asleep on a poller that watches it, and an
      epoll_wait misses no event around its sleep.
    - Terminals: every request number decodes; line editing is that of a reference editor;
      output does not depend on how it is split into writes; typed input reaches a reader
      that waits; the framebuffer follows the active terminal; an open end of a pair keeps
      its entry.
    - Descriptors: a pipe counts exactly the descriptors of its ends, in all tables; a new
      descriptor is the lowest free one; an exec and a close_range touch exactly the
      descriptors they are meant for.
    - Memory: the machine of Vm holds all address spaces, and its steps are those of any
      processes in any order.  Reference counts of frames are exact and no frame in use is
      free; without CLONE_VM and the cases of VmFindings no process changes the private
      memory of another; a fork gives the child the
      memory of its parent; what is written is read back; a page fault maps the page or
      gives the right signal; an unmap removes exactly its range.
    - Vfs: in every reachable table of mounts the innermost and newest mount on a path serves
      it; an unmount undoes a mount; every walk ends, at a canonical path that resolves to
      the same entry again; a created file resolves, through the links and mounts before it.
    - Unix sockets: in every interleaving the ends of a connection face each other; a stream
      is a queue of bytes and a packet connection a queue of packets between its ends; a
      reader, a writer or an acceptor that sleeps is woken by the step after which it can go
      on; a path name is read back from its address.
    - Page cache: it stays within its bound, each cluster can be evicted, and a mapping gets
      the bytes that the file has; a read at an offset gets as many bytes as there are, but
      from the first page of each cluster ([OpenFile.read_at_gets_first_pages]).

    Where the code does not do what it should, a lemma named in the component's file shows
    it on a concrete state: [AddrAreas.unmap_shifts_shared_frames],
    [FileLocks.deadlock_leaves_wait_recorded], [SysvSem.semop_half_done],
    [SysvSem.semtimedop_try_wakeups], [SysvMsg.msgrcv_fault_loses_message],
    [SysvMsg.select_message_min_none], [Pipe.read_misses_pollout],
    [Pipe.set_capacity_misses_writers], [EventFd.eventfd_write_spins],
    [BlockCache.readahead_loses_dirty_block], [BlockCache.failed_eviction_loses_block],
    [BlockCache.queue_grows], [TmpfsProps.link_to_trailing_slash],
    [TmpfsProps.rename_between_links], [FutexProps.pi_handover_deadlocks],
    [FutexProps.wake_op_adds_one], [FutexProps.stopped_waiter_takes_wake],
    [FutexProps.requeue_same_word_loses_waiter],
    [SignalProps.temporary_mask_in_handler_unblocks],
    [SignalProps.second_handler_replaces_first], [SignalProps.sigkill_can_be_ignored],
    [SignalProps.sigkill_leaves_stopped], [SignalProps.tkill_sigcont_panics],
    [SignalProps.blocked_signal_interrupts], [SignalProps.sigtimedwait_loses_sigchld],
    [ProcessWake.signal_death_keeps_children], [ProcessWake.namespace_number_twice],
    [ProcessWake.thread_number_taken], [ProcessWake.bad_address_leaves_child],
    [ProcessWake.group_of_member_hidden], [ProcessWake.setpgid_checks_nothing],
    [ProcessWake.exit_ends_process], [EpollProps.shared_child_refused],
    [EpollProps.deep_chain_accepted], [EpollProps.nested_ready_object_missed],
    [EpollProps.stale_event_reported], [EpollProps.oneshot_lost],
    [EpollProps.faulting_wait_loses_event], [EpollProps.duplicate_pollfd_unreported],
    [EpollProps.long_timeout_overflows], [EpollProps.closed_writer_not_reported],
    [LineDiscipline.split_output_doubles_return],
    [LineDiscipline.interrupt_leaves_text_on_screen], [LineDiscipline.eof_on_empty_line],
    [OutputFilter.accented_letter_mangled], [OutputFilter.split_after_escape],
    [PtyProps.raw_queue_grows], [PtyProps.half_line_out_of_order],
    [PtyProps.accented_key_one_byte], [PtyProps.slave_outlives_master],
    [VmFindings.mprotect_defeats_cow], [VmFindings.prot_none_keeps_access],
    [VmFindings.noncanonical_pointer_panics], [VmFindings.private_mapping_fills_cache],
    [VmFindings.mmap_replaces_hinted_mapping], [VmFindings.mremap_shrink_unmaps_kept_page],
    [VmFindings.mremap_of_applied_area_panics], [VmFindings.shmat_over_mapped_page_panics],
    [VmFindings.shmat_maps_kernel_half], [VmFindings.shmget_loses_frames],
    [VmFindings.shared_mmap_loses_frames], [VfsTmpfs.beneath_is_on_top],
    [VfsTmpfs.recursive_bind_reverses_stacks],
    [VfsTmpfs.recursive_bind_copies_unbindable], [VfsTmpfs.rename_below_bind_mount],
    [VfsTmpfs.rename_through_link], [VfsTmpfs.trailing_slash_lost_at_link],
    [VfsTmpfs.parent_before_link], [VfsTmpfs.private_mount_seen_outside],
    [VfsTmpfs.exit_detaches_propagated_mount], [UnixFindings.bind_replaces_file],
    [UnixFindings.drop_deletes_other_file], [UnixFindings.old_connection_takes_name],
    [UnixFindings.abstract_name_grows], [UnixFindings.shutdown_leaves_own_reader],
    [UnixFindings.reader_spins_on_objects], [UnixFindings.datagram_reader_wakes_nobody],
    [UnixFindings.empty_packet_waits], [UnixFindings.plain_read_misplaces_objects],
    [UnixFindings.objects_without_room_are_lost], [UnixFindings.connect_mixes_kinds],
    [UnixFindings.full_backlog_refuses_blocking], [OpenTmpfs.accounting_record_unseen],
    [OpenTmpfs.stale_cluster_published], [OpenTmpfs.eviction_queue_grows].  With
    more than one processor, which the build turns off, the scheduler also has the races of
    [ThreadsProps.exit_event_before_sleep], [ThreadsProps.timeout_before_sleep] and
    [ThreadsProps.runs_before_it_left].

    ** Fuel

    These loops are not structural.  [FileLocks.wait_chain_search] runs with
    [wait_chain_fuel], one more than the entries the wait table can push, and
    [wait_chain_search_total] shows that it always answers.  [AddrAreas.search_area] runs
    with [search_fuel], one more than the length of the area list; every round halves an
    interval of it, and [get_area_spec] covers every outcome.  The eviction loop of the
    block cache takes a block from the queue in every round but the last, so the length of
    the queue is enough ([BlockCache.ensure_capacity_loop_spec]); its multi-block read
    advances in every round, so the number of blocks is
    ([BlockCache.read_blocks_loop_spec]).  [Threads.wake_queue_loop] takes a thread from the
    queue in every round ([ThreadsProps.wake_queue_loop_spec] leaves it empty), and
    [Threads.pop_ready_loop] and [Futex.take_waiters_loop] look at each entry once, as the
    code does with the length it reads before the loop.
    [ProcessEnd.nearest_live_subreaper] climbs a tree with one more step than there are
    processes ([ProcessProps.subreaper_search_terminates]), and [Processes.allocate_loop]
    tries as many numbers as there are, as the code does.  A notification goes on from
    a poller once ([Poller.notify_fuel], shown enough by [PollerProps.event_reaches_sleepers]),
    and searches below a poller visit each once ([Poller.path_fuel]).  The filters of terminal output
    consume at least a byte in every round, so the length of the text is enough, and so do
    the copies to and from user memory ([VmUser.write_bytes], [VmUser.read_bytes]) and the
    write-back of a chunk.  [VmCalls.covers_loop] goes to the end of another area in every
    round.  A walk along a path follows at most 40 links, so [Vfs.walk_fuel] is 41
    ([VfsResolve.walk_rounds_end]); [Vfs.clear_directory] takes the depth of the tree.  Each
    piece of a text has a byte, so the length of the text is enough for
    [UnixSocket.utf8_lossy_in] ([UnixSocketNames.lossy_fuel]).  An eviction goes
    through its queue once and takes one more round ([PageCache.evict_loop_spec]), and
    the loops of the page cache that read get a byte in every round but the last.  All other loops are
    structural.

    ** What is not modelled

    The frames of page tables, flushes of translation buffers and the mappings of the kernel
    itself; the buddy allocator of frames, a third-party crate; the context
    switch, interrupt entry and processors; other opened files and the listings of mounts, ext4, FUSE
    and the generated file systems; inet and packet sockets, the socket options that only
    answer a constant, netlink, event and display devices, drivers, interrupts, the
    program loader, and the host tools.  Hardware and third-party crates are outside the
    source: the cycle counter, [cpuid] and the calibration loops are arguments of Clock.
    Locks are taken to work: a section under one lock is atomic.

    Next in order: POSIX message queues and the key ring. *)

From Stdlib Require Import Sorted Permutation Strings.Byte.
From Stdlib Require Export ZArith Lia.
From stdpp Require Export tactics numbers base sorting fin_maps gmap strings list.

#[global] Open Scope Z_scope.

Declare Scope kernel_scope.
Delimit Scope kernel_scope with kernel.
#[global] Open Scope kernel_scope.

Create HintDb kernel.

(** ** Fallible results *)

(** [Result<A, E>] of the source; the error comes first so that [result E] is a
    monad in the sense of stdpp. *)
Inductive result (E A : Type) : Type :=
  | Ok (a : A)
  | Err (e : E).
Arguments Ok {E A} a.
Arguments Err {E A} e.

#[export] Instance result_eq_dec {E A} `{EqDecision E} `{EqDecision A} :
  EqDecision (result E A).
Proof. solve_decision. Defined.

#[export] Instance result_mret {E} : MRet (result E) := λ A a, Ok a.

#[export] Instance result_mbind {E} : MBind (result E) := λ A B f r,
  match r with Ok a => f a | Err e => Err e end.

#[export] Instance result_fmap {E} : FMap (result E) := λ A B f r,
  match r with Ok a => Ok (f a) | Err e => Err e end.

(** [Result::map_err] *)
Definition map_err {E E' A} (f : E → E') (r : result E A) : result E' A :=
  match r with Ok a => Ok a | Err e => Err (f e) end.

(** [Option::ok_or] *)
Definition ok_or {E A} (o : option A) (e : E) : result E A :=
  match o with Some a => Ok a | None => Err e end.

Definition is_ok {E A} (r : result E A) : bool :=
  match r with Ok _ => true | Err _ => false end.

(** [r?] in a body that threads a state [s]: the error leaves with that state. *)
Notation "'try' x ':=' r 'with' s 'in' k" :=
  (match r with Ok x => k | Err e => (Err e, s) end)
  (at level 10, x pattern, r at level 99, s at level 99, k at level 200) : kernel_scope.

(** An early [return Err(e)] in a body that threads a state [s]. *)
Notation "'bail' e 'when' b 'with' s ; k" :=
  (if b : bool then (Err e, s) else k)
  (at level 10, e at level 9, b at level 99, s at level 99, k at level 200) : kernel_scope.

(** ** Tactics *)

(** Case analysis on every [match]/[if] of the goal and hypotheses, then clean up. *)
Ltac destruct_all := repeat (case_match; simplify_eq/=); simplify_eq/=.

(** Boolean tests of the code to propositions. *)
Ltac boolify :=
  repeat match goal with
  | H : _ && _ = true |- _ => apply andb_true_iff in H as [? ?]
  | H : _ || _ = false |- _ => apply orb_false_iff in H as [? ?]
  | H : negb _ = true |- _ => apply negb_true_iff in H
  | H : negb _ = false |- _ => apply negb_false_iff in H
  | H : bool_decide _ = true |- _ => apply bool_decide_eq_true in H
  | H : bool_decide _ = false |- _ => apply bool_decide_eq_false in H
  | H : (_ =? _)%Z = true |- _ => apply Z.eqb_eq in H
  | H : (_ =? _)%Z = false |- _ => apply Z.eqb_neq in H
  | H : (_ <? _)%Z = true |- _ => apply Z.ltb_lt in H
  | H : (_ <? _)%Z = false |- _ => apply Z.ltb_ge in H
  | H : (_ <=? _)%Z = true |- _ => apply Z.leb_le in H
  | H : (_ <=? _)%Z = false |- _ => apply Z.leb_gt in H
  end.

(** ** Machine integers

    A w-bit unsigned integer is a [Z] in [0, 2^w); a signed one a [Z] in
    [-2^(w-1), 2^(w-1)).  [usize] is 64 bits wide on the only target. *)

Definition is_uint (w z : Z) : Prop := 0 ≤ z < 2 ^ w.
Definition is_sint (w z : Z) : Prop := - 2 ^ (w - 1) ≤ z < 2 ^ (w - 1).
Definition U64_MAX : Z := 18446744073709551615.
Definition I64_MAX : Z := 9223372036854775807.

(** [as uN] / wrapping arithmetic, and [as iN]. *)
Definition uwrap (w z : Z) : Z := z mod 2 ^ w.
Definition swrap (w z : Z) : Z := (z + 2 ^ (w - 1)) mod 2 ^ w - 2 ^ (w - 1).

Definition checked_add (w a b : Z) : option Z :=
  if a + b <? 2 ^ w then Some (a + b) else None.
Definition checked_sub (a b : Z) : option Z :=
  if b <=? a then Some (a - b) else None.
(** [uN::checked_add_signed] *)
Definition checked_add_signed (w a b : Z) : option Z :=
  if (0 <=? a + b) && (a + b <? 2 ^ w) then Some (a + b) else None.
Definition sat_add (w a b : Z) : Z := Z.min (a + b) (2 ^ w - 1).
Definition sat_mul (w a b : Z) : Z := Z.min (a * b) (2 ^ w - 1).
Definition sat_sub (a b : Z) : Z := Z.max 0 (a - b).
(** [uN::div_ceil] *)
Definition div_ceil (a b : Z) : Z := (a + b - 1) / b.

Lemma uwrap_id w z : is_uint w z → uwrap w z = z.
Proof. intros ?. by apply Z.mod_small. Qed.

Lemma uwrap_range w z : 0 ≤ w → is_uint w (uwrap w z).
Proof. intros ?. apply Z.mod_pos_bound. lia. Qed.

Lemma swrap_id w z : 0 < w → is_sint w z → swrap w z = z.
Proof.
  intros Hw [? ?]. unfold swrap. rewrite Z.mod_small; [lia|].
  assert (2 ^ w = 2 * 2 ^ (w - 1)) by (rewrite <- Z.pow_succ_r by lia; f_equal; lia). lia.
Qed.

Lemma swrap_range w z : 0 < w → is_sint w (swrap w z).
Proof.
  intros Hw. unfold swrap, is_sint.
  assert (2 ^ w = 2 * 2 ^ (w - 1)) by (rewrite <- Z.pow_succ_r by lia; f_equal; lia).
  pose proof (Z.mod_pos_bound (z + 2 ^ (w - 1)) (2 ^ w)). lia.
Qed.

#[export] Hint Resolve uwrap_range swrap_range : kernel.

(** ** Filters of lists *)

Lemma filter_agree {A} (P Q : A → Prop) `{∀ x, Decision (P x), ∀ x, Decision (Q x)} (l : list A) :
  (∀ x, x ∈ l → (P x ↔ Q x)) → filter P l = filter Q l.
Proof.
  induction l as [|x l IH]; intros Hl; [done|]. rewrite !filter_cons.
  rewrite IH by (intros y Hy; apply Hl; by right). pose proof (Hl x (list_elem_of_here _ _)). repeat case_decide; tauto || done.
Qed.

Lemma filter_keep {A} (P : A → Prop) `{∀ x, Decision (P x)} (l : list A) : (∀ x, x ∈ l → P x) → filter P l = l.
Proof.
  induction l as [|x l IH]; intros Hl; [done|]. rewrite filter_cons, decide_True by (apply Hl; left).
  f_equal. apply IH. intros y Hy. apply Hl. by right.
Qed.

Lemma sublist_map {A B} (f : A → B) (l k : list A) : sublist l k → sublist (map f l) (map f k).
Proof. induction 1; cbn; by constructor. Qed.

(** ** Bytes *)

Abbreviation byte := Byte.byte.
Abbreviation x00 := Byte.x00.

#[export] Instance byte_eq_dec : EqDecision byte := Byte.byte_eq_dec.

(** The value of a byte, and the low eight bits of an integer ([as u8]). *)
Definition byte_to_Z (b : byte) : Z := Z.of_N (Byte.to_N b).
Definition Z_to_byte (z : Z) : byte := default x00 (Byte.of_N (Z.to_N (z mod 256))).

Lemma byte_to_Z_range b : 0 ≤ byte_to_Z b < 256.
Proof. unfold byte_to_Z. pose proof (Byte.to_N_bounded b). lia. Qed.

Lemma Z_to_byte_to_Z b : Z_to_byte (byte_to_Z b) = b.
Proof.
  unfold Z_to_byte. rewrite Z.mod_small by apply byte_to_Z_range. unfold byte_to_Z.
  by rewrite N2Z.id, Byte.of_to_N.
Qed.

Lemma byte_to_Z_to_byte z : byte_to_Z (Z_to_byte z) = z mod 256.
Proof.
  unfold Z_to_byte, byte_to_Z. pose proof (Z.mod_pos_bound z 256).
  destruct (Byte.of_N (Z.to_N (z mod 256))) eqn:E; cbn.
  - apply Byte.to_of_N in E. rewrite E. lia.
  - apply Byte.of_N_None_iff in E. lia.
Qed.

(** [to_le_bytes] and [from_le_bytes] of an n-byte integer. *)
Fixpoint le_encode (n : nat) (z : Z) : list byte :=
  match n with
  | O => []
  | S n => Z_to_byte z :: le_encode n (z / 256)
  end.

Fixpoint le_decode (bs : list byte) : Z :=
  match bs with
  | [] => 0
  | b :: bs => byte_to_Z b + 256 * le_decode bs
  end.

Lemma length_le_encode n z : length (le_encode n z) = n.
Proof. revert z. induction n as [|n IH]; intros z; cbn; [done|]. by rewrite IH. Qed.

Lemma le_decode_encode n z : le_decode (le_encode n z) = z mod 256 ^ Z.of_nat n.
Proof.
  revert z. induction n as [|n IH]; intros z; cbn [le_encode le_decode].
  - by rewrite Z.mod_1_r.
  - rewrite IH, byte_to_Z_to_byte, Nat2Z.inj_succ, Z.pow_succ_r by lia.
    symmetry. apply Z.rem_mul_r; lia.
Qed.

Lemma le_decode_range bs : 0 ≤ le_decode bs < 256 ^ Z.of_nat (length bs).
Proof.
  induction bs as [|b bs IH]; cbn [le_decode length]; [done|].
  rewrite Nat2Z.inj_succ, Z.pow_succ_r by lia. pose proof (byte_to_Z_range b). lia.
Qed.

Lemma le_encode_decode bs : le_encode (length bs) (le_decode bs) = bs.
Proof.
  induction bs as [|b bs IH]; cbn [le_decode le_encode length]; [done|].
  pose proof (byte_to_Z_range b). f_equal.
  - rewrite <- (Z_to_byte_to_Z b) at 2. unfold Z_to_byte.
    replace ((byte_to_Z b + 256 * le_decode bs) mod 256) with (byte_to_Z b mod 256); [done|].
    rewrite Z.mul_comm. symmetry. apply Z_mod_plus_full.
  - replace ((byte_to_Z b + 256 * le_decode bs) / 256) with (le_decode bs); [done|].
    rewrite Z.mul_comm, Z.div_add by lia. rewrite (Z.div_small (byte_to_Z b)) by lia. lia.
Qed.

#[global] Arguments le_encode : simpl never.
#[global] Arguments le_decode : simpl never.

(** ** Lists indexed by machine integers *)

Definition zlen {A} (l : list A) : Z := Z.of_nat (length l).

(** [&l[a..b]] *)
Definition zslice {A} (l : list A) (a b : Z) : list A :=
  take (Z.to_nat (b - a)) (drop (Z.to_nat a) l).

(** [l[a..a + xs.len()].copy_from_slice(xs)] *)
Definition zsplice {A} (l : list A) (a : Z) (xs : list A) : list A :=
  take (Z.to_nat a) l ++ xs ++ drop (Z.to_nat a + length xs) l.

(** [l[a..b].fill(x)] *)
Definition zfill {A} (l : list A) (a b : Z) (x : A) : list A :=
  zsplice l a (replicate (Z.to_nat (b - a)) x).

Section zlist.
Context {A : Type}.
Implicit Types (l xs : list A) (x : A) (a b i : Z).

Lemma zlen_nonneg l : 0 ≤ zlen l.
Proof. unfold zlen. lia. Qed.

Lemma zlen_app l xs : zlen (l ++ xs) = zlen l + zlen xs.
Proof. unfold zlen. rewrite length_app. lia. Qed.

Lemma zlen_cons x l : zlen (x :: l) = zlen l + 1.
Proof. unfold zlen. cbn [length]. lia. Qed.

Lemma length_zslice l a b :
  0 ≤ a ≤ b → b ≤ zlen l → length (zslice l a b) = Z.to_nat (b - a).
Proof. unfold zslice, zlen. intros. rewrite length_take, length_drop. lia. Qed.

Lemma lookup_zslice l a b (k : nat) :
  0 ≤ a → (k < Z.to_nat (b - a))%nat → zslice l a b !! k = l !! (Z.to_nat a + k)%nat.
Proof. intros. unfold zslice. rewrite lookup_take_lt by lia. by rewrite lookup_drop. Qed.

Lemma length_zsplice l a xs :
  0 ≤ a → a + zlen xs ≤ zlen l → length (zsplice l a xs) = length l.
Proof.
  unfold zsplice, zlen. intros.
  rewrite !length_app, length_take, length_drop. lia.
Qed.

Lemma lookup_zsplice l a xs (k : nat) :
  0 ≤ a → a + zlen xs ≤ zlen l →
  zsplice l a xs !! k =
    if decide (Z.to_nat a ≤ k < Z.to_nat a + length xs)%nat
    then xs !! (k - Z.to_nat a)%nat else l !! k.
Proof.
  unfold zsplice, zlen. intros Ha Hl.
  destruct (decide _) as [Hk|Hk].
  - rewrite lookup_app_r; rewrite length_take; [|lia].
    replace (k - Z.to_nat a `min` length l)%nat with (k - Z.to_nat a)%nat by lia.
    rewrite lookup_app_l by lia. done.
  - destruct (decide (k < Z.to_nat a)%nat).
    + rewrite lookup_app_l by (rewrite length_take; lia). by rewrite lookup_take_lt by lia.
    + rewrite lookup_app_r; rewrite length_take; [|lia].
      rewrite lookup_app_r by lia. rewrite lookup_drop. f_equal. lia.
Qed.

Lemma zsplice_nil l a : zsplice l a [] = l.
Proof. unfold zsplice. cbn. by rewrite Nat.add_0_r, take_drop. Qed.

Lemma zlen_zslice l a b : 0 ≤ a ≤ b → b ≤ zlen l → zlen (zslice l a b) = b - a.
Proof. intros. unfold zlen at 1. rewrite length_zslice by done. lia. Qed.

Lemma zlen_zsplice l a xs : 0 ≤ a → a + zlen xs ≤ zlen l → zlen (zsplice l a xs) = zlen l.
Proof. intros. unfold zlen at 1. by rewrite length_zsplice. Qed.

Lemma zslice_all l a : a = zlen l → zslice l 0 a = l.
Proof. intros ->. unfold zslice, zlen. cbn. apply take_ge. lia. Qed.

Lemma zslice_nil l a b : b ≤ a → zslice l a b = [].
Proof. intros. unfold zslice. replace (Z.to_nat (b - a)) with 0%nat by lia. done. Qed.

Lemma zslice_app l a b c : 0 ≤ a ≤ b → b ≤ c → zslice l a b ++ zslice l b c = zslice l a c.
Proof.
  intros Hab Hbc. unfold zslice. replace (Z.to_nat b) with (Z.to_nat a + Z.to_nat (b - a))%nat by lia.
  rewrite <- drop_drop. replace (Z.to_nat (c - a)) with (Z.to_nat (b - a) + Z.to_nat (c - b))%nat by lia.
  by rewrite take_take_drop.
Qed.

Lemma zslice_zslice l a b c d :
  0 ≤ a → 0 ≤ c → a + d ≤ b → zslice (zslice l a b) c d = zslice l (a + c) (a + d).
Proof.
  intros. unfold zslice. rewrite skipn_firstn_comm, drop_drop, take_take. f_equal; [lia|].
  f_equal. lia.
Qed.

Lemma zslice_app_left l xs a b : 0 ≤ a → b ≤ zlen l → zslice (l ++ xs) a b = zslice l a b.
Proof.
  intros Ha Hb. unfold zslice, zlen in *. destruct (decide (a ≤ zlen l)) as [Hl|Hl]; unfold zlen in Hl.
  - rewrite drop_app_le by lia. by rewrite take_app_le by (rewrite length_drop; lia).
  - by replace (Z.to_nat (b - a)) with 0%nat by lia.
Qed.

Lemma zslice_app_right l xs a b :
  zlen l ≤ a → zslice (l ++ xs) a b = zslice xs (a - zlen l) (b - zlen l).
Proof.
  intros Ha. unfold zslice, zlen in *. rewrite drop_app_ge by lia. f_equal; [lia|]. f_equal. lia.
Qed.

(** A slice that a splice contains, and one that it does not touch. *)
Lemma zslice_zsplice_in l a xs c d :
  0 ≤ a → a + zlen xs ≤ zlen l → a ≤ c → d ≤ a + zlen xs →
  zslice (zsplice l a xs) c d = zslice xs (c - a) (d - a).
Proof.
  intros Ha Hl Hc Hd. unfold zsplice, zlen in *.
  assert (length (take (Z.to_nat a) l) = Z.to_nat a) as Ht by (rewrite length_take; lia).
  rewrite zslice_app_right by (unfold zlen; lia). unfold zlen. rewrite Ht, Z2Nat.id by lia.
  apply zslice_app_left; unfold zlen; lia.
Qed.

Lemma zslice_zsplice_out l a xs c d :
  0 ≤ a → a + zlen xs ≤ zlen l → 0 ≤ c → d ≤ zlen l → d ≤ a ∨ a + zlen xs ≤ c →
  zslice (zsplice l a xs) c d = zslice l c d.
Proof.
  intros Ha Hl Hc Hd Hout. destruct (decide (d ≤ c)) as [|Hcd]; [by rewrite !zslice_nil|].
  apply list_eq_same_length with (n := Z.to_nat (d - c)).
  - apply length_zslice; [lia|done].
  - apply length_zslice; [lia|]. by rewrite zlen_zsplice.
  - intros k x y Hk. rewrite !lookup_zslice by lia. rewrite lookup_zsplice by done.
    unfold zlen in *. rewrite decide_False by lia. congruence.
Qed.

Lemma zsplice_app l a xs ys :
  0 ≤ a → a + zlen xs + zlen ys ≤ zlen l →
  zsplice l a (xs ++ ys) = zsplice (zsplice l a xs) (a + zlen xs) ys.
Proof.
  intros Ha Hl. pose proof (zlen_nonneg xs). pose proof (zlen_nonneg ys). apply list_eq. intros k.
  rewrite lookup_zsplice by (rewrite ?zlen_app; lia).
  rewrite lookup_zsplice by (rewrite ?zlen_zsplice by lia; lia). rewrite lookup_zsplice by lia.
  unfold zlen in *. rewrite length_app. repeat case_decide; try lia; [| |done].
  - rewrite lookup_app_r by lia. f_equal. lia.
  - by rewrite lookup_app_l by lia.
Qed.

Lemma zslice_zsplice_front l a xs n :
  0 ≤ a → a + zlen xs ≤ n → n ≤ zlen l → zslice (zsplice l a xs) 0 n = zsplice (zslice l 0 n) a xs.
Proof.
  intros Ha Hx Hn. pose proof (zlen_nonneg xs).
  assert (zlen (zslice l 0 n) = n) as Hz by (rewrite zlen_zslice; lia).
  apply list_eq_same_length with (n := Z.to_nat n).
  - apply Nat2Z.inj. fold (zlen (zsplice (zslice l 0 n) a xs)). rewrite zlen_zsplice; lia.
  - rewrite length_zslice; [lia|lia|]. rewrite zlen_zsplice; lia.
  - intros k x y Hk. rewrite lookup_zslice by lia. rewrite !lookup_zsplice by lia.
    rewrite lookup_zslice by lia. change (Z.to_nat 0) with 0%nat. rewrite Nat.add_0_l.
    case_decide; congruence.
Qed.

(** Changing a slice and putting it back. *)
Lemma zsplice_zslice l a b o xs :
  0 ≤ a → 0 ≤ o → a + o + zlen xs ≤ b → b ≤ zlen l →
  zsplice l a (zsplice (zslice l a b) o xs) = zsplice l (a + o) xs.
Proof.
  intros Ha Ho Hx Hb. pose proof (zlen_nonneg xs). assert (zlen (zslice l a b) = b - a) as Hs by (apply zlen_zslice; lia).
  assert (zlen (zsplice (zslice l a b) o xs) = b - a) as Hz by (rewrite zlen_zsplice; lia).
  apply list_eq. intros k. rewrite lookup_zsplice by lia. rewrite lookup_zsplice by lia.
  rewrite lookup_zsplice by lia. unfold zlen in *. repeat case_decide; try lia; try done.
  - f_equal. lia.
  - rewrite lookup_zslice by lia. f_equal. lia.
Qed.
End zlist.

(** ** Byte arrays by blocks of [bs] *)

Section blocks.
Context {A : Type} (bs : Z) (Hbs : 0 < bs).
Implicit Types (l : list A).

Definition block_slice (l : list A) (id : Z) : list A := zslice l (id * bs) ((id + 1) * bs).

Lemma zlen_block_slice l id : 0 ≤ id → (id + 1) * bs ≤ zlen l → zlen (block_slice l id) = bs.
Proof. intros. unfold block_slice. rewrite zlen_zslice; lia. Qed.

Lemma block_slices_ext l l' a (n : nat) :
  0 ≤ a → (∀ id, a ≤ id < a + Z.of_nat n → block_slice l id = block_slice l' id) →
  zslice l (a * bs) ((a + Z.of_nat n) * bs) = zslice l' (a * bs) ((a + Z.of_nat n) * bs).
Proof.
  intros Ha. induction n as [|n IH]; intros Hid; [by rewrite !zslice_nil by lia|].
  rewrite <- (zslice_app l _ ((a + Z.of_nat n) * bs)), <- (zslice_app l' _ ((a + Z.of_nat n) * bs)) by nia.
  rewrite IH by (intros; apply Hid; lia). f_equal.
  replace (a + Z.of_nat (S n)) with (a + Z.of_nat n + 1) by lia. apply (Hid (a + Z.of_nat n)). lia.
Qed.

Lemma block_lists_ext l l' n :
  0 ≤ n → zlen l = n * bs → zlen l' = n * bs →
  (∀ id, 0 ≤ id < n → block_slice l id = block_slice l' id) → l = l'.
Proof.
  intros Hn Hl Hl' Hid. pose proof (block_slices_ext l l' 0 (Z.to_nat n)) as He.
  rewrite Z2Nat.id, Z.mul_0_l, Z.add_0_l, !zslice_all in He by lia. apply He; [lia|]. intros. apply Hid. lia.
Qed.

Lemma block_slice_zsplice l a n xs id :
  0 ≤ a → zlen xs = n * bs → (a + n) * bs ≤ zlen l → 0 ≤ id → (id + 1) * bs ≤ zlen l →
  block_slice (zsplice l (a * bs) xs) id =
  if decide (a ≤ id < a + n) then block_slice xs (id - a) else block_slice l id.
Proof.
  intros Ha Hx Hl Hid Hi. unfold block_slice. case_decide.
  - rewrite zslice_zsplice_in by nia. f_equal; lia.
  - rewrite zslice_zsplice_out by nia. done.
Qed.

Lemma block_slice_concat (f : Z → list A) s (n : nat) id :
  (∀ i, s ≤ i < s + Z.of_nat n → zlen (f i) = bs) → s ≤ id < s + Z.of_nat n →
  block_slice (concat (map f (seqZ s (Z.of_nat n)))) (id - s) = f id.
Proof.
  revert s. induction n as [|n IH]; intros s Hf Hid; [lia|].
  rewrite seqZ_cons by lia. cbn [map concat]. unfold block_slice.
  assert (zlen (f s) = bs) as Hfs by (apply Hf; lia). destruct (decide (id = s)) as [->|].
  - rewrite zslice_app_left by nia. replace ((s - s) * bs) with 0 by lia. apply zslice_all. lia.
  - rewrite zslice_app_right by nia. rewrite Hfs. replace (Z.pred (Z.of_nat (S n))) with (Z.of_nat n) by lia.
    replace ((id - s) * bs - bs) with ((id - Z.succ s) * bs) by lia.
    replace ((id - s + 1) * bs - bs) with ((id - Z.succ s + 1) * bs) by lia.
    apply IH; [|lia]. intros i Hi. apply Hf. lia.
Qed.

Lemma zlen_concat_blocks (f : Z → list A) s (n : nat) :
  (∀ i, s ≤ i < s + Z.of_nat n → zlen (f i) = bs) →
  zlen (concat (map f (seqZ s (Z.of_nat n)))) = Z.of_nat n * bs.
Proof.
  revert s. induction n as [|n IH]; intros s Hf; [done|].
  rewrite seqZ_cons by lia. cbn [map concat]. replace (Z.pred (Z.of_nat (S n))) with (Z.of_nat n) by lia.
  rewrite zlen_app, IH, Hf by (lia || (intros; apply Hf; lia)). lia.
Qed.
End blocks.

(** ** Stable sorting and minimum by key, as [slice::sort_by_key] (stable) and
    [Iterator::min_by_key] (the first of several minima) do it *)

Section sort_by.
Context {A : Type} (le : A → A → bool).

Fixpoint insert_by (x : A) (l : list A) : list A :=
  match l with
  | [] => [x]
  | y :: l' => if le x y then x :: y :: l' else y :: insert_by x l'
  end.

Definition sort_by (l : list A) : list A := foldr insert_by [] l.

Definition min_by (l : list A) : option A :=
  match l with
  | [] => None
  | x :: l' => Some (foldl (λ m y, if le m y then m else y) x l')
  end.

Lemma insert_by_perm x l : Permutation (insert_by x l) (x :: l).
Proof.
  induction l as [|y l IH]; cbn; [done|]. destruct (le x y); [done|].
  rewrite IH. constructor.
Qed.

Lemma sort_by_perm l : Permutation (sort_by l) l.
Proof. induction l as [|x l IH]; cbn; [done|]. by rewrite insert_by_perm, IH. Qed.

Lemma elem_of_sort_by l x : x ∈ sort_by l ↔ x ∈ l.
Proof. by rewrite sort_by_perm. Qed.

Context (le_total : ∀ x y, le x y = true ∨ le y x = true)
        (le_trans : ∀ x y z, le x y = true → le y z = true → le x z = true).

Lemma insert_by_sorted x l :
  StronglySorted (λ a b, le a b = true) l →
  StronglySorted (λ a b, le a b = true) (insert_by x l).
Proof.
  induction 1 as [|y l Hl IH Hy]; cbn; [repeat constructor|].
  destruct (le x y) eqn:Hxy.
  - constructor; [by constructor|]. constructor; [done|].
    eapply List.Forall_impl; [|exact Hy]. cbn. eauto.
  - constructor; [done|]. rewrite insert_by_perm. constructor; [|done].
    destruct (le_total x y); congruence.
Qed.

Lemma sort_by_sorted l : StronglySorted (λ a b, le a b = true) (sort_by l).
Proof. induction l; cbn; [constructor|]. by apply insert_by_sorted. Qed.

Lemma min_by_none l : min_by l = None ↔ l = [].
Proof. by destruct l. Qed.

Lemma foldl_min_spec l m :
  let r := foldl (λ m y, if le m y then m else y) m l in
  r ∈ m :: l ∧ (∀ y, y ∈ m :: l → le r y = true).
Proof.
  revert m. induction l as [|x l IH]; intros m; cbn.
  - split; [constructor|]. intros y ->%list_elem_of_singleton. by destruct (le_total m m).
  - destruct (le m x) eqn:Hmx.
    + destruct (IH m) as [Hin Hmin]. rewrite elem_of_cons in Hin. split.
      * rewrite !elem_of_cons. destruct Hin; auto.
      * assert (Hm := Hmin m (list_elem_of_here _ _)).
        intros y. rewrite !elem_of_cons. intros [->|[->|Hy]]; [done|by eapply le_trans|].
        apply Hmin. by constructor.
    + destruct (IH x) as [Hin Hmin]. rewrite elem_of_cons in Hin. split.
      * rewrite !elem_of_cons. destruct Hin; auto.
      * assert (Hx := Hmin x (list_elem_of_here _ _)).
        intros y. rewrite !elem_of_cons. intros [->|[->|Hy]]; [|done|].
        -- eapply le_trans; [exact Hx|]. destruct (le_total m x); congruence.
        -- apply Hmin. by constructor.
Qed.

Lemma min_by_some l r :
  min_by l = Some r → r ∈ l ∧ (∀ y, y ∈ l → le r y = true).
Proof. destruct l as [|x l]; intros [= <-]. apply foldl_min_spec. Qed.

Lemma foldl_min_split l m :
  let r := foldl (λ m y, if le m y then m else y) m l in
  (r = m ∧ ∀ y, y ∈ l → le m y = true) ∨
  ∃ l1 l2, l = l1 ++ r :: l2 ∧ le m r = false ∧
    (∀ y, y ∈ l1 → le y r = false) ∧ (∀ y, y ∈ l2 → le r y = true).
Proof.
  revert m. induction l as [|x l IH]; intros m; cbn.
  { left. split; [done|]. by intros y ?%elem_of_nil. }
  destruct (le m x) eqn:Hmx.
  - destruct (IH m) as [[-> Hl]|(l1 & l2 & Hl & Hmr & H1 & H2)].
    + left. split; [done|]. by intros y [->|Hy]%elem_of_cons; [|apply Hl].
    + right. exists (x :: l1), l2. rewrite Hl at 1. split_and!; try done.
      intros y [->|Hy]%elem_of_cons; [|by apply H1].
      apply not_true_iff_false. intros Hxr. rewrite (le_trans m x) in Hmr by done. done.
  - assert (le x m = true) as Hxm by (destruct (le_total x m); congruence). right.
    destruct (IH x) as [[-> Hl]|(l1 & l2 & Hl & Hxr & H1 & H2)].
    + exists [], l. split_and!; try done. by intros y ?%elem_of_nil.
    + exists (x :: l1), l2. rewrite Hl at 1. split_and!; try done.
      * apply not_true_iff_false. intros Hmr. rewrite (le_trans x m) in Hxr by done. done.
      * by intros y [->|Hy]%elem_of_cons; [|apply H1].
Qed.

(** Everything before the minimum is strictly greater: it is the first one. *)
Lemma min_by_first l r :
  min_by l = Some r →
  ∃ l1 l2, l = l1 ++ r :: l2 ∧ (∀ y, y ∈ l1 → le y r = false) ∧ (∀ y, y ∈ l2 → le r y = true).
Proof.
  destruct l as [|x l]; intros [= Hr]. pose proof (foldl_min_split l x) as H. cbn in H.
  rewrite Hr in H. destruct H as [[-> Hl]|(l1 & l2 & -> & Hxr & H1 & H2)].
  - exists [], l. split_and!; try done. by intros y ?%elem_of_nil.
  - exists (x :: l1), l2. split_and!; try done. by intros y [->|Hy]%elem_of_cons; [|apply H1].
Qed.
End sort_by.

(** Tuples of integers are compared as lists, lexicographically. *)
Fixpoint lex_leb (xs ys : list Z) : bool :=
  match xs, ys with
  | [], _ => true
  | _ :: _, [] => false
  | x :: xs', y :: ys' => (x <? y) || ((x =? y) && lex_leb xs' ys')
  end.

Lemma lex_leb_total xs ys : lex_leb xs ys = true ∨ lex_leb ys xs = true.
Proof.
  revert ys. induction xs as [|x xs IH]; intros [|y ys]; cbn; auto.
  destruct (Z.lt_trichotomy x y) as [?|[->|?]].
  - left. apply orb_true_iff. left. lia.
  - rewrite Z.ltb_irrefl, Z.eqb_refl. cbn. apply IH.
  - right. apply orb_true_iff. left. lia.
Qed.

Lemma lex_leb_trans xs ys zs :
  lex_leb xs ys = true → lex_leb ys zs = true → lex_leb xs zs = true.
Proof.
  revert ys zs. induction xs as [|x xs IH]; intros [|y ys] [|z zs]; cbn; auto; try discriminate.
  rewrite !orb_true_iff, !andb_true_iff, !Z.ltb_lt, !Z.eqb_eq.
  intros [?|[-> ?]] [?|[-> ?]]; [left; lia|left; lia|left; lia|right; eauto].
Qed.

#[export] Hint Resolve lex_leb_total lex_leb_trans : kernel.

(** A vector pushed to under a condition. *)
Lemma elem_of_if {A} (c : bool) (x y : A) : x ∈ (if c then [y] else []) ↔ c = true ∧ x = y.
Proof.
  destruct c; rewrite ?list_elem_of_singleton, ?elem_of_nil; [tauto|].
  split; [done|by intros [? _]].
Qed.

(** ** Ordered maps: [BTreeMap] iteration *)

(** [map.iter()]: the bindings in increasing key order. *)
Definition btree_iter {V} (m : gmap Z V) : list (Z * V) :=
  sort_by (λ a b, a.1 <=? b.1) (map_to_list m).

(** [map.iter().find(P)] *)
Definition btree_find {V} (P : V → bool) (m : gmap Z V) : option (Z * V) :=
  List.find (λ kv, P kv.2) (btree_iter m).

Lemma elem_of_btree_iter {V} (m : gmap Z V) k v : (k, v) ∈ btree_iter m ↔ m !! k = Some v.
Proof. unfold btree_iter. by rewrite elem_of_sort_by, elem_of_map_to_list. Qed.

Lemma btree_find_some {V} (P : V → bool) (m : gmap Z V) k v :
  btree_find P m = Some (k, v) → m !! k = Some v ∧ P v = true.
Proof.
  intros [Hin HP]%find_some. rewrite <- list_elem_of_In in Hin.
  by apply elem_of_btree_iter in Hin.
Qed.

Lemma btree_find_none {V} (P : V → bool) (m : gmap Z V) k v :
  btree_find P m = None → m !! k = Some v → P v = false.
Proof.
  intros Hn Hk. apply elem_of_btree_iter, list_elem_of_In in Hk.
  exact (find_none _ _ Hn _ Hk).
Qed.
