(* ===== verification/Errors.v ===== *)
(** * Error values and their errno encoding

    [SyscallError] (systemcall/utils.rs) is what a handler returns to user space as a
    negative errno; each subsystem has its own error type with [as_syscall_error]
    (filesystem/errors.rs, filesystem/block_device.rs, socket/error.rs, object/error.rs),
    and [KernelError] (misc/error.rs) wraps them. *)

From S2P Require Import Prelude.

Module SyscallError.
Inductive SyscallError : Type :=
  | PermissionDenied
  | FileNotFound
  | NoProcess
  | Interrupted
  | IOError
  | ArgumentListTooLong
  | ExecFormatError
  | BadFileDescriptor
  | NoChildProcesses
  | TryAgain
  | NoMemory
  | AccessDenied
  | BadAddress
  | BlockDeviceRequired
  | DeviceOrResourceBusy
  | FileAlreadyExists
  | CrossDeviceLink
  | NoDevice
  | NotADirectory
  | IsADirectory
  | InvalidArguments
  | TooManyOpenFilesSystem
  | TooManyOpenFilesProcess
  | InappropriateIoctl
  | FileTooLarge
  | NoSpaceLeft
  | QuotaExceeded
  | IllegalSeek
  | ReadOnlyFileSystem
  | BrokenPipe
  | NumericalArgumentOutOfDomain
  | RangeError
  | ValueTooLarge
  | PathTooLong
  | ResourceDeadlock
  | NoMessage
  | IdentifierRemoved
  | NoSyscall
  | DirectoryNotEmpty
  | TooManySymbolicLinks
  | NoData
  | NotSocket
  | OperationNotSupported
  | SocketTypeNotSupported
  | ProtocolNotSupported
  | ProtocolOptionNotSupported
  | MessageTooLong
  | AddressFamilyNotSupported
  | AddressInUse
  | AddressNotAvailable
  | NetworkDown
  | IsConnected
  | NotConnected
  | TimedOut
  | ConnectionRefused
  | NoKey
  | KeyExpired
  | KeyRevoked
  | KeyRejected.
End SyscallError.
Abbreviation SyscallError := SyscallError.SyscallError.

#[export] Instance SyscallError_eq_dec : EqDecision SyscallError.
Proof. solve_decision. Defined.

(** [SyscallError::as_isize]: the explicit discriminants of the enum. *)
Definition as_isize (e : SyscallError) : Z :=
  match e with
  | SyscallError.PermissionDenied => -1
  | SyscallError.FileNotFound => -2
  | SyscallError.NoProcess => -3
  | SyscallError.Interrupted => -4
  | SyscallError.IOError => -5
  | SyscallError.ArgumentListTooLong => -7
  | SyscallError.ExecFormatError => -8
  | SyscallError.BadFileDescriptor => -9
  | SyscallError.NoChildProcesses => -10
  | SyscallError.TryAgain => -11
  | SyscallError.NoMemory => -12
  | SyscallError.AccessDenied => -13
  | SyscallError.BadAddress => -14
  | SyscallError.BlockDeviceRequired => -15
  | SyscallError.DeviceOrResourceBusy => -16
  | SyscallError.FileAlreadyExists => -17
  | SyscallError.CrossDeviceLink => -18
  | SyscallError.NoDevice => -19
  | SyscallError.NotADirectory => -20
  | SyscallError.IsADirectory => -21
  | SyscallError.InvalidArguments => -22
  | SyscallError.TooManyOpenFilesSystem => -23
  | SyscallError.TooManyOpenFilesProcess => -24
  | SyscallError.InappropriateIoctl => -25
  | SyscallError.FileTooLarge => -27
  | SyscallError.NoSpaceLeft => -28
  | SyscallError.QuotaExceeded => -122
  | SyscallError.IllegalSeek => -29
  | SyscallError.ReadOnlyFileSystem => -30
  | SyscallError.BrokenPipe => -32
  | SyscallError.NumericalArgumentOutOfDomain => -33
  | SyscallError.RangeError => -34
  | SyscallError.ValueTooLarge => -75
  | SyscallError.PathTooLong => -36
  | SyscallError.ResourceDeadlock => -35
  | SyscallError.NoMessage => -42
  | SyscallError.IdentifierRemoved => -43
  | SyscallError.NoSyscall => -38
  | SyscallError.DirectoryNotEmpty => -39
  | SyscallError.TooManySymbolicLinks => -40
  | SyscallError.NoData => -61
  | SyscallError.NotSocket => -88
  | SyscallError.OperationNotSupported => -95
  | SyscallError.SocketTypeNotSupported => -94
  | SyscallError.ProtocolNotSupported => -93
  | SyscallError.ProtocolOptionNotSupported => -92
  | SyscallError.MessageTooLong => -90
  | SyscallError.AddressFamilyNotSupported => -97
  | SyscallError.AddressInUse => -98
  | SyscallError.AddressNotAvailable => -99
  | SyscallError.NetworkDown => -100
  | SyscallError.IsConnected => -106
  | SyscallError.NotConnected => -107
  | SyscallError.TimedOut => -110
  | SyscallError.ConnectionRefused => -111
  | SyscallError.NoKey => -126
  | SyscallError.KeyExpired => -127
  | SyscallError.KeyRevoked => -128
  | SyscallError.KeyRejected => -129
  end.

(** [impl From<isize> for SyscallError] *)
Definition syscall_error_from (value : Z) : SyscallError :=
  if value =? -1 then SyscallError.PermissionDenied else
  if value =? -2 then SyscallError.FileNotFound else
  if value =? -3 then SyscallError.NoProcess else
  if value =? -4 then SyscallError.Interrupted else
  if value =? -5 then SyscallError.IOError else
  if value =? -7 then SyscallError.ArgumentListTooLong else
  if value =? -8 then SyscallError.ExecFormatError else
  if value =? -9 then SyscallError.BadFileDescriptor else
  if value =? -10 then SyscallError.NoChildProcesses else
  if value =? -11 then SyscallError.TryAgain else
  if value =? -12 then SyscallError.NoMemory else
  if value =? -13 then SyscallError.AccessDenied else
  if value =? -14 then SyscallError.BadAddress else
  if value =? -16 then SyscallError.DeviceOrResourceBusy else
  if value =? -17 then SyscallError.FileAlreadyExists else
  if value =? -18 then SyscallError.CrossDeviceLink else
  if value =? -19 then SyscallError.NoDevice else
  if value =? -20 then SyscallError.NotADirectory else
  if value =? -21 then SyscallError.IsADirectory else
  if value =? -22 then SyscallError.InvalidArguments else
  if value =? -23 then SyscallError.TooManyOpenFilesSystem else
  if value =? -24 then SyscallError.TooManyOpenFilesProcess else
  if value =? -25 then SyscallError.InappropriateIoctl else
  if value =? -27 then SyscallError.FileTooLarge else
  if value =? -28 then SyscallError.NoSpaceLeft else
  if value =? -122 then SyscallError.QuotaExceeded else
  if value =? -29 then SyscallError.IllegalSeek else
  if value =? -30 then SyscallError.ReadOnlyFileSystem else
  if value =? -32 then SyscallError.BrokenPipe else
  if value =? -33 then SyscallError.NumericalArgumentOutOfDomain else
  if value =? -34 then SyscallError.RangeError else
  if value =? -75 then SyscallError.ValueTooLarge else
  if value =? -35 then SyscallError.ResourceDeadlock else
  if value =? -36 then SyscallError.PathTooLong else
  if value =? -42 then SyscallError.NoMessage else
  if value =? -43 then SyscallError.IdentifierRemoved else
  if value =? -38 then SyscallError.NoSyscall else
  if value =? -39 then SyscallError.DirectoryNotEmpty else
  if value =? -40 then SyscallError.TooManySymbolicLinks else
  if value =? -61 then SyscallError.NoData else
  if value =? -88 then SyscallError.NotSocket else
  if value =? -90 then SyscallError.MessageTooLong else
  if value =? -95 then SyscallError.OperationNotSupported else
  if value =? -94 then SyscallError.SocketTypeNotSupported else
  if value =? -93 then SyscallError.ProtocolNotSupported else
  if value =? -92 then SyscallError.ProtocolOptionNotSupported else
  if value =? -97 then SyscallError.AddressFamilyNotSupported else
  if value =? -98 then SyscallError.AddressInUse else
  if value =? -99 then SyscallError.AddressNotAvailable else
  if value =? -100 then SyscallError.NetworkDown else
  if value =? -106 then SyscallError.IsConnected else
  if value =? -107 then SyscallError.NotConnected else
  if value =? -110 then SyscallError.TimedOut else
  if value =? -111 then SyscallError.ConnectionRefused else
  if value =? -126 then SyscallError.NoKey else
  if value =? -127 then SyscallError.KeyExpired else
  if value =? -128 then SyscallError.KeyRevoked else
  if value =? -129 then SyscallError.KeyRejected else
  SyscallError.IOError.

(** filesystem/block_device.rs *)
Module BlockDeviceError.
Inductive BlockDeviceError : Type :=
  | Readonly
  | OutOfBounds
  | BufferTooSmall
  | Other.
End BlockDeviceError.
Abbreviation BlockDeviceError := BlockDeviceError.BlockDeviceError.

#[export] Instance BlockDeviceError_eq_dec : EqDecision BlockDeviceError.
Proof. solve_decision. Defined.

Definition block_device_error_as_syscall_error (e : BlockDeviceError) : SyscallError :=
  match e with
  | BlockDeviceError.Readonly => SyscallError.ReadOnlyFileSystem
  | BlockDeviceError.OutOfBounds => SyscallError.InvalidArguments
  | BlockDeviceError.BufferTooSmall => SyscallError.InvalidArguments
  | BlockDeviceError.Other => SyscallError.IOError
  end.

(** filesystem/errors.rs *)
Module FSError.
Inductive FSError : Type :=
  | NotFound
  | NotADirectory
  | NotAFile
  | NotASymlink
  | AlreadyExists
  | Busy
  | DirectoryNotEmpty
  | NoSpace
  | IllegalSeek
  | InvalidArguments
  | RangeError
  | AccessDenied
  | PermissionDenied
  | PathTooLong
  | ExecFormat
  | TooManySymlinks
  | Readonly
  | OperationNotSupported
  | Other
  | StorageDeviceError (err : BlockDeviceError).
End FSError.
Abbreviation FSError := FSError.FSError.

#[export] Instance FSError_eq_dec : EqDecision FSError.
Proof. solve_decision. Defined.

Definition fs_error_as_syscall_error (e : FSError) : SyscallError :=
  match e with
  | FSError.NotFound => SyscallError.FileNotFound
  | FSError.NotADirectory => SyscallError.NotADirectory
  | FSError.NotAFile => SyscallError.IsADirectory
  | FSError.NotASymlink => SyscallError.InvalidArguments
  | FSError.AlreadyExists => SyscallError.FileAlreadyExists
  | FSError.Busy => SyscallError.DeviceOrResourceBusy
  | FSError.DirectoryNotEmpty => SyscallError.DirectoryNotEmpty
  | FSError.NoSpace => SyscallError.NoSpaceLeft
  | FSError.IllegalSeek => SyscallError.IllegalSeek
  | FSError.InvalidArguments => SyscallError.InvalidArguments
  | FSError.RangeError => SyscallError.RangeError
  | FSError.AccessDenied => SyscallError.AccessDenied
  | FSError.PermissionDenied => SyscallError.PermissionDenied
  | FSError.PathTooLong => SyscallError.PathTooLong
  | FSError.ExecFormat => SyscallError.ExecFormatError
  | FSError.TooManySymlinks => SyscallError.TooManySymbolicLinks
  | FSError.Readonly => SyscallError.ReadOnlyFileSystem
  | FSError.OperationNotSupported => SyscallError.OperationNotSupported
  | FSError.StorageDeviceError err => block_device_error_as_syscall_error err
  | FSError.Other => SyscallError.IOError
  end.

(** socket/error.rs *)
Module SocketError.
Inductive SocketError : Type :=
  | TryAgain
  | InvalidArguments
  | OperationNotSupported
  | SocketTypeNotSupported
  | AddressFamilyNotSupported
  | ProtocolNotSupported
  | ProtocolOptionNotSupported
  | AddressInUse
  | AddressNotAvailable
  | NetworkDown
  | NotADirectory
  | IoError
  | AccessDenied
  | PermissionDenied
  | IsConnected
  | NotConnected
  | MessageTooLong
  | ConnectionRefused
  | BrokenPipe.
End SocketError.
Abbreviation SocketError := SocketError.SocketError.

#[export] Instance SocketError_eq_dec : EqDecision SocketError.
Proof. solve_decision. Defined.

Definition socket_error_as_syscall_error (e : SocketError) : SyscallError :=
  match e with
  | SocketError.TryAgain => SyscallError.TryAgain
  | SocketError.InvalidArguments => SyscallError.InvalidArguments
  | SocketError.OperationNotSupported => SyscallError.OperationNotSupported
  | SocketError.SocketTypeNotSupported => SyscallError.SocketTypeNotSupported
  | SocketError.AddressFamilyNotSupported => SyscallError.AddressFamilyNotSupported
  | SocketError.ProtocolNotSupported => SyscallError.ProtocolNotSupported
  | SocketError.ProtocolOptionNotSupported => SyscallError.ProtocolOptionNotSupported
  | SocketError.AddressInUse => SyscallError.AddressInUse
  | SocketError.AddressNotAvailable => SyscallError.AddressNotAvailable
  | SocketError.NetworkDown => SyscallError.NetworkDown
  | SocketError.NotADirectory => SyscallError.NotADirectory
  | SocketError.IoError => SyscallError.IOError
  | SocketError.AccessDenied => SyscallError.AccessDenied
  | SocketError.PermissionDenied => SyscallError.PermissionDenied
  | SocketError.IsConnected => SyscallError.IsConnected
  | SocketError.NotConnected => SyscallError.NotConnected
  | SocketError.MessageTooLong => SyscallError.MessageTooLong
  | SocketError.ConnectionRefused => SyscallError.ConnectionRefused
  | SocketError.BrokenPipe => SyscallError.BrokenPipe
  end.

(** object/error.rs *)
Module ObjectError.
Inductive ObjectError : Type :=
  | DoesNotExist
  | BadAddress
  | Interrupted
  | TryAgain
  | Busy
  | DeviceRevoked
  | InvalidRequest
  | TooManyOpenFilesProcess
  | InvalidArguments
  | Unimplemented
  | SocketError (err : SocketError)
  | FSError (err : FSError)
  | Other.
End ObjectError.
Abbreviation ObjectError := ObjectError.ObjectError.

#[export] Instance ObjectError_eq_dec : EqDecision ObjectError.
Proof. solve_decision. Defined.

Definition object_error_as_syscall_error (e : ObjectError) : SyscallError :=
  match e with
  | ObjectError.Unimplemented => SyscallError.OperationNotSupported
  | ObjectError.BadAddress => SyscallError.BadAddress
  | ObjectError.InvalidArguments => SyscallError.InvalidArguments
  | ObjectError.Interrupted => SyscallError.Interrupted
  | ObjectError.TryAgain => SyscallError.TryAgain
  | ObjectError.Busy => SyscallError.DeviceOrResourceBusy
  | ObjectError.DeviceRevoked => SyscallError.NoDevice
  | ObjectError.DoesNotExist => SyscallError.BadFileDescriptor
  | ObjectError.InvalidRequest => SyscallError.InappropriateIoctl
  | ObjectError.TooManyOpenFilesProcess => SyscallError.TooManyOpenFilesProcess
  | ObjectError.SocketError err => socket_error_as_syscall_error err
  | ObjectError.FSError err => fs_error_as_syscall_error err
  | ObjectError.Other => SyscallError.IOError
  end.

(** misc/error.rs; [Internal] carries an [anyhow::Error], whose content is never
    inspected, so it is a parameter. *)
Module KernelError.
Inductive KernelError (AnyError : Type) : Type :=
  | FileSystem (err : FSError)
  | BlockDevice (err : BlockDeviceError)
  | Object (err : ObjectError)
  | InvalidString
  | Internal (err : AnyError).
Arguments FileSystem {AnyError} err.
Arguments BlockDevice {AnyError} err.
Arguments Object {AnyError} err.
Arguments InvalidString {AnyError}.
Arguments Internal {AnyError} err.
End KernelError.
Abbreviation KernelError := KernelError.KernelError.

Definition kernel_error_as_syscall_error {AnyError} (e : KernelError AnyError) : SyscallError :=
  match e with
  | KernelError.FileSystem err => fs_error_as_syscall_error err
  | KernelError.BlockDevice err => block_device_error_as_syscall_error err
  | KernelError.Object err => object_error_as_syscall_error err
  | KernelError.InvalidString => SyscallError.InvalidArguments
  | KernelError.Internal _ => SyscallError.IOError
  end.

(** ** Properties *)

(** The errno encoding: every error is returned to user space as a value of the
    range -4095..-1 that the system-call convention reserves for errors, and two
    different errors are never returned as the same value. *)
Lemma errno_encoding :
  (∀ e, -4095 ≤ as_isize e ≤ -1) ∧ Inj (=) (=) as_isize.
Proof.
  split; [by intros []|].
  intros e1 e2 H. destruct e1, e2; try reflexivity; discriminate H.
Qed.

(** Decoding an encoded error gives the error back, for every error but
    [BlockDeviceRequired], which [From<isize>] does not list and decodes as [IOError]. *)
Lemma errno_roundtrip :
  (∀ e, syscall_error_from (as_isize e) = e ↔ e ≠ SyscallError.BlockDeviceRequired) ∧
  syscall_error_from (as_isize SyscallError.BlockDeviceRequired) = SyscallError.IOError.
Proof.
  split; [|reflexivity].
  intros e. destruct e; cbv; (split; [|reflexivity || (intros []; reflexivity)]); congruence.
Qed.
