(* ===== verification/FsPath.v ===== *)
(** * Paths

    [Path] (filesystem/path.rs) is the parsed form of a user-supplied path string;
    [AbsolutePath] (filesystem/absolute_path.rs) is the resolved form below a process
    root.  A Rust [&str] is a [string] of bytes: both files only compare whole
    components and look for the byte of '/'. *)

From S2P Require Import Prelude.

Open Scope string_scope.
Open Scope list_scope.
Open Scope Z_scope.

(** ** Data *)

Module PathPart.
Inductive PathPart : Type :=
  | CurrentDir
  | ParentDir
  | Root
  | Normal (s : string).
End PathPart.
Abbreviation PathPart := PathPart.PathPart.

#[export] Instance PathPart_eq_dec : EqDecision PathPart.
Proof. solve_decision. Defined.

Record Path := mkPath { parts : list PathPart; ends_with_slash : bool }.

#[export] Instance Path_eq_dec : EqDecision Path.
Proof. solve_decision. Defined.

Definition slash : Ascii.ascii := Ascii.ascii_of_nat 47. (* the byte of the character / *)

(** [str::split('/')]: keeps the empty pieces. *)
Fixpoint split_slash (s : string) : list string :=
  match s with
  | EmptyString => [""]
  | String c s' =>
      if Ascii.eqb c slash then "" :: split_slash s'
      else match split_slash s' with
           | x :: xs => String c x :: xs
           | [] => [String c ""]
           end
  end.

(** [str::ends_with('/')] *)
Fixpoint str_ends_with_slash (s : string) : bool :=
  match s with
  | EmptyString => false
  | String c EmptyString => Ascii.eqb c slash
  | String _ s' => str_ends_with_slash s'
  end.

Definition str_starts_with_slash (s : string) : bool :=
  match s with String c _ => Ascii.eqb c slash | EmptyString => false end.

(** [[String]::join("/")] *)
Definition join_slash (segments : list string) : string := String.concat "/" segments.

(** ** [Path] *)

(** The body of the component loop of [Path::parse]. *)
Definition parse_component (component : string) : list PathPart :=
  if String.eqb component "" then []
  else if String.eqb component "." then [PathPart.CurrentDir]
  else if String.eqb component ".." then [PathPart.ParentDir]
  else [PathPart.Normal component].

Definition parse (path : string) : list PathPart :=
  (if str_starts_with_slash path then [PathPart.Root] else []) ++
  concat (map parse_component (split_slash path)).

Definition Path_new (path : string) : Path :=
  let path := if String.eqb path "" then "/" else path in
  mkPath (parse path) ((1 <? Z.of_nat (String.length path)) && str_ends_with_slash path).

Definition is_absolute (p : Path) : bool :=
  match head p.(parts) with Some PathPart.Root => true | _ => false end.

(** The body of the loop of [normalize] and of [join_path]: [acc] is the vector built
    so far. *)
Definition normalize_step (is_absolute : bool) (acc : list PathPart) (part : PathPart)
  : list PathPart :=
  match part with
  | PathPart.Root | PathPart.CurrentDir => acc
  | PathPart.Normal c => acc ++ [PathPart.Normal c]
  | PathPart.ParentDir =>
      match last acc with
      | Some (PathPart.Normal _) => removelast acc
      | Some PathPart.Root | None =>
          if is_absolute then acc else acc ++ [PathPart.ParentDir]
      | _ => acc ++ [PathPart.ParentDir]
      end
  end.

Definition normalize (p : Path) : Path :=
  let abs := is_absolute p in
  mkPath (foldl (normalize_step abs) (if abs then [PathPart.Root] else []) p.(parts))
         p.(ends_with_slash).

Definition as_normal_name (part : PathPart) : option string :=
  match part with PathPart.Normal name => Some name | _ => None end.

(** [Iterator::find_map] *)
Fixpoint find_map {A B} (f : A → option B) (l : list A) : option B :=
  match l with
  | [] => None
  | x :: l' => match f x with Some y => Some y | None => find_map f l' end
  end.

Definition file_name (p : Path) : option string :=
  find_map as_normal_name (rev (normalize p).(parts)).

(** [while let Some(part) = parts.pop() { if Normal { break } }], on the reversed
    vector. *)
Fixpoint pop_through_normal (rparts : list PathPart) : list PathPart :=
  match rparts with
  | [] => []
  | PathPart.Normal _ :: rest => rest
  | _ :: rest => pop_through_normal rest
  end.

Definition parent (p : Path) : option Path :=
  let normalized := normalize p in
  let abs := is_absolute normalized in
  if decide (normalized.(parts) = [PathPart.Root]) then None
  else
    let parts := rev (pop_through_normal (rev normalized.(parts))) in
    let parts := match parts with
                 | [] => if abs then [PathPart.Root] else []
                 | _ => parts
                 end in
    Some (mkPath parts false).

Definition join_component (p : Path) (component : string) : Path :=
  mkPath ((normalize p).(parts) ++ [PathPart.Normal component]) false.

Definition join_path (p suffix : Path) : Path :=
  let path := normalize p in
  let abs := is_absolute path in
  let suffix := normalize suffix in
  mkPath (foldl (normalize_step abs) path.(parts) suffix.(parts)) suffix.(ends_with_slash).

Definition path_starts_with (p prefix : Path) : bool :=
  let path := normalize p in
  let prefix := normalize prefix in
  if (length path.(parts) <? length prefix.(parts))%nat then false
  else forallb (λ lr, bool_decide (lr.1 = lr.2)) (combine path.(parts) prefix.(parts)).

Definition strip_prefix (p prefix : Path) : option Path :=
  let path := normalize p in
  let prefix := normalize prefix in
  if negb (path_starts_with path prefix) then None
  else Some (mkPath (PathPart.Root :: drop (length prefix.(parts)) path.(parts))
                    path.(ends_with_slash)).

(** The segments and the flag collected by the loop of [as_string]. *)
Definition part_segments (part : PathPart) : list string :=
  match part with
  | PathPart.Root => []
  | PathPart.Normal s => if String.eqb s "" then [] else [s]
  | PathPart.CurrentDir => ["."]
  | PathPart.ParentDir => [".."]
  end.

Definition is_root_part (part : PathPart) : bool :=
  match part with PathPart.Root => true | _ => false end.

Definition as_string (p : Path) : string :=
  let segments := concat (map part_segments p.(parts)) in
  let s := if existsb is_root_part p.(parts) then "/" else "" in
  let s := match segments with
           | [] => s
           | _ =>
               let s := if negb (String.eqb s "") && negb (str_ends_with_slash s)
                        then (s +:+ "/")%stdpp else s in
               (s +:+ join_slash segments)%stdpp
           end in
  let s := if p.(ends_with_slash) && negb (str_ends_with_slash s) then (s +:+ "/")%stdpp else s in
  if String.eqb s "" then "/" else s.

(** ** [AbsolutePath] *)

Module AbsolutePathPart.
Inductive AbsolutePathPart : Type := Normal (s : string).
End AbsolutePathPart.
Abbreviation AbsolutePathPart := AbsolutePathPart.AbsolutePathPart.

#[export] Instance AbsolutePathPart_eq_dec : EqDecision AbsolutePathPart.
Proof. solve_decision. Defined.

Record AbsolutePath := mkAbsolutePath { components : list AbsolutePathPart }.

#[export] Instance AbsolutePath_eq_dec : EqDecision AbsolutePath.
Proof. solve_decision. Defined.

Definition root : AbsolutePath := mkAbsolutePath [].

Definition to_part (part : AbsolutePathPart) : PathPart :=
  let 'AbsolutePathPart.Normal s := part in PathPart.Normal s.

(** [Path::default()] is [Path::new("/")]. *)
Definition as_normal (p : AbsolutePath) : Path :=
  let new_path := Path_new "/" in
  mkPath (new_path.(parts) ++ map to_part p.(components)) new_path.(ends_with_slash).

Definition push_path (p path : AbsolutePath) : AbsolutePath :=
  mkAbsolutePath (p.(components) ++ path.(components)).

(** [<[T]>::starts_with] *)
Fixpoint slice_starts_with (l prefix : list AbsolutePathPart) : bool :=
  match prefix, l with
  | [], _ => true
  | _ :: _, [] => false
  | y :: prefix', x :: l' => bool_decide (x = y) && slice_starts_with l' prefix'
  end.

Definition abs_starts_with (p prefix : AbsolutePath) : bool :=
  slice_starts_with p.(components) prefix.(components).

Definition abs_strip_prefix (p prefix : AbsolutePath) : option AbsolutePath :=
  if negb (abs_starts_with p prefix) then None
  else Some (mkAbsolutePath (drop (length prefix.(components)) p.(components))).

Definition from_root_step (acc : list AbsolutePathPart) (part : PathPart)
  : list AbsolutePathPart :=
  match part with
  | PathPart.Normal s => acc ++ [AbsolutePathPart.Normal s]
  | PathPart.Root | PathPart.CurrentDir => acc
  | PathPart.ParentDir => removelast acc
  end.

Definition from_root_path (path : Path) : AbsolutePath :=
  mkAbsolutePath (foldl from_root_step root.(components) path.(parts)).

Definition join_under_root_step (root_len : nat) (acc : list AbsolutePathPart)
  (part : PathPart) : list AbsolutePathPart :=
  match part with
  | PathPart.Normal s => acc ++ [AbsolutePathPart.Normal s]
  | PathPart.Root | PathPart.CurrentDir => acc
  | PathPart.ParentDir => if (root_len <? length acc)%nat then removelast acc else acc
  end.

Definition join_under_root (root current : AbsolutePath) (path : Path) : AbsolutePath :=
  let start := if is_absolute path then root else current in
  mkAbsolutePath
    (foldl (join_under_root_step (length root.(components))) start.(components) path.(parts)).

Definition push_path_str (p : AbsolutePath) (s : string) : AbsolutePath :=
  let path := Path_new s in
  if is_absolute path then from_root_path path
  else mkAbsolutePath
    (foldl (λ acc part,
      match part with
      | PathPart.Root | PathPart.CurrentDir => acc
      | PathPart.Normal s => acc ++ [AbsolutePathPart.Normal s]
      | PathPart.ParentDir =>
          match last acc with
          | Some (AbsolutePathPart.Normal _) => removelast acc
          | None => acc
          end
      end) p.(components) path.(parts)).

Definition abs_as_string (p : AbsolutePath) : string := as_string (as_normal p).

Definition display_string (p root' : AbsolutePath) : string :=
  abs_as_string (default root (abs_strip_prefix p root')).

(** [Path::as_absolute_from] *)
Definition as_absolute_from (p : Path) (root current : AbsolutePath) : AbsolutePath :=
  join_under_root root current p.

(** ** Lemmas *)

(** The shape every normalised path has: the root if absolute, a run of [..], then
    plain names. *)
Definition canon (abs : bool) (n : nat) (names : list string) : list PathPart :=
  (if abs then [PathPart.Root] else []) ++ replicate n PathPart.ParentDir ++
  map PathPart.Normal names.

(** One component, on the pair of counters of [canon]. *)
Definition canon_step (abs : bool) (st : nat * list string) (part : PathPart)
  : nat * list string :=
  let '(n, names) := st in
  match part with
  | PathPart.Root | PathPart.CurrentDir => (n, names)
  | PathPart.Normal c => (n, names ++ [c])
  | PathPart.ParentDir =>
      match names with
      | [] => (if abs then n else S n, [])
      | _ => (n, removelast names)
      end
  end.

Lemma removelast_snoc {A} (l : list A) x : removelast (l ++ [x]) = l.
Proof. by rewrite removelast_last. Qed.

Lemma map_removelast {A B} (f : A → B) l : map f (removelast l) = removelast (map f l).
Proof.
  destruct l as [|x l _] using rev_ind; [done|].
  rewrite map_app. cbn [map]. by rewrite !removelast_snoc.
Qed.

Lemma canon_snoc abs n names c :
  canon abs n (names ++ [c]) = canon abs n names ++ [PathPart.Normal c].
Proof. unfold canon. rewrite map_app. by rewrite <- !app_assoc. Qed.

Lemma canon_no_names abs n :
  canon abs n [] = (if abs then [PathPart.Root] else []) ++ replicate n PathPart.ParentDir.
Proof. unfold canon. by rewrite app_nil_r. Qed.

Lemma last_canon_nil abs n :
  (abs = true → n = 0%nat) →
  normalize_step abs (canon abs n []) PathPart.ParentDir
    = canon abs (if abs then n else S n) [].
Proof.
  intros Hn. rewrite !canon_no_names. destruct abs.
  - rewrite Hn by done. done.
  - cbn [app]. rewrite replicate_S_end. unfold normalize_step.
    destruct n as [|n]; [done|]. by rewrite replicate_S_end, last_snoc.
Qed.

Lemma normalize_step_canon abs n names part :
  (abs = true → n = 0%nat) →
  normalize_step abs (canon abs n names) part =
    (let '(n', names') := canon_step abs (n, names) part in canon abs n' names')
  ∧ (abs = true → (canon_step abs (n, names) part).1 = 0%nat).
Proof.
  intros Hn. destruct part as [| | |c]; cbn; [done| |done|by rewrite canon_snoc].
  destruct names as [|c names _] using rev_ind.
  - split; [by apply last_canon_nil|]. by destruct abs.
  - rewrite removelast_snoc. destruct (names ++ [c]) eqn:E; [by destruct names|].
    rewrite <- E, canon_snoc. cbn. by rewrite last_snoc, removelast_snoc.
Qed.

Lemma normalize_loop abs ps n names :
  (abs = true → n = 0%nat) →
  foldl (normalize_step abs) (canon abs n names) ps =
    (let '(n', names') := foldl (canon_step abs) (n, names) ps in canon abs n' names')
  ∧ (abs = true → (foldl (canon_step abs) (n, names) ps).1 = 0%nat).
Proof.
  revert n names. induction ps as [|p ps IH]; intros n names Hn; [done|].
  destruct (normalize_step_canon abs n names p Hn) as [Hs Hs0]. cbn [foldl]. rewrite Hs.
  destruct (canon_step abs (n, names) p) as [n' names']. by apply IH.
Qed.

(** The canonical form of a path: how many [..] and which names. *)
Definition resolve (p : Path) : nat * list string :=
  foldl (canon_step (is_absolute p)) (0%nat, []) p.(parts).

Lemma normalize_parts p :
  (normalize p).(parts) = canon (is_absolute p) (resolve p).1 (resolve p).2.
Proof.
  unfold normalize, resolve. cbn.
  destruct (normalize_loop (is_absolute p) p.(parts) 0 []) as [H _]; [done|].
  replace (canon (is_absolute p) 0 []) with (if is_absolute p then [PathPart.Root] else []) in H
    by (by destruct (is_absolute p)).
  rewrite H. by destruct (foldl (canon_step _) _ _) as [n names].
Qed.

Lemma resolve_absolute p : is_absolute p = true → (resolve p).1 = 0%nat.
Proof. intros H. by apply (normalize_loop (is_absolute p) p.(parts) 0 []). Qed.

Lemma canon_step_names abs n names names' :
  foldl (canon_step abs) (n, names) (map PathPart.Normal names') = (n, names ++ names').
Proof.
  revert names. induction names' as [|c l IH]; intros names; cbn; [by rewrite app_nil_r|].
  rewrite IH. by rewrite <- app_assoc.
Qed.

Lemma canon_step_parents k n :
  foldl (canon_step false) (k, []) (replicate n PathPart.ParentDir) = ((k + n)%nat, []).
Proof.
  revert k. induction n as [|n IH]; intros k; cbn; [by rewrite Nat.add_0_r|].
  rewrite IH. f_equal. lia.
Qed.

Lemma resolve_canon abs n names e :
  (abs = true → n = 0%nat) →
  is_absolute (mkPath (canon abs n names) e) = abs ∧
  resolve (mkPath (canon abs n names) e) = (n, names).
Proof.
  intros Hn. assert (is_absolute (mkPath (canon abs n names) e) = abs) as Ha.
  { destruct abs; [done|]. unfold is_absolute, canon. cbn. by destruct n, names. }
  split; [done|]. unfold resolve. rewrite Ha. unfold canon. cbn. rewrite !foldl_app.
  destruct abs.
  - rewrite Hn by done. cbn. by rewrite canon_step_names.
  - cbn. by rewrite canon_step_parents, canon_step_names.
Qed.

Lemma normalize_absolute p : is_absolute (normalize p) = is_absolute p.
Proof.
  destruct (resolve_canon (is_absolute p) (resolve p).1 (resolve p).2 p.(ends_with_slash))
    as [H _]; [apply resolve_absolute|].
  rewrite <- normalize_parts in H. exact H.
Qed.

Lemma normalize_idemp p : normalize (normalize p) = normalize p.
Proof.
  destruct (resolve_canon (is_absolute p) (resolve p).1 (resolve p).2 p.(ends_with_slash))
    as [Ha Hr]; [apply resolve_absolute|].
  rewrite <- normalize_parts in Ha, Hr.
  change (mkPath (normalize p).(parts) p.(ends_with_slash)) with (normalize p) in Ha, Hr.
  assert ((normalize (normalize p)).(parts) = (normalize p).(parts)) as Hp.
  { rewrite !normalize_parts, Ha, Hr. done. }
  unfold normalize in *. cbn in *. by rewrite Hp.
Qed.

Lemma resolve_from_root p :
  is_absolute p = true →
  (from_root_path p).(components) = map AbsolutePathPart.Normal (resolve p).2.
Proof.
  intros Ha. unfold from_root_path, resolve. rewrite Ha. cbn.
  cut (∀ n names, foldl from_root_step (map AbsolutePathPart.Normal names) p.(parts) =
    map AbsolutePathPart.Normal (foldl (canon_step true) (n, names) p.(parts)).2).
  { intros H. exact (H 0%nat []). }
  induction p.(parts) as [|part ps IH]; intros n names; [done|]. cbn [foldl].
  destruct part as [| | |c]; cbn [from_root_step canon_step]; try apply IH.
  - rewrite <- map_removelast. destruct names as [|x names]; [by rewrite <- IH|apply IH].
  - change [AbsolutePathPart.Normal c] with (map AbsolutePathPart.Normal [c]).
    rewrite <- map_app. apply IH.
Qed.

Lemma canon_absolute names :
  map to_part (map AbsolutePathPart.Normal names) = map PathPart.Normal names.
Proof. by rewrite List.map_map. Qed.

Lemma removelast_app_len {A} (l k : list A) :
  (length l < length (l ++ k))%nat → removelast (l ++ k) = l ++ removelast k.
Proof.
  rewrite length_app. intros ?. apply removelast_app. destruct k; cbn in *; [lia|done].
Qed.

Lemma join_loop_prefix (pre : list AbsolutePathPart) acc ps :
  foldl (join_under_root_step (length pre)) (pre ++ acc) ps =
  pre ++ foldl (join_under_root_step 0) acc ps.
Proof.
  revert acc. induction ps as [|part ps IH]; intros acc; [done|].
  cbn [foldl]. rewrite <- IH. f_equal.
  destruct part as [| | |c]; cbn [join_under_root_step]; [done| |done|by rewrite app_assoc].
  rewrite length_app. destruct acc as [|x acc].
  - rewrite (proj2 (Nat.ltb_ge _ _)) by (cbn; lia). done.
  - rewrite (proj2 (Nat.ltb_lt _ _)) by (cbn; lia).
    rewrite (proj2 (Nat.ltb_lt 0 _)) by (cbn; lia).
    apply removelast_app_len. rewrite length_app. cbn. lia.
Qed.

Lemma slice_starts_with_app (pre l : list AbsolutePathPart) :
  slice_starts_with (pre ++ l) pre = true.
Proof. induction pre as [|x pre IH]; cbn; [by destruct l|]. by rewrite bool_decide_true. Qed.

Lemma forallb_combine_prefix {A} `{EqDecision A} (l k : list A) :
  (length k ≤ length l)%nat →
  forallb (λ lr : A * A, bool_decide (lr.1 = lr.2)) (combine l k) = true →
  l = k ++ drop (length k) l.
Proof.
  revert l. induction k as [|y k IH]; intros [|x l]; cbn; [done|done|lia|].
  intros Hlen [->%bool_decide_eq_true H]%andb_true_iff. f_equal. apply IH; [lia|done].
Qed.

Lemma forallb_combine_app {A} `{EqDecision A} (k l : list A) :
  forallb (λ lr : A * A, bool_decide (lr.1 = lr.2)) (combine (k ++ l) k) = true.
Proof.
  induction k as [|y k IH]; cbn; [by destruct l|]. by rewrite bool_decide_true.
Qed.

Lemma path_starts_with_spec p q :
  path_starts_with p q = true ↔
  ∃ rest, (normalize p).(parts) = (normalize q).(parts) ++ rest.
Proof.
  unfold path_starts_with. destruct (Nat.ltb_spec (length (normalize p).(parts))
    (length (normalize q).(parts))) as [Hlt|Hge].
  - split; [done|]. intros [rest Hr]. rewrite Hr, length_app in Hlt. lia.
  - split.
    + intros H. eexists. by apply forallb_combine_prefix.
    + intros [rest ->]. apply forallb_combine_app.
Qed.

(** *** Splitting and joining strings *)

#[local] Arguments Ascii.eqb : simpl never.
#[local] Arguments slash : simpl never.

Fixpoint no_slash (s : string) : bool :=
  match s with
  | EmptyString => true
  | String c s' => negb (Ascii.eqb c slash) && no_slash s'
  end.

Lemma split_slash_no_slash s : no_slash s = true → split_slash s = [s].
Proof.
  induction s as [|c s IH]; simpl; [done|]. intros [Hc Hs]%andb_true_iff.
  apply negb_true_iff in Hc. by rewrite Hc, IH.
Qed.

Lemma split_slash_app s t :
  no_slash s = true → split_slash (s +:+ String slash t) = s :: split_slash t.
Proof.
  induction s as [|c s IH]; simpl; [done|].
  intros [Hc Hs]%andb_true_iff. apply negb_true_iff in Hc. by rewrite Hc, IH.
Qed.

Lemma split_slash_pieces s x : x ∈ split_slash s → no_slash x = true.
Proof.
  revert x. induction s as [|c s IH]; intros x; simpl; [by intros ->%list_elem_of_singleton|].
  destruct (Ascii.eqb c slash) eqn:Hc.
  - intros [->|Hx]%elem_of_cons; [done|by apply IH].
  - destruct (split_slash s) as [|y ys] eqn:E.
    + intros ->%list_elem_of_singleton. simpl. by rewrite Hc.
    + intros [->|Hx]%elem_of_cons.
      * simpl. rewrite Hc. apply IH. constructor.
      * apply IH. by constructor.
Qed.

(** The text of a component, and the components a parse can produce. *)
Definition part_string (part : PathPart) : string :=
  match part with
  | PathPart.Root => "/"
  | PathPart.CurrentDir => "."
  | PathPart.ParentDir => ".."
  | PathPart.Normal c => c
  end.

Definition parsed_part (part : PathPart) : Prop :=
  parse_component (part_string part) = [part] ∧ no_slash (part_string part) = true ∧
  part_string part ≠ "".

Lemma parse_component_parsed c part :
  no_slash c = true → part ∈ parse_component c → parsed_part part ∧ part ≠ PathPart.Root.
Proof.
  unfold parse_component. intros Hc.
  destruct (String.eqb_spec c ""); [by intros ?%elem_of_nil|].
  destruct (String.eqb_spec c "."); [by intros ->%list_elem_of_singleton|].
  destruct (String.eqb_spec c ".."); [by intros ->%list_elem_of_singleton|].
  intros ->%list_elem_of_singleton. split; [|done]. unfold parsed_part, parse_component. cbn.
  rewrite !(proj2 (String.eqb_neq _ _)) by done. done.
Qed.

Definition parse_body (s : string) : list PathPart :=
  concat (map parse_component (split_slash s)).

Lemma parse_body_parsed s :
  Forall (λ part, parsed_part part ∧ part ≠ PathPart.Root) (parse_body s).
Proof.
  apply Forall_forall. intros part Hp. apply list_elem_of_In, in_concat in Hp as (l & Hl & Hp).
  apply in_map_iff in Hl as (c & <- & Hc). apply list_elem_of_In in Hc, Hp.
  eapply parse_component_parsed; [by eapply split_slash_pieces|done].
Qed.

Lemma parse_body_nonempty s :
  s ≠ "" → str_starts_with_slash s = false → parse_body s ≠ [].
Proof.
  destruct s as [|c s]; simpl; [done|]. unfold parse_body. simpl. intros _ Hc. rewrite Hc.
  assert (∀ x, parse_component (String c x) ≠ []) as Hne.
  { intros x. unfold parse_component. cbn [String.eqb].
    repeat case_match; done. }
  destruct (split_slash s) as [|x xs]; simpl; intros H; apply app_eq_nil in H as [H _];
    by apply (Hne _ H).
Qed.

Lemma ends_with_slash_app s t :
  t ≠ "" → str_ends_with_slash (s +:+ t) = str_ends_with_slash t.
Proof.
  intros Ht. induction s as [|c s IH]; [done|]. simpl. rewrite IH.
  destruct s; simpl; [by destruct t|done].
Qed.

Lemma no_slash_ends s : no_slash s = true → str_ends_with_slash s = false.
Proof.
  induction s as [|c s IH]; simpl; [done|]. intros [Hc Hs]%andb_true_iff.
  destruct s; [by apply negb_true_iff|by apply IH].
Qed.

Lemma no_slash_starts s : no_slash s = true → str_starts_with_slash s = false.
Proof. destruct s as [|c s]; simpl; [done|]. intros [Hc _]%andb_true_iff. by apply negb_true_iff. Qed.

Lemma string_app_assoc (s t u : string) : ((s +:+ t) +:+ u = s +:+ (t +:+ u))%stdpp.
Proof. induction s as [|c s IH]; [done|]. exact (f_equal (String c) IH). Qed.

Lemma string_app_nil_r (s : string) : (s +:+ "" = s)%stdpp.
Proof. induction s as [|c s IH]; [done|]. exact (f_equal (String c) IH). Qed.

Lemma string_length_app (s t : string) :
  String.length (s +:+ t)%stdpp = (String.length s + String.length t)%nat.
Proof. induction s as [|c s IH]; [done|]. exact (f_equal S IH). Qed.

Lemma join_slash_cons s segs :
  segs ≠ [] → join_slash (s :: segs) = s +:+ String slash (join_slash segs).
Proof. by destruct segs. Qed.

Lemma split_join_app body t :
  body ≠ [] → Forall parsed_part body →
  split_slash (join_slash (map part_string body) +:+ String slash t) =
  map part_string body ++ split_slash t.
Proof.
  intros Hne Hb. induction Hb as [|p ps (Hp & Hs & Hn) Hps IH]; [done|].
  destruct ps as [|q ps]; [by apply split_slash_app|].
  cbn [map]. rewrite join_slash_cons by done. rewrite string_app_assoc.
  change (String slash ?x +:+ ?y) with (String slash (x +:+ y)).
  rewrite split_slash_app by done. cbn [map] in IH. by rewrite IH.
Qed.

Lemma split_join body :
  body ≠ [] → Forall parsed_part body →
  split_slash (join_slash (map part_string body)) = map part_string body.
Proof.
  intros Hne Hb. induction Hb as [|p ps (Hp & Hs & Hn) Hps IH]; [done|].
  destruct ps as [|q ps]; [by apply split_slash_no_slash|].
  cbn [map]. rewrite join_slash_cons by done.
  rewrite split_slash_app by done. cbn [map] in IH. by rewrite IH.
Qed.

Lemma join_slash_ends body :
  body ≠ [] → Forall parsed_part body →
  str_ends_with_slash (join_slash (map part_string body)) = false ∧
  str_starts_with_slash (join_slash (map part_string body)) = false ∧
  join_slash (map part_string body) ≠ "".
Proof.
  intros Hne Hb. induction Hb as [|p ps (Hp & Hs & Hn) Hps IH]; [done|].
  destruct ps as [|q ps].
  - unfold join_slash. cbn. auto using no_slash_ends, no_slash_starts.
  - cbn [map]. rewrite join_slash_cons by done. destruct IH as (He & _ & Hj); [done|].
    split; [|split].
    + rewrite ends_with_slash_app by done. cbn [map] in *. simpl.
      by destruct (join_slash _).
    + apply no_slash_starts in Hs. by destruct (part_string p).
    + by destruct (part_string p).
Qed.

Lemma parse_map_body body :
  Forall parsed_part body → concat (map parse_component (map part_string body)) = body.
Proof.
  induction 1 as [|p ps (Hp & _) _ IH]; [done|]. cbn [map concat]. by rewrite Hp, IH.
Qed.

Lemma body_segments body :
  Forall (λ part, parsed_part part ∧ part ≠ PathPart.Root) body →
  concat (map part_segments body) = map part_string body ∧
  existsb is_root_part body = false.
Proof.
  induction 1 as [|p ps [(_ & _ & Hn) Hr] _ [IH1 IH2]]; [done|].
  cbn. rewrite IH1, IH2. destruct p; try done. cbn in *.
  by rewrite (proj2 (String.eqb_neq _ _)).
Qed.

(** The printed form, once the segments are known. *)
Lemma as_string_body abs body e :
  Forall (λ part, parsed_part part ∧ part ≠ PathPart.Root) body → body ≠ [] →
  as_string (mkPath ((if abs : bool then [PathPart.Root] else []) ++ body) e) =
  ((if abs then "/" else "") +:+ join_slash (map part_string body) +:+
   (if e then "/" else ""))%stdpp.
Proof.
  intros Hb Hne. destruct (body_segments body Hb) as [Hsegs Hroot].
  assert (Forall parsed_part body) as Hp by (eapply List.Forall_impl; [|exact Hb]; by intros ? [? _]).
  destruct (join_slash_ends body Hne Hp) as (Hends & _ & Hj).
  unfold as_string. cbn [parts ends_with_slash].
  replace (existsb is_root_part _) with abs by (destruct abs; cbn; congruence).
  replace (concat _) with (map part_string body) by (destruct abs; cbn; congruence).
  destruct (map part_string body) as [|x xs] eqn:E; [by destruct body|].
  set (j := join_slash (x :: xs)) in *.
  assert (∀ t : string, str_ends_with_slash (t +:+ j)%stdpp = false) as Hends'
    by (intros t; by rewrite ends_with_slash_app).
  assert (∀ t u : string, String.eqb ((t +:+ j) +:+ u)%stdpp "" = false) as Hnempty.
  { intros t u. apply String.eqb_neq. destruct t; [by destruct j|done]. }
  destruct abs, e; cbn [String.eqb negb andb str_ends_with_slash]; rewrite ?Hends';
    cbn [negb andb]; rewrite ?Hnempty, ?string_app_nil_r, ?string_app_assoc; try done.
  all: rewrite <- (string_app_nil_r (_ +:+ j)%stdpp), Hnempty; by rewrite string_app_nil_r.
Qed.

Lemma Path_new_printed abs body e :
  Forall parsed_part body → body ≠ [] →
  Path_new ((if abs : bool then "/" else "") +:+ join_slash (map part_string body) +:+
            (if e : bool then "/" else ""))%stdpp =
  mkPath ((if abs then [PathPart.Root] else []) ++ body) e.
Proof.
  intros Hb Hne. destruct (join_slash_ends body Hne Hb) as (Hends & Hstarts & Hj).
  pose proof (split_join body Hne Hb) as Hsp.
  pose proof (split_join_app body "" Hne Hb) as Hspa.
  set (j := join_slash (map part_string body)) in *.
  set (str := ((if abs then "/" else "") +:+ j +:+ (if e then "/" else ""))%stdpp).
  assert (parse str = (if abs then [PathPart.Root] else []) ++ body) as Hparse.
  { unfold parse. f_equal.
    - unfold str. destruct abs; [done|]. destruct j; [done|].
      change (str_starts_with_slash _) with (str_starts_with_slash (String a j)). by rewrite Hstarts.
    - assert (concat (map parse_component
        (split_slash (j +:+ (if e then "/" else ""))%stdpp)) = body) as Hj'.
      { destruct e.
        - change "/" with (String slash ""). rewrite Hspa, map_app, concat_app.
          rewrite parse_map_body by done. by rewrite app_nil_r.
        - rewrite string_app_nil_r, Hsp. by apply parse_map_body. }
      unfold str. destruct abs; exact Hj'. }
  assert (str ≠ "") as Hstr by (unfold str; destruct abs; [done|]; by destruct j).
  assert (str_ends_with_slash str = e) as He.
  { unfold str. destruct e; [by rewrite !ends_with_slash_app by (by destruct j)|].
    rewrite string_app_nil_r. by rewrite ends_with_slash_app. }
  unfold Path_new. rewrite (proj2 (String.eqb_neq _ _)) by done. rewrite Hparse, He. f_equal.
  destruct e; [|by rewrite andb_false_r]. rewrite andb_true_r. apply Z.ltb_lt.
  unfold str. rewrite !string_length_app. destruct j; [done|]. cbn [String.length]. lia.
Qed.

(** Every parsed path is an optional root followed by components of the text. *)
Lemma Path_new_shape s :
  ∃ abs body, (Path_new s).(parts) = (if abs : bool then [PathPart.Root] else []) ++ body ∧
    Forall (λ part, parsed_part part ∧ part ≠ PathPart.Root) body ∧
    (body = [] → abs = true).
Proof.
  unfold Path_new, parse. cbn [parts]. set (s' := if String.eqb s "" then "/" else s).
  exists (str_starts_with_slash s'), (parse_body s'). split; [done|].
  split; [apply parse_body_parsed|]. intros Hb.
  destruct (str_starts_with_slash s') eqn:E; [done|]. exfalso.
  apply (parse_body_nonempty s'); [|done|done].
  unfold s'. destruct (String.eqb_spec s ""); done.
Qed.

(** ** Properties *)

(** Normal form of paths: [normalize] always yields the root (exactly when the input
    is absolute), then a run of [..] (none when absolute), then plain names; it keeps
    absoluteness and the trailing slash, and normalising again changes nothing. *)
Lemma normalize_canonical p :
  (∃ n names, (normalize p).(parts) = canon (is_absolute p) n names ∧
     (is_absolute p = true → n = 0%nat)) ∧
  is_absolute (normalize p) = is_absolute p ∧
  (normalize p).(ends_with_slash) = p.(ends_with_slash) ∧
  normalize (normalize p) = normalize p.
Proof.
  split; [|split; [apply normalize_absolute|split; [done|apply normalize_idemp]]].
  exists (resolve p).1, (resolve p).2. split; [apply normalize_parts|apply resolve_absolute].
Qed.

(** Resolution under a process root is resolution from [/] transported below that root: for a
    working directory below it, [root/c], [join_under_root] computes exactly [root/]
    followed by what it computes with root [/] and working directory [/c]. From such a
    working directory no number of [..] components leaves the root. *)
Lemma join_under_root_chroot root' c p :
  join_under_root root' (push_path root' c) p = push_path root' (join_under_root root c p) ∧
  abs_starts_with (join_under_root root' (push_path root' c) p) root' = true.
Proof.
  assert (join_under_root root' (push_path root' c) p
          = push_path root' (join_under_root root c p)) as H.
  { unfold join_under_root, push_path. cbn [components root length]. f_equal.
    rewrite <- join_loop_prefix. f_equal.
    destruct (is_absolute p); cbn; [by rewrite app_nil_r|done]. }
  split; [done|]. rewrite H. apply slice_starts_with_app.
Qed.

(** For an absolute path the two resolution routines of the tree agree: the
    component list of [AbsolutePath::from_root_path], shown as a [Path], is the
    normalised path, and [join_under_root] from the root [/] gives the same. *)
Lemma from_root_path_normalize p cur :
  is_absolute p = true →
  (as_normal (from_root_path p)).(parts) = (normalize p).(parts) ∧
  join_under_root root cur p = from_root_path p.
Proof.
  intros Ha. split.
  - rewrite normalize_parts, Ha, (resolve_absolute p Ha). unfold as_normal.
    rewrite resolve_from_root, canon_absolute by done. done.
  - unfold join_under_root, from_root_path. rewrite Ha. f_equal. cbn [components root length].
    induction p.(parts) as [|part ps IH] using rev_ind; [done|].
    rewrite !foldl_app, IH. cbn. destruct part; try done.
    by destruct (foldl from_root_step [] ps).
Qed.

Definition from_root_example : Path := Path_new "/usr/../etc/./passwd".

Lemma from_root_path_normalize_witness :
  is_absolute from_root_example = true ∧
  (as_normal (from_root_path from_root_example)).(parts)
    = (normalize from_root_example).(parts).
Proof.
  split; [reflexivity|].
  exact (proj1 (from_root_path_normalize from_root_example root eq_refl)).
Defined.

(** C38. Print/parse round trip: parsing the text of a parsed path gives the path back;
    only the trailing-slash mark of the root itself is not kept, because [/] is printed
    the same with and without it. *)
Theorem print_parse_roundtrip s :
  let p := Path_new s in
  Path_new (as_string p) =
  mkPath p.(parts) (p.(ends_with_slash) && negb (bool_decide (p.(parts) = [PathPart.Root]))).
Proof.
  destruct (Path_new_shape s) as (abs & body & Hp & Hb & Habs).
  destruct (Path_new s) as [ps e]. cbn [parts ends_with_slash] in *. subst ps.
  destruct (decide (body = [])) as [->|Hne].
  - rewrite Habs by done. rewrite bool_decide_true by done. rewrite andb_false_r.
    by destruct e.
  - rewrite as_string_body by done.
    rewrite Path_new_printed; [|eapply List.Forall_impl; [|exact Hb]; by intros ? [? _]|done].
    rewrite bool_decide_false; [by rewrite andb_true_r|].
    destruct abs; [destruct body; [done|]; by intros [=]|].
    destruct Hb as [|? ? [_ Hr] _]; [done|]. cbn. congruence.
Qed.

(** [strip_prefix] succeeds exactly when the normalised path extends the normalised
    prefix, and returns the rest as an absolute path with the trailing slash of the
    path. *)
Lemma strip_prefix_spec p q r :
  strip_prefix p q = Some r ↔
  ∃ rest, (normalize p).(parts) = (normalize q).(parts) ++ rest ∧
          r = mkPath (PathPart.Root :: rest) p.(ends_with_slash).
Proof.
  assert (∀ rest, (normalize p).(parts) = (normalize q).(parts) ++ rest →
    drop (length (normalize q).(parts)) (normalize p).(parts) = rest) as Hdrop.
  { intros rest ->. apply drop_app_length. }
  unfold strip_prefix. cbv zeta.
  change (normalize p).(ends_with_slash) with p.(ends_with_slash).
  pose proof (path_starts_with_spec (normalize p) (normalize q)) as Hspec.
  rewrite !normalize_idemp in Hspec.
  destruct (path_starts_with (normalize p) (normalize q)); cbn [negb].
  - destruct (proj1 Hspec eq_refl) as [rest Hr]. rewrite (Hdrop rest Hr). split.
    + intros [= <-]. by exists rest.
    + intros (rest' & Hr' & ->). by rewrite <- (Hdrop rest Hr), (Hdrop rest' Hr').
  - split; [done|]. intros (rest & Hr & _). exfalso.
    by discriminate (proj2 Hspec (ex_intro _ rest Hr)).
Qed.
