(* ===== verification/SparseFile.v ===== *)
(** * Sparse file contents

    [SparseFileData] (filesystem/sparse_file.rs): the bytes of an in-memory file, kept
    as a length and the pages that were ever written.  Pages are indexed by
    [offset / 4096]; a missing page reads as zeros.  A [usize] is a [Z]; a caller's
    buffer is the list of its bytes. *)

From S2P Require Import Prelude.

Definition PAGE_SIZE : Z := 4096.

(** ** Data *)

Record SparseFileData := mkSparse { len : Z; pages : gmap Z (list byte) }.

Definition zero_page : list byte := replicate (Z.to_nat PAGE_SIZE) x00.

(** ** Operations *)

Definition sparse_new : SparseFileData := mkSparse 0 ∅.

Definition is_empty (f : SparseFileData) : bool := f.(len) =? 0.

Definition ensure_len (f : SparseFileData) (n : Z) : SparseFileData :=
  mkSparse (Z.max f.(len) n) f.(pages).

(** The body of the page loop of [zero_range]. *)
Definition zero_page_range (offset end_ : Z) (pages : gmap Z (list byte)) (page_index : Z)
  : gmap Z (list byte) :=
  let page_start := page_index * PAGE_SIZE in
  let range_start := sat_sub offset page_start in
  let range_end := Z.min (end_ - page_start) PAGE_SIZE in
  match pages !! page_index with
  | Some page => <[page_index := zfill page range_start range_end x00]> pages
  | None => pages
  end.

Definition zero_range (f : SparseFileData) (offset n : Z) : SparseFileData :=
  let end_ := Z.min (sat_add 64 offset n) f.(len) in
  if end_ <=? offset then f
  else
    let first_page := offset / PAGE_SIZE in
    let last_page := (end_ - 1) / PAGE_SIZE in
    mkSparse f.(len)
      (foldl (zero_page_range offset end_) f.(pages)
             (seqZ first_page (last_page - first_page + 1))).

Definition truncate (f : SparseFileData) (n : Z) : SparseFileData :=
  if f.(len) <=? n then mkSparse n f.(pages)
  else
    let keep_pages := div_ceil n PAGE_SIZE in
    let pages := filter (λ kv, kv.1 < keep_pages) f.(pages) in
    let pages :=
      if negb (n mod PAGE_SIZE =? 0)
      then match pages !! (n / PAGE_SIZE) with
           | Some page =>
               <[n / PAGE_SIZE := zfill page (n mod PAGE_SIZE) (zlen page) x00]> pages
           | None => pages
           end
      else pages in
    mkSparse n pages.

(** The [while copied < total] loop of [read_at]; [fuel] bounds the iterations, each of
    which copies at least one byte. *)
Fixpoint read_loop (fuel : nat) (f : SparseFileData) (offset total copied : Z)
  (buffer : list byte) : list byte :=
  match fuel with
  | O => buffer
  | S fuel =>
      if copied <? total then
        let absolute := offset + copied in
        let page_index := absolute / PAGE_SIZE in
        let page_offset := absolute mod PAGE_SIZE in
        let chunk_len := Z.min (total - copied) (PAGE_SIZE - page_offset) in
        let buffer :=
          match f.(pages) !! page_index with
          | Some page =>
              zsplice buffer copied (zslice page page_offset (page_offset + chunk_len))
          | None => buffer
          end in
        read_loop fuel f offset total (copied + chunk_len) buffer
      else buffer
  end.

(** The returned count, and the caller's buffer after the call. *)
Definition read_at (f : SparseFileData) (buffer : list byte) (offset : Z) : Z * list byte :=
  if (f.(len) <=? offset) || (zlen buffer =? 0) then (0, buffer)
  else
    let total := Z.min (zlen buffer) (f.(len) - offset) in
    let buffer := zfill buffer 0 total x00 in
    (total, read_loop (length buffer) f offset total 0 buffer).

(** The [while written < buffer.len()] loop of [write_at]. *)
Fixpoint write_loop (fuel : nat) (offset : Z) (buffer : list byte) (written : Z)
  (pages : gmap Z (list byte)) : gmap Z (list byte) :=
  match fuel with
  | O => pages
  | S fuel =>
      if written <? zlen buffer then
        let absolute := offset + written in
        let page_index := absolute / PAGE_SIZE in
        let page_offset := absolute mod PAGE_SIZE in
        let chunk_len := Z.min (zlen buffer - written) (PAGE_SIZE - page_offset) in
        let page := default zero_page (pages !! page_index) in
        let page := zsplice page page_offset (zslice buffer written (written + chunk_len)) in
        write_loop fuel offset buffer (written + chunk_len) (<[page_index := page]> pages)
      else pages
  end.

Definition write_at (f : SparseFileData) (offset : Z) (buffer : list byte)
  : Z * SparseFileData :=
  if zlen buffer =? 0 then (0, f)
  else
    let end_ := sat_add 64 offset (zlen buffer) in
    (zlen buffer,
     mkSparse (Z.max f.(len) end_) (write_loop (length buffer) offset buffer 0 f.(pages))).

(** ** Abstract view: a plain sequence of bytes *)

(** The byte stored at an absolute position, zero where no page is. *)
Definition stored (pages : gmap Z (list byte)) (i : Z) : byte :=
  match pages !! (i / PAGE_SIZE) with
  | Some page => default x00 (page !! Z.to_nat (i mod PAGE_SIZE))
  | None => x00
  end.

(** Every page is a whole page, and nothing but zeros is kept beyond the length: growing
    the file never uncovers old data. *)
Definition wf_pages (pages : gmap Z (list byte)) : Prop :=
  ∀ k page, pages !! k = Some page → 0 ≤ k ∧ zlen page = PAGE_SIZE.

Definition wf (f : SparseFileData) : Prop :=
  0 ≤ f.(len) ∧ wf_pages f.(pages) ∧ ∀ i, f.(len) ≤ i → stored f.(pages) i = x00.

(** The file as the list of its bytes, and the reference operations on such lists. *)
Definition contents (f : SparseFileData) : list byte :=
  map (stored f.(pages)) (seqZ 0 f.(len)).

Definition spec_truncate (c : list byte) (n : Z) : list byte :=
  take (Z.to_nat n) c ++ replicate (Z.to_nat n - length c) x00.

Definition spec_write (c : list byte) (offset : Z) (buffer : list byte) : list byte :=
  if zlen buffer =? 0 then c
  else zsplice (c ++ replicate (Z.to_nat (offset + zlen buffer) - length c) x00) offset buffer.

Definition spec_zero_range (c : list byte) (offset n : Z) : list byte :=
  let end_ := Z.min (offset + n) (zlen c) in
  if end_ <=? offset then c else zfill c offset end_ x00.

Definition spec_read (c : list byte) (offset n : Z) : list byte :=
  zslice c offset (offset + n).

(** ** Lemmas *)

(** Let [lia] reason about the division by the page size. *)
#[local] Ltac page_lia := unfold PAGE_SIZE in *; Z.to_euclidean_division_equations; lia.

Lemma page_div_mod i : 0 ≤ i mod PAGE_SIZE < PAGE_SIZE ∧ i = i / PAGE_SIZE * PAGE_SIZE + i mod PAGE_SIZE.
Proof. page_lia. Qed.

Lemma length_zero_page : zlen zero_page = PAGE_SIZE.
Proof. unfold zlen, zero_page. rewrite length_replicate. unfold PAGE_SIZE. lia. Qed.

Lemma stored_insert m k page i :
  stored (<[k := page]> m) i =
  if decide (i / PAGE_SIZE = k) then default x00 (page !! Z.to_nat (i mod PAGE_SIZE))
  else stored m i.
Proof.
  unfold stored. rewrite lookup_insert. destruct (decide (k = i / PAGE_SIZE)) as [->|Hk].
  - by rewrite decide_True.
  - by rewrite decide_False by congruence.
Qed.

Lemma stored_default m i :
  stored m i = default x00 (default zero_page (m !! (i / PAGE_SIZE)) !! Z.to_nat (i mod PAGE_SIZE)).
Proof.
  unfold stored. destruct (m !! (i / PAGE_SIZE)) as [page|]; [done|]. cbn.
  destruct (zero_page !! _) as [b|] eqn:E; [|done]. unfold zero_page in E.
  apply lookup_replicate_1 in E as [-> _]. done.
Qed.

Lemma wf_default_page m k page :
  wf_pages m → default zero_page (m !! k) = page → zlen page = PAGE_SIZE.
Proof.
  intros Hm <-. destruct (m !! k) as [page|] eqn:E; [by apply (Hm k)|].
  apply length_zero_page.
Qed.

Lemma wf_insert m k page :
  wf_pages m → 0 ≤ k → zlen page = PAGE_SIZE → wf_pages (<[k := page]> m).
Proof.
  intros Hm Hk Hp k' page'. rewrite lookup_insert. destruct (decide (k = k')) as [->|?].
  - by intros [= <-].
  - apply Hm.
Qed.

(** Overwriting part of one page changes exactly the bytes of that part. *)
Lemma stored_splice m k off xs i :
  wf_pages m → 0 ≤ off → off + zlen xs ≤ PAGE_SIZE →
  stored (<[k := zsplice (default zero_page (m !! k)) off xs]> m) i =
  if decide (k * PAGE_SIZE + off ≤ i < k * PAGE_SIZE + off + zlen xs)
  then default x00 (xs !! Z.to_nat (i - k * PAGE_SIZE - off)) else stored m i.
Proof.
  intros Hm Hoff Hlen. rewrite stored_insert.
  pose proof (page_div_mod i) as [Hmod Hi].
  assert (zlen (default zero_page (m !! k)) = PAGE_SIZE) as Hp by by eapply wf_default_page.
  destruct (decide (i / PAGE_SIZE = k)) as [Hk|Hk].
  - rewrite lookup_zsplice by lia. unfold zlen in *.
    destruct (decide (Z.to_nat off ≤ _ < _)%nat) as [Hin|Hout].
    + rewrite decide_True by lia. f_equal. f_equal. lia.
    + rewrite decide_False by lia. rewrite stored_default. by rewrite Hk.
  - rewrite decide_False; [done|]. intros ?. apply Hk. page_lia.
Qed.

Lemma write_loop_spec fuel offset buffer written m :
  0 ≤ offset → 0 ≤ written → zlen buffer - written ≤ Z.of_nat fuel → wf_pages m →
  wf_pages (write_loop fuel offset buffer written m) ∧
  ∀ i, stored (write_loop fuel offset buffer written m) i =
    if decide (offset + written ≤ i < offset + zlen buffer)
    then default x00 (buffer !! Z.to_nat (i - offset)) else stored m i.
Proof.
  revert written m. induction fuel as [|fuel IH]; intros written m Ho Hw Hf Hm; cbn [write_loop].
  - split; [done|]. intros i. rewrite decide_False by lia. done.
  - destruct (Z.ltb_spec written (zlen buffer)) as [Hlt|Hge];
      [|split; [done|]; intros i; by rewrite decide_False by lia].
    set (k := (offset + written) / PAGE_SIZE). set (off := (offset + written) mod PAGE_SIZE).
    pose proof (page_div_mod (offset + written)) as [Hmod Hpos]. fold k off in Hmod, Hpos.
    set (chunk := Z.min (zlen buffer - written) (PAGE_SIZE - off)).
    assert (zlen (zslice buffer written (written + chunk)) = chunk) as Hc.
    { rewrite zlen_zslice; lia. }
    assert (zlen (default zero_page (m !! k)) = PAGE_SIZE) as Hp by by eapply wf_default_page.
    destruct (IH (written + chunk)
      (<[k := zsplice (default zero_page (m !! k)) off (zslice buffer written (written + chunk))]> m))
      as [Hwf Hst]; [lia..| |].
    { apply wf_insert; [done|unfold k; page_lia|].
      unfold zlen in *. rewrite length_zsplice; unfold zlen; lia. }
    split; [done|]. intros i. rewrite Hst. rewrite stored_splice by (try done; lia). rewrite Hc.
    destruct (decide (offset + (written + chunk) ≤ i < _)); [by rewrite decide_True by lia|].
    destruct (decide (k * PAGE_SIZE + off ≤ i < _)).
    + rewrite decide_True by lia. rewrite lookup_zslice by lia. f_equal. f_equal. lia.
    + by rewrite decide_False by lia.
Qed.

Lemma read_loop_spec fuel f offset total copied buffer :
  0 ≤ offset → 0 ≤ copied → total ≤ zlen buffer → total - copied ≤ Z.of_nat fuel →
  wf_pages f.(pages) →
  (∀ j : nat, copied ≤ Z.of_nat j < total → buffer !! j = Some x00) →
  length (read_loop fuel f offset total copied buffer) = length buffer ∧
  ∀ j : nat, read_loop fuel f offset total copied buffer !! j =
    if decide (copied ≤ Z.of_nat j < total)
    then Some (stored f.(pages) (offset + Z.of_nat j)) else buffer !! j.
Proof.
  revert copied buffer. induction fuel as [|fuel IH]; intros copied buffer Ho Hc Ht Hf Hm Hz;
    cbn [read_loop].
  { split; [done|]. intros j. rewrite decide_False by lia. done. }
  destruct (Z.ltb_spec copied total) as [Hlt|Hge];
    [|split; [done|]; intros j; by rewrite decide_False by lia].
  set (k := (offset + copied) / PAGE_SIZE). set (off := (offset + copied) mod PAGE_SIZE).
  pose proof (page_div_mod (offset + copied)) as [Hmod Hpos]. fold k off in Hmod, Hpos.
  set (chunk := Z.min (total - copied) (PAGE_SIZE - off)).
  set (buffer' := match f.(pages) !! k with
    | Some page => zsplice buffer copied (zslice page off (off + chunk)) | None => buffer end).
  assert (length buffer' = length buffer ∧ ∀ j : nat, buffer' !! j =
    if decide (copied ≤ Z.of_nat j < copied + chunk)
    then Some (stored f.(pages) (offset + Z.of_nat j)) else buffer !! j) as [Hlen Hb'].
  { assert (∀ j : nat, copied ≤ Z.of_nat j < copied + chunk →
      (offset + Z.of_nat j) / PAGE_SIZE = k ∧
      (offset + Z.of_nat j) mod PAGE_SIZE = off + (Z.of_nat j - copied)) as Hsame.
    { intros j Hj. subst k off chunk. split; page_lia. }
    unfold buffer'. destruct (f.(pages) !! k) as [page|] eqn:E.
    - destruct (Hm _ _ E) as [_ Hp].
      assert (zlen (zslice page off (off + chunk)) = chunk) as Hcl by (rewrite zlen_zslice; lia).
      split; [apply length_zsplice; lia|]. intros j. rewrite lookup_zsplice by lia.
      unfold zlen in Hcl. destruct (decide (copied ≤ Z.of_nat j < copied + chunk)) as [Hj|Hj].
      + rewrite decide_True by lia. rewrite lookup_zslice by lia.
        destruct (Hsame j Hj) as [Hd Hmd]. unfold stored. rewrite Hd, E, Hmd.
        destruct (page !! (Z.to_nat off + _)%nat) eqn:El.
        * replace (Z.to_nat (off + (Z.of_nat j - copied)))
            with (Z.to_nat off + (j - Z.to_nat copied))%nat by lia. by rewrite El.
        * apply lookup_ge_None in El. unfold zlen in Hp. lia.
      + by rewrite decide_False by lia.
    - split; [done|]. intros j. destruct (decide _) as [Hj|Hj]; [|done].
      destruct (Hsame j Hj) as [Hd _]. unfold stored. rewrite Hd, E. apply Hz. lia. }
  destruct (IH (copied + chunk) buffer') as [Hl Hst]; [lia..|unfold zlen in *; lia|lia|done| |].
  { intros j Hj. rewrite Hb', decide_False by lia. apply Hz. lia. }
  split; [by rewrite Hl|]. intros j. rewrite Hst, Hb'.
  destruct (decide (copied + chunk ≤ _ < _)); [by rewrite decide_True by lia|].
  destruct (decide (copied ≤ _ < copied + chunk)); [by rewrite decide_True by lia|].
  by rewrite decide_False by lia.
Qed.

Lemma length_contents f : length (contents f) = Z.to_nat f.(len).
Proof. unfold contents. by rewrite length_map, length_seqZ. Qed.

Lemma lookup_contents f (j : nat) :
  contents f !! j = if decide (Z.of_nat j < f.(len))
                    then Some (stored f.(pages) (Z.of_nat j)) else None.
Proof.
  unfold contents. change (map ?g ?l) with (g <$> l). rewrite list_lookup_fmap.
  destruct (decide _).
  - by rewrite lookup_seqZ_lt by lia.
  - by rewrite lookup_seqZ_ge by lia.
Qed.

(** Two files with the same bytes below the length have the same contents. *)
Lemma contents_eq f l :
  length l = Z.to_nat f.(len) →
  (∀ j : nat, Z.of_nat j < f.(len) → l !! j = Some (stored f.(pages) (Z.of_nat j))) →
  contents f = l.
Proof.
  intros Hlen Hl. apply list_eq. intros j. rewrite lookup_contents.
  destruct (decide _); [by rewrite Hl|]. symmetry. apply lookup_ge_None. lia.
Qed.

Lemma contents_default f (j : nat) n :
  (∀ i, f.(len) ≤ i → stored f.(pages) i = x00) → Z.of_nat j < f.(len) + Z.of_nat n → 0 ≤ f.(len) →
  (contents f ++ replicate n x00) !! j = Some (stored f.(pages) (Z.of_nat j)).
Proof.
  intros Hz Hj Hlen. destruct (decide (Z.of_nat j < f.(len))).
  - rewrite lookup_app_l by (rewrite length_contents; lia).
    rewrite lookup_contents. by rewrite decide_True.
  - rewrite lookup_app_r; rewrite length_contents; [|lia].
    rewrite Hz by lia. apply lookup_replicate_2. lia.
Qed.

(** Grow or shrink of the length alone, when everything beyond stays zero. *)
Lemma contents_resize f n :
  wf f → 0 ≤ n → f.(len) ≤ n → contents (mkSparse n f.(pages)) = spec_truncate (contents f) n.
Proof.
  intros (Hl & Hm & Hz) Hn Hge. apply contents_eq; cbn [len pages].
  - unfold spec_truncate. rewrite length_app, length_take, length_replicate, length_contents. lia.
  - intros j Hj. unfold spec_truncate. rewrite length_contents.
    rewrite firstn_all2 by (rewrite length_contents; lia).
    apply contents_default; [done|lia|done].
Qed.

Lemma stored_filter_pages m keep i :
  stored (filter (λ kv : Z * list byte, kv.1 < keep) m) i =
  if decide (i / PAGE_SIZE < keep) then stored m i else x00.
Proof.
  unfold stored. destruct (decide _) as [Hlt|Hge].
  - destruct (m !! (i / PAGE_SIZE)) as [page|] eqn:E.
    + by rewrite (map_lookup_filter_Some_2 _ m _ page).
    + rewrite map_lookup_filter_None_2; [done|]. by left.
  - rewrite map_lookup_filter_None_2; [done|]. right. intros ? _. exact Hge.
Qed.

Lemma wf_filter_pages m keep : wf_pages m → wf_pages (filter (λ kv : Z * list byte, kv.1 < keep) m).
Proof. intros Hm k page [Hk _]%map_lookup_filter_Some. by apply Hm. Qed.

(** Filling part of an existing page with zeros. *)
Lemma stored_zfill m k page a b i :
  wf_pages m → m !! k = Some page → 0 ≤ a → a ≤ b ≤ PAGE_SIZE →
  stored (<[k := zfill page a b x00]> m) i =
  if decide (k * PAGE_SIZE + a ≤ i < k * PAGE_SIZE + b) then x00 else stored m i.
Proof.
  intros Hm Hk Ha Hb. unfold zfill.
  replace page with (default zero_page (m !! k)) by by rewrite Hk.
  rewrite stored_splice by (unfold zlen; rewrite ?length_replicate; done || lia).
  unfold zlen. rewrite length_replicate.
  destruct (decide (_ ≤ i < k * PAGE_SIZE + a + _)).
  - rewrite decide_True by lia. by rewrite lookup_replicate_2 by lia.
  - by rewrite decide_False by lia.
Qed.

Lemma wf_zfill m k page a b :
  wf_pages m → m !! k = Some page → 0 ≤ a → a ≤ b ≤ PAGE_SIZE →
  wf_pages (<[k := zfill page a b x00]> m).
Proof.
  intros Hm Hk Ha Hb. destruct (Hm _ _ Hk) as [Hk0 Hp]. apply wf_insert; [done|done|].
  unfold zfill, zlen in *. rewrite length_zsplice; unfold zlen; rewrite ?length_replicate; lia.
Qed.

Lemma zero_loop_spec offset end_ ks m :
  0 ≤ offset → wf_pages m → Forall (λ k, offset / PAGE_SIZE ≤ k ∧ k * PAGE_SIZE < end_) ks →
  wf_pages (foldl (zero_page_range offset end_) m ks) ∧
  ∀ i, stored (foldl (zero_page_range offset end_) m ks) i =
    if decide (offset ≤ i < end_ ∧ i / PAGE_SIZE ∈ ks) then x00 else stored m i.
Proof.
  intros Ho Hm Hks. revert m Hm. induction Hks as [|k ks [Hk1 Hk2] Hks IH]; intros m Hm.
  { split; [done|]. intros i. rewrite decide_False; [done|]. intros [_ ?%elem_of_nil]. done. }
  cbn [foldl]. set (m' := zero_page_range offset end_ m k).
  assert (wf_pages m' ∧ ∀ i, stored m' i =
    if decide (offset ≤ i < end_ ∧ i / PAGE_SIZE = k) then x00 else stored m i) as [Hm' Hst].
  { unfold m', zero_page_range. destruct (m !! k) as [page|] eqn:E.
    - assert (0 ≤ sat_sub offset (k * PAGE_SIZE) ≤ Z.min (end_ - k * PAGE_SIZE) PAGE_SIZE ∨
        end_ ≤ offset) as [Hr|Hr] by (unfold sat_sub; page_lia).
      + split; [apply wf_zfill; [done..|lia|lia]|]. intros i.
        rewrite stored_zfill by (done || lia).
        destruct (decide (offset ≤ i < end_ ∧ i / PAGE_SIZE = k)) as [Hi|Hi].
        * rewrite decide_True; [done|]. unfold sat_sub. page_lia.
        * rewrite decide_False; [done|]. intros Hc. apply Hi. unfold sat_sub in *. page_lia.
      + rewrite Z.min_l by page_lia.
        assert (zfill page (sat_sub offset (k * PAGE_SIZE)) (end_ - k * PAGE_SIZE) x00 = page)
          as -> by (unfold zfill; replace (Z.to_nat _) with 0%nat by (unfold sat_sub; lia);
                    apply zsplice_nil).
        rewrite insert_id by done. split; [done|]. intros i. by rewrite decide_False by lia.
    - split; [done|]. intros i. destruct (decide _) as [[_ Hi]|]; [|done].
      unfold stored. by rewrite Hi, E. }
  destruct (IH m' Hm') as [Hwf IHst]. split; [done|]. intros i. rewrite IHst, Hst.
  destruct (decide (offset ≤ i < end_ ∧ i / PAGE_SIZE ∈ ks)) as [[? ?]|Hn].
  - rewrite decide_True; [done|]. split; [done|]. by constructor.
  - destruct (decide (offset ≤ i < end_ ∧ i / PAGE_SIZE = k)) as [[? ->]|Hn'].
    + rewrite decide_True; [done|]. split; [done|]. constructor.
    + rewrite decide_False; [done|]. intros [? [?|?]%elem_of_cons]; tauto.
Qed.

Lemma truncate_stored f n :
  wf f → 0 ≤ n < f.(len) →
  wf_pages (truncate f n).(pages) ∧
  ∀ i, stored (truncate f n).(pages) i = if decide (i < n) then stored f.(pages) i else x00.
Proof.
  intros (Hl & Hm & Hz) Hn. unfold truncate. destruct (Z.leb_spec f.(len) n); [lia|].
  cbv zeta. cbn [pages]. set (keep := div_ceil n PAGE_SIZE).
  set (m0 := filter (λ kv : Z * list byte, kv.1 < keep) f.(pages)).
  assert (wf_pages m0) as Hw0 by by apply wf_filter_pages.
  assert (∀ i, stored m0 i = if decide (i / PAGE_SIZE < keep) then stored f.(pages) i else x00)
    as Hs0 by (intros; apply stored_filter_pages).
  destruct (Z.eqb_spec (n mod PAGE_SIZE) 0) as [Hmod|Hmod]; cbn [negb].
  { split; [done|]. intros i. rewrite Hs0. unfold keep, div_ceil.
    destruct (decide (i < n)); [rewrite decide_True|rewrite decide_False]; try done; page_lia. }
  destruct (m0 !! (n / PAGE_SIZE)) as [page|] eqn:E.
  - destruct (Hw0 _ _ E) as [_ Hp]. rewrite Hp. pose proof (page_div_mod n) as [? ?].
    split; [apply wf_zfill; (done || lia)|]. intros i. rewrite stored_zfill by (done || lia).
    rewrite Hs0. unfold keep, div_ceil. destruct (decide (i < n)).
    + rewrite decide_False by lia. rewrite decide_True; [done|page_lia].
    + destruct (decide (_ ≤ i < _)); [done|]. rewrite decide_False; [done|page_lia].
  - split; [done|]. intros i. rewrite Hs0. destruct (decide (i < n)).
    + rewrite decide_True; [done|]. unfold keep, div_ceil; page_lia.
    + destruct (decide _) as [Hk|]; [|done].
      assert (i / PAGE_SIZE = n / PAGE_SIZE) as Hi by (unfold keep, div_ceil in *; page_lia).
      assert (stored m0 i = x00) as Hx by (unfold stored; by rewrite Hi, E).
      rewrite Hs0 in Hx. by rewrite decide_True in Hx.
Qed.

Lemma truncate_refines f n :
  wf f → 0 ≤ n → wf (truncate f n) ∧ contents (truncate f n) = spec_truncate (contents f) n.
Proof.
  intros Hf Hn. pose proof Hf as (Hl & Hm & Hz). destruct (Z.le_gt_cases f.(len) n) as [Hge|Hlt].
  - unfold truncate. rewrite (proj2 (Z.leb_le _ _)) by done.
    split; [|by apply contents_resize]. split; [done|]. split; [done|]. intros i Hi. apply Hz.
    cbn in Hi. lia.
  - destruct (truncate_stored f n Hf) as [Hw Hs]; [done|].
    assert ((truncate f n).(len) = n) as Hlen
      by (unfold truncate; by destruct (f.(len) <=? n)).
    split.
    + split; [by rewrite Hlen|]. split; [done|]. rewrite Hlen. intros i Hi.
      by rewrite Hs, decide_False by lia.
    + apply contents_eq; rewrite Hlen; unfold spec_truncate;
        rewrite (proj2 (Nat.sub_0_le _ _)) by (rewrite length_contents; lia);
        rewrite app_nil_r.
      * rewrite length_take, length_contents. lia.
      * intros j Hj. rewrite lookup_take_lt by lia. rewrite lookup_contents, Hs.
        by rewrite !decide_True by lia.
Qed.

Lemma zero_range_refines f n m :
  wf f → 0 ≤ n → 0 ≤ m → n + m < 2 ^ 64 →
  wf (zero_range f n m) ∧ contents (zero_range f n m) = spec_zero_range (contents f) n m.
Proof.
  intros (Hl & Hm & Hz) Hn Hm' Hov. pose proof (conj Hl (conj Hm Hz) : wf f) as Hf.
  unfold zero_range, spec_zero_range, sat_add. rewrite (Z.min_l (n + m) (2 ^ 64 - 1)) by lia.
  assert (zlen (contents f) = f.(len)) as -> by (unfold zlen; rewrite length_contents; lia).
  set (e := Z.min (n + m) f.(len)). destruct (Z.leb_spec e n) as [Hle|Hgt]; [done|].
  set (ks := seqZ _ _).
  destruct (zero_loop_spec n e ks f.(pages)) as [Hw Hs]; [done|done| |].
  { apply Forall_forall. intros k Hk%elem_of_seqZ. page_lia. }
  assert (∀ i, stored (foldl (zero_page_range n e) f.(pages) ks) i =
    if decide (n ≤ i < e) then x00 else stored f.(pages) i) as Hs'.
  { intros i. rewrite Hs. destruct (decide (n ≤ i < e)); [|by rewrite decide_False by tauto].
    rewrite decide_True; [done|]. split; [done|]. apply elem_of_seqZ. page_lia. }
  split.
  - split; [done|]. split; [done|]. cbn. intros i Hi. rewrite Hs', decide_False by lia. by apply Hz.
  - apply contents_eq; cbn [len pages]; unfold zfill.
    + rewrite length_zsplice; unfold zlen in *; rewrite ?length_replicate, ?length_contents; lia.
    + intros j Hj. rewrite Hs'.
      rewrite lookup_zsplice by (unfold zlen in *; rewrite ?length_replicate, ?length_contents; lia).
      rewrite length_replicate. destruct (decide (n ≤ Z.of_nat j < e)).
      * rewrite decide_True by lia. apply lookup_replicate_2. lia.
      * rewrite decide_False by lia. by rewrite lookup_contents, decide_True by lia.
Qed.

(** ** Properties *)

(** Writing refines the byte-sequence specification: on a well-formed file and an
    in-range position, [write_at] reports the whole buffer as written, leaves a
    well-formed file, and the new contents are the old ones, extended with zeros if the
    write starts or ends beyond the length, with the buffer at its offset. *)
Lemma write_at_spec f offset buffer :
  wf f → 0 ≤ offset → offset + zlen buffer < 2 ^ 64 →
  (write_at f offset buffer).1 = zlen buffer ∧
  wf (write_at f offset buffer).2 ∧
  contents (write_at f offset buffer).2 = spec_write (contents f) offset buffer.
Proof.
  intros (Hl & Hm & Hz) Ho Hov. unfold write_at, spec_write.
  destruct (Z.eqb_spec (zlen buffer) 0) as [He|Hne]; [by rewrite He|].
  cbn [fst snd]. unfold sat_add. rewrite Z.min_l by lia. split; [done|].
  pose proof (zlen_nonneg buffer).
  destruct (write_loop_spec (length buffer) offset buffer 0 f.(pages)) as [Hwf Hst];
    [done|lia|unfold zlen; lia|done|].
  split.
  - split; [cbn; lia|]. split; [exact Hwf|]. cbn [len pages]. intros i Hi.
    rewrite Hst, decide_False by lia. apply Hz. lia.
  - assert (length (contents f) = Z.to_nat f.(len)) as Hcl by apply length_contents.
    apply contents_eq; cbn [len pages].
    + rewrite length_zsplice; unfold zlen in *;
        rewrite ?length_app, ?length_replicate; rewrite ?Hcl; lia.
    + intros j Hj. rewrite Hst.
      rewrite lookup_zsplice by (unfold zlen in *; rewrite ?length_app, ?length_replicate, ?Hcl; lia).
      unfold zlen in *. destruct (decide (Z.to_nat offset ≤ j < _)%nat).
      * rewrite decide_True by lia.
        destruct (lookup_lt_is_Some_2 buffer (j - Z.to_nat offset)) as [b Hb]; [lia|].
        replace (Z.to_nat (Z.of_nat j - offset)) with (j - Z.to_nat offset)%nat by lia.
        by rewrite Hb.
      * rewrite decide_False by lia. apply contents_default; [done|lia|done].
Qed.

Lemma wf_new : wf sparse_new.
Proof.
  split; [cbn; lia|]. split; [|done]. intros k page. cbn. by rewrite lookup_empty.
Qed.

(** Reading refines the byte-sequence specification: [read_at] on a well-formed file
    returns the number of bytes that exist at the offset, at most the size of the
    buffer, fills the front of the caller's buffer with exactly those bytes of the
    contents, and leaves the rest of the buffer as it was. *)
Lemma read_at_spec f offset buffer :
  wf f → 0 ≤ offset →
  read_at f buffer offset =
  (zlen (spec_read (contents f) offset (zlen buffer)),
   spec_read (contents f) offset (zlen buffer) ++
   drop (length (spec_read (contents f) offset (zlen buffer))) buffer).
Proof.
  intros (Hl & Hm & Hz) Ho. unfold read_at.
  set (s := spec_read (contents f) offset (zlen buffer)).
  assert (length s = Z.to_nat (Z.min (zlen buffer) (f.(len) - offset))) as Hs.
  { unfold s, spec_read, zslice. rewrite length_take, length_drop, length_contents. lia. }
  pose proof (zlen_nonneg buffer).
  destruct (Z.leb_spec f.(len) offset) as [Hge|Hlt].
  { cbn [orb]. destruct s; [done|]. cbn in Hs. lia. }
  destruct (Z.eqb_spec (zlen buffer) 0) as [He|Hne].
  { cbn [orb]. destruct s; [done|]. cbn in Hs. lia. }
  cbn [orb]. set (total := Z.min (zlen buffer) (f.(len) - offset)) in *.
  f_equal; [unfold zlen; lia|].
  set (b0 := zfill buffer 0 total x00).
  assert (length b0 = length buffer) as Hb0.
  { unfold b0, zfill. rewrite length_zsplice; unfold zlen in *; rewrite ?length_replicate; lia. }
  assert (∀ j : nat, b0 !! j = if decide (Z.of_nat j < total) then Some x00 else buffer !! j) as Hbj.
  { intros j. unfold b0, zfill.
    rewrite lookup_zsplice by (unfold zlen in *; rewrite ?length_replicate; lia).
    rewrite length_replicate. destruct (decide (Z.to_nat 0 ≤ j < _)%nat).
    - rewrite decide_True by lia. apply lookup_replicate_2. lia.
    - by rewrite decide_False by lia. }
  destruct (read_loop_spec (length b0) f offset total 0 b0) as [Hlen Hst];
    [done|done|unfold zlen in *; lia|unfold zlen in *; lia|done| |].
  { intros j Hj. by rewrite Hbj, decide_True by lia. }
  apply list_eq. intros j. rewrite Hst, Hbj.
  destruct (decide (Z.of_nat j < total)) as [Hj|Hj].
  - rewrite decide_True by lia. rewrite lookup_app_l by lia. unfold s, spec_read.
    rewrite lookup_zslice by lia. rewrite lookup_contents, decide_True by lia. f_equal. f_equal. lia.
  - rewrite decide_False by lia. rewrite lookup_app_r by lia. rewrite lookup_drop. f_equal. lia.
Qed.

(** Resizing and zeroing refine the byte-sequence specification and keep the file
    well-formed: [truncate] cuts or zero-extends, [ensure_len] only ever zero-extends,
    [zero_range] replaces the existing bytes of the range by zeros and never grows the
    file. *)
Lemma resize_spec f n m :
  wf f → 0 ≤ n → 0 ≤ m → n + m < 2 ^ 64 →
  (wf (truncate f n) ∧ contents (truncate f n) = spec_truncate (contents f) n) ∧
  (wf (ensure_len f n) ∧
   contents (ensure_len f n) = spec_truncate (contents f) (Z.max f.(len) n)) ∧
  (wf (zero_range f n m) ∧ contents (zero_range f n m) = spec_zero_range (contents f) n m).
Proof.
  intros Hf Hn Hm Hov. split; [by apply truncate_refines|].
  split; [|by apply zero_range_refines]. pose proof Hf as (Hl & Hw & Hz).
  split; [|apply contents_resize; (done || lia)].
  split; [cbn; lia|]. split; [done|]. cbn. intros i Hi. apply Hz. lia.
Qed.

(** C21. The paged representation refines a plain byte sequence.  On a well-formed file, every
    operation keeps the file well formed and does to its contents what it does to a list of
    bytes: [write_at] takes the whole buffer and extends with zeros where it starts or ends
    beyond the length, [read_at] returns exactly the bytes that exist at the offset and
    leaves the rest of the buffer, [truncate] cuts or extends with zeros, [ensure_len] only
    extends, and [zero_range] zeroes existing bytes without growing the file. *)
Theorem sparse_file_refines f :
  wf f →
  (∀ offset buffer, 0 ≤ offset → offset + zlen buffer < 2 ^ 64 →
     (write_at f offset buffer).1 = zlen buffer ∧ wf (write_at f offset buffer).2 ∧
     contents (write_at f offset buffer).2 = spec_write (contents f) offset buffer) ∧
  (∀ offset buffer, 0 ≤ offset →
     read_at f buffer offset =
     (zlen (spec_read (contents f) offset (zlen buffer)),
      spec_read (contents f) offset (zlen buffer) ++
      drop (length (spec_read (contents f) offset (zlen buffer))) buffer)) ∧
  (∀ n m, 0 ≤ n → 0 ≤ m → n + m < 2 ^ 64 →
     (wf (truncate f n) ∧ contents (truncate f n) = spec_truncate (contents f) n) ∧
     (wf (ensure_len f n) ∧ contents (ensure_len f n) = spec_truncate (contents f) (Z.max f.(len) n)) ∧
     (wf (zero_range f n m) ∧ contents (zero_range f n m) = spec_zero_range (contents f) n m)).
Proof.
  intros Hf. split; [intros; by apply write_at_spec|]. split; [intros; by apply read_at_spec|].
  intros. by apply resize_spec.
Qed.

Lemma sparse_file_refines_witness :
  (write_at sparse_new 4094 [Byte.x61; Byte.x62]).1 = 2 ∧
  contents (truncate (write_at sparse_new 1 [Byte.x61]).2 1) = [x00].
Proof.
  destruct (sparse_file_refines sparse_new wf_new) as (Hw & _ & _).
  destruct (Hw 4094 [Byte.x61; Byte.x62]) as (H1 & _ & _); [lia|reflexivity|]. split; [exact H1|].
  destruct (Hw 1 [Byte.x61]) as (_ & H2 & H3); [lia|reflexivity|].
  destruct (sparse_file_refines _ H2) as (_ & _ & Hr). destruct (Hr 1 0) as ((_ & H) & _); [lia|lia|reflexivity|].
  rewrite H, H3. reflexivity.
Defined.
