(* ===== verification/Clock.v ===== *)
(** * Time keeping

    misc/time.rs: the time-stamp counter scaled to nanoseconds since boot, wall-clock time as
    a base plus the time since boot, the frequency detection by [cpuid], and the arithmetic
    of [Time].

    [get_cycles] and [cpuid] are hardware: the counter's present value is a field of the
    state, the [cpuid] leaves are an argument.  Calibration against the PIT and the RTC reads
    ports in a loop and is an argument too ([calibrated] of [init]). *)

From S2P Require Import Prelude.

(** ** Data *)

Definition NANOSECONDS_PER_MICROSECOND : Z := 1000.
Definition NANOSECONDS_PER_MILLISECOND : Z := 1000000.
Definition NANOSECONDS_PER_SECOND : Z := 1000000000.
Definition DEFAULT_TSC_FREQ_HZ : Z := 1000000000.

(** [Time(u64)] *)
Record Time := mkTime { time_ns : Z }.

#[export] Instance Time_eq_dec : EqDecision Time.
Proof. solve_decision. Defined.

(** [PartialOrd] of [Time] *)
Definition time_leb (a b : Time) : bool := a.(time_ns) <=? b.(time_ns).

Record Clock := mkClock {
  BOOT_TSC : Z;
  TSC_FREQ_HZ : Z;
  REALTIME_BASE_NS : Z;
  TIMEZONE_MINUTESWEST : Z;
  TIMEZONE_DSTTIME : Z;
  cycles : Z;
}.

Record TimeCalibration := mkCalibration {
  boot_tsc : Z;
  tsc_freq_hz : Z;
  realtime_base_ns : Z;
}.

Record CpuidResult := mkCpuid { eax : Z; ebx : Z; ecx : Z; edx : Z }.

(** i64 saturating arithmetic *)
Definition sat_i64 (z : Z) : Z := Z.max (- 2 ^ 63) (Z.min z I64_MAX).

(** ** Operations *)

Definition nanoseconds_since_boot (c : Clock) : Z :=
  if (c.(BOOT_TSC) =? 0) || (c.(TSC_FREQ_HZ) =? 0) then 0
  else
    let delta_cycles := sat_sub c.(cycles) c.(BOOT_TSC) in
    uwrap 64 (delta_cycles * NANOSECONDS_PER_SECOND / c.(TSC_FREQ_HZ)).

Definition unix_timestamp_nanoseconds (c : Clock) : Z :=
  let current := sat_i64 (c.(REALTIME_BASE_NS) + swrap 64 (nanoseconds_since_boot c)) in
  Z.max current 0.

Definition unix_timestamp_seconds (c : Clock) : Z :=
  unix_timestamp_nanoseconds c / NANOSECONDS_PER_SECOND.

Definition tsc_frequency_hz (c : Clock) : Z := c.(TSC_FREQ_HZ).

Definition set_unix_timestamp_nanoseconds (unix_time_ns : Z) (c : Clock) : Clock :=
  mkClock c.(BOOT_TSC) c.(TSC_FREQ_HZ)
    (sat_i64 (unix_time_ns - swrap 64 (nanoseconds_since_boot c)))
    c.(TIMEZONE_MINUTESWEST) c.(TIMEZONE_DSTTIME) c.(cycles).

Definition timezone (c : Clock) : Z * Z := (c.(TIMEZONE_MINUTESWEST), c.(TIMEZONE_DSTTIME)).

Definition set_timezone (minuteswest dsttime : Z) (c : Clock) : Clock :=
  mkClock c.(BOOT_TSC) c.(TSC_FREQ_HZ) c.(REALTIME_BASE_NS) minuteswest dsttime c.(cycles).

Definition from_nanoseconds (nanoseconds : Z) : Time := mkTime nanoseconds.
Definition current (c : Clock) : Time := from_nanoseconds (unix_timestamp_nanoseconds c).
Definition since_boot (c : Clock) : Time := from_nanoseconds (nanoseconds_since_boot c).
Definition as_nanoseconds (t : Time) : Z := t.(time_ns).
Definition add_ns (t : Time) (nanoseconds : Z) : Time :=
  from_nanoseconds (sat_add 64 t.(time_ns) nanoseconds).
Definition add_ms (t : Time) (milliseconds : Z) : Time :=
  add_ns t (sat_mul 64 milliseconds NANOSECONDS_PER_MILLISECOND).
Definition add_sec (t : Time) (seconds : Z) : Time :=
  add_ns t (sat_mul 64 seconds NANOSECONDS_PER_SECOND).
Definition time_sub (t other : Time) : Time :=
  from_nanoseconds (sat_sub t.(time_ns) other.(time_ns)).
Definition as_microseconds (t : Time) : Z := t.(time_ns) / NANOSECONDS_PER_MICROSECOND.
Definition as_milliseconds (t : Time) : Z := t.(time_ns) / NANOSECONDS_PER_MILLISECOND.
Definition as_seconds (t : Time) : Z := t.(time_ns) / NANOSECONDS_PER_SECOND.
Definition subsec_nanoseconds (t : Time) : Z := t.(time_ns) mod NANOSECONDS_PER_SECOND.
Definition subsec_microseconds (t : Time) : Z :=
  subsec_nanoseconds t / NANOSECONDS_PER_MICROSECOND.
Definition subsec_milliseconds (t : Time) : Z :=
  subsec_nanoseconds t / NANOSECONDS_PER_MILLISECOND.

(** ** Frequency detection *)

Definition detect_tsc_frequency_from_leaf_0x15 (cpuid : Z → CpuidResult) : option Z :=
  let max_leaf := (cpuid 0).(eax) in
  if max_leaf <? 21 then None
  else
    let leaf := cpuid 21 in
    if (leaf.(eax) =? 0) || (leaf.(ebx) =? 0) || (leaf.(ecx) =? 0) then None
    else Some (sat_mul 64 leaf.(ecx) leaf.(ebx) / leaf.(eax)).

Definition detect_tsc_frequency_from_leaf_0x16 (cpuid : Z → CpuidResult) : option Z :=
  let max_leaf := (cpuid 0).(eax) in
  if max_leaf <? 22 then None
  else
    let leaf := cpuid 22 in
    if leaf.(eax) =? 0 then None else Some (uwrap 64 (leaf.(eax) * 1000000)).

(** [u32::from_le_bytes] of "KVMK", "VMKV" and "M\0\0\0". *)
Definition KVMK : Z := 75 + 256 * 86 + 65536 * 77 + 16777216 * 75.
Definition VMKV : Z := 86 + 256 * 77 + 65536 * 75 + 16777216 * 86.
Definition M000 : Z := 77.

Definition detect_tsc_frequency_from_kvm_leaf_0x40000010 (cpuid : Z → CpuidResult) : option Z :=
  let hypervisor_leaf := cpuid 1073741824 in
  if hypervisor_leaf.(eax) <? 1073741840 then None
  else if negb (hypervisor_leaf.(ebx) =? KVMK) || negb (hypervisor_leaf.(ecx) =? VMKV)
          || negb (hypervisor_leaf.(edx) =? M000) then None
  else
    let timing := cpuid 1073741840 in
    if timing.(eax) =? 0 then None else Some (uwrap 64 (timing.(eax) * 1000)).

Definition detect_tsc_frequency_hz (cpuid : Z → CpuidResult) : option Z :=
  match detect_tsc_frequency_from_kvm_leaf_0x40000010 cpuid with
  | Some f => Some f
  | None =>
      match detect_tsc_frequency_from_leaf_0x15 cpuid with
      | Some f => Some f
      | None => detect_tsc_frequency_from_leaf_0x16 cpuid
      end
  end.

(** [rtc] is what the real-time clock returns, [calibrated] what [calibrate_timebase] does;
    the counter is read once. *)
Definition init (cpuid : Z → CpuidResult) (rtc : Z) (calibrated : option TimeCalibration)
  (c : Clock) : Clock :=
  let base := sat_i64 (swrap 64 rtc * NANOSECONDS_PER_SECOND) in
  let calibration :=
    match detect_tsc_frequency_hz cpuid with
    | Some f => mkCalibration c.(cycles) f base
    | None =>
        match calibrated with
        | Some k => k
        | None => mkCalibration c.(cycles) DEFAULT_TSC_FREQ_HZ base
        end
    end in
  mkClock calibration.(boot_tsc) calibration.(tsc_freq_hz) calibration.(realtime_base_ns)
    c.(TIMEZONE_MINUTESWEST) c.(TIMEZONE_DSTTIME) c.(cycles).

(** The counter runs on. *)
Definition tick (n : Z) (c : Clock) : Clock :=
  mkClock c.(BOOT_TSC) c.(TSC_FREQ_HZ) c.(REALTIME_BASE_NS)
    c.(TIMEZONE_MINUTESWEST) c.(TIMEZONE_DSTTIME) (c.(cycles) + n).

(** ** Lemmas *)

(** A clock whose counter has run for less than 2^63 nanoseconds. *)
Definition clock_ok (c : Clock) : Prop :=
  is_uint 64 c.(BOOT_TSC) ∧ 0 ≤ c.(TSC_FREQ_HZ) ∧ c.(BOOT_TSC) ≤ c.(cycles) ∧
  (c.(TSC_FREQ_HZ) ≠ 0 →
   (c.(cycles) - c.(BOOT_TSC)) * NANOSECONDS_PER_SECOND / c.(TSC_FREQ_HZ) < 2 ^ 63).

Lemma nanoseconds_since_boot_ok c :
  clock_ok c →
  0 ≤ nanoseconds_since_boot c < 2 ^ 63 ∧
  (c.(BOOT_TSC) ≠ 0 → c.(TSC_FREQ_HZ) ≠ 0 →
   nanoseconds_since_boot c =
     (c.(cycles) - c.(BOOT_TSC)) * NANOSECONDS_PER_SECOND / c.(TSC_FREQ_HZ)).
Proof.
  intros (Hb & Hf & Hc & Hlt). unfold nanoseconds_since_boot, sat_sub.
  rewrite (Z.max_r 0) by lia.
  destruct (c.(TSC_FREQ_HZ) =? 0) eqn:Hf0.
  { rewrite orb_true_r. split; [lia|]. intros. lia. }
  specialize (Hlt ltac:(lia)).
  assert (0 ≤ (c.(cycles) - c.(BOOT_TSC)) * NANOSECONDS_PER_SECOND / c.(TSC_FREQ_HZ)).
  { apply Z.div_pos; [|lia]. unfold NANOSECONDS_PER_SECOND. lia. }
  destruct (c.(BOOT_TSC) =? 0) eqn:Hb0; cbn [orb]; [split; [lia|intros; lia]|].
  rewrite uwrap_id by (unfold is_uint; lia). split; [lia|done].
Qed.

Lemma since_boot_signed c :
  clock_ok c → swrap 64 (nanoseconds_since_boot c) = nanoseconds_since_boot c.
Proof. intros [H _]%nanoseconds_since_boot_ok. apply swrap_id; [lia|]. unfold is_sint. lia. Qed.

Lemma sat_i64_id z : - 2 ^ 63 ≤ z ≤ I64_MAX → sat_i64 z = z.
Proof. unfold sat_i64. lia. Qed.

Lemma unix_timestamp_seconds_nonneg c : 0 ≤ unix_timestamp_seconds c.
Proof. unfold unix_timestamp_seconds, unix_timestamp_nanoseconds. apply Z.div_pos; [lia|done]. Qed.

(** The deadline test [Time::since_boot() >= deadline] of the blocking calls. *)
Definition deadline_passed (c : Clock) (deadline : option Time) : bool :=
  match deadline with Some d => time_leb d (since_boot c) | None => false end.

Lemma div_add_bounds x y f : 0 < f → x / f + y / f ≤ (x + y) / f ≤ x / f + y / f + 1.
Proof.
  intros Hf. pose proof (Z.mod_pos_bound x f Hf). pose proof (Z.mod_pos_bound y f Hf).
  replace (x + y) with ((x mod f + y mod f) + (x / f + y / f) * f)
    by (pose proof (Z.div_mod x f); pose proof (Z.div_mod y f); lia).
  rewrite Z.div_add by lia.
  assert (0 ≤ (x mod f + y mod f) / f) by (apply Z.div_pos; lia).
  assert ((x mod f + y mod f) / f < 2) by (apply Z.div_lt_upper_bound; lia). lia.
Qed.

(** ** Properties *)

(** Setting the wall clock and reading it after the counter has run on gives the time
    that was set plus the time that has elapsed, as long as neither leaves the i64 range. *)
Lemma set_time_then_read c c' ns :
  clock_ok c → clock_ok c' →
  nanoseconds_since_boot c ≤ nanoseconds_since_boot c' →
  c'.(REALTIME_BASE_NS) = (set_unix_timestamp_nanoseconds ns c).(REALTIME_BASE_NS) →
  0 ≤ ns → ns + (nanoseconds_since_boot c' - nanoseconds_since_boot c) ≤ I64_MAX →
  unix_timestamp_nanoseconds c' =
    ns + (nanoseconds_since_boot c' - nanoseconds_since_boot c).
Proof.
  intros Hc Hc' Hle Hb Hns Hmax. unfold unix_timestamp_nanoseconds. rewrite Hb. cbn.
  rewrite !since_boot_signed by done.
  pose proof (proj1 (nanoseconds_since_boot_ok c Hc)).
  pose proof (proj1 (nanoseconds_since_boot_ok c' Hc')).
  unfold I64_MAX in *. rewrite (sat_i64_id (ns - _)) by (unfold I64_MAX; lia).
  rewrite sat_i64_id by (unfold I64_MAX; lia). lia.
Qed.

Definition ex_clock (n : Z) : Clock := mkClock 1000 2000000000 0 0 0 n.

Lemma set_time_then_read_witness :
  unix_timestamp_nanoseconds (tick 4000000000 (set_unix_timestamp_nanoseconds 500 (ex_clock 3000))) =
    500 + (2000001000 - 1000).
Proof.
  apply (set_time_then_read (ex_clock 3000)); [| |vm_compute; done..]; split_and!; done.
Defined.

(** Time since boot never goes backwards while the counter runs, and the elapsed
    nanoseconds are the elapsed cycles scaled by the frequency, to within one nanosecond. *)
Lemma since_boot_monotone c n :
  clock_ok c → clock_ok (tick n c) → 0 ≤ n →
  time_leb (since_boot c) (since_boot (tick n c)) = true ∧
  (c.(BOOT_TSC) ≠ 0 → c.(TSC_FREQ_HZ) ≠ 0 →
   let elapsed := nanoseconds_since_boot (tick n c) - nanoseconds_since_boot c in
   n * NANOSECONDS_PER_SECOND / c.(TSC_FREQ_HZ) ≤ elapsed ≤
   n * NANOSECONDS_PER_SECOND / c.(TSC_FREQ_HZ) + 1).
Proof.
  intros Hc Hc' Hn. destruct (nanoseconds_since_boot_ok _ Hc) as [_ H1].
  destruct (nanoseconds_since_boot_ok _ Hc') as [Hb2 H2]. cbn in H2.
  destruct (decide (c.(BOOT_TSC) = 0 ∨ c.(TSC_FREQ_HZ) = 0)) as [H0|H0].
  { split; [|tauto]. unfold time_leb, since_boot. cbn. apply Z.leb_le.
    transitivity 0; [|lia]. unfold nanoseconds_since_boot.
    destruct H0 as [-> | ->]; rewrite ?orb_true_r; cbn; lia. }
  apply Decidable.not_or in H0 as [Hb Hf].
  rewrite H1, H2 by done. destruct Hc as (_ & Hf' & Hle & _).
  set (a := (c.(cycles) - c.(BOOT_TSC)) * NANOSECONDS_PER_SECOND).
  assert ((c.(cycles) + n - c.(BOOT_TSC)) * NANOSECONDS_PER_SECOND = a + n * NANOSECONDS_PER_SECOND)
    as Ha by (unfold a; lia).
  assert (0 ≤ n * NANOSECONDS_PER_SECOND) by (unfold NANOSECONDS_PER_SECOND; lia).
  pose proof (div_add_bounds a (n * NANOSECONDS_PER_SECOND) c.(TSC_FREQ_HZ) ltac:(lia)).
  assert (0 ≤ n * NANOSECONDS_PER_SECOND / c.(TSC_FREQ_HZ)) by (apply Z.div_pos; lia).
  split; [|intros _ _; cbn; rewrite Ha; lia].
  apply Z.leb_le. cbn. rewrite H1, H2, Ha by done. fold a. lia.
Qed.

Lemma since_boot_monotone_witness :
  time_leb (since_boot (ex_clock 3000)) (since_boot (tick 7 (ex_clock 3000))) = true.
Proof. apply since_boot_monotone; [| |done]; split_and!; done. Defined.
