(* ===== verification/Blocking.v ===== *)
(** * System calls that block, and user memory

    Two interfaces shared by the components.

    A blocking system call of the kernel is a [loop] whose body tries the operation under
    the component's lock and either returns or goes to sleep in
    [block_current_with_sig_check] (thread/yielding.rs).  The body is a function
    [try : St -> attempt]; the scheduler and the other threads are a list of wake-ups, each
    saying what the others did to the state while the caller slept and how the sleep ended
    (woken, or [Err(Interrupted)]).

    User memory is what memory/user_safe.rs offers: typed reads and writes at an address
    that fail with [BadAddress]. *)

From S2P Require Import Prelude Errors.

(** ** Blocking loops *)

Inductive attempt (St E A : Type) : Type :=
  | Return (r : result E A) (s : St)
  | Sleep (s : St).
Arguments Return {St E A} r s.
Arguments Sleep {St E A} s.

Record wakeup (St : Type) := mkWakeup {
  others : St → St;
  woken : result ObjectError unit;
}.
Arguments mkWakeup {St} others woken.
Arguments others {St} w.
Arguments woken {St} w.

Section blocking_loop.
Context {St E A : Type}.
(** The body of the loop up to the sleep, and what it does when the sleep returns: [Some]
    error to leave with, or [None] to try again. *)
Context (try_once : St → attempt St E A) (on_wake : St → result ObjectError unit → option E * St).

(** [None]: the call is still asleep after the given wake-ups. *)
Fixpoint blocking_loop (ws : list (wakeup St)) (s : St) : option (result E A) * St :=
  match try_once s with
  | Return r s' => (Some r, s')
  | Sleep s' =>
      match ws with
      | [] => (None, s')
      | w :: ws' =>
          match on_wake (w.(others) s') w.(woken) with
          | (Some e, s'') => (Some (Err e), s'')
          | (None, s'') => blocking_loop ws' s''
          end
      end
  end.

(** A property of states that the body, the wake-up code and the other threads keep. *)
Lemma blocking_loop_invariant (I : St → Prop) ws s :
  (∀ s r s', I s → try_once s = Return r s' → I s') →
  (∀ s s', I s → try_once s = Sleep s' → I s') →
  (∀ s r, I s → I (on_wake s r).2) →
  Forall (λ w, ∀ s, I s → I (w.(others) s)) ws →
  I s → I (blocking_loop ws s).2.
Proof.
  intros HR HS HW Hws. revert s. induction Hws as [|w ws Hw Hws IH]; intros s HI; cbn;
    destruct (try_once s) as [r s'|s'] eqn:Ht; cbn; eauto.
  destruct (on_wake (others w s') (woken w)) as [[e|] s''] eqn:Ew.
  - cbn. pose proof (HW (others w s') (woken w)) as Hx. rewrite Ew in Hx. cbn in Hx. eauto.
  - apply IH. pose proof (HW (others w s') (woken w)) as Hx. rewrite Ew in Hx. cbn in Hx. eauto.
Qed.

(** Without wake-ups the loop is one attempt. *)
Lemma blocking_loop_return ws s r s' :
  try_once s = Return r s' → blocking_loop ws s = (Some r, s').
Proof. intros Ht. destruct ws; cbn; by rewrite Ht. Qed.
End blocking_loop.

(** ** User memory *)

(** What [AddrSpace::read] and [AddrSpace::write] promise for values of one [Copy] type:
    both may change the address space (lazy and copy-on-write pages), a read does not
    change what is read, and a successful write is read back. *)
Class UserMemory (M T : Type) := {
  addrspace_read : M → Z → result SyscallError T * M;
  addrspace_write : M → Z → T → result SyscallError unit * M;
}.

Class UserMemoryLaws (M T : Type) `{UserMemory M T} := {
  write_read : ∀ m a v m' ,
    addrspace_write m a v = (Ok tt, m') → (addrspace_read m' a).1 = Ok v;
  read_stable : ∀ m a b, (addrspace_read (addrspace_read m a).2 b).1 = (addrspace_read m b).1;
}.

(** [user_safe::read] and [user_safe::write] *)
Definition user_read {M T} `{UserMemory M T} (m : M) (ptr : Z) : result SyscallError T * M :=
  if ptr =? 0 then (Err SyscallError.BadAddress, m) else addrspace_read m ptr.

Definition user_write {M T} `{UserMemory M T} (m : M) (ptr : Z) (value : T)
  : result SyscallError unit * M :=
  if ptr =? 0 then (Err SyscallError.BadAddress, m) else addrspace_write m ptr value.

(** A concrete memory for examples: the addresses present in the map are mapped. *)
#[export] Instance cell_memory {T} : UserMemory (gmap Z T) T := {
  addrspace_read m a := (ok_or (m !! a) SyscallError.BadAddress, m);
  addrspace_write m a v :=
    match m !! a with
    | Some _ => (Ok tt, <[a := v]> m)
    | None => (Err SyscallError.BadAddress, m)
    end;
}.

#[export] Instance cell_memory_laws {T} : UserMemoryLaws (gmap Z T) T.
Proof.
  split; [|done]. cbn. intros m a v m'. destruct (m !! a); intros [= <-].
  by rewrite lookup_insert_eq.
Qed.

(** A memory in which every address faults. *)
#[export] Instance fault_memory {T} : UserMemory unit T := {
  addrspace_read m a := (Err SyscallError.BadAddress, m);
  addrspace_write m a v := (Err SyscallError.BadAddress, m);
}.

Lemma user_write_read {M T} `{UserMemoryLaws M T} (m m' : M) ptr (v : T) :
  user_write m ptr v = (Ok tt, m') → (user_read m' ptr).1 = Ok v.
Proof.
  unfold user_write, user_read. destruct (ptr =? 0); [done|]. apply write_read.
Qed.

(** ** User buffers *)

(** [AddrSpace::read_buffer] and [AddrSpace::write_buffer]; a successful read returns as
    many bytes as were asked for. *)
Class UserBuffer (M : Type) := {
  addrspace_read_buffer : M → Z → Z → result SyscallError (list byte) * M;
  addrspace_write_buffer : M → Z → list byte → result SyscallError unit * M;
}.

Class UserBufferLaws (M : Type) `{UserBuffer M} := {
  read_buffer_length : ∀ m a len bytes,
    0 ≤ len → (addrspace_read_buffer m a len).1 = Ok bytes → zlen bytes = len;
}.

(** [user_safe::read_buffer] and [user_safe::write_buffer] *)
Definition user_read_buffer {M} `{UserBuffer M} (m : M) (ptr len : Z)
  : result SyscallError (list byte) * M :=
  if len =? 0 then (Ok [], m)
  else if ptr =? 0 then (Err SyscallError.BadAddress, m)
  else addrspace_read_buffer m ptr len.

Definition user_write_buffer {M} `{UserBuffer M} (m : M) (ptr : Z) (bytes : list byte)
  : result SyscallError unit * M :=
  match bytes with
  | [] => (Ok tt, m)
  | _ => if ptr =? 0 then (Err SyscallError.BadAddress, m)
         else addrspace_write_buffer m ptr bytes
  end.

Lemma user_read_buffer_length {M} `{UserBufferLaws M} (m : M) ptr len bytes :
  0 ≤ len → (user_read_buffer m ptr len).1 = Ok bytes → zlen bytes = len.
Proof.
  unfold user_read_buffer. intros Hl. destruct (len =? 0) eqn:?.
  - intros [= <-]. cbn. unfold zlen. cbn. lia.
  - destruct (ptr =? 0); [done|]. by apply read_buffer_length.
Qed.

(** Reading a C array one element at a time, as the loops over [ptr.add(index)] do; the
    first failing read ends it. *)
Fixpoint user_read_array {M T} `{UserMemory M T} (m : M) (ptr size : Z) (n : nat)
  : result SyscallError (list T) * M :=
  match n with
  | O => (Ok [], m)
  | S n =>
      let '(x, m) := user_read m ptr in
      match x with
      | Err e => (Err e, m)
      | Ok x =>
          let '(xs, m) := user_read_array m (uwrap 64 (ptr + size)) size n in
          (cons x <$> xs, m)
      end
  end.

Fixpoint user_write_array {M T} `{UserMemory M T} (m : M) (ptr size : Z) (xs : list T)
  : result SyscallError unit * M :=
  match xs with
  | [] => (Ok tt, m)
  | x :: xs =>
      let '(r, m) := user_write m ptr x in
      match r with
      | Err e => (Err e, m)
      | Ok _ => user_write_array m (uwrap 64 (ptr + size)) size xs
      end
  end.

Lemma user_read_array_length {M T} `{UserMemory M T} (m m' : M) ptr size n xs :
  user_read_array m ptr size n = (Ok xs, m') → length xs = n.
Proof.
  revert m ptr xs. induction n as [|n IH]; intros m ptr xs; cbn; [by intros [= <- _]|].
  destruct (user_read m ptr) as [[x|e] m1]; [|done].
  destruct (user_read_array m1 _ size n) as [[ys|e] m2] eqn:Hr; [|done]. cbn.
  intros [= <- <-]. cbn. f_equal. by eapply IH.
Qed.

(** A concrete byte memory for examples: the addresses present in the map are mapped, and
    an integer is eight little-endian bytes. *)
Definition bytes_at (m : gmap Z byte) (a : Z) (n : nat) : option (list byte) :=
  mapM (λ i, m !! (a + Z.of_nat i)) (seq 0 n).

Fixpoint put_bytes (m : gmap Z byte) (a : Z) (bs : list byte) : gmap Z byte :=
  match bs with
  | [] => m
  | b :: bs => put_bytes (<[a := b]> m) (a + 1) bs
  end.

#[export] Instance byte_memory_buffer : UserBuffer (gmap Z byte) := {
  addrspace_read_buffer m a len := (ok_or (bytes_at m a (Z.to_nat len)) SyscallError.BadAddress, m);
  addrspace_write_buffer m a bs :=
    match bytes_at m a (length bs) with
    | Some _ => (Ok tt, put_bytes m a bs)
    | None => (Err SyscallError.BadAddress, m)
    end;
}.

#[export] Instance byte_memory_int : UserMemory (gmap Z byte) Z := {
  addrspace_read m a := (ok_or (le_decode <$> bytes_at m a 8) SyscallError.BadAddress, m);
  addrspace_write m a v :=
    match bytes_at m a 8 with
    | Some _ => (Ok tt, put_bytes m a (le_encode 8 v))
    | None => (Err SyscallError.BadAddress, m)
    end;
}.

#[export] Instance byte_memory_laws : UserBufferLaws (gmap Z byte).
Proof.
  split. cbn. intros m a len bs Hlen. unfold bytes_at.
  destruct (mapM _ _) as [l|] eqn:Hl; intros [= <-]. apply length_mapM in Hl.
  rewrite length_seq in Hl. unfold zlen. lia.
Qed.
