(* ===== verification/AddrAreas.v ===== *)
(** * Memory areas of an address space

    memory/addrspace/{mem_area,misc,mapping,allocate,mod}.rs: the list of areas of a process
    and the operations that split, drop, insert and look areas up.  A [VirtAddr] is a [Z];
    user addresses lie below 2^47, so the sums of the code do not overflow.  A file is known
    by an identifier, a frame by its address, a [SharedFrames] object by the address of its
    [Arc] and its frames.

    Page tables, page faults, write-back of file mappings and TLB flushes are not modelled:
    the definitions are what the code does to [memory_areas], [user_mem] and
    [last_area_index]. *)

From Stdlib Require Import Sorted.
From S2P Require Import Prelude Errors.

(** ** Data *)

Definition USER_MEM_START : Z := 3221225472.
Definition USER_MEM_END : Z := 140737488355328.
Definition LAZY_MAP : bool := true.

(** [PageTableFlags] and [Protection] bits *)
Definition PRESENT : Z := 1.
Definition WRITABLE : Z := 2.
Definition USER_ACCESSIBLE : Z := 4.
Definition NO_EXECUTE : Z := 9223372036854775808.
Definition PROT_READ : Z := 1.
Definition PROT_WRITE : Z := 2.
Definition PROT_EXEC : Z := 4.

(** [FileFlags::WRONLY | FileFlags::RDWR] *)
Definition WRONLY : Z := 4.
Definition RDWR : Z := 8.

Record MmapPermissions := mkPermissions {
  shared_write_allowed : option bool;
  shared_mapping : bool;
}.

Definition default_permissions : MmapPermissions := mkPermissions None false.

Module Data.
Inductive Data : Type :=
  | Normal (permissions : MmapPermissions)
  | File (offset file_bytes : Z) (zero_fill_after_file : bool) (file : Z) (shared : bool)
  | Shared (arc : Z) (frames : list Z) (flags : Z).
End Data.
Abbreviation Data := Data.Data.

Record MemoryArea := mkArea {
  start : Z;
  end_ : Z;
  flags : Z;
  protection : Z;
  data : Data;
  lazy : bool;
  locked : bool;
  grows_down : bool;
}.

Record AddrSpace := mkAddrSpace {
  memory_areas : list MemoryArea;
  user_mem : Z;
  last_area_index : option nat;
}.

Definition addrspace_default : AddrSpace := mkAddrSpace [] USER_MEM_START None.

(** ** Areas *)

Definition area_new (start pages flags protection : Z) (data : Data) (lazy : bool) : MemoryArea :=
  mkArea start (start + uwrap 64 (pages * 4096)) flags protection data lazy false false.

Definition with_locked (a : MemoryArea) (locked : bool) : MemoryArea :=
  mkArea a.(start) a.(end_) a.(flags) a.(protection) a.(data) a.(lazy) locked a.(grows_down).

Definition with_grows_down (a : MemoryArea) (grows_down : bool) : MemoryArea :=
  mkArea a.(start) a.(end_) a.(flags) a.(protection) a.(data) a.(lazy) a.(locked) grows_down.

Definition area_new_with_guard (start pages flags protection : Z) (data : Data) (lazy : bool)
  : MemoryArea := area_new (start + 4096) pages flags protection data lazy.

Definition area_pages (a : MemoryArea) : Z := (a.(end_) - a.(start)) / 4096.

Definition contains (a : MemoryArea) (addr : Z) : bool := (a.(start) <=? addr) && (addr <? a.(end_)).

Definition is_user (a : MemoryArea) : bool :=
  (a.(start) <? USER_MEM_END) && (a.(end_) <=? USER_MEM_END).

Definition protection_to_page_flags (protection : Z) : Z :=
  let flags := Z.lor PRESENT USER_ACCESSIBLE in
  let flags := if negb (Z.land protection PROT_WRITE =? 0) then Z.lor flags WRITABLE else flags in
  if Z.land protection PROT_EXEC =? 0 then Z.lor flags NO_EXECUTE else flags.

(** ** Splitting *)

Definition with_bounds (a : MemoryArea) (s e : Z) (d : Data) : MemoryArea :=
  mkArea s e a.(flags) a.(protection) d a.(lazy) a.(locked) a.(grows_down).

(** The backing of a left piece of [span] bytes. *)
Definition cut_left (d : Data) (span : Z) : Data :=
  match d with
  | Data.File offset file_bytes zero file shared =>
      Data.File offset (Z.min file_bytes span) zero file shared
  | _ => d
  end.

(** The backing of a piece of [span] bytes that begins [shift] bytes into the area. *)
Definition cut_from (d : Data) (shift span : Z) : Data :=
  match d with
  | Data.File offset file_bytes zero file shared =>
      Data.File (uwrap 64 (offset + shift)) (Z.min (sat_sub file_bytes shift) span) zero file shared
  | _ => d
  end.

Definition split_memory_area (area : MemoryArea) (start' end' : Z)
  : option MemoryArea * option MemoryArea :=
  let overlap_start := Z.max area.(start) start' in
  let overlap_end := Z.min area.(end_) end' in
  if overlap_end <=? overlap_start then (Some area, None)
  else
    let left :=
      if area.(start) <? overlap_start
      then Some (with_bounds area area.(start) overlap_start
                   (cut_left area.(data) (overlap_start - area.(start))))
      else None in
    let right :=
      if overlap_end <? area.(end_)
      then Some (with_bounds area overlap_end area.(end_)
                   (cut_from area.(data) (overlap_end - area.(start)) (area.(end_) - overlap_end)))
      else None in
    (left, right).

Definition opt_list {A} (o : option A) : list A := match o with Some x => [x] | None => [] end.

(** One round of the loop of [unmap_areas], which has its own copy of the splitting code. *)
Definition unmap_area (start' end' : Z) (area : MemoryArea) : list MemoryArea :=
  let overlap_start := Z.max area.(start) start' in
  let overlap_end := Z.min area.(end_) end' in
  if overlap_end <=? overlap_start then [area]
  else
    (if area.(start) <? overlap_start
     then [with_bounds area area.(start) overlap_start
             (cut_left area.(data) (overlap_start - area.(start)))] else []) ++
    (if overlap_end <? area.(end_)
     then [with_bounds area overlap_end area.(end_)
             (cut_from area.(data) (overlap_end - area.(start)) (area.(end_) - overlap_end))] else []).

(** The common round of [set_locked] and [update_permissions]: the overlap is cut out and
    given back changed. *)
Definition retag_area (retag : MemoryArea → MemoryArea) (start' end' : Z) (area : MemoryArea)
  : list MemoryArea :=
  let overlap_start := Z.max area.(start) start' in
  let overlap_end := Z.min area.(end_) end' in
  if overlap_end <=? overlap_start then [area]
  else
    let '(left_part, right_part) := split_memory_area area start' end' in
    let middle := with_bounds area overlap_start overlap_end
      (cut_from area.(data) (overlap_start - area.(start)) (overlap_end - overlap_start)) in
    opt_list left_part ++ [retag middle] ++ opt_list right_part.

(** ** Operations on the address space *)

Definition with_areas (st : AddrSpace) (areas : list MemoryArea) : AddrSpace :=
  mkAddrSpace areas st.(user_mem) None.

Definition unmap_areas (st : AddrSpace) (start' end' : Z) : AddrSpace :=
  with_areas st (concat (map (unmap_area start' end') st.(memory_areas))).

Definition set_locked (st : AddrSpace) (start' end' : Z) (locked : bool) : AddrSpace :=
  if end' <=? start' then st
  else with_areas st (concat (map
         (retag_area (λ a, with_locked a locked) start' end') st.(memory_areas))).

Definition with_protection (a : MemoryArea) (flags protection : Z) : MemoryArea :=
  mkArea a.(start) a.(end_) flags protection a.(data) a.(lazy) a.(locked) a.(grows_down).

(** [update_permissions], less the flags of the pages already mapped. *)
Definition update_permissions (st : AddrSpace) (start' end' protection : Z) : AddrSpace :=
  if end' <=? start' then st
  else
    let new_flags := protection_to_page_flags protection in
    with_areas st (concat (map
      (retag_area (λ a, with_protection a new_flags protection) start' end') st.(memory_areas))).

(** [binary_search_by_key(..).unwrap_or_else(|index| index)] on a list sorted by start. *)
Fixpoint search_start (areas : list MemoryArea) (key : Z) : nat :=
  match areas with
  | [] => O
  | a :: areas => if a.(start) <? key then S (search_start areas key) else O
  end.

Definition vec_insert_area (i : nat) (a : MemoryArea) (l : list MemoryArea) : list MemoryArea :=
  take i l ++ a :: drop i l.

(** [register_area] up to the eager mapping; the flag says whether the pages are to be
    mapped now. *)
Definition register_area (st : AddrSpace) (area : MemoryArea) : bool * AddrSpace :=
  let area := if LAZY_MAP then area else
    mkArea area.(start) area.(end_) area.(flags) area.(protection) area.(data) false
      area.(locked) area.(grows_down) in
  let st := unmap_areas st area.(start) area.(end_) in
  let insert_index := search_start st.(memory_areas) area.(start) in
  let st := with_areas st (vec_insert_area insert_index area st.(memory_areas)) in
  (negb area.(lazy), st).

Definition fetch_add_user_mem (st : AddrSpace) (pages : Z) : Z * AddrSpace :=
  (st.(user_mem),
   mkAddrSpace st.(memory_areas) (st.(user_mem) + uwrap 64 ((pages + 1) * 4096)) st.(last_area_index)).

Definition allocate_user_lazy (st : AddrSpace) (pages protection : Z) (data : Data)
  : Z * AddrSpace :=
  let '(mem, st) := fetch_add_user_mem st pages in
  let area := area_new mem pages (protection_to_page_flags protection) protection data true in
  (mem, (register_area st area).2).

(** [allocate_user]: the first page below the area is left as a guard. *)
Definition allocate_user (st : AddrSpace) (pages : Z) : Z * AddrSpace :=
  let '(mem, st) := fetch_add_user_mem st pages in
  let area := area_new_with_guard mem pages
    (Z.lor PRESENT (Z.lor WRITABLE USER_ACCESSIBLE)) (Z.lor PROT_READ PROT_WRITE)
    (Data.Normal default_permissions) false in
  (area.(start), (register_area st area).2).

(** ** Areas that grow (interrupts/pagefault.rs, memory_sync.rs) *)

Definition STACK_GUARD_GAP_PAGES : Z := 256.

(** A stack area just above the page grows down to it, unless another area is in the gap. *)
Definition grown_stack (areas : list MemoryArea) (fault_page : Z) : option nat :=
  '(index, _) ← list_find (λ area, area.(grows_down) = true ∧ fault_page < area.(start) ∧ fault_page + 4096 = area.(start)) areas;
  let guard_start := sat_sub fault_page (STACK_GUARD_GAP_PAGES * 4096) in
  if existsb (λ x : nat * MemoryArea,
       negb (x.1 =? index)%nat && (x.2.(start) <? fault_page) && (guard_start <? x.2.(end_))) (imap pair areas)
  then None else Some index.

Definition with_start (area : MemoryArea) (s : Z) : MemoryArea := with_bounds area s area.(end_) area.(data).

Definition grow_down (st : AddrSpace) (fault_page : Z) (index : nat) : AddrSpace :=
  mkAddrSpace (alter (λ area, with_start area fault_page) index st.(memory_areas)) st.(user_mem) (Some index).

(** mremap grows a mapping where it is; [data] is that of the longer mapping. *)
Definition grow_in_place (st : AddrSpace) (index : nat) (area : MemoryArea) (new_end : Z) (data : Data) : AddrSpace :=
  mkAddrSpace (<[index := with_bounds area area.(start) new_end data]> st.(memory_areas)) st.(user_mem) None.

(** ** Queries *)

Definition is_user_addr (addr : Z) : bool := addr <? USER_MEM_END.

Definition checked_user_range (start' len : Z) : option (Z * Z) :=
  if len =? 0 then None
  else
    e ← checked_add 64 start' len;
    if USER_MEM_END <? e then None else Some (start', e).

Definition overlaps (a : MemoryArea) (start' end' : Z) : bool :=
  (a.(start) <? end') && (start' <? a.(end_)).

Definition range_has_locked_area (st : AddrSpace) (start' end' : Z) : bool :=
  existsb (λ a, a.(locked) && overlaps a start' end') st.(memory_areas).

Definition locked_user_bytes (st : AddrSpace) : Z :=
  foldr Z.add 0 (map (λ a, a.(end_) - a.(start))
    (List.filter (λ a, a.(locked) && is_user a) st.(memory_areas))).

(** The binary search of [get_area] between [left] and [right]; [None] as outer result: out
    of fuel. *)
Fixpoint search_area (fuel : nat) (areas : list MemoryArea) (addr : Z) (left right : nat)
  : option (option nat) :=
  match fuel with
  | O => None
  | S fuel =>
      if (left <? right)%nat then
        let mid := (left + (right - left) / 2)%nat in
        match areas !! mid with
        | None => Some None
        | Some area =>
            if addr <? area.(start) then search_area fuel areas addr left mid
            else if area.(end_) <=? addr then search_area fuel areas addr (S mid) right
            else Some (Some mid)
        end
      else Some None
  end.

Definition search_fuel (areas : list MemoryArea) : nat := S (length areas).

Definition set_last (st : AddrSpace) (i : option nat) : AddrSpace :=
  mkAddrSpace st.(memory_areas) st.(user_mem) i.

(** [get_area], and the index that [get_area_mut] borrows. *)
Definition get_area (st : AddrSpace) (addr : Z) : option MemoryArea * AddrSpace :=
  match (index ← st.(last_area_index); area ← st.(memory_areas) !! index;
         if contains area addr then Some area else None) with
  | Some area => (Some area, st)
  | None =>
      match search_area (search_fuel st.(memory_areas)) st.(memory_areas) addr 0
              (length st.(memory_areas)) with
      | Some (Some mid) => (st.(memory_areas) !! mid, set_last st (Some mid))
      | _ => (None, set_last st None)
      end
  end.

Section validate.
(** What [validate_permission_update] asks of a file: [get_flags] with its error converted,
    and the write seal of a memfd path. *)
Context (file_flags : Z → result SyscallError Z) (memfd_allows_shared_write : Z → option bool).

Definition check_area (area : MemoryArea) (protection : Z) : result SyscallError unit :=
  if negb (Z.land protection PROT_WRITE =? 0) then
    match area.(data) with
    | Data.File _ _ _ file true =>
        flags ← file_flags file;
        if Z.land flags (Z.lor WRONLY RDWR) =? 0 then Err SyscallError.AccessDenied
        else if bool_decide (memfd_allows_shared_write file = Some false)
        then Err SyscallError.AccessDenied else Ok tt
    | Data.Normal permissions =>
        if bool_decide (permissions.(shared_write_allowed) = Some false)
        then Err SyscallError.AccessDenied else Ok tt
    | _ => Ok tt
    end
  else Ok tt.

Fixpoint validate_loop (areas : list MemoryArea) (cursor end' protection : Z)
  : result SyscallError unit :=
  match areas with
  | [] => Err SyscallError.NoMemory
  | area :: areas =>
      if area.(end_) <=? cursor then validate_loop areas cursor end' protection
      else if cursor <? area.(start) then Err SyscallError.NoMemory
      else
        let overlap_end := Z.min area.(end_) end' in
        _ ← check_area area protection;
        if end' <=? overlap_end then Ok tt else validate_loop areas overlap_end end' protection
  end.

Definition validate_permission_update (st : AddrSpace) (start' end' protection : Z)
  : result SyscallError unit :=
  if end' <=? start' then Ok tt else validate_loop st.(memory_areas) start' end' protection.
End validate.

(** ** Specification: what an address shows *)

(** The backing of one address: anonymous memory, a position of a file and whether it holds
    file data there, or a frame. *)
Inductive backing : Type :=
  | BNormal (permissions : MmapPermissions)
  | BFile (file position : Z) (in_file zero_fill shared : bool)
  | BShared (frame : option Z) (flags : Z).

Record page_view := mkView {
  v_flags : Z; v_protection : Z; v_lazy : bool; v_locked : bool; v_grows_down : bool;
  v_backing : backing;
}.

Definition backing_at (d : Data) (off : Z) : backing :=
  match d with
  | Data.Normal permissions => BNormal permissions
  | Data.File offset file_bytes zero file shared =>
      BFile file (uwrap 64 (offset + off)) (off <? file_bytes) zero shared
  | Data.Shared _ frames flags => BShared (frames !! Z.to_nat (off / 4096)) flags
  end.

Definition area_view (a : MemoryArea) (addr : Z) : page_view :=
  mkView a.(flags) a.(protection) a.(lazy) a.(locked) a.(grows_down)
    (backing_at a.(data) (addr - a.(start))).

Fixpoint areas_view (areas : list MemoryArea) (addr : Z) : option page_view :=
  match areas with
  | [] => None
  | a :: areas => if contains a addr then Some (area_view a addr) else areas_view areas addr
  end.

Definition view (st : AddrSpace) (addr : Z) : option page_view := areas_view st.(memory_areas) addr.

Definition in_span (s e addr : Z) : bool := (s <=? addr) && (addr <? e).

(** The area list is sorted, disjoint and has no empty area. *)
Definition area_before (a b : MemoryArea) : Prop := a.(end_) ≤ b.(start).

Definition areas_ok (areas : list MemoryArea) : Prop :=
  StronglySorted area_before areas ∧ Forall (λ a, a.(start) < a.(end_)) areas.

(** A cached index is always within the list. *)
Definition addrspace_ok (st : AddrSpace) : Prop :=
  areas_ok st.(memory_areas) ∧
  match st.(last_area_index) with Some i => (i < length st.(memory_areas))%nat | None => True end.

(** A shared-frames area is not cut on its left: its frames are numbered from its start. *)
Definition no_shared_cut (areas : list MemoryArea) (s e : Z) : Prop :=
  ∀ a arc frames fl, a ∈ areas → a.(data) = Data.Shared arc frames fl → overlaps a s e = true →
    a.(end_) ≤ e.

Definition no_shared_inside (areas : list MemoryArea) (s e : Z) : Prop :=
  ∀ a arc frames fl, a ∈ areas → a.(data) = Data.Shared arc frames fl → overlaps a s e = true →
    s ≤ a.(start) ∧ a.(end_) ≤ e.

(** ** Lemmas: views of pieces *)

Lemma areas_view_app l k addr :
  areas_view (l ++ k) addr =
  match areas_view l addr with Some v => Some v | None => areas_view k addr end.
Proof. induction l as [|a l IH]; cbn; [done|]. by destruct (contains a addr). Qed.

Lemma uwrap_add w a b : uwrap w (uwrap w a + b) = uwrap w (a + b).
Proof. unfold uwrap. by rewrite Zplus_mod_idemp_l. Qed.

Lemma backing_cut_left d span off :
  0 ≤ off < span → backing_at (cut_left d span) off = backing_at d off.
Proof.
  intros Hoff. destruct d as [p|offset fb z f sh|arc fr fl]; cbn; try done. f_equal.
  destruct (off <? fb) eqn:?; lia.
Qed.

Lemma backing_cut_from d shift span off :
  0 ≤ off < span → 0 ≤ shift → (∀ arc fr fl, d = Data.Shared arc fr fl → shift = 0) →
  backing_at (cut_from d shift span) off = backing_at d (shift + off).
Proof.
  intros Hoff Hshift Hsh. destruct d as [p|offset fb z f sh|arc fr fl]; cbn.
  - done.
  - f_equal.
    + rewrite uwrap_add. f_equal. lia.
    + unfold sat_sub. destruct (shift + off <? fb) eqn:?; lia.
  - by rewrite (Hsh arc fr fl eq_refl).
Qed.

(** A piece of an area shows what the area shows. *)
Definition faithful_piece (a p : MemoryArea) : Prop :=
  ∀ addr, contains p addr = true → contains a addr = true ∧ area_view p addr = area_view a addr.

Lemma left_piece_faithful a e :
  a.(start) < e ≤ a.(end_) →
  faithful_piece a (with_bounds a a.(start) e (cut_left a.(data) (e - a.(start)))).
Proof.
  intros He addr Hc. unfold contains in *. cbn in *. boolify.
  split; [lia|]. unfold area_view. cbn. f_equal. apply backing_cut_left. lia.
Qed.

Lemma cut_piece_faithful a s e :
  a.(start) ≤ s → e ≤ a.(end_) →
  (∀ arc fr fl, a.(data) = Data.Shared arc fr fl → s = a.(start)) →
  faithful_piece a (with_bounds a s e (cut_from a.(data) (s - a.(start)) (e - s))).
Proof.
  intros Hs He Hsh addr Hc. unfold contains in *. cbn in *. boolify.
  split; [lia|]. unfold area_view. cbn. f_equal. rewrite backing_cut_from; [|lia|lia|].
  - f_equal. lia.
  - intros arc fr fl Hd. rewrite (Hsh arc fr fl Hd). lia.
Qed.

Lemma view_if_piece (c : bool) a p addr :
  (c = true → faithful_piece a p) →
  areas_view (if c then [p] else []) addr =
  if c && in_span p.(start) p.(end_) addr then areas_view [a] addr else None.
Proof.
  intros Hf. destruct c; [|done]. cbn. unfold in_span. fold (contains p addr).
  destruct (contains p addr) eqn:Hc; [|done].
  destruct (Hf eq_refl addr Hc) as [-> ->]. done.
Qed.

Lemma view_outside a addr : in_span a.(start) a.(end_) addr = false → areas_view [a] addr = None.
Proof. unfold in_span. cbn. fold (contains a addr). by intros ->. Qed.

Lemma unmap_area_view s e a addr :
  (∀ arc fr fl, a.(data) = Data.Shared arc fr fl → overlaps a s e = true → a.(end_) ≤ e) →
  areas_view (unmap_area s e a) addr = if in_span s e addr then None else areas_view [a] addr.
Proof.
  intros Hsh. unfold unmap_area. destruct (_ <=? _) eqn:Hov.
  { destruct (in_span s e addr) eqn:Hin; [|done]. apply view_outside. unfold in_span in *. lia. }
  assert (overlaps a s e = true) as Ho by (unfold overlaps; lia).
  rewrite areas_view_app, (view_if_piece _ a), (view_if_piece _ a); cycle 1.
  { intros Hlt. apply cut_piece_faithful; [lia|lia|].
    intros arc fr fl Hd. specialize (Hsh arc fr fl Hd Ho). lia. }
  { intros Hlt. apply left_piece_faithful. lia. }
  cbn [start end_ with_bounds].
  destruct (in_span a.(start) a.(end_) addr) eqn:Ha.
  - destruct (in_span s e addr) eqn:Hin; unfold in_span in *.
    + replace (_ && _) with false by lia. by replace (_ && _) with false by lia.
    + destruct (addr <? s) eqn:Hs.
      * replace (_ && _) with true by lia. cbn [areas_view].
        by replace (contains a addr) with true by by symmetry.
      * replace (_ && _) with false by lia. by replace (_ && _) with true by lia.
  - rewrite (view_outside a addr Ha). repeat case_match; congruence.
Qed.

Lemma retag_area_view retag f s e a addr :
  (∀ x, (retag x).(start) = x.(start) ∧ (retag x).(end_) = x.(end_) ∧
     ∀ addr, area_view (retag x) addr = f (area_view x addr)) →
  (∀ arc fr fl, a.(data) = Data.Shared arc fr fl → overlaps a s e = true → s ≤ a.(start) ∧ a.(end_) ≤ e) →
  areas_view (retag_area retag s e a) addr =
  if in_span s e addr then f <$> areas_view [a] addr else areas_view [a] addr.
Proof.
  intros Hret Hsh. unfold retag_area, split_memory_area. destruct (_ <=? _) eqn:Hov.
  { destruct (in_span s e addr) eqn:Hin; [|done].
    rewrite (view_outside a addr) by (unfold in_span in *; lia). done. }
  assert (overlaps a s e = true) as Ho by (unfold overlaps; lia).
  set (l := with_bounds a a.(start) _ _). set (r := with_bounds a _ a.(end_) _).
  set (m := with_bounds a _ _ _).
  assert (faithful_piece a m) as Hm.
  { apply cut_piece_faithful; [lia|lia|]. intros arc fr fl Hd. specialize (Hsh arc fr fl Hd Ho). lia. }
  assert (∀ (c : bool) (p : MemoryArea), opt_list (if c then Some p else None) = if c then [p] else []) as Hopt
    by (by intros []).
  rewrite !Hopt, !areas_view_app, (view_if_piece _ a), (view_if_piece _ a); cycle 1.
  { intros Hlt. apply cut_piece_faithful; [lia|lia|].
    intros arc fr fl Hd. specialize (Hsh arc fr fl Hd Ho). lia. }
  { intros Hlt. apply left_piece_faithful. lia. }
  assert (areas_view [retag m] addr =
    if in_span (Z.max a.(start) s) (Z.min a.(end_) e) addr then f <$> areas_view [a] addr else None) as ->.
  { destruct (Hret m) as (Hs & He & Hv). cbn. unfold contains at 1. rewrite Hs, He.
    unfold in_span. cbn [start end_ with_bounds m]. fold (contains m addr).
    destruct (contains m addr) eqn:Hc.
    - destruct (Hm addr Hc) as [Ca Hva]. rewrite Ca, Hv, Hva. unfold contains in Hc. cbn in Hc.
      by rewrite Hc.
    - unfold contains in Hc. cbn in Hc. by rewrite Hc. }
  cbn [start end_ with_bounds l r].
  destruct (in_span a.(start) a.(end_) addr) eqn:Ha.
  - assert (areas_view [a] addr = Some (area_view a addr)) as ->.
    { cbn. unfold contains. unfold in_span in Ha. by rewrite Ha. }
    destruct (in_span s e addr) eqn:Hin; unfold in_span in *.
    + replace ((a.(start) <? _) && _) with false by lia.
      by replace ((Z.max a.(start) s <=? addr) && _) with true by lia.
    + replace ((Z.max a.(start) s <=? addr) && _) with false by lia.
      destruct (addr <? s) eqn:Hs'.
      * by replace ((a.(start) <? _) && _) with true by lia.
      * replace ((a.(start) <? _) && _) with false by lia.
        by replace ((Z.min a.(end_) e <? a.(end_)) && _) with true by lia.
  - rewrite (view_outside a addr Ha). cbn. repeat case_match; congruence.
Qed.

Lemma concat_view (g : MemoryArea → list MemoryArea) (h : option page_view → option page_view) areas addr :
  h None = None → (∀ v, h (Some v) = None → ∀ w, h w = None) →
  (∀ a, a ∈ areas → areas_view (g a) addr = h (areas_view [a] addr)) →
  areas_view (concat (map g areas)) addr = h (areas_view areas addr).
Proof.
  intros Hn Hsome Hg. induction areas as [|a areas IH]; cbn [map concat areas_view]; [done|].
  rewrite areas_view_app, (Hg a) by constructor.
  rewrite IH by (intros; apply Hg; by constructor). cbn [areas_view].
  destruct (contains a addr); [|by rewrite Hn].
  destruct (h (Some (area_view a addr))) eqn:Hh; [done|]. by eapply Hsome.
Qed.

(** ** Lemmas: order *)

Lemma retag_pieces retag s e a p :
  (∀ x, (retag x).(start) = x.(start) ∧ (retag x).(end_) = x.(end_)) →
  p ∈ retag_area retag s e a → a.(start) < a.(end_) →
  a.(start) ≤ p.(start) ∧ p.(end_) ≤ a.(end_) ∧ p.(start) < p.(end_).
Proof.
  intros Hret. unfold retag_area, split_memory_area. destruct (_ <=? _) eqn:Hov.
  { intros ->%list_elem_of_singleton. lia. }
  rewrite !elem_of_app, list_elem_of_singleton. intros [Hp|[->|Hp]] Hne.
  - destruct (_ <? _) eqn:Hlt in Hp; [|by apply elem_of_nil in Hp].
    apply list_elem_of_singleton in Hp as ->. cbn. lia.
  - destruct (Hret (with_bounds a (Z.max a.(start) s) (Z.min a.(end_) e)
      (cut_from a.(data) (Z.max a.(start) s - a.(start)) (Z.min a.(end_) e - Z.max a.(start) s)))) as [-> ->].
    cbn. lia.
  - destruct (_ <? _) eqn:Hlt in Hp; [|by apply elem_of_nil in Hp].
    apply list_elem_of_singleton in Hp as ->. cbn. lia.
Qed.

Lemma unmap_pieces s e a p :
  p ∈ unmap_area s e a → a.(start) < a.(end_) →
  a.(start) ≤ p.(start) ∧ p.(end_) ≤ a.(end_) ∧ p.(start) < p.(end_) ∧
  (s < e → p.(end_) ≤ s ∨ e ≤ p.(start)).
Proof.
  unfold unmap_area. destruct (_ <=? _) eqn:Hov.
  { intros ->%list_elem_of_singleton. lia. }
  rewrite elem_of_app, !elem_of_if. intros [[Hlt ->]|[Hlt ->]] Hne; cbn; lia.
Qed.

Definition pieces_within (g : MemoryArea → list MemoryArea) : Prop :=
  ∀ a, a.(start) < a.(end_) →
    areas_ok (g a) ∧ ∀ p, p ∈ g a → a.(start) ≤ p.(start) ∧ p.(end_) ≤ a.(end_).

Lemma elem_of_concat_map {A B} (g : A → list B) l x :
  x ∈ concat (map g l) ↔ ∃ a, a ∈ l ∧ x ∈ g a.
Proof.
  rewrite list_elem_of_In, in_concat. split.
  - intros (k & (a & <- & Ha)%in_map_iff & Hx). exists a. by rewrite !list_elem_of_In.
  - intros (a & Ha & Hx). exists (g a). split; [|by apply list_elem_of_In].
    apply in_map_iff. exists a. by rewrite <- list_elem_of_In.
Qed.

Lemma concat_ok g areas : pieces_within g → areas_ok areas → areas_ok (concat (map g areas)).
Proof.
  intros Hg [Hs Hne]. induction Hs as [|a areas Hs IH Ha]; cbn; [split; constructor|].
  apply Forall_cons in Hne as [Hne_a Hne]. destruct (IH Hne) as [IHs IHne].
  destruct (Hg a Hne_a) as [[Hgs Hgne] Hgin]. split; [|by apply Forall_app].
  apply StronglySorted_app_2; [|done|done]. intros p q Hp (b & Hb & Hq)%elem_of_concat_map.
  rewrite Forall_forall in Ha, Hne. specialize (Ha b Hb). destruct (Hg b (Hne b Hb)) as [_ Hbin].
  specialize (Hgin p Hp). specialize (Hbin q Hq). unfold area_before in *. lia.
Qed.

Lemma areas_ok_single a : a.(start) < a.(end_) → areas_ok [a].
Proof. intros. split; repeat constructor. done. Qed.

Lemma areas_ok_app l k :
  areas_ok l → areas_ok k → (∀ a b, a ∈ l → b ∈ k → area_before a b) → areas_ok (l ++ k).
Proof.
  intros [Hl Hln] [Hk Hkn] Hlk. split; [by apply StronglySorted_app_2|by apply Forall_app].
Qed.

Lemma areas_ok_if (c : bool) a : (c = true → a.(start) < a.(end_)) → areas_ok (if c then [a] else []).
Proof. intros Hc. destruct c; [by apply areas_ok_single, Hc|split; constructor]. Qed.

Lemma unmap_within s e : pieces_within (unmap_area s e).
Proof.
  intros a Hne. split.
  - unfold unmap_area. destruct (_ <=? _) eqn:Hov; [by apply areas_ok_single|].
    apply areas_ok_app; [apply areas_ok_if; cbn; lia..|].
    intros p q. rewrite !elem_of_if. intros [_ ->] [_ ->]. unfold area_before. cbn. lia.
  - intros p Hp. pose proof (unmap_pieces s e a p Hp Hne). lia.
Qed.

Lemma retag_within retag s e :
  (∀ x, (retag x).(start) = x.(start) ∧ (retag x).(end_) = x.(end_)) →
  pieces_within (retag_area retag s e).
Proof.
  intros Hret a Hne. split; [|intros p Hp; pose proof (retag_pieces retag s e a p Hret Hp Hne); lia].
  unfold retag_area, split_memory_area. destruct (_ <=? _) eqn:Hov; [by apply areas_ok_single|].
  set (m := with_bounds a (Z.max a.(start) s) (Z.min a.(end_) e) _).
  destruct (Hret m) as [Hs He].
  assert (∀ (c : bool) (p : MemoryArea), opt_list (if c then Some p else None) = if c then [p] else [])
    as Hopt by (by intros []).
  rewrite !Hopt. apply areas_ok_app; [apply areas_ok_if; cbn; lia|apply areas_ok_app|].
  - apply areas_ok_single. rewrite Hs, He. cbn. lia.
  - apply areas_ok_if. cbn. lia.
  - intros p q ->%list_elem_of_singleton [_ ->]%elem_of_if. unfold area_before. rewrite He. cbn. lia.
  - intros p q [_ ->]%elem_of_if [->%list_elem_of_singleton|[_ ->]%elem_of_if]%elem_of_app;
      unfold area_before; rewrite ?Hs; cbn; lia.
Qed.

Lemma search_start_spec areas key :
  StronglySorted area_before areas → Forall (λ a, a.(start) < a.(end_)) areas →
  Forall (λ a, a.(start) < key) (take (search_start areas key) areas) ∧
  Forall (λ a, key ≤ a.(start)) (drop (search_start areas key) areas).
Proof.
  induction 1 as [|a areas Hs IH Ha]; intros Hne; cbn; [by split|].
  apply Forall_cons in Hne as [Hne_a Hne]. destruct (a.(start) <? key) eqn:Hk; cbn.
  - destruct (IH Hne). split; [constructor; [lia|done]|done].
  - split; [constructor|]. constructor; [lia|]. eapply List.Forall_impl; [|exact Ha].
    unfold area_before. intros b Hb. cbn in *. lia.
Qed.

(** Inserting an area that no other one overlaps. *)
Lemma insert_ok areas a :
  areas_ok areas → a.(start) < a.(end_) →
  (∀ b, b ∈ areas → b.(end_) ≤ a.(start) ∨ a.(end_) ≤ b.(start)) →
  areas_ok (vec_insert_area (search_start areas a.(start)) a areas).
Proof.
  intros [Hs Hne] Ha Hdis. unfold vec_insert_area. set (i := search_start areas a.(start)).
  destruct (search_start_spec areas a.(start) Hs Hne) as [H1 H2]. fold i in H1, H2.
  rewrite <- (take_drop i areas) in Hs, Hne, Hdis.
  apply StronglySorted_app in Hs as (H12 & Hs1 & Hs2). apply Forall_app in Hne as [Hn1 Hn2].
  rewrite Forall_forall in H1, H2.
  apply areas_ok_app; [done| |].
  - change (a :: ?l) with ([a] ++ l). apply areas_ok_app; [by apply areas_ok_single|done|].
    intros x b ->%list_elem_of_singleton Hb. specialize (H2 b Hb).
    rewrite Forall_forall in Hn2. specialize (Hn2 b Hb).
    destruct (Hdis b) as [?|?]; [apply elem_of_app; by right| |done]. unfold area_before. lia.
  - intros x b Hx [->|Hb]%elem_of_cons; [|by apply H12]. specialize (H1 x Hx).
    rewrite Forall_forall in Hn1. specialize (Hn1 x Hx).
    destruct (Hdis x) as [?|?]; [apply elem_of_app; by left|done|]. unfold area_before. lia.
Qed.

Lemma unmap_areas_ok st s e : addrspace_ok st → addrspace_ok (unmap_areas st s e).
Proof. intros [Hok _]. split; [|done]. apply concat_ok; [apply unmap_within|done]. Qed.

(** After an unmap nothing overlaps the range. *)
Lemma unmap_areas_disjoint st s e p :
  addrspace_ok st → s < e → p ∈ (unmap_areas st s e).(memory_areas) →
  p.(end_) ≤ s ∨ e ≤ p.(start).
Proof.
  intros [[_ Hne] _] Hse (a & Ha & Hp)%elem_of_concat_map. rewrite Forall_forall in Hne.
  by apply (unmap_pieces s e a p Hp (Hne a Ha)).
Qed.

Lemma register_area_ok st a :
  addrspace_ok st → a.(start) < a.(end_) → addrspace_ok (register_area st a).2.
Proof.
  intros Hok Ha. unfold register_area. cbn. split; [|done].
  apply (insert_ok _ a); [by apply unmap_areas_ok|done|].
  intros b Hb. by eapply unmap_areas_disjoint.
Qed.

Lemma retag_step_ok st retag s e :
  (∀ x, (retag x).(start) = x.(start) ∧ (retag x).(end_) = x.(end_)) → addrspace_ok st →
  addrspace_ok (with_areas st (concat (map (retag_area retag s e) st.(memory_areas)))).
Proof. intros Hret [Hok _]. split; [|done]. by apply concat_ok; [apply retag_within|]. Qed.

Lemma set_locked_ok st s e b : addrspace_ok st → addrspace_ok (set_locked st s e b).
Proof. intros Hok. unfold set_locked. destruct (e <=? s); [done|]. by apply retag_step_ok. Qed.

Lemma update_permissions_ok st s e p : addrspace_ok st → addrspace_ok (update_permissions st s e p).
Proof. intros Hok. unfold update_permissions. destruct (e <=? s); [done|]. by apply retag_step_ok. Qed.

(** ** Lemmas: binary search *)

Lemma area_at_before areas i j a b :
  StronglySorted area_before areas → areas !! i = Some a → areas !! j = Some b → (i < j)%nat →
  a.(end_) ≤ b.(start).
Proof.
  intros Hs. revert i j. induction Hs as [|x areas Hs IH Hx]; intros [|i] [|j] Hi Hj Hlt; try done; try lia.
  - cbn in Hi, Hj. simplify_eq. rewrite Forall_forall in Hx.
    exact (Hx b (list_elem_of_lookup_2 _ _ _ Hj)).
  - apply (IH i j); [done..|lia].
Qed.

(** The search keeps the invariant that no area outside [left, right) contains the address. *)
Lemma search_area_spec areas addr fuel l r :
  areas_ok areas → (r - l < fuel)%nat → (l ≤ r ≤ length areas)%nat →
  (∀ i a, areas !! i = Some a → contains a addr = true → (l ≤ i < r)%nat) →
  ∃ res, search_area fuel areas addr l r = Some res ∧
    match res with
    | Some i => ∃ a, areas !! i = Some a ∧ contains a addr = true
    | None => ∀ a, a ∈ areas → contains a addr = false
    end.
Proof.
  intros [Hs Hne]. revert l r. induction fuel as [|fuel IH]; intros l r Hf Hlr Hout; [lia|].
  cbn [search_area]. destruct (l <? r)%nat eqn:Hlt; cycle 1.
  { exists None. split; [done|]. intros a [i Hi]%list_elem_of_lookup.
    destruct (contains a addr) eqn:Hc; [|done]. specialize (Hout i a Hi Hc).
    apply Nat.ltb_ge in Hlt. lia. }
  apply Nat.ltb_lt in Hlt. set (mid := (l + (r - l) / 2)%nat).
  pose proof (Nat.div_lt (r - l) 2 ltac:(lia) ltac:(lia)) as Hdiv.
  assert (l ≤ mid < r)%nat as Hmid by (unfold mid; lia).
  destruct (lookup_lt_is_Some_2 areas mid ltac:(lia)) as [a Ha]. rewrite Ha.
  rewrite Forall_forall in Hne. pose proof (Hne a (list_elem_of_lookup_2 _ _ _ Ha)) as Hane.
  destruct (addr <? a.(start)) eqn:Hlow; [|destruct (a.(end_) <=? addr) eqn:Hhigh].
  - apply IH; [lia|lia|]. intros i b Hb Hc. specialize (Hout i b Hb Hc). split; [lia|].
    destruct (decide (i < mid)%nat); [done|]. unfold contains in Hc.
    destruct (decide (i = mid)) as [->|]; [simplify_eq; lia|].
    pose proof (area_at_before areas mid i a b Hs Ha Hb ltac:(lia)). lia.
  - apply IH; [lia|lia|]. intros i b Hb Hc. specialize (Hout i b Hb Hc). split; [|lia].
    destruct (decide (mid < i)%nat); [lia|]. unfold contains in Hc.
    destruct (decide (i = mid)) as [->|]; [simplify_eq; lia|].
    pose proof (area_at_before areas i mid b a Hs Hb Ha ltac:(lia)).
    pose proof (Hne b (list_elem_of_lookup_2 _ _ _ Hb)). lia.
  - exists (Some mid). split; [done|]. exists a. split; [done|]. unfold contains. lia.
Qed.

Lemma contains_unique areas i j a b addr :
  areas_ok areas → areas !! i = Some a → areas !! j = Some b →
  contains a addr = true → contains b addr = true → i = j.
Proof.
  intros [Hs _] Ha Hb Hca Hcb. unfold contains in *.
  destruct (Nat.lt_trichotomy i j) as [Hlt|[?|Hlt]]; [|done|].
  - pose proof (area_at_before _ _ _ _ _ Hs Ha Hb Hlt). lia.
  - pose proof (area_at_before _ _ _ _ _ Hs Hb Ha Hlt). lia.
Qed.

Lemma get_area_ok st addr : addrspace_ok st → addrspace_ok (get_area st addr).2.
Proof.
  intros Hok. unfold get_area. destruct (_ ≫= _); [done|]. destruct Hok as [Hok _].
  destruct (search_area_spec (memory_areas st) addr (search_fuel (memory_areas st)) 0
    (length (memory_areas st)) Hok) as (res & -> & Hres); [unfold search_fuel; lia|lia| |].
  - intros i a Hi _. apply lookup_lt_Some in Hi. lia.
  - destruct res as [i|]; [|by split]. split; [done|]. cbn. destruct Hres as (a & Ha & _).
    by eapply lookup_lt_Some.
Qed.

Lemma sorted_lookup {X} (R : X → X → Prop) l i j a b : StronglySorted R l → l !! i = Some a → l !! j = Some b → (i < j)%nat → R a b.
Proof.
  intros Hs Ha Hb Hij. rewrite <- (take_drop_middle l i a Ha) in Hs. apply StronglySorted_app in Hs as (_ & _ & Hs). inversion Hs as [|? ? _ Hall]; subst.
  rewrite List.Forall_forall in Hall. apply Hall, list_elem_of_In, list_elem_of_lookup. exists (j - S i)%nat. rewrite lookup_drop. by replace (S i + (j - S i))%nat with j by lia.
Qed.

Lemma areas_apart areas i j a b : areas_ok areas → areas !! i = Some a → areas !! j = Some b → i ≠ j → area_before a b ∨ area_before b a.
Proof.
  intros [Hs _] Ha Hb Hne. destruct (Nat.lt_total i j) as [Hlt|[?|Hlt]]; [left|done|right].
  - by apply (sorted_lookup _ _ i j a b Hs).
  - by apply (sorted_lookup _ _ j i b a Hs).
Qed.

(** An area that is replaced by one that starts earlier or ends later, where nothing else is *)
Lemma areas_ok_resize areas i a b :
  areas_ok areas → areas !! i = Some a → b.(start) ≤ a.(start) → a.(end_) ≤ b.(end_) →
  (∀ j c, areas !! j = Some c → j ≠ i → overlaps c b.(start) b.(end_) = false) → areas_ok (<[i := b]> areas).
Proof.
  intros [Hs Hne] Ha Hbs Hbe Hno. pose proof (lookup_lt_Some _ _ _ Ha) as Hlen. rewrite insert_take_drop by done.
  pose proof Hs as Hs'. pose proof Hne as Hne'. rewrite <- (take_drop_middle areas i a Ha) in Hs', Hne'.
  apply StronglySorted_app in Hs' as (H12 & Hs1 & Hs2). apply Forall_app in Hne' as [Hn1 Hn2]. inversion Hs2 as [|? ? Hs3 Ha3]; subst.
  apply Forall_cons in Hn2 as [Hna Hn2]. rewrite Forall_forall in Hn1, Hn2. unfold overlaps in Hno.
  assert (∀ c, c ∈ take i areas → area_before c b) as Hbefore.
  { intros c Hc. pose proof (H12 c a Hc ltac:(left)) as Hca. specialize (Hn1 c Hc). unfold area_before in *. apply list_elem_of_lookup in Hc as [j Hj].
    apply lookup_take_Some in Hj as [Hj Hji]. specialize (Hno j c Hj ltac:(lia)). lia. }
  assert (∀ c, c ∈ drop (S i) areas → area_before b c) as Hafter.
  { intros c Hc. rewrite List.Forall_forall in Ha3. pose proof (Ha3 c ltac:(by apply list_elem_of_In)) as Hac. specialize (Hn2 c Hc). unfold area_before in *.
    apply list_elem_of_lookup in Hc as [j Hj]. rewrite lookup_drop in Hj. specialize (Hno _ c Hj ltac:(lia)). lia. }
  apply areas_ok_app; [by split; [|apply Forall_forall]| |].
  - split; [|apply Forall_cons; split; [lia|by apply Forall_forall]]. constructor; [done|]. apply List.Forall_forall. intros c Hc. by apply Hafter, list_elem_of_In.
  - intros c d Hc [->|Hd]%elem_of_cons; [by apply Hbefore|]. apply H12; [done|by right].
Qed.

(** One operation on an address space; the areas registered are not empty.  A stack grows
    over a page that no area meets, and a mapping over addresses that no area meets. *)
Inductive area_step (st : AddrSpace) : AddrSpace → Prop :=
  | step_register a : a.(start) < a.(end_) → area_step st (register_area st a).2
  | step_unmap s e : area_step st (unmap_areas st s e)
  | step_lock s e b : area_step st (set_locked st s e b)
  | step_protect s e p : area_step st (update_permissions st s e p)
  | step_lookup addr : area_step st (get_area st addr).2
  | step_reserve pages : area_step st (fetch_add_user_mem st pages).2
  | step_grow_down fault_page i : grown_stack st.(memory_areas) fault_page = Some i →
      (∀ a, a ∈ st.(memory_areas) → overlaps a fault_page (fault_page + 4096) = false) → area_step st (grow_down st fault_page i)
  | step_grow_in_place i a new_end d : st.(memory_areas) !! i = Some a → a.(end_) ≤ new_end →
      (∀ b, b ∈ st.(memory_areas) → overlaps b a.(end_) new_end = false) → area_step st (grow_in_place st i a new_end d).

Lemma alter_as_insert {X} (g : X → X) (l : list X) (i : nat) x : l !! i = Some x → alter g i l = <[i := g x]> l.
Proof. revert i. induction l as [|y l IH]; intros [|i] Hi; [done..| |]; cbn in *; [by simplify_eq|]. f_equal. by apply IH. Qed.

Lemma grow_down_ok st fp i : addrspace_ok st → grown_stack st.(memory_areas) fp = Some i →
  (∀ a, a ∈ st.(memory_areas) → overlaps a fp (fp + 4096) = false) → addrspace_ok (grow_down st fp i).
Proof.
  intros [Hok _] Hg Hno. unfold grown_stack in Hg. apply bind_Some in Hg as ([j a] & Hf & Hg). destruct (existsb _ _); [done|]. injection Hg as ->.
  apply list_find_Some in Hf as (Ha & (_ & Hlt & Hst) & _). pose proof (lookup_lt_Some _ _ _ Ha). split; [|cbn; by rewrite length_alter].
  cbn. rewrite (alter_as_insert _ _ _ a Ha). apply (areas_ok_resize _ i a); [done|done|cbn; lia|cbn; lia|]. intros k c Hc Hki. cbn.
  pose proof (Hno c ltac:(by eapply list_elem_of_lookup_2)) as Hn. pose proof Hok as [Hs Hne]. rewrite Forall_forall in Hne. pose proof (Hne a ltac:(by eapply list_elem_of_lookup_2)).
  pose proof (Hne c ltac:(by eapply list_elem_of_lookup_2)). pose proof (areas_apart st.(memory_areas) k i c a Hok Hc Ha Hki) as Hap. unfold area_before, overlaps in *. cbn in *. lia.
Qed.

Lemma grow_in_place_ok st i a new_end d : addrspace_ok st → st.(memory_areas) !! i = Some a → a.(end_) ≤ new_end →
  (∀ b, b ∈ st.(memory_areas) → overlaps b a.(end_) new_end = false) → addrspace_ok (grow_in_place st i a new_end d).
Proof.
  intros [Hok _] Ha Hle Hno. split; [|done]. apply (areas_ok_resize _ i a); [done|done|cbn; lia|done|]. intros k c Hc Hki. cbn.
  pose proof (Hno c ltac:(by eapply list_elem_of_lookup_2)) as Hn. pose proof Hok as [Hs Hne]. rewrite Forall_forall in Hne.
  pose proof (Hne c ltac:(by eapply list_elem_of_lookup_2)). pose proof (Hne a ltac:(by eapply list_elem_of_lookup_2)).
  pose proof (areas_apart st.(memory_areas) k i c a Hok Hc Ha Hki) as Hap. unfold area_before, overlaps in *. cbn in *. lia.
Qed.

Lemma area_step_ok st st' : area_step st st' → addrspace_ok st → addrspace_ok st'.
Proof.
  intros Hs Hok. destruct Hs.
  - by apply register_area_ok.
  - by apply unmap_areas_ok.
  - by apply set_locked_ok.
  - by apply update_permissions_ok.
  - by apply get_area_ok.
  - destruct Hok. by split.
  - by apply grow_down_ok.
  - by apply grow_in_place_ok.
Qed.

Lemma areas_view_none areas addr :
  areas_view areas addr = None ↔ ∀ a, a ∈ areas → contains a addr = false.
Proof.
  induction areas as [|a areas IH]; cbn.
  - split; [by intros _ a ?%elem_of_nil|done].
  - destruct (contains a addr) eqn:Hc.
    + split; [done|]. intros H. rewrite (H a) in Hc by constructor. done.
    + rewrite IH. split; [by intros H b [->|?]%elem_of_cons; auto|].
      intros H b Hb. apply H. by constructor.
Qed.

Lemma areas_view_insert i a areas addr :
  (∀ b, b ∈ areas → contains a addr = true → contains b addr = false) →
  areas_view (vec_insert_area i a areas) addr =
  if contains a addr then Some (area_view a addr) else areas_view areas addr.
Proof.
  intros Hdis. unfold vec_insert_area. rewrite <- (take_drop i areas) at 3.
  rewrite !areas_view_app. cbn [areas_view]. destruct (contains a addr) eqn:Hc; [|done].
  replace (areas_view (take i areas) addr) with (@None page_view); [done|].
  symmetry. apply areas_view_none. intros b Hb. apply Hdis; [|done].
  rewrite <- (take_drop i areas). apply elem_of_app. by left.
Qed.

Section validate_lemmas.
Context (file_flags : Z → result SyscallError Z) (memfd_allows_shared_write : Z → option bool).

Definition covered (areas : list MemoryArea) (s e : Z) : Prop :=
  ∀ addr, s ≤ addr < e → ∃ a, a ∈ areas ∧ contains a addr = true.

Definition permitted (areas : list MemoryArea) (s e p : Z) : Prop :=
  ∀ a, a ∈ areas → overlaps a s e = true →
    check_area file_flags memfd_allows_shared_write a p = Ok tt.

Lemma validate_loop_spec areas cursor e p :
  areas_ok areas → cursor < e →
  validate_loop file_flags memfd_allows_shared_write areas cursor e p = Ok tt ↔
  covered areas cursor e ∧ permitted areas cursor e p.
Proof.
  intros [Hs Hne]. revert cursor. induction Hs as [|a areas Hs IH Ha]; intros cursor Hlt; cbn [validate_loop].
  { split; [done|]. intros [Hc _]. destruct (Hc cursor) as (a & ?%elem_of_nil & _); [lia|done]. }
  apply Forall_cons in Hne as [Hna Hne]. specialize (IH Hne).
  rewrite Forall_forall in Ha, Hne. unfold area_before in Ha.
  destruct (a.(end_) <=? cursor) eqn:Hend; [|destruct (cursor <? a.(start)) eqn:Hst].
  - rewrite IH by done. unfold covered, permitted. split; intros [Hc Hp]; split.
    + intros addr Hr. destruct (Hc addr Hr) as (b & Hb & Hcb). exists b. split; [by constructor|done].
    + intros b [->|Hb]%elem_of_cons Hov; [unfold overlaps in Hov; lia|by apply Hp].
    + intros addr Hr. destruct (Hc addr Hr) as (b & [->|Hb]%elem_of_cons & Hcb); [|by exists b].
      unfold contains in Hcb. lia.
    + intros b Hb. apply Hp. by constructor.
  - split; [done|]. intros [Hc _]. exfalso.
    destruct (Hc cursor) as (b & [->|Hb]%elem_of_cons & Hcb); [lia| |]; unfold contains in Hcb; [lia|].
    specialize (Ha b Hb). lia.
  - assert (overlaps a cursor e = true) as Hova by (unfold overlaps; lia).
    destruct (check_area _ _ a p) as [[]|err] eqn:Hck; cbn [mbind result_mbind]; cycle 1.
    { split; [done|]. intros [_ Hp]. rewrite (Hp a) in Hck by (done || constructor). done. }
    destruct (e <=? Z.min a.(end_) e) eqn:Hdone.
    + split; [|done]. intros _. split.
      * intros addr Hr. exists a. split; [constructor|]. unfold contains. lia.
      * intros b [->|Hb]%elem_of_cons Hov; [done|]. specialize (Ha b Hb). unfold overlaps in Hov. lia.
    + rewrite Z.min_l by lia. rewrite IH by lia. unfold covered, permitted. split; intros [Hc Hp]; split.
      * intros addr Hr. destruct (decide (addr < a.(end_))).
        { exists a. split; [constructor|]. unfold contains. lia. }
        destruct (Hc addr) as (b & Hb & Hcb); [lia|]. exists b. split; [by constructor|done].
      * intros b [->|Hb]%elem_of_cons Hov; [done|]. apply Hp; [done|].
        specialize (Ha b Hb). specialize (Hne b Hb). unfold overlaps in *. lia.
      * intros addr Hr. destruct (Hc addr) as (b & [->|Hb]%elem_of_cons & Hcb); [lia| |by exists b].
        unfold contains in Hcb. lia.
      * intros b Hb Hov. apply Hp; [by constructor|]. unfold overlaps in *. lia.
Qed.
End validate_lemmas.

(** ** Examples *)

Definition ex_file_area (s e off n : Z) : MemoryArea :=
  mkArea s e 5 1 (Data.File off n true 9 false) true false false.
Definition ex_space : AddrSpace :=
  mkAddrSpace [ex_file_area 4096 12288 0 5000; ex_file_area 16384 20480 8192 4096] USER_MEM_START None.

Lemma ex_space_ok : addrspace_ok ex_space.
Proof. split; [|done]. split; repeat constructor; cbn; lia || (unfold area_before; cbn; lia). Qed.

(** A shared area of two frames that loses its first page shows its first frame in its
    second page. *)
Lemma unmap_shifts_shared_frames :
  let st := mkAddrSpace [mkArea 4096 12288 7 3 (Data.Shared 1 [1048576; 2097152] 7) true false false]
              USER_MEM_START None in
  (v_backing <$> view st 8192) = Some (BShared (Some 2097152) 7) ∧
  (v_backing <$> view (unmap_areas st 4096 8192) 8192) = Some (BShared (Some 1048576) 7).
Proof. split; reflexivity. Qed.

(** ** Properties *)



(** C26. [get_area], with or without a cached index, ends and returns exactly the area that
    contains the address, or nothing when there is none; the areas do not change. *)
Theorem get_area_spec st addr :
  addrspace_ok st →
  let '(r, st') := get_area st addr in
  r = List.find (λ a, contains a addr) st.(memory_areas) ∧
  st'.(memory_areas) = st.(memory_areas) ∧ addrspace_ok st'.
Proof.
  intros Hok. pose proof (get_area_ok st addr Hok) as Hok'. unfold get_area in *.
  assert (∀ i a, memory_areas st !! i = Some a → contains a addr = true →
    Some a = List.find (λ a, contains a addr) st.(memory_areas)) as Hfind.
  { intros i a Hi Hc. destruct (List.find _ _) as [b|] eqn:Hf.
    - apply find_some in Hf as [Hb Hcb]. apply list_elem_of_In, list_elem_of_lookup in Hb as [j Hj].
      assert (i = j) as -> by (eapply contains_unique; [apply Hok|done..]). congruence.
    - apply list_elem_of_lookup_2, list_elem_of_In in Hi.
      pose proof (find_none _ _ Hf a Hi). cbn in *. congruence. }
  destruct (_ ≫= _) as [a|] eqn:Hcache.
  { split; [|done]. apply bind_Some in Hcache as (i & _ & (b & Hi & Hb)%bind_Some).
    destruct (contains b addr) eqn:Hc; [|done]. injection Hb as <-. by eapply Hfind. }
  destruct (search_area_spec (memory_areas st) addr (search_fuel (memory_areas st)) 0
    (length (memory_areas st)) (proj1 Hok)) as (res & Hs & Hres); [unfold search_fuel; lia|lia| |].
  { intros i a Hi _. apply lookup_lt_Some in Hi. lia. }
  rewrite Hs in *. destruct res as [i|]; cbn; split; try done.
  - destruct Hres as (a & Ha & Hc). rewrite Ha. by eapply Hfind.
  - destruct (List.find _ _) as [b|] eqn:Hf; [|done].
    apply find_some in Hf as [Hb%list_elem_of_In Hcb]. by rewrite (Hres b Hb) in Hcb.
Qed.

Lemma get_area_spec_witness :
  (get_area ex_space 17000).1 = Some (ex_file_area 16384 20480 8192 4096) ∧
  addrspace_ok (get_area ex_space 17000).2.
Proof.
  split; [reflexivity|]. exact (proj2 (proj2 (get_area_spec ex_space 17000 ex_space_ok))).
Defined.

(** Where no shared-frames area keeps a part to the right of the range (a case that the code
    gets wrong, [unmap_shifts_shared_frames]), an unmap takes exactly the addresses of the
    range away: every other address shows what it showed (permissions, lock, file position
    and whether it holds file data). *)
Lemma unmap_areas_view st s e addr :
  no_shared_cut st.(memory_areas) s e →
  view (unmap_areas st s e) addr = if in_span s e addr then None else view st addr.
Proof.
  intros Hsh. unfold view, unmap_areas. cbn [memory_areas with_areas].
  apply (concat_view _ (λ v, if in_span s e addr then None else v)).
  - by destruct (in_span s e addr).
  - by destruct (in_span s e addr).
  - intros a Ha. apply unmap_area_view. intros arc fr fl. by apply Hsh.
Qed.

Lemma unmap_areas_view_witness :
  view (unmap_areas ex_space 8192 16384) 4100 = view ex_space 4100.
Proof.
  apply (unmap_areas_view ex_space 8192 16384 4100).
  intros a arc fr fl Ha Hd. cbn in Ha. apply elem_of_cons in Ha as [->|Ha]; [done|].
  by apply list_elem_of_singleton in Ha as ->.
Defined.

(** What a lock change and a protection change do to what an address shows. *)
Definition view_locked (b : bool) (v : page_view) : page_view :=
  mkView v.(v_flags) v.(v_protection) v.(v_lazy) b v.(v_grows_down) v.(v_backing).
Definition view_protected (p : Z) (v : page_view) : page_view :=
  mkView (protection_to_page_flags p) p v.(v_lazy) v.(v_locked) v.(v_grows_down) v.(v_backing).

Lemma retag_view st retag f s e addr :
  (∀ x, (retag x).(start) = x.(start) ∧ (retag x).(end_) = x.(end_) ∧
     ∀ addr, area_view (retag x) addr = f (area_view x addr)) →
  no_shared_inside st.(memory_areas) s e →
  areas_view (concat (map (retag_area retag s e) st.(memory_areas))) addr =
  if in_span s e addr then f <$> view st addr else view st addr.
Proof.
  intros Hret Hsh. apply (concat_view _ (λ v, if in_span s e addr then f <$> v else v)).
  - by destruct (in_span s e addr).
  - by destruct (in_span s e addr).
  - intros a Ha. apply retag_area_view; [done|]. intros arc fr fl. by apply Hsh.
Qed.

(** A lock or protection change affects exactly the addresses of the range, and of what
    they show only the lock or the protection with its page flags: backing, file position
    and the amount of file data stay, provided no shared-frames area is cut. *)
Lemma retag_operations_view st s e b p addr :
  no_shared_inside st.(memory_areas) s e →
  view (set_locked st s e b) addr =
    (if in_span s e addr then view_locked b <$> view st addr else view st addr) ∧
  view (update_permissions st s e p) addr =
    (if in_span s e addr then view_protected p <$> view st addr else view st addr).
Proof.
  intros Hsh. unfold set_locked, update_permissions. destruct (e <=? s) eqn:Hse.
  { replace (in_span s e addr) with false by (unfold in_span; lia). done. }
  split; by apply retag_view.
Qed.

Lemma retag_operations_view_witness :
  view (update_permissions ex_space 8192 16400 3) 9000 =
    Some (mkView 9223372036854775815 3 true false false (BFile 9 4904 true true false)).
Proof.
  assert (no_shared_inside ex_space.(memory_areas) 8192 16400) as Hsh.
  { intros a arc fr fl Ha Hd. cbn in Ha. apply elem_of_cons in Ha as [->|Ha]; [done|].
    by apply list_elem_of_singleton in Ha as ->. }
  rewrite (proj2 (retag_operations_view ex_space 8192 16400 false 3 9000 Hsh)). reflexivity.
Defined.

(** Where no shared-frames area keeps a part to the right of the new one
    ([unmap_shifts_shared_frames]), registering a non-empty area makes its range show the
    area and leaves every other address as it was. *)
Lemma register_area_view st a addr :
  addrspace_ok st → a.(start) < a.(end_) → no_shared_cut st.(memory_areas) a.(start) a.(end_) →
  view (register_area st a).2 addr =
    if contains a addr then Some (area_view a addr) else view st addr.
Proof.
  intros Hok Ha Hsh. unfold register_area. cbn [LAZY_MAP snd]. unfold view at 1.
  cbn [memory_areas with_areas].
  assert (∀ b, b ∈ (unmap_areas st a.(start) a.(end_)).(memory_areas) →
    contains a addr = true → contains b addr = false) as Hdis.
  { intros b Hb Hc. pose proof (unmap_areas_disjoint st _ _ b Hok Ha Hb). unfold contains in *. lia. }
  rewrite (areas_view_insert _ a _ addr Hdis). destruct (contains a addr) eqn:Hc; [done|].
  assert (view (unmap_areas st a.(start) a.(end_)) addr = view st addr) as <-; [|done].
  unfold view, unmap_areas. cbn [memory_areas with_areas].
  rewrite (concat_view _ (λ v, if in_span a.(start) a.(end_) addr then None else v)).
  - by replace (in_span _ _ addr) with false by by symmetry.
  - by destruct (in_span _ _ addr).
  - by destruct (in_span _ _ addr).
  - intros b Hb. apply unmap_area_view. intros arc fr fl. by apply Hsh.
Qed.

Lemma register_area_view_witness :
  view (register_area ex_space (ex_file_area 8192 16384 65536 8192)).2 8200 =
    Some (mkView 5 1 true false false (BFile 9 65544 true true false)).
Proof.
  rewrite (register_area_view ex_space (ex_file_area 8192 16384 65536 8192) 8200 ex_space_ok); [done|done|].
  intros a arc fr fl Ha Hd. cbn in Ha. apply elem_of_cons in Ha as [->|Ha]; [done|].
  by apply list_elem_of_singleton in Ha as ->.
Defined.

(** C27. [mprotect] is accepted exactly when the range is mapped without a hole and every
    area it touches permits the protection; an unmapped address gives [ENOMEM] or an earlier
    area's refusal. *)
Theorem validate_permission_update_spec file_flags memfd st s e p :
  addrspace_ok st → s < e →
  validate_permission_update file_flags memfd st s e p = Ok tt ↔
  (∀ addr, s ≤ addr < e → is_Some (view st addr)) ∧
  (∀ a, a ∈ st.(memory_areas) → overlaps a s e = true → check_area file_flags memfd a p = Ok tt).
Proof.
  intros [Hok _] Hse. unfold validate_permission_update. replace (e <=? s) with false by lia.
  rewrite validate_loop_spec by done. unfold covered, permitted, view. apply and_iff_compat_r.
  split; intros H addr Hr; specialize (H addr Hr).
  - destruct H as (a & Ha & Hc). destruct (areas_view _ addr) eqn:Hv; [by eexists|].
    by rewrite (proj1 (areas_view_none _ _) Hv a Ha) in Hc.
  - destruct (existsb (λ a, contains a addr) st.(memory_areas)) eqn:He.
    + apply existsb_exists in He as (a & Ha & Hc). exists a. by rewrite list_elem_of_In.
    + destruct H as [v Hv]. rewrite (proj2 (areas_view_none _ _)) in Hv; [done|].
      intros a Ha%list_elem_of_In. destruct (contains a addr) eqn:Hc; [|done].
      rewrite <- He. symmetry. apply existsb_exists. by exists a.
Qed.

Lemma validate_permission_update_spec_witness :
  ∃ addr, 4096 ≤ addr < 20480 ∧ view ex_space addr = None ∧
  validate_permission_update (λ _, Ok 8) (λ _, None) ex_space 4096 20480 3 ≠ Ok tt.
Proof.
  exists 13000. split; [done|]. split; [reflexivity|]. intros Hv.
  apply (validate_permission_update_spec (λ _, Ok 8) (λ _, None) ex_space 4096 20480 3) in Hv
    as [Hc _]; [|exact ex_space_ok|done].
  destruct (Hc 13000) as [v Hv]; [done|]. by vm_compute in Hv.
Defined.
