(* ===== verification/FileLocks.v ===== *)
(** * Advisory file locks

    object/file_locks.rs: POSIX record locks ([fcntl]) and [flock] locks on a table keyed by
    file, the owners waiting for a lock, and the wait-for search that refuses a request that
    would deadlock.

    The two global tables are the state; the calls of [wake_lock_waiters] are counted in it.
    What the code asks of the locked object (its address, path, position and size) is the
    record [Object].  u64 positions are [Z]. *)

From S2P Require Import Prelude Errors Blocking.

Open Scope string_scope.
Open Scope list_scope.
Open Scope Z_scope.

(** ** Constants and data *)

Definition F_RDLCK : Z := 0.
Definition F_WRLCK : Z := 1.
Definition F_UNLCK : Z := 2.
Definition SEEK_SET : Z := 0.
Definition LOCK_SH : Z := 1.
Definition LOCK_EX : Z := 2.
Definition LOCK_NB : Z := 4.
Definition LOCK_UN : Z := 8.

Record LinuxFlock := mkFlock {
  fl_type : Z; fl_whence : Z; fl_start : Z; fl_len : Z; fl_pid : Z; fl_reserved : Z;
}.

Module AdvisoryLockType.
Inductive AdvisoryLockType : Type := Read | Write.
End AdvisoryLockType.
Abbreviation AdvisoryLockType := AdvisoryLockType.AdvisoryLockType.

Module AdvisoryLockApi.
Inductive AdvisoryLockApi : Type := Posix | Flock.
End AdvisoryLockApi.
Abbreviation AdvisoryLockApi := AdvisoryLockApi.AdvisoryLockApi.

Module AdvisoryLockOwner.
Inductive AdvisoryLockOwner : Type :=
  | Process (pid : Z)
  | OpenFileDescription (owner : Z).
End AdvisoryLockOwner.
Abbreviation AdvisoryLockOwner := AdvisoryLockOwner.AdvisoryLockOwner.

#[export] Instance AdvisoryLockType_eq_dec : EqDecision AdvisoryLockType.
Proof. solve_decision. Defined.
#[export] Instance AdvisoryLockApi_eq_dec : EqDecision AdvisoryLockApi.
Proof. solve_decision. Defined.
#[export] Instance AdvisoryLockOwner_eq_dec : EqDecision AdvisoryLockOwner.
Proof. solve_decision. Defined.
#[export] Instance AdvisoryLockOwner_countable : Countable AdvisoryLockOwner.
Proof.
  refine (inj_countable'
    (λ o, match o with AdvisoryLockOwner.Process p => inl p
                     | AdvisoryLockOwner.OpenFileDescription p => inr p end)
    (λ s, match s with inl p => AdvisoryLockOwner.Process p
                     | inr p => AdvisoryLockOwner.OpenFileDescription p end) _).
  by intros [].
Defined.

Record AdvisoryLockRange := mkRange { start : Z; end_ : option Z }.

Record AdvisoryLock := mkLock {
  api : AdvisoryLockApi;
  owner : AdvisoryLockOwner;
  lock_type : AdvisoryLockType;
  range : AdvisoryLockRange;
}.

#[export] Instance AdvisoryLockRange_eq_dec : EqDecision AdvisoryLockRange.
Proof. solve_decision. Defined.
#[export] Instance AdvisoryLock_eq_dec : EqDecision AdvisoryLock.
Proof. solve_decision. Defined.

Record ParsedFlockRequest := mkRequest {
  req_type : option AdvisoryLockType;
  req_range : AdvisoryLockRange;
}.

Record AdvisoryLockWait := mkWait { wait_key : string; wait_lock : AdvisoryLock }.

Record LockState := mkLockState {
  ADVISORY_LOCKS : gmap string (list AdvisoryLock);
  ADVISORY_LOCK_WAITS : gmap AdvisoryLockOwner AdvisoryLockWait;
  lock_wakeups : nat;
}.

(** What file_locks.rs uses of an [ObjectRef]: the address of the [Arc] and its strong
    count, the path if [as_file_like] succeeds, the results of [seek(0, Current)] and of
    [info()] with their casts and error conversions. *)
Record Object := mkObject {
  obj_ptr : Z;
  obj_strong_count : Z;
  obj_path : option string;
  obj_position : result SyscallError Z;
  obj_size : result SyscallError Z;
}.

(** ** Ranges and conflicts *)

Definition range_end_bound (r : AdvisoryLockRange) : Z := default U64_MAX r.(end_).

Definition ranges_overlap (left right : AdvisoryLockRange) : bool :=
  (left.(start) <? range_end_bound right) && (right.(start) <? range_end_bound left).

(** The filter of [find_conflict]. *)
Definition conflicts_with (api' : AdvisoryLockApi) (owner' : AdvisoryLockOwner)
  (requested_lock entry : AdvisoryLock) : bool :=
  if negb (bool_decide (entry.(api) = api')) then false
  else if bool_decide (entry.(owner) = owner') then false
  else if negb (ranges_overlap entry.(range) requested_lock.(range)) then false
  else match requested_lock.(lock_type), entry.(lock_type) with
       | AdvisoryLockType.Read, AdvisoryLockType.Read => false
       | _, _ => true
       end.

Definition conflict_key (entry : AdvisoryLock) : list Z :=
  [entry.(range).(start); range_end_bound entry.(range)].

Definition find_conflict (entries : list AdvisoryLock) (owner' : AdvisoryLockOwner)
  (requested_lock : option AdvisoryLock) (api' : AdvisoryLockApi) : option AdvisoryLock :=
  match requested_lock with
  | None => None
  | Some requested_lock =>
      min_by (λ a b, lex_leb (conflict_key a) (conflict_key b))
        (List.filter (conflicts_with api' owner' requested_lock) entries)
  end.

(** ** Updating a record-lock list *)

Definition with_range (lock : AdvisoryLock) (r : AdvisoryLockRange) : AdvisoryLock :=
  mkLock lock.(api) lock.(owner) lock.(lock_type) r.

Definition subtract_lock_range (lock : AdvisoryLock) (remove : AdvisoryLockRange)
  : list AdvisoryLock :=
  if negb (ranges_overlap lock.(range) remove) then [lock]
  else
    (if lock.(range).(start) <? remove.(start)
     then [with_range lock (mkRange lock.(range).(start) (Some remove.(start)))] else []) ++
    match remove.(end_) with
    | Some remove_end =>
        if match lock.(range).(end_) with None => true | Some e => remove_end <? e end
        then [with_range lock (mkRange remove_end lock.(range).(end_))] else []
    | None => []
    end.

Definition api_u8 (a : AdvisoryLockApi) : Z :=
  match a with AdvisoryLockApi.Posix => 0 | AdvisoryLockApi.Flock => 1 end.
Definition type_u8 (t : AdvisoryLockType) : Z :=
  match t with AdvisoryLockType.Read => 0 | AdvisoryLockType.Write => 1 end.

Definition owner_sort_key (o : AdvisoryLockOwner) : list Z :=
  match o with
  | AdvisoryLockOwner.Process pid => [0; pid]
  | AdvisoryLockOwner.OpenFileDescription owner => [1; owner]
  end.

Definition sort_key (e : AdvisoryLock) : list Z :=
  [api_u8 e.(api)] ++ owner_sort_key e.(owner) ++
  [type_u8 e.(lock_type); e.(range).(start); range_end_bound e.(range)].

Definition can_merge_posix_locks (left right : AdvisoryLock) : bool :=
  bool_decide (left.(api) = AdvisoryLockApi.Posix) &&
  bool_decide (right.(api) = AdvisoryLockApi.Posix) &&
  bool_decide (left.(owner) = right.(owner)) &&
  bool_decide (left.(lock_type) = right.(lock_type)) &&
  (right.(range).(start) <=? range_end_bound left.(range)).

Definition merge_lock_ends (left right : option Z) : option Z :=
  match left, right with
  | Some l, Some r => Some (Z.max l r)
  | _, _ => None
  end.

(** The loop of [merge_posix_locks]: [merged] is the output vector in reverse, so that its
    head is [merged.last_mut()]. *)
Definition merge_step (merged : list AdvisoryLock) (entry : AdvisoryLock) : list AdvisoryLock :=
  match merged with
  | [] => [entry]
  | last :: rest =>
      if can_merge_posix_locks last entry
      then with_range last (mkRange last.(range).(start)
             (merge_lock_ends last.(range).(end_) entry.(range).(end_))) :: rest
      else entry :: merged
  end.

Definition merge_posix_locks (entries : list AdvisoryLock) : list AdvisoryLock :=
  rev (foldl merge_step []
    (sort_by (λ a b, lex_leb (sort_key a) (sort_key b)) entries)).

Definition apply_posix_lock (entries : list AdvisoryLock) (owner' : AdvisoryLockOwner)
  (request : ParsedFlockRequest) : list AdvisoryLock :=
  let updated := concat (map (λ entry,
    if negb (bool_decide (entry.(api) = AdvisoryLockApi.Posix)) ||
       negb (bool_decide (entry.(owner) = owner'))
    then [entry] else subtract_lock_range entry request.(req_range)) entries) in
  let updated := updated ++
    match request.(req_type) with
    | Some t => [mkLock AdvisoryLockApi.Posix owner' t request.(req_range)]
    | None => []
    end in
  merge_posix_locks updated.

(** ** Parsing requests *)

Definition resolve_flock_range (flock : LinuxFlock) (object : Object)
  : result SyscallError AdvisoryLockRange :=
  base ← (if flock.(fl_whence) =? SEEK_SET then Ok 0
          else if flock.(fl_whence) =? 1 then uwrap 64 <$> object.(obj_position)
          else if flock.(fl_whence) =? 2 then uwrap 64 <$> object.(obj_size)
          else Err SyscallError.InvalidArguments);
  start ← ok_or (checked_add_signed 64 base flock.(fl_start)) SyscallError.InvalidArguments;
  if 0 <? flock.(fl_len) then
    e ← ok_or (checked_add 64 start flock.(fl_len)) SyscallError.InvalidArguments;
    Ok (mkRange start (Some e))
  else if flock.(fl_len) =? 0 then Ok (mkRange start None)
  else
    new_start ← ok_or (checked_sub start (Z.abs flock.(fl_len))) SyscallError.InvalidArguments;
    Ok (mkRange new_start (Some start)).

Definition parse_flock_request (flock : LinuxFlock) (object : Object)
  : result SyscallError ParsedFlockRequest :=
  range ← resolve_flock_range flock object;
  lock_type ← (if flock.(fl_type) =? F_RDLCK then Ok (Some AdvisoryLockType.Read)
               else if flock.(fl_type) =? F_WRLCK then Ok (Some AdvisoryLockType.Write)
               else if flock.(fl_type) =? F_UNLCK then Ok None
               else Err SyscallError.InvalidArguments);
  Ok (mkRequest lock_type range).

Definition parse_flock_operation (operation : Z)
  : result SyscallError (option AdvisoryLockType) :=
  let mode := Z.land operation (Z.lor LOCK_SH (Z.lor LOCK_EX LOCK_UN)) in
  let extra := Z.land operation
    (Z.lnot (Z.lor LOCK_SH (Z.lor LOCK_EX (Z.lor LOCK_UN LOCK_NB)))) in
  if negb (extra =? 0) then Err SyscallError.InvalidArguments
  else if mode =? LOCK_SH then Ok (Some AdvisoryLockType.Read)
  else if mode =? LOCK_EX then Ok (Some AdvisoryLockType.Write)
  else if mode =? LOCK_UN then Ok None
  else Err SyscallError.InvalidArguments.

(** ** Owners and keys *)

Definition ofd_owner (object : Object) : Z := object.(obj_ptr).

Definition lock_owner (current_pid : Z) (object : Object) (ofd : bool) : AdvisoryLockOwner :=
  if ofd then AdvisoryLockOwner.OpenFileDescription (ofd_owner object)
  else AdvisoryLockOwner.Process current_pid.

(** [{:p}]: lower-case hexadecimal without leading zeros. *)
Definition hex_digit (d : Z) : Ascii.ascii :=
  Ascii.ascii_of_N (Z.to_N (if d <? 10 then 48 + d else 87 + d)).

Fixpoint hex_digits (fuel : nat) (z : Z) (acc : string) : string :=
  match fuel with
  | O => acc
  | S fuel =>
      let acc := String (hex_digit (z mod 16)) acc in
      if z / 16 =? 0 then acc else hex_digits fuel (z / 16) acc
  end.

Definition format_pointer (p : Z) : string := ("0x" +:+ hex_digits 16 p "")%stdpp.

Definition lock_key (object : Object) : result SyscallError string :=
  match object.(obj_path) with
  | Some path => Ok path
  | None => Ok ("object:" +:+ format_pointer object.(obj_ptr))%stdpp
  end.

(** ** The wait table and the wake-up of waiters *)

Definition wake_lock_waiters (st : LockState) : LockState :=
  mkLockState st.(ADVISORY_LOCKS) st.(ADVISORY_LOCK_WAITS) (S st.(lock_wakeups)).

Definition set_lock_wait (st : LockState) (o : AdvisoryLockOwner) (key : string)
  (lock : AdvisoryLock) : LockState :=
  mkLockState st.(ADVISORY_LOCKS) (<[o := mkWait key lock]> st.(ADVISORY_LOCK_WAITS))
    st.(lock_wakeups).

Definition clear_lock_wait (st : LockState) (o : AdvisoryLockOwner) : LockState :=
  mkLockState st.(ADVISORY_LOCKS) (delete o st.(ADVISORY_LOCK_WAITS)) st.(lock_wakeups).

(** [locks.insert(key, entries)], or [locks.remove(&key)] when nothing is left. *)
Definition store_entries (st : LockState) (key : string) (entries : list AdvisoryLock)
  : LockState :=
  mkLockState
    (match entries with
     | [] => delete key st.(ADVISORY_LOCKS)
     | _ => <[key := entries]> st.(ADVISORY_LOCKS)
     end) st.(ADVISORY_LOCK_WAITS) st.(lock_wakeups).

(** The owners holding a lock that stands in the way of [o]'s recorded wait. *)
Definition wait_successors (st : LockState) (o : AdvisoryLockOwner) : list AdvisoryLockOwner :=
  match st.(ADVISORY_LOCK_WAITS) !! o with
  | None => []
  | Some wait =>
      match st.(ADVISORY_LOCKS) !! wait.(wait_key) with
      | None => []
      | Some entries =>
          map owner (List.filter (λ entry,
            match find_conflict [entry] wait.(wait_lock).(owner) (Some wait.(wait_lock))
                    wait.(wait_lock).(api) with
            | Some _ => true
            | None => false
            end) entries)
      end
  end.

(** The [while let Some(owner) = stack.pop()] search.  The head of [stack] is its top:
    successors are pushed one by one, so the last one is popped first.  [None]: out of
    fuel. *)
Fixpoint wait_chain_search (fuel : nat) (st : LockState) (target : AdvisoryLockOwner)
  (stack visited : list AdvisoryLockOwner) : option bool :=
  match fuel with
  | O => None
  | S fuel =>
      match stack with
      | [] => Some false
      | o :: stack =>
          if bool_decide (o = target) then Some true
          else if bool_decide (o ∈ visited) then wait_chain_search fuel st target stack visited
          else wait_chain_search fuel st target (rev (wait_successors st o) ++ stack)
                 (visited ++ [o])
      end
  end.

(** Every owner is expanded at most once, so the search pops at most once for the start
    and once for every lock an owner's wait can list. *)
Definition wait_chain_fuel (st : LockState) : nat :=
  S (S (sum_list_with (λ o, length (wait_successors st o))
          (elements (dom st.(ADVISORY_LOCK_WAITS))))).

Definition lock_wait_chain_reaches (st : LockState) (start_ target : AdvisoryLockOwner) : bool :=
  default false (wait_chain_search (wait_chain_fuel st) st target [start_] []).

(** ** System calls *)

Definition posix_lock (o : AdvisoryLockOwner) (request : ParsedFlockRequest)
  : option AdvisoryLock :=
  (λ t, mkLock AdvisoryLockApi.Posix o t request.(req_range)) <$> request.(req_type).

(** One pass of the loop of [fcntl_set_lock]. *)
Definition fcntl_set_lock_try (key : string) (o : AdvisoryLockOwner)
  (requested : ParsedFlockRequest) (blocking : bool) (st : LockState)
  : attempt LockState SyscallError Z :=
  let requested_lock := posix_lock o requested in
  let entries := default [] (st.(ADVISORY_LOCKS) !! key) in
  match find_conflict entries o requested_lock AdvisoryLockApi.Posix with
  | None =>
      let st := store_entries st key (apply_posix_lock entries o requested) in
      Return (Ok 0) (wake_lock_waiters (clear_lock_wait st o))
  | Some conflict =>
      let st := mkLockState (<[key := entries]> st.(ADVISORY_LOCKS))
                  st.(ADVISORY_LOCK_WAITS) st.(lock_wakeups) in
      if negb blocking then Return (Err SyscallError.TryAgain) st
      else match requested_lock with
           | Some lock =>
               if lock_wait_chain_reaches st conflict.(owner) o
               then Return (Err SyscallError.ResourceDeadlock) st
               else Sleep (set_lock_wait st o key lock)
           | None => Sleep st
           end
  end.

(** What follows [block_current_with_sig_check]. *)
Definition lock_on_wake (o : AdvisoryLockOwner) (st : LockState) (r : result ObjectError unit)
  : option SyscallError * LockState :=
  match r with
  | Ok _ => (None, st)
  | Err e => (Some (object_error_as_syscall_error e), clear_lock_wait st o)
  end.

Definition fcntl_set_lock {M} `{UserMemory M LinuxFlock} (current_pid : Z) (object : Object)
  (arg : Z) (ofd blocking : bool) (ws : list (wakeup LockState)) (mem : M) (st : LockState)
  : option (result SyscallError Z) * M * LockState :=
  if arg =? 0 then (Some (Err SyscallError.BadAddress), mem, st)
  else
    let '(flock, mem) := user_read (T := LinuxFlock) mem arg in
    match (flock ← flock;
           requested ← parse_flock_request flock object;
           key ← lock_key object;
           Ok (requested, key)) with
    | Err e => (Some (Err e), mem, st)
    | Ok (requested, key) =>
        let o := lock_owner current_pid object ofd in
        let '(r, st) := blocking_loop (fcntl_set_lock_try key o requested blocking)
                          (lock_on_wake o) ws st in
        (r, mem, st)
    end.

(** The reply of [fcntl_get_lock] for a conflicting lock. *)
Definition report_conflict (flock : LinuxFlock) (lock : AdvisoryLock) : LinuxFlock :=
  mkFlock
    (match lock.(lock_type) with
     | AdvisoryLockType.Read => F_RDLCK
     | AdvisoryLockType.Write => F_WRLCK
     end)
    SEEK_SET
    (swrap 64 lock.(range).(start))
    (match lock.(range).(end_) with
     | Some e => swrap 64 (sat_sub e lock.(range).(start))
     | None => 0
     end)
    (match lock.(owner) with
     | AdvisoryLockOwner.Process pid => swrap 32 pid
     | AdvisoryLockOwner.OpenFileDescription _ => -1
     end)
    flock.(fl_reserved).

Definition report_free (flock : LinuxFlock) : LinuxFlock :=
  mkFlock F_UNLCK flock.(fl_whence) flock.(fl_start) flock.(fl_len) flock.(fl_pid)
    flock.(fl_reserved).

Definition get_lock_reply (st : LockState) (key : string) (o : AdvisoryLockOwner)
  (flock : LinuxFlock) (requested : ParsedFlockRequest) : LinuxFlock :=
  match (entries ← st.(ADVISORY_LOCKS) !! key;
         find_conflict entries o (posix_lock o requested) AdvisoryLockApi.Posix) with
  | Some lock => report_conflict flock lock
  | None => report_free flock
  end.

Definition fcntl_get_lock {M} `{UserMemory M LinuxFlock} (current_pid : Z) (object : Object)
  (arg : Z) (ofd : bool) (mem : M) (st : LockState) : result SyscallError Z * M :=
  if arg =? 0 then (Err SyscallError.BadAddress, mem)
  else
    let '(flock, mem) := user_read (T := LinuxFlock) mem arg in
    match (flock ← flock;
           requested ← parse_flock_request flock object;
           key ← lock_key object;
           Ok (flock, requested, key)) with
    | Err e => (Err e, mem)
    | Ok (flock, requested, key) =>
        let o := lock_owner current_pid object ofd in
        let '(w, mem) := user_write mem arg (get_lock_reply st key o flock requested) in
        ((λ _, 0) <$> w, mem)
    end.

(** One pass of the loop of [flock_lock]. *)
Definition flock_try (key : string) (o : AdvisoryLockOwner)
  (requested_type : option AdvisoryLock) (blocking : bool) (st : LockState)
  : attempt LockState SyscallError Z :=
  let entries := default [] (st.(ADVISORY_LOCKS) !! key) in
  match find_conflict entries o requested_type AdvisoryLockApi.Flock with
  | None =>
      let entries := List.filter (λ entry,
        negb (bool_decide (entry.(api) = AdvisoryLockApi.Flock) &&
              bool_decide (entry.(owner) = o))) entries in
      let entries := entries ++ match requested_type with Some lock => [lock] | None => [] end in
      let st := store_entries st key entries in
      Return (Ok 0) (wake_lock_waiters (clear_lock_wait st o))
  | Some conflict =>
      let st := mkLockState (<[key := entries]> st.(ADVISORY_LOCKS))
                  st.(ADVISORY_LOCK_WAITS) st.(lock_wakeups) in
      if negb blocking then Return (Err SyscallError.TryAgain) st
      else match requested_type with
           | Some lock =>
               if lock_wait_chain_reaches st conflict.(owner) o
               then Return (Err SyscallError.ResourceDeadlock) st
               else Sleep (set_lock_wait st o key lock)
           | None => Sleep st
           end
  end.

Definition flock_request (o : AdvisoryLockOwner) (t : option AdvisoryLockType)
  : option AdvisoryLock :=
  (λ t, mkLock AdvisoryLockApi.Flock o t (mkRange 0 None)) <$> t.

Definition flock_lock (object : Object) (operation : Z) (ws : list (wakeup LockState))
  (st : LockState) : option (result SyscallError Z) * LockState :=
  match (t ← parse_flock_operation operation; key ← lock_key object; Ok (t, key)) with
  | Err e => (Some (Err e), st)
  | Ok (t, key) =>
      let o := AdvisoryLockOwner.OpenFileDescription (ofd_owner object) in
      let blocking := Z.land operation LOCK_NB =? 0 in
      blocking_loop (flock_try key o (flock_request o t) blocking) (lock_on_wake o) ws st
  end.

(** [release_process_lock] and [release_ofd_lock] are the same code for the two kinds of
    owner. *)
Definition release_owner_lock (key : string) (o : AdvisoryLockOwner) (st : LockState)
  : bool * LockState :=
  let st := clear_lock_wait st o in
  match st.(ADVISORY_LOCKS) !! key with
  | None => (false, st)
  | Some entries =>
      let kept := List.filter (λ entry, negb (bool_decide (entry.(owner) = o))) entries in
      (negb (length kept =? length entries)%nat, store_entries st key kept)
  end.

Definition release_process_lock (key : string) (pid : Z) (st : LockState) : bool * LockState :=
  release_owner_lock key (AdvisoryLockOwner.Process pid) st.

Definition release_ofd_lock (key : string) (o : Z) (st : LockState) : bool * LockState :=
  release_owner_lock key (AdvisoryLockOwner.OpenFileDescription o) st.

Definition release_fd_entry_locks (process_pid : Z) (entry : Object) (st : LockState)
  : LockState :=
  match lock_key entry with
  | Err _ => st
  | Ok key =>
      let '(changed, st) := release_process_lock key process_pid st in
      let '(changed, st) :=
        if entry.(obj_strong_count) =? 1
        then let '(changed', st) := release_ofd_lock key (ofd_owner entry) st in
             (changed || changed', st)
        else (changed, st) in
      if changed then wake_lock_waiters st else st
  end.

Definition release_process_fd_table_locks (process_pid : Z) (entries : list (option Object))
  (st : LockState) : LockState :=
  let '(changed, st) := foldl (λ acc entry,
    let '(changed, st) := acc in
    match lock_key entry with
    | Err _ => (changed, st)
    | Ok key =>
        let '(changed', st) := release_process_lock key process_pid st in
        (changed || changed', st)
    end) (false, st) (omap id entries) in
  if changed then wake_lock_waiters st else st.

(** ** Specification: which bytes are locked *)

Definition in_range (b : Z) (r : AdvisoryLockRange) : Prop :=
  r.(start) ≤ b < range_end_bound r.

(** Owner [o] holds byte [b] with type [t] in the lock list [l]. *)
Definition holds (l : list AdvisoryLock) (a : AdvisoryLockApi) (o : AdvisoryLockOwner)
  (t : AdvisoryLockType) (b : Z) : Prop :=
  ∃ e, e ∈ l ∧ e.(api) = a ∧ e.(owner) = o ∧ e.(lock_type) = t ∧ in_range b e.(range).

Definition u64_range (r : AdvisoryLockRange) : Prop :=
  is_uint 64 r.(start) ∧ (∀ e, r.(end_) = Some e → is_uint 64 e).

(** No byte is locked by two owners unless both only read it; one owner never has both
    types on one byte; positions are 64-bit. *)
Definition exclusive (l : list AdvisoryLock) : Prop :=
  ∀ a o1 o2 t1 t2 b, o1 ≠ o2 → holds l a o1 t1 b → holds l a o2 t2 b →
    t1 = AdvisoryLockType.Read ∧ t2 = AdvisoryLockType.Read.

Definition single_type (l : list AdvisoryLock) : Prop :=
  ∀ a o t1 t2 b, holds l a o t1 b → holds l a o t2 b → t1 = t2.

Definition good_entries (l : list AdvisoryLock) : Prop :=
  exclusive l ∧ single_type l ∧ Forall (λ e, u64_range e.(range)) l.

Definition lock_inv (st : LockState) : Prop :=
  ∀ key l, st.(ADVISORY_LOCKS) !! key = Some l → l ≠ [] ∧ good_entries l.

(** ** Lemmas: ranges *)

Lemma range_end_bound_le r : u64_range r → range_end_bound r ≤ U64_MAX.
Proof.
  intros [_ He]. unfold range_end_bound, U64_MAX. destruct r as [s [e|]]; cbn in *; [|lia].
  destruct (He e eq_refl). lia.
Qed.

Lemma in_range_overlap b r1 r2 : in_range b r1 → in_range b r2 → ranges_overlap r1 r2 = true.
Proof. unfold in_range, ranges_overlap. lia. Qed.

Lemma no_overlap_in_range b r1 r2 :
  ranges_overlap r1 r2 = false → in_range b r1 → ¬ in_range b r2.
Proof. intros Hn H1 H2. rewrite (in_range_overlap b) in Hn; done. Qed.

Lemma holds_nil a o t b : ¬ holds [] a o t b.
Proof. intros (e & He%elem_of_nil & _). done. Qed.

Lemma holds_app l k a o t b : holds (l ++ k) a o t b ↔ holds l a o t b ∨ holds k a o t b.
Proof.
  unfold holds. setoid_rewrite elem_of_app. split.
  - intros (e & [He|He] & H); [left|right]; eauto.
  - intros [(e & He & H)|(e & He & H)]; eauto 10.
Qed.

Lemma holds_singleton e a o t b :
  holds [e] a o t b ↔ e.(api) = a ∧ e.(owner) = o ∧ e.(lock_type) = t ∧ in_range b e.(range).
Proof.
  unfold holds. setoid_rewrite list_elem_of_singleton. split; [|by eauto].
  by intros (? & -> & H).
Qed.

Lemma holds_cons e l a o t b : holds (e :: l) a o t b ↔ holds [e] a o t b ∨ holds l a o t b.
Proof. apply (holds_app [e] l). Qed.

Lemma holds_perm l k a o t b : Permutation l k → holds l a o t b ↔ holds k a o t b.
Proof. intros Hp. unfold holds. by setoid_rewrite Hp. Qed.

Lemma holds_filter P l a o t b :
  holds (List.filter P l) a o t b ↔ ∃ e, e ∈ l ∧ P e = true ∧ holds [e] a o t b.
Proof.
  unfold holds at 1. split.
  - intros (e & He & H). apply list_elem_of_In, filter_In in He as [He HP].
    exists e. rewrite list_elem_of_In, holds_singleton. done.
  - intros (e & He & HP & H%holds_singleton). exists e. split; [|done].
    apply list_elem_of_In, filter_In. by rewrite <- list_elem_of_In.
Qed.

#[export] Hint Resolve range_end_bound_le : kernel.

(** ** Lemmas: subtraction *)

Lemma elem_of_subtract e rm e' :
  e' ∈ subtract_lock_range e rm ↔
  (ranges_overlap e.(range) rm = false ∧ e' = e) ∨
  (ranges_overlap e.(range) rm = true ∧ e.(range).(start) < rm.(start) ∧
   e' = with_range e (mkRange e.(range).(start) (Some rm.(start)))) ∨
  (ranges_overlap e.(range) rm = true ∧ ∃ re, rm.(end_) = Some re ∧
   (∀ x, e.(range).(end_) = Some x → re < x) ∧
   e' = with_range e (mkRange re e.(range).(end_))).
Proof.
  unfold subtract_lock_range. destruct (ranges_overlap _ _); cbn [negb].
  - rewrite elem_of_app, elem_of_if, Z.ltb_lt. split.
    + intros [[? ->]|Hr]; [by right; left|]. right. right. split; [done|].
      destruct rm.(end_) as [re|]; [|by apply elem_of_nil in Hr].
      apply elem_of_if in Hr as [Hc ->]. exists re. split; [done|]. split; [|done].
      intros x Hx. rewrite Hx in Hc. by apply Z.ltb_lt.
    + intros [[? _]|[(_ & ? & ->)|(_ & re & -> & Hx & ->)]]; [done|by left|right].
      apply elem_of_if. split; [|done]. destruct e.(range).(end_) as [x|]; [|done].
      apply Z.ltb_lt. by apply Hx.
  - rewrite list_elem_of_singleton. split; [by left|].
    by intros [[_ ?]|[(? & _)|(? & _)]].
Qed.

Lemma subtract_class e rm e' :
  e' ∈ subtract_lock_range e rm →
  e'.(api) = e.(api) ∧ e'.(owner) = e.(owner) ∧ e'.(lock_type) = e.(lock_type).
Proof. rewrite elem_of_subtract. intros [[_ ->]|[(_ & _ & ->)|(_ & re & _ & _ & ->)]]; done. Qed.

Lemma subtract_u64 e rm e' :
  u64_range e.(range) → u64_range rm → e' ∈ subtract_lock_range e rm → u64_range e'.(range).
Proof.
  intros He [Hrs Hre]. rewrite elem_of_subtract.
  intros [[_ ->]|[(_ & _ & ->)|(_ & re & Hr & _ & ->)]]; [done|split; cbn..].
  - exact (proj1 He).
  - by intros ? [= <-].
  - by apply Hre.
  - exact (proj2 He).
Qed.

Lemma holds_subtract e rm a o t b :
  u64_range e.(range) →
  holds (subtract_lock_range e rm) a o t b ↔ holds [e] a o t b ∧ ¬ in_range b rm.
Proof.
  intros Hu%range_end_bound_le. rewrite holds_singleton. split.
  - intros (e' & He' & <- & <- & <- & Hb).
    destruct (subtract_class _ _ _ He') as (-> & -> & ->). apply elem_of_subtract in He'.
    destruct He' as [[Hov ->]|[(Hov & Hlt & ->)|(Hov & re & Hre & Hx & ->)]].
    + eauto 10 using no_overlap_in_range.
    + unfold ranges_overlap, in_range, range_end_bound in *. cbn in *. boolify.
      split; [|lia]. split_and!; try done; lia.
    + unfold ranges_overlap, in_range, range_end_bound in *. rewrite Hre in *. cbn in *. boolify.
      split; [|lia]. split_and!; try done; [lia|].
      destruct e.(range).(end_) as [x|]; cbn in *; lia.
  - intros [(<- & <- & <- & Hb) Hn]. destruct (ranges_overlap e.(range) rm) eqn:Hov.
    + destruct (Z.lt_ge_cases b rm.(start)) as [Hlt|Hge].
      * exists (with_range e (mkRange e.(range).(start) (Some rm.(start)))).
        rewrite elem_of_subtract. unfold in_range, range_end_bound in *. cbn in *.
        split; [|by split_and!; try done; lia]. right. left.
        split; [done|]. split; [lia|done].
      * destruct rm.(end_) as [re|] eqn:Hre.
        -- exists (with_range e (mkRange re e.(range).(end_))). rewrite elem_of_subtract.
           assert (re ≤ b) by (unfold in_range, range_end_bound in *; rewrite Hre in *; cbn in *; lia).
           split; [|unfold in_range, range_end_bound in *; cbn in *; split_and!; try done; lia].
           right. right. split; [done|]. exists re. split; [done|]. split; [|done].
           intros x Hx. unfold in_range, range_end_bound in *. rewrite Hx in *. cbn in *. lia.
        -- exfalso. apply Hn. unfold in_range, range_end_bound in *. rewrite Hre in *. cbn in *. lia.
    + exists e. rewrite elem_of_subtract. auto 10.
Qed.

(** ** Lemmas: sorting and merging *)

Definition same_class (e1 e2 : AdvisoryLock) : Prop :=
  e1.(api) = e2.(api) ∧ e1.(owner) = e2.(owner) ∧ e1.(lock_type) = e2.(lock_type).

Definition key_le (e1 e2 : AdvisoryLock) : Prop := lex_leb (sort_key e1) (sort_key e2) = true.

Lemma key_le_start e1 e2 :
  key_le e1 e2 → same_class e1 e2 → e1.(range).(start) ≤ e2.(range).(start).
Proof.
  unfold key_le, sort_key. intros H (Ha & Ho & Ht). rewrite Ha, Ho, Ht in H.
  destruct (e2.(owner)); cbn in H; rewrite !Z.ltb_irrefl, !Z.eqb_refl in H; cbn in H; lia.
Qed.

Lemma can_merge_class e1 e2 :
  can_merge_posix_locks e1 e2 = true →
  same_class e1 e2 ∧ e2.(range).(start) ≤ range_end_bound e1.(range).
Proof. unfold can_merge_posix_locks, same_class. intros. boolify. split; [|done]. by repeat split; congruence. Qed.

Lemma range_end_bound_merge s r1 r2 :
  u64_range r1 → u64_range r2 →
  range_end_bound (mkRange s (merge_lock_ends r1.(end_) r2.(end_))) =
  Z.max (range_end_bound r1) (range_end_bound r2).
Proof.
  intros H1%range_end_bound_le H2%range_end_bound_le. unfold range_end_bound in *.
  destruct r1.(end_), r2.(end_); cbn in *; lia.
Qed.

Lemma merge_u64 s r1 r2 :
  is_uint 64 s → u64_range r1 → u64_range r2 →
  u64_range (mkRange s (merge_lock_ends r1.(end_) r2.(end_))).
Proof.
  intros Hs [_ H1] [_ H2]. split; [done|]. cbn.
  destruct r1.(end_) as [x|], r2.(end_) as [y|]; try done. intros e [= <-].
  destruct (Z.max_spec x y) as [[_ ->]|[_ ->]]; eauto.
Qed.

(** The state of the merge loop: the last output starts no later than any remaining entry
    it could absorb. *)
Definition merge_ready (merged rest : list AdvisoryLock) : Prop :=
  match merged with
  | [] => True
  | last :: _ => ∀ e, e ∈ rest → same_class last e → last.(range).(start) ≤ e.(range).(start)
  end.

Lemma merge_loop_spec rest merged a o t b :
  StronglySorted key_le rest → merge_ready merged rest →
  Forall (λ e, u64_range e.(range)) merged → Forall (λ e, u64_range e.(range)) rest →
  Forall (λ e, u64_range e.(range)) (foldl merge_step merged rest) ∧
  (holds (foldl merge_step merged rest) a o t b ↔ holds merged a o t b ∨ holds rest a o t b).
Proof.
  intros Hs. revert merged. induction Hs as [|e rest Hs IH He]; intros merged Hr Hm Hu.
  { split; [done|]. pose proof (holds_nil a o t b). cbn. tauto. }
  apply Forall_cons in Hu as [Hue Hu]. cbn [foldl].
  assert (∀ m, same_class m e → m.(range).(start) ≤ e.(range).(start) → ∀ m' ms,
    merge_ready (with_range m (mkRange m.(range).(start) m') :: ms) rest) as Hready.
  { intros m (Ha & Ho & Ht) Hle m' ms e' He' (Ha' & Ho' & Ht'). cbn in *.
    rewrite Forall_forall in He. specialize (He e' He'). apply key_le_start in He; [lia|].
    split; [congruence|]. split; congruence. }
  assert (merge_ready [e] rest) as Hready_e.
  { intros e' He' Hc. rewrite Forall_forall in He. by apply key_le_start; [apply He|]. }
  destruct merged as [|last ms].
  { destruct (IH [e]) as [IHu IHh]; [done|by constructor|done|]. cbn [merge_step].
    split; [done|]. rewrite IHh, (holds_cons e rest). pose proof (holds_nil a o t b). tauto. }
  apply Forall_cons in Hm as [Hul Hms]. cbn [merge_step].
  destruct (can_merge_posix_locks last e) eqn:Hc.
  - apply can_merge_class in Hc as [Hcl Hle].
    assert (last.(range).(start) ≤ e.(range).(start)) as Hst
      by (apply Hr; [constructor|done]).
    destruct (IH (with_range last (mkRange last.(range).(start)
      (merge_lock_ends last.(range).(end_) e.(range).(end_))) :: ms)) as [IHu IHh];
      [by apply Hready|constructor; [|done]; apply merge_u64; [exact (proj1 Hul)|done..]|done|].
    split; [done|]. rewrite IHh, (holds_cons _ ms), (holds_cons last ms), (holds_cons e rest),
      !holds_singleton.
    destruct Hcl as (Ha & Ho & Ht). unfold in_range. cbn [api owner lock_type range with_range start].
    rewrite range_end_bound_merge by done. rewrite <- Ha, <- Ho, <- Ht.
    assert (∀ s1 s2 x y : Z, s1 ≤ s2 → s2 ≤ x →
      (s1 ≤ b < x `max` y ↔ s1 ≤ b < x ∨ s2 ≤ b < y)) as Hmax by lia.
    rewrite (Hmax _ _ _ _ Hst Hle). tauto.
  - destruct (IH (e :: last :: ms)) as [IHu IHh]; [done|by constructor; [|constructor]|done|].
    split; [done|]. rewrite IHh, (holds_cons e (last :: ms)), (holds_cons e rest). tauto.
Qed.

Lemma sort_key_sorted l :
  StronglySorted key_le (sort_by (λ a b, lex_leb (sort_key a) (sort_key b)) l).
Proof. apply sort_by_sorted; intros; [apply lex_leb_total|by eapply lex_leb_trans]. Qed.

Lemma merge_posix_locks_spec l a o t b :
  Forall (λ e, u64_range e.(range)) l →
  Forall (λ e, u64_range e.(range)) (merge_posix_locks l) ∧
  (holds (merge_posix_locks l) a o t b ↔ holds l a o t b).
Proof.
  intros Hu. unfold merge_posix_locks. set (sorted := sort_by _ l).
  assert (Permutation sorted l) as Hp by apply sort_by_perm.
  destruct (merge_loop_spec sorted [] a o t b) as [H1 H2];
    [apply sort_key_sorted|done|constructor|by rewrite Hp|].
  split; [rewrite <- (Permutation_rev _); exact H1|].
  rewrite (holds_perm (rev _) _ a o t b (symmetry (Permutation_rev _))), H2.
  rewrite (holds_perm _ _ a o t b Hp). pose proof (holds_nil a o t b). tauto.
Qed.

(** ** Lemmas: applying a record-lock request *)

Definition split_entry (o : AdvisoryLockOwner) (r : AdvisoryLockRange) (entry : AdvisoryLock)
  : list AdvisoryLock :=
  if negb (bool_decide (entry.(api) = AdvisoryLockApi.Posix)) ||
     negb (bool_decide (entry.(owner) = o))
  then [entry] else subtract_lock_range entry r.

Lemma holds_split_entry o r e a o' t b :
  u64_range e.(range) →
  holds (split_entry o r e) a o' t b ↔
  holds [e] a o' t b ∧ ¬ (a = AdvisoryLockApi.Posix ∧ o' = o ∧ in_range b r).
Proof.
  intros Hu. unfold split_entry.
  destruct (decide (e.(api) = AdvisoryLockApi.Posix ∧ e.(owner) = o)) as [[Ha Ho]|Hn].
  - rewrite !bool_decide_true by done. cbn. rewrite holds_subtract by done.
    rewrite holds_singleton, Ha, Ho. split; intros [(<- & <- & <- & Hb) Hx].
    + split; [done|]. by intros (_ & _ & ?).
    + split; [done|]. intros ?. by apply Hx.
  - replace (_ || _) with true.
    + rewrite holds_singleton. split; [|tauto]. intros (<- & <- & H). split; [done|].
      intros (? & ? & _). by apply Hn.
    + symmetry. apply orb_true_iff. rewrite !negb_true_iff, !bool_decide_eq_false.
      destruct (decide (e.(api) = AdvisoryLockApi.Posix)); tauto.
Qed.

Lemma split_entry_u64 o r e :
  u64_range e.(range) → u64_range r → Forall (λ e, u64_range e.(range)) (split_entry o r e).
Proof.
  intros Hu Hr. unfold split_entry. destruct (_ || _); [by constructor|].
  apply Forall_forall. intros e' He'. by eapply subtract_u64.
Qed.

Lemma holds_split_all o r l a o' t b :
  Forall (λ e, u64_range e.(range)) l → u64_range r →
  Forall (λ e, u64_range e.(range)) (concat (map (split_entry o r) l)) ∧
  (holds (concat (map (split_entry o r) l)) a o' t b ↔
   holds l a o' t b ∧ ¬ (a = AdvisoryLockApi.Posix ∧ o' = o ∧ in_range b r)).
Proof.
  intros Hl Hr. induction Hl as [|e l He Hl [IHu IH]]; cbn.
  - split; [constructor|]. pose proof (holds_nil a o' t b). tauto.
  - split; [apply Forall_app; split; [by apply split_entry_u64|done]|].
    rewrite holds_app, IH, holds_split_entry, (holds_cons e l) by done. tauto.
Qed.

Lemma apply_posix_lock_spec l o req a o' t b :
  Forall (λ e, u64_range e.(range)) l → u64_range req.(req_range) →
  Forall (λ e, u64_range e.(range)) (apply_posix_lock l o req) ∧
  (holds (apply_posix_lock l o req) a o' t b ↔
   (a = AdvisoryLockApi.Posix ∧ o' = o ∧ in_range b req.(req_range) ∧ req.(req_type) = Some t) ∨
   (holds l a o' t b ∧
    ¬ (a = AdvisoryLockApi.Posix ∧ o' = o ∧ in_range b req.(req_range)))).
Proof.
  intros Hl Hr. unfold apply_posix_lock. fold (split_entry o req.(req_range)).
  destruct (holds_split_all o req.(req_range) l a o' t b Hl Hr) as [Hu Hh].
  set (new := match req.(req_type) with Some _ => _ | None => _ end).
  assert (Forall (λ e, u64_range e.(range)) new) as Hnew
    by (unfold new; destruct req.(req_type); [by constructor|constructor]).
  assert (holds new a o' t b ↔ a = AdvisoryLockApi.Posix ∧ o' = o ∧ in_range b req.(req_range) ∧
    req.(req_type) = Some t) as Hn.
  { unfold new. destruct req.(req_type) as [t'|].
    - rewrite holds_singleton. cbn. intuition congruence.
    - pose proof (holds_nil a o' t b). intuition congruence. }
  destruct (merge_posix_locks_spec (concat (map (split_entry o req.(req_range)) l) ++ new)
    a o' t b) as [Hmu Hmh]; [by apply Forall_app|].
  split; [exact Hmu|]. change (concat (map _ l)) with (concat (map (split_entry o req.(req_range)) l)).
  rewrite Hmh, holds_app, Hh, Hn. tauto.
Qed.

(** ** Lemmas: conflicts *)

Lemma conflicts_with_spec a o req e :
  conflicts_with a o req e = true ↔
  e.(api) = a ∧ e.(owner) ≠ o ∧ ranges_overlap e.(range) req.(range) = true ∧
  ¬ (req.(lock_type) = AdvisoryLockType.Read ∧ e.(lock_type) = AdvisoryLockType.Read).
Proof.
  unfold conflicts_with. repeat case_bool_decide; cbn [negb]; try tauto; try (split; [done|tauto]).
  destruct (ranges_overlap _ _); cbn [negb]; [|split; [done|tauto]].
  destruct req.(lock_type), e.(lock_type); split; try done; try tauto; intros _;
    split_and!; try done; by intros [? ?].
Qed.

Lemma find_conflict_none l o req a :
  find_conflict l o (Some req) a = None →
  ∀ e, e ∈ l → conflicts_with a o req e = false.
Proof.
  cbn. intros Hn%min_by_none e He. apply not_true_iff_false. intros Hc.
  assert (e ∈ List.filter (conflicts_with a o req) l) as Hin
    by (apply list_elem_of_In, filter_In; by rewrite <- list_elem_of_In).
  rewrite Hn in Hin. by apply elem_of_nil in Hin.
Qed.

Lemma find_conflict_some l o req a c :
  find_conflict l o (Some req) a = Some c →
  c ∈ l ∧ conflicts_with a o req c = true ∧
  ∀ e, e ∈ l → conflicts_with a o req e = true →
    lex_leb (conflict_key c) (conflict_key e) = true.
Proof.
  unfold find_conflict. intros Hm. apply min_by_some in Hm as [Hin Hmin];
    [|intros; apply lex_leb_total|intros; eapply lex_leb_trans; eassumption].
  apply list_elem_of_In, filter_In in Hin as [Hin Hc].
  split; [by apply list_elem_of_In|]. split; [done|]. intros e He Hce. apply Hmin.
  apply list_elem_of_In, filter_In. by rewrite <- list_elem_of_In.
Qed.

(** Without a conflict, whatever another owner holds on a requested byte is shared. *)
Lemma no_conflict_holds l o req a o' t' b :
  find_conflict l o (Some req) a = None → o' ≠ o → in_range b req.(range) →
  holds l a o' t' b → req.(lock_type) = AdvisoryLockType.Read ∧ t' = AdvisoryLockType.Read.
Proof.
  intros Hn Ho Hb (e & He & Ha & <- & <- & Hbe).
  pose proof (find_conflict_none _ _ _ _ Hn e He) as Hc.
  assert (ranges_overlap e.(range) req.(range) = true) as Hov by by eapply in_range_overlap.
  assert (¬ ¬ (req.(lock_type) = AdvisoryLockType.Read ∧ e.(lock_type) = AdvisoryLockType.Read)) as H.
  { intros Hx. apply not_true_iff_false in Hc. apply Hc, conflicts_with_spec. done. }
  destruct req.(lock_type), e.(lock_type); try done; exfalso; apply H; by intros [? ?].
Qed.

(** A list that differs from a good one by one granted lock, and possibly by dropping what
    its owner held there, is good. *)
Lemma good_grant l l' a o (req : option AdvisoryLock) :
  good_entries l →
  (∀ lock, req = Some lock → lock.(api) = a ∧ lock.(owner) = o) →
  find_conflict l o req a = None →
  Forall (λ e, u64_range e.(range)) l' →
  (∀ a' o' t b, holds l' a' o' t b →
     (∃ lock, req = Some lock ∧ holds [lock] a' o' t b) ∨
     (holds l a' o' t b ∧
      ∀ lock, req = Some lock → a' = a → o' = o → ¬ in_range b lock.(range))) →
  good_entries l'.
Proof.
  intros (Hex & Hst & _) Hreq Hn Hu Hh. split; [|split; [|done]].
  - intros a' o1 o2 t1 t2 b Hne H1 H2.
    apply Hh in H1 as [(lock & Hl & H1)|[H1 _]]; apply Hh in H2 as [(lock2 & Hl2 & H2)|[H2 _]].
    + apply holds_singleton in H1 as (_ & Ho1 & _), H2 as (_ & Ho2 & _). congruence.
    + apply holds_singleton in H1 as (<- & <- & <- & Hb). destruct (Hreq _ Hl) as [Ha Ho].
      rewrite Hl in Hn. eapply no_conflict_holds; [exact Hn| |exact Hb|by rewrite <- Ha]. congruence.
    + apply holds_singleton in H2 as (<- & <- & <- & Hb). destruct (Hreq _ Hl2) as [Ha Ho].
      rewrite Hl2 in Hn. apply and_comm.
      eapply no_conflict_holds; [exact Hn| |exact Hb|by rewrite <- Ha]. congruence.
    + by eapply Hex.
  - intros a' o' t1 t2 b H1 H2.
    apply Hh in H1 as [(lock & Hl & H1)|[H1 Hn1]]; apply Hh in H2 as [(lock2 & Hl2 & H2)|[H2 Hn2]].
    + apply holds_singleton in H1 as (_ & _ & Ht1 & _), H2 as (_ & _ & Ht2 & _). congruence.
    + apply holds_singleton in H1 as (Ha & Ho & _ & Hb). destruct (Hreq _ Hl).
      exfalso. apply (Hn2 _ Hl); [congruence..|done].
    + apply holds_singleton in H2 as (Ha & Ho & _ & Hb). destruct (Hreq _ Hl2).
      exfalso. apply (Hn1 _ Hl2); [congruence..|done].
    + by eapply Hst.
Qed.

Lemma good_nil : good_entries [].
Proof.
  split_and!; [| |constructor].
  - intros a o1 o2 t1 t2 b _ H _. by apply holds_nil in H.
  - intros a o t1 t2 b H _. by apply holds_nil in H.
Qed.

Lemma good_filter P l : good_entries l → good_entries (List.filter P l).
Proof.
  intros (Hex & Hst & Hu).
  assert (∀ a o t b, holds (List.filter P l) a o t b → holds l a o t b) as Hsub.
  { intros a o t b (e & He & _ & H%holds_singleton)%holds_filter. by exists e. }
  split_and!.
  - intros a o1 o2 t1 t2 b Hne H1 H2. by eapply Hex; [|apply Hsub..].
  - intros a o t1 t2 b H1 H2. by eapply Hst; apply Hsub.
  - rewrite Forall_forall in *. intros e He. apply Hu.
    apply list_elem_of_In, filter_In in He as [He _]. by apply list_elem_of_In.
Qed.

(** ** Lemmas: states *)

(** With a conflict there is a list for the key, and putting it back changes nothing. *)
Lemma conflict_state st key o req a c :
  find_conflict (default [] (st.(ADVISORY_LOCKS) !! key)) o req a = Some c →
  mkLockState (<[key := default [] (st.(ADVISORY_LOCKS) !! key)]> st.(ADVISORY_LOCKS))
    st.(ADVISORY_LOCK_WAITS) st.(lock_wakeups) = st.
Proof.
  destruct req as [req|]; [|done]. intros Hc. apply find_conflict_some in Hc as [Hin _].
  destruct st as [locks waits n]. cbn in *. destruct (locks !! key) as [l|] eqn:Hl; cbn in *.
  - by rewrite insert_id.
  - by apply elem_of_nil in Hin.
Qed.

Lemma lookup_store_entries st key l key' :
  (store_entries st key l).(ADVISORY_LOCKS) !! key' =
  if decide (key = key') then match l with [] => None | _ => Some l end
  else st.(ADVISORY_LOCKS) !! key'.
Proof.
  unfold store_entries. cbn. case_decide as Hk; destruct l; subst;
    rewrite ?lookup_delete_eq, ?lookup_insert_eq, ?lookup_delete_ne, ?lookup_insert_ne by done; done.
Qed.

Lemma store_entries_inv st key l :
  lock_inv st → good_entries l → lock_inv (store_entries st key l).
Proof.
  intros Hi Hl key' l' Hk. rewrite lookup_store_entries in Hk.
  case_decide; [|by eapply Hi]. destruct l; by simplify_eq.
Qed.

Lemma lock_inv_entries st key : lock_inv st → good_entries (default [] (st.(ADVISORY_LOCKS) !! key)).
Proof.
  intros Hi. destruct (st.(ADVISORY_LOCKS) !! key) as [l|] eqn:Hl; cbn; [|apply good_nil].
  by eapply Hi.
Qed.

Lemma parse_flock_request_u64 flock object req :
  parse_flock_request flock object = Ok req → u64_range req.(req_range).
Proof.
  unfold parse_flock_request. destruct (resolve_flock_range _ _) as [r|] eqn:Hr; cbn; [|done].
  intros H. assert (req.(req_range) = r) as -> by (destruct_all; done). clear H.
  unfold resolve_flock_range in Hr.
  match type of Hr with (?x ≫= _) = _ => destruct x as [base|]; cbn in Hr; [|done] end.
  unfold checked_add_signed, checked_add, checked_sub, ok_or in Hr.
  destruct_all; boolify; unfold u64_range, is_uint; cbn;
    (split; [lia|intros ? [= <-]; lia]) || (split; [lia|done]).
Qed.

Lemma apply_posix_lock_good l o req :
  good_entries l → u64_range req.(req_range) →
  find_conflict l o (posix_lock o req) AdvisoryLockApi.Posix = None →
  good_entries (apply_posix_lock l o req).
Proof.
  intros Hl Hr Hn.
  assert (Forall (λ e, u64_range e.(range)) l) as Hu by apply Hl.
  eapply (good_grant l _ AdvisoryLockApi.Posix o); [done| |exact Hn| |].
  - unfold posix_lock. by intros lock [t [_ ->]]%fmap_Some.
  - by apply (apply_posix_lock_spec l o req AdvisoryLockApi.Posix o AdvisoryLockType.Read 0).
  - intros a o' t b Hb. apply apply_posix_lock_spec in Hb as [(-> & -> & Hb & Ht)|[Hb Hx]]; [| |done..].
    + left. exists (mkLock AdvisoryLockApi.Posix o t req.(req_range)).
      split; [unfold posix_lock; by rewrite Ht|by apply holds_singleton].
    + right. split; [done|]. unfold posix_lock. intros lock [t' [_ ->]]%fmap_Some -> ->. cbn.
      intros ?. by apply Hx.
Qed.

Definition flock_entries (l : list AdvisoryLock) (o : AdvisoryLockOwner) (req : option AdvisoryLock)
  : list AdvisoryLock :=
  List.filter (λ entry, negb (bool_decide (entry.(api) = AdvisoryLockApi.Flock) &&
                              bool_decide (entry.(owner) = o))) l ++
  match req with Some lock => [lock] | None => [] end.

Lemma flock_entries_holds l o t a o' t' b :
  holds (flock_entries l o (flock_request o t)) a o' t' b ↔
  (∃ lock, flock_request o t = Some lock ∧ holds [lock] a o' t' b) ∨
  (holds l a o' t' b ∧ ¬ (a = AdvisoryLockApi.Flock ∧ o' = o)).
Proof.
  unfold flock_entries. rewrite holds_app, holds_filter.
  assert ((∃ e, e ∈ l ∧ negb (bool_decide (e.(api) = AdvisoryLockApi.Flock) &&
    bool_decide (e.(owner) = o)) = true ∧ holds [e] a o' t' b) ↔
    holds l a o' t' b ∧ ¬ (a = AdvisoryLockApi.Flock ∧ o' = o)) as ->.
  - split.
    + intros (e & He & Hc & H). apply holds_singleton in H as (<- & <- & <- & Hb).
      split; [by exists e|]. intros [Ha Ho]. by rewrite !bool_decide_true in Hc.
    + intros [(e & He & <- & <- & <- & Hb) Hn]. exists e. split; [done|].
      split; [|by apply holds_singleton].
      apply negb_true_iff, not_true_iff_false. rewrite andb_true_iff, !bool_decide_eq_true. done.
  - destruct (flock_request o t) as [lock|].
    + split; [intros [?|?]; eauto|intros [(? & [= <-] & ?)|?]; auto].
    + pose proof (holds_nil a o' t' b). split; [tauto|]. intros [(? & [=] & _)|?]. by left.
Qed.

Lemma flock_entries_good l o t :
  good_entries l → find_conflict l o (flock_request o t) AdvisoryLockApi.Flock = None →
  good_entries (flock_entries l o (flock_request o t)).
Proof.
  intros Hl Hn. eapply (good_grant l _ AdvisoryLockApi.Flock o); [done| |exact Hn| |].
  - by intros lock [? [_ ->]]%fmap_Some.
  - unfold flock_entries. apply Forall_app. split; [by apply good_filter|].
    destruct t as [t|]; cbn; [|constructor]. constructor; [|constructor]. cbn.
    split; [by split|]. by intros.
  - intros a o' t' b [?|[Hb Hx]]%flock_entries_holds; [by left|right].
    split; [done|]. intros lock _ -> -> _. by apply Hx.
Qed.

(** ** The lock table under interleaved calls *)

(** One atomic section of some thread: a pass of a locking call, what follows a wake-up, a
    release, a wake-up of the waiters. *)
Inductive lock_step (st : LockState) : LockState → Prop :=
  | step_fcntl flock object key o req blocking r st' :
      parse_flock_request flock object = Ok req →
      fcntl_set_lock_try key o req blocking st = Return r st' → lock_step st st'
  | step_fcntl_sleep flock object key o req blocking st' :
      parse_flock_request flock object = Ok req →
      fcntl_set_lock_try key o req blocking st = Sleep st' → lock_step st st'
  | step_flock key o t blocking r st' :
      flock_try key o (flock_request o t) blocking st = Return r st' → lock_step st st'
  | step_flock_sleep key o t blocking st' :
      flock_try key o (flock_request o t) blocking st = Sleep st' → lock_step st st'
  | step_wake o r : lock_step st (lock_on_wake o st r).2
  | step_release key o : lock_step st (release_owner_lock key o st).2
  | step_notify : lock_step st (wake_lock_waiters st).

Definition lock_init : LockState := mkLockState ∅ ∅ 0.

Lemma fcntl_try_inv key o req blocking st :
  u64_range req.(req_range) → lock_inv st →
  match fcntl_set_lock_try key o req blocking st with Return _ st' | Sleep st' => lock_inv st' end.
Proof.
  intros Hu Hi. unfold fcntl_set_lock_try.
  destruct (find_conflict _ _ _ _) as [c|] eqn:Hc.
  - rewrite (conflict_state _ _ _ _ _ _ Hc). by destruct_all.
  - apply (store_entries_inv st key _ Hi). apply apply_posix_lock_good; [|done..].
    by apply lock_inv_entries.
Qed.

Lemma flock_try_inv key o t blocking st :
  lock_inv st →
  match flock_try key o (flock_request o t) blocking st with
  | Return _ st' | Sleep st' => lock_inv st' end.
Proof.
  intros Hi. unfold flock_try.
  destruct (find_conflict _ _ _ _) as [c|] eqn:Hc.
  - rewrite (conflict_state _ _ _ _ _ _ Hc). by destruct_all.
  - apply (store_entries_inv st key _ Hi).
    apply (flock_entries_good _ o t); [by apply lock_inv_entries|done].
Qed.

Lemma lock_step_inv st st' : lock_step st st' → lock_inv st → lock_inv st'.
Proof.
  intros Hs Hi. destruct Hs as [flock object key o req blocking r st' Hp Ht
    |flock object key o req blocking st' Hp Ht|key o t blocking r st' Ht|key o t blocking st' Ht
    |o r|key o|].
  - apply parse_flock_request_u64 in Hp. pose proof (fcntl_try_inv key o req blocking st Hp Hi) as H.
    by rewrite Ht in H.
  - apply parse_flock_request_u64 in Hp. pose proof (fcntl_try_inv key o req blocking st Hp Hi) as H.
    by rewrite Ht in H.
  - pose proof (flock_try_inv key o t blocking st Hi) as H. by rewrite Ht in H.
  - pose proof (flock_try_inv key o t blocking st Hi) as H. by rewrite Ht in H.
  - by destruct r.
  - unfold release_owner_lock. cbn [clear_lock_wait ADVISORY_LOCKS].
    destruct (_ !! key) as [l|] eqn:Hl; [|done]. apply (store_entries_inv (clear_lock_wait st o)); [done|].
    apply good_filter. by eapply Hi.
  - done.
Qed.

(** ** The deadlock search *)

(** [o] waits for [p]: [o]'s recorded request conflicts with a lock that [p] holds. *)
Definition waits_for (st : LockState) (o p : AdvisoryLockOwner) : Prop :=
  ∃ wait entries e,
    st.(ADVISORY_LOCK_WAITS) !! o = Some wait ∧
    st.(ADVISORY_LOCKS) !! wait.(wait_key) = Some entries ∧
    e ∈ entries ∧ e.(owner) = p ∧
    conflicts_with wait.(wait_lock).(api) wait.(wait_lock).(owner) wait.(wait_lock) e = true.

Lemma elem_of_wait_successors st o p : p ∈ wait_successors st o ↔ waits_for st o p.
Proof.
  unfold wait_successors, waits_for.
  destruct (st.(ADVISORY_LOCK_WAITS) !! o) as [w|]; [|split;
    [by intros ?%elem_of_nil|by intros (? & ? & ? & ? & _)]].
  destruct (st.(ADVISORY_LOCKS) !! w.(wait_key)) as [l|] eqn:Hl; [|split;
    [by intros ?%elem_of_nil|intros (? & ? & ? & ? & ? & _); congruence]].
  rewrite list_elem_of_fmap. split.
  - intros (e & -> & [He Hc]%list_elem_of_In%filter_In). exists w, l, e.
    rewrite list_elem_of_In. split_and!; try done. cbn in Hc. by destruct (conflicts_with _ _ _ e).
  - intros (w' & l' & e & [= <-] & Hl' & He & <- & Hc). simplify_eq.
    exists e. split; [done|]. apply list_elem_of_In, filter_In. rewrite <- list_elem_of_In.
    split; [done|]. cbn. by rewrite Hc.
Qed.

Section chain.
Context (st : LockState) (target : AdvisoryLockOwner).
Implicit Types stack visited : list AdvisoryLockOwner.

(** Pushes still to come: the successors of the waiting owners not yet expanded. *)
Definition pending_pushes (ds visited : list AdvisoryLockOwner) : nat :=
  sum_list_with (λ o, length (wait_successors st o))
    (List.filter (λ o, negb (bool_decide (o ∈ visited))) ds).

Lemma pending_pushes_visit ds visited o :
  NoDup ds → o ∉ visited →
  pending_pushes ds visited =
  ((if bool_decide (o ∈ ds) then length (wait_successors st o) else 0) +
   pending_pushes ds (visited ++ [o]))%nat.
Proof.
  intros Hnd Ho. unfold pending_pushes. induction Hnd as [|x ds Hx Hnd IH]; cbn.
  { by rewrite bool_decide_false by apply not_elem_of_nil. }
  destruct (decide (x = o)) as [->|Hne].
  - rewrite (bool_decide_false (o ∈ visited)), (bool_decide_true (o ∈ visited ++ [o])),
      (bool_decide_true (o ∈ o :: ds))
      by (rewrite ?elem_of_app, ?elem_of_cons; auto).
    rewrite bool_decide_false in IH by done. cbn. lia.
  - rewrite (bool_decide_ext (x ∈ visited ++ [o]) (x ∈ visited)),
      (bool_decide_ext (o ∈ x :: ds) (o ∈ ds))
      by (rewrite ?elem_of_app, ?list_elem_of_singleton, ?elem_of_cons; intuition congruence).
    destruct (bool_decide (x ∈ visited)); cbn; lia.
Qed.

Lemma wait_successors_nil o : o ∉ dom st.(ADVISORY_LOCK_WAITS) → wait_successors st o = [].
Proof. intros Ho%not_elem_of_dom. unfold wait_successors. by rewrite Ho. Qed.

Lemma wait_chain_search_total fuel stack visited :
  (length stack + pending_pushes (elements (dom st.(ADVISORY_LOCK_WAITS))) visited < fuel)%nat →
  is_Some (wait_chain_search fuel st target stack visited).
Proof.
  revert stack visited. induction fuel as [|fuel IH]; intros stack visited Hf; [lia|]. cbn.
  destruct stack as [|o stack]; [by eexists|]. cbn in Hf.
  case_bool_decide; [by eexists|]. case_bool_decide as Hv; [apply IH; lia|].
  apply IH. rewrite length_app, length_rev.
  rewrite (pending_pushes_visit _ visited o) in Hf by (done || apply NoDup_elements).
  case_bool_decide as Hd; [lia|]. rewrite wait_successors_nil by set_solver. cbn. lia.
Qed.

Lemma wait_chain_search_true fuel stack visited :
  wait_chain_search fuel st target stack visited = Some true →
  ∃ o, o ∈ stack ∧ rtc (waits_for st) o target.
Proof.
  revert stack visited. induction fuel as [|fuel IH]; intros stack visited; cbn; [done|].
  destruct stack as [|o stack]; [done|].
  case_bool_decide; [intros _; exists o; subst; split; [constructor|done]|].
  case_bool_decide.
  - intros (p & Hp & Hr)%IH. exists p. split; [by constructor|done].
  - intros (p & Hp & Hr)%IH. apply elem_of_app in Hp as [Hp|Hp]; [|exists p; split; [by constructor|done]].
    exists o. split; [constructor|]. apply rtc_l with p; [|done].
    by apply elem_of_wait_successors, list_elem_of_In, in_rev, list_elem_of_In.
Qed.

(** What is left of the search covers everything expanded so far. *)
Definition chain_closed (stack visited : list AdvisoryLockOwner) : Prop :=
  ∀ v, v ∈ visited → v ≠ target ∧ ∀ p, waits_for st v p → p ∈ visited ∨ p ∈ stack.

Lemma wait_chain_search_false fuel stack visited :
  chain_closed stack visited →
  wait_chain_search fuel st target stack visited = Some false →
  ∀ o, o ∈ stack ∨ o ∈ visited → ¬ rtc (waits_for st) o target.
Proof.
  revert stack visited. induction fuel as [|fuel IH]; intros stack visited Hcl; cbn; [done|].
  destruct stack as [|o stack].
  - intros _ o [Ho%elem_of_nil|Ho] Hr; [done|].
    assert (∀ x y, rtc (waits_for st) x y → x ∈ visited → y ≠ target) as Hx; [|by eapply Hx].
    clear Hr Ho. induction 1 as [x|x y z Hxy _ IHr]; intros Hx; [by destruct (Hcl x Hx)|].
    apply IHr. destruct (Hcl x Hx) as [_ Hs].
    destruct (Hs y Hxy) as [?|?%elem_of_nil]; done.
  - case_bool_decide as Ht; [done|]. case_bool_decide as Hv; intros Hf p Hp.
    + apply (IH stack visited); [|done|].
      * intros v Hvis. destruct (Hcl v Hvis) as [? Hs]. split; [done|]. intros q Hq.
        destruct (Hs q Hq) as [?|[->|?]%elem_of_cons]; auto.
      * destruct Hp as [[->|?]%elem_of_cons|?]; auto.
    + assert (∀ q, q ∈ rev (wait_successors st o) ↔ waits_for st o q) as Hrev.
      { intros q. by rewrite list_elem_of_In, <- in_rev, <- list_elem_of_In, elem_of_wait_successors. }
      apply (IH (rev (wait_successors st o) ++ stack) (visited ++ [o])); [|done|].
      * intros v [Hvis| ->%list_elem_of_singleton]%elem_of_app.
        -- destruct (Hcl v Hvis) as [? Hs]. split; [done|]. intros q Hq.
           rewrite !elem_of_app, list_elem_of_singleton.
           destruct (Hs q Hq) as [?|[->|?]%elem_of_cons]; auto.
        -- split; [done|]. intros q Hq. right. apply elem_of_app. left. by apply Hrev.
      * rewrite !elem_of_app, list_elem_of_singleton.
        destruct Hp as [[->|?]%elem_of_cons|?]; auto.
Qed.
End chain.

Lemma wait_chain_search_result st start_ target :
  ∃ b, wait_chain_search (wait_chain_fuel st) st target [start_] [] = Some b ∧
    (b = true ↔ rtc (waits_for st) start_ target).
Proof.
  destruct (wait_chain_search_total st target (wait_chain_fuel st) [start_] []) as [b Hb].
  { unfold wait_chain_fuel, pending_pushes. cbn [length].
    rewrite forallb_filter_id; [lia|]. apply forallb_forall. intros x _.
    by rewrite bool_decide_false by apply not_elem_of_nil. }
  exists b. split; [done|]. destruct b.
  - split; [|done]. intros _. apply wait_chain_search_true in Hb as (o & ->%list_elem_of_singleton & H). done.
  - split; [done|]. intros Hr. exfalso.
    eapply wait_chain_search_false; [|exact Hb| |exact Hr]; [|left; constructor].
    by intros v ?%elem_of_nil.
Qed.

(** ** Properties *)

(** C10. In every state reached from the empty tables by interleaved passes of [fcntl] and
    [flock] locking calls, wake-ups and releases, two owners never hold the same byte
    through the same interface unless both only read it, an owner never holds a byte with
    two types, and no empty list is kept. *)
Theorem advisory_locks_exclusive st : rtc lock_step lock_init st → lock_inv st.
Proof.
  intros Hr. assert (lock_inv lock_init) as Hi by by intros key l.
  induction Hr as [|x y z Hxy _ IH]; [done|]. by apply IH, (lock_step_inv x).
Qed.

Definition ex_flock (t s l : Z) : LinuxFlock := mkFlock t 0 s l 0 0.
Definition ex_object : Object := mkObject 4096 1 None (Ok 0) (Ok 0).
Definition ex_p (n : Z) : AdvisoryLockOwner := AdvisoryLockOwner.Process n.

(** Owner 1 write-locks bytes 0..9 and releases 3..5 again. *)
Lemma advisory_locks_exclusive_witness :
  ∃ st, st.(ADVISORY_LOCKS) !! "f" = Some
    [mkLock AdvisoryLockApi.Posix (ex_p 1) AdvisoryLockType.Write (mkRange 0 (Some 3));
     mkLock AdvisoryLockApi.Posix (ex_p 1) AdvisoryLockType.Write (mkRange 6 (Some 10))] ∧
    lock_inv st.
Proof.
  eexists. split; cycle 1.
  - apply advisory_locks_exclusive. eapply rtc_l.
    { eapply (step_fcntl _ (ex_flock F_WRLCK 0 10) ex_object "f" (ex_p 1) _ true);
        vm_compute; reflexivity. }
    eapply rtc_l; [|apply rtc_refl].
    eapply (step_fcntl _ (ex_flock F_UNLCK 3 3) ex_object "f" (ex_p 1) _ true);
      vm_compute; reflexivity.
  - reflexivity.
Defined.

(** C28. A granted [F_SETLK]: on the requested bytes the owner then holds exactly the
    requested type (nothing for [F_UNLCK]); every other lock of the file, and every other
    file, is as before, and the owner is no longer recorded as waiting. *)
Theorem fcntl_set_lock_grants st st' key o req blocking r :
  lock_inv st → u64_range req.(req_range) →
  fcntl_set_lock_try key o req blocking st = Return (Ok r) st' →
  (∀ a o' t b, holds (default [] (st'.(ADVISORY_LOCKS) !! key)) a o' t b ↔
     (a = AdvisoryLockApi.Posix ∧ o' = o ∧ in_range b req.(req_range) ∧ req.(req_type) = Some t) ∨
     (holds (default [] (st.(ADVISORY_LOCKS) !! key)) a o' t b ∧
      ¬ (a = AdvisoryLockApi.Posix ∧ o' = o ∧ in_range b req.(req_range)))) ∧
  (∀ key', key' ≠ key → st'.(ADVISORY_LOCKS) !! key' = st.(ADVISORY_LOCKS) !! key') ∧
  st'.(ADVISORY_LOCK_WAITS) = delete o st.(ADVISORY_LOCK_WAITS).
Proof.
  intros Hi Hu. unfold fcntl_set_lock_try. destruct (find_conflict _ _ _ _) eqn:Hc.
  { by destruct_all. }
  intros [= _ <-]. cbn [wake_lock_waiters clear_lock_wait ADVISORY_LOCKS ADVISORY_LOCK_WAITS].
  split; [|split; [|done]].
  - intros a o' t b. rewrite lookup_store_entries, decide_True by done.
    replace (default [] _) with (apply_posix_lock (default [] (ADVISORY_LOCKS st !! key)) o req)
      by by destruct (apply_posix_lock _ _ _).
    apply apply_posix_lock_spec; [|done]. apply lock_inv_entries. done.
  - intros key' Hk. rewrite lookup_store_entries. by rewrite decide_False.
Qed.

Lemma fcntl_set_lock_grants_witness :
  let req := mkRequest (Some AdvisoryLockType.Write) (mkRange 0 (Some 10)) in
  ∃ st', fcntl_set_lock_try "f" (ex_p 1) req false lock_init = Return (Ok 0) st' ∧
    holds (default [] (st'.(ADVISORY_LOCKS) !! "f")) AdvisoryLockApi.Posix (ex_p 1)
      AdvisoryLockType.Write 9.
Proof.
  eexists. split; [reflexivity|].
  apply (fcntl_set_lock_grants lock_init _ "f" (ex_p 1)
    (mkRequest (Some AdvisoryLockType.Write) (mkRange 0 (Some 10))) false 0).
  - by intros key l.
  - split; cbn; [done|]. by intros e [= <-].
  - reflexivity.
  - left. split_and!; done.
Defined.

(** [F_GETLK] answers [F_UNLCK] exactly when the same request made with [F_SETLK] would
    be granted at once. *)
Lemma get_lock_predicts_set_lock st key o flock object req :
  parse_flock_request flock object = Ok req →
  (get_lock_reply st key o flock req).(fl_type) = F_UNLCK ↔
  ∃ st', fcntl_set_lock_try key o req false st = Return (Ok 0) st'.
Proof.
  intros _. unfold get_lock_reply, fcntl_set_lock_try.
  destruct (st.(ADVISORY_LOCKS) !! key) as [l|]; cbn [mbind option_bind from_option id].
  - destruct (find_conflict l _ _ _) as [c|]; [|split; [by eexists|done]].
    cbn [report_conflict fl_type]. destruct c.(lock_type); split; (done || by intros (? & ?)).
  - assert (find_conflict [] o (posix_lock o req) AdvisoryLockApi.Posix = None) as ->
      by by destruct (posix_lock o req).
    split; [by eexists|done].
Qed.

Lemma get_lock_predicts_set_lock_witness :
  ∃ st', fcntl_set_lock_try "f" (ex_p 2)
    (mkRequest (Some AdvisoryLockType.Read) (mkRange 3 None)) false lock_init = Return (Ok 0) st'.
Proof.
  apply (get_lock_predicts_set_lock lock_init "f" (ex_p 2) (ex_flock F_RDLCK 3 0) ex_object);
    reflexivity.
Defined.

(** C29. The wait-for search always ends within its fuel, and it answers whether the target
    is reachable from the start through owners that wait for one another. *)
Theorem lock_wait_chain_reaches_spec st o target :
  is_Some (wait_chain_search (wait_chain_fuel st) st target [o] []) ∧
  (lock_wait_chain_reaches st o target = true ↔ rtc (waits_for st) o target).
Proof.
  destruct (wait_chain_search_result st o target) as (b & Hb & Hr).
  unfold lock_wait_chain_reaches. rewrite Hb. split; [by eexists|done].
Qed.

(** A refused request changes no lock. Against the lowest conflicting lock [c], a non-blocking
    request fails with [EAGAIN]; a blocking one fails with [EDEADLK] exactly when [c]'s
    owner already waits, directly or through others, for the requester, and otherwise sleeps
    with its wait recorded. The owners of other conflicting locks are not asked, so a cycle
    through one of them goes unnoticed ([deadlock_leaves_wait_recorded]). *)
Lemma fcntl_set_lock_conflict st key o req lock c blocking :
  posix_lock o req = Some lock →
  find_conflict (default [] (st.(ADVISORY_LOCKS) !! key)) o (Some lock) AdvisoryLockApi.Posix = Some c →
  let deadlock := rtc (waits_for st) c.(owner) o in
  (blocking = false → fcntl_set_lock_try key o req blocking st = Return (Err SyscallError.TryAgain) st) ∧
  (blocking = true → deadlock →
     fcntl_set_lock_try key o req blocking st = Return (Err SyscallError.ResourceDeadlock) st) ∧
  (blocking = true → ¬ deadlock →
     fcntl_set_lock_try key o req blocking st = Sleep (set_lock_wait st o key lock)) ∧
  (∀ e, e ∈ default [] (st.(ADVISORY_LOCKS) !! key) →
     conflicts_with AdvisoryLockApi.Posix o lock e = true →
     lex_leb (conflict_key c) (conflict_key e) = true).
Proof.
  intros Hl Hc deadlock. unfold fcntl_set_lock_try. rewrite Hl, Hc, (conflict_state _ _ _ _ _ _ Hc).
  destruct (wait_chain_search_result st c.(owner) o) as (b & Hb & Hr).
  unfold lock_wait_chain_reaches. rewrite Hb. unfold deadlock. cbn [from_option id].
  split; [by intros ->|]. split; [|split].
  - intros -> Hd. apply Hr in Hd. by subst b.
  - intros -> Hd. destruct b; [|done]. destruct Hd. by apply Hr.
  - by eapply find_conflict_some.
Qed.

(** Owner 1 holds bytes 0..9 of [f] and waits for byte 0 of [g], which owner 2 holds; owner 2
    now asks for byte 5 of [f]. *)
Definition ex_posix (o : AdvisoryLockOwner) (s e : Z) : AdvisoryLock :=
  mkLock AdvisoryLockApi.Posix o AdvisoryLockType.Write (mkRange s (Some e)).
Definition ex_crossed : LockState := mkLockState
  {[ "f" := [ex_posix (ex_p 1) 0 10]; "g" := [ex_posix (ex_p 2) 0 1] ]}
  {[ ex_p 1 := mkWait "g" (ex_posix (ex_p 1) 0 1) ]} 0.

Lemma fcntl_set_lock_conflict_witness :
  fcntl_set_lock_try "f" (ex_p 2) (mkRequest (Some AdvisoryLockType.Write) (mkRange 5 (Some 6)))
    true ex_crossed = Return (Err SyscallError.ResourceDeadlock) ex_crossed.
Proof.
  apply (fcntl_set_lock_conflict ex_crossed "f" (ex_p 2)
    (mkRequest (Some AdvisoryLockType.Write) (mkRange 5 (Some 6))) (ex_posix (ex_p 2) 5 6)
    (ex_posix (ex_p 1) 0 10) true); [reflexivity..|].
  apply rtc_once. exists (mkWait "g" (ex_posix (ex_p 1) 0 1)), [ex_posix (ex_p 2) 0 1],
    (ex_posix (ex_p 2) 0 1).
  split_and!; try reflexivity. constructor.
Defined.

(** A granted [flock] replaces the file description's own lock by the requested one over
    the whole file and touches nothing else. *)
Lemma flock_grants st st' key o t blocking r :
  flock_try key o (flock_request o t) blocking st = Return (Ok r) st' →
  (∀ a o' t' b, holds (default [] (st'.(ADVISORY_LOCKS) !! key)) a o' t' b ↔
     (a = AdvisoryLockApi.Flock ∧ o' = o ∧ 0 ≤ b < U64_MAX ∧ t = Some t') ∨
     (holds (default [] (st.(ADVISORY_LOCKS) !! key)) a o' t' b ∧
      ¬ (a = AdvisoryLockApi.Flock ∧ o' = o))) ∧
  (∀ key', key' ≠ key → st'.(ADVISORY_LOCKS) !! key' = st.(ADVISORY_LOCKS) !! key') ∧
  st'.(ADVISORY_LOCK_WAITS) = delete o st.(ADVISORY_LOCK_WAITS).
Proof.
  unfold flock_try. destruct (find_conflict _ _ _ _) eqn:Hc; [by destruct_all|].
  intros [= _ <-]. cbn [wake_lock_waiters clear_lock_wait ADVISORY_LOCKS ADVISORY_LOCK_WAITS].
  split; [|split; [|done]].
  - intros a o' t' b. rewrite lookup_store_entries, decide_True by done.
    fold (flock_entries (default [] (ADVISORY_LOCKS st !! key)) o (flock_request o t)).
    replace (default [] _) with
      (flock_entries (default [] (ADVISORY_LOCKS st !! key)) o (flock_request o t))
      by by destruct (flock_entries _ _ _).
    rewrite flock_entries_holds. apply or_iff_compat_r. destruct t as [t|]; cbn.
    + split.
      * intros (lock & [= <-] & (Ha & Ho & Ht & Hb)%holds_singleton).
        unfold in_range, range_end_bound in Hb. cbn in *. by subst.
      * intros (-> & -> & Hb & [= ->]). eexists. split; [done|]. by apply holds_singleton.
    + split; [by intros (? & ? & _)|by intros (_ & _ & _ & ?)].
  - intros key' Hk. rewrite lookup_store_entries. by rewrite decide_False.
Qed.

Lemma flock_grants_witness :
  let o := AdvisoryLockOwner.OpenFileDescription 4096 in
  ∃ st', flock_try "f" o (flock_request o (Some AdvisoryLockType.Read)) true lock_init =
    Return (Ok 0) st' ∧
    holds (default [] (st'.(ADVISORY_LOCKS) !! "f")) AdvisoryLockApi.Flock o
      AdvisoryLockType.Read 7.
Proof.
  eexists. split; [reflexivity|].
  apply (flock_grants lock_init _ "f" (AdvisoryLockOwner.OpenFileDescription 4096)
    (Some AdvisoryLockType.Read) true 0); [reflexivity|].
  left. split_and!; done.
Defined.

(** A release reports a change exactly when the owner held a lock of the file; afterwards
    it holds none there and waits for none, and the locks of the others are untouched. *)
Lemma release_owner_lock_spec key o st :
  let '(changed, st') := release_owner_lock key o st in
  let l := default [] (st.(ADVISORY_LOCKS) !! key) in
  let l' := default [] (st'.(ADVISORY_LOCKS) !! key) in
  (changed = true ↔ ∃ e, e ∈ l ∧ e.(owner) = o) ∧
  (∀ e, e ∈ l' ↔ e ∈ l ∧ e.(owner) ≠ o) ∧
  (∀ key', key' ≠ key → st'.(ADVISORY_LOCKS) !! key' = st.(ADVISORY_LOCKS) !! key') ∧
  st'.(ADVISORY_LOCK_WAITS) = delete o st.(ADVISORY_LOCK_WAITS).
Proof.
  unfold release_owner_lock. cbn [clear_lock_wait ADVISORY_LOCKS].
  destruct (st.(ADVISORY_LOCKS) !! key) as [l|] eqn:Hl; cbn [from_option id].
  - set (keep := λ entry : AdvisoryLock, negb (bool_decide (entry.(owner) = o))).
    assert (∀ e, e ∈ List.filter keep l ↔ e ∈ l ∧ e.(owner) ≠ o) as Hk.
    { intros e. rewrite list_elem_of_In, filter_In, <- list_elem_of_In. unfold keep.
      by rewrite negb_true_iff, bool_decide_eq_false. }
    split; [|split; [|split; [|done]]].
    + rewrite negb_true_iff, Nat.eqb_neq. split.
      * intros Hne. destruct (existsb (λ e, bool_decide (e.(owner) = o)) l) eqn:He.
        { apply existsb_exists in He as (e & He & Ho%bool_decide_eq_true).
          exists e. by rewrite list_elem_of_In. }
        destruct Hne. f_equal. apply forallb_filter_id, forallb_forall. intros x Hx.
        apply negb_true_iff, not_true_iff_false. intros Hb. apply not_true_iff_false in He.
        apply He, existsb_exists. by exists x.
      * intros (e & He & Ho) Hlen. apply filter_length_forallb in Hlen.
        rewrite forallb_forall in Hlen. apply list_elem_of_In in He.
        specialize (Hlen e He). unfold keep in Hlen. by rewrite bool_decide_true in Hlen.
    + intros e. rewrite <- Hk, lookup_store_entries, decide_True by done.
      by destruct (List.filter keep l).
    + intros key' Hne. rewrite lookup_store_entries. by rewrite decide_False.
  - cbn. rewrite Hl. cbn. setoid_rewrite elem_of_nil.
    split; [split; [done|by intros (? & ? & _)]|]. split; [tauto|done].
Qed.

(** A whole blocking [fcntl] locking call, whatever the other threads do while it
    sleeps, is a sequence of the atomic steps. *)
Lemma fcntl_set_lock_refines {M} `{UserMemory M LinuxFlock} pid object arg ofd blocking ws
    (mem : M) st :
  Forall (λ w, ∀ s, rtc lock_step s (w.(others) s)) ws →
  rtc lock_step st (fcntl_set_lock pid object arg ofd blocking ws mem st).2.
Proof.
  intros Hws. unfold fcntl_set_lock. destruct (arg =? 0); [apply rtc_refl|].
  destruct (user_read mem arg) as [[flock|e] mem']; cbn; [|apply rtc_refl].
  destruct (parse_flock_request flock object) as [req|] eqn:Hp; cbn; [|apply rtc_refl].
  destruct (lock_key object) as [key|]; cbn; [|apply rtc_refl].
  set (try_once := fcntl_set_lock_try key (lock_owner pid object ofd) req blocking).
  pose proof (blocking_loop_invariant try_once (lock_on_wake (lock_owner pid object ofd))
    (λ s, rtc lock_step st s) ws st) as Hinv.
  destruct (blocking_loop _ _ ws st) as [r st']. cbn in *. apply Hinv.
  - intros s r' s' Hs Ht. eapply rtc_r; [exact Hs|]. by eapply step_fcntl.
  - intros s s' Hs Ht. eapply rtc_r; [exact Hs|]. by eapply step_fcntl_sleep.
  - intros s r' Hs. eapply rtc_r; [exact Hs|]. apply step_wake.
  - eapply List.Forall_impl; [|exact Hws]. intros w Hw s Hs. etrans; [exact Hs|apply Hw].
  - apply rtc_refl.
Qed.

(** Owner 2 sleeps until owner 1 releases its lock, then gets it. *)
Definition ex_call : option (result SyscallError Z) * gmap Z LinuxFlock * LockState :=
  fcntl_set_lock (M := gmap Z LinuxFlock) 2 ex_object 8 false true
    [mkWakeup (λ s, (release_owner_lock "object:0x1000" (ex_p 1) s).2) (Ok tt)]
    {[ 8 := ex_flock F_WRLCK 0 10 ]}
    (mkLockState {[ "object:0x1000" := [ex_posix (ex_p 1) 0 10] ]} ∅ 0).

Lemma fcntl_set_lock_refines_witness :
  ex_call.1.1 = Some (Ok 0) ∧
  rtc lock_step (mkLockState {[ "object:0x1000" := [ex_posix (ex_p 1) 0 10] ]} ∅ 0) ex_call.2.
Proof.
  split; [reflexivity|].
  apply (fcntl_set_lock_refines (M := gmap Z LinuxFlock)). constructor; [|constructor].
  intros s. apply rtc_once. apply step_release.
Defined.

(** ** A wait that outlives its call *)

(** Owners 1 and 3 hold bytes 0..4 and 5..9 of [f], owner 2 holds byte 0 of [g] and owner 3
    waits for it. *)
Definition ex_two_holders : LockState := mkLockState
  {[ "f" := [ex_posix (ex_p 1) 0 5; ex_posix (ex_p 3) 5 10]; "g" := [ex_posix (ex_p 2) 0 1] ]}
  {[ ex_p 3 := mkWait "g" (ex_posix (ex_p 3) 0 1) ]} 0.

(** Owner 2 asks for bytes 0..9 of [f] and sleeps, since only the first conflicting owner is
    checked; when owner 1 releases, the second pass returns [EDEADLK] but leaves the wait of
    owner 2 in the table. *)
Lemma deadlock_leaves_wait_recorded :
  let '(r, st) := blocking_loop
    (fcntl_set_lock_try "f" (ex_p 2)
       (mkRequest (Some AdvisoryLockType.Write) (mkRange 0 (Some 10))) true)
    (lock_on_wake (ex_p 2))
    [mkWakeup (λ s, (release_owner_lock "f" (ex_p 1) s).2) (Ok tt)] ex_two_holders in
  r = Some (Err SyscallError.ResourceDeadlock) ∧ is_Some (st.(ADVISORY_LOCK_WAITS) !! ex_p 2).
Proof. vm_compute. split; [reflexivity|by eexists]. Qed.
