(* ===== verification/SysvIpc.v ===== *)
(** * What the three System V IPC components share

    ipc/sysv_sem.rs, ipc/sysv_msg.rs and ipc/sysv_shm.rs keep a table of objects by
    identifier, look objects up by key and namespace, and check the same permission bits,
    each with its own copy of the code.  The class [IpcObject] is what the copies ask of an
    object; the table operations, the access check and their theorems are stated over it,
    and each component supplies an instance. *)

From S2P Require Import Prelude Errors Clock.

(** ** Constants *)

Definition IPC_PRIVATE : Z := 0.
Definition IPC_CREAT : Z := 512.
Definition IPC_EXCL : Z := 1024.
Definition IPC_NOWAIT : Z := 2048.
Definition IPC_RMID : Z := 0.
Definition IPC_SET : Z := 1.
Definition IPC_STAT : Z := 2.
Definition IPC_INFO : Z := 3.
Definition IPC_MODE_MASK : Z := 511.

(** [flags & bit != 0] *)
Definition has_flag (flags bit : Z) : bool := negb (Z.land flags bit =? 0).

(** ** Data *)

Record LinuxIpcPerm := mkIpcPerm {
  ipc_perm_key : Z; uid : Z; gid : Z; cuid : Z; cgid : Z; perm_mode : Z; ipc_perm_seq : Z;
  perm_pad1 : Z; perm_pad2 : Z;
}.

(** [SysvSemCredentials] and [SysvMsgCredentials]; shared memory reads the same fields off
    the process. *)
Record Credentials := mkCredentials {
  cred_namespace : Z;
  cred_pid : Z;
  effective_uid : Z;
  effective_gid : Z;
  supplementary_groups : list Z;
}.

Class IpcObject (T : Type) := {
  namespace_inode : T → Z;
  key : T → Z;
  owner_uid : T → Z;
  owner_gid : T → Z;
  creator_uid : T → Z;
  creator_gid : T → Z;
  mode : T → Z;
  removed : T → bool;
}.

(** The table of a component, with the clock it stamps objects from and the number of
    [wake_io] calls it has made. *)
Record Ipc (T : Type) := mkIpc {
  next_id : Z;
  objects : gmap Z T;
  clock : Clock;
  io_wakeups : nat;
}.
Arguments mkIpc {T} next_id objects clock io_wakeups.
Arguments next_id {T} i.
Arguments objects {T} i.
Arguments clock {T} i.
Arguments io_wakeups {T} i.

Definition now_seconds {T} (st : Ipc T) : Z := Z.min (unix_timestamp_seconds st.(clock)) I64_MAX.

Definition ipc_init {T} (c : Clock) : Ipc T := mkIpc 0 ∅ c 0.

(** ** Operations *)

Section ipc.
Context {T : Type} `{IpcObject T}.
Implicit Types (x : T) (c : Credentials) (st : Ipc T).

Definition has_access x c (write : bool) : bool :=
  if c.(effective_uid) =? 0 then true
  else
    let mask := if write then Z.lor 4 2 else 4 in
    if (c.(effective_uid) =? owner_uid x) || (c.(effective_uid) =? creator_uid x)
    then Z.land (mode x) (Z.shiftl mask 6) =? Z.shiftl mask 6
    else if (c.(effective_gid) =? owner_gid x) || (c.(effective_gid) =? creator_gid x)
            || existsb (λ g, (g =? owner_gid x) || (g =? creator_gid x)) c.(supplementary_groups)
    then Z.land (mode x) (Z.shiftl mask 3) =? Z.shiftl mask 3
    else Z.land (mode x) mask =? mask.

(** The ownership test of [IPC_RMID] and [IPC_SET], negated as the code has it. *)
Definition not_owner x (euid : Z) : bool :=
  negb (euid =? 0) && negb (euid =? owner_uid x) && negb (euid =? creator_uid x).

(** [iter().find(|(_, o)| o.namespace == ns && o.key == key && !o.removed)] *)
Definition matches_key (ns k : Z) x : bool :=
  (namespace_inode x =? ns) && (key x =? k) && negb (removed x).

Definition ipc_find (ns k : Z) st : option (Z * T) := btree_find (matches_key ns k) st.(objects).

(** [get_mut(&id).filter(|o| o.namespace == ns && !o.removed)] *)
Definition ipc_get (ns id : Z) st : option T :=
  x ← st.(objects) !! id;
  if (namespace_inode x =? ns) && negb (removed x) then Some x else None.

(** [next_semid], [next_msqid], [next_shmid]: the i32 counter wraps in a release build. *)
Definition ipc_next_id st : Z * Ipc T :=
  let n := swrap 32 (st.(next_id) + 1) in (n, mkIpc n st.(objects) st.(clock) st.(io_wakeups)).

Definition ipc_put (id : Z) x st : Ipc T :=
  mkIpc st.(next_id) (<[id := x]> st.(objects)) st.(clock) st.(io_wakeups).

Definition ipc_remove (id : Z) st : Ipc T :=
  mkIpc st.(next_id) (delete id st.(objects)) st.(clock) st.(io_wakeups).

Definition wake_io st : Ipc T :=
  mkIpc st.(next_id) st.(objects) st.(clock) (S st.(io_wakeups)).

(** Time passes. *)
Definition ipc_tick (n : Z) st : Ipc T :=
  mkIpc st.(next_id) st.(objects) (tick n st.(clock)) st.(io_wakeups).

(** ** Specification *)

(** What the permission bits mean: root always; otherwise the first class that matches
    decides, and it must have the read bit, and the write bit for writing. *)
Definition access_class x c : Z :=
  if bool_decide (c.(effective_uid) ∈ [owner_uid x; creator_uid x]) then 6
  else if bool_decide (Exists (λ g, g ∈ [owner_gid x; creator_gid x])
            (c.(effective_gid) :: c.(supplementary_groups))) then 3
  else 0.

Definition access_allowed x c (write : bool) : Prop :=
  c.(effective_uid) = 0 ∨
  (Z.testbit (mode x) (2 + access_class x c) = true ∧
   (write = true → Z.testbit (mode x) (1 + access_class x c) = true)).

(** Live objects of one namespace have different keys, the private key excepted. *)
Definition unique_keys (m : gmap Z T) : Prop :=
  ∀ i j x y, m !! i = Some x → m !! j = Some y →
    removed x = false → removed y = false →
    namespace_inode x = namespace_inode y → key x = key y → key x ≠ IPC_PRIVATE → i = j.
End ipc.

(** ** Lemmas: access *)

Lemma land_mask_spec m k s :
  0 ≤ s → Z.land m (Z.shiftl k s) = Z.shiftl k s ↔
  ∀ i, 0 ≤ i → Z.testbit k i = true → Z.testbit m (i + s) = true.
Proof.
  intros Hs. split.
  - intros Hl i Hi Hk. assert (Z.testbit (Z.shiftl k s) (i + s) = true) as Ht.
    { rewrite Z.shiftl_spec by lia. by replace (i + s - s) with i by lia. }
    rewrite <- Hl, Z.land_spec in Ht. by apply andb_true_iff in Ht as [? _].
  - intros Hi. apply Z.bits_inj'. intros n Hn. rewrite Z.land_spec, Z.shiftl_spec by lia.
    destruct (decide (s ≤ n)) as [Hle|Hlt].
    + destruct (Z.testbit k (n - s)) eqn:Hk; [|apply andb_false_r].
      specialize (Hi (n - s) ltac:(lia) Hk). replace (n - s + s) with n in Hi by lia. by rewrite Hi.
    + rewrite (Z.testbit_neg_r k) by lia. apply andb_false_r.
Qed.

Lemma access_bits_spec m s (write : bool) :
  0 ≤ s →
  Z.land m (Z.shiftl (if write then Z.lor 4 2 else 4) s) =
    Z.shiftl (if write then Z.lor 4 2 else 4) s ↔
  Z.testbit m (2 + s) = true ∧ (write = true → Z.testbit m (1 + s) = true).
Proof.
  intros Hs. rewrite land_mask_spec by done.
  assert (∀ i, 0 ≤ i → Z.testbit 4 i = true ↔ i = 2) as H4.
  { intros i Hi. change 4 with (2 ^ 2). rewrite Z.pow2_bits_eqb, Z.eqb_eq; lia. }
  assert (∀ i, 0 ≤ i → Z.testbit 2 i = true ↔ i = 1) as H2.
  { intros i Hi. change 2 with (2 ^ 1). rewrite Z.pow2_bits_eqb, Z.eqb_eq; lia. }
  split.
  - intros Hb. split.
    + apply Hb; [lia|]. destruct write; [|by apply H4]. rewrite Z.lor_spec. by rewrite (proj2 (H4 2 ltac:(lia))).
    + intros ->. apply Hb; [lia|]. rewrite Z.lor_spec. by rewrite (proj2 (H2 1 ltac:(lia))), orb_true_r.
  - intros [Hr Hw] i Hi. destruct write.
    + rewrite Z.lor_spec, orb_true_iff, H4, H2 by done. intros [-> | ->]; [done|by apply Hw].
    + rewrite H4 by done. by intros ->.
Qed.

Section ipc_lemmas.
Context {T : Type} `{IpcObject T}.
Implicit Types (x y : T) (c : Credentials) (st : Ipc T) (m : gmap Z T).

Lemma uid_class x c :
  (effective_uid c =? owner_uid x) || (effective_uid c =? creator_uid x) =
  bool_decide (effective_uid c ∈ [owner_uid x; creator_uid x]).
Proof.
  apply eq_bool_prop_intro. rewrite bool_decide_spec, !Is_true_true, orb_true_iff, !Z.eqb_eq.
  by rewrite elem_of_cons, list_elem_of_singleton.
Qed.

Lemma gid_class x c :
  (effective_gid c =? owner_gid x) || (effective_gid c =? creator_gid x)
    || existsb (λ g, (g =? owner_gid x) || (g =? creator_gid x)) (supplementary_groups c) =
  bool_decide (Exists (λ g, g ∈ [owner_gid x; creator_gid x])
    (effective_gid c :: supplementary_groups c)).
Proof.
  apply eq_bool_prop_intro. rewrite bool_decide_spec, Exists_cons, Exists_exists.
  rewrite Is_true_true, !orb_true_iff, !Z.eqb_eq, existsb_exists, elem_of_cons, list_elem_of_singleton.
  setoid_rewrite <- list_elem_of_In. setoid_rewrite orb_true_iff. setoid_rewrite Z.eqb_eq.
  setoid_rewrite elem_of_cons. by setoid_rewrite list_elem_of_singleton.
Qed.

Lemma has_access_spec x c write : has_access x c write = true ↔ access_allowed x c write.
Proof.
  unfold has_access, access_allowed, access_class. rewrite uid_class, gid_class.
  destruct (c.(effective_uid) =? 0) eqn:H0; [split; [left; lia|done]|].
  assert (c.(effective_uid) ≠ 0) by lia.
  repeat case_bool_decide; rewrite Z.eqb_eq, ?access_bits_spec by done; try tauto.
  pose proof (access_bits_spec (mode x) 0 write) as Hb. rewrite !Z.shiftl_0_r in Hb.
  rewrite Hb by done. tauto.
Qed.

(** ** Lemmas: the table *)

Lemma ipc_find_some ns k st id x :
  ipc_find ns k st = Some (id, x) →
  st.(objects) !! id = Some x ∧ namespace_inode x = ns ∧ key x = k ∧ removed x = false.
Proof.
  intros [? Hm]%btree_find_some. unfold matches_key in Hm. boolify. done.
Qed.

Lemma ipc_find_none ns k st id x :
  ipc_find ns k st = None → st.(objects) !! id = Some x →
  ¬ (namespace_inode x = ns ∧ key x = k ∧ removed x = false).
Proof.
  intros Hn Hx (Hns & Hk & Hr). eapply btree_find_none in Hn; [|exact Hx].
  unfold matches_key in Hn. by rewrite Hns, Hk, Hr, !Z.eqb_refl in Hn.
Qed.

(** With unique keys the lookup by key does not depend on the order of the table. *)
Lemma ipc_find_unique ns k st id x :
  unique_keys st.(objects) → k ≠ IPC_PRIVATE →
  ipc_find ns k st = Some (id, x) ↔
  st.(objects) !! id = Some x ∧ namespace_inode x = ns ∧ key x = k ∧ removed x = false.
Proof.
  intros Hu Hk. split; [apply ipc_find_some|]. intros (Hx & Hns & Hkx & Hr).
  destruct (ipc_find ns k st) as [[j y]|] eqn:Hf.
  - apply ipc_find_some in Hf as (Hy & Hnsy & Hky & Hry).
    assert (j = id) as -> by (eapply Hu; [exact Hy|exact Hx|congruence..]). congruence.
  - by destruct (ipc_find_none _ _ _ _ _ Hf Hx).
Qed.

Lemma ipc_get_some ns id st x :
  ipc_get ns id st = Some x ↔
  st.(objects) !! id = Some x ∧ namespace_inode x = ns ∧ removed x = false.
Proof.
  unfold ipc_get. destruct (st.(objects) !! id) as [y|]; cbn; [|by split; [|intros [? _]]].
  destruct ((namespace_inode y =? ns) && negb (removed y)) eqn:Hc.
  - boolify. split; [by intros [= <-]|by intros [[= ->] _]].
  - split; [done|]. intros ([= ->] & <- & Hr). by rewrite Z.eqb_refl, Hr in Hc.
Qed.

Lemma unique_keys_insert_new m id x :
  unique_keys m → (key x = IPC_PRIVATE ∨
    ∀ j y, m !! j = Some y → ¬ (namespace_inode y = namespace_inode x ∧ key y = key x ∧ removed y = false)) →
  unique_keys (<[id := x]> m).
Proof.
  intros Hu Hn i j y z Hy Hz Hry Hrz Hns Hk Hp.
  destruct (decide (i = id)) as [->|Hi], (decide (j = id)) as [->|Hj]; [done| | |];
    rewrite ?lookup_insert_eq in *; rewrite ?lookup_insert_ne in * by done; simplify_eq.
  - destruct Hn as [Hn|Hn]; [done|]. by destruct (Hn j z Hz).
  - destruct Hn as [Hn|Hn]; [congruence|]. by destruct (Hn i y Hy).
  - by eapply Hu.
Qed.

(** Replacing an object by one with the same name. *)
Lemma unique_keys_update m id x y :
  unique_keys m → m !! id = Some x →
  namespace_inode y = namespace_inode x → key y = key x →
  (removed y = false → removed x = false) →
  unique_keys (<[id := y]> m).
Proof.
  intros Hu Hx Hns Hk Hr. intros i j a b Ha Hb Hra Hrb Hnab Hkab Hp.
  destruct (decide (i = id)) as [->|Hi], (decide (j = id)) as [->|Hj]; [done| | |];
    rewrite ?lookup_insert_eq in *; rewrite ?lookup_insert_ne in * by done; simplify_eq.
  - eapply Hu; [exact Hx|exact Hb|auto|done|congruence..].
  - eapply Hu; [exact Ha|exact Hx|done|auto|congruence..].
  - by eapply Hu.
Qed.

Lemma unique_keys_delete m id : unique_keys m → unique_keys (delete id m).
Proof.
  intros Hu i j x y [_ Hx]%lookup_delete_Some [_ Hy]%lookup_delete_Some. by eapply Hu.
Qed.

Lemma unique_keys_empty : unique_keys (∅ : gmap Z T).
Proof. by intros i j x y ?%lookup_empty_Some. Qed.
End ipc_lemmas.

#[export] Hint Resolve unique_keys_delete unique_keys_empty : kernel.
