(* ===== verification/SysvSem.v ===== *)
(** * System V semaphores

    ipc/sysv_sem.rs: [semget], [semctl], [semop] and [semtimedop] over the table of
    semaphore sets.  The state is [Ipc SysvSemSet]; a call takes the user memory and the
    state, and a blocking [semtimedop] is the loop of Blocking.v around one pass.
    [proc_sysvipc_sem_bytes], the text of /proc/sysvipc/sem, is not modelled. *)

From S2P Require Import Prelude Errors Clock Blocking SysvIpc.

(** ** Constants and data *)

Definition SEM_STAT : Z := 18.
Definition SEM_INFO : Z := 19.
Definition GETPID : Z := 11.
Definition GETVAL : Z := 12.
Definition GETALL : Z := 13.
Definition GETNCNT : Z := 14.
Definition GETZCNT : Z := 15.
Definition SETVAL : Z := 16.
Definition SETALL : Z := 17.
Definition SEMVMX : Z := 32767.
Definition SEMMNI : Z := 32000.
Definition SEMMSL : Z := 32000.
Definition SEMMNS : Z := 1024000000.
Definition SEMOPM : Z := 500.

Record LinuxSemidDs := mkSemidDs {
  sem_perm : LinuxIpcPerm; sem_otime : Z; sem_ctime : Z; sem_nsems : Z;
  semid_pad1 : Z; semid_pad2 : Z;
}.

Record LinuxSeminfo := mkSeminfo {
  semmap : Z; semmni : Z; semmns : Z; semmnu : Z; semmsl : Z; semopm : Z; semume : Z;
  semusz : Z; semvmx : Z; semaem : Z;
}.

Record LinuxSembuf := mkSembuf { sem_num : Z; sem_op : Z; sem_flg : Z }.

Record LinuxTimespec := mkTimespec { tv_sec : Z; tv_nsec : Z }.

Record SysvSemSet := mkSemSet {
  set_namespace_inode : Z;
  set_key : Z;
  values : list Z;
  last_pid : Z;
  set_owner_uid : Z;
  set_owner_gid : Z;
  set_creator_uid : Z;
  set_creator_gid : Z;
  set_mode : Z;
  seq : Z;
  otime : Z;
  ctime : Z;
  set_removed : bool;
}.

#[export] Instance SysvSemSet_object : IpcObject SysvSemSet := {
  namespace_inode := set_namespace_inode;
  key := set_key;
  owner_uid := set_owner_uid;
  owner_gid := set_owner_gid;
  creator_uid := set_creator_uid;
  creator_gid := set_creator_gid;
  mode := set_mode;
  removed := set_removed;
}.

Abbreviation SysvSemState := (Ipc SysvSemSet).

(** ** Reports *)

(** [size_of::<LinuxSemidDs>()]: a 48-byte [LinuxIpcPerm] and five 8-byte fields. *)
Definition sizeof_semid_ds : Z := 88.

Definition seminfo : LinuxSeminfo :=
  mkSeminfo SEMMNS SEMMNI SEMMNS SEMMNI SEMMSL SEMOPM SEMOPM sizeof_semid_ds SEMVMX SEMVMX.

Definition linux_semid_ds (set : SysvSemSet) : LinuxSemidDs :=
  mkSemidDs
    (mkIpcPerm set.(set_key) set.(set_owner_uid) set.(set_owner_gid) set.(set_creator_uid)
       set.(set_creator_gid) set.(set_mode) set.(seq) 0 0)
    set.(otime) set.(ctime) (zlen set.(values)) 0 0.

(** ** Updates of a set *)

Definition with_values (set : SysvSemSet) (vs : list Z) : SysvSemSet :=
  mkSemSet set.(set_namespace_inode) set.(set_key) vs set.(last_pid) set.(set_owner_uid)
    set.(set_owner_gid) set.(set_creator_uid) set.(set_creator_gid) set.(set_mode) set.(seq)
    set.(otime) set.(ctime) set.(set_removed).

Definition with_ctime (set : SysvSemSet) (t : Z) : SysvSemSet :=
  mkSemSet set.(set_namespace_inode) set.(set_key) set.(values) set.(last_pid)
    set.(set_owner_uid) set.(set_owner_gid) set.(set_creator_uid) set.(set_creator_gid)
    set.(set_mode) set.(seq) set.(otime) t set.(set_removed).

Definition with_last_op (set : SysvSemSet) (pid t : Z) : SysvSemSet :=
  mkSemSet set.(set_namespace_inode) set.(set_key) set.(values) pid
    set.(set_owner_uid) set.(set_owner_gid) set.(set_creator_uid) set.(set_creator_gid)
    set.(set_mode) set.(seq) t set.(ctime) set.(set_removed).

Definition with_perm (set : SysvSemSet) (uid gid mode t : Z) : SysvSemSet :=
  mkSemSet set.(set_namespace_inode) set.(set_key) set.(values) set.(last_pid)
    uid gid set.(set_creator_uid) set.(set_creator_gid) mode set.(seq) set.(otime) t
    set.(set_removed).

(** ** Operations on a set *)

Definition unsigned_abs (z : Z) : Z := Z.abs z.

Fixpoint ops_ready (set : SysvSemSet) (ops : list LinuxSembuf) : result SyscallError bool :=
  match ops with
  | [] => Ok true
  | op :: ops =>
      match set.(values) !! Z.to_nat op.(sem_num) with
      | None => Err SyscallError.FileTooLarge
      | Some value =>
          if op.(sem_op) <? 0 then
            if value <? unsigned_abs op.(sem_op) then Ok false else ops_ready set ops
          else if (op.(sem_op) =? 0) && negb (value =? 0) then Ok false
          else ops_ready set ops
      end
  end.

Definition apply_op (value op : Z) : result SyscallError Z :=
  if op <? 0 then ok_or (checked_sub value (unsigned_abs op)) SyscallError.TryAgain
  else ok_or (v ← checked_add 16 value (uwrap 16 op); if v <=? SEMVMX then Some v else None)
         SyscallError.RangeError.

(** The loop of [apply_ops]: an error leaves the values as far as they have been changed. *)
Fixpoint apply_ops_loop (vs : list Z) (ops : list LinuxSembuf)
  : result SyscallError unit * list Z :=
  match ops with
  | [] => (Ok tt, vs)
  | op :: ops =>
      match vs !! Z.to_nat op.(sem_num) with
      | None => (Err SyscallError.FileTooLarge, vs)
      | Some value =>
          match apply_op value op.(sem_op) with
          | Err e => (Err e, vs)
          | Ok v => apply_ops_loop (<[Z.to_nat op.(sem_num) := v]> vs) ops
          end
      end
  end.

Definition apply_ops (set : SysvSemSet) (ops : list LinuxSembuf) (pid now : Z)
  : result SyscallError unit * SysvSemSet :=
  let '(r, vs) := apply_ops_loop set.(values) ops in
  match r with
  | Err e => (Err e, with_values set vs)
  | Ok _ => (Ok tt, with_last_op (with_values set vs) pid now)
  end.

(** ** System calls *)

Definition semget (c : Credentials) (k nsems semflg : Z) (st : SysvSemState)
  : result SyscallError Z * SysvSemState :=
  let create := has_flag semflg IPC_CREAT in
  let exclusive := has_flag semflg IPC_EXCL in
  bail SyscallError.InvalidArguments when nsems <? 0 with st;
  bail SyscallError.InvalidArguments when SEMMSL <? nsems with st;
  match (if k =? IPC_PRIVATE then None else ipc_find c.(cred_namespace) k st) with
  | Some (semid, set) =>
      bail SyscallError.FileAlreadyExists when create && exclusive with st;
      bail SyscallError.InvalidArguments
        when negb (nsems =? 0) && (zlen set.(values) <? nsems) with st;
      bail SyscallError.PermissionDenied when negb (has_access set c false) with st;
      (Ok (uwrap 64 semid), st)
  | None =>
      bail SyscallError.FileNotFound when negb create && negb (k =? IPC_PRIVATE) with st;
      bail SyscallError.InvalidArguments when nsems =? 0 with st;
      bail SyscallError.NoSpaceLeft when SEMMNI <=? Z.of_nat (size st.(objects)) with st;
      let '(semid, st) := ipc_next_id st in
      let set := mkSemSet c.(cred_namespace) k (replicate (Z.to_nat nsems) 0) c.(cred_pid)
        c.(effective_uid) c.(effective_gid) c.(effective_uid) c.(effective_gid)
        (Z.land semflg IPC_MODE_MASK) 0 0 (now_seconds st) false in
      (Ok (uwrap 64 semid), ipc_put semid set st)
  end.

Section semctl.
Context {M : Type} `{UserMemory M LinuxSeminfo} `{UserMemory M LinuxSemidDs} `{UserMemory M Z}.

(** The loop of [SETALL]: [u16] reads, each checked as it is read. *)
Fixpoint read_sem_values (m : M) (ptr : Z) (n : nat) : result SyscallError (list Z) * M :=
  match n with
  | O => (Ok [], m)
  | S n =>
      let '(v, m) := user_read m ptr in
      match uwrap 16 <$> v with
      | Err e => (Err e, m)
      | Ok v =>
          if SEMVMX <? v then (Err SyscallError.RangeError, m)
          else
            let '(vs, m) := read_sem_values m (uwrap 64 (ptr + 2)) n in
            (cons v <$> vs, m)
      end
  end.

Definition semctl (c : Credentials) (semid semnum cmd arg : Z) (m : M) (st : SysvSemState)
  : result SyscallError Z * M * SysvSemState :=
  if (cmd =? IPC_INFO) || (cmd =? SEM_INFO) then
    if arg =? 0 then (Err SyscallError.BadAddress, m, st)
    else
      let '(w, m) := user_write m arg seminfo in
      ((λ _, SEMMNI - 1) <$> w, m, st)
  else
  match ipc_get c.(cred_namespace) semid st with
  | None => (Err SyscallError.InvalidArguments, m, st)
  | Some set =>
      if cmd =? IPC_RMID then
        if not_owner set c.(effective_uid) then (Err SyscallError.PermissionDenied, m, st)
        else (Ok 0, m, wake_io (ipc_remove semid st))
      else if (cmd =? IPC_STAT) || (cmd =? SEM_STAT) then
        if negb (has_access set c false) then (Err SyscallError.PermissionDenied, m, st)
        else if arg =? 0 then (Err SyscallError.BadAddress, m, st)
        else
          let '(w, m) := user_write m arg (linux_semid_ds set) in
          ((λ _, if cmd =? SEM_STAT then uwrap 64 semid else 0) <$> w, m, st)
      else if cmd =? IPC_SET then
        if arg =? 0 then (Err SyscallError.BadAddress, m, st)
        else if not_owner set c.(effective_uid) then (Err SyscallError.PermissionDenied, m, st)
        else
          let '(ds, m) := user_read (T := LinuxSemidDs) m arg in
          match ds with
          | Err e => (Err e, m, st)
          | Ok ds =>
              (Ok 0, m, ipc_put semid (with_perm set ds.(sem_perm).(uid) ds.(sem_perm).(gid)
                 (Z.land ds.(sem_perm).(perm_mode) IPC_MODE_MASK) (now_seconds st)) st)
          end
      else if (cmd =? GETPID) || (cmd =? GETVAL) || (cmd =? GETNCNT) || (cmd =? GETZCNT) then
        if semnum <? 0 then (Err SyscallError.InvalidArguments, m, st)
        else
          match set.(values) !! Z.to_nat semnum with
          | None => (Err SyscallError.InvalidArguments, m, st)
          | Some value =>
              if negb (has_access set c false) then (Err SyscallError.PermissionDenied, m, st)
              else
                (Ok (if cmd =? GETPID then uwrap 64 set.(last_pid)
                     else if cmd =? GETVAL then value else 0), m, st)
          end
      else if cmd =? GETALL then
        if negb (has_access set c false) then (Err SyscallError.PermissionDenied, m, st)
        else if arg =? 0 then (Err SyscallError.BadAddress, m, st)
        else
          let '(w, m) := user_write_array m arg 2 set.(values) in
          ((λ _, 0) <$> w, m, st)
      else if cmd =? SETVAL then
        if semnum <? 0 then (Err SyscallError.InvalidArguments, m, st)
        else if negb (has_access set c true) then (Err SyscallError.PermissionDenied, m, st)
        else if SEMVMX <? arg then (Err SyscallError.RangeError, m, st)
        else
          match set.(values) !! Z.to_nat semnum with
          | None => (Err SyscallError.InvalidArguments, m, st)
          | Some _ =>
              let set := with_values set (<[Z.to_nat semnum := uwrap 16 arg]> set.(values)) in
              (Ok 0, m, wake_io (ipc_put semid (with_ctime set (now_seconds st)) st))
          end
      else if cmd =? SETALL then
        if negb (has_access set c true) then (Err SyscallError.PermissionDenied, m, st)
        else if arg =? 0 then (Err SyscallError.BadAddress, m, st)
        else
          let '(vs, m) := read_sem_values m arg (length set.(values)) in
          match vs with
          | Err e => (Err e, m, st)
          | Ok vs =>
              let set := with_values set vs in
              (Ok 0, m, wake_io (ipc_put semid (with_ctime set (now_seconds st)) st))
          end
      else (Err SyscallError.InvalidArguments, m, st)
  end.
End semctl.

(** ** [semtimedop] *)

(** One pass of the loop. *)
Definition semtimedop_try (c : Credentials) (semid : Z) (ops : list LinuxSembuf) (nowait : bool)
  (deadline : option Time) (st : SysvSemState) : attempt SysvSemState SyscallError Z :=
  match ipc_get c.(cred_namespace) semid st with
  | None => Return (Err SyscallError.IdentifierRemoved) st
  | Some set =>
      if negb (has_access set c true) then Return (Err SyscallError.PermissionDenied) st
      else
        match ops_ready set ops with
        | Err e => Return (Err e) st
        | Ok true =>
            let '(r, set) := apply_ops set ops c.(cred_pid) (now_seconds st) in
            Return ((λ _, 0) <$> r) (ipc_put semid set st)
        | Ok false =>
            if nowait then Return (Err SyscallError.TryAgain) st
            else if deadline_passed st.(clock) deadline then Return (Err SyscallError.TryAgain) st
            else Sleep st
        end
  end.

Definition semtimedop_on_wake (deadline : option Time) (st : SysvSemState)
  (r : result ObjectError unit) : option SyscallError * SysvSemState :=
  match r with
  | Ok _ => (None, st)
  | Err err =>
      let err := object_error_as_syscall_error err in
      (Some (if bool_decide (err = SyscallError.Interrupted) && deadline_passed st.(clock) deadline
             then SyscallError.TryAgain else err), st)
  end.

Section semtimedop.
Context {M : Type} `{UserMemory M LinuxSembuf} `{UserMemory M LinuxTimespec}.

(** [size_of::<LinuxSembuf>()] is 6. *)
Definition read_ops (ops nsops : Z) (m : M) : result SyscallError (list LinuxSembuf) * M :=
  if (nsops =? 0) || (SEMOPM <? nsops) then (Err SyscallError.InvalidArguments, m)
  else if ops =? 0 then (Err SyscallError.BadAddress, m)
  else user_read_array m ops 6 (Z.to_nat nsops).

Definition timeout_deadline (timeout : Z) (m : M) (clk : Clock)
  : result SyscallError (option Time) * M :=
  if timeout =? 0 then (Ok None, m)
  else
    let '(t, m) := user_read (T := LinuxTimespec) m timeout in
    match t with
    | Err e => (Err e, m)
    | Ok t =>
        if (t.(tv_sec) <? 0) || negb ((0 <=? t.(tv_nsec)) && (t.(tv_nsec) <? 1000000000))
        then (Err SyscallError.InvalidArguments, m)
        else
          let ns := sat_add 64 (sat_mul 64 t.(tv_sec) 1000000000) t.(tv_nsec) in
          (Ok (Some (add_ns (since_boot clk) ns)), m)
    end.

Definition semtimedop (c : Credentials) (semid ops nsops timeout : Z)
  (ws : list (wakeup SysvSemState)) (m : M) (st : SysvSemState)
  : option (result SyscallError Z) * M * SysvSemState :=
  let '(ops, m) := read_ops ops nsops m in
  match ops with
  | Err e => (Some (Err e), m, st)
  | Ok ops =>
      let '(deadline, m) := timeout_deadline timeout m st.(clock) in
      match deadline with
      | Err e => (Some (Err e), m, st)
      | Ok deadline =>
          let nowait := existsb (λ op, has_flag op.(sem_flg) IPC_NOWAIT) ops in
          let '(r, st) := blocking_loop (semtimedop_try c semid ops nowait deadline)
                            (semtimedop_on_wake deadline) ws st in
          (r, m, st)
      end
  end.

Definition semop (c : Credentials) (semid ops nsops : Z) (ws : list (wakeup SysvSemState))
  (m : M) (st : SysvSemState) : option (result SyscallError Z) * M * SysvSemState :=
  semtimedop c semid ops nsops 0 ws m st.
End semtimedop.

(** ** Specification *)

Definition sem_value_ok (v : Z) : Prop := 0 ≤ v ≤ SEMVMX.

Definition sem_set_ok (set : SysvSemSet) : Prop :=
  Forall sem_value_ok set.(values) ∧ 1 ≤ zlen set.(values) ≤ SEMMSL ∧ set.(set_removed) = false ∧
  0 ≤ set.(set_mode) ≤ IPC_MODE_MASK.

Definition sem_inv (st : SysvSemState) : Prop :=
  (∀ id set, st.(objects) !! id = Some set → sem_set_ok set) ∧
  unique_keys st.(objects) ∧ Z.of_nat (size st.(objects)) ≤ SEMMNI.

(** What a list of operations adds to semaphore [i]. *)
Definition ops_delta (ops : list LinuxSembuf) (i : nat) : Z :=
  foldr Z.add 0 (map sem_op (List.filter (λ op, (Z.to_nat op.(sem_num) =? i)%nat) ops)).

(** An operation that can proceed on its own. *)
Definition op_ready (vs : list Z) (op : LinuxSembuf) : bool :=
  match vs !! Z.to_nat op.(sem_num) with
  | Some v => if op.(sem_op) <? 0 then - op.(sem_op) <=? v
              else if op.(sem_op) =? 0 then v =? 0 else true
  | None => false
  end.

Definition op_in_range (vs : list Z) (op : LinuxSembuf) : Prop :=
  is_sint 16 op.(sem_op) ∧ 0 ≤ op.(sem_num) < zlen vs.

(** ** Lemmas: operations on a set *)

Lemma apply_op_spec v op :
  0 ≤ v ≤ SEMVMX → is_sint 16 op →
  apply_op v op = if v + op <? 0 then Err SyscallError.TryAgain
                  else if SEMVMX <? v + op then Err SyscallError.RangeError else Ok (v + op).
Proof.
  unfold apply_op, checked_sub, checked_add, unsigned_abs, is_sint, SEMVMX. cbn. intros Hv Hop.
  destruct (op <? 0) eqn:Hneg.
  - rewrite Z.abs_neq by lia. destruct (- op <=? v) eqn:Hle; cbn.
    + replace (v + op <? 0) with false by lia. replace (32767 <? v + op) with false by lia.
      f_equal. lia.
    + by replace (v + op <? 0) with true by lia.
  - rewrite uwrap_id by (unfold is_uint; lia). replace (v + op <? 0) with false by lia.
    replace (v + op <? 2 ^ 16) with true by lia. cbn.
    destruct (v + op <=? 32767) eqn:Hle; [by replace (32767 <? v + op) with false by lia|].
    by replace (32767 <? v + op) with true by lia.
Qed.

Lemma apply_op_ok v op v' :
  sem_value_ok v → is_sint 16 op → apply_op v op = Ok v' → v' = v + op ∧ sem_value_ok v'.
Proof.
  intros Hv Ho. rewrite apply_op_spec by done. unfold sem_value_ok in *.
  destruct (_ <? 0) eqn:?; [done|]. destruct (SEMVMX <? _) eqn:?; [done|]. intros [= <-]. lia.
Qed.

Lemma ops_delta_cons op ops i :
  ops_delta (op :: ops) i =
  (if (Z.to_nat op.(sem_num) =? i)%nat then op.(sem_op) else 0) + ops_delta ops i.
Proof. unfold ops_delta. cbn. by destruct (_ =? _)%nat. Qed.

(** Whatever happens, the loop keeps the number of semaphores and their bounds. *)
Lemma apply_ops_loop_inv vs ops :
  Forall sem_value_ok vs → Forall (λ op, is_sint 16 op.(sem_op)) ops →
  Forall sem_value_ok (apply_ops_loop vs ops).2 ∧ length (apply_ops_loop vs ops).2 = length vs.
Proof.
  intros Hv Ho. revert vs Hv. induction Ho as [|op ops Hop Ho IH]; intros vs Hv; cbn; [done|].
  destruct (vs !! _) as [v|] eqn:Hl; [|done].
  destruct (apply_op v op.(sem_op)) as [v'|] eqn:Ha; [|done].
  assert (sem_value_ok v) by (eapply Forall_lookup_1; eassumption).
  destruct (apply_op_ok v op.(sem_op) v') as [_ Hv']; [done..|].
  destruct (IH (<[Z.to_nat op.(sem_num) := v']> vs)) as [H1 H2]; [by apply Forall_insert|].
  split; [done|]. by rewrite H2, length_insert.
Qed.

Lemma apply_ops_loop_ok vs ops vs' :
  Forall sem_value_ok vs → Forall (λ op, is_sint 16 op.(sem_op)) ops →
  apply_ops_loop vs ops = (Ok tt, vs') →
  ∀ i, vs' !! i = (λ v, v + ops_delta ops i) <$> vs !! i.
Proof.
  intros Hv Ho. revert vs Hv. induction Ho as [|op ops Hop Ho IH]; intros vs Hv; cbn [apply_ops_loop].
  { intros [= <-] i. destruct (vs !! i); cbn; [|done]. f_equal. unfold ops_delta. cbn. lia. }
  destruct (vs !! _) as [v|] eqn:Hl; [|done].
  destruct (apply_op v op.(sem_op)) as [v'|] eqn:Ha; [|done].
  assert (sem_value_ok v) by (eapply Forall_lookup_1; eassumption).
  destruct (apply_op_ok v op.(sem_op) v') as [-> Hv']; [done..|].
  intros Hr i. rewrite (IH _ (Forall_insert _ _ _ _ Hv Hv') Hr), ops_delta_cons.
  destruct (Nat.eqb_spec (Z.to_nat op.(sem_num)) i) as [<-|Hne].
  - rewrite Hl, list_lookup_insert_eq by (by eapply lookup_lt_Some). cbn. f_equal. lia.
  - rewrite list_lookup_insert_ne by done. by destruct (vs !! i).
Qed.

Lemma ops_ready_spec set ops :
  Forall (op_in_range set.(values)) ops →
  ops_ready set ops = Ok (forallb (op_ready set.(values)) ops).
Proof.
  induction 1 as [|op ops [_ Hn] _ IH]; cbn; [done|]. unfold op_ready at 1.
  destruct (values set !! Z.to_nat (sem_num op)) as [v|] eqn:Hv.
  - unfold unsigned_abs. destruct (op.(sem_op) <? 0) eqn:Hneg.
    + destruct (- sem_op op <=? v) eqn:Hle.
      * replace (v <? Z.abs (sem_op op)) with false by lia. done.
      * by replace (v <? Z.abs (sem_op op)) with true by lia.
    + destruct (sem_op op =? 0); cbn; [|done]. by destruct (v =? 0).
  - exfalso. apply lookup_ge_None in Hv. unfold zlen in Hn. lia.
Qed.

Lemma apply_ops_loop_distinct vs ops :
  Forall sem_value_ok vs → Forall (op_in_range vs) ops → NoDup (map sem_num ops) →
  forallb (op_ready vs) ops = true →
  (∀ op v, op ∈ ops → vs !! Z.to_nat op.(sem_num) = Some v → v + op.(sem_op) ≤ SEMVMX) →
  (apply_ops_loop vs ops).1 = Ok tt.
Proof.
  intros Hv Ho. revert vs Hv Ho. induction ops as [|op ops IH]; intros vs Hv Ho Hnd Hr Hmax; [done|].
  apply Forall_cons in Ho as [[Hop Hn] Ho]. cbn in Hnd, Hr |- *. apply NoDup_cons in Hnd as [Hni Hnd].
  apply andb_true_iff in Hr as [Hr1 Hr]. unfold op_ready in Hr1.
  destruct (vs !! Z.to_nat op.(sem_num)) as [v|] eqn:Hl; [|done].
  assert (sem_value_ok v) as Hvok by (eapply Forall_lookup_1; eassumption).
  pose proof (Hmax op v (list_elem_of_here _ _) Hl) as Hle.
  assert (0 ≤ v + op.(sem_op)) as Hge.
  { unfold sem_value_ok in Hvok. destruct (op.(sem_op) <? 0) eqn:?; lia. }
  rewrite apply_op_spec by done. replace (_ <? 0) with false by lia.
  replace (SEMVMX <? _) with false by lia.
  assert (∀ op', op' ∈ ops →
    <[Z.to_nat (sem_num op) := v + sem_op op]> vs !! Z.to_nat (sem_num op') =
    vs !! Z.to_nat (sem_num op')) as Hsame.
  { intros op' Hin. apply list_lookup_insert_ne. intros Heq. apply Hni.
    rewrite Forall_forall in Ho. destruct (Ho op' Hin) as [_ ?].
    replace (sem_num op) with (sem_num op') by lia. by apply list_elem_of_fmap_2. }
  apply IH; [apply Forall_insert; [done|unfold sem_value_ok; lia]| |done| |].
  - eapply List.Forall_impl; [|exact Ho]. intros op' [? ?]. split; [done|].
    unfold zlen in *. by rewrite length_insert.
  - apply forallb_forall. intros op' Hin. rewrite forallb_forall in Hr.
    specialize (Hr op' Hin). unfold op_ready in *. rewrite Hsame; [done|by apply list_elem_of_In].
  - intros op' v' Hin. rewrite Hsame by done. apply Hmax. by constructor.
Qed.

(** ** Lemmas: the invariant *)

Lemma sem_inv_get st ns id set :
  sem_inv st → ipc_get ns id st = Some set → sem_set_ok set ∧ st.(objects) !! id = Some set.
Proof. intros (Hs & _) (Hid & _)%ipc_get_some. split; [by eapply Hs|done]. Qed.

(** Replacing a set by a good one with the same name. *)
Lemma sem_inv_update st id set set' :
  sem_inv st → st.(objects) !! id = Some set → sem_set_ok set' →
  set_namespace_inode set' = set_namespace_inode set → set_key set' = set_key set →
  sem_inv (ipc_put id set' st).
Proof.
  intros (Hs & Hu & Hn) Hid Hok Hns Hk. split; [|split]; cbn [objects ipc_put ipc_remove snd].
  - intros j x Hx. apply lookup_insert_Some in Hx as [[_ <-]|[_ Hx]]; [done|by eapply Hs].
  - eapply unique_keys_update; [done|exact Hid|done..|].
    intros _. by destruct (Hs _ _ Hid) as (_ & _ & ? & _).
  - by rewrite map_size_insert, Hid.
Qed.

Lemma sem_inv_remove st id : sem_inv st → sem_inv (ipc_remove id st).
Proof.
  intros (Hs & Hu & Hn). split; [|split]; cbn [objects ipc_put ipc_remove snd].
  - intros j x [_ Hx]%lookup_delete_Some. by eapply Hs.
  - by apply unique_keys_delete.
  - rewrite map_size_delete. destruct (_ !! id); unfold Datatypes.id; lia.
Qed.

Lemma mode_mask_range z : 0 ≤ Z.land z IPC_MODE_MASK ≤ IPC_MODE_MASK.
Proof.
  change IPC_MODE_MASK with (Z.ones 9). rewrite Z.land_ones by lia.
  pose proof (Z.mod_pos_bound z (2 ^ 9) eq_refl). change (Z.ones 9) with 511.
  change (2 ^ 9) with 512 in *. lia.
Qed.

Lemma replicate_ok n : Forall sem_value_ok (replicate n 0).
Proof. apply Forall_replicate. unfold sem_value_ok, SEMVMX. lia. Qed.

Lemma zlen_replicate {A} n (x : A) : zlen (replicate n x) = Z.of_nat n.
Proof. unfold zlen. by rewrite length_replicate. Qed.

Lemma semget_inv c k nsems semflg st : sem_inv st → sem_inv (semget c k nsems semflg st).2.
Proof.
  intros Hi. unfold semget. destruct (nsems <? 0) eqn:Hneg; [done|].
  destruct (SEMMSL <? nsems) eqn:Hmax; [done|].
  destruct (if k =? IPC_PRIVATE then None else ipc_find _ k st) as [[id set]|] eqn:Hf; [by destruct_all|].
  destruct (_ && _); [done|]. destruct (nsems =? 0) eqn:Hz; [done|].
  destruct (SEMMNI <=? _) eqn:Hfull; [done|]. cbn [ipc_next_id].
  destruct Hi as (Hs & Hu & Hn). boolify. split; [|split]; cbn [objects ipc_put ipc_remove snd].
  - intros j x Hx. apply lookup_insert_Some in Hx as [[_ <-]|[_ Hx]]; [|by eapply Hs].
    split; [apply replicate_ok|]. split; [|split; [done|apply mode_mask_range]].
    cbn. rewrite zlen_replicate. lia.
  - apply unique_keys_insert_new; [done|]. cbn.
    destruct (k =? IPC_PRIVATE) eqn:Hp; [left; lia|right]. intros j y Hy.
    exact (ipc_find_none _ _ _ _ _ Hf Hy).
  - rewrite map_size_insert. destruct (_ !! _); unfold Datatypes.id; lia.
Qed.

Section semctl_inv.
Context {M : Type} `{UserMemory M LinuxSeminfo} `{UserMemory M LinuxSemidDs} `{UserMemory M Z}.

Lemma read_sem_values_ok (m m' : M) ptr n vs :
  read_sem_values m ptr n = (Ok vs, m') → Forall sem_value_ok vs ∧ length vs = n.
Proof.
  revert m ptr vs. induction n as [|n IH]; intros m ptr vs; cbn; [by intros [= <- _]|].
  destruct (user_read m ptr) as [[v|e] m1]; cbn; [|done].
  destruct (SEMVMX <? uwrap 16 v) eqn:Hv; [done|].
  destruct (read_sem_values m1 _ n) as [[ws|e] m2] eqn:Hr; cbn; [|done].
  intros [= <- <-]. destruct (IH _ _ _ Hr) as [? ?]. split; [|by f_equal/=].
  constructor; [|done]. pose proof (uwrap_range 16 v) as [? _]; [lia|].
  unfold sem_value_ok. lia.
Qed.

Lemma semctl_inv c id num cmd arg (m : M) st :
  is_uint 64 arg → sem_inv st → sem_inv (semctl c id num cmd arg m st).2.
Proof.
  intros Harg Hi. unfold semctl. destruct (_ || _).
  { destruct (arg =? 0); [done|]. by destruct (user_write m arg seminfo). }
  destruct (ipc_get _ id st) as [set|] eqn:Hg; [|done].
  destruct (sem_inv_get _ _ _ _ Hi Hg) as [(Hv & Hl & Hr & Hm) Hid].
  destruct (cmd =? IPC_RMID); [destruct (not_owner _ _); [done|by apply sem_inv_remove]|].
  destruct (_ || _); [destruct_all; done|].
  destruct (cmd =? IPC_SET).
  { destruct (arg =? 0); [done|]. destruct (not_owner _ _); [done|].
    destruct (user_read m arg) as [[ds|e] m']; [|done].
    eapply sem_inv_update; [done|exact Hid| |done..]. split; [done|]. split; [done|].
    split; [done|]. apply mode_mask_range. }
  destruct (_ || _ || _ || _); [destruct_all; done|].
  destruct (cmd =? GETALL); [destruct_all; done|].
  destruct (cmd =? SETVAL).
  { destruct (num <? 0); [done|]. destruct (negb _); [done|]. destruct (SEMVMX <? arg) eqn:Hmax; [done|].
    destruct (values set !! _); [|done]. apply (sem_inv_update st id set); [done..| |done|done].
    split; [|split; [|done]]; cbn.
    - apply Forall_insert; [done|]. unfold is_uint, SEMVMX in *.
      rewrite uwrap_id by (unfold is_uint; lia). unfold sem_value_ok, SEMVMX. lia.
    - unfold zlen in *. by rewrite length_insert. }
  destruct (cmd =? SETALL); [|done].
  destruct (negb _); [done|]. destruct (arg =? 0); [done|].
  destruct (read_sem_values m arg _) as [[vs|e] m'] eqn:Hvs; [|done].
  destruct (read_sem_values_ok _ _ _ _ _ Hvs) as [Hok Hlen].
  apply (sem_inv_update st id set); [done..| |done|done].
  split; [done|]. split; [|done]. unfold zlen in *. cbn. by rewrite Hlen.
Qed.
End semctl_inv.

Lemma semtimedop_try_inv c id ops nowait deadline st :
  Forall (λ op, is_sint 16 op.(sem_op)) ops → sem_inv st →
  match semtimedop_try c id ops nowait deadline st with Return _ st' | Sleep st' => sem_inv st' end.
Proof.
  intros Ho Hi. unfold semtimedop_try. destruct (ipc_get _ id st) as [set|] eqn:Hg; [|done].
  destruct (sem_inv_get _ _ _ _ Hi Hg) as [(Hv & Hl & Hr & Hm) Hid].
  destruct (negb _); [done|]. destruct (ops_ready set ops) as [[]|]; [|by destruct_all|done].
  destruct (apply_ops_loop_inv (values set) ops Hv Ho) as [Hv' Hl']. unfold apply_ops.
  destruct (apply_ops_loop (values set) ops) as [[[]|e] vs]; cbn in Hv', Hl';
    apply (sem_inv_update st id set); try done; (split; [done|split; [|done]]);
    unfold zlen in *; cbn; by rewrite Hl'.
Qed.

(** ** Interleaved calls *)

(** One call, or one pass of a [semtimedop], of some process; the clock may have moved on. *)
Inductive sem_step (st : SysvSemState) : SysvSemState → Prop :=
  | step_semget c k nsems flg : sem_step st (semget c k nsems flg st).2
  | step_semctl M `(UserMemory M LinuxSeminfo) `(UserMemory M LinuxSemidDs) `(UserMemory M Z)
      c id num cmd arg (m : M) :
      is_uint 64 arg → sem_step st (semctl c id num cmd arg m st).2
  | step_semop c id ops nowait deadline r st' :
      Forall (λ op, is_sint 16 op.(sem_op)) ops →
      semtimedop_try c id ops nowait deadline st = Return r st' → sem_step st st'
  | step_clock clk : sem_step st (mkIpc st.(next_id) st.(objects) clk st.(io_wakeups)).

Lemma sem_step_inv st st' : sem_step st st' → sem_inv st → sem_inv st'.
Proof.
  intros Hs Hi. destruct Hs as [c k nsems flg|M ? ? ? c id num cmd arg m Ha|c id ops nw dl r st' Ho Ht|clk].
  - by apply semget_inv.
  - by apply semctl_inv.
  - pose proof (semtimedop_try_inv c id ops nw dl st Ho Hi) as H. by rewrite Ht in H.
  - exact Hi.
Qed.

Lemma sem_inv_init clk : sem_inv (ipc_init clk).
Proof. split; [intros ? ?; cbn [ipc_init objects]; by rewrite lookup_empty|]. split; [apply unique_keys_empty|done]. Qed.

(** A pass of [semtimedop] never wakes the processes that sleep on the set. *)
Lemma semtimedop_try_wakeups c id ops nowait deadline st r st' :
  semtimedop_try c id ops nowait deadline st = Return r st' → st'.(io_wakeups) = st.(io_wakeups).
Proof. unfold semtimedop_try. intros. by destruct_all. Qed.

(** Two decrements of one semaphore are tested against the same value, so the second can
    fail after the first has been carried out: the call fails with its first half done. *)
Definition ex_cred : Credentials := mkCredentials 1 100 0 0 [].
Definition ex_set (vs : list Z) : SysvSemSet := mkSemSet 1 7 vs 0 0 0 0 0 384 0 0 0 false.
Definition ex_sems (vs : list Z) : SysvSemState := mkIpc 1 {[ 1 := ex_set vs ]} (ex_clock 3000) 0.

Lemma semop_half_done :
  semtimedop_try ex_cred 1 [mkSembuf 0 (-1) 0; mkSembuf 0 (-1) 0] false None (ex_sems [1]) =
    Return (Err SyscallError.TryAgain) (ex_sems [0]).
Proof. reflexivity. Qed.

Lemma ex_sems_inv vs : Forall sem_value_ok vs → 1 ≤ zlen vs ≤ SEMMSL → sem_inv (ex_sems vs).
Proof.
  intros Hv Hl. unfold ex_sems. split; [|split; [|done]]; cbn [objects].
  - intros id set [_ <-]%lookup_singleton_Some. split; [done|]. by split.
  - intros i j x y [<- _]%lookup_singleton_Some [<- _]%lookup_singleton_Some. done.
Qed.

(** ** Properties *)

(** C36. In every table reached from the empty one by semaphore calls, each set holds 1 to
    SEMMSL values between 0 and SEMVMX and is not removed, there are at most SEMMNI sets,
    and no two sets of a namespace share a key. *)
Theorem sem_table_invariant clk st : rtc sem_step (ipc_init clk) st → sem_inv st.
Proof.
  intros Hr. pose proof (sem_inv_init clk) as Hi.
  induction Hr as [|x y z Hxy _ IH]; [done|]. by apply IH, (sem_step_inv x).
Qed.

Lemma sem_table_invariant_witness :
  ∃ st set, st.(objects) !! 1 = Some set ∧ set.(values) = [5; 0] ∧ sem_inv st.
Proof.
  eexists (semctl (M := unit) ex_cred 1 0 SETVAL 5 tt
    (semget ex_cred 7 2 (IPC_CREAT + 384) (ipc_init (ex_clock 3000))).2).2, _.
  split; [vm_compute; reflexivity|]. split; [reflexivity|].
  apply (sem_table_invariant (ex_clock 3000)).
  eapply rtc_l; [apply (step_semget _ ex_cred 7 2 (IPC_CREAT + 384))|].
  apply rtc_once. by apply step_semctl.
Defined.

(** A successful pass of [semop] adds to every semaphore exactly the sum of the
    operations on it, keeps every value in bounds, and changes nothing else of the table. *)
Lemma semop_success c semid ops nowait deadline st st' r :
  sem_inv st → Forall (λ op, is_sint 16 op.(sem_op)) ops →
  semtimedop_try c semid ops nowait deadline st = Return (Ok r) st' →
  ∃ set set', st.(objects) !! semid = Some set ∧ st'.(objects) = <[semid := set']> st.(objects) ∧
    (∀ i, set'.(values) !! i = (λ v, v + ops_delta ops i) <$> set.(values) !! i) ∧
    Forall sem_value_ok set'.(values) ∧ set'.(last_pid) = c.(cred_pid) ∧
    has_access set c true = true.
Proof.
  intros Hi Ho. unfold semtimedop_try. destruct (ipc_get _ semid st) as [set|] eqn:Hg; [|done].
  destruct (sem_inv_get _ _ _ _ Hi Hg) as [(Hv & _) Hid].
  destruct (has_access set c true) eqn:Hacc; cbn [negb]; [|done].
  destruct (ops_ready set ops) as [[]|]; [|by destruct_all|done].
  destruct (apply_ops_loop_inv (values set) ops Hv Ho) as [Hv' _]. unfold apply_ops.
  destruct (apply_ops_loop (values set) ops) as [[[]|e] vs] eqn:Hl; cbn; [|done].
  intros [= _ <-]. exists set. eexists. split; [done|]. split; [reflexivity|]. cbn.
  split; [|done]. by eapply apply_ops_loop_ok.
Qed.

Lemma semop_success_witness :
  ∃ st', semtimedop_try ex_cred 1 [mkSembuf 0 3 0; mkSembuf 0 (-1) 0] true None (ex_sems [1]) =
    Return (Ok 0) st' ∧ ∃ set', st'.(objects) = <[1 := set']> (ex_sems [1]).(objects).
Proof.
  eexists. split; [vm_compute; reflexivity|].
  edestruct (semop_success ex_cred 1 [mkSembuf 0 3 0; mkSembuf 0 (-1) 0] true None (ex_sems [1]))
    as (set & set' & _ & Hst & _); [| |vm_compute; reflexivity|by exists set'].
  - apply ex_sems_inv; [repeat constructor; done|done].
  - repeat constructor; done.
Defined.

(** When the operations name different semaphores and none would exceed SEMVMX, [semop]
    is all or nothing: if every one of them can proceed the pass succeeds and applies them
    all, otherwise nothing changes and the call fails with [EAGAIN] (no waiting, or past the
    deadline) or sleeps. *)
Lemma semop_all_or_nothing c semid ops nowait deadline st set :
  sem_inv st → ipc_get c.(cred_namespace) semid st = Some set → has_access set c true = true →
  Forall (op_in_range set.(values)) ops → NoDup (map sem_num ops) →
  (∀ op v, op ∈ ops → set.(values) !! Z.to_nat op.(sem_num) = Some v → v + op.(sem_op) ≤ SEMVMX) →
  if forallb (op_ready set.(values)) ops
  then ∃ vs, semtimedop_try c semid ops nowait deadline st =
      Return (Ok 0) (ipc_put semid (with_last_op (with_values set vs) c.(cred_pid) (now_seconds st)) st) ∧
    ∀ i, vs !! i = (λ v, v + ops_delta ops i) <$> set.(values) !! i
  else semtimedop_try c semid ops nowait deadline st =
    if nowait || deadline_passed st.(clock) deadline
    then Return (Err SyscallError.TryAgain) st else Sleep st.
Proof.
  intros Hi Hg Hacc Hin Hnd Hmax. unfold semtimedop_try. rewrite Hg, Hacc. cbn [negb].
  destruct (sem_inv_get _ _ _ _ Hi Hg) as [(Hv & _) Hid].
  rewrite ops_ready_spec by done. destruct (forallb _ ops) eqn:Hr.
  - pose proof (apply_ops_loop_distinct _ _ Hv Hin Hnd Hr Hmax) as Hok. unfold apply_ops.
    destruct (apply_ops_loop (values set) ops) as [r vs] eqn:Hl. cbn in Hok. subst r.
    exists vs. split; [done|]. eapply apply_ops_loop_ok; [done| |done].
    eapply List.Forall_impl; [|exact Hin]. by intros op [? _].
  - by destruct nowait, (deadline_passed _ _).
Qed.

Lemma semop_all_or_nothing_witness :
  semtimedop_try ex_cred 1 [mkSembuf 0 3 0; mkSembuf 1 (-1) 0] false None (ex_sems [1; 0]) =
    Sleep (ex_sems [1; 0]).
Proof.
  apply (semop_all_or_nothing ex_cred 1 [mkSembuf 0 3 0; mkSembuf 1 (-1) 0] false None
    (ex_sems [1; 0]) (ex_set [1; 0])); try reflexivity.
  - apply ex_sems_inv; [repeat constructor; done|done].
  - repeat constructor; done.
  - vm_compute. repeat constructor; set_solver.
  - intros op v [->|[->|[]%elem_of_nil]%elem_of_cons]%elem_of_cons [= <-]; done.
Defined.

(** A created set is found again: after a successful [semget] with [IPC_CREAT] that
    created the set with owner read permission, [semget] of the key by the same caller
    returns the same identifier and changes nothing. *)
Lemma semget_again c k nsems flg st id st' :
  sem_inv st → k ≠ IPC_PRIVATE → ipc_find c.(cred_namespace) k st = None →
  has_flag flg 256 = true →
  semget c k nsems flg st = (Ok id, st') →
  semget c k 0 0 st' = (Ok id, st').
Proof.
  intros (_ & Hu & _) Hk Hf Hflag. unfold semget at 1.
  destruct (nsems <? 0) eqn:?; [done|]. destruct (SEMMSL <? nsems); [done|].
  replace (k =? IPC_PRIVATE) with false by lia. rewrite Hf.
  destruct (_ && _); [done|]. destruct (nsems =? 0); [done|]. destruct (SEMMNI <=? _); [done|].
  cbn [ipc_next_id]. set (set := mkSemSet _ _ _ _ _ _ _ _ _ _ _ _ _).
  set (n := swrap 32 (next_id st + 1)). intros [= <- <-].
  assert (has_access set c false = true) as Hacc.
  { apply has_access_spec. right. unfold access_class. cbn.
    rewrite bool_decide_true by constructor. split; [|done].
    unfold has_flag in Hflag. change (2 + 6) with 8.
    rewrite Z.land_spec. apply andb_true_iff. split; [|done].
    destruct (Z.testbit flg 8) eqn:Ht; [done|]. exfalso.
    apply negb_true_iff, Z.eqb_neq in Hflag. apply Hflag. apply Z.bits_inj'. intros i Hi.
    rewrite Z.land_spec, Z.bits_0. change 256 with (2 ^ 8). rewrite Z.pow2_bits_eqb by lia.
    destruct (Z.eqb_spec 8 i) as [<-|]; [by rewrite Ht|apply andb_false_r]. }
  unfold semget. cbn [Z.ltb Z.compare]. replace (k =? IPC_PRIVATE) with false by lia.
  destruct (ipc_find_unique (cred_namespace c) k (ipc_put n set st) n set) as [_ Hfind]; [|done|].
  { apply unique_keys_insert_new; [done|]. right. intros j y Hy.
    exact (ipc_find_none _ _ _ _ _ Hf Hy). }
  assert (ipc_put n set (mkIpc n st.(objects) st.(clock) st.(io_wakeups)) =
    mkIpc n (<[n := set]> st.(objects)) st.(clock) st.(io_wakeups)) as -> by done.
  unfold ipc_find in *. cbn [objects ipc_put] in *.
  rewrite Hfind by (rewrite lookup_insert_eq; done). by rewrite Hacc.
Qed.

Lemma semget_again_witness :
  (semget ex_cred 7 0 0 (semget ex_cred 7 2 (IPC_CREAT + 384) (ipc_init (ex_clock 3000))).2).1 = Ok 1.
Proof.
  erewrite (semget_again ex_cred 7 2 (IPC_CREAT + 384) (ipc_init (ex_clock 3000)) 1);
    try (vm_compute; reflexivity); done.
Defined.
