(* ===== verification/SysvMsg.v ===== *)
(** * System V message queues

    ipc/sysv_msg.rs: [msgget], [msgsnd], [msgrcv] and [msgctl] over the table of queues.
    The state is [Ipc SysvMsgQueue]; [msgrcv] also writes user memory inside its loop, so
    its passes run over the pair of memory and table.  [proc_sysvipc_msg_bytes], the text of
    /proc/sysvipc/msg, is not modelled. *)

From Stdlib Require Import Sorted.
From S2P Require Import Prelude Errors Clock Blocking SysvIpc.

(** ** Constants and data *)

Definition MSG_NOERROR : Z := 4096.
Definition MSG_STAT : Z := 11.
Definition MSG_INFO : Z := 12.
Definition MSGMNI : Z := 32000.
Definition MSGMAX : Z := 8192.
Definition MSGMNB : Z := 16384.

Record LinuxMsqidDs := mkMsqidDs {
  msg_perm : LinuxIpcPerm; msg_stime : Z; msg_rtime : Z; msg_ctime : Z; msg_cbytes : Z;
  msg_qnum : Z; msg_qbytes : Z; msg_lspid : Z; msg_lrpid : Z; msqid_pad1 : Z; msqid_pad2 : Z;
}.

Record LinuxMsginfo := mkMsginfo {
  msgpool : Z; msgmap : Z; msgmax : Z; msgmnb : Z; msgmni : Z; msgssz : Z; msgtql : Z;
  msgseg : Z;
}.

Record SysvMessage := mkMessage { ty : Z; data : list byte }.

Record SysvMsgQueue := mkQueue {
  q_namespace_inode : Z;
  q_key : Z;
  messages : list SysvMessage;
  bytes : Z;
  qbytes : Z;
  last_send_pid : Z;
  last_recv_pid : Z;
  q_owner_uid : Z;
  q_owner_gid : Z;
  q_creator_uid : Z;
  q_creator_gid : Z;
  q_mode : Z;
  q_seq : Z;
  stime : Z;
  rtime : Z;
  q_ctime : Z;
  q_removed : bool;
}.

#[export] Instance SysvMsgQueue_object : IpcObject SysvMsgQueue := {
  namespace_inode := q_namespace_inode;
  key := q_key;
  owner_uid := q_owner_uid;
  owner_gid := q_owner_gid;
  creator_uid := q_creator_uid;
  creator_gid := q_creator_gid;
  mode := q_mode;
  removed := q_removed;
}.

Abbreviation SysvMsgState := (Ipc SysvMsgQueue).

(** ** Reports *)

Definition msginfo : LinuxMsginfo :=
  mkMsginfo MSGMNI MSGMNI MSGMAX MSGMNB MSGMNI 16 MSGMNI 65535.

Definition linux_msqid_ds (q : SysvMsgQueue) : LinuxMsqidDs :=
  mkMsqidDs
    (mkIpcPerm q.(q_key) q.(q_owner_uid) q.(q_owner_gid) q.(q_creator_uid) q.(q_creator_gid)
       q.(q_mode) q.(q_seq) 0 0)
    q.(stime) q.(rtime) q.(q_ctime) q.(bytes) (zlen q.(messages)) q.(qbytes)
    q.(last_send_pid) q.(last_recv_pid) 0 0.

(** ** Updates of a queue *)

Definition queue_push (q : SysvMsgQueue) (msgsz : Z) (msg : SysvMessage) (pid now : Z)
  : SysvMsgQueue :=
  mkQueue q.(q_namespace_inode) q.(q_key) (q.(messages) ++ [msg]) (q.(bytes) + msgsz)
    q.(qbytes) pid q.(last_recv_pid) q.(q_owner_uid) q.(q_owner_gid) q.(q_creator_uid)
    q.(q_creator_gid) q.(q_mode) q.(q_seq) now q.(rtime) q.(q_ctime) q.(q_removed).

Definition with_messages (q : SysvMsgQueue) (msgs : list SysvMessage) : SysvMsgQueue :=
  mkQueue q.(q_namespace_inode) q.(q_key) msgs q.(bytes) q.(qbytes) q.(last_send_pid)
    q.(last_recv_pid) q.(q_owner_uid) q.(q_owner_gid) q.(q_creator_uid) q.(q_creator_gid)
    q.(q_mode) q.(q_seq) q.(stime) q.(rtime) q.(q_ctime) q.(q_removed).

(** The fields set once a message has been taken out. *)
Definition queue_received (q : SysvMsgQueue) (len pid now : Z) : SysvMsgQueue :=
  mkQueue q.(q_namespace_inode) q.(q_key) q.(messages) (sat_sub q.(bytes) len) q.(qbytes)
    q.(last_send_pid) pid q.(q_owner_uid) q.(q_owner_gid) q.(q_creator_uid)
    q.(q_creator_gid) q.(q_mode) q.(q_seq) q.(stime) now q.(q_ctime) q.(q_removed).

Definition queue_set (q : SysvMsgQueue) (uid gid mode qbytes now : Z) : SysvMsgQueue :=
  mkQueue q.(q_namespace_inode) q.(q_key) q.(messages) q.(bytes) qbytes q.(last_send_pid)
    q.(last_recv_pid) uid gid q.(q_creator_uid) q.(q_creator_gid) mode q.(q_seq) q.(stime)
    q.(rtime) now q.(q_removed).

(** [Vec::insert] *)
Definition vec_insert {A} (i : nat) (x : A) (l : list A) : list A := take i l ++ x :: drop i l.

(** ** Choosing a message *)

(** [iter().position(P)] *)
Fixpoint position {A} (P : A → bool) (l : list A) : option nat :=
  match l with
  | [] => None
  | x :: l => if P x then Some O else S <$> position P l
  end.

Definition enumerate {A} (l : list A) : list (nat * A) := zip (seq 0 (length l)) l.

Definition type_leb (a b : nat * SysvMessage) : bool := a.2.(ty) <=? b.2.(ty).

Definition select_message (msgs : list SysvMessage) (msgtyp : Z) : option nat :=
  if msgtyp =? 0 then match msgs with [] => None | _ => Some O end
  else if 0 <? msgtyp then position (λ m, m.(ty) =? msgtyp) msgs
  else
    let limit := swrap 64 (- msgtyp) in
    fst <$> min_by type_leb (List.filter (λ im, im.2.(ty) <=? limit) (enumerate msgs)).

(** ** System calls *)

Definition msgget (c : Credentials) (k msgflg : Z) (st : SysvMsgState)
  : result SyscallError Z * SysvMsgState :=
  let create := has_flag msgflg IPC_CREAT in
  let exclusive := has_flag msgflg IPC_EXCL in
  match (if k =? IPC_PRIVATE then None else ipc_find c.(cred_namespace) k st) with
  | Some (msqid, q) =>
      bail SyscallError.FileAlreadyExists when create && exclusive with st;
      bail SyscallError.PermissionDenied when negb (has_access q c false) with st;
      (Ok (uwrap 64 msqid), st)
  | None =>
      bail SyscallError.FileNotFound when negb create && negb (k =? IPC_PRIVATE) with st;
      bail SyscallError.NoSpaceLeft when MSGMNI <=? Z.of_nat (size st.(objects)) with st;
      let '(msqid, st) := ipc_next_id st in
      let q := mkQueue c.(cred_namespace) k [] 0 MSGMNB 0 0
        c.(effective_uid) c.(effective_gid) c.(effective_uid) c.(effective_gid)
        (Z.land msgflg IPC_MODE_MASK) 0 0 0 (now_seconds st) false in
      (Ok (uwrap 64 msqid), ipc_put msqid q st)
  end.

(** One pass of the loop of [msgsnd]. *)
Definition msgsnd_try (c : Credentials) (msqid ty msgsz msgflg : Z) (data : list byte)
  (st : SysvMsgState) : attempt SysvMsgState SyscallError Z :=
  match ipc_get c.(cred_namespace) msqid st with
  | None => Return (Err SyscallError.InvalidArguments) st
  | Some q =>
      if negb (has_access q c true) then Return (Err SyscallError.PermissionDenied) st
      else if q.(bytes) + msgsz <=? q.(qbytes) then
        let q := queue_push q msgsz (mkMessage ty data) c.(cred_pid) (now_seconds st) in
        Return (Ok 0) (wake_io (ipc_put msqid q st))
      else if has_flag msgflg IPC_NOWAIT then Return (Err SyscallError.TryAgain) st
      else Sleep st
  end.

(** [.map_err(SyscallError::from)?] on the result of the sleep. *)
Definition msg_on_wake {St} (st : St) (r : result ObjectError unit) : option SyscallError * St :=
  match r with
  | Ok _ => (None, st)
  | Err e => (Some (object_error_as_syscall_error e), st)
  end.

Section msg.
Context {M : Type} `{UserMemory M Z} `{UserBuffer M}.
Context `{UserMemory M LinuxMsginfo} `{UserMemory M LinuxMsqidDs}.

Definition msgsnd (c : Credentials) (msqid msgp msgsz msgflg : Z)
  (ws : list (wakeup SysvMsgState)) (m : M) (st : SysvMsgState)
  : option (result SyscallError Z) * M * SysvMsgState :=
  if msgp =? 0 then (Some (Err SyscallError.BadAddress), m, st)
  else if MSGMAX <? msgsz then (Some (Err SyscallError.InvalidArguments), m, st)
  else
    let '(ty, m) := user_read m msgp in
    match swrap 64 <$> ty with
    | Err e => (Some (Err e), m, st)
    | Ok ty =>
        if ty <=? 0 then (Some (Err SyscallError.InvalidArguments), m, st)
        else
          let '(data, m) := user_read_buffer m (uwrap 64 (msgp + 8)) msgsz in
          match data with
          | Err e => (Some (Err e), m, st)
          | Ok data =>
              let '(r, st) := blocking_loop (msgsnd_try c msqid ty msgsz msgflg data)
                                msg_on_wake ws st in
              (r, m, st)
          end
    end.

(** One pass of the loop of [msgrcv]. *)
Definition msgrcv_try (c : Credentials) (msqid msgp msgsz msgtyp msgflg : Z)
  (s : M * SysvMsgState) : attempt (M * SysvMsgState) SyscallError Z :=
  let '(m, st) := s in
  match ipc_get c.(cred_namespace) msqid st with
  | None => Return (Err SyscallError.IdentifierRemoved) (m, st)
  | Some q =>
      if negb (has_access q c false) then Return (Err SyscallError.PermissionDenied) (m, st)
      else
        match (i ← select_message q.(messages) msgtyp; pair i <$> q.(messages) !! i) with
        | Some (index, message) =>
            let q := with_messages q (delete index q.(messages)) in
            let len := zlen message.(data) in
            if (msgsz <? len) && negb (has_flag msgflg MSG_NOERROR) then
              let q := with_messages q (vec_insert index message q.(messages)) in
              Return (Err SyscallError.InvalidArguments) (m, ipc_put msqid q st)
            else
              let q := queue_received q len c.(cred_pid) (now_seconds st) in
              let st := ipc_put msqid q st in
              let copied := Z.min len msgsz in
              let '(w, m) := user_write m msgp message.(ty) in
              match w with
              | Err e => Return (Err e) (m, st)
              | Ok _ =>
                  let '(w, m) := user_write_buffer m (uwrap 64 (msgp + 8))
                                   (zslice message.(data) 0 copied) in
                  match w with
                  | Err e => Return (Err e) (m, st)
                  | Ok _ => Return (Ok copied) (m, wake_io st)
                  end
              end
        | None =>
            if has_flag msgflg IPC_NOWAIT then Return (Err SyscallError.NoMessage) (m, st)
            else Sleep (m, st)
        end
  end.

Definition msgrcv (c : Credentials) (msqid msgp msgsz msgtyp msgflg : Z)
  (ws : list (wakeup (M * SysvMsgState))) (m : M) (st : SysvMsgState)
  : option (result SyscallError Z) * (M * SysvMsgState) :=
  if msgp =? 0 then (Some (Err SyscallError.BadAddress), (m, st))
  else blocking_loop (msgrcv_try c msqid msgp msgsz msgtyp msgflg) msg_on_wake ws (m, st).

Definition msgctl (c : Credentials) (msqid cmd buf : Z) (m : M) (st : SysvMsgState)
  : result SyscallError Z * M * SysvMsgState :=
  if (cmd =? IPC_INFO) || (cmd =? MSG_INFO) then
    if buf =? 0 then (Err SyscallError.BadAddress, m, st)
    else
      let '(w, m) := user_write m buf msginfo in
      ((λ _, MSGMNI - 1) <$> w, m, st)
  else
  match ipc_get c.(cred_namespace) msqid st with
  | None => (Err SyscallError.InvalidArguments, m, st)
  | Some q =>
      if cmd =? IPC_RMID then
        if not_owner q c.(effective_uid) then (Err SyscallError.PermissionDenied, m, st)
        else (Ok 0, m, wake_io (ipc_remove msqid st))
      else if (cmd =? IPC_STAT) || (cmd =? MSG_STAT) then
        if negb (has_access q c false) then (Err SyscallError.PermissionDenied, m, st)
        else if buf =? 0 then (Err SyscallError.BadAddress, m, st)
        else
          let '(w, m) := user_write m buf (linux_msqid_ds q) in
          ((λ _, if cmd =? MSG_STAT then uwrap 64 msqid else 0) <$> w, m, st)
      else if cmd =? IPC_SET then
        if buf =? 0 then (Err SyscallError.BadAddress, m, st)
        else if not_owner q c.(effective_uid) then (Err SyscallError.PermissionDenied, m, st)
        else
          let '(ds, m) := user_read (T := LinuxMsqidDs) m buf in
          match ds with
          | Err e => (Err e, m, st)
          | Ok ds =>
              (Ok 0, m, ipc_put msqid (queue_set q ds.(msg_perm).(uid) ds.(msg_perm).(gid)
                 (Z.land ds.(msg_perm).(perm_mode) IPC_MODE_MASK)
                 (Z.min ds.(msg_qbytes) MSGMNB) (now_seconds st)) st)
          end
      else (Err SyscallError.InvalidArguments, m, st)
  end.
End msg.

(** ** Specification *)

Definition total_bytes (msgs : list SysvMessage) : Z := foldr Z.add 0 (map (λ m, zlen m.(data)) msgs).

Definition queue_ok (q : SysvMsgQueue) : Prop :=
  q.(bytes) = total_bytes q.(messages) ∧ q.(bytes) ≤ MSGMNB ∧ q.(qbytes) ≤ MSGMNB ∧
  Forall (λ m, 0 < m.(ty) ∧ zlen m.(data) ≤ MSGMAX) q.(messages) ∧ q.(q_removed) = false.

Definition msg_inv (st : SysvMsgState) : Prop :=
  (∀ id q, st.(objects) !! id = Some q → queue_ok q) ∧
  unique_keys st.(objects) ∧ Z.of_nat (size st.(objects)) ≤ MSGMNI.

(** Which messages a request accepts: any, those of a type, or those up to a type. *)
Definition accepts (msgtyp : Z) (m : SysvMessage) : Prop :=
  if msgtyp =? 0 then True
  else if 0 <? msgtyp then m.(ty) = msgtyp else m.(ty) ≤ - msgtyp.

(** Message [i] comes before [j] for the request: in queue order, except that a request up
    to a type takes the lowest type first. *)
Definition preferred (msgtyp : Z) (i : nat) (m : SysvMessage) (j : nat) (m' : SysvMessage) : Prop :=
  if msgtyp <? 0 then m.(ty) < m'.(ty) ∨ (m.(ty) = m'.(ty) ∧ (i ≤ j)%nat) else (i ≤ j)%nat.

(** ** Lemmas: choosing a message *)

Lemma elem_of_enumerate {A} (l : list A) i x : (i, x) ∈ enumerate l ↔ l !! i = Some x.
Proof.
  unfold enumerate. rewrite elem_of_lookup_zip_with. split.
  - intros (j & a & b & [= -> ->] & [-> _]%lookup_seq & Hb). done.
  - intros Hx. exists i, i, x. split; [done|]. split; [|done].
    apply lookup_seq. split; [lia|]. by eapply lookup_lt_Some.
Qed.

Definition index_lt {A} (a b : nat * A) : Prop := (a.1 < b.1)%nat.

Lemma enumerate_sorted {A} (l : list A) : StronglySorted index_lt (enumerate l).
Proof.
  unfold enumerate. generalize 0%nat. induction l as [|x l IH]; intros k; cbn; [constructor|].
  constructor; [apply IH|]. apply Forall_forall. intros [i y] Hy.
  apply elem_of_lookup_zip_with in Hy as (j & a & b & [= -> ->] & [-> _]%lookup_seq & _).
  unfold index_lt. cbn. lia.
Qed.

Lemma sorted_filter {A} (R : A → A → Prop) P l :
  StronglySorted R l → StronglySorted R (List.filter P l).
Proof.
  induction 1 as [|x l Hl IH Hx]; cbn; [constructor|]. destruct (P x); [|done].
  constructor; [done|]. rewrite Forall_forall in *. intros y [Hy _]%list_elem_of_In%filter_In.
  by apply Hx, list_elem_of_In.
Qed.

Lemma position_some {A} (P : A → bool) l i :
  position P l = Some i →
  ∃ x, l !! i = Some x ∧ P x = true ∧ ∀ j y, l !! j = Some y → P y = true → (i ≤ j)%nat.
Proof.
  revert i. induction l as [|x l IH]; intros i; cbn; [done|]. destruct (P x) eqn:Hx.
  - intros [= <-]. exists x. split_and!; try done. lia.
  - intros (k & Hk & ->)%fmap_Some. destruct (IH k Hk) as (y & Hy & HPy & Hmin).
    exists y. split_and!; try done. intros [|j] z Hz HPz; cbn in Hz; [congruence|].
    specialize (Hmin j z Hz HPz). lia.
Qed.

Lemma position_none {A} (P : A → bool) l x : position P l = None → x ∈ l → P x = false.
Proof.
  induction l as [|y l IH]; cbn; [by intros _ ?%elem_of_nil|]. destruct (P y) eqn:Hy; [done|].
  intros Hn%fmap_None [->|Hx]%elem_of_cons; auto.
Qed.

Lemma type_leb_total a b : type_leb a b = true ∨ type_leb b a = true.
Proof. unfold type_leb. lia. Qed.

Lemma type_leb_trans a b c : type_leb a b = true → type_leb b c = true → type_leb a c = true.
Proof. unfold type_leb. lia. Qed.

Lemma select_up_to_some msgs limit i m :
  min_by type_leb (List.filter (λ im, im.2.(ty) <=? limit) (enumerate msgs)) = Some (i, m) →
  msgs !! i = Some m ∧ m.(ty) ≤ limit ∧
  ∀ j m', msgs !! j = Some m' → m'.(ty) ≤ limit →
    m.(ty) < m'.(ty) ∨ (m.(ty) = m'.(ty) ∧ (i ≤ j)%nat).
Proof.
  intros Hm. set (l := List.filter _ _) in Hm.
  assert (∀ j m', (j, m') ∈ l ↔ msgs !! j = Some m' ∧ m'.(ty) ≤ limit) as Hl.
  { intros j m'. unfold l. rewrite list_elem_of_In, filter_In, <- list_elem_of_In.
    by rewrite elem_of_enumerate, Z.leb_le. }
  assert (StronglySorted index_lt l) as Hs by apply sorted_filter, enumerate_sorted.
  apply (min_by_first _ type_leb_total type_leb_trans) in Hm as (l1 & l2 & El & H1 & H2).
  rewrite El in Hs, Hl.
  destruct (proj1 (Hl i m)) as [Hi Hle]; [apply elem_of_app; right; constructor|].
  split; [done|]. split; [done|]. intros j m' Hj Hlim.
  pose proof (proj2 (Hl j m') (conj Hj Hlim)) as Hin.
  apply elem_of_app in Hin as [Hin|[[= -> ->]|Hin]%elem_of_cons].
  - apply H1 in Hin. unfold type_leb in Hin. cbn in Hin. lia.
  - right. done.
  - pose proof (H2 _ Hin) as Hty. unfold type_leb in Hty. cbn in Hty.
    apply StronglySorted_app_1_r in Hs. inversion Hs as [|? ? _ Hall]. subst.
    rewrite Forall_forall in Hall. specialize (Hall _ Hin). unfold index_lt in Hall. cbn in Hall. lia.
Qed.

Lemma accepts_up_to msgtyp m :
  is_sint 64 msgtyp → msgtyp ≠ - 2 ^ 63 → (msgtyp =? 0) = false → (0 <? msgtyp) = false →
  accepts msgtyp m ↔ m.(ty) ≤ swrap 64 (- msgtyp).
Proof.
  intros Ht Hmin H0 Hp. unfold accepts. rewrite H0, Hp.
  change (- 2 ^ 63) with (-9223372036854775808) in Hmin.
  unfold is_sint in Ht. change (2 ^ (64 - 1)) with 9223372036854775808 in Ht.
  rewrite swrap_id; [done|lia|]. unfold is_sint. change (2 ^ (64 - 1)) with 9223372036854775808. lia.
Qed.

(** ** Lemmas: queues *)

Lemma total_bytes_cons m l : total_bytes (m :: l) = zlen m.(data) + total_bytes l.
Proof. done. Qed.

Lemma total_bytes_app l k : total_bytes (l ++ k) = total_bytes l + total_bytes k.
Proof.
  induction l as [|m l IH]; [done|]. cbn [app]. rewrite !total_bytes_cons. lia.
Qed.

Lemma total_bytes_delete l i m :
  l !! i = Some m → total_bytes l = zlen m.(data) + total_bytes (delete i l).
Proof.
  revert i. induction l as [|x l IH]; intros [|i] Hi; cbn in Hi; simplify_eq; [done|].
  change (delete (S i) (x :: l)) with (x :: delete i l).
  rewrite !total_bytes_cons, (IH i Hi). lia.
Qed.

Lemma total_bytes_nonneg l : 0 ≤ total_bytes l.
Proof.
  induction l as [|m l IH]; [done|]. rewrite total_bytes_cons.
  pose proof (zlen_nonneg m.(data)). lia.
Qed.

(** Taking a message out and putting it back where it was. *)
Lemma vec_insert_delete {A} (l : list A) i x :
  l !! i = Some x → vec_insert i x (delete i l) = l.
Proof.
  unfold vec_insert. revert i. induction l as [|y l IH]; intros [|i] Hi; cbn in *; simplify_eq; [done|].
  f_equal. by apply IH.
Qed.

Lemma msg_inv_get st ns id q :
  msg_inv st → ipc_get ns id st = Some q → queue_ok q ∧ st.(objects) !! id = Some q.
Proof. intros (Hs & _) (Hid & _)%ipc_get_some. split; [by eapply Hs|done]. Qed.

Lemma msg_inv_update st id q q' :
  msg_inv st → st.(objects) !! id = Some q → queue_ok q' →
  q_namespace_inode q' = q_namespace_inode q → q_key q' = q_key q →
  msg_inv (ipc_put id q' st).
Proof.
  intros (Hs & Hu & Hn) Hid Hok Hns Hk. split; [|split]; cbn [objects ipc_put].
  - intros j x Hx. apply lookup_insert_Some in Hx as [[_ <-]|[_ Hx]]; [done|by eapply Hs].
  - eapply unique_keys_update; [done|exact Hid|done..|].
    intros _. by destruct (Hs _ _ Hid) as (_ & _ & _ & _ & ?).
  - by rewrite map_size_insert, Hid.
Qed.

Lemma queue_push_ok q msgsz msg pid now :
  queue_ok q → 0 < msg.(ty) → zlen msg.(data) = msgsz → msgsz ≤ MSGMAX →
  q.(bytes) + msgsz ≤ q.(qbytes) → queue_ok (queue_push q msgsz msg pid now).
Proof.
  intros (Hb & Hm & Hq & Hf & Hr) Hty Hlen Hmax Hfit. split_and!;
    cbn [bytes messages qbytes queue_push q_removed]; try done; try lia.
  - rewrite total_bytes_app, total_bytes_cons, Hb. unfold total_bytes at 3. cbn. lia.
  - apply Forall_app. split; [done|]. constructor; [|constructor]. lia.
Qed.

Lemma queue_receive_ok q i msg pid now :
  queue_ok q → q.(messages) !! i = Some msg →
  queue_ok (queue_received (with_messages q (delete i q.(messages))) (zlen msg.(data)) pid now).
Proof.
  intros (Hb & Hm & Hq & Hf & Hr) Hi. pose proof (total_bytes_delete _ _ _ Hi) as Htot.
  pose proof (total_bytes_nonneg (delete i (messages q))). pose proof (zlen_nonneg msg.(data)).
  split_and!; cbn [bytes messages qbytes queue_received with_messages q_removed];
    try done; unfold sat_sub; [lia|lia|]. by apply Forall_delete.
Qed.

(** ** Lemmas: the invariant *)

Lemma msgget_inv c k flg st : msg_inv st → msg_inv (msgget c k flg st).2.
Proof.
  intros Hi. unfold msgget.
  destruct (if k =? IPC_PRIVATE then None else ipc_find _ k st) as [[id q]|] eqn:Hf; [by destruct_all|].
  destruct (_ && _); [done|]. destruct (MSGMNI <=? _) eqn:Hfull; [done|]. cbn [ipc_next_id].
  destruct Hi as (Hs & Hu & Hn). boolify. split; [|split]; cbn [objects ipc_put snd].
  - intros j x Hx. apply lookup_insert_Some in Hx as [[_ <-]|[_ Hx]]; [|by eapply Hs].
    split_and!; try done.
  - apply unique_keys_insert_new; [done|]. cbn.
    destruct (k =? IPC_PRIVATE) eqn:Hp; [left; lia|right]. intros j y Hy.
    exact (ipc_find_none _ _ _ _ _ Hf Hy).
  - rewrite map_size_insert. destruct (_ !! _); unfold Datatypes.id; lia.
Qed.

Lemma msgsnd_try_inv c id ty msgsz flg data st :
  0 < ty → zlen data = msgsz → msgsz ≤ MSGMAX → msg_inv st →
  match msgsnd_try c id ty msgsz flg data st with Return _ st' | Sleep st' => msg_inv st' end.
Proof.
  intros Hty Hlen Hmax Hi. unfold msgsnd_try. destruct (ipc_get _ id st) as [q|] eqn:Hg; [|done].
  destruct (msg_inv_get _ _ _ _ Hi Hg) as [Hok Hid].
  destruct (negb _); [done|]. destruct (_ <=? _) eqn:Hfit; [|by destruct (has_flag _ _)].
  apply (msg_inv_update st id q); [done..| |done|done]. apply queue_push_ok; try done. lia.
Qed.

Section handlers.
Context {M : Type} `{UserMemory M Z} `{UserBuffer M}.
Context `{UserMemory M LinuxMsginfo} `{UserMemory M LinuxMsqidDs}.

(** The request names a message of the queue, if any. *)
Lemma msgrcv_try_inv c id msgp msgsz msgtyp flg (m : M) st :
  msg_inv st →
  match msgrcv_try c id msgp msgsz msgtyp flg (m, st) with
  | Return _ s | Sleep s => msg_inv s.2
  end.
Proof.
  intros Hi. unfold msgrcv_try. destruct (ipc_get _ id st) as [q|] eqn:Hg; [|done].
  destruct (msg_inv_get _ _ _ _ Hi Hg) as [Hok Hid]. destruct (negb _); [done|].
  destruct (select_message _ _) as [i|]; cbn [mbind option_bind]; [|by destruct (has_flag _ _)].
  destruct (messages q !! i) as [msg|] eqn:Hm; cbn [fmap option_fmap option_map];
    [|by destruct (has_flag _ _)].
  destruct (_ && _).
  - apply (msg_inv_update st id q); [done..| |done|done].
    cbn [messages with_messages]. rewrite vec_insert_delete by done. by destruct q.
  - assert (msg_inv (ipc_put id (queue_received (with_messages q (delete i q.(messages)))
      (zlen msg.(data)) c.(cred_pid) (now_seconds st)) st)) as Hi'.
    { apply (msg_inv_update st id q); [done..| |done|done]. by apply queue_receive_ok. }
    destruct (user_write m msgp msg.(ty)) as [[[]|e] m1]; [|done].
    by destruct (user_write_buffer m1 _ _) as [[[]|e] m2].
Qed.

Lemma msgctl_inv c id cmd buf (m : M) st : msg_inv st → msg_inv (msgctl c id cmd buf m st).2.
Proof.
  intros Hi. unfold msgctl. destruct (_ || _); [by destruct_all|].
  destruct (ipc_get _ id st) as [q|] eqn:Hg; [|done].
  destruct (msg_inv_get _ _ _ _ Hi Hg) as [(Hb & Hmb & Hq & Hf & Hr) Hid].
  destruct (cmd =? IPC_RMID).
  { destruct (not_owner _ _); [done|]. destruct Hi as (Hs & Hu & Hn).
    split; [|split]; cbn [objects wake_io ipc_remove snd].
    - intros j x [_ Hx]%lookup_delete_Some. by eapply Hs.
    - by apply unique_keys_delete.
    - rewrite map_size_delete. destruct (_ !! _); unfold Datatypes.id; lia. }
  destruct (_ || _); [by destruct_all|]. destruct (cmd =? IPC_SET); [|done].
  destruct (buf =? 0); [done|]. destruct (not_owner _ _); [done|].
  destruct (user_read m buf) as [[ds|e] m']; [|done].
  apply (msg_inv_update st id q); [done..| |done|done].
  split; [done|]. split; [done|]. split; [|done]. cbn. lia.
Qed.
End handlers.

(** ** Interleaved calls *)

Inductive msg_step (st : SysvMsgState) : SysvMsgState → Prop :=
  | step_msgget c k flg : msg_step st (msgget c k flg st).2
  | step_msgsnd c id ty flg data r st' :
      0 < ty → zlen data ≤ MSGMAX →
      msgsnd_try c id ty (zlen data) flg data st = Return r st' → msg_step st st'
  | step_msgrcv M `(UserMemory M Z) `(UserBuffer M) c id msgp msgsz msgtyp flg (m : M) r s :
      msgrcv_try c id msgp msgsz msgtyp flg (m, st) = Return r s → msg_step st s.2
  | step_msgctl M `(UserMemory M LinuxMsginfo) `(UserMemory M LinuxMsqidDs) c id cmd buf (m : M) :
      msg_step st (msgctl c id cmd buf m st).2
  | step_clock clk : msg_step st (mkIpc st.(next_id) st.(objects) clk st.(io_wakeups)).

Lemma msg_step_inv st st' : msg_step st st' → msg_inv st → msg_inv st'.
Proof.
  intros Hs Hi. destruct Hs as [c k flg|c id ty flg data r st' Hty Hmax Ht
    |M ? ? c id msgp msgsz msgtyp flg m r s Ht|M ? ? c id cmd buf m|clk].
  - by apply msgget_inv.
  - pose proof (msgsnd_try_inv c id ty _ flg data st Hty eq_refl Hmax Hi) as H. by rewrite Ht in H.
  - pose proof (msgrcv_try_inv c id msgp msgsz msgtyp flg m st Hi) as H'. by rewrite Ht in H'.
  - by apply msgctl_inv.
  - exact Hi.
Qed.

Lemma msg_inv_init clk : msg_inv (ipc_init clk).
Proof.
  split; [intros ? ?; cbn [ipc_init objects]; by rewrite lookup_empty|].
  split; [apply unique_keys_empty|done].
Qed.

Definition ex_cred : Credentials := mkCredentials 1 100 0 0 [].
Definition ex_queue (msgs : list SysvMessage) (n : Z) : SysvMsgQueue :=
  mkQueue 1 7 msgs n MSGMNB 0 0 0 0 0 0 384 0 0 0 0 false.
Definition ex_msgs : SysvMsgState :=
  mkIpc 1 {[ 1 := ex_queue [mkMessage 5 [x00]; mkMessage 2 [x00; x00]; mkMessage 2 []] 3 ]}
    (ex_clock 3000) 0.

(** A receive whose copy to user memory faults has taken the message out of the queue, and
    the senders that wait for room are not woken. *)
Lemma msgrcv_fault_loses_message :
  ∃ m st, msgrcv_try (M := gmap Z byte) ex_cred 1 64 10 0 0 (∅, ex_msgs) =
    Return (Err SyscallError.BadAddress) (m, st) ∧
    messages <$> st.(objects) !! 1 = Some [mkMessage 2 [x00; x00]; mkMessage 2 []] ∧
    st.(io_wakeups) = 0%nat.
Proof. eexists _, _. split; [reflexivity|]. split; reflexivity. Qed.

(** The smallest type request negates to itself, so it accepts no message at all. *)
Lemma select_message_min_none msgs :
  Forall (λ m, 0 < m.(ty)) msgs → select_message msgs (- 2 ^ 63) = None.
Proof.
  intros Hf. unfold select_message.
  change (- 2 ^ 63 =? 0) with false. change (0 <? - 2 ^ 63) with false. cbv iota zeta.
  change (swrap 64 (- - 2 ^ 63)) with (-9223372036854775808).
  destruct (min_by _ _) as [[i m]|] eqn:Hm; [|done].
  apply select_up_to_some in Hm as (Hi & Hle & _). rewrite Forall_forall in Hf.
  specialize (Hf m (list_elem_of_lookup_2 _ _ _ Hi)). lia.
Qed.

(** ** Properties *)

(** C37. In every table reached from the empty one by message calls, the byte count of a
    queue is the sum of the lengths of its messages and at most MSGMNB, every message has a
    positive type and at most MSGMAX bytes, there are at most MSGMNI queues, and no two
    queues of a namespace share a key. *)
Theorem msg_table_invariant clk st : rtc msg_step (ipc_init clk) st → msg_inv st.
Proof.
  intros Hr. pose proof (msg_inv_init clk) as Hi.
  induction Hr as [|x y z Hxy _ IH]; [done|]. by apply IH, (msg_step_inv x).
Qed.

Lemma msg_table_invariant_witness :
  ∃ st, (λ q, (q.(bytes), q.(qbytes), length q.(messages))) <$> st.(objects) !! 1 = Some (2, 16384, 1%nat) ∧
    msg_inv st.
Proof.
  eexists. split; cycle 1.
  - apply (msg_table_invariant (ex_clock 3000)).
    eapply rtc_l; [apply (step_msgget _ ex_cred 7 (IPC_CREAT + 384))|].
    apply rtc_once.
    eapply (step_msgsnd _ ex_cred 1 5 0 [x00; x00]); [done|done|vm_compute; reflexivity].
  - reflexivity.
Defined.

(** [select_message] picks an acceptable message that no acceptable message precedes:
    the first one of the queue, or, for a request up to a type, the first one of the lowest
    type; it picks none only when none is acceptable. *)
Lemma select_message_spec msgs msgtyp :
  is_sint 64 msgtyp → msgtyp ≠ - 2 ^ 63 →
  match select_message msgs msgtyp with
  | Some i => ∃ m, msgs !! i = Some m ∧ accepts msgtyp m ∧
      ∀ j m', msgs !! j = Some m' → accepts msgtyp m' → preferred msgtyp i m j m'
  | None => ∀ m, m ∈ msgs → ¬ accepts msgtyp m
  end.
Proof.
  intros Ht Hmin. unfold select_message, preferred.
  destruct (msgtyp =? 0) eqn:H0.
  { replace (msgtyp <? 0) with false by lia. unfold accepts. rewrite H0.
    destruct msgs as [|m msgs]; [by intros m ?%elem_of_nil|].
    exists m. split_and!; try done. lia. }
  destruct (0 <? msgtyp) eqn:Hp.
  { replace (msgtyp <? 0) with false by lia. unfold accepts. rewrite H0, Hp.
    destruct (position _ msgs) as [i|] eqn:Hpos.
    - apply position_some in Hpos as (m & Hi & Hm & Hfirst). exists m.
      split; [done|]. split; [lia|]. intros j m' Hj Hm'. apply (Hfirst j m' Hj). lia.
    - intros m Hin. pose proof (position_none _ _ _ Hpos Hin). cbn in *. lia. }
  replace (msgtyp <? 0) with true by lia.
  destruct (min_by _ _) as [[i m]|] eqn:Hm; cbn [fmap option_fmap option_map fst].
  - apply select_up_to_some in Hm as (Hi & Hle & Hfirst). exists m.
    rewrite accepts_up_to by done. split_and!; try done.
    intros j m' Hj. rewrite accepts_up_to by done. by apply Hfirst.
  - intros m Hin. rewrite accepts_up_to by done. intros Hle.
    apply min_by_none in Hm. apply list_elem_of_lookup in Hin as [i Hi].
    assert ((i, m) ∈ List.filter (λ im : nat * SysvMessage, im.2.(ty) <=? swrap 64 (- msgtyp))
      (enumerate msgs)) as Hel.
    { apply list_elem_of_In, filter_In. rewrite <- list_elem_of_In, elem_of_enumerate.
      split; [done|]. cbn. lia. }
    rewrite Hm in Hel. by apply elem_of_nil in Hel.
Qed.

Lemma select_message_spec_witness :
  select_message [mkMessage 5 []; mkMessage 2 []; mkMessage 2 []] (-4) = Some 1%nat ∧
  ∀ j m', [mkMessage 5 []; mkMessage 2 []; mkMessage 2 []] !! j = Some m' → accepts (-4) m' →
    preferred (-4) 1 (mkMessage 2 []) j m'.
Proof.
  split; [reflexivity|].
  destruct (select_message_spec [mkMessage 5 []; mkMessage 2 []; mkMessage 2 []] (-4))
    as (m & [= <-] & _ & H); [done|done|exact H].
Defined.

(** A pass of [msgsnd] on a live writable queue appends the message at the end, counts
    its bytes and wakes the receivers exactly when it fits below the limit; otherwise it
    changes nothing and fails with [EAGAIN] or sleeps. *)
Lemma msgsnd_pass c msqid ty msgsz msgflg data st q :
  ipc_get c.(cred_namespace) msqid st = Some q → has_access q c true = true →
  if q.(bytes) + msgsz <=? q.(qbytes)
  then ∃ st' q', msgsnd_try c msqid ty msgsz msgflg data st = Return (Ok 0) st' ∧
    st'.(objects) = <[msqid := q']> st.(objects) ∧
    q'.(messages) = q.(messages) ++ [mkMessage ty data] ∧
    q'.(bytes) = q.(bytes) + msgsz ∧ q'.(qbytes) = q.(qbytes) ∧
    q'.(last_send_pid) = c.(cred_pid) ∧ st'.(io_wakeups) = S st.(io_wakeups)
  else msgsnd_try c msqid ty msgsz msgflg data st =
    if has_flag msgflg IPC_NOWAIT then Return (Err SyscallError.TryAgain) st else Sleep st.
Proof.
  intros Hg Hacc. unfold msgsnd_try. rewrite Hg, Hacc. cbn [negb].
  destruct (_ <=? _); [|done]. eexists _, _. split; [reflexivity|]. by cbn.
Qed.

Lemma msgsnd_pass_witness :
  ∃ st', msgsnd_try ex_cred 1 9 2 0 [x00; x00] ex_msgs = Return (Ok 0) st' ∧
    length <$> (messages <$> st'.(objects) !! 1) = Some 4%nat.
Proof.
  destruct (msgsnd_pass ex_cred 1 9 2 0 [x00; x00] ex_msgs (ex_queue
    [mkMessage 5 [x00]; mkMessage 2 [x00; x00]; mkMessage 2 []] 3))
    as (st' & q' & Ht & Hst & Hm & _); [reflexivity|reflexivity|].
  exists st'. split; [exact Ht|]. rewrite Hst. rewrite lookup_insert_eq. cbn. by rewrite Hm.
Defined.

Section msgrcv_pass.
Context {M : Type} `{UserMemory M Z} `{UserBuffer M}.

(** A pass of [msgrcv] on a live readable queue: without an acceptable message it fails
    with [ENOMSG] or sleeps; a message that is too long is refused, and the table is as
    before, unless MSG_NOERROR truncates it; otherwise exactly the selected message leaves
    the queue, its bytes are no longer counted, and the call returns the copied length. *)
Lemma msgrcv_pass c msqid msgp msgsz msgtyp msgflg (m : M) st q :
  msg_inv st → ipc_get c.(cred_namespace) msqid st = Some q → has_access q c false = true →
  match select_message q.(messages) msgtyp with
  | None => msgrcv_try c msqid msgp msgsz msgtyp msgflg (m, st) =
      if has_flag msgflg IPC_NOWAIT then Return (Err SyscallError.NoMessage) (m, st) else Sleep (m, st)
  | Some i => ∀ msg, q.(messages) !! i = Some msg →
      if (msgsz <? zlen msg.(data)) && negb (has_flag msgflg MSG_NOERROR)
      then msgrcv_try c msqid msgp msgsz msgtyp msgflg (m, st) =
        Return (Err SyscallError.InvalidArguments) (m, st)
      else ∃ r m' st' q', msgrcv_try c msqid msgp msgsz msgtyp msgflg (m, st) = Return r (m', st') ∧
        st'.(objects) = <[msqid := q']> st.(objects) ∧
        q'.(messages) = delete i q.(messages) ∧
        q'.(bytes) = q.(bytes) - zlen msg.(data) ∧
        (∀ n, r = Ok n → n = Z.min (zlen msg.(data)) msgsz ∧ st'.(io_wakeups) = S st.(io_wakeups))
  end.
Proof.
  intros Hi Hg Hacc. destruct (msg_inv_get _ _ _ _ Hi Hg) as [(Hb & _) Hid].
  unfold msgrcv_try. rewrite Hg, Hacc. cbn [negb].
  destruct (select_message _ _) as [i|]; cbn [mbind option_bind]; [|done].
  intros msg Hm. rewrite Hm. cbn [fmap option_fmap option_map].
  destruct (_ && _).
  { cbn [messages with_messages]. rewrite vec_insert_delete by done.
    replace (with_messages (with_messages q _) _) with q by by destruct q.
    unfold ipc_put. rewrite insert_id by done. by destruct st. }
  set (q' := queue_received _ _ _ _).
  assert (q'.(bytes) = q.(bytes) - zlen msg.(data)) as Hq'.
  { unfold q', queue_received, with_messages, sat_sub. cbn [bytes].
    pose proof (total_bytes_delete _ _ _ Hm). pose proof (total_bytes_nonneg (delete i q.(messages))). lia. }
  destruct (user_write m msgp msg.(ty)) as [[[]|e] m1].
  - destruct (user_write_buffer m1 _ _) as [[[]|e] m2]; eexists _, _, _, q'; (split; [reflexivity|]);
      (split; [done|]); (split; [done|]); (split; [done|]); [by intros n [= <-]|done].
  - eexists _, _, _, q'. split; [reflexivity|]. done.
Qed.
End msgrcv_pass.

Lemma ex_msgs_inv : msg_inv ex_msgs.
Proof.
  unfold ex_msgs. split; [|split; [|done]]; cbn [objects].
  - intros id q [_ <-]%lookup_singleton_Some.
    split; [done|]. split; [done|]. split; [done|]. split; [|done]. repeat constructor; done.
  - intros i j x y [<- _]%lookup_singleton_Some [<- _]%lookup_singleton_Some. done.
Qed.

Lemma msgrcv_pass_witness :
  msgrcv_try (M := gmap Z byte) ex_cred 1 64 1 (-3) 0 (∅, ex_msgs) =
    Return (Err SyscallError.InvalidArguments) (∅, ex_msgs).
Proof.
  exact (msgrcv_pass (M := gmap Z byte) ex_cred 1 64 1 (-3) 0 ∅ ex_msgs
    (ex_queue [mkMessage 5 [x00]; mkMessage 2 [x00; x00]; mkMessage 2 []] 3)
    ex_msgs_inv eq_refl eq_refl (mkMessage 2 [x00; x00]) eq_refl).
Defined.
