(* ===== verification/Polling.v ===== *)
(** * File flags and pollable events

    The [FileFlags] bits of object/mod.rs and the events of polling/event.rs, shared by the
    objects that can be read, written and polled. *)

From S2P Require Import Prelude.

(** ** [FileFlags] *)

Definition NONBLOCK : Z := 1.
Definition APPEND : Z := 2.
Definition WRONLY : Z := 4.
Definition RDWR : Z := 8.
Definition ASYNC : Z := 64.

(** [flags.contains(flag)] for a single bit *)
Definition flag_set (flags flag : Z) : bool := negb (Z.land flags flag =? 0).

(** ** [PollableEvent] *)

Module PollableEvent.
Inductive PollableEvent : Type :=
  | CanBeRead
  | CanBeWritten
  | Priority
  | Error
  | Closed
  | ReadClosed
  | PipeWriteSpace
  | Other (value : Z).
End PollableEvent.
Abbreviation PollableEvent := PollableEvent.PollableEvent.

#[export] Instance PollableEvent_eq_dec : EqDecision PollableEvent.
Proof. solve_decision. Defined.

Definition pollable_event_from (value : Z) : PollableEvent :=
  if value =? 0 then PollableEvent.CanBeRead
  else if value =? 1 then PollableEvent.CanBeWritten
  else if value =? 2 then PollableEvent.Priority
  else if value =? 3 then PollableEvent.Error
  else if value =? 4 then PollableEvent.Closed
  else if value =? 5 then PollableEvent.ReadClosed
  else PollableEvent.Other value.
