(* ===== verification/Pipe.v ===== *)
(** * Pipes

    object/pipe.rs: the two endpoints of a pipe over one bounded byte buffer.

    The record [Pipe] holds the shared state, the flags of the two endpoints and whether
    their objects are still alive (the weak references), and logs the calls of
    [wake_pollers_for_object] by event and of the [SIGIO] notification.  A blocking read or
    write is the loop of Blocking.v around one pass.  The process privilege and the sysctl
    limit that choose a capacity are arguments. *)

From S2P Require Import Prelude Errors Blocking Polling.

(** ** Data *)

Definition PIPE_CAPACITY : Z := 64 * 1024.
Definition PIPE_BUF : Z := 4096.
Definition PIPE_MAX_SIZE_LIMIT : Z := Z.shiftl 1 31.
Definition CAP_SYS_RESOURCE : Z := 24.

Module PipeEndpointKind.
Inductive PipeEndpointKind : Type := Read | Write.
End PipeEndpointKind.
Abbreviation PipeEndpointKind := PipeEndpointKind.PipeEndpointKind.

#[export] Instance PipeEndpointKind_eq_dec : EqDecision PipeEndpointKind.
Proof. solve_decision. Defined.

Record PipeState := mkPipeState {
  buffer : list byte;
  capacity : Z;
  readers : Z;
  writers : Z;
}.

Record Pipe := mkPipe {
  state : PipeState;
  read_flags : Z;
  write_flags : Z;
  read_alive : bool;
  write_alive : bool;
  wakes : list PollableEvent;
  async_notified : nat;
}.

(** The process privilege test of [current_process_has_pipe_resource_privilege]. *)
Definition has_pipe_resource_privilege (effective_uid capability_effective : Z) : bool :=
  (effective_uid =? 0) ||
  negb (Z.land capability_effective (Z.shiftl 1 CAP_SYS_RESOURCE) =? 0).

Definition default_pipe_capacity (privileged : bool) (pipe_max_size : Z) : Z :=
  if privileged then PIPE_CAPACITY else Z.max (Z.min PIPE_CAPACITY pipe_max_size) PIPE_BUF.

Definition pipe_pair (privileged : bool) (pipe_max_size flags : Z) : Pipe :=
  mkPipe (mkPipeState [] (default_pipe_capacity privileged pipe_max_size) 0 0)
    flags (Z.lor flags WRONLY) true true [] 0.

(** ** Updates *)

Definition with_state (p : Pipe) (s : PipeState) : Pipe :=
  mkPipe s p.(read_flags) p.(write_flags) p.(read_alive) p.(write_alive) p.(wakes)
    p.(async_notified).

Definition with_buffer (p : Pipe) (b : list byte) : Pipe :=
  with_state p (mkPipeState b p.(state).(capacity) p.(state).(readers) p.(state).(writers)).

Definition log_wake (p : Pipe) (e : PollableEvent) : Pipe :=
  mkPipe p.(state) p.(read_flags) p.(write_flags) p.(read_alive) p.(write_alive)
    (p.(wakes) ++ [e]) p.(async_notified).

Definition wake_readers (p : Pipe) : Pipe :=
  if p.(read_alive) then log_wake p PollableEvent.CanBeRead else p.

Definition wake_writers (p : Pipe) : Pipe :=
  if p.(write_alive) then log_wake p PollableEvent.CanBeWritten else p.

Definition wake_blocked_writers (p : Pipe) : Pipe :=
  if p.(write_alive) then log_wake p PollableEvent.PipeWriteSpace else p.

(** [read.notify_readable()] on the read endpoint, if it is alive. *)
Definition notify_readable (p : Pipe) : Pipe :=
  if p.(read_alive) && flag_set p.(read_flags) ASYNC
  then mkPipe p.(state) p.(read_flags) p.(write_flags) p.(read_alive) p.(write_alive)
         p.(wakes) (S p.(async_notified))
  else p.

Definition endpoint_flags (k : PipeEndpointKind) (p : Pipe) : Z :=
  match k with PipeEndpointKind.Read => p.(read_flags) | PipeEndpointKind.Write => p.(write_flags) end.

Definition is_nonblocking (k : PipeEndpointKind) (p : Pipe) : bool :=
  flag_set (endpoint_flags k p) NONBLOCK.

(** ** References *)

Definition clone_fd_reference (k : PipeEndpointKind) (p : Pipe) : Pipe :=
  let s := p.(state) in
  match k with
  | PipeEndpointKind.Read =>
      with_state p (mkPipeState s.(buffer) s.(capacity) (s.(readers) + 1) s.(writers))
  | PipeEndpointKind.Write =>
      with_state p (mkPipeState s.(buffer) s.(capacity) s.(readers) (s.(writers) + 1))
  end.

Definition close_fd_reference (k : PipeEndpointKind) (p : Pipe) : Pipe :=
  let s := p.(state) in
  match k with
  | PipeEndpointKind.Read =>
      let readers := sat_sub s.(readers) 1 in
      let p := with_state p (mkPipeState s.(buffer) s.(capacity) readers s.(writers)) in
      if readers =? 0 then wake_blocked_writers (wake_writers p) else p
  | PipeEndpointKind.Write =>
      let writers := sat_sub s.(writers) 1 in
      let p := with_state p (mkPipeState s.(buffer) s.(capacity) s.(readers) writers) in
      if writers =? 0 then wake_readers p else p
  end.

(** ** Queries and controls *)

Definition readable_len (p : Pipe) : Z := zlen p.(state).(buffer).

Definition available (p : Pipe) : Z := sat_sub p.(state).(capacity) (readable_len p).

Definition peek_into (k : PipeEndpointKind) (len : Z) (p : Pipe) : list byte :=
  match k with
  | PipeEndpointKind.Read => take (Z.to_nat (Z.min len (readable_len p))) p.(state).(buffer)
  | PipeEndpointKind.Write => []
  end.

Definition set_capacity (new pipe_max_size : Z) (p : Pipe) : result SyscallError Z * Pipe :=
  if PIPE_MAX_SIZE_LIMIT <? new then (Err SyscallError.InvalidArguments, p)
  else if new <? readable_len p then (Err SyscallError.DeviceOrResourceBusy, p)
  else if pipe_max_size <? new then (Err SyscallError.PermissionDenied, p)
  else
    let s := p.(state) in
    let c := Z.max new PIPE_BUF in
    (Ok c, with_state p (mkPipeState s.(buffer) c s.(readers) s.(writers))).

Definition set_flags (k : PipeEndpointKind) (flags : Z) (p : Pipe) : Pipe :=
  let status_flags := Z.land flags (Z.lnot (Z.lor WRONLY RDWR)) in
  match k with
  | PipeEndpointKind.Read =>
      mkPipe p.(state) status_flags p.(write_flags) p.(read_alive) p.(write_alive) p.(wakes)
        p.(async_notified)
  | PipeEndpointKind.Write =>
      mkPipe p.(state) p.(read_flags) (Z.lor status_flags WRONLY) p.(read_alive)
        p.(write_alive) p.(wakes) p.(async_notified)
  end.

(** [as_readable] and [as_writable]: only the endpoint of the right kind casts. *)
Definition as_readable (k : PipeEndpointKind) : result SyscallError unit :=
  match k with
  | PipeEndpointKind.Read => Ok tt
  | PipeEndpointKind.Write => Err SyscallError.BadFileDescriptor
  end.

Definition as_writable (k : PipeEndpointKind) : result SyscallError unit :=
  match k with
  | PipeEndpointKind.Write => Ok tt
  | PipeEndpointKind.Read => Err SyscallError.BadFileDescriptor
  end.

Definition is_event_ready (k : PipeEndpointKind) (e : PollableEvent) (p : Pipe) : bool :=
  let s := p.(state) in
  match k, e with
  | PipeEndpointKind.Read, PollableEvent.CanBeRead =>
      negb (bool_decide (s.(buffer) = [])) || (s.(writers) =? 0)
  | PipeEndpointKind.Read, (PollableEvent.Closed | PollableEvent.ReadClosed) => s.(writers) =? 0
  | PipeEndpointKind.Write, PollableEvent.CanBeWritten =>
      (s.(readers) =? 0) || (PIPE_BUF <=? available p)
  | PipeEndpointKind.Write, PollableEvent.PipeWriteSpace =>
      (s.(readers) =? 0) || (zlen s.(buffer) <? s.(capacity))
  | PipeEndpointKind.Write, PollableEvent.Closed => s.(readers) =? 0
  | _, _ => false
  end.

(** ** Reading and writing *)

(** One pass of the loop of [read] into a buffer of [len > 0] bytes: the bytes put there. *)
Definition read_try (len : Z) (p : Pipe) : attempt Pipe ObjectError (list byte) :=
  let s := p.(state) in
  if negb (bool_decide (s.(buffer) = [])) then
    let was_full := s.(capacity) <=? zlen s.(buffer) in
    let read_len := Z.min len (zlen s.(buffer)) in
    let out := take (Z.to_nat read_len) s.(buffer) in
    let p := with_buffer p (drop (Z.to_nat read_len) s.(buffer)) in
    let p := if was_full then wake_blocked_writers (wake_writers p) else p in
    Return (Ok out) p
  else if s.(writers) =? 0 then Return (Ok []) p
  else if is_nonblocking PipeEndpointKind.Read p then Return (Err ObjectError.TryAgain) p
  else Sleep p.

(** [wait_for_object_event_interruptible(..)?] *)
Definition pipe_on_wake (p : Pipe) (r : result ObjectError unit) : option ObjectError * Pipe :=
  match r with Ok _ => (None, p) | Err e => (Some e, p) end.

Definition pipe_read (k : PipeEndpointKind) (len : Z) (ws : list (wakeup Pipe)) (p : Pipe)
  : option (result ObjectError (list byte)) * Pipe :=
  match k with
  | PipeEndpointKind.Write => (Some (Err ObjectError.InvalidArguments), p)
  | PipeEndpointKind.Read =>
      if len =? 0 then (Some (Ok []), p) else blocking_loop (read_try len) pipe_on_wake ws p
  end.

(** One pass of the loop of [write]. *)
Definition write_try (bytes : list byte) (p : Pipe) : attempt Pipe ObjectError Z :=
  let s := p.(state) in
  if s.(readers) =? 0 then Return (Err (ObjectError.SocketError SocketError.BrokenPipe)) p
  else if 0 <? available p then
    let write_len := Z.min (zlen bytes) (available p) in
    let p := with_buffer p (s.(buffer) ++ take (Z.to_nat write_len) bytes) in
    Return (Ok write_len) (notify_readable (wake_readers p))
  else if is_nonblocking PipeEndpointKind.Write p then Return (Err ObjectError.TryAgain) p
  else Sleep p.

Definition pipe_write (k : PipeEndpointKind) (bytes : list byte) (ws : list (wakeup Pipe))
  (p : Pipe) : option (result ObjectError Z) * Pipe :=
  match k with
  | PipeEndpointKind.Read => (Some (Err ObjectError.InvalidArguments), p)
  | PipeEndpointKind.Write =>
      match bytes with
      | [] => (Some (Ok 0), p)
      | _ => blocking_loop (write_try bytes) pipe_on_wake ws p
      end
  end.

(** [input.tee_to(output, len)]; [same] says that the two endpoints share one pipe.  Only
    the output changes. *)
Definition tee_to (k_in k_out : PipeEndpointKind) (same : bool) (len : Z) (input output : Pipe)
  : result SyscallError Z * Pipe :=
  if negb (bool_decide (k_in = PipeEndpointKind.Read)) ||
     negb (bool_decide (k_out = PipeEndpointKind.Write))
  then (Err SyscallError.InvalidArguments, output)
  else if same then (Err SyscallError.InvalidArguments, output)
  else if bool_decide (input.(state).(buffer) = []) then (Err SyscallError.TryAgain, output)
  else if output.(state).(readers) =? 0 then (Err SyscallError.BrokenPipe, output)
  else if available output =? 0 then (Err SyscallError.TryAgain, output)
  else
    let copy_len := Z.min (Z.min len (readable_len input)) (available output) in
    if copy_len =? 0 then (Err SyscallError.TryAgain, output)
    else
      let output := with_buffer output
        (output.(state).(buffer) ++ take (Z.to_nat copy_len) input.(state).(buffer)) in
      (Ok copy_len, notify_readable (wake_readers output)).

(** ** Specification: traces of a pipe *)

Inductive pipe_label : Type :=
  | LRead (bs : list byte)
  | LWrite (bs : list byte)
  | LCapacity
  | LOther.

Definition taken (r : result ObjectError (list byte)) : list byte :=
  match r with Ok bs => bs | Err _ => [] end.

Definition accepted {E} (r : result E Z) (bs : list byte) : list byte :=
  match r with Ok n => take (Z.to_nat n) bs | Err _ => [] end.

(** One completed call, or the end of an endpoint object. *)
Inductive pipe_step (p : Pipe) : pipe_label → Pipe → Prop :=
  | step_read len r p' :
      0 < len → read_try len p = Return r p' → pipe_step p (LRead (taken r)) p'
  | step_write bytes r p' :
      write_try bytes p = Return r p' → pipe_step p (LWrite (accepted r bytes)) p'
  | step_tee k_in k_out len input r p' :
      0 ≤ len → tee_to k_in k_out false len input p = (r, p') →
      pipe_step p (LWrite (accepted r input.(state).(buffer))) p'
  | step_capacity new pipe_max_size r p' :
      set_capacity new pipe_max_size p = (r, p') → pipe_step p LCapacity p'
  | step_clone k : pipe_step p LOther (clone_fd_reference k p)
  | step_close k : pipe_step p LOther (close_fd_reference k p)
  | step_flags k flags : pipe_step p LOther (set_flags k flags p)
  | step_drop r w : pipe_step p LOther
      (mkPipe p.(state) p.(read_flags) p.(write_flags) (p.(read_alive) && r) (p.(write_alive) && w)
         p.(wakes) p.(async_notified)).

Inductive pipe_trace : Pipe → list pipe_label → Pipe → Prop :=
  | trace_nil p : pipe_trace p [] p
  | trace_cons p l p1 ls p2 : pipe_step p l p1 → pipe_trace p1 ls p2 → pipe_trace p (l :: ls) p2.

Definition bytes_read (ls : list pipe_label) : list byte :=
  concat (map (λ l, match l with LRead bs => bs | _ => [] end) ls).

Definition bytes_written (ls : list pipe_label) : list byte :=
  concat (map (λ l, match l with LWrite bs => bs | _ => [] end) ls).

Definition pipe_ok (p : Pipe) : Prop :=
  readable_len p ≤ p.(state).(capacity) ∧ PIPE_BUF ≤ p.(state).(capacity) ∧
  0 ≤ p.(state).(readers) ∧ 0 ≤ p.(state).(writers).

(** ** Lemmas *)

Lemma state_wake_readers p : (wake_readers p).(state) = p.(state).
Proof. unfold wake_readers. by destruct (read_alive p). Qed.

Lemma state_wake_writers p : (wake_writers p).(state) = p.(state).
Proof. unfold wake_writers. by destruct (write_alive p). Qed.

Lemma state_wake_blocked_writers p : (wake_blocked_writers p).(state) = p.(state).
Proof. unfold wake_blocked_writers. by destruct (write_alive p). Qed.

Lemma state_notify_readable p : (notify_readable p).(state) = p.(state).
Proof. unfold notify_readable. by destruct (_ && _). Qed.

Create Rewrite HintDb pipe.
#[export] Hint Rewrite state_wake_readers state_wake_writers state_wake_blocked_writers
  state_notify_readable : pipe.

(** What a step does to the shared state. *)
Lemma read_try_state len r p p' :
  read_try len p = Return r p' →
  p.(state).(buffer) = taken r ++ p'.(state).(buffer) ∧
  p'.(state).(capacity) = p.(state).(capacity) ∧ p'.(state).(readers) = p.(state).(readers) ∧
  p'.(state).(writers) = p.(state).(writers).
Proof.
  unfold read_try. destruct (negb _) eqn:He.
  - intros [= <- <-]. destruct (_ <=? _); autorewrite with pipe; cbn; by rewrite take_drop.
  - destruct (_ =? 0); [by intros [= <- <-]|]. destruct (is_nonblocking _ _); [by intros [= <- <-]|done].
Qed.

Lemma write_try_state bytes r p p' :
  write_try bytes p = Return r p' →
  p'.(state).(buffer) = p.(state).(buffer) ++ accepted r bytes ∧
  p'.(state).(capacity) = p.(state).(capacity) ∧ p'.(state).(readers) = p.(state).(readers) ∧
  p'.(state).(writers) = p.(state).(writers) ∧ (zlen (accepted r bytes) ≤ available p).
Proof.
  unfold write_try. assert (0 ≤ available p) as Hav by (unfold available, sat_sub; lia).
  destruct (_ =? 0); [intros [= <- <-]; cbn; by rewrite app_nil_r|].
  destruct (0 <? available p) eqn:Ha.
  - intros [= <- <-]. autorewrite with pipe. cbn. do 4 (split; [done|]).
    pose proof (zlen_nonneg bytes). unfold zlen. rewrite length_take. lia.
  - destruct (is_nonblocking _ _); [intros [= <- <-]; cbn; by rewrite app_nil_r|done].
Qed.

Lemma tee_to_state k_in k_out len input r p p' :
  0 ≤ len → tee_to k_in k_out false len input p = (r, p') →
  p'.(state).(buffer) = p.(state).(buffer) ++ accepted r input.(state).(buffer) ∧
  p'.(state).(capacity) = p.(state).(capacity) ∧ p'.(state).(readers) = p.(state).(readers) ∧
  p'.(state).(writers) = p.(state).(writers) ∧
  (zlen (accepted r input.(state).(buffer)) ≤ available p).
Proof.
  intros Hlen. unfold tee_to. assert (0 ≤ available p) as Hav by (unfold available, sat_sub; lia).
  destruct (_ || _); [intros [= <- <-]; cbn; by rewrite app_nil_r|].
  case_bool_decide; [intros [= <- <-]; cbn; by rewrite app_nil_r|].
  destruct (_ =? 0); [intros [= <- <-]; cbn; by rewrite app_nil_r|].
  destruct (available p =? 0); [intros [= <- <-]; cbn; by rewrite app_nil_r|].
  destruct (_ =? 0); [intros [= <- <-]; cbn; by rewrite app_nil_r|].
  intros [= <- <-]. autorewrite with pipe. cbn. do 4 (split; [done|]).
  unfold zlen. rewrite length_take. pose proof (zlen_nonneg input.(state).(buffer)).
  unfold readable_len. lia.
Qed.

Lemma set_capacity_state new max r p p' :
  set_capacity new max p = (r, p') →
  p'.(state).(buffer) = p.(state).(buffer) ∧ p'.(state).(readers) = p.(state).(readers) ∧
  p'.(state).(writers) = p.(state).(writers) ∧ (pipe_ok p → pipe_ok p').
Proof.
  unfold set_capacity. cbv zeta. destruct (_ <? _); [by intros [= <- <-]|].
  destruct (new <? readable_len p) eqn:Hlt; [by intros [= <- <-]|].
  destruct (max <? new); intros [= <- <-]; [done|]. do 3 (split; [done|]).
  unfold pipe_ok, readable_len in *. cbn. lia.
Qed.

Lemma close_state k p :
  (close_fd_reference k p).(state).(buffer) = p.(state).(buffer) ∧
  (close_fd_reference k p).(state).(capacity) = p.(state).(capacity) ∧
  (close_fd_reference k p).(state).(readers) =
    (if bool_decide (k = PipeEndpointKind.Read) then sat_sub p.(state).(readers) 1 else p.(state).(readers)) ∧
  (close_fd_reference k p).(state).(writers) =
    (if bool_decide (k = PipeEndpointKind.Write) then sat_sub p.(state).(writers) 1 else p.(state).(writers)).
Proof.
  destruct k; unfold close_fd_reference; destruct (_ =? 0); autorewrite with pipe; done.
Qed.

(** A step moves the buffer by what it read and wrote, and stays within the capacity. *)
Lemma pipe_step_buffer p l p' :
  pipe_step p l p' →
  p.(state).(buffer) ++ bytes_written [l] = bytes_read [l] ++ p'.(state).(buffer) ∧
  (pipe_ok p → pipe_ok p').
Proof.
  unfold bytes_read, bytes_written. cbn [map concat].
  intros [len r q Hlen H|bytes r q H|ki ko len input r q Hlen H|new max r q H|k|k|k fl|r w];
    rewrite ?app_nil_r; cbn [app].
  - apply read_try_state in H as (Hb & Hc & Hr & Hw). split; [done|].
    unfold pipe_ok, readable_len. rewrite Hb, Hc, Hr, Hw, zlen_app. pose proof (zlen_nonneg (taken r)). lia.
  - apply write_try_state in H as (Hb & Hc & Hr & Hw & Ha). split; [done|].
    unfold pipe_ok, available, readable_len, sat_sub in *. rewrite Hb, Hc, Hr, Hw, zlen_app. lia.
  - apply tee_to_state in H as (Hb & Hc & Hr & Hw & Ha); [|done]. split; [done|].
    unfold pipe_ok, available, readable_len, sat_sub in *. rewrite Hb, Hc, Hr, Hw, zlen_app. lia.
  - by apply set_capacity_state in H as (Hb & _ & _ & Hok).
  - split; [by destruct k|]. unfold pipe_ok, readable_len. destruct k; cbn; lia.
  - destruct (close_state k p) as (Hb & Hc & Hr & Hw). split; [done|].
    unfold pipe_ok, readable_len. rewrite Hb, Hc, Hr, Hw. unfold sat_sub.
    do 2 case_bool_decide; lia.
  - by destruct k.
  - done.
Qed.

(** A poller of [CanBeWritten] waits for PIPE_BUF free bytes, but a read wakes the writers
    only when the pipe was full: here it frees the last byte that was missing, silently. *)
Definition ex_pipe (n : nat) : Pipe :=
  mkPipe (mkPipeState (replicate n x00) 4096 1 1) 0 WRONLY true true [] 0.

Lemma read_misses_pollout :
  ∃ p', read_try 1 (ex_pipe 1) = Return (Ok [x00]) p' ∧
    is_event_ready PipeEndpointKind.Write PollableEvent.CanBeWritten (ex_pipe 1) = false ∧
    is_event_ready PipeEndpointKind.Write PollableEvent.CanBeWritten p' = true ∧ p'.(wakes) = [].
Proof. eexists. split; [reflexivity|]. split; [reflexivity|]. split; reflexivity. Qed.

(** Growing a full pipe makes room but wakes no blocked writer. *)
Lemma set_capacity_misses_writers :
  let p' := (set_capacity 8192 65536 (ex_pipe 4096)).2 in
  is_event_ready PipeEndpointKind.Write PollableEvent.PipeWriteSpace (ex_pipe 4096) = false ∧
  is_event_ready PipeEndpointKind.Write PollableEvent.PipeWriteSpace p' = true ∧ p'.(wakes) = [].
Proof. cbv zeta. split; [vm_compute; reflexivity|]. split; vm_compute; reflexivity. Qed.

(** ** Properties *)

(** C22. A pipe is a bounded first-in first-out byte stream: over any sequence of reads,
    writes, tees, capacity and flag changes and reference operations, the bytes read
    followed by what is still buffered are the bytes buffered at first followed by those
    accepted, in order, none lost and none twice; and a new pipe never holds more than its
    capacity, which stays at least PIPE_BUF. *)
Theorem pipe_stream privileged pipe_max_size flags ls p' :
  pipe_trace (pipe_pair privileged pipe_max_size flags) ls p' →
  bytes_written ls = bytes_read ls ++ p'.(state).(buffer) ∧
  zlen p'.(state).(buffer) ≤ p'.(state).(capacity) ∧ PIPE_BUF ≤ p'.(state).(capacity).
Proof.
  intros Ht. assert (∀ p, pipe_trace p ls p' →
    p.(state).(buffer) ++ bytes_written ls = bytes_read ls ++ p'.(state).(buffer) ∧
    (pipe_ok p → pipe_ok p')) as Hgen.
  { clear Ht. intros p Ht. induction Ht as [p|p l p1 ls p2 Hs _ [IHb IHok]]; [by rewrite app_nil_r|].
    apply pipe_step_buffer in Hs as [Hb Hok]. split; [|auto].
    unfold bytes_written, bytes_read in *. cbn [map concat] in *. rewrite !app_nil_r in Hb.
    rewrite (app_assoc p.(state).(buffer)), Hb, <- !app_assoc. by f_equal. }
  destruct (Hgen _ Ht) as [Hb Hok]. split; [exact Hb|].
  destruct Hok as (? & ? & _); [|done]. unfold pipe_ok, readable_len, zlen, pipe_pair, default_pipe_capacity, PIPE_CAPACITY,
    PIPE_BUF. cbn [state buffer capacity readers writers length]. destruct privileged; lia.
Qed.

Lemma pipe_stream_witness :
  ∃ p', p'.(state).(buffer) = [x00] ∧
  [x00; x00] = bytes_read [LOther; LWrite [x00; x00]; LRead [x00]] ++ p'.(state).(buffer).
Proof.
  eexists. split; cycle 1.
  - apply (pipe_stream true 65536 0 [LOther; LWrite [x00; x00]; LRead [x00]]).
    eapply trace_cons; [apply (step_clone _ PipeEndpointKind.Read)|].
    eapply trace_cons; [apply (step_write _ [x00; x00] (Ok 2)); reflexivity|].
    eapply trace_cons; [apply (step_read _ 1 (Ok [x00])); reflexivity|].
    apply trace_nil.
  - reflexivity.
Defined.

(** What a step has newly woken. *)
Definition newly_woken (p p' : Pipe) (e : PollableEvent) : Prop :=
  ∃ ws, p'.(wakes) = p.(wakes) ++ ws ∧ e ∈ ws.

Lemma newly_woken_readers p q : q.(wakes) = p.(wakes) → q.(read_alive) = true →
  newly_woken p (wake_readers q) PollableEvent.CanBeRead.
Proof.
  intros Hw Hr. unfold wake_readers. rewrite Hr. exists [PollableEvent.CanBeRead]. cbn.
  rewrite Hw. split; [done|constructor].
Qed.

Lemma newly_woken_writers p q : q.(wakes) = p.(wakes) → q.(write_alive) = true →
  newly_woken p (wake_blocked_writers (wake_writers q)) PollableEvent.PipeWriteSpace.
Proof.
  intros Hw Hr. unfold wake_writers. rewrite Hr. unfold wake_blocked_writers. cbn. rewrite Hr.
  exists [PollableEvent.CanBeWritten; PollableEvent.PipeWriteSpace]. cbn. rewrite Hw, <- app_assoc.
  split; [done|]. apply elem_of_cons. right. constructor.
Qed.

Lemma notify_readable_wakes p : (notify_readable p).(wakes) = p.(wakes).
Proof. unfold notify_readable. by destruct (_ && _). Qed.

Lemma read_ready p :
  is_event_ready PipeEndpointKind.Read PollableEvent.CanBeRead p = false ↔
  p.(state).(buffer) = [] ∧ p.(state).(writers) ≠ 0.
Proof. cbn. rewrite orb_false_iff, negb_false_iff, bool_decide_eq_true, Z.eqb_neq. done. Qed.

Lemma write_ready p :
  is_event_ready PipeEndpointKind.Write PollableEvent.PipeWriteSpace p = false ↔
  p.(state).(readers) ≠ 0 ∧ p.(state).(capacity) ≤ zlen p.(state).(buffer).
Proof. cbn. rewrite orb_false_iff, Z.eqb_neq, Z.ltb_ge. done. Qed.

(** Both ways of putting bytes in wake the readers. *)
Lemma append_wakes (p : Pipe) b :
  p.(read_alive) = true → newly_woken p (notify_readable (wake_readers (with_buffer p b))) PollableEvent.CanBeRead.
Proof.
  intros Hr. destruct (newly_woken_readers p (with_buffer p b)) as (ws & Hw & Hin); [done|done|].
  exists ws. by rewrite notify_readable_wakes.
Qed.


Lemma write_try_wakes bytes r p p' :
  p.(read_alive) = true → write_try bytes p = Return r p' →
  p' = p ∨ newly_woken p p' PollableEvent.CanBeRead.
Proof.
  intros Ha. unfold write_try. repeat case_match; intros [= <- <-]; auto using append_wakes.
Qed.

Lemma tee_to_wakes k_in k_out len input r p p' :
  p.(read_alive) = true → tee_to k_in k_out false len input p = (r, p') →
  p' = p ∨ newly_woken p p' PollableEvent.CanBeRead.
Proof.
  intros Ha. unfold tee_to. cbv zeta. repeat case_match; intros [= <- <-]; auto using append_wakes.
Qed.

Lemma reader_wakeup p l p' :
  pipe_ok p → pipe_step p l p' → p.(read_alive) = true →
  is_event_ready PipeEndpointKind.Read PollableEvent.CanBeRead p = false →
  is_event_ready PipeEndpointKind.Read PollableEvent.CanBeRead p' = true →
  newly_woken p p' PollableEvent.CanBeRead.
Proof.
  intros (_ & _ & _ & Hpos) Hs Ha Hn Hy. pose proof Hn as [Hb Hw]%read_ready.
  assert (∀ q, p' = q → q.(state).(buffer) = [] → q.(state).(writers) ≠ 0 →
    newly_woken p p' PollableEvent.CanBeRead) as Hnot.
  { intros q -> Hqb Hqw. rewrite (proj2 (read_ready q)) in Hy; done. }
  destruct Hs as [len r q Hlen H|bytes r q H|ki ko len input r q Hlen H|new max r q H|k|k|k fl|r w].
  - apply read_try_state in H as (Hb' & _ & _ & Hw'). apply (Hnot q); [done| |congruence].
    rewrite Hb in Hb'. by destruct (taken r).
  - apply write_try_wakes in H as [->|?]; [by apply (Hnot p)|done|done].
  - apply tee_to_wakes in H as [->|?]; [by apply (Hnot p)|done|done].
  - apply set_capacity_state in H as (Hb' & _ & Hw' & _). apply (Hnot q); congruence.
  - eapply Hnot; [reflexivity|by destruct k|]. destruct k; cbn; lia.
  - destruct (close_state k p) as (Hb' & _ & _ & Hw'). rewrite Hb in Hb'.
    destruct (decide ((close_fd_reference k p).(state).(writers) = 0)) as [Hz|Hz];
      [|by apply (Hnot (close_fd_reference k p))].
    destruct k; [by rewrite Hw' in Hz|]. rewrite Hw', bool_decide_true in Hz by done.
    unfold close_fd_reference. cbv zeta. rewrite Hz. cbn. by apply newly_woken_readers.
  - eapply Hnot; [reflexivity|by destruct k..].
  - by eapply Hnot.
Qed.

Lemma read_try_wakes len r p p' :
  p.(write_alive) = true → read_try len p = Return r p' →
  p'.(state) = p.(state) ∨ zlen p.(state).(buffer) < p.(state).(capacity) ∨
  newly_woken p p' PollableEvent.PipeWriteSpace.
Proof.
  intros Ha. unfold read_try. destruct (negb _).
  - intros [= <- <-]. right. destruct (_ <=? _) eqn:Hfull; [right|left; lia].
    by apply newly_woken_writers.
  - destruct (_ =? 0); [intros [= <- <-]; by left|].
    destruct (is_nonblocking _ _); [intros [= <- <-]; by left|done].
Qed.

Lemma writer_wakeup p l p' :
  pipe_ok p → pipe_step p l p' → p.(write_alive) = true → l ≠ LCapacity →
  is_event_ready PipeEndpointKind.Write PollableEvent.PipeWriteSpace p = false →
  is_event_ready PipeEndpointKind.Write PollableEvent.PipeWriteSpace p' = true →
  newly_woken p p' PollableEvent.PipeWriteSpace.
Proof.
  intros (_ & _ & Hpos & _) Hs Ha Hl Hn Hy. pose proof Hn as [Hr Hfull]%write_ready.
  assert (∀ q, p' = q → q.(state).(readers) ≠ 0 → q.(state).(capacity) ≤ zlen q.(state).(buffer) →
    newly_woken p p' PollableEvent.PipeWriteSpace) as Hnot.
  { intros q -> Hqb Hqw. rewrite (proj2 (write_ready q)) in Hy; done. }
  destruct Hs as [len r q Hlen H|bytes r q H|ki ko len input r q Hlen H|new max r q H|k|k|k fl|r w].
  - apply read_try_wakes in H as [Hst|[Hlt|?]]; [|lia|done|done].
    apply (Hnot q); [done|by rewrite Hst..].
  - apply write_try_state in H as (Hb' & Hc' & Hr' & _). apply (Hnot q); [done|congruence|].
    rewrite Hb', Hc', zlen_app. pose proof (zlen_nonneg (accepted r bytes)). lia.
  - apply tee_to_state in H as (Hb' & Hc' & Hr' & _); [|done]. apply (Hnot q); [done|congruence|].
    rewrite Hb', Hc', zlen_app. pose proof (zlen_nonneg (accepted r input.(state).(buffer))). lia.
  - done.
  - eapply Hnot; [reflexivity| |by destruct k]. destruct k; cbn; lia.
  - destruct (close_state k p) as (Hb' & Hc' & Hr' & _).
    destruct (decide ((close_fd_reference k p).(state).(readers) = 0)) as [Hz|Hz];
      [|apply (Hnot (close_fd_reference k p)); by rewrite ?Hb', ?Hc'].
    destruct k; [|by rewrite Hr' in Hz]. rewrite Hr', bool_decide_true in Hz by done.
    unfold close_fd_reference. cbv zeta. rewrite Hz. cbn. by apply newly_woken_writers.
  - eapply Hnot; [reflexivity|by destruct k..].
  - by eapply Hnot.
Qed.

(** No wake-up for input or space is lost while both ends live: a read or write pass sleeps only
    while the event it then waits for (input, space) is not ready, and any step that makes
    that event ready wakes the pollers of the live endpoint for it (growing the capacity
    excepted, for writers). The events of a closed end have no wake-up of their own. *)
Lemma pipe_no_lost_wakeup p l p' :
  pipe_ok p → pipe_step p l p' → p.(read_alive) = true → p.(write_alive) = true →
  let can_read := is_event_ready PipeEndpointKind.Read PollableEvent.CanBeRead in
  let can_write := is_event_ready PipeEndpointKind.Write PollableEvent.PipeWriteSpace in
  (∀ len q, read_try len p = Sleep q → q = p ∧ can_read p = false) ∧
  (∀ bytes q, write_try bytes p = Sleep q → q = p ∧ can_write p = false) ∧
  (can_read p = false → can_read p' = true → newly_woken p p' PollableEvent.CanBeRead) ∧
  (l ≠ LCapacity → can_write p = false → can_write p' = true →
     newly_woken p p' PollableEvent.PipeWriteSpace).
Proof.
  intros Hok Hs Hr Hw can_read can_write. split; [|split; [|split]].
  - intros len q. unfold read_try, can_read, is_event_ready. destruct (bool_decide _); cbn [negb orb]; [|done].
    destruct (_ =? 0); [done|]. destruct (is_nonblocking _ _); [done|]. by intros [= <-].
  - intros bytes q. unfold write_try, can_write, is_event_ready. destruct (_ =? 0); cbn [orb]; [done|].
    destruct (0 <? available p) eqn:Ha; [done|]. destruct (is_nonblocking _ _); [done|].
    intros [= <-]. split; [done|]. unfold available, readable_len, sat_sub in Ha. lia.
  - by apply reader_wakeup with (l := l).
  - by apply writer_wakeup.
Qed.

(** Closing the last writer wakes the reader that sleeps on the empty pipe. *)
Lemma pipe_no_lost_wakeup_witness :
  newly_woken (ex_pipe 0) (close_fd_reference PipeEndpointKind.Write (ex_pipe 0))
    PollableEvent.CanBeRead.
Proof.
  apply (pipe_no_lost_wakeup (ex_pipe 0) LOther); [|apply step_close|reflexivity..].
  unfold pipe_ok. cbn. unfold PIPE_BUF, readable_len, zlen. cbn. lia.
Defined.
