(* ===== verification/EventFd.v ===== *)
(** * Event counters

    object/anon/eventfd.rs: a 64-bit counter that writes add to and reads take from, as a
    whole or one by one in semaphore mode.

    A read or write that cannot proceed prepares to block and tests readiness once more
    before it sleeps.  The model is the blocking loop around one pass; [prepared] says that
    nothing between two passes ends the call.  That a pass sleeps only when that test
    fails is [eventfd_sleep_not_ready] for reads; for writes it is not so
    ([eventfd_write_spins]).  The wake-ups are logged. *)

From S2P Require Import Prelude Errors Blocking Polling.

(** ** Data *)

Definition EVENTFD_COUNTER_MAX : Z := U64_MAX - 1.
Definition EFD_SEMAPHORE : Z := 1.
Definition EFD_NONBLOCK : Z := 2048.

(** [EventFdFlags::object_flags] *)
Definition object_flags (flags : Z) : Z := if flag_set flags EFD_NONBLOCK then NONBLOCK else 0.

Record EventFd := mkEventFd {
  efd_flags : Z;
  counter : Z;
  semaphore : bool;
  efd_wakes : list PollableEvent;
}.

Definition eventfd_new (initial flags : Z) : EventFd :=
  mkEventFd (object_flags flags) initial (flag_set flags EFD_SEMAPHORE) [].

Definition with_counter (e : EventFd) (c : Z) : EventFd :=
  mkEventFd e.(efd_flags) c e.(semaphore) e.(efd_wakes).

Definition eventfd_set_flags (flags : Z) (e : EventFd) : EventFd :=
  mkEventFd flags e.(counter) e.(semaphore) e.(efd_wakes).

(** [wake_waiters]: [wake_io] and the pollers of the event. *)
Definition wake_waiters (ev : PollableEvent) (e : EventFd) : EventFd :=
  mkEventFd e.(efd_flags) e.(counter) e.(semaphore) (e.(efd_wakes) ++ [ev]).

(** ** Readiness *)

Definition is_read_ready (e : EventFd) : bool := 0 <? e.(counter).
Definition is_write_ready (e : EventFd) : bool := e.(counter) <? EVENTFD_COUNTER_MAX.
Definition has_overflowed (e : EventFd) : bool := e.(counter) =? U64_MAX.

Definition eventfd_event_ready (ev : PollableEvent) (e : EventFd) : bool :=
  match ev with
  | PollableEvent.CanBeRead => is_read_ready e || has_overflowed e
  | PollableEvent.CanBeWritten => is_write_ready e
  | PollableEvent.Error => has_overflowed e
  | _ => false
  end.

(** ** Operations *)

Definition notify_kernel_event (e : EventFd) : EventFd :=
  if e.(counter) =? EVENTFD_COUNTER_MAX
  then wake_waiters PollableEvent.Error (with_counter e U64_MAX)
  else wake_waiters PollableEvent.CanBeRead (with_counter e (sat_add 64 e.(counter) 1)).

(** One pass of the loop of [read]: the eight bytes put into the buffer. *)
Definition eventfd_read_try (e : EventFd) : attempt EventFd ObjectError (list byte) :=
  let '(value, e) :=
    if e.(counter) =? 0 then (None, e)
    else if e.(semaphore) then (Some 1, with_counter e (e.(counter) - 1))
    else (Some e.(counter), with_counter e 0) in
  match value with
  | Some value => Return (Ok (le_encode 8 value)) (wake_waiters PollableEvent.CanBeWritten e)
  | None => if flag_set e.(efd_flags) NONBLOCK then Return (Err ObjectError.TryAgain) e else Sleep e
  end.

Definition eventfd_write_try (value : Z) (e : EventFd) : attempt EventFd ObjectError Z :=
  if value <=? sat_sub EVENTFD_COUNTER_MAX e.(counter)
  then Return (Ok 8) (wake_waiters PollableEvent.CanBeRead (with_counter e (e.(counter) + value)))
  else if flag_set e.(efd_flags) NONBLOCK then Return (Err ObjectError.TryAgain) e
  else Sleep e.

(** What happens between [prepare_block_current] and the next pass: nothing cancels it with
    an error, whether the block was cancelled or finished. *)
Definition prepared (e : EventFd) (r : result ObjectError unit) : option ObjectError * EventFd :=
  (None, e).

Definition eventfd_read (len : Z) (ws : list (wakeup EventFd)) (e : EventFd)
  : option (result ObjectError (list byte)) * EventFd :=
  if len <? 8 then (Some (Err ObjectError.InvalidArguments), e)
  else blocking_loop eventfd_read_try prepared ws e.

Definition eventfd_write (buffer : list byte) (ws : list (wakeup EventFd)) (e : EventFd)
  : option (result ObjectError Z) * EventFd :=
  if zlen buffer <? 8 then (Some (Err ObjectError.InvalidArguments), e)
  else
    let value := le_decode (take 8 buffer) in
    if value =? U64_MAX then (Some (Err ObjectError.InvalidArguments), e)
    else blocking_loop (eventfd_write_try value) prepared ws e.

(** ** Specification *)

Inductive efd_label : Type :=
  | LAdd (n : Z)
  | LTake (n : Z)
  | LNone.

(** A completed read, write, flag change or kernel event that finds room. *)
Inductive efd_step (e : EventFd) : efd_label → EventFd → Prop :=
  | step_read bs e' :
      eventfd_read_try e = Return (Ok bs) e' → efd_step e (LTake (le_decode bs)) e'
  | step_read_err err e' : eventfd_read_try e = Return (Err err) e' → efd_step e LNone e'
  | step_write value e' :
      is_uint 64 value → eventfd_write_try value e = Return (Ok 8) e' → efd_step e (LAdd value) e'
  | step_write_err value err e' : eventfd_write_try value e = Return (Err err) e' → efd_step e LNone e'
  | step_event : e.(counter) < EVENTFD_COUNTER_MAX → efd_step e (LAdd 1) (notify_kernel_event e)
  | step_flags flags : efd_step e LNone (eventfd_set_flags flags e).

Inductive efd_trace : EventFd → list efd_label → EventFd → Prop :=
  | trace_nil e : efd_trace e [] e
  | trace_cons e l e1 ls e2 : efd_step e l e1 → efd_trace e1 ls e2 → efd_trace e (l :: ls) e2.

Definition label_sum (f : efd_label → Z) (ls : list efd_label) : Z := foldr Z.add 0 (map f ls).
Definition added (l : efd_label) : Z := match l with LAdd n => n | _ => 0 end.
Definition took (l : efd_label) : Z := match l with LTake n => n | _ => 0 end.

Definition efd_ok (e : EventFd) : Prop := 0 ≤ e.(counter) ≤ EVENTFD_COUNTER_MAX.

(** ** Lemmas *)

Lemma decode_value v : is_uint 64 v → le_decode (le_encode 8 v) = v.
Proof. intros Hv. rewrite le_decode_encode. apply Z.mod_small. exact Hv. Qed.

Lemma efd_ok_uint e : efd_ok e → is_uint 64 e.(counter).
Proof.
  unfold efd_ok, EVENTFD_COUNTER_MAX, U64_MAX, is_uint. change (2 ^ 64) with 18446744073709551616. lia.
Qed.

Lemma efd_step_counter e l e' :
  efd_ok e → efd_step e l e' →
  efd_ok e' ∧ e'.(counter) = e.(counter) + added l - took l ∧ 0 ≤ took l ≤ e.(counter) ∧
  e'.(semaphore) = e.(semaphore) ∧ (e.(semaphore) = true → took l ≤ 1).
Proof.
  intros Hok. pose proof (efd_ok_uint e Hok) as Hu. unfold efd_ok in *.
  intros [bs q H|err q H|value q Hv H|value err q H|H|flags].
  - unfold eventfd_read_try in H. destruct (e.(counter) =? 0) eqn:Hz.
    { destruct (flag_set _ _); [|done]. done. }
    destruct (e.(semaphore)) eqn:Hs; injection H as <- <-; cbn [took added].
    + rewrite decode_value by done. cbn. rewrite Hs. repeat split; lia.
    + rewrite decode_value by done. cbn. rewrite Hs. repeat split; lia.
  - unfold eventfd_read_try in H. destruct (e.(counter) =? 0) eqn:Hz.
    + destruct (flag_set _ _); [|done]. injection H as <- <-. cbn. repeat split; lia.
    + by destruct (e.(semaphore)).
  - unfold eventfd_write_try, sat_sub in H. destruct (_ <=? _) eqn:Hle.
    + injection H as <-. destruct Hv. cbn. repeat split; try lia.
    + by destruct (flag_set _ _).
  - unfold eventfd_write_try in H. destruct (_ <=? _); [done|].
    destruct (flag_set _ _); [|done]. injection H as <- <-. cbn. repeat split; lia.
  - unfold notify_kernel_event. replace (e.(counter) =? EVENTFD_COUNTER_MAX) with false by lia.
    cbn. unfold sat_add, EVENTFD_COUNTER_MAX, U64_MAX in *.
    change (2 ^ 64) with 18446744073709551616. repeat split; lia.
  - cbn. repeat split; lia.
Qed.

(** ** Properties *)

(** The counter accounts for every event: over any sequence of reads, writes, flag
    changes and kernel events that find room, the counter is its first value plus all that
    was added minus all that reads returned; it stays between 0 and the maximum, and in
    semaphore mode a read takes at most one. *)
Lemma eventfd_accounting e ls e' :
  efd_ok e → efd_trace e ls e' →
  e'.(counter) = e.(counter) + label_sum added ls - label_sum took ls ∧ efd_ok e' ∧
  (e.(semaphore) = true → Forall (λ l, took l ≤ 1) ls).
Proof.
  intros Hok Ht. induction Ht as [e|e l e1 ls e2 Hs _ IH].
  { unfold label_sum. cbn. split; [lia|]. split; [done|]. by constructor. }
  destruct (efd_step_counter e l e1 Hok Hs) as (Hok1 & Hc & _ & Hsem & H1).
  destruct (IH Hok1) as (Hc2 & Hok2 & Hall). unfold label_sum in *. cbn [map foldr].
  split; [lia|]. split; [done|]. intros He. constructor; [auto|]. apply Hall. congruence.
Qed.

Lemma eventfd_accounting_witness :
  let e := eventfd_new 3 EFD_SEMAPHORE in
  ∃ e', efd_trace e [LAdd 4; LTake 1] e' ∧ e'.(counter) = 3 + 4 - 1.
Proof.
  cbv zeta. assert (efd_trace (eventfd_new 3 EFD_SEMAPHORE) [LAdd 4; LTake 1]
    (wake_waiters PollableEvent.CanBeWritten (with_counter
      (wake_waiters PollableEvent.CanBeRead (with_counter (eventfd_new 3 EFD_SEMAPHORE) 7)) 6))) as Ht.
  { eapply trace_cons; [apply (step_write _ 4); [done|reflexivity]|].
    eapply trace_cons; [apply (step_read _ (le_encode 8 1)); reflexivity|]. apply trace_nil. }
  eexists. split; [exact Ht|]. refine (proj1 (eventfd_accounting _ _ _ _ Ht)). done.
Defined.

(** A pass of a read sleeps only when the readiness test that follows it would fail, so a
    blocked read misses no event; a pass of a write sleeps only when the value does not fit. *)
Lemma eventfd_sleep_not_ready e :
  efd_ok e →
  (∀ q, eventfd_read_try e = Sleep q → q = e ∧ is_read_ready e = false) ∧
  (∀ value q, eventfd_write_try value e = Sleep q →
     q = e ∧ EVENTFD_COUNTER_MAX < e.(counter) + value).
Proof.
  intros Hok. unfold efd_ok in Hok. split.
  - intros q. unfold eventfd_read_try, is_read_ready. destruct (_ =? 0) eqn:Hz.
    + destruct (flag_set _ _); [done|]. intros [= <-]. split; [done|lia].
    + by destruct (e.(semaphore)).
  - intros value q. unfold eventfd_write_try, sat_sub. destruct (_ <=? _) eqn:Hle; [done|].
    destruct (flag_set _ _); [done|]. intros [= <-]. split; [done|lia].
Qed.

(** The readiness test of a write does not look at the value: while some room is left but not
    enough, a blocking write cancels its own block every time and keeps running. *)
Lemma eventfd_write_spins :
  let e := eventfd_new (EVENTFD_COUNTER_MAX - 1) 0 in
  eventfd_write_try 2 e = Sleep e ∧ is_write_ready e = true.
Proof. done. Qed.
