(* ===== verification/TimerFd.v ===== *)
(** * Timer descriptors

    object/anon/timerfd.rs: timers that count expirations lazily, when somebody looks, and
    the registry of armed deadlines from which the poller learns which timers to look at.

    A timer object is known by its address; the objects that are alive are the keys of
    [timers], so that upgrading a weak reference is a lookup.  The registry's map from
    (deadline, address) to a weak reference is the set of its keys. *)

From S2P Require Import Prelude Errors Clock Blocking Polling.

(** ** Data *)

Record TimerFdState := mkTimerState {
  deadline : option Time;
  interval_ns : Z;
  expirations : Z;
}.

Record TimerFd := mkTimerFd {
  clock_id : Z;
  tfd_flags : Z;
  tstate : TimerFdState;
}.

Record TimerWorld := mkTimerWorld {
  timers : gmap Z TimerFd;
  armed : gset (Z * Z);
  clock : Clock;
}.

Definition timerfd_new (clock_id flags : Z) : TimerFd :=
  mkTimerFd clock_id flags (mkTimerState None 0 0).

(** ** Expirations *)

Definition refresh (now : Time) (s : TimerFdState) : TimerFdState :=
  match s.(deadline) with
  | None => s
  | Some due_at =>
      if negb (time_leb due_at now) then s
      else if s.(interval_ns) =? 0
      then mkTimerState None s.(interval_ns) (sat_add 64 s.(expirations) 1)
      else
        let elapsed := as_nanoseconds (time_sub now due_at) in
        let periods := elapsed / s.(interval_ns) in
        let count := sat_add 64 periods 1 in
        mkTimerState (Some (add_ns due_at (sat_mul 64 count s.(interval_ns))))
          s.(interval_ns) (sat_add 64 s.(expirations) count)
  end.

(** ** The registry *)

(** [update_registry] and [update_timerfd_deadline] *)
Definition update_registry (key : Z) (previous new : option Time) (w : TimerWorld) : TimerWorld :=
  if bool_decide (previous = new) then w
  else
    match w.(timers) !! key with
    | None => w
    | Some _ =>
        let armed := match previous with
                     | Some d => w.(armed) ∖ {[ (d.(time_ns), key) ]}
                     | None => w.(armed)
                     end in
        let armed := match new with
                     | Some d => {[ (d.(time_ns), key) ]} ∪ armed
                     | None => armed
                     end in
        mkTimerWorld w.(timers) armed w.(clock)
    end.

Definition put_state (key : Z) (s : TimerFdState) (w : TimerWorld) : TimerWorld :=
  mkTimerWorld
    (alter (λ t, mkTimerFd t.(clock_id) t.(tfd_flags) s) key w.(timers)) w.(armed) w.(clock).

Definition set_timer (key : Z) (new_deadline : option Time) (interval : Z) (w : TimerWorld)
  : TimerWorld :=
  match w.(timers) !! key with
  | None => w
  | Some t =>
      let previous := t.(tstate).(deadline) in
      let w := put_state key (mkTimerState new_deadline interval 0) w in
      update_registry key previous new_deadline w
  end.

Definition current_timer (t : TimerFd) : option Time * Z :=
  (t.(tstate).(deadline), t.(tstate).(interval_ns)).

Definition refresh_state (key : Z) (w : TimerWorld) : option TimerFdState * TimerWorld :=
  match w.(timers) !! key with
  | None => (None, w)
  | Some t =>
      let previous := t.(tstate).(deadline) in
      let s := refresh (since_boot w.(clock)) t.(tstate) in
      let w := put_state key s w in
      (Some s, update_registry key previous s.(deadline) w)
  end.

Definition is_read_ready (key : Z) (w : TimerWorld) : bool * TimerWorld :=
  let '(s, w) := refresh_state key w in
  (match s with Some s => 0 <? s.(expirations) | None => false end, w).

(** The registry in key order. *)
Definition entry_leb (a b : Z * Z) : bool := lex_leb [a.1; a.2] [b.1; b.2].
Definition armed_entries (w : TimerWorld) : list (Z * Z) := sort_by entry_leb (elements w.(armed)).

(** The entries that the [while let Some(..) = first_key_value()] loop pops. *)
Fixpoint pop_expired (now : Time) (entries : list (Z * Z)) : list (Z * Z) :=
  match entries with
  | [] => []
  | (d, key) :: entries =>
      if negb (time_leb (mkTime d) now) then [] else (d, key) :: pop_expired now entries
  end.

Definition expired_timerfds (now : Time) (w : TimerWorld) : list Z * TimerWorld :=
  let popped := pop_expired now (armed_entries w) in
  (List.filter (λ key, bool_decide (is_Some (w.(timers) !! key))) (map snd popped),
   mkTimerWorld w.(timers) (w.(armed) ∖ list_to_set popped) w.(clock)).

(** [expired_timerfd_poll_objects]: the expired timers that are ready, each refreshed. *)
Definition expired_timerfd_poll_objects (w : TimerWorld) : list Z * TimerWorld :=
  let '(strong, w) := expired_timerfds (since_boot w.(clock)) w in
  foldl (λ acc key,
    let '(ready, w) := acc in
    let '(r, w) := is_read_ready key w in
    (if r then ready ++ [key] else ready, w)) ([], w) strong.

Definition next_timerfd_poll_deadline (w : TimerWorld) : option Time :=
  (λ e : Z * Z, mkTime e.1) <$> head (armed_entries w).

Definition drop_timer (key : Z) (w : TimerWorld) : TimerWorld :=
  mkTimerWorld (delete key w.(timers)) w.(armed) w.(clock).

(** ** Reading *)

(** One pass of the loop of [read]; [None] when the object is gone. *)
Definition timerfd_read_try (key : Z) (w : TimerWorld)
  : attempt TimerWorld ObjectError (list byte) :=
  let '(s, w) := refresh_state key w in
  match s with
  | None => Return (Err ObjectError.DoesNotExist) w
  | Some s =>
      if 0 <? s.(expirations) then
        let w := put_state key (mkTimerState s.(deadline) s.(interval_ns) 0) w in
        Return (Ok (le_encode 8 s.(expirations))) w
      else
        match w.(timers) !! key with
        | Some t => if flag_set t.(tfd_flags) NONBLOCK
                    then Return (Err ObjectError.TryAgain) w else Sleep w
        | None => Sleep w
        end
  end.

(** The block that follows is cancelled when [is_read_ready] finds an expiration, and ended
    by a wake-up otherwise; neither gives an error, and a refresh it makes is among the
    changes that the environment may make before the next pass. *)
Definition timerfd_on_wake (w : TimerWorld) (r : result ObjectError unit)
  : option ObjectError * TimerWorld := (None, w).

Definition timerfd_read (key len : Z) (ws : list (wakeup TimerWorld)) (w : TimerWorld)
  : option (result ObjectError (list byte)) * TimerWorld :=
  if len <? 8 then (Some (Err ObjectError.InvalidArguments), w)
  else blocking_loop (timerfd_read_try key) timerfd_on_wake ws w.

Definition timerfd_set_flags (key flags : Z) (w : TimerWorld) : TimerWorld :=
  mkTimerWorld (alter (λ t, mkTimerFd t.(clock_id) flags t.(tstate)) key w.(timers))
    w.(armed) w.(clock).

Definition timerfd_event_ready (ev : PollableEvent) (key : Z) (w : TimerWorld) : bool * TimerWorld :=
  match ev with
  | PollableEvent.CanBeRead => is_read_ready key w
  | _ => (false, w)
  end.

(** ** Specification *)

(** Expirations of a periodic timer first due at [d] by time [now]. *)
Definition due (d interval now : Z) : Z := if now <? d then 0 else (now - d) / interval + 1.

(** Nothing saturates: every count and deadline involved is below 2^64. *)
Definition in_bounds (s : TimerFdState) (now : Time) : Prop :=
  0 ≤ s.(expirations) ∧ 0 ≤ now.(time_ns) ∧
  match s.(deadline) with
  | None => True
  | Some d => 0 ≤ d.(time_ns) ∧ 0 ≤ s.(interval_ns) ∧
      now.(time_ns) + s.(interval_ns) < 2 ^ 64 ∧
      s.(expirations) + due d.(time_ns) (Z.max 1 s.(interval_ns)) now.(time_ns) < 2 ^ 64
  end.

(** A live timer has a deadline exactly when the registry has it. *)
Definition registry_ok (w : TimerWorld) : Prop :=
  ∀ key t d, w.(timers) !! key = Some t →
    (d, key) ∈ w.(armed) ↔ t.(tstate).(deadline) = Some (mkTime d).

(** ** Lemmas: refreshing *)

Lemma due_bound d interval now :
  0 < interval → d ≤ now → d + due d interval now * interval ≤ now + interval ∧
  now < d + due d interval now * interval.
Proof.
  intros Hi Hd. unfold due. replace (now <? d) with false by lia.
  pose proof (Z.div_mod (now - d) interval). pose proof (Z.mod_pos_bound (now - d) interval Hi). nia.
Qed.

Lemma due_unique d interval now n :
  0 < interval → d ≤ now → now < d + n * interval ≤ now + interval → n = due d interval now.
Proof. intros Hi Hd Hn. destruct (due_bound d interval now Hi Hd). nia. Qed.

Lemma due_pos d interval now : 0 < interval → d ≤ now → 1 ≤ due d interval now.
Proof. intros Hi Hd. destruct (due_bound d interval now Hi Hd). nia. Qed.

Lemma refresh_periodic s d now :
  s.(deadline) = Some d → 0 < s.(interval_ns) → in_bounds s now → d.(time_ns) ≤ now.(time_ns) →
  let n := due d.(time_ns) s.(interval_ns) now.(time_ns) in
  refresh now s = mkTimerState (Some (mkTime (d.(time_ns) + n * s.(interval_ns))))
    s.(interval_ns) (s.(expirations) + n).
Proof.
  intros Hd Hi (He & Hn & Hb) Hle n. unfold refresh. rewrite Hd in *. destruct Hb as (Hd0 & _ & Hs & Hc).
  rewrite Z.max_r in Hc by lia. change (2 ^ 64) with 18446744073709551616 in *.
  destruct (due_bound d.(time_ns) s.(interval_ns) now.(time_ns) Hi Hle) as [Hup Hlow]. fold n in Hup, Hlow, Hc.
  assert (n = (now.(time_ns) - d.(time_ns)) / s.(interval_ns) + 1) as En
    by (unfold n, due; by replace (_ <? _) with false by lia).
  unfold time_leb. replace (d.(time_ns) <=? now.(time_ns)) with true by lia. cbn [negb].
  replace (s.(interval_ns) =? 0) with false by lia.
  unfold as_nanoseconds, time_sub, add_ns, from_nanoseconds, sat_add, sat_mul, sat_sub. cbn [time_ns].
  change (2 ^ 64) with 18446744073709551616. rewrite (Z.max_r 0) by lia. rewrite <- En.
  assert (1 ≤ n). { pose proof (Z.div_pos (now.(time_ns) - d.(time_ns)) s.(interval_ns)). lia. }
  rewrite !Z.min_l; [done|lia..].
Qed.

Lemma refresh_not_due s now :
  (∀ d, s.(deadline) = Some d → now.(time_ns) < d.(time_ns)) → refresh now s = s.
Proof.
  intros Hd. unfold refresh. destruct (deadline s) as [d|] eqn:Hs; [|done].
  unfold time_leb. specialize (Hd d eq_refl). by replace (_ <=? _) with false by lia.
Qed.

(** ** Lemmas: the registry *)

Lemma lookup_put_state key s w k :
  (put_state key s w).(timers) !! k =
  if decide (key = k) then (λ t, mkTimerFd t.(clock_id) t.(tfd_flags) s) <$> w.(timers) !! k
  else w.(timers) !! k.
Proof.
  unfold put_state. cbn. case_decide as Hk; [subst; by rewrite lookup_alter_eq|by rewrite lookup_alter_ne].
Qed.

Lemma timers_update_registry key p n w : (update_registry key p n w).(timers) = w.(timers).
Proof. unfold update_registry. by repeat case_match. Qed.

Lemma elem_of_update_registry key p n w d k :
  is_Some (w.(timers) !! key) →
  (d, k) ∈ (update_registry key p n w).(armed) ↔
  if decide (p = n) then (d, k) ∈ w.(armed)
  else (n = Some (mkTime d) ∧ k = key) ∨ ((d, k) ∈ w.(armed) ∧ ¬ (p = Some (mkTime d) ∧ k = key)).
Proof.
  intros [t Ht]. unfold update_registry. destruct (decide (p = n)) as [Hpn|Hpn].
  { by rewrite bool_decide_true. }
  rewrite bool_decide_false, Ht by done. cbn [armed].
  assert (∀ q : Time, Some q = Some (mkTime d) ∧ k = key ↔ (d, k) = (q.(time_ns), key)) as Hq.
  { intros [q]. cbn. split; [by intros [[= ->] ->]|by intros [= -> ->]]. }
  destruct n as [n|], p as [p|]; rewrite ?elem_of_union, ?elem_of_difference, ?elem_of_singleton, ?Hq;
    intuition congruence.
Qed.

(** A registry that lacks at most the entry of [key] is complete after the update. *)
Lemma update_registry_ok key p n w t :
  w.(timers) !! key = Some t → t.(tstate).(deadline) = n →
  (∀ k t d, k ≠ key → w.(timers) !! k = Some t → (d, k) ∈ w.(armed) ↔ t.(tstate).(deadline) = Some (mkTime d)) →
  (∀ d, (d, key) ∈ w.(armed) → p = Some (mkTime d)) →
  (p = n → ∀ d, p = Some (mkTime d) → (d, key) ∈ w.(armed)) →
  registry_ok (update_registry key p n w).
Proof.
  intros Ht Hn Hother Hkey Hsame k t' d Hk'. rewrite timers_update_registry in Hk'.
  rewrite elem_of_update_registry by done. destruct (decide (k = key)) as [->|Hne].
  - assert (t' = t) as -> by congruence. rewrite Hn. destruct (decide (p = n)) as [Hpn|Hpn].
    + rewrite <- Hpn. split; [apply Hkey|by apply Hsame].
    + split; [|by left]. intros [[? _]|[Hin Hno]]; [done|]. destruct Hno. split; [by apply Hkey|done].
  - rewrite <- (Hother k t' d Hne Hk'). destruct (decide (p = n)); [done|].
    split; [by intros [[_ ?]|[? _]]|]. intros Hin. right. split; [done|]. by intros [_ ?].
Qed.

Lemma set_timer_ok key d i w : registry_ok w → registry_ok (set_timer key d i w).
Proof.
  intros Hok. unfold set_timer. destruct (w.(timers) !! key) as [t|] eqn:Ht; [|done].
  set (w' := put_state _ _ w).
  assert (w'.(timers) !! key = Some (mkTimerFd t.(clock_id) t.(tfd_flags) (mkTimerState d i 0))) as Ht'.
  { unfold w'. rewrite lookup_put_state, decide_True, Ht by done. done. }
  eapply update_registry_ok; [exact Ht'|done| | |].
  - intros k u dk Hne Hk. unfold w' in Hk. rewrite lookup_put_state, decide_False in Hk by done. by apply Hok.
  - intros dk Hin. by apply (Hok key t dk Ht).
  - intros _ dk Hd. by apply (Hok key t dk Ht).
Qed.

(** The registry while the timers of [ks] are being looked at: it is complete for all other
    timers, has no wrong entry, and an entry is missing only for a timer that is due. *)
Definition registry_ok_but (ks : list Z) (w : TimerWorld) : Prop :=
  ∀ k t, w.(timers) !! k = Some t →
    (∀ d, (d, k) ∈ w.(armed) → t.(tstate).(deadline) = Some (mkTime d)) ∧
    (∀ d, t.(tstate).(deadline) = Some (mkTime d) →
       (d, k) ∈ w.(armed) ∨
       (k ∈ ks ∧ (refresh (since_boot w.(clock)) t.(tstate)).(deadline) ≠ t.(tstate).(deadline))).

Lemma registry_ok_nil w : registry_ok_but [] w ↔ registry_ok w.
Proof.
  split.
  - intros Hok k t d Hk. destruct (Hok k t Hk) as [H1 H2]. split; [apply H1|].
    intros [?|[?%elem_of_nil _]]%H2; done.
  - intros Hok k t Hk. split; intros d ?; [|left]; by apply (Hok k t d Hk).
Qed.

Lemma registry_ok_but_weaken k ks w : registry_ok_but ks w → registry_ok_but (k :: ks) w.
Proof.
  intros Hok j t Hj. destruct (Hok j t Hj) as [H1 H2]. split; [done|].
  intros d [?|[? ?]]%H2; [by left|right]. split; [by constructor|done].
Qed.

Lemma clock_put_state key s w : (put_state key s w).(clock) = w.(clock).
Proof. done. Qed.

Lemma clock_refresh_state key w : (refresh_state key w).2.(clock) = w.(clock).
Proof. unfold refresh_state, update_registry. by repeat case_match. Qed.

Lemma lookup_refresh_state key w k :
  (refresh_state key w).2.(timers) !! k =
  if decide (key = k)
  then (λ t, mkTimerFd t.(clock_id) t.(tfd_flags) (refresh (since_boot w.(clock)) t.(tstate))) <$> w.(timers) !! k
  else w.(timers) !! k.
Proof.
  unfold refresh_state. destruct (w.(timers) !! key) as [t|] eqn:Ht; cbn [snd].
  - rewrite timers_update_registry, lookup_put_state. case_decide; [subst; by rewrite Ht|done].
  - case_decide; [subst; by rewrite Ht|done].
Qed.

(** Looking at a timer settles its registry entry. *)
Lemma refresh_state_ok_but key ks w :
  registry_ok_but (key :: ks) w → registry_ok_but ks (refresh_state key w).2.
Proof.
  intros Hok k u Hk. rewrite clock_refresh_state. rewrite lookup_refresh_state in Hk.
  unfold refresh_state. destruct (w.(timers) !! key) as [t|] eqn:Ht; cbn [snd].
  2: { destruct (decide (key = k)) as [->|Hne]; [by rewrite Ht in Hk|].
       destruct (Hok k u Hk) as [H1 H2]. split; [done|].
       intros d [?|[[->|?]%elem_of_cons ?]]%H2; [by left|done|by right]. }
  set (s := refresh _ (tstate t)) in *.
  assert (is_Some ((put_state key s w).(timers) !! key)) as Hs.
  { rewrite lookup_put_state, decide_True, Ht by done. by eexists. }
  destruct (decide (key = k)) as [<-|Hne].
  - rewrite Ht in Hk. injection Hk as <-. cbn [tstate]. fold s. destruct (Hok key t Ht) as [H1 H2].
    split; intros d Hd.
    + apply (elem_of_update_registry _ _ _ _ d key Hs) in Hd. destruct (decide _) as [Hpn|Hpn].
      * rewrite <- Hpn. by apply H1.
      * destruct Hd as [[? _]|[Hin Hno]]; [done|]. destruct Hno. split; [by apply H1|done].
    + left. apply (elem_of_update_registry _ _ _ _ d key Hs). destruct (decide _) as [Hpn|Hpn]; [|by left].
      destruct (H2 d) as [?|[_ Hne]]; [by rewrite Hpn|done|]. by destruct Hne.
  - destruct (Hok k u Hk) as [H1 H2]. split; intros d Hd.
    + apply H1. apply (elem_of_update_registry _ _ _ _ d k Hs) in Hd. destruct (decide _); [done|].
      destruct Hd as [[_ ?]|[? _]]; [congruence|done].
    + destruct (H2 d Hd) as [Hin|[[->|Hin]%elem_of_cons Hr]]; [left|done|by right].
      apply (elem_of_update_registry _ _ _ _ d k Hs). destruct (decide _); [done|].
      right. split; [done|]. intros [_ ?]. congruence.
Qed.

Lemma refresh_state_ok key w : registry_ok w → registry_ok (refresh_state key w).2.
Proof. intros Hok. apply registry_ok_nil, refresh_state_ok_but, registry_ok_but_weaken. by apply registry_ok_nil. Qed.

Lemma drop_timer_ok key w : registry_ok w → registry_ok (drop_timer key w).
Proof.
  intros Hok k t d Hk. cbn [drop_timer timers] in Hk. apply lookup_delete_Some in Hk as [_ Hk].
  by apply Hok.
Qed.

Lemma zero_expirations_ok key w s :
  registry_ok w → (∀ t, w.(timers) !! key = Some t → t.(tstate).(deadline) = s.(deadline)) →
  registry_ok (put_state key s w).
Proof.
  intros Hok Hs k t d Hk. rewrite lookup_put_state in Hk. case_decide as Hkk; [|by apply Hok].
  subst k. destruct (w.(timers) !! key) as [u|] eqn:Hu; [|done]. cbn in Hk. simplify_eq. cbn.
  rewrite <- (Hs u eq_refl). by apply Hok.
Qed.

(** ** Lemmas: expiring *)

Lemma refresh_due_changes now s d :
  s.(deadline) = Some d → 0 ≤ s.(interval_ns) → d.(time_ns) ≤ now.(time_ns) → now.(time_ns) < U64_MAX →
  (refresh now s).(deadline) ≠ s.(deadline).
Proof.
  intros Hd Hi Hle Hmax. unfold refresh. rewrite Hd. unfold time_leb.
  replace (d.(time_ns) <=? now.(time_ns)) with true by lia. cbn [negb].
  destruct (interval_ns s =? 0) eqn:Hz; [done|]. cbn. unfold add_ns, from_nanoseconds.
  destruct d as [d]. cbn [time_ns] in *. intros [= Heq]. revert Heq.
  unfold sat_add, sat_mul, sat_sub, U64_MAX in *. change (2 ^ 64) with 18446744073709551616.
  set (c := Z.min (_ / _ + 1) _).
  assert (1 ≤ c).
  { unfold c. pose proof (Z.div_pos (Z.max 0 (now.(time_ns) - d)) s.(interval_ns)). lia. }
  assert (1 ≤ c * s.(interval_ns)) by nia. lia.
Qed.

Lemma entry_leb_total a b : entry_leb a b = true ∨ entry_leb b a = true.
Proof. apply lex_leb_total. Qed.

Lemma entry_leb_trans a b c : entry_leb a b = true → entry_leb b c = true → entry_leb a c = true.
Proof. apply lex_leb_trans. Qed.

Lemma entry_leb_deadline a b : entry_leb a b = true → a.1 ≤ b.1.
Proof. unfold entry_leb. cbn. intros. boolify. lia. Qed.

Lemma elem_of_armed_entries w e : e ∈ armed_entries w ↔ e ∈ w.(armed).
Proof. unfold armed_entries. by rewrite elem_of_sort_by, elem_of_elements. Qed.

Lemma armed_entries_sorted w : StronglySorted (λ a b, entry_leb a b = true) (armed_entries w).
Proof. apply sort_by_sorted; [apply entry_leb_total|apply entry_leb_trans]. Qed.

Lemma elem_of_pop_expired now l d k :
  StronglySorted (λ a b, entry_leb a b = true) l →
  (d, k) ∈ pop_expired now l ↔ (d, k) ∈ l ∧ d ≤ now.(time_ns).
Proof.
  induction 1 as [|[d0 k0] l Hl IH Hx]; cbn; [by rewrite elem_of_nil; split; [|intros [? _]]|].
  unfold time_leb. cbn [time_ns]. rewrite elem_of_cons.
  destruct (d0 <=? now.(time_ns)) eqn:Hd; cbn [negb].
  - rewrite elem_of_cons, IH. split; [|tauto]. intros [[= -> ->]|?]; [|tauto]. split; [by left|lia].
  - split; [by intros ?%elem_of_nil|]. intros [[[= -> ->]|Hin] Hle]; [lia|].
    rewrite Forall_forall in Hx. specialize (Hx _ Hin). apply entry_leb_deadline in Hx. cbn in Hx. lia.
Qed.

Definition world_ok (w : TimerWorld) : Prop :=
  registry_ok w ∧
  (∀ k t, w.(timers) !! k = Some t → 0 ≤ t.(tstate).(interval_ns) ∧ 0 ≤ t.(tstate).(expirations)) ∧
  clock_ok w.(clock).

Lemma since_boot_small c : clock_ok c → (since_boot c).(time_ns) < U64_MAX.
Proof.
  intros [H _]%nanoseconds_since_boot_ok. unfold since_boot, from_nanoseconds, U64_MAX. cbn.
  change (2 ^ 63) with 9223372036854775808 in H. lia.
Qed.

(** Popping leaves gaps only for timers that are due, all of which are in the list. *)
Lemma expired_timerfds_ok w :
  world_ok w →
  let '(strong, w') := expired_timerfds (since_boot w.(clock)) w in
  registry_ok_but strong w' ∧ w'.(timers) = w.(timers) ∧ w'.(clock) = w.(clock) ∧
  (∀ k, k ∈ strong ↔ is_Some (w.(timers) !! k) ∧ ∃ d, (d, k) ∈ w.(armed) ∧ d ≤ (since_boot w.(clock)).(time_ns)).
Proof.
  intros (Hok & Hint & Hclk). unfold expired_timerfds. cbv zeta.
  set (now := since_boot w.(clock)). set (popped := pop_expired now (armed_entries w)).
  assert (∀ d k, (d, k) ∈ popped ↔ (d, k) ∈ w.(armed) ∧ d ≤ now.(time_ns)) as Hpop.
  { intros d k. unfold popped. rewrite elem_of_pop_expired by apply armed_entries_sorted.
    by rewrite elem_of_armed_entries. }
  assert (∀ k, k ∈ List.filter (λ key, bool_decide (is_Some (w.(timers) !! key))) (map snd popped) ↔
    is_Some (w.(timers) !! k) ∧ ∃ d, (d, k) ∈ w.(armed) ∧ d ≤ now.(time_ns)) as Hstrong.
  { intros k. rewrite list_elem_of_In, filter_In, <- list_elem_of_In, bool_decide_eq_true, list_elem_of_fmap.
    split.
    - intros [([d k'] & -> & Hin) Hk]. split; [done|]. exists d. by apply Hpop.
    - intros [Hk (d & Hin)]. split; [|done]. exists (d, k). split; [done|by apply Hpop]. }
  split; [|done]. intros k t Hk. cbn [timers armed clock] in *. split.
  - intros d [Hin _]%elem_of_difference. by apply (Hok k t d Hk).
  - intros d Hd. apply (Hok k t d Hk) in Hd as Hin.
    destruct (decide (d ≤ now.(time_ns))) as [Hle|Hgt].
    + right. split; [apply Hstrong; split; [by eexists|by exists d]|].
      eapply refresh_due_changes; [exact Hd|by eapply Hint|done|by apply since_boot_small].
    + left. apply elem_of_difference. split; [done|]. rewrite elem_of_list_to_set, Hpop. lia.
Qed.

Lemma refresh_nonneg now s :
  0 ≤ s.(interval_ns) → 0 ≤ s.(expirations) →
  (refresh now s).(interval_ns) = s.(interval_ns) ∧ s.(expirations) `min` U64_MAX ≤ (refresh now s).(expirations) ∧
  (∀ d, s.(deadline) = Some d → d.(time_ns) ≤ now.(time_ns) → 0 < (refresh now s).(expirations)).
Proof.
  intros Hi He. unfold refresh, time_leb. destruct (deadline s) as [d|]; [|split_and!; [done|lia|done]].
  unfold sat_add. change (2 ^ 64) with 18446744073709551616. unfold U64_MAX.
  destruct (d.(time_ns) <=? now.(time_ns)) eqn:Hd; cbn [negb].
  - destruct (interval_ns s =? 0) eqn:Hz; cbn; [split_and!; [done|lia|]; intros; lia|].
    pose proof (Z.div_pos (sat_sub now.(time_ns) d.(time_ns)) s.(interval_ns)) as Hp.
    unfold sat_sub in *. split_and!; [done|lia|]. intros. lia.
  - split_and!; [done|lia|]. intros d' [= <-] ?. lia.
Qed.

Lemma world_ok_refresh_state key w : world_ok w → world_ok (refresh_state key w).2.
Proof.
  intros (Hok & Hn & Hc). split; [by apply refresh_state_ok|]. rewrite clock_refresh_state. split; [|done].
  intros k t Hk. rewrite lookup_refresh_state in Hk. case_decide; [|by eapply Hn].
  destruct (w.(timers) !! k) as [u|] eqn:Hu; [|done]. injection Hk as <-. cbn.
  destruct (Hn k u Hu) as [Hi He]. destruct (refresh_nonneg (since_boot w.(clock)) _ Hi He) as (-> & Hle & _).
  unfold U64_MAX in Hle. lia.
Qed.

Definition poll_step (acc : list Z * TimerWorld) (key : Z) : list Z * TimerWorld :=
  let '(ready, w) := acc in
  let '(r, w) := is_read_ready key w in
  (if r then ready ++ [key] else ready, w).

Lemma poll_fold strong ready w :
  registry_ok_but strong w →
  let '(ready', w') := foldl poll_step (ready, w) strong in
  registry_ok w' ∧ w'.(clock) = w.(clock) ∧ (∀ k, k ∈ ready → k ∈ ready') ∧
  (∀ k t, k ∈ strong → w.(timers) !! k = Some t →
     0 < (refresh (since_boot w.(clock)) t.(tstate)).(expirations) → k ∈ ready') ∧
  (∀ k t', w'.(timers) !! k = Some t' → ∃ t, w.(timers) !! k = Some t ∧
     (0 ≤ t.(tstate).(interval_ns) ∧ 0 ≤ t.(tstate).(expirations) →
      0 ≤ t'.(tstate).(interval_ns) ∧ 0 ≤ t'.(tstate).(expirations))).
Proof.
  revert ready w. induction strong as [|x strong IH]; intros ready w Hok; cbn [foldl].
  { split; [by apply registry_ok_nil|]. split_and!; try done; [by intros k t ?%elem_of_nil|].
    intros k t Hk. by exists t. }
  apply refresh_state_ok_but in Hok as Hok1.
  pose proof (clock_refresh_state x w) as Hclk. pose proof (lookup_refresh_state x w) as Hlook.
  unfold poll_step at 2, is_read_ready. destruct (refresh_state x w) as [s w1] eqn:Hr. cbn [snd] in *.
  set (r := match s with Some s => 0 <? s.(expirations) | None => false end).
  specialize (IH (if r then ready ++ [x] else ready) w1 Hok1).
  destruct (foldl _ _ strong) as [ready' w']. destruct IH as (H1 & H2 & H3 & H4 & H5).
  split; [done|]. split; [congruence|]. split; [|split].
  - intros k Hk. apply H3. destruct r; [|done]. apply elem_of_app. by left.
  - intros k t Hin Hk Hpos. destruct (decide (x = k)) as [->|Hne].
    + apply H3. assert (r = true) as ->.
      { unfold refresh_state in Hr. rewrite Hk in Hr. injection Hr as <- <-. unfold r. lia. }
      apply elem_of_app. right. constructor.
    + apply elem_of_cons in Hin as [->|Hin]; [done|]. apply (H4 k t Hin); [|by rewrite Hclk].
      rewrite Hlook. by rewrite decide_False.
  - intros k t' Hk. destruct (H5 k t' Hk) as (t1 & Hk1 & Himp). rewrite Hlook in Hk1.
    case_decide as Hd; [|by exists t1]. destruct (w.(timers) !! k) as [t|] eqn:Ht; [|done].
    injection Hk1 as <-. exists t. split; [done|]. intros [Hi He]. apply Himp. cbn.
    destruct (refresh_nonneg (since_boot w.(clock)) _ Hi He) as (-> & Hle & _). unfold U64_MAX in Hle. lia.
Qed.

Lemma poll_objects_spec w :
  world_ok w →
  let '(ready, w') := expired_timerfd_poll_objects w in
  world_ok w' ∧
  ∀ k t d, w.(timers) !! k = Some t → t.(tstate).(deadline) = Some d →
    time_leb d (since_boot w.(clock)) = true → k ∈ ready.
Proof.
  intros Hok. pose proof Hok as (Hreg & Hn & Hc). unfold expired_timerfd_poll_objects. fold poll_step.
  pose proof (expired_timerfds_ok w Hok) as Hexp. destruct (expired_timerfds _ w) as [strong w1].
  destruct Hexp as (Hbut & Ht & Hcl & Hstrong). pose proof (poll_fold strong [] w1 Hbut) as Hf.
  change (foldl _ ([], w1) strong) with (foldl poll_step ([], w1) strong).
  destruct (foldl poll_step ([], w1) strong) as [ready w'].
  destruct Hf as (H1 & H2 & _ & H4 & H5). split.
  - split; [done|]. split; [|by rewrite H2, Hcl]. intros k t Hk.
    destruct (H5 k t Hk) as (t0 & Hk0 & Himp). rewrite Ht in Hk0. by apply Himp, (Hn k).
  - intros k t [d] Hk Hd Hle. apply Z.leb_le in Hle. cbn [time_ns] in Hle. destruct (Hn k t Hk) as [Hi He].
    apply (H4 k t).
    + apply Hstrong. split; [by eexists|]. exists d. split; [by apply (Hreg k t d Hk)|lia].
    + by rewrite Ht.
    + rewrite Hcl. destruct (refresh_nonneg (since_boot w.(clock)) _ Hi He) as (_ & _ & Hpos).
      apply (Hpos (mkTime d)); [done|exact Hle].
Qed.

(** ** Steps *)

(** Creating, arming, looking at, reading, polling and dropping timers, and the passing of
    time.  A new object has an address that no weak reference still holds. *)
Inductive timer_step (w : TimerWorld) : TimerWorld → Prop :=
  | step_new key id flags :
      w.(timers) !! key = None → (∀ d, (d, key) ∉ w.(armed)) →
      timer_step w (mkTimerWorld (<[key := timerfd_new id flags]> w.(timers)) w.(armed) w.(clock))
  | step_set key d i : 0 ≤ i → timer_step w (set_timer key d i w)
  | step_look key : timer_step w (refresh_state key w).2
  | step_read key r w' : timerfd_read_try key w = Return r w' → timer_step w w'
  | step_read_sleep key w' : timerfd_read_try key w = Sleep w' → timer_step w w'
  | step_flags key flags : timer_step w (timerfd_set_flags key flags w)
  | step_poll : timer_step w (expired_timerfd_poll_objects w).2
  | step_drop key : timer_step w (drop_timer key w)
  | step_time c : clock_ok c → timer_step w (mkTimerWorld w.(timers) w.(armed) c).

Lemma timers_set_timer key d i w k :
  (set_timer key d i w).(timers) !! k =
  if decide (key = k)
  then (λ t, mkTimerFd t.(clock_id) t.(tfd_flags) (mkTimerState d i 0)) <$> w.(timers) !! k
  else w.(timers) !! k.
Proof.
  unfold set_timer. destruct (w.(timers) !! key) as [t|] eqn:Ht.
  - by rewrite timers_update_registry, lookup_put_state.
  - case_decide; [subst; by rewrite Ht|done].
Qed.

Lemma clock_set_timer key d i w : (set_timer key d i w).(clock) = w.(clock).
Proof. unfold set_timer, update_registry. by repeat case_match. Qed.

Lemma read_try_world key w :
  match timerfd_read_try key w with
  | Return _ w' | Sleep w' => world_ok w → world_ok w'
  end.
Proof.
  unfold timerfd_read_try. pose proof (world_ok_refresh_state key w) as Hok.
  destruct (refresh_state key w) as [[s|] w1] eqn:Hr; cbn [snd] in Hok; [|done].
  assert (∀ t, w1.(timers) !! key = Some t → t.(tstate) = s) as Hs.
  { intros t Ht. pose proof (lookup_refresh_state key w key) as Hl. rewrite Hr, decide_True in Hl by done.
    cbn [snd] in Hl. rewrite Ht in Hl. unfold refresh_state in Hr.
    destruct (w.(timers) !! key) as [u|]; [|done]. injection Hr as <- _. injection Hl as ->. done. }
  destruct (0 <? s.(expirations)); [|destruct_all; exact Hok].
  intros Hw. destruct (Hok Hw) as (Hreg & Hn & Hc). split; [|split; [|done]].
  - apply zero_expirations_ok; [done|]. intros t Ht. by rewrite (Hs t Ht).
  - intros k t Hk. rewrite lookup_put_state in Hk. case_decide; [|by eapply Hn]. subst k.
    destruct (w1.(timers) !! key) as [u|] eqn:Hu; [|done]. injection Hk as <-. cbn.
    destruct (Hn key u Hu) as [Hi _]. rewrite (Hs u eq_refl) in Hi. done.
Qed.

Lemma world_ok_set_flags key flags w : world_ok w → world_ok (timerfd_set_flags key flags w).
Proof.
  intros (Hreg & Hn & Hc). split; [|split; [|done]]; [intros k t d|intros k t];
    cbn [timerfd_set_flags timers armed]; intros Hk;
    apply lookup_alter_Some in Hk as [(<- & u & Hu & ->)|[_ Hk]]; cbn [tstate]; eauto.
Qed.

Lemma timer_step_ok w w' : timer_step w w' → world_ok w → world_ok w'.
Proof.
  intros Hs Hok. pose proof Hok as (Hreg & Hn & Hc).
  destruct Hs as [key id fl Hk Hfresh|key d i Hi|key|key r w' H|key w' H|key fl| |key|c Hc'].
  - split; [|split; [|done]]; cbn [timers armed].
    + intros k t d Hkt. cbn [timers armed] in *. apply lookup_insert_Some in Hkt as [[<- <-]|[_ Hkt]]; [|by apply Hreg].
      split; [by intros ?%Hfresh|done].
    + intros k t Hkt. apply lookup_insert_Some in Hkt as [[_ <-]|[_ Hkt]]; [done|by eapply Hn].
  - split; [by apply set_timer_ok|]. rewrite clock_set_timer. split; [|done].
    intros k t Hk. rewrite timers_set_timer in Hk. case_decide; [|by eapply Hn].
    destruct (w.(timers) !! k); [|done]. injection Hk as <-. done.
  - by apply world_ok_refresh_state.
  - pose proof (read_try_world key w) as Hw. rewrite H in Hw. auto.
  - pose proof (read_try_world key w) as Hw. rewrite H in Hw. auto.
  - by apply world_ok_set_flags.
  - pose proof (poll_objects_spec w Hok) as Hp. destruct (expired_timerfd_poll_objects w). by destruct Hp.
  - split; [by apply drop_timer_ok|]. split; [|done]. intros k t Hk. cbn [drop_timer timers] in Hk.
    apply lookup_delete_Some in Hk as [_ Hk]. by eapply Hn.
  - by split.
Qed.

Definition timer_init (c : Clock) : TimerWorld := mkTimerWorld ∅ ∅ c.

(** ** Properties *)

(** Whatever timers are created, armed, looked at, read, polled and dropped in any order while
    time passes, the registry has an entry for a live timer exactly when the timer has that
    deadline, so no armed timer is forgotten and none fires after being disarmed. Entries of
    dropped timers may remain until their deadline. *)
Lemma timer_registry_invariant c w :
  clock_ok c → rtc timer_step (timer_init c) w → world_ok w.
Proof.
  intros Hc Hr. assert (world_ok (timer_init c)) as Hi.
  { split; [|split; [|done]]; unfold timer_init; [intros k t d|intros k t]; cbn [timers]; by rewrite lookup_empty. }
  induction Hr as [|x y z Hxy _ IH]; [done|]. by apply IH, (timer_step_ok x).
Qed.

Definition ex_world : TimerWorld :=
  set_timer 64 (Some (mkTime 5000)) 300
    (mkTimerWorld {[ 64 := timerfd_new 1 0 ]} ∅ (ex_clock 13000)).

Lemma ex_world_reachable : rtc timer_step (timer_init (ex_clock 13000)) ex_world.
Proof.
  eapply rtc_l; [apply (step_new _ 64 1 0); [done|]|].
  { intros d Hd. by apply not_elem_of_empty in Hd. }
  apply rtc_once. by apply (step_set _ 64 (Some (mkTime 5000)) 300).
Qed.

Lemma timer_registry_invariant_witness :
  (5000, 64) ∈ ex_world.(armed) ∧ world_ok ex_world.
Proof.
  split; [by apply elem_of_union_l, elem_of_singleton|].
  apply (timer_registry_invariant (ex_clock 13000)); [split_and!; done|exact ex_world_reachable].
Defined.

(** C32. A poll misses no timer: every live timer whose deadline has come is among the
    objects reported, and the next deadline announced is no later than that of any live
    timer. *)
Theorem timer_poll_complete w :
  world_ok w →
  (∀ k t d, w.(timers) !! k = Some t → t.(tstate).(deadline) = Some d →
     time_leb d (since_boot w.(clock)) = true → k ∈ (expired_timerfd_poll_objects w).1) ∧
  (∀ k t d, w.(timers) !! k = Some t → t.(tstate).(deadline) = Some d →
     ∃ d', next_timerfd_poll_deadline w = Some d' ∧ time_leb d' d = true).
Proof.
  intros Hok. split.
  - pose proof (poll_objects_spec w Hok) as Hp. destruct (expired_timerfd_poll_objects w). by destruct Hp.
  - intros k t [d] Hk Hd. destruct Hok as (Hreg & _). apply (Hreg k t d Hk) in Hd.
    apply elem_of_armed_entries in Hd. pose proof (armed_entries_sorted w) as Hs.
    unfold next_timerfd_poll_deadline. destruct (armed_entries w) as [|[d0 k0] l]; [by apply elem_of_nil in Hd|].
    exists (mkTime d0). split; [done|]. unfold time_leb. cbn [time_ns].
    apply elem_of_cons in Hd as [[= -> ->]|Hd]; [lia|]. inversion Hs as [|? ? _ Hall]. subst.
    rewrite Forall_forall in Hall. specialize (Hall _ Hd). apply entry_leb_deadline in Hall. cbn in Hall. lia.
Qed.

Lemma timer_poll_complete_witness : 64 ∈ (expired_timerfd_poll_objects ex_world).1.
Proof.
  apply (timer_poll_complete ex_world) with (t := mkTimerFd 1 0 (mkTimerState (Some (mkTime 5000)) 300 0))
    (d := mkTime 5000); [|vm_compute; reflexivity..].
  apply (timer_registry_invariant (ex_clock 13000)); [split_and!; done|exact ex_world_reachable].
Defined.

(** C33. A periodic timer counts exactly: refreshed at [now] it has gained one expiration for
    every period that has begun since its deadline, its next deadline is the first later one
    in phase, and refreshing in between makes no difference. *)
Theorem timerfd_refresh_exact s d now1 now2 :
  s.(deadline) = Some d → 0 < s.(interval_ns) →
  in_bounds s now1 → in_bounds s now2 → d.(time_ns) ≤ now1.(time_ns) ≤ now2.(time_ns) →
  let n := due d.(time_ns) s.(interval_ns) now2.(time_ns) in
  refresh now2 s = mkTimerState (Some (mkTime (d.(time_ns) + n * s.(interval_ns))))
    s.(interval_ns) (s.(expirations) + n) ∧
  now2.(time_ns) < d.(time_ns) + n * s.(interval_ns) ≤ now2.(time_ns) + s.(interval_ns) ∧
  refresh now2 (refresh now1 s) = refresh now2 s.
Proof.
  intros Hd Hi Hb1 Hb2 Hle n.
  rewrite (refresh_periodic s d now1 Hd Hi Hb1) by lia.
  rewrite (refresh_periodic s d now2 Hd Hi Hb2) by lia. fold n. split; [done|].
  destruct (due_bound d.(time_ns) s.(interval_ns) now2.(time_ns) Hi) as [Hup Hlow]; [lia|].
  fold n in Hup, Hlow. split; [lia|].
  set (m := due d.(time_ns) s.(interval_ns) now1.(time_ns)).
  destruct (due_bound d.(time_ns) s.(interval_ns) now1.(time_ns) Hi) as [Hup1 Hlow1]; [lia|].
  fold m in Hup1, Hlow1. set (e1 := d.(time_ns) + m * s.(interval_ns)) in *.
  destruct (decide (e1 ≤ now2.(time_ns))) as [Hdue|Hdue].
  - destruct (due_bound e1 s.(interval_ns) now2.(time_ns) Hi Hdue) as [Hup2 Hlow2].
    set (q := due e1 s.(interval_ns) now2.(time_ns)) in *.
    assert (m + q = n) as Hn by (apply due_unique; unfold e1 in *; lia).
    assert (1 ≤ m) by (apply due_pos; lia). assert (1 ≤ q) by (apply due_pos; lia).
    assert (in_bounds (mkTimerState (Some (mkTime e1)) s.(interval_ns) (s.(expirations) + m)) now2) as Hb.
    { unfold in_bounds in *. rewrite Hd in *. cbn [deadline expirations interval_ns time_ns].
      destruct Hb1 as (H1 & H2 & H3 & _). destruct Hb2 as (_ & H4 & _ & _ & H5 & H6).
      rewrite Z.max_r in * by lia. fold n in H6. fold q.
      assert (0 ≤ e1) by (unfold e1; nia). split_and!; lia. }
    rewrite (refresh_periodic (mkTimerState (Some (mkTime e1)) s.(interval_ns) (s.(expirations) + m))
      (mkTime e1) now2 eq_refl Hi Hb) by done. cbn [interval_ns expirations time_ns].
    fold q. rewrite <- Hn. unfold e1. f_equal; [|lia]. do 2 f_equal. lia.
  - rewrite refresh_not_due by (cbn; intros p [= <-]; cbn; lia).
    assert (m = n) as ->; [|done]. apply due_unique; [done|lia|fold e1; lia].
Qed.

Lemma timerfd_refresh_exact_witness :
  (refresh (mkTime 6000) (mkTimerState (Some (mkTime 5000)) 300 0)) =
    mkTimerState (Some (mkTime 6200)) 300 4.
Proof.
  apply (timerfd_refresh_exact (mkTimerState (Some (mkTime 5000)) 300 0) (mkTime 5000)
    (mkTime 5100) (mkTime 6000)); try done; unfold in_bounds; cbn; split_and!; done.
Defined.
