(* ===== verification/BlockDevice.v ===== *)
(** * Block devices

    filesystem/block_device.rs: the trait [BlockDevice] with its default methods, and
    filesystem/block_device/initrd.rs: the RAM disk.

    The trait is the class [BlockDevice] over the state [D] of a device; the laws that a
    device promises to its clients are the class [BlockDeviceLaws], stated over the flat
    byte contents.  Reading and writing at byte offsets is proved correct for every lawful
    device, and the RAM disk is one.  A method runs in the monad [io]; a read returns the
    bytes it puts at the front of a buffer of the given length instead of their number, and
    what a failed read leaves in the buffer is not modelled. *)

From S2P Require Import Prelude Errors.

(** ** The monad of device methods *)

Definition io (D A : Type) : Type := D → result BlockDeviceError A * D.

#[export] Instance io_mret {D} : MRet (io D) := λ A a d, (Ok a, d).
#[export] Instance io_mbind {D} : MBind (io D) := λ A B k m d,
  let '(r, d) := m d in
  match r with Ok a => k a d | Err e => (Err e, d) end.

Definition fail {D A} (e : BlockDeviceError) : io D A := λ d, (Err e, d).

(** ** The trait *)

Class BlockDevice (D : Type) : Type := {
  total_blocks : D → Z;
  block_size : D → Z;
  read_single_block (id len : Z) : io D (list byte);
  write_single_block (id : Z) (buffer : list byte) : io D Z;
  read_blocks (start len : Z) : io D (list byte);
  write_blocks (start : Z) (buffer : list byte) : io D Z;
  flush : io D unit;
}.

(** The default methods of the trait that a device may override. *)
Section defaults.
Context {D : Type} (size : D → Z) (read_single : Z → Z → io D (list byte))
  (write_single : Z → list byte → io D Z).

(** The rounds [i, i + n) of the loop of [read_blocks]; a block that reaches past the end of
    the buffer goes through a temporary one. *)
Fixpoint default_read_loop (n : nat) (i start len bs : Z) : io D (list byte) :=
  match n with
  | O => mret []
  | S n =>
      data ← read_single (start + i) bs;
      let byte_start := i * bs in
      let byte_end := (i + 1) * bs in
      let chunk := if byte_end <=? len then data else zslice data 0 (len - byte_start) in
      rest ← default_read_loop n (i + 1) start len bs;
      mret (chunk ++ rest)
  end.

Definition default_read_blocks (start len : Z) : io D (list byte) := λ d,
  default_read_loop (Z.to_nat (div_ceil len (size d))) 0 start len (size d) d.

Fixpoint default_write_loop (n : nat) (i start : Z) (buffer : list byte) (bs : Z) : io D unit :=
  match n with
  | O => mret tt
  | S n =>
      let byte_start := i * bs in
      _ ← write_single (start + i) (zslice buffer byte_start (byte_start + bs));
      default_write_loop n (i + 1) start buffer bs
  end.

Definition default_write_blocks (start : Z) (buffer : list byte) : io D Z := λ d,
  let bs := size d in
  if negb (zlen buffer mod bs =? 0) then fail BlockDeviceError.BufferTooSmall d
  else (_ ← default_write_loop (Z.to_nat (zlen buffer / bs)) 0 start buffer bs;
        mret (zlen buffer)) d.
End defaults.

(** ** Access by byte offset *)

Section by_bytes.
Context {D : Type} `{BlockDevice D}.

(** The default of the trait, which a device may override. *)
Definition default_total_bytes (d : D) : Z := total_blocks d * block_size d.

(** The blocks that a byte range covers whole: the first one and their number. *)
Definition full_blocks (offset len bs : Z) : Z * Z :=
  let ending_offset := uwrap 64 (offset + len) in
  let full_blocks_start := offset / bs + Z.b2z (negb (offset mod bs =? 0)) in
  let full_blocks_end :=
    div_ceil ending_offset bs - Z.b2z (negb (ending_offset mod bs =? 0)) in
  (full_blocks_start, sat_sub full_blocks_end full_blocks_start).

Definition read_by_bytes (offset len : Z) : io D (list byte) := λ d,
  if len =? 0 then (Ok [], d) else
  let bs := block_size d in
  let starting_block := offset / bs in
  let offset_in_block := offset mod bs in
  let ending_block := div_ceil (uwrap 64 (offset + len)) bs in
  if (offset_in_block =? 0) && (len mod bs =? 0) then read_blocks starting_block len d
  else
    (head ← (if negb (offset_in_block =? 0) then
               temp ← read_single_block starting_block bs;
               let head_len := Z.min (bs - offset_in_block) len in
               mret (zslice temp offset_in_block (offset_in_block + head_len))
             else mret []);
     let '(full_start, full) := full_blocks offset len bs in
     middle ← (if negb (full =? 0) then read_blocks full_start (full * bs) else mret []);
     let copied := zlen (head ++ middle) in
     tail ← (if copied <? len then
               temp ← read_single_block (ending_block - 1) bs;
               mret (zslice temp 0 (len - copied))
             else mret []);
     mret (head ++ middle ++ tail)) d.

Definition write_by_bytes (offset : Z) (buffer : list byte) : io D Z := λ d,
  let len := zlen buffer in
  if len =? 0 then (Ok 0, d) else
  let bs := block_size d in
  let starting_block := offset / bs in
  let offset_in_block := offset mod bs in
  let ending_block := div_ceil (uwrap 64 (offset + len)) bs in
  if (offset_in_block =? 0) && (len mod bs =? 0) then
    (_ ← write_blocks starting_block buffer; mret len) d
  else
    (written ← (if negb (offset_in_block =? 0) then
                  temp ← read_single_block starting_block bs;
                  let head_len := Z.min (bs - offset_in_block) len in
                  let temp := zsplice temp offset_in_block (zslice buffer 0 head_len) in
                  _ ← write_single_block starting_block temp;
                  mret head_len
                else mret 0);
     let '(full_start, full) := full_blocks offset len bs in
     written ← (if negb (full =? 0) then
                  let full_bytes := full * bs in
                  _ ← write_blocks full_start (zslice buffer written (written + full_bytes));
                  mret (written + full_bytes)
                else mret written);
     _ ← (if written <? len then
            let last_block := ending_block - 1 in
            temp ← read_single_block last_block bs;
            let temp := zsplice temp 0 (zslice buffer written len) in
            write_single_block last_block temp
          else mret 0);
     mret len) d.
End by_bytes.

(** ** The RAM disk *)

Definition RAMDISK_BLOCK : Z := 1024.

Record RamDisk := mkRamDisk { disk : list byte }.

Definition ramdisk_read_single_block (id len : Z) : io RamDisk (list byte) := λ d,
  let start := uwrap 64 (id * RAMDISK_BLOCK) in
  let end_ := uwrap 64 (start + RAMDISK_BLOCK) in
  if len <? uwrap 64 (end_ - start) then (Err BlockDeviceError.BufferTooSmall, d)
  else if zlen d.(disk) <? end_ then (Err BlockDeviceError.OutOfBounds, d)
  else (Ok (zslice d.(disk) start end_), d).

Definition ramdisk_write_single_block (id : Z) (buffer : list byte) : io RamDisk Z := λ d,
  let start := uwrap 64 (id * RAMDISK_BLOCK) in
  let end_ := uwrap 64 (start + RAMDISK_BLOCK) in
  if zlen buffer <? uwrap 64 (end_ - start) then (Err BlockDeviceError.BufferTooSmall, d)
  else if zlen d.(disk) <? end_ then (Err BlockDeviceError.OutOfBounds, d)
  else (Ok (uwrap 64 (end_ - start)),
        mkRamDisk (zsplice d.(disk) start (zslice buffer 0 RAMDISK_BLOCK))).

(** Its own [total_bytes] counts a last part that is no whole block. *)
Definition ramdisk_total_bytes (d : RamDisk) : Z := zlen d.(disk).

#[export] Instance ramdisk_device : BlockDevice RamDisk := {
  total_blocks d := zlen d.(disk) / RAMDISK_BLOCK;
  block_size _ := RAMDISK_BLOCK;
  read_single_block := ramdisk_read_single_block;
  write_single_block := ramdisk_write_single_block;
  read_blocks := default_read_blocks (λ _, RAMDISK_BLOCK) ramdisk_read_single_block;
  write_blocks := default_write_blocks (λ _, RAMDISK_BLOCK) ramdisk_write_single_block;
  flush := mret tt;
}.

(** ** Specification *)

(** [m] run from [d] returns [a] and leaves a state that satisfies [Q]. *)
Definition runs {D A} (m : io D A) (d : D) (a : A) (Q : D → Prop) : Prop :=
  ∃ d', m d = (Ok a, d') ∧ Q d'.

Lemma runs_mret {D A} (a : A) (d : D) (Q : D → Prop) : Q d → runs (mret a) d a Q.
Proof. intros HQ. by exists d. Qed.

Lemma runs_mbind {D A B} (m : io D A) (k : A → io D B) d a b (P Q : D → Prop) :
  runs m d a P → (∀ d', P d' → runs (k a) d' b Q) → runs (m ≫= k) d b Q.
Proof.
  intros (d1 & Hm & HP) Hk. destruct (Hk d1 HP) as (d2 & Hk2 & HQ). exists d2.
  split; [|done]. unfold mbind, io_mbind. by rewrite Hm.
Qed.

Lemma runs_assoc {D A B C} (m : io D A) (f : A → io D B) (k : B → io D C) d c Q :
  runs ((m ≫= f) ≫= k) d c Q → runs (m ≫= λ a, f a ≫= k) d c Q.
Proof. unfold runs, mbind, io_mbind. by destruct (m d) as [[a|e] d1]. Qed.

Lemma runs_weaken {D A} (m : io D A) d a (P Q : D → Prop) :
  runs m d a P → (∀ d', P d' → Q d') → runs m d a Q.
Proof. intros (d' & Hm & HP) HPQ. exists d'. auto. Qed.

(** What a healthy device promises.  [contents] is the flat byte array; [reads_whole d s n]
    says that reading the [n] blocks from [s] in one call is right in state [d]. *)
Class BlockDeviceSpec (D : Type) : Type := {
  dev_ok : D → Prop;
  contents : D → list byte;
  reads_whole : D → Z → Z → Prop;
}.

Section relations.
Context {D : Type} `{BlockDevice D} `{BlockDeviceSpec D}.

Definition same_geometry (d d' : D) : Prop :=
  block_size d' = block_size d ∧ total_blocks d' = total_blocks d.

Definition dev_same (d d' : D) : Prop :=
  dev_ok d' ∧ contents d' = contents d ∧ same_geometry d d' ∧
  (∀ s n, reads_whole d s n → reads_whole d' s n).

Definition dev_updated (d : D) (a : Z) (xs : list byte) (d' : D) : Prop :=
  dev_ok d' ∧ contents d' = zsplice (contents d) a xs ∧ same_geometry d d'.
End relations.

(** The methods every device implements itself. *)
Class SingleBlockLaws (D : Type) `{BlockDevice D} `{BlockDeviceSpec D} : Prop := {
  geometry_law (d : D) : dev_ok d →
    0 < block_size d ∧ 0 ≤ total_blocks d ∧
    zlen (contents d) = total_blocks d * block_size d ∧ zlen (contents d) < 2 ^ 64;
  read_single_law (d : D) id len :
    dev_ok d → 0 ≤ id < total_blocks d → block_size d ≤ len →
    runs (read_single_block id len) d
      (zslice (contents d) (id * block_size d) ((id + 1) * block_size d)) (dev_same d);
  write_single_law (d : D) id buffer :
    dev_ok d → 0 ≤ id < total_blocks d → block_size d ≤ zlen buffer →
    runs (write_single_block id buffer) d (block_size d)
      (dev_updated d (id * block_size d) (zslice buffer 0 (block_size d)));
}.

Class BlockDeviceLaws (D : Type) `{BlockDevice D} `{BlockDeviceSpec D} : Prop := {
  #[global] single_block_laws :: SingleBlockLaws D;
  read_blocks_law (d : D) start n :
    dev_ok d → 0 ≤ start → 0 ≤ n → start + n ≤ total_blocks d → reads_whole d start n →
    runs (read_blocks start (n * block_size d)) d
      (zslice (contents d) (start * block_size d) ((start + n) * block_size d)) (dev_same d);
  write_blocks_law (d : D) start n buffer :
    dev_ok d → 0 ≤ start → zlen buffer = n * block_size d → start + n ≤ total_blocks d →
    runs (write_blocks start buffer) d (zlen buffer)
      (dev_updated d (start * block_size d) buffer);
  flush_law (d : D) : dev_ok d → runs flush d tt (dev_same d);
}.

(** ** Access by byte offset: lemmas *)

(** How a byte range lies over the blocks: a head inside one block, whole blocks, a tail. *)
Lemma byte_layout offset len bs (h := if offset mod bs =? 0 then 0 else Z.min (bs - offset mod bs) len) :
  0 < bs → 0 ≤ offset → 0 < len → offset + len < 2 ^ 64 →
  let '(first, full) := full_blocks offset len bs in
  0 ≤ h ≤ len ∧ 0 ≤ full ∧
  ((full = 0 ∧ h = len) ∨
   (0 ≤ first ∧ offset + h = first * bs ∧ h + full * bs ≤ len ∧
    (h + full * bs < len →
     div_ceil (uwrap 64 (offset + len)) bs - 1 = first + full ∧
     (first + full) * bs < offset + len < (first + full + 1) * bs))).
Proof.
  intros Hbs Ho Hl Hmax. unfold full_blocks. rewrite uwrap_id by (split; lia).
  set (e := offset + len). unfold div_ceil, sat_sub.
  pose proof (Z.div_mod offset bs ltac:(lia)) as Ho1. pose proof (Z.mod_pos_bound offset bs Hbs) as Ho2.
  pose proof (Z.div_mod e bs ltac:(lia)) as He1. pose proof (Z.mod_pos_bound e bs Hbs) as He2.
  pose proof (Z.div_mod (e + bs - 1) bs ltac:(lia)) as Hc1.
  pose proof (Z.mod_pos_bound (e + bs - 1) bs Hbs) as Hc2.
  set (q := offset / bs) in *. set (r := offset mod bs) in *. set (eq := e / bs) in *.
  set (er := e mod bs) in *. set (cq := (e + bs - 1) / bs) in *.
  set (cr := (e + bs - 1) mod bs) in *.
  assert (0 ≤ q) by nia. assert (q ≤ eq) by nia.
  assert (cq = eq + Z.b2z (negb (er =? 0))) as Hcq.
  { destruct (er =? 0) eqn:Her; cbn [negb Z.b2z]; nia. }
  replace (cq - Z.b2z (negb (er =? 0))) with eq by lia.
  subst h. destruct (r =? 0) eqn:Hr; cbn [negb Z.b2z].
  - split; [lia|]. split; [lia|]. right. rewrite Z.add_0_r. split; [lia|]. split; [nia|].
    rewrite Z.max_r by lia. split; [nia|]. intros Hlt. assert ((er =? 0) = false) as Her by nia.
    rewrite Hcq, Her. cbn [negb Z.b2z]. split; [lia|]. nia.
  - split; [lia|]. split; [lia|]. destruct (decide (eq ≤ q)) as [Hq|Hq].
    + left. split; [lia|]. nia.
    + right. split; [lia|]. assert (Z.min (bs - r) len = bs - r) as -> by nia. split; [nia|].
      rewrite Z.max_r by lia. split; [nia|]. intros Hlt. assert ((er =? 0) = false) as Her by nia.
      rewrite Hcq, Her. cbn [negb Z.b2z]. split; [lia|]. nia.
Qed.

Section by_bytes_lemmas.
Context {D : Type} `{Laws : BlockDeviceLaws D}.
Implicit Types (d : D).

Lemma dev_same_refl d : dev_ok d → dev_same d d.
Proof. done. Qed.

Lemma dev_same_trans d1 d2 d3 : dev_same d1 d2 → dev_same d2 d3 → dev_same d1 d3.
Proof.
  intros (_ & Hc & [Hb Ht] & Hw) (Hok & Hc' & [Hb' Ht'] & Hw').
  split_and!; [done|congruence| |auto]. split; congruence.
Qed.

(** The laws at a state that shows the same as an earlier one. *)
Lemma read_single_same d d1 id len :
  dev_same d d1 → 0 ≤ id < total_blocks d → block_size d ≤ len →
  runs (read_single_block id len) d1
    (zslice (contents d) (id * block_size d) ((id + 1) * block_size d)) (dev_same d).
Proof.
  intros Hs Hid Hlen. pose proof Hs as (Hok & Hc & [Hb Ht] & _). rewrite <- Hc, <- Hb.
  eapply runs_weaken; [apply read_single_law; [done|lia|lia]|]. intros d'. by apply dev_same_trans.
Qed.

Lemma read_blocks_same d d1 start n :
  dev_same d d1 → 0 ≤ start → 0 ≤ n → start + n ≤ total_blocks d → reads_whole d start n →
  runs (read_blocks start (n * block_size d)) d1
    (zslice (contents d) (start * block_size d) ((start + n) * block_size d)) (dev_same d).
Proof.
  intros Hs H1 H2 H3 Hw. pose proof Hs as (Hok & Hc & [Hb Ht] & Hww). rewrite <- Hc, <- Hb.
  eapply runs_weaken; [apply read_blocks_law; auto; lia|]. intros d'. by apply dev_same_trans.
Qed.

Lemma block_end_le d id : dev_ok d → id + 1 ≤ total_blocks d → (id + 1) * block_size d ≤ zlen (contents d).
Proof. intros (? & ? & -> & _)%geometry_law. nia. Qed.

(** A part of one block, read through a temporary one. *)
Lemma read_part_spec d d1 id a b :
  dev_ok d → dev_same d d1 → 0 ≤ id < total_blocks d → 0 ≤ a → a ≤ b ≤ block_size d →
  runs (temp ← read_single_block id (block_size d); mret (zslice temp a b)) d1
    (zslice (contents d) (id * block_size d + a) (id * block_size d + b)) (dev_same d).
Proof.
  intros Hok Hs Hid Ha Hb. destruct (geometry_law d Hok) as (Hbs & _).
  eapply runs_mbind; [by apply read_single_same|]. intros d2 Hs2.
  rewrite zslice_zslice by nia. by apply runs_mret.
Qed.

(** The part of the range inside the first block, if that is not whole. *)
Definition head_len (offset len bs : Z) : Z :=
  if offset mod bs =? 0 then 0 else Z.min (bs - offset mod bs) len.

Lemma read_head_spec d offset len (bs := block_size d) :
  dev_ok d → 0 ≤ offset → 0 ≤ len → offset + len ≤ default_total_bytes d →
  runs (if negb (offset mod bs =? 0) then
          temp ← read_single_block (offset / bs) bs;
          mret (zslice temp (offset mod bs) (offset mod bs + Z.min (bs - offset mod bs) len))
        else mret []) d
    (zslice (contents d) offset (offset + head_len offset len bs)) (dev_same d).
Proof.
  intros Hok Ho Hl Hend. destruct (geometry_law d Hok) as (Hbs & _). fold bs in Hbs.
  unfold default_total_bytes in Hend. fold bs in Hend. unfold head_len.
  pose proof (Z.div_mod offset bs ltac:(lia)) as Hdm. pose proof (Z.mod_pos_bound offset bs Hbs) as Hmod.
  destruct (offset mod bs =? 0) eqn:Hr; cbn [negb].
  - rewrite zslice_nil by lia. by apply runs_mret, dev_same_refl.
  - set (m := Z.min (bs - offset mod bs) len) in *.
    assert (zslice (contents d) offset (offset + m) = zslice (contents d)
      (offset / bs * bs + offset mod bs) (offset / bs * bs + (offset mod bs + m))) as -> by (f_equal; lia).
    destruct (decide (len = 0)) as [->|].
    + apply read_part_spec; [done|by apply dev_same_refl| |lia|lia]. nia.
    + apply read_part_spec; [done|by apply dev_same_refl|nia|lia|lia].
Qed.

Lemma read_middle_spec d d1 first full (bs := block_size d) :
  dev_ok d → dev_same d d1 → 0 ≤ full →
  (full ≠ 0 → 0 ≤ first ∧ first + full ≤ total_blocks d) → reads_whole d first full →
  runs (if negb (full =? 0) then read_blocks first (full * bs) else mret []) d1
    (zslice (contents d) (first * bs) ((first + full) * bs)) (dev_same d).
Proof.
  intros Hok Hs Hf Hin Hw. destruct (full =? 0) eqn:Hz; cbn [negb].
  - rewrite zslice_nil by nia. by apply runs_mret.
  - destruct Hin; [lia|]. apply read_blocks_same; auto; lia.
Qed.

Lemma read_tail_spec d d1 id k len (bs := block_size d) :
  dev_ok d → dev_same d d1 → (k < len → 0 ≤ id < total_blocks d ∧ len - k ≤ bs) →
  runs (if k <? len then
          temp ← read_single_block id bs; mret (zslice temp 0 (len - k))
        else mret []) d1
    (zslice (contents d) (id * bs) (id * bs + (len - k))) (dev_same d).
Proof.
  intros Hok Hs Hin. destruct (_ <? _) eqn:Hl.
  - destruct Hin as [? ?]; [lia|].
    assert (zslice (contents d) (id * bs) (id * bs + (len - k)) =
      zslice (contents d) (id * bs + 0) (id * bs + (len - k))) as -> by (f_equal; lia).
    apply read_part_spec; auto; lia.
  - rewrite zslice_nil by lia. by apply runs_mret.
Qed.

Lemma full_blocks_aligned offset len bs :
  0 < bs → 0 ≤ offset → 0 < len → offset + len < 2 ^ 64 → offset mod bs = 0 → len mod bs = 0 →
  offset = offset / bs * bs ∧ len = len / bs * bs ∧
  full_blocks offset len bs = (offset / bs, len / bs).
Proof.
  intros Hbs Ho Hl Hmax H1 H2. pose proof (Z.div_mod offset bs). pose proof (Z.div_mod len bs).
  split; [lia|]. split; [lia|]. unfold full_blocks. rewrite uwrap_id by (split; lia).
  assert (offset + len = (offset / bs + len / bs) * bs) as -> by lia.
  rewrite H1, Z.mod_mul by lia. cbn [Z.eqb negb Z.b2z]. unfold div_ceil, sat_sub.
  replace ((offset / bs + len / bs) * bs + bs - 1) with (bs - 1 + (offset / bs + len / bs) * bs) by lia.
  rewrite Z.div_add by lia. rewrite (Z.div_small (bs - 1)) by lia.
  assert (0 ≤ len / bs) by (apply Z.div_pos; lia). f_equal; lia.
Qed.

Lemma read_by_bytes_runs d offset len :
  dev_ok d → 0 ≤ offset → 0 ≤ len → offset + len ≤ default_total_bytes d →
  reads_whole d (full_blocks offset len (block_size d)).1 (full_blocks offset len (block_size d)).2 →
  runs (read_by_bytes offset len) d (zslice (contents d) offset (offset + len)) (dev_same d).
Proof.
  intros Hok Ho Hl Hend Hw. destruct (geometry_law d Hok) as (Hbs & Ht & Hlen & Hmax).
  pose proof (read_head_spec d offset len Hok Ho Hl Hend) as Hhead. unfold default_total_bytes in Hend.
  unfold runs at 1, read_by_bytes. destruct (len =? 0) eqn:Hl0.
  { exists d. rewrite zslice_nil by lia. auto using dev_same_refl. }
  set (bs := block_size d) in *. destruct (_ && _) eqn:Hal.
  - apply andb_true_iff in Hal as [H1 H2].
    destruct (full_blocks_aligned offset len bs) as (E1 & E2 & E3); [lia..|]. rewrite E3 in Hw.
    pose proof (read_blocks_law d (offset / bs) (len / bs) Hok) as Hr. fold bs in Hr.
    rewrite Z.mul_add_distr_r, <- E1, <- E2 in Hr. apply Hr; [nia..|exact Hw].
  - clear Hal. pose proof (byte_layout offset len bs Hbs Ho ltac:(lia) ltac:(lia)) as Hlay.
    destruct (full_blocks offset len bs) as [first full]. cbn [fst snd] in Hw.
    fold (head_len offset len bs) in Hlay. set (h := head_len offset len bs) in *.
    destruct Hlay as (Hh & Hfull & Hcase).
    refine (runs_mbind _ _ _ _ _ _ _ Hhead _). intros d1 Hs1.
    eapply runs_mbind; [apply (read_middle_spec d d1 first full); [done..| |done]|].
    { intros. destruct Hcase as [[? ?]|(? & ? & ? & _)]; [lia|]. nia. }
    intros d2 Hs2. fold bs. destruct Hcase as [[-> E]|(Hf & E1 & E2 & Htail)].
    + rewrite (zslice_nil _ (first * _)) by nia. rewrite app_nil_r, zlen_zslice by lia.
      replace (_ <? len) with false by lia. eapply runs_mbind; [by apply (runs_mret _ _ (dev_same d))|].
      intros d3 Hs3. rewrite !app_nil_r, E. by apply runs_mret.
    + rewrite Z.mul_add_distr_r, <- E1, zslice_app by nia. rewrite zlen_zslice by nia.
      replace (offset + h + full * bs - offset) with (h + full * bs) by lia.
      eapply runs_mbind; [apply (read_tail_spec d d2 _ (h + full * bs) len); [done..|]|].
      { intros Hlt. destruct Htail as (-> & ? & ?); [lia|]. fold bs. nia. }
      intros d3 Hs3. rewrite app_assoc, zslice_app by nia. destruct (decide (h + full * bs < len)) as [Hlt|].
      * destruct Htail as (-> & ? & ?); [lia|]. fold bs.
        replace ((first + full) * bs) with (offset + h + full * bs) by lia.
        rewrite zslice_app by nia. replace (_ + (len - _)) with (offset + len) by lia. by apply runs_mret.
      * rewrite (zslice_nil _ (_ * bs)) by lia. rewrite app_nil_r.
        replace (offset + h + full * bs) with (offset + len) by lia. by apply runs_mret.
Qed.
(** ** Writing *)

Lemma dev_updated_nil d a : dev_ok d → dev_updated d a [] d.
Proof. intros Hok. split; [done|]. by rewrite zsplice_nil. Qed.

Lemma dev_updated_app d a xs ys d1 d2 :
  0 ≤ a → a + zlen xs + zlen ys ≤ zlen (contents d) →
  dev_updated d a xs d1 → dev_updated d1 (a + zlen xs) ys d2 → dev_updated d a (xs ++ ys) d2.
Proof.
  intros Ha Hl (_ & Hc & [Hb Ht]) (Hok & Hc' & [Hb' Ht']). split; [done|].
  rewrite zsplice_app by done. split; [congruence|]. split; congruence.
Qed.

Lemma dev_updated_same d a xs d1 d2 : dev_updated d a xs d1 → dev_same d1 d2 → dev_updated d a xs d2.
Proof.
  intros (_ & Hc & [Hb Ht]) (Hok & Hc' & [Hb' Ht'] & _). split; [done|].
  split; [congruence|]. split; congruence.
Qed.

(** Reading a block, changing a part of it and writing it back changes that part. *)
Lemma write_part_spec d d1 a xs id o ys (bs := block_size d) :
  dev_ok d → dev_updated d a xs d1 → 0 ≤ a → a + zlen xs = id * bs + o →
  0 ≤ id < total_blocks d → 0 ≤ o → o + zlen ys ≤ bs →
  runs (temp ← read_single_block id bs; write_single_block id (zsplice temp o ys)) d1 bs
    (dev_updated d a (xs ++ ys)).
Proof.
  intros Hok Hu Ha Eo Hid Ho Hys. pose proof Hu as (Hok1 & Hc & [Hb Ht]).
  destruct (geometry_law d Hok) as (Hbs & _ & Hlen0 & _).
  destruct (geometry_law d1 Hok1) as (_ & _ & Hlen1 & _). rewrite Hb, Ht in Hlen1.
  fold bs in Hbs, Hlen0, Hb, Hlen1. pose proof (zlen_nonneg ys).
  pose proof (read_single_law d1 id bs Hok1) as Hr. rewrite Hb, Ht in Hr.
  eapply runs_mbind; [apply Hr; lia|]. intros d2 Hs. clear Hr.
  pose proof Hs as (Hok2 & Hc2 & [Hb2 Ht2] & _).
  set (block := zslice (contents d1) (id * bs) ((id + 1) * bs)).
  assert (zlen block = bs) as Hblk by (unfold block; rewrite zlen_zslice; nia).
  assert (zlen (zsplice block o ys) = bs) as Hnew by (rewrite zlen_zsplice; lia).
  pose proof (write_single_law d2 id (zsplice block o ys) Hok2) as Hw.
  rewrite Hb2, Ht2, Hb, Ht in Hw. eapply runs_weaken; [apply Hw; lia|]. clear Hw.
  intros d3 (Hok3 & Hc3 & Hg).
  apply dev_updated_app with d2; [done|nia|by eapply dev_updated_same|].
  split; [done|]. split; [|done]. rewrite zslice_all in Hc3 by lia.
  rewrite Hc3, Hc2. unfold block. rewrite zsplice_zslice by nia. f_equal. lia.
Qed.

Lemma write_whole_spec d d1 a xs start n ys (bs := block_size d) :
  dev_ok d → dev_updated d a xs d1 → 0 ≤ a → a + zlen xs = start * bs → 0 ≤ start →
  zlen ys = n * bs → start + n ≤ total_blocks d →
  runs (write_blocks start ys) d1 (zlen ys) (dev_updated d a (xs ++ ys)).
Proof.
  intros Hok Hu Ha Eo Hst Hn Hin. pose proof Hu as (Hok1 & Hc & [Hb Ht]).
  destruct (geometry_law d Hok) as (Hbs & _ & Hlen & _).
  eapply runs_weaken; [apply (write_blocks_law d1 start n); [done..| |]; rewrite ?Hb, ?Ht; done|].
  intros d2 Hu2. rewrite Hb in Hu2. apply dev_updated_app with d1; [done| |done|].
  - fold bs in Hlen. nia.
  - by rewrite Eo.
Qed.

Lemma write_head_spec d offset buffer (bs := block_size d) (len := zlen buffer) :
  dev_ok d → 0 ≤ offset → 0 < len → offset + len ≤ default_total_bytes d →
  let h := head_len offset len bs in
  runs (if negb (offset mod bs =? 0) then
          temp ← read_single_block (offset / bs) bs;
          let head_len := Z.min (bs - offset mod bs) len in
          let temp := zsplice temp (offset mod bs) (zslice buffer 0 head_len) in
          _ ← write_single_block (offset / bs) temp;
          mret head_len
        else mret 0) d h (dev_updated d offset (zslice buffer 0 h)).
Proof.
  intros Hok Ho Hl Hend. destruct (geometry_law d Hok) as (Hbs & _). fold bs in Hbs.
  unfold default_total_bytes in Hend. fold bs in Hend. cbv zeta. unfold head_len.
  pose proof (Z.div_mod offset bs ltac:(lia)) as Hdm. pose proof (Z.mod_pos_bound offset bs Hbs) as Hmod.
  destruct (offset mod bs =? 0) eqn:Hr; cbn [negb].
  - rewrite zslice_nil by lia. by apply runs_mret, dev_updated_nil.
  - cbv zeta. apply runs_assoc. eapply runs_mbind; [apply (write_part_spec d d offset []);
      [done|by apply dev_updated_nil|done| | |lia|]|].
    + change (zlen []) with 0. fold bs. lia.
    + split; [by apply Z.div_pos|]. apply Z.div_lt_upper_bound; lia.
    + rewrite zlen_zslice by lia. fold bs. lia.
    + intros d2 Hu. by apply runs_mret.
Qed.

Lemma write_middle_spec d d1 offset buffer first full h (bs := block_size d) :
  dev_ok d → 0 ≤ offset → 0 ≤ h → 0 ≤ full → dev_updated d offset (zslice buffer 0 h) d1 →
  (full ≠ 0 → 0 ≤ first ∧ offset + h = first * bs ∧ h + full * bs ≤ zlen buffer ∧
     first + full ≤ total_blocks d) →
  runs (if negb (full =? 0) then
          let full_bytes := full * bs in
          _ ← write_blocks first (zslice buffer h (h + full_bytes));
          mret (h + full_bytes)
        else mret h) d1 (h + full * bs) (dev_updated d offset (zslice buffer 0 (h + full * bs))).
Proof.
  intros Hok Ho Hh Hf Hu Hin. destruct (geometry_law d Hok) as (Hbs & _). fold bs in Hbs.
  destruct (full =? 0) eqn:Hz; cbn [negb].
  - replace (h + full * bs) with h by nia. by apply runs_mret.
  - destruct Hin as (H1 & H2 & H3 & H4); [lia|]. cbv zeta.
    eapply runs_mbind; [eapply (write_whole_spec d d1 offset _ first full); [done|exact Hu|done|..]|].
    + rewrite zlen_zslice by nia. fold bs. lia.
    + done.
    + rewrite zlen_zslice by nia. fold bs. lia.
    + done.
    + intros d2. rewrite zslice_app by nia. apply runs_mret.
Qed.

Lemma write_by_bytes_runs d offset buffer :
  dev_ok d → 0 ≤ offset → offset + zlen buffer ≤ default_total_bytes d →
  runs (write_by_bytes offset buffer) d (zlen buffer) (dev_updated d offset buffer).
Proof.
  intros Hok Ho Hend. destruct (geometry_law d Hok) as (Hbs & Ht & Hlen & Hmax).
  unfold default_total_bytes in Hend. unfold runs at 1, write_by_bytes. pose proof (zlen_nonneg buffer) as Hl.
  set (len := zlen buffer) in *. destruct (len =? 0) eqn:Hl0.
  { exists d. replace len with 0 by lia. split; [done|]. destruct buffer; [by apply dev_updated_nil|done]. }
  set (bs := block_size d) in *. destruct (_ && _) eqn:Hal.
  - apply andb_true_iff in Hal as [H1 H2].
    destruct (full_blocks_aligned offset len bs) as (E1 & E2 & E3); [lia..|].
    eapply runs_mbind; [apply (write_blocks_law d _ (len / bs)); fold bs; [done|nia|done|nia]|].
    intros d1 Hu. fold bs in Hu. rewrite <- E1 in Hu. by apply runs_mret.
  - clear Hal. pose proof (byte_layout offset len bs Hbs Ho ltac:(lia) ltac:(lia)) as Hlay.
    destruct (full_blocks offset len bs) as [first full].
    fold (head_len offset len bs) in Hlay. set (h := head_len offset len bs) in *.
    destruct Hlay as (Hh & Hfull & Hcase).
    eapply runs_mbind; [by apply write_head_spec; [..|lia|]|]. cbv beta. fold bs len h. intros d1 Hu1.
    eapply runs_mbind; [apply (write_middle_spec d d1 offset buffer first full h); [done|done|lia|done|done|]|].
    { intros. destruct Hcase as [[? ?]|(? & ? & ? & _)]; [lia|]. fold bs len. nia. }
    fold bs. intros d2 Hu2. destruct (_ <? len) eqn:Hcop.
    + destruct Hcase as [[? ?]|(? & E & ? & Htail)]; [nia|]. destruct Htail as (Elast & Hb1 & Hb2); [lia|].
      cbv zeta. rewrite Elast.
      eapply runs_mbind; [apply (write_part_spec d d2 offset (zslice buffer 0 (h + full * bs)));
        [done..|rewrite zlen_zslice by nia; fold bs; lia|nia|lia|rewrite zlen_zslice by nia; fold bs; lia]|].
      intros d3 Hu3. rewrite zslice_app, zslice_all in Hu3 by (done || nia). by apply runs_mret.
    + eapply runs_mbind; [by apply (runs_mret _ _ (dev_updated d offset (zslice buffer 0 (h + full * bs))))|].
      intros d3 Hu3. assert (h + full * bs = len) as E by (destruct Hcase as [[? ?]|(? & ? & ? & _)]; nia).
      rewrite E, zslice_all in Hu3 by done. by apply runs_mret.
Qed.
End by_bytes_lemmas.

(** ** The default methods *)

Section default_lemmas.
Context {D : Type} `{Laws : SingleBlockLaws D}.
Implicit Types (d : D).

Lemma default_read_loop_runs (n : nat) d d1 i start len (bs := block_size d) :
  dev_ok d → dev_same d d1 → 0 ≤ start + i → start + i + Z.of_nat n ≤ total_blocks d →
  len = (i + Z.of_nat n) * bs →
  runs (default_read_loop read_single_block n i start len bs) d1
    (zslice (contents d) ((start + i) * bs) ((start + i + Z.of_nat n) * bs)) (dev_same d).
Proof.
  intros Hok. destruct (geometry_law d Hok) as (Hbs & _). fold bs in Hbs.
  revert d1 i. induction n as [|n IH]; intros d1 i Hs Hi Hn ->; cbn [default_read_loop].
  - rewrite zslice_nil by lia. by apply runs_mret.
  - pose proof Hs as (Hok1 & Hc & [Hb Ht] & _).
    pose proof (read_single_law d1 (start + i) bs Hok1) as Hr. rewrite Hb, Ht, Hc in Hr.
    eapply runs_mbind; [apply Hr; fold bs; lia|]. intros d2 Hs2. cbv zeta.
    rewrite (proj2 (Z.leb_le _ _)) by nia.
    eapply runs_mbind; [apply IH; [by eapply dev_same_trans|lia|lia|nia]|].
    intros d3 Hs3. fold bs. replace (start + (i + 1)) with (start + i + 1) by lia.
    rewrite zslice_app by nia. replace (start + i + 1 + Z.of_nat n) with (start + i + Z.of_nat (S n)) by lia.
    by apply runs_mret.
Qed.

Lemma default_read_blocks_runs d start n :
  dev_ok d → 0 ≤ start → 0 ≤ n → start + n ≤ total_blocks d →
  runs (default_read_blocks block_size read_single_block start (n * block_size d)) d
    (zslice (contents d) (start * block_size d) ((start + n) * block_size d)) (dev_same d).
Proof.
  intros Hok Hs Hn Hin. destruct (geometry_law d Hok) as (Hbs & _).
  unfold runs, default_read_blocks. assert (div_ceil (n * block_size d) (block_size d) = n) as ->.
  { unfold div_ceil. replace (n * block_size d + block_size d - 1)
      with (block_size d - 1 + n * block_size d) by lia. rewrite Z.div_add, Z.div_small by lia. lia. }
  pose proof (default_read_loop_runs (Z.to_nat n) d d 0 start (n * block_size d)) as Hr.
  rewrite Z.add_0_r, Z2Nat.id in Hr by lia. apply Hr; [done|by apply dev_same_refl|lia|lia|lia].
Qed.

Lemma default_write_loop_runs (n : nat) d d1 i start buffer (bs := block_size d) :
  dev_ok d → 0 ≤ i → 0 ≤ start → start + i + Z.of_nat n ≤ total_blocks d →
  zlen buffer = (i + Z.of_nat n) * bs → dev_updated d (start * bs) (zslice buffer 0 (i * bs)) d1 →
  runs (default_write_loop write_single_block n i start buffer bs) d1 tt
    (dev_updated d (start * bs) buffer).
Proof.
  intros Hok. destruct (geometry_law d Hok) as (Hbs & _ & Hlen & _). fold bs in Hbs, Hlen.
  revert d1 i. induction n as [|n IH]; intros d1 i Hi Hs Hn Hb Hu; cbn [default_write_loop].
  - rewrite zslice_all in Hu by lia. by apply runs_mret.
  - pose proof Hu as (Hok1 & Hc & [Hb1 Ht1]). cbv zeta.
    set (chunk := zslice buffer (i * bs) (i * bs + bs)).
    assert (zlen chunk = bs) as Hch by (unfold chunk; rewrite zlen_zslice; nia).
    pose proof (write_single_law d1 (start + i) chunk Hok1) as Hw. rewrite Hb1, Ht1 in Hw.
    eapply runs_mbind; [apply Hw; fold bs; lia|]. intros d2 Hu2. fold bs in Hu2.
    rewrite (zslice_all chunk) in Hu2 by lia. apply IH; [lia|done|lia|lia|].
    replace ((i + 1) * bs) with (i * bs + bs) by lia. rewrite <- (zslice_app _ 0 (i * bs)) by nia.
    apply dev_updated_app with d1; [nia| |done|].
    + fold chunk. rewrite zlen_zslice by nia. nia.
    + rewrite zlen_zslice by nia. by replace (start * bs + (i * bs - 0)) with ((start + i) * bs) by lia.
Qed.

Lemma default_write_blocks_runs d start n buffer :
  dev_ok d → 0 ≤ start → zlen buffer = n * block_size d → start + n ≤ total_blocks d →
  runs (default_write_blocks block_size write_single_block start buffer) d (zlen buffer)
    (dev_updated d (start * block_size d) buffer).
Proof.
  intros Hok Hs Hlen Hin. destruct (geometry_law d Hok) as (Hbs & _). pose proof (zlen_nonneg buffer).
  unfold runs at 1, default_write_blocks.
  replace (zlen buffer mod block_size d) with 0 by (rewrite Hlen, Z.mod_mul; lia).
  replace (zlen buffer / block_size d) with n by (rewrite Hlen, Z.div_mul; lia). cbn [Z.eqb negb].
  eapply runs_mbind; [apply default_write_loop_runs; [done|lia|done| | |]|].
  - nia.
  - nia.
  - rewrite zslice_nil by lia. by apply dev_updated_nil.
  - intros d1 Hu. by apply runs_mret.
Qed.
End default_lemmas.

(** ** The RAM disk is lawful *)

(** The disk is smaller than the address space; bytes after the last whole block are not
    part of the device. *)
#[export] Instance ramdisk_spec : BlockDeviceSpec RamDisk := {
  dev_ok d := zlen d.(disk) < 2 ^ 64;
  contents d := zslice d.(disk) 0 (zlen d.(disk) / RAMDISK_BLOCK * RAMDISK_BLOCK);
  reads_whole _ _ _ := True;
}.

Lemma ramdisk_bounds d id :
  dev_ok d → 0 ≤ id < total_blocks d →
  uwrap 64 (id * RAMDISK_BLOCK) = id * RAMDISK_BLOCK ∧
  uwrap 64 (id * RAMDISK_BLOCK + RAMDISK_BLOCK) = (id + 1) * RAMDISK_BLOCK ∧
  (id + 1) * RAMDISK_BLOCK ≤ zlen d.(disk) / RAMDISK_BLOCK * RAMDISK_BLOCK ≤ zlen d.(disk).
Proof.
  cbn [dev_ok ramdisk_spec total_blocks ramdisk_device]. intros Hok Hid. unfold RAMDISK_BLOCK in *.
  pose proof (Z.mul_div_le (zlen d.(disk)) 1024 ltac:(lia)).
  rewrite !uwrap_id by (split; lia). split; [done|]. split; [lia|]. split; [|lia]. nia.
Qed.

Lemma ramdisk_write_same_length d a xs :
  0 ≤ a → a + zlen xs ≤ zlen d.(disk) / RAMDISK_BLOCK * RAMDISK_BLOCK → zlen d.(disk) / RAMDISK_BLOCK * RAMDISK_BLOCK ≤ zlen d.(disk) →
  contents (mkRamDisk (zsplice d.(disk) a xs)) = zsplice (contents d) a xs.
Proof.
  intros Ha Hx Hl. cbn [contents ramdisk_spec disk]. set (n := zlen d.(disk) / RAMDISK_BLOCK * RAMDISK_BLOCK) in *.
  rewrite zlen_zsplice by lia. fold n. by apply zslice_zsplice_front.
Qed.

#[export] Instance ramdisk_single_laws : SingleBlockLaws RamDisk.
Proof.
  split.
  - intros d Hok. pose proof (zlen_nonneg d.(disk)).
    cbn [dev_ok ramdisk_spec total_blocks block_size ramdisk_device contents] in *.
    pose proof (Z.mul_div_le (zlen d.(disk)) RAMDISK_BLOCK ltac:(done)).
    assert (0 ≤ zlen d.(disk) / RAMDISK_BLOCK) by (apply Z.div_pos; done || lia).
    rewrite zlen_zslice by (unfold RAMDISK_BLOCK in *; lia). unfold RAMDISK_BLOCK in *. lia.
  - intros d id len Hok Hid Hlen. destruct (ramdisk_bounds d id Hok Hid) as (E1 & E2 & Hb).
    exists d. split; [|done]. cbn [read_single_block ramdisk_device]. unfold ramdisk_read_single_block.
    rewrite E1, E2. cbn [block_size ramdisk_device] in *. unfold RAMDISK_BLOCK in *.
    replace (_ - _) with 1024 by lia. change (uwrap 64 1024) with 1024.
    replace (len <? 1024) with false by lia. replace (_ <? _) with false by lia. cbn [contents ramdisk_spec].
    rewrite zslice_zslice; unfold RAMDISK_BLOCK; [done|lia|lia|lia].
  - intros d id buffer Hok Hid Hlen. destruct (ramdisk_bounds d id Hok Hid) as (E1 & E2 & Hb).
    cbn [block_size ramdisk_device] in *.
    assert (zlen (zslice buffer 0 RAMDISK_BLOCK) = RAMDISK_BLOCK) as Hz
      by (rewrite zlen_zslice; unfold RAMDISK_BLOCK in *; lia).
    exists (mkRamDisk (zsplice d.(disk) (id * RAMDISK_BLOCK) (zslice buffer 0 RAMDISK_BLOCK))). split.
    + cbn [write_single_block ramdisk_device]. unfold ramdisk_write_single_block.
      rewrite E1, E2. unfold RAMDISK_BLOCK in *.
      replace (_ - _) with 1024 by lia. change (uwrap 64 1024) with 1024.
      replace (_ <? 1024) with false by lia. replace (_ <? _) with false by lia. done.
    + split; [|split].
      * cbn. rewrite zlen_zsplice; [exact Hok|unfold RAMDISK_BLOCK; lia|rewrite Hz; unfold RAMDISK_BLOCK in *; lia].
      * apply ramdisk_write_same_length; [unfold RAMDISK_BLOCK; lia|rewrite Hz|]; unfold RAMDISK_BLOCK in *; lia.
      * split; [done|]. cbn. rewrite zlen_zsplice; [done|unfold RAMDISK_BLOCK; lia|rewrite Hz; unfold RAMDISK_BLOCK in *; lia].
Qed.

#[export] Instance ramdisk_laws : BlockDeviceLaws RamDisk.
Proof.
  split; [apply _|..].
  - intros d start n Hok Hs Hn Hin _. exact (default_read_blocks_runs d start n Hok Hs Hn Hin).
  - intros d start n buffer Hok Hs Hl Hin. exact (default_write_blocks_runs d start n buffer Hok Hs Hl Hin).
  - intros d Hok. apply runs_mret. by apply dev_same_refl.
Qed.

(** ** Properties *)

(** On a device that keeps the laws, reading and writing at byte offsets treats the device as
    one byte array: a write in range replaces exactly its bytes, and a read in range whose
    full blocks the device reads as a whole ([reads_whole], which a cache with dirty blocks
    does not give) returns exactly the bytes of the range and changes nothing, however the
    range lies over the blocks. *)
Lemma bytes_access_refines {D} `{BlockDeviceLaws D} (d : D) offset :
  dev_ok d → 0 ≤ offset →
  (∀ len, 0 ≤ len → offset + len ≤ default_total_bytes d →
     (let '(first, full) := full_blocks offset len (block_size d) in reads_whole d first full) →
     runs (read_by_bytes offset len) d (zslice (contents d) offset (offset + len)) (dev_same d)) ∧
  (∀ buffer, offset + zlen buffer ≤ default_total_bytes d →
     runs (write_by_bytes offset buffer) d (zlen buffer) (dev_updated d offset buffer)).
Proof.
  intros Hok Ho. split; [|by intros; apply write_by_bytes_runs].
  intros len Hl Hend Hw. by apply read_by_bytes_runs.
Qed.

Definition ex_disk : RamDisk := mkRamDisk (replicate 3000 x00).

(** A write across the boundary of the two blocks of a small disk. *)
Lemma bytes_access_refines_witness :
  runs (write_by_bytes 1022 [Byte.x01; Byte.x02; Byte.x03; Byte.x04]) ex_disk 4
    (dev_updated ex_disk 1022 [Byte.x01; Byte.x02; Byte.x03; Byte.x04]).
Proof. apply (bytes_access_refines ex_disk 1022); done. Defined.
