(* ===== verification/BlockCache.v ===== *)
(** * The write-back block cache

    filesystem/block_device/cache.rs: [CachedBlockDevice], a bounded write-back cache in
    front of a block device, itself a block device.

    The record holds the inner device, the cached blocks and the queue from which blocks are
    evicted.  The cache is proved to keep the laws of [BlockDeviceLaws] over the contents
    that overlay the cached blocks on the inner device - except for multi-block reads, which
    do so only while no block of the range is dirty. *)

From S2P Require Import Prelude Errors BlockDevice.

Definition DEFAULT_CACHE_ENTRIES : Z := 4096.
Definition DEFAULT_READAHEAD_BLOCKS : Z := 128.

(** ** Data *)

Record CacheEntry := mkEntry { data : list byte; dirty : bool }.

Record CachedBlockDevice (D : Type) := mkCache {
  inner : D;
  max_entries : Z;
  readahead_blocks : Z;
  entries : gmap Z CacheEntry;
  lru : list Z;
}.
Arguments mkCache {D}.
Arguments inner {D}.
Arguments max_entries {D}.
Arguments readahead_blocks {D}.
Arguments entries {D}.
Arguments lru {D}.

Section cache.
Context {D : Type} `{BlockDevice D}.
Abbreviation Cache := (CachedBlockDevice D).

Definition with_capacity (d : D) (max : Z) : Cache :=
  mkCache d (Z.max max 1) DEFAULT_READAHEAD_BLOCKS ∅ [].

Definition cache_new (d : D) : Cache := with_capacity d DEFAULT_CACHE_ENTRIES.

Definition with_cached (c : Cache) (es : gmap Z CacheEntry) (q : list Z) : Cache :=
  mkCache c.(inner) c.(max_entries) c.(readahead_blocks) es q.

Definition with_inner (c : Cache) (d : D) : Cache :=
  mkCache d c.(max_entries) c.(readahead_blocks) c.(entries) c.(lru).

Definition touch (id : Z) (c : Cache) : Cache := with_cached c c.(entries) (c.(lru) ++ [id]).

(** [entries.insert(id, entry); touch(id)] *)
Definition insert_entry (id : Z) (e : CacheEntry) : io Cache unit := λ c,
  (Ok tt, touch id (with_cached c (<[id := e]> c.(entries)) c.(lru))).

(** A method of the inner device. *)
Definition on_inner {A} (m : io D A) : io Cache A := λ c,
  let '(r, d) := m c.(inner) in (r, with_inner c d).

(** ** Eviction *)

Fixpoint take_eviction_candidate (q : list Z) (es : gmap Z CacheEntry)
  : option (Z * CacheEntry) * gmap Z CacheEntry * list Z :=
  match q with
  | [] => (None, es, [])
  | id :: q =>
      match es !! id with
      | Some e => (Some (id, e), delete id es, q)
      | None => take_eviction_candidate q es
      end
  end.

(** The loop of [ensure_capacity]; [None]: out of fuel. *)
Fixpoint ensure_capacity_loop (fuel : nat) (c : Cache) : option (result BlockDeviceError unit * Cache) :=
  match fuel with
  | O => None
  | S fuel =>
      if Z.of_nat (size c.(entries)) <? c.(max_entries) then Some (Ok tt, c)
      else
        let '(eviction, es, q) := take_eviction_candidate c.(lru) c.(entries) in
        let c := with_cached c es q in
        match eviction with
        | None => Some (Ok tt, c)
        | Some (id, e) =>
            if e.(dirty) then
              match on_inner (write_single_block id e.(data)) c with
              | (Ok _, c) => ensure_capacity_loop fuel c
              | (Err err, c) => Some (Err err, c)
              end
            else ensure_capacity_loop fuel c
        end
  end.

(** Every round but the last takes a block from the queue. *)
Definition ensure_capacity : io Cache unit := λ c,
  default (Ok tt, c) (ensure_capacity_loop (S (length c.(lru))) c).

(** ** Flushing *)

Definition cached_data (es : gmap Z CacheEntry) (id : Z) : list byte :=
  default [] (data <$> es !! id).

Definition dirty_blocks (es : gmap Z CacheEntry) : list Z :=
  sort_by Z.leb (map fst (List.filter (λ kv : Z * CacheEntry, kv.2.(dirty)) (btree_iter es))).

(** Putting a block in front of the runs of the blocks after it. *)
Definition add_to_runs (es : gmap Z CacheEntry) (id : Z) (rs : list (Z * list byte))
  : list (Z * list byte) :=
  match rs with
  | (s, b) :: rest =>
      if s =? id + 1 then (id, cached_data es id ++ b) :: rest
      else (id, cached_data es id) :: rs
  | [] => [(id, cached_data es id)]
  end.

Definition collect_dirty_runs (c : Cache) : list (Z * list byte) :=
  foldr (add_to_runs c.(entries)) [] (dirty_blocks c.(entries)).

Definition mark_clean (id : Z) (es : gmap Z CacheEntry) : gmap Z CacheEntry :=
  alter (λ e, mkEntry e.(data) false) id es.

Definition mark_clean_range (start count : Z) : io Cache unit := λ c,
  (Ok tt, with_cached c (foldr mark_clean c.(entries) (seqZ start count)) c.(lru)).

Fixpoint flush_runs (rs : list (Z * list byte)) (bs : Z) : io Cache unit :=
  match rs with
  | [] => mret tt
  | (start_block, b) :: rs =>
      let block_count := zlen b / bs in
      _ ← on_inner (write_blocks start_block b);
      _ ← mark_clean_range start_block block_count;
      flush_runs rs bs
  end.

Definition cache_flush : io Cache unit := λ c,
  (_ ← flush_runs (collect_dirty_runs c) (block_size c.(inner)); on_inner flush) c.

(** ** Reading *)

Definition cache_read_single_block (id len : Z) : io Cache (list byte) := λ c,
  let bs := block_size c.(inner) in
  if len <? bs then (Err BlockDeviceError.BufferTooSmall, c)
  else match c.(entries) !! id with
       | Some e => (Ok e.(data), c)
       | None =>
           (data ← on_inner (read_single_block id bs);
            _ ← ensure_capacity;
            _ ← insert_entry id (mkEntry data false);
            mret data) c
       end.

(** The end of the run of misses from [index]: the inner [while] of [read_blocks]. *)
Fixpoint miss_run (n : nat) (es : gmap Z CacheEntry) (start index : Z) : Z :=
  match n with
  | O => index
  | S n => match es !! (start + index) with
           | None => miss_run n es start (index + 1)
           | Some _ => index
           end
  end.

(** The rounds [i, i + n) of the loop that caches what was fetched from block [first]. *)
Fixpoint fill_loop (n : nat) (i first bs : Z) (temp : list byte) : io Cache unit :=
  match n with
  | O => mret tt
  | S n =>
      _ ← ensure_capacity;
      _ ← insert_entry (first + i) (mkEntry (zslice temp (i * bs) (i * bs + bs)) false);
      fill_loop n (i + 1) first bs temp
  end.

(** One miss: fetch with read-ahead and cache; the bytes of the blocks that missed. *)
Definition read_miss (start index miss_end total bs : Z) : io Cache (list byte) := λ c,
  let readahead_end := Z.min total (miss_end + c.(readahead_blocks)) in
  let fetch_blocks := readahead_end - index in
  (temp ← on_inner (read_blocks (start + index) (fetch_blocks * bs));
   _ ← fill_loop (Z.to_nat fetch_blocks) 0 (start + index) bs temp;
   mret (zslice temp 0 ((miss_end - index) * bs))) c.

Definition prepend (got : list byte) (rc : result BlockDeviceError (list byte) * Cache)
  : result BlockDeviceError (list byte) * Cache := (app got <$> rc.1, rc.2).

(** The loop of [read_blocks] from [index]; [None]: out of fuel. *)
Fixpoint read_blocks_loop (fuel : nat) (start index total bs : Z) (c : Cache)
  : option (result BlockDeviceError (list byte) * Cache) :=
  match fuel with
  | O => None
  | S fuel =>
      if index <? total then
        match c.(entries) !! (start + index) with
        | Some e =>
            prepend e.(data) <$> read_blocks_loop fuel start (index + 1) total bs c
        | None =>
            let miss_end :=
              miss_run (Z.to_nat (total - (index + 1))) c.(entries) start (index + 1) in
            match read_miss start index miss_end total bs c with
            | (Ok got, c) =>
                prepend got <$> read_blocks_loop fuel start miss_end total bs c
            | (Err e, c) => Some (Err e, c)
            end
        end
      else Some (Ok [], c)
  end.

(** Every round advances [index]. *)
Definition cache_read_blocks (start len : Z) : io Cache (list byte) := λ c,
  let bs := block_size c.(inner) in
  if negb (len mod bs =? 0) then (Err BlockDeviceError.BufferTooSmall, c)
  else
    let total := len / bs in
    if total_blocks c.(inner) <? uwrap 64 (start + total) then (Err BlockDeviceError.OutOfBounds, c)
    else default (Ok [], c) (read_blocks_loop (S (Z.to_nat total)) start 0 total bs c).

(** ** Writing *)

Definition cache_write_single_block (id : Z) (buffer : list byte) : io Cache Z := λ c,
  let bs := block_size c.(inner) in
  if zlen buffer <? bs then (Err BlockDeviceError.BufferTooSmall, c)
  else if total_blocks c.(inner) <=? id then (Err BlockDeviceError.OutOfBounds, c)
  else (_ ← ensure_capacity;
        _ ← insert_entry id (mkEntry (zslice buffer 0 bs) true);
        mret bs) c.

Fixpoint cache_write_loop (n : nat) (index start : Z) (buffer : list byte) (bs : Z) : io Cache unit :=
  match n with
  | O => mret tt
  | S n =>
      _ ← ensure_capacity;
      let byte_start := index * bs in
      _ ← insert_entry (start + index) (mkEntry (zslice buffer byte_start (byte_start + bs)) true);
      cache_write_loop n (index + 1) start buffer bs
  end.

Definition cache_write_blocks (start : Z) (buffer : list byte) : io Cache Z := λ c,
  let bs := block_size c.(inner) in
  if negb (zlen buffer mod bs =? 0) then (Err BlockDeviceError.BufferTooSmall, c)
  else
    let total := zlen buffer / bs in
    match checked_add 64 start total with
    | None => (Err BlockDeviceError.OutOfBounds, c)
    | Some e =>
        if total_blocks c.(inner) <? e then (Err BlockDeviceError.OutOfBounds, c)
        else (_ ← cache_write_loop (Z.to_nat total) 0 start buffer bs; mret (zlen buffer)) c
    end.

#[export] Instance cached_device : BlockDevice Cache := {
  total_blocks c := total_blocks c.(inner);
  block_size c := block_size c.(inner);
  read_single_block := cache_read_single_block;
  write_single_block := cache_write_single_block;
  read_blocks := cache_read_blocks;
  write_blocks := cache_write_blocks;
  flush := cache_flush;
}.
End cache.

(** Compute the fields of an updated cache. *)
Ltac fields := cbn [with_inner with_cached touch inner entries lru max_entries readahead_blocks] in *.

(** ** Specification *)

Section spec.
Context {D : Type} `{Laws : BlockDeviceLaws D}.
(** Multi-block reads of the inner device are always right. *)
Context (whole : ∀ (d : D) s n, reads_whole d s n).
Abbreviation Cache := (CachedBlockDevice D).
Implicit Types (c : Cache) (es : gmap Z CacheEntry).

Definition is_dirty c id : Prop := ∃ e, c.(entries) !! id = Some e ∧ e.(dirty) = true.

(** A block of the inner device, and the block that the cache shows. *)
Definition inner_block c id : list byte := block_slice (block_size c.(inner)) (contents c.(inner)) id.

Definition shown_block c id : list byte :=
  match c.(entries) !! id with Some e => e.(data) | None => inner_block c id end.

Definition shown c : list byte :=
  concat (map (shown_block c) (seqZ 0 (total_blocks c.(inner)))).

(** Cached blocks are blocks of the device, clean ones agree with it, every one can be
    found in the queue, and there are at most [max_entries]. *)
Definition cache_ok c : Prop :=
  dev_ok c.(inner) ∧ 1 ≤ c.(max_entries) ∧ 0 ≤ c.(readahead_blocks) ∧
  Z.of_nat (size c.(entries)) ≤ c.(max_entries) ∧
  (∀ id e, c.(entries) !! id = Some e →
     0 ≤ id < total_blocks c.(inner) ∧ zlen e.(data) = block_size c.(inner) ∧
     (e.(dirty) = false → e.(data) = inner_block c id) ∧ id ∈ c.(lru)).

#[export] Instance cached_spec : BlockDeviceSpec Cache := {
  dev_ok := cache_ok;
  contents := shown;
  reads_whole c s n := ∀ id, s ≤ id < s + n → ¬ is_dirty c id;
}.

(** [c'] shows the same blocks as [c] and has no new dirty block. *)
Definition kept c c' : Prop :=
  cache_ok c' ∧ same_geometry c.(inner) c'.(inner) ∧ c'.(max_entries) = c.(max_entries) ∧
  (∀ id, 0 ≤ id < total_blocks c.(inner) → shown_block c' id = shown_block c id) ∧
  (∀ id, is_dirty c' id → is_dirty c id).

Lemma inner_geometry c : cache_ok c →
  0 < block_size c.(inner) ∧ 0 ≤ total_blocks c.(inner) ∧
  zlen (contents c.(inner)) = total_blocks c.(inner) * block_size c.(inner) ∧
  zlen (contents c.(inner)) < 2 ^ 64.
Proof. intros (Hok & _). by apply geometry_law. Qed.

Lemma zlen_shown_block c id :
  cache_ok c → 0 ≤ id < total_blocks c.(inner) → zlen (shown_block c id) = block_size c.(inner).
Proof.
  intros Hok Hid. destruct (inner_geometry c Hok) as (Hbs & _ & Hlen & _).
  unfold shown_block. destruct (_ !! id) as [e|] eqn:He.
  - destruct Hok as (_ & _ & _ & _ & Hes). by apply Hes in He as (_ & ? & _).
  - apply zlen_block_slice; [done|lia|]. nia.
Qed.

Lemma zlen_shown c : cache_ok c → zlen (shown c) = total_blocks c.(inner) * block_size c.(inner).
Proof.
  intros Hok. destruct (inner_geometry c Hok) as (Hbs & Ht & _). unfold shown.
  rewrite <- (Z2Nat.id (total_blocks c.(inner))) at 1 by done. rewrite zlen_concat_blocks with (bs := block_size c.(inner)).
  - by rewrite Z2Nat.id.
  - intros i Hi. apply zlen_shown_block; [done|]. rewrite Z2Nat.id in Hi by done. lia.
Qed.

Lemma shown_slice c id :
  cache_ok c → 0 ≤ id < total_blocks c.(inner) →
  block_slice (block_size c.(inner)) (shown c) id = shown_block c id.
Proof.
  intros Hok Hid. destruct (inner_geometry c Hok) as (Hbs & Ht & _). unfold shown.
  rewrite <- (Z2Nat.id (total_blocks c.(inner))) by done. replace id with (id - 0) at 1 by lia.
  apply block_slice_concat; [done| |lia]. intros i Hi. apply zlen_shown_block; [done|lia].
Qed.

Lemma kept_shown c c' : cache_ok c → kept c c' → shown c' = shown c.
Proof.
  intros Hok (Hok' & [Hb Ht] & _ & Hs & _). destruct (inner_geometry c Hok) as (Hbs & Hn & _).
  apply (block_lists_ext (block_size c.(inner)) Hbs) with (total_blocks c.(inner)); [done|..].
  - by rewrite zlen_shown, Hb, Ht.
  - by apply zlen_shown.
  - intros id Hid. rewrite <- Hb at 1. rewrite !shown_slice by (rewrite ?Ht; done). auto.
Qed.

Lemma kept_same c c' : cache_ok c → kept c c' → dev_same c c'.
Proof.
  intros Hok Hk. pose proof Hk as (Hok' & Hg & _ & _ & Hd). split; [done|].
  split; [by apply kept_shown|]. split; [done|]. intros s n Hw id Hid Hdi. by apply (Hw id Hid), Hd.
Qed.

Lemma kept_refl c : cache_ok c → kept c c.
Proof. done. Qed.

Lemma kept_trans c1 c2 c3 : kept c1 c2 → kept c2 c3 → kept c1 c3.
Proof.
  intros (_ & [Hb Ht] & Hm & Hs & Hd) (Hok & [Hb' Ht'] & Hm' & Hs' & Hd').
  split_and!; [done|split; congruence|congruence| |auto].
  intros id Hid. rewrite Hs' by (rewrite Ht; done). auto.
Qed.

(** ** Eviction *)

Lemma take_eviction_candidate_spec q es ev es' q' :
  take_eviction_candidate q es = (ev, es', q') →
  match ev with
  | None => ∀ id, id ∈ q → es !! id = None
  | Some (id, e) => es !! id = Some e ∧ es' = delete id es ∧ (length q' < length q)%nat ∧
      (∀ j, j ∈ q → j = id ∨ es !! j = None ∨ j ∈ q')
  end.
Proof.
  induction q as [|i q IH]; cbn.
  - intros [= <- <- <-] id Hid. by apply elem_of_nil in Hid.
  - destruct (es !! i) as [e|] eqn:Hi.
    + intros [= <- <- <-]. split_and!; [done..|lia|]. intros j [->|?]%elem_of_cons; auto.
    + intros Hq. specialize (IH Hq). destruct ev as [[id e]|].
      * destruct IH as (? & ? & ? & Hj). split_and!; [done..|lia|].
        intros j [->|?]%elem_of_cons; auto.
      * intros j [->|?]%elem_of_cons; auto.
Qed.

(** Removing a block is harmless when the inner device then has its data. *)
Lemma evict_kept c d id e q :
  cache_ok c → c.(entries) !! id = Some e →
  (∀ j, j ∈ c.(lru) → j = id ∨ c.(entries) !! j = None ∨ j ∈ q) →
  dev_ok d → same_geometry c.(inner) d →
  (∀ j, 0 ≤ j < total_blocks c.(inner) →
     block_slice (block_size c.(inner)) (contents d) j = if decide (j = id) then e.(data) else inner_block c j) →
  kept c (with_inner (with_cached c (delete id c.(entries)) q) d).
Proof.
  intros (Hok & Hm & Hra & Hsz & Hes) He Hq Hd [Hb Ht] Hblk.
  split; [split; [done|split; [done|split; [done|split]]]|split; [done|split; [done|split]]];
    fields.
  - rewrite map_size_delete, He. cbn. lia.
  - intros j ej Hj. apply lookup_delete_Some in Hj as [Hne Hj].
    destruct (Hes j ej Hj) as (Hr & Hl & Hc & Hin). rewrite Hb, Ht. split_and!; [lia..| |].
    + intros Hcl. unfold inner_block. fields. rewrite Hb, Hblk by done.
      rewrite decide_False by done. auto.
    + destruct (Hq j Hin) as [->|[Hn|?]]; [done|congruence|done].
  - intros j Hj. unfold shown_block, inner_block. fields. rewrite lookup_delete, Hb, Hblk by done.
    repeat case_decide; subst; try done. by rewrite He.
  - intros j (ej & Hj & Hdj). fields. apply lookup_delete_Some in Hj as [_ Hj]. by exists ej.
Qed.

(** Writing a dirty block back before it is dropped. *)
Lemma write_back_runs c id e :
  cache_ok c → c.(entries) !! id = Some e →
  ∃ d, write_single_block id e.(data) c.(inner) = (Ok (block_size c.(inner)), d) ∧
    dev_ok d ∧ same_geometry c.(inner) d ∧
    (∀ j, 0 ≤ j < total_blocks c.(inner) →
       block_slice (block_size c.(inner)) (contents d) j = if decide (j = id) then e.(data) else inner_block c j).
Proof.
  intros Hok He. destruct (inner_geometry c Hok) as (Hbs & Ht & Hlen & _).
  destruct Hok as (Hd & _ & _ & _ & Hes). destruct (Hes id e He) as (Hid & Hl & _).
  destruct (write_single_law c.(inner) id e.(data)) as (d & Hw & Hdok & Hc & Hg); [done|done|lia|].
  exists d. split; [done|]. split; [done|]. split; [done|]. intros j Hj.
  rewrite Hc, zslice_all by done. rewrite (block_slice_zsplice _ Hbs _ _ 1) by nia.
  unfold inner_block. case_decide; case_decide; try lia; [|done]. subst j.
  replace (id - id) with 0 by lia. unfold block_slice. rewrite Z.mul_0_l. apply zslice_all. lia.
Qed.

Lemma ensure_capacity_loop_spec (fuel : nat) c :
  (length c.(lru) < fuel)%nat → cache_ok c →
  ∃ c', ensure_capacity_loop fuel c = Some (Ok tt, c') ∧ kept c c' ∧
    Z.of_nat (size c'.(entries)) < c'.(max_entries).
Proof.
  revert c. induction fuel as [|fuel IH]; intros c Hf Hok; [lia|]. cbn [ensure_capacity_loop].
  destruct (_ <? _) eqn:Hsz; [exists c; split; [done|]; split; [by apply kept_refl|lia]|].
  destruct (take_eviction_candidate _ _) as [[ev es'] q'] eqn:Htake.
  pose proof (take_eviction_candidate_spec _ _ _ _ _ Htake) as Hev.
  destruct ev as [[id e]|].
  - destruct Hev as (He & -> & Hlt & Hq).
    assert (∃ d, (if e.(dirty) then write_single_block id e.(data) c.(inner) =
      (Ok (block_size c.(inner)), d) else d = c.(inner)) ∧
      kept c (with_inner (with_cached c (delete id c.(entries)) q') d)) as (d & Hd & Hk).
    { destruct (dirty e) eqn:Hdi.
      - destruct (write_back_runs c id e Hok He) as (d & Hw & Hdok & Hg & Hblk).
        exists d. split; [done|]. by apply evict_kept with e.
      - exists c.(inner). split; [done|]. pose proof Hok as (Hdok & _ & _ & _ & Hes).
        apply evict_kept with e; try done. intros j _. case_decide; [|done]. subst j.
        symmetry. by apply Hes. }
    destruct (IH (with_inner (with_cached c (delete id c.(entries)) q') d)) as (c' & Hl & Hk' & Hs');
      [fields; lia|exact (proj1 Hk)|].
    exists c'. split; [|split; [by eapply kept_trans|done]]. rewrite <- Hl.
    destruct (dirty e); [unfold on_inner; fields; by rewrite Hd|by subst d].
  - exfalso. destruct Hok as (_ & Hm & _ & _ & Hes). destruct (decide (c.(entries) = ∅)) as [Hemp|Hne].
    + rewrite Hemp, map_size_empty in Hsz. apply Z.ltb_ge in Hsz. lia.
    + apply map_choose in Hne as (id & e & He). destruct (Hes id e He) as (_ & _ & _ & Hin).
      by rewrite (Hev id Hin) in He.
Qed.

Lemma ensure_capacity_runs c :
  cache_ok c → runs ensure_capacity c tt
    (λ c', kept c c' ∧ Z.of_nat (size c'.(entries)) < c'.(max_entries)).
Proof.
  intros Hok. destruct (ensure_capacity_loop_spec (S (length c.(lru))) c) as (c' & Hl & Hk); [lia|done|].
  exists c'. unfold ensure_capacity. by rewrite Hl.
Qed.

(** ** Inserting *)

Lemma insert_entry_ok c id e :
  cache_ok c → Z.of_nat (size c.(entries)) < c.(max_entries) →
  0 ≤ id < total_blocks c.(inner) → zlen e.(data) = block_size c.(inner) →
  (e.(dirty) = false → e.(data) = inner_block c id) →
  ∃ c', insert_entry id e c = (Ok tt, c') ∧ cache_ok c' ∧ same_geometry c.(inner) c'.(inner) ∧
    c'.(max_entries) = c.(max_entries) ∧
    (∀ j, shown_block c' j = if decide (j = id) then e.(data) else shown_block c j) ∧
    (∀ j, is_dirty c' j → if decide (j = id) then e.(dirty) = true else is_dirty c j).
Proof.
  intros (Hok & Hm & Hra & Hsz & Hes) Hlt Hid Hl Hcl. eexists. split; [reflexivity|].
  split; [split; [done|split; [done|split; [done|split]]]|split; [done|split; [done|split]]]; fields.
  - rewrite map_size_insert. case_match; cbn; lia.
  - intros j ej [[<- <-]|[Hne Hj]]%lookup_insert_Some.
    + split_and!; [lia..|done|]. apply elem_of_app. right. by apply list_elem_of_singleton.
    + destruct (Hes j ej Hj) as (? & ? & ? & ?). split_and!; [lia..|done|]. apply elem_of_app. by left.
  - intros j. unfold shown_block. fields. rewrite lookup_insert. repeat case_decide; subst; done.
  - intros j (ej & Hj & Hdj). fields. apply lookup_insert_Some in Hj as [[<- <-]|[Hne Hj]].
    + by rewrite decide_True.
    + rewrite decide_False by done. by exists ej.
Qed.

(** Caching a block read from the device, if the cached copy is not newer. *)
Lemma insert_clean_kept c id bytes :
  cache_ok c → Z.of_nat (size c.(entries)) < c.(max_entries) → 0 ≤ id < total_blocks c.(inner) →
  ¬ is_dirty c id → bytes = shown_block c id →
  runs (insert_entry id (mkEntry bytes false)) c tt (kept c).
Proof.
  intros Hok Hlt Hid Hnd ->. assert (shown_block c id = inner_block c id) as Hin.
  { unfold shown_block. destruct (_ !! id) as [e|] eqn:He; [|done]. destruct Hok as (_ & _ & _ & _ & Hes).
    destruct (Hes id e He) as (_ & _ & Hcl & _). apply Hcl. destruct (dirty e) eqn:Hd; [|done].
    exfalso. apply Hnd. by exists e. }
  destruct (insert_entry_ok c id (mkEntry (shown_block c id) false)) as (c' & Hi & Hok' & Hg & Hm & Hs & Hd);
    [done|done|done|by apply zlen_shown_block|done|].
  exists c'. split; [done|]. split; [done|]. split; [done|]. split; [done|]. split.
  - intros j _. rewrite Hs. case_decide; [by subst|done].
  - intros j Hj%Hd. case_decide; [done|exact Hj].
Qed.

(** ** Reading *)

(** The inner device may change its state as long as its contents stay. *)
Lemma with_inner_kept c d : cache_ok c → dev_same c.(inner) d → kept c (with_inner c d).
Proof.
  intros (Hok & Hm & Hra & Hsz & Hes) (Hd & Hc & [Hb Ht] & _).
  split; [split; [done|split; [done|split; [done|split; [done|]]]]|split; [done|split; [done|split; [|done]]]].
  - intros id e He. unfold inner_block. fields. rewrite Hb, Ht, Hc. by apply Hes.
  - intros id Hid. unfold shown_block, inner_block. fields. by rewrite Hb, Hc.
Qed.

Lemma on_inner_runs {A} (m : io D A) c a (P : D → Prop) (Q : Cache → Prop) :
  runs m c.(inner) a P → (∀ d, P d → Q (with_inner c d)) → runs (on_inner m) c a Q.
Proof. intros (d & Hm & HP) HQ. exists (with_inner c d). unfold on_inner. rewrite Hm. auto. Qed.

Lemma absent_not_dirty c id : c.(entries) !! id = None → ¬ is_dirty c id.
Proof. intros Hn (e & He & _). congruence. Qed.

(** A block that is not dirty is the inner device's. *)
Lemma clean_shown c id : cache_ok c → ¬ is_dirty c id → shown_block c id = inner_block c id.
Proof.
  intros (_ & _ & _ & _ & Hes) Hnd. unfold shown_block. destruct (_ !! id) as [e|] eqn:He; [|done].
  destruct (Hes id e He) as (_ & _ & Hcl & _). apply Hcl. destruct (dirty e) eqn:Hd; [|done].
  exfalso. apply Hnd. by exists e.
Qed.

Lemma cache_read_single_runs c id len :
  cache_ok c → 0 ≤ id < total_blocks c.(inner) → block_size c.(inner) ≤ len →
  runs (cache_read_single_block id len) c (shown_block c id) (kept c).
Proof.
  intros Hok Hid Hlen. unfold runs at 1, cache_read_single_block. replace (len <? _) with false by lia.
  unfold shown_block at 1. destruct (_ !! id) as [e|] eqn:He; [by exists c|].
  pose proof (absent_not_dirty c id He) as Hnd.
  eapply (runs_mbind _ _ c _ _ (kept c)).
  { eapply on_inner_runs; [apply read_single_law; [apply Hok|done|done]|]. intros d. by apply with_inner_kept. }
  intros c1 Hk1. eapply runs_mbind; [apply ensure_capacity_runs, Hk1|]. intros c2 (Hk2 & Hsz).
  pose proof (kept_trans _ _ _ Hk1 Hk2) as Hk. pose proof Hk as (Hok2 & [_ Ht] & _ & Hs & Hd).
  eapply runs_mbind; [apply insert_clean_kept; [done|done|by rewrite Ht|auto|]|].
  - rewrite Hs by done. by rewrite clean_shown.
  - intros c3 Hk3. apply runs_mret. by eapply kept_trans.
Qed.

(** Caching what was fetched changes nothing while no block fetched over is dirty. *)
Lemma fill_loop_runs (n : nat) c0 c i first temp (bs := block_size c0.(inner)) :
  cache_ok c0 → kept c0 c → 0 ≤ i → 0 ≤ first →
  first + i + Z.of_nat n ≤ total_blocks c0.(inner) →
  (∀ j, i ≤ j < i + Z.of_nat n → ¬ is_dirty c0 (first + j) ∧
     zslice temp (j * bs) (j * bs + bs) = shown_block c0 (first + j)) →
  runs (fill_loop n i first bs temp) c tt (kept c0).
Proof.
  intros Hok0. revert c i. induction n as [|n IH]; intros c i Hk Hi Hf Hin Ht; cbn [fill_loop].
  { by apply runs_mret. }
  eapply runs_mbind; [apply ensure_capacity_runs, Hk|]. intros c1 (Hk1 & Hsz).
  pose proof (kept_trans _ _ _ Hk Hk1) as Hk01. pose proof Hk01 as (Hok1 & [_ Htot] & _ & Hs & Hd).
  destruct (Ht i) as [Hnd Hblk]; [lia|].
  eapply runs_mbind; [apply insert_clean_kept; [done|done|rewrite Htot; lia|auto|]|].
  - rewrite Hs by lia. exact Hblk.
  - intros c2 Hk2. apply IH; [by eapply kept_trans|lia|done|lia|]. intros j Hj. apply Ht. lia.
Qed.

Lemma miss_run_bounds (n : nat) es start index :
  index ≤ miss_run n es start index ≤ index + Z.of_nat n.
Proof.
  revert index. induction n as [|n IH]; intros index; cbn [miss_run]; [lia|].
  destruct (_ !! _); [lia|]. specialize (IH (index + 1)). lia.
Qed.

Lemma read_miss_runs c0 c start index miss_end total (bs := block_size c0.(inner)) :
  cache_ok c0 → kept c0 c → 0 ≤ start → 0 ≤ index < miss_end → miss_end ≤ total →
  start + total ≤ total_blocks c0.(inner) →
  (∀ id, start ≤ id < start + total → ¬ is_dirty c0 id) →
  runs (read_miss start index miss_end total bs) c
    (zslice (shown c0) ((start + index) * bs) ((start + miss_end) * bs)) (kept c0).
Proof.
  intros Hok0 Hk Hs Hi Hm Hin Hnd. pose proof Hk as (Hok & [Hb Ht] & _ & Hsh & Hd).
  destruct (inner_geometry c0 Hok0) as (Hbs & _). fold bs in Hb, Hbs.
  unfold runs at 1, read_miss. set (e := Z.min total (miss_end + c.(readahead_blocks))).
  assert (miss_end ≤ e ≤ total) as He by (destruct Hok as (_ & _ & ? & _); unfold e; lia).
  assert (∀ id, start ≤ id < start + total → inner_block c id = shown_block c0 id) as Hsame.
  { intros id Hid. rewrite <- clean_shown, Hsh; [done|lia|done|]. intros Hdi%Hd. by apply (Hnd id). }
  set (temp := zslice (shown c0) ((start + index) * bs) ((start + e) * bs)).
  eapply (runs_mbind _ _ c temp _ (kept c0)).
  { pose proof (read_blocks_law c.(inner) (start + index) (e - index) (proj1 Hok)) as Hr.
    rewrite Hb, Ht in Hr. eapply on_inner_runs; [|intros d Hdv; eapply kept_trans; [done|by apply with_inner_kept]].
    enough (temp = zslice (contents c.(inner)) ((start + index) * bs) ((start + index + (e - index)) * bs)) as ->
      by (apply Hr; [lia|lia|lia|apply whole]).
    unfold temp. replace (start + e) with (start + index + Z.of_nat (Z.to_nat (e - index))) by lia.
    replace (e - index) with (Z.of_nat (Z.to_nat (e - index))) at 2 by lia.
    apply block_slices_ext; [done|lia|]. intros id Hid.
    transitivity (shown_block c0 id); [apply shown_slice; [done|lia]|]. rewrite <- Hsame by lia. by rewrite <- Hb. }
  intros c1 Hk1. eapply runs_mbind; [apply fill_loop_runs; [done|exact Hk1|lia|lia|lia|]|].
  - intros j Hj. split; [apply Hnd; lia|]. unfold temp. fold bs. rewrite zslice_zslice by nia.
    rewrite <- shown_slice by (done || lia). unfold block_slice. fold bs. f_equal; lia.
  - intros c2 Hk2. unfold temp. rewrite zslice_zslice by nia.
    replace ((start + index) * bs + 0) with ((start + index) * bs) by lia.
    replace ((start + index) * bs + (miss_end - index) * bs) with ((start + miss_end) * bs) by lia.
    by apply runs_mret.
Qed.

Lemma read_blocks_loop_spec (fuel : nat) c0 c start index total (bs := block_size c0.(inner)) :
  cache_ok c0 → kept c0 c → 0 ≤ start → 0 ≤ index ≤ total → total - index < Z.of_nat fuel →
  start + total ≤ total_blocks c0.(inner) →
  (∀ id, start ≤ id < start + total → ¬ is_dirty c0 id) →
  ∃ c', read_blocks_loop fuel start index total bs c =
    Some (Ok (zslice (shown c0) ((start + index) * bs) ((start + total) * bs)), c') ∧ kept c0 c'.
Proof.
  intros Hok0. destruct (inner_geometry c0 Hok0) as (Hbs & _). fold bs in Hbs.
  revert c index. induction fuel as [|fuel IH]; intros c index Hk Hs Hi Hf Hin Hnd; [lia|].
  cbn [read_blocks_loop]. destruct (index <? total) eqn:Hlt.
  2:{ exists c. split; [|done]. rewrite zslice_nil by nia. done. }
  destruct (_ !! (start + index)) as [e|] eqn:He.
  - destruct (IH c (index + 1)) as (c' & Hl & Hk'); [done|lia..|done|]. exists c'. split; [|done].
    rewrite Hl. cbn. unfold prepend. cbn. do 3 f_equal.
    assert (e.(data) = shown_block c0 (start + index)) as ->.
    { destruct Hk as (_ & _ & _ & Hsh & _). rewrite <- Hsh by lia. unfold shown_block. by rewrite He. }
    rewrite <- shown_slice by (done || lia). unfold block_slice. fold bs.
    replace (start + (index + 1)) with (start + index + 1) by lia. apply zslice_app; nia.
  - pose proof (miss_run_bounds (Z.to_nat (total - (index + 1))) c.(entries) start (index + 1)) as Hmr.
    set (m := miss_run _ _ _ _) in *.
    destruct (read_miss_runs c0 c start index m total) as (c1 & Hr & Hk1); [done|done|lia..|done|].
    fold bs in Hr. rewrite Hr.
    destruct (IH c1 m) as (c' & Hl & Hk'); [done|lia..|done|]. exists c'. split; [|done].
    rewrite Hl. cbn. unfold prepend. cbn. do 3 f_equal. apply zslice_app; nia.
Qed.

Lemma cache_read_blocks_runs c start n (bs := block_size c.(inner)) :
  cache_ok c → 0 ≤ start → 0 ≤ n → start + n ≤ total_blocks c.(inner) →
  (∀ id, start ≤ id < start + n → ¬ is_dirty c id) →
  runs (cache_read_blocks start (n * bs)) c (zslice (shown c) (start * bs) ((start + n) * bs)) (kept c).
Proof.
  intros Hok Hs Hn Hin Hnd. destruct (inner_geometry c Hok) as (Hbs & Ht & Hlen & Hmax). fold bs in Hbs, Hlen.
  unfold runs at 1, cache_read_blocks. fold bs. rewrite Z.mod_mul, Z.div_mul by lia. cbn [Z.eqb negb].
  rewrite uwrap_id by (split; nia). replace (_ <? start + n) with false by lia.
  destruct (read_blocks_loop_spec (S (Z.to_nat n)) c c start 0 n) as (c' & Hl & Hk);
    [done|by apply kept_refl|lia..|done|].
  fold bs in Hl. rewrite Hl, Z.add_0_r. by exists c'.
Qed.

(** ** Writing *)

(** [c] shows [buffer] in the [n] blocks from [s], and what [c0] shows elsewhere. *)
Definition put c0 (s n : Z) (buffer : list byte) c : Prop :=
  cache_ok c ∧ same_geometry c0.(inner) c.(inner) ∧
  ∀ j, 0 ≤ j < total_blocks c0.(inner) →
    shown_block c j = if decide (s ≤ j < s + n)
      then block_slice (block_size c0.(inner)) buffer (j - s) else shown_block c0 j.

Lemma put_updated c0 s n buffer c :
  cache_ok c0 → 0 ≤ s → zlen buffer = n * block_size c0.(inner) → s + n ≤ total_blocks c0.(inner) →
  put c0 s n buffer c → dev_updated c0 (s * block_size c0.(inner)) buffer c.
Proof.
  intros Hok0 Hs Hb Hin (Hok & [Hbs' Ht'] & Hsh). destruct (inner_geometry c0 Hok0) as (Hbs & Ht & _).
  pose proof (zlen_nonneg buffer). assert (0 ≤ n) by nia. split; [done|]. split; [|done].
  pose proof (zlen_shown c0 Hok0) as Hz.
  apply (block_lists_ext (block_size c0.(inner)) Hbs) with (total_blocks c0.(inner)); [done|..].
  - cbn [contents cached_spec]. by rewrite zlen_shown, Hbs', Ht'.
  - cbn [contents cached_spec]. rewrite zlen_zsplice; nia.
  - intros id Hid. cbn [contents cached_spec].
    rewrite block_slice_zsplice with (n := n) by (done || nia).
    rewrite <- Hbs' at 1. rewrite shown_slice by (rewrite ?Ht'; done). rewrite Hsh by done.
    case_decide; [done|]. by rewrite shown_slice.
Qed.

Lemma put_insert c0 c s n buffer :
  cache_ok c0 → put c0 s n buffer c → Z.of_nat (size c.(entries)) < c.(max_entries) → 0 ≤ s → 0 ≤ n →
  s + n + 1 ≤ total_blocks c0.(inner) → (n + 1) * block_size c0.(inner) ≤ zlen buffer →
  runs (insert_entry (s + n) (mkEntry (block_slice (block_size c0.(inner)) buffer n) true)) c tt
    (put c0 s (n + 1) buffer).
Proof.
  intros Hok0 (Hok & [Hb Ht] & Hsh) Hsz Hs Hn Hin Hlen. destruct (inner_geometry c0 Hok0) as (Hbs & _).
  destruct (insert_entry_ok c (s + n) (mkEntry (block_slice (block_size c0.(inner)) buffer n) true))
    as (c' & Hi & Hok' & [Hb' Ht'] & _ & Hsh' & _); [done|done|lia| |done|].
  { cbn. rewrite Hb. by apply zlen_block_slice. }
  exists c'. split; [done|]. split; [done|]. split; [split; congruence|]. intros j Hj.
  rewrite Hsh'. case_decide as Hjs.
  - subst j. rewrite decide_True by lia. cbn. f_equal. lia.
  - rewrite Hsh by done. destruct (decide (s ≤ j < s + n)); [rewrite decide_True by lia|rewrite decide_False by lia]; done.
Qed.

Lemma put_ensure c0 c s n buffer :
  put c0 s n buffer c →
  runs ensure_capacity c tt (λ c', put c0 s n buffer c' ∧ Z.of_nat (size c'.(entries)) < c'.(max_entries)).
Proof.
  intros (Hok & [Hb Ht] & Hsh). eapply runs_weaken; [by apply ensure_capacity_runs|].
  intros c' ((Hok' & [Hb' Ht'] & _ & Hsh' & _) & Hsz). split; [|done]. split; [done|].
  split; [split; congruence|]. intros j Hj. rewrite Hsh' by (rewrite Ht; done). auto.
Qed.

Lemma cache_write_loop_runs (n : nat) c0 c index start buffer (bs := block_size c0.(inner)) :
  cache_ok c0 → put c0 start index buffer c → 0 ≤ start → 0 ≤ index →
  start + index + Z.of_nat n ≤ total_blocks c0.(inner) → (index + Z.of_nat n) * bs ≤ zlen buffer →
  runs (cache_write_loop n index start buffer bs) c tt (put c0 start (index + Z.of_nat n) buffer).
Proof.
  intros Hok0. destruct (inner_geometry c0 Hok0) as (Hbs & _). fold bs in Hbs.
  revert c index. induction n as [|n IH]; intros c index Hp Hs Hi Hin Hl; cbn [cache_write_loop].
  { rewrite Z.add_0_r. by apply runs_mret. }
  eapply runs_mbind; [by apply put_ensure|]. intros c1 (Hp1 & Hsz). cbv zeta.
  replace (index * bs + bs) with ((index + 1) * bs) by lia. fold (block_slice bs buffer index).
  eapply runs_mbind; [apply put_insert; [done..|lia|fold bs; nia]|]. intros c2 Hp2.
  replace (index + Z.of_nat (S n)) with (index + 1 + Z.of_nat n) by lia. apply IH; [done|lia..|nia].
Qed.

Lemma put_nil c s buffer : cache_ok c → put c s 0 buffer c.
Proof. intros Hok. split; [done|]. split; [done|]. intros j Hj. by rewrite decide_False by lia. Qed.

Lemma cache_write_blocks_runs c start n buffer :
  cache_ok c → 0 ≤ start → zlen buffer = n * block_size c.(inner) → start + n ≤ total_blocks c.(inner) →
  runs (cache_write_blocks start buffer) c (zlen buffer)
    (dev_updated c (start * block_size c.(inner)) buffer).
Proof.
  intros Hok Hs Hlen Hin. destruct (inner_geometry c Hok) as (Hbs & Ht & Hl & Hmax).
  pose proof (zlen_nonneg buffer). assert (0 ≤ n) by nia. unfold runs at 1, cache_write_blocks.
  replace (zlen buffer mod block_size c.(inner)) with 0 by (rewrite Hlen, Z.mod_mul; lia).
  replace (zlen buffer / block_size c.(inner)) with n by (rewrite Hlen, Z.div_mul; lia). cbn [Z.eqb negb].
  unfold checked_add. replace (start + n <? 2 ^ 64) with true by nia. replace (_ <? start + n) with false by lia.
  eapply runs_mbind; [apply (cache_write_loop_runs (Z.to_nat n) c c 0); [done|by apply put_nil|lia..|]|].
  - rewrite Z2Nat.id by done. lia.
  - intros c' Hp. rewrite Z2Nat.id in Hp by done. apply runs_mret. by apply (put_updated c start n).
Qed.

Lemma cache_write_single_runs c id buffer :
  cache_ok c → 0 ≤ id < total_blocks c.(inner) → block_size c.(inner) ≤ zlen buffer →
  runs (cache_write_single_block id buffer) c (block_size c.(inner))
    (dev_updated c (id * block_size c.(inner)) (zslice buffer 0 (block_size c.(inner)))).
Proof.
  intros Hok Hid Hlen. destruct (inner_geometry c Hok) as (Hbs & _). set (bs := block_size c.(inner)) in *.
  unfold runs at 1, cache_write_single_block. fold bs. replace (_ <? bs) with false by lia.
  replace (_ <=? id) with false by lia. set (b := zslice buffer 0 bs).
  assert (zlen b = bs) as Hb by (unfold b; rewrite zlen_zslice; lia).
  eapply runs_mbind; [apply (put_ensure c c id 0 b), put_nil, Hok|]. intros c1 (Hp & Hsz).
  pose proof (put_insert c c1 id 0 b Hok Hp Hsz) as Hi. fold bs in Hi.
  replace (block_slice bs b 0) with b in Hi by (unfold block_slice; rewrite Z.mul_0_l, zslice_all; [done|lia]).
  rewrite Z.add_0_r in Hi. eapply runs_mbind; [apply Hi; lia|]. intros c2 Hp2. apply runs_mret.
  by apply (put_updated c id 1); [done|lia|fold bs; lia|lia|].
Qed.

(** ** Flushing *)

(** A run holds the cached data of consecutive blocks. *)
Definition run_ok bs es (r : Z * list byte) : Prop :=
  ∃ n, 0 < n ∧ zlen r.2 = n * bs ∧
    ∀ j, 0 ≤ j < n → ∃ e, es !! (r.1 + j) = Some e ∧ block_slice bs r.2 j = e.(data).

Definition in_run bs (r : Z * list byte) (id : Z) : Prop := r.1 ≤ id < r.1 + zlen r.2 / bs.

Lemma run_ok_cons bs es s b e :
  0 < bs → es !! s = Some e → zlen e.(data) = bs → run_ok bs es (s + 1, b) →
  run_ok bs es (s, e.(data) ++ b).
Proof.
  intros Hbs He Hl (n & Hn & Hb & Hj). cbn [fst snd] in *. exists (n + 1). split; [lia|].
  cbn [fst snd]. split; [rewrite zlen_app; lia|]. intros j Hjr. unfold block_slice.
  destruct (decide (j = 0)) as [->|].
  - exists e. rewrite Z.add_0_r. split; [done|]. rewrite zslice_app_left by lia. apply zslice_all. lia.
  - destruct (Hj (j - 1)) as (e' & He' & Hd); [lia|]. exists e'. split; [by replace (s + j) with (s + 1 + (j - 1)) by lia|].
    rewrite <- Hd, zslice_app_right by nia. unfold block_slice. f_equal; lia.
Qed.

Lemma run_ok_single bs es s e :
  0 < bs → es !! s = Some e → zlen e.(data) = bs → run_ok bs es (s, e.(data)).
Proof.
  intros Hbs He Hl. exists 1. cbn [fst snd]. split; [lia|]. split; [lia|]. intros j Hj. exists e.
  replace j with 0 by lia. rewrite Z.add_0_r. split; [done|]. apply zslice_all. lia.
Qed.

Lemma add_to_runs_spec bs es id e rs :
  0 < bs → es !! id = Some e → zlen e.(data) = bs → Forall (run_ok bs es) rs →
  Forall (run_ok bs es) (add_to_runs es id rs) ∧
  (∀ j, j = id ∨ (∃ r, r ∈ rs ∧ in_run bs r j) → ∃ r, r ∈ add_to_runs es id rs ∧ in_run bs r j).
Proof.
  intros Hbs He Hl Hrs. assert (cached_data es id = e.(data)) as Hcd by (unfold cached_data; by rewrite He).
  assert (∀ b, zlen (e.(data) ++ b) / bs = 1 + zlen b / bs) as Hdiv.
  { intros b. rewrite zlen_app, Hl. replace (bs + zlen b) with (zlen b + 1 * bs) by lia.
    rewrite Z.div_add by lia. lia. }
  assert (∀ b : list byte, 0 ≤ zlen b / bs) as Hpos by (intros b; apply Z.div_pos; [apply zlen_nonneg|done]).
  assert (in_run bs (id, e.(data)) id) as Hself by (unfold in_run; cbn; rewrite Hl, Z.div_same; lia).
  unfold add_to_runs. rewrite Hcd. destruct rs as [|[s b] rest].
  - split; [constructor; [by apply run_ok_single|done]|]. intros j [->|(r & Hr & _)]; [|by apply elem_of_nil in Hr].
    eexists. split; [by apply list_elem_of_singleton|done].
  - apply Forall_cons in Hrs as [Hsb Hrest]. destruct (s =? id + 1) eqn:Hs.
    + apply Z.eqb_eq in Hs as ->. split; [constructor; [by apply run_ok_cons|done]|].
      intros j [->|(r & [->|Hr]%elem_of_cons & Hj)].
      * eexists. split; [apply elem_of_cons; by left|]. unfold in_run. cbn [fst snd]. rewrite Hdiv. specialize (Hpos b). lia.
      * eexists. split; [apply elem_of_cons; by left|]. unfold in_run in *. cbn [fst snd] in *. rewrite Hdiv. lia.
      * exists r. split; [apply elem_of_cons; by right|done].
    + split; [constructor; [by apply run_ok_single|by constructor]|].
      intros j [->|(r & Hr & Hj)]; [eexists; split; [apply elem_of_cons; by left|done]|].
      exists r. split; [apply elem_of_cons; by right|done].
Qed.

Lemma elem_of_dirty_blocks es id :
  id ∈ dirty_blocks es ↔ ∃ e, es !! id = Some e ∧ e.(dirty) = true.
Proof.
  unfold dirty_blocks. rewrite elem_of_sort_by, list_elem_of_fmap. split.
  - intros ([i e] & -> & Hin). rewrite list_elem_of_In in Hin. apply filter_In in Hin as [Hin Hd].
    apply list_elem_of_In, elem_of_btree_iter in Hin. by exists e.
  - intros (e & He & Hd). exists (id, e). split; [done|]. apply list_elem_of_In, filter_In. split; [|done].
    by apply list_elem_of_In, elem_of_btree_iter.
Qed.

Lemma collect_dirty_runs_spec c (bs := block_size c.(inner)) :
  cache_ok c →
  Forall (run_ok bs c.(entries)) (collect_dirty_runs c) ∧
  (∀ id, is_dirty c id → ∃ r, r ∈ collect_dirty_runs c ∧ in_run bs r id).
Proof.
  intros Hok. destruct (inner_geometry c Hok) as (Hbs & _). destruct Hok as (_ & _ & _ & _ & Hes).
  unfold collect_dirty_runs.
  assert (∀ id, is_dirty c id → id ∈ dirty_blocks c.(entries)) as Hd by (intros id Hdi; by apply elem_of_dirty_blocks).
  assert (∀ id, id ∈ dirty_blocks c.(entries) → ∃ e, c.(entries) !! id = Some e ∧ zlen e.(data) = bs) as Hids.
  { intros id (e & He & _)%elem_of_dirty_blocks. exists e. split; [done|]. by destruct (Hes id e He) as (_ & ? & _). }
  assert (Forall (run_ok bs c.(entries)) (foldr (add_to_runs c.(entries)) [] (dirty_blocks c.(entries))) ∧
    (∀ id, id ∈ dirty_blocks c.(entries) → ∃ r, r ∈ foldr (add_to_runs c.(entries)) [] (dirty_blocks c.(entries)) ∧ in_run bs r id))
    as [H1 H2]; [|split; [exact H1|intros id Hdi; apply H2, Hd, Hdi]].
  clear Hd. induction (dirty_blocks c.(entries)) as [|i l IH]; cbn [foldr].
  - split; [done|]. intros id Hid. by apply elem_of_nil in Hid.
  - destruct IH as [IHr IHc]; [intros id Hid; apply Hids, elem_of_cons; by right|].
    destruct (Hids i) as (e & He & Hl); [apply elem_of_cons; by left|].
    destruct (add_to_runs_spec bs c.(entries) i e _ Hbs He Hl IHr) as [Hr Hc]. split; [done|].
    intros id [->|Hid]%elem_of_cons; apply Hc; [by left|right; auto].
Qed.

Lemma lookup_mark_clean ids es j :
  foldr mark_clean es ids !! j = (if decide (j ∈ ids) then (λ e, mkEntry e.(data) false) <$> es !! j else es !! j).
Proof.
  induction ids as [|i ids IH]; cbn [foldr]; [done|]. unfold mark_clean at 1. rewrite lookup_alter.
  destruct (decide (i = j)) as [->|Hne].
  - rewrite (decide_True (P := j ∈ j :: ids)) by (apply elem_of_cons; by left).
    rewrite IH. destruct (decide (j ∈ ids)); [|done]. by destruct (es !! j).
  - rewrite IH. destruct (decide (j ∈ ids)); [by rewrite decide_True by (apply elem_of_cons; by right)|].
    rewrite decide_False; [done|]. by intros [->|?]%elem_of_cons.
Qed.

Lemma size_mark_clean ids es : size (foldr mark_clean es ids) = size es.
Proof.
  rewrite <- !size_dom. f_equal. induction ids as [|i ids IH]; cbn [foldr]; [done|].
  unfold mark_clean at 1. by rewrite dom_alter_L.
Qed.

(** Writing one run to the device and marking it clean. *)
Lemma flush_run_kept c r d (bs := block_size c.(inner)) :
  cache_ok c → run_ok bs c.(entries) r → dev_updated c.(inner) (r.1 * bs) r.2 d →
  let c' := with_cached (with_inner c d)
    (foldr mark_clean c.(entries) (seqZ r.1 (zlen r.2 / bs))) c.(lru) in
  kept c c' ∧ (∀ id, is_dirty c' id → ¬ in_run bs r id) ∧
  (∀ r', run_ok bs c.(entries) r' → run_ok bs c'.(entries) r').
Proof.
  intros Hok (n & Hn & Hlen & Hj) (Hd & Hc & [Hb Ht]) c'.
  destruct (inner_geometry c Hok) as (Hbs & _ & Hlc & _). fold bs in Hb, Hbs, Hlc.
  destruct Hok as (Hdo & Hm & Hra & Hsz & Hes).
  assert (zlen r.2 / bs = n) as En by (rewrite Hlen, Z.div_mul; lia).
  assert (∀ j, c'.(entries) !! j = if decide (r.1 ≤ j < r.1 + n)
    then (λ e, mkEntry e.(data) false) <$> c.(entries) !! j else c.(entries) !! j) as Hlook.
  { intros j. unfold c'. fields. rewrite lookup_mark_clean, En. apply decide_ext, elem_of_seqZ. }
  assert (0 ≤ r.1 ∧ r.1 + n ≤ total_blocks c.(inner)) as [Hr0 Hrn].
  { destruct (Hj 0) as (e0 & H1 & _); [lia|]. destruct (Hj (n - 1)) as (e1 & H2 & _); [lia|].
    apply Hes in H1 as (? & _). apply Hes in H2 as (? & _). lia. }
  assert (∀ j, 0 ≤ j < total_blocks c.(inner) → block_slice bs (contents d) j =
    if decide (r.1 ≤ j < r.1 + n) then block_slice bs r.2 (j - r.1) else inner_block c j) as Hblk.
  { intros j Hjt. rewrite Hc. apply (block_slice_zsplice bs Hbs); nia. }
  split; [|split].
  - split; [split; [done|split; [done|split; [done|split]]]|split; [done|split; [done|split]]].
    + unfold c'. fields. by rewrite size_mark_clean.
    + intros j e. rewrite Hlook. intros He. unfold inner_block, c'. fields. fold bs. rewrite Hb, Ht.
      assert (∃ e0, c.(entries) !! j = Some e0 ∧ e.(data) = e0.(data) ∧ (¬ (r.1 ≤ j < r.1 + n) → e = e0))
        as (e0 & He0 & Hdata & Hsame).
      { case_decide; [apply fmap_Some in He as (e0 & ? & ->)|]; eauto. by exists e0. }
      destruct (Hes j e0 He0) as (? & ? & Hcl & ?). rewrite Hdata. split; [done|]. split; [done|]. split; [|done].
      intros Hclean. rewrite Hblk by done. case_decide as Hin.
      * destruct (Hj (j - r.1)) as (e1 & He1 & Hd1); [lia|]. replace (r.1 + (j - r.1)) with j in He1 by lia. congruence.
      * rewrite (Hsame Hin) in Hclean. auto.
    + intros j Hjt. unfold shown_block. rewrite Hlook. unfold inner_block, c'. fields. rewrite Hb, Hblk by done.
      case_decide as Hin; [|done]. destruct (Hj (j - r.1)) as (e1 & He1 & Hd1); [lia|].
      replace (r.1 + (j - r.1)) with j in He1 by lia. by rewrite He1.
    + intros j (e & He & Hde). rewrite Hlook in He. case_decide; [|by exists e].
      apply fmap_Some in He as (e0 & ? & ->). done.
  - intros j (e & He & Hde) Hin. unfold in_run in Hin. rewrite En in Hin. rewrite Hlook, decide_True in He by done.
    apply fmap_Some in He as (e0 & ? & ->). done.
  - intros r' (n' & Hn' & Hl' & Hj'). exists n'. split; [done|]. split; [done|]. intros j Hjr.
    destruct (Hj' j Hjr) as (e & He & Hde). rewrite Hlook, He. case_decide; cbn; eauto.
Qed.

Lemma flush_runs_runs rs c0 c (bs := block_size c0.(inner)) :
  cache_ok c0 → kept c0 c → Forall (run_ok bs c.(entries)) rs →
  runs (flush_runs rs bs) c tt (λ c', kept c0 c' ∧
    ∀ id, is_dirty c' id → is_dirty c id ∧ ¬ ∃ r, r ∈ rs ∧ in_run bs r id).
Proof.
  intros Hok0. revert c. induction rs as [|r rs IH]; intros c Hk Hrs; cbn [flush_runs].
  - apply runs_mret. split; [done|]. intros id Hd. split; [done|]. intros (r & Hr & _). by apply elem_of_nil in Hr.
  - apply Forall_cons in Hrs as [Hr Hrs]. destruct r as [s b]. pose proof Hk as (Hok & [Hb Ht] & _).
    pose proof Hr as (n & Hn & Hlen & Hj). cbn [fst snd] in *. fold bs in Hb.
    assert (0 ≤ s ∧ s + n ≤ total_blocks c.(inner)) as [Hs0 Hsn].
    { destruct Hok as (_ & _ & _ & _ & Hes). destruct (Hj 0) as (e0 & H1 & _); [lia|].
      destruct (Hj (n - 1)) as (e1 & H2 & _); [lia|]. apply Hes in H1 as (? & _). apply Hes in H2 as (? & _). lia. }
    destruct (write_blocks_law c.(inner) s n b) as (d & Hw & Hu); [apply Hok|done|by rewrite Hb|done|].
    destruct (flush_run_kept c (s, b) d) as (Hk1 & Hnd & Hrok); [done|by rewrite Hb|exact Hu|].
    rewrite Hb in Hk1, Hnd, Hrok. cbn [fst snd] in *.
    set (c1 := with_cached _ _ _) in *. destruct (IH c1) as (c2 & Hf & Hk2 & Hd2);
      [by eapply kept_trans|eapply Forall_impl; [exact Hrs|exact Hrok]|].
    exists c2. split; [|split; [done|]].
    + unfold mbind, io_mbind, on_inner, mark_clean_range. rewrite Hw. exact Hf.
    + intros id Hdi. destruct (Hd2 id Hdi) as [Hd1 Hout]. split; [by apply Hk1|].
      intros (r & [->|Hin]%elem_of_cons & Hr'); [by apply (Hnd id Hd1)|]. apply Hout. eauto.
Qed.

Lemma all_clean_shown c : cache_ok c → (∀ id, ¬ is_dirty c id) → contents c.(inner) = shown c.
Proof.
  intros Hok Hnd. destruct (inner_geometry c Hok) as (Hbs & Ht & Hl & _).
  apply (block_lists_ext (block_size c.(inner)) Hbs) with (total_blocks c.(inner)); [done..|by apply zlen_shown|].
  intros id Hid. rewrite shown_slice by done. symmetry. by apply clean_shown.
Qed.

Lemma cache_flush_runs c :
  cache_ok c →
  runs cache_flush c tt (λ c', kept c c' ∧ (∀ id, ¬ is_dirty c' id) ∧ contents c'.(inner) = shown c).
Proof.
  intros Hok. destruct (collect_dirty_runs_spec c Hok) as [Hrs Hcov]. unfold runs, cache_flush.
  eapply runs_mbind; [apply (flush_runs_runs _ c c Hok (kept_refl c Hok) Hrs)|].
  intros c1 (Hk1 & Hd1). pose proof Hk1 as (Hok1 & _).
  assert (∀ id, ¬ is_dirty c1 id) as Hclean.
  { intros id Hd. destruct (Hd1 id Hd) as [Hd0 Hout]. by apply Hout, Hcov. }
  eapply on_inner_runs; [apply flush_law, Hok1|]. intros d Hds.
  assert (kept c1 (with_inner c1 d)) as Hk2 by by apply with_inner_kept.
  split; [by eapply kept_trans|]. split; [exact Hclean|].
  transitivity (contents c1.(inner)); [exact (proj1 (proj2 Hds))|].
  rewrite all_clean_shown by done. by apply kept_shown.
Qed.

(** ** The cache is lawful *)

#[export] Instance cached_single_laws : SingleBlockLaws Cache.
Proof.
  split.
  - intros c Hok. pose proof (inner_geometry c Hok) as (Hbs & Ht & Hl & Hm). cbn [contents cached_spec block_size total_blocks cached_device].
    rewrite zlen_shown by done. rewrite <- Hl. done.
  - intros c id len Hok Hid Hlen. eapply runs_weaken; [|intros c'; by apply kept_same].
    change (zslice (contents c) _ _) with (block_slice (block_size c.(inner)) (shown c) id).
    rewrite shown_slice by done. by apply cache_read_single_runs.
  - intros c id buffer Hok Hid Hlen. by apply cache_write_single_runs.
Qed.

#[export] Instance cached_laws : BlockDeviceLaws Cache.
Proof.
  split; [apply _|..].
  - intros c start n Hok Hs Hn Hin Hw. eapply runs_weaken; [|intros c'; by apply kept_same].
    by apply cache_read_blocks_runs.
  - intros c start n buffer Hok Hs Hl Hin. exact (cache_write_blocks_runs c start n buffer Hok Hs Hl Hin).
  - intros c Hok. eapply runs_weaken; [by apply cache_flush_runs|]. intros c' (Hk & _). by apply kept_same.
Qed.
End spec.

(** ** Where the cache loses data *)

Definition ex_disk2 : RamDisk := mkRamDisk (replicate 2048 x00).
Definition ones : list byte := replicate 1024 Byte.x01.

(** A read that misses before a dirty block fetches over it: the read-ahead replaces the
    dirty entry by the stale block of the device, marked clean.  The read returns the stale
    bytes, and the write is gone even after a flush. *)
Lemma readahead_loses_dirty_block :
  let c := (write_single_block 1 ones (cache_new ex_disk2)).2 in
  let '(r, c) := read_blocks 0 2048 c in
  r = Ok (replicate 2048 x00) ∧
  (read_single_block 1 1024 c).1 = Ok (replicate 1024 x00) ∧
  (flush c).2.(inner) = ex_disk2.
Proof. vm_compute. done. Qed.

(** A write back that fails during eviction has already dropped the block. *)
Lemma failed_eviction_loses_block {D} `{BlockDevice D} (c : CachedBlockDevice D) id e q err d :
  c.(max_entries) ≤ Z.of_nat (size c.(entries)) →
  take_eviction_candidate c.(lru) c.(entries) = (Some (id, e), delete id c.(entries), q) →
  e.(dirty) = true → write_single_block id e.(data) c.(inner) = (Err err, d) →
  ∃ c', ensure_capacity c = (Err err, c') ∧ c'.(entries) !! id = None ∧ c'.(inner) = d.
Proof.
  intros Hsz Ht Hd Hw. eexists. unfold ensure_capacity. cbn [ensure_capacity_loop].
  replace (_ <? _) with false by (symmetry; by apply Z.ltb_ge). rewrite Ht, Hd. unfold on_inner. fields. rewrite Hw. cbn.
  split; [done|]. split; [|done]. apply lookup_delete_eq.
Qed.

(** Every write of a block adds to the eviction queue, also of one that is cached. *)
Lemma queue_grows :
  let write c := (write_single_block 0 ones c).2 in
  let c := write (write (write (cache_new ex_disk2))) in
  size c.(entries) = 1%nat ∧ c.(lru) = [0; 0; 0].
Proof. vm_compute. done. Qed.

(** ** Properties *)

(** C23. The cache is the device it fronts: over an inner device that obeys the laws and reads
    whole runs ([whole]), single-block reads and writes and multi-block writes act on the
    contents that overlay the cached blocks on the device, whatever is evicted meanwhile; so
    do multi-block reads of a range without dirty blocks (with one:
    [readahead_loses_dirty_block]); and the cache stays within its bound. *)
Theorem cached_device_refines {D} `{BlockDeviceLaws D} (whole : ∀ (d : D) s n, reads_whole d s n)
  (c : CachedBlockDevice D) id (bs := block_size c) :
  cache_ok c → 0 ≤ id < total_blocks c →
  runs (read_single_block id bs) c (zslice (shown c) (id * bs) ((id + 1) * bs)) (dev_same c) ∧
  (∀ buffer, bs ≤ zlen buffer →
     runs (write_single_block id buffer) c bs (dev_updated c (id * bs) (zslice buffer 0 bs))) ∧
  (∀ n buffer, zlen buffer = n * bs → id + n ≤ total_blocks c →
     runs (write_blocks id buffer) c (zlen buffer) (dev_updated c (id * bs) buffer)) ∧
  (∀ n, 0 ≤ n → id + n ≤ total_blocks c → (∀ j, id ≤ j < id + n → ¬ is_dirty c j) →
     runs (read_blocks id (n * bs)) c (zslice (shown c) (id * bs) ((id + n) * bs)) (dev_same c)) ∧
  Z.of_nat (size c.(entries)) ≤ c.(max_entries).
Proof.
  intros Hok Hid. pose proof (cached_laws whole).
  split; [exact (read_single_law c id bs Hok Hid (Z.le_refl _))|].
  split; [intros buffer Hl; exact (write_single_law c id buffer Hok Hid Hl)|].
  split; [intros n buffer Hl Hn; exact (write_blocks_law c id n buffer Hok (proj1 Hid) Hl Hn)|].
  split; [intros n Hn Hin Hnd; exact (read_blocks_law c id n Hok (proj1 Hid) Hn Hin Hnd)|].
  by destruct Hok as (_ & _ & _ & ? & _).
Qed.

Lemma ramdisk_whole (d : RamDisk) s n : reads_whole d s n.
Proof. done. Qed.

Lemma new_cache_ok d max : zlen d.(disk) < 2 ^ 64 → cache_ok (with_capacity (d : RamDisk) max).
Proof.
  intros Hd. split; [done|]. cbn. split; [lia|]. split; [done|]. split; [rewrite map_size_empty; lia|done].
Qed.

(** A cache over two blocks of zeros whose block 1 was written and is dirty *)
Definition dirty_cache : CachedBlockDevice RamDisk := (write_single_block 1 ones (cache_new ex_disk2)).2.

Lemma dirty_cache_ok : cache_ok dirty_cache.
Proof.
  pose proof (cached_laws ramdisk_whole).
  destruct (write_single_law (cache_new ex_disk2) 1 ones) as (c' & Hw & Hc & _); [by apply new_cache_ok|done|done|].
  unfold dirty_cache. by rewrite Hw.
Qed.

Lemma cached_device_refines_witness :
  runs (read_single_block 1 1024) dirty_cache (zslice (shown dirty_cache) 1024 2048) (dev_same dirty_cache).
Proof.
  refine (proj1 (cached_device_refines ramdisk_whole dirty_cache 1 _ _)); [exact dirty_cache_ok|done].
Defined.

(** C34. A flush makes everything durable: afterwards no block is dirty, the inner device
    holds exactly the contents the cache showed, and the cache still shows them. *)
Theorem cache_flush_durable {D} `{BlockDeviceLaws D} (c : CachedBlockDevice D) :
  cache_ok c →
  runs flush c tt (λ c', (∀ id, ¬ is_dirty c' id) ∧ contents c'.(inner) = shown c ∧
    shown c' = shown c ∧ cache_ok c').
Proof.
  intros Hok. eapply runs_weaken; [by apply cache_flush_runs|]. intros c' (Hk & Hd & Hc).
  split; [done|]. split; [done|]. split; [by apply kept_shown|by destruct Hk].
Qed.

Lemma cache_flush_durable_witness :
  is_dirty dirty_cache 1 ∧
  runs flush dirty_cache tt (λ c', (∀ id, ¬ is_dirty c' id) ∧
    contents c'.(inner) = shown dirty_cache ∧ shown c' = shown dirty_cache ∧ cache_ok c').
Proof.
  split; [|exact (cache_flush_durable dirty_cache dirty_cache_ok)].
  exists (mkEntry ones true). by split.
Defined.
