(* ===== verification/FrameBoot.v ===== *)
(** * Frames at boot

    memory/paging.rs: the bootstrap allocator that hands out physical frames from the memory
    map of the boot loader, and the ranges that the run-time allocator is then given.

    The bootstrap allocator serves the kernel heap: it maps the first part of it, and keeps
    serving its growth later.  The run-time allocator must not own those frames, so it is
    built from a copy of the cursor that has skipped the frames reserved for the heap
    (memory/mod.rs [init]).  The buddy allocator behind it is a third-party crate: what it is
    given is the list of the [add_frame] calls.  A [while let] over the memory map is a
    recursion over the regions that remain. *)

From S2P Require Import Prelude.

Definition LOWER_MEMORY_END : Z := 1048576.
Definition AP_TRAMPOLINE_END : Z := 36864.
Definition FRAME_SIZE : Z := 4096.

Module MemoryRegionKind.
Inductive MemoryRegionKind : Type := Usable | Reserved.
End MemoryRegionKind.
Abbreviation MemoryRegionKind := MemoryRegionKind.MemoryRegionKind.

Record MemoryRegion := mkRegion { start : Z; end_ : Z; kind : MemoryRegionKind }.

Definition is_usable (r : MemoryRegion) : bool :=
  match r.(kind) with MemoryRegionKind.Usable => true | MemoryRegionKind.Reserved => false end.

Record BootstrapFrameAllocator := mkBootstrap {
  memory_map : list MemoryRegion;
  next_region_index : nat;
  next_frame_addr : Z;
}.

Definition align_up_4k (addr : Z) : Z := Z.land (uwrap 64 (addr + 4095)) (Z.lnot 4095).
Definition align_down_4k (addr : Z) : Z := Z.land addr (Z.lnot 4095).

Definition bootstrap_new (map : list MemoryRegion) : BootstrapFrameAllocator :=
  mkBootstrap map 0 LOWER_MEMORY_END.

(** The bounds of a region for the bootstrap allocator, and where it goes on in it. *)
Definition region_start (r : MemoryRegion) : Z := align_up_4k (Z.max r.(start) LOWER_MEMORY_END).
Definition region_end (r : MemoryRegion) : Z := align_down_4k r.(end_).

Definition resume_at (next start : Z) : Z :=
  if (next =? 0) || (next <? start) then start else next.

(** The loop of [next_usable_frame] over the regions from [index]: the frame, and the new
    cursor. *)
Fixpoint next_frame_loop (regions : list MemoryRegion) (index : nat) (next : Z)
  : option Z * (nat * Z) :=
  match regions with
  | [] => (None, (index, next))
  | r :: rest =>
      if negb (is_usable r) then next_frame_loop rest (S index) 0
      else if region_end r <=? region_start r then next_frame_loop rest (S index) 0
      else
        let addr := resume_at next (region_start r) in
        if region_end r <=? addr then next_frame_loop rest (S index) 0
        else (Some addr, (index, sat_add 64 addr FRAME_SIZE))
  end.

Definition with_cursor (a : BootstrapFrameAllocator) (cursor : nat * Z) : BootstrapFrameAllocator :=
  mkBootstrap a.(memory_map) cursor.1 cursor.2.

Definition next_usable_frame (a : BootstrapFrameAllocator) : option Z * BootstrapFrameAllocator :=
  let '(frame, cursor) :=
    next_frame_loop (drop a.(next_region_index) a.(memory_map)) a.(next_region_index) a.(next_frame_addr) in
  (frame, with_cursor a cursor).

(** The loop of [reserve_pages].  A region that is used up without filling the request is
    left at once, or, were its end not reached, in the next round, which finds no page.  A
    cursor beyond the end of its region would wrap in the code ([end - next_frame_addr]);
    [allocator_ok] below excludes it, and every operation keeps [allocator_ok]. *)
Fixpoint reserve_loop (regions : list MemoryRegion) (index : nat) (next pages : Z)
  : option unit * (nat * Z) :=
  match regions with
  | [] => (None, (index, next))
  | r :: rest =>
      if negb (is_usable r) then reserve_loop rest (S index) 0 pages
      else if region_end r <=? region_start r then reserve_loop rest (S index) 0 pages
      else
        let addr := resume_at next (region_start r) in
        let available_pages := (region_end r - addr) / FRAME_SIZE in
        if available_pages =? 0 then reserve_loop rest (S index) 0 pages
        else
          let consume_pages := Z.min available_pages pages in
          let next := sat_add 64 addr (consume_pages * FRAME_SIZE) in
          if pages - consume_pages =? 0 then (Some tt, (index, next))
          else reserve_loop rest (S index) 0 (pages - consume_pages)
  end.

Definition reserve_pages (pages : Z) (a : BootstrapFrameAllocator)
  : option unit * BootstrapFrameAllocator :=
  let '(r, cursor) :=
    reserve_loop (drop a.(next_region_index) a.(memory_map)) a.(next_region_index) a.(next_frame_addr) pages in
  (r, with_cursor a cursor).

Definition clone_after_reserving (bytes : Z) (a : BootstrapFrameAllocator)
  : option BootstrapFrameAllocator :=
  match reserve_pages (div_ceil bytes FRAME_SIZE) a with
  | (Some _, a) => Some a
  | (None, _) => None
  end.

(** [BootinfoFrameAllocator::new]: the frame ranges added, by frame number. *)
Definition free_range (cursor : BootstrapFrameAllocator) (index : nat) (r : MemoryRegion)
  : list (Z * Z) :=
  if negb (is_usable r) then []
  else
    let start := align_up_4k (Z.max r.(start) AP_TRAMPOLINE_END) in
    let end_ := align_down_4k r.(end_) in
    if end_ <=? start then []
    else if (index <? cursor.(next_region_index))%nat then []
    else
      let free_start :=
        if (index =? cursor.(next_region_index))%nat
        then Z.max start (align_up_4k cursor.(next_frame_addr)) else start in
      if free_start <? end_ then
        let start_frame := free_start / FRAME_SIZE in
        let end_frame := end_ / FRAME_SIZE in
        if start_frame <? end_frame then [(start_frame, end_frame)] else []
      else [].

Definition bootinfo_new (map : list MemoryRegion) (cursor : BootstrapFrameAllocator)
  : list (Z * Z) := concat (imap (free_range cursor) map).

(** ** Specification: the frames that are left *)

Definition aligned (addr : Z) : Prop := addr mod FRAME_SIZE = 0.

(** The frames between two aligned addresses. *)
Definition frames_from (addr hi : Z) : list Z :=
  (λ i, addr + i * FRAME_SIZE) <$> seqZ 0 ((hi - addr) / FRAME_SIZE).

Definition serves (r : MemoryRegion) : bool := is_usable r && (region_start r <? region_end r).

(** What the allocator will hand out when it goes on at [next] in the first region. *)
Fixpoint remaining (regions : list MemoryRegion) (next : Z) : list Z :=
  match regions with
  | [] => []
  | r :: rest =>
      (if serves r then frames_from (resume_at next (region_start r)) (region_end r) else []) ++
      remaining rest 0
  end.

Definition pending (a : BootstrapFrameAllocator) : list Z :=
  remaining (drop a.(next_region_index) a.(memory_map)) a.(next_frame_addr).

(** Physical addresses have at most 52 bits; usable regions come in order and do not overlap. *)
Definition region_ok (r : MemoryRegion) : Prop := 0 ≤ r.(start) < 2 ^ 52 ∧ 0 ≤ r.(end_) < 2 ^ 52.

Definition map_ok (map : list MemoryRegion) : Prop :=
  Forall region_ok map ∧
  StronglySorted (λ a b, is_usable a = true → is_usable b = true → a.(end_) ≤ b.(start)) map.

(** The cursor is inside the region it points at. *)
Definition cursor_ok (regions : list MemoryRegion) (next : Z) : Prop :=
  aligned next ∧
  match regions with
  | r :: _ => serves r = true → next ≤ region_end r
  | [] => True
  end.

(** The cursor stands in a region from which frames were served. *)
Definition live (regions : list MemoryRegion) (next : Z) : Prop :=
  match regions with
  | r :: _ => serves r = true ∧ region_start r ≤ next
  | [] => False
  end.

Definition allocator_ok (a : BootstrapFrameAllocator) : Prop :=
  map_ok a.(memory_map) ∧ cursor_ok (drop a.(next_region_index) a.(memory_map)) a.(next_frame_addr).

(** The frame numbers that the run-time allocator is given. *)
Definition handed_out (ranges : list (Z * Z)) : list Z :=
  concat ((λ range, seqZ range.1 (range.2 - range.1)) <$> ranges).

(** A whole frame of usable memory above the first MiB. *)
Definition usable_frame (map : list MemoryRegion) (f : Z) : Prop :=
  aligned f ∧ LOWER_MEMORY_END ≤ f ∧
  ∃ r, r ∈ map ∧ is_usable r = true ∧ r.(start) ≤ f ∧ f + FRAME_SIZE ≤ r.(end_).

(** ** Lemmas: alignment *)

Lemma align_down_spec a : align_down_4k a = a / FRAME_SIZE * FRAME_SIZE.
Proof.
  unfold align_down_4k, FRAME_SIZE. rewrite <- Z.ldiff_land. change 4095 with (Z.ones 12).
  rewrite Z.ldiff_ones_r, Z.shiftl_mul_pow2, Z.shiftr_div_pow2 by lia. done.
Qed.

Lemma align_up_spec a : 0 ≤ a < 2 ^ 63 → align_up_4k a = (a + 4095) / FRAME_SIZE * FRAME_SIZE.
Proof.
  intros Ha. unfold align_up_4k. rewrite uwrap_id by (split; lia). apply align_down_spec.
Qed.

(** Let [lia] reason about alignment. *)
#[local] Ltac align_lia := unfold aligned, FRAME_SIZE in *; Z.to_euclidean_division_equations; lia.

Lemma region_start_bounds r :
  region_ok r → aligned (region_start r) ∧ LOWER_MEMORY_END ≤ region_start r ∧ r.(start) ≤ region_start r ∧
  region_start r < 2 ^ 53.
Proof.
  intros [Hs _]. unfold region_start. rewrite align_up_spec by (unfold LOWER_MEMORY_END; lia).
  unfold LOWER_MEMORY_END in *. change (2 ^ 52) with 4503599627370496 in *. change (2 ^ 53) with 9007199254740992.
  split_and!; align_lia.
Qed.

Lemma region_end_bounds r :
  region_ok r → aligned (region_end r) ∧ 0 ≤ region_end r ≤ r.(end_).
Proof. intros [_ He]. unfold region_end. rewrite align_down_spec. split_and!; align_lia. Qed.

(** ** Lemmas: frames *)

Lemma frames_from_nil addr hi : hi ≤ addr → frames_from addr hi = [].
Proof.
  intros Hle. unfold frames_from. rewrite seqZ_nil; [done|]. align_lia.
Qed.

Lemma frames_from_cons addr hi :
  aligned addr → aligned hi → addr < hi →
  frames_from addr hi = addr :: frames_from (addr + FRAME_SIZE) hi.
Proof.
  intros Ha Hh Hlt. unfold frames_from. rewrite seqZ_cons by align_lia. rewrite fmap_cons.
  f_equal; [lia|]. replace (Z.pred ((hi - addr) / FRAME_SIZE)) with ((hi - (addr + FRAME_SIZE)) / FRAME_SIZE) by align_lia.
  change (Z.succ 0) with (1 + 0)%Z. rewrite <- fmap_add_seqZ, <- list_fmap_compose.
  apply list_fmap_ext. intros i x _. cbn. lia.
Qed.

Lemma length_frames_from addr hi :
  aligned addr → aligned hi → addr ≤ hi → zlen (frames_from addr hi) = (hi - addr) / FRAME_SIZE.
Proof.
  intros Ha Hh Hle. unfold zlen, frames_from. rewrite length_fmap, length_seqZ. align_lia.
Qed.

Lemma elem_of_frames_from addr hi f :
  aligned addr → aligned hi →
  f ∈ frames_from addr hi ↔ aligned f ∧ addr ≤ f ∧ f + FRAME_SIZE ≤ hi.
Proof.
  intros Ha Hh. unfold frames_from. rewrite list_elem_of_fmap. split.
  - intros (i & -> & Hi%elem_of_seqZ). split; [|split]; align_lia.
  - intros (Hf & Hlo & Hhi). exists ((f - addr) / FRAME_SIZE).
    split; [align_lia|]. apply elem_of_seqZ. align_lia.
Qed.

Lemma NoDup_frames_from addr hi : NoDup (frames_from addr hi).
Proof.
  unfold frames_from. apply NoDup_fmap_2; [|apply NoDup_seqZ].
  intros i j. unfold FRAME_SIZE. lia.
Qed.

Lemma drop_frames_from addr hi (n : nat) :
  aligned addr → aligned hi → addr + Z.of_nat n * FRAME_SIZE ≤ hi →
  drop n (frames_from addr hi) = frames_from (addr + Z.of_nat n * FRAME_SIZE) hi.
Proof.
  revert addr. induction n as [|n IH]; intros addr Ha Hh Hle.
  { replace (addr + Z.of_nat 0 * FRAME_SIZE) with addr by lia. done. }
  rewrite frames_from_cons by (unfold FRAME_SIZE in *; try align_lia; lia). cbn [drop].
  rewrite IH by align_lia. f_equal. unfold FRAME_SIZE. lia.
Qed.

(** ** Lemmas: the loops *)

Lemma aligned_0 : aligned 0.
Proof. done. Qed.

Lemma resume_at_id next start : 0 < next → start ≤ next → resume_at next start = next.
Proof.
  intros ??. unfold resume_at. replace (next =? 0) with false by lia.
  replace (next <? start) with false by lia. done.
Qed.

Lemma resume_at_bounds next start :
  0 < start → start ≤ resume_at next start ∧ (resume_at next start = start ∨ resume_at next start = next).
Proof. intros ?. unfold resume_at. destruct (Z.eqb_spec next 0), (Z.ltb_spec next start); cbn; lia. Qed.

(** A region from which frames are served: what the loops know of it. *)
Lemma resume_ok r rest next :
  region_ok r → cursor_ok (r :: rest) next → serves r = true →
  let addr := resume_at next (region_start r) in
  aligned addr ∧ aligned (region_end r) ∧ LOWER_MEMORY_END ≤ region_start r ≤ addr ∧
  addr ≤ region_end r < 2 ^ 52.
Proof.
  intros Hr [Ha Hle] Hs addr. destruct (region_start_bounds r Hr) as (Hsa & Hlo & _).
  destruct (region_end_bounds r Hr) as (Hea & _ & He). destruct Hr as [_ Hr].
  pose proof (resume_at_bounds next (region_start r)) as [Hge Hor]; [unfold LOWER_MEMORY_END in *; lia|].
  specialize (Hle Hs). unfold serves in Hs. apply andb_true_iff in Hs as [_ Hs]. apply Z.ltb_lt in Hs.
  fold addr in Hge, Hor. split; [destruct Hor as [-> | ->]; done|]. split; [done|].
  split; lia.
Qed.

Lemma next_frame_loop_cons r rest index next :
  next_frame_loop (r :: rest) index next =
  if serves r && (resume_at next (region_start r) <? region_end r) then
    (Some (resume_at next (region_start r)), (index, sat_add 64 (resume_at next (region_start r)) FRAME_SIZE))
  else next_frame_loop rest (S index) 0.
Proof.
  cbn [next_frame_loop]. unfold serves. destruct (is_usable r); cbn; [|done].
  rewrite !Z.leb_antisym. destruct (region_start r <? region_end r); cbn; [|done].
  destruct (resume_at next (region_start r) <? region_end r); done.
Qed.

Lemma reserve_loop_cons r rest index next pages :
  region_ok r → cursor_ok (r :: rest) next →
  reserve_loop (r :: rest) index next pages =
  let addr := resume_at next (region_start r) in
  if serves r && (addr <? region_end r) then
    let consumed := Z.min (zlen (frames_from addr (region_end r))) pages in
    if pages - consumed =? 0 then (Some tt, (index, sat_add 64 addr (consumed * FRAME_SIZE)))
    else reserve_loop rest (S index) 0 (pages - consumed)
  else reserve_loop rest (S index) 0 pages.
Proof.
  intros Hr Hc. cbn [reserve_loop].
  pose proof (resume_ok r rest next Hr Hc) as Hok. unfold serves in *.
  destruct (is_usable r); cbn in Hok |- *; [|done].
  rewrite Z.leb_antisym. destruct (region_start r <? region_end r); cbn; [|done].
  destruct Hok as (Ha & He & _ & Hle); [done|].
  rewrite length_frames_from by (done || lia).
  destruct (Z.ltb_spec (resume_at next (region_start r)) (region_end r)) as [Hlt|Hge].
  - replace ((region_end r - resume_at next (region_start r)) / FRAME_SIZE =? 0) with false by align_lia. done.
  - replace ((region_end r - resume_at next (region_start r)) / FRAME_SIZE =? 0) with true by align_lia. done.
Qed.

Lemma cursor_ok_next rest : Forall region_ok rest → cursor_ok rest 0.
Proof.
  intros Hok. split; [done|]. destruct Hok as [|r rest Hr _]; [done|].
  intros _. by apply region_end_bounds.
Qed.

Lemma remaining_skip r rest next :
  serves r && (resume_at next (region_start r) <? region_end r) = false →
  remaining (r :: rest) next = remaining rest 0.
Proof.
  intros Hs. cbn [remaining]. destruct (serves r); [|done]. cbn in Hs. apply Z.ltb_ge in Hs.
  by rewrite frames_from_nil.
Qed.

(** [n] frames of the region are taken. *)
Lemma remaining_take r rest next (n : nat) :
  region_ok r → cursor_ok (r :: rest) next → serves r = true →
  let addr := resume_at next (region_start r) in
  let next' := sat_add 64 addr (Z.of_nat n * FRAME_SIZE) in
  addr + Z.of_nat n * FRAME_SIZE ≤ region_end r →
  remaining (r :: rest) next' = drop n (remaining (r :: rest) next) ∧ cursor_ok (r :: rest) next' ∧
  region_start r ≤ next'.
Proof.
  intros Hr Hc Hs addr next' Hle. cbn [remaining]. rewrite Hs.
  destruct (resume_ok r rest next Hr Hc Hs) as (Ha & He & Hlo & Hhi). fold addr in Ha, Hlo, Hhi |- *.
  assert (next' = addr + Z.of_nat n * FRAME_SIZE) as Hn.
  { unfold next', sat_add. change (2 ^ 64 - 1) with 18446744073709551615.
    change (2 ^ 52) with 4503599627370496 in *. lia. }
  rewrite Hn. unfold LOWER_MEMORY_END in Hlo. rewrite resume_at_id by (unfold FRAME_SIZE; lia).
  split; [|split].
  - rewrite drop_app_le, drop_frames_from; [done..|].
    pose proof (length_frames_from addr (region_end r) Ha He ltac:(lia)) as Hlen. unfold zlen in Hlen. align_lia.
  - split; [align_lia|]. intros _. done.
  - unfold FRAME_SIZE. lia.
Qed.

Lemma next_frame_loop_spec regions index next :
  Forall region_ok regions → cursor_ok regions next →
  ∃ (k : nat) next',
    next_frame_loop regions index next = (head (remaining regions next), ((index + k)%nat, next')) ∧
    remaining (drop k regions) next' = tail (remaining regions next) ∧ cursor_ok (drop k regions) next'.
Proof.
  intros Hok. revert index next. induction Hok as [|r rest Hr Hrest IH]; intros index next Hc.
  { exists 0%nat, next. rewrite Nat.add_0_r. done. }
  rewrite next_frame_loop_cons. destruct (serves r && _) eqn:Htake.
  - apply andb_true_iff in Htake as [Hs Hlt%Z.ltb_lt].
    destruct (resume_ok r rest next Hr Hc Hs) as (Ha & He & _).
    destruct (remaining_take r rest next 1 Hr Hc Hs) as (Hrem & Hc' & _); [align_lia|].
    exists 0%nat. eexists. rewrite Nat.add_0_r. split; [|split; [exact Hrem || (rewrite Hrem; by destruct remaining)|done]].
    cbn [remaining]. rewrite Hs, frames_from_cons by done. done.
  - rewrite remaining_skip by done. destruct (IH (S index) 0 (cursor_ok_next rest Hrest)) as (k & next' & Heq & H).
    exists (S k), next'. rewrite Heq. rewrite Nat.add_succ_comm. done.
Qed.

Lemma reserve_loop_spec regions index next pages :
  0 ≤ pages → Forall region_ok regions → cursor_ok regions next →
  ∃ (k : nat) next',
    reserve_loop regions index next pages =
      (if Z.max 1 pages <=? zlen (remaining regions next) then Some tt else None, ((index + k)%nat, next')) ∧
    cursor_ok (drop k regions) next' ∧
    remaining (drop k regions) next' = drop (Z.to_nat pages) (remaining regions next) ∧
    (Z.max 1 pages ≤ zlen (remaining regions next) → live (drop k regions) next').
Proof.
  intros Hp Hok. revert index next pages Hp. induction Hok as [|r rest Hr Hrest IH]; intros index next pages Hp Hc.
  { exists 0%nat, next. rewrite Nat.add_0_r. cbn [remaining drop]. change (zlen []) with 0.
    replace (Z.max 1 pages <=? 0) with false by lia. split; [done|]. split; [done|].
    split; [by rewrite drop_nil|lia]. }
  rewrite reserve_loop_cons by done. cbn zeta. destruct (serves r && _) eqn:Htake.
  - apply andb_true_iff in Htake as [Hs Hlt%Z.ltb_lt]. destruct (resume_ok r rest next Hr Hc Hs) as (Ha & He & _).
    set (addr := resume_at next (region_start r)) in *.
    pose proof (length_frames_from addr (region_end r) Ha He ltac:(lia)) as Hlen.
    assert (1 ≤ zlen (frames_from addr (region_end r))) as Hone by align_lia.
    assert (zlen (frames_from addr (region_end r)) * FRAME_SIZE = region_end r - addr) as Hsize by align_lia.
    assert (remaining (r :: rest) next = frames_from addr (region_end r) ++ remaining rest 0) as Hrem.
    { cbn [remaining]. by rewrite Hs. }
    rewrite Hrem, zlen_app. pose proof (zlen_nonneg (remaining rest 0)) as Hnn.
    destruct (Z.eqb_spec (pages - Z.min (zlen (frames_from addr (region_end r))) pages) 0) as [Hdone|Hmore].
    + rewrite Z.min_r by lia. replace (Z.max 1 pages <=? _) with true by lia.
      destruct (remaining_take r rest next (Z.to_nat pages) Hr Hc Hs) as (Hrem' & Hc' & Hlive).
      { fold addr. rewrite Z2Nat.id by lia. unfold FRAME_SIZE in *. lia. }
      rewrite Z2Nat.id, Hrem in * by lia. fold addr in Hrem', Hc', Hlive.
      exists 0%nat. eexists. rewrite Nat.add_0_r. done.
    + destruct (IH (S index) 0 (pages - zlen (frames_from addr (region_end r))) ltac:(lia) (cursor_ok_next rest Hrest))
        as (k & next' & Heq & Hc' & Hrem' & Hlive).
      rewrite Z.min_l, Heq by lia. exists (S k), next'. rewrite Nat.add_succ_comm.
      split; [|split; [done|]; split; [|intros; apply Hlive; lia]].
      { set (n := zlen _) in *. by replace (Z.max 1 (pages - n) <=? _) with (Z.max 1 pages <=? n + zlen (remaining rest 0)) by lia. }
      cbn [drop]. rewrite Hrem', drop_app_ge by (unfold zlen in *; lia). f_equal. unfold zlen in *; lia.
  - rewrite remaining_skip by done.
    destruct (IH (S index) 0 pages Hp (cursor_ok_next rest Hrest)) as (k & next' & Heq & H).
    exists (S k), next'. rewrite Heq, Nat.add_succ_comm. done.
Qed.

(** ** Lemmas: what is pending *)

Lemma elem_of_remaining regions next f :
  Forall region_ok regions → cursor_ok regions next → f ∈ remaining regions next → usable_frame regions f.
Proof.
  intros Hok. revert next. induction Hok as [|r rest Hr Hrest IH]; intros next Hc; cbn [remaining].
  { by intros ?%not_elem_of_nil. }
  rewrite elem_of_app. intros [Hf|Hf].
  - destruct (serves r) eqn:Hs; [|by apply not_elem_of_nil in Hf].
    destruct (resume_ok r rest next Hr Hc Hs) as (Ha & He & Hlo & _).
    apply elem_of_frames_from in Hf as (Hfa & Hflo & Hfhi); [|done..].
    pose proof (region_start_bounds r Hr) as (_ & _ & Hst & _). pose proof (region_end_bounds r Hr) as (_ & _ & Hen).
    split; [done|]. split; [lia|]. exists r. split; [constructor|].
    unfold serves in Hs. apply andb_true_iff in Hs as [Hu _]. split; [done|]. lia.
  - destruct (IH 0 (cursor_ok_next rest Hrest) Hf) as (? & ? & r' & Hin & ?).
    split; [done|]. split; [done|]. exists r'. split; [by constructor|done].
Qed.

Lemma NoDup_remaining regions next : map_ok regions → cursor_ok regions next → NoDup (remaining regions next).
Proof.
  intros [Hok Hsort]. revert next Hok. induction Hsort as [|r rest Hsort IH Hr]; intros next Hok Hc; cbn [remaining].
  { constructor. }
  inversion Hok as [|? ? Hrok Hrest]; subst. apply NoDup_app. split; [|split].
  - destruct (serves r); [apply NoDup_frames_from|constructor].
  - intros f Hf Hf'. destruct (serves r) eqn:Hs; [|by apply not_elem_of_nil in Hf].
    destruct (resume_ok r rest next Hrok Hc Hs) as (Ha & He & _).
    apply elem_of_frames_from in Hf as (_ & _ & Hhi); [|done..].
    destruct (elem_of_remaining rest 0 f Hrest (cursor_ok_next rest Hrest) Hf') as (_ & _ & r' & Hin & Hu & Hlo & _).
    unfold serves in Hs. apply andb_true_iff in Hs as [Hu' _].
    rewrite Forall_forall in Hr. specialize (Hr r' Hin Hu' Hu).
    pose proof (region_end_bounds r Hrok) as (_ & _ & Hle). unfold FRAME_SIZE in *. lia.
  - by apply IH; [|apply cursor_ok_next].
Qed.

Lemma usable_frame_incl regions regions' f :
  regions ⊆ regions' → usable_frame regions f → usable_frame regions' f.
Proof.
  intros Hincl (Ha & Hlo & r & Hin & H). split; [done|]. split; [done|]. exists r. split; [by apply Hincl|done].
Qed.

Lemma map_ok_drop n regions : map_ok regions → map_ok (drop n regions).
Proof.
  intros [Hok Hsort]. split; [by apply Forall_drop|]. revert regions Hok Hsort.
  induction n as [|n IH]; intros [|r rest] Hok Hsort; [done|done|constructor|]. cbn [drop]. apply IH.
  - by inversion Hok.
  - exact (proj1 (StronglySorted_inv Hsort)).
Qed.

(** ** Lemmas: the ranges of the run-time allocator *)

Lemma range_frames lo hi :
  aligned lo → aligned hi →
  (λ p, p * FRAME_SIZE) <$> handed_out (if lo <? hi then [(lo / FRAME_SIZE, hi / FRAME_SIZE)] else []) = frames_from lo hi.
Proof.
  intros Hlo Hhi. destruct (Z.ltb_spec lo hi) as [Hlt|Hge]; [|by rewrite frames_from_nil].
  unfold handed_out, frames_from. cbn [concat fmap list_fmap fst snd]. rewrite app_nil_r.
  replace (hi / FRAME_SIZE - lo / FRAME_SIZE) with ((hi - lo) / FRAME_SIZE) by align_lia.
  replace (lo / FRAME_SIZE) with (lo / FRAME_SIZE + 0) by lia.
  rewrite <- fmap_add_seqZ, <- list_fmap_compose. apply list_fmap_ext. intros i x _. cbn. align_lia.
Qed.

Lemma handed_out_app xs ys : handed_out (xs ++ ys) = handed_out xs ++ handed_out ys.
Proof. unfold handed_out. by rewrite fmap_app, concat_app. Qed.

Lemma free_range_before c index r : (index < c.(next_region_index))%nat → free_range c index r = [].
Proof.
  intros Hlt. unfold free_range. destruct (is_usable r); cbn [negb]; [|done].
  destruct (_ <=? _); [done|]. by rewrite (proj2 (Nat.ltb_lt _ _) Hlt).
Qed.

(** The number test of [add_free_region] never fails on aligned bounds. *)
Lemma frame_numbers_lt lo hi :
  aligned lo → aligned hi → (lo <? hi) = true → (lo / FRAME_SIZE <? hi / FRAME_SIZE) = true.
Proof. intros ?? ?%Z.ltb_lt. apply Z.ltb_lt. align_lia. Qed.

(** The region of the cursor is given from the cursor on. *)
Lemma free_range_at c r rest :
  region_ok r → cursor_ok (r :: rest) c.(next_frame_addr) → live (r :: rest) c.(next_frame_addr) →
  (λ p, p * FRAME_SIZE) <$> handed_out (free_range c c.(next_region_index) r) =
  frames_from c.(next_frame_addr) (region_end r).
Proof.
  intros Hr [Ha Hle] [Hs Hge]. specialize (Hle Hs). pose proof (region_end_bounds r Hr) as (Hea & _ & He).
  rewrite <- range_frames by done. do 2 f_equal.
  unfold serves in Hs. apply andb_true_iff in Hs as [Hu Hlt%Z.ltb_lt].
  destruct Hr as [Hst Hen]. unfold free_range. rewrite Hu. cbn [negb]. rewrite Nat.ltb_irrefl, Nat.eqb_refl.
  fold (region_end r). change (2 ^ 52) with 4503599627370496 in *.
  assert (align_up_4k (Z.max (start r) AP_TRAMPOLINE_END) ≤ region_start r) as Hlow.
  { unfold region_start. rewrite !align_up_spec by (unfold AP_TRAMPOLINE_END, LOWER_MEMORY_END; lia).
    unfold AP_TRAMPOLINE_END, LOWER_MEMORY_END. align_lia. }
  replace (align_up_4k (next_frame_addr c)) with (next_frame_addr c).
  2:{ rewrite align_up_spec; [align_lia|]. unfold region_start in Hge.
      rewrite align_up_spec in Hge by (unfold LOWER_MEMORY_END; lia). unfold LOWER_MEMORY_END in *. align_lia. }
  set (lo := align_up_4k (Z.max _ _)) in *. rewrite Z.max_r by lia. replace (region_end r <=? lo) with false by lia.
  destruct (next_frame_addr c <? region_end r) eqn:Hc; [|done]. by rewrite frame_numbers_lt.
Qed.

(** A later region is given as a whole, and the bootstrap allocator would have served it so. *)
Lemma free_range_after c index r :
  region_ok r → (c.(next_region_index) < index)%nat → (is_usable r = true → LOWER_MEMORY_END ≤ r.(start)) →
  (λ p, p * FRAME_SIZE) <$> handed_out (free_range c index r) =
  if serves r then frames_from (region_start r) (region_end r) else [].
Proof.
  intros Hr Hlt Hlow. unfold free_range, serves. destruct (is_usable r); [|done]. specialize (Hlow eq_refl).
  pose proof (region_end_bounds r Hr) as (Hea & _ & He). pose proof (region_start_bounds r Hr) as (Hsa & _).
  cbn [negb]. fold (region_end r).
  replace (align_up_4k (Z.max (start r) AP_TRAMPOLINE_END)) with (region_start r).
  2:{ unfold region_start. unfold AP_TRAMPOLINE_END, LOWER_MEMORY_END in *. by rewrite !Z.max_l by lia. }
  rewrite (proj2 (Nat.ltb_ge index (next_region_index c))) by lia.
  rewrite (proj2 (Nat.eqb_neq index (next_region_index c))) by lia.
  rewrite Z.leb_antisym. destruct (region_start r <? region_end r) eqn:Hne; cbn; [|done].
  rewrite frame_numbers_lt by done. rewrite <- range_frames, Hne by done. done.
Qed.

Lemma free_ranges_after c base regions :
  Forall region_ok regions → (c.(next_region_index) < base)%nat →
  Forall (λ r, is_usable r = true → LOWER_MEMORY_END ≤ r.(start)) regions →
  (λ p, p * FRAME_SIZE) <$> handed_out (concat (imap (λ i, free_range c (base + i)) regions)) = remaining regions 0.
Proof.
  intros Hok Hlt Hlow. revert base Hlt. induction Hok as [|r rest Hr Hrest IH]; intros base Hlt; [done|].
  inversion Hlow as [|? ? Hl Hl']; subst. cbn [imap concat remaining].
  rewrite handed_out_app, fmap_app, Nat.add_0_r, free_range_after by (done || lia). f_equal.
  rewrite <- (IH Hl' (S base)) by lia. do 3 f_equal. apply imap_ext. intros i x _. cbn. f_equal. lia.
Qed.

Lemma handed_out_pending map c :
  map_ok map → c.(memory_map) = map →
  cursor_ok (drop c.(next_region_index) map) c.(next_frame_addr) →
  live (drop c.(next_region_index) map) c.(next_frame_addr) →
  (λ p, p * FRAME_SIZE) <$> handed_out (bootinfo_new map c) = pending c.
Proof.
  intros Hmap Hcm Hc Hlive. unfold pending, bootinfo_new. rewrite Hcm.
  pose proof (map_ok_drop c.(next_region_index) map Hmap) as [Hok Hsort].
  destruct (drop (next_region_index c) map) as [|r rest] eqn:Hdrop; [done|].
  assert (length (take (next_region_index c) map) = next_region_index c) as Hlen.
  { rewrite length_take_le; [done|]. apply (f_equal length) in Hdrop. rewrite length_drop in Hdrop. cbn in Hdrop. lia. }
  rewrite <- (take_drop (next_region_index c) map) at 1. rewrite Hdrop, imap_app, concat_app, handed_out_app.
  rewrite Hlen. cbn [imap concat]. rewrite Nat.add_0_r, handed_out_app, !fmap_app.
  inversion Hok as [|? ? Hr Hrest]; subst. apply StronglySorted_inv in Hsort as [_ Hafter].
  rewrite (free_range_at c r rest) by done. destruct Hlive as [Hs Hge].
  destruct (region_start_bounds r Hr) as (_ & Hlo & _). pose proof (region_end_bounds r Hr) as (_ & _ & He).
  cbn [remaining]. rewrite Hs, resume_at_id by (unfold LOWER_MEMORY_END in *; lia).
  rewrite <- (free_ranges_after c (S (next_region_index c)) rest Hrest).
  - replace (concat (imap (free_range c) (take (next_region_index c) (memory_map c)))) with (@nil (Z * Z)).
    + cbn. do 4 f_equal. apply imap_ext. intros i x _. cbn. f_equal. lia.
    + symmetry. apply concat_nil_Forall, Forall_forall. intros x (i & y & -> & Hy)%elem_of_lookup_imap_1.
      apply free_range_before. apply lookup_lt_Some in Hy. lia.
  - lia.
  - unfold serves in Hs. apply andb_true_iff in Hs as [Hu Hlt%Z.ltb_lt].
    rewrite Forall_forall in Hafter |- *. intros x Hx Hux. specialize (Hafter x Hx Hu Hux). lia.
Qed.

(** ** Properties *)

Lemma with_cursor_drop a k next' :
  drop (with_cursor a (next_region_index a + k, next')%nat).(next_region_index) a.(memory_map) =
  drop k (drop a.(next_region_index) a.(memory_map)).
Proof. by rewrite drop_drop. Qed.

Lemma allocator_regions a :
  allocator_ok a → Forall region_ok (drop a.(next_region_index) a.(memory_map)).
Proof. intros [[Hok _] _]. by apply Forall_drop. Qed.

Lemma bootstrap_new_ok map : map_ok map → allocator_ok (bootstrap_new map).
Proof.
  intros Hmap. split; [done|]. split; [done|]. destruct Hmap as [Hok _]. cbn.
  destruct Hok as [|r rest Hr _]; [done|]. unfold serves. intros [_ Hs%Z.ltb_lt]%andb_true_iff.
  destruct (region_start_bounds r Hr) as (_ & Hlo & _). lia.
Qed.

(** The bootstrap allocator hands out the pending frames in order: [next_usable_frame]
    answers the first of them, if any, and leaves the others; [reserve_pages n] succeeds
    exactly when there are [n] of them (one at least), and skips as many.  Both keep the
    cursor well formed. *)
Lemma bootstrap_enumerates a n :
  allocator_ok a → 0 ≤ n →
  (let '(frame, a') := next_usable_frame a in
   frame = head (pending a) ∧ pending a' = tail (pending a) ∧ allocator_ok a' ∧
   a'.(memory_map) = a.(memory_map)) ∧
  (let '(r, a') := reserve_pages n a in
   r = (if Z.max 1 n <=? zlen (pending a) then Some tt else None) ∧
   pending a' = drop (Z.to_nat n) (pending a) ∧ allocator_ok a' ∧ a'.(memory_map) = a.(memory_map)).
Proof.
  intros Ha Hn. pose proof (allocator_regions a Ha) as Hok. destruct Ha as [Hmap Hc]. split.
  - unfold next_usable_frame, pending, allocator_ok.
    destruct (next_frame_loop_spec _ a.(next_region_index) _ Hok Hc) as (k & next' & -> & Hrem & Hc').
    rewrite <- (with_cursor_drop a k next') in Hrem, Hc'. done.
  - unfold reserve_pages, pending, allocator_ok.
    destruct (reserve_loop_spec _ a.(next_region_index) _ n Hn Hok Hc) as (k & next' & -> & Hc' & Hrem & _).
    rewrite <- (with_cursor_drop a k next') in Hrem, Hc'. done.
Qed.

(** C35. The heap and the run-time allocator share no frame.  The frames that the bootstrap
    allocator has left are distinct whole frames of usable memory; when the cursor was copied
    after [bytes] were reserved, the ranges given to the run-time allocator are exactly those
    frames without the first [div_ceil bytes 4096], which the heap keeps to itself. *)
Theorem heap_backing_split a bytes cursor :
  allocator_ok a → 0 ≤ bytes → clone_after_reserving bytes a = Some cursor →
  let reserved := Z.to_nat (div_ceil bytes FRAME_SIZE) in
  (reserved ≤ length (pending a))%nat ∧
  NoDup (pending a) ∧ Forall (usable_frame a.(memory_map)) (pending a) ∧
  (λ p, p * FRAME_SIZE) <$> handed_out (bootinfo_new a.(memory_map) cursor) = drop reserved (pending a).
Proof.
  intros Ha Hb Hclone reserved. pose proof (allocator_regions a Ha) as Hok. destruct Ha as [Hmap Hc].
  assert (0 ≤ div_ceil bytes FRAME_SIZE) as Hn by (unfold div_ceil; align_lia).
  unfold clone_after_reserving, reserve_pages in Hclone.
  destruct (reserve_loop_spec _ a.(next_region_index) _ _ Hn Hok Hc) as (k & next' & Heq & Hc' & Hrem & Hlive).
  rewrite Heq in Hclone. destruct (Z.leb_spec (Z.max 1 (div_ceil bytes FRAME_SIZE)) (zlen (pending a))) as [Hle|Hgt].
  2:{ unfold pending in Hgt. rewrite (proj2 (Z.leb_gt _ _) Hgt) in Hclone. done. }
  unfold pending in Hle. rewrite (proj2 (Z.leb_le _ _) Hle) in Hclone. specialize (Hlive Hle). simplify_eq.
  split; [unfold reserved, pending, zlen in *; lia|]. split.
  { by apply NoDup_remaining; [apply map_ok_drop|]. }
  split.
  { apply Forall_forall. intros f Hf. eapply usable_frame_incl; [apply subseteq_drop|].
    by eapply elem_of_remaining. }
  rewrite <- (with_cursor_drop a k next') in Hc', Hrem, Hlive. rewrite handed_out_pending by done. exact Hrem.
Qed.

Definition sample_map : list MemoryRegion :=
  [ mkRegion 4096 654336 MemoryRegionKind.Usable; mkRegion 654336 1048576 MemoryRegionKind.Reserved;
    mkRegion 1048576 1060864 MemoryRegionKind.Usable; mkRegion 2096128 2109440 MemoryRegionKind.Usable ].

Lemma sample_map_ok : map_ok sample_map.
Proof.
  split; [repeat constructor; cbn; lia|].
  repeat constructor; cbn; lia || done.
Qed.

Lemma sample_pending :
  pending (bootstrap_new sample_map) = [1048576; 1052672; 1056768; 2097152; 2101248; 2105344].
Proof. reflexivity. Qed.

Lemma bootstrap_enumerates_witness :
  (next_usable_frame (bootstrap_new sample_map)).1 = Some 1048576 ∧
  (reserve_pages 4 (bootstrap_new sample_map)).1 = Some tt ∧
  pending (reserve_pages 4 (bootstrap_new sample_map)).2 = [2101248; 2105344].
Proof.
  destruct (bootstrap_enumerates (bootstrap_new sample_map) 4) as [Hnext Hres];
    [apply bootstrap_new_ok, sample_map_ok|lia|].
  split; [exact (proj1 Hnext)|]. split; [exact (proj1 Hres)|exact (proj1 (proj2 Hres))].
Defined.

Lemma heap_backing_split_witness :
  ∃ cursor, clone_after_reserving 8193 (bootstrap_new sample_map) = Some cursor ∧
    (λ p, p * FRAME_SIZE) <$> handed_out (bootinfo_new sample_map cursor) = [2097152; 2101248; 2105344].
Proof.
  eexists. split; [reflexivity|].
  refine (proj2 (proj2 (proj2 (heap_backing_split (bootstrap_new sample_map) 8193 _ _ _ eq_refl)))).
  - apply bootstrap_new_ok, sample_map_ok.
  - lia.
Defined.
