(* ===== verification/Tmpfs.v ===== *)
(** * Temporary file system: state and operations

    [TmpfsState] (filesystem/tmpfs/state.rs): the table from path strings to inodes, the
    inodes, and the operations that create, delete, link and rename.  A directory keeps the
    names of its children, and every path below it has an entry of its own in the table, so
    the two must agree; a node lives as long as a path or an open handle refers to it.  The
    owner of the calling process and the time of creation are arguments.

    A handle (filesystem/tmpfs/fs.rs, directory.rs, file.rs) refers to a directory by path
    and to a file by inode.  The theorems are in TmpfsTree (each operation on the tree) and
    TmpfsProps (reachable states, and file contents through handles). *)

From S2P Require Import Prelude.
From S2P Require Import Errors.
From S2P Require Import SparseFile.
From S2P Require Import FsPath.

Open Scope string_scope.
Open Scope list_scope.
Open Scope Z_scope.

Definition ROOT_INODE : Z := 1879048192.
Definition DEFAULT_DIR_MODE : Z := 493.
Definition DEFAULT_FILE_MODE : Z := 420.
Definition S_IFMT : Z := 61440.

(** ** Data *)

Record TmpfsQuota := mkQuota {
  block_hardlimit : Z; block_softlimit : Z; inode_hardlimit : Z; inode_softlimit : Z;
  current_space : Z; current_inodes : Z; block_time : Z; inode_time : Z; valid : Z;
}.

Record FileTimes := mkTimes {
  btime_sec : Z; btime_nsec : Z; atime_sec : Z; atime_nsec : Z;
  mtime_sec : Z; mtime_nsec : Z; ctime_sec : Z; ctime_nsec : Z;
}.

Module TmpNodeKind.
Inductive TmpNodeKind : Type :=
  | Directory (children : gset string) (mode : Z)
  | File (data : SparseFileData) (mode rdev : Z)
  | Device (mode rdev : Z)
  | Symlink (target : string).
End TmpNodeKind.
Abbreviation TmpNodeKind := TmpNodeKind.TmpNodeKind.

Record TmpNode := mkNode {
  inode : Z;
  node_uid : Z;
  node_gid : Z;
  link_count : Z;
  open_count : Z;
  times : FileTimes;
  xattrs : gmap string (list byte);
  file_attributes : Z;
  kind : TmpNodeKind;
}.

Record TmpfsState := mkTmpfs {
  next_inode : Z;
  paths : gmap string Z;
  nodes : gmap Z TmpNode;
  user_quotas : gmap Z TmpfsQuota;
  group_quotas : gmap Z TmpfsQuota;
  project_quotas : gmap Z TmpfsQuota;
}.

(** Updates of one field. *)
Definition with_kind (n : TmpNode) (k : TmpNodeKind) : TmpNode :=
  mkNode n.(inode) n.(node_uid) n.(node_gid) n.(link_count) n.(open_count) n.(times) n.(xattrs) n.(file_attributes) k.
Definition with_link_count (n : TmpNode) (c : Z) : TmpNode :=
  mkNode n.(inode) n.(node_uid) n.(node_gid) c n.(open_count) n.(times) n.(xattrs) n.(file_attributes) n.(kind).
Definition with_open_count (n : TmpNode) (c : Z) : TmpNode :=
  mkNode n.(inode) n.(node_uid) n.(node_gid) n.(link_count) c n.(times) n.(xattrs) n.(file_attributes) n.(kind).
Definition with_owner (n : TmpNode) (uid gid : Z) : TmpNode :=
  mkNode n.(inode) uid gid n.(link_count) n.(open_count) n.(times) n.(xattrs) n.(file_attributes) n.(kind).
Definition with_times (n : TmpNode) (t : FileTimes) : TmpNode :=
  mkNode n.(inode) n.(node_uid) n.(node_gid) n.(link_count) n.(open_count) t n.(xattrs) n.(file_attributes) n.(kind).
Definition with_xattrs (n : TmpNode) (x : gmap string (list byte)) : TmpNode :=
  mkNode n.(inode) n.(node_uid) n.(node_gid) n.(link_count) n.(open_count) n.(times) x n.(file_attributes) n.(kind).
Definition with_attributes (n : TmpNode) (a : Z) : TmpNode :=
  mkNode n.(inode) n.(node_uid) n.(node_gid) n.(link_count) n.(open_count) n.(times) n.(xattrs) a n.(kind).
Definition with_paths (st : TmpfsState) (ps : gmap string Z) : TmpfsState :=
  mkTmpfs st.(next_inode) ps st.(nodes) st.(user_quotas) st.(group_quotas) st.(project_quotas).
Definition with_nodes (st : TmpfsState) (ns : gmap Z TmpNode) : TmpfsState :=
  mkTmpfs st.(next_inode) st.(paths) ns st.(user_quotas) st.(group_quotas) st.(project_quotas).

Definition is_directory (n : TmpNode) : bool :=
  match n.(kind) with TmpNodeKind.Directory _ _ => true | _ => false end.

(** ** Strings *)

(** [str::strip_prefix]; [str::starts_with] is whether it answers. *)
Fixpoint str_strip_prefix (prefix s : string) : option string :=
  match prefix, s with
  | EmptyString, _ => Some s
  | String c prefix', String d s' => if Ascii.eqb c d then str_strip_prefix prefix' s' else None
  | String _ _, EmptyString => None
  end.

Definition str_starts_with (s prefix : string) : bool :=
  match str_strip_prefix prefix s with Some _ => true | None => false end.

Definition tmpfs_normalize (path : string) : string :=
  if String.eqb path "" || String.eqb path "/" then "/"
  else as_string (normalize (Path_new path)).

Definition child_path (parent name : string) : string :=
  if String.eqb parent "/" then ("/" +:+ name)%stdpp else (parent +:+ "/" +:+ name)%stdpp.

Definition split_path (path : string) : result FSError (string * string) :=
  let path := tmpfs_normalize path in
  if String.eqb path "/" then Err FSError.AccessDenied
  else
    let path := Path_new path in
    match parent path with
    | None => Err FSError.NotFound
    | Some parent =>
        match file_name path with
        | None => Err FSError.NotFound
        | Some name => Ok (as_string parent, name)
        end
    end.

(** ** Access to nodes *)

Definition tmpfs_new (now : FileTimes) : TmpfsState :=
  mkTmpfs (ROOT_INODE + 1) {[ "/" := ROOT_INODE ]}
    {[ ROOT_INODE := mkNode ROOT_INODE 0 0 1 0 now ∅ 0 (TmpNodeKind.Directory ∅ DEFAULT_DIR_MODE) ]}
    ∅ ∅ ∅.

Definition inode_for_path (st : TmpfsState) (path : string) : result FSError Z :=
  ok_or (st.(paths) !! path) FSError.NotFound.

Definition node_by_inode (st : TmpfsState) (i : Z) : result FSError TmpNode :=
  ok_or (st.(nodes) !! i) FSError.NotFound.

Definition node (st : TmpfsState) (path : string) : result FSError TmpNode :=
  i ← inode_for_path st path; node_by_inode st i.

(** A change through [node_by_inode_mut]; [f] may refuse. *)
Definition update_node (st : TmpfsState) (i : Z) (f : TmpNode → result FSError TmpNode)
  : result FSError unit * TmpfsState :=
  try n := node_by_inode st i with st in
  try n := f n with st in
  (Ok tt, with_nodes st (<[i := n]> st.(nodes))).

(** A change of the set that [directory_children_mut] lends. *)
Definition update_children (st : TmpfsState) (path : string) (f : gset string → gset string)
  : result FSError unit * TmpfsState :=
  try i := inode_for_path st path with st in
  try n := node_by_inode st i with st in
  match n.(kind) with
  | TmpNodeKind.Directory children mode =>
      (Ok tt, with_nodes st (<[i := with_kind n (TmpNodeKind.Directory (f children) mode)]> st.(nodes)))
  | _ => (Err FSError.NotADirectory, st)
  end.

(** The test [let _ = self.directory_children_mut(path)?]. *)
Definition check_directory (st : TmpfsState) (path : string) : result FSError unit :=
  n ← node st path; if is_directory n then Ok tt else Err FSError.NotADirectory.

(** ** Creation *)

Definition create_node (st : TmpfsState) (owner : Z * Z) (now : FileTimes) (parent name : string)
  (k : TmpNodeKind) : result FSError unit * TmpfsState :=
  let parent := tmpfs_normalize parent in
  let child := child_path parent name in
  match st.(paths) !! child with
  | Some _ => (Err FSError.AlreadyExists, st)
  | None =>
      try p := node st parent with st in
      let parent_gid := p.(node_gid) in
      match p.(kind) with
      | TmpNodeKind.Directory _ mode =>
          let parent_setgid := negb (Z.land mode 1024 =? 0) in
          let i := st.(next_inode) in
          let st := mkTmpfs (i + 1) st.(paths) st.(nodes) st.(user_quotas) st.(group_quotas) st.(project_quotas) in
          let '(uid, gid) := owner in
          let gid := if parent_setgid then parent_gid else gid in
          let k := match k with
                   | TmpNodeKind.Directory children mode =>
                       if parent_setgid then TmpNodeKind.Directory children (Z.lor mode 1024) else k
                   | _ => k
                   end in
          let st := with_paths st (<[child := i]> st.(paths)) in
          let st := with_nodes st (<[i := mkNode i uid gid 1 0 now ∅ 0 k]> st.(nodes)) in
          update_children st parent (λ c, {[name]} ∪ c)
      | _ => (Err FSError.NotADirectory, st)
      end
  end.

Definition create_file (st : TmpfsState) (owner : Z * Z) (now : FileTimes) (parent name : string)
  (mode rdev : Z) : result FSError unit * TmpfsState :=
  let k := if (Z.land mode S_IFMT =? 8192) || (Z.land mode S_IFMT =? 24576)
           then TmpNodeKind.Device mode rdev
           else TmpNodeKind.File sparse_new mode rdev in
  create_node st owner now parent name k.

Definition create_directory (st : TmpfsState) (owner : Z * Z) (now : FileTimes) (parent name : string)
  (mode : Z) : result FSError unit * TmpfsState :=
  create_node st owner now parent name (TmpNodeKind.Directory ∅ (Z.land mode 4095)).

Definition create_symlink (st : TmpfsState) (owner : Z * Z) (now : FileTimes) (parent name target : string)
  : result FSError unit * TmpfsState :=
  create_node st owner now parent name (TmpNodeKind.Symlink target).

(** ** Deletion, and the references of open handles *)

Definition delete_node (st : TmpfsState) (parent name : string) : result FSError unit * TmpfsState :=
  let parent := tmpfs_normalize parent in
  let child := child_path parent name in
  try i := inode_for_path st child with st in
  try n := node_by_inode st i with st in
  bail FSError.DirectoryNotEmpty when
    match n.(kind) with
    | TmpNodeKind.Directory children _ => negb (bool_decide (children = ∅))
    | _ => false
    end with st;
  let remove_node := n.(link_count) =? 1 in
  bail FSError.Other when negb remove_node && (n.(link_count) <? 1) with st;
  let st := if remove_node then st
            else with_nodes st (<[i := with_link_count n (n.(link_count) - 1)]> st.(nodes)) in
  let st := with_paths st (delete child st.(paths)) in
  let '(r, st) := update_children st parent (λ c, c ∖ {[name]}) in
  try _ := r with st in
  if remove_node then
    try n := node_by_inode st i with st in
    if n.(open_count) =? 0 then (Ok tt, with_nodes st (delete i st.(nodes)))
    else (Ok tt, with_nodes st (<[i := with_link_count n 0]> st.(nodes)))
  else (Ok tt, st).

Definition retain_inode (st : TmpfsState) (i : Z) : result FSError unit * TmpfsState :=
  update_node st i (λ n,
    c ← ok_or (checked_add 64 n.(open_count) 1) FSError.Other;
    Ok (with_open_count n c)).

Definition release_inode (st : TmpfsState) (i : Z) : result FSError unit * TmpfsState :=
  try n := node_by_inode st i with st in
  try c := ok_or (checked_sub n.(open_count) 1) FSError.Other with st in
  let n := with_open_count n c in
  let st := with_nodes st (<[i := n]> st.(nodes)) in
  if (n.(open_count) =? 0) && (n.(link_count) =? 0)
  then (Ok tt, with_nodes st (delete i st.(nodes))) else (Ok tt, st).

Definition delete_path (st : TmpfsState) (path : string) : result FSError unit * TmpfsState :=
  try pn := split_path path with st in
  delete_node st pn.1 pn.2.

(** ** Links and renaming *)

Definition link_inode (st : TmpfsState) (i : Z) (new_path : string) : result FSError unit * TmpfsState :=
  let new_path := tmpfs_normalize new_path in
  bail FSError.AccessDenied when String.eqb new_path "/" with st;
  bail FSError.AlreadyExists when bool_decide (is_Some (st.(paths) !! new_path)) with st;
  try n := node_by_inode st i with st in
  bail FSError.Other when
    match n.(kind) with
    | TmpNodeKind.File _ _ _ | TmpNodeKind.Device _ _ => false
    | _ => true
    end with st;
  try pn := split_path new_path with st in
  try _ := check_directory st pn.1 with st in
  let st := with_paths st (<[new_path := i]> st.(paths)) in
  let '(r, st) := update_children st pn.1 (λ c, {[pn.2]} ∪ c) in
  try _ := r with st in
  update_node st i (λ n,
    c ← ok_or (checked_add 64 n.(link_count) 1) FSError.Other;
    Ok (with_link_count n c)).

Definition link (st : TmpfsState) (old_path new_path : string) : result FSError unit * TmpfsState :=
  let old_path := tmpfs_normalize old_path in
  try i := inode_for_path st old_path with st in
  link_inode st i new_path.

(** The paths that move with [old_path].  The code visits them in the order of the table;
    they are distinct, so the order does not matter. *)
Definition moved_paths (ps : gmap string Z) (old_path : string) : list string :=
  filter (λ path, path = old_path ∨ str_starts_with path (old_path +:+ "/")%stdpp = true)
         (map_to_list ps).*1.

(** The first loop: take the entries out, with their suffixes. *)
Fixpoint take_moved (ps : gmap string Z) (old_path : string) (moved : list string)
  (acc : list (string * Z)) : result FSError (list (string * Z)) * gmap string Z :=
  match moved with
  | [] => (Ok acc, ps)
  | path :: moved =>
      match str_strip_prefix old_path path with
      | None => (Err FSError.Other, ps)
      | Some suffix =>
          match ps !! path with
          | None => (Err FSError.NotFound, ps)
          | Some i => take_moved (delete path ps) old_path moved (acc ++ [(suffix, i)])
          end
      end
  end.

(** The second loop: put them back below [new_path]. *)
Definition put_moved (new_path : string) (moved : list (string * Z)) (ps : gmap string Z) : gmap string Z :=
  foldl (λ ps si, <[ (new_path +:+ si.1)%stdpp := si.2 ]> ps) ps moved.

(** The moves of [rename], once the target is out of the way. *)
Definition move_paths (st : TmpfsState) (old_path new_path old_parent old_name new_parent new_name : string)
  : result FSError unit * TmpfsState :=
  let '(r, ps) := take_moved st.(paths) old_path (moved_paths st.(paths) old_path) [] in
  let st := with_paths st ps in
  try moved_nodes := r with st in
  let '(r, st) := update_children st old_parent (λ c, c ∖ {[old_name]}) in
  try _ := r with st in
  let '(r, st) := update_children st new_parent (λ c, {[new_name]} ∪ c) in
  try _ := r with st in
  (Ok tt, with_paths st (put_moved new_path moved_nodes st.(paths))).

Definition rename (st : TmpfsState) (old_path new_path : string) : result FSError unit * TmpfsState :=
  let old_path := tmpfs_normalize old_path in
  let new_path := tmpfs_normalize new_path in
  if String.eqb old_path new_path then (Ok tt, st)
  else
  bail FSError.AccessDenied when String.eqb old_path "/" || String.eqb new_path "/" with st;
  try old := split_path old_path with st in
  try new := split_path new_path with st in
  try source := node st old_path with st in
  let source_is_dir := is_directory source in
  bail FSError.AccessDenied when source_is_dir && str_starts_with new_path (old_path +:+ "/")%stdpp with st;
  try _ := check_directory st old.1 with st in
  try _ := check_directory st new.1 with st in
  match node st new_path with
  | Ok target =>
      let target_is_dir := is_directory target in
      bail FSError.NotADirectory when source_is_dir && negb target_is_dir with st;
      bail FSError.NotAFile when negb source_is_dir && target_is_dir with st;
      let '(r, st) := delete_path st new_path in
      try _ := r with st in
      move_paths st old_path new_path old.1 old.2 new.1 new.2
  | Err _ => move_paths st old_path new_path old.1 old.2 new.1 new.2
  end.

(** ** Attributes *)

Definition update_owner_by_inode (st : TmpfsState) (i uid gid : Z) : result FSError unit * TmpfsState :=
  update_node st i (λ n,
    Ok (with_owner n (if uid =? 2 ^ 32 - 1 then n.(node_uid) else uid)
                     (if gid =? 2 ^ 32 - 1 then n.(node_gid) else gid))).

Definition update_times_by_inode (st : TmpfsState) (i : Z) (t : FileTimes) : result FSError unit * TmpfsState :=
  update_node st i (λ n, Ok (with_times n t)).

Definition get_file_attributes (st : TmpfsState) (i : Z) : result FSError Z :=
  n ← node_by_inode st i; Ok n.(file_attributes).

Definition set_file_attributes (st : TmpfsState) (i a : Z) : result FSError unit * TmpfsState :=
  update_node st i (λ n, Ok (with_attributes n a)).

Definition xattr (st : TmpfsState) (i : Z) (name : string) : option (list byte) :=
  n ← st.(nodes) !! i; n.(xattrs) !! name.

Definition set_xattr (st : TmpfsState) (i : Z) (name : string) (value : list byte) (create replace : bool)
  : result FSError unit * TmpfsState :=
  update_node st i (λ n,
    let exists_ := bool_decide (is_Some (n.(xattrs) !! name)) in
    if create && exists_ then Err FSError.AlreadyExists
    else if replace && negb exists_ then Err FSError.NotFound
    else Ok (with_xattrs n (<[name := value]> n.(xattrs)))).

Definition remove_xattr (st : TmpfsState) (i : Z) (name : string) : result FSError unit * TmpfsState :=
  update_node st i (λ n,
    match n.(xattrs) !! name with
    | Some _ => Ok (with_xattrs n (delete name n.(xattrs)))
    | None => Err FSError.NotFound
    end).

(** [chmod] of a file or device through its inode. *)
Definition new_mode (old mode : Z) : Z :=
  if negb (Z.land mode S_IFMT =? 0) then mode
  else Z.lor (Z.land old S_IFMT) (Z.land mode 4095).

Definition update_file_mode_by_inode (st : TmpfsState) (i mode : Z) : result FSError unit * TmpfsState :=
  update_node st i (λ n,
    match n.(kind) with
    | TmpNodeKind.File data old rdev => Ok (with_kind n (TmpNodeKind.File data (new_mode old mode) rdev))
    | TmpNodeKind.Device old rdev => Ok (with_kind n (TmpNodeKind.Device (new_mode old mode) rdev))
    | _ => Err FSError.NotAFile
    end).

(** [chmod] of a directory through its handle (directory.rs). *)
Definition directory_chmod (st : TmpfsState) (path : string) (mode : Z) : result FSError unit * TmpfsState :=
  try i := inode_for_path st path with st in
  update_node st i (λ n,
    match n.(kind) with
    | TmpNodeKind.Directory children _ => Ok (with_kind n (TmpNodeKind.Directory children (Z.land mode 4095)))
    | _ => Err FSError.NotADirectory
    end).

Definition quota_map (st : TmpfsState) (quota_type : Z) : option (gmap Z TmpfsQuota) :=
  if quota_type =? 0 then Some st.(user_quotas)
  else if quota_type =? 1 then Some st.(group_quotas)
  else if quota_type =? 2 then Some st.(project_quotas)
  else None.

Definition quota (st : TmpfsState) (quota_type id : Z) : option TmpfsQuota :=
  m ← quota_map st quota_type; m !! id.

Definition set_quota (st : TmpfsState) (quota_type id : Z) (q : TmpfsQuota) : bool * TmpfsState :=
  let ins := λ m : gmap Z TmpfsQuota, <[id := q]> m in
  if quota_type =? 0 then
    (true, mkTmpfs st.(next_inode) st.(paths) st.(nodes) (ins st.(user_quotas)) st.(group_quotas) st.(project_quotas))
  else if quota_type =? 1 then
    (true, mkTmpfs st.(next_inode) st.(paths) st.(nodes) st.(user_quotas) (ins st.(group_quotas)) st.(project_quotas))
  else if quota_type =? 2 then
    (true, mkTmpfs st.(next_inode) st.(paths) st.(nodes) st.(user_quotas) st.(group_quotas) (ins st.(project_quotas)))
  else (false, st).

(** ** Lookup by path (filesystem/tmpfs/fs.rs) *)

Definition relative_components (p : Path) : list string :=
  omap as_normal_name (normalize p).(parts).

Definition absolute_tmp_path (p : Path) : string :=
  match relative_components p with
  | [] => "/"
  | parts => ("/" +:+ join_slash parts)%stdpp
  end.

(** What a lookup hands out: a handle by path, or by inode with a reference to it. *)
Module FileLike.
Inductive FileLike : Type :=
  | Directory (path : string)
  | File (path : string) (inode : Z)
  | DeviceFile (path : string) (inode rdev : Z)
  | Symlink (path : string).
End FileLike.
Abbreviation FileLike := FileLike.FileLike.

Definition tmpfs_lookup_path (st : TmpfsState) (path : string) : result FSError FileLike * TmpfsState :=
  let path := tmpfs_normalize path in
  try n := node st path with st in
  let i := n.(inode) in
  match n.(kind) with
  | TmpNodeKind.Directory _ _ => (Ok (FileLike.Directory path), st)
  | TmpNodeKind.Symlink _ => (Ok (FileLike.Symlink path), st)
  | TmpNodeKind.File _ _ _ | TmpNodeKind.Device _ _ =>
      let '(r, st) := retain_inode st i in
      try _ := r with st in
      try n := node_by_inode st i with st in
      match n.(kind) with
      | TmpNodeKind.Device _ rdev => (Ok (FileLike.DeviceFile path i rdev), st)
      | _ => (Ok (FileLike.File path i), st)
      end
  end.

(** [contents] of a directory handle (directory.rs): the names with their inodes. *)
Definition directory_contents (st : TmpfsState) (path : string) : result FSError (list (string * Z)) :=
  n ← node st path;
  match n.(kind) with
  | TmpNodeKind.Directory children _ =>
      foldr (λ child acc,
        c ← node st (child_path path child); l ← acc; Ok ((child, c.(inode)) :: l))
        (Ok []) (elements children)
  | _ => Err FSError.NotADirectory
  end.

(** ** Directory and symlink handles (directory.rs, symlink.rs)

    A handle by path finds the inode first, at every call. *)
Definition path_inode (st : TmpfsState) (path : string) : result FSError Z :=
  n ← node st path; Ok n.(inode).

Module DirectoryContentType.
Inductive DirectoryContentType : Type := File | Directory | Symlink.
End DirectoryContentType.
Abbreviation DirectoryContentType := DirectoryContentType.DirectoryContentType.

(** The part of [DirectoryContentInfo] that a creation reads. *)
Record DirectoryContentInfo := mkContentInfo {
  content_name : string;
  content_type : DirectoryContentType;
  permission : option Z;
  content_rdev : Z;
}.

Definition directory_create (st : TmpfsState) (owner : Z * Z) (now : FileTimes) (path : string)
    (info : DirectoryContentInfo) : result FSError unit * TmpfsState :=
  match info.(content_type) with
  | DirectoryContentType.File =>
      create_file st owner now path info.(content_name) (default DEFAULT_FILE_MODE info.(permission)) info.(content_rdev)
  | DirectoryContentType.Directory =>
      create_directory st owner now path info.(content_name) (default DEFAULT_DIR_MODE info.(permission))
  | DirectoryContentType.Symlink => (Err FSError.Readonly, st)
  end.

Definition directory_get (st : TmpfsState) (path name : string) : result FSError FileLike * TmpfsState :=
  tmpfs_lookup_path st (child_path path name).

Definition path_chown (st : TmpfsState) (path : string) (uid gid : Z) : result FSError unit * TmpfsState :=
  try i := path_inode st path with st in update_owner_by_inode st i uid gid.

Definition path_set_times (st : TmpfsState) (path : string) (t : FileTimes) : result FSError unit * TmpfsState :=
  try i := path_inode st path with st in update_times_by_inode st i t.

Definition path_get_xattr (st : TmpfsState) (path name : string) : result FSError (option (list byte)) :=
  i ← path_inode st path; Ok (xattr st i name).

Definition path_set_xattr (st : TmpfsState) (path name : string) (value : list byte) (create replace : bool)
  : result FSError unit * TmpfsState :=
  try i := path_inode st path with st in set_xattr st i name value create replace.

Definition path_remove_xattr (st : TmpfsState) (path name : string) : result FSError unit * TmpfsState :=
  try i := path_inode st path with st in remove_xattr st i name.

Definition read_link_target (st : TmpfsState) (path : string) : result FSError string :=
  n ← node st path;
  match n.(kind) with TmpNodeKind.Symlink target => Ok target | _ => Err FSError.NotASymlink end.

Definition symlink_target (st : TmpfsState) (path : string) : result FSError Path :=
  n ← node st path;
  match n.(kind) with TmpNodeKind.Symlink target => Ok (Path_new target) | _ => Err FSError.NotASymlink end.

(** ** File handles (filesystem/tmpfs/file.rs) *)

Record TmpfsFileHandle := mkHandle { handle_path : string; handle_inode : Z; offset : Z }.

Definition file_handle_new (path : string) (i : Z) : TmpfsFileHandle := mkHandle path i 0.

Module Whence.
Inductive Whence : Type := Start | Current | End_ | Data | Hole.
End Whence.
Abbreviation Whence := Whence.Whence.

(** The [match] on the node that every data operation starts with. *)
Definition file_data (n : TmpNode) : result FSError SparseFileData :=
  match n.(kind) with TmpNodeKind.File data _ _ => Ok data | _ => Err FSError.NotAFile end.

Definition with_data (n : TmpNode) (data : SparseFileData) : TmpNode :=
  match n.(kind) with
  | TmpNodeKind.File _ mode rdev => with_kind n (TmpNodeKind.File data mode rdev)
  | _ => n
  end.

(** [read_at]: the count, and the caller's buffer afterwards. *)
Definition file_read_at (st : TmpfsState) (h : TmpfsFileHandle) (buffer : list byte) (off : Z)
  : result FSError (Z * list byte) :=
  n ← node_by_inode st h.(handle_inode);
  data ← file_data n;
  Ok (read_at data buffer off).

Definition file_read (st : TmpfsState) (h : TmpfsFileHandle) (buffer : list byte)
  : result FSError (Z * list byte) * TmpfsFileHandle :=
  match file_read_at st h buffer h.(offset) with
  | Err e => (Err e, h)
  | Ok (read, buffer) => (Ok (read, buffer), mkHandle h.(handle_path) h.(handle_inode) (h.(offset) + read))
  end.

Definition file_write (st : TmpfsState) (h : TmpfsFileHandle) (buffer : list byte)
  : result FSError Z * TmpfsFileHandle * TmpfsState :=
  match (n ← node_by_inode st h.(handle_inode); data ← file_data n; Ok (n, data)) with
  | Err e => (Err e, h, st)
  | Ok (n, data) =>
      let '(written, data) := write_at data h.(offset) buffer in
      (Ok written,
       mkHandle h.(handle_path) h.(handle_inode) (sat_add 64 h.(offset) written),
       with_nodes st (<[h.(handle_inode) := with_data n data]> st.(nodes)))
  end.

(** The arithmetic is that of [i64]: it wraps. *)
Definition file_seek (st : TmpfsState) (h : TmpfsFileHandle) (off : Z) (whence : Whence)
  : result FSError Z * TmpfsFileHandle :=
  match (n ← node_by_inode st h.(handle_inode); data ← file_data n; Ok (swrap 64 data.(len))) with
  | Err e => (Err e, h)
  | Ok n =>
      let next :=
        match whence with
        | Whence.Start => Ok off
        | Whence.Current => Ok (swrap 64 (swrap 64 h.(offset) + off))
        | Whence.End_ => Ok (swrap 64 (n + off))
        | Whence.Data => if (off <? 0) || (n <=? off) then Err FSError.Other else Ok off
        | Whence.Hole => if (off <? 0) || (n <? off) then Err FSError.Other else Ok n
        end in
      match next with
      | Err e => (Err e, h)
      | Ok next => if next <? 0 then (Err FSError.InvalidArguments, h)
                   else (Ok next, mkHandle h.(handle_path) h.(handle_inode) next)
      end
  end.

(** A change of the data through [node_by_inode_mut]. *)
Definition update_data (st : TmpfsState) (i : Z) (f : SparseFileData → SparseFileData)
  : result FSError unit * TmpfsState :=
  update_node st i (λ n, data ← file_data n; Ok (with_data n (f data))).

Definition file_truncate (st : TmpfsState) (h : TmpfsFileHandle) (length : Z) : result FSError unit * TmpfsState :=
  update_data st h.(handle_inode) (λ data, truncate data length).

(** [FallocateMode] as bits. *)
Definition FALLOC_FL_KEEP_SIZE : Z := 1.
Definition FALLOC_FL_PUNCH_HOLE : Z := 2.
Definition FALLOC_UNSUPPORTED : Z := 8 + 16 + 32 + 64.

Definition file_allocate (st : TmpfsState) (h : TmpfsFileHandle) (mode off n : Z) : result FSError unit * TmpfsState :=
  try end_ := ok_or (checked_add 64 off n) FSError.Other with st in
  let punch_hole := FALLOC_FL_KEEP_SIZE + FALLOC_FL_PUNCH_HOLE in
  bail FSError.InvalidArguments when
    (Z.land mode FALLOC_FL_PUNCH_HOLE =? FALLOC_FL_PUNCH_HOLE) && negb (mode =? punch_hole) with st;
  bail FSError.OperationNotSupported when mode =? punch_hole with st;
  bail FSError.OperationNotSupported when negb (Z.land mode FALLOC_UNSUPPORTED =? 0) with st;
  update_data st h.(handle_inode) (λ data,
    if Z.land mode FALLOC_FL_KEEP_SIZE =? FALLOC_FL_KEEP_SIZE then data else ensure_len data end_).

Definition file_link_to (st : TmpfsState) (h : TmpfsFileHandle) (new_path : Path) : result FSError unit * TmpfsState :=
  link_inode st h.(handle_inode) (as_string (normalize new_path)).

Definition file_chmod (st : TmpfsState) (h : TmpfsFileHandle) (mode : Z) : result FSError unit * TmpfsState :=
  if negb (Z.land mode S_IFMT =? 0) then update_file_mode_by_inode st h.(handle_inode) mode
  else update_file_mode_by_inode st h.(handle_inode) (Z.land mode 4095).

(** [Drop]: the error of the release is ignored. *)
Definition file_drop (st : TmpfsState) (h : TmpfsFileHandle) : TmpfsState :=
  (release_inode st h.(handle_inode)).2.

(** ** What [stat] reads (filesystem/info.rs) *)

Module FileLikeType.
Inductive FileLikeType : Type := File | Directory | Symlink.
End FileLikeType.
Abbreviation FileLikeType := FileLikeType.FileLikeType.

Record FileLikeInfo := mkInfo {
  info_name : string; info_size : Z; info_inode : Z; info_uid : Z; info_gid : Z;
  info_nlink : Z; info_rdev : Z; info_times : FileTimes;
  file_like_type : FileLikeType; info_permission : Z;
}.

Definition node_name (path : string) : string :=
  if String.eqb path "/" then ""
  else match last (split_slash path) with
       | Some name => if String.eqb name "" then "run" else name
       | None => "run"
       end.

(** [FileLikeInfo::new] with the owner, inode, links and times of a node. *)
Definition info_of (name : string) (n : TmpNode) (size mode rdev : Z) (t : FileLikeType) : FileLikeInfo :=
  mkInfo name size n.(inode) n.(node_uid) n.(node_gid) n.(link_count) rdev n.(times) t mode.

Definition directory_info (st : TmpfsState) (path : string) : result FSError FileLikeInfo :=
  n ← node st path;
  match n.(kind) with
  | TmpNodeKind.Directory _ mode => Ok (info_of (node_name path) n 0 mode 0 FileLikeType.Directory)
  | _ => Err FSError.NotADirectory
  end.

Definition symlink_info (st : TmpfsState) (path : string) : result FSError FileLikeInfo :=
  n ← node st path;
  match n.(kind) with
  | TmpNodeKind.Symlink target =>
      Ok (info_of (node_name path) n (Z.of_nat (String.length target)) 511 0 FileLikeType.Symlink)
  | _ => Err FSError.NotASymlink
  end.

Definition file_info (st : TmpfsState) (h : TmpfsFileHandle) : result FSError FileLikeInfo :=
  n ← node_by_inode st h.(handle_inode);
  match n.(kind) with
  | TmpNodeKind.File data mode rdev => Ok (info_of (node_name h.(handle_path)) n data.(len) mode rdev FileLikeType.File)
  | TmpNodeKind.Device mode rdev => Ok (info_of (node_name h.(handle_path)) n 0 mode rdev FileLikeType.File)
  | _ => Err FSError.NotAFile
  end.

(** The mode of [LinuxStat::new]: the type bits are added where there are none. *)
Definition st_mode (info : FileLikeInfo) : Z :=
  if Z.land info.(info_permission) S_IFMT =? 0 then
    Z.lor info.(info_permission)
      match info.(file_like_type) with
      | FileLikeType.File => 32768
      | FileLikeType.Directory => 16384
      | FileLikeType.Symlink => 40960
      end
  else info.(info_permission).
