(* ===== verification/TmpfsTree.v ===== *)
(** * Temporary file system: the tree

    The table of paths of Tmpfs and the children of its directories describe one tree.
    Paths are lists of names here ([tmp_path] is their text), [tmpfs_ok] is the invariant,
    and each operation on the tree is characterised: what it answers, what the table then
    says, and that the invariant is kept. *)

From S2P Require Import Prelude.
From S2P Require Import Errors.
From S2P Require Import SparseFile.
From S2P Require Import FsPath.
From S2P Require Import Tmpfs.

Open Scope string_scope.
Open Scope list_scope.
Open Scope Z_scope.

(** ** Paths as lists of names *)

(** A name that a directory entry can have. *)
Definition good_name (n : string) : Prop := parsed_part (PathPart.Normal n).

Abbreviation good := (Forall good_name).

Fixpoint text (cs : list string) : string :=
  match cs with
  | [] => ""
  | c :: cs => String slash (c +:+ text cs)%stdpp
  end.

(** The table key of the file with these names. *)
Definition tmp_path (cs : list string) : string :=
  match cs with [] => "/" | _ => text cs end.

(** ** Lemmas: strings *)

#[local] Arguments Ascii.eqb : simpl never.
#[local] Arguments slash : simpl never.

Lemma text_app cs ds : text (cs ++ ds) = (text cs +:+ text ds)%stdpp.
Proof.
  induction cs as [|c cs IH]; [done|]. cbn [app text]. rewrite IH.
  change (String slash ?x +:+ ?y)%stdpp with (String slash (x +:+ y)%stdpp). by rewrite string_app_assoc.
Qed.

Lemma text_join cs : cs ≠ [] → text cs = ("/" +:+ join_slash cs)%stdpp.
Proof.
  intros Hne. induction cs as [|c cs IH]; [done|]. destruct cs as [|d cs].
  { cbn [text]. by rewrite string_app_nil_r. }
  rewrite join_slash_cons by done. cbn [text] in *. rewrite IH by done. done.
Qed.

Lemma tmp_path_text cs : cs ≠ [] → tmp_path cs = text cs.
Proof. by destruct cs. Qed.

Lemma good_parts cs :
  good cs → Forall (λ part, parsed_part part ∧ part ≠ PathPart.Root) (map PathPart.Normal cs).
Proof. induction 1 as [|c cs Hc _ IH]; cbn; constructor; [done|done]. Qed.

Lemma map_part_string cs : map part_string (map PathPart.Normal cs) = cs.
Proof. induction cs as [|c cs IH]; [done|]. cbn. by rewrite IH. Qed.

Definition path_of (cs : list string) : Path := mkPath (PathPart.Root :: map PathPart.Normal cs) false.

Lemma Path_new_tmp_path cs : good cs → Path_new (tmp_path cs) = path_of cs.
Proof.
  intros Hcs. destruct cs as [|c cs]; [done|]. rewrite tmp_path_text, text_join by done.
  pose proof (Path_new_printed true (map PathPart.Normal (c :: cs)) false) as H.
  rewrite map_part_string, string_app_nil_r in H. apply H; [|done].
  eapply List.Forall_impl; [|by apply good_parts]. by intros ? [? _].
Qed.

Lemma as_string_path_of cs : good cs → as_string (path_of cs) = tmp_path cs.
Proof.
  intros Hcs. destruct cs as [|c cs]; [done|]. rewrite tmp_path_text, text_join by done.
  pose proof (as_string_body true (map PathPart.Normal (c :: cs)) false) as H.
  rewrite map_part_string, string_app_nil_r in H. apply H; [by apply good_parts|done].
Qed.

Lemma normalize_path_of cs : normalize (path_of cs) = path_of cs.
Proof.
  destruct (resolve_canon true 0 cs false) as [Ha Hr]; [done|].
  change (mkPath (canon true 0 cs) false) with (path_of cs) in Ha, Hr.
  pose proof (normalize_parts (path_of cs)) as Hp. rewrite Ha, Hr in Hp.
  unfold normalize in *. cbn [parts] in Hp. rewrite Hp. done.
Qed.

Lemma tmpfs_normalize_id cs : good cs → tmpfs_normalize (tmp_path cs) = tmp_path cs.
Proof.
  intros Hcs. unfold tmpfs_normalize. destruct cs as [|c cs]; [done|].
  rewrite Path_new_tmp_path, normalize_path_of, as_string_path_of by done.
  by destruct (String.eqb_spec (tmp_path (c :: cs)) "/") as [->|].
Qed.

Lemma tmp_path_inj cs ds : good cs → good ds → tmp_path cs = tmp_path ds → cs = ds.
Proof.
  intros Hcs Hds Heq. apply (f_equal Path_new) in Heq. rewrite !Path_new_tmp_path in Heq by done.
  unfold path_of in Heq. injection Heq as Heq. clear Hcs Hds. revert ds Heq.
  induction cs as [|c cs IH]; intros [|d ds] Heq; try done. injection Heq as -> Heq. f_equal. by apply IH.
Qed.

Lemma tmp_path_root cs : good cs → tmp_path cs = "/" ↔ cs = [].
Proof.
  intros Hcs. split; [|by intros ->]. intros H. by apply (tmp_path_inj cs []).
Qed.

Lemma child_path_snoc cs n : good cs → good_name n → child_path (tmp_path cs) n = tmp_path (cs ++ [n]).
Proof.
  intros Hcs Hn. unfold child_path. rewrite (tmp_path_text (cs ++ [n])) by (by destruct cs).
  rewrite text_app. destruct cs as [|c cs]; [cbn; by rewrite string_app_nil_r|].
  destruct (String.eqb_spec (tmp_path (c :: cs)) "/") as [H|_].
  { apply tmp_path_root in H; done. }
  rewrite tmp_path_text by done. cbn [text]. by rewrite string_app_nil_r.
Qed.

Lemma normalized_parent cs n : parent (path_of (cs ++ [n])) = Some (path_of cs).
Proof.
  unfold parent. rewrite normalize_path_of. unfold path_of at 1.
  rewrite decide_False by (cbn; by destruct cs). cbn [parts path_of].
  rewrite map_app. cbn [map rev]. rewrite rev_app_distr. cbn [rev app pop_through_normal].
  by rewrite rev_app_distr, rev_involutive.
Qed.

Lemma normalized_file_name cs n : file_name (path_of (cs ++ [n])) = Some n.
Proof.
  unfold file_name. rewrite normalize_path_of. cbn [parts path_of]. rewrite map_app.
  cbn [map rev]. rewrite rev_app_distr. done.
Qed.

Lemma split_path_snoc cs n : good (cs ++ [n]) → split_path (tmp_path (cs ++ [n])) = Ok (tmp_path cs, n).
Proof.
  intros Hg. unfold split_path. rewrite tmpfs_normalize_id by done.
  destruct (String.eqb_spec (tmp_path (cs ++ [n])) "/") as [H|_].
  { apply tmp_path_root in H; [by destruct cs|done]. }
  rewrite Path_new_tmp_path, normalized_parent, normalized_file_name by done.
  apply Forall_app in Hg as [Hcs _]. by rewrite as_string_path_of.
Qed.

(** *** Prefixes *)

Lemma string_app_cons c (s t : string) : (String c s +:+ t)%stdpp = String c (s +:+ t)%stdpp.
Proof. done. Qed.

Lemma str_strip_prefix_app p t : str_strip_prefix p (p +:+ t)%stdpp = Some t.
Proof. induction p as [|c p IH]; [done|]. rewrite string_app_cons. cbn. by rewrite Ascii.eqb_refl. Qed.

Lemma str_strip_prefix_some p s t : str_strip_prefix p s = Some t → s = (p +:+ t)%stdpp.
Proof.
  revert s. induction p as [|c p IH]; intros [|d s]; cbn; [by intros [= <-]|by intros [= <-]|done|].
  destruct (Ascii.eqb_spec c d) as [->|]; [|done]. intros H. by rewrite (IH s H).
Qed.

Lemma str_starts_with_spec s p : str_starts_with s p = true ↔ ∃ t, s = (p +:+ t)%stdpp.
Proof.
  unfold str_starts_with. split.
  - destruct (str_strip_prefix p s) as [t|] eqn:E; [|done]. exists t. by apply str_strip_prefix_some.
  - intros [t ->]. by rewrite str_strip_prefix_app.
Qed.

Lemma String_inv c d (s t : string) : String c s = String d t → c = d ∧ s = t.
Proof. by injection 1. Qed.

(** The text up to the first slash. *)
Lemma no_slash_cancel c d x y :
  no_slash c = true → no_slash d = true →
  (c +:+ String slash x)%stdpp = (d +:+ String slash y)%stdpp → c = d ∧ x = y.
Proof.
  revert d. induction c as [|a c IH]; intros [|b d] Hc Hd Heq; apply String_inv in Heq as [H Heq]; subst.
  - done.
  - cbn in Hd. by rewrite Ascii.eqb_refl in Hd.
  - cbn in Hc. by rewrite Ascii.eqb_refl in Hc.
  - cbn in Hc, Hd. boolify. destruct (IH d) as [-> ->]; done.
Qed.

Lemma text_slash cs : cs ≠ [] → ∃ t, text cs = String slash t.
Proof. destruct cs as [|c cs]; [done|]. by eexists. Qed.

Lemma no_slash_app_slash d t : no_slash (d +:+ String slash t)%stdpp = false.
Proof.
  induction d as [|a d IH].
  - done.
  - rewrite string_app_cons. simpl. rewrite IH. by rewrite andb_false_r.
Qed.

Lemma no_slash_text c cs d t : no_slash c = true → no_slash d = true →
  (c +:+ text cs)%stdpp = (d +:+ String slash t)%stdpp → c = d ∧ text cs = String slash t.
Proof.
  intros Hc Hd Heq. destruct (decide (cs = [])) as [->|Hne].
  - exfalso. cbn [text] in Heq. rewrite string_app_nil_r in Heq. subst c. by rewrite no_slash_app_slash in Hc.
  - destruct (text_slash cs Hne) as [u Hu]. rewrite Hu in *.
    by destruct (no_slash_cancel c d u t Hc Hd Heq) as [-> ->].
Qed.

Lemma text_prefix cs ds t :
  good cs → good ds → text ds = (text cs +:+ String slash t)%stdpp →
  ∃ n rest, ds = cs ++ n :: rest ∧ String slash t = text (n :: rest).
Proof.
  intros Hcs. revert ds. induction Hcs as [|c cs (Hc & Hcn & _) _ IH]; intros ds Hds Heq.
  { destruct ds as [|n rest]; [done|]. by exists n, rest. }
  destruct Hds as [|d ds (Hd & Hdn & _) Hds]; [done|]. cbn [text part_string] in *.
  rewrite string_app_cons in Heq.
  injection Heq as Heq. rewrite string_app_assoc in Heq.
  destruct (decide (cs = [])) as [->|Hne].
  - cbn [text] in *. change ("" +:+ ?x)%stdpp with x in Heq.
    destruct (no_slash_text d ds c t Hdn Hcn Heq) as [-> Ht]. destruct ds as [|n rest]; [done|].
    by exists n, rest.
  - destruct (text_slash cs Hne) as [u Hu].
    assert ((text cs +:+ String slash t)%stdpp = String slash (u +:+ String slash t)%stdpp) as Hu' by (by rewrite Hu).
    rewrite Hu' in Heq. destruct (no_slash_text d ds c _ Hdn Hcn Heq) as [-> Ht]. rewrite <- Hu' in Ht.
    destruct (IH ds Hds Ht) as (n & rest & -> & Hnr). by exists n, rest.
Qed.

(** A key below a directory, as the code tests for it. *)
Lemma starts_with_below cs ds :
  good cs → good ds → cs ≠ [] →
  str_starts_with (tmp_path ds) (tmp_path cs +:+ "/")%stdpp = true ↔ ∃ n rest, ds = cs ++ n :: rest.
Proof.
  intros Hcs Hds Hne. rewrite str_starts_with_spec, (tmp_path_text cs) by done. split.
  - intros [t Ht]. rewrite string_app_assoc in Ht. change ("/" +:+ t)%stdpp with (String slash t) in Ht.
    destruct ds as [|d ds]; [|destruct (text_prefix cs (d :: ds) t) as (n & rest & Heq & _); eauto].
    exfalso. change (tmp_path []) with (String slash "") in Ht.
    destruct cs as [|c cs]; [done|]. cbn [text] in Ht. injection Ht as Ht.
    inversion Hcs as [|? ? (_ & _ & Hc) _]; subst. by destruct c.
  - intros (n & rest & ->). rewrite tmp_path_text by (by destruct cs). rewrite text_app.
    exists (n +:+ text rest)%stdpp. by rewrite string_app_assoc.
Qed.

Lemma strip_below cs rest :
  good cs → cs ≠ [] → str_strip_prefix (tmp_path cs) (tmp_path (cs ++ rest)) = Some (text rest).
Proof.
  intros Hcs Hne. rewrite !tmp_path_text, text_app by (by destruct cs). apply str_strip_prefix_app.
Qed.

Lemma tmp_path_suffix cs rest :
  cs ≠ [] → (tmp_path cs +:+ text rest)%stdpp = tmp_path (cs ++ rest).
Proof. intros Hne. rewrite !tmp_path_text, text_app by (by destruct cs). done. Qed.

(** *** Names of a parsed path *)

(** Every path that comes from text has parts that are names of the text. *)
Definition parsed_path (p : Path) : Prop := Forall (λ part, part = PathPart.Root ∨ parsed_part part) p.(parts).

Lemma parsed_path_new s : parsed_path (Path_new s).
Proof.
  destruct (Path_new_shape s) as (abs & body & Hp & Hb & _). unfold parsed_path. rewrite Hp.
  apply Forall_app. split; [destruct abs; repeat constructor|].
  eapply List.Forall_impl; [|exact Hb]. intros ? [? _]. by right.
Qed.

Lemma canon_step_good abs st part :
  part = PathPart.Root ∨ parsed_part part → good st.2 → good (canon_step abs st part).2.
Proof.
  destruct st as [n names]. cbn [snd]. intros Hpart Hg. destruct part as [| | |c]; cbn [canon_step]; try done.
  - destruct names as [|x names _] using rev_ind; [by destruct abs|].
    rewrite removelast_snoc. apply Forall_app in Hg as [Hg _]. by destruct (names ++ [x]).
  - destruct Hpart as [?|Hc]; [done|]. cbn. apply Forall_app. split; [done|]. by constructor.
Qed.

Lemma absolute_tmp_path_names p :
  parsed_path p → good (resolve p).2 ∧ absolute_tmp_path p = tmp_path (resolve p).2.
Proof.
  intros Hp. split.
  - unfold resolve. assert (good (0%nat, @nil string).2) as H0 by constructor. revert H0.
    generalize (0%nat, @nil string). induction Hp as [|part ps Hpart Hps IH]; intros st Hst; [done|].
    cbn [foldl]. apply IH. by apply canon_step_good.
  - unfold absolute_tmp_path, relative_components. rewrite normalize_parts.
    assert (omap as_normal_name (canon (is_absolute p) (resolve p).1 (resolve p).2) = (resolve p).2) as ->.
    { unfold canon. rewrite !omap_app.
      replace (omap as_normal_name (if is_absolute p then [PathPart.Root] else [])) with (@nil string) by (by destruct (is_absolute p)).
      replace (omap as_normal_name (replicate _ PathPart.ParentDir)) with (@nil string) by (induction (resolve p).1; done).
      cbn [app]. induction (resolve p).2 as [|c cs IH]; [done|]. cbn. by rewrite IH. }
    destruct (resolve p).2 as [|c cs]; [done|]. by rewrite tmp_path_text, text_join.
Qed.

(** ** Specification: the tree *)

(** The inode at a list of names. *)
Definition entry (st : TmpfsState) (cs : list string) : option Z := st.(paths) !! tmp_path cs.

Definition children_of (ns : gmap Z TmpNode) (i : Z) : gset string :=
  match ns !! i with
  | Some n => match n.(kind) with TmpNodeKind.Directory children _ => children | _ => ∅ end
  | None => ∅
  end.

(** The number of paths that refer to an inode. *)
Definition links (ps : gmap string Z) (i : Z) : Z :=
  zlen (filter (λ j, j = i) (map_to_list ps).*2).

(** Only files and devices can have several paths, and handles. *)
Definition is_file (n : TmpNode) : bool :=
  match n.(kind) with TmpNodeKind.File _ _ _ | TmpNodeKind.Device _ _ => true | _ => false end.

Record node_ok (ps : gmap string Z) (next i : Z) (n : TmpNode) : Prop := {
  ok_inode : n.(inode) = i ∧ i < next;
  ok_links : n.(link_count) = links ps i;
  ok_alive : 0 ≤ n.(open_count) ∧ (n.(link_count) = 0 → 0 < n.(open_count));
  ok_single : is_file n = false → n.(link_count) = 1 ∧ n.(open_count) = 0;
}.

(** The table of paths is the tree that the directories describe: it has exactly the root
    and the entries of the directories, every entry has a node, every node counts its paths
    and is there only while a path or a handle needs it. *)
Record tmpfs_ok (st : TmpfsState) : Prop := {
  ok_keys : ∀ s i, st.(paths) !! s = Some i → ∃ cs, good cs ∧ s = tmp_path cs;
  ok_root : entry st [] = Some ROOT_INODE ∧
    ∃ n, st.(nodes) !! ROOT_INODE = Some n ∧ is_directory n = true;
  ok_child : ∀ cs n, good (cs ++ [n]) →
    is_Some (entry st (cs ++ [n])) ↔ ∃ d, entry st cs = Some d ∧ n ∈ children_of st.(nodes) d;
  ok_names : ∀ i n, n ∈ children_of st.(nodes) i → good_name n;
  ok_present : ∀ s i, st.(paths) !! s = Some i → is_Some (st.(nodes) !! i);
  ok_nodes : ∀ i n, st.(nodes) !! i = Some n → node_ok st.(paths) st.(next_inode) i n;
}.

(** ** Lemmas: counting links *)

Lemma links_insert ps s i j :
  ps !! s = None → links (<[s := i]> ps) j = links ps j + (if decide (i = j) then 1 else 0).
Proof.
  intros Hs. unfold links, zlen. rewrite (map_to_list_insert ps s i Hs). cbn [fmap list_fmap snd].
  rewrite filter_cons. case_decide; cbn [length]; lia.
Qed.

Lemma links_delete ps s i j :
  ps !! s = Some i → links (delete s ps) j = links ps j - (if decide (i = j) then 1 else 0).
Proof.
  intros Hs. rewrite <- (insert_delete_id ps s i Hs) at 2. rewrite links_insert by apply lookup_delete_eq. lia.
Qed.

Lemma links_nonneg ps i : 0 ≤ links ps i.
Proof. apply zlen_nonneg. Qed.

Lemma links_pos ps s i : ps !! s = Some i → 0 < links ps i.
Proof.
  intros Hs. pose proof (links_delete ps s i i Hs) as H. pose proof (links_nonneg (delete s ps) i).
  rewrite decide_True in H by done. lia.
Qed.

Lemma links_two ps s t i : ps !! s = Some i → ps !! t = Some i → s ≠ t → 2 ≤ links ps i.
Proof.
  intros Hs Ht Hne. pose proof (links_delete ps s i i Hs) as H. rewrite decide_True in H by done.
  pose proof (links_pos (delete s ps) t i). rewrite lookup_delete_ne in H0 by done. specialize (H0 Ht). lia.
Qed.

Lemma links_size ps i : links ps i ≤ Z.of_nat (size ps).
Proof.
  unfold links, zlen. rewrite <- length_map_to_list, <- (length_fmap snd).
  pose proof (length_filter (λ j, j = i) (map_to_list ps).*2). lia.
Qed.

Lemma links_fresh ps i : (∀ s, ps !! s ≠ Some i) → links ps i = 0.
Proof.
  intros Hf. unfold links. destruct (filter _ _) as [|j l] eqn:E; [done|]. exfalso.
  assert (j ∈ filter (λ j, j = i) (map_to_list ps).*2) as Hj by (rewrite E; constructor).
  apply list_elem_of_filter in Hj as [-> Hj].
  apply list_elem_of_fmap in Hj as ([s k] & -> & Hk). apply elem_of_map_to_list in Hk. by apply (Hf s).
Qed.

(** ** Lemmas: the tree *)

Section Tree.
Context (st : TmpfsState) (Hok : tmpfs_ok st).

Lemma entry_node cs i : entry st cs = Some i → ∃ n, st.(nodes) !! i = Some n ∧ node_ok st.(paths) st.(next_inode) i n.
Proof.
  intros He. destruct (ok_present st Hok _ _ He) as [n Hn]. exists n. split; [done|]. by apply Hok.
Qed.

Lemma node_entry cs i n : entry st cs = Some i → st.(nodes) !! i = Some n → node st (tmp_path cs) = Ok n.
Proof. intros He Hn. unfold node, inode_for_path. fold (entry st cs). rewrite He. unfold mbind, result_mbind. cbn. unfold node_by_inode. by rewrite Hn. Qed.

Lemma node_none cs : entry st cs = None → node st (tmp_path cs) = Err FSError.NotFound.
Proof. intros He. unfold node, inode_for_path. fold (entry st cs). by rewrite He. Qed.

(** A node that is not a file has one path. *)
Lemma entry_unique cs ds i n :
  good cs → good ds → entry st cs = Some i → entry st ds = Some i → st.(nodes) !! i = Some n →
  is_file n = false → cs = ds.
Proof.
  intros Hcs Hds He He' Hn Hf. apply tmp_path_inj; [done..|]. apply dec_stable. intros Hne.
  pose proof (links_two _ _ _ _ He He' Hne). destruct (ok_nodes st Hok i n Hn) as [_ Hl _ Hs].
  destruct (Hs Hf). lia.
Qed.

Lemma directory_not_file n : is_directory n = true → is_file n = false.
Proof. unfold is_directory, is_file. by destruct (kind n). Qed.

Lemma children_directory ns i n c : ns !! i = Some n → c ∈ children_of ns i → is_directory n = true.
Proof. intros Hn. unfold children_of, is_directory. rewrite Hn. by destruct (kind n). Qed.

Lemma entry_parent cs n i :
  good (cs ++ [n]) → entry st (cs ++ [n]) = Some i →
  ∃ d nd, entry st cs = Some d ∧ st.(nodes) !! d = Some nd ∧ is_directory nd = true ∧ n ∈ children_of st.(nodes) d.
Proof.
  intros Hg He. destruct (proj1 (ok_child st Hok cs n Hg)) as (d & Hd & Hn); [by eexists|].
  destruct (entry_node cs d Hd) as (nd & Hnd & _). exists d, nd. split; [done|]. split; [done|].
  split; [by eapply children_directory|done].
Qed.

(** Entries are closed under taking the directory. *)
Lemma entry_prefix cs rest i : good (cs ++ rest) → entry st (cs ++ rest) = Some i → is_Some (entry st cs).
Proof.
  revert i. induction rest as [|n rest IH] using rev_ind; intros i Hg He.
  { rewrite app_nil_r in He. by eexists. }
  rewrite app_assoc in Hg, He. destruct (entry_parent _ _ _ Hg He) as (d & _ & Hd & _).
  apply Forall_app in Hg as [Hg _]. by eapply IH.
Qed.

Lemma entry_below_directory cs n rest i :
  good (cs ++ n :: rest) → entry st (cs ++ n :: rest) = Some i →
  ∃ d nd, entry st cs = Some d ∧ st.(nodes) !! d = Some nd ∧ is_directory nd = true ∧ n ∈ children_of st.(nodes) d.
Proof.
  intros Hg He. replace (cs ++ n :: rest) with ((cs ++ [n]) ++ rest) in * by (by rewrite <- app_assoc).
  destruct (entry_prefix _ _ _ Hg He) as [j Hj]. apply Forall_app in Hg as [Hg _].
  by apply (entry_parent _ _ j).
Qed.

End Tree.

Lemma lookup_entry_insert (ps : gmap string Z) cs ds i :
  good cs → good ds → <[tmp_path cs := i]> ps !! tmp_path ds = if decide (cs = ds) then Some i else ps !! tmp_path ds.
Proof.
  intros Hcs Hds. case_decide as Heq; [subst; by rewrite lookup_insert_eq|].
  apply lookup_insert_ne. intros H. apply Heq. by apply tmp_path_inj.
Qed.

Lemma lookup_entry_delete (ps : gmap string Z) cs ds :
  good cs → good ds → delete (tmp_path cs) ps !! tmp_path ds = if decide (cs = ds) then None else ps !! tmp_path ds.
Proof.
  intros Hcs Hds. case_decide as Heq; [subst; by rewrite lookup_delete_eq|].
  apply lookup_delete_ne. intros H. apply Heq. by apply tmp_path_inj.
Qed.

(** The change of the children that a directory suffers. *)
Definition map_children (f : gset string → gset string) (n : TmpNode) : TmpNode :=
  match n.(kind) with
  | TmpNodeKind.Directory children mode => with_kind n (TmpNodeKind.Directory (f children) mode)
  | _ => n
  end.

Lemma update_children_spec st cs d n f :
  entry st cs = Some d → st.(nodes) !! d = Some n → is_directory n = true →
  update_children st (tmp_path cs) f = (Ok tt, with_nodes st (<[d := map_children f n]> st.(nodes))).
Proof.
  intros He Hn Hd. unfold update_children, inode_for_path. fold (entry st cs). rewrite He. cbn.
  unfold node_by_inode. rewrite Hn. cbn. unfold map_children, is_directory in *. by destruct (kind n).
Qed.

Lemma update_children_error st cs f :
  node st (tmp_path cs) = Err FSError.NotFound ∨ (∃ n, node st (tmp_path cs) = Ok n ∧ is_directory n = false) →
  ∃ e, update_children st (tmp_path cs) f = (Err e, st).
Proof.
  unfold update_children, node, mbind, result_mbind. intros H.
  destruct (inode_for_path st (tmp_path cs)) as [i|e]; [|by exists e].
  destruct (node_by_inode st i) as [n|e]; [|by exists e].
  destruct H as [?|(n' & [= <-] & Hd)]; [done|]. unfold is_directory in Hd.
  destruct (kind n); try done; by eexists.
Qed.

Lemma children_of_map ns d n f i :
  ns !! d = Some n → is_directory n = true →
  children_of (<[d := map_children f n]> ns) i = if decide (d = i) then f (children_of ns d) else children_of ns i.
Proof.
  intros Hn Hd. unfold children_of. case_decide as Heq.
  - subst i. rewrite lookup_insert_eq, Hn. unfold map_children, is_directory in *. by destruct (kind n).
  - by rewrite lookup_insert_ne.
Qed.

Lemma node_ok_map_children ps next i n f : node_ok ps next i n → node_ok ps next i (map_children f n).
Proof. intros [H1 H2 H3 H4]. unfold map_children. destruct (kind n) eqn:E; constructor; try done. unfold is_file in *. cbn. by rewrite E in H4. Qed.

Lemma is_directory_map_children f n : is_directory (map_children f n) = is_directory n.
Proof. unfold map_children, is_directory. destruct (kind n) eqn:E; cbn; by rewrite ?E. Qed.

Lemma snoc_neq {A} (cs : list A) n : cs ++ [n] ≠ cs.
Proof. intros H. apply (f_equal length) in H. rewrite length_app in H. cbn in H. lia. Qed.

(** One entry more in the directory [d] at [cs]: the table and the directories still agree. *)
Lemma insert_child st st' cs n d p i :
  tmpfs_ok st → good (cs ++ [n]) → entry st (cs ++ [n]) = None → entry st cs = Some d →
  st.(nodes) !! d = Some p → is_directory p = true → children_of st.(nodes) i = ∅ → i ≠ d →
  (∀ ds, good ds → entry st' ds = if decide (cs ++ [n] = ds) then Some i else entry st ds) →
  (∀ j, children_of st'.(nodes) j = if decide (d = j) then {[n]} ∪ children_of st.(nodes) d else children_of st.(nodes) j) →
  (∀ ds m, good (ds ++ [m]) →
    is_Some (entry st' (ds ++ [m])) ↔ ∃ e, entry st' ds = Some e ∧ m ∈ children_of st'.(nodes) e) ∧
  (∀ j m, m ∈ children_of st'.(nodes) j → good_name m).
Proof.
  intros Hok Hg Hnone Hd Hp Hdir Hempty Hid Hentry Hch. pose proof Hg as [Hcs Hn]%Forall_app. split.
  - intros ds m Hdm. pose proof Hdm as [Hds Hm]%Forall_app. rewrite !Hentry by done. case_decide as Heq.
    + apply app_inj_tail in Heq as [<- <-]. split; [|by eexists]. intros _. exists d.
      rewrite decide_False by apply snoc_neq. rewrite Hch, decide_True by done. set_solver.
    + rewrite (ok_child st Hok ds m Hdm). split.
      * intros (e & He & Hme). exists e. rewrite decide_False by (intros <-; congruence).
        split; [done|]. rewrite Hch. case_decide; subst; set_solver.
      * intros (e & He & Hme). case_decide as Heq'.
        { injection He as <-. rewrite Hch, decide_False, Hempty in Hme by done. by apply not_elem_of_empty in Hme. }
        exists e. split; [done|]. rewrite Hch in Hme. case_decide as Hde; [|done]. subst e.
        apply elem_of_union in Hme as [->%elem_of_singleton|Hme]; [|done].
        destruct Heq. f_equal. eapply (entry_unique st Hok); [done..|by apply directory_not_file].
  - intros j m. rewrite Hch. case_decide; [|by apply Hok].
    intros [->%elem_of_singleton|Hm]%elem_of_union; [by inversion Hn|by apply (ok_names st Hok d)].
Qed.

(** One entry less, and nothing was below it. *)
Lemma remove_child st st' cs n d p i :
  tmpfs_ok st → good (cs ++ [n]) → entry st (cs ++ [n]) = Some i → entry st cs = Some d →
  st.(nodes) !! d = Some p → is_directory p = true → children_of st.(nodes) i = ∅ →
  (∀ ds, good ds → entry st' ds = if decide (cs ++ [n] = ds) then None else entry st ds) →
  (∀ j, children_of st'.(nodes) j = if decide (d = j) then children_of st.(nodes) d ∖ {[n]} else children_of st.(nodes) j) →
  (∀ ds m, good (ds ++ [m]) →
    is_Some (entry st' (ds ++ [m])) ↔ ∃ e, entry st' ds = Some e ∧ m ∈ children_of st'.(nodes) e) ∧
  (∀ j m, m ∈ children_of st'.(nodes) j → good_name m).
Proof.
  intros Hok Hg Hi Hd Hp Hdir Hempty Hentry Hch. pose proof Hg as [Hcs Hn]%Forall_app. split.
  - intros ds m Hdm. pose proof Hdm as [Hds Hm]%Forall_app. rewrite !Hentry by done. case_decide as Heq.
    + apply app_inj_tail in Heq as [<- <-]. split; [by intros []|]. intros (e & He & Hme).
      rewrite decide_False in He by apply snoc_neq. rewrite Hch in Hme.
      replace e with d in Hme by congruence. rewrite decide_True in Hme by done. set_solver.
    + rewrite (ok_child st Hok ds m Hdm). split.
      * intros (e & He & Hme). case_decide as Heq'; [subst ds; replace e with i in Hme by congruence; rewrite Hempty in Hme; set_solver|].
        exists e. split; [done|]. rewrite Hch. case_decide as Hde; [|done]. subst e.
        assert (cs = ds) as <- by (eapply (entry_unique st Hok); [done..|by apply directory_not_file]).
        apply elem_of_difference. split; [done|]. intros ->%elem_of_singleton. done.
      * intros (e & He & Hme). case_decide as Heq'; [done|]. exists e. split; [done|]. rewrite Hch in Hme.
        case_decide; [subst; set_solver|done].
  - intros j m. rewrite Hch. case_decide; [|by apply Hok]. intros [Hm _]%elem_of_difference. by apply (ok_names st Hok d).
Qed.

(** ** Creation *)

(** The new node: owner, and the set-group-id bit inherited from the directory. *)
Definition inherit (p : TmpNode) (k : TmpNodeKind) : TmpNodeKind :=
  match p.(kind), k with
  | TmpNodeKind.Directory _ pmode, TmpNodeKind.Directory children mode =>
      if Z.land pmode 1024 =? 0 then k else TmpNodeKind.Directory children (Z.lor mode 1024)
  | _, _ => k
  end.

Definition inherit_gid (p : TmpNode) (gid : Z) : Z :=
  match p.(kind) with
  | TmpNodeKind.Directory _ pmode => if Z.land pmode 1024 =? 0 then gid else p.(node_gid)
  | _ => gid
  end.

Definition new_node (st : TmpfsState) (p : TmpNode) (owner : Z * Z) (now : FileTimes) (k : TmpNodeKind) : TmpNode :=
  mkNode st.(next_inode) owner.1 (inherit_gid p owner.2) 1 0 now ∅ 0 (inherit p k).

Definition created (st : TmpfsState) (cs : list string) (n : string) (p : TmpNode) (new : TmpNode) : TmpfsState :=
  mkTmpfs (st.(next_inode) + 1) (<[tmp_path (cs ++ [n]) := st.(next_inode)]> st.(paths))
    (<[p.(inode) := map_children (λ c, {[n]} ∪ c) p]> (<[st.(next_inode) := new]> st.(nodes)))
    st.(user_quotas) st.(group_quotas) st.(project_quotas).

Lemma fresh_inode st : tmpfs_ok st → st.(nodes) !! st.(next_inode) = None ∧ ∀ s, st.(paths) !! s ≠ Some st.(next_inode).
Proof.
  intros Hok. assert (st.(nodes) !! st.(next_inode) = None) as Hn.
  { apply eq_None_not_Some. intros [n Hn]. destruct (ok_nodes st Hok _ _ Hn) as [[_ ?] _ _ _]. lia. }
  split; [done|]. intros s Hs. destruct (ok_present st Hok _ _ Hs) as [n Hn']. congruence.
Qed.

Lemma create_node_spec st owner now cs n k :
  tmpfs_ok st → good (cs ++ [n]) →
  create_node st owner now (tmp_path cs) n k =
  match entry st (cs ++ [n]), node st (tmp_path cs) with
  | Some _, _ => (Err FSError.AlreadyExists, st)
  | None, Err e => (Err e, st)
  | None, Ok p => if is_directory p then (Ok tt, created st cs n p (new_node st p owner now k))
                  else (Err FSError.NotADirectory, st)
  end.
Proof.
  intros Hok Hg. pose proof Hg as [Hcs Hn]%Forall_app. inversion Hn as [|? ? Hn' _]; subst.
  unfold create_node. rewrite tmpfs_normalize_id, child_path_snoc by done. fold (entry st (cs ++ [n])).
  destruct (entry st (cs ++ [n])) as [?|] eqn:Hc; [done|].
  destruct (entry st cs) as [d|] eqn:Hd; [|by rewrite node_none].
  destruct (entry_node st Hok cs d Hd) as (p & Hp & [[Hi Hlt] _ _ _]).
  rewrite (node_entry st cs d p Hd Hp). destruct (is_directory p) eqn:Hdir.
  2:{ unfold is_directory in Hdir. by destruct (kind p). }
  destruct (fresh_inode st Hok) as [Hfn Hfp]. destruct owner as [uid gid].
  unfold new_node, inherit, inherit_gid. unfold is_directory in Hdir. destruct (kind p) as [ch mode| | |] eqn:Hk; try done.
  rewrite (update_children_spec _ cs d p).
  - unfold created, new_node. cbn. rewrite Hi. do 4 f_equal.
    + destruct (Z.land mode 1024 =? 0); done.
  - unfold entry. cbn. rewrite lookup_entry_insert by done. rewrite decide_False by apply snoc_neq. done.
  - cbn. rewrite lookup_insert_ne; [done|]. congruence.
  - unfold is_directory. by rewrite Hk.
Qed.

Definition no_children (k : TmpNodeKind) : Prop :=
  match k with TmpNodeKind.Directory children _ => children = ∅ | _ => True end.

Lemma created_children st cs n d p new :
  tmpfs_ok st → st.(nodes) !! d = Some p → is_directory p = true → no_children new.(kind) →
  ∀ i, children_of (created st cs n p new).(nodes) i =
    if decide (d = i) then {[n]} ∪ children_of st.(nodes) d else children_of st.(nodes) i.
Proof.
  intros Hok Hp Hdir Hnew i. destruct (ok_nodes st Hok d p Hp) as [[Hi Hlt] _ _ _].
  cbn [nodes created]. rewrite Hi. rewrite children_of_map; [|rewrite lookup_insert_ne; [done|lia]|done].
  assert (∀ j, children_of (<[next_inode st := new]> st.(nodes)) j = children_of st.(nodes) j) as Hc.
  { intros j. unfold children_of. destruct (decide (next_inode st = j)) as [<-|Hj]; [|by rewrite lookup_insert_ne].
    rewrite lookup_insert_eq. rewrite (proj1 (fresh_inode st Hok)). destruct (kind new); done. }
  by rewrite !Hc.
Qed.

Lemma create_ok st cs n d p new :
  tmpfs_ok st → good (cs ++ [n]) → entry st (cs ++ [n]) = None → entry st cs = Some d →
  st.(nodes) !! d = Some p → is_directory p = true →
  new.(inode) = st.(next_inode) → new.(link_count) = 1 → new.(open_count) = 0 → no_children new.(kind) →
  tmpfs_ok (created st cs n p new).
Proof.
  intros Hok Hg Hnone Hd Hp Hdir Hi Hl Ho Hk.
  pose proof (created_children st cs n d p new Hok Hp Hdir Hk) as Hch.
  destruct (fresh_inode st Hok) as [Hfn Hfp]. pose proof Hg as [Hcs Hn]%Forall_app.
  destruct (ok_nodes st Hok d p Hp) as [[Hpi Hplt] _ _ _].
  assert (∀ ds, good ds → entry (created st cs n p new) ds =
    if decide (cs ++ [n] = ds) then Some (next_inode st) else entry st ds) as Hentry.
  { intros ds Hds. by apply lookup_entry_insert. }
  destruct (insert_child st (created st cs n p new) cs n d p (next_inode st) Hok Hg Hnone Hd Hp Hdir) as [Hins Hgood];
    [unfold children_of; by rewrite Hfn|lia|exact Hentry|exact Hch|].
  constructor.
  - intros s i. cbn [paths created]. intros [[<- <-]|[_ Hs]]%lookup_insert_Some; [by exists (cs ++ [n])|by apply (ok_keys st Hok s i)].
  - destruct (ok_root st Hok) as [Hr (rn & Hrn & Hrd)]. split.
    + rewrite Hentry by constructor. rewrite decide_False; [done|]. by destruct cs.
    + cbn [nodes created]. rewrite Hpi. destruct (decide (d = ROOT_INODE)) as [->|Hne].
      * rewrite lookup_insert_eq. eexists. split; [done|]. by rewrite is_directory_map_children.
      * rewrite !lookup_insert_ne by (done || congruence). by exists rn.
  - exact Hins.
  - exact Hgood.
  - intros s i. cbn [paths nodes created]. rewrite Hpi. intros [[_ <-]|[_ Hs]]%lookup_insert_Some.
    + rewrite lookup_insert_ne by congruence. rewrite lookup_insert_eq. by eexists.
    + apply (ok_present st Hok) in Hs. rewrite !lookup_insert_is_Some'. auto.
  - assert (∀ i m, st.(nodes) !! i = Some m → node_ok (created st cs n p new).(paths) (next_inode st + 1) i m) as Hold.
    { intros i m Hm. destruct (ok_nodes st Hok i m Hm) as [[H1 H1'] H2 H3 H4]. constructor; [lia| |done|done].
      cbn [paths created]. rewrite links_insert by exact Hnone. rewrite decide_False by lia. lia. }
    intros i m. cbn [nodes next_inode created]. rewrite Hpi.
    intros [[<- <-]|[Hne [[<- <-]|[_ Hm]]%lookup_insert_Some]]%lookup_insert_Some.
    + apply node_ok_map_children. by apply Hold.
    + constructor; [lia| |lia|lia]. cbn [paths created]. rewrite links_insert by exact Hnone.
      rewrite decide_True, links_fresh by done. lia.
    + by apply Hold.
Qed.

(** ** Deletion *)

Definition nonempty_directory (n : TmpNode) : bool :=
  match n.(kind) with
  | TmpNodeKind.Directory children _ => negb (bool_decide (children = ∅))
  | _ => false
  end.

(** One path less to a node: it goes with its last path, unless a handle keeps it. *)
Definition drop_link (ns : gmap Z TmpNode) (i : Z) (n : TmpNode) : gmap Z TmpNode :=
  if (n.(link_count) =? 1) && (n.(open_count) =? 0) then delete i ns
  else <[i := with_link_count n (n.(link_count) - 1)]> ns.

Definition removed (st : TmpfsState) (cs : list string) (n : string) (p x : TmpNode) : TmpfsState :=
  with_nodes (with_paths st (delete (tmp_path (cs ++ [n])) st.(paths)))
    (<[p.(inode) := map_children (λ c, c ∖ {[n]}) p]> (drop_link st.(nodes) x.(inode) x)).

Lemma delete_node_spec st cs n i x :
  tmpfs_ok st → good (cs ++ [n]) → entry st (cs ++ [n]) = Some i → st.(nodes) !! i = Some x →
  ∃ d p, entry st cs = Some d ∧ st.(nodes) !! d = Some p ∧ is_directory p = true ∧ d ≠ i ∧
    delete_node st (tmp_path cs) n =
    if nonempty_directory x then (Err FSError.DirectoryNotEmpty, st) else (Ok tt, removed st cs n p x).
Proof.
  intros Hok Hg Hi Hx. pose proof Hg as [Hcs Hn]%Forall_app. inversion Hn as [|? ? Hn' _]; subst.
  destruct (entry_parent st Hok cs n i Hg Hi) as (d & p & Hd & Hp & Hdir & _).
  assert (d ≠ i) as Hdi.
  { intros ->. eapply snoc_neq. eapply (entry_unique st Hok (cs ++ [n]) cs i p); try done. by apply directory_not_file. }
  exists d, p. split; [done|]. split; [done|]. split; [done|]. split; [done|].
  destruct (ok_nodes st Hok i x Hx) as [[Hxi _] Hxl [Hxo Hxa] _]. destruct (ok_nodes st Hok d p Hp) as [[Hpi _] _ _ _].
  pose proof (links_pos _ _ _ Hi) as Hlp. rewrite <- Hxl in Hlp.
  unfold delete_node. rewrite tmpfs_normalize_id, child_path_snoc by done. unfold inode_for_path at 1. fold (entry st (cs ++ [n])).
  rewrite Hi. cbn [ok_or]. unfold node_by_inode at 1. rewrite Hx. cbn [ok_or]. fold (nonempty_directory x).
  destruct (nonempty_directory x); [done|].
  replace (link_count x <? 1) with false by lia. rewrite andb_false_r.
  destruct (Z.eqb_spec (link_count x) 1) as [Hl|Hl]; cbn [negb].
  - rewrite (update_children_spec _ cs d p); [|by unfold entry; cbn; rewrite lookup_entry_delete, decide_False by (done || apply snoc_neq)|done|done].
    cbn [nodes with_nodes with_paths]. unfold node_by_inode. cbn [nodes with_nodes with_paths].
    rewrite lookup_insert_ne, Hx by done. cbn [ok_or]. unfold removed, drop_link. rewrite Hl, Hpi, Hxi. cbn.
    destruct (open_count x =? 0); unfold with_nodes, with_paths; cbn; do 2 f_equal.
    + by apply delete_insert_ne.
    + by apply insert_insert_ne.
  - rewrite (update_children_spec _ cs d p).
    + unfold removed, drop_link. rewrite (proj2 (Z.eqb_neq _ _) Hl), Hpi, Hxi. done.
    + unfold entry. cbn. rewrite lookup_entry_delete by done. rewrite decide_False by apply snoc_neq. done.
    + cbn. by rewrite lookup_insert_ne.
    + done.
Qed.

Lemma drop_link_lookup ns i n j m :
  drop_link ns i n !! j = Some m →
  (j = i ∧ m = with_link_count n (n.(link_count) - 1) ∧ (n.(link_count) = 1 → n.(open_count) ≠ 0)) ∨ (j ≠ i ∧ ns !! j = Some m).
Proof.
  unfold drop_link. destruct ((link_count n =? 1) && (open_count n =? 0)) eqn:E.
  - intros [? ?]%lookup_delete_Some. by right.
  - intros [[-> <-]|[? ?]]%lookup_insert_Some; [left|by right]. split; [done|]. split; [done|]. intros ? ?. lia.
Qed.

Lemma drop_link_ne ns i n j : j ≠ i → drop_link ns i n !! j = ns !! j.
Proof. intros Hne. unfold drop_link. case_match; [by apply lookup_delete_ne|by apply lookup_insert_ne]. Qed.

Lemma delete_ok st cs n i x d p :
  tmpfs_ok st → good (cs ++ [n]) → entry st (cs ++ [n]) = Some i → st.(nodes) !! i = Some x →
  nonempty_directory x = false → entry st cs = Some d → st.(nodes) !! d = Some p → is_directory p = true → d ≠ i →
  tmpfs_ok (removed st cs n p x).
Proof.
  intros Hok Hg Hi Hx Hne Hd Hp Hdir Hdi. pose proof Hg as [Hcs Hn]%Forall_app.
  destruct (ok_nodes st Hok i x Hx) as [[Hxi Hxlt] Hxl [Hxo Hxa] Hxs]. destruct (ok_nodes st Hok d p Hp) as [[Hpi _] _ _ _].
  assert (∀ ds, good ds → entry (removed st cs n p x) ds = if decide (cs ++ [n] = ds) then None else entry st ds) as Hentry.
  { intros ds Hds. by apply lookup_entry_delete. }
  assert (children_of st.(nodes) i = ∅) as Hempty.
  { unfold children_of. rewrite Hx. unfold nonempty_directory in Hne. destruct (kind x); try done.
    by apply negb_false_iff, bool_decide_eq_true in Hne. }
  assert (∀ j, children_of (removed st cs n p x).(nodes) j =
    if decide (d = j) then children_of st.(nodes) d ∖ {[n]} else children_of st.(nodes) j) as Hch.
  { intros j. cbn [nodes removed with_nodes]. rewrite Hpi, Hxi. rewrite children_of_map; [|by rewrite drop_link_ne|done].
    assert (∀ j, children_of (drop_link st.(nodes) i x) j = children_of st.(nodes) j) as Hc; [|by rewrite !Hc].
    intros j'. destruct (decide (j' = i)) as [->|Hj]; [|unfold children_of; by rewrite drop_link_ne].
    rewrite Hempty. unfold children_of, drop_link. destruct (_ && _); [by rewrite lookup_delete_eq|].
    rewrite lookup_insert_eq. cbn. unfold nonempty_directory in Hne. destruct (kind x); try done.
    by apply negb_false_iff, bool_decide_eq_true in Hne. }
  assert (∀ j, links (removed st cs n p x).(paths) j = links st.(paths) j - (if decide (i = j) then 1 else 0)) as Hlinks.
  { intros j. by apply links_delete. }
  destruct (remove_child st (removed st cs n p x) cs n d p i Hok Hg Hi Hd Hp Hdir Hempty Hentry Hch) as [Hins Hgood].
  constructor.
  - intros s j. cbn [paths removed with_nodes with_paths]. intros [_ Hs]%lookup_delete_Some. by apply (ok_keys st Hok s j).
  - destruct (ok_root st Hok) as [Hr (rn & Hrn & Hrd)]. split.
    + rewrite Hentry by constructor. by rewrite decide_False by (by destruct cs).
    + cbn [nodes removed with_nodes]. rewrite Hpi, Hxi. destruct (decide (d = ROOT_INODE)) as [->|Hdr].
      * rewrite lookup_insert_eq. eexists. split; [done|]. by rewrite is_directory_map_children.
      * rewrite lookup_insert_ne by done. exists rn. split; [|done]. rewrite drop_link_ne; [done|]. intros <-.
        assert ([] = cs ++ [n]) as E; [|by destruct cs].
        eapply (entry_unique st Hok _ _ _ rn); try done; by apply directory_not_file.
  - exact Hins.
  - exact Hgood.
  - intros s j. cbn [paths nodes removed with_nodes with_paths]. intros [Hs Hj]%lookup_delete_Some. rewrite Hpi, Hxi.
    apply lookup_insert_is_Some'. destruct (decide (j = i)) as [->|Hji]; [right|right; rewrite drop_link_ne by done; by apply (ok_present st Hok s)].
    pose proof (links_two _ _ _ _ Hi Hj Hs). unfold drop_link. replace (link_count x =? 1) with false by lia.
    cbn. rewrite lookup_insert_eq. by eexists.
  - intros j m. cbn [nodes removed with_nodes next_inode with_paths]. rewrite Hpi, Hxi.
    assert (∀ j m, st.(nodes) !! j = Some m → j ≠ i → node_ok (removed st cs n p x).(paths) (next_inode st) j m) as Hold.
    { intros j' m' Hm Hji. destruct (ok_nodes st Hok j' m' Hm) as [? ? ? ?]. constructor; try done.
      rewrite Hlinks, decide_False by done. lia. }
    intros [[<- <-]|[Hdj [(-> & -> & Hkeep)|[Hji Hm]]%drop_link_lookup]]%lookup_insert_Some.
    + apply node_ok_map_children. by apply Hold.
    + constructor; cbn; [done| |split; [done|lia]|].
      * rewrite Hlinks, decide_True by done. lia.
      * intros Hf. destruct (Hxs Hf). lia.
    + by apply Hold.
Qed.

(** ** Links *)

Definition linked (st : TmpfsState) (cs : list string) (n : string) (p x : TmpNode) : TmpfsState :=
  with_nodes (with_paths st (<[tmp_path (cs ++ [n]) := x.(inode)]> st.(paths)))
    (<[x.(inode) := with_link_count x (x.(link_count) + 1)]>
      (<[p.(inode) := map_children (λ c, {[n]} ∪ c) p]> st.(nodes))).

(** The table is far from the width of a link count. *)
Definition room (st : TmpfsState) : Prop := Z.of_nat (size st.(paths)) < 2 ^ 64 - 1.

Lemma link_inode_spec st i cs n :
  tmpfs_ok st → room st → good (cs ++ [n]) →
  link_inode st i (tmp_path (cs ++ [n])) =
  match entry st (cs ++ [n]), st.(nodes) !! i, node st (tmp_path cs) with
  | Some _, _, _ => (Err FSError.AlreadyExists, st)
  | None, None, _ => (Err FSError.NotFound, st)
  | None, Some x, r =>
      if is_file x then
        match r with
        | Err e => (Err e, st)
        | Ok p => if is_directory p then (Ok tt, linked st cs n p x) else (Err FSError.NotADirectory, st)
        end
      else (Err FSError.Other, st)
  end.
Proof.
  intros Hok Hroom Hg. pose proof Hg as [Hcs Hn]%Forall_app.
  unfold link_inode. rewrite tmpfs_normalize_id by done.
  destruct (String.eqb_spec (tmp_path (cs ++ [n])) "/") as [H|_]; [apply tmp_path_root in H; [by destruct cs|done]|].
  fold (entry st (cs ++ [n])). destruct (entry st (cs ++ [n])) as [j|] eqn:He; [done|]. cbn [bool_decide decide].
  unfold node_by_inode at 1. destruct (nodes st !! i) as [x|] eqn:Hx; [|done]. cbn [ok_or].
  destruct (ok_nodes st Hok i x Hx) as [[Hxi _] Hxl _ _].
  replace (match kind x with TmpNodeKind.File _ _ _ | TmpNodeKind.Device _ _ => false | _ => true end)
    with (negb (is_file x)) by (unfold is_file; by destruct (kind x)).
  destruct (is_file x) eqn:Hf; [|done]. cbn [negb]. rewrite split_path_snoc by done. cbn [fst snd].
  unfold check_directory. destruct (entry st cs) as [d|] eqn:Hd; [|by rewrite node_none].
  destruct (entry_node st Hok cs d Hd) as (p & Hp & [[Hpi _] _ _ _]). rewrite (node_entry st cs d p Hd Hp).
  unfold mbind, result_mbind. destruct (is_directory p) eqn:Hdir; [|done].
  rewrite (update_children_spec _ cs d p); [| |done|done].
  2:{ unfold entry. cbn. rewrite lookup_entry_insert, decide_False by (done || apply snoc_neq). done. }
  assert (d ≠ i) as Hdi by (intros ->; apply directory_not_file in Hdir; congruence).
  unfold update_node, node_by_inode. cbn [nodes with_nodes with_paths]. rewrite lookup_insert_ne, Hx by done. cbn [ok_or].
  unfold checked_add. pose proof (links_size st.(paths) i). unfold room in Hroom.
  replace (link_count x + 1 <? 2 ^ 64) with true by (symmetry; apply Z.ltb_lt; lia).
  cbn [ok_or mbind result_mbind]. unfold linked. by rewrite Hpi, Hxi.
Qed.

Lemma link_ok st cs n d p i x :
  tmpfs_ok st → good (cs ++ [n]) → entry st (cs ++ [n]) = None → entry st cs = Some d →
  st.(nodes) !! d = Some p → is_directory p = true → st.(nodes) !! i = Some x → is_file x = true →
  tmpfs_ok (linked st cs n p x).
Proof.
  intros Hok Hg Hnone Hd Hp Hdir Hx Hf. pose proof Hg as [Hcs Hn]%Forall_app.
  destruct (ok_nodes st Hok i x Hx) as [[Hxi Hxlt] Hxl [Hxo Hxa] _]. destruct (ok_nodes st Hok d p Hp) as [[Hpi _] _ _ _].
  assert (i ≠ d) as Hid by (intros ->; apply directory_not_file in Hdir; congruence).
  assert (∀ ds, good ds → entry (linked st cs n p x) ds = if decide (cs ++ [n] = ds) then Some i else entry st ds) as Hentry.
  { intros ds Hds. rewrite <- Hxi. by apply lookup_entry_insert. }
  assert (∀ j, children_of (linked st cs n p x).(nodes) j =
    if decide (d = j) then {[n]} ∪ children_of st.(nodes) d else children_of st.(nodes) j) as Hch.
  { intros j. cbn [nodes linked with_nodes]. rewrite Hpi, Hxi. rewrite <- children_of_map with (n := p) by done.
    unfold children_of. destruct (decide (i = j)) as [<-|Hj]; [|by rewrite lookup_insert_ne].
    rewrite lookup_insert_eq, lookup_insert_ne, Hx by done. unfold is_file in Hf. cbn. by destruct (kind x). }
  assert (children_of st.(nodes) i = ∅) as Hempty.
  { unfold children_of. rewrite Hx. unfold is_file in Hf. by destruct (kind x). }
  destruct (insert_child st (linked st cs n p x) cs n d p i Hok Hg Hnone Hd Hp Hdir Hempty Hid Hentry Hch) as [Hins Hgood].
  constructor.
  - intros s j. cbn [paths linked with_nodes with_paths].
    intros [[<- <-]|[_ Hs]]%lookup_insert_Some; [by exists (cs ++ [n])|by apply (ok_keys st Hok s j)].
  - destruct (ok_root st Hok) as [Hr (rn & Hrn & Hrd)]. split.
    + rewrite Hentry by constructor. by rewrite decide_False by (by destruct cs).
    + cbn [nodes linked with_nodes]. rewrite Hpi, Hxi. rewrite lookup_insert_ne.
      2:{ intros ->. apply directory_not_file in Hrd. congruence. }
      destruct (decide (d = ROOT_INODE)) as [->|Hdr].
      * rewrite lookup_insert_eq. eexists. split; [done|]. by rewrite is_directory_map_children.
      * rewrite lookup_insert_ne by done. by exists rn.
  - exact Hins.
  - exact Hgood.
  - intros s j. cbn [paths nodes linked with_nodes with_paths]. rewrite Hpi, Hxi, !lookup_insert_is_Some'.
    intros [[_ <-]|[_ Hs]]%lookup_insert_Some; [by left|]. apply (ok_present st Hok) in Hs. auto.
  - intros j m. cbn [nodes linked with_nodes next_inode with_paths]. rewrite Hpi, Hxi.
    assert (∀ j, links (linked st cs n p x).(paths) j = links st.(paths) j + (if decide (i = j) then 1 else 0)) as Hlinks.
    { intros j'. cbn [paths linked with_nodes with_paths]. rewrite Hxi. by apply links_insert. }
    assert (∀ j m, st.(nodes) !! j = Some m → j ≠ i → node_ok (linked st cs n p x).(paths) (next_inode st) j m) as Hold.
    { intros j' m' Hm Hji. destruct (ok_nodes st Hok j' m' Hm) as [? ? ? ?]. constructor; try done.
      rewrite Hlinks, decide_False by done. lia. }
    intros [[<- <-]|[Hji [[<- <-]|[Hdj Hm]]%lookup_insert_Some]]%lookup_insert_Some.
    + constructor; cbn; [done| |split; [done|]|unfold is_file in *; cbn; by rewrite Hf].
      * rewrite Hlinks, decide_True by done. lia.
      * pose proof (links_nonneg st.(paths) i). lia.
    + apply node_ok_map_children. by apply Hold.
    + by apply Hold.
Qed.

(** ** Moving a subtree *)

Lemma string_app_inj (p s t : string) : (p +:+ s)%stdpp = (p +:+ t)%stdpp → s = t.
Proof. intros H. apply (f_equal (str_strip_prefix p)) in H. rewrite !str_strip_prefix_app in H. by injection H. Qed.

Lemma take_moved_spec ps old moved acc :
  NoDup moved →
  (∀ path, path ∈ moved → is_Some (ps !! path) ∧ is_Some (str_strip_prefix old path)) →
  ∃ l ps', take_moved ps old moved acc = (Ok (acc ++ l), ps') ∧
    (∀ k i, ps' !! k = Some i ↔ ps !! k = Some i ∧ k ∉ moved) ∧
    (∀ s i, (s, i) ∈ l ↔ (old +:+ s)%stdpp ∈ moved ∧ ps !! (old +:+ s)%stdpp = Some i) ∧
    NoDup l.*1 ∧ ∀ j, links ps j = links ps' j + zlen (filter (λ k, k = j) l.*2).
Proof.
  intros Hnd. revert ps acc. induction Hnd as [|path moved Hpath Hnd IH]; intros ps acc Hin.
  { exists [], ps. cbn [take_moved]. rewrite app_nil_r. split; [done|]. split; [set_solver|].
    split; [set_solver|]. split; [constructor|]. intros j. unfold zlen. cbn. lia. }
  destruct (Hin path) as [[i Hi] [s Hs]]; [set_solver|]. cbn [take_moved]. rewrite Hs, Hi.
  apply str_strip_prefix_some in Hs as ->.
  destruct (IH (delete (old +:+ s)%stdpp ps) (acc ++ [(s, i)])) as (l & ps' & -> & Hps' & Hl & Hnl & Hlinks).
  { intros path' Hp'. rewrite lookup_delete_ne by (intros <-; done). apply Hin. set_solver. }
  exists ((s, i) :: l), ps'. rewrite <- app_assoc. split; [done|].
  split; [intros k j; rewrite Hps', lookup_delete_Some; set_solver|].
  split; [|split].
  - intros s' i'. rewrite elem_of_cons, Hl, lookup_delete_Some, elem_of_cons. split.
    + intros [[= -> ->]|?]; [auto|naive_solver].
    + intros [[Heq|Hm] Hi'].
      * apply string_app_inj in Heq as ->. left. congruence.
      * right. split; [done|]. split; [|done]. congruence.
  - rewrite fmap_cons. constructor; [|done]. intros ([s' i'] & Heq & Hm)%list_elem_of_fmap.
    cbn in Heq. subst s'. by apply Hl in Hm as [Hm _].
  - intros j. specialize (Hlinks j). rewrite (links_delete ps _ i j Hi) in Hlinks.
    rewrite fmap_cons, filter_cons. cbn [snd]. repeat case_decide; rewrite ?zlen_cons; lia.
Qed.

Lemma put_moved_spec new l ps :
  NoDup l.*1 → (∀ s i, (s, i) ∈ l → ps !! (new +:+ s)%stdpp = None) →
  (∀ k i, put_moved new l ps !! k = Some i ↔ ps !! k = Some i ∨ ∃ s, k = (new +:+ s)%stdpp ∧ (s, i) ∈ l) ∧
  (∀ j, links (put_moved new l ps) j = links ps j + zlen (filter (λ k, k = j) l.*2)).
Proof.
  revert ps. induction l as [|[s i] l IH]; intros ps Hnd Hfresh.
  { split; [set_solver|]. intros j. unfold zlen. cbn. lia. }
  inversion Hnd as [|? ? Hs Hnd']; subst. unfold put_moved in *. cbn [foldl fst snd].
  assert (ps !! (new +:+ s)%stdpp = None) as Hnone by (apply (Hfresh s i); set_solver).
  destruct (IH (<[(new +:+ s)%stdpp := i]> ps)) as [Hlk Hlinks]; [done| |].
  { intros s' i' Hin. rewrite lookup_insert_ne; [apply (Hfresh s' i'); set_solver|].
    intros ->%string_app_inj. apply Hs. apply list_elem_of_fmap. by exists (s', i'). }
  split.
  - intros k j. rewrite Hlk, lookup_insert_Some. split.
    + intros [[[<- <-]|[_ H]]|(s' & -> & H)]; [right; exists s; set_solver|by left|right; exists s'; set_solver].
    + intros [H|(s' & -> & [[= -> ->]|H]%elem_of_cons)]; [left; right|left; left; done|right; by exists s'].
      split; [congruence|done].
  - intros j. rewrite Hlinks, links_insert by done. rewrite fmap_cons, filter_cons. cbn [snd].
    repeat case_decide; rewrite ?zlen_cons; lia.
Qed.

(** The moves as a whole: the entries below [old] reappear below [new]. *)
Lemma move_table st old new :
  tmpfs_ok st → good old → good new → old ≠ [] → new ≠ [] →
  is_Some (entry st old) → entry st new = None →
  ∃ l ps, take_moved st.(paths) (tmp_path old) (moved_paths st.(paths) (tmp_path old)) [] = (Ok l, ps) ∧
    let ps2 := put_moved (tmp_path new) l ps in
    (∀ k i, ps2 !! k = Some i ↔ ∃ ds, good ds ∧ k = tmp_path ds ∧
       ((∃ rest, ds = new ++ rest ∧ entry st (old ++ rest) = Some i) ∨
        (entry st ds = Some i ∧ ¬ old `prefix_of` ds))) ∧
    (∀ j, links ps2 j = links st.(paths) j) ∧
    (∀ ds, good ds → ¬ old `prefix_of` ds → ps !! tmp_path ds = entry st ds).
Proof.
  intros Hok Hold Hnew Hne Hne' [oi Hoi] Hnone.
  assert (∀ ds, good ds → tmp_path ds ∈ moved_paths st.(paths) (tmp_path old) ↔ is_Some (entry st ds) ∧ old `prefix_of` ds) as Hmoved.
  { intros ds Hds. unfold moved_paths. rewrite list_elem_of_filter, starts_with_below by done.
    rewrite list_elem_of_fmap. split.
    - intros [Hpre ([k i] & Hk & Hi%elem_of_map_to_list)]. cbn in Hk. subst k. split; [by eexists|].
      destruct Hpre as [Heq|(n & rest & ->)]; [apply tmp_path_inj in Heq as ->; done|by eexists].
    - intros [[i Hi] [rest ->]]. split; [|by exists (tmp_path (old ++ rest), i); rewrite elem_of_map_to_list].
      destruct rest as [|n rest]; [left; by rewrite app_nil_r|right; by eexists _, _]. }
  destruct (take_moved_spec st.(paths) (tmp_path old) (moved_paths st.(paths) (tmp_path old)) []) as
    (l & ps & -> & Hps & Hl & Hnd & Hlinks).
  { apply NoDup_filter, NoDup_fst_map_to_list. }
  { intros path Hp. pose proof Hp as Hp'. unfold moved_paths in Hp'. apply list_elem_of_filter in Hp' as [_ Hp'].
    apply list_elem_of_fmap in Hp' as ([k i] & Heq & Hk%elem_of_map_to_list). cbn in Heq. subst k.
    split; [by eexists|]. destruct (ok_keys st Hok _ _ Hk) as (ds & Hds & ->).
    apply Hmoved in Hp as [_ [rest ->]]; [|done]. rewrite strip_below by done. by eexists. }
  assert (∀ s i, (s, i) ∈ l ↔ ∃ rest, s = text rest ∧ good rest ∧ entry st (old ++ rest) = Some i) as Hl'.
  { intros s i. rewrite Hl. split.
    - intros [Hm Hi]. destruct (ok_keys st Hok _ _ Hi) as (ds & Hds & Heq). rewrite Heq in Hm, Hi.
      apply Hmoved in Hm as [_ [rest ->]]; [|done]. exists rest. rewrite <- tmp_path_suffix in Heq by done.
      apply string_app_inj in Heq as ->. apply Forall_app in Hds as [_ Hr]. done.
    - intros (rest & -> & Hr & Hi). rewrite tmp_path_suffix by done. split; [|done].
      apply Hmoved; [by apply Forall_app|]. split; [by eexists|by eexists]. }
  cbn [app]. exists l, ps. split; [done|].
  assert (∀ rest i, good rest → entry st (new ++ rest) ≠ Some i) as Hfresh.
  { intros rest i Hr Hi. destruct (entry_prefix st Hok new rest i) as [j Hj]; [by apply Forall_app|done|]. congruence. }
  destruct (put_moved_spec (tmp_path new) l ps Hnd) as [Hput Hputl].
  { intros s i (rest & -> & Hr & Hi)%Hl'. rewrite tmp_path_suffix by done. apply eq_None_not_Some.
    intros [j Hj]. apply Hps in Hj as [Hj _]. by apply (Hfresh rest j Hr). }
  split; [|split].
  - intros k i. rewrite Hput, Hps. split.
    + intros [[Hk Hm]|(s & -> & (rest & -> & Hr & Hi)%Hl')].
      * destruct (ok_keys st Hok _ _ Hk) as (ds & Hds & ->). exists ds. split; [done|]. split; [done|]. right.
        split; [done|]. intros Hpre. apply Hm, Hmoved; [done|]. split; [by eexists|done].
      * exists (new ++ rest). split; [by apply Forall_app|]. rewrite tmp_path_suffix by done.
        split; [done|]. left. by exists rest.
    + intros (ds & Hds & -> & [(rest & -> & Hi)|[Hi Hpre]]).
      * right. exists (text rest). rewrite tmp_path_suffix by done. split; [done|]. apply Hl'. exists rest.
        apply Forall_app in Hds as [_ Hr]. done.
      * left. split; [done|]. intros [_ ?]%Hmoved; done.
  - intros j. rewrite Hputl, (Hlinks j). done.
  - intros ds Hds Hpre. apply option_eq. intros i. rewrite Hps. split; [by intros []|].
    intros Hi. split; [done|]. intros [_ ?]%Hmoved; done.
Qed.

Lemma prefix_snoc {A} (p l : list A) x : p `prefix_of` l ++ [x] ↔ p = l ++ [x] ∨ p `prefix_of` l.
Proof.
  split.
  - intros [rest Heq]. destruct rest as [|y rest _] using rev_ind; [left; by rewrite app_nil_r in Heq|].
    rewrite app_assoc in Heq. apply app_inj_tail in Heq as [-> _]. right. by eexists.
  - intros [->|H]; [done|]. by apply prefix_app_r.
Qed.

Section Move.
Context (st : TmpfsState) (Hok : tmpfs_ok st) (oc : list string) (on : string) (nc : list string) (nn : string).
Context (i dold dnew : Z) (pold pnew : TmpNode).
Context (Hgo : good (oc ++ [on])) (Hgn : good (nc ++ [nn])).
Context (Hi : entry st (oc ++ [on]) = Some i) (Hnone : entry st (nc ++ [nn]) = None).
Context (Hbelow : ¬ (oc ++ [on]) `prefix_of` (nc ++ [nn])).
Context (Hdo : entry st oc = Some dold) (Hpo : st.(nodes) !! dold = Some pold) (Hdiro : is_directory pold = true).
Context (Hdn : entry st nc = Some dnew) (Hpn : st.(nodes) !! dnew = Some pnew) (Hdirn : is_directory pnew = true).

(** The table after the move, and the children it goes with. *)
Definition moved_entries (st' : TmpfsState) : Prop :=
  ∀ ds i, good ds → entry st' ds = Some i ↔
    (∃ rest, ds = (nc ++ [nn]) ++ rest ∧ entry st ((oc ++ [on]) ++ rest) = Some i) ∨
    (entry st ds = Some i ∧ ¬ (oc ++ [on]) `prefix_of` ds).

Definition moved_children (j : Z) : gset string :=
  let c := if decide (dold = j) then children_of st.(nodes) j ∖ {[on]} else children_of st.(nodes) j in
  if decide (dnew = j) then {[nn]} ∪ c else c.

Let Hoc : good oc.
Proof. by apply Forall_app in Hgo as [? _]. Qed.
Let Hnc : good nc.
Proof. by apply Forall_app in Hgn as [? _]. Qed.

Lemma nothing_below_new rest j : good rest → entry st ((nc ++ [nn]) ++ rest) ≠ Some j.
Proof.
  intros Hr Hj. destruct (entry_prefix st Hok (nc ++ [nn]) rest j) as [k Hk]; [by apply Forall_app|done|]. congruence.
Qed.

(** Away from both places nothing moves; below the new name is what was below the old. *)
Lemma moved_entry_new st' rest :
  moved_entries st' → good rest → entry st' ((nc ++ [nn]) ++ rest) = entry st ((oc ++ [on]) ++ rest).
Proof.
  unfold moved_entries. intros Hm Hr. apply option_eq. intros j. rewrite Hm by (by apply Forall_app). split.
  - intros [(rest' & Heq & Hj)|[Hj _]]; [|by apply nothing_below_new in Hj].
    apply app_inv_head in Heq as <-. done.
  - intros Hj. left. by exists rest.
Qed.

Lemma moved_entry_other st' ds :
  moved_entries st' → good ds → ¬ (nc ++ [nn]) `prefix_of` ds → ¬ (oc ++ [on]) `prefix_of` ds → entry st' ds = entry st ds.
Proof.
  unfold moved_entries. intros Hm Hds Hn Ho. apply option_eq. intros j. rewrite Hm by done. split; [|by right].
  intros [(rest & -> & _)|[? _]]; [|done]. destruct Hn. by eexists.
Qed.

Lemma moved_entry_old st' ds :
  moved_entries st' → good ds → ¬ (nc ++ [nn]) `prefix_of` ds → (oc ++ [on]) `prefix_of` ds → entry st' ds = None.
Proof.
  intros Hm Hds Hn Ho. apply eq_None_not_Some. intros [j Hj]. apply Hm in Hj as [(rest & -> & _)|[_ ?]]; [|done|done].
  destruct Hn. by eexists.
Qed.

Lemma moved_children_other cs j : good cs → entry st cs = Some j → cs ≠ oc → cs ≠ nc → moved_children j = children_of st.(nodes) j.
Proof.
  intros Hcs Hj Ho Hn. unfold moved_children. rewrite !decide_False; [done| |].
  - intros <-. apply Ho. eapply (entry_unique st Hok); [done..|by apply directory_not_file].
  - intros <-. apply Hn. eapply (entry_unique st Hok); [done..|by apply directory_not_file].
Qed.

Lemma oc_not_below_new : ¬ (nc ++ [nn]) `prefix_of` oc.
Proof.
  intros [rest ->]. apply Forall_app in Hoc as [_ Hr]. by apply (nothing_below_new rest dold).
Qed.

Lemma nc_not_below_old : ¬ (oc ++ [on]) `prefix_of` nc.
Proof. intros H. apply Hbelow. by apply prefix_app_r. Qed.

Lemma moved_child_new st' rest m :
  moved_entries st' → (∀ j, children_of st'.(nodes) j = moved_children j) → good (rest ++ [m]) →
  is_Some (entry st' ((nc ++ [nn]) ++ rest ++ [m])) ↔
  ∃ d, entry st' ((nc ++ [nn]) ++ rest) = Some d ∧ m ∈ children_of st'.(nodes) d.
Proof.
  intros Hm Hch Hr. pose proof Hr as [Hr' Hm']%Forall_app. rewrite !moved_entry_new by done.
  assert (good ((oc ++ [on]) ++ rest)) as Hg by (by apply Forall_app).
  rewrite (app_assoc (oc ++ [on]) rest [m]), (ok_child st Hok ((oc ++ [on]) ++ rest) m) by (by apply Forall_app).
  assert (∀ d, entry st ((oc ++ [on]) ++ rest) = Some d → moved_children d = children_of st.(nodes) d) as Hsame.
  { intros d Hd. eapply moved_children_other; [exact Hg|done| |].
    - intros H. apply (f_equal length) in H. rewrite !length_app in H. cbn in H. lia.
    - intros H. apply nc_not_below_old. rewrite <- H. by eexists. }
  split; intros (d & Hd & Hmd); exists d; (split; [done|]); rewrite Hch, (Hsame d Hd) in *; done.
Qed.

Lemma moved_child st' ds m :
  moved_entries st' → (∀ j, children_of st'.(nodes) j = moved_children j) → good (ds ++ [m]) →
  is_Some (entry st' (ds ++ [m])) ↔ ∃ d, entry st' ds = Some d ∧ m ∈ children_of st'.(nodes) d.
Proof.
  intros Hm Hch Hg. pose proof Hg as [Hds Hm']%Forall_app.
  destruct (decide ((nc ++ [nn]) `prefix_of` ds)) as [[rest ->]|Hnd].
  { rewrite <- app_assoc. apply moved_child_new; [done..|]. rewrite <- app_assoc in Hg. by apply Forall_app in Hg as [_ Hg]. }
  destruct (decide ((oc ++ [on]) `prefix_of` ds)) as [Hod|Hod].
  { rewrite (moved_entry_old st' ds) by done. split; [|by intros (d & ? & _)].
    intros [j Hj]. apply Hm in Hj as [(rest & Heq & _)|[_ Ho]]; [| |done].
    - exfalso. assert ((nc ++ [nn]) `prefix_of` ds ++ [m]) as Hp by (by eexists).
      apply prefix_snoc in Hp as [Heq'|?]; [|done]. apply app_inj_tail in Heq' as [<- _]. by apply nc_not_below_old.
    - destruct Ho. by apply prefix_app_r. }
  rewrite (moved_entry_other st' ds) by done. setoid_rewrite Hch.
  destruct (decide (nc ++ [nn] = ds ++ [m])) as [Heq|Hnn].
  { rewrite <- Heq. apply app_inj_tail in Heq as [<- <-]. rewrite <- (app_nil_r (nc ++ [nn])), moved_entry_new, app_nil_r by done.
    split; [|by eexists]. intros _. exists dnew. split; [done|]. unfold moved_children.
    rewrite (decide_True (P := dnew = dnew)) by done. by apply elem_of_union_l, elem_of_singleton. }
  destruct (decide (oc ++ [on] = ds ++ [m])) as [Heq|Hoo].
  { rewrite <- Heq. rewrite moved_entry_old; [|done|done| |done].
    2:{ rewrite prefix_snoc, Heq. intros [?|?]; [done|]. apply app_inj_tail in Heq as [<- <-]. by apply oc_not_below_new. }
    apply app_inj_tail in Heq as [<- <-]. split; [by intros []|]. intros (d & Hd & Hmd). exfalso.
    replace d with dold in Hmd by congruence. unfold moved_children in Hmd. rewrite (decide_True (P := dold = dold)) in Hmd by done.
    assert (on ∉ children_of (nodes st) dold ∖ {[on]}) as Hno by (by intros [_ []%not_elem_of_singleton]%elem_of_difference).
    case_decide as Hsame; [|done]. apply elem_of_union in Hmd as [Heq%elem_of_singleton|Hmd]; [|done].
    apply Hbelow. rewrite prefix_snoc. left. rewrite Heq. f_equal.
    eapply (entry_unique st Hok oc nc dold); [done|done|done|by rewrite <- Hsame|done|by apply directory_not_file]. }
  rewrite moved_entry_other; [|done|done|by intros [?|?]%prefix_snoc|by intros [?|?]%prefix_snoc]. rewrite (ok_child st Hok) by done.
  assert (∀ d, entry st ds = Some d → m ∈ moved_children d ↔ m ∈ children_of st.(nodes) d) as Hsame.
  { intros d Hd. unfold moved_children.
    assert (dold = d → m ≠ on) by (intros <- ->; apply Hoo; f_equal; eapply (entry_unique st Hok); [done..|by apply directory_not_file]).
    assert (dnew = d → m ≠ nn) by (intros <- ->; apply Hnn; f_equal; eapply (entry_unique st Hok); [done..|by apply directory_not_file]).
    repeat case_decide; rewrite ?elem_of_union, ?elem_of_difference, ?elem_of_singleton; naive_solver. }
  split; intros (d & Hd & Hmd); exists d; (split; [done|]); by apply Hsame.
Qed.

End Move.

(** Only the children of directories change in a move. *)
Definition same_but_children (n n' : TmpNode) : Prop := ∃ f g, n' = map_children f (map_children g n).

Lemma map_children_id n : map_children (λ c, c) n = n.
Proof. unfold map_children. destruct n as [? ? ? ? ? ? ? ? k]. cbn. by destruct k. Qed.

Lemma map_children_file f n : is_file n = true → map_children f n = n.
Proof. unfold is_file, map_children. by destruct (kind n). Qed.

Lemma node_ok_links ps ps' next i n : (∀ j, links ps' j = links ps j) → node_ok ps next i n → node_ok ps' next i n.
Proof. intros Hl [? ? ? ?]. constructor; try done. by rewrite Hl. Qed.

Lemma move_paths_spec st oc on nc nn i dold dnew pold pnew :
  tmpfs_ok st → good (oc ++ [on]) → good (nc ++ [nn]) →
  entry st (oc ++ [on]) = Some i → entry st (nc ++ [nn]) = None → ¬ (oc ++ [on]) `prefix_of` (nc ++ [nn]) →
  entry st oc = Some dold → st.(nodes) !! dold = Some pold → is_directory pold = true →
  entry st nc = Some dnew → st.(nodes) !! dnew = Some pnew → is_directory pnew = true →
  ∃ st', move_paths st (tmp_path (oc ++ [on])) (tmp_path (nc ++ [nn])) (tmp_path oc) on (tmp_path nc) nn = (Ok tt, st') ∧
    tmpfs_ok st' ∧ moved_entries st oc on nc nn st' ∧
    (∀ j n, st.(nodes) !! j = Some n → ∃ n', st'.(nodes) !! j = Some n' ∧ same_but_children n n').
Proof.
  intros Hok Hgo Hgn Hi Hnone Hbelow Hdo Hpo Hdiro Hdn Hpn Hdirn.
  pose proof Hgo as [Hoc _]%Forall_app. pose proof Hgn as [Hnc _]%Forall_app.
  destruct (move_table st (oc ++ [on]) (nc ++ [nn]) Hok Hgo Hgn) as (l & ps & Htake & Hput & Hlinks & Hother);
    [by destruct oc|by destruct nc|by eexists|done|].
  assert (¬ (oc ++ [on]) `prefix_of` oc) as Hso.
  { intros [rest H]. apply (f_equal length) in H. rewrite !length_app in H. cbn in H. lia. }
  assert (¬ (oc ++ [on]) `prefix_of` nc) as Hsn by (intros H; apply Hbelow; by apply prefix_app_r).
  set (ns1 := <[dold := map_children (λ c, c ∖ {[on]}) pold]> st.(nodes)).
  assert (∃ p1, ns1 !! dnew = Some p1 ∧ is_directory p1 = true) as (p1 & Hp1 & Hd1).
  { unfold ns1. destruct (decide (dold = dnew)) as [->|Hne].
    - rewrite lookup_insert_eq. eexists. split; [done|]. by rewrite is_directory_map_children.
    - rewrite lookup_insert_ne by done. by exists pnew. }
  set (ns2 := <[dnew := map_children (λ c, {[nn]} ∪ c) p1]> ns1).
  set (st' := with_paths (with_nodes st ns2) (put_moved (tmp_path (nc ++ [nn])) l ps)).
  assert (∀ j n, st.(nodes) !! j = Some n → ∃ n', ns2 !! j = Some n' ∧ same_but_children n n') as Hns.
  { intros j n Hn. unfold ns2, ns1 in *. destruct (decide (dnew = j)) as [->|Hjn]; [|rewrite lookup_insert_ne by done].
    - rewrite lookup_insert_eq. eexists. split; [done|]. destruct (decide (dold = j)) as [->|Hjo].
      + rewrite lookup_insert_eq in Hp1. injection Hp1 as <-. replace pold with n by congruence. by eexists _, _.
      + rewrite lookup_insert_ne in Hp1 by done. replace p1 with n by congruence. exists (λ c, {[nn]} ∪ c), (λ c, c). by rewrite map_children_id.
    - destruct (decide (dold = j)) as [->|Hjo].
      + rewrite lookup_insert_eq. replace pold with n by congruence. eexists. split; [done|].
        exists (λ c, c), (λ c, c ∖ {[on]}). by rewrite map_children_id.
      + rewrite lookup_insert_ne by done. exists n. split; [done|]. exists (λ c, c), (λ c, c). by rewrite !map_children_id. }
  assert (moved_entries st oc on nc nn st') as Hmoved.
  { intros ds j Hds. unfold entry at 1. cbn [paths st' with_paths]. rewrite Hput. split.
    - intros (ds' & Hds' & Heq & H). apply tmp_path_inj in Heq as ->; done.
    - intros H. by exists ds. }
  assert (∀ j, children_of st'.(nodes) j = moved_children st on nn dold dnew j) as Hch.
  { intros j. cbn [nodes st' with_paths with_nodes]. unfold ns2. rewrite children_of_map by done. unfold ns1.
    rewrite !(children_of_map _ dold) by done. unfold moved_children. repeat case_decide; subst; done. }
  exists st'. split; [|split; [|split; [done|exact Hns]]].
  { unfold move_paths. rewrite Htake. rewrite (update_children_spec _ oc dold pold) by (done || by unfold entry; cbn; rewrite Hother).
    cbn [with_nodes with_paths nodes paths]. fold ns1. by rewrite (update_children_spec _ nc dnew p1) by (done || by unfold entry; cbn; rewrite Hother). }
  constructor.
  - intros s j. cbn [paths st' with_paths]. rewrite Hput. intros (ds & Hds & -> & _). by exists ds.
  - destruct (ok_root st Hok) as [Hr (rn & Hrn & Hrd)]. split.
    + apply Hmoved; [constructor|]. right. split; [done|]. intros [rest H]. by destruct oc.
    + destruct (Hns _ _ Hrn) as (n' & Hn' & f & g & ->). eexists. split; [exact Hn'|]. by rewrite !is_directory_map_children.
  - intros ds m Hdm. by eapply (moved_child st Hok oc on nc nn i dold dnew pold pnew).
  - intros j m. rewrite Hch. unfold moved_children.
    assert (good_name nn) by (by apply Forall_app in Hgn as [_ Hgn]; inversion Hgn).
    pose proof (ok_names st Hok j m). repeat case_decide; rewrite ?elem_of_union, ?elem_of_difference, ?elem_of_singleton; naive_solver.
  - intros s j. cbn [paths nodes st' with_paths with_nodes]. rewrite Hput. intros (ds & Hds & -> & Hj).
    assert (is_Some (st.(nodes) !! j)) as [n Hn].
    { destruct Hj as [(rest & -> & Hj)|[Hj _]]; by apply (ok_present st Hok) in Hj. }
    destruct (Hns _ _ Hn) as (n' & -> & _). by eexists.
  - intros j m. cbn [paths nodes st' with_paths with_nodes next_inode]. intros Hm. apply (node_ok_links st.(paths)); [exact Hlinks|].
    assert (is_Some (st.(nodes) !! j)) as [n Hn].
    { unfold ns2, ns1 in Hm. apply lookup_insert_Some in Hm as [[<- _]|[_ Hm]]; [by eexists|].
      apply lookup_insert_Some in Hm as [[<- _]|[_ Hm]]; by eexists. }
    destruct (Hns _ _ Hn) as (n' & Hn' & f & g & ->). replace m with (map_children f (map_children g n)) by congruence.
    by do 2 apply node_ok_map_children; apply Hok.
Qed.

(** ** Renaming *)

(** When a rename succeeds. *)
Definition rename_allowed (st : TmpfsState) (old new : list string) : Prop :=
  old = new ∨
  old ≠ [] ∧ new ≠ [] ∧ ¬ old `prefix_of` new ∧
  (∃ d p, entry st (removelast new) = Some d ∧ st.(nodes) !! d = Some p ∧ is_directory p = true) ∧
  ∃ i x, entry st old = Some i ∧ st.(nodes) !! i = Some x ∧
    ∀ j y, entry st new = Some j → st.(nodes) !! j = Some y →
      is_directory x = is_directory y ∧ nonempty_directory y = false.

(** What the paths refer to after it. *)
Definition renamed (st : TmpfsState) (old new : list string) (st' : TmpfsState) : Prop :=
  ∀ ds i, good ds → entry st' ds = Some i ↔
    (∃ rest, ds = new ++ rest ∧ entry st (old ++ rest) = Some i) ∨
    (entry st ds = Some i ∧ ¬ old `prefix_of` ds ∧ ¬ new `prefix_of` ds).

Lemma snoc_case {A} (l : list A) : l ≠ [] → ∃ k x, l = k ++ [x].
Proof. destruct l as [|x l _] using rev_ind; [done|]. by exists l, x. Qed.

Lemma tmp_path_nonroot cs : good cs → cs ≠ [] → String.eqb (tmp_path cs) "/" = false.
Proof. intros Hcs Hne. apply String.eqb_neq. by intros ?%tmp_path_root. Qed.

Lemma check_directory_spec st cs :
  tmpfs_ok st →
  (∃ d p, entry st cs = Some d ∧ st.(nodes) !! d = Some p ∧ is_directory p = true ∧ check_directory st (tmp_path cs) = Ok tt) ∨
  ((¬ ∃ d p, entry st cs = Some d ∧ st.(nodes) !! d = Some p ∧ is_directory p = true) ∧ ∃ e, check_directory st (tmp_path cs) = Err e).
Proof.
  intros Hok. unfold check_directory. destruct (entry st cs) as [d|] eqn:Hd.
  - destruct (entry_node st Hok cs d Hd) as (p & Hp & _). rewrite (node_entry st cs d p Hd Hp).
    unfold mbind, result_mbind. destruct (is_directory p) eqn:Hdir; [left; by exists d, p|right].
    split; [intros (? & ? & [= <-] & ? & ?); congruence|by eexists].
  - right. rewrite node_none by done. split; [by intros (? & ? & ? & _)|by eexists].
Qed.

(** Below a file, or an empty directory, there is nothing. *)
Lemma nothing_below st cs j y n rest :
  tmpfs_ok st → good (cs ++ n :: rest) → entry st cs = Some j → st.(nodes) !! j = Some y →
  nonempty_directory y = false → entry st (cs ++ n :: rest) = None.
Proof.
  intros Hok Hg Hj Hy Hne. apply eq_None_not_Some. intros [k Hk].
  destruct (entry_below_directory st Hok cs n rest k Hg Hk) as (d & nd & Hd & Hnd & _ & Hn).
  replace d with j in * by congruence. replace nd with y in * by congruence. unfold children_of in Hn. rewrite Hnd in Hn.
  unfold nonempty_directory in Hne. destruct (kind y); try by apply not_elem_of_empty in Hn.
  apply negb_false_iff, bool_decide_eq_true in Hne. subst. by apply not_elem_of_empty in Hn.
Qed.

(** The target is out of the way: a rename onto a free name. *)
Lemma rename_free st oc on nc nn i dnew pnew :
  tmpfs_ok st → good (oc ++ [on]) → good (nc ++ [nn]) → ¬ (oc ++ [on]) `prefix_of` (nc ++ [nn]) →
  entry st (oc ++ [on]) = Some i → entry st (nc ++ [nn]) = None →
  entry st nc = Some dnew → st.(nodes) !! dnew = Some pnew → is_directory pnew = true →
  ∃ st', move_paths st (tmp_path (oc ++ [on])) (tmp_path (nc ++ [nn])) (tmp_path oc) on (tmp_path nc) nn = (Ok tt, st') ∧
    tmpfs_ok st' ∧ renamed st (oc ++ [on]) (nc ++ [nn]) st' ∧
    (∀ j n, st.(nodes) !! j = Some n → ∃ n', st'.(nodes) !! j = Some n' ∧ same_but_children n n').
Proof.
  intros Hok Hgo Hgn Hbelow Hi Hnone Hdn Hpn Hdirn.
  destruct (entry_parent st Hok oc on i Hgo Hi) as (dold & pold & Hdo & Hpo & Hdiro & _).
  destruct (move_paths_spec st oc on nc nn i dold dnew pold pnew) as (st' & Heq & Hok' & Hm & Hns); [done..|].
  exists st'. split; [done|]. split; [done|]. split; [|done]. intros ds j Hds. rewrite (Hm ds j Hds). split.
  - intros [?|[Hj Hp]]; [by left|right]. split; [done|]. split; [done|]. intros [rest ->].
    apply Forall_app in Hds as [_ Hr]. by eapply (nothing_below_new st Hok nc nn).
  - intros [?|(? & ? & _)]; [by left|by right].
Qed.

(** The target is removed first. *)
Lemma rename_onto st oc on nc nn i j y dnew pnew :
  tmpfs_ok st → good (oc ++ [on]) → good (nc ++ [nn]) → oc ++ [on] ≠ nc ++ [nn] → ¬ (oc ++ [on]) `prefix_of` (nc ++ [nn]) →
  entry st (oc ++ [on]) = Some i → entry st (nc ++ [nn]) = Some j → st.(nodes) !! j = Some y → nonempty_directory y = false →
  entry st nc = Some dnew → st.(nodes) !! dnew = Some pnew → is_directory pnew = true → dnew ≠ j →
  let st1 := removed st nc nn pnew y in
  ∃ st', move_paths st1 (tmp_path (oc ++ [on])) (tmp_path (nc ++ [nn])) (tmp_path oc) on (tmp_path nc) nn = (Ok tt, st') ∧
    tmpfs_ok st' ∧ renamed st (oc ++ [on]) (nc ++ [nn]) st'.
Proof.
  intros Hok Hgo Hgn Hne Hbelow Hi Hj Hy Hempty Hdn Hpn Hdirn Hdj st1.
  pose proof Hgn as [Hnc Hnn]%Forall_app.
  assert (tmpfs_ok st1) as Hok1 by (by eapply (delete_ok st nc nn j y dnew pnew)).
  assert (∀ ds, good ds → entry st1 ds = if decide (nc ++ [nn] = ds) then None else entry st ds) as He1.
  { intros ds Hds. by apply lookup_entry_delete. }
  destruct (ok_nodes st Hok dnew pnew Hpn) as [[Hpi _] _ _ _].
  destruct (rename_free st1 oc on nc nn i dnew (map_children (λ c, c ∖ {[nn]}) pnew)) as (st' & Heq & Hok' & Hr & _);
    [done|done|done|done|by rewrite He1, decide_False|by rewrite He1, decide_True|
     by rewrite He1, decide_False by (done || by apply snoc_neq)|
     by unfold st1; cbn; rewrite Hpi, lookup_insert_eq|by rewrite is_directory_map_children|].
  exists st'. split; [done|]. split; [done|]. intros ds k Hds. rewrite (Hr ds k Hds).
  assert (∀ rest, good rest → entry st1 ((oc ++ [on]) ++ rest) = entry st ((oc ++ [on]) ++ rest)) as Hold.
  { intros rest Hrest. rewrite He1 by (by apply Forall_app). rewrite decide_False; [done|]. intros H. apply Hbelow. rewrite H. by eexists. }
  split.
  - intros [(rest & -> & Hk)|(Hk & Ho & Hn)]; [left; exists rest|right].
    + split; [done|]. rewrite <- Hold; [done|]. by apply Forall_app in Hds as [_ ?].
    + rewrite He1 in Hk by done. case_decide; [done|]. done.
  - intros [(rest & -> & Hk)|(Hk & Ho & Hn)]; [left; exists rest|right].
    + split; [done|]. rewrite Hold; [done|]. by apply Forall_app in Hds as [_ ?].
    + rewrite He1, decide_False; [done| |done]. intros <-. by destruct Hn.
Qed.

Lemma rename_cases st old new :
  tmpfs_ok st → good old → good new →
  (∃ e, rename st (tmp_path old) (tmp_path new) = (Err e, st) ∧ ¬ rename_allowed st old new) ∨
  (∃ st', rename st (tmp_path old) (tmp_path new) = (Ok tt, st') ∧ rename_allowed st old new ∧ tmpfs_ok st' ∧
     (if decide (old = new) then st' = st else renamed st old new st')).
Proof.
  intros Hok Hgo Hgn. unfold rename. rewrite !tmpfs_normalize_id by done.
  destruct (decide (old = new)) as [<-|Hne].
  { rewrite String.eqb_refl. right. exists st. split; [done|]. split; [by left|done]. }
  rewrite (proj2 (String.eqb_neq (tmp_path old) (tmp_path new))) by (intros H; by apply Hne, tmp_path_inj).
  assert (rename_allowed st old new → old ≠ [] ∧ new ≠ []) as Hnroot by (intros [?|(? & ? & _)]; done).
  destruct (decide (old = [])) as [->|Ho]; [left; eexists; split; [done|]; by intros [? _]%Hnroot|].
  destruct (decide (new = [])) as [->|Hn]; [left; rewrite orb_true_r; eexists; split; [done|]; by intros [_ ?]%Hnroot|].
  rewrite !tmp_path_nonroot by done. cbn [orb]. clear Hnroot.
  destruct (snoc_case old Ho) as (oc & on & ->). destruct (snoc_case new Hn) as (nc & nn & ->).
  rewrite !split_path_snoc by done. cbn [fst snd].
  destruct (entry st (oc ++ [on])) as [i|] eqn:Hi.
  2:{ rewrite node_none by done. left. eexists. split; [done|]. intros [?|(_ & _ & _ & _ & i & x & ? & _)]; congruence. }
  destruct (entry_node st Hok _ i Hi) as (x & Hx & _). rewrite (node_entry st _ i x Hi Hx).
  destruct (is_directory x && str_starts_with (tmp_path (nc ++ [nn])) (tmp_path (oc ++ [on]) +:+ "/")%stdpp) eqn:Hdirbelow.
  { boolify. left. eexists. split; [done|]. intros [?|(_ & _ & Hb & _)]; [done|]. apply Hb.
    apply starts_with_below in H0 as (m & rest & ->); [|done..]. by eexists. }
  destruct (entry_parent st Hok oc on i Hgo Hi) as (dold & pold & Hdo & Hpo & Hdiro & _).
  assert (check_directory st (tmp_path oc) = Ok tt) as ->.
  { unfold check_directory. rewrite (node_entry st oc dold pold Hdo Hpo). unfold mbind, result_mbind. by rewrite Hdiro. }
  destruct (check_directory_spec st nc Hok) as [(dnew & pnew & Hdn & Hpn & Hdirn & ->)|[Hnodir [e ->]]].
  2:{ left. eexists. split; [done|]. intros [?|(_ & _ & _ & Hd & _)]; [done|]. by rewrite removelast_snoc in Hd. }
  assert (¬ (oc ++ [on]) `prefix_of` (nc ++ [nn])) as Hbelow.
  { intros Hpre. destruct (is_directory x) eqn:Hdx.
    - apply andb_false_iff in Hdirbelow as [?|Hs]; [done|]. apply not_true_iff_false in Hs. apply Hs.
      apply starts_with_below; [done..|]. destruct Hpre as [[|m rest] Heq]; [by rewrite app_nil_r in Heq|by exists m, rest].
    - apply prefix_snoc in Hpre as [?|[rest ->]]; [done|]. destruct rest as [|m rest]; [rewrite app_nil_r in Hdn; congruence|].
      apply Forall_app in Hgn as [Hgn _]. rewrite (nothing_below st _ i x m rest) in Hdn; try done.
      unfold nonempty_directory, is_directory in *. by destruct (kind x). }
  destruct (entry st (nc ++ [nn])) as [j|] eqn:Hj.
  - destruct (entry_node st Hok _ j Hj) as (y & Hy & _). rewrite (node_entry st _ j y Hj Hy).
    assert (rename_allowed st (oc ++ [on]) (nc ++ [nn]) ↔ is_directory x = is_directory y ∧ nonempty_directory y = false) as Hiff.
    { split; [intros [?|(_ & _ & _ & _ & i' & x' & Hi' & Hx' & Ht)]; [done|]|intros Ht; right].
      - replace x' with x in * by congruence. by apply (Ht j).
      - split; [done|]. split; [done|]. split; [done|]. rewrite removelast_snoc. split; [by exists dnew, pnew|].
        exists i, x. split; [done|]. split; [done|]. intros j' y' Hj' Hy'. by replace y' with y by congruence. }
    destruct (is_directory x && negb (is_directory y)) eqn:H1; [left; eexists; split; [done|]; boolify; rewrite Hiff; intros [? _]; congruence|].
    destruct (negb (is_directory x) && is_directory y) eqn:H2; [left; eexists; split; [done|]; boolify; rewrite Hiff; intros [? _]; congruence|].
    unfold delete_path. rewrite split_path_snoc by done. cbn [fst snd].
    destruct (delete_node_spec st nc nn j y Hok Hgn Hj Hy) as (d & p & Hd & Hp & _ & Hdj & ->).
    replace d with dnew in * by congruence. replace p with pnew in * by congruence.
    destruct (nonempty_directory y) eqn:Hempty.
    { left. eexists. split; [done|]. rewrite Hiff. by intros [_ ?]. }
    destruct (rename_onto st oc on nc nn i j y dnew pnew) as (st' & -> & Hok' & Hr); [done..|].
    right. exists st'. split; [done|]. split; [apply Hiff; split; [by destruct (is_directory x), (is_directory y)|done]|].
    by split.
  - rewrite node_none by done. destruct (rename_free st oc on nc nn i dnew pnew) as (st' & -> & Hok' & Hr & _); [done..|].
    right. exists st'. split; [done|]. split; [right; rewrite removelast_snoc|by split].
    split; [done|]. split; [done|]. split; [done|]. split; [by exists dnew, pnew|].
    exists i, x. split; [done|]. split; [done|]. intros; congruence.
Qed.
