(* ===== verification/TmpfsProps.v ===== *)
(** * Temporary file system: reachable states

    The steps of a mounted temporary file system, the invariant of its reachable states, and
    what renaming, unlinking, creating and the file handles do, stated over the tree of
    TmpfsTree and the byte sequences of SparseFile. *)

From S2P Require Import Prelude.
From S2P Require Import Errors.
From S2P Require Import SparseFile.
From S2P Require Import FsPath.
From S2P Require Import Tmpfs.
From S2P Require Import TmpfsTree.

Open Scope string_scope.
Open Scope list_scope.
Open Scope Z_scope.

(** ** Steps *)

(** Every file holds a well-formed sequence of pages. *)
Definition files_wf (st : TmpfsState) : Prop :=
  ∀ i n data, st.(nodes) !! i = Some n → file_data n = Ok data → wf data.

Definition fs_ok (st : TmpfsState) : Prop := tmpfs_ok st ∧ files_wf st.

(** What may happen to the file system: the operations of the file system object, of
    directory handles (by canonical path), and of file handles (by inode).  The names that
    directory operations get are single components; [room] keeps the table far from 2^64
    entries. *)
Inductive tmpfs_step (st : TmpfsState) : TmpfsState → Prop :=
  | step_create owner now cs info :
      good (cs ++ [info.(content_name)]) → tmpfs_step st (directory_create st owner now (tmp_path cs) info).2
  | step_create_symlink owner now cs n target :
      good (cs ++ [n]) → tmpfs_step st (create_symlink st owner now (tmp_path cs) n target).2
  | step_delete cs n : good (cs ++ [n]) → tmpfs_step st (delete_node st (tmp_path cs) n).2
  | step_link p q : room st → parsed_path p → parsed_path q →
      tmpfs_step st (link st (absolute_tmp_path p) (absolute_tmp_path q)).2
  | step_link_to h p : room st → parsed_path p → is_absolute p = true → p.(ends_with_slash) = false →
      tmpfs_step st (file_link_to st h p).2
  | step_rename p q : parsed_path p → parsed_path q →
      tmpfs_step st (rename st (absolute_tmp_path p) (absolute_tmp_path q)).2
  | step_lookup p : parsed_path p → tmpfs_step st (tmpfs_lookup_path st (absolute_tmp_path p)).2
  | step_drop h : tmpfs_step st (file_drop st h)
  | step_write h buffer : 0 ≤ h.(offset) → h.(offset) + zlen buffer < 2 ^ 64 →
      tmpfs_step st (file_write st h buffer).2
  | step_truncate h n : 0 ≤ n < 2 ^ 64 → tmpfs_step st (file_truncate st h n).2
  | step_allocate h mode off n : 0 ≤ off → 0 ≤ n → tmpfs_step st (file_allocate st h mode off n).2
  | step_owner i uid gid : tmpfs_step st (update_owner_by_inode st i uid gid).2
  | step_times i t : tmpfs_step st (update_times_by_inode st i t).2
  | step_attributes i a : tmpfs_step st (set_file_attributes st i a).2
  | step_set_xattr i name value create replace : tmpfs_step st (set_xattr st i name value create replace).2
  | step_remove_xattr i name : tmpfs_step st (remove_xattr st i name).2
  | step_file_chmod h mode : tmpfs_step st (file_chmod st h mode).2
  | step_path_owner cs uid gid : tmpfs_step st (path_chown st (tmp_path cs) uid gid).2
  | step_path_times cs t : tmpfs_step st (path_set_times st (tmp_path cs) t).2
  | step_path_set_xattr cs name value create replace :
      tmpfs_step st (path_set_xattr st (tmp_path cs) name value create replace).2
  | step_path_remove_xattr cs name : tmpfs_step st (path_remove_xattr st (tmp_path cs) name).2
  | step_directory_get cs n : good (cs ++ [n]) → tmpfs_step st (directory_get st (tmp_path cs) n).2
  | step_directory_chmod cs mode : good cs → tmpfs_step st (directory_chmod st (tmp_path cs) mode).2
  | step_set_quota quota_type id q : tmpfs_step st (set_quota st quota_type id q).2.

(** A freshly mounted file system and any sequence of steps. *)
Inductive reachable : TmpfsState → Prop :=
  | reach_new now : reachable (tmpfs_new now)
  | reach_step st st' : reachable st → tmpfs_step st st' → reachable st'.

(** ** Lemmas: changes of one node *)

(** A change that the tree does not see. *)
Definition invisible (n n' : TmpNode) : Prop :=
  n'.(inode) = n.(inode) ∧ n'.(link_count) = n.(link_count) ∧ n'.(open_count) = n.(open_count) ∧
  match n.(kind), n'.(kind) with
  | TmpNodeKind.Directory c _, TmpNodeKind.Directory c' _ => c' = c
  | TmpNodeKind.File d _ _, TmpNodeKind.File d' _ _ => wf d → wf d'
  | TmpNodeKind.Device _ _, TmpNodeKind.Device _ _ => True
  | TmpNodeKind.Symlink _, TmpNodeKind.Symlink _ => True
  | _, _ => False
  end.

Lemma invisible_kind n n' : invisible n n' → is_file n' = is_file n ∧ is_directory n' = is_directory n.
Proof. intros (_ & _ & _ & H). unfold is_file, is_directory. destruct (kind n), (kind n'); done. Qed.

Lemma node_children ns ns' i n n' :
  ns !! i = Some n → invisible n n' → ns' = <[i := n']> ns → ∀ j, children_of ns' j = children_of ns j.
Proof.
  intros Hn (_ & _ & _ & H) -> j. unfold children_of. destruct (decide (i = j)) as [<-|Hj].
  - rewrite lookup_insert_eq, Hn. by destruct (kind n), (kind n').
  - by rewrite lookup_insert_ne.
Qed.

(** The tree does not depend on the rest of a node; the counters may change with care. *)
Lemma tmpfs_ok_insert st i n n' :
  tmpfs_ok st → st.(nodes) !! i = Some n →
  (∀ j, children_of (<[i := n']> st.(nodes)) j = children_of st.(nodes) j) →
  is_directory n' = is_directory n → node_ok st.(paths) st.(next_inode) i n' →
  tmpfs_ok (with_nodes st (<[i := n']> st.(nodes))).
Proof.
  intros Hok Hn Hch Hdir Hn'. constructor; cbn [paths nodes next_inode with_nodes].
  - apply Hok.
  - destruct (ok_root st Hok) as [Hr (rn & Hrn & Hrd)]. split; [done|]. destruct (decide (i = ROOT_INODE)) as [->|Hi].
    + rewrite lookup_insert_eq. exists n'. split; [done|]. congruence.
    + rewrite lookup_insert_ne by done. by exists rn.
  - intros cs m Hg. setoid_rewrite Hch. by apply (ok_child st Hok).
  - intros j m. rewrite Hch. apply Hok.
  - intros s j Hs. apply lookup_insert_is_Some'. right. by apply (ok_present st Hok s).
  - intros j m [[<- <-]|[_ Hm]]%lookup_insert_Some; [done|by apply Hok].
Qed.

Lemma invisible_ok st i n n' :
  fs_ok st → st.(nodes) !! i = Some n → invisible n n' → fs_ok (with_nodes st (<[i := n']> st.(nodes))).
Proof.
  intros [Hok Hwf] Hn Hinv. destruct (invisible_kind n n' Hinv) as [Hf Hd]. split.
  - apply (tmpfs_ok_insert st i n n'); [done|done|by eapply node_children|done|].
    destruct (ok_nodes st Hok i n Hn) as [? ? ? ?]. destruct Hinv as (Hi & Hl & Ho & _).
    constructor; rewrite ?Hi, ?Hl, ?Ho, ?Hf; done.
  - intros j m data. cbn [nodes with_nodes]. intros [[<- <-]|[_ Hm]]%lookup_insert_Some; [|by eapply Hwf].
    destruct Hinv as (_ & _ & _ & Hk). unfold file_data. intros Hdata. destruct (kind n') eqn:Hkn'; try done.
    injection Hdata as <-. destruct (kind n) as [|d0 m0 r0| |] eqn:Hkn; try done. apply Hk. eapply (Hwf i n); [done|].
    unfold file_data. by rewrite Hkn.
Qed.

Lemma update_node_ok st i f :
  fs_ok st → (∀ n n', st.(nodes) !! i = Some n → f n = Ok n' → invisible n n') → fs_ok (update_node st i f).2.
Proof.
  intros Hok Hf. unfold update_node, node_by_inode. destruct (nodes st !! i) as [n|] eqn:Hn; [|done]. cbn.
  destruct (f n) as [n'|e] eqn:Hfn; [|done]. cbn. by apply (invisible_ok st i n); [| |apply Hf].
Qed.

(** Most updates keep everything but one field. *)
#[local] Ltac solve_invisible :=
  intros n n' _ Hf; cbn in Hf; unfold mbind, result_mbind, file_data, with_data in *; destruct_all;
  unfold invisible; cbn; repeat case_match; simplify_eq/=; try done; auto.

Lemma retain_ok st i n :
  fs_ok st → st.(nodes) !! i = Some n → is_file n = true → fs_ok (retain_inode st i).2.
Proof.
  intros [Hok Hwf] Hn Hf. unfold retain_inode, update_node, node_by_inode. rewrite Hn. cbn [ok_or].
  destruct (checked_add 64 (open_count n) 1) as [c|] eqn:Hc; [|done]. cbn [ok_or mbind result_mbind snd].
  unfold checked_add in Hc. case_match; [|done]. injection Hc as <-. split.
  - apply (tmpfs_ok_insert st i n); [done|done| |done|].
    + intros j. unfold children_of. destruct (decide (i = j)) as [<-|Hj]; [by rewrite lookup_insert_eq, Hn|by rewrite lookup_insert_ne].
    + destruct (ok_nodes st Hok i n Hn) as [? ? ? ?]. constructor; cbn; [done|done|lia|]. intros Hf'. unfold is_file in *. cbn in Hf'. congruence.
  - intros j m data. cbn [nodes with_nodes]. intros [[<- <-]|[_ Hm]]%lookup_insert_Some; [|by eapply Hwf]. intros Hd. by apply (Hwf i n).
Qed.

(** The last handle of a node without paths takes it along. *)
Lemma release_spec st i n :
  tmpfs_ok st → st.(nodes) !! i = Some n →
  release_inode st i =
  if n.(open_count) =? 0 then (Err FSError.Other, st)
  else if (n.(open_count) =? 1) && (n.(link_count) =? 0) then (Ok tt, with_nodes st (delete i st.(nodes)))
  else (Ok tt, with_nodes st (<[i := with_open_count n (n.(open_count) - 1)]> st.(nodes))).
Proof.
  intros Hok Hn. destruct (ok_nodes st Hok i n Hn) as [_ _ [Ho _] _].
  unfold release_inode, node_by_inode, checked_sub. rewrite Hn. cbn [ok_or].
  destruct (Z.eqb_spec n.(open_count) 0) as [Hz|Hne]; [by replace (1 <=? open_count n) with false by lia|].
  replace (1 <=? open_count n) with true by lia. cbn [ok_or open_count link_count with_open_count].
  replace (open_count n - 1 =? 0) with (open_count n =? 1) by lia.
  destruct ((open_count n =? 1) && (link_count n =? 0)); [|done].
  unfold with_nodes. cbn. by rewrite delete_insert_eq.
Qed.

Lemma unlinked_no_entry st i n s : tmpfs_ok st → st.(nodes) !! i = Some n → n.(link_count) = 0 → st.(paths) !! s ≠ Some i.
Proof. intros Hok Hn Hl Hs. destruct (ok_nodes st Hok i n Hn) as [_ Hl' _ _]. apply links_pos in Hs. lia. Qed.

Lemma release_ok st i : fs_ok st → fs_ok (release_inode st i).2.
Proof.
  intros [Hok Hwf]. destruct (nodes st !! i) as [n|] eqn:Hn.
  2:{ unfold release_inode, node_by_inode. by rewrite Hn. }
  rewrite (release_spec st i n Hok Hn). destruct (ok_nodes st Hok i n Hn) as [Hi Hl [Ho Ha] Hs].
  destruct (Z.eqb_spec (open_count n) 0) as [|Hne]; [done|].
  assert (is_file n = true) as Hf by (destruct (is_file n); [done|]; destruct Hs; [done|lia]).
  assert (∀ j, children_of (delete i st.(nodes)) j = children_of st.(nodes) j) as Hdel.
  { intros j. unfold children_of. destruct (decide (i = j)) as [<-|Hj]; [|by rewrite lookup_delete_ne].
    rewrite lookup_delete_eq, Hn. unfold is_file in Hf. by destruct (kind n). }
  destruct ((open_count n =? 1) && (link_count n =? 0)) eqn:Hlast; cbn [snd]; split.
  - boolify. pose proof (λ s, unlinked_no_entry st i n s Hok Hn H0) as Hno.
    constructor; cbn [paths nodes next_inode with_nodes]; try by apply Hok.
    + destruct (ok_root st Hok) as [Hr (rn & Hrn & Hrd)]. split; [done|]. exists rn.
      rewrite lookup_delete_ne; [done|]. intros ->. by apply (Hno "/").
    + intros cs m Hg. setoid_rewrite Hdel. by apply (ok_child st Hok).
    + intros j m. rewrite Hdel. apply Hok.
    + intros s j Hj. rewrite lookup_delete_ne; [by apply (ok_present st Hok s)|]. intros ->. by apply (Hno s).
    + intros j m [_ Hm]%lookup_delete_Some. by apply Hok.
  - intros j m data. cbn [nodes with_nodes]. intros [_ Hm]%lookup_delete_Some. by eapply Hwf.
  - apply (tmpfs_ok_insert st i n); [done|done| |done|].
    + intros j. unfold children_of. destruct (decide (i = j)) as [<-|Hj]; [by rewrite lookup_insert_eq, Hn|by rewrite lookup_insert_ne].
    + constructor; cbn; [done|done|split; [lia|]|].
      * intros Hz. apply andb_false_iff in Hlast as [?|?]; lia.
      * intros Hf'. unfold is_file in *. cbn in Hf'. congruence.
  - intros j m data. cbn [nodes with_nodes]. intros [[<- <-]|[_ Hm]]%lookup_insert_Some; [|by eapply Hwf].
    intros Hd. by apply (Hwf i n).
Qed.

(** ** Lemmas: the operations on the tree *)

Definition data_wf (k : TmpNodeKind) : Prop :=
  match k with TmpNodeKind.File data _ _ => wf data | _ => True end.

Lemma kept_wf st st' :
  files_wf st → (∀ j m, st'.(nodes) !! j = Some m → data_wf m.(kind) ∨ ∃ n, st.(nodes) !! j = Some n ∧ file_data m = file_data n) →
  files_wf st'.
Proof.
  intros Hwf Hk j m data Hm Hd. destruct (Hk j m Hm) as [Hw|(n & Hn & Heq)].
  - unfold file_data, data_wf in *. destruct (kind m); try done. by injection Hd as <-.
  - apply (Hwf j n); congruence.
Qed.

Lemma file_data_map_children f n : file_data (map_children f n) = file_data n.
Proof. unfold file_data, map_children. destruct (kind n) eqn:E; cbn; by rewrite ?E. Qed.

Lemma inherit_no_children p k : no_children k → no_children (inherit p k).
Proof. unfold inherit, no_children. repeat case_match; naive_solver. Qed.

Lemma inherit_data_wf p k : data_wf k → data_wf (inherit p k).
Proof. unfold inherit, data_wf. repeat case_match; naive_solver. Qed.

Lemma create_node_ok st owner now cs n k :
  fs_ok st → good (cs ++ [n]) → no_children k → data_wf k → fs_ok (create_node st owner now (tmp_path cs) n k).2.
Proof.
  intros [Hok Hwf] Hg Hk Hw. rewrite create_node_spec by done.
  destruct (entry st (cs ++ [n])) as [i|] eqn:Hnone; [done|].
  destruct (entry st cs) as [d|] eqn:Hd; [|by rewrite node_none].
  destruct (entry_node st Hok cs d Hd) as (p & Hp & _). rewrite (node_entry st cs d p Hd Hp).
  destruct (is_directory p) eqn:Hdir; [|done]. cbn [snd]. split.
  - apply (create_ok st cs n d p); try done. by apply inherit_no_children.
  - apply (kept_wf st _ Hwf). intros j m. cbn [nodes created].
    intros [[<- <-]|[_ [[<- <-]|[_ Hm]]%lookup_insert_Some]]%lookup_insert_Some.
    + right. exists p. destruct (ok_nodes st Hok d p Hp) as [[-> _] _ _ _]. split; [done|]. apply file_data_map_children.
    + left. by apply inherit_data_wf.
    + right. by exists m.
Qed.

Lemma create_file_ok st owner now cs n mode rdev :
  fs_ok st → good (cs ++ [n]) → fs_ok (create_file st owner now (tmp_path cs) n mode rdev).2.
Proof. intros. unfold create_file. apply create_node_ok; [done|done| |]; case_match; try done; apply wf_new. Qed.

Lemma delete_node_ok st cs n : fs_ok st → good (cs ++ [n]) → fs_ok (delete_node st (tmp_path cs) n).2.
Proof.
  intros [Hok Hwf] Hg. destruct (entry st (cs ++ [n])) as [i|] eqn:Hi.
  2:{ unfold delete_node. pose proof Hg as [Hcs Hn]%Forall_app. inversion Hn; subst.
      rewrite tmpfs_normalize_id, child_path_snoc by done. unfold inode_for_path. fold (entry st (cs ++ [n])). by rewrite Hi. }
  destruct (entry_node st Hok _ i Hi) as (x & Hx & [[Hxi _] _ _ _]).
  destruct (delete_node_spec st cs n i x Hok Hg Hi Hx) as (d & p & Hd & Hp & Hdir & Hdi & ->).
  destruct (nonempty_directory x) eqn:Hempty; [done|]. cbn [snd]. split; [by eapply delete_ok|].
  destruct (ok_nodes st Hok d p Hp) as [[Hpi _] _ _ _].
  apply (kept_wf st _ Hwf). intros j m. cbn [nodes removed with_nodes]. rewrite Hpi, Hxi.
  intros [[<- <-]|[_ [(-> & -> & _)|[_ Hm]]%drop_link_lookup]]%lookup_insert_Some; right.
  - exists p. split; [done|]. apply file_data_map_children.
  - by exists x.
  - by exists m.
Qed.

Lemma link_inode_root st i : link_inode st i (tmp_path []) = (Err FSError.AccessDenied, st).
Proof. done. Qed.

Lemma link_inode_ok st i cs : fs_ok st → room st → good cs → fs_ok (link_inode st i (tmp_path cs)).2.
Proof.
  intros [Hok Hwf] Hroom Hg. destruct (decide (cs = [])) as [->|Hne]; [done|].
  destruct (snoc_case cs Hne) as (ds & n & ->). rewrite link_inode_spec by done.
  destruct (entry st (ds ++ [n])) as [|] eqn:Hnone; [done|]. destruct (nodes st !! i) as [x|] eqn:Hx; [|done].
  destruct (is_file x) eqn:Hf; [|done]. destruct (entry st ds) as [d|] eqn:Hd; [|by rewrite node_none].
  destruct (entry_node st Hok ds d Hd) as (p & Hp & [[Hpi _] _ _ _]). rewrite (node_entry st ds d p Hd Hp).
  destruct (is_directory p) eqn:Hdir; [|done]. cbn [snd]. split; [by apply (link_ok st ds n d p i x)|].
  destruct (ok_nodes st Hok i x Hx) as [[Hxi _] _ _ _].
  apply (kept_wf st _ Hwf). intros j m. cbn [nodes linked with_nodes]. rewrite Hpi, Hxi.
  intros [[<- <-]|[_ [[<- <-]|[_ Hm]]%lookup_insert_Some]]%lookup_insert_Some; right.
  - by exists x.
  - exists p. split; [done|]. apply file_data_map_children.
  - by exists m.
Qed.

Lemma update_children_wf st path f : files_wf st → files_wf (update_children st path f).2.
Proof.
  intros Hwf. unfold update_children, node_by_inode. destruct (inode_for_path st path) as [i|]; [|done].
  destruct (nodes st !! i) as [m|] eqn:Hm; [|done]. cbn [ok_or].
  destruct (kind m) eqn:Hk; try done. apply (kept_wf st _ Hwf). intros j m'. cbn [nodes with_nodes snd].
  intros [[<- <-]|[_ Hm']]%lookup_insert_Some; right; [exists m|by exists m']. split; [done|]. unfold file_data. by rewrite Hk.
Qed.

Lemma move_paths_wf st o n op on np nn : files_wf st → files_wf (move_paths st o n op on np nn).2.
Proof.
  intros Hwf. unfold move_paths. destruct (take_moved _ _ _ _) as [[l|e] ps]; [|done].
  pose proof (update_children_wf (with_paths st ps) op (λ c, c ∖ {[on]}) Hwf) as H1.
  destruct (update_children _ op _) as [[u1|e1] s1]; [|done].
  pose proof (update_children_wf s1 np (λ c, {[nn]} ∪ c) H1) as H2.
  by destruct (update_children s1 np _) as [[u2|e2] s2].
Qed.

Lemma rename_ok st old new : fs_ok st → good old → good new → fs_ok (rename st (tmp_path old) (tmp_path new)).2.
Proof.
  intros [Hok Hwf] Ho Hn. split.
  { destruct (rename_cases st old new Hok Ho Hn) as [(e & -> & _)|(st' & -> & _ & Hok' & _)]; done. }
  unfold rename. rewrite !tmpfs_normalize_id by done. case_match; [done|]. case_match; [done|].
  destruct (split_path (tmp_path old)) as [o|] eqn:Hso; [|done]. destruct (split_path (tmp_path new)) as [n|] eqn:Hsn; [|done].
  destruct (node st (tmp_path old)) as [x|]; [|done]. case_match; [done|].
  destruct (check_directory st o.1); [|done]. destruct (check_directory st n.1); [|done].
  destruct (node st (tmp_path new)) as [y|] eqn:Hy; [|by apply move_paths_wf].
  case_match; [done|]. case_match; [done|]. unfold delete_path. rewrite Hsn.
  destruct (decide (new = [])) as [->|Hne]; [done|]. destruct (snoc_case new Hne) as (nc & nn & ->).
  rewrite split_path_snoc in Hsn by done. injection Hsn as <-. cbn [fst snd].
  destruct (delete_node_ok st nc nn (conj Hok Hwf) Hn) as [_ Hwf'].
  destruct (delete_node st (tmp_path nc) nn) as [[[]|e] s1]; [by apply move_paths_wf|done].
Qed.

Lemma lookup_ok st cs : fs_ok st → good cs → fs_ok (tmpfs_lookup_path st (tmp_path cs)).2.
Proof.
  intros [Hok Hwf] Hg. unfold tmpfs_lookup_path. rewrite tmpfs_normalize_id by done.
  destruct (entry st cs) as [i|] eqn:Hi; [|by rewrite node_none].
  destruct (entry_node st Hok cs i Hi) as (n & Hn & [[Hni _] _ _ _]). rewrite (node_entry st cs i n Hi Hn). rewrite Hni.
  assert (is_file n = true → fs_ok (retain_inode st i).2) as Hret by (intros; by eapply retain_ok).
  unfold is_file in Hret. destruct (kind n); try done; specialize (Hret eq_refl);
    destruct (retain_inode st i) as [[u|e] st']; try done; destruct (node_by_inode st' i) as [m|]; try done; by destruct (kind m).
Qed.

Lemma write_ok st h buffer :
  fs_ok st → 0 ≤ h.(offset) → h.(offset) + zlen buffer < 2 ^ 64 → fs_ok (file_write st h buffer).2.
Proof.
  intros Hok Ho Hlen. unfold file_write, node_by_inode. destruct (nodes st !! handle_inode h) as [n|] eqn:Hn; [|done].
  cbn [ok_or mbind result_mbind]. unfold file_data. destruct (kind n) as [|data mode rdev| |] eqn:Hk; try done. cbn.
  pose proof (write_at_spec data h.(offset) buffer) as Hw. destruct (write_at data (offset h) buffer) as [w data'].
  apply (invisible_ok st _ n); [done|done|]. unfold invisible, with_data. rewrite Hk. cbn.
  split; [done|]. split; [done|]. split; [done|]. intros Hwf. by apply Hw.
Qed.

Lemma update_data_ok st i f :
  fs_ok st → (∀ data, wf data → wf (f data)) → fs_ok (update_data st i f).2.
Proof.
  intros Hok Hf. apply update_node_ok; [done|]. intros n n' _ Heq. unfold file_data in Heq.
  destruct (kind n) as [|data mode rdev| |] eqn:Hk; try done. injection Heq as <-.
  unfold invisible, with_data. rewrite Hk. cbn. split; [done|]. split; [done|]. split; [done|]. apply Hf.
Qed.

Lemma absolute_as_string p :
  parsed_path p → is_absolute p = true → p.(ends_with_slash) = false →
  ∃ cs, good cs ∧ as_string (normalize p) = tmp_path cs.
Proof.
  intros Hp Ha He. destruct (absolute_tmp_path_names p Hp) as [Hg _]. exists (resolve p).2. split; [done|].
  rewrite <- as_string_path_of by done. f_equal. unfold path_of.
  pose proof (normalize_parts p) as Hn. rewrite Ha, (resolve_absolute p Ha) in Hn.
  destruct (normalize p) as [ps e] eqn:E. cbn [parts] in Hn. rewrite Hn. f_equal.
  apply (f_equal ends_with_slash) in E. cbn in E. congruence.
Qed.

Lemma step_ok st st' : fs_ok st → tmpfs_step st st' → fs_ok st'.
Proof.
  intros Hok Hstep. destruct Hstep as [? ? cs info Hg| | |p q Hroom Hp Hq|h p Hroom Hp Ha He|p q Hp Hq|p Hp|h| |h n Hn|h mode off n Ho Hn| | | | | |h mode|cs uid gid|cs t|cs name value create replace|cs name|cs n Hg|cs mode Hg|t id q].
  - unfold directory_create. destruct (content_type info); [by apply create_file_ok|by apply create_node_ok|done].
  - by apply create_node_ok.
  - by apply delete_node_ok.
  - destruct (absolute_tmp_path_names p Hp) as [Hgp ->], (absolute_tmp_path_names q Hq) as [Hgq ->].
    unfold link. destruct (inode_for_path _ _); [by apply link_inode_ok|done].
  - destruct (absolute_as_string p Hp Ha He) as (cs & Hg & Heq). unfold file_link_to. rewrite Heq. by apply link_inode_ok.
  - destruct (absolute_tmp_path_names p Hp) as [Hgp ->], (absolute_tmp_path_names q Hq) as [Hgq ->]. by apply rename_ok.
  - destruct (absolute_tmp_path_names p Hp) as [Hgp ->]. by apply lookup_ok.
  - by apply release_ok.
  - by apply write_ok.
  - apply update_data_ok; [done|]. intros data Hd. apply (resize_spec data n 0); [done|lia..].
  - unfold file_allocate, checked_add. destruct (Z.ltb_spec (off + n) (2 ^ 64)); cbn [ok_or]; [|done].
    destruct (_ && _); [done|]. destruct (mode =? _); [done|]. destruct (negb _); [done|].
    apply update_data_ok; [done|]. intros data Hd. case_match; [done|].
    apply (resize_spec data (off + n) 0); [done|lia..].
  - apply update_node_ok; [done|]. solve_invisible.
  - apply update_node_ok; [done|]. solve_invisible.
  - apply update_node_ok; [done|]. solve_invisible.
  - apply update_node_ok; [done|]. solve_invisible.
  - apply update_node_ok; [done|]. solve_invisible.
  - unfold file_chmod. case_match; apply update_node_ok; try done; solve_invisible.
  - unfold path_chown. destruct (path_inode _ _); [|done]. apply update_node_ok; [done|]. solve_invisible.
  - unfold path_set_times. destruct (path_inode _ _); [|done]. apply update_node_ok; [done|]. solve_invisible.
  - unfold path_set_xattr. destruct (path_inode _ _); [|done]. apply update_node_ok; [done|]. solve_invisible.
  - unfold path_remove_xattr. destruct (path_inode _ _); [|done]. apply update_node_ok; [done|]. solve_invisible.
  - pose proof Hg as [Hcs Hn]%Forall_app. inversion Hn. unfold directory_get. rewrite child_path_snoc by done. by apply lookup_ok.
  - unfold directory_chmod. destruct (inode_for_path _ _); [|done]. apply update_node_ok; [done|]. solve_invisible.
  - destruct Hok as [[? ? ? ? ? ?] Hwf]. unfold set_quota. repeat case_match; (split; [constructor; done|exact Hwf]).
Qed.

Lemma new_ok now : fs_ok (tmpfs_new now).
Proof.
  assert (∀ s i, paths (tmpfs_new now) !! s = Some i → s = "/" ∧ i = ROOT_INODE) as Hp.
  { intros s i. cbn [paths tmpfs_new]. by intros [<- <-]%lookup_singleton_Some. }
  assert (∀ i n, nodes (tmpfs_new now) !! i = Some n → i = ROOT_INODE ∧
    n = mkNode ROOT_INODE 0 0 1 0 now ∅ 0 (TmpNodeKind.Directory ∅ DEFAULT_DIR_MODE)) as Hn.
  { intros i n. cbn [nodes tmpfs_new]. by intros [<- <-]%lookup_singleton_Some. }
  split; [constructor|].
  - intros s i [-> _]%Hp. by exists [].
  - split; [done|]. eexists. split; [done|done].
  - intros cs n Hg. split.
    + intros [i [Hs _]%Hp]. apply tmp_path_root in Hs; [by destruct cs|done].
    + intros (d & Hd & Hc). apply Hp in Hd as [_ ->]. unfold children_of in Hc. cbn in Hc. by apply not_elem_of_empty in Hc.
  - intros i n. unfold children_of. destruct (nodes (tmpfs_new now) !! i) as [m|] eqn:Hm; [|by intros ?%not_elem_of_empty].
    apply Hn in Hm as [_ ->]. by intros ?%not_elem_of_empty.
  - intros s i [_ ->]%Hp. by eexists.
  - intros i n [-> ->]%Hn. constructor; cbn; [done|done|lia|done].
  - intros i n data [-> ->]%Hn. done.
Qed.

Lemma reachable_ok st : reachable st → fs_ok st.
Proof. induction 1 as [now|st st' _ IH Hs]; [apply new_ok|by eapply step_ok]. Qed.

(** ** Properties *)

(** C3. From a fresh file system, through any steps of [tmpfs_step], the table of paths is the
    tree that the directories describe: an entry exists exactly when its directory lists its
    name, keys are canonical, the root is a directory, every entry has a node, every node
    counts the paths that refer to it and is kept only while a path or a handle needs it,
    directories and links have one path, and file contents are well formed. The steps get
    single clean names, the table stays below 2^64 entries, and open files are linked only
    to absolute names without a trailing slash: [link_to_trailing_slash] shows that the code
    breaks the tree with one. *)
Theorem tmpfs_tree_invariant st : reachable st → tmpfs_ok st ∧ files_wf st.
Proof. apply reachable_ok. Qed.

(** C18. A rename succeeds exactly when [rename_allowed] says so: the source exists, the
    directory of the target exists, the target is not below the source, and what the target
    names can be replaced (a file by a non-directory, an empty directory by a directory).
    It then moves the whole subtree: below the new name is what was below the old one, the
    old names and what the target named are gone, every other path is as before.  A refused
    rename changes nothing; either way the invariant holds. *)
Theorem rename_moves_subtree st p q :
  tmpfs_ok st → parsed_path p → parsed_path q →
  let old := (resolve p).2 in
  let new := (resolve q).2 in
  let '(r, st') := rename st (absolute_tmp_path p) (absolute_tmp_path q) in
  (r = Ok tt ↔ rename_allowed st old new) ∧ tmpfs_ok st' ∧
  match r with
  | Ok _ => if decide (old = new) then st' = st else renamed st old new st'
  | Err _ => st' = st
  end.
Proof.
  intros Hok Hp Hq old new.
  destruct (absolute_tmp_path_names p Hp) as [Hgp ->], (absolute_tmp_path_names q Hq) as [Hgq ->].
  destruct (rename_cases st _ _ Hok Hgp Hgq) as [(e & -> & Hno)|(st' & -> & Hal & Hok' & Hr)].
  - split; [by split|done].
  - split; [by split|done].
Qed.

(** C30. Unlinking.  Deleting an entry fails exactly for a directory that is not empty, and
    then changes nothing.  Otherwise exactly that entry disappears; the node survives as
    long as another path or an open handle refers to it, with its contents; no other node
    changes but for the children of the directory.  Dropping a handle frees the node exactly
    when it was the last handle of a node without paths, and touches nothing else. *)
Theorem unlink_keeps_open_files st cs n i x :
  tmpfs_ok st → good (cs ++ [n]) → entry st (cs ++ [n]) = Some i → st.(nodes) !! i = Some x →
  (let '(r, st') := delete_node st (tmp_path cs) n in
   if nonempty_directory x then r = Err FSError.DirectoryNotEmpty ∧ st' = st
   else
     r = Ok tt ∧ tmpfs_ok st' ∧
     (∀ ds, good ds → entry st' ds = if decide (cs ++ [n] = ds) then None else entry st ds) ∧
     (st'.(nodes) !! i =
        if (links st.(paths) i =? 1) && (x.(open_count) =? 0) then None
        else Some (with_link_count x (x.(link_count) - 1))) ∧
     (∀ j m, j ≠ i → st.(nodes) !! j = Some m → ∃ f, st'.(nodes) !! j = Some (map_children f m))) ∧
  (∀ h j m, h.(handle_inode) = j → st.(nodes) !! j = Some m → 0 < m.(open_count) →
     (file_drop st h).(paths) = st.(paths) ∧
     (file_drop st h).(nodes) !! j =
       (if (m.(open_count) =? 1) && (m.(link_count) =? 0) then None else Some (with_open_count m (m.(open_count) - 1))) ∧
     ∀ k, k ≠ j → (file_drop st h).(nodes) !! k = st.(nodes) !! k).
Proof.
  intros Hok Hg Hi Hx. split.
  - destruct (delete_node_spec st cs n i x Hok Hg Hi Hx) as (d & p & Hd & Hp & Hdir & Hdi & ->).
    destruct (nonempty_directory x) eqn:Hempty; [done|].
    destruct (ok_nodes st Hok i x Hx) as [[Hxi _] Hxl _ _]. destruct (ok_nodes st Hok d p Hp) as [[Hpi _] _ _ _].
    split; [done|]. split; [by eapply delete_ok|]. split; [intros ds Hds; by apply lookup_entry_delete|].
    cbn [nodes removed with_nodes]. rewrite Hpi, Hxi. split.
    + rewrite lookup_insert_ne by done. unfold drop_link. rewrite <- Hxl.
      destruct (_ && _); [apply lookup_delete_eq|apply lookup_insert_eq].
    + intros j m Hj Hm. destruct (decide (j = d)) as [->|Hjd].
      * rewrite lookup_insert_eq. eexists. do 2 f_equal. congruence.
      * rewrite lookup_insert_ne, drop_link_ne by done. exists (λ c, c). by rewrite map_children_id.
  - intros h j m <- Hm Ho. unfold file_drop. rewrite (release_spec st _ m Hok Hm).
    replace (open_count m =? 0) with false by lia.
    destruct (_ && _); cbn [snd paths nodes with_nodes]; (split; [done|]); split.
    + apply lookup_delete_eq.
    + intros k Hk. by apply lookup_delete_ne.
    + apply lookup_insert_eq.
    + intros k Hk. by apply lookup_insert_ne.
Qed.

Lemma contents_loop st path (f : string → option Z) names :
  (∀ n, n ∈ names → ∃ c, node st (child_path path n) = Ok c ∧ f n = Some c.(inode)) →
  ∃ l, foldr (λ child acc, c ← node st (child_path path child); l ← acc; Ok ((child, c.(inode)) :: l)) (Ok []) names = Ok l ∧
    ∀ n i, (n, i) ∈ l ↔ n ∈ names ∧ f n = Some i.
Proof.
  induction names as [|m names IH]; intros Hc.
  { exists []. split; [done|]. intros n i. rewrite !elem_of_nil. tauto. }
  destruct IH as (l & Hl & Hin); [intros n Hn; apply Hc; by constructor|].
  destruct (Hc m) as (c & Hm & Hf); [constructor|]. exists ((m, c.(inode)) :: l). split.
  { cbn [foldr]. by rewrite Hm, Hl. }
  intros n i. rewrite !elem_of_cons, Hin. split; [intros [[= -> ->]|[? ?]]; auto|].
  intros [[->|?] Hi]; [left; congruence|by right].
Qed.

Lemma directory_listing st cs i n :
  tmpfs_ok st → good cs → entry st cs = Some i → st.(nodes) !! i = Some n → is_directory n = true →
  ∃ l, directory_contents st (tmp_path cs) = Ok l ∧ ∀ m j, (m, j) ∈ l ↔ good_name m ∧ entry st (cs ++ [m]) = Some j.
Proof.
  intros Hok Hg Hi Hn Hdir. unfold directory_contents. rewrite (node_entry st cs i n Hi Hn).
  pose proof (ok_names st Hok i) as Hgood. pose proof (λ m, ok_child st Hok cs m) as Hchild.
  unfold children_of in Hgood, Hchild. unfold is_directory in Hdir. unfold mbind at 1, result_mbind at 1.
  destruct (kind n) as [ch mode| | |] eqn:Hk; try done. rewrite Hn, Hk in Hgood.
  assert (∀ m, good_name m → is_Some (entry st (cs ++ [m])) ↔ m ∈ ch) as Hiff.
  { intros m Hm. rewrite Hchild by (apply Forall_app; split; [done|by constructor]). split.
    - intros (d & Hd & Hmd). replace d with i in Hmd by congruence. by rewrite Hn, Hk in Hmd.
    - intros Hm'. exists i. split; [done|]. by rewrite Hn, Hk. }
  destruct (contents_loop st (tmp_path cs) (λ m, entry st (cs ++ [m])) (elements ch)) as (l & Hl & Hin).
  { intros m Hm%elem_of_elements. pose proof (Hgood m Hm) as Hgm. destruct (proj2 (Hiff m Hgm) Hm) as [j Hj].
    destruct (entry_node st Hok _ j Hj) as (c & Hc & [[Hcj _] _ _ _]). exists c.
    rewrite child_path_snoc, (node_entry st _ j c Hj Hc), Hcj by done. done. }
  exists l. split; [done|]. intros m j. rewrite Hin, elem_of_elements. split.
  - intros [Hm Hj]. split; [by apply Hgood|done].
  - intros [Hgm Hj]. split; [|done]. apply Hiff; [done|by eexists].
Qed.

(** C31. Lookup and listing agree with the tree.  A lookup fails exactly where there is no
    entry; on a directory it changes nothing, and the directory lists exactly the names
    that have an entry in it, each with its inode; on a file or device it takes one
    reference to the node and answers a handle to it. *)
Theorem lookup_and_listing st p :
  tmpfs_ok st → parsed_path p →
  let cs := (resolve p).2 in
  let '(r, st') := tmpfs_lookup_path st (absolute_tmp_path p) in
  match entry st cs with
  | None => r = Err FSError.NotFound ∧ st' = st
  | Some i => ∃ n, st.(nodes) !! i = Some n ∧
      (is_file n = false → st' = st) ∧
      (is_directory n = true →
         r = Ok (FileLike.Directory (tmp_path cs)) ∧
         ∃ l, directory_contents st (tmp_path cs) = Ok l ∧
           ∀ m j, (m, j) ∈ l ↔ good_name m ∧ entry st (cs ++ [m]) = Some j) ∧
      (is_file n = true → n.(open_count) < 2 ^ 64 - 1 →
         (r = Ok (FileLike.File (tmp_path cs) i) ∨ ∃ rdev, r = Ok (FileLike.DeviceFile (tmp_path cs) i rdev)) ∧
         st' = with_nodes st (<[i := with_open_count n (n.(open_count) + 1)]> st.(nodes)))
  end.
Proof.
  intros Hok Hp cs. destruct (absolute_tmp_path_names p Hp) as [Hg ->]. fold cs in Hg |- *.
  destruct (tmpfs_lookup_path st (tmp_path cs)) as [r st'] eqn:Hr. revert Hr.
  unfold tmpfs_lookup_path. rewrite tmpfs_normalize_id by done.
  destruct (entry st cs) as [i|] eqn:Hi; [|rewrite node_none by done; by intros [= <- <-]].
  destruct (entry_node st Hok cs i Hi) as (n & Hn & [[Hni _] _ _ _]). rewrite (node_entry st cs i n Hi Hn). rewrite Hni.
  intros Hr. exists n. split; [done|]. split; [|split].
  - intros Hf. unfold is_file in Hf. destruct (kind n); try done; by injection Hr as _ <-.
  - intros Hdir. split; [|by eapply directory_listing]. unfold is_directory in Hdir.
    destruct (kind n); try done. by injection Hr as <- _.
  - intros Hf Hlt. unfold retain_inode, update_node, node_by_inode, checked_add in Hr. rewrite Hn in Hr. cbn in Hr.
    replace (open_count n + 1 <? 2 ^ 64) with true in Hr by (symmetry; apply Z.ltb_lt; lia). cbn in Hr.
    rewrite lookup_insert_eq in Hr. cbn in Hr. unfold is_file in Hf.
    destruct (kind n) eqn:Hk; try done; cbn in Hr; injection Hr as <- <-; (split; [|done]); [by left|right; by eexists].
Qed.

(** *** File handles *)

(** The bytes of the file behind a handle. *)
Definition handle_contents (st : TmpfsState) (h : TmpfsFileHandle) : option (list byte) :=
  n ← st.(nodes) !! h.(handle_inode);
  match n.(kind) with TmpNodeKind.File data _ _ => Some (contents data) | _ => None end.

(** Only the data of the file behind the handle changed. *)
Definition only_data (st st' : TmpfsState) (h : TmpfsFileHandle) : Prop :=
  st'.(paths) = st.(paths) ∧
  (∀ j, j ≠ h.(handle_inode) → st'.(nodes) !! j = st.(nodes) !! j) ∧
  ∃ n data data', st.(nodes) !! h.(handle_inode) = Some n ∧ file_data n = Ok data ∧
    st'.(nodes) !! h.(handle_inode) = Some (with_data n data').

Lemma handle_data st h c :
  files_wf st → handle_contents st h = Some c →
  ∃ n data mode rdev, st.(nodes) !! h.(handle_inode) = Some n ∧ kind n = TmpNodeKind.File data mode rdev ∧ wf data ∧ contents data = c.
Proof.
  intros Hwf. unfold handle_contents. destruct (nodes st !! handle_inode h) as [n|] eqn:Hn; [|done]. cbn.
  destruct (kind n) as [|data mode rdev| |] eqn:Hk; try done. intros [= <-]. exists n, data, mode, rdev.
  split; [done|]. split; [done|]. split; [|done]. apply (Hwf _ n data Hn). unfold file_data. by rewrite Hk.
Qed.

Lemma update_data_spec st h c f c' :
  files_wf st → handle_contents st h = Some c →
  (∀ data, wf data → contents data = c → contents (f data) = c') →
  let '(r, st') := update_data st h.(handle_inode) f in
  r = Ok tt ∧ handle_contents st' h = Some c' ∧ only_data st st' h.
Proof.
  intros Hwf Hc Hf. destruct (handle_data st h c Hwf Hc) as (n & data & mode & rdev & Hn & Hk & Hw & Hd).
  unfold update_data, update_node, node_by_inode. rewrite Hn. cbn. unfold file_data. rewrite Hk. cbn.
  split; [done|]. unfold handle_contents. cbn. rewrite lookup_insert_eq. cbn. unfold with_data at 1. rewrite Hk. cbn.
  split; [by rewrite (Hf data)|]. split; [done|]. split; [intros j Hj; by apply lookup_insert_ne|].
  exists n, data, (f data). split; [done|]. split; [unfold file_data; by rewrite Hk|]. cbn. apply lookup_insert_eq.
Qed.

Definition at_offset (h : TmpfsFileHandle) (o : Z) : TmpfsFileHandle := mkHandle h.(handle_path) h.(handle_inode) o.

(** [lseek] on unbounded integers. *)
Definition spec_seek (n o off : Z) (whence : Whence) : result FSError Z :=
  match whence with
  | Whence.Start => if off <? 0 then Err FSError.InvalidArguments else Ok off
  | Whence.Current => if o + off <? 0 then Err FSError.InvalidArguments else Ok (o + off)
  | Whence.End_ => if n + off <? 0 then Err FSError.InvalidArguments else Ok (n + off)
  | Whence.Data => if (off <? 0) || (n <=? off) then Err FSError.Other else Ok off
  | Whence.Hole => if (off <? 0) || (n <? off) then Err FSError.Other else Ok n
  end.

Lemma seek_spec st h c off whence :
  files_wf st → handle_contents st h = Some c → 0 ≤ h.(offset) < 2 ^ 63 → zlen c < 2 ^ 63 →
  is_sint 64 off → h.(offset) + off < 2 ^ 63 → zlen c + off < 2 ^ 63 →
  file_seek st h off whence =
  match spec_seek (zlen c) h.(offset) off whence with
  | Ok next => (Ok next, at_offset h next)
  | Err e => (Err e, h)
  end.
Proof.
  intros Hwf Hc Ho Hlen Hoff H1 H2. destruct (handle_data st h c Hwf Hc) as (n & data & mode & rdev & Hn & Hk & Hw & Hd).
  unfold file_seek, node_by_inode. rewrite Hn. cbn [ok_or mbind result_mbind]. unfold file_data. rewrite Hk. cbn.
  assert (data.(len) = zlen c) as Hl.
  { rewrite <- Hd. unfold zlen. rewrite length_contents. destruct Hw as [? _]. lia. }
  rewrite Hl. pose proof (zlen_nonneg c) as Hcn. change (2 ^ 63) with 9223372036854775808 in *.
  assert (∀ z, - 9223372036854775808 ≤ z < 9223372036854775808 → swrap 64 z = z) as Hsw.
  { intros z Hz. apply swrap_id; [done|]. exact Hz. }
  unfold is_sint in Hoff. change (2 ^ (64 - 1)) with 9223372036854775808 in Hoff.
  rewrite (Hsw (zlen c)) by lia. destruct whence; cbn [spec_seek].
  - by destruct (off <? 0).
  - rewrite (Hsw (offset h)), Hsw by lia. by destruct (offset h + off <? 0).
  - rewrite Hsw by lia. by destruct (zlen c + off <? 0).
  - destruct (Z.ltb_spec off 0); cbn [orb]; [done|]. destruct (zlen c <=? off); [done|].
    by replace (off <? 0) with false by lia.
  - destruct (Z.ltb_spec off 0); cbn [orb]; [done|]. destruct (zlen c <? off); [done|].
    by replace (zlen c <? 0) with false by lia.
Qed.

(** C20. A file handle is a byte sequence with a position.  Reading returns the bytes at the
    position and advances by their number; writing stores the buffer at the position,
    extending with zeros, and advances; seeking is [lseek] while positions and lengths fit
    an [i64]; truncation cuts or extends with zeros.  Only the data of that file changes:
    no path, no other node, nor any other attribute of the node. *)
Theorem file_handle_io st h c :
  files_wf st → handle_contents st h = Some c → 0 ≤ h.(offset) < 2 ^ 63 → zlen c < 2 ^ 63 →
  (∀ buffer,
     let got := spec_read c h.(offset) (zlen buffer) in
     file_read st h buffer = (Ok (zlen got, got ++ drop (length got) buffer), at_offset h (h.(offset) + zlen got))) ∧
  (∀ buffer, h.(offset) + zlen buffer < 2 ^ 64 →
     let '(r, h', st') := file_write st h buffer in
     r = Ok (zlen buffer) ∧ (buffer ≠ [] → h.(offset) + zlen buffer < 2 ^ 64 - 1 → h' = at_offset h (h.(offset) + zlen buffer)) ∧
     handle_contents st' h' = Some (spec_write c h.(offset) buffer) ∧ only_data st st' h) ∧
  (∀ off whence, is_sint 64 off → h.(offset) + off < 2 ^ 63 → zlen c + off < 2 ^ 63 →
     file_seek st h off whence =
     match spec_seek (zlen c) h.(offset) off whence with
     | Ok next => (Ok next, at_offset h next)
     | Err e => (Err e, h)
     end) ∧
  (∀ n, 0 ≤ n < 2 ^ 64 →
     let '(r, st') := file_truncate st h n in
     r = Ok tt ∧ handle_contents st' h = Some (spec_truncate c n) ∧ only_data st st' h).
Proof.
  intros Hwf Hc Ho Hlen. destruct (handle_data st h c Hwf Hc) as (n & data & mode & rdev & Hn & Hk & Hw & Hd).
  split; [|split; [|split]].
  - intros buffer got. unfold file_read, file_read_at, node_by_inode. rewrite Hn. cbn [ok_or mbind result_mbind].
    unfold file_data. rewrite Hk. cbn [mbind result_mbind]. rewrite read_at_spec by (done || lia). by rewrite Hd.
  - intros buffer Hb. unfold file_write, node_by_inode. rewrite Hn. cbn [ok_or mbind result_mbind]. unfold file_data. rewrite Hk.
    cbn [mbind result_mbind]. destruct (write_at_spec data h.(offset) buffer Hw) as (Hw1 & Hw2 & Hw3); [lia|done|].
    destruct (write_at data (offset h) buffer) as [w data']. cbn [fst snd] in *. subst w.
    split; [done|]. split; [|split].
    + intros _ Hb'. unfold at_offset, sat_add. by rewrite Z.min_l by lia.
    + unfold handle_contents. cbn. rewrite lookup_insert_eq. cbn. unfold with_data. rewrite Hk. cbn. by rewrite Hw3, Hd.
    + split; [done|]. split; [intros j Hj; by apply lookup_insert_ne|].
      exists n, data, data'. split; [done|]. split; [unfold file_data; by rewrite Hk|]. cbn. apply lookup_insert_eq.
  - intros. by apply seek_spec.
  - intros m Hm. apply (update_data_spec st h c); [done|done|].
    intros d Hd' <-. by apply (resize_spec d m 0); [|lia..].
Qed.

(** ** Concrete inputs *)

(** "/d" with the file "/d/f" in it, and "/g" besides. *)
Definition sample_times : FileTimes := mkTimes 0 0 0 0 0 0 0 0.

Definition dir_info (n : string) : DirectoryContentInfo := mkContentInfo n DirectoryContentType.Directory None 0.
Definition file_info_of (n : string) : DirectoryContentInfo := mkContentInfo n DirectoryContentType.File None 0.

Definition sample_1 : TmpfsState := (directory_create (tmpfs_new sample_times) (0, 0) sample_times (tmp_path []) (dir_info "d")).2.
Definition sample_2 : TmpfsState := (directory_create sample_1 (0, 0) sample_times (tmp_path ["d"]) (file_info_of "f")).2.
Definition sample : TmpfsState := (directory_create sample_2 (0, 0) sample_times (tmp_path []) (file_info_of "g")).2.

Ltac solve_good := cbn [app]; repeat (apply List.Forall_cons; [by split; [|split]|]); apply List.Forall_nil.

Lemma sample_reachable : reachable sample.
Proof.
  eapply reach_step; [eapply reach_step; [eapply reach_step; [apply (reach_new sample_times)|]|]|].
  - apply (step_create _ (0, 0) sample_times [] (dir_info "d")). solve_good.
  - apply (step_create _ (0, 0) sample_times ["d"] (file_info_of "f")). solve_good.
  - apply (step_create _ (0, 0) sample_times [] (file_info_of "g")). solve_good.
Qed.

Lemma sample_ok : tmpfs_ok sample.
Proof. apply reachable_ok, sample_reachable. Qed.

Lemma tmpfs_tree_invariant_witness : reachable sample ∧ tmpfs_ok sample ∧ files_wf sample.
Proof. split; [apply sample_reachable|]. apply (tmpfs_tree_invariant sample), sample_reachable. Defined.

(** Renaming the directory moves the file in it; renaming it below itself is refused. *)
Lemma rename_moves_subtree_witness :
  let '(r, st') := rename sample (absolute_tmp_path (Path_new "/d")) (absolute_tmp_path (Path_new "/e")) in
  r = Ok tt ∧ is_Some (entry sample ["d"; "f"]) ∧ entry st' ["e"; "f"] = entry sample ["d"; "f"] ∧
  (rename sample "/d" "/d/x").1 = Err FSError.AccessDenied ∧ renamed sample ["d"] ["e"] st'.
Proof.
  pose proof (rename_moves_subtree sample (Path_new "/d") (Path_new "/e")
    sample_ok (parsed_path_new "/d") (parsed_path_new "/e")) as H.
  cbv zeta in H.
  assert (rename sample (absolute_tmp_path (Path_new "/d")) (absolute_tmp_path (Path_new "/e")) = (Ok tt, (rename sample "/d" "/e").2)) as Hr
    by (vm_compute; reflexivity).
  rewrite Hr in H |- *. destruct H as (_ & _ & H). split; [done|]. split; [exists (ROOT_INODE + 2); vm_compute; reflexivity|]. split; [vm_compute; reflexivity|].
  split; [vm_compute; reflexivity|].
  replace (resolve (Path_new "/d")).2 with ["d"] in H by (vm_compute; reflexivity).
  replace (resolve (Path_new "/e")).2 with ["e"] in H by (vm_compute; reflexivity).
  destruct (decide (["d"] = ["e"])) as [E|_]; [discriminate E|exact H].
Defined.

(** The state with "/g" open. *)
Definition opened : TmpfsState := (tmpfs_lookup_path sample (absolute_tmp_path (Path_new "/g"))).2.

Lemma opened_ok : tmpfs_ok opened.
Proof.
  apply reachable_ok. eapply reach_step; [apply sample_reachable|]. apply step_lookup, parsed_path_new.
Qed.

Definition g_inode : Z := ROOT_INODE + 3.
Definition g_node : TmpNode := default (mkNode 0 0 0 0 0 sample_times ∅ 0 (TmpNodeKind.Symlink "")) (opened.(nodes) !! g_inode).
Definition g_handle : TmpfsFileHandle := file_handle_new "/g" g_inode.

(** Unlinking a file that is open keeps its node, closing it then removes it. *)
Lemma unlink_keeps_open_files_witness :
  entry opened ["g"] = Some g_inode ∧ opened.(nodes) !! g_inode = Some g_node ∧ g_node.(open_count) = 1 ∧
  let '(r, st') := delete_node opened "/" "g" in
  r = Ok tt ∧ entry st' ["g"] = None ∧ is_Some (entry st' ["d"]) ∧
  st'.(nodes) !! g_inode = Some (with_link_count g_node 0) ∧ (file_drop st' g_handle).(nodes) !! g_inode = None.
Proof.
  assert (good ([] ++ ["g"])) as Hg by solve_good.
  assert (entry opened ([] ++ ["g"]) = Some g_inode) as Hi by (vm_compute; reflexivity).
  assert (opened.(nodes) !! g_inode = Some g_node) as Hx by (vm_compute; reflexivity).
  split; [exact Hi|]. split; [exact Hx|]. split; [vm_compute; reflexivity|].
  destruct (unlink_keeps_open_files opened [] "g" g_inode g_node opened_ok Hg Hi Hx) as [H _].
  change (tmp_path []) with "/" in H.
  assert (delete_node opened "/" "g" = (Ok tt, (delete_node opened "/" "g").2)) as Hr by (vm_compute; reflexivity).
  rewrite Hr in H |- *. replace (nonempty_directory g_node) with false in H by (vm_compute; reflexivity).
  destruct H as (_ & Hok & Hent & Hnode & _). split; [done|].
  split; [rewrite (Hent ["g"]) by solve_good; done|].
  split; [rewrite (Hent ["d"]) by solve_good; exists (ROOT_INODE + 1); vm_compute; reflexivity|].
  split; [|vm_compute; reflexivity].
  rewrite Hnode. vm_compute. reflexivity.
Defined.

Lemma lookup_and_listing_witness :
  (tmpfs_lookup_path sample (absolute_tmp_path (Path_new "/nope"))).1 = Err FSError.NotFound ∧
  ∃ l, directory_contents sample "/d" = Ok l ∧ ∀ m j, (m, j) ∈ l ↔ good_name m ∧ entry sample ["d"; m] = Some j.
Proof.
  split.
  - pose proof (lookup_and_listing sample (Path_new "/nope") sample_ok (parsed_path_new "/nope")) as H.
    assert (tmpfs_lookup_path sample (absolute_tmp_path (Path_new "/nope")) = (Err FSError.NotFound, sample)) as Hr
      by (vm_compute; reflexivity).
    rewrite Hr in H. done.
  - pose proof (lookup_and_listing sample (Path_new "/d") sample_ok (parsed_path_new "/d")) as H.
    cbv zeta in H. replace (resolve (Path_new "/d")).2 with ["d"] in H by (vm_compute; reflexivity).
    destruct (tmpfs_lookup_path sample (absolute_tmp_path (Path_new "/d"))) as [r st'].
    assert (entry sample ["d"] = Some (ROOT_INODE + 1)) as Hd by (vm_compute; reflexivity). rewrite Hd in H.
    destruct H as (n & Hn & _ & H & _). destruct H as (_ & l & Hl & Hin).
    + replace n with (default g_node (sample.(nodes) !! (ROOT_INODE + 1))) by (by rewrite Hn). vm_compute. reflexivity.
    + exists l. split; [exact Hl|exact Hin].
Defined.

(** Four bytes written to an empty file, read back from the start. *)
Lemma file_handle_io_witness :
  handle_contents sample g_handle = Some [] ∧
  let '(r, h', st') := file_write sample g_handle [Byte.x01; Byte.x02; Byte.x03; Byte.x04] in
  r = Ok 4 ∧ h'.(offset) = 4 ∧ handle_contents st' h' = Some [Byte.x01; Byte.x02; Byte.x03; Byte.x04].
Proof.
  assert (handle_contents sample g_handle = Some []) as Hc by (vm_compute; reflexivity).
  split; [exact Hc|].
  destruct (file_handle_io sample g_handle [] (proj2 (reachable_ok _ sample_reachable)) Hc) as (_ & Hw & _); [vm_compute; split; [discriminate|reflexivity]|vm_compute; reflexivity|].
  specialize (Hw [Byte.x01; Byte.x02; Byte.x03; Byte.x04]).
  destruct (file_write sample g_handle [Byte.x01; Byte.x02; Byte.x03; Byte.x04]) as [[r h'] st'].
  destruct Hw as (-> & Hh & Hc' & _); [vm_compute; reflexivity|]. split; [done|].
  rewrite Hh by (done || (vm_compute; reflexivity)). rewrite Hh in Hc' by (done || (vm_compute; reflexivity)).
  split; [done|]. exact Hc'.
Defined.

(** ** Where the code departs from POSIX *)

(** Linking an open file to a name with a trailing slash (linkat with AT_EMPTY_PATH) stores
    the key with the slash, while the directory lists the name without it: the new name is
    not found, and the directory can no longer be listed. *)
Lemma link_to_trailing_slash :
  let '(r, st') := file_link_to sample g_handle (Path_new "/d/h/") in
  r = Ok tt ∧ node st' "/d/h" = Err FSError.NotFound ∧
  (∃ l, directory_contents sample "/d" = Ok l) ∧ directory_contents st' "/d" = Err FSError.NotFound.
Proof. vm_compute. split; [done|]. split; [done|]. split; [by eexists|done]. Qed.

(** Renaming one of two names of a file onto the other removes the first name. *)
Lemma rename_between_links :
  let st := (link sample "/g" "/h").2 in
  let '(r, st') := rename st "/g" "/h" in
  node st "/g" = node st "/h" ∧ r = Ok tt ∧ node st' "/g" = Err FSError.NotFound.
Proof. vm_compute. done. Qed.
