(* ===== verification/SignalData.v ===== *)
(** * Signals: numbers, sets, actions and what accompanies a signal

    The data of misc/signal.rs: [Signal] with its 64 values, sets of signals as bit masks,
    [SigInfo] with its union of fields as the 14 words it occupies, the form in which a
    pending signal keeps it, and the action of a signal with its encoding in user memory
    (systemcall/implementations/signal.rs). *)

From S2P Require Import Prelude Errors.

(** ** Signals *)

Module Signal.
Inductive Signal : Type :=
  | SIGHUP | SIGINT | SIGQUIT | SIGILL | SIGTRAP | SIGABRT | SIGBUS | SIGFPE | SIGKILL | SIGUSR1 |
  SIGSEGV | SIGUSR2 | SIGPIPE | SIGALRM | SIGTERM | SIGSTKFLT | SIGCHLD | SIGCONT | SIGSTOP |
  SIGTSTP | SIGTTIN | SIGTTOU | SIGURG | SIGXCPU | SIGXFSZ | SIGVTALRM | SIGPROF | SIGWINCH |
  SIGIO | SIGPWR | SIGSYS | SIGCANCEL | SIGSETXID | SIGRTMIN | SIGRTMIN_PLUS_1 | SIGRTMIN_PLUS_2
  | SIGRTMIN_PLUS_3 | SIGRTMIN_PLUS_4 | SIGRTMIN_PLUS_5 | SIGRTMIN_PLUS_6 | SIGRTMIN_PLUS_7 |
  SIGRTMIN_PLUS_8 | SIGRTMIN_PLUS_9 | SIGRTMIN_PLUS_10 | SIGRTMIN_PLUS_11 | SIGRTMIN_PLUS_12 |
  SIGRTMIN_PLUS_13 | SIGRTMIN_PLUS_14 | SIGRTMIN_PLUS_15 | SIGRTMIN_PLUS_16 | SIGRTMIN_PLUS_17 |
  SIGRTMIN_PLUS_18 | SIGRTMIN_PLUS_19 | SIGRTMIN_PLUS_20 | SIGRTMIN_PLUS_21 | SIGRTMIN_PLUS_22 |
  SIGRTMIN_PLUS_23 | SIGRTMIN_PLUS_24 | SIGRTMIN_PLUS_25 | SIGRTMIN_PLUS_26 | SIGRTMIN_PLUS_27 |
  SIGRTMIN_PLUS_28 | SIGRTMIN_PLUS_29 | SIGRTMIN_PLUS_30.
End Signal.
Abbreviation Signal := Signal.Signal.

#[export] Instance Signal_eq_dec : EqDecision Signal.
Proof. solve_decision. Defined.

Definition SIGNAL_AMOUNT : Z := 64.

(** [Signal::iter()]: the signals in the order of their numbers. *)
Definition all_signals : list Signal :=
  [Signal.SIGHUP; Signal.SIGINT; Signal.SIGQUIT; Signal.SIGILL; Signal.SIGTRAP; Signal.SIGABRT;
   Signal.SIGBUS; Signal.SIGFPE; Signal.SIGKILL; Signal.SIGUSR1; Signal.SIGSEGV; Signal.SIGUSR2;
   Signal.SIGPIPE; Signal.SIGALRM; Signal.SIGTERM; Signal.SIGSTKFLT; Signal.SIGCHLD;
   Signal.SIGCONT; Signal.SIGSTOP; Signal.SIGTSTP; Signal.SIGTTIN; Signal.SIGTTOU;
   Signal.SIGURG; Signal.SIGXCPU; Signal.SIGXFSZ; Signal.SIGVTALRM; Signal.SIGPROF;
   Signal.SIGWINCH; Signal.SIGIO; Signal.SIGPWR; Signal.SIGSYS; Signal.SIGCANCEL;
   Signal.SIGSETXID; Signal.SIGRTMIN; Signal.SIGRTMIN_PLUS_1; Signal.SIGRTMIN_PLUS_2;
   Signal.SIGRTMIN_PLUS_3; Signal.SIGRTMIN_PLUS_4; Signal.SIGRTMIN_PLUS_5;
   Signal.SIGRTMIN_PLUS_6; Signal.SIGRTMIN_PLUS_7; Signal.SIGRTMIN_PLUS_8;
   Signal.SIGRTMIN_PLUS_9; Signal.SIGRTMIN_PLUS_10; Signal.SIGRTMIN_PLUS_11;
   Signal.SIGRTMIN_PLUS_12; Signal.SIGRTMIN_PLUS_13; Signal.SIGRTMIN_PLUS_14;
   Signal.SIGRTMIN_PLUS_15; Signal.SIGRTMIN_PLUS_16; Signal.SIGRTMIN_PLUS_17;
   Signal.SIGRTMIN_PLUS_18; Signal.SIGRTMIN_PLUS_19; Signal.SIGRTMIN_PLUS_20;
   Signal.SIGRTMIN_PLUS_21; Signal.SIGRTMIN_PLUS_22; Signal.SIGRTMIN_PLUS_23;
   Signal.SIGRTMIN_PLUS_24; Signal.SIGRTMIN_PLUS_25; Signal.SIGRTMIN_PLUS_26;
   Signal.SIGRTMIN_PLUS_27; Signal.SIGRTMIN_PLUS_28; Signal.SIGRTMIN_PLUS_29;
   Signal.SIGRTMIN_PLUS_30].

Definition number (s : Signal) : Z :=
  match s with
  | Signal.SIGHUP => 1
  | Signal.SIGINT => 2
  | Signal.SIGQUIT => 3
  | Signal.SIGILL => 4
  | Signal.SIGTRAP => 5
  | Signal.SIGABRT => 6
  | Signal.SIGBUS => 7
  | Signal.SIGFPE => 8
  | Signal.SIGKILL => 9
  | Signal.SIGUSR1 => 10
  | Signal.SIGSEGV => 11
  | Signal.SIGUSR2 => 12
  | Signal.SIGPIPE => 13
  | Signal.SIGALRM => 14
  | Signal.SIGTERM => 15
  | Signal.SIGSTKFLT => 16
  | Signal.SIGCHLD => 17
  | Signal.SIGCONT => 18
  | Signal.SIGSTOP => 19
  | Signal.SIGTSTP => 20
  | Signal.SIGTTIN => 21
  | Signal.SIGTTOU => 22
  | Signal.SIGURG => 23
  | Signal.SIGXCPU => 24
  | Signal.SIGXFSZ => 25
  | Signal.SIGVTALRM => 26
  | Signal.SIGPROF => 27
  | Signal.SIGWINCH => 28
  | Signal.SIGIO => 29
  | Signal.SIGPWR => 30
  | Signal.SIGSYS => 31
  | Signal.SIGCANCEL => 32
  | Signal.SIGSETXID => 33
  | Signal.SIGRTMIN => 34
  | Signal.SIGRTMIN_PLUS_1 => 35
  | Signal.SIGRTMIN_PLUS_2 => 36
  | Signal.SIGRTMIN_PLUS_3 => 37
  | Signal.SIGRTMIN_PLUS_4 => 38
  | Signal.SIGRTMIN_PLUS_5 => 39
  | Signal.SIGRTMIN_PLUS_6 => 40
  | Signal.SIGRTMIN_PLUS_7 => 41
  | Signal.SIGRTMIN_PLUS_8 => 42
  | Signal.SIGRTMIN_PLUS_9 => 43
  | Signal.SIGRTMIN_PLUS_10 => 44
  | Signal.SIGRTMIN_PLUS_11 => 45
  | Signal.SIGRTMIN_PLUS_12 => 46
  | Signal.SIGRTMIN_PLUS_13 => 47
  | Signal.SIGRTMIN_PLUS_14 => 48
  | Signal.SIGRTMIN_PLUS_15 => 49
  | Signal.SIGRTMIN_PLUS_16 => 50
  | Signal.SIGRTMIN_PLUS_17 => 51
  | Signal.SIGRTMIN_PLUS_18 => 52
  | Signal.SIGRTMIN_PLUS_19 => 53
  | Signal.SIGRTMIN_PLUS_20 => 54
  | Signal.SIGRTMIN_PLUS_21 => 55
  | Signal.SIGRTMIN_PLUS_22 => 56
  | Signal.SIGRTMIN_PLUS_23 => 57
  | Signal.SIGRTMIN_PLUS_24 => 58
  | Signal.SIGRTMIN_PLUS_25 => 59
  | Signal.SIGRTMIN_PLUS_26 => 60
  | Signal.SIGRTMIN_PLUS_27 => 61
  | Signal.SIGRTMIN_PLUS_28 => 62
  | Signal.SIGRTMIN_PLUS_29 => 63
  | Signal.SIGRTMIN_PLUS_30 => 64
  end.

(** [Signal::try_from] of a [u64]. *)
Definition signal_try_from (n : Z) : option Signal :=
  if (1 <=? n) && (n <=? SIGNAL_AMOUNT) then all_signals !! Z.to_nat (n - 1) else None.

Definition index (s : Signal) : Z := number s - 1.
Definition mask (s : Signal) : Z := Z.shiftl 1 (number s - 1).
Definition is_realtime (s : Signal) : bool := number Signal.SIGRTMIN <=? number s.

Definition is_unblockable (s : Signal) : bool :=
  match s with Signal.SIGKILL | Signal.SIGSTOP => true | _ => false end.

Definition default_action_dumps_core (s : Signal) : bool :=
  match s with
  | Signal.SIGQUIT | Signal.SIGILL | Signal.SIGTRAP | Signal.SIGABRT | Signal.SIGBUS | Signal.SIGFPE
  | Signal.SIGSEGV | Signal.SIGXCPU | Signal.SIGXFSZ | Signal.SIGSYS => true
  | _ => false
  end.

(** ** Sets of signals: a [u64] with bit [n - 1] for signal [n] *)

Definition contains (set bits : Z) : bool := Z.land set bits =? bits.
Definition insert_bits (set bits : Z) : Z := Z.lor set bits.
Definition remove_bits (set bits : Z) : Z := Z.ldiff set bits.

(** ** What accompanies a signal *)

Definition SI_USER : Z := 0.
Definition SI_MESGQ : Z := -3.
Definition SI_QUEUE : Z := -1.
Definition SI_TKILL : Z := -6.
Definition POLL_IN : Z := 1.
Definition POLL_HUP : Z := 6.

(** The union [SigInfoFields] as 14 words of 64 bits.  What a constructor does not write is
    left undefined by the source and zero here. *)
Record SigInfo := mkSigInfo { si_signo : Z; si_errno : Z; si_code : Z; fields : list Z }.

Definition field (i : SigInfo) (k : nat) : Z := default 0 (i.(fields) !! k).

Definition words (ws : list Z) : list Z := ws ++ replicate (14 - length ws) 0.

(** Two 32-bit members in one word. *)
Definition pair_word (lo hi : Z) : Z := uwrap 32 lo + 2 ^ 32 * uwrap 32 hi.

Definition siginfo_for_signal (s : Signal) : SigInfo := mkSigInfo (number s) 0 0 (words []).

Definition for_process_signal (s : Signal) (sender_pid sender_uid : Z) : SigInfo :=
  mkSigInfo (number s) 0 SI_USER (words [pair_word sender_pid sender_uid; 0]).

Definition for_waitid (s : Signal) (code pid status : Z) : SigInfo :=
  mkSigInfo (number s) 0 code (words [pair_word pid 0; pair_word status 0; 0; 0]).

Definition for_poll_signal (s : Signal) (code fd : Z) : SigInfo :=
  mkSigInfo (number s) 0 code (words [0; pair_word fd 0]).

Definition sender_pid (i : SigInfo) : Z := swrap 32 (field i 0).
Definition sender_uid (i : SigInfo) : Z := uwrap 32 (field i 0 / 2 ^ 32).
Definition signal_value_int (i : SigInfo) : Z := swrap 32 (field i 1).
Definition signal_value_ptr (i : SigInfo) : Z := field i 1.
Definition poll_fd (i : SigInfo) : Z := swrap 32 (field i 1).

Definition set_signal_value (i : SigInfo) (value : Z) : SigInfo :=
  mkSigInfo i.(si_signo) i.(si_errno) i.(si_code) (<[1%nat := value]> i.(fields)).

Definition with_si_code (i : SigInfo) (code : Z) : SigInfo :=
  mkSigInfo i.(si_signo) i.(si_errno) code i.(fields).

Record PendingSignalInfo := mkPending {
  p_signo : Z; p_errno : Z; p_code : Z; p_pid : Z; p_uid : Z; p_value : Z; p_fd : Z;
}.

Definition pending_for_signal (s : Signal) : PendingSignalInfo := mkPending (number s) 0 0 0 0 0 0.

(** [POLL_IN | POLL_OUT | POLL_MSG | POLL_ERR | POLL_PRI | POLL_HUP] *)
Definition is_poll_code (code : Z) : bool := (POLL_IN <=? code) && (code <=? POLL_HUP).

Definition from_siginfo (i : SigInfo) : PendingSignalInfo :=
  mkPending i.(si_signo) i.(si_errno) i.(si_code) (sender_pid i) (sender_uid i) (signal_value_ptr i)
    (if is_poll_code i.(si_code) then poll_fd i else 0).

Definition to_siginfo (p : PendingSignalInfo) : SigInfo :=
  mkSigInfo p.(p_signo) p.(p_errno) p.(p_code)
    (if is_poll_code p.(p_code) then words [0; pair_word p.(p_fd) 0]
     else words [pair_word p.(p_pid) p.(p_uid); p.(p_value)]).

(** ** Actions *)

Module SignalHandlingType.
Inductive SignalHandlingType : Type :=
  | Default
  | Ignore
  | Function1 (func : Z)
  | Function2 (func : Z).
End SignalHandlingType.
Abbreviation SignalHandlingType := SignalHandlingType.SignalHandlingType.

Record SignalAction := mkAction {
  handling_type : SignalHandlingType;
  sig_handler_ignored_sigs : Z;
  flags : Z;
  restorer : Z;
}.

Definition default_action : SignalAction := mkAction SignalHandlingType.Default 0 0 0.

Definition default_signal_action_vec : list SignalAction := replicate 64 default_action.

Definition has_handler (a : SignalAction) : bool :=
  match a.(handling_type) with
  | SignalHandlingType.Function1 _ | SignalHandlingType.Function2 _ => true
  | _ => false
  end.

(** As the system call passes it (systemcall/implementations/signal.rs). *)
Record LinuxSigAction := mkLinuxAction { l_handler : Z; l_flags : Z; l_restorer : Z; l_mask : Z }.

Definition SIG_DFL : Z := 0.
Definition SIG_IGN : Z := 1.
Definition SA_SIGINFO : Z := 4.

Definition encode_sigaction (a : SignalAction) : LinuxSigAction :=
  let '(handler, extra_flags) :=
    match a.(handling_type) with
    | SignalHandlingType.Default => (SIG_DFL, 0)
    | SignalHandlingType.Ignore => (SIG_IGN, 0)
    | SignalHandlingType.Function1 func => (func, 0)
    | SignalHandlingType.Function2 func => (func, SA_SIGINFO)
    end in
  mkLinuxAction handler (Z.lor a.(flags) extra_flags) a.(restorer) a.(sig_handler_ignored_sigs).

(** Every bit of a mask is a signal, so [Signals::from_bits_truncate] keeps a [u64]. *)
Definition decode_sigaction (a : LinuxSigAction) : SignalAction :=
  mkAction
    (if a.(l_handler) =? SIG_DFL then SignalHandlingType.Default
     else if a.(l_handler) =? SIG_IGN then SignalHandlingType.Ignore
     else if contains a.(l_flags) SA_SIGINFO then SignalHandlingType.Function2 a.(l_handler)
     else SignalHandlingType.Function1 a.(l_handler))
    a.(l_mask) a.(l_flags) a.(l_restorer).

(** ** Lemmas *)

Lemma number_range s : 1 ≤ number s ≤ SIGNAL_AMOUNT.
Proof. by destruct s. Qed.

Lemma signal_try_from_number s : signal_try_from (number s) = Some s.
Proof. by destruct s. Qed.

#[export] Instance number_inj : Inj (=) (=) number.
Proof.
  intros s t H. enough (Some s = Some t) by congruence.
  by rewrite <- (signal_try_from_number s), <- (signal_try_from_number t), H.
Qed.

Lemma all_signals_complete s : s ∈ all_signals.
Proof.
  pose proof (signal_try_from_number s) as H. unfold signal_try_from in H. case_match; [|done].
  by eapply list_elem_of_lookup_2.
Qed.

Lemma all_signals_nodup : NoDup all_signals.
Proof. apply (bool_decide_unpack _). vm_compute. exact I. Qed.

Lemma testbit_mask s i : 0 ≤ i → Z.testbit (mask s) i = (i =? number s - 1).
Proof.
  intros Hi. pose proof (number_range s). unfold mask. rewrite Z.shiftl_1_l. destruct (Z.eqb_spec i (number s - 1)) as [->|Hne].
  - apply Z.pow2_bits_true. lia.
  - apply Z.pow2_bits_false. congruence.
Qed.

(** Membership of one signal in a set. *)
Lemma contains_mask set s : contains set (mask s) = Z.testbit set (number s - 1).
Proof.
  pose proof (number_range s). unfold contains. destruct (Z.testbit set (number s - 1)) eqn:Hb.
  - apply Z.eqb_eq, Z.bits_inj'. intros i Hi. rewrite Z.land_spec, testbit_mask by done.
    destruct (Z.eqb_spec i (number s - 1)) as [->|]; by rewrite ?Hb, ?andb_false_r.
  - apply Z.eqb_neq. intros Heq. apply (f_equal (λ z, Z.testbit z (number s - 1))) in Heq.
    rewrite Z.land_spec, testbit_mask, Hb, Z.eqb_refl in Heq by lia. done.
Qed.

Lemma contains_insert set s t : contains (insert_bits set (mask s)) (mask t) = bool_decide (s = t) || contains set (mask t).
Proof.
  pose proof (number_range t). rewrite !contains_mask. unfold insert_bits. rewrite Z.lor_spec, testbit_mask by lia.
  rewrite orb_comm. f_equal. case_bool_decide as Hst; [subst; apply Z.eqb_refl|].
  apply Z.eqb_neq. intros Heq. apply Hst. apply (inj number). lia.
Qed.

Lemma contains_remove set s t : contains (remove_bits set (mask s)) (mask t) = negb (bool_decide (s = t)) && contains set (mask t).
Proof.
  pose proof (number_range t). rewrite !contains_mask. unfold remove_bits. rewrite Z.ldiff_spec, testbit_mask by lia.
  rewrite andb_comm. f_equal. f_equal. case_bool_decide as Hst; [subst; apply Z.eqb_refl|].
  apply Z.eqb_neq. intros Heq. apply Hst. apply (inj number). lia.
Qed.

Lemma contains_zero s : contains 0 (mask s) = false.
Proof. rewrite contains_mask. apply Z.bits_0. Qed.

Lemma contains_lor a b s : contains (Z.lor a b) (mask s) = contains a (mask s) || contains b (mask s).
Proof. rewrite !contains_mask. apply Z.lor_spec. Qed.

Lemma contains_ldiff a b s : contains (Z.ldiff a b) (mask s) = contains a (mask s) && negb (contains b (mask s)).
Proof. rewrite !contains_mask. apply Z.ldiff_spec. Qed.

(** Two sets of signals are equal when they have the same members. *)
Lemma signals_ext a b :
  is_uint 64 a → is_uint 64 b → (∀ s, contains a (mask s) = contains b (mask s)) → a = b.
Proof.
  intros Ha Hb H. apply Z.bits_inj'. intros i Hi. destruct (Z.lt_ge_cases i 64) as [Hlt|Hge].
  - destruct (signal_try_from (i + 1)) as [s|] eqn:Hs.
    + specialize (H s). rewrite !contains_mask in H. replace (number s - 1) with i in H; [done|].
      unfold signal_try_from in Hs. case_match; [|done]. replace (i + 1 - 1) with i in Hs by lia.
      assert (number <$> all_signals = (λ n, Z.of_nat n + 1) <$> seq 0 64) as Hall by (vm_compute; reflexivity).
      apply (f_equal (λ l, l !! Z.to_nat i)) in Hall. rewrite !list_lookup_fmap, Hs in Hall.
      rewrite lookup_seq_lt in Hall by lia. cbn in Hall. injection Hall as Hn. rewrite Hn. lia.
    + exfalso. unfold signal_try_from, SIGNAL_AMOUNT in Hs. replace (1 <=? i + 1) with true in Hs by lia.
      replace (i + 1 <=? 64) with true in Hs by lia. cbn [andb] in Hs.
      apply lookup_ge_None in Hs. cbn in Hs. lia.
  - assert (∀ z, is_uint 64 z → Z.testbit z i = false) as Hz.
    { intros z Hz. destruct (decide (z = 0)) as [->|]; [apply Z.bits_0|]. apply Z.bits_above_log2; [apply Hz|].
      apply Z.log2_lt_pow2; [destruct Hz; lia|]. destruct Hz as [? Hlt]. eapply Z.lt_le_trans; [exact Hlt|]. apply Z.pow_le_mono_r; lia. }
    by rewrite !Hz.
Qed.
