(* ===== verification/Threads.v ===== *)
(** * Threads: state, run queues, blocking and waking

    The data of thread/thread.rs, thread/misc.rs and process/mod.rs as far as threads and
    signals need it, the thread manager (thread/manager.rs), blocking and waking
    (thread/yielding.rs) and what the scheduler does with a thread before and after it runs
    (thread/scheduling.rs).

    A thread or process is known by its number; [threads] and [processes] are the objects
    themselves, [manager_threads] the map of the manager.  An operation that runs under the
    lock of the thread manager is one function on the [World].  [now] is the time since
    boot, read once by each operation.  Kernel stacks, registers of the kernel context and
    the profiling counters are left out.

    The wait queues of futexes (systemcall/implementations/memory_sync.rs) are here too,
    since leaving a wait queue removes the entry there; the operations on them are in
    Futex. *)

From stdpp Require Import sets.
From S2P Require Import Prelude Errors Clock SignalData.

Open Scope Z_scope.

(** ** Futex queues *)

Module FutexKey.
Inductive FutexKey : Type :=
  | Private (pid addr : Z)
  | SharedAnonymous (frames offset : Z)
  | SharedFile (device_id inode offset : Z)
  | SharedObject (object offset : Z)
  | SharedPhysical (frame offset : Z).
End FutexKey.
Abbreviation FutexKey := FutexKey.FutexKey.

#[export] Instance FutexKey_eq_dec : EqDecision FutexKey.
Proof. solve_decision. Defined.

#[export] Instance FutexKey_countable : Countable FutexKey.
Proof.
  refine (inj_countable'
    (λ k, match k with
     | FutexKey.Private a b => (0, a, b, 0)
     | FutexKey.SharedAnonymous a b => (1, a, b, 0)
     | FutexKey.SharedFile a b c => (2, a, b, c)
     | FutexKey.SharedObject a b => (3, a, b, 0)
     | FutexKey.SharedPhysical a b => (4, a, b, 0)
     end)
    (λ '(n, a, b, c),
     if n =? 0 then FutexKey.Private a b else if n =? 1 then FutexKey.SharedAnonymous a b
     else if n =? 2 then FutexKey.SharedFile a b c else if n =? 3 then FutexKey.SharedObject a b
     else FutexKey.SharedPhysical a b) _).
  by intros [].
Defined.

Record FutexWaitId := mkWaitId { wait_key : FutexKey; waiter_id : Z }.

#[export] Instance FutexWaitId_eq_dec : EqDecision FutexWaitId.
Proof. solve_decision. Defined.

Record FutexWaiter := mkWaiter { w_id : Z; w_thread : Z; w_bitset : Z }.

Record FutexBucket := mkBucket { next_waiter_id : Z; waiters : list FutexWaiter }.

Definition bucket_default : FutexBucket := mkBucket 0 [].

(** [FUTEX_QUEUE] without one waiter. *)
Definition remove_futex_waiter (queue : gmap FutexKey FutexBucket) (wait_id : FutexWaitId) : gmap FutexKey FutexBucket :=
  match queue !! wait_id.(wait_key) with
  | None => queue
  | Some bucket =>
      match filter (λ w, w.(w_id) ≠ wait_id.(waiter_id)) bucket.(waiters) with
      | [] => delete wait_id.(wait_key) queue
      | ws => <[wait_id.(wait_key) := mkBucket bucket.(next_waiter_id) ws]> queue
      end
  end.

(** ** Thread states *)

Module WakeType.
Inductive WakeType : Type :=
  | Pty | Mouse | Keyboard | ProcsesExit | IO
  | SignalWait (set : Z)
  | Poller (poller : Z).
End WakeType.
Abbreviation WakeType := WakeType.WakeType.

Module BlockType.
Inductive BlockType : Type :=
  | SetTime (time : Time)
  | WakeRequired (wake_type : WakeType) (deadline : option Time)
  | Futex (deadline : option Time) (wait_id : FutexWaitId)
  | Stopped.
End BlockType.
Abbreviation BlockType := BlockType.BlockType.

Module State.
Inductive State : Type :=
  | Ready
  | Running
  | Blocking (b : BlockType)
  | Woken
  | Blocked (b : BlockType)
  | Exiting
  | Zombie.
End State.
Abbreviation State := State.State.

#[export] Instance WakeType_eq_dec : EqDecision WakeType.
Proof. solve_decision. Defined.
#[export] Instance BlockType_eq_dec : EqDecision BlockType.
Proof. solve_decision. Defined.
#[export] Instance State_eq_dec : EqDecision State.
Proof. solve_decision. Defined.

Module SnapshotState.
Inductive SnapshotState : Type := Normal | SignalHandler.
End SnapshotState.
Abbreviation SnapshotState := SnapshotState.SnapshotState.

Module ThreadSnapshotType.
Inductive ThreadSnapshotType : Type := Thread | Kernel | Scheduler.
End ThreadSnapshotType.
Abbreviation ThreadSnapshotType := ThreadSnapshotType.ThreadSnapshotType.

(** The registers of misc/snapshot.rs. *)
Record Snapshot := mkSnapshot {
  r15 : Z; r14 : Z; r13 : Z; r12 : Z; r11 : Z; r10 : Z; r9 : Z; r8 : Z; rdi : Z; rsi : Z;
  rbp : Z; rbx : Z; rdx : Z; rcx : Z; rax : Z; rip : Z; cs : Z; rflags : Z; rsp : Z; ss : Z;
}.

Record ThreadSnapshot := mkThreadSnapshot {
  inner : Snapshot;
  fs_base : Z;
  snapshot_type : ThreadSnapshotType;
}.

Record LinuxStack := mkStack { ss_sp : Z; ss_flags : Z; ss_size : Z }.

Module ProcessExitStatus.
Inductive ProcessExitStatus : Type :=
  | Exited (code : Z)
  | Signaled (signal : Signal) (core_dumped : bool).
End ProcessExitStatus.
Abbreviation ProcessExitStatus := ProcessExitStatus.ProcessExitStatus.

Record Thread := mkThread {
  id : Z;
  parent : option Z;
  state : State;
  snapshot_state : SnapshotState;
  snapshot : ThreadSnapshot;
  sig_handler_snapshot : ThreadSnapshot;
  saved_blocked_signals : list Z;
  blocked_signals : Z;
  temporary_blocked_signals : option (Z * Z);
  pending_signals : Z;
  pending_signal_info : list (option PendingSignalInfo);
  interrupted_by_signal : bool;
  interruptible_wait_active : bool;
  clear_child_tid : Z;
  pending_exit_status : option ProcessExitStatus;
  sigaltstack : LinuxStack;
  last_syscall_no : Z;
  last_user_snapshot : Snapshot;
  last_user_fs_base : Z;
}.

Module PtraceResumeMode.
Inductive PtraceResumeMode : Type := Stopped | Continue | Syscall.
End PtraceResumeMode.
Abbreviation PtraceResumeMode := PtraceResumeMode.PtraceResumeMode.

Module PtraceStopKind.
Inductive PtraceStopKind : Type := None_ | Signal | SyscallEnter | SyscallExit | Exec.
End PtraceStopKind.
Abbreviation PtraceStopKind := PtraceStopKind.PtraceStopKind.

(** process/ptrace.rs *)
Record PtraceState := mkPtrace {
  tracer : option Z;
  ptrace_options : Z;
  resume_mode : PtraceResumeMode;
  last_stop_status : Z;
  last_stop_kind : PtraceStopKind;
}.

(** process/wait.rs: the only event is a stop. *)
Record ProcessWaitEvent := mkStopped { ev_status : Z; ev_ptrace : bool }.

Record Process := mkProcess {
  pid : Z;
  p_parent : option Z;
  p_threads : list Z;
  p_pending_signals : Z;
  p_pending_signal_info : list (option PendingSignalInfo);
  signal_actions : list SignalAction;
  child_exit_signal : Signal;
  exit_status : option ProcessExitStatus;
  dumpable : bool;
  rlimit_core_cur : Z;
  group_id : Z;
  session_id : Z;
  pid_namespace : Z;
  pid_namespace_local_pid : option Z;
  pid_namespace_parent_inode : option Z;
  pending_child_pid_namespace : option Z;
  real_uid : Z;
  effective_uid : Z;
  saved_uid : Z;
  capability_effective : Z;
  parent_death_signal : option Signal;
  child_subreaper : bool;
  vfork_blocker : option Z;
  wait_event : option ProcessWaitEvent;
  ptrace : PtraceState;
}.

Record BlockedQueues := mkQueues {
  keyboard : list Z;
  pty : list Z;
  io : list Z;
  process_exit : list Z;
  signal_wait : list Z;
  mouse : list Z;
  poller : list Z;
  timed : list (Z * Z);
  poller_dirty : bool;
}.

Record World := mkWorld {
  threads : gmap Z Thread;
  processes : gmap Z Process;
  manager_threads : gset Z;
  ready_queues : list (list Z);
  zombies : list Z;
  pending_thread_exits : list (Z * Z);
  deferred_threads : list Z;
  blocked_queues : BlockedQueues;
  next_ready_cpu : Z;
  futex_queue : gmap FutexKey FutexBucket;
  now : Z;
  need_resched : bool;
  user_writes : list (Z * Z * Z);
  panicked : bool;
}.

(** Updates of one field. *)
Definition with_parent (x : Thread) (v : option Z) : Thread :=
  mkThread x.(id) v x.(state) x.(snapshot_state) x.(snapshot) x.(sig_handler_snapshot)
    x.(saved_blocked_signals) x.(blocked_signals) x.(temporary_blocked_signals)
    x.(pending_signals) x.(pending_signal_info) x.(interrupted_by_signal)
    x.(interruptible_wait_active) x.(clear_child_tid) x.(pending_exit_status) x.(sigaltstack)
    x.(last_syscall_no) x.(last_user_snapshot) x.(last_user_fs_base).
Definition with_state (x : Thread) (v : State) : Thread :=
  mkThread x.(id) x.(parent) v x.(snapshot_state) x.(snapshot) x.(sig_handler_snapshot)
    x.(saved_blocked_signals) x.(blocked_signals) x.(temporary_blocked_signals)
    x.(pending_signals) x.(pending_signal_info) x.(interrupted_by_signal)
    x.(interruptible_wait_active) x.(clear_child_tid) x.(pending_exit_status) x.(sigaltstack)
    x.(last_syscall_no) x.(last_user_snapshot) x.(last_user_fs_base).
Definition with_snapshot_state (x : Thread) (v : SnapshotState) : Thread :=
  mkThread x.(id) x.(parent) x.(state) v x.(snapshot) x.(sig_handler_snapshot)
    x.(saved_blocked_signals) x.(blocked_signals) x.(temporary_blocked_signals)
    x.(pending_signals) x.(pending_signal_info) x.(interrupted_by_signal)
    x.(interruptible_wait_active) x.(clear_child_tid) x.(pending_exit_status) x.(sigaltstack)
    x.(last_syscall_no) x.(last_user_snapshot) x.(last_user_fs_base).
Definition with_snapshot (x : Thread) (v : ThreadSnapshot) : Thread :=
  mkThread x.(id) x.(parent) x.(state) x.(snapshot_state) v x.(sig_handler_snapshot)
    x.(saved_blocked_signals) x.(blocked_signals) x.(temporary_blocked_signals)
    x.(pending_signals) x.(pending_signal_info) x.(interrupted_by_signal)
    x.(interruptible_wait_active) x.(clear_child_tid) x.(pending_exit_status) x.(sigaltstack)
    x.(last_syscall_no) x.(last_user_snapshot) x.(last_user_fs_base).
Definition with_sig_handler_snapshot (x : Thread) (v : ThreadSnapshot) : Thread :=
  mkThread x.(id) x.(parent) x.(state) x.(snapshot_state) x.(snapshot) v
    x.(saved_blocked_signals) x.(blocked_signals) x.(temporary_blocked_signals)
    x.(pending_signals) x.(pending_signal_info) x.(interrupted_by_signal)
    x.(interruptible_wait_active) x.(clear_child_tid) x.(pending_exit_status) x.(sigaltstack)
    x.(last_syscall_no) x.(last_user_snapshot) x.(last_user_fs_base).
Definition with_saved_blocked_signals (x : Thread) (v : list Z) : Thread :=
  mkThread x.(id) x.(parent) x.(state) x.(snapshot_state) x.(snapshot) x.(sig_handler_snapshot)
    v x.(blocked_signals) x.(temporary_blocked_signals) x.(pending_signals)
    x.(pending_signal_info) x.(interrupted_by_signal) x.(interruptible_wait_active)
    x.(clear_child_tid) x.(pending_exit_status) x.(sigaltstack)
    x.(last_syscall_no) x.(last_user_snapshot) x.(last_user_fs_base).
Definition with_blocked_signals (x : Thread) (v : Z) : Thread :=
  mkThread x.(id) x.(parent) x.(state) x.(snapshot_state) x.(snapshot) x.(sig_handler_snapshot)
    x.(saved_blocked_signals) v x.(temporary_blocked_signals) x.(pending_signals)
    x.(pending_signal_info) x.(interrupted_by_signal) x.(interruptible_wait_active)
    x.(clear_child_tid) x.(pending_exit_status) x.(sigaltstack)
    x.(last_syscall_no) x.(last_user_snapshot) x.(last_user_fs_base).
Definition with_temporary_blocked_signals (x : Thread) (v : option (Z * Z)) : Thread :=
  mkThread x.(id) x.(parent) x.(state) x.(snapshot_state) x.(snapshot) x.(sig_handler_snapshot)
    x.(saved_blocked_signals) x.(blocked_signals) v x.(pending_signals) x.(pending_signal_info)
    x.(interrupted_by_signal) x.(interruptible_wait_active) x.(clear_child_tid)
    x.(pending_exit_status) x.(sigaltstack)
    x.(last_syscall_no) x.(last_user_snapshot) x.(last_user_fs_base).
Definition with_pending_signals (x : Thread) (v : Z) : Thread :=
  mkThread x.(id) x.(parent) x.(state) x.(snapshot_state) x.(snapshot) x.(sig_handler_snapshot)
    x.(saved_blocked_signals) x.(blocked_signals) x.(temporary_blocked_signals) v
    x.(pending_signal_info) x.(interrupted_by_signal) x.(interruptible_wait_active)
    x.(clear_child_tid) x.(pending_exit_status) x.(sigaltstack)
    x.(last_syscall_no) x.(last_user_snapshot) x.(last_user_fs_base).
Definition with_pending_signal_info (x : Thread) (v : list (option PendingSignalInfo)) : Thread :=
  mkThread x.(id) x.(parent) x.(state) x.(snapshot_state) x.(snapshot) x.(sig_handler_snapshot)
    x.(saved_blocked_signals) x.(blocked_signals) x.(temporary_blocked_signals)
    x.(pending_signals) v x.(interrupted_by_signal) x.(interruptible_wait_active)
    x.(clear_child_tid) x.(pending_exit_status) x.(sigaltstack)
    x.(last_syscall_no) x.(last_user_snapshot) x.(last_user_fs_base).
Definition with_interrupted_by_signal (x : Thread) (v : bool) : Thread :=
  mkThread x.(id) x.(parent) x.(state) x.(snapshot_state) x.(snapshot) x.(sig_handler_snapshot)
    x.(saved_blocked_signals) x.(blocked_signals) x.(temporary_blocked_signals)
    x.(pending_signals) x.(pending_signal_info) v x.(interruptible_wait_active)
    x.(clear_child_tid) x.(pending_exit_status) x.(sigaltstack)
    x.(last_syscall_no) x.(last_user_snapshot) x.(last_user_fs_base).
Definition with_interruptible_wait_active (x : Thread) (v : bool) : Thread :=
  mkThread x.(id) x.(parent) x.(state) x.(snapshot_state) x.(snapshot) x.(sig_handler_snapshot)
    x.(saved_blocked_signals) x.(blocked_signals) x.(temporary_blocked_signals)
    x.(pending_signals) x.(pending_signal_info) x.(interrupted_by_signal) v x.(clear_child_tid)
    x.(pending_exit_status) x.(sigaltstack)
    x.(last_syscall_no) x.(last_user_snapshot) x.(last_user_fs_base).
Definition with_clear_child_tid (x : Thread) (v : Z) : Thread :=
  mkThread x.(id) x.(parent) x.(state) x.(snapshot_state) x.(snapshot) x.(sig_handler_snapshot)
    x.(saved_blocked_signals) x.(blocked_signals) x.(temporary_blocked_signals)
    x.(pending_signals) x.(pending_signal_info) x.(interrupted_by_signal)
    x.(interruptible_wait_active) v x.(pending_exit_status) x.(sigaltstack)
    x.(last_syscall_no) x.(last_user_snapshot) x.(last_user_fs_base).
Definition with_pending_exit_status (x : Thread) (v : option ProcessExitStatus) : Thread :=
  mkThread x.(id) x.(parent) x.(state) x.(snapshot_state) x.(snapshot) x.(sig_handler_snapshot)
    x.(saved_blocked_signals) x.(blocked_signals) x.(temporary_blocked_signals)
    x.(pending_signals) x.(pending_signal_info) x.(interrupted_by_signal)
    x.(interruptible_wait_active) x.(clear_child_tid) v x.(sigaltstack)
    x.(last_syscall_no) x.(last_user_snapshot) x.(last_user_fs_base).
Definition with_sigaltstack (x : Thread) (v : LinuxStack) : Thread :=
  mkThread x.(id) x.(parent) x.(state) x.(snapshot_state) x.(snapshot) x.(sig_handler_snapshot)
    x.(saved_blocked_signals) x.(blocked_signals) x.(temporary_blocked_signals)
    x.(pending_signals) x.(pending_signal_info) x.(interrupted_by_signal)
    x.(interruptible_wait_active) x.(clear_child_tid) x.(pending_exit_status) v
    x.(last_syscall_no) x.(last_user_snapshot) x.(last_user_fs_base).
Definition with_p_parent (x : Process) (v : option Z) : Process :=
  mkProcess x.(pid) v x.(p_threads) x.(p_pending_signals) x.(p_pending_signal_info)
    x.(signal_actions) x.(child_exit_signal) x.(exit_status) x.(dumpable)
    x.(rlimit_core_cur) x.(group_id) x.(session_id) x.(pid_namespace)
    x.(pid_namespace_local_pid) x.(pid_namespace_parent_inode)
    x.(pending_child_pid_namespace) x.(real_uid) x.(effective_uid) x.(saved_uid)
    x.(capability_effective) x.(parent_death_signal) x.(child_subreaper) x.(vfork_blocker)
    x.(wait_event) x.(ptrace).
Definition with_p_threads (x : Process) (v : list Z) : Process :=
  mkProcess x.(pid) x.(p_parent) v x.(p_pending_signals) x.(p_pending_signal_info)
    x.(signal_actions) x.(child_exit_signal) x.(exit_status) x.(dumpable)
    x.(rlimit_core_cur) x.(group_id) x.(session_id) x.(pid_namespace)
    x.(pid_namespace_local_pid) x.(pid_namespace_parent_inode)
    x.(pending_child_pid_namespace) x.(real_uid) x.(effective_uid) x.(saved_uid)
    x.(capability_effective) x.(parent_death_signal) x.(child_subreaper) x.(vfork_blocker)
    x.(wait_event) x.(ptrace).
Definition with_p_pending_signals (x : Process) (v : Z) : Process :=
  mkProcess x.(pid) x.(p_parent) x.(p_threads) v x.(p_pending_signal_info)
    x.(signal_actions) x.(child_exit_signal) x.(exit_status) x.(dumpable)
    x.(rlimit_core_cur) x.(group_id) x.(session_id) x.(pid_namespace)
    x.(pid_namespace_local_pid) x.(pid_namespace_parent_inode)
    x.(pending_child_pid_namespace) x.(real_uid) x.(effective_uid) x.(saved_uid)
    x.(capability_effective) x.(parent_death_signal) x.(child_subreaper) x.(vfork_blocker)
    x.(wait_event) x.(ptrace).
Definition with_p_pending_signal_info (x : Process) (v : list (option PendingSignalInfo)) : Process :=
  mkProcess x.(pid) x.(p_parent) x.(p_threads) x.(p_pending_signals) v x.(signal_actions)
    x.(child_exit_signal) x.(exit_status) x.(dumpable) x.(rlimit_core_cur) x.(group_id)
    x.(session_id) x.(pid_namespace) x.(pid_namespace_local_pid)
    x.(pid_namespace_parent_inode) x.(pending_child_pid_namespace) x.(real_uid)
    x.(effective_uid) x.(saved_uid) x.(capability_effective) x.(parent_death_signal)
    x.(child_subreaper) x.(vfork_blocker) x.(wait_event) x.(ptrace).
Definition with_signal_actions (x : Process) (v : list SignalAction) : Process :=
  mkProcess x.(pid) x.(p_parent) x.(p_threads) x.(p_pending_signals)
    x.(p_pending_signal_info) v x.(child_exit_signal) x.(exit_status) x.(dumpable)
    x.(rlimit_core_cur) x.(group_id) x.(session_id) x.(pid_namespace)
    x.(pid_namespace_local_pid) x.(pid_namespace_parent_inode)
    x.(pending_child_pid_namespace) x.(real_uid) x.(effective_uid) x.(saved_uid)
    x.(capability_effective) x.(parent_death_signal) x.(child_subreaper) x.(vfork_blocker)
    x.(wait_event) x.(ptrace).
Definition with_exit_status (x : Process) (v : option ProcessExitStatus) : Process :=
  mkProcess x.(pid) x.(p_parent) x.(p_threads) x.(p_pending_signals)
    x.(p_pending_signal_info) x.(signal_actions) x.(child_exit_signal) v x.(dumpable)
    x.(rlimit_core_cur) x.(group_id) x.(session_id) x.(pid_namespace)
    x.(pid_namespace_local_pid) x.(pid_namespace_parent_inode)
    x.(pending_child_pid_namespace) x.(real_uid) x.(effective_uid) x.(saved_uid)
    x.(capability_effective) x.(parent_death_signal) x.(child_subreaper) x.(vfork_blocker)
    x.(wait_event) x.(ptrace).
Definition with_group_id (x : Process) (v : Z) : Process :=
  mkProcess x.(pid) x.(p_parent) x.(p_threads) x.(p_pending_signals)
    x.(p_pending_signal_info) x.(signal_actions) x.(child_exit_signal) x.(exit_status)
    x.(dumpable) x.(rlimit_core_cur) v x.(session_id) x.(pid_namespace)
    x.(pid_namespace_local_pid) x.(pid_namespace_parent_inode)
    x.(pending_child_pid_namespace) x.(real_uid) x.(effective_uid) x.(saved_uid)
    x.(capability_effective) x.(parent_death_signal) x.(child_subreaper) x.(vfork_blocker)
    x.(wait_event) x.(ptrace).
Definition with_session_id (x : Process) (v : Z) : Process :=
  mkProcess x.(pid) x.(p_parent) x.(p_threads) x.(p_pending_signals)
    x.(p_pending_signal_info) x.(signal_actions) x.(child_exit_signal) x.(exit_status)
    x.(dumpable) x.(rlimit_core_cur) x.(group_id) v x.(pid_namespace)
    x.(pid_namespace_local_pid) x.(pid_namespace_parent_inode)
    x.(pending_child_pid_namespace) x.(real_uid) x.(effective_uid) x.(saved_uid)
    x.(capability_effective) x.(parent_death_signal) x.(child_subreaper) x.(vfork_blocker)
    x.(wait_event) x.(ptrace).
Definition with_pending_child_pid_namespace (x : Process) (v : option Z) : Process :=
  mkProcess x.(pid) x.(p_parent) x.(p_threads) x.(p_pending_signals)
    x.(p_pending_signal_info) x.(signal_actions) x.(child_exit_signal) x.(exit_status)
    x.(dumpable) x.(rlimit_core_cur) x.(group_id) x.(session_id) x.(pid_namespace)
    x.(pid_namespace_local_pid) x.(pid_namespace_parent_inode)
    v x.(real_uid) x.(effective_uid) x.(saved_uid)
    x.(capability_effective) x.(parent_death_signal) x.(child_subreaper) x.(vfork_blocker)
    x.(wait_event) x.(ptrace).
Definition with_child_exit_signal (x : Process) (v : Signal) : Process :=
  mkProcess x.(pid) x.(p_parent) x.(p_threads) x.(p_pending_signals)
    x.(p_pending_signal_info) x.(signal_actions) v x.(exit_status) x.(dumpable)
    x.(rlimit_core_cur) x.(group_id) x.(session_id) x.(pid_namespace)
    x.(pid_namespace_local_pid) x.(pid_namespace_parent_inode)
    x.(pending_child_pid_namespace) x.(real_uid) x.(effective_uid) x.(saved_uid)
    x.(capability_effective) x.(parent_death_signal) x.(child_subreaper) x.(vfork_blocker)
    x.(wait_event) x.(ptrace).
Definition with_capability_effective (x : Process) (v : Z) : Process :=
  mkProcess x.(pid) x.(p_parent) x.(p_threads) x.(p_pending_signals)
    x.(p_pending_signal_info) x.(signal_actions) x.(child_exit_signal) x.(exit_status)
    x.(dumpable) x.(rlimit_core_cur) x.(group_id) x.(session_id) x.(pid_namespace)
    x.(pid_namespace_local_pid) x.(pid_namespace_parent_inode)
    x.(pending_child_pid_namespace) x.(real_uid) x.(effective_uid) x.(saved_uid) v
    x.(parent_death_signal) x.(child_subreaper) x.(vfork_blocker) x.(wait_event) x.(ptrace).
Definition with_pid_namespaces (x : Process) (v1 : Z) (v2 : option Z) (v3 : option Z) : Process :=
  mkProcess x.(pid) x.(p_parent) x.(p_threads) x.(p_pending_signals)
    x.(p_pending_signal_info) x.(signal_actions) x.(child_exit_signal) x.(exit_status)
    x.(dumpable) x.(rlimit_core_cur) x.(group_id) x.(session_id) v1 v2 v3
    x.(pending_child_pid_namespace) x.(real_uid) x.(effective_uid) x.(saved_uid)
    x.(capability_effective) x.(parent_death_signal) x.(child_subreaper) x.(vfork_blocker)
    x.(wait_event) x.(ptrace).
Definition with_parent_death_signal (x : Process) (v : option Signal) : Process :=
  mkProcess x.(pid) x.(p_parent) x.(p_threads) x.(p_pending_signals)
    x.(p_pending_signal_info) x.(signal_actions) x.(child_exit_signal) x.(exit_status)
    x.(dumpable) x.(rlimit_core_cur) x.(group_id) x.(session_id) x.(pid_namespace)
    x.(pid_namespace_local_pid) x.(pid_namespace_parent_inode)
    x.(pending_child_pid_namespace) x.(real_uid) x.(effective_uid) x.(saved_uid)
    x.(capability_effective) v x.(child_subreaper) x.(vfork_blocker) x.(wait_event)
    x.(ptrace).
Definition with_child_subreaper (x : Process) (v : bool) : Process :=
  mkProcess x.(pid) x.(p_parent) x.(p_threads) x.(p_pending_signals)
    x.(p_pending_signal_info) x.(signal_actions) x.(child_exit_signal) x.(exit_status)
    x.(dumpable) x.(rlimit_core_cur) x.(group_id) x.(session_id) x.(pid_namespace)
    x.(pid_namespace_local_pid) x.(pid_namespace_parent_inode)
    x.(pending_child_pid_namespace) x.(real_uid) x.(effective_uid) x.(saved_uid)
    x.(capability_effective) x.(parent_death_signal) v x.(vfork_blocker) x.(wait_event)
    x.(ptrace).
Definition with_vfork_blocker (x : Process) (v : option Z) : Process :=
  mkProcess x.(pid) x.(p_parent) x.(p_threads) x.(p_pending_signals)
    x.(p_pending_signal_info) x.(signal_actions) x.(child_exit_signal) x.(exit_status)
    x.(dumpable) x.(rlimit_core_cur) x.(group_id) x.(session_id) x.(pid_namespace)
    x.(pid_namespace_local_pid) x.(pid_namespace_parent_inode)
    x.(pending_child_pid_namespace) x.(real_uid) x.(effective_uid) x.(saved_uid)
    x.(capability_effective) x.(parent_death_signal) x.(child_subreaper) v x.(wait_event)
    x.(ptrace).
Definition with_wait_event (x : Process) (v : option ProcessWaitEvent) : Process :=
  mkProcess x.(pid) x.(p_parent) x.(p_threads) x.(p_pending_signals)
    x.(p_pending_signal_info) x.(signal_actions) x.(child_exit_signal) x.(exit_status)
    x.(dumpable) x.(rlimit_core_cur) x.(group_id) x.(session_id) x.(pid_namespace)
    x.(pid_namespace_local_pid) x.(pid_namespace_parent_inode)
    x.(pending_child_pid_namespace) x.(real_uid) x.(effective_uid) x.(saved_uid)
    x.(capability_effective) x.(parent_death_signal) x.(child_subreaper) x.(vfork_blocker) v
    x.(ptrace).
Definition with_ptrace (x : Process) (v : PtraceState) : Process :=
  mkProcess x.(pid) x.(p_parent) x.(p_threads) x.(p_pending_signals)
    x.(p_pending_signal_info) x.(signal_actions) x.(child_exit_signal) x.(exit_status)
    x.(dumpable) x.(rlimit_core_cur) x.(group_id) x.(session_id) x.(pid_namespace)
    x.(pid_namespace_local_pid) x.(pid_namespace_parent_inode)
    x.(pending_child_pid_namespace) x.(real_uid) x.(effective_uid) x.(saved_uid)
    x.(capability_effective) x.(parent_death_signal) x.(child_subreaper) x.(vfork_blocker)
    x.(wait_event) v.
Definition with_keyboard (x : BlockedQueues) (v : list Z) : BlockedQueues :=
  mkQueues v x.(pty) x.(io) x.(process_exit) x.(signal_wait) x.(mouse) x.(poller) x.(timed)
    x.(poller_dirty).
Definition with_pty (x : BlockedQueues) (v : list Z) : BlockedQueues :=
  mkQueues x.(keyboard) v x.(io) x.(process_exit) x.(signal_wait) x.(mouse) x.(poller) x.(timed)
    x.(poller_dirty).
Definition with_io (x : BlockedQueues) (v : list Z) : BlockedQueues :=
  mkQueues x.(keyboard) x.(pty) v x.(process_exit) x.(signal_wait) x.(mouse) x.(poller)
    x.(timed) x.(poller_dirty).
Definition with_process_exit (x : BlockedQueues) (v : list Z) : BlockedQueues :=
  mkQueues x.(keyboard) x.(pty) x.(io) v x.(signal_wait) x.(mouse) x.(poller) x.(timed)
    x.(poller_dirty).
Definition with_signal_wait (x : BlockedQueues) (v : list Z) : BlockedQueues :=
  mkQueues x.(keyboard) x.(pty) x.(io) x.(process_exit) v x.(mouse) x.(poller) x.(timed)
    x.(poller_dirty).
Definition with_mouse (x : BlockedQueues) (v : list Z) : BlockedQueues :=
  mkQueues x.(keyboard) x.(pty) x.(io) x.(process_exit) x.(signal_wait) v x.(poller) x.(timed)
    x.(poller_dirty).
Definition with_poller (x : BlockedQueues) (v : list Z) : BlockedQueues :=
  mkQueues x.(keyboard) x.(pty) x.(io) x.(process_exit) x.(signal_wait) x.(mouse) v x.(timed)
    x.(poller_dirty).
Definition with_timed (x : BlockedQueues) (v : list (Z * Z)) : BlockedQueues :=
  mkQueues x.(keyboard) x.(pty) x.(io) x.(process_exit) x.(signal_wait) x.(mouse) x.(poller) v
    x.(poller_dirty).
Definition with_poller_dirty (x : BlockedQueues) (v : bool) : BlockedQueues :=
  mkQueues x.(keyboard) x.(pty) x.(io) x.(process_exit) x.(signal_wait) x.(mouse) x.(poller)
    x.(timed) v.
Definition with_threads (x : World) (v : gmap Z Thread) : World :=
  mkWorld v x.(processes) x.(manager_threads) x.(ready_queues) x.(zombies)
    x.(pending_thread_exits) x.(deferred_threads) x.(blocked_queues) x.(next_ready_cpu)
    x.(futex_queue) x.(now) x.(need_resched) x.(user_writes) x.(panicked).
Definition with_processes (x : World) (v : gmap Z Process) : World :=
  mkWorld x.(threads) v x.(manager_threads) x.(ready_queues) x.(zombies)
    x.(pending_thread_exits) x.(deferred_threads) x.(blocked_queues) x.(next_ready_cpu)
    x.(futex_queue) x.(now) x.(need_resched) x.(user_writes) x.(panicked).
Definition with_manager_threads (x : World) (v : gset Z) : World :=
  mkWorld x.(threads) x.(processes) v x.(ready_queues) x.(zombies) x.(pending_thread_exits)
    x.(deferred_threads) x.(blocked_queues) x.(next_ready_cpu) x.(futex_queue) x.(now)
    x.(need_resched) x.(user_writes) x.(panicked).
Definition with_ready_queues (x : World) (v : list (list Z)) : World :=
  mkWorld x.(threads) x.(processes) x.(manager_threads) v x.(zombies) x.(pending_thread_exits)
    x.(deferred_threads) x.(blocked_queues) x.(next_ready_cpu) x.(futex_queue) x.(now)
    x.(need_resched) x.(user_writes) x.(panicked).
Definition with_zombies (x : World) (v : list Z) : World :=
  mkWorld x.(threads) x.(processes) x.(manager_threads) x.(ready_queues) v
    x.(pending_thread_exits) x.(deferred_threads) x.(blocked_queues) x.(next_ready_cpu)
    x.(futex_queue) x.(now) x.(need_resched) x.(user_writes) x.(panicked).
Definition with_pending_thread_exits (x : World) (v : list (Z * Z)) : World :=
  mkWorld x.(threads) x.(processes) x.(manager_threads) x.(ready_queues) x.(zombies) v
    x.(deferred_threads) x.(blocked_queues) x.(next_ready_cpu) x.(futex_queue) x.(now)
    x.(need_resched) x.(user_writes) x.(panicked).
Definition with_deferred_threads (x : World) (v : list Z) : World :=
  mkWorld x.(threads) x.(processes) x.(manager_threads) x.(ready_queues) x.(zombies)
    x.(pending_thread_exits) v x.(blocked_queues) x.(next_ready_cpu) x.(futex_queue) x.(now)
    x.(need_resched) x.(user_writes) x.(panicked).
Definition with_blocked_queues (x : World) (v : BlockedQueues) : World :=
  mkWorld x.(threads) x.(processes) x.(manager_threads) x.(ready_queues) x.(zombies)
    x.(pending_thread_exits) x.(deferred_threads) v x.(next_ready_cpu) x.(futex_queue) x.(now)
    x.(need_resched) x.(user_writes) x.(panicked).
Definition with_next_ready_cpu (x : World) (v : Z) : World :=
  mkWorld x.(threads) x.(processes) x.(manager_threads) x.(ready_queues) x.(zombies)
    x.(pending_thread_exits) x.(deferred_threads) x.(blocked_queues) v x.(futex_queue) x.(now)
    x.(need_resched) x.(user_writes) x.(panicked).
Definition with_futex_queue (x : World) (v : gmap FutexKey FutexBucket) : World :=
  mkWorld x.(threads) x.(processes) x.(manager_threads) x.(ready_queues) x.(zombies)
    x.(pending_thread_exits) x.(deferred_threads) x.(blocked_queues) x.(next_ready_cpu) v
    x.(now) x.(need_resched) x.(user_writes) x.(panicked).
Definition with_now (x : World) (v : Z) : World :=
  mkWorld x.(threads) x.(processes) x.(manager_threads) x.(ready_queues) x.(zombies)
    x.(pending_thread_exits) x.(deferred_threads) x.(blocked_queues) x.(next_ready_cpu)
    x.(futex_queue) v x.(need_resched) x.(user_writes) x.(panicked).
Definition with_need_resched (x : World) (v : bool) : World :=
  mkWorld x.(threads) x.(processes) x.(manager_threads) x.(ready_queues) x.(zombies)
    x.(pending_thread_exits) x.(deferred_threads) x.(blocked_queues) x.(next_ready_cpu)
    x.(futex_queue) x.(now) v x.(user_writes) x.(panicked).
Definition with_user_writes (x : World) (v : list (Z * Z * Z)) : World :=
  mkWorld x.(threads) x.(processes) x.(manager_threads) x.(ready_queues) x.(zombies)
    x.(pending_thread_exits) x.(deferred_threads) x.(blocked_queues) x.(next_ready_cpu)
    x.(futex_queue) x.(now) x.(need_resched) v x.(panicked).
Definition with_panicked (x : World) (v : bool) : World :=
  mkWorld x.(threads) x.(processes) x.(manager_threads) x.(ready_queues) x.(zombies)
    x.(pending_thread_exits) x.(deferred_threads) x.(blocked_queues) x.(next_ready_cpu)
    x.(futex_queue) x.(now) x.(need_resched) x.(user_writes) v.

Definition map_thread (w : World) (t : Z) (f : Thread → Thread) : World :=
  with_threads w (alter f t w.(threads)).

Definition set_state (w : World) (t : Z) (s : State) : World := map_thread w t (λ th, with_state th s).

Definition state_of (w : World) (t : Z) : option State := state <$> w.(threads) !! t.

(** A panic of the kernel, from an [expect], [unwrap] or [unreachable!]. *)
Definition panic (w : World) : World := with_panicked w true.

(** The build has one processor: [request_all_cpus_resched] marks it. *)
Definition request_all_cpus_resched (w : World) : World := with_need_resched w true.

Definition get_appropriate_snapshot (th : Thread) : ThreadSnapshot :=
  match th.(snapshot_state) with
  | SnapshotState.Normal => th.(snapshot)
  | SnapshotState.SignalHandler => th.(sig_handler_snapshot)
  end.

Definition is_timed_out (now : Z) (b : BlockType) : bool :=
  match b with
  | BlockType.SetTime time => time.(time_ns) <=? now
  | BlockType.WakeRequired _ (Some deadline) => deadline.(time_ns) <=? now
  | BlockType.Futex (Some deadline) _ => deadline.(time_ns) <=? now
  | _ => false
  end.

(** ** The blocked queues (thread/yielding.rs) *)

(** The queue of each wake-up, and the choice of one. *)
Module QueueKind.
Inductive QueueKind : Type := Keyboard | Pty | Io | ProcessExit | SignalWait | Mouse | Poller.
End QueueKind.
Abbreviation QueueKind := QueueKind.QueueKind.

#[export] Instance QueueKind_eq_dec : EqDecision QueueKind.
Proof. solve_decision. Defined.

Definition all_kinds : list QueueKind :=
  [QueueKind.Keyboard; QueueKind.Pty; QueueKind.Io; QueueKind.ProcessExit; QueueKind.SignalWait; QueueKind.Mouse; QueueKind.Poller].

Definition kind_of (wt : WakeType) : QueueKind :=
  match wt with
  | WakeType.Pty => QueueKind.Pty
  | WakeType.Keyboard => QueueKind.Keyboard
  | WakeType.Mouse => QueueKind.Mouse
  | WakeType.ProcsesExit => QueueKind.ProcessExit
  | WakeType.Poller _ => QueueKind.Poller
  | WakeType.IO => QueueKind.Io
  | WakeType.SignalWait _ => QueueKind.SignalWait
  end.

Definition queue (q : BlockedQueues) (k : QueueKind) : list Z :=
  match k with
  | QueueKind.Keyboard => q.(keyboard)
  | QueueKind.Pty => q.(pty)
  | QueueKind.Io => q.(io)
  | QueueKind.ProcessExit => q.(process_exit)
  | QueueKind.SignalWait => q.(signal_wait)
  | QueueKind.Mouse => q.(mouse)
  | QueueKind.Poller => q.(poller)
  end.

Definition set_queue (q : BlockedQueues) (k : QueueKind) (l : list Z) : BlockedQueues :=
  match k with
  | QueueKind.Keyboard => with_keyboard q l
  | QueueKind.Pty => with_pty q l
  | QueueKind.Io => with_io q l
  | QueueKind.ProcessExit => with_process_exit q l
  | QueueKind.SignalWait => with_signal_wait q l
  | QueueKind.Mouse => with_mouse q l
  | QueueKind.Poller => with_poller q l
  end.

Definition with_queue (w : World) (k : QueueKind) (l : list Z) : World :=
  with_blocked_queues w (set_queue w.(blocked_queues) k l).

(** The ordered map of deadlines: a key is the deadline in nanoseconds with the thread. *)
Definition key_leb (a b : Z * Z) : bool := (a.1 <? b.1) || ((a.1 =? b.1) && (a.2 <=? b.2)).

Fixpoint timed_insert (k : Z * Z) (l : list (Z * Z)) : list (Z * Z) :=
  match l with
  | [] => [k]
  | j :: l => if decide (k = j) then j :: l else if key_leb k j then k :: j :: l else j :: timed_insert k l
  end.

Definition timed_remove (k : Z * Z) (l : list (Z * Z)) : list (Z * Z) := filter (λ j, j ≠ k) l.

Definition block_deadline (b : BlockType) : option Z :=
  match b with
  | BlockType.SetTime time => Some time.(time_ns)
  | BlockType.WakeRequired _ (Some deadline) => Some deadline.(time_ns)
  | BlockType.Futex (Some deadline) _ => Some deadline.(time_ns)
  | _ => None
  end.

Definition queues_push (q : BlockedQueues) (t : Z) (b : BlockType) : BlockedQueues :=
  let q := match block_deadline b with
           | Some d => with_timed q (timed_insert (d, t) q.(timed))
           | None => q
           end in
  match b with
  | BlockType.WakeRequired wt _ => set_queue q (kind_of wt) (queue q (kind_of wt) ++ [t])
  | _ => q
  end.

Definition without (t : Z) (l : list Z) : list Z := filter (λ u, u ≠ t) l.

Definition remove_from_blocked_queues (w : World) (t : Z) : World :=
  let '(timed_key, futex_wait_id) :=
    match state_of w t with
    | Some (State.Blocking b) | Some (State.Blocked b) =>
        ((λ d, (d, t)) <$> block_deadline b,
         match b with BlockType.Futex _ wait_id => Some wait_id | _ => None end)
    | _ => (None, None)
    end in
  let w := match futex_wait_id with
           | Some wait_id => with_futex_queue w (remove_futex_waiter w.(futex_queue) wait_id)
           | None => w
           end in
  let q := w.(blocked_queues) in
  let q := match timed_key with Some k => with_timed q (timed_remove k q.(timed)) | None => q end in
  with_blocked_queues w
    (mkQueues (without t q.(keyboard)) (without t q.(pty)) (without t q.(io)) (without t q.(process_exit))
       (without t q.(signal_wait)) (without t q.(mouse)) (without t q.(poller)) q.(timed) q.(poller_dirty)).

Definition block (w : World) (t : Z) (b : BlockType) : World :=
  let w := set_state w t (State.Blocking b) in
  with_blocked_queues w (queues_push w.(blocked_queues) t b).

(** ** Ready queues (thread/manager.rs) *)

Definition resize_ready_queues (w : World) (cpu_count : Z) : World :=
  let cpu_count := Z.max cpu_count 1 in
  if cpu_count <=? zlen w.(ready_queues) then w
  else
    let queues := w.(ready_queues) ++ replicate (Z.to_nat (cpu_count - zlen w.(ready_queues))) [] in
    let w := with_ready_queues w queues in
    if zlen queues <=? w.(next_ready_cpu) then with_next_ready_cpu w 0 else w.

Definition ensure_queue (w : World) : World :=
  match w.(ready_queues) with [] => resize_ready_queues w 1 | _ => w end.

Definition next_balanced_cpu (w : World) : Z * World :=
  let w := ensure_queue w in
  let cpu_index := w.(next_ready_cpu) mod zlen w.(ready_queues) in
  (cpu_index, with_next_ready_cpu w ((cpu_index + 1) mod zlen w.(ready_queues))).

Definition is_ready_queued (w : World) (t : Z) : bool := existsb (λ q, bool_decide (t ∈ q)) w.(ready_queues).

Definition push_ready_on_cpu (w : World) (t cpu_index : Z) : World :=
  let w := ensure_queue w in
  if is_ready_queued w t then w
  else
    let i := Z.min cpu_index (zlen w.(ready_queues) - 1) in
    with_ready_queues w (alter (λ q, q ++ [t]) (Z.to_nat i) w.(ready_queues)).

Definition push_ready_balanced (w : World) (t : Z) : World :=
  let '(cpu_index, w) := next_balanced_cpu w in push_ready_on_cpu w t cpu_index.

Definition remove_ready_thread (w : World) (t : Z) : bool * World :=
  (is_ready_queued w t, with_ready_queues w (map (without t) w.(ready_queues))).

Module ReadyThreadFilter.
Inductive ReadyThreadFilter : Type := Any | UserThread.
End ReadyThreadFilter.
Abbreviation ReadyThreadFilter := ReadyThreadFilter.ReadyThreadFilter.

Definition filter_matches (f : ReadyThreadFilter) (th : Thread) : bool :=
  match f with
  | ReadyThreadFilter.Any => true
  | ReadyThreadFilter.UserThread =>
      match (get_appropriate_snapshot th).(snapshot_type) with ThreadSnapshotType.Thread => true | _ => false end
  end.

Definition is_ready (th : Thread) : bool := match th.(state) with State.Ready => true | _ => false end.

(** [n]: the entries still to look at, at most the length of the queue at the start. *)
Fixpoint pop_ready_loop (w : World) (f : ReadyThreadFilter) (n : nat) (q : list Z) : option Z * list Z :=
  match n, q with
  | S n, t :: q =>
      match w.(threads) !! t with
      | Some th =>
          if is_ready th && filter_matches f th then (Some t, q)
          else if is_ready th then pop_ready_loop w f n (q ++ [t])
          else pop_ready_loop w f n q
      | None => pop_ready_loop w f n q
      end
  | _, _ => (None, q)
  end.

Definition pop_ready_from_queue_matching (w : World) (f : ReadyThreadFilter) (i : nat) : option Z * World :=
  match w.(ready_queues) !! i with
  | None => (None, w)
  | Some q =>
      let '(r, q) := pop_ready_loop w f (length q) q in
      (r, with_ready_queues w (<[i := q]> w.(ready_queues)))
  end.

(** The other queues in order, until one has a thread. *)
Fixpoint steal_loop (w : World) (f : ReadyThreadFilter) (local_index : nat) (indices : list nat) : option Z * World :=
  match indices with
  | [] => (None, w)
  | i :: indices =>
      if decide (i = local_index) then steal_loop w f local_index indices
      else
        match pop_ready_from_queue_matching w f i with
        | (Some t, w) => (Some t, w)
        | (None, w) => steal_loop w f local_index indices
        end
  end.

Definition pop_ready_for_cpu_inner (w : World) (cpu_index : Z) (allow_steal : bool) (f : ReadyThreadFilter) : option Z * World :=
  let w := ensure_queue w in
  let local_index := Z.to_nat (Z.min cpu_index (zlen w.(ready_queues) - 1)) in
  match pop_ready_from_queue_matching w f local_index with
  | (Some t, w) => (Some t, w)
  | (None, w) =>
      if allow_steal then steal_loop w f local_index (seq 0 (length w.(ready_queues))) else (None, w)
  end.

Definition pop_ready_for_cpu (w : World) (cpu_index : Z) : option Z * World :=
  pop_ready_for_cpu_inner w cpu_index true ReadyThreadFilter.Any.
Definition pop_user_ready_for_cpu (w : World) (cpu_index : Z) : option Z * World :=
  pop_ready_for_cpu_inner w cpu_index true ReadyThreadFilter.UserThread.
Definition pop_local_ready_for_cpu (w : World) (cpu_index : Z) : option Z * World :=
  pop_ready_for_cpu_inner w cpu_index false ReadyThreadFilter.Any.

Definition has_ready_threads (w : World) : bool :=
  existsb (λ q, match q with [] => false | _ => true end) w.(ready_queues).

Definition has_ready_threads_for_cpu (w : World) (cpu_index : Z) : bool :=
  match w.(ready_queues) !! Z.to_nat cpu_index with Some (_ :: _) => true | _ => false end.

(** ** Waking (thread/yielding.rs) *)

Definition wake (w : World) (t : Z) : World :=
  let w := remove_from_blocked_queues w t in
  match state_of w t with
  | Some (State.Blocking _) => set_state w t State.Woken
  | Some (State.Blocked _) => request_all_cpus_resched (push_ready_balanced (set_state w t State.Ready) t)
  | _ => w
  end.

Definition wake_list (w : World) (ts : list Z) : World := foldl wake w ts.

Definition wake_thread_by_id (w : World) (t : Z) : World :=
  if decide (t ∈ w.(manager_threads)) then wake w t else w.

(** [wake_pty], [wake_keyboard], [wake_mouse] and [wake_io]: the macro's loop takes threads
    off the front until the queue is empty.  [n] bounds the rounds; the length of the queue
    is enough. *)
Fixpoint wake_queue_loop (w : World) (k : QueueKind) (n : nat) : World :=
  match n, queue w.(blocked_queues) k with
  | S n, t :: q => wake_queue_loop (wake (with_queue w k q) t) k n
  | _, _ => w
  end.

Definition wake_queue (w : World) (k : QueueKind) : World :=
  wake_queue_loop w k (length (queue w.(blocked_queues) k)).

(** The kinds of queues that [register_wake_func] defines it for: [wake_pty], [wake_keyboard],
    [wake_mouse] and [wake_io]. *)
Definition woken_whole (k : QueueKind) : bool :=
  match k with QueueKind.Pty | QueueKind.Keyboard | QueueKind.Mouse | QueueKind.Io => true | _ => false end.

Definition wake_io (w : World) : World := wake_queue w QueueKind.Io.

(** [retain] on one queue, then waking what it took out. *)
Definition wake_matching (w : World) (k : QueueKind) (p : State → bool) : World :=
  let hit t := match state_of w t with Some s => p s | None => false end in
  let q := queue w.(blocked_queues) k in
  wake_list (with_queue w k (filter (λ t, hit t = false) q)) (filter (λ t, hit t = true) q).

Definition waits_for_process_exit (s : State) : bool :=
  match s with State.Blocked (BlockType.WakeRequired WakeType.ProcsesExit _) => true | _ => false end.

Definition wake_process_exit_waiters (w : World) : World :=
  wake_matching w QueueKind.ProcessExit waits_for_process_exit.

Definition waits_for_signal (signal : Signal) (s : State) : bool :=
  match s with
  | State.Blocking (BlockType.WakeRequired (WakeType.SignalWait wait_mask) _)
  | State.Blocked (BlockType.WakeRequired (WakeType.SignalWait wait_mask) _) => contains wait_mask (mask signal)
  | _ => false
  end.

Definition wake_signal_waiters (w : World) (signal : Signal) : World :=
  wake_matching w QueueKind.SignalWait (waits_for_signal signal).

Definition waits_for_poller (pollers : list Z) (s : State) : bool :=
  match s with
  | State.Blocked (BlockType.WakeRequired (WakeType.Poller poller) _) => bool_decide (poller ∈ pollers)
  | _ => false
  end.

Definition wake_affected_pollers (w : World) (affected : list Z) : World :=
  wake_matching w QueueKind.Poller (waits_for_poller affected).

Definition mark_pollers_dirty (w : World) (dirty : bool) : World :=
  with_blocked_queues w (with_poller_dirty w.(blocked_queues) dirty).

(** [ready]: what a poller answers when asked for events that are ready. *)
Definition wake_ready_pollers (w : World) (ready : Z → bool) : World :=
  match w.(blocked_queues).(poller) with
  | [] => mark_pollers_dirty w false
  | q =>
      let hit t := match state_of w t with
                   | Some (State.Blocked (BlockType.WakeRequired (WakeType.Poller poller) _)) => ready poller
                   | _ => false
                   end in
      mark_pollers_dirty (wake_list w (filter (λ t, hit t = true) q)) false
  end.

Definition next_timed_deadline (w : World) : option Z := fst <$> head w.(blocked_queues).(timed).

Definition has_timed_out_threads_due (w : World) (now : Z) : bool :=
  match next_timed_deadline w with Some deadline => deadline <=? now | None => false end.

(** The loop takes due entries off the front of the map; what is left, and the threads to
    wake. *)
Fixpoint pop_due (w : World) (entries : list (Z * Z)) : list (Z * Z) * list Z :=
  match entries with
  | [] => ([], [])
  | (deadline, t) :: entries' =>
      if w.(now) <? deadline then (entries, [])
      else
        let '(left_, to_wake) := pop_due w entries' in
        (left_,
         match state_of w t with
         | Some (State.Blocked b) => if is_timed_out w.(now) b then t :: to_wake else to_wake
         | _ => to_wake
         end)
  end.

Definition process_timed_out_threads (w : World) : World :=
  let '(left_, to_wake) := pop_due w w.(blocked_queues).(timed) in
  wake_list (with_blocked_queues w (with_timed w.(blocked_queues) left_)) to_wake.

Definition wake_due_timed_threads (w : World) : World :=
  if has_timed_out_threads_due w w.(now) then request_all_cpus_resched (process_timed_out_threads w) else w.

(** ** Blocking the current thread [t] *)

Definition prepare_block_current (w : World) (t : Z) (b : BlockType) : World := block w t b.

Definition cancel_block (w : World) (t : Z) : World :=
  let w := remove_from_blocked_queues w t in
  match state_of w t with
  | Some (State.Blocking _) | Some (State.Blocked _) => set_state w t State.Running
  | _ => w
  end.

(** Whether the call returns at once, without going through the scheduler. *)
Definition finish_block_current (w : World) (t : Z) : bool * World :=
  match state_of w t with
  | Some (State.Blocking b) => (false, set_state w t (State.Blocked b))
  | Some State.Woken => (true, set_state w t State.Running)
  | Some State.Ready =>
      let '(removed, w) := remove_ready_thread w t in
      if removed then (true, set_state w t State.Running) else (false, w)
  | Some State.Running => (true, w)
  | _ => (false, w)
  end.

(** ** The scheduler around a thread (thread/scheduling.rs) *)

(** [run_ready_thread], up to the switch. *)
Definition run_ready_thread (w : World) (t : Z) : bool * World :=
  match state_of w t with
  | Some State.Ready => (true, with_need_resched (set_state w t State.Running) false)
  | _ => (false, w)
  end.

(** What [after_thread_yield] does with the state it finds, for a thread that lives on. *)
Definition after_yield_state (w : World) (t : Z) : World :=
  match state_of w t with
  | Some State.Running | Some State.Woken => push_ready_balanced (set_state w t State.Ready) t
  | Some State.Ready => push_ready_balanced w t
  | Some (State.Blocking b) => set_state w t (State.Blocked b)
  | _ => w
  end.

(** ** Threads that come and go (thread/manager.rs) *)

Definition register_thread (w : World) (th : Thread) : World :=
  with_manager_threads (with_threads w (<[th.(id) := th]> w.(threads))) ({[th.(id)]} ∪ w.(manager_threads)).

Definition spawn (w : World) (th : Thread) : World := push_ready_balanced (register_thread w th) th.(id).

Definition spawn_blocked (w : World) (th : Thread) (b : BlockType) : World :=
  let w := register_thread w (with_state th (State.Blocked b)) in
  with_blocked_queues w (queues_push w.(blocked_queues) th.(id) b).

Definition mark_thread_exited (w : World) (t : Z) : World :=
  match w.(threads) !! t with
  | None => w
  | Some th =>
      if bool_decide (th.(state) = State.Zombie) then w
      else
        match th.(parent) with
        | None => panic w
        | Some process =>
            let clear := th.(clear_child_tid) in
            let w := if clear =? 0 then w else map_thread w t (λ th, with_clear_child_tid th 0) in
            let w := remove_from_blocked_queues w t in
            let '(_, w) := remove_ready_thread w t in
            let w := set_state w t State.Zombie in
            let w := if clear =? 0 then w
                     else with_pending_thread_exits w (w.(pending_thread_exits) ++ [(process, clear)]) in
            with_zombies w (w.(zombies) ++ [t])
        end
  end.

(** The result says whether every other thread has stopped. *)
Fixpoint exit_thread_list_except (w : World) (ts : list Z) (current : Z) : bool * World :=
  match ts with
  | [] => (true, w)
  | t :: ts =>
      if t =? current then exit_thread_list_except w ts current
      else
        match state_of w t with
        | None | Some State.Zombie => exit_thread_list_except w ts current
        | Some State.Running =>
            let '(_, w) := exit_thread_list_except (request_all_cpus_resched (set_state w t State.Exiting)) ts current in
            (false, w)
        | Some State.Exiting => let '(_, w) := exit_thread_list_except w ts current in (false, w)
        | Some _ => exit_thread_list_except (mark_thread_exited w t) ts current
        end
  end.

Definition exit_current_thread (w : World) (t : Z) (status : ProcessExitStatus) : World :=
  map_thread w t (λ th, with_state (with_pending_exit_status th (Some status)) State.Exiting).

(** What a stop signal does to the threads of the process (misc/signal.rs,
    [process_current_process_signals]). *)
Definition stop_threads (w : World) (ts : list Z) : World :=
  foldl (λ w t, set_state w t (State.Blocked BlockType.Stopped)) w ts.

(** [ThreadManager::default()] and [init]. *)
Definition world_init (cpu_count : Z) : World :=
  resize_ready_queues
    (mkWorld ∅ ∅ ∅ [] [] [] [] (mkQueues [] [] [] [] [] [] [] [] false) 0 ∅ 0 false [] false) cpu_count.
