(* ===== verification/ThreadsProps.v ===== *)
(** * Threads: the queues agree with the states

    What one operation of Threads does to one thread, the invariant that ties the run queues
    and wait queues to the states of the threads, and the properties of waking, of timeouts
    and of the order in which ready threads run. *)

From Stdlib Require Import Sorted.
From stdpp Require Import sets.
From S2P Require Import Prelude.
From S2P Require Import Errors.
From S2P Require Import Clock.
From S2P Require Import SignalData.
From S2P Require Import Threads.

Open Scope Z_scope.

(** ** The invariant *)

Definition blocked_on (s : State) : option BlockType :=
  match s with State.Blocking b | State.Blocked b => Some b | _ => None end.

Definition in_ready (w : World) (t : Z) : Prop := t ∈ concat w.(ready_queues).

Definition in_queue (w : World) (k : QueueKind) (t : Z) : Prop := t ∈ queue w.(blocked_queues) k.

Definition key_lt (a b : Z * Z) : Prop := key_leb a b = true ∧ a ≠ b.

(** A sleeper is where its wake-up looks for it. *)
Definition findable (w : World) (t : Z) (b : BlockType) : Prop :=
  (∀ wt d, b = BlockType.WakeRequired wt d → in_queue w (kind_of wt) t) ∧
  (∀ d, block_deadline b = Some d → (d, t) ∈ w.(blocked_queues).(timed)).

(** [X]: threads that were just taken out of a queue and are about to be woken. *)
Record sched_ok_but (X : Z → Prop) (w : World) : Prop := {
  ok_ready_nodup : NoDup (concat w.(ready_queues));
  ok_ready_state t : in_ready w t → state_of w t = Some State.Ready ∨ state_of w t = Some (State.Blocked BlockType.Stopped);
  ok_ready_queued t : state_of w t = Some State.Ready → in_ready w t;
  ok_queue_nodup k : NoDup (queue w.(blocked_queues) k);
  ok_queue_state k t : in_queue w k t →
    state_of w t = Some (State.Blocked BlockType.Stopped) ∨
    ∃ s wt d, state_of w t = Some s ∧ blocked_on s = Some (BlockType.WakeRequired wt d) ∧ kind_of wt = k;
  ok_timed : StronglySorted key_lt w.(blocked_queues).(timed);
  ok_sleepers t s b : state_of w t = Some s → blocked_on s = Some b → ¬ X t → findable w t b;
  ok_cpu : 0 ≤ w.(next_ready_cpu);
}.

Abbreviation sched_ok := (sched_ok_but (λ _, False)).

(** ** Lemmas: one thread *)

Lemma state_of_map w t f u :
  state_of (map_thread w t f) u = if decide (u = t) then state <$> (f <$> w.(threads) !! t) else state_of w u.
Proof.
  unfold state_of, map_thread. cbn. destruct (decide (u = t)) as [->|]; [by rewrite lookup_alter_eq|by rewrite lookup_alter_ne].
Qed.

Lemma state_of_set w t s u :
  state_of (set_state w t s) u = if decide (u = t) then (λ _, s) <$> state_of w t else state_of w u.
Proof.
  unfold set_state. rewrite state_of_map. case_decide; [|done]. unfold state_of. by destruct (threads w !! t).
Qed.

Lemma state_of_set_eq w t s s0 : state_of w t = Some s0 → state_of (set_state w t s) t = Some s.
Proof. intros H. rewrite state_of_set, decide_True, H; done. Qed.

Lemma state_of_set_ne w t s u : u ≠ t → state_of (set_state w t s) u = state_of w u.
Proof. intros H. by rewrite state_of_set, decide_False. Qed.

(** ** Lemmas: lists of queues *)

Lemma elem_of_without t u l : u ∈ without t l ↔ u ∈ l ∧ u ≠ t.
Proof. unfold without. rewrite list_elem_of_filter. tauto. Qed.

Lemma without_id t l : t ∉ l → without t l = l.
Proof.
  unfold without. induction l as [|u l IH]; [done|]. intros [Hu Hl]%not_elem_of_cons. rewrite filter_cons, decide_True by done.
  by rewrite IH.
Qed.

Lemma without_nodup t l : NoDup l → NoDup (without t l).
Proof. apply NoDup_filter. Qed.

Lemma concat_without t ls : concat (map (without t) ls) = without t (concat ls).
Proof. induction ls as [|l ls IH]; [done|]. cbn. rewrite IH. symmetry. apply filter_app. Qed.

Lemma concat_insert {A} (ls : list (list A)) i l l' :
  ls !! i = Some l → concat ls ≡ₚ l ++ concat (delete i ls) ∧ concat (<[i := l']> ls) ≡ₚ l' ++ concat (delete i ls).
Proof.
  revert i. induction ls as [|m ls IH]; intros [|i] Hi; cbn in Hi; [done..| |].
  - injection Hi as ->. done.
  - destruct (IH i Hi) as [H1 H2]. cbn. split.
    + rewrite H1. apply Permutation_app_swap_app.
    + rewrite H2. apply Permutation_app_swap_app.
Qed.

Lemma concat_alter_snoc (ls : list (list Z)) i t :
  (i < length ls)%nat → concat (alter (λ q, q ++ [t]) i ls) ≡ₚ t :: concat ls.
Proof.
  intros Hi. destruct (lookup_lt_is_Some_2 ls i Hi) as [l Hl].
  destruct (concat_insert ls i l (l ++ [t]) Hl) as [H1 H2].
  assert (alter (λ q, q ++ [t]) i ls = <[i := l ++ [t]]> ls) as ->.
  { apply list_eq. intros j. destruct (decide (i = j)) as [<-|].
    - by rewrite list_lookup_alter_eq, Hl, list_lookup_insert_eq by done.
    - by rewrite list_lookup_alter_ne, list_lookup_insert_ne. }
  rewrite H2, H1. rewrite <- app_assoc. rewrite (Permutation_app_comm l ([t] ++ _)). cbn. f_equiv. apply Permutation_app_comm.
Qed.

Lemma is_ready_queued_spec w t : is_ready_queued w t = true ↔ in_ready w t.
Proof.
  unfold is_ready_queued, in_ready. rewrite existsb_exists, list_elem_of_In, in_concat. split.
  - intros (q & Hq & Ht). exists q. split; [done|]. apply list_elem_of_In. by apply bool_decide_eq_true in Ht.
  - intros (q & Hq & Ht). exists q. split; [done|]. apply bool_decide_eq_true. by apply list_elem_of_In.
Qed.

(** ** Lemmas: the wait queues *)

Lemma queue_set_eq q k l : queue (set_queue q k l) k = l.
Proof. by destruct k. Qed.

Lemma queue_set_ne q k j l : j ≠ k → queue (set_queue q k l) j = queue q j.
Proof. by destruct k, j. Qed.

Lemma timed_set_queue q k l : (set_queue q k l).(timed) = q.(timed).
Proof. by destruct k. Qed.

Lemma queue_with_timed q v k : queue (with_timed q v) k = queue q k.
Proof. by destruct k. Qed.

Lemma remove_state w t u : state_of (remove_from_blocked_queues w t) u = state_of w u.
Proof. unfold remove_from_blocked_queues. by repeat case_match. Qed.

Lemma remove_ready_queues w t : (remove_from_blocked_queues w t).(ready_queues) = w.(ready_queues).
Proof. unfold remove_from_blocked_queues. by repeat case_match. Qed.

Lemma remove_cpu w t : (remove_from_blocked_queues w t).(next_ready_cpu) = w.(next_ready_cpu).
Proof. unfold remove_from_blocked_queues. by repeat case_match. Qed.

Lemma remove_queue w t k :
  queue (remove_from_blocked_queues w t).(blocked_queues) k = without t (queue w.(blocked_queues) k).
Proof. unfold remove_from_blocked_queues. repeat case_match; by destruct k. Qed.

(** Only the deadline the thread waits for leaves the map. *)
Lemma remove_timed w t :
  (remove_from_blocked_queues w t).(blocked_queues).(timed) =
  match (s ← state_of w t; b ← blocked_on s; block_deadline b) with
  | Some d => timed_remove (d, t) w.(blocked_queues).(timed)
  | None => w.(blocked_queues).(timed)
  end.
Proof.
  unfold remove_from_blocked_queues. destruct (state_of w t) as [[]|]; cbn; try done;
    destruct b; cbn; try done; destruct deadline; done.
Qed.

(** *** The ordered map of deadlines *)

Lemma key_leb_total a b : key_leb a b = false → key_leb b a = true.
Proof. unfold key_leb. destruct a, b; cbn. lia. Qed.

#[export] Instance key_lt_trans : Transitive key_lt.
Proof.
  intros [a1 a2] [b1 b2] [c1 c2] [H1 N1] [H2 N2]. unfold key_lt, key_leb in *. cbn in *.
  assert (¬ (a1 = b1 ∧ a2 = b2)) by (intros [-> ->]; done). assert (¬ (b1 = c1 ∧ b2 = c2)) by (intros [-> ->]; done).
  split; [lia|]. intros [= -> ->]. lia.
Qed.

Lemma elem_of_timed_insert k j l : j ∈ timed_insert k l ↔ j = k ∨ j ∈ l.
Proof.
  induction l as [|m l IH]; cbn.
  - rewrite list_elem_of_singleton. set_solver.
  - case_decide as Hk; [subst; set_solver|]. case_match; rewrite !elem_of_cons, ?IH; tauto.
Qed.

Lemma timed_insert_sorted k l : StronglySorted key_lt l → StronglySorted key_lt (timed_insert k l).
Proof.
  induction 1 as [|j l Hl IH Hj]; cbn; [by repeat constructor|]. case_decide as Hk; [by constructor|].
  destruct (key_leb k j) eqn:Hkj.
  - assert (key_lt k j) as Hlt by done. constructor; [by constructor|]. constructor; [done|].
    eapply Forall_impl; [exact Hj|]. intros m Hm. by etrans.
  - constructor; [done|]. apply Forall_forall. intros m [->|Hm]%elem_of_timed_insert.
    + split; [by apply key_leb_total|done].
    + by eapply Forall_forall in Hj.
Qed.

Lemma filter_sorted {A} (R : A → A → Prop) (P : A → Prop) `{∀ x, Decision (P x)} l :
  StronglySorted R l → StronglySorted R (filter P l).
Proof.
  induction 1 as [|x l Hl IH Hx]; [constructor|]. rewrite filter_cons. case_decide; [|done].
  constructor; [done|]. apply Forall_forall. intros y [_ Hy]%list_elem_of_filter. by eapply Forall_forall in Hx.
Qed.

Lemma timed_remove_sorted k l : StronglySorted key_lt l → StronglySorted key_lt (timed_remove k l).
Proof. apply filter_sorted. Qed.

Lemma elem_of_timed_remove k j l : j ∈ timed_remove k l ↔ j ≠ k ∧ j ∈ l.
Proof. unfold timed_remove. rewrite list_elem_of_filter. tauto. Qed.

(** ** Lemmas: the ready queues *)

Lemma resize_queues_spec w n :
  concat (resize_ready_queues w n).(ready_queues) = concat w.(ready_queues) ∧
  (1 ≤ zlen (resize_ready_queues w n).(ready_queues)) ∧
  (0 ≤ w.(next_ready_cpu) → 0 ≤ (resize_ready_queues w n).(next_ready_cpu)) ∧
  (∀ t, state_of (resize_ready_queues w n) t = state_of w t) ∧
  (resize_ready_queues w n).(blocked_queues) = w.(blocked_queues).
Proof.
  assert (∀ m, concat (replicate m ([] : list Z)) = []) as Hr by (induction m; done).
  unfold resize_ready_queues. destruct (Z.leb_spec (Z.max n 1) (zlen w.(ready_queues))) as [|Hlt].
  - split; [done|]. split; [lia|]. done.
  - assert (1 ≤ zlen (w.(ready_queues) ++ replicate (Z.to_nat (Z.max n 1 - zlen w.(ready_queues))) [])) as Hl.
    { unfold zlen in *. rewrite length_app, length_replicate. lia. }
    case_match; (split; [cbn; by rewrite concat_app, Hr, app_nil_r|]); (split; [exact Hl|done]).
Qed.

Lemma ensure_spec w :
  concat (ensure_queue w).(ready_queues) = concat w.(ready_queues) ∧
  (1 ≤ zlen (ensure_queue w).(ready_queues)) ∧
  (0 ≤ w.(next_ready_cpu) → 0 ≤ (ensure_queue w).(next_ready_cpu)) ∧
  (∀ t, state_of (ensure_queue w) t = state_of w t) ∧
  (ensure_queue w).(blocked_queues) = w.(blocked_queues).
Proof.
  unfold ensure_queue. destruct (ready_queues w) as [|q qs] eqn:E.
  - pose proof (resize_queues_spec w 1) as H. by rewrite E in H.
  - rewrite E. split; [done|]. split; [unfold zlen; cbn; lia|done].
Qed.

Lemma push_on_cpu_spec w t i :
  let w' := push_ready_on_cpu w t i in
  (if is_ready_queued w t then concat w'.(ready_queues) = concat w.(ready_queues)
   else concat w'.(ready_queues) ≡ₚ t :: concat w.(ready_queues)) ∧
  (0 ≤ w.(next_ready_cpu) → 0 ≤ w'.(next_ready_cpu)) ∧
  (∀ u, state_of w' u = state_of w u) ∧ w'.(blocked_queues) = w.(blocked_queues).
Proof.
  unfold push_ready_on_cpu. destruct (ensure_spec w) as (Hc & Hl & Hn & Hs & Hb).
  assert (is_ready_queued (ensure_queue w) t = is_ready_queued w t) as ->.
  { apply eq_iff_eq_true. rewrite !is_ready_queued_spec. unfold in_ready. by rewrite Hc. }
  destruct (is_ready_queued w t); [done|]. split; [|by split]. cbn. rewrite <- Hc. apply concat_alter_snoc.
  unfold zlen in *. lia.
Qed.

Lemma push_balanced_spec w t :
  let w' := push_ready_balanced w t in
  (if is_ready_queued w t then concat w'.(ready_queues) = concat w.(ready_queues)
   else concat w'.(ready_queues) ≡ₚ t :: concat w.(ready_queues)) ∧
  (0 ≤ w.(next_ready_cpu) → 0 ≤ w'.(next_ready_cpu)) ∧
  (∀ u, state_of w' u = state_of w u) ∧ w'.(blocked_queues) = w.(blocked_queues).
Proof.
  unfold push_ready_balanced, next_balanced_cpu. destruct (ensure_spec w) as (Hc & Hl & Hn & Hs & Hb).
  set (w1 := with_next_ready_cpu (ensure_queue w) _).
  destruct (push_on_cpu_spec w1 t (next_ready_cpu (ensure_queue w) mod zlen (ready_queues (ensure_queue w)))) as (H1 & H2 & H3 & H4).
  assert (is_ready_queued w1 t = is_ready_queued w t) as Hq.
  { apply eq_iff_eq_true. rewrite !is_ready_queued_spec. unfold in_ready. subst w1. cbn. by rewrite Hc. }
  rewrite Hq in H1. replace (concat (ready_queues w1)) with (concat (ready_queues w)) in H1 by (subst w1; cbn; by rewrite Hc).
  split; [exact H1|]. split; [|split].
  - intros _. apply H2. subst w1. cbn. apply Z.mod_pos_bound. lia.
  - intros u. rewrite H3. exact (Hs u).
  - rewrite H4. exact Hb.
Qed.

(** ** Waking *)

Definition woken_state (s : State) : State :=
  match s with State.Blocking _ => State.Woken | State.Blocked _ => State.Ready | s => s end.

Lemma wake_state w t u :
  state_of (wake w t) u = if decide (u = t) then woken_state <$> state_of w t else state_of w u.
Proof.
  unfold wake. rewrite remove_state. destruct (state_of w t) as [s|] eqn:Hs; cbn.
  - assert (∀ s', state_of (set_state (remove_from_blocked_queues w t) t s') u = if decide (u = t) then Some s' else state_of w u) as Hset.
    { intros s'. rewrite state_of_set, !remove_state. case_decide; [by rewrite Hs|done]. }
    destruct s; cbn; rewrite ?remove_state; try (case_decide; subst; done); try apply Hset.
    destruct (push_balanced_spec (set_state (remove_from_blocked_queues w t) t State.Ready) t) as (_ & _ & H & _).
    cbn in H. unfold request_all_cpus_resched. change (state_of (with_need_resched ?w true) u) with (state_of w u).
    rewrite H. apply Hset.
  - rewrite remove_state. case_decide; by subst.
Qed.

Lemma wake_blocked_queues w t :
  (wake w t).(blocked_queues) = (remove_from_blocked_queues w t).(blocked_queues).
Proof.
  unfold wake. destruct (state_of _ t) as [[]|]; try done. cbn.
  by destruct (push_balanced_spec (set_state (remove_from_blocked_queues w t) t State.Ready) t) as (_ & _ & _ & H).
Qed.

Lemma wake_queue_of w t k : queue (wake w t).(blocked_queues) k = without t (queue w.(blocked_queues) k).
Proof. rewrite wake_blocked_queues. apply remove_queue. Qed.

Lemma wake_ready_queues w t :
  concat (wake w t).(ready_queues) ≡ₚ
  match state_of w t with
  | Some (State.Blocked _) => if is_ready_queued w t then concat w.(ready_queues) else t :: concat w.(ready_queues)
  | _ => concat w.(ready_queues)
  end.
Proof.
  unfold wake. rewrite remove_state. destruct (state_of w t) as [[]|]; cbn; rewrite ?remove_ready_queues; try done.
  destruct (push_balanced_spec (set_state (remove_from_blocked_queues w t) t State.Ready) t) as (H & _).
  assert (is_ready_queued (set_state (remove_from_blocked_queues w t) t State.Ready) t = is_ready_queued w t) as Hq.
  { unfold is_ready_queued. cbn. by rewrite remove_ready_queues. }
  rewrite Hq in H. cbn in H. rewrite remove_ready_queues in H. case_match; [by rewrite H|done].
Qed.

Lemma wake_cpu w t : 0 ≤ w.(next_ready_cpu) → 0 ≤ (wake w t).(next_ready_cpu).
Proof.
  intros H. unfold wake. destruct (state_of _ t) as [[]|]; cbn; rewrite ?remove_cpu; try done.
  destruct (push_balanced_spec (set_state (remove_from_blocked_queues w t) t State.Ready) t) as (_ & Hn & _).
  apply Hn. cbn. by rewrite remove_cpu.
Qed.

Lemma wake_timed w t u d :
  u ≠ t → (d, u) ∈ w.(blocked_queues).(timed) → (d, u) ∈ (wake w t).(blocked_queues).(timed).
Proof.
  intros Hu Hin. rewrite wake_blocked_queues, remove_timed. case_match; [|done].
  apply elem_of_timed_remove. split; [congruence|done].
Qed.

Lemma wake_in_ready w t u :
  in_ready (wake w t) u ↔ in_ready w u ∨ (u = t ∧ ∃ b, state_of w t = Some (State.Blocked b)).
Proof.
  unfold in_ready. rewrite (wake_ready_queues w t). destruct (state_of w t) as [[]|]; try (split; [by left|intros [?|[_ [? ?]]]; done]).
  destruct (is_ready_queued w t) eqn:Hq.
  - apply is_ready_queued_spec in Hq. split; [by left|]. intros [?|[-> _]]; [done|exact Hq].
  - rewrite elem_of_cons. split; [intros [->|?]; [right; eauto|by left]|intros [?|[-> _]]; auto].
Qed.

Lemma wake_ok X w t : sched_ok_but X w → sched_ok_but (λ u, X u ∧ u ≠ t) (wake w t).
Proof.
  intros Hok. constructor.
  - pose proof (ok_ready_nodup X w Hok) as Hnd. rewrite wake_ready_queues. repeat case_match; try done.
    constructor; [|done]. intros Hin. apply is_ready_queued_spec in Hin. congruence.
  - intros u [Hu|[-> [b Hb]]]%wake_in_ready; rewrite wake_state.
    + destruct (ok_ready_state X w Hok u Hu) as [Hs|Hs]; case_decide; subst; rewrite ?Hs; auto.
    + rewrite decide_True, Hb by done. by left.
  - intros u Hs. apply wake_in_ready. rewrite wake_state in Hs. case_decide as Hut; [subst|left; by apply (ok_ready_queued X w Hok)].
    destruct (state_of w t) as [[]|] eqn:Ht; cbn in Hs; try done; [left; by apply (ok_ready_queued X w Hok)|right; eauto].
  - intros k. rewrite wake_queue_of. apply without_nodup, (ok_queue_nodup X w Hok).
  - intros k u. unfold in_queue. rewrite wake_queue_of. intros [Hu Hne]%elem_of_without. rewrite wake_state, decide_False by done.
    by apply (ok_queue_state X w Hok).
  - rewrite wake_blocked_queues, remove_timed. case_match; [apply timed_remove_sorted|]; apply (ok_timed X w Hok).
  - intros u s b Hs Hb HX. rewrite wake_state in Hs. case_decide as Hut.
    + destruct (state_of w t) as [[]|]; cbn in Hs; simplify_eq/=; done.
    + destruct (ok_sleepers X w Hok u s b Hs Hb) as [Hq Ht]; [naive_solver|]. split.
      * intros wt d ->. unfold in_queue. rewrite wake_queue_of. apply elem_of_without. split; [by eapply Hq|done].
      * intros d Hd. apply wake_timed; [done|]. by apply Ht.
  - apply wake_cpu, (ok_cpu X w Hok).
Qed.

Lemma wake_list_ok ts X w : sched_ok_but X w → sched_ok_but (λ u, X u ∧ u ∉ ts) (wake_list w ts).
Proof.
  revert X w. induction ts as [|t ts IH]; intros X w Hok; cbn.
  - destruct Hok. constructor; try done. intros u s b Hs Hb HX. apply (ok_sleepers0 u s b Hs Hb). intros HXu. apply HX. split; [done|apply not_elem_of_nil].
  - specialize (IH _ _ (wake_ok X w t Hok)). destruct IH. constructor; try done. intros u s b Hs Hb HX.
    apply (ok_sleepers0 u s b Hs Hb). intros [[HXu Hut] Hin]. apply HX. split; [done|]. rewrite not_elem_of_cons. done.
Qed.

Lemma wake_list_state ts w u :
  state_of (wake_list w ts) u = if decide (u ∈ ts) then woken_state <$> state_of w u else state_of w u.
Proof.
  revert w. induction ts as [|t ts IH]; intros w.
  - by rewrite decide_False by apply not_elem_of_nil.
  - change (wake_list w (t :: ts)) with (wake_list (wake w t) ts). rewrite IH, wake_state. destruct (decide (u = t)) as [->|Hut].
    + rewrite (decide_True (P := t ∈ t :: ts)) by (by constructor). case_decide; [|done]. destruct (state_of w t) as [[]|]; done.
    + destruct (decide (u ∈ ts)); [by rewrite decide_True by (by constructor)|].
      rewrite decide_False; [done|]. by apply not_elem_of_cons.
Qed.

Lemma sched_ok_weaken (X Y : Z → Prop) w : (∀ u, X u → Y u) → sched_ok_but X w → sched_ok_but Y w.
Proof. intros HXY []. constructor; try done. intros u s b Hs Hb HY. apply (ok_sleepers0 u s b Hs Hb). naive_solver. Qed.

(** Taking threads out of a queue leaves exactly those to be woken. *)
Lemma take_out_ok w k l (P : Z → Prop) :
  sched_ok w → sublist l (queue w.(blocked_queues) k) →
  (∀ t, in_queue w k t → t ∉ l → P t) → sched_ok_but P (with_queue w k l).
Proof.
  intros Hok Hsub HP. constructor; try by apply Hok.
  - intros j. cbn. destruct (decide (j = k)) as [->|]; [|rewrite queue_set_ne by done; apply (ok_queue_nodup _ w Hok)].
    rewrite queue_set_eq. eapply sublist_NoDup; [apply (ok_queue_nodup _ w Hok)|exact Hsub].
  - intros j t. unfold in_queue. cbn. destruct (decide (j = k)) as [->|]; [|rewrite queue_set_ne by done; apply (ok_queue_state _ w Hok)].
    rewrite queue_set_eq. intros Ht. apply (ok_queue_state _ w Hok). exact (elem_of_sublist _ _ _ Ht Hsub).
  - cbn. rewrite timed_set_queue. apply (ok_timed _ w Hok).
  - intros t s b Hs Hb HPt. destruct (ok_sleepers _ w Hok t s b Hs Hb) as [Hq Ht]; [tauto|]. split.
    + intros wt d ->. specialize (Hq wt d eq_refl). unfold in_queue in *. cbn. destruct (decide (kind_of wt = k)) as [Hk|].
      * rewrite Hk, queue_set_eq in *. destruct (decide (t ∈ l)); [done|]. exfalso. by apply HPt, HP.
      * by rewrite queue_set_ne.
    + intros d Hd. cbn. rewrite timed_set_queue. by apply Ht.
Qed.

(** ** The operations that wake many threads *)

Lemma wake_queue_loop_spec n k w :
  sched_ok w → (length (queue w.(blocked_queues) k) ≤ n)%nat →
  let w' := wake_queue_loop w k n in
  sched_ok w' ∧ queue w'.(blocked_queues) k = [] ∧
  ∀ u, state_of w' u = if decide (u ∈ queue w.(blocked_queues) k) then woken_state <$> state_of w u else state_of w u.
Proof.
  revert w. induction n as [|n IH]; intros w Hok Hn.
  - destruct (queue (blocked_queues w) k) as [|t q] eqn:Hq; [|cbn in Hn; lia]. cbn. split; [done|]. split; [done|].
    intros u. rewrite decide_False; [done|apply not_elem_of_nil].
  - cbn [wake_queue_loop]. destruct (queue (blocked_queues w) k) as [|t q] eqn:Hq.
    { split; [done|]. split; [done|]. intros u. rewrite decide_False; [done|apply not_elem_of_nil]. }
    set (w1 := wake (with_queue w k q) t).
    pose proof (ok_queue_nodup _ w Hok k) as Hnd. rewrite Hq in Hnd. apply NoDup_cons in Hnd as [Htq Hnd].
    assert (queue w1.(blocked_queues) k = q) as Hq1.
    { subst w1. rewrite wake_queue_of. cbn. rewrite queue_set_eq. by apply without_id. }
    destruct (IH w1) as (Hok' & Hempty & Hst).
    { apply (sched_ok_weaken (λ u, u = t ∧ u ≠ t)); [tauto|]. apply wake_ok. apply take_out_ok; [done| |].
      - rewrite Hq. by apply sublist_cons.
      - unfold in_queue. rewrite Hq. intros u [->|Hu]%elem_of_cons; done. }
    { rewrite Hq1. cbn in Hn. lia. }
    split; [done|]. split; [done|]. intros u. rewrite Hst, Hq1.
    subst w1. rewrite wake_state. change (state_of (with_queue w k q) ?v) with (state_of w v).
    destruct (decide (u = t)) as [->|Hut].
    + rewrite (decide_False (P := t ∈ q)) by done. rewrite decide_True by (by constructor). done.
    + destruct (decide (u ∈ q)); [by rewrite decide_True by (by constructor)|].
      rewrite decide_False; [done|]. by apply not_elem_of_cons.
Qed.

Lemma wake_queue_spec w k :
  sched_ok w →
  let w' := wake_queue w k in
  sched_ok w' ∧ queue w'.(blocked_queues) k = [] ∧
  ∀ u, state_of w' u = if decide (u ∈ queue w.(blocked_queues) k) then woken_state <$> state_of w u else state_of w u.
Proof. intros Hok. by apply wake_queue_loop_spec. Qed.

Lemma wake_matching_spec w k p :
  sched_ok w →
  let w' := wake_matching w k p in
  sched_ok w' ∧
  ∀ u s, state_of w u = Some s →
    state_of w' u = Some (if bool_decide (u ∈ queue w.(blocked_queues) k) && p s then woken_state s else s).
Proof.
  intros Hok. unfold wake_matching. set (hit := λ t, match state_of w t with Some s => p s | None => false end).
  set (w1 := with_queue w k _). set (ts := filter (λ t, hit t = true) (queue w.(blocked_queues) k)). split.
  - apply (sched_ok_weaken (λ u, u ∈ ts ∧ u ∉ ts)); [tauto|]. apply wake_list_ok. apply take_out_ok; [done|apply sublist_filter|].
    intros t Ht Hn. subst ts. apply list_elem_of_filter. split; [|done]. destruct (hit t) eqn:Hh; [done|]. exfalso. apply Hn.
    by apply list_elem_of_filter.
  - intros u s Hs. rewrite wake_list_state. change (state_of w1 u) with (state_of w u). rewrite Hs.
    subst ts. case_decide as Hin; rewrite list_elem_of_filter in Hin; unfold hit in Hin; rewrite Hs in Hin.
    + destruct Hin as [-> Hin]. by rewrite bool_decide_eq_true_2.
    + destruct (p s); [|by rewrite andb_false_r]. rewrite bool_decide_eq_false_2; [done|]. intros ?. by apply Hin.
Qed.

(** *** Timeouts *)

Lemma is_timed_out_deadline now b : is_timed_out now b = true ↔ ∃ d, block_deadline b = Some d ∧ d ≤ now.
Proof.
  destruct b as [time|wt [d|]|[d|] wid|]; cbn; (split; [intros H; first [done|eexists; split; [done|lia]]|intros (? & H & ?); simplify_eq; first [done|lia]]).
Qed.

Lemma pop_due_spec w entries :
  StronglySorted key_lt entries →
  let '(left_, to_wake) := pop_due w entries in
  StronglySorted key_lt left_ ∧
  (∀ e, e ∈ entries → w.(now) < e.1 → e ∈ left_) ∧
  ∀ t, t ∈ to_wake ↔ ∃ d b, (d, t) ∈ entries ∧ d ≤ w.(now) ∧ state_of w t = Some (State.Blocked b) ∧ is_timed_out w.(now) b = true.
Proof.
  induction 1 as [|[d t] l Hl IH Hd]; cbn [pop_due].
  - split; [constructor|]. split; [intros e ?%not_elem_of_nil; done|]. intros t. rewrite elem_of_nil.
    split; [done|]. intros (d & b & ?%not_elem_of_nil & _). done.
  - destruct (Z.ltb_spec w.(now) d) as [Hlt|Hge].
    { split; [by constructor|]. split; [done|]. intros u. rewrite elem_of_nil. split; [done|].
      intros (d' & b & [[= -> ->]|Hin]%elem_of_cons & Hle & _); [lia|].
      eapply Forall_forall in Hd as [Hkey _]; [|exact Hin]. unfold key_leb in Hkey. cbn in Hkey. lia. }
    destruct (pop_due w l) as [left_ to_wake]. destruct IH as (IH1 & IH2 & IH3). split; [done|]. split.
    + intros e [->|He]%elem_of_cons Hlt; [cbn in Hlt; lia|]. by apply IH2.
    + intros u.
      assert (u ∈ to_wake ∨ (u = t ∧ ∃ b, state_of w t = Some (State.Blocked b) ∧ is_timed_out w.(now) b = true) ↔
        ∃ d' b, (d', u) ∈ (d, t) :: l ∧ d' ≤ w.(now) ∧ state_of w u = Some (State.Blocked b) ∧ is_timed_out w.(now) b = true) as Hiff.
      { rewrite IH3. setoid_rewrite elem_of_cons. split.
        - intros [(d' & b & ? & ? & ? & ?)|(-> & b & ? & ?)]; [exists d', b; auto|exists d, b; auto].
        - intros (d' & b & [[= -> ->]|?] & ? & ? & ?); [right; eauto|left; eauto 10]. }
      rewrite <- Hiff. destruct (state_of w t) as [s|] eqn:Hs; [|split; [by left|intros [?|(_ & b' & ? & _)]; done]].
      destruct s as [| | | |b| |]; try (split; [by left|intros [?|(_ & b' & ? & _)]; done]).
      destruct (is_timed_out (now w) b) eqn:Hb; [rewrite elem_of_cons|]; (split; [|intros [?|(-> & b' & [= <-] & ?)]; auto; congruence]).
      * intros [->|?]; [right; eauto|by left].
      * by left.
Qed.

(** No thread is caught between announcing its sleep and going to sleep. *)
Definition none_blocking (w : World) : Prop := ∀ t b, state_of w t ≠ Some (State.Blocking b).

Definition due (now : Z) (s : State) : bool :=
  match s with State.Blocked b => is_timed_out now b | _ => false end.

Lemma process_timed_out_spec w :
  sched_ok w → none_blocking w →
  let w' := process_timed_out_threads w in
  sched_ok w' ∧ ∀ u s, state_of w u = Some s → state_of w' u = Some (if due w.(now) s then State.Ready else s).
Proof.
  intros Hok Hnb. unfold process_timed_out_threads.
  pose proof (pop_due_spec w w.(blocked_queues).(timed) (ok_timed _ w Hok)) as Hpop.
  destruct (pop_due w _) as [left_ ts]. destruct Hpop as (Hsorted & Hleft & Hts).
  assert (∀ u s, state_of w u = Some s → u ∈ ts ↔ due w.(now) s = true) as Hdue.
  { intros u s Hs. rewrite Hts. split.
    - intros (d & b & _ & _ & Hb & Ht). rewrite Hs in Hb. injection Hb as ->. done.
    - destruct s as [| | | |b| |]; try done. cbn. intros Ht. pose proof Ht as (d & Hd & Hle)%is_timed_out_deadline.
      exists d, b. split; [|done]. apply (ok_sleepers _ w Hok u _ b Hs); [done|tauto|done]. }
  split.
  - apply (sched_ok_weaken (λ u, u ∈ ts ∧ u ∉ ts)); [tauto|]. apply wake_list_ok. constructor; try by apply Hok.
    + exact Hsorted.
    + intros u s b Hs Hb Hn. destruct (ok_sleepers _ w Hok u s b Hs Hb) as [Hq Ht]; [tauto|]. split.
      * intros wt d ->. unfold in_queue. cbn. rewrite queue_with_timed. by eapply Hq.
      * intros d Hd. cbn. apply Hleft; [by apply Ht|]. cbn. destruct (Z.le_gt_cases d (now w)) as [Hle|]; [|done].
        exfalso. apply Hn. apply (Hdue u s Hs). destruct s; try done; cbn in Hb; injection Hb as ->; [by edestruct Hnb|].
        cbn. apply is_timed_out_deadline. eauto.
  - intros u s Hs. rewrite wake_list_state. change (state_of (with_blocked_queues w ?q) u) with (state_of w u). rewrite Hs.
    destruct (due (now w) s) eqn:Hd.
    + rewrite decide_True by (by apply (Hdue u s)). by destruct s.
    + rewrite decide_False; [done|]. intros Hin%(Hdue u s Hs). congruence.
Qed.

(** ** Lemmas: one thread leaves, goes to sleep, or is dispatched *)

(** A thread that is in no queue afterwards. *)
Lemma leave_ok w w' t s' :
  sched_ok w → blocked_on s' = None → s' ≠ State.Ready →
  concat w'.(ready_queues) = without t (concat w.(ready_queues)) →
  (∀ k, queue w'.(blocked_queues) k = without t (queue w.(blocked_queues) k)) →
  StronglySorted key_lt w'.(blocked_queues).(timed) →
  (∀ d u, u ≠ t → (d, u) ∈ w.(blocked_queues).(timed) → (d, u) ∈ w'.(blocked_queues).(timed)) →
  (∀ u, state_of w' u = if decide (u = t) then (λ _, s') <$> state_of w t else state_of w u) →
  0 ≤ w'.(next_ready_cpu) → sched_ok w'.
Proof.
  intros Hok Hb Hr Hrq Hq Hsorted Htimed Hst Hcpu. constructor; [..|done].
  - rewrite Hrq. apply without_nodup, (ok_ready_nodup _ w Hok).
  - unfold in_ready. rewrite Hrq. intros u [Hu Hne]%elem_of_without. rewrite Hst, decide_False by done. by apply (ok_ready_state _ w Hok).
  - intros u. unfold in_ready. rewrite Hrq, Hst. case_decide as Hu.
    + destruct (state_of w t); cbn; [by intros [= ->]|done].
    + intros Hs. apply elem_of_without. split; [by apply (ok_ready_queued _ w Hok)|done].
  - intros k. rewrite Hq. apply without_nodup, (ok_queue_nodup _ w Hok).
  - intros k u. unfold in_queue. rewrite Hq. intros [Hu Hne]%elem_of_without. rewrite Hst, decide_False by done. by apply (ok_queue_state _ w Hok).
  - done.
  - intros u s b Hs Hbs _. rewrite Hst in Hs. case_decide as Hu.
    + destruct (state_of w t); cbn in Hs; [injection Hs as <-; congruence|done].
    + destruct (ok_sleepers _ w Hok u s b Hs Hbs) as [H1 H2]; [tauto|]. split.
      * intros wt d ->. unfold in_queue. rewrite Hq. apply elem_of_without. split; [by eapply H1|done].
      * intros d Hd. apply Htimed; [done|]. by apply H2.
Qed.

(** A thread that is in no queue goes to sleep. *)
Lemma sleep_ok w w' t s b :
  sched_ok w → ¬ in_ready w t → (∀ k, ¬ in_queue w k t) → blocked_on s = Some b →
  concat w'.(ready_queues) = concat w.(ready_queues) → w'.(next_ready_cpu) = w.(next_ready_cpu) →
  w'.(blocked_queues) = queues_push w.(blocked_queues) t b →
  (∀ u, state_of w' u = if decide (u = t) then Some s else state_of w u) → sched_ok w'.
Proof.
  intros Hok Hnr Hnq Hb Hrq Hcpu Hbq Hst.
  set (q1 := match block_deadline b with Some d => with_timed w.(blocked_queues) (timed_insert (d, t) w.(blocked_queues).(timed)) | None => w.(blocked_queues) end).
  assert (∀ k, queue q1 k = queue w.(blocked_queues) k) as Hq1 by (intros k; subst q1; case_match; [apply queue_with_timed|done]).
  assert (w'.(blocked_queues) = match b with BlockType.WakeRequired wt _ => set_queue q1 (kind_of wt) (queue q1 (kind_of wt) ++ [t]) | _ => q1 end) as Hbq' by (rewrite Hbq; done).
  assert (∀ k, queue w'.(blocked_queues) k = queue w.(blocked_queues) k ∨
    (∃ wt d, b = BlockType.WakeRequired wt d ∧ k = kind_of wt ∧ queue w'.(blocked_queues) k = queue w.(blocked_queues) k ++ [t])) as Hk.
  { intros k. rewrite Hbq'. destruct b as [time|wt d|d wid|]; try (left; apply Hq1).
    destruct (decide (k = kind_of wt)) as [->|]; [|left; rewrite queue_set_ne by done; apply Hq1].
    right. exists wt, d. rewrite queue_set_eq, Hq1. done. }
  assert (w'.(blocked_queues).(timed) = match block_deadline b with Some d => timed_insert (d, t) w.(blocked_queues).(timed) | None => w.(blocked_queues).(timed) end) as Ht.
  { rewrite Hbq'. destruct b; rewrite ?timed_set_queue; subst q1; by case_match. }
  assert (∀ d, block_deadline b = Some d → (d, t) ∈ w'.(blocked_queues).(timed)) as Hdl.
  { intros d Hd. rewrite Ht, Hd. apply elem_of_timed_insert. by left. }
  constructor.
  - rewrite Hrq. apply (ok_ready_nodup _ w Hok).
  - unfold in_ready. rewrite Hrq. intros u Hu. rewrite Hst, decide_False by (by intros ->). by apply (ok_ready_state _ w Hok).
  - intros u. unfold in_ready. rewrite Hrq, Hst. case_decide; [|apply (ok_ready_queued _ w Hok)]. intros [= ->]. done.
  - intros k. destruct (Hk k) as [->|(_ & _ & _ & _ & ->)]; [apply (ok_queue_nodup _ w Hok)|].
    apply NoDup_app. split; [apply (ok_queue_nodup _ w Hok)|]. split; [|apply NoDup_singleton].
    intros u Hu ->%list_elem_of_singleton. by apply (Hnq k).
  - intros k u. unfold in_queue. intros Hu. rewrite Hst. destruct (Hk k) as [Hk'|(wt & d & -> & -> & Hk')]; rewrite Hk' in Hu.
    + rewrite decide_False by (intros ->; by apply (Hnq k)). by apply (ok_queue_state _ w Hok).
    + case_decide as Hut; [right; exists s, wt, d; done|]. apply elem_of_app in Hu as [Hu|Hu%list_elem_of_singleton]; [|done].
      by apply (ok_queue_state _ w Hok).
  - rewrite Ht. case_match; [apply timed_insert_sorted|]; apply (ok_timed _ w Hok).
  - intros u s' b' Hs Hb' _. rewrite Hst in Hs. case_decide as Hu.
    + subst u. injection Hs as <-. replace b' with b by congruence. split; [|done]. intros wt d ->. unfold in_queue.
      rewrite Hbq', queue_set_eq. apply elem_of_app. right. by constructor.
    + destruct (ok_sleepers _ w Hok u s' b' Hs Hb') as [H1 H2]; [tauto|]. split.
      * intros wt d ->. unfold in_queue. destruct (Hk (kind_of wt)) as [->|(_ & _ & _ & _ & ->)]; [by eapply H1|].
        apply elem_of_app. left. by eapply H1.
      * intros d Hd. rewrite Ht. case_match; [apply elem_of_timed_insert; right|]; by apply H2.
  - rewrite Hcpu. apply (ok_cpu _ w Hok).
Qed.

(** *** Taking a thread off the ready queues *)

Definition not_ready (w : World) (t : Z) : Prop := state_of w t ≠ Some State.Ready.

Lemma is_ready_state w t th : w.(threads) !! t = Some th → is_ready th = true ↔ state_of w t = Some State.Ready.
Proof. intros H. unfold state_of, is_ready. rewrite H. cbn. destruct (state th); split; congruence. Qed.

Lemma pop_ready_loop_spec w f n q :
  let '(r, q') := pop_ready_loop w f n q in
  ∃ dropped, Forall (not_ready w) dropped ∧ q ≡ₚ option_list r ++ q' ++ dropped ∧
    ∀ t, r = Some t → state_of w t = Some State.Ready.
Proof.
  revert q. induction n as [|n IH]; intros q; cbn [pop_ready_loop].
  - exists []. cbn. rewrite app_nil_r. done.
  - destruct q as [|t q]; [exists []; done|].
    assert (∀ m, not_ready w m → (let '(r, q') := pop_ready_loop w f n q in
      ∃ dropped, Forall (not_ready w) dropped ∧ m :: q ≡ₚ option_list r ++ q' ++ dropped ∧
        ∀ t, r = Some t → state_of w t = Some State.Ready)) as Hdrop.
    { intros m Hm. specialize (IH q). destruct (pop_ready_loop w f n q) as [r q']. destruct IH as (dr & Hdr & Hp & Hr).
      exists (m :: dr). split; [by constructor|]. split; [|done]. rewrite Hp, !app_assoc. apply Permutation_middle. }
    destruct (threads w !! t) as [th|] eqn:Hth; [|apply Hdrop; unfold not_ready, state_of; by rewrite Hth].
    destruct (is_ready th) eqn:Hr; cbn [andb].
    + destruct (filter_matches f th).
      * exists []. rewrite app_nil_r. split; [constructor|]. split; [done|]. intros u [= <-]. by apply (is_ready_state w t th).
      * specialize (IH (q ++ [t])). destruct (pop_ready_loop w f n (q ++ [t])) as [r q']. destruct IH as (dr & Hdr & Hp & Hrr).
        exists dr. split; [done|]. split; [|done]. rewrite <- Hp. apply Permutation_cons_append.
    + apply Hdrop. unfold not_ready. intros Hs%(is_ready_state w t th); congruence.
Qed.

(** The threads keep their states, and the wait queues are not touched. *)
Definition same_threads (w w' : World) : Prop :=
  (∀ u, state_of w' u = state_of w u) ∧ w'.(blocked_queues) = w.(blocked_queues) ∧
  (0 ≤ w.(next_ready_cpu) → 0 ≤ w'.(next_ready_cpu)).

Definition popped (w : World) (r : option Z) (w' : World) : Prop :=
  same_threads w w' ∧ (∀ t, r = Some t → state_of w t = Some State.Ready) ∧
  ∃ dropped, Forall (not_ready w) dropped ∧ concat w.(ready_queues) ≡ₚ option_list r ++ concat w'.(ready_queues) ++ dropped.

Lemma pop_queue_spec w f i : let '(r, w') := pop_ready_from_queue_matching w f i in popped w r w'.
Proof.
  unfold pop_ready_from_queue_matching. destruct (ready_queues w !! i) as [q|] eqn:Hq.
  - pose proof (pop_ready_loop_spec w f (length q) q) as H. destruct (pop_ready_loop w f (length q) q) as [r q'].
    destruct H as (dr & Hdr & Hp & Hr). split; [done|]. split; [done|]. exists dr. split; [done|]. cbn.
    destruct (concat_insert w.(ready_queues) i q q' Hq) as [H1 H2]. rewrite H1, H2, Hp, <- !app_assoc. do 2 f_equiv. apply Permutation_app_comm.
  - split; [done|]. split; [done|]. exists []. rewrite app_nil_r. done.
Qed.

Lemma popped_trans w w1 r w' : popped w None w1 → popped w1 r w' → popped w r w'.
Proof.
  intros ((Hs1 & Hb1 & Hc1) & _ & d1 & Hd1 & Hp1) ((Hs2 & Hb2 & Hc2) & Hr & d2 & Hd2 & Hp2).
  split; [split; [intros u; by rewrite Hs2|split; [by rewrite Hb2|tauto]]|]. split; [intros t Ht; rewrite <- Hs1; by apply Hr|].
  exists (d2 ++ d1). split.
  - apply Forall_app. split; [|done]. eapply Forall_impl; [exact Hd2|]. unfold not_ready. intros u. by rewrite Hs1.
  - cbn in Hp1. rewrite Hp1, Hp2. by rewrite !app_assoc.
Qed.

Lemma steal_spec w f l indices : let '(r, w') := steal_loop w f l indices in popped w r w'.
Proof.
  revert w. induction indices as [|i indices IH]; intros w; cbn [steal_loop].
  - split; [done|]. split; [done|]. exists []. by rewrite app_nil_r.
  - case_decide as Hil; [apply IH|]. pose proof (pop_queue_spec w f i) as Hpop. destruct (pop_ready_from_queue_matching w f i) as [[t|] w1]; [done|].
    specialize (IH w1). destruct (steal_loop w1 f l indices) as [r w']. by eapply popped_trans.
Qed.

Lemma pop_inner_spec w cpu steal f : let '(r, w') := pop_ready_for_cpu_inner w cpu steal f in popped w r w'.
Proof.
  unfold pop_ready_for_cpu_inner. destruct (ensure_spec w) as (Hc & _ & Hn & Hs & Hb).
  assert (popped w None (ensure_queue w)) as He by (split; [by split|split; [done|exists []; cbn; by rewrite Hc, app_nil_r]]).
  set (w1 := ensure_queue w) in *. set (i := Z.to_nat _).
  pose proof (pop_queue_spec w1 f i) as H. destruct (pop_ready_from_queue_matching w1 f i) as [[t|] w2]; [by eapply popped_trans|].
  pose proof (popped_trans _ _ _ _ He H) as H2. destruct steal; [|done].
  pose proof (steal_spec w2 f i (seq 0 (length w2.(ready_queues)))) as H3. destruct (steal_loop w2 f i _) as [r w']. by eapply popped_trans.
Qed.

(** What the scheduler does with the next thread: take it and run it. *)
Definition dispatch (p : option Z * World) : World :=
  match p with (Some t, w) => (run_ready_thread w t).2 | (None, w) => w end.

Lemma dispatch_ok w r w' : sched_ok w → popped w r w' → sched_ok (dispatch (r, w')).
Proof.
  intros Hok ((Hs & Hb & Hc) & Hr & dr & Hdr & Hp).
  pose proof (ok_ready_nodup _ w Hok) as Hnd. rewrite Hp in Hnd. apply NoDup_app in Hnd as (_ & Hrest & Hnd).
  apply NoDup_app in Hnd as (Hnd & Hdrest & _).
  assert (∀ u, u ∈ concat w'.(ready_queues) → in_ready w u) as Hsub.
  { intros u Hu. unfold in_ready. rewrite Hp. apply elem_of_app. right. apply elem_of_app. by left. }
  assert (∀ u, state_of w u = Some State.Ready → r ≠ Some u → u ∈ concat w'.(ready_queues)) as Hkeep.
  { intros u Hu Hne. pose proof (ok_ready_queued _ w Hok u Hu) as Hin. unfold in_ready in Hin. rewrite Hp in Hin.
    apply elem_of_app in Hin as [Hin|Hin]; [destruct r as [t|]; cbn in Hin; [apply list_elem_of_singleton in Hin; congruence|by apply not_elem_of_nil in Hin]|].
    apply elem_of_app in Hin as [Hin|Hin]; [done|]. exfalso. eapply Forall_forall in Hdr; [|exact Hin]. by apply Hdr. }
  assert (∀ t, r = Some t → t ∉ concat w'.(ready_queues)) as Hnot.
  { intros t -> Hin. apply (Hrest t); [by constructor|]. apply elem_of_app. by left. }
  assert (∃ w2, dispatch (r, w') = w2 ∧ w2.(ready_queues) = w'.(ready_queues) ∧ w2.(blocked_queues) = w'.(blocked_queues) ∧
    w2.(next_ready_cpu) = w'.(next_ready_cpu) ∧
    ∀ u, state_of w2 u = if decide (r = Some u) then Some State.Running else state_of w u) as (w2 & -> & Hrq & Hbq & Hcpu & Hst).
  { eexists. split; [reflexivity|]. destruct r as [t|]; cbn.
    - unfold run_ready_thread. rewrite Hs, (Hr t eq_refl). cbn. split; [done|]. split; [done|]. split; [done|]. intros u.
      change (state_of (with_need_resched ?w _) u) with (state_of w u). rewrite state_of_set, !Hs, (Hr t eq_refl). cbn.
      destruct (decide (u = t)) as [->|]; [by rewrite decide_True|by rewrite decide_False by congruence].
    - done. }
  constructor.
  - by rewrite Hrq.
  - unfold in_ready. rewrite Hrq. intros u Hu. rewrite Hst, decide_False by (intros ->; by eapply Hnot). by apply (ok_ready_state _ w Hok), Hsub.
  - intros u. rewrite Hst. case_decide; [done|]. unfold in_ready. rewrite Hrq. intros Hu. by apply Hkeep.
  - intros k. rewrite Hbq, Hb. apply (ok_queue_nodup _ w Hok).
  - intros k u. unfold in_queue. rewrite Hbq, Hb, Hst. intros Hu. pose proof (ok_queue_state _ w Hok k u Hu) as Hq.
    case_decide as Hru; [|done]. rewrite (Hr u Hru) in Hq. destruct Hq as [?|(s & wt & d & [= <-] & ? & _)]; done.
  - rewrite Hbq, Hb. apply (ok_timed _ w Hok).
  - intros u s b. rewrite Hst. case_decide; [by intros [= <-]|]. intros Hus Hub _.
    destruct (ok_sleepers _ w Hok u s b Hus Hub) as [H1 H2]; [tauto|]. unfold findable, in_queue in *. rewrite Hbq, Hb. done.
  - rewrite Hcpu. apply Hc, (ok_cpu _ w Hok).
Qed.

(** ** Lemmas: the steps *)

(** A change of state that the queues already agree with. *)
Lemma set_ok w t s :
  sched_ok w →
  (in_ready w t → s = State.Ready ∨ s = State.Blocked BlockType.Stopped) →
  (s = State.Ready → in_ready w t) →
  (∀ k, in_queue w k t → s = State.Blocked BlockType.Stopped ∨ ∃ wt d, blocked_on s = Some (BlockType.WakeRequired wt d) ∧ kind_of wt = k) →
  (∀ b, blocked_on s = Some b → findable w t b) → sched_ok (set_state w t s).
Proof.
  intros Hok Hr Hr' Hq Hb. destruct (state_of w t) as [s0|] eqn:Ht.
  2:{ assert (∀ u, state_of (set_state w t s) u = state_of w u) as Hst
        by (intros u; rewrite state_of_set; case_decide; [by subst; rewrite Ht|done]).
      destruct Hok as [H1 H2 H3 H4 H5 H6 H7 H8]. constructor;
        [exact H1|intros u; rewrite Hst; apply H2|intros u; rewrite Hst; apply H3|exact H4
        |intros k u; rewrite Hst; apply H5|exact H6|intros u s' b; rewrite Hst; apply H7|exact H8]. }
  assert (∀ u, state_of (set_state w t s) u = if decide (u = t) then Some s else state_of w u) as Hst
    by (intros u; rewrite state_of_set; case_decide; [by rewrite Ht|done]).
  constructor; try by apply Hok.
  - intros u Hu. rewrite Hst. case_decide; [subst|by apply (ok_ready_state _ w Hok)]. destruct (Hr Hu) as [->| ->]; auto.
  - intros u. rewrite Hst. case_decide; [intros [= ->]; subst; by apply Hr'|apply (ok_ready_queued _ w Hok)].
  - intros k u Hu. rewrite Hst. case_decide; [subst|by apply (ok_queue_state _ w Hok)].
    destruct (Hq k Hu) as [->|(wt & d & Hs & Hk)]; [by left|right; by exists s, wt, d].
  - intros u s' b. rewrite Hst. case_decide; [intros [= <-] ? _; subst; by apply Hb|apply (ok_sleepers _ w Hok)].
Qed.

(** A thread that runs is in no queue. *)
Lemma awake_unqueued w t s :
  sched_ok w → state_of w t = Some s → blocked_on s = None → (∀ k, ¬ in_queue w k t) ∧ (s ≠ State.Ready → ¬ in_ready w t).
Proof.
  intros Hok Hs Hb. split.
  - intros k Hk. destruct (ok_queue_state _ w Hok k t Hk) as [Ht|(s' & wt & d & Ht & Hb' & _)]; rewrite Hs in Ht; [injection Ht as ->; done|injection Ht as <-; congruence].
  - intros Hne Hr. destruct (ok_ready_state _ w Hok t Hr) as [Ht|Ht]; rewrite Hs in Ht; injection Ht as ->; done.
Qed.

Lemma blocking_unready w t b : sched_ok w → state_of w t = Some (State.Blocking b) → ¬ in_ready w t.
Proof. intros Hok Hs Hr. destruct (ok_ready_state _ w Hok t Hr) as [Ht|Ht]; congruence. Qed.

(** The state of a thread while its code runs: a wake-up that came before a sleep that was
    cancelled leaves it [Woken]. *)
Definition on_cpu (w : World) (t : Z) : Prop := state_of w t = Some State.Running ∨ state_of w t = Some State.Woken.

Lemma block_on_cpu_ok w t b : sched_ok w → on_cpu w t → sched_ok (block w t b).
Proof.
  intros Hok Hc. assert (∃ s, state_of w t = Some s ∧ blocked_on s = None ∧ s ≠ State.Ready) as (s & Hs & Hb & Hne) by (destruct Hc; eauto).
  destruct (awake_unqueued w t s Hok Hs Hb) as [Hq Hr].
  apply (sleep_ok w _ t (State.Blocking b) b); try done; [by apply Hr|]. intros u.
  change (state_of (block w t b) u) with (state_of (set_state w t (State.Blocking b)) u). rewrite state_of_set.
  case_decide; [by rewrite Hs|done].
Qed.

Lemma block_ok w t b : sched_ok w → state_of w t = Some State.Running → sched_ok (block w t b).
Proof. intros Hok Hs. apply block_on_cpu_ok; [done|by left]. Qed.

Lemma remove_timed_keeps w t :
  sched_ok w → StronglySorted key_lt (remove_from_blocked_queues w t).(blocked_queues).(timed) ∧
  ∀ d u, u ≠ t → (d, u) ∈ w.(blocked_queues).(timed) → (d, u) ∈ (remove_from_blocked_queues w t).(blocked_queues).(timed).
Proof.
  intros Hok. rewrite remove_timed. case_match; [|split; [apply (ok_timed _ w Hok)|done]].
  split; [apply timed_remove_sorted, (ok_timed _ w Hok)|]. intros d u Hu Hin. apply elem_of_timed_remove. split; [congruence|done].
Qed.

Lemma cancel_ok w t s :
  sched_ok w → state_of w t = Some s → ((∃ b, s = State.Blocking b) ∨ s = State.Woken ∨ s = State.Running) → sched_ok (cancel_block w t).
Proof.
  intros Hok Hs Hcase. destruct (remove_timed_keeps w t Hok) as [Hsort Hkeep].
  assert (¬ in_ready w t) as Hr.
  { destruct Hcase as [[b ->]|Hc]; [by eapply blocking_unready|]. eapply (awake_unqueued w t s Hok Hs); destruct Hc as [-> | ->]; done. }
  set (s' := if decide (s = State.Woken) then State.Woken else State.Running).
  apply (leave_ok w _ t s'); unfold cancel_block; rewrite ?remove_state, ?Hs; try done.
  - subst s'. by case_decide.
  - subst s'. by case_decide.
  - rewrite without_id by done. destruct Hcase as [[b ->]|[-> | ->]]; cbn; by rewrite remove_ready_queues.
  - intros k. destruct Hcase as [[b ->]|[-> | ->]]; cbn; apply remove_queue.
  - destruct Hcase as [[b ->]|[-> | ->]]; exact Hsort.
  - destruct Hcase as [[b ->]|[-> | ->]]; exact Hkeep.
  - intros u. subst s'. destruct Hcase as [[b ->]|[-> | ->]]; rewrite ?state_of_set, ?remove_state; case_decide; subst; by rewrite ?Hs.
  - pose proof (ok_cpu _ w Hok) as Hc. destruct Hcase as [[b ->]|[-> | ->]]; cbn; by rewrite remove_cpu.
Qed.

Lemma finish_ok w t : sched_ok w → sched_ok (finish_block_current w t).2.
Proof.
  intros Hok. unfold finish_block_current. destruct (state_of w t) as [s|] eqn:Hs; [|done].
  destruct s as [| |b| |b| |]; try done; cbn.
  - destruct (is_ready_queued w t) eqn:Hq; cbn.
    + destruct (awake_unqueued w t _ Hok Hs eq_refl) as [Hnq _].
      apply (leave_ok w _ t State.Running); cbn; try done.
      * apply concat_without.
      * intros k. symmetry. by apply without_id, Hnq.
      * apply (ok_timed _ w Hok).
      * intros u. apply (state_of_set w t State.Running u).
      * apply (ok_cpu _ w Hok).
    + pose proof (ok_ready_queued _ w Hok t Hs) as Hin. apply is_ready_queued_spec in Hin. congruence.
  - apply set_ok; try done.
    + intros Hr. by eapply blocking_unready in Hr.
    + intros k Hk. right. destruct (ok_queue_state _ w Hok k t Hk) as [Ht|(s' & wt & d & Ht & Hb & Hkk)]; rewrite Hs in Ht; [done|].
      injection Ht as <-. injection Hb as ->. by exists wt, d.
    + intros b' [= <-]. apply (ok_sleepers _ w Hok t _ b Hs); [done|tauto].
  - destruct (awake_unqueued w t _ Hok Hs eq_refl) as [Hq Hr]. apply set_ok; try done.
    + intros Hin. by apply Hr in Hin.
    + intros k Hk. by apply Hq in Hk.
Qed.

Lemma push_ok w t :
  sched_ok w → state_of w t = Some State.Running ∨ state_of w t = Some State.Woken →
  sched_ok (push_ready_balanced (set_state w t State.Ready) t).
Proof.
  intros Hok Hs. set (w1 := set_state w t State.Ready).
  assert ((∀ k, ¬ in_queue w k t) ∧ ¬ in_ready w t) as [Hq Hr].
  { destruct Hs as [Hs|Hs]; destruct (awake_unqueued w t _ Hok Hs eq_refl); auto. }
  destruct (push_balanced_spec w1 t) as (Hp & Hc & Hst & Hb). replace (is_ready_queued w1 t) with false in Hp.
  2:{ symmetry. apply not_true_iff_false. intros H%is_ready_queued_spec. by apply Hr. }
  assert (∀ u, state_of (push_ready_balanced w1 t) u = if decide (u = t) then Some State.Ready else state_of w u) as Hst'.
  { intros u. rewrite Hst. subst w1. rewrite state_of_set. case_decide; [|done]. by destruct Hs as [-> | ->]. }
  constructor.
  - rewrite Hp. constructor; [exact Hr|]. apply (ok_ready_nodup _ w Hok).
  - unfold in_ready. intros u. rewrite Hp, Hst', elem_of_cons. case_decide; [by left|]. intros [?|Hu]; [done|]. by apply (ok_ready_state _ w Hok).
  - intros u. unfold in_ready. rewrite Hp, Hst', elem_of_cons. case_decide; [by left|]. intros Hu. right. by apply (ok_ready_queued _ w Hok).
  - intros k. rewrite Hb. apply (ok_queue_nodup _ w Hok).
  - intros k u. unfold in_queue. rewrite Hb, Hst'. intros Hu. rewrite decide_False by (intros ->; by apply (Hq k)). by apply (ok_queue_state _ w Hok).
  - rewrite Hb. apply (ok_timed _ w Hok).
  - intros u s b. rewrite Hst'. case_decide; [by intros [= <-]|]. unfold findable, in_queue. rewrite Hb. apply (ok_sleepers _ w Hok).
  - apply Hc, (ok_cpu _ w Hok).
Qed.

Lemma yield_ok w t : sched_ok w → sched_ok (after_yield_state w t).
Proof.
  intros Hok. unfold after_yield_state. destruct (state_of w t) as [s|] eqn:Hs; [|done]. destruct s as [| |b| |b| |]; try done.
  - destruct (push_balanced_spec w t) as (Hp & Hc & Hst & Hb). pose proof (ok_ready_queued _ w Hok t Hs) as Hin.
    apply is_ready_queued_spec in Hin. rewrite Hin in Hp. destruct Hok as [H1 H2 H3 H4 H5 H6 H7 H8].
    constructor; unfold findable, in_ready, in_queue in *; try setoid_rewrite Hp; try setoid_rewrite Hst; try setoid_rewrite Hb; try done. by apply Hc.
  - apply push_ok; auto.
  - pose proof (finish_ok w t Hok) as H. unfold finish_block_current in H. by rewrite Hs in H.
  - apply push_ok; auto.
Qed.

Lemma stop_ok w ts : sched_ok w → sched_ok (stop_threads w ts).
Proof.
  revert w. induction ts as [|t ts IH]; intros w Hok; [done|]. cbn. apply IH. apply set_ok; try done; auto.
  intros b [= <-]. split; [by intros ? ?|done].
Qed.

Lemma exit_current_ok w t status : sched_ok w → on_cpu w t → sched_ok (exit_current_thread w t status).
Proof.
  intros Hok Hc. assert (∃ s, state_of w t = Some s ∧ blocked_on s = None ∧ s ≠ State.Ready) as (s & Hs & Hb & Hne) by (destruct Hc; eauto).
  destruct (awake_unqueued w t s Hok Hs Hb) as [Hq Hr].
  apply (leave_ok w _ t State.Exiting); try done.
  - symmetry. by apply without_id, Hr.
  - intros k. symmetry. by apply without_id, Hq.
  - apply (ok_timed _ w Hok).
  - intros u. unfold exit_current_thread. rewrite state_of_map. case_decide; [subst|done]. unfold state_of. by destruct (threads w !! t).
  - apply (ok_cpu _ w Hok).
Qed.

Lemma mark_exited_ok w t : sched_ok w → sched_ok (mark_thread_exited w t).
Proof.
  intros Hok. unfold mark_thread_exited. destruct (threads w !! t) as [th|] eqn:Hth; [|done].
  case_bool_decide; [done|]. destruct (parent th) as [p|]; [|by destruct Hok].
  set (w1 := if clear_child_tid th =? 0 then w else _).
  assert (∀ u, state_of w1 u = state_of w u) as Hs1.
  { intros u. subst w1. case_match; [done|]. rewrite state_of_map. case_decide; [|done]. subst. unfold state_of. by rewrite Hth. }
  assert (w1.(ready_queues) = w.(ready_queues) ∧ w1.(blocked_queues) = w.(blocked_queues) ∧ w1.(next_ready_cpu) = w.(next_ready_cpu)) as (E1 & E2 & E3)
    by (subst w1; by case_match).
  assert (sched_ok w1) as Hok1.
  { destruct Hok as [H1 H2 H3 H4 H5 H6 H7 H8]. constructor; unfold findable, in_ready, in_queue in *;
      try setoid_rewrite Hs1; rewrite ?E1, ?E2, ?E3; done. }
  destruct (remove_timed_keeps w1 t Hok1) as [Hsort Hkeep]. set (w2 := remove_from_blocked_queues w1 t) in *.
  cbn. set (w3 := with_ready_queues w2 _). set (w4 := set_state w3 t State.Zombie).
  assert (sched_ok w4) as Hok4.
  { apply (leave_ok w1 w4 t State.Zombie); try done.
    - subst w4 w3 w2. cbn. by rewrite remove_ready_queues, concat_without.
    - intros k. subst w4 w3 w2. apply remove_queue.
    - intros u. subst w4 w3. rewrite state_of_set. change (state_of (with_ready_queues w2 ?q) ?v) with (state_of w2 v).
      subst w2. by rewrite !remove_state.
    - subst w4 w3 w2. cbn. rewrite remove_cpu. apply (ok_cpu _ w1 Hok1). }
  destruct (clear_child_tid th =? 0); by destruct Hok4.
Qed.

Lemma exit_list_ok ts w current : sched_ok w → sched_ok (exit_thread_list_except w ts current).2.
Proof.
  revert w. induction ts as [|t ts IH]; intros w Hok; [done|]. cbn [exit_thread_list_except].
  destruct (t =? current); [by apply IH|]. destruct (state_of w t) as [s|] eqn:Hs; [|by apply IH].
  assert (sched_ok (mark_thread_exited w t)) as Hm by by apply mark_exited_ok.
  destruct s; try by apply IH.
  - assert (sched_ok (request_all_cpus_resched (set_state w t State.Exiting))) as H1.
    { destruct (awake_unqueued w t _ Hok Hs eq_refl) as [Hq Hr].
      assert (sched_ok (set_state w t State.Exiting)) as H.
      { apply set_ok; try done; [intros Hin; by apply Hr in Hin|intros k Hk; by apply Hq in Hk]. }
      by destruct H. }
    specialize (IH _ H1). by destruct (exit_thread_list_except (request_all_cpus_resched _) ts current).
  - specialize (IH _ Hok). by destruct (exit_thread_list_except w ts current).
Qed.

Lemma register_ok w th :
  sched_ok w → w.(threads) !! th.(id) = None → blocked_on th.(state) = None → th.(state) ≠ State.Ready → sched_ok (register_thread w th).
Proof.
  intros Hok Hnew Hb Hr. set (w' := register_thread w th).
  assert (∀ u, state_of w' u = if decide (u = th.(id)) then Some th.(state) else state_of w u) as Hst.
  { intros u. subst w'. unfold state_of, register_thread. cbn. case_decide; [subst; by rewrite lookup_insert_eq|by rewrite lookup_insert_ne]. }
  assert (state_of w th.(id) = None) as Hnone by (unfold state_of; by rewrite Hnew).
  constructor; try by apply Hok.
  - intros u Hu. rewrite Hst. destruct (ok_ready_state _ w Hok u Hu); case_decide; subst; auto; congruence.
  - intros u. rewrite Hst. case_decide; [by intros [= ?]|apply (ok_ready_queued _ w Hok)].
  - intros k u Hu. rewrite Hst. pose proof (ok_queue_state _ w Hok k u Hu) as Hq. case_decide; [|done]. subst. rewrite Hnone in Hq.
    destruct Hq as [?|(? & ? & ? & ? & _)]; done.
  - intros u s b. rewrite Hst. case_decide; [intros [= <-]; congruence|apply (ok_sleepers _ w Hok)].
Qed.

Lemma fresh_unqueued w t : sched_ok w → state_of w t = None → ¬ in_ready w t ∧ ∀ k, ¬ in_queue w k t.
Proof.
  intros Hok Hs. split.
  - intros Hr. destruct (ok_ready_state _ w Hok t Hr); congruence.
  - intros k Hk. destruct (ok_queue_state _ w Hok k t Hk) as [?|(? & ? & ? & ? & _)]; congruence.
Qed.

Lemma spawn_blocked_ok w th b : sched_ok w → w.(threads) !! th.(id) = None → sched_ok (spawn_blocked w th b).
Proof.
  intros Hok Hnew. assert (state_of w th.(id) = None) as Hnone by (unfold state_of; by rewrite Hnew).
  destruct (fresh_unqueued w _ Hok Hnone) as [Hr Hq].
  apply (sleep_ok w _ th.(id) (State.Blocked b) b); try done. intros u. unfold state_of, spawn_blocked, register_thread. cbn.
  case_decide; [subst; by rewrite lookup_insert_eq|by rewrite lookup_insert_ne].
Qed.

Lemma spawn_ok w th : sched_ok w → w.(threads) !! th.(id) = None → th.(state) = State.Ready → sched_ok (spawn w th).
Proof.
  intros Hok Hnew Hs. unfold spawn.
  pose proof (register_ok w (with_state th State.Running) Hok Hnew eq_refl) as Hok'.
  assert (register_thread w th = set_state (register_thread w (with_state th State.Running)) th.(id) State.Ready) as ->.
  { unfold set_state, map_thread, register_thread. cbn. f_equal. rewrite alter_insert_eq. f_equal.
    destruct th. cbn in *. by subst. }
  apply push_ok; [by apply Hok'|]. left. unfold state_of, register_thread. cbn. by rewrite lookup_insert_eq.
Qed.

Lemma init_ok n : sched_ok (world_init n).
Proof.
  destruct (resize_queues_spec (mkWorld ∅ ∅ ∅ [] [] [] [] (mkQueues [] [] [] [] [] [] [] [] false) 0 ∅ 0 false [] false) n) as (Hc & _ & Hn & Hs & Hb).
  constructor; unfold findable, in_ready, in_queue, world_init; rewrite ?Hc, ?Hb.
  - constructor.
  - intros t ?%not_elem_of_nil. done.
  - intros t. rewrite Hs. done.
  - intros []; constructor.
  - intros [] t ?%not_elem_of_nil; done.
  - constructor.
  - intros t s b. rewrite Hs. done.
  - by apply Hn.
Qed.

(** ** Reachable worlds *)

(** The operations of the threads and of the scheduler.  A thread blocks, finishes or
    cancels while its code runs ([on_cpu]); the queues that the code wakes as a whole are
    those of the devices, the step allows it for each; the timer work runs in the scheduler, when no thread of the one
    processor is between announcing its sleep and sleeping. *)
Inductive sched_step (w : World) : World → Prop :=
  | step_spawn th : w.(threads) !! th.(id) = None → th.(state) = State.Ready → sched_step w (spawn w th)
  | step_spawn_blocked th b : w.(threads) !! th.(id) = None → sched_step w (spawn_blocked w th b)
  | step_block t b : on_cpu w t → sched_step w (prepare_block_current w t b)
  | step_cancel t s : state_of w t = Some s →
      ((∃ b, s = State.Blocking b) ∨ s = State.Woken ∨ s = State.Running) → sched_step w (cancel_block w t)
  | step_finish t : sched_step w (finish_block_current w t).2
  | step_dispatch cpu steal f : sched_step w (dispatch (pop_ready_for_cpu_inner w cpu steal f))
  | step_yield t : sched_step w (after_yield_state w t)
  | step_wake t : sched_step w (wake w t)
  | step_wake_queue k : sched_step w (wake_queue w k)
  | step_wake_process_exit : sched_step w (wake_process_exit_waiters w)
  | step_wake_signal s : sched_step w (wake_signal_waiters w s)
  | step_wake_affected pollers : sched_step w (wake_affected_pollers w pollers)
  | step_wake_ready ready : sched_step w (wake_ready_pollers w ready)
  | step_timeouts : none_blocking w → sched_step w (process_timed_out_threads w)
  | step_due : none_blocking w → sched_step w (wake_due_timed_threads w)
  | step_stop ts : sched_step w (stop_threads w ts)
  | step_exit_current t status : on_cpu w t → sched_step w (exit_current_thread w t status)
  | step_mark_exited t : sched_step w (mark_thread_exited w t)
  | step_exit_list ts current : sched_step w (exit_thread_list_except w ts current).2
  | step_tick later : w.(now) ≤ later → sched_step w (with_now w later).

Inductive sched_reachable : World → Prop :=
  | sched_init n : sched_reachable (world_init n)
  | sched_next w w' : sched_reachable w → sched_step w w' → sched_reachable w'.

Lemma ready_pollers_ok w ready : sched_ok w → sched_ok (wake_ready_pollers w ready).
Proof.
  intros Hok. assert (∀ v b, sched_ok v → sched_ok (mark_pollers_dirty v b)) as Hmark by (intros v b []; by constructor).
  unfold wake_ready_pollers. destruct (poller (blocked_queues w)); [by apply Hmark|]. apply Hmark.
  eapply sched_ok_weaken; [|by apply wake_list_ok]. by intros u [[] _].
Qed.

Lemma sched_step_ok w w' : sched_ok w → sched_step w w' → sched_ok w'.
Proof.
  intros Hok [].
  - by apply spawn_ok.
  - by apply spawn_blocked_ok.
  - by apply block_on_cpu_ok.
  - by eapply cancel_ok.
  - by apply finish_ok.
  - pose proof (pop_inner_spec w cpu steal f) as Hp. destruct (pop_ready_for_cpu_inner w cpu steal f) as [r w'']. by eapply dispatch_ok.
  - by apply yield_ok.
  - apply (sched_ok_weaken (λ u, False ∧ u ≠ t)); [tauto|]. by apply wake_ok.
  - by apply wake_queue_spec.
  - by apply wake_matching_spec.
  - by apply wake_matching_spec.
  - by apply wake_matching_spec.
  - by apply ready_pollers_ok.
  - by apply process_timed_out_spec.
  - unfold wake_due_timed_threads. case_match; [|done]. by destruct (process_timed_out_spec w Hok) as [[] _].
  - by apply stop_ok.
  - by apply exit_current_ok.
  - by apply mark_exited_ok.
  - by apply exit_list_ok.
  - by destruct Hok.
Qed.

Lemma sched_reachable_ok w : sched_reachable w → sched_ok w.
Proof. induction 1; [apply init_ok|by eapply sched_step_ok]. Qed.

(** ** Properties *)

(** C5. In every reachable state the queues agree with the states of the threads: a thread
    is on at most one ready queue, once, and exactly when it is ready (a stopped thread may
    linger); a wait queue holds only threads that wait for its wake-up, each once; and every
    thread that sleeps is in the queue of its wake-up and, with a deadline, in the map of
    deadlines, which is sorted. *)
Theorem run_queues_agree w : sched_reachable w → sched_ok w.
Proof. apply sched_reachable_ok. Qed.

(** The queue whose wake-up a thread sleeps for. *)
Definition waits_on (s : State) : option QueueKind :=
  match blocked_on s with Some (BlockType.WakeRequired wt _) => Some (kind_of wt) | _ => None end.

Lemma waits_on_queue w t s k :
  sched_ok w → state_of w t = Some s → s ≠ State.Blocked BlockType.Stopped →
  in_queue w k t ↔ waits_on s = Some k.
Proof.
  intros Hok Hs Hne. unfold waits_on. split.
  - intros Hk. destruct (ok_queue_state _ w Hok k t Hk) as [Ht|(s' & wt & d & Ht & Hb & <-)]; [congruence|].
    rewrite Hs in Ht. injection Ht as <-. by rewrite Hb.
  - destruct (blocked_on s) as [b|] eqn:Hb; [|done]. destruct b as [|wt d| |]; try done. intros [= <-].
    destruct (ok_sleepers _ w Hok t s _ Hs Hb) as [Hq _]; [tauto|]. by eapply Hq.
Qed.

(** A thread that runs next: ready, and on a ready queue. *)
Definition runnable (w : World) (t : Z) : Prop := state_of w t = Some State.Ready ∧ in_ready w t.

(** C24. A wake-up reaches the threads that sleep for it and leaves the others alone, stopped
    threads apart.  After the wake-up of the queue of a device (pty, keyboard, mouse, I/O) no
    thread is left in it, each that slept for it is runnable, each that was about to sleep
    for it will not; the wake-up for a signal does this for the threads that wait for that
    signal; the wake-ups for the end of a process and for pollers make the threads runnable
    that are asleep for them (not those that are only about to sleep, lemma
    [exit_event_before_sleep]).  In each case no other thread changes, of those that are not
    stopped; a stopped thread that is still in a queue may be resumed
    ([io_resumes_stopped]). *)
Theorem events_wake_sleepers w t s :
  sched_ok w → state_of w t = Some s → s ≠ State.Blocked BlockType.Stopped →
  (∀ k, woken_whole k = true → queue (wake_queue w k).(blocked_queues) k = [] ∧
     state_of (wake_queue w k) t = Some (if decide (waits_on s = Some k) then woken_state s else s) ∧
     ((∃ b, s = State.Blocked b) → waits_on s = Some k → runnable (wake_queue w k) t)) ∧
  (state_of (wake_process_exit_waiters w) t = Some (if waits_for_process_exit s then woken_state s else s) ∧
     (waits_for_process_exit s = true → runnable (wake_process_exit_waiters w) t)) ∧
  (∀ signal, state_of (wake_signal_waiters w signal) t = Some (if waits_for_signal signal s then woken_state s else s) ∧
     ((∃ b, s = State.Blocked b) → waits_for_signal signal s = true → runnable (wake_signal_waiters w signal) t)) ∧
  (∀ pollers, state_of (wake_affected_pollers w pollers) t = Some (if waits_for_poller pollers s then woken_state s else s) ∧
     (waits_for_poller pollers s = true → runnable (wake_affected_pollers w pollers) t)).
Proof.
  intros Hok Hs Hne.
  assert (∀ w' b, sched_ok w' → s = State.Blocked b → state_of w' t = Some (woken_state s) → runnable w' t) as Hrun.
  { intros w' b Hok' -> Hst. split; [done|]. by apply (ok_ready_queued _ w' Hok'). }
  assert (∀ k p, (∀ s, p s = true → waits_on s = Some k) →
    sched_ok (wake_matching w k p) ∧ state_of (wake_matching w k p) t = Some (if p s then woken_state s else s)) as Hmatch.
  { intros k p Hp. destruct (wake_matching_spec w k p Hok) as [Hok' Hst]. split; [done|]. rewrite (Hst t s Hs). f_equal.
    destruct (p s) eqn:Hps; [|by rewrite andb_false_r]. rewrite bool_decide_eq_true_2; [done|]. apply (waits_on_queue w t s k); auto. }
  split; [|split; [|split]].
  - intros k _. destruct (wake_queue_spec w k Hok) as (Hok' & Hempty & Hst). split; [done|].
    assert (state_of (wake_queue w k) t = Some (if decide (waits_on s = Some k) then woken_state s else s)) as Ht.
    { rewrite Hst, Hs. pose proof (waits_on_queue w t s k Hok Hs Hne) as Hiff. unfold in_queue in Hiff. repeat case_decide; tauto. }
    split; [done|]. intros [b Hb] Hk. apply (Hrun _ b Hok' Hb). by rewrite decide_True in Ht.
  - destruct (Hmatch QueueKind.ProcessExit waits_for_process_exit) as [Hok' Hst].
    { intros [| |[]| |[]| |]; try done; cbn; by destruct wake_type. }
    split; [exact Hst|]. intros Hp. assert (∃ b, s = State.Blocked b) as [b Hb] by (destruct s; try done; eauto).
    apply (Hrun _ b Hok' Hb). unfold wake_process_exit_waiters. by rewrite Hst, Hp.
  - intros signal. destruct (Hmatch QueueKind.SignalWait (waits_for_signal signal)) as [Hok' Hst].
    { intros [| |[]| |[]| |]; try done; cbn; by destruct wake_type. }
    split; [exact Hst|]. intros [b Hb] Hp. apply (Hrun _ b Hok' Hb). unfold wake_signal_waiters. by rewrite Hst, Hp.
  - intros pollers. destruct (Hmatch QueueKind.Poller (waits_for_poller pollers)) as [Hok' Hst].
    { intros [| |[]| |[]| |]; try done; cbn; by destruct wake_type. }
    split; [exact Hst|]. intros Hp. assert (∃ b, s = State.Blocked b) as [b Hb] by (destruct s; try done; eauto).
    apply (Hrun _ b Hok' Hb). unfold wake_affected_pollers. by rewrite Hst, Hp.
Qed.

(** Timeouts.  The timer work makes exactly the sleepers runnable whose deadline has
    come, changes no other thread, and afterwards no thread sleeps past its deadline. *)
Lemma timeouts_wake_due w t s :
  sched_ok w → none_blocking w → state_of w t = Some s →
  let w' := process_timed_out_threads w in
  state_of w' t = Some (if due w.(now) s then State.Ready else s) ∧
  (due w.(now) s = true → runnable w' t) ∧
  ∀ u s', state_of w' u = Some s' → due w.(now) s' = false.
Proof.
  intros Hok Hnb Hs w'. destruct (process_timed_out_spec w Hok Hnb) as [Hok' Hst]. fold w' in Hok', Hst. split; [by apply Hst|]. split.
  - intros Hd. pose proof (Hst t s Hs) as Ht. rewrite Hd in Ht. split; [done|]. by apply (ok_ready_queued _ w' Hok').
  - intros u s' Hu. destruct (state_of w u) as [s0|] eqn:Hu0.
    + rewrite (Hst u s0 Hu0) in Hu. injection Hu as <-. by destruct (due (now w) s0) eqn:E.
    + exfalso. unfold w', process_timed_out_threads in Hu. destruct (pop_due w _) as [l ts]. rewrite wake_list_state in Hu.
      change (state_of (with_blocked_queues w ?q) u) with (state_of w u) in Hu. rewrite Hu0 in Hu. by case_decide.
Qed.

(** When a direct wake-up of a thread, the wake-up of its queue or of a signal that it waits for
    comes after the thread has announced its sleep and before it sleeps, the sleep returns
    at once, the thread runs on, and it is in no queue. The end of a process, pollers and
    deadlines in that window do not do this ([exit_event_before_sleep],
    [timeout_before_sleep]). *)
Lemma wake_before_sleep w t wt d :
  sched_ok w → state_of w t = Some State.Running →
  let w1 := prepare_block_current w t (BlockType.WakeRequired wt d) in
  ∀ w2, w2 = wake w1 t ∨ w2 = wake_queue w1 (kind_of wt) ∨ (∃ s set, wt = WakeType.SignalWait set ∧ contains set (mask s) = true ∧ w2 = wake_signal_waiters w1 s) →
  let '(returned, w3) := finish_block_current w2 t in
  returned = true ∧ state_of w3 t = Some State.Running ∧ sched_ok w3 ∧ ¬ in_ready w3 t ∧ ∀ k, ¬ in_queue w3 k t.
Proof.
  intros Hok Hs w1 w2 Hcase.
  assert (sched_ok w1) as Hok1 by by apply block_ok.
  assert (state_of w1 t = Some (State.Blocking (BlockType.WakeRequired wt d))) as Hs1 by (eapply (state_of_set_eq w t); exact Hs).
  assert (sched_ok w2 ∧ state_of w2 t = Some State.Woken) as [Hok2 Hs2].
  { pose proof (waits_on_queue w1 t _ (kind_of wt) Hok1 Hs1) as Hin. destruct Hcase as [->|[->|(s & set & -> & Hc & ->)]].
    - split; [apply (sched_ok_weaken (λ u, False ∧ u ≠ t)); [tauto|by apply wake_ok]|]. by rewrite wake_state, decide_True, Hs1.
    - destruct (wake_queue_spec w1 (kind_of wt) Hok1) as (Hok2 & _ & Hst). split; [done|].
      rewrite Hst, decide_True, Hs1; [done|]. by apply Hin.
    - destruct (wake_matching_spec w1 QueueKind.SignalWait (waits_for_signal s) Hok1) as [Hok2 Hst]. split; [done|].
      unfold wake_signal_waiters. rewrite (Hst t _ Hs1). cbn. rewrite Hc, bool_decide_eq_true_2; [done|]. by apply Hin. }
  pose proof (finish_ok w2 t Hok2) as Hok3. unfold finish_block_current in *. rewrite Hs2 in *. cbn in Hok3.
  assert (state_of (set_state w2 t State.Running) t = Some State.Running) as Hs3 by (eapply state_of_set_eq; exact Hs2).
  destruct (awake_unqueued _ t _ Hok3 Hs3 eq_refl) as [Hq Hr]. split; [done|]. split; [done|]. split; [done|]. split; [by apply Hr|done].
Qed.

(** Taking [n] threads off the queue of a processor. *)
Fixpoint take_turns (n : nat) (w : World) (cpu : Z) : list Z * World :=
  match n with
  | O => ([], w)
  | S n =>
      match pop_ready_for_cpu w cpu with
      | (Some t, w) => let '(ts, w) := take_turns n w cpu in (t :: ts, w)
      | (None, w) => ([], w)
      end
  end.

(** C25. Ready threads run in the order in which they became ready: a processor takes the
    threads of its queue from the front, so the thread behind [ts] runs after [length ts]
    turns; and a thread that becomes ready goes to the end of the queue of the processor
    whose turn it is, the turn passing on round robin. *)
Theorem ready_threads_take_turns w cpu ts rest :
  0 ≤ cpu → w.(ready_queues) !! Z.to_nat cpu = Some (ts ++ rest) →
  Forall (λ t, state_of w t = Some State.Ready) ts →
  take_turns (length ts) w cpu = (ts, with_ready_queues w (<[Z.to_nat cpu := rest]> w.(ready_queues))) ∧
  (∀ t, is_ready_queued w t = false → 0 ≤ w.(next_ready_cpu) →
     let i := w.(next_ready_cpu) mod zlen w.(ready_queues) in
     let w' := push_ready_balanced w t in
     w'.(ready_queues) = alter (λ q, q ++ [t]) (Z.to_nat i) w.(ready_queues) ∧
     w'.(next_ready_cpu) = (i + 1) mod zlen w.(ready_queues)).
Proof.
  intros Hcpu Hq Hts.
  assert (ready_queues w ≠ []) as Hne by (intros H; by rewrite H in Hq). split.
  - revert w Hq Hts Hne. induction ts as [|t ts IH]; intros w Hq Hts Hne.
    { cbn. f_equal. destruct w. unfold with_ready_queues. cbn in *. by rewrite list_insert_id. }
    apply Forall_cons in Hts as [Ht Hts]. cbn [length take_turns]. unfold pop_ready_for_cpu, pop_ready_for_cpu_inner.
    assert (ensure_queue w = w) as -> by (unfold ensure_queue; by destruct (ready_queues w)).
    assert (Z.to_nat (Z.min cpu (zlen (ready_queues w) - 1)) = Z.to_nat cpu) as ->.
    { pose proof (lookup_lt_Some _ _ _ Hq). unfold zlen. lia. }
    unfold pop_ready_from_queue_matching. rewrite Hq. cbn [app length pop_ready_loop].
    unfold state_of in Ht. destruct (threads w !! t) as [th|] eqn:Hth; [|done]. cbn in Ht.
    unfold is_ready. replace (state th) with State.Ready by congruence. cbn [andb filter_matches].
    set (w1 := with_ready_queues w _). pose proof (lookup_lt_Some _ _ _ Hq) as Hlt.
    assert (w1.(ready_queues) !! Z.to_nat cpu = Some (ts ++ rest)) as H1 by (cbn; by rewrite list_lookup_insert_eq).
    assert (w1.(ready_queues) ≠ []) as H2.
    { cbn. intros H. apply (f_equal length) in H. rewrite length_insert in H. cbn in H. lia. }
    rewrite (IH w1 H1 Hts H2). cbn. f_equal. unfold with_ready_queues. cbn. by rewrite list_insert_insert_eq.
  - intros t Hn Hc i w'. subst w'. unfold push_ready_balanced, next_balanced_cpu.
    assert (ensure_queue w = w) as -> by (unfold ensure_queue; by destruct (ready_queues w)). fold i.
    set (w1 := with_next_ready_cpu w _). unfold push_ready_on_cpu.
    assert (ensure_queue w1 = w1) as -> by (unfold ensure_queue; subst w1; cbn; by destruct (ready_queues w)).
    change (is_ready_queued w1 t) with (is_ready_queued w t). rewrite Hn. cbn. split; [|done]. f_equal.
    assert (0 ≤ i < zlen w.(ready_queues)) as Hi by (apply Z.mod_pos_bound; unfold zlen; destruct (ready_queues w); [done|cbn; lia]).
    lia.
Qed.

(** ** Concrete inputs *)

Definition snapshot0 : ThreadSnapshot := mkThreadSnapshot (mkSnapshot 0 0 0 0 0 0 0 0 0 0 0 0 0 0 0 0 0 0 0 0) 0 ThreadSnapshotType.Thread.

Definition thread0 (t p : Z) : Thread :=
  mkThread t (Some p) State.Ready SnapshotState.Normal snapshot0 snapshot0 [] 0 None 0 (replicate 64 None) false false 0 None (mkStack 0 2 0)
    0 snapshot0.(inner) 0.

(** Thread 1 runs, thread 2 is ready. *)
Definition sample_running : World := dispatch (pop_ready_for_cpu (spawn (spawn (world_init 2) (thread0 1 10)) (thread0 2 10)) 0).

Definition io_wait : BlockType := BlockType.WakeRequired WakeType.IO (Some (mkTime 100)).

(** Thread 1 announces that it waits for I/O, and sleeps. *)
Definition sample_announced : World := prepare_block_current sample_running 1 io_wait.
Definition sample_asleep : World := (finish_block_current sample_announced 1).2.

Lemma sample_running_reachable : sched_reachable sample_running.
Proof.
  refine (sched_next _ _ (sched_next _ _ (sched_next _ _ (sched_init 2) (step_spawn _ (thread0 1 10) _ _))
    (step_spawn _ (thread0 2 10) _ _)) (step_dispatch _ 0 true ReadyThreadFilter.Any)); by vm_compute.
Qed.

Lemma sample_announced_ok : sched_ok sample_announced.
Proof. apply block_ok; [apply sched_reachable_ok, sample_running_reachable|done]. Qed.

Lemma sample_asleep_reachable : sched_reachable sample_asleep.
Proof.
  refine (sched_next _ _ (sched_next _ _ sample_running_reachable (step_block _ 1 io_wait _)) (step_finish _ 1)). by left.
Qed.

Lemma run_queues_agree_witness : sched_reachable sample_asleep ∧ sched_ok sample_asleep ∧ in_queue sample_asleep QueueKind.Io 1.
Proof.
  split; [apply sample_asleep_reachable|]. split; [apply (run_queues_agree sample_asleep), sample_asleep_reachable|].
  vm_compute. left.
Defined.

Lemma events_wake_sleepers_witness :
  state_of sample_asleep 1 = Some (State.Blocked io_wait) ∧ runnable (wake_queue sample_asleep QueueKind.Io) 1 ∧
  state_of (wake_queue sample_asleep QueueKind.Pty) 1 = Some (State.Blocked io_wait).
Proof.
  destruct (events_wake_sleepers sample_asleep 1 (State.Blocked io_wait)) as [H _];
    [apply sched_reachable_ok, sample_asleep_reachable|reflexivity|discriminate|].
  split; [reflexivity|]. split; [apply (H QueueKind.Io eq_refl); [by eexists|reflexivity]|]. apply (H QueueKind.Pty eq_refl).
Defined.

Lemma timeouts_wake_due_witness :
  due 100 (State.Blocked io_wait) = true ∧ runnable (process_timed_out_threads (with_now sample_asleep 100)) 1.
Proof.
  assert (sched_ok (with_now sample_asleep 100)) as Hok.
  { apply sched_reachable_ok. eapply sched_next; [apply sample_asleep_reachable|apply step_tick; done]. }
  assert (none_blocking (with_now sample_asleep 100)) as Hnb.
  { intros t b. unfold state_of. change (threads (with_now sample_asleep 100)) with (threads sample_asleep).
    assert (map_Forall (λ _ th, blocked_on th.(state) = None ∨ th.(state) = State.Blocked io_wait) (threads sample_asleep)) as Hall
      by (apply (bool_decide_unpack _); vm_compute; exact I).
    destruct (threads sample_asleep !! t) as [th|] eqn:Hth; [|done]. cbn. intros [= Hb].
    apply (Hall t th) in Hth. rewrite Hb in Hth. by destruct Hth. }
  split; [reflexivity|].
  destruct (timeouts_wake_due (with_now sample_asleep 100) 1 (State.Blocked io_wait) Hok Hnb) as (_ & H & _); [reflexivity|].
  by apply H.
Defined.

Lemma wake_before_sleep_witness :
  state_of sample_running 1 = Some State.Running ∧
  (finish_block_current (wake_queue sample_announced QueueKind.Io) 1).1 = true.
Proof.
  split; [reflexivity|].
  pose proof (wake_before_sleep sample_running 1 WakeType.IO (Some (mkTime 100)) (sched_reachable_ok _ sample_running_reachable) eq_refl
    (wake_queue sample_announced QueueKind.Io) (or_intror (or_introl eq_refl))) as H.
  destruct (finish_block_current (wake_queue sample_announced QueueKind.Io) 1). by destruct H as [-> _].
Defined.

Lemma ready_threads_take_turns_witness :
  take_turns 1 sample_running 1 = ([2], with_ready_queues sample_running [[]; []]) ∧
  (push_ready_balanced sample_running 7).(ready_queues) = [[7]; [2]].
Proof.
  destruct (ready_threads_take_turns sample_running 1 [2] []) as [H1 H2]; [done|reflexivity|by repeat constructor|].
  split; [exact H1|]. destruct (H2 7) as [H _]; [reflexivity|done|exact H].
Defined.

(** ** Where an event finds nobody, or the wrong thread *)

(** A child that exits while its parent is between announcing the wait and sleeping wakes
    nobody: the queue of waiters keeps the parent, which then sleeps. *)
Lemma exit_event_before_sleep :
  let announced := prepare_block_current sample_running 1 (BlockType.WakeRequired WakeType.ProcsesExit None) in
  let '(returned, w) := finish_block_current (wake_process_exit_waiters announced) 1 in
  returned = false ∧ state_of w 1 = Some (State.Blocked (BlockType.WakeRequired WakeType.ProcsesExit None)).
Proof. vm_compute. done. Qed.

(** A deadline that passes in that moment is taken off the map; the thread then sleeps, and
    no later timeout finds it. *)
Lemma timeout_before_sleep :
  let w := process_timed_out_threads (with_now sample_announced 100) in
  let w := (finish_block_current w 1).2 in
  state_of w 1 = Some (State.Blocked io_wait) ∧
  state_of (process_timed_out_threads (with_now w 1000)) 1 = Some (State.Blocked io_wait).
Proof. vm_compute. done. Qed.

(** With a second processor: the thread is marked as asleep before it has left its
    processor, so an event makes it ready and the other processor runs it on the same
    stack. *)
Lemma runs_before_it_left :
  let '(returned, w) := finish_block_current sample_announced 1 in
  let w := dispatch (pop_ready_for_cpu (wake_io w) 0) in
  returned = false ∧ state_of w 1 = Some State.Running.
Proof. vm_compute. done. Qed.

(** A stopped process is resumed by the I/O one of its threads waited for. *)
Lemma io_resumes_stopped :
  let w := stop_threads sample_asleep [1; 2] in
  state_of w 1 = Some (State.Blocked BlockType.Stopped) ∧ runnable (wake_io w) 1.
Proof. split; [reflexivity|]. split; [reflexivity|]. vm_compute. left. Qed.
