(* ===== verification/Futex.v ===== *)
(** * Futexes, and the threads that exit

    The futex system call (systemcall/implementations/memory_sync.rs): a queue of waiters
    per key, where the key of an address is the word's identity (private to the process, or
    shared by what backs the mapping); waiting, waking, requeueing, the conditional wake and
    the priority-inheritance locks.  User memory is the interface of Blocking; the caller is
    the thread [t], and [key_of] answers the keys of its address space, which
    [current_futex_key] computes from the area list of AddrAreas.

    The second part is what the thread manager does with exited threads
    (thread/manager.rs): a thread that asked for it clears a word of user memory and wakes a
    futex waiter there; the last thread of a process tells the parent. *)

From stdpp Require Import sets.
From S2P Require Import Prelude Errors Clock Blocking AddrAreas SignalData Threads.

Open Scope Z_scope.

(** ** Keys *)

Section keys.
(** The address of the shared backing of an area, what a file object says of its identity,
    and the translation of the page table. *)
Context (backing : MemoryArea → Z) (mapping_identity : Z → option (Z * Z)) (translate_addr : Z → option Z).

Definition current_futex_key (space : AddrSpace) (pid addr : Z) : result SyscallError FutexKey :=
  if negb (addr mod 4 =? 0) then Err SyscallError.InvalidArguments
  else
    match (get_area space addr).1 with
    | None => Ok (FutexKey.Private pid addr)
    | Some area =>
        let area_offset := addr - area.(start) in
        match area.(data) with
        | Data.Shared _ _ _ => Ok (FutexKey.SharedAnonymous (backing area) area_offset)
        | Data.File offset _ _ file true =>
            let futex_offset := sat_add 64 offset area_offset in
            match mapping_identity file with
            | Some (device_id, inode) => Ok (FutexKey.SharedFile device_id inode futex_offset)
            | None => Ok (FutexKey.SharedObject (backing area) futex_offset)
            end
        | Data.Normal permissions =>
            if permissions.(shared_mapping) then
              let page_offset := addr mod 4096 in
              match translate_addr (addr - page_offset) with
              | None => Err SyscallError.BadAddress
              | Some frame => Ok (FutexKey.SharedPhysical frame page_offset)
              end
            else Ok (FutexKey.Private pid addr)
        | _ => Ok (FutexKey.Private pid addr)
        end
    end.
End keys.

(** ** Queues of waiters *)

Definition FUTEX_CLOCK_REALTIME : Z := 256.
Definition FUTEX_BITSET_MATCH_ANY : Z := 4294967295.
Definition FUTEX_OP_OPARG_SHIFT : Z := 8.
Definition FUTEX_WAITERS : Z := 2147483648.
Definition FUTEX_OWNER_DIED : Z := 1073741824.
Definition FUTEX_TID_MASK : Z := 1073741823.

Definition push_waiter (b : FutexBucket) (t bitset : Z) : Z * FutexBucket :=
  (b.(next_waiter_id),
   mkBucket (sat_add 64 b.(next_waiter_id) 1) (b.(waiters) ++ [mkWaiter b.(next_waiter_id) t bitset])).

Definition queue_waiter_in_locked_queue (queue : gmap FutexKey FutexBucket) (key : FutexKey) (t bitset : Z)
  : FutexWaitId * gmap FutexKey FutexBucket :=
  let '(waiter_id, bucket) := push_waiter (default bucket_default (queue !! key)) t bitset in
  (mkWaitId key waiter_id, <[key := bucket]> queue).

Definition should_wake (wake_mask : option Z) (w : FutexWaiter) : bool :=
  match wake_mask with None => true | Some m => negb (Z.land w.(w_bitset) m =? 0) end.

(** [n]: the waiters still to scan. *)
Fixpoint take_waiters_loop (n : nat) (ws : list FutexWaiter) (count : Z) (wake_mask : option Z) (woken : list Z)
  : list Z * list FutexWaiter :=
  match n, ws with
  | S n, w :: ws' =>
      if zlen woken <? count then
        if should_wake wake_mask w then take_waiters_loop n ws' count wake_mask (woken ++ [w.(w_thread)])
        else take_waiters_loop n (ws' ++ [w]) count wake_mask woken
      else (woken, ws)
  | _, _ => (woken, ws)
  end.

Definition take_futex_waiters_from_bucket (b : FutexBucket) (count : Z) (wake_mask : option Z) : list Z * FutexBucket :=
  let '(woken, ws) := take_waiters_loop (length b.(waiters)) b.(waiters) count wake_mask [] in
  (woken, mkBucket b.(next_waiter_id) ws).

Definition bucket_is_empty (queue : gmap FutexKey FutexBucket) (key : FutexKey) : bool :=
  match queue !! key with Some b => match b.(waiters) with [] => true | _ => false end | None => false end.

Definition drop_if_empty (queue : gmap FutexKey FutexBucket) (key : FutexKey) : gmap FutexKey FutexBucket :=
  if bucket_is_empty queue key then delete key queue else queue.

Definition take_futex_waiters (w : World) (key : FutexKey) (count : Z) (wake_mask : option Z) : list Z * World :=
  let '(woken, queue) :=
    match w.(futex_queue) !! key with
    | None => ([], w.(futex_queue))
    | Some b =>
        let '(woken, b) := take_futex_waiters_from_bucket b count wake_mask in
        (woken, <[key := b]> w.(futex_queue))
    end in
  (woken, with_futex_queue w (drop_if_empty queue key)).

(** Taking waiters and waking them. *)
Definition wake_waiters (w : World) (key : FutexKey) (count : Z) (wake_mask : option Z) : Z * World :=
  let '(threads, w) := take_futex_waiters w key count wake_mask in
  (zlen threads, wake_list w threads).

Definition wake_futex_for_process (w : World) (pid addr count : Z) : Z * World :=
  wake_waiters w (FutexKey.Private pid addr) count None.

(** ** The system call *)

Record LinuxTimespec := mkTimespec { tv_sec : Z; tv_nsec : Z }.

Definition timespec_to_ns (timeout : LinuxTimespec) : Z :=
  Z.min (timeout.(tv_sec) * 1000000000 + timeout.(tv_nsec)) U64_MAX.

Module FutexWakeOp.
Inductive FutexWakeOp : Type := Set_ | Add | Or | AndN | Xor.
End FutexWakeOp.
Abbreviation FutexWakeOp := FutexWakeOp.FutexWakeOp.

Module FutexWakeCmp.
Inductive FutexWakeCmp : Type := Eq | Ne | Lt | Le | Gt | Ge.
End FutexWakeCmp.
Abbreviation FutexWakeCmp := FutexWakeCmp.FutexWakeCmp.

Definition futex_wake_op_from (n : Z) : option FutexWakeOp :=
  match n with
  | 0 => Some FutexWakeOp.Set_ | 1 => Some FutexWakeOp.Add | 2 => Some FutexWakeOp.Or
  | 3 => Some FutexWakeOp.AndN | 4 => Some FutexWakeOp.Xor | _ => None
  end.

Definition futex_wake_cmp_from (n : Z) : option FutexWakeCmp :=
  match n with
  | 0 => Some FutexWakeCmp.Eq | 1 => Some FutexWakeCmp.Ne | 2 => Some FutexWakeCmp.Lt
  | 3 => Some FutexWakeCmp.Le | 4 => Some FutexWakeCmp.Gt | 5 => Some FutexWakeCmp.Ge | _ => None
  end.

Definition futex_wake_op_apply (old_value encoded : Z) : result SyscallError (Z * bool) :=
  op ← ok_or (futex_wake_op_from (Z.land (Z.shiftr encoded 28) 15)) SyscallError.InvalidArguments;
  cmp ← ok_or (futex_wake_cmp_from (Z.land (Z.shiftr encoded 24) 15)) SyscallError.InvalidArguments;
  let op_arg := Z.land (Z.shiftr encoded 12) 4095 in
  let cmp_arg := Z.land encoded 4095 in
  let shifted := negb (Z.land op_arg FUTEX_OP_OPARG_SHIFT =? 0) in
  if match op with FutexWakeOp.Set_ => shifted | _ => false end then Err SyscallError.InvalidArguments
  else
    op_arg ←
      (if shifted then
         let shift := Z.ldiff op_arg FUTEX_OP_OPARG_SHIFT in
         if shift <? 32 then Ok (Z.shiftl 1 shift) else Err SyscallError.InvalidArguments
       else Ok op_arg);
    let new_value :=
      match op with
      | FutexWakeOp.Set_ => op_arg
      | FutexWakeOp.Add => uwrap 32 (old_value + op_arg)
      | FutexWakeOp.Or => Z.lor old_value op_arg
      | FutexWakeOp.AndN => Z.ldiff old_value op_arg
      | FutexWakeOp.Xor => Z.lxor old_value op_arg
      end in
    let should_wake_second :=
      match cmp with
      | FutexWakeCmp.Eq => old_value =? cmp_arg
      | FutexWakeCmp.Ne => negb (old_value =? cmp_arg)
      | FutexWakeCmp.Lt => old_value <? cmp_arg
      | FutexWakeCmp.Le => old_value <=? cmp_arg
      | FutexWakeCmp.Gt => cmp_arg <? old_value
      | FutexWakeCmp.Ge => cmp_arg <=? old_value
      end in
    Ok (new_value, should_wake_second).

(** [for _ in 0..count] with a break when the queue is empty. *)
Definition pop_waiters (count : Z) (ws : list FutexWaiter) : list FutexWaiter * list FutexWaiter :=
  let n := Z.to_nat (Z.min count (zlen ws)) in (take n ws, drop n ws).

(** The requeued thread waits under its new identity from now on. *)
Definition set_wait_id (th : Thread) (wait_id : FutexWaitId) : Thread :=
  match th.(state) with
  | State.Blocking (BlockType.Futex d _) => with_state th (State.Blocking (BlockType.Futex d wait_id))
  | State.Blocked (BlockType.Futex d _) => with_state th (State.Blocked (BlockType.Futex d wait_id))
  | _ => th
  end.

Fixpoint queue_moved (queue : gmap FutexKey FutexBucket) (target : FutexKey) (moved : list FutexWaiter)
  : list (Z * FutexWaitId) * gmap FutexKey FutexBucket :=
  match moved with
  | [] => ([], queue)
  | m :: moved =>
      let '(wait_id, queue) := queue_waiter_in_locked_queue queue target m.(w_thread) m.(w_bitset) in
      let '(ids, queue) := queue_moved queue target moved in
      ((m.(w_thread), wait_id) :: ids, queue)
  end.

(** Everything of a requeue between the comparison and the wake-ups. *)
Definition requeue_waiters (w : World) (source target : FutexKey) (wake_count requeue_count : Z) : list Z * World :=
  let '(woken, moved, queue) :=
    match w.(futex_queue) !! source with
    | None => ([], [], w.(futex_queue))
    | Some b =>
        let '(woken, ws) := pop_waiters wake_count b.(waiters) in
        let '(moved, ws) := pop_waiters requeue_count ws in
        (map w_thread woken, moved, <[source := mkBucket b.(next_waiter_id) ws]> w.(futex_queue))
    end in
  let queue := drop_if_empty queue source in
  let '(moved_ids, queue) := queue_moved queue target moved in
  let w := with_futex_queue w queue in
  (woken, foldl (λ w ti, map_thread w ti.1 (λ th, set_wait_id th ti.2)) w moved_ids).

Section futex.
Context {M : Type} `{UserMemory M Z} `{UserMemory M LinuxTimespec}.
(** The caller: its thread and the keys of its address space. *)
Context (t : Z) (key_of : Z → result SyscallError FutexKey).

Definition set_interruptible (w : World) (b : bool) : World :=
  map_thread w t (λ th, with_interruptible_wait_active th b).

Definition deadline_passed (w : World) (deadline : option Time) : bool :=
  match deadline with Some d => d.(time_ns) <=? w.(now) | None => false end.

Definition futex_timeout_timespec (m : M) (timeout : Z) : result SyscallError (option LinuxTimespec) * M :=
  if timeout =? 0 then (Ok None, m)
  else
    let '(r, m) := user_read (T := LinuxTimespec) m timeout in
    try timeout := r with m in
    bail SyscallError.InvalidArguments when
      (timeout.(tv_sec) <? 0) || negb ((0 <=? timeout.(tv_nsec)) && (timeout.(tv_nsec) <? 1000000000)) with m;
    (Ok (Some timeout), m).

Definition futex_relative_timeout_deadline (w : World) (m : M) (timeout : Z) : result SyscallError (option Time) * M :=
  let '(r, m) := futex_timeout_timespec m timeout in
  try timeout := r with m in
  (Ok ((λ ts, add_ns (mkTime w.(now)) (timespec_to_ns ts)) <$> timeout), m).

(** [realtime]: the wall clock, in nanoseconds. *)
Definition futex_absolute_timeout_deadline (w : World) (realtime : Z) (m : M) (timeout : Z) (clock_realtime : bool)
  : result SyscallError (option Time) * M :=
  let '(r, m) := futex_timeout_timespec m timeout in
  try timeout := r with m in
  match timeout with
  | None => (Ok None, m)
  | Some ts =>
      let absolute_ns := timespec_to_ns ts in
      if clock_realtime then
        let delta_ns := sat_sub absolute_ns realtime in
        (Ok (Some (add_ns (mkTime w.(now)) delta_ns)), m)
      else (Ok (Some (mkTime absolute_ns)), m)
  end.

(** Up to the sleep: the comparison and the entry into the queue are one section. *)
Definition futex_wait_announce (w : World) (m : M) (arg1 arg2 : Z) (deadline : option Time) (bitset : Z)
  : result SyscallError unit * M * World :=
  match key_of arg1 with
  | Err e => (Err e, m, w)
  | Ok key =>
      let '(cur_value, m) := user_read (T := Z) m arg1 in
      match cur_value with
      | Err e => (Err e, m, set_interruptible w false)
      | Ok cur_value =>
          if negb (cur_value =? arg2) then (Err SyscallError.TryAgain, m, set_interruptible w false)
          else if deadline_passed w deadline then (Err SyscallError.TimedOut, m, set_interruptible w false)
          else
            let '(wait_id, queue) := queue_waiter_in_locked_queue w.(futex_queue) key t bitset in
            let w := with_futex_queue (set_interruptible w true) queue in
            (Ok tt, m, block w t (BlockType.Futex deadline wait_id))
      end
  end.

(** [take_signal_interrupt] *)
Definition take_signal_interrupt (w : World) : bool * World :=
  (match w.(threads) !! t with Some th => th.(interrupted_by_signal) | None => false end,
   map_thread w t (λ th, with_interrupted_by_signal th false)).

(** Once the thread runs again. *)
Definition futex_wait_resume (w : World) (deadline : option Time) : result SyscallError Z * World :=
  let '(interrupted, w) := take_signal_interrupt w in
  let w := set_interruptible w false in
  if interrupted then (Err SyscallError.Interrupted, w)
  else if deadline_passed w deadline then (Err SyscallError.TimedOut, w)
  else (Ok 0, w).

(** [others]: what happens until the thread runs again. *)
Definition futex_wait_impl (w : World) (m : M) (arg1 arg2 : Z) (deadline : option Time) (bitset : Z) (others : World → World)
  : result SyscallError Z * M * World :=
  let '(r, m, w) := futex_wait_announce w m arg1 arg2 deadline bitset in
  match r with
  | Err e => (Err e, m, w)
  | Ok _ =>
      let w := others (finish_block_current w t).2 in
      let '(r, w) := futex_wait_resume w deadline in (r, m, w)
  end.

Definition futex_wake_impl (w : World) (m : M) (arg1 arg2 : Z) (wake_mask : option Z) : result SyscallError Z * M * World :=
  let '(r, m) := user_read (T := Z) m arg1 in
  match r with
  | Err e => (Err e, m, w)
  | Ok _ =>
      match key_of arg1 with
      | Err e => (Err e, m, w)
      | Ok key => let '(woken, w) := wake_waiters w key arg2 wake_mask in (Ok woken, m, w)
      end
  end.

Definition futex_requeue_impl (w : World) (m : M) (arg1 wake_count requeue_count uaddr2 : Z) (compare : option Z)
  : result SyscallError Z * M * World :=
  let '(unchanged, m) :=
    match compare with
    | None => (Ok tt, m)
    | Some expected =>
        let '(r, m) := user_read (T := Z) m arg1 in
        (cur_value ← r; if cur_value =? expected then Ok tt else Err SyscallError.TryAgain, m)
    end in
  match (_ ← unchanged; source ← key_of arg1; target ← key_of uaddr2; Ok (source, target))
        : result SyscallError (FutexKey * FutexKey) with
  | Err e => (Err e, m, w)
  | Ok (source, target) =>
      let '(woken, w) := requeue_waiters w source target wake_count requeue_count in
      (Ok (zlen woken), m, wake_list w woken)
  end.

Definition futex_wake_op_impl (w : World) (m : M) (arg1 wake_count_1 wake_count_2 uaddr2 encoded_op : Z)
  : result SyscallError Z * M * World :=
  let '(old_value, m) := user_read (T := Z) m uaddr2 in
  match (old_value ← old_value;
         if encoded_op <? 2 ^ 32 then futex_wake_op_apply old_value encoded_op else Err SyscallError.InvalidArguments)
        : result SyscallError (Z * bool) with
  | Err e => (Err e, m, w)
  | Ok (new_value, should_wake_second) =>
      let '(r, m) := user_write m uaddr2 new_value in
      match (_ ← r; key1 ← key_of arg1; key2 ← key_of uaddr2; Ok (key1, key2)) : result SyscallError (FutexKey * FutexKey) with
      | Err e => (Err e, m, w)
      | Ok (key1, key2) =>
          let '(total_woken, w) := wake_waiters w key1 wake_count_1 None in
          if should_wake_second then
            let '(n, w) := wake_waiters w key2 wake_count_2 None in (Ok (total_woken + n), m, w)
          else (Ok total_woken, m, w)
      end
  end.

(** *** Priority-inheritance locks *)

Definition current_tid_u32 : result SyscallError Z :=
  if t <? 2 ^ 32 then Ok t else Err SyscallError.InvalidArguments.

(** One round of the loop.  The code reads the word again before it sleeps; nothing runs in
    between, so that is the same value. *)
Definition futex_lock_pi_try (key : FutexKey) (tid arg1 : Z) (deadline : option Time) (s : World * M)
  : attempt (World * M) SyscallError Z :=
  let '(w, m) := s in
  let '(r, m) := user_read (T := Z) m arg1 in
  match r with
  | Err e => Return (Err e) (w, m)
  | Ok cur_value =>
      let owner := Z.land cur_value FUTEX_TID_MASK in
      if owner =? tid then Return (Err SyscallError.ResourceDeadlock) (w, m)
      else if owner =? 0 then
        let '(r, m) := user_write m arg1 (Z.lor tid (Z.land cur_value FUTEX_OWNER_DIED)) in
        Return (_ ← r; Ok 0) (w, m)
      else if deadline_passed w deadline then Return (Err SyscallError.TimedOut) (w, m)
      else
        let '(r, m) := if Z.land cur_value FUTEX_WAITERS =? 0
                       then user_write m arg1 (Z.lor cur_value FUTEX_WAITERS) else (Ok tt, m) in
        match r with
        | Err e => Return (Err e) (w, m)
        | Ok _ =>
            let '(wait_id, queue) := queue_waiter_in_locked_queue w.(futex_queue) key t FUTEX_BITSET_MATCH_ANY in
            let w := block (with_futex_queue w queue) t (BlockType.Futex deadline wait_id) in
            Sleep ((finish_block_current w t).2, m)
        end
  end.

Definition futex_lock_pi_on_wake (deadline : option Time) (s : World * M) (_ : result ObjectError unit)
  : option SyscallError * (World * M) :=
  (if deadline_passed s.1 deadline then Some SyscallError.TimedOut else None, s).

Definition futex_lock_pi_impl (realtime : Z) (arg1 timeout : Z) (clock_realtime : bool) (ws : list (wakeup (World * M)))
  (s : World * M) : option (result SyscallError Z) * (World * M) :=
  let '(w, m) := s in
  match (key ← key_of arg1; tid ← current_tid_u32; Ok (key, tid)) : result SyscallError (FutexKey * Z) with
  | Err e => (Some (Err e), (w, m))
  | Ok (key, tid) =>
      let '(r, m) := if timeout =? 0 then (Ok None, m)
                     else futex_absolute_timeout_deadline w realtime m timeout clock_realtime in
      match r with
      | Err e => (Some (Err e), (w, m))
      | Ok deadline =>
          blocking_loop (futex_lock_pi_try key tid arg1 deadline) (futex_lock_pi_on_wake deadline) ws (w, m)
      end
  end.

Definition futex_trylock_pi_impl (m : M) (arg1 : Z) : result SyscallError Z * M :=
  try tid := current_tid_u32 with m in
  let '(r, m) := user_read (T := Z) m arg1 in
  try cur_value := r with m in
  let owner := Z.land cur_value FUTEX_TID_MASK in
  bail SyscallError.ResourceDeadlock when owner =? tid with m;
  bail SyscallError.TryAgain when negb (owner =? 0) with m;
  let '(r, m) := user_write m arg1 (Z.lor tid (Z.land cur_value FUTEX_OWNER_DIED)) in
  try _ := r with m in
  (Ok 0, m).

Definition futex_unlock_pi_impl (w : World) (m : M) (arg1 : Z) : result SyscallError Z * M * World :=
  let '(r, m) := user_read (T := Z) m arg1 in
  match (tid ← current_tid_u32; cur_value ← r;
         if Z.land cur_value FUTEX_TID_MASK =? tid then key_of arg1 else Err SyscallError.PermissionDenied)
        : result SyscallError FutexKey with
  | Err e => (Err e, m, w)
  | Ok key =>
      let '(next, queue) :=
        match w.(futex_queue) !! key with
        | Some b =>
            match b.(waiters) with
            | next :: ws => (Some next.(w_thread), <[key := mkBucket b.(next_waiter_id) ws]> w.(futex_queue))
            | [] => (None, w.(futex_queue))
            end
        | None => (None, w.(futex_queue))
        end in
      let queue := drop_if_empty queue key in
      let w := with_futex_queue w queue in
      match next with
      | None => let '(r, m) := user_write m arg1 0 in (_ ← r; Ok 0, m, w)
      | Some next =>
          if 2 ^ 32 <=? next then (Err SyscallError.InvalidArguments, m, w)
          else
            let still_has_waiters := match queue !! key with Some b => negb (zlen b.(waiters) =? 0) | None => false end in
            let '(r, m) := user_write m arg1 (Z.lor next (if still_has_waiters then FUTEX_WAITERS else 0)) in
            match r with
            | Err e => (Err e, m, w)
            | Ok _ => (Ok 0, m, wake w next)
            end
      end
  end.

(** *** The dispatch of the operations that do not sleep, and of the waits *)

Definition check_bitset (val3 : Z) : result SyscallError Z :=
  if negb (val3 <? 2 ^ 32) || (val3 =? 0) then Err SyscallError.InvalidArguments else Ok val3.

Definition futex (realtime : Z) (others : World → World) (ws : list (wakeup (World * M)))
  (w : World) (m : M) (arg1 op arg2 timeout uaddr2 val3 : Z) : option (result SyscallError Z) * M * World :=
  let done_ (x : result SyscallError Z * M * World) := (Some x.1.1, x.1.2, x.2) in
  let clock_realtime := negb (Z.land op FUTEX_CLOCK_REALTIME =? 0) in
  match Z.land op 127 with
  | 0 =>
      let '(r, m) := futex_relative_timeout_deadline w m timeout in
      match r with
      | Err e => (Some (Err e), m, w)
      | Ok deadline => done_ (futex_wait_impl w m arg1 arg2 deadline FUTEX_BITSET_MATCH_ANY others)
      end
  | 1 => done_ (futex_wake_impl w m arg1 arg2 None)
  | 3 => done_ (futex_requeue_impl w m arg1 arg2 timeout uaddr2 None)
  | 4 => done_ (futex_requeue_impl w m arg1 arg2 timeout uaddr2 (Some val3))
  | 5 => done_ (futex_wake_op_impl w m arg1 arg2 timeout uaddr2 val3)
  | 6 => let '(r, (w, m)) := futex_lock_pi_impl realtime arg1 timeout clock_realtime ws (w, m) in (r, m, w)
  | 7 => done_ (futex_unlock_pi_impl w m arg1)
  | 8 => let '(r, m) := futex_trylock_pi_impl m arg1 in (Some r, m, w)
  | 9 =>
      match check_bitset val3 with
      | Err e => (Some (Err e), m, w)
      | Ok bitset =>
          let '(r, m) := futex_absolute_timeout_deadline w realtime m timeout clock_realtime in
          match r with
          | Err e => (Some (Err e), m, w)
          | Ok deadline => done_ (futex_wait_impl w m arg1 arg2 deadline bitset others)
          end
      end
  | 10 =>
      match check_bitset val3 with
      | Err e => (Some (Err e), m, w)
      | Ok bitset => done_ (futex_wake_impl w m arg1 arg2 (Some bitset))
      end
  | _ => (Some (Err SyscallError.InvalidArguments), m, w)
  end.
End futex.

(** ** Exited threads (thread/manager.rs) *)

Section exits.
(** How many signal and process descriptors watch a process, and the pollers that those of a
    process notify. *)
Context (signalfd_watchers pidfd_watchers : Z → nat) (pidfd_pollers : Z → list Z).

Definition flush_pending_thread_exits (w : World) : World :=
  foldl (λ w pa, (wake_futex_for_process (with_user_writes w (w.(user_writes) ++ [(pa.1, pa.2, 0)])) pa.1 pa.2 1).2)
    (with_pending_thread_exits w []) w.(pending_thread_exits).

Definition map_process (w : World) (p : Z) (f : Process → Process) : World :=
  with_processes w (alter f p w.(processes)).

(** One zombie leaves the tables; the process that lost its last thread, if any. *)
Definition reap_zombie (current : option Z) (w : World) (t : Z) : option Z * World :=
  match w.(threads) !! t ≫= parent with
  | None => (None, panic w)
  | Some p =>
      let w := if bool_decide (current = Some t) then w else map_thread w t (λ th, with_parent th None) in
      let w := with_manager_threads w (w.(manager_threads) ∖ {[t]}) in
      let w := map_process w p (λ pr, with_p_threads pr (without t pr.(p_threads))) in
      (match p_threads <$> w.(processes) !! p with Some [] => Some p | _ => None end, w)
  end.

Fixpoint reap_zombies (current : option Z) (w : World) (ts : list Z) : list Z * World :=
  match ts with
  | [] => ([], w)
  | t :: ts =>
      let '(dead, w) := reap_zombie current w t in
      let '(deads, w) := reap_zombies current w ts in
      (option_list dead ++ deads, w)
  end.

Fixpoint repeat_wake_io (n : nat) (w : World) : World :=
  match n with O => w | S n => repeat_wake_io n (wake_io w) end.

(** [wake_pidfd_for_process_with_manager] *)
Definition wake_pidfd (w : World) (p : Z) : World :=
  let w := repeat_wake_io (pidfd_watchers p) w in
  match pidfd_pollers p with
  | [] => w
  | ps => wake_affected_pollers (mark_pollers_dirty w true) ps
  end.

Definition sleeps_not_stopped (s : State) : bool :=
  match s with State.Blocked BlockType.Stopped => false | State.Blocked _ => true | _ => false end.

(** A dead process signals its parent, whose sleeping threads wake, and its waiters. *)
Definition announce_death (w : World) (p : Z) : World :=
  let w :=
    match w.(processes) !! p with
    | None => w
    | Some pr =>
        match pr.(p_parent) with
        | None => w
        | Some q =>
            let w := map_process w q (λ pq, with_p_pending_signals pq (insert_bits pq.(p_pending_signals) (mask pr.(child_exit_signal)))) in
            let ts := match w.(processes) !! q with Some pq => pq.(p_threads) | None => [] end in
            let w := repeat_wake_io (signalfd_watchers q) w in
            foldl (λ w t, match state_of w t with
                          | Some s => if sleeps_not_stopped s then wake w t else w
                          | None => w
                          end) w ts
        end
    end in
  wake_pidfd (wake_process_exit_waiters w) p.

Definition cleanup_exited_threads (current : option Z) (w : World) : list Z * World :=
  let w := flush_pending_thread_exits w in
  let '(to_remove, w) := reap_zombies current (with_zombies w []) w.(zombies) in
  (to_remove, foldl announce_death w to_remove).

Definition defer_current_zombie_thread (w : World) (t : Z) : World :=
  let p := w.(threads) !! t ≫= parent in
  let w := map_thread w t (λ th, with_parent th None) in
  let w := with_manager_threads w (w.(manager_threads) ∖ {[t]}) in
  let '(_, w) := remove_ready_thread w t in
  let w := remove_from_blocked_queues w t in
  let w := with_zombies w (without t w.(zombies)) in
  let w := match p with
           | Some p => map_process w p (λ pr, with_p_threads pr (without t pr.(p_threads)))
           | None => w
           end in
  with_deferred_threads w (w.(deferred_threads) ++ [t]).
End exits.
