(* ===== verification/FutexProps.v ===== *)
(** * Futexes: the queues agree with the sleepers

    What an operation does to the queues of waiters and to the threads that sleep on a
    futex, the invariant that ties the two, and the properties of waiting, waking and
    requeueing. *)

From stdpp Require Import sets.
From S2P Require Import Prelude Errors Clock Blocking AddrAreas SignalData.
From S2P Require Import Threads.
From S2P Require Import ThreadsProps.
From S2P Require Import Futex.

Open Scope Z_scope.

(** ** Who waits for what *)

Definition futex_wait (s : State) : option FutexWaitId :=
  match s with
  | State.Blocking (BlockType.Futex _ wait_id) | State.Blocked (BlockType.Futex _ wait_id) => Some wait_id
  | _ => None
  end.

Definition waits (w : World) (t : Z) : option FutexWaitId := state_of w t ≫= futex_wait.

Definition waiters_at (queue : gmap FutexKey FutexBucket) (k : FutexKey) : list FutexWaiter :=
  match queue !! k with Some b => b.(waiters) | None => [] end.

Definition next_at (queue : gmap FutexKey FutexBucket) (k : FutexKey) : Z :=
  match queue !! k with Some b => b.(next_waiter_id) | None => 0 end.

(** The queues of waiters against the threads' own record of what they wait for.  [X]:
    threads that were taken out of a queue and are about to be woken or moved. *)
Record agree_but (X : Z → Prop) (queue : gmap FutexKey FutexBucket) (waits : Z → option FutexWaitId) : Prop := {
  fx_bucket k b : queue !! k = Some b →
    b.(waiters) ≠ [] ∧ NoDup (map w_id b.(waiters)) ∧ (∀ x, x ∈ b.(waiters) → 0 ≤ x.(w_id) < b.(next_waiter_id));
  fx_member k x : x ∈ waiters_at queue k → waits x.(w_thread) = Some (mkWaitId k x.(w_id)) ∧ ¬ X x.(w_thread);
  fx_sleeper t wid : waits t = Some wid → ¬ X t →
    ∃ x, x ∈ waiters_at queue wid.(wait_key) ∧ x.(w_thread) = t ∧ x.(w_id) = wid.(waiter_id);
  fx_inj t u wid : waits t = Some wid → waits u = Some wid → t = u;
}.

Abbreviation agree := (agree_but (λ _, False)).

Definition futex_ok (w : World) : Prop := agree w.(futex_queue) (waits w).

(** ** Lemmas: leaving a queue *)

Definition forget (queue : gmap FutexKey FutexBucket) (wid : option FutexWaitId) : gmap FutexKey FutexBucket :=
  match wid with Some wid => remove_futex_waiter queue wid | None => queue end.

Lemma waiters_remove queue wid k :
  waiters_at (remove_futex_waiter queue wid) k =
  if decide (k = wid.(wait_key)) then filter (λ x, x.(w_id) ≠ wid.(waiter_id)) (waiters_at queue k) else waiters_at queue k.
Proof.
  unfold remove_futex_waiter, waiters_at. case_decide as Hk; [subst k|].
  - destruct (queue !! wait_key wid) as [b|] eqn:Hb; [|by rewrite Hb].
    destruct (filter _ _) as [|x l] eqn:Hf; [by rewrite lookup_delete_eq|by rewrite lookup_insert_eq].
  - destruct (queue !! wait_key wid) as [b|] eqn:Hb; [|done].
    destruct (filter _ _) as [|x l]; [by rewrite lookup_delete_ne|by rewrite lookup_insert_ne].
Qed.

Lemma bucket_remove queue wid k b :
  remove_futex_waiter queue wid !! k = Some b →
  ∃ b0, queue !! k = Some b0 ∧ b.(next_waiter_id) = b0.(next_waiter_id) ∧ sublist b.(waiters) b0.(waiters) ∧ (b0.(waiters) ≠ [] → b.(waiters) ≠ []).
Proof.
  unfold remove_futex_waiter. intros H. destruct (queue !! wait_key wid) as [b0|] eqn:Hb; [|by exists b].
  destruct (decide (k = wait_key wid)) as [->|Hk].
  - destruct (filter _ _) as [|x l] eqn:Hf; [by rewrite lookup_delete_eq in H|].
    rewrite lookup_insert_eq in H. injection H as <-. exists b0. cbn. rewrite <- Hf. split; [done|]. split; [done|].
    split; [apply sublist_filter|]. by rewrite Hf.
  - destruct (filter _ _) as [|x l]; [rewrite lookup_delete_ne in H by done|rewrite lookup_insert_ne in H by done]; by exists b.
Qed.

Lemma forget_waiters (X : Z → Prop) queue ws t k :
  agree_but X queue ws → waiters_at (forget queue (ws t)) k = filter (λ x, x.(w_thread) ≠ t) (waiters_at queue k).
Proof.
  intros Hok. unfold forget. destruct (ws t) as [wid|] eqn:Ht.
  - rewrite waiters_remove. case_decide as Hk; [subst k; apply filter_agree|symmetry; apply filter_keep];
      intros x Hx; destruct (fx_member X _ _ Hok _ x Hx) as [Hm _].
    + split; intros Hne Heq; apply Hne; [rewrite Heq, Ht in Hm; by injection Hm as ->|].
      apply (fx_inj X _ _ Hok x.(w_thread) t wid); [|done]. rewrite Hm, Heq. by destruct wid.
    + intros Heq. rewrite Heq, Ht in Hm. by injection Hm as ->.
  - symmetry. apply filter_keep. intros x Hx Heq. destruct (fx_member X _ _ Hok k x Hx). congruence.
Qed.

(** A thread stops waiting, and its entry goes. *)
Lemma forget_ok (X : Z → Prop) queue ws ws' t :
  agree_but X queue ws → (∀ u, ws' u = if decide (u = t) then None else ws u) →
  agree_but (λ u, X u ∧ u ≠ t) (forget queue (ws t)) ws'.
Proof.
  intros Hok Hws'. pose proof (λ k, forget_waiters X queue ws t k Hok) as Hat.
  constructor.
  - intros k b Hb. destruct (ws t) as [wid|]; [|by apply (fx_bucket X _ _ Hok k)].
    destruct (bucket_remove _ _ _ _ Hb) as (b0 & Hb0 & Hn & Hs & He). destruct (fx_bucket X _ _ Hok k b0 Hb0) as (H1 & H2 & H3).
    split; [by apply He|]. split; [eapply sublist_NoDup; [exact H2|by apply sublist_map]|]. intros x Hx. rewrite Hn. apply H3. by eapply elem_of_sublist.
  - intros k x. rewrite Hat, list_elem_of_filter. intros [Hne Hx]. rewrite Hws', decide_False by done.
    destruct (fx_member X _ _ Hok k x Hx). tauto.
  - intros u wid. rewrite Hws'. case_decide as Hu; [done|]. intros Hw HX.
    destruct (fx_sleeper X _ _ Hok u wid Hw) as (x & Hx & <- & Hid); [tauto|]. exists x. rewrite Hat, list_elem_of_filter. done.
  - intros u v wid. rewrite !Hws'. repeat case_decide; [done..|]. apply (fx_inj X _ _ Hok).
Qed.

(** ** Lemmas: the operations on threads *)

Lemma waits_blocking w t b : state_of w t = Some (State.Blocking b) → waits w t = futex_wait (State.Blocking b).
Proof. unfold waits. by intros ->. Qed.

Lemma remove_futex w t : (remove_from_blocked_queues w t).(futex_queue) = forget w.(futex_queue) (waits w t).
Proof. unfold remove_from_blocked_queues, waits. destruct (state_of w t) as [[| |b| |b| |]|]; try done; by destruct b as [| |? ?|]. Qed.

Lemma remove_waits w t u : waits (remove_from_blocked_queues w t) u = waits w u.
Proof. unfold waits. by rewrite remove_state. Qed.

Lemma push_balanced_futex w t : (push_ready_balanced w t).(futex_queue) = w.(futex_queue).
Proof.
  unfold push_ready_balanced, push_ready_on_cpu, next_balanced_cpu, ensure_queue, resize_ready_queues. by repeat case_match.
Qed.

Lemma push_balanced_waits w t u : waits (push_ready_balanced w t) u = waits w u.
Proof. unfold waits. destruct (push_balanced_spec w t) as (_ & _ & H & _). by rewrite H. Qed.

Lemma set_state_waits w t s u :
  waits (set_state w t s) u = if decide (u = t) then match state_of w t with Some _ => futex_wait s | None => None end else waits w u.
Proof. unfold waits. rewrite state_of_set. case_decide; [|done]. by destruct (state_of w t). Qed.

Lemma set_state_same w t s s0 u :
  state_of w t = Some s0 → futex_wait s = futex_wait s0 → waits (set_state w t s) u = waits w u.
Proof. intros Hs Hf. rewrite set_state_waits. case_decide; [|done]. subst u. unfold waits. by rewrite Hs. Qed.

Lemma wake_futex w t : (wake w t).(futex_queue) = forget w.(futex_queue) (waits w t).
Proof.
  unfold wake. rewrite <- remove_futex. destruct (state_of (remove_from_blocked_queues w t) t) as [[]|]; try done.
  apply (push_balanced_futex (set_state (remove_from_blocked_queues w t) t State.Ready) t).
Qed.

Lemma wake_waits w t u : waits (wake w t) u = if decide (u = t) then None else waits w u.
Proof.
  unfold waits. rewrite wake_state. case_decide; [|done]. by destruct (state_of w t) as [[]|].
Qed.

(** *** The agreement, operation by operation *)

Definition futex_ok_but (X : Z → Prop) (w : World) : Prop := agree_but X w.(futex_queue) (waits w).

Lemma agree_ext X Y queue ws ws' :
  agree_but X queue ws → (∀ t, ws' t = ws t) → (∀ t, X t ↔ Y t) → agree_but Y queue ws'.
Proof.
  intros [] Hw HX. constructor; try done.
  - intros k x. rewrite Hw, <- HX. eauto.
  - intros t wid. rewrite Hw, <- HX. eauto.
  - intros t u wid. rewrite !Hw. eauto.
Qed.

(** An operation that leaves the queues and what the threads wait for. *)
Lemma quiet_ok X w w' :
  futex_ok_but X w → w'.(futex_queue) = w.(futex_queue) → (∀ t, waits w' t = waits w t) → futex_ok_but X w'.
Proof. unfold futex_ok_but. intros Hok -> Hw. eapply agree_ext; [exact Hok|exact Hw|done]. Qed.

Lemma leave_futex_ok X w w' t :
  futex_ok_but X w → w'.(futex_queue) = forget w.(futex_queue) (waits w t) →
  (∀ u, waits w' u = if decide (u = t) then None else waits w u) → futex_ok_but (λ u, X u ∧ u ≠ t) w'.
Proof. unfold futex_ok_but. intros Hok -> Hw. by apply forget_ok with (ws := waits w). Qed.

Lemma none_ok X Y w : futex_ok_but X w → (∀ t, X t ↔ Y t) → futex_ok_but Y w.
Proof. intros Hok HX. by eapply agree_ext. Qed.

Lemma wake_futex_ok X w t : futex_ok_but X w → futex_ok_but (λ u, X u ∧ u ≠ t) (wake w t).
Proof. intros Hok. apply (leave_futex_ok X w); [done|apply wake_futex|apply wake_waits]. Qed.

Lemma wake_list_futex_ok ts X w : futex_ok_but X w → futex_ok_but (λ u, X u ∧ u ∉ ts) (wake_list w ts).
Proof.
  revert X w. induction ts as [|t ts IH]; intros X w Hok.
  - eapply none_ok; [exact Hok|]. intros t. set_solver.
  - cbn. eapply none_ok; [apply IH, wake_futex_ok, Hok|]. intros u. rewrite not_elem_of_cons. tauto.
Qed.

Lemma wake_list_futex ts w : futex_ok w → futex_ok (wake_list w ts).
Proof. intros Hok. eapply none_ok; [exact (wake_list_futex_ok ts _ w Hok)|]. tauto. Qed.

Lemma wake_matching_futex w k p : futex_ok w → futex_ok (wake_matching w k p).
Proof. intros Hok. unfold wake_matching. by apply wake_list_futex. Qed.

Lemma wake_queue_loop_futex n k w : futex_ok w → futex_ok (wake_queue_loop w k n).
Proof.
  revert w. induction n as [|n IH]; intros w Hok; [done|]. cbn. case_match; [done|]. apply IH.
  eapply none_ok; [apply (wake_futex_ok (λ _, False)); exact Hok|]. tauto.
Qed.

Lemma process_timed_out_futex w : futex_ok w → futex_ok (process_timed_out_threads w).
Proof. intros Hok. unfold process_timed_out_threads. destruct (pop_due w _) as [l ts]. by apply wake_list_futex. Qed.

Lemma finish_waits w t u : waits (finish_block_current w t).2 u = waits w u.
Proof.
  unfold finish_block_current. destruct (state_of w t) as [[]|] eqn:Hs; try done; cbn.
  - destruct (is_ready_queued w t); [|done]. by apply (set_state_same (remove_ready_thread w t).2 t _ State.Ready).
  - by apply (set_state_same w t _ (State.Blocking b)).
  - by apply (set_state_same w t _ State.Woken).
Qed.

Lemma finish_futex w t : (finish_block_current w t).2.(futex_queue) = w.(futex_queue).
Proof. unfold finish_block_current. destruct (state_of w t) as [[]|]; try done. cbn. by destruct (is_ready_queued w t). Qed.

Lemma finish_futex_ok X w t : futex_ok_but X w → futex_ok_but X (finish_block_current w t).2.
Proof. intros Hok. eapply quiet_ok; [exact Hok|apply finish_futex|apply finish_waits]. Qed.

Lemma yield_futex_ok w t : futex_ok w → futex_ok (after_yield_state w t).
Proof.
  intros Hok. eapply quiet_ok; [exact Hok| |].
  - unfold after_yield_state. destruct (state_of w t) as [[]|]; try done;
      first [apply (push_balanced_futex w)|apply (push_balanced_futex (set_state w t State.Ready))].
  - intros u. unfold after_yield_state. destruct (state_of w t) as [[]|] eqn:Hs; try done; rewrite ?push_balanced_waits; try done;
      by eapply set_state_same.
Qed.

Lemma mark_exited_futex_ok w t : futex_ok w → futex_ok (mark_thread_exited w t).
Proof.
  intros Hok. unfold mark_thread_exited. destruct (threads w !! t) as [th|] eqn:Hth; [|done].
  case_bool_decide; [done|]. destruct (parent th); [|done].
  set (w1 := if clear_child_tid th =? 0 then w else _).
  assert (w1.(futex_queue) = w.(futex_queue) ∧ ∀ u, waits w1 u = waits w u) as [Hq Hw].
  { subst w1. case_match; [done|]. split; [done|]. intros u. unfold waits. rewrite state_of_map. case_decide; [|done]. subst u.
    unfold state_of. by rewrite Hth. }
  eapply none_ok; [apply (leave_futex_ok (λ _, False) w _ t Hok)|tauto].
  - rewrite <- Hq, <- Hw, <- remove_futex. cbn. by destruct (_ =? 0).
  - intros u. rewrite <- Hw, <- (remove_waits w1 t u). clearbody w1. cbn.
    set (w2 := with_ready_queues (remove_from_blocked_queues w1 t) _).
    transitivity (waits (set_state w2 t State.Zombie) u); [by destruct (_ =? 0)|]. rewrite set_state_waits.
    case_decide; [by case_match|done].
Qed.

Lemma exit_list_futex_ok ts w current : futex_ok w → futex_ok (exit_thread_list_except w ts current).2.
Proof.
  revert w. induction ts as [|t ts IH]; intros w Hok; [done|]. cbn. case_match; [by apply IH|].
  destruct (state_of w t) as [[]|] eqn:Hs; try (by apply IH); try (by apply IH, mark_exited_futex_ok).
  - assert (futex_ok (request_all_cpus_resched (set_state w t State.Exiting))) as Hok'.
    { eapply quiet_ok; [exact Hok|done|]. intros u. by apply (set_state_same w t _ State.Running). }
    pose proof (IH _ Hok') as H1. destruct (exit_thread_list_except _ ts current). exact H1.
  - pose proof (IH _ Hok) as H1. destruct (exit_thread_list_except w ts current). exact H1.
Qed.

Lemma pop_queue_futex w f i : (pop_ready_from_queue_matching w f i).2.(futex_queue) = w.(futex_queue).
Proof. unfold pop_ready_from_queue_matching. case_match; [|done]. by destruct (pop_ready_loop _ _ _ _). Qed.

Lemma steal_futex w f l is_ : (steal_loop w f l is_).2.(futex_queue) = w.(futex_queue).
Proof.
  revert w. induction is_ as [|i is_ IH]; intros w; [done|]. cbn. case_decide; [apply IH|].
  pose proof (pop_queue_futex w f i) as Hq. destruct (pop_ready_from_queue_matching w f i) as [[t|] w1]; [done|].
  rewrite IH. exact Hq.
Qed.

Lemma ensure_futex w : (ensure_queue w).(futex_queue) = w.(futex_queue).
Proof. unfold ensure_queue, resize_ready_queues. by repeat case_match. Qed.

Lemma pop_inner_futex w cpu steal f : (pop_ready_for_cpu_inner w cpu steal f).2.(futex_queue) = w.(futex_queue).
Proof.
  unfold pop_ready_for_cpu_inner. rewrite <- (ensure_futex w). set (w1 := ensure_queue w). set (i := Z.to_nat _). cbn zeta.
  pose proof (pop_queue_futex w1 f i) as Hq. destruct (pop_ready_from_queue_matching w1 f i) as [[t|] w']; [done|].
  destruct steal; [|done]. rewrite steal_futex. exact Hq.
Qed.

Lemma dispatch_futex_ok w cpu steal f : futex_ok w → futex_ok (dispatch (pop_ready_for_cpu_inner w cpu steal f)).
Proof.
  intros Hok. pose proof (pop_inner_spec w cpu steal f) as Hp. pose proof (pop_inner_futex w cpu steal f) as Hf.
  destruct (pop_ready_for_cpu_inner w cpu steal f) as [r w']. destruct Hp as ((Hs & _ & _) & Hr & _). cbn in Hf.
  assert (futex_ok w') as Hok'.
  { eapply quiet_ok; [exact Hok|done|]. intros u. unfold waits. by rewrite Hs. }
  destruct r as [t|]; [|done]. cbn. unfold run_ready_thread. rewrite Hs, (Hr t eq_refl). cbn.
  eapply quiet_ok; [exact Hok'|done|]. intros u. apply (set_state_same w' t _ State.Ready); [|done]. rewrite Hs. by apply Hr.
Qed.

Lemma cancel_futex_ok w t : futex_ok w → futex_ok (cancel_block w t).
Proof.
  intros Hok. unfold cancel_block. rewrite remove_state.
  destruct (waits w t) as [wid|] eqn:Hw.
  - assert (∃ s, state_of w t = Some s ∧ futex_wait s = Some wid) as (s & Hs & Hf).
    { unfold waits in Hw. destruct (state_of w t) as [s|]; [by exists s|done]. }
    eapply none_ok; [apply (leave_futex_ok (λ _, False) w _ t Hok)|tauto].
    + rewrite <- remove_futex, Hs. by destruct s.
    + intros u. rewrite Hs. destruct s; try done; rewrite set_state_waits, remove_state, Hs, remove_waits; by case_decide.
  - apply (quiet_ok _ w); [done| |].
    + transitivity (remove_from_blocked_queues w t).(futex_queue); [by destruct (state_of w t) as [[]|]|]. by rewrite remove_futex, Hw.
    + intros u. rewrite <- (remove_waits w t u). rewrite <- (remove_waits w t) in Hw. set (w1 := remove_from_blocked_queues w t) in *.
      rewrite <- (remove_state w t t). fold w1. destruct (state_of w1 t) as [[]|] eqn:Hs; try done;
        (eapply set_state_same; [exact Hs|]); unfold waits in Hw; rewrite Hs in Hw; exact (eq_sym Hw).
Qed.

Lemma register_waits w th u :
  waits (register_thread w th) u = if decide (u = th.(id)) then futex_wait th.(state) else waits w u.
Proof.
  unfold waits, state_of, register_thread. cbn. case_decide as Hu; [subst u; by rewrite lookup_insert_eq|].
  by rewrite lookup_insert_ne.
Qed.

Lemma register_futex_ok w th :
  futex_ok w → w.(threads) !! th.(id) = None → futex_wait th.(state) = None → futex_ok (register_thread w th).
Proof.
  intros Hok Hn Hf. eapply quiet_ok; [exact Hok|done|]. intros u. rewrite register_waits. case_decide; [|done]. subst u.
  unfold waits, state_of. by rewrite Hn.
Qed.

Lemma block_futex_ok w t b : futex_ok w → futex_wait (State.Blocking b) = None → waits w t = None → futex_ok (block w t b).
Proof.
  intros Hok Hb Hw. eapply quiet_ok; [exact Hok|done|]. intros u. change (waits (block w t b) u) with (waits (set_state w t (State.Blocking b)) u).
  rewrite set_state_waits. case_decide; [|done]. subst u. rewrite Hw, Hb. by case_match.
Qed.

(** A step of the threads and the scheduler that neither stops a thread that waits for a
    futex nor makes one wait for a futex. *)
Definition plain (w w' : World) : Prop :=
  (∀ t, waits w' t ≠ None → waits w t ≠ None) ∧
  (∀ t, state_of w' t = Some (State.Blocked BlockType.Stopped) → waits w t = None).

Lemma running_waits w t : state_of w t = Some State.Running → waits w t = None.
Proof. unfold waits. by intros ->. Qed.

Lemma on_cpu_waits w t : on_cpu w t → waits w t = None.
Proof. unfold waits. by intros [-> | ->]. Qed.

Lemma absent_waits w t : w.(threads) !! t = None → waits w t = None.
Proof. unfold waits, state_of. by intros ->. Qed.

Lemma stop_waits ts w u :
  state_of (stop_threads w ts) u =
  if decide (u ∈ ts) then (λ _, State.Blocked BlockType.Stopped) <$> state_of w u else state_of w u.
Proof.
  unfold stop_threads. revert w. induction ts as [|t ts IH]; intros w; [done|]. cbn. rewrite IH, state_of_set.
  destruct (decide (u = t)) as [->|Hu].
  - rewrite (decide_True (P := t ∈ t :: ts)) by (by left). case_decide; by destruct (state_of w t).
  - destruct (decide (u ∈ ts)); [rewrite (decide_True (P := u ∈ t :: ts)) by (by right)|rewrite (decide_False (P := u ∈ t :: ts)) by (rewrite elem_of_cons; tauto)]; done.
Qed.

Lemma sched_step_futex_ok w w' : futex_ok w → sched_step w w' → plain w w' → futex_ok w'.
Proof.
  intros Hok [] [Hnew Hstop].
  - unfold spawn. eapply quiet_ok; [apply register_futex_ok|apply push_balanced_futex|apply push_balanced_waits]; try done.
    by rewrite H0.
  - assert (futex_wait (State.Blocked b) = None) as Hb.
    { apply dec_stable. intros Hne. apply (Hnew th.(id)); [|by apply absent_waits].
      change (waits (register_thread w (with_state th (State.Blocked b))) th.(id) ≠ None). rewrite register_waits, decide_True by done. done. }
    unfold spawn_blocked. eapply quiet_ok; [apply (register_futex_ok w (with_state th (State.Blocked b)))|done|done]; done.
  - apply block_futex_ok; [done| |by apply on_cpu_waits].
    apply dec_stable. intros Hne. apply (Hnew t); [|by apply on_cpu_waits].
    change (waits (set_state w t (State.Blocking b)) t ≠ None). rewrite set_state_waits, decide_True by done. by destruct H as [-> | ->].
  - by apply cancel_futex_ok.
  - by apply finish_futex_ok.
  - by apply dispatch_futex_ok.
  - by apply yield_futex_ok.
  - exact (wake_list_futex [t] w Hok).
  - by apply wake_queue_loop_futex.
  - by apply wake_matching_futex.
  - by apply wake_matching_futex.
  - by apply wake_matching_futex.
  - unfold wake_ready_pollers. case_match; [done|].
    exact (wake_list_futex _ w Hok).
  - by apply process_timed_out_futex.
  - unfold wake_due_timed_threads. case_match; [|done]. by apply process_timed_out_futex.
  - eapply quiet_ok; [exact Hok| |].
    + clear. unfold stop_threads. revert w. induction ts as [|t ts IH]; intros w; [done|]. cbn. by rewrite IH.
    + intros u. specialize (Hstop u). unfold waits. rewrite stop_waits in *. case_decide; [|done]. unfold waits in Hstop.
      destruct (state_of w u); [|done]. cbn in *. by rewrite Hstop.
  - eapply quiet_ok; [exact Hok|done|]. intros u. unfold waits, exit_current_thread. rewrite state_of_map. case_decide; [|done]. subst u.
    change (fmap state (threads w !! t)) with (state_of w t) in *.
    unfold on_cpu, state_of in *. destruct (threads w !! t) as [th|]; [|done]. cbn in *. destruct H as [[= -> ]|[= -> ]]; done.
  - by apply mark_exited_futex_ok.
  - by apply exit_list_futex_ok.
  - exact Hok.
Qed.

(** ** Lemmas: entering a queue *)

Lemma queue_waiter_spec queue key t bitset :
  let '(wid, queue') := queue_waiter_in_locked_queue queue key t bitset in
  wid = mkWaitId key (next_at queue key) ∧
  queue' = <[key := mkBucket (sat_add 64 (next_at queue key) 1) (waiters_at queue key ++ [mkWaiter (next_at queue key) t bitset])]> queue.
Proof. unfold queue_waiter_in_locked_queue, push_waiter, next_at, waiters_at. cbn. by destruct (queue !! key). Qed.

Lemma enter_ok (X : Z → Prop) queue ws ws' t key bitset :
  agree_but X queue ws → 0 ≤ next_at queue key < U64_MAX → ws t = None ∨ X t →
  (∀ u wid, X u → ws u = Some wid → wid.(wait_key) ≠ key) →
  (∀ u, ws' u = if decide (u = t) then Some (mkWaitId key (next_at queue key)) else ws u) →
  agree_but (λ u, X u ∧ u ≠ t) (queue_waiter_in_locked_queue queue key t bitset).2 ws'.
Proof.
  intros Hok Hn Ht HX Hws'. pose proof (queue_waiter_spec queue key t bitset) as Hq.
  destruct (queue_waiter_in_locked_queue queue key t bitset) as [wid queue']. destruct Hq as [_ ->]. cbn [snd].
  set (n := next_at queue key) in *. set (x0 := mkWaiter n t bitset).
  assert (sat_add 64 n 1 = n + 1) as -> by (unfold sat_add; change (2 ^ 64 - 1) with U64_MAX; lia).
  assert (∀ k, waiters_at (<[key := mkBucket (n + 1) (waiters_at queue key ++ [x0])]> queue) k =
    if decide (k = key) then waiters_at queue key ++ [x0] else waiters_at queue k) as Hat.
  { intros k. unfold waiters_at at 1. case_decide as Hk; [subst k; by rewrite lookup_insert_eq|]. by rewrite lookup_insert_ne. }
  assert (∀ x, x ∈ waiters_at queue key → 0 ≤ x.(w_id) < n) as Hlt.
  { intros x Hx. subst n. unfold waiters_at, next_at in *. destruct (queue !! key) as [b|] eqn:Hb; [|by apply elem_of_nil in Hx].
    by apply (fx_bucket X _ _ Hok key b Hb). }
  assert (∀ k x, x ∈ waiters_at queue k → x.(w_thread) ≠ t) as Hnew.
  { intros k x Hx Heq. destruct (fx_member X _ _ Hok k x Hx) as [H1 H2]. rewrite Heq in *. destruct Ht; [congruence|done]. }
  assert (∀ u, u ≠ t → ws u ≠ Some (mkWaitId key n)) as Hfresh.
  { intros u Hu Hw. assert (¬ X u) as HXu by (intros HXu; by apply (HX u _ HXu Hw)).
    destruct (fx_sleeper X _ _ Hok u _ Hw HXu) as (x & Hx & _ & Hid). cbn in *. apply Hlt in Hx. lia. }
  constructor.
  - intros k b Hb. destruct (decide (k = key)) as [->|Hk]; [|rewrite lookup_insert_ne in Hb by done; by apply (fx_bucket X _ _ Hok k)].
    rewrite lookup_insert_eq in Hb. injection Hb as <-. cbn. split; [by destruct (waiters_at queue key)|]. split.
    + rewrite map_app. apply NoDup_app. split; [|split; [|by apply NoDup_singleton]].
      * unfold waiters_at. destruct (queue !! key) as [b|] eqn:Hb; [|constructor]. by apply (fx_bucket X _ _ Hok key b).
      * intros i (x & -> & Hx)%list_elem_of_fmap Hi%list_elem_of_singleton. apply Hlt in Hx. cbn in Hi. lia.
    + intros x [Hx|Hx%list_elem_of_singleton]%elem_of_app; [apply Hlt in Hx; lia|subst x; cbn; subst n; lia].
  - intros k x. rewrite Hat. intros Hx. assert ((x = x0 ∧ k = key) ∨ x ∈ waiters_at queue k) as [[-> ->]|Hx'].
    { case_decide as Hk; [subst k|by right]. apply elem_of_app in Hx as [?|?%list_elem_of_singleton]; auto. }
    + rewrite Hws'. cbn. rewrite decide_True by done. split; [done|]. intros [_ []]. done.
    + pose proof (Hnew k x Hx') as Hne. rewrite Hws', decide_False by done. destruct (fx_member X _ _ Hok k x Hx'). tauto.
  - intros u wid'. rewrite Hws'. case_decide as Hu.
    + intros [= <-] _. exists x0. rewrite Hat. cbn. rewrite decide_True by done. split; [|done]. apply elem_of_app. right. left.
    + intros Hw HXu. destruct (fx_sleeper X _ _ Hok u wid' Hw) as (x & Hx & H1 & H2); [tauto|]. exists x. split; [|done].
      rewrite Hat. case_decide as Hk; [rewrite Hk in Hx; apply elem_of_app; by left|done].
  - intros u v wid'. rewrite !Hws'. repeat case_decide; subst; try done.
    + intros [= <-] Hv. by destruct (Hfresh v).
    + intros Hu [= <-]. by destruct (Hfresh u).
    + apply (fx_inj X _ _ Hok).
Qed.

Lemma next_nonneg X queue ws k : agree_but X queue ws → 0 ≤ next_at queue k.
Proof.
  intros Hok. unfold next_at. destruct (queue !! k) as [b|] eqn:Hb; [|done].
  destruct (fx_bucket X _ _ Hok k b Hb) as (Hne & _ & Hlt). destruct b.(waiters) as [|x l]; [done|].
  assert (x ∈ x :: l) as Hx by left. apply Hlt in Hx. lia.
Qed.

(** ** Lemmas: taking waiters out *)

Definition hit (wake_mask : option Z) (x : FutexWaiter) : Prop := should_wake wake_mask x = true.

#[export] Instance hit_dec p x : Decision (hit p x).
Proof. unfold hit. apply _. Defined.

(** The waiters a wake of [count] takes. *)
Definition taken (count : Z) (p : option Z) (ws : list FutexWaiter) : list FutexWaiter :=
  take (Z.to_nat count) (filter (hit p) ws).

(** The list is what the scan has yet to see, then what it put back. *)
Lemma take_waiters_loop_spec us kept count p acc :
  let '(woken, rest) := take_waiters_loop (length us) (us ++ kept) count p acc in
  woken = acc ++ map w_thread (taken (count - zlen acc) p us) ∧
  us ++ kept ≡ₚ taken (count - zlen acc) p us ++ rest ∧
  (p = None → rest = drop (Z.to_nat (count - zlen acc)) us ++ kept).
Proof.
  revert kept acc. induction us as [|x us IH]; intros kept acc; cbn [length].
  { unfold taken. change (filter (hit p) []) with (@nil FutexWaiter). rewrite take_nil, drop_nil. cbn. rewrite app_nil_r. by destruct kept. }
  cbn [app take_waiters_loop]. destruct (zlen acc <? count) eqn:Hc.
  2:{ assert (Z.to_nat (count - zlen acc) = 0%nat) as Hk by lia. unfold taken. rewrite Hk. cbn. by rewrite app_nil_r. }
  assert (Z.to_nat (count - zlen acc) = S (Z.to_nat (count - (zlen acc + 1)))) as Hk by lia.
  destruct (should_wake p x) eqn:Hx.
  - specialize (IH kept (acc ++ [x.(w_thread)])). rewrite zlen_app in IH. change (zlen [w_thread x]) with 1 in IH.
    destruct (take_waiters_loop _ _ _ _ _) as [woken rest]. destruct IH as (-> & Hp & Hr).
    unfold taken in *. rewrite filter_cons, decide_True by done. rewrite Hk. cbn. rewrite <- app_assoc. split; [done|]. split; [by rewrite <- Hp|done].
  - specialize (IH (kept ++ [x]) acc). rewrite app_assoc in IH.
    destruct (take_waiters_loop _ _ _ _ _) as [woken rest]. destruct IH as (-> & Hp & Hr).
    unfold taken in *. rewrite filter_cons, decide_False by (unfold hit; by rewrite Hx). split; [done|]. split.
    + rewrite <- Hp. change (x :: us ++ kept) with ([x] ++ us ++ kept). rewrite (Permutation_app_comm [x]), <- app_assoc. done.
    + intros ->. done.
Qed.

(** A bucket that keeps only [rest]. *)
Definition shrink (queue : gmap FutexKey FutexBucket) (key : FutexKey) (rest : list FutexWaiter) : gmap FutexKey FutexBucket :=
  match queue !! key with
  | None => queue
  | Some b =>
      match rest with [] => delete key queue | _ => <[key := mkBucket b.(next_waiter_id) rest]> queue end
  end.

Lemma shrink_drop queue key b rest :
  queue !! key = Some b → drop_if_empty (<[key := mkBucket b.(next_waiter_id) rest]> queue) key = shrink queue key rest.
Proof.
  intros Hb. unfold drop_if_empty, bucket_is_empty, shrink. rewrite lookup_insert_eq, Hb. cbn.
  destruct rest; [by rewrite delete_insert_eq|done].
Qed.

Lemma take_futex_waiters_spec w key count p :
  let '(ts, w') := take_futex_waiters w key count p in
  ts = map w_thread (taken count p (waiters_at w.(futex_queue) key)) ∧
  ∃ rest queue', w' = with_futex_queue w queue' ∧
  waiters_at w.(futex_queue) key ≡ₚ taken count p (waiters_at w.(futex_queue) key) ++ rest ∧
  (p = None → rest = drop (Z.to_nat count) (waiters_at w.(futex_queue) key)) ∧
  queue' = shrink w.(futex_queue) key rest.
Proof.
  unfold take_futex_waiters, waiters_at, take_futex_waiters_from_bucket. destruct (futex_queue w !! key) as [b|] eqn:Hb.
  - pose proof (take_waiters_loop_spec b.(waiters) [] count p []) as H. rewrite app_nil_r in H.
    change (zlen []) with 0 in H. rewrite Z.sub_0_r in H.
    destruct (take_waiters_loop _ _ _ _ _) as [woken rest]. destruct H as (-> & Hp & Hr). split; [done|].
    exists rest. eexists. split; [done|]. split; [done|]. split; [intros ?; rewrite Hr, app_nil_r; done|].
    by apply shrink_drop.
  - unfold taken. change (filter (hit p) []) with (@nil FutexWaiter). rewrite take_nil. split; [done|]. exists [], w.(futex_queue). 
    unfold drop_if_empty, bucket_is_empty, shrink. rewrite Hb, drop_nil. done.
Qed.

Lemma waiters_shrink queue key tk rest k :
  waiters_at queue key ≡ₚ tk ++ rest → waiters_at (shrink queue key rest) k = if decide (k = key) then rest else waiters_at queue k.
Proof.
  unfold waiters_at, shrink. intros Hp. destruct (queue !! key) as [b|] eqn:Hb.
  - case_decide as Hk; [subst k|]; destruct rest.
    + by rewrite lookup_delete_eq.
    + by rewrite lookup_insert_eq.
    + by rewrite lookup_delete_ne.
    + by rewrite lookup_insert_ne.
  - case_decide as Hk; [subst k; rewrite Hb|done]. apply Permutation_nil in Hp. by apply app_eq_nil in Hp as [_ ->].
Qed.

Lemma shrink_ok (X : Z → Prop) queue ws key tk rest :
  agree_but X queue ws → waiters_at queue key ≡ₚ tk ++ rest →
  agree_but (λ u, X u ∨ u ∈ map w_thread tk) (shrink queue key rest) ws.
Proof.
  intros Hok Hp. pose proof (waiters_shrink queue key tk rest) as Hat. constructor.
  - intros k b. unfold shrink. destruct (queue !! key) as [b0|] eqn:Hb0; [|apply (fx_bucket X _ _ Hok)].
    destruct (fx_bucket X _ _ Hok key b0 Hb0) as (H1 & H2 & H3). unfold waiters_at in Hp. rewrite Hb0 in Hp.
    intros Hb. destruct (decide (k = key)) as [->|Hk].
    + destruct rest as [|x rest]; [by rewrite lookup_delete_eq in Hb|]. rewrite lookup_insert_eq in Hb. injection Hb as <-. cbn [waiters next_waiter_id].
      split; [done|]. split; [rewrite Hp, map_app in H2; by apply NoDup_app in H2 as (_ & _ & ?)|].
      intros y Hy. apply H3. rewrite Hp. apply elem_of_app. by right.
    + apply (fx_bucket X _ _ Hok k). destruct rest; [by rewrite lookup_delete_ne in Hb|by rewrite lookup_insert_ne in Hb].
  - intros k x. rewrite Hat by done. intros Hx.
    assert (x ∈ waiters_at queue k) as Hx0.
    { case_decide as Hk; [|done]. subst k. rewrite Hp. apply elem_of_app. by right. }
    destruct (fx_member X _ _ Hok k x Hx0) as [H1 H2]. split; [done|]. intros [?|(y & Hy & Hin)%list_elem_of_fmap]; [done|].
    destruct (fx_member X _ _ Hok key y) as [H3 _]; [rewrite Hp; apply elem_of_app; by left|].
    rewrite <- Hy, H1 in H3. injection H3 as -> Hid. rewrite decide_True in Hx by done.
    unfold waiters_at in Hp. destruct (queue !! key) as [b|] eqn:Hb; [|apply Permutation_nil in Hp; apply app_eq_nil in Hp as [-> _]; by apply elem_of_nil in Hin].
    destruct (fx_bucket X _ _ Hok key b Hb) as (_ & Hnd & _). rewrite Hp, map_app in Hnd. apply NoDup_app in Hnd as (_ & Hnd & _).
    apply (Hnd y.(w_id)); [by apply list_elem_of_fmap_2|]. rewrite <- Hid. by apply list_elem_of_fmap_2.
  - intros t wid Hw HX. destruct (fx_sleeper X _ _ Hok t wid Hw) as (x & Hx & H1 & H2); [tauto|]. exists x. split; [|done].
    rewrite Hat by done. case_decide as Hk; [|done]. rewrite Hk, Hp in Hx. apply elem_of_app in Hx as [Hx|?]; [|done].
    destruct HX. right. rewrite <- H1. by apply list_elem_of_fmap_2.
  - apply (fx_inj X _ _ Hok).
Qed.

Lemma wake_waiters_ok w key count p : futex_ok w → futex_ok (wake_waiters w key count p).2.
Proof.
  intros Hok. unfold wake_waiters. pose proof (take_futex_waiters_spec w key count p) as H.
  destruct (take_futex_waiters w key count p) as [ts w']. destruct H as (-> & rest & queue' & -> & Hp & _ & ->).
  eapply none_ok; [apply wake_list_futex_ok; exact (shrink_ok _ _ _ _ _ _ Hok Hp)|]. cbn. tauto.
Qed.

Lemma wake_waiters_at X w t k :
  futex_ok_but X w → waiters_at (wake w t).(futex_queue) k = filter (λ x, x.(w_thread) ≠ t) (waiters_at w.(futex_queue) k).
Proof. intros Hok. rewrite wake_futex. by eapply (forget_waiters X). Qed.

(** Waking threads that left the queues changes no queue. *)
Lemma wake_list_waiters_at (X : Z → Prop) w ts k :
  futex_ok_but X w → (∀ t, t ∈ ts → X t ∨ waits w t = None) → waiters_at (wake_list w ts).(futex_queue) k = waiters_at w.(futex_queue) k.
Proof.
  revert X w. induction ts as [|t ts IH]; intros X w Hok HX; [done|]. cbn. rewrite (IH (λ u, X u ∧ u ≠ t)).
  - rewrite (wake_waiters_at X) by done. apply filter_keep. intros x Hx Heq.
    destruct (fx_member X _ _ Hok k x Hx) as [Hm HnX]. rewrite Heq in *. destruct (HX t) as [?|Hnone]; [by left|done|congruence].
  - by apply wake_futex_ok.
  - intros u Hu. rewrite wake_waits. case_decide; [by right|]. destruct (HX u) as [?|?]; [by right|left|right]; done.
Qed.

Lemma bucket_threads X queue ws k : agree_but X queue ws → NoDup (map w_thread (waiters_at queue k)).
Proof.
  intros Hok. assert (NoDup (map w_id (waiters_at queue k))) as Hnd.
  { unfold waiters_at. destruct (queue !! k) as [b|] eqn:Hb; [by apply (fx_bucket X _ _ Hok k b)|constructor]. }
  assert (∀ x, x ∈ waiters_at queue k → ws x.(w_thread) = Some (mkWaitId k x.(w_id))) as Hm by (intros x Hx; by apply (fx_member X _ _ Hok)).
  induction (waiters_at queue k) as [|x l IH]; [constructor|]. cbn in *. apply NoDup_cons in Hnd as [Hx Hnd]. constructor.
  - intros (y & Heq & Hy)%list_elem_of_fmap. apply Hx. pose proof (Hm x (list_elem_of_here _ _)) as H1.
    rewrite Heq, Hm in H1 by (by right). injection H1 as <-. by apply list_elem_of_fmap_2.
  - apply IH; [done|]. intros y Hy. apply Hm. by right.
Qed.

(** ** Lemmas: requeueing *)

Definition move_one (target : FutexKey) (w : World) (m : FutexWaiter) : World :=
  let '(wait_id, queue) := queue_waiter_in_locked_queue w.(futex_queue) target m.(w_thread) m.(w_bitset) in
  map_thread (with_futex_queue w queue) m.(w_thread) (λ th, set_wait_id th wait_id).

(** The two passes of the code are one pass that moves a waiter and tells it so. *)
Lemma queue_moved_fold w queue target moved :
  let '(ids, queue') := queue_moved queue target moved in
  foldl (λ w ti, map_thread w ti.1 (λ th, set_wait_id th ti.2)) (with_futex_queue w queue') ids =
  foldl (move_one target) (with_futex_queue w queue) moved.
Proof.
  revert w queue. induction moved as [|m moved IH]; intros w queue; [done|]. cbn [queue_moved foldl]. unfold move_one at 2. cbn [futex_queue with_futex_queue].
  destruct (queue_waiter_in_locked_queue queue target m.(w_thread) m.(w_bitset)) as [wid q1].
  specialize (IH (map_thread w m.(w_thread) (λ th, set_wait_id th wid)) q1).
  destruct (queue_moved q1 target moved) as [ids q2]. cbn [foldl fst snd]. exact IH.
Qed.

(** The same state up to the entry a futex sleeper waits under. *)
Definition same_sleep (s s' : option State) : Prop :=
  s' = s ∨ ∃ d wid wid', (s = Some (State.Blocking (BlockType.Futex d wid)) ∧ s' = Some (State.Blocking (BlockType.Futex d wid')))
                       ∨ (s = Some (State.Blocked (BlockType.Futex d wid)) ∧ s' = Some (State.Blocked (BlockType.Futex d wid'))).

Lemma same_sleep_trans s1 s2 s3 : same_sleep s1 s2 → same_sleep s2 s3 → same_sleep s1 s3.
Proof.
  intros [->|(d & i & j & H1)]; [done|]. intros [->|(d' & i' & j' & H2)]; [right; eauto|].
  right. exists d, i, j'. destruct H1 as [[-> ->]|[-> ->]], H2 as [[H2 ->]|[H2 ->]]; simplify_eq; auto.
Qed.

(** What the scheduler's invariant reads. *)
Definition same_sched (w w' : World) : Prop :=
  w'.(ready_queues) = w.(ready_queues) ∧ w'.(blocked_queues) = w.(blocked_queues) ∧ w'.(next_ready_cpu) = w.(next_ready_cpu) ∧
  ∀ u, same_sleep (state_of w u) (state_of w' u).

Lemma same_sched_refl w : same_sched w w.
Proof. repeat split. by left. Qed.

Lemma same_sched_trans w1 w2 w3 : same_sched w1 w2 → same_sched w2 w3 → same_sched w1 w3.
Proof.
  intros (H1 & H2 & H3 & H4) (H5 & H6 & H7 & H8). split; [congruence|]. split; [congruence|]. split; [congruence|].
  intros u. by eapply same_sleep_trans.
Qed.

Lemma same_sched_ok X w w' : sched_ok_but X w → same_sched w w' → sched_ok_but X w'.
Proof.
  intros Hok (Hr & Hb & Hc & Hs). unfold in_ready, in_queue in *.
  assert (∀ u s, (∀ d wid, s ≠ State.Blocking (BlockType.Futex d wid) ∧ s ≠ State.Blocked (BlockType.Futex d wid)) →
    state_of w u = Some s ↔ state_of w' u = Some s) as Hsame.
  { intros u s Hns. destruct (Hs u) as [->|(d & i & j & [[H1 H2]|[H1 H2]])]; [done|rewrite H1, H2..];
      (split; intros [= <-]; [by destruct (Hns d i)|by destruct (Hns d j)]). }
  constructor; rewrite ?Hr, ?Hb, ?Hc; try (by destruct Hok).
  - intros t Ht. unfold in_ready in Ht. rewrite Hr in Ht. rewrite <- !Hsame by done. by apply (ok_ready_state X w Hok).
  - intros t. rewrite <- Hsame by done. unfold in_ready. rewrite Hr. apply (ok_ready_queued X w Hok).
  - intros k t Ht. unfold in_queue in Ht. rewrite Hb in Ht. destruct (ok_queue_state X w Hok k t Ht) as [H|(s & wt & d & H1 & H2 & H3)].
    + left. by apply Hsame.
    + right. exists s, wt, d. split; [|done]. apply Hsame; [|done]. intros d' wid. split; intros ->; done.
  - intros t s b Hts Hbo HX. unfold findable, in_queue. rewrite Hb. destruct (Hs t) as [Heq|(d & i & j & H)].
    + rewrite Heq in Hts. by apply (ok_sleepers X w Hok t s b).
    + assert (∃ s0, state_of w t = Some s0 ∧ blocked_on s0 = Some (BlockType.Futex d i) ∧ b = BlockType.Futex d j) as (s0 & H1 & H2 & ->).
      { destruct H as [[H1 H2]|[H1 H2]]; rewrite H2 in Hts; injection Hts as <-; cbn in Hbo; injection Hbo as <-; eauto. }
      destruct (ok_sleepers X w Hok t s0 _ H1 H2 HX) as [_ Hd]. split; [done|exact Hd].
Qed.

Lemma move_one_spec X target w m :
  let n := next_at w.(futex_queue) target in
  futex_ok_but X w → X m.(w_thread) → waits w m.(w_thread) ≠ None →
  (∀ u wid, X u → waits w u = Some wid → wid.(wait_key) ≠ target) → n < U64_MAX →
  let w' := move_one target w m in
  futex_ok_but (λ u, X u ∧ u ≠ m.(w_thread)) w' ∧
  (∀ k, waiters_at w'.(futex_queue) k =
    if decide (k = target) then waiters_at w.(futex_queue) k ++ [mkWaiter n m.(w_thread) m.(w_bitset)] else waiters_at w.(futex_queue) k) ∧
  next_at w'.(futex_queue) target = n + 1 ∧
  (∀ u, waits w' u = if decide (u = m.(w_thread)) then Some (mkWaitId target n) else waits w u) ∧
  same_sched w w'.
Proof.
  intros n Hok HX Hw Hkeys Hn w'. subst w'. unfold move_one.
  pose proof (queue_waiter_spec w.(futex_queue) target m.(w_thread) m.(w_bitset)) as Hq.
  destruct (queue_waiter_in_locked_queue _ _ _ _) as [wid queue'] eqn:Hcall. destruct Hq as [-> Hq']. fold n in Hq', Hcall |- *.
  set (w' := map_thread (with_futex_queue w queue') _ _).
  assert (∃ s, state_of w m.(w_thread) = Some s ∧ futex_wait s ≠ None) as (s & Hs & Hfs).
  { unfold waits in Hw. destruct (state_of w (w_thread m)) as [s|]; [by exists s|done]. }
  assert (∀ u, waits w' u = if decide (u = m.(w_thread)) then Some (mkWaitId target n) else waits w u) as Hwaits.
  { intros u. unfold waits. subst w'. rewrite state_of_map. case_decide; [|done]. subst u. unfold state_of in Hs. cbn.
    destruct (threads w !! w_thread m) as [th|]; [|done]. cbn in *. injection Hs as <-. unfold set_wait_id.
    destruct th.(state) as [| |[]| |[]| |]; done. }
  split; [|split; [|split; [|split; [exact Hwaits|]]]].
  - pose proof (enter_ok X w.(futex_queue) (waits w) (waits w') m.(w_thread) target m.(w_bitset) Hok) as He.
    rewrite Hcall in He. apply He; [|by right|done|exact Hwaits]. split; [by eapply next_nonneg|done].
  - intros k. cbn. subst queue'. unfold waiters_at at 1. case_decide as Hk; [subst k; by rewrite lookup_insert_eq|by rewrite lookup_insert_ne].
  - cbn. subst queue'. unfold next_at at 1. rewrite lookup_insert_eq. cbn. fold n.
    assert (0 ≤ n) by (by eapply next_nonneg). unfold sat_add. change (2 ^ 64 - 1) with U64_MAX. lia.
  - split; [done|]. split; [done|]. split; [done|]. intros u. subst w'. rewrite state_of_map. case_decide; [|by left]. subst u.
    unfold state_of in *. cbn. destruct (threads w !! w_thread m) as [th|]; [|by left]. cbn in *. injection Hs as <-. right.
    unfold set_wait_id. destruct th.(state) as [| |[]| |[]| |]; try done; eauto 10.
Qed.

(** A waiter without the number it waits under. *)
Definition who (x : FutexWaiter) : Z * Z := (x.(w_thread), x.(w_bitset)).

Lemma move_list_spec X target w moved :
  futex_ok_but X w → NoDup (map w_thread moved) → (∀ m, m ∈ moved → X m.(w_thread) ∧ waits w m.(w_thread) ≠ None) →
  (∀ u wid, X u → waits w u = Some wid → wid.(wait_key) ≠ target) → next_at w.(futex_queue) target + zlen moved ≤ U64_MAX →
  let w' := foldl (move_one target) w moved in
  futex_ok_but (λ u, X u ∧ u ∉ map w_thread moved) w' ∧
  map who (waiters_at w'.(futex_queue) target) = map who (waiters_at w.(futex_queue) target) ++ map who moved ∧
  (∀ k, k ≠ target → waiters_at w'.(futex_queue) k = waiters_at w.(futex_queue) k) ∧
  same_sched w w'.
Proof.
  revert X w. induction moved as [|m moved IH]; intros X w Hok Hnd HX Hkeys Hn.
  { cbn. rewrite app_nil_r. split; [eapply none_ok; [exact Hok|]; intros u; set_solver|]. split; [done|]. split; [done|]. apply same_sched_refl. }
  rewrite zlen_cons in Hn. pose proof (zlen_nonneg moved). cbn [map] in Hnd. apply NoDup_cons in Hnd as [Hm Hnd].
  destruct (HX m) as [HXm Hwm]; [by left|].
  destruct (move_one_spec X target w m Hok HXm Hwm Hkeys) as (Hok1 & Hat & Hnext & Hw1 & Hs1); [lia|].
  set (w1 := move_one target w m) in *.
  destruct (IH _ w1 Hok1 Hnd) as (Hok2 & Ht & Hk & Hs2).
  - intros x Hx. destruct (HX x) as [? ?]; [by right|]. assert (x.(w_thread) ≠ m.(w_thread)) as Hne.
    { intros Heq. apply Hm. rewrite <- Heq. by apply list_elem_of_fmap_2. }
    rewrite Hw1, decide_False by done. done.
  - intros u wid [HXu Hu]. rewrite Hw1, decide_False by done. by apply Hkeys.
  - lia.
  - cbn [foldl map]. fold w1. split; [|split; [|split]].
    + eapply none_ok; [exact Hok2|]. intros u. cbn. rewrite not_elem_of_cons. tauto.
    + rewrite Ht, Hat, decide_True by done. rewrite map_app, <- app_assoc. done.
    + intros k Hne. rewrite Hk, Hat, decide_False by done. done.
    + by eapply same_sched_trans.
Qed.

Lemma pop_waiters_take count ws :
  pop_waiters count ws = (take (Z.to_nat count) ws, drop (Z.to_nat count) ws).
Proof.
  unfold pop_waiters, zlen. destruct (decide (count ≤ Z.of_nat (length ws))); [by rewrite Z.min_l|].
  rewrite Z.min_r by lia. rewrite Nat2Z.id. rewrite !take_ge, !drop_ge by lia. done.
Qed.

(** A requeue between different words, up to the wake-ups. *)
Lemma requeue_spec w source target n m :
  let ws := waiters_at w.(futex_queue) source in
  let moved := take (Z.to_nat m) (drop (Z.to_nat n) ws) in
  futex_ok w → source ≠ target → next_at w.(futex_queue) target + zlen ws ≤ U64_MAX →
  let '(woken, w') := requeue_waiters w source target n m in
  woken = map w_thread (take (Z.to_nat n) ws) ∧
  futex_ok_but (λ u, u ∈ woken) w' ∧
  waiters_at w'.(futex_queue) source = drop (Z.to_nat m) (drop (Z.to_nat n) ws) ∧
  map who (waiters_at w'.(futex_queue) target) = map who (waiters_at w.(futex_queue) target) ++ map who moved ∧
  (∀ k, k ≠ source → k ≠ target → waiters_at w'.(futex_queue) k = waiters_at w.(futex_queue) k) ∧
  same_sched w w'.
Proof.
  intros ws moved Hok Hne Hn. unfold requeue_waiters.
  set (rest := drop (Z.to_nat m) (drop (Z.to_nat n) ws)). set (woken := take (Z.to_nat n) ws).
  assert (ws ≡ₚ (woken ++ moved) ++ rest) as Hp.
  { rewrite <- app_assoc. subst moved rest woken. rewrite take_drop. by rewrite take_drop. }
  set (w1 := with_futex_queue w (shrink w.(futex_queue) source rest)).
  pose proof (queue_moved_fold w (shrink w.(futex_queue) source rest) target moved) as Hfold.
  assert (futex_ok_but (λ u, u ∈ map w_thread (woken ++ moved)) w1) as Hok1.
  { eapply none_ok; [exact (shrink_ok _ _ _ _ _ _ Hok Hp)|]. cbn. tauto. }
  assert (∀ x, x ∈ woken ++ moved → waits w1 x.(w_thread) = Some (mkWaitId source x.(w_id))) as Hkey.
  { intros x Hx. apply (fx_member _ _ _ Hok source x). fold ws. rewrite Hp. apply elem_of_app. by left. }
  assert (NoDup (map w_thread (woken ++ moved))) as Hnd.
  { pose proof (bucket_threads _ _ _ source Hok) as H1. fold ws in H1. rewrite Hp, map_app in H1. by apply NoDup_app in H1 as (? & _ & _). }
  pose proof (waiters_shrink w.(futex_queue) source (woken ++ moved) rest) as Hat. fold ws in Hat.
  destruct (move_list_spec _ target w1 moved Hok1) as (Hok2 & Ht & Hk & Hs).
  - rewrite map_app in Hnd. by apply NoDup_app in Hnd as (_ & _ & ?).
  - intros x Hx. split; [apply list_elem_of_fmap_2, elem_of_app; by right|]. rewrite Hkey; [done|]. apply elem_of_app; by right.
  - intros u wid (x & -> & Hx)%list_elem_of_fmap. rewrite Hkey by done. intros [= <-]. done.
  - cbn. assert (next_at (shrink w.(futex_queue) source rest) target = next_at w.(futex_queue) target) as ->.
    { unfold next_at, shrink. destruct (futex_queue w !! source); [|done]. destruct rest; [by rewrite lookup_delete_ne|by rewrite lookup_insert_ne]. }
    subst moved. unfold zlen in *. rewrite length_take, length_drop. lia.
  - assert ((match w.(futex_queue) !! source with
             | None => ([], [], w.(futex_queue))
             | Some b =>
                 let '(woken, ws) := pop_waiters n b.(waiters) in
                 let '(moved, ws) := pop_waiters m ws in
                 (map w_thread woken, moved, <[source := mkBucket b.(next_waiter_id) ws]> w.(futex_queue))
             end : list Z * list FutexWaiter * gmap FutexKey FutexBucket) =
            (map w_thread woken, moved, match w.(futex_queue) !! source with
                                        | None => w.(futex_queue)
                                        | Some b => <[source := mkBucket b.(next_waiter_id) rest]> w.(futex_queue)
                                        end)) as ->.
    { subst rest moved woken ws. unfold waiters_at. destruct (futex_queue w !! source) as [b|]; [|by rewrite drop_nil, !take_nil].
      by rewrite !pop_waiters_take. }
    assert (drop_if_empty (match w.(futex_queue) !! source with
                           | None => w.(futex_queue)
                           | Some b => <[source := mkBucket b.(next_waiter_id) rest]> w.(futex_queue)
                           end) source = shrink w.(futex_queue) source rest) as ->.
    { destruct (futex_queue w !! source) as [b|] eqn:Hb; [by apply shrink_drop|]. unfold drop_if_empty, bucket_is_empty, shrink. by rewrite Hb. }
    destruct (queue_moved (shrink w.(futex_queue) source rest) target moved) as [ids q']. rewrite Hfold. fold w1.
    split; [done|]. split; [|split; [|split; [|split]]].
    + eapply none_ok; [exact Hok2|]. intros u. cbn. rewrite map_app in Hnd |- *. apply NoDup_app in Hnd as (_ & Hnd & _).
      rewrite elem_of_app. split; [tauto|]. intros Hu. split; [by left|]. by apply Hnd.
    + rewrite Hk, Hat, decide_True by done. done.
    + rewrite Ht, Hat, decide_False by done. done.
    + intros k H1 H2. rewrite Hk, Hat, decide_False by done. done.
    + exact Hs.
Qed.

(** ** Both invariants *)

Definition threads_ok (w : World) : Prop := sched_ok w ∧ futex_ok w.

Lemma threads_ok_same w w' :
  threads_ok w → same_sched w w' → w'.(futex_queue) = w.(futex_queue) → (∀ u, waits w' u = waits w u) → threads_ok w'.
Proof. intros [H1 H2] Hs Hq Hw. split; [by eapply same_sched_ok|by eapply quiet_ok]. Qed.

(** An update of a part that neither invariant reads. *)
Ltac same_threads :=
  match goal with
  | H : threads_ok _ |- threads_ok _ =>
      apply (threads_ok_same _ _ H); [split; [done|split; [done|split; [done|intros ?; by left]]]|done|done]
  end.

Lemma threads_ok_map w t f : threads_ok w → (∀ th, (f th).(state) = th.(state)) → threads_ok (map_thread w t f).
Proof.
  intros Hok Hf. assert (∀ u, state_of (map_thread w t f) u = state_of w u) as Hs.
  { intros u. rewrite state_of_map. case_decide; [|done]. subst u. unfold state_of. destruct (threads w !! t); [|done]. cbn. by rewrite Hf. }
  apply (threads_ok_same w); [done| |done|]; [|intros u; unfold waits; by rewrite Hs].
  split; [done|]. split; [done|]. split; [done|]. intros u. left. apply Hs.
Qed.

Lemma threads_ok_wake w t : threads_ok w → threads_ok (wake w t).
Proof.
  intros [H1 H2]. split; [apply (sched_ok_weaken (λ u, False ∧ u ≠ t)); [tauto|by apply wake_ok]|].
  eapply none_ok; [by apply wake_futex_ok|]. tauto.
Qed.

Lemma threads_ok_wake_list w ts : threads_ok w → threads_ok (wake_list w ts).
Proof. revert w. induction ts as [|t ts IH]; intros w Hok; [done|]. by apply IH, threads_ok_wake. Qed.

Lemma threads_ok_wake_io w : threads_ok w → threads_ok (wake_io w).
Proof. intros [H1 H2]. split; [by apply wake_queue_spec|by apply wake_queue_loop_futex]. Qed.

Lemma threads_ok_matching w k p : threads_ok w → threads_ok (wake_matching w k p).
Proof. intros [H1 H2]. split; [by apply wake_matching_spec|by apply wake_matching_futex]. Qed.

Lemma threads_ok_wake_waiters w key count p : threads_ok w → threads_ok (wake_waiters w key count p).2.
Proof.
  intros [H1 H2]. split; [|by apply wake_waiters_ok].
  unfold wake_waiters. pose proof (take_futex_waiters_spec w key count p) as H.
  destruct (take_futex_waiters w key count p) as [ts w']. destruct H as (_ & rest & queue' & -> & _). cbn.
  apply (sched_ok_weaken (λ u, False ∧ u ∉ ts)); [tauto|]. apply wake_list_ok.
  eapply same_sched_ok; [exact H1|]. repeat split. by left.
Qed.

(** A running thread that enters the queue of a futex and announces its sleep. *)
Lemma threads_ok_enter w t key bitset deadline :
  threads_ok w → state_of w t = Some State.Running → next_at w.(futex_queue) key < U64_MAX →
  let '(wid, queue) := queue_waiter_in_locked_queue w.(futex_queue) key t bitset in
  threads_ok (block (with_futex_queue w queue) t (BlockType.Futex deadline wid)).
Proof.
  intros [H1 H2] Ht Hn. pose proof (queue_waiter_spec w.(futex_queue) key t bitset) as Hq.
  pose proof (enter_ok (λ _, False) w.(futex_queue) (waits w)) as He.
  destruct (queue_waiter_in_locked_queue w.(futex_queue) key t bitset) as [wid queue] eqn:Hcall. destruct Hq as [-> _]. split.
  - apply block_ok; [|done]. eapply same_sched_ok; [exact H1|]. repeat split. by left.
  - unfold futex_ok. eapply agree_ext; [|intros u; exact eq_refl|]; [|intros u; apply iff_refl].
    specialize (He (waits (block (with_futex_queue w queue) t (BlockType.Futex deadline (mkWaitId key (next_at w.(futex_queue) key))))) t key bitset H2).
    rewrite Hcall in He. eapply agree_ext; [apply He| |].
    + split; [by eapply next_nonneg|done].
    + left. by apply running_waits.
    + intros u wid [].
    + intros u. change (waits (block ?w' t ?b) u) with (waits (set_state w' t (State.Blocking b)) u). rewrite set_state_waits.
      change (state_of (with_futex_queue w queue) t) with (state_of w t). by rewrite Ht.
    + done.
    + tauto.
Qed.

(** *** The exits *)

Lemma threads_ok_flush w : threads_ok w → threads_ok (flush_pending_thread_exits w).
Proof.
  intros Hok. unfold flush_pending_thread_exits. assert (threads_ok (with_pending_thread_exits w [])) as Hok0 by same_threads.
  revert Hok0. generalize (with_pending_thread_exits w []). induction (pending_thread_exits w) as [|[p a] l IH]; intros w1 Hok1; [done|].
  cbn. apply IH. apply threads_ok_wake_waiters. same_threads.
Qed.

Lemma threads_ok_reap current w t : threads_ok w → threads_ok (reap_zombie current w t).2.
Proof.
  intros Hok. unfold reap_zombie. destruct (_ ≫= parent) as [p|]; cbn [snd]; [|same_threads].
  assert (threads_ok (if bool_decide (current = Some t) then w else map_thread w t (λ th, with_parent th None))) as Hok1.
  { case_bool_decide; [done|]. by apply threads_ok_map. }
  revert Hok1. generalize (if bool_decide (current = Some t) then w else map_thread w t (λ th, with_parent th None)).
  clear w Hok. intros w Hok. same_threads.
Qed.

Lemma threads_ok_reap_all current ts w : threads_ok w → threads_ok (reap_zombies current w ts).2.
Proof.
  revert w. induction ts as [|t ts IH]; intros w Hok; [done|]. cbn. pose proof (threads_ok_reap current w t Hok) as H1.
  destruct (reap_zombie current w t) as [d w1]. specialize (IH w1 H1). by destruct (reap_zombies current w1 ts).
Qed.

Lemma threads_ok_repeat n w : threads_ok w → threads_ok (repeat_wake_io n w).
Proof. revert w. induction n as [|n IH]; intros w Hok; [done|]. by apply IH, threads_ok_wake_io. Qed.

Lemma threads_ok_dirty w b : threads_ok w → threads_ok (mark_pollers_dirty w b).
Proof. intros [[] H2]. split; [by constructor|exact H2]. Qed.

Lemma threads_ok_parent sw w pr q : threads_ok w →
  threads_ok (let w := map_process w q (λ pq, with_p_pending_signals pq (insert_bits pq.(p_pending_signals) (mask pr.(child_exit_signal)))) in
     let ts := match w.(processes) !! q with Some pq => pq.(p_threads) | None => [] end in
     let w := repeat_wake_io (sw q) w in
     foldl (λ w t, match state_of w t with Some s => if sleeps_not_stopped s then wake w t else w | None => w end) w ts).
Proof.
  intros Hok. cbn zeta. set (w1 := map_process _ _ _). set (ts := match processes w1 !! q with Some _ => _ | None => _ end).
  assert (threads_ok (repeat_wake_io (sw q) w1)) as Hok1 by (apply threads_ok_repeat; subst w1; same_threads).
  clearbody ts. revert Hok1. generalize (repeat_wake_io (sw q) w1). clear. induction ts as [|t ts IH]; intros v Hok; [done|]. cbn. apply IH.
  destruct (state_of v t) as [s|]; [|done]. destruct (sleeps_not_stopped s); [|done]. by apply threads_ok_wake.
Qed.

Lemma threads_ok_announce sw pw pp w p : threads_ok w → threads_ok (announce_death sw pw pp w p).
Proof.
  intros Hok. unfold announce_death, wake_pidfd.
  assert (∀ v, threads_ok v → threads_ok (match pp p with [] => v | ps => wake_affected_pollers (mark_pollers_dirty v true) ps end)) as Hp.
  { intros v Hv. destruct (pp p); [done|]. by apply threads_ok_matching, threads_ok_dirty. }
  apply Hp, threads_ok_repeat, threads_ok_matching.
  destruct (processes w !! p) as [pr|]; [|done]. destruct (p_parent pr) as [q|]; [|done].
  by apply threads_ok_parent.
Qed.

Lemma threads_ok_zombies w l : threads_ok w → threads_ok (with_zombies w l).
Proof. intros Hok. same_threads. Qed.

Lemma threads_ok_cleanup sw pw pp current w : threads_ok w → threads_ok (cleanup_exited_threads sw pw pp current w).2.
Proof.
  intros Hok. unfold cleanup_exited_threads. apply threads_ok_flush in Hok. revert Hok. generalize (flush_pending_thread_exits w).
  clear w. intros w Hok. assert (threads_ok (with_zombies w [])) as Hok0 by same_threads.
  apply (threads_ok_reap_all current w.(zombies)) in Hok0. destruct (reap_zombies _ _ _) as [l w1]. cbn in *. clear Hok.
  revert w1 Hok0. induction l as [|p l IH]; intros w1 Hok; [done|]. cbn. by apply IH, threads_ok_announce.
Qed.

(** ** Reachable worlds *)

Section steps.
Context {M : Type} `{um_word : UserMemory M Z} `{um_time : UserMemory M LinuxTimespec}.

(** Fewer than 2^64 waits ever happened on one word. *)
Definition room (w : World) : Prop :=
  ∀ k k', next_at w.(futex_queue) k + zlen (waiters_at w.(futex_queue) k') < U64_MAX.

(** The steps of the scheduler that leave futex sleepers in their queue, and the futex
    operations of threads that run; a requeue goes to another word, and a lock is released
    without an error. *)
Inductive futex_step (w : World) : World → Prop :=
  | futex_sched w' : sched_step w w' → plain w w' → futex_step w w'
  | futex_announce t key_of (m : M) addr value deadline bitset r m' w' :
      state_of w t = Some State.Running → room w →
      futex_wait_announce t key_of w m addr value deadline bitset = (r, m', w') → futex_step w w'
  | futex_resume t deadline : futex_step w (futex_wait_resume t w deadline).2
  | futex_wake key_of (m : M) addr count wake_mask r m' w' :
      futex_wake_impl key_of w m addr count wake_mask = (r, m', w') → futex_step w w'
  | futex_wake_op key_of (m : M) addr n1 n2 addr2 op r m' w' :
      futex_wake_op_impl key_of w m addr n1 n2 addr2 op = (r, m', w') → futex_step w w'
  | futex_requeue key_of (m : M) addr n1 n2 addr2 compare r m' w' :
      key_of addr ≠ key_of addr2 → room w →
      futex_requeue_impl key_of w m addr n1 n2 addr2 compare = (r, m', w') → futex_step w w'
  | futex_lock t key tid (m : M) addr deadline m' w' :
      state_of w t = Some State.Running → room w →
      futex_lock_pi_try t key tid addr deadline (w, m) = Sleep (w', m') → futex_step w w'
  | futex_unlock t key_of (m : M) addr v m' w' :
      futex_unlock_pi_impl t key_of w m addr = (Ok v, m', w') → futex_step w w'
  | futex_cleanup sw pw pp current : futex_step w (cleanup_exited_threads sw pw pp current w).2.

Inductive futex_reachable : World → Prop :=
  | futex_init n : futex_reachable (world_init n)
  | futex_next w w' : futex_reachable w → futex_step w w' → futex_reachable w'.

Lemma threads_ok_init n : threads_ok (world_init n).
Proof.
  split; [apply init_ok|]. unfold futex_ok.
  assert ((world_init n).(futex_queue) = ∅) as ->.
  { unfold world_init, resize_ready_queues. by repeat case_match. }
  assert (∀ t, waits (world_init n) t = None) as Hw.
  { intros t. apply absent_waits. unfold world_init, resize_ready_queues. repeat case_match; apply lookup_empty. }
  constructor.
  - intros k b. by rewrite lookup_empty.
  - intros k x. unfold waiters_at. rewrite lookup_empty. by intros ?%elem_of_nil.
  - intros t wid. by rewrite Hw.
  - intros t u wid. by rewrite Hw.
Qed.

Lemma room_next w k : room w → next_at w.(futex_queue) k < U64_MAX.
Proof. intros Hr. specialize (Hr k k). pose proof (zlen_nonneg (waiters_at w.(futex_queue) k)). lia. Qed.

Lemma set_interruptible_ok t w b : threads_ok w → threads_ok (set_interruptible t w b).
Proof. intros Hok. by apply threads_ok_map. Qed.

Lemma set_interruptible_state t w b u : state_of (set_interruptible t w b) u = state_of w u.
Proof.
  unfold set_interruptible. rewrite state_of_map. case_decide; [|done]. subst u. unfold state_of. by destruct (threads w !! t).
Qed.

Lemma futex_announce_ok t key_of w (m : M) addr value deadline bitset :
  threads_ok w → state_of w t = Some State.Running → room w →
  threads_ok (futex_wait_announce t key_of w m addr value deadline bitset).2.
Proof.
  intros Hok Ht Hr. unfold futex_wait_announce. destruct (key_of addr) as [key|e]; [|done].
  destruct (user_read (T := Z) m addr) as [[v|e] m']; [|by apply set_interruptible_ok].
  case_match; [by apply set_interruptible_ok|]. case_match; [by apply set_interruptible_ok|].
  pose proof (threads_ok_enter (set_interruptible t w true) t key bitset deadline) as He. cbn [futex_queue set_interruptible map_thread with_threads] in He.
  destruct (queue_waiter_in_locked_queue w.(futex_queue) key t bitset) as [wid queue].
  apply He; [by apply set_interruptible_ok|by rewrite set_interruptible_state|by apply room_next].
Qed.

Lemma futex_requeue_ok key_of w (m : M) addr n1 n2 addr2 compare :
  threads_ok w → key_of addr ≠ key_of addr2 → room w →
  threads_ok (futex_requeue_impl key_of w m addr n1 n2 addr2 compare).2.
Proof.
  intros [H1 H2] Hne Hr. unfold futex_requeue_impl. set (c := match compare with None => _ | Some _ => _ end).
  destruct c as [u m']. destruct u as [[]|e]; [|done]. cbn. destruct (key_of addr) as [source|e]; [|done]. cbn.
  destruct (key_of addr2) as [target|e]; [|done]. cbn.
  pose proof (requeue_spec w source target n1 n2 H2) as Hs. destruct (requeue_waiters w source target n1 n2) as [woken w'].
  destruct Hs as (_ & Hok' & _ & _ & _ & Hsame); [congruence|specialize (Hr target source); lia|]. cbn. split.
  - apply (sched_ok_weaken (λ u, False ∧ u ∉ woken)); [tauto|]. apply wake_list_ok. by eapply same_sched_ok.
  - eapply none_ok; [exact (wake_list_futex_ok woken _ w' Hok')|]. cbn. tauto.
Qed.

Lemma futex_unlock_ok t key_of w (m : M) addr v m' w' :
  threads_ok w → futex_unlock_pi_impl t key_of w m addr = (Ok v, m', w') → threads_ok w'.
Proof.
  intros [H1 H2]. unfold futex_unlock_pi_impl. destruct (user_read (T := Z) m addr) as [r m1].
  destruct (_ : result SyscallError FutexKey) as [key|e]; [|done].
  assert (∀ b x ws, w.(futex_queue) !! key = Some b → b.(waiters) = x :: ws →
    threads_ok (wake (with_futex_queue w (shrink w.(futex_queue) key ws)) x.(w_thread))) as Hwake.
  { intros b x ws Hb Hw. assert (waiters_at w.(futex_queue) key ≡ₚ [x] ++ ws) as Hp by (unfold waiters_at; by rewrite Hb, Hw).
    split.
    - apply (sched_ok_weaken (λ u, False ∧ u ≠ w_thread x)); [tauto|]. apply wake_ok.
      eapply same_sched_ok; [exact H1|]. repeat split. by left.
    - eapply none_ok; [apply wake_futex_ok; exact (shrink_ok _ _ _ _ _ _ H2 Hp)|]. cbn. intros u. rewrite list_elem_of_singleton. tauto. }
  assert (∀ q, q = drop_if_empty w.(futex_queue) key → (∀ x ws b, w.(futex_queue) !! key = Some b → b.(waiters) ≠ x :: ws) →
    threads_ok (with_futex_queue w q)) as Hnone.
  { intros q -> Hno. assert (drop_if_empty w.(futex_queue) key = w.(futex_queue)) as ->; [|split; [destruct H1; by constructor|exact H2]].
    unfold drop_if_empty, bucket_is_empty. destruct (w.(futex_queue) !! key) as [b|] eqn:Hb; [|done].
    destruct (fx_bucket _ _ _ H2 key b Hb) as (Hne & _). destruct (waiters b) as [|x ws] eqn:Hws; [done|]. by destruct (Hno x ws b). }
  destruct (w.(futex_queue) !! key) as [b|] eqn:Hb; [destruct (waiters b) as [|x ws] eqn:Hws|].
  - destruct (user_write m1 addr 0) as [r1 m2]. destruct r1; cbn; [|done]. intros [= _ _ <-]. apply Hnone; [done|]. intros x ws b' [= <-]. by rewrite Hws.
  - rewrite (shrink_drop _ _ _ _ Hb). case_match; [done|]. destruct (user_write _ _ _) as [[u|e] m2]; [|done]. intros [= _ _ <-].
    by apply (Hwake b).
  - destruct (user_write m1 addr 0) as [r1 m2]. destruct r1; cbn; [|done]. intros [= _ _ <-]. by apply Hnone.
Qed.

Lemma futex_lock_ok t key tid w (m : M) addr deadline m' w' :
  threads_ok w → state_of w t = Some State.Running → room w →
  futex_lock_pi_try t key tid addr deadline (w, m) = Sleep (w', m') → threads_ok w'.
Proof.
  intros Hok Ht Hr. unfold futex_lock_pi_try. destruct (user_read (T := Z) m addr) as [[v|e] m1]; [|done].
  case_match; [done|]. case_match; [destruct (user_write _ _ _); done|]. case_match; [done|].
  set (c := if Z.land v FUTEX_WAITERS =? 0 then _ else _). destruct c as [[u|e] m2]; [|done].
  pose proof (threads_ok_enter w t key FUTEX_BITSET_MATCH_ANY deadline Hok Ht (room_next w key Hr)) as He.
  destruct (queue_waiter_in_locked_queue _ _ _ _) as [wid queue]. intros [= <- _]. destruct He as [Hs Hf].
  split; [by apply finish_ok|by apply finish_futex_ok].
Qed.

Lemma futex_step_ok w w' : threads_ok w → futex_step w w' → threads_ok w'.
Proof.
  intros Hok Hstep. destruct Hstep as
    [w' Hs Hp|t key_of m addr value deadline bitset r m' w' Ht Hr Hc|t deadline|key_of m addr count p r m' w' Hc|
     key_of m addr n1 n2 addr2 op r m' w' Hc|key_of m addr n1 n2 addr2 compare r m' w' Hne Hr Hc|
     t key tid m addr deadline m' w' Ht Hr Hc|t key_of m addr v m' w' Hc|sw pw pp current].
  - destruct Hok as [H1 H2]. split; [by eapply sched_step_ok|by eapply sched_step_futex_ok].
  - pose proof (futex_announce_ok t key_of w m addr value deadline bitset Hok Ht Hr) as H1. by rewrite Hc in H1.
  - unfold futex_wait_resume. cbn. assert (threads_ok (set_interruptible t (map_thread w t (λ th, with_interrupted_by_signal th false)) false)) as H1
      by (apply set_interruptible_ok, threads_ok_map; done). by repeat case_match.
  - unfold futex_wake_impl in Hc. destruct (user_read (T := Z) m addr) as [[v|e] m1]; [|by injection Hc as _ _ <-].
    destruct (key_of addr) as [key|e]; [|by injection Hc as _ _ <-].
    pose proof (threads_ok_wake_waiters w key count p Hok) as H1. destruct (wake_waiters w key count p). by injection Hc as _ _ <-.
  - unfold futex_wake_op_impl in Hc. destruct (user_read (T := Z) m addr2) as [old m1].
    destruct (_ : result SyscallError (Z * bool)) as [[new second]|e]; [|by injection Hc as _ _ <-].
    destruct (user_write m1 addr2 new) as [r1 m2]. destruct (_ : result SyscallError (FutexKey * FutexKey)) as [[k1 k2]|e]; [|by injection Hc as _ _ <-].
    pose proof (threads_ok_wake_waiters w k1 n1 None Hok) as H1. destruct (wake_waiters w k1 n1 None) as [c1 w1].
    pose proof (threads_ok_wake_waiters w1 k2 n2 None H1) as H2'. destruct (wake_waiters w1 k2 n2 None) as [c2 w2].
    destruct second; by injection Hc as _ _ <-.
  - pose proof (futex_requeue_ok key_of w m addr n1 n2 addr2 compare Hok Hne Hr) as H1. by rewrite Hc in H1.
  - by eapply futex_lock_ok.
  - by eapply futex_unlock_ok.
  - by apply threads_ok_cleanup.
Qed.

Lemma futex_reachable_ok w : futex_reachable w → threads_ok w.
Proof. induction 1; [apply threads_ok_init|by eapply futex_step_ok]. Qed.

(** ** Properties *)

(** C16. After any steps of [futex_step] the futex queues and the sleepers agree: no bucket is
    empty, the waiters of a bucket have different numbers, all below the next one; each
    waiter is a thread that sleeps, or is about to, under exactly that word and number; and
    each such thread is in exactly that queue, once, so a wake can find it. The steps leave
    out three things that break the agreement in the code: a signal that stops a futex
    waiter ([stopped_waiter_takes_wake]), a requeue onto the same word
    ([requeue_same_word_loses_waiter]), and an unlock that fails after it took the waiter. *)
Theorem futex_waiters_agree w :
  futex_reachable w →
  sched_ok w ∧
  (∀ k b, w.(futex_queue) !! k = Some b →
    b.(waiters) ≠ [] ∧ NoDup (map w_id b.(waiters)) ∧ NoDup (map w_thread b.(waiters)) ∧
    ∀ x, x ∈ b.(waiters) → 0 ≤ x.(w_id) < b.(next_waiter_id)) ∧
  (∀ k x, x ∈ waiters_at w.(futex_queue) k → waits w x.(w_thread) = Some (mkWaitId k x.(w_id))) ∧
  (∀ t wid, waits w t = Some wid →
    ∃ x, x ∈ waiters_at w.(futex_queue) wid.(wait_key) ∧ x.(w_thread) = t ∧ x.(w_id) = wid.(waiter_id)).
Proof.
  intros [Hs Hf]%futex_reachable_ok. split; [done|]. split; [|split].
  - intros k b Hb. destruct (fx_bucket _ _ _ Hf k b Hb) as (H1 & H2 & H3). split; [done|]. split; [done|]. split; [|done].
    pose proof (bucket_threads _ _ _ k Hf) as Hnd. unfold waiters_at in Hnd. by rewrite Hb in Hnd.
  - intros k x Hx. by apply (fx_member _ _ _ Hf).
  - intros t wid Hw. apply (fx_sleeper _ _ _ Hf t wid Hw). tauto.
Qed.

(** A wake of [count] takes the longest waiting threads, of those whose bits meet the
    mask when there is one: it reports how many it took, each of them becomes runnable or
    goes on without sleeping, no other thread changes, and every other waiter stays in its
    queue (without a mask, in its place). *)
Lemma futex_wake_takes_first key_of w (m m' : M) addr count wake_mask (v : Z) key :
  threads_ok w → user_read m addr = (Ok v, m') → key_of addr = Ok key →
  let ws := waiters_at w.(futex_queue) key in
  let first := take (Z.to_nat count) (filter (hit wake_mask) ws) in
  ∃ w', futex_wake_impl key_of w m addr count wake_mask = (Ok (zlen first), m', w') ∧
    (∀ t, t ∈ map w_thread first →
      (∃ b, state_of w t = Some (State.Blocked b) ∧ runnable w' t) ∨
      (∃ b, state_of w t = Some (State.Blocking b) ∧ state_of w' t = Some State.Woken)) ∧
    (∀ t, t ∉ map w_thread first → state_of w' t = state_of w t) ∧
    ws ≡ₚ first ++ waiters_at w'.(futex_queue) key ∧
    (wake_mask = None → waiters_at w'.(futex_queue) key = drop (Z.to_nat count) ws) ∧
    (∀ k, k ≠ key → waiters_at w'.(futex_queue) k = waiters_at w.(futex_queue) k).
Proof.
  intros Hok Hread Hkey ws first. pose proof (threads_ok_wake_waiters w key count wake_mask Hok) as Hok'.
  unfold futex_wake_impl. rewrite Hread, Hkey. unfold wake_waiters in *.
  pose proof (take_futex_waiters_spec w key count wake_mask) as Hspec.
  destruct (take_futex_waiters w key count wake_mask) as [ts w1]. destruct Hspec as (-> & rest & queue & -> & Hp & Hr & ->).
  fold ws in Hp, Hr. change (taken count wake_mask ws) with first in *. cbn [snd] in Hok'.
  change (taken count wake_mask (waiters_at w.(futex_queue) key)) with first in *.
  set (w1 := with_futex_queue w _) in *. set (w' := wake_list w1 (map w_thread first)) in *.
  assert (zlen (map w_thread first) = zlen first) as -> by (unfold zlen; by rewrite length_map).
  pose proof (shrink_ok _ _ _ _ _ _ (proj2 Hok) Hp) as Hok1.
  assert (∀ k, waiters_at w'.(futex_queue) k = if decide (k = key) then rest else waiters_at w.(futex_queue) k) as Hat.
  { intros k. subst w'. rewrite (wake_list_waiters_at _ w1 _ k Hok1) by (intros t Ht; left; by right). by eapply waiters_shrink. }
  exists w'. split; [done|]. split; [|split; [|split; [|split]]].
  - intros t Ht. assert (state_of w' t = woken_state <$> state_of w t) as Hst by (subst w'; by rewrite wake_list_state, decide_True).
    apply list_elem_of_fmap in Ht as (x & -> & Hx).
    destruct (fx_member _ _ _ (proj2 Hok) key x) as [Hm _]; [fold ws; rewrite Hp; apply elem_of_app; by left|].
    unfold waits in Hm. destruct (state_of w x.(w_thread)) as [[| |b| |b| |]|]; try done; [right|left]; exists b; (split; [done|]); [exact Hst|].
    split; [exact Hst|]. by apply (ok_ready_queued _ w' (proj1 Hok')).
  - intros t Ht. subst w'. rewrite wake_list_state, decide_False by done. done.
  - by rewrite Hat, decide_True.
  - intros Hm. rewrite Hat, decide_True by done. by apply Hr.
  - intros k Hk. by rewrite Hat, decide_False.
Qed.

(** C39. A requeue to another word wakes the first [n] waiters of the one word and appends
    the next [m] in their order to the queue of the other, each with its own bits; the rest
    keep their places, no thread but the woken ones changes more than the entry it waits
    under, and the queues still agree with the sleepers: a moved thread is found by a wake
    of its new word, and by its deadline.  With a changed word nothing happens. *)
Theorem futex_requeue_moves key_of w (m m' : M) addr n n2 addr2 compare (v : Z) source target :
  threads_ok w → room w → key_of addr = Ok source → key_of addr2 = Ok target → source ≠ target →
  match compare with None => m' = m | Some _ => user_read m addr = (Ok v, m') end →
  let ws := waiters_at w.(futex_queue) source in
  let woken := take (Z.to_nat n) ws in
  let moved := take (Z.to_nat n2) (drop (Z.to_nat n) ws) in
  (∀ expected, compare = Some expected → v ≠ expected →
    futex_requeue_impl key_of w m addr n n2 addr2 compare = (Err SyscallError.TryAgain, m', w)) ∧
  ((∀ expected, compare = Some expected → v = expected) →
    ∃ w', futex_requeue_impl key_of w m addr n n2 addr2 compare = (Ok (zlen woken), m', w') ∧ threads_ok w' ∧
      waiters_at w'.(futex_queue) source = drop (Z.to_nat n2) (drop (Z.to_nat n) ws) ∧
      map who (waiters_at w'.(futex_queue) target) = map who (waiters_at w.(futex_queue) target) ++ map who moved ∧
      (∀ k, k ≠ source → k ≠ target → waiters_at w'.(futex_queue) k = waiters_at w.(futex_queue) k) ∧
      (∀ t, t ∈ map w_thread woken → state_of w' t = woken_state <$> state_of w t) ∧
      (∀ t, t ∉ map w_thread woken → same_sleep (state_of w t) (state_of w' t))).
Proof.
  intros Hok Hr Hs Ht Hne Hread ws woken moved.
  pose proof (futex_requeue_ok key_of w m addr n n2 addr2 compare Hok) as Hok'.
  unfold futex_requeue_impl in *. rewrite Hs, Ht in *. split.
  - intros expected -> Hv. rewrite Hread. cbn. by rewrite (proj2 (Z.eqb_neq v expected)).
  - intros Hv. pose proof (requeue_spec w source target n n2 (proj2 Hok) Hne) as Hspec.
    set (c := match compare with None => (Ok tt, m) | Some _ => _ end) in *. assert (c = (Ok tt, m')) as ->.
    { subst c. destruct compare as [e|]; [|by subst m']. rewrite Hread. cbn. by rewrite (Hv e), Z.eqb_refl. }
    cbn in *. destruct (requeue_waiters w source target n n2) as [ts w1].
    destruct Hspec as (-> & Hok1 & Hsrc & Htgt & Hother & _ & _ & _ & Hsame); [specialize (Hr target source); lia|].
    fold ws woken in Hok', Hsrc, Htgt, Hother, Hsame, Hok1 |- *.
    assert (∀ k, waiters_at (wake_list w1 (map w_thread woken)).(futex_queue) k = waiters_at w1.(futex_queue) k) as Hat.
    { intros k. by apply (wake_list_waiters_at _ w1 _ k Hok1); auto. }
    exists (wake_list w1 (map w_thread woken)). split; [by unfold zlen; rewrite length_map|]. split; [apply Hok'; [congruence|done]|].
    split; [by rewrite Hat|]. split; [by rewrite Hat|]. split; [intros k ? ?; rewrite Hat; auto|]. split; intros t Hin.
    + rewrite wake_list_state, decide_True by done. destruct (Hsame t) as [->|(d & i & j & [[-> ->]|[-> ->]])]; done.
    + rewrite wake_list_state, decide_False by done. apply Hsame.
Qed.

(** Waiting. With another value in the word, or a deadline that has come, the thread goes on
    with TryAgain or TimedOut; otherwise it is the last waiter of its word, under the
    invariant of the queues. A wake without a mask that follows at once, with a count beyond
    the waiters ahead of it, is not lost: before the thread sleeps, the sleep returns at
    once; afterwards, the thread becomes runnable. The call then answers 0, unless a signal
    interrupted it or its deadline has come. *)
Lemma futex_wait_loses_no_wake t key_of w (m m' : M) addr value deadline bitset (v : Z) key :
  threads_ok w → room w → state_of w t = Some State.Running → key_of addr = Ok key → user_read m addr = (Ok v, m') →
  let announced := futex_wait_announce t key_of w m addr value deadline bitset in
  (v ≠ value → announced = (Err SyscallError.TryAgain, m', set_interruptible t w false)) ∧
  (v = value → deadline_passed w deadline = true → announced = (Err SyscallError.TimedOut, m', set_interruptible t w false)) ∧
  (v = value → deadline_passed w deadline = false →
    ∃ w1, announced = (Ok tt, m', w1) ∧ threads_ok w1 ∧
      map who (waiters_at w1.(futex_queue) key) = map who (waiters_at w.(futex_queue) key) ++ [(t, bitset)] ∧
      (∀ u, u ≠ t → state_of w1 u = state_of w u) ∧
      ∀ count, zlen (waiters_at w.(futex_queue) key) < count →
        finish_block_current (wake_waiters w1 key count None).2 t =
          (true, set_state (wake_waiters w1 key count None).2 t State.Running) ∧
        runnable (wake_waiters (finish_block_current w1 t).2 key count None).2 t) ∧
  (∀ w2, (futex_wait_resume t w2 deadline).1 =
    if default false (interrupted_by_signal <$> w2.(threads) !! t) then Err SyscallError.Interrupted
    else if deadline_passed w2 deadline then Err SyscallError.TimedOut else Ok 0).
Proof.
  intros Hok Hr Hst Hkey Hread announced. pose proof (futex_announce_ok t key_of w m addr value deadline bitset Hok Hst Hr) as Hok1.
  subst announced. unfold futex_wait_announce in *. rewrite Hkey, Hread in *. split; [|split; [|split]].
  - intros Hv. by rewrite (proj2 (Z.eqb_neq v value)).
  - intros -> Hd. by rewrite Z.eqb_refl, Hd.
  - intros -> Hd. rewrite Z.eqb_refl, Hd in *. cbn [negb] in *.
    pose proof (queue_waiter_spec w.(futex_queue) key t bitset) as Hq.
    destruct (queue_waiter_in_locked_queue w.(futex_queue) key t bitset) as [wid queue]. destruct Hq as [-> ->].
    set (n := next_at w.(futex_queue) key) in *. set (ws := waiters_at w.(futex_queue) key) in *.
    cbn [snd] in Hok1. set (w1 := block _ _ _) in *.
    assert (waiters_at w1.(futex_queue) key = ws ++ [mkWaiter n t bitset]) as Hws by (unfold waiters_at; cbn; by rewrite lookup_insert_eq).
    assert (state_of w1 t = Some (State.Blocking (BlockType.Futex deadline (mkWaitId key n)))) as Hs1.
    { apply (state_of_set_eq _ _ _ State.Running). change (state_of (set_interruptible t w true) t = Some State.Running).
      by rewrite set_interruptible_state. }
    exists w1. split; [done|]. split; [done|]. split; [by rewrite Hws, map_app|]. split.
    { intros u Hu. rewrite <- (set_interruptible_state t w true u).
      by apply (state_of_set_ne (set_interruptible t w true) t (State.Blocking (BlockType.Futex deadline (mkWaitId key n)))). }
    intros count Hc. assert (∀ v0, threads_ok v0 → v0.(futex_queue) = w1.(futex_queue) →
        state_of (wake_waiters v0 key count None).2 t = woken_state <$> state_of v0 t) as Hwake.
    { intros v0 Hv0 Hq. unfold wake_waiters. pose proof (take_futex_waiters_spec v0 key count None) as Hspec.
      destruct (take_futex_waiters v0 key count None) as [ts w2]. destruct Hspec as (-> & rest & queue & -> & _). cbn.
      rewrite wake_list_state, decide_True; [done|]. rewrite Hq, Hws. unfold taken.
      rewrite filter_keep by done. rewrite take_ge by (rewrite length_app; cbn; unfold zlen in Hc; lia). rewrite map_app. apply elem_of_app. right. left. }
    split.
    + unfold finish_block_current. by rewrite Hwake, Hs1 by done.
    + assert (finish_block_current w1 t = (false, set_state w1 t (State.Blocked (BlockType.Futex deadline (mkWaitId key n))))) as Hf
        by (unfold finish_block_current; by rewrite Hs1).
      assert (threads_ok (finish_block_current w1 t).2) as Hok2 by (destruct Hok1; split; [by apply finish_ok|by apply finish_futex_ok]).
      rewrite Hf in *. cbn [snd] in *. set (w2 := set_state w1 t _) in *.
      pose proof (threads_ok_wake_waiters w2 key count None Hok2) as Hok3.
      assert (state_of (wake_waiters w2 key count None).2 t = Some State.Ready) as Hs3.
      { rewrite Hwake by done. subst w2. by rewrite (state_of_set_eq _ _ _ _ Hs1). }
      split; [done|]. by apply (ok_ready_queued _ _ (proj1 Hok3)).
  - intros w2. unfold futex_wait_resume, take_signal_interrupt.
    change (deadline_passed (set_interruptible t ?w' false) deadline) with (deadline_passed w2 deadline).
    destruct (threads w2 !! t) as [th|]; cbn; [destruct (interrupted_by_signal th); [done|]|]; by destruct (deadline_passed w2 deadline).
Qed.
End steps.

(** ** Concrete inputs *)

Definition words : gmap Z Z := {[100 := 5; 200 := 7]}.
Definition keys (addr : Z) : result SyscallError FutexKey := Ok (FutexKey.Private 10 addr).

(** The next thread of the one processor runs. *)
Definition next_thread (w : World) : World := dispatch (pop_ready_for_cpu w 0).

Definition wait_at (t addr value : Z) (w : World) : World := (futex_wait_announce t keys w words addr value None 1).2.
Definition sleep_of (t : Z) (w : World) : World := (finish_block_current w t).2.

Definition three_threads : World := spawn (spawn (spawn (world_init 1) (thread0 1 10)) (thread0 2 10)) (thread0 3 10).

(** Thread 1 runs; then it sleeps on the word at 100; then thread 2 does so and thread 3 runs. *)
Definition first_runs : World := next_thread three_threads.
Definition one_waits : World := next_thread (sleep_of 1 (wait_at 1 100 5 first_runs)).
Definition two_wait : World := next_thread (sleep_of 2 (wait_at 2 100 5 one_waits)).

Lemma room_small w :
  map_Forall (λ _ b, b.(next_waiter_id) < 1000 ∧ zlen b.(waiters) < 1000) w.(futex_queue) → room w.
Proof.
  intros Hall k k'. assert (next_at w.(futex_queue) k < 1000 ∧ zlen (waiters_at w.(futex_queue) k') < 1000) as [H1 H2].
  { unfold next_at, waiters_at. split.
    - destruct (futex_queue w !! k) eqn:Hk; [|lia]. by apply Hall in Hk as [? _].
    - destruct (futex_queue w !! k') eqn:Hk; [|done]. by apply Hall in Hk as [_ ?]. }
  unfold U64_MAX. lia.
Qed.

Lemma sched_futex_next w w' : futex_reachable (M := gmap Z Z) w → sched_step w w' → plain w w' → futex_reachable (M := gmap Z Z) w'.
Proof. intros Hw Hs Hp. eapply futex_next; [exact Hw|by apply futex_sched]. Qed.

(** On threads 1 to 3 alone. *)
Definition plain_check (w w' : World) : bool :=
  forallb (λ t, (bool_decide (waits w' t = None) || negb (bool_decide (waits w t = None))) &&
                (negb (bool_decide (state_of w' t = Some (State.Blocked BlockType.Stopped))) || bool_decide (waits w t = None)))
    [1; 2; 3] && bool_decide (dom w'.(threads) ⊆ {[1; 2; 3]}).

Lemma plain_checked w w' : plain_check w w' = true → plain w w'.
Proof.
  unfold plain_check. rewrite andb_true_iff, forallb_forall, bool_decide_eq_true. intros [Hall Hdom].
  assert (∀ t, t ∉ [1; 2; 3] → state_of w' t = None) as Hout.
  { intros t Ht. unfold state_of. assert (w'.(threads) !! t = None) as ->; [|done]. apply not_elem_of_dom. set_solver. }
  split; intros t; (destruct (decide (t ∈ [1; 2; 3])) as [Hin|Hin];
    [apply list_elem_of_In, Hall, andb_true_iff in Hin as [H1 H2]|unfold waits at 1; rewrite Hout by done; done]).
  - intros Hw Hw'. rewrite (bool_decide_eq_false_2 _ Hw), (bool_decide_eq_true_2 _ Hw') in H1. done.
  - intros Hs. rewrite (bool_decide_eq_true_2 _ Hs) in H2. by apply bool_decide_eq_true in H2.
Qed.

Lemma sample_step w w' : futex_reachable (M := gmap Z Z) w → sched_step w w' → plain_check w w' = true → futex_reachable (M := gmap Z Z) w'.
Proof. intros Hw Hs Hp%plain_checked. by eapply sched_futex_next. Qed.

Lemma sample_next w : futex_reachable (M := gmap Z Z) w → plain_check w (next_thread w) = true → futex_reachable (M := gmap Z Z) (next_thread w).
Proof. intros Hw. apply sample_step; [done|]. apply (step_dispatch w 0 true ReadyThreadFilter.Any). Qed.

Lemma sample_wait t addr value w :
  futex_reachable (M := gmap Z Z) w → state_of w t = Some State.Running → room w → futex_reachable (M := gmap Z Z) (wait_at t addr value w).
Proof.
  intros Hw Ht Hr. eapply futex_next; [exact Hw|]. unfold wait_at.
  destruct (futex_wait_announce t keys w words addr value None 1) as [[r m] w'] eqn:Hc. by eapply futex_announce.
Qed.

Lemma sample_sleep t w :
  futex_reachable (M := gmap Z Z) w → plain_check w (sleep_of t w) = true → futex_reachable (M := gmap Z Z) (sleep_of t w).
Proof. intros Hw. apply sample_step; [done|]. apply step_finish. Qed.

Ltac small_room := apply room_small, (bool_decide_unpack _); vm_compute; exact I.

Lemma first_runs_reachable : futex_reachable (M := gmap Z Z) first_runs.
Proof.
  apply sample_next; [|by vm_compute]. unfold three_threads.
  do 3 (eapply sample_step; [|by apply step_spawn|by vm_compute]). apply futex_init.
Qed.

Lemma one_waits_reachable : futex_reachable (M := gmap Z Z) one_waits.
Proof.
  apply sample_next; [|by vm_compute]. apply sample_sleep; [|by vm_compute].
  apply sample_wait; [apply first_runs_reachable|by vm_compute|small_room].
Qed.

Lemma two_wait_reachable : futex_reachable (M := gmap Z Z) two_wait.
Proof.
  apply sample_next; [|by vm_compute]. apply sample_sleep; [|by vm_compute].
  apply sample_wait; [apply one_waits_reachable|by vm_compute|small_room].
Qed.

Lemma futex_waiters_agree_witness :
  map w_thread (waiters_at two_wait.(futex_queue) (FutexKey.Private 10 100)) = [1; 2] ∧
  ∃ x, x ∈ waiters_at two_wait.(futex_queue) (FutexKey.Private 10 100) ∧ x.(w_thread) = 2 ∧ x.(w_id) = 1.
Proof.
  split; [vm_compute; reflexivity|].
  destruct (futex_waiters_agree two_wait two_wait_reachable) as (_ & _ & _ & H).
  apply (H 2 (mkWaitId (FutexKey.Private 10 100) 1)). vm_compute. reflexivity.
Defined.

Lemma futex_wake_takes_first_witness :
  ∃ w', futex_wake_impl keys two_wait words 100 1 None = (Ok 1, words, w') ∧ runnable w' 1 ∧
    state_of w' 2 = state_of two_wait 2.
Proof.
  destruct (futex_wake_takes_first keys two_wait words words 100 1 None 5 (FutexKey.Private 10 100)
    (futex_reachable_ok _ two_wait_reachable)) as (w' & Hc & Hin & Hout & _); [vm_compute; reflexivity|reflexivity|].
  exists w'. split; [rewrite Hc; vm_compute; reflexivity|]. split.
  - destruct (Hin 1) as [(b & _ & H)|(b & H & _)]; [vm_compute; left|exact H|vm_compute in H; discriminate H].
  - apply Hout. vm_compute. intros H. apply list_elem_of_singleton in H. discriminate H.
Defined.

Lemma futex_requeue_moves_witness :
  ∃ w', futex_requeue_impl keys two_wait words 100 1 1 200 (Some 5) = (Ok 1, words, w') ∧
    waiters_at w'.(futex_queue) (FutexKey.Private 10 100) = [] ∧
    map who (waiters_at w'.(futex_queue) (FutexKey.Private 10 200)) = [(2, 1)].
Proof.
  destruct (futex_requeue_moves keys two_wait words words 100 1 1 200 (Some 5) 5 (FutexKey.Private 10 100) (FutexKey.Private 10 200))
    as [_ H]; [exact (futex_reachable_ok _ two_wait_reachable)|small_room|reflexivity|reflexivity|discriminate|vm_compute; reflexivity|].
  destruct H as (w' & Hc & _ & Hs & Ht & _); [intros e [= <-]; reflexivity|]. exists w'.
  split; [rewrite Hc; vm_compute; reflexivity|]. split; [rewrite Hs; vm_compute; reflexivity|rewrite Ht; vm_compute; reflexivity].
Defined.

Lemma futex_wait_loses_no_wake_witness :
  let announced := wait_at 1 100 5 first_runs in
  (finish_block_current (wake_waiters announced (FutexKey.Private 10 100) 1 None).2 1).1 = true ∧
  runnable (wake_waiters (sleep_of 1 announced) (FutexKey.Private 10 100) 1 None).2 1.
Proof.
  destruct (futex_wait_loses_no_wake 1 keys first_runs words words 100 5 None 1 5 (FutexKey.Private 10 100)) as (_ & _ & H & _);
    [exact (futex_reachable_ok _ first_runs_reachable)|small_room|vm_compute; reflexivity|reflexivity|vm_compute; reflexivity|].
  destruct H as (w1 & Hc & _ & _ & _ & H); [reflexivity|reflexivity|].
  unfold wait_at. rewrite Hc. cbn zeta. cbn [snd]. destruct (H 1) as [H1 H2]; [vm_compute; reflexivity|]. split; [rewrite H1; reflexivity|exact H2].
Defined.

(** ** Where the futex calls do not do what they should *)

(** Thread 2 holds a lock; thread 1 wants it and sleeps; thread 2 runs and releases it,
    which writes thread 1 as the owner and wakes it; thread 1 then finds itself the owner
    and fails with a deadlock. *)
Lemma pi_handover_deadlocks :
  match futex_lock_pi_try 1 (FutexKey.Private 10 200) 1 200 None (first_runs, <[200 := 2]> words) with
  | Sleep (w, m) =>
      let '(r, m, w) := futex_unlock_pi_impl 2 keys (next_thread w) m 200 in
      r = Ok 0 ∧ state_of w 1 = Some State.Ready ∧
      match futex_lock_pi_try 1 (FutexKey.Private 10 200) 1 200 None (w, m) with
      | Return r' _ => r' = Err SyscallError.ResourceDeadlock
      | Sleep _ => False
      end
  | Return _ _ => False
  end.
Proof. vm_compute. done. Qed.

(** FUTEX_OP_ADD with the operand 8 adds 1: bit 3 of the operand is taken for the flag that
    asks for a shift. *)
Lemma wake_op_adds_one :
  futex_wake_op_apply 0 (Z.lor (Z.shiftl 1 28) (Z.shiftl 8 12)) = Ok (1, true) ∧
  futex_wake_op_apply 0 (Z.lor (Z.shiftl 1 28) (Z.shiftl 7 12)) = Ok (7, true).
Proof. split; reflexivity. Qed.

(** A waiter that is stopped and continued goes on without leaving the queue; a wake of one
    then takes that entry, reports one thread, and the thread that does wait sleeps on. *)
Lemma stopped_waiter_takes_wake :
  let w := wake (stop_threads one_waits [1]) 1 in
  let w := next_thread (sleep_of 2 (wait_at 2 100 5 w)) in
  let '(woken, w') := wake_waiters w (FutexKey.Private 10 100) 1 None in
  state_of w 1 = Some State.Ready ∧ woken = 1 ∧ ∃ wid, state_of w' 2 = Some (State.Blocked (BlockType.Futex None wid)).
Proof. vm_compute. split; [done|]. split; [done|]. by eexists. Qed.

(** A requeue onto the same word: the moved waiter gets the number of the woken one, whose
    wake-up then removes it from the queue.  It sleeps where no wake finds it. *)
Lemma requeue_same_word_loses_waiter :
  let '(_, _, w) := futex_requeue_impl keys two_wait words 100 1 1 100 None in
  w.(futex_queue) = ∅ ∧ state_of w 2 = Some (State.Blocked (BlockType.Futex None (mkWaitId (FutexKey.Private 10 100) 0))).
Proof. vm_compute. done. Qed.
