(* ===== verification/Signals.v ===== *)
(** * Signals: queueing, delivery, handlers and masks

    misc/signal.rs: a signal becomes pending for a process or a thread and wakes what waits
    for it; before a thread goes back to user mode its pending signals are taken in order
    and ignored, given their default action, or handed to a handler, for which a frame is
    built and the mask replaced; process/wait.rs and process/ptrace.rs as far as a stop is
    reported; and the system calls on signals (systemcall/implementations/signal.rs), with
    the masks of select.rs and the queue behind a signal descriptor
    (object/anon/signalfd.rs).

    The current thread is [t].  Words the kernel writes to user memory are appended to
    [user_writes] as (process, address, value); a failed write is ignored by the source. *)

From stdpp Require Import sets.
From S2P Require Import Prelude Errors Clock Blocking AddrAreas Polling SignalData Threads Futex.

Open Scope Z_scope.

Definition process_of (w : World) (t : Z) : option Z := w.(threads) !! t ≫= parent.

(** ** Waking for a signal *)

Definition is_stopped (b : BlockType) : bool := match b with BlockType.Stopped => true | _ => false end.

Definition thread_blocks_signal_inner (th : Thread) (s : Signal) : bool :=
  if is_unblockable s then false else contains th.(blocked_signals) (mask s).

Definition threads_of (w : World) (p : Z) : list Z :=
  match w.(processes) !! p with Some pr => pr.(p_threads) | None => [] end.

Definition wake_process_threads (w : World) (p : Z) (wake_stopped_only : bool) : World :=
  foldl (λ w t,
    match state_of w t with
    | Some (State.Blocked b) => if eqb (is_stopped b) wake_stopped_only then wake w t else w
    | _ => w
    end) w (threads_of w p).

Definition wake_specific_thread_for_signal (w : World) (t : Z) (s : Signal) : World :=
  match w.(threads) !! t with
  | None => w
  | Some th =>
      let should_wake := match th.(state) with
                         | State.Blocking b | State.Blocked b => negb (is_stopped b)
                         | _ => false
                         end in
      let interrupts_wait := negb (thread_blocks_signal_inner th s) in
      let w := if (th.(interruptible_wait_active) || should_wake) && interrupts_wait
               then map_thread w t (λ th, with_interrupted_by_signal th true) else w in
      if should_wake && interrupts_wait then wake w t else w
  end.

Definition wake_process_threads_for_signal (w : World) (p : Z) (s : Signal) : World :=
  foldl (λ w t, wake_specific_thread_for_signal w t s) w (threads_of w p).

(** ** Signal descriptors *)

(** The mask of a descriptor, and the pollers that watch it for input. *)
Record Signalfd := mkSignalfd { sfd_mask : Z; sfd_owner : Z; sfd_flags : Z; sfd_pollers : list Z }.

(** Of the pending signals of the owner and the mask. *)
Definition first_signal (set : Z) : option Signal := List.find (λ s, contains set (mask s)) all_signals.

Definition ready_mask (w : World) (f : Signalfd) : Z :=
  match w.(processes) !! f.(sfd_owner) with Some pr => Z.land pr.(p_pending_signals) f.(sfd_mask) | None => 0 end.

Definition next_ready_signal (w : World) (f : Signalfd) : option Signal := first_signal (ready_mask w f).

Definition wake_pollers_for_object (w : World) (affected : list Z) : World :=
  match affected with [] => w | _ => wake_affected_pollers (mark_pollers_dirty w true) affected end.

Definition signalfd_wake_waiters (w : World) (f : Signalfd) : World :=
  wake_pollers_for_object (wake_io w) f.(sfd_pollers).

Definition take_info (infos : list (option PendingSignalInfo)) (s : Signal) : PendingSignalInfo :=
  default (pending_for_signal s) (mjoin (infos !! Z.to_nat (index s))).

Definition clear_info (infos : list (option PendingSignalInfo)) (s : Signal) : list (option PendingSignalInfo) :=
  <[Z.to_nat (index s) := None]> infos.

(** A pending signal of the process is taken. *)
Definition take_pending (pr : Process) (s : Signal) : PendingSignalInfo * Process :=
  (take_info pr.(p_pending_signal_info) s,
   with_p_pending_signal_info (with_p_pending_signals pr (remove_bits pr.(p_pending_signals) (mask s)))
     (clear_info pr.(p_pending_signal_info) s)).

Definition take_next_signal (w : World) (f : Signalfd) : option PendingSignalInfo * World :=
  match w.(processes) !! f.(sfd_owner) with
  | None => (None, w)
  | Some pr =>
      match next_ready_signal w f with
      | None => (None, w)
      | Some s => let '(info, pr) := take_pending pr s in (Some info, with_processes w (<[f.(sfd_owner) := pr]> w.(processes)))
      end
  end.

(** ** Queueing *)

Definition pid_visible_from_namespace_inode (pr : Process) (viewer_namespace_inode : Z) : option Z :=
  if pr.(pid_namespace) =? viewer_namespace_inode then Some (default pr.(pid) pr.(pid_namespace_local_pid))
  else if decide (Some viewer_namespace_inode = pr.(pid_namespace_parent_inode)) then Some pr.(pid)
  else None.

Definition with_p_pid (i : PendingSignalInfo) (v : Z) : PendingSignalInfo :=
  mkPending i.(p_signo) i.(p_errno) i.(p_code) v i.(p_uid) i.(p_value) i.(p_fd).

Definition namespace_pending_siginfo (w : World) (siginfo : SigInfo) (receiver_pid receiver_namespace_inode receiver_visible_pid : Z)
  : PendingSignalInfo :=
  let pending := from_siginfo siginfo in
  if pending.(p_code) =? SI_MESGQ then pending
  else if pending.(p_pid) <=? 0 then pending
  else if pending.(p_pid) =? receiver_pid then with_p_pid pending (swrap 32 receiver_visible_pid)
  else
    with_p_pid pending
      (swrap 32 (default 0 (w.(processes) !! pending.(p_pid) ≫= λ pr, pid_visible_from_namespace_inode pr receiver_namespace_inode))).

(** What is recorded with a signal that becomes pending for a receiver of process [pr]. *)
Definition record_info (w : World) (pr : Process) (pending : Z) (infos : list (option PendingSignalInfo)) (s : Signal) (siginfo : option SigInfo)
  : list (option PendingSignalInfo) :=
  let already_pending := contains pending (mask s) in
  match siginfo with
  | Some i =>
      if negb already_pending || bool_decide (mjoin (infos !! Z.to_nat (index s)) = None) then
        let visible := default pr.(pid) (pid_visible_from_namespace_inode pr pr.(pid_namespace)) in
        <[Z.to_nat (index s) := Some (namespace_pending_siginfo w i pr.(pid) pr.(pid_namespace) visible)]> infos
      else infos
  | None => infos
  end.

Section signals.
(** The signal descriptors of a process, the segment selectors of user mode, and the end of
    the page that the address space of a process hands out next. *)
Context (signalfds : Z → list Signalfd) (user_cs user_ss : Z) (frame_end : World → Z → Z).

Definition wake_signalfd_for_process (w : World) (p : Z) : World :=
  foldl (λ w f, match next_ready_signal w f with Some _ => signalfd_wake_waiters w f | None => w end) w (signalfds p).

Definition queue_signal (w : World) (p : Z) (s : Signal) (siginfo : option SigInfo) : World :=
  match s with
  | Signal.SIGCONT => wake_process_threads w p true
  | _ =>
      match w.(processes) !! p with
      | None => w
      | Some pr =>
          let infos := record_info w pr pr.(p_pending_signals) pr.(p_pending_signal_info) s siginfo in
          let w := map_process w p (λ pr, with_p_pending_signal_info (with_p_pending_signals pr (insert_bits pr.(p_pending_signals) (mask s))) infos) in
          let w := wake_signalfd_for_process w pr.(pid) in
          let w := request_all_cpus_resched (wake_signal_waiters w s) in
          wake_process_threads_for_signal w p s
      end
  end.

Definition send_signal_to_process (w : World) (p : Z) (s : Signal) : World := queue_signal w p s None.

Definition queue_signal_to_thread (w : World) (t : Z) (s : Signal) (siginfo : option SigInfo) : World :=
  match w.(threads) !! t with
  | None => w
  | Some th =>
      match th.(parent) ≫= λ p, (λ pr, (p, pr)) <$> w.(processes) !! p with
      | None => panic w
      | Some (p, pr) =>
          let infos := record_info w pr th.(pending_signals) th.(pending_signal_info) s siginfo in
          let w := map_thread w t (λ th, with_pending_signal_info (with_pending_signals th (insert_bits th.(pending_signals) (mask s))) infos) in
          let w := wake_signalfd_for_process w pr.(pid) in
          let w := request_all_cpus_resched (wake_signal_waiters w s) in
          wake_specific_thread_for_signal w t s
      end
  end.

(** ** Stops are reported (process/wait.rs, process/ptrace.rs) *)

Definition report_wait_event (w : World) (p : Z) (event : ProcessWaitEvent) : World :=
  match w.(processes) !! p with
  | None => w
  | Some pr =>
      let w := map_process w p (λ pr, with_wait_event pr (Some event)) in
      match pr.(p_parent) with
      | None => w
      | Some q => wake_process_exit_waiters (send_signal_to_process w q Signal.SIGCHLD)
      end
  end.

Definition stop_status (signal : Z) : Z := Z.lor (Z.shiftl (Z.land signal 255) 8) 127.

Definition with_last_stop (x : PtraceState) (status : Z) (kind : PtraceStopKind) : PtraceState :=
  mkPtrace x.(tracer) x.(ptrace_options) x.(resume_mode) status kind.

Definition report_signal_stop (w : World) (p : Z) (s : Signal) : World :=
  let traced := match tracer ∘ ptrace <$> w.(processes) !! p with Some (Some _) => true | _ => false end in
  let w := report_wait_event w p (mkStopped (stop_status (number s)) traced) in
  if traced then
    map_process w p (λ pr, with_ptrace pr (with_last_stop pr.(ptrace) (stop_status (number s)) PtraceStopKind.Signal))
  else w.

(** ** Default actions *)

Record ProcessSignalsResult := mkSigResult {
  should_switch : bool;
  exited_threads : list Z;
  stop_current : bool;
  stopped_signal : option Signal;
}.

Definition result_default : ProcessSignalsResult := mkSigResult false [] false None.

Definition result_merge (a b : ProcessSignalsResult) : ProcessSignalsResult :=
  mkSigResult (a.(should_switch) || b.(should_switch)) (a.(exited_threads) ++ b.(exited_threads))
    (a.(stop_current) || b.(stop_current))
    (match a.(stopped_signal) with None => b.(stopped_signal) | s => s end).

Definition terminates (s : Signal) : bool :=
  is_realtime s ||
  match s with
  | Signal.SIGTERM | Signal.SIGKILL | Signal.SIGINT | Signal.SIGQUIT | Signal.SIGABRT | Signal.SIGBUS
  | Signal.SIGSEGV | Signal.SIGPIPE | Signal.SIGALRM | Signal.SIGHUP | Signal.SIGFPE | Signal.SIGILL
  | Signal.SIGSTKFLT | Signal.SIGTRAP | Signal.SIGUSR1 | Signal.SIGUSR2 | Signal.SIGXCPU | Signal.SIGXFSZ
  | Signal.SIGVTALRM | Signal.SIGPROF | Signal.SIGIO | Signal.SIGPWR | Signal.SIGSYS => true
  | _ => false
  end.

(** [terminate_inner]: the first exit status stays; the descriptors, timers and mappings of
    the process go, which is not modelled. *)
Definition terminate_inner (w : World) (p : Z) (status : ProcessExitStatus) : list Z * World :=
  (threads_of w p,
   map_process w p (λ pr, match pr.(exit_status) with None => with_exit_status pr (Some status) | Some _ => pr end)).

Definition core_dumped (pr : Process) (s : Signal) : bool :=
  default_action_dumps_core s && pr.(dumpable) && (0 <? pr.(rlimit_core_cur)).

Definition default_signal_action (w : World) (p : Z) (s : Signal) : ProcessSignalsResult * World :=
  if terminates s then
    let dumped := match w.(processes) !! p with Some pr => core_dumped pr s | None => false end in
    let '(ts, w) := terminate_inner w p (ProcessExitStatus.Signaled s dumped) in
    (mkSigResult true ts false None, w)
  else
    match s with
    | Signal.SIGSTOP | Signal.SIGTSTP | Signal.SIGTTIN | Signal.SIGTTOU => (mkSigResult true [] true (Some s), w)
    | Signal.SIGCONT => (result_default, panic w)
    | _ => (result_default, w)
    end.

(** ** Handlers *)

Definition SA_ONSTACK : Z := 134217728.
Definition SS_DISABLE : Z := 2.

Definition write_words (w : World) (p addr : Z) (ws : list Z) : World :=
  with_user_writes w (w.(user_writes) ++ imap (λ i v, (p, addr + 8 * Z.of_nat i, v)) ws).

Definition enabled_sigaltstack_top (th : Thread) : option Z :=
  let s := th.(sigaltstack) in
  if negb (Z.land s.(ss_flags) SS_DISABLE =? 0) || (s.(ss_sp) =? 0) || (s.(ss_size) =? 0) then None
  else Some (sat_add 64 s.(ss_sp) s.(ss_size)).

(** Down to a multiple of 16: [& !0xf]. *)
Definition align_16 (a : Z) : Z := Z.ldiff a 15.

Definition interrupted_rsp (th : Thread) : Z := (get_appropriate_snapshot th).(inner).(rsp).

(** Where the handler's stack ends, on the alternate stack or below the interrupted one. *)
Definition handler_rsp (th : Thread) (action_flags : Z) : Z :=
  match (if negb (Z.land action_flags SA_ONSTACK =? 0) then enabled_sigaltstack_top th else None) with
  | Some stack_top => align_16 (uwrap 64 (stack_top - 16))
  | None => align_16 (sat_sub (interrupted_rsp th) 16)
  end.

Definition prepare_signal_handler_stack (w : World) (p : Z) (th : Thread) (action_flags restorer : Z) : Z * World :=
  let rsp := handler_rsp th action_flags in
  (rsp + 8, write_words w p rsp [0; restorer]).

(** The mask the thread had before a temporary one. *)
Definition restore_temporary_blocked_signals (th : Thread) : Z * Thread :=
  match th.(temporary_blocked_signals) with
  | Some (old_mask, _) => (old_mask, with_blocked_signals (with_temporary_blocked_signals th None) old_mask)
  | None => (th.(blocked_signals), th)
  end.

Definition block_signals_for_handler (th : Thread) (signals_to_block : Z) (s : Signal) (saved_mask : Z) : Thread :=
  let signals_to_block := insert_bits signals_to_block (mask s) in
  with_blocked_signals (with_saved_blocked_signals th (th.(saved_blocked_signals) ++ [saved_mask]))
    (insert_bits th.(blocked_signals) signals_to_block).

Definition enter_signal_handler (th : Thread) (snap : ThreadSnapshot) : Thread :=
  with_sig_handler_snapshot (with_snapshot_state th SnapshotState.SignalHandler) snap.

Definition restore_blocked_signals (th : Thread) : Thread :=
  match last th.(saved_blocked_signals) with
  | Some m => with_blocked_signals (with_saved_blocked_signals th (removelast th.(saved_blocked_signals))) m
  | None => th
  end.

Definition snapshot_to_gregs (s : Snapshot) : list Z :=
  [s.(r15); s.(r14); s.(r13); s.(r12); s.(r11); s.(r10); s.(r9); s.(r8); s.(rdi); s.(rsi);
   s.(rbp); s.(rbx); s.(rdx); s.(rcx); s.(rax); s.(rip); s.(cs); s.(rflags); s.(rsp); s.(ss)].

(** The words of the [UContext]. *)
Definition build_signal_ucontext (th : Thread) : list Z :=
  th.(blocked_signals) :: snapshot_to_gregs (get_appropriate_snapshot th).(inner).

Definition siginfo_words (i : SigInfo) : list Z :=
  pair_word i.(si_signo) i.(si_errno) :: pair_word i.(si_code) 0 :: i.(fields).

(** [Snapshot::default_regs] with the arguments of the handler. *)
Definition handler_snapshot (th : Thread) (func stack arg1 arg2 arg3 : Z) : ThreadSnapshot :=
  mkThreadSnapshot
    (mkSnapshot 0 0 0 0 0 0 0 0 arg1 arg2 0 0 arg3 0 0 func user_cs 514 stack user_ss)
    (get_appropriate_snapshot th).(fs_base) ThreadSnapshotType.Thread.

(** The thread [t] runs [func] next, below a frame that [info] fills for a handler that
    takes three arguments. *)
Definition enter_handler (w : World) (p t : Z) (s : Signal) (action : SignalAction) (func : Z) (info : option SigInfo) : World :=
  match w.(threads) !! t with
  | None => w
  | Some th =>
      let '(saved_mask, th) := restore_temporary_blocked_signals th in
      let '(arg2, arg3, w) :=
        match info with
        | None => (0, 0, w)
        | Some i =>
            let ucontext_ptr := frame_end w p - 168 in
            let siginfo_ptr := ucontext_ptr - 128 in
            (siginfo_ptr, ucontext_ptr,
             write_words (write_words w p ucontext_ptr (build_signal_ucontext th)) p siginfo_ptr (siginfo_words i))
        end in
      let '(stack, w) := prepare_signal_handler_stack w p th action.(flags) action.(restorer) in
      let snap := handler_snapshot th func stack (number s) arg2 arg3 in
      let th := block_signals_for_handler th action.(sig_handler_ignored_sigs) s saved_mask in
      map_thread w t (λ _, enter_signal_handler th snap)
  end.

(** ** Delivery *)

Definition deliverable (pending blocked : Z) (s : Signal) : bool :=
  contains pending (mask s) && (is_unblockable s || negb (contains blocked (mask s))).

(** The pending set with its infos, what has to be done afterwards, and the world. *)
Definition pend_state : Type := Z * list (option PendingSignalInfo) * ProcessSignalsResult * World.

Definition act_on (w : World) (p t : Z) (s : Signal) (info : SigInfo) : ProcessSignalsResult * World :=
  let action := match w.(processes) !! p with Some pr => default default_action (pr.(signal_actions) !! Z.to_nat (index s)) | None => default_action end in
  match action.(handling_type) with
  | SignalHandlingType.Default => default_signal_action w p s
  | SignalHandlingType.Ignore => (result_default, w)
  | SignalHandlingType.Function1 func => (mkSigResult true [] false None, enter_handler w p t s action func None)
  | SignalHandlingType.Function2 func => (mkSigResult true [] false None, enter_handler w p t s action func (Some info))
  end.

Definition deliver (p t blocked : Z) (st : pend_state) (s : Signal) : pend_state :=
  let '(pending, infos, result, w) := st in
  if deliverable pending blocked s then
    let '(r, w) := act_on w p t s (to_siginfo (take_info infos s)) in
    (remove_bits pending (mask s), clear_info infos s, result_merge result r, w)
  else st.

Definition process_pending_signals (w : World) (p t pending : Z) (infos : list (option PendingSignalInfo)) (blocked : Z) : pend_state :=
  foldl (deliver p t blocked) (pending, infos, result_default, w) all_signals.

Definition no_infos : list (option PendingSignalInfo) := replicate 64 None.

(** [Process::process_signals] *)
Definition process_signals (w : World) (p t blocked : Z) : ProcessSignalsResult * World :=
  match w.(processes) !! p with
  | None => (result_default, w)
  | Some pr =>
      let w := map_process w p (λ pr, with_p_pending_signal_info (with_p_pending_signals pr 0) no_infos) in
      let '(pending, infos, result, w) :=
        process_pending_signals w p t pr.(p_pending_signals) pr.(p_pending_signal_info) blocked in
      (result, map_process w p (λ pr, with_p_pending_signal_info (with_p_pending_signals pr pending) infos))
  end.

Definition handler_of (pr : Process) (s : Signal) : bool :=
  match pr.(signal_actions) !! Z.to_nat (index s) with Some a => has_handler a | None => false end.

Definition process_has_pending_user_handler_signal (pr : Process) (blocked : Z) : bool :=
  existsb (λ s, deliverable pr.(p_pending_signals) blocked s && handler_of pr s) all_signals.

Definition set_interrupted (w : World) (t : Z) : World := map_thread w t (λ th, with_interrupted_by_signal th true).

(** After the passes: what stays pending for the thread, the report of a stop, the stop, and
    the end of the threads. *)
Definition finish_signals (w : World) (p t pending : Z) (infos : list (option PendingSignalInfo)) (result : ProcessSignalsResult) : World :=
  let w := map_thread w t (λ th,
    let th := if result.(should_switch) && th.(interruptible_wait_active) then with_interrupted_by_signal th true else th in
    with_pending_signal_info (with_pending_signals th pending) infos) in
  let w := match result.(stopped_signal) with Some s => report_signal_stop w p s | None => w end in
  let w := if result.(stop_current) then stop_threads w (threads_of w p) else w in
  foldl mark_thread_exited w result.(exited_threads).

Definition process_current_process_signals (w : World) (p t : Z) : bool * World :=
  match w.(threads) !! t, w.(processes) !! p with
  | Some th, Some pr =>
      if bool_decide (is_Some th.(temporary_blocked_signals)) && th.(interruptible_wait_active) then (false, set_interrupted w t)
      else if th.(interruptible_wait_active) && process_has_pending_user_handler_signal pr th.(blocked_signals) then
        (false, set_interrupted w t)
      else
        let blocked := th.(blocked_signals) in
        let w := map_thread w t (λ th, with_pending_signal_info (with_pending_signals th 0) no_infos) in
        let '(pending, infos, r1, w) := process_pending_signals w p t th.(pending_signals) th.(pending_signal_info) blocked in
        let '(r2, w) := process_signals w p t blocked in
        let result := result_merge r1 r2 in
        (result.(should_switch), finish_signals w p t pending infos result)
  | _, _ => (false, w)
  end.

(** ** Masks of the current thread (systemcall/implementations/select.rs) *)

Definition unblockable_set : Z := Z.lor (mask Signal.SIGKILL) (mask Signal.SIGSTOP).

Definition parent_of (w : World) (t : Z) : option Process := process_of w t ≫= λ p, w.(processes) !! p.

Definition all_pending (w : World) (t : Z) : Z :=
  Z.lor (match w.(threads) !! t with Some th => th.(pending_signals) | None => 0 end)
    (match parent_of w t with Some pr => pr.(p_pending_signals) | None => 0 end).

Definition has_unblocked_pending_signals (w : World) (t : Z) : bool :=
  let blocked := match w.(threads) !! t with Some th => th.(blocked_signals) | None => 0 end in
  let pending := all_pending w t in
  negb (Z.lor (Z.ldiff pending blocked) (Z.land pending unblockable_set) =? 0).

Definition effective_user_signal_mask (th : Thread) : Z :=
  match th.(temporary_blocked_signals) with
  | Some _ => th.(blocked_signals)
  | None => default th.(blocked_signals) (last th.(saved_blocked_signals))
  end.

Definition has_pending_signal_handlers_ignoring_restart (w : World) (t : Z) : bool :=
  match w.(threads) !! t, parent_of w t with
  | Some th, Some pr =>
      existsb (λ s, deliverable (all_pending w t) (effective_user_signal_mask th) s && handler_of pr s) all_signals
  | _, _ => false
  end.

Definition has_temporary_unblocked_pending_signal_handlers (w : World) (t : Z) : bool :=
  match w.(threads) !! t ≫= temporary_blocked_signals, parent_of w t with
  | Some (old_mask, new_mask), Some pr =>
      existsb (λ s, contains (all_pending w t) (mask s) && contains (Z.ldiff old_mask new_mask) (mask s) && handler_of pr s) all_signals
  | _, _ => false
  end.

Definition set_last (l : list Z) (v : Z) : list Z := match l with [] => [] | _ => removelast l ++ [v] end.

Definition in_handler (th : Thread) : bool := match th.(snapshot_state) with SnapshotState.SignalHandler => true | _ => false end.

Definition enter_temporary_mask (th : Thread) (new_mask : Z) : Z * Thread :=
  let old_mask := if in_handler th then default th.(blocked_signals) (last th.(saved_blocked_signals)) else th.(blocked_signals) in
  (old_mask, with_temporary_blocked_signals (with_blocked_signals th new_mask) (Some (old_mask, new_mask))).

Definition leave_temporary_mask (th : Thread) (old_mask : Z) : Thread :=
  let th := with_temporary_blocked_signals th None in
  let th := if in_handler th then with_saved_blocked_signals th (set_last th.(saved_blocked_signals) old_mask) else th in
  with_blocked_signals th old_mask.

(** [body] is what runs under the mask: its result, and the world after it. *)
Definition with_temporary_signal_mask {A} (w : World) (t : Z) (new_mask : option Z) (body : World → result SyscallError A * World)
  : result SyscallError A * World :=
  match new_mask, w.(threads) !! t with
  | Some new_mask, Some th =>
      let '(old_mask, th) := enter_temporary_mask th new_mask in
      let '(r, w) := body (map_thread w t (λ _, th)) in
      let interrupted := match r with Err SyscallError.Interrupted => true | _ => false end in
      if interrupted && has_temporary_unblocked_pending_signal_handlers w t then (r, w)
      else (r, map_thread w t (λ th, leave_temporary_mask th old_mask))
  | _, _ => body w
  end.

(** ** Interruptible sleeps (thread/yielding.rs) *)

(** Signals that nobody acts on are dropped before the check. *)
Definition drop_ignored (pr : Process) : Process :=
  foldl (λ pr s,
    if contains pr.(p_pending_signals) (mask s) && negb (handler_of pr s) then (take_pending pr s).2 else pr)
    pr [Signal.SIGCHLD; Signal.SIGURG; Signal.SIGWINCH].

Definition has_interrupting_pending_signal (w : World) (t : Z) : bool * World :=
  match process_of w t with
  | None => (false, w)
  | Some p =>
      let w := map_process w p drop_ignored in
      (negb (match parent_of w t with Some pr => pr.(p_pending_signals) | None => 0 end =? 0) ||
       negb (match w.(threads) !! t with Some th => th.(pending_signals) | None => 0 end =? 0), w)
  end.

(** [others]: what happens until the thread runs again. *)
Definition block_current_with_sig_check (w : World) (t : Z) (b : BlockType) (others : World → World)
  : result ObjectError unit * World :=
  let '(pending, w) := has_interrupting_pending_signal w t in
  if pending then (Err ObjectError.Interrupted, w)
  else
    let w := others (finish_block_current (prepare_block_current w t b) t).2 in
    let '(pending, w) := has_interrupting_pending_signal w t in
    (if pending then Err ObjectError.Interrupted else Ok tt, w).

(** ** System calls (systemcall/implementations/signal.rs) *)

Definition SIGSET_SIZE : Z := 8.
Definition MINSIGSTKSZ : Z := 2048.
Definition SS_ONSTACK : Z := 1.
Definition CAP_KILL : Z := 5.

Section syscalls.
Context {M : Type} `{um_action : UserMemory M LinuxSigAction} `{um_stack : UserMemory M LinuxStack}
  `{um_word : UserMemory M Z} `{um_info : UserMemory M SigInfo} `{um_time : UserMemory M LinuxTimespec}.
(** The calling thread. *)
Context (t : Z).

Definition St : Type := World * M.

Definition map_current (w : World) (f : Thread → Thread) : World := map_thread w t f.

Definition parse_signal (n : Z) : result SyscallError Signal := ok_or (signal_try_from n) SyscallError.InvalidArguments.

(** A pointer that may be null. *)
Definition read_opt {T} `{UserMemory M T} (m : M) (ptr : Z) : result SyscallError (option T) * M :=
  if ptr =? 0 then (Ok None, m)
  else let '(r, m) := user_read (T := T) m ptr in (r ← r; Ok (Some r), m).

Definition write_opt {T} `{UserMemory M T} (m : M) (ptr : Z) (v : T) : result SyscallError unit * M :=
  if ptr =? 0 then (Ok tt, m) else user_write m ptr v.

Definition rt_sigaction (w : World) (m : M) (signal new_action old_action sigsetsize : Z) : result SyscallError Z * St :=
  bail SyscallError.InvalidArguments when negb (sigsetsize =? SIGSET_SIZE) with (w, m);
  try s := parse_signal signal with (w, m) in
  let '(r, m) := read_opt (T := LinuxSigAction) m new_action in
  try new_action := r with (w, m) in
  match process_of w t, parent_of w t with
  | Some p, Some pr =>
      let old_encoded := encode_sigaction (default default_action (pr.(signal_actions) !! Z.to_nat (index s))) in
      let w := match new_action with
               | Some a => map_process w p (λ pr, with_signal_actions pr (<[Z.to_nat (index s) := decode_sigaction a]> pr.(signal_actions)))
               | None => w
               end in
      let '(r, m) := write_opt m old_action old_encoded in
      try _ := r with (w, m) in
      (Ok 0, (w, m))
  | _, _ => (Ok 0, (panic w, m))
  end.

Definition current_stack (th : Thread) : LinuxStack :=
  let s := th.(sigaltstack) in
  if (Z.land s.(ss_flags) SS_DISABLE =? 0) && negb (s.(ss_sp) =? 0) && negb (s.(ss_size) =? 0) &&
     (s.(ss_sp) <=? interrupted_rsp th) && (interrupted_rsp th <? sat_add 64 s.(ss_sp) s.(ss_size))
  then mkStack s.(ss_sp) (Z.lor s.(ss_flags) SS_ONSTACK) s.(ss_size) else s.

Definition sys_sigaltstack (w : World) (m : M) (new_stack old_stack : Z) : result SyscallError Z * St :=
  match w.(threads) !! t with
  | None => (Ok 0, (panic w, m))
  | Some th =>
      let '(r, m) := write_opt m old_stack (current_stack th) in
      try _ := r with (w, m) in
      let '(r, m) := read_opt (T := LinuxStack) m new_stack in
      try s := r with (w, m) in
      match s with
      | None => (Ok 0, (w, m))
      | Some s =>
          bail SyscallError.InvalidArguments when negb (Z.ldiff (uwrap 32 s.(ss_flags)) 3 =? 0) with (w, m);
          bail SyscallError.InvalidArguments when negb (Z.land s.(ss_flags) SS_ONSTACK =? 0) with (w, m);
          if negb (Z.land s.(ss_flags) SS_DISABLE =? 0) then
            (Ok 0, (map_current w (λ th, with_sigaltstack th (mkStack 0 SS_DISABLE 0)), m))
          else
            bail SyscallError.InvalidArguments when s.(ss_sp) =? 0 with (w, m);
            bail SyscallError.NoMemory when s.(ss_size) <? MINSIGSTKSZ with (w, m);
            (Ok 0, (map_current w (λ th, with_sigaltstack th s), m))
      end
  end.

(** *** Sending *)

(** The processes in the order of their numbers. *)
Definition process_list (w : World) : list (Z * Process) := sort_by (λ a b, a.1 <=? b.1) (map_to_list w.(processes)).

Definition visible_from (pr : Process) (inode : Z) : bool := bool_decide (is_Some (pid_visible_from_namespace_inode pr inode)).

(** [(-pid) as u64] of an [i32]: a release build wraps, so that [i32::MIN] names no group
    that exists; a build with overflow checks panics there. *)
Definition negated_group (pid : Z) : Z := uwrap 64 (swrap 32 (- pid)).

Definition kill_targets (w : World) (current : Z) (pr : Process) (pid : Z) : result SyscallError (list Z) :=
  let inode := pr.(pid_namespace) in
  let in_group g := map fst (filter (λ x, visible_from x.2 inode && (x.2.(group_id) =? g) = true) (process_list w)) in
  if pid <=? -2 then Ok (in_group (negated_group pid))
  else if pid =? -1 then
    Ok (map fst (filter (λ x, negb (x.1 =? current) && visible_from x.2 inode = true) (process_list w)))
  else if pid =? 0 then Ok (in_group pr.(group_id))
  else
    target ← ok_or (fst <$> List.find (λ x, bool_decide (pid_visible_from_namespace_inode x.2 inode = Some pid)) (process_list w))
               SyscallError.NoProcess;
    Ok [target].

Definition kill (w : World) (pid signal : Z) : result SyscallError Z * World :=
  try s := (if signal =? 0 then Ok None else s ← parse_signal signal; Ok (Some s)) with w in
  match process_of w t, parent_of w t with
  | Some current, Some pr =>
      try targets := kill_targets w current pr pid with w in
      bail SyscallError.NoProcess when match targets with [] => true | _ => false end with w;
      match s with
      | None => (Ok 0, w)
      | Some s =>
          (Ok 0, foldl (λ w p,
             if bool_decide (s = Signal.SIGKILL) && (p =? current) && bool_decide (pr.(pid_namespace_local_pid) = Some 1) then w
             else queue_signal w p s (Some (for_process_signal s (swrap 32 pr.(Threads.pid)) pr.(real_uid)))) w targets)
      end
  | _, _ => (Ok 0, panic w)
  end.

Definition tkill_info (w : World) (s : Signal) : SigInfo :=
  match parent_of w t with
  | Some pr => with_si_code (for_process_signal s (swrap 32 pr.(Threads.pid)) pr.(real_uid)) SI_TKILL
  | None => siginfo_for_signal s
  end.

Definition tgkill (w : World) (tgid tid signal : Z) : result SyscallError Z * World :=
  try s := parse_signal signal with w in
  bail SyscallError.NoProcess when negb (bool_decide (uwrap 64 tid ∈ w.(manager_threads))) with w;
  bail SyscallError.NoProcess when
    negb (bool_decide ((λ pr, pr.(Threads.pid)) <$> (process_of w (uwrap 64 tid) ≫= λ p, w.(processes) !! p) = Some (uwrap 64 tgid))) with w;
  (Ok 0, queue_signal_to_thread w (uwrap 64 tid) s (Some (tkill_info w s))).

Definition tkill (w : World) (tid signal : Z) : result SyscallError Z * World :=
  try s := parse_signal signal with w in
  bail SyscallError.NoProcess when negb (bool_decide (uwrap 64 tid ∈ w.(manager_threads))) with w;
  (Ok 0, queue_signal_to_thread w (uwrap 64 tid) s (Some (tkill_info w s))).

Definition own_siginfo (w : World) (s : Signal) (code : Z) : SigInfo :=
  match parent_of w t with
  | Some pr => with_si_code (for_process_signal s (swrap 32 pr.(Threads.pid)) pr.(real_uid)) code
  | None => siginfo_for_signal s
  end.

Definition read_or_build_signal_info (w : World) (m : M) (s : Signal) (info default_code : Z) : result SyscallError SigInfo * M :=
  if info =? 0 then (Ok (own_siginfo w s default_code), m)
  else
    let '(r, m) := user_read (T := SigInfo) m info in
    try i := r with m in
    let i := mkSigInfo (number s) i.(si_errno) i.(si_code) i.(fields) in
    if (i.(si_code) =? 0) && (sender_pid i =? 0) then (Ok (own_siginfo w s default_code), m) else (Ok i, m).

Definition signal_info_for_signal (w : World) (m : M) (s : Signal) (info default_code : Z) : result SyscallError SigInfo * M :=
  if info =? 0 then read_or_build_signal_info w m s info default_code
  else
    let '(r, m) := user_read (T := SigInfo) m info in
    try i := r with m in
    bail SyscallError.InvalidArguments when negb (i.(si_signo) =? number s) with m;
    read_or_build_signal_info w m s info default_code.

Definition get_process_with_pid (w : World) (pid : Z) : result SyscallError Z :=
  if bool_decide (is_Some (w.(processes) !! pid)) then Ok pid else Err SyscallError.NoProcess.

Definition rt_sigqueueinfo (w : World) (m : M) (pid signal info : Z) : result SyscallError Z * St :=
  bail SyscallError.InvalidArguments when pid <=? 0 with (w, m);
  try s := parse_signal signal with (w, m) in
  try p := get_process_with_pid w pid with (w, m) in
  let '(r, m) := read_or_build_signal_info w m s info SI_QUEUE in
  try i := r with (w, m) in
  (Ok 0, (queue_signal w p s (Some i), m)).

Definition can_signal_process (w : World) (target : Z) : bool :=
  match parent_of w t, w.(processes) !! target with
  | Some c, Some g =>
      (c.(effective_uid) =? 0) || negb (Z.land c.(capability_effective) (Z.shiftl 1 CAP_KILL) =? 0) ||
      (c.(real_uid) =? g.(real_uid)) || (c.(real_uid) =? g.(effective_uid)) || (c.(real_uid) =? g.(saved_uid)) ||
      (c.(effective_uid) =? g.(real_uid)) || (c.(effective_uid) =? g.(effective_uid)) || (c.(effective_uid) =? g.(saved_uid))
  | _, _ => false
  end.

(** [target]: the process the descriptor names, or why it names none. *)
Definition pidfd_send_signal (w : World) (m : M) (target : result SyscallError Z) (signal info flags : Z) : result SyscallError Z * St :=
  bail SyscallError.InvalidArguments when negb (flags =? 0) with (w, m);
  if signal =? 0 then
    bail SyscallError.InvalidArguments when negb (info =? 0) with (w, m);
    try p := target with (w, m) in
    bail SyscallError.PermissionDenied when negb (can_signal_process w p) with (w, m);
    (Ok 0, (w, m))
  else
    try s := parse_signal signal with (w, m) in
    let '(r, m) := signal_info_for_signal w m s info SI_QUEUE in
    try i := r with (w, m) in
    try p := target with (w, m) in
    bail SyscallError.PermissionDenied when negb (can_signal_process w p) with (w, m);
    (Ok 0, (queue_signal w p s (Some i), m)).

Definition send_signal_group (w : World) (group : Z) (s : Signal) : World :=
  foldl (λ w x, send_signal_to_process w x.1 s) w (filter (λ x, x.2.(group_id) = group) (process_list w)).

Definition send_signal_to_all (w : World) (s : Signal) : World :=
  foldl (λ w x, send_signal_to_process w x.1 s) w (process_list w).

(** *** The mask *)

Definition blocked_of (w : World) : Z := match w.(threads) !! t with Some th => th.(blocked_signals) | None => 0 end.

Definition change_blocked (w : World) (f : Z → Z) : World :=
  map_current w (λ th, with_blocked_signals th (f th.(blocked_signals))).

Definition block_signals (w : World) (m : M) (signals old_signals : Z) : result SyscallError Z * St :=
  let '(r, m) := user_write m old_signals (blocked_of w) in
  try _ := r with (w, m) in
  (Ok 0, (change_blocked w (λ b, insert_bits b signals), m)).

Definition unblock_signals (w : World) (m : M) (signals old_signals : Z) : result SyscallError Z * St :=
  let '(r, m) := user_write m old_signals (blocked_of w) in
  try _ := r with (w, m) in
  (Ok 0, (change_blocked w (λ b, remove_bits b signals), m)).

Definition mask_change (how set : Z) : result SyscallError (Z → Z) :=
  match how with
  | 0 => Ok (λ b, insert_bits b (remove_bits set unblockable_set))
  | 1 => Ok (λ b, remove_bits b set)
  | 2 => Ok (λ _, remove_bits set unblockable_set)
  | _ => Err SyscallError.InvalidArguments
  end.

Definition rt_sigprocmask (w : World) (m : M) (how set old_set sigsetsize : Z) : result SyscallError Z * St :=
  bail SyscallError.InvalidArguments when negb (sigsetsize =? SIGSET_SIZE) with (w, m);
  let '(r, m) := read_opt (T := Z) m set in
  try set := r with (w, m) in
  let old_bits := blocked_of w in
  try f := (match set with Some set => mask_change how set | None => Ok (λ b, b) end) with (w, m) in
  let w := change_blocked w f in
  let '(r, m) := write_opt m old_set old_bits in
  try _ := r with (w, m) in
  (Ok 0, (w, m)).

Definition rt_sigpending (w : World) (m : M) (set sigsetsize : Z) : result SyscallError Z * M :=
  bail SyscallError.InvalidArguments when negb (sigsetsize =? SIGSET_SIZE) with m;
  bail SyscallError.BadAddress when set =? 0 with m;
  let '(r, m) := user_write m set (all_pending w t) in
  try _ := r with m in
  (Ok 0, m).

Definition rt_sigreturn (w : World) : World :=
  map_current w (λ th,
    let th := with_snapshot_state th SnapshotState.Normal in
    match th.(temporary_blocked_signals) with
    | Some (old_mask, _) =>
        with_saved_blocked_signals (with_blocked_signals (with_temporary_blocked_signals th None) old_mask)
          (set_last th.(saved_blocked_signals) old_mask)
    | None => restore_blocked_signals th
    end).

(** *** Taking a signal without a handler *)

Definition dequeue_wait_signal (w : World) (wait_mask : Z) : option (Signal * SigInfo) * World :=
  match w.(threads) !! t with
  | None => (None, w)
  | Some th =>
      match first_signal (Z.land wait_mask th.(pending_signals)) with
      | Some s =>
          (Some (s, to_siginfo (take_info th.(pending_signal_info) s)),
           map_current w (λ th, with_pending_signal_info (with_pending_signals th (remove_bits th.(pending_signals) (mask s)))
                                  (clear_info th.(pending_signal_info) s)))
      | None =>
          match process_of w t, parent_of w t with
          | Some p, Some pr =>
              match first_signal (Z.land wait_mask pr.(p_pending_signals)) with
              | Some s => let '(i, pr) := take_pending pr s in (Some (s, to_siginfo i), map_process w p (λ _, pr))
              | None => (None, w)
              end
          | _, _ => (None, w)
          end
      end
  end.

Definition linux_timespec_to_ns (ts : LinuxTimespec) : result SyscallError Z :=
  if (ts.(tv_sec) <? 0) || (ts.(tv_nsec) <? 0) || (1000000000 <=? ts.(tv_nsec)) then Err SyscallError.InvalidArguments
  else Ok (sat_mul 64 ts.(tv_sec) 1000000000 + ts.(tv_nsec)).

(** The result of a call that took a signal: the record is written when there is room for it. *)
Definition answer_signal (s : St) (info : Z) (x : Signal * SigInfo) : result SyscallError Z * St :=
  let '(w, m) := s in
  let '(r, m) := write_opt m info x.2 in
  try _ := r with (w, m) in
  (Ok (number x.1), (w, m)).

Definition sigtimedwait_try (wait_mask info : Z) (deadline : option Time) (s : St) : attempt St SyscallError Z :=
  let '(w, m) := s in
  match dequeue_wait_signal w wait_mask with
  | (Some x, w) => let '(r, s) := answer_signal (w, m) info x in Return r s
  | (None, w) =>
      if deadline_passed w deadline then Return (Err SyscallError.TryAgain) (w, m)
      else
        let '(pending, w) := has_interrupting_pending_signal w t in
        if pending then
          match dequeue_wait_signal w wait_mask with
          | (Some x, w) => let '(r, s) := answer_signal (w, m) info x in Return r s
          | (None, w) => Return (Err SyscallError.Interrupted) (w, m)
          end
        else Sleep ((finish_block_current (prepare_block_current w t (BlockType.WakeRequired (WakeType.SignalWait wait_mask) deadline)) t).2, m)
  end.

Definition rt_sigtimedwait_deadline (w : World) (m : M) (timeout : Z) : result SyscallError (option Time) * M :=
  let '(r, m) := read_opt (T := LinuxTimespec) m timeout in
  try ts := r with m in
  match ts with
  | None => (Ok None, m)
  | Some ts =>
      try ns := linux_timespec_to_ns ts with m in
      (Ok (Some (add_ns (mkTime w.(now)) ns)), m)
  end.

(** After the sleep: a signal of the set that is pending now is what the next round takes
    first. *)
Definition sigtimedwait_on_wake (wait_mask : Z) (s : St) (_ : result ObjectError unit) : option SyscallError * St :=
  let '(pending, w) := has_interrupting_pending_signal s.1 t in
  if pending then
    match dequeue_wait_signal w wait_mask with
    | (Some _, _) => (None, (w, s.2))
    | (None, _) => (Some SyscallError.Interrupted, (w, s.2))
    end
  else (None, (w, s.2)).

Definition rt_sigtimedwait (w : World) (m : M) (set info timeout sigsetsize : Z) (ws : list (wakeup St))
  : option (result SyscallError Z) * St :=
  if negb (sigsetsize =? SIGSET_SIZE) then (Some (Err SyscallError.InvalidArguments), (w, m))
  else if set =? 0 then (Some (Err SyscallError.BadAddress), (w, m))
  else
    let '(r, m) := user_read (T := Z) m set in
    match r with
    | Err e => (Some (Err e), (w, m))
    | Ok wait_mask =>
        let '(r, m) := rt_sigtimedwait_deadline w m timeout in
        match r with
        | Err e => (Some (Err e), (w, m))
        | Ok deadline => blocking_loop (sigtimedwait_try wait_mask info deadline) (sigtimedwait_on_wake wait_mask) ws (w, m)
        end
    end.
End syscalls.

(** ** Reading a signal descriptor (object/anon/signalfd.rs) *)

Definition SIGNALFD_SIGINFO_SIZE : Z := 128.

(** The fields of the record that are not zero. *)
Record LinuxSignalfdSiginfo := mkSignalfdInfo {
  ssi_signo : Z; ssi_errno : Z; ssi_code : Z; ssi_pid : Z; ssi_uid : Z; ssi_int : Z; ssi_ptr : Z;
}.

Definition signalfd_siginfo (i : PendingSignalInfo) : LinuxSignalfdSiginfo :=
  mkSignalfdInfo (uwrap 32 i.(p_signo)) i.(p_errno) i.(p_code) (uwrap 32 i.(p_pid)) i.(p_uid) (swrap 32 i.(p_value)) i.(p_value).

(** [t] reads; a signal that arrived while it announced its sleep is taken in the next round. *)
Definition signalfd_read_try (t : Z) (f : Signalfd) (w : World) : attempt World ObjectError LinuxSignalfdSiginfo :=
  match take_next_signal w f with
  | (Some i, w) => Return (Ok (signalfd_siginfo i)) w
  | (None, w) =>
      if contains f.(sfd_flags) NONBLOCK then Return (Err ObjectError.TryAgain) w
      else Sleep (finish_block_current (prepare_block_current w t (BlockType.WakeRequired WakeType.IO None)) t).2
  end.

Definition signalfd_read (t len : Z) (f : Signalfd) (ws : list (wakeup World)) (w : World)
  : option (result ObjectError LinuxSignalfdSiginfo) * World :=
  if len <? SIGNALFD_SIGINFO_SIZE then (Some (Err ObjectError.InvalidArguments), w)
  else blocking_loop (signalfd_read_try t f) (λ w _, (None, w)) ws w.
End signals.
