(* ===== verification/SignalProps.v ===== *)
(** * Signals: what is delivered, to whom, and under which mask

    Lemmas on what each operation of Signals leaves alone, and the properties of queueing,
    of the pass that delivers, and of the masks around handlers. *)

From stdpp Require Import sets.
From S2P Require Import Prelude Errors Clock Blocking AddrAreas Polling SignalData.
From S2P Require Import Threads.
From S2P Require Import ThreadsProps.
From S2P Require Import Futex.
From S2P Require Import Signals.

Open Scope Z_scope.

(** ** Lemmas: waking changes no process and nothing of a thread but its state *)

(** A thread without its state and the mark that a signal interrupted it. *)
Definition settled (th : Thread) : Thread := with_interrupted_by_signal (with_state th State.Ready) false.

Record only_wakes (w w' : World) : Prop := {
  ow_processes : w'.(processes) = w.(processes);
  ow_threads t : settled <$> w'.(threads) !! t = settled <$> w.(threads) !! t;
  ow_writes : w'.(user_writes) = w.(user_writes);
  ow_manager : w'.(manager_threads) = w.(manager_threads);
}.

Lemma only_wakes_refl w : only_wakes w w.
Proof. by constructor. Qed.

Lemma only_wakes_trans w1 w2 w3 : only_wakes w1 w2 → only_wakes w2 w3 → only_wakes w1 w3.
Proof. intros [] []. constructor; congruence. Qed.

Lemma only_wakes_same w w' :
  w'.(processes) = w.(processes) → w'.(threads) = w.(threads) → w'.(user_writes) = w.(user_writes) →
  w'.(manager_threads) = w.(manager_threads) → only_wakes w w'.
Proof. intros ? Ht ? ?. constructor; try done. intros t. by rewrite Ht. Qed.

Lemma only_wakes_map w t f : (∀ th, settled (f th) = settled th) → only_wakes w (map_thread w t f).
Proof.
  intros Hf. constructor; try done. intros u. unfold map_thread. cbn. destruct (decide (u = t)) as [->|].
  - rewrite lookup_alter_eq. destruct (threads w !! t); [|done]. cbn. by rewrite Hf.
  - by rewrite lookup_alter_ne.
Qed.

Lemma remove_blocked_same w t : only_wakes w (remove_from_blocked_queues w t).
Proof. unfold remove_from_blocked_queues. repeat case_match; by apply only_wakes_same. Qed.

Lemma push_balanced_same w t : only_wakes w (push_ready_balanced w t).
Proof.
  unfold push_ready_balanced, push_ready_on_cpu, next_balanced_cpu, ensure_queue, resize_ready_queues.
  repeat case_match; by apply only_wakes_same.
Qed.

Lemma wake_only w t : only_wakes w (wake w t).
Proof.
  unfold wake. eapply only_wakes_trans; [apply (remove_blocked_same w t)|].
  destruct (state_of _ t) as [[]|]; try apply only_wakes_refl.
  - by apply only_wakes_map.
  - set (w1 := set_state _ t State.Ready). apply (only_wakes_trans _ w1); [by apply only_wakes_map|].
    apply (only_wakes_trans _ (push_ready_balanced w1 t)); [apply push_balanced_same|by apply only_wakes_same].
Qed.

Lemma foldl_only {A} (f : World → A → World) l w : (∀ w a, only_wakes w (f w a)) → only_wakes w (foldl f w l).
Proof.
  intros Hf. revert w. induction l as [|a l IH]; intros w; [apply only_wakes_refl|]. cbn. eapply only_wakes_trans; [apply Hf|apply IH].
Qed.

Lemma wake_list_only w ts : only_wakes w (wake_list w ts).
Proof. apply foldl_only. intros. apply wake_only. Qed.

Lemma wake_queue_only w k : only_wakes w (wake_queue w k).
Proof.
  unfold wake_queue. generalize (length (queue w.(blocked_queues) k)). intros n. revert w. induction n as [|n IH]; intros w; [apply only_wakes_refl|].
  cbn. case_match; [apply only_wakes_refl|]. eapply only_wakes_trans; [|apply IH].
  eapply only_wakes_trans; [|apply wake_only]. by apply only_wakes_same.
Qed.

Lemma wake_matching_only w k p : only_wakes w (wake_matching w k p).
Proof. unfold wake_matching. eapply only_wakes_trans; [|apply wake_list_only]. by apply only_wakes_same. Qed.

Lemma resched_only w : only_wakes w (request_all_cpus_resched w).
Proof. by apply only_wakes_same. Qed.

Lemma signal_waiters_only w s : only_wakes w (wake_signal_waiters w s).
Proof. apply wake_matching_only. Qed.

#[export] Hint Resolve only_wakes_refl wake_only wake_list_only wake_queue_only wake_matching_only : kernel.

Lemma wake_specific_only w t s : only_wakes w (wake_specific_thread_for_signal w t s).
Proof.
  unfold wake_specific_thread_for_signal. destruct (threads w !! t) as [th|]; [|auto with kernel].
  set (w1 := if _ && _ then map_thread _ _ _ else w). apply (only_wakes_trans w w1).
  - subst w1. case_match; [by apply only_wakes_map|auto with kernel].
  - case_match; auto with kernel.
Qed.

Lemma wake_processes_only w p b : only_wakes w (wake_process_threads w p b).
Proof. apply foldl_only. intros v t. repeat case_match; auto with kernel. Qed.

Lemma wake_pollers_only w ps : only_wakes w (wake_pollers_for_object w ps).
Proof. unfold wake_pollers_for_object. case_match; [auto with kernel|]. eapply only_wakes_trans; [|apply wake_matching_only]. by apply only_wakes_same. Qed.

Lemma wake_signalfd_only fds w p : only_wakes w (wake_signalfd_for_process fds w p).
Proof.
  apply foldl_only. intros v f. case_match; [|auto with kernel]. unfold signalfd_wake_waiters.
  eapply only_wakes_trans; [|apply wake_pollers_only]. apply wake_queue_only.
Qed.

#[export] Hint Resolve wake_specific_only wake_processes_only wake_pollers_only wake_signalfd_only : kernel.

(** ** Lemmas: queueing *)

Definition pend_process (w : World) (pr : Process) (s : Signal) (i : option SigInfo) : Process :=
  with_p_pending_signal_info (with_p_pending_signals pr (insert_bits pr.(p_pending_signals) (mask s)))
    (record_info w pr pr.(p_pending_signals) pr.(p_pending_signal_info) s i).

Definition owned_thread (w : World) (pr : Process) (th : Thread) (s : Signal) (i : option SigInfo) : Thread :=
  with_pending_signal_info (with_pending_signals th (insert_bits th.(pending_signals) (mask s)))
    (record_info w pr th.(pending_signals) th.(pending_signal_info) s i).

Lemma queue_signal_spec fds w p s i :
  s ≠ Signal.SIGCONT →
  only_wakes (match w.(processes) !! p with
              | Some pr => with_processes w (<[p := pend_process w pr s i]> w.(processes))
              | None => w
              end) (queue_signal fds w p s i).
Proof.
  intros Hs. assert (queue_signal fds w p s i =
    match w.(processes) !! p with
    | None => w
    | Some pr =>
        let w1 := map_process w p (λ pr0, with_p_pending_signal_info (with_p_pending_signals pr0 (insert_bits pr0.(p_pending_signals) (mask s)))
                    (record_info w pr pr.(p_pending_signals) pr.(p_pending_signal_info) s i)) in
        wake_process_threads_for_signal (request_all_cpus_resched (wake_signal_waiters (wake_signalfd_for_process fds w1 pr.(pid)) s)) p s
    end) as -> by (destruct s; done).
  destruct (processes w !! p) as [pr|] eqn:Hp; [|auto with kernel]. cbn zeta.
  set (w1 := map_process w p _). assert (w1 = with_processes w (<[p := pend_process w pr s i]> w.(processes))) as <-.
  { subst w1. unfold map_process. f_equal. apply map_eq. intros q. destruct (decide (q = p)) as [->|].
    - by rewrite lookup_alter_eq, lookup_insert_eq, Hp.
    - by rewrite lookup_alter_ne, lookup_insert_ne. }
  eapply only_wakes_trans; [apply wake_signalfd_only|]. eapply only_wakes_trans; [apply signal_waiters_only|].
  eapply only_wakes_trans; [apply resched_only|]. apply foldl_only. auto with kernel.
Qed.

Lemma queue_thread_spec fds w t s i p pr th :
  w.(threads) !! t = Some th → th.(parent) = Some p → w.(processes) !! p = Some pr →
  only_wakes (map_thread w t (λ _, owned_thread w pr th s i)) (queue_signal_to_thread fds w t s i).
Proof.
  intros Ht Hp Hpr. unfold queue_signal_to_thread. rewrite Ht, Hp. cbn [mbind option_bind]. rewrite Hpr. cbn [fmap option_fmap option_map].
  assert (map_thread w t (λ th0, with_pending_signal_info (with_pending_signals th0 (insert_bits th0.(pending_signals) (mask s)))
            (record_info w pr th.(pending_signals) th.(pending_signal_info) s i)) = map_thread w t (λ _, owned_thread w pr th s i)) as ->.
  { unfold map_thread. f_equal. apply map_eq. intros u. destruct (decide (u = t)) as [->|].
    - by rewrite !lookup_alter_eq, Ht.
    - by rewrite !lookup_alter_ne. }
  eapply only_wakes_trans; [apply wake_signalfd_only|]. eapply only_wakes_trans; [apply signal_waiters_only|].
  eapply only_wakes_trans; [apply resched_only|]. auto with kernel.
Qed.

(** ** Lemmas: the pass over the pending signals *)

Section pass.
Context (user_cs user_ss : Z) (frame_end : World → Z → Z).

(** Acting on a list of signals in order. *)
Definition act_all (w : World) (p t : Z) (infos : list (option PendingSignalInfo)) (r : ProcessSignalsResult) (l : list Signal)
  : ProcessSignalsResult * World :=
  foldl (λ rw s,
    let '(r', w') := act_on user_cs user_ss frame_end rw.2 p t s (to_siginfo (take_info infos s)) in
    (result_merge rw.1 r', w')) (r, w) l.

Lemma index_inj s t : Z.to_nat (index s) = Z.to_nat (index t) → s = t.
Proof. unfold index. pose proof (number_range s). pose proof (number_range t). intros Heq. apply (inj number). lia. Qed.

Lemma take_info_other infos s t : s ≠ t → take_info (clear_info infos s) t = take_info infos t.
Proof.
  intros Hne. unfold take_info, clear_info. rewrite list_lookup_insert_ne; [done|]. intros Heq. by apply Hne, index_inj.
Qed.

Lemma deliverable_other pending blocked s t :
  s ≠ t → deliverable (remove_bits pending (mask s)) blocked t = deliverable pending blocked t.
Proof. intros Hne. unfold deliverable. by rewrite contains_remove, bool_decide_eq_false_2. Qed.

Lemma act_all_ext w p t infos infos' r l :
  (∀ s, s ∈ l → take_info infos s = take_info infos' s) → act_all w p t infos r l = act_all w p t infos' r l.
Proof.
  unfold act_all. revert w r. induction l as [|s l IH]; intros w r Hl; [done|]. cbn. rewrite (Hl s) by (by left).
  destruct (act_on _ _ _ _ _ _ _ _) as [r' w']. apply IH. intros u Hu. apply Hl. by right.
Qed.

(** The pass acts on exactly the deliverable signals, in order, and keeps the rest. *)
Lemma pass_spec l w p t pending infos blocked r :
  NoDup l →
  let taken := filter (λ s, deliverable pending blocked s = true) l in
  foldl (deliver user_cs user_ss frame_end p t blocked) (pending, infos, r, w) l =
  (foldl (λ b s, remove_bits b (mask s)) pending taken, foldl clear_info infos taken,
   (act_all w p t infos r taken).1, (act_all w p t infos r taken).2).
Proof.
  revert w pending infos r. induction l as [|s l IH]; intros w pending infos r Hnd; [done|].
  apply NoDup_cons in Hnd as [Hs Hnd]. cbn zeta. rewrite filter_cons. cbn [foldl]. unfold deliver at 2.
  destruct (deliverable pending blocked s) eqn:Hd.
  - rewrite decide_True by done. cbn [foldl].
    unfold act_all. cbn [foldl fst snd]. destruct (act_on _ _ _ w p t s _) as [r' w'].
    specialize (IH w' (remove_bits pending (mask s)) (clear_info infos s) (result_merge r r') Hnd). cbn zeta in IH. rewrite IH.
    assert (∀ u, u ∈ l → s ≠ u) as Hne by (intros u Hu ->; done).
    assert (filter (λ u, deliverable (remove_bits pending (mask s)) blocked u = true) l = filter (λ u, deliverable pending blocked u = true) l) as ->.
    { apply filter_agree. intros u Hu. rewrite deliverable_other by (by apply Hne). done. }
    rewrite (act_all_ext _ _ _ (clear_info infos s) infos); [done|].
    intros u [_ Hu]%list_elem_of_filter. by apply take_info_other, Hne.
  - rewrite decide_False by done. by apply IH.
Qed.

Lemma remove_all_contains l pending s :
  contains (foldl (λ b s, remove_bits b (mask s)) pending l) (mask s) = contains pending (mask s) && negb (bool_decide (s ∈ l)).
Proof.
  revert pending. induction l as [|u l IH]; intros pending; cbn.
  - by rewrite bool_decide_eq_false_2, andb_true_r by apply not_elem_of_nil.
  - rewrite IH, contains_remove. destruct (decide (u = s)) as [->|Hne].
    + rewrite (bool_decide_eq_true_2 (s = s)) by done. rewrite (bool_decide_eq_true_2 (s ∈ s :: l)) by (by left). cbn. by rewrite andb_false_r.
    + rewrite (bool_decide_eq_false_2 (u = s)) by done. cbn. f_equal. f_equal. apply bool_decide_ext. rewrite elem_of_cons.
      split; [by right|intros [->|?]; done].
Qed.

Lemma clear_all_lookup l infos s :
  foldl clear_info infos l !! Z.to_nat (index s) =
  if decide (s ∈ l) then (λ _, None) <$> infos !! Z.to_nat (index s) else infos !! Z.to_nat (index s).
Proof.
  revert infos. induction l as [|u l IH]; intros infos; cbn.
  - by rewrite decide_False by apply not_elem_of_nil.
  - rewrite IH. unfold clear_info. destruct (decide (u = s)) as [->|Hne].
    + rewrite (decide_True (P := s ∈ s :: l)) by (by left).
      destruct (infos !! Z.to_nat (index s)) as [x|] eqn:Hx.
      * rewrite list_lookup_insert_eq by (by eapply lookup_lt_Some). by case_decide.
      * rewrite list_insert_ge by (by apply lookup_ge_None). rewrite Hx. by case_decide.
    + rewrite list_lookup_insert_ne by (intros ?%index_inj; done). destruct (decide (s ∈ l)) as [Hin|Hin].
      * by rewrite decide_True by (by right).
      * rewrite decide_False; [done|]. rewrite elem_of_cons. intros [->|?]; done.
Qed.

(** ** Lemmas: acting on a signal leaves what is pending alone *)

Definition pend_p (pr : Process) : Z * list (option PendingSignalInfo) := (pr.(p_pending_signals), pr.(p_pending_signal_info)).
Definition owned_t (th : Thread) : Z * list (option PendingSignalInfo) * option Z := (th.(pending_signals), th.(pending_signal_info), th.(parent)).

Record same_pending (w w' : World) : Prop := {
  sp_processes p : pend_p <$> w'.(processes) !! p = pend_p <$> w.(processes) !! p;
  sp_actions p : signal_actions <$> w'.(processes) !! p = signal_actions <$> w.(processes) !! p;
  sp_members p : p_threads <$> w'.(processes) !! p = p_threads <$> w.(processes) !! p;
  sp_parents p : p_parent <$> w'.(processes) !! p = p_parent <$> w.(processes) !! p;
  sp_threads t : owned_t <$> w'.(threads) !! t = owned_t <$> w.(threads) !! t;
}.

Lemma same_pending_refl w : same_pending w w.
Proof. by constructor. Qed.

Lemma same_pending_trans w1 w2 w3 : same_pending w1 w2 → same_pending w2 w3 → same_pending w1 w3.
Proof. intros [] []. constructor; congruence. Qed.

Lemma same_pending_map w t f : (∀ th, owned_t (f th) = owned_t th) → same_pending w (map_thread w t f).
Proof.
  intros Hf. constructor; try done. intros u. unfold map_thread. cbn. destruct (decide (u = t)) as [->|].
  - rewrite lookup_alter_eq. destruct (threads w !! t); [|done]. cbn. by rewrite Hf.
  - by rewrite lookup_alter_ne.
Qed.

Lemma same_pending_set w t th th0 :
  w.(threads) !! t = Some th0 → owned_t th = owned_t th0 → same_pending w (map_thread w t (λ _, th)).
Proof.
  intros Ht Hp. constructor; try done. intros u. unfold map_thread. cbn. destruct (decide (u = t)) as [->|].
  - rewrite lookup_alter_eq, Ht. cbn. by rewrite Hp.
  - by rewrite lookup_alter_ne.
Qed.

Lemma terminate_pending w p status : same_pending w (terminate_inner w p status).2.
Proof.
  unfold terminate_inner, map_process. constructor; try done; intros q; cbn; (destruct (decide (q = p)) as [->|];
    [rewrite lookup_alter_eq; destruct (processes w !! p) as [pr|]; [|done]; cbn; by destruct (exit_status pr)|by rewrite lookup_alter_ne]).
Qed.

Lemma enter_handler_pending w p t s a func i : same_pending w (enter_handler user_cs user_ss frame_end w p t s a func i).
Proof.
  unfold enter_handler. destruct (threads w !! t) as [th|] eqn:Ht; [|apply same_pending_refl].
  destruct (restore_temporary_blocked_signals th) as [saved th1] eqn:Hr.
  assert (owned_t th1 = owned_t th) as Hp1.
  { unfold restore_temporary_blocked_signals in Hr. destruct (temporary_blocked_signals th) as [[]|]; by injection Hr as _ <-. }
  set (frame := match i with None => _ | Some _ => _ end). destruct frame as [[arg2 arg3] w1] eqn:Hf.
  assert (w1.(threads) = w.(threads) ∧ w1.(processes) = w.(processes)) as [Ht1 Hp'].
  { subst frame. destruct i; by injection Hf as _ _ <-. }
  cbn [prepare_signal_handler_stack]. set (w2 := write_words w1 p _ _).
  set (th2 := enter_signal_handler _ _). apply (same_pending_trans w w2).
  - constructor; intros q; subst w2; unfold write_words; cbn; by rewrite ?Ht1, ?Hp'.
  - eapply same_pending_set; [subst w2; unfold write_words; cbn; rewrite Ht1; exact Ht|]. by rewrite <- Hp1.
Qed.

Lemma act_on_pending w p t s i : same_pending w (act_on user_cs user_ss frame_end w p t s i).2.
Proof.
  unfold act_on. set (a := match processes w !! p with Some _ => _ | None => _ end).
  destruct a.(handling_type); [|apply same_pending_refl|apply enter_handler_pending..].
  unfold default_signal_action. case_match; [apply terminate_pending|].
  assert (same_pending w (panic w)) by by constructor. destruct s; first [apply same_pending_refl|done].
Qed.

Lemma act_all_pending w p t infos r l : same_pending w (act_all w p t infos r l).2.
Proof.
  unfold act_all. revert w r. induction l as [|s l IH]; intros w r; [apply same_pending_refl|]. cbn.
  pose proof (act_on_pending w p t s (to_siginfo (take_info infos s))) as H. destruct (act_on _ _ _ _ _ _ _ _) as [r' w'].
  eapply same_pending_trans; [exact H|apply IH].
Qed.

(** ** Lemmas: what a pass asks for *)

Definition action_of (w : World) (p : Z) (s : Signal) : SignalAction :=
  match w.(processes) !! p with Some pr => default default_action (pr.(signal_actions) !! Z.to_nat (index s)) | None => default_action end.

Definition stops (s : Signal) : bool :=
  match s with Signal.SIGSTOP | Signal.SIGTSTP | Signal.SIGTTIN | Signal.SIGTTOU => true | _ => false end.

(** The signal takes the thread off its way back to user mode. *)
Definition diverts (w : World) (p : Z) (s : Signal) : bool :=
  match (action_of w p s).(handling_type) with
  | SignalHandlingType.Default => terminates s || stops s
  | SignalHandlingType.Ignore => false
  | _ => true
  end.

Definition kills (w : World) (p : Z) (s : Signal) : bool :=
  match (action_of w p s).(handling_type) with SignalHandlingType.Default => terminates s | _ => false end.

Definition exited (w : World) (p : Z) : Prop := ∃ pr, w.(processes) !! p = Some pr ∧ pr.(exit_status) ≠ None.

Lemma same_pending_action w w' p s : same_pending w w' → action_of w' p s = action_of w p s.
Proof.
  intros H. pose proof (sp_actions w w' H p) as Ha. unfold action_of.
  destruct (processes w' !! p), (processes w !! p); cbn in Ha; try done. by injection Ha as ->.
Qed.

Lemma same_pending_threads_of w w' p : same_pending w w' → threads_of w' p = threads_of w p.
Proof.
  intros H. pose proof (sp_members w w' H p) as Ha. unfold threads_of.
  destruct (processes w' !! p), (processes w !! p); cbn in Ha; try done. by injection Ha.
Qed.

Lemma terminates_stops s : terminates s = true → stops s = false.
Proof. by destruct s. Qed.

Lemma enter_handler_processes w p t s a func i :
  (enter_handler user_cs user_ss frame_end w p t s a func i).(processes) = w.(processes).
Proof.
  unfold enter_handler. destruct (threads w !! t) as [th|]; [|done]. destruct (restore_temporary_blocked_signals th) as [saved th1].
  by destruct i.
Qed.

Lemma act_on_spec w p t s i :
  is_Some (w.(processes) !! p) →
  let '(r, w') := act_on user_cs user_ss frame_end w p t s i in
  r.(should_switch) = diverts w p s ∧
  r.(exited_threads) = (if kills w p s then threads_of w p else []) ∧
  is_Some (w'.(processes) !! p) ∧ (kills w p s = true → exited w' p) ∧ (exited w p → exited w' p).
Proof.
  intros [pr Hpr]. unfold act_on, diverts, kills. fold (action_of w p s). destruct (handling_type (action_of w p s)) as [| |f|f].
  - unfold default_signal_action. destruct (terminates s) eqn:Ht.
    + cbn. unfold map_process, exited. cbn. rewrite lookup_alter_eq, Hpr. cbn. split; [done|]. split; [done|]. split; [done|].
      split; intros _; eexists; (split; [done|]); destruct (exit_status pr) eqn:He; cbn; by rewrite ?He.
    + destruct s; try (by (split; [done|]; split; [done|]; split; [by eexists|])); done.
  - split; [done|]. split; [done|]. split; [by eexists|]. done.
  - unfold exited. rewrite enter_handler_processes. split; [done|]. split; [done|]. split; [by eexists|]. done.
  - unfold exited. rewrite enter_handler_processes. split; [done|]. split; [done|]. split; [by eexists|]. done.
Qed.

Lemma act_all_spec w p t infos r l :
  is_Some (w.(processes) !! p) →
  let '(r', w') := act_all w p t infos r l in
  r'.(should_switch) = r.(should_switch) || existsb (diverts w p) l ∧
  (∀ u, u ∈ r.(exited_threads) → u ∈ r'.(exited_threads)) ∧
  is_Some (w'.(processes) !! p) ∧ (exited w p → exited w' p) ∧
  (existsb (kills w p) l = true → exited w' p ∧ ∀ u, u ∈ threads_of w p → u ∈ r'.(exited_threads)).
Proof.
  unfold act_all. revert w r. induction l as [|s l IH]; intros w r Hp.
  { cbn. rewrite orb_false_r. done. }
  cbn [foldl fst snd existsb]. pose proof (act_on_spec w p t s (to_siginfo (take_info infos s)) Hp) as Hact.
  pose proof (act_on_pending w p t s (to_siginfo (take_info infos s))) as Hsame.
  destruct (act_on _ _ _ w p t s _) as [r1 w1]. destruct Hact as (Hs1 & He1 & Hp1 & Hk1 & Hx1). cbn [snd] in Hsame.
  specialize (IH w1 (result_merge r r1) Hp1). destruct (foldl _ _ l) as [r' w'].
  destruct IH as (Hs & He & Hp' & Hx & Hk).
  assert (∀ l, existsb (diverts w1 p) l = existsb (diverts w p) l ∧ existsb (kills w1 p) l = existsb (kills w p) l) as Hsw.
  { intros l0. induction l0 as [|u l0 [IH1 IH2]]; [done|]. cbn. rewrite IH1, IH2. unfold diverts, kills. by rewrite (same_pending_action w w1). }
  destruct (Hsw l) as [Hd Hkl]. rewrite Hd in Hs. rewrite Hkl in Hk. rewrite (same_pending_threads_of w w1) in Hk by done.
  split; [rewrite Hs; cbn; rewrite Hs1; by rewrite orb_assoc|]. split; [intros u Hu; apply He; cbn; apply elem_of_app; by left|].
  split; [done|]. split; [auto|]. intros [Hks|Hkt]%orb_true_iff; [|by apply Hk]. split; [by apply Hx, Hk1|].
  intros u Hu. apply He. cbn. apply elem_of_app. right. rewrite He1, Hks. done.
Qed.
End pass.

(** ** Lemmas: after the pass *)

(** Nothing changes for threads but their states, and for processes other than [q] but the
    event that a parent waits for. *)
Record same_but (q : option Z) (w w' : World) : Prop := {
  sb_pending p : Some p ≠ q → pend_p <$> w'.(processes) !! p = pend_p <$> w.(processes) !! p;
  sb_exit p : exit_status <$> w'.(processes) !! p = exit_status <$> w.(processes) !! p;
  sb_members p : p_threads <$> w'.(processes) !! p = p_threads <$> w.(processes) !! p;
  sb_threads t : owned_t <$> w'.(threads) !! t = owned_t <$> w.(threads) !! t;
}.

Lemma same_but_refl q w : same_but q w w.
Proof. by constructor. Qed.

Lemma same_but_trans q w1 w2 w3 : same_but q w1 w2 → same_but q w2 w3 → same_but q w1 w3.
Proof.
  intros [] []. constructor; try congruence. intros p Hp. rewrite sb_pending1 by done. by apply sb_pending0.
Qed.

Lemma only_wakes_but q w w' : only_wakes w w' → same_but q w w'.
Proof.
  intros []. constructor; intros; rewrite ?ow_processes0; try done.
  specialize (ow_threads0 t). destruct (threads w' !! t) as [a|], (threads w !! t) as [b|]; try done. cbn in *. injection ow_threads0 as Heq.
  unfold settled, with_interrupted_by_signal, with_state in Heq. cbn in Heq. unfold owned_t. congruence.
Qed.

Lemma map_process_but q w p f :
  (∀ pr, pend_p (f pr) = pend_p pr ∧ (f pr).(exit_status) = pr.(exit_status) ∧ (f pr).(p_threads) = pr.(p_threads)) →
  same_but q w (map_process w p f).
Proof.
  intros Hf. constructor; try done; intros u; unfold map_process; cbn; intros; (destruct (decide (u = p)) as [->|];
    [rewrite lookup_alter_eq; destruct (processes w !! p) as [pr|]; [|done]; destruct (Hf pr) as (? & ? & ?); cbn; congruence|by rewrite lookup_alter_ne]).
Qed.

Lemma map_thread_but q w t f : (∀ th, owned_t (f th) = owned_t th) → same_but q w (map_thread w t f).
Proof.
  intros Hf. constructor; try done. intros u. unfold map_thread. cbn. destruct (decide (u = t)) as [->|].
  - rewrite lookup_alter_eq. destruct (threads w !! t); [|done]. cbn. by rewrite Hf.
  - by rewrite lookup_alter_ne.
Qed.

Lemma same_parts q w w' : w'.(processes) = w.(processes) → w'.(threads) = w.(threads) → same_but q w w'.
Proof. intros Hp Ht. constructor; intros; by rewrite ?Hp, ?Ht. Qed.

Lemma queue_signal_but fds w q s i : s ≠ Signal.SIGCONT → same_but (Some q) w (queue_signal fds w q s i).
Proof.
  intros Hs. eapply same_but_trans; [|apply only_wakes_but, (queue_signal_spec fds w q s i Hs)].
  destruct (processes w !! q) as [pr|] eqn:Hq; [|apply same_but_refl].
  constructor; try done; cbn.
  - intros p Hp. by rewrite lookup_insert_ne by congruence.
  - intros p. destruct (decide (p = q)) as [->|]; [by rewrite lookup_insert_eq, Hq|by rewrite lookup_insert_ne].
  - intros p. destruct (decide (p = q)) as [->|]; [by rewrite lookup_insert_eq, Hq|by rewrite lookup_insert_ne].
Qed.

Lemma report_stop_but fds w p s pr :
  w.(processes) !! p = Some pr → same_but pr.(p_parent) w (report_signal_stop fds w p s).
Proof.
  intros Hp. unfold report_signal_stop, report_wait_event. rewrite Hp. cbn [fmap option_fmap option_map].
  set (event := mkStopped _ _). set (w1 := map_process w p _).
  assert (same_but pr.(p_parent) w w1) as H1 by by apply map_process_but.
  assert (same_but pr.(p_parent) w1 (match p_parent pr with
    | None => w1 | Some q => wake_process_exit_waiters (send_signal_to_process fds w1 q Signal.SIGCHLD) end)) as H2.
  { destruct (p_parent pr) as [q|]; [|apply same_but_refl]. apply (same_but_trans _ _ (send_signal_to_process fds w1 q Signal.SIGCHLD)).
    - by apply queue_signal_but.
    - apply only_wakes_but, wake_matching_only. }
  apply (same_but_trans _ w w1); [exact H1|]. eapply same_but_trans; [exact H2|]. clear.
  generalize (match p_parent pr with None => w1 | Some q => wake_process_exit_waiters (send_signal_to_process fds w1 q Signal.SIGCHLD) end).
  intros w2. destruct ((tracer ∘ ptrace) pr); [by apply map_process_but|apply same_but_refl].
Qed.

Lemma stop_threads_but q w ts : same_but q w (stop_threads w ts).
Proof.
  unfold stop_threads. revert w. induction ts as [|t ts IH]; intros w; [apply same_but_refl|]. cbn.
  apply (same_but_trans q w (set_state w t (State.Blocked BlockType.Stopped))); [by apply map_thread_but|apply IH].
Qed.

Lemma mark_exited_but q w t : same_but q w (mark_thread_exited w t).
Proof.
  unfold mark_thread_exited. destruct (threads w !! t) as [th|]; [|apply same_but_refl].
  case_bool_decide; [apply same_but_refl|]. destruct (parent th); [|by apply same_parts].
  set (w1 := if clear_child_tid th =? 0 then w else _). apply (same_but_trans q w w1).
  { subst w1. case_match; [apply same_but_refl|by apply map_thread_but]. }
  clearbody w1. cbn. set (w2 := with_ready_queues (remove_from_blocked_queues w1 t) _).
  apply (same_but_trans q w1 w2); [|apply (same_but_trans q w2 (set_state w2 t State.Zombie)); [by apply map_thread_but|by case_match; apply same_parts]].
  eapply same_but_trans; [apply only_wakes_but, (remove_blocked_same w1 t)|by apply same_parts].
Qed.

Lemma mark_exited_state w t u th p :
  w.(threads) !! t = Some th → th.(parent) = Some p →
  state_of (mark_thread_exited w t) u = if decide (u = t) then Some State.Zombie else state_of w u.
Proof.
  intros Ht Hp. unfold mark_thread_exited. rewrite Ht. case_bool_decide as Hz.
  { case_decide; [|done]. subst u. unfold state_of. rewrite Ht. cbn. by rewrite Hz. }
  rewrite Hp. set (w1 := if clear_child_tid th =? 0 then w else _).
  assert (∀ v, state_of w1 v = state_of w v) as H1.
  { intros v. subst w1. case_match; [done|]. rewrite state_of_map. case_decide; [|done]. subst v. unfold state_of. by rewrite Ht. }
  assert (is_Some (state_of w t)) as [s0 Hs0] by (unfold state_of; rewrite Ht; by eexists).
  clearbody w1. cbn. set (w2 := with_ready_queues (remove_from_blocked_queues w1 t) _).
  transitivity (state_of (set_state w2 t State.Zombie) u); [by case_match|].
  rewrite state_of_set. change (state_of w2 ?v) with (state_of (remove_from_blocked_queues w1 t) v).
  rewrite !remove_state, !H1, Hs0. done.
Qed.

Lemma mark_list_but q w ts : same_but q w (foldl mark_thread_exited w ts).
Proof.
  revert w. induction ts as [|t ts IH]; intros w; [apply same_but_refl|]. cbn.
  eapply same_but_trans; [apply mark_exited_but|apply IH].
Qed.

Lemma mark_list_zombies w ts u th p :
  w.(threads) !! u = Some th → th.(parent) = Some p → u ∈ ts ∨ state_of w u = Some State.Zombie →
  state_of (foldl mark_thread_exited w ts) u = Some State.Zombie.
Proof.
  revert w th. induction ts as [|t ts IH]; intros w th Hu Hp Hor.
  { destruct Hor as [H|H]; [by apply elem_of_nil in H|done]. }
  cbn. pose proof (sb_threads None _ _ (mark_exited_but None w t) u) as Ho. rewrite Hu in Ho.
  destruct (threads (mark_thread_exited w t) !! u) as [th'|] eqn:Hu'; [|done]. cbn in Ho.
  unfold owned_t in Ho. assert (parent th' = Some p) as Hp' by congruence.
  apply (IH _ th' Hu' Hp'). destruct (decide (u = t)) as [->|Hne].
  - right. by rewrite (mark_exited_state w t t th p), decide_True.
  - destruct Hor as [[->|Hin]%elem_of_cons|Hz]; [done|by left|]. right.
    destruct (threads w !! t) as [tt0|] eqn:Ht; [|unfold mark_thread_exited; by rewrite Ht].
    destruct (parent tt0) as [q|] eqn:Hq; [by rewrite (mark_exited_state w t u tt0 q), decide_False|].
    unfold mark_thread_exited. rewrite Ht, Hq. by case_bool_decide.
Qed.

(** ** Lemmas: the handlers that are entered and the stops *)

Definition handler_of (a : SignalAction) : option Z :=
  match a.(handling_type) with SignalHandlingType.Function1 f | SignalHandlingType.Function2 f => Some f | _ => None end.

(** The signals of a list that have handlers, with those *)
Definition handled (w : World) (p : Z) (l : list Signal) : list (Signal * Z) := omap (λ s, pair s <$> handler_of (action_of w p s)) l.

(** The default action stops the process. *)
Definition halts (w : World) (p : Z) (s : Signal) : bool :=
  match (action_of w p s).(handling_type) with SignalHandlingType.Default => stops s | _ => false end.

Definition entered_t (th : Thread) : SnapshotState * ThreadSnapshot := (th.(snapshot_state), th.(sig_handler_snapshot)).

(** The thread goes on at the start of the handler, with the number of the signal. *)
Definition entered_by (th : Thread) (s : Signal) (func : Z) : Prop :=
  th.(snapshot_state) = SnapshotState.SignalHandler ∧ th.(sig_handler_snapshot).(inner).(rip) = func ∧ th.(sig_handler_snapshot).(inner).(rdi) = number s.

Definition entry_is (o : option (Signal * Z)) (th th' : Thread) : Prop :=
  match o with Some (s, func) => entered_by th' s func | None => entered_t th' = entered_t th end.

Lemma entry_compose o1 o2 th1 th2 th3 : entry_is o1 th1 th2 → entry_is o2 th2 th3 → entry_is (match o2 with Some _ => o2 | None => o1 end) th1 th3.
Proof.
  destruct o2 as [[s2 f2]|]; [done|]. destruct o1 as [[s1 f1]|]; cbn; unfold entered_by, entered_t; [|congruence]. intros (H1 & H2 & H3) [= -> ->]. done.
Qed.

Lemma handled_same w w' p l : (∀ s, action_of w' p s = action_of w p s) → handled w' p l = handled w p l.
Proof. intros Ha. induction l as [|s l IH]; [done|]. unfold handled in *. cbn. rewrite Ha. destruct (handler_of _); cbn; by rewrite IH. Qed.

Lemma last_handled_app w p l k : last (handled w p (l ++ k)) = match last (handled w p k) with Some x => Some x | None => last (handled w p l) end.
Proof. unfold handled. rewrite omap_app, last_app. by destruct (last _). Qed.

Lemma existsb_same {X} (f g : X → bool) l : (∀ x, f x = g x) → existsb f l = existsb g l.
Proof. intros Hfg. induction l as [|x l IH]; [done|]. cbn. by rewrite Hfg, IH. Qed.

(** No thread is entered or left. *)
Definition keeps_entered (w w' : World) : Prop := ∀ u, entered_t <$> w'.(threads) !! u = entered_t <$> w.(threads) !! u.

#[local] Instance keeps_entered_preorder : PreOrder keeps_entered.
Proof. split; [by intros w u|]. intros w1 w2 w3 H1 H2 u. by rewrite H2. Qed.

Lemma keeps_map w t f : (∀ th, entered_t (f th) = entered_t th) → keeps_entered w (map_thread w t f).
Proof.
  intros Hf u. unfold map_thread. cbn. destruct (decide (u = t)) as [->|]; [|by rewrite lookup_alter_ne]. rewrite lookup_alter_eq. destruct (threads w !! t); [|done]. cbn. by rewrite Hf.
Qed.

Lemma keeps_wakes w w' : only_wakes w w' → keeps_entered w w'.
Proof.
  intros [] u. specialize (ow_threads0 u). destruct (threads w' !! u) as [a|], (threads w !! u) as [b|]; try done. cbn in *. injection ow_threads0 as Heq.
  unfold settled, with_interrupted_by_signal, with_state in Heq. cbn in Heq. unfold entered_t. congruence.
Qed.

Lemma keeps_threads w w' : w'.(threads) = w.(threads) → keeps_entered w w'.
Proof. intros Ht u. by rewrite Ht. Qed.

Lemma keeps_report fds w p s : keeps_entered w (report_signal_stop fds w p s).
Proof.
  unfold report_signal_stop, report_wait_event. destruct (processes w !! p) as [pr|]; [|by apply keeps_threads]. cbn [fmap option_fmap option_map].
  set (w1 := map_process w p _). assert (keeps_entered w1 (match p_parent pr with None => w1 | Some q => wake_process_exit_waiters (send_signal_to_process fds w1 q Signal.SIGCHLD) end)) as H1.
  { destruct (p_parent pr) as [q|]; [|done]. transitivity (send_signal_to_process fds w1 q Signal.SIGCHLD); [|apply keeps_wakes, wake_matching_only].
    unfold send_signal_to_process. pose proof (queue_signal_spec fds w1 q Signal.SIGCHLD None ltac:(done)) as Hq. apply keeps_wakes in Hq. etransitivity; [|exact Hq].
    destruct (processes w1 !! q); by apply keeps_threads. }
  transitivity w1; [by apply keeps_threads|]. etransitivity; [exact H1|]. clear.
  generalize (match p_parent pr with None => w1 | Some q => wake_process_exit_waiters (send_signal_to_process fds w1 q Signal.SIGCHLD) end). intros w2.
  by destruct ((tracer ∘ ptrace) pr).
Qed.

Lemma keeps_stop w ts : keeps_entered w (stop_threads w ts).
Proof. unfold stop_threads. revert w. induction ts as [|t ts IH]; intros w; [done|]. cbn. etransitivity; [|apply IH]. by apply keeps_map. Qed.

Lemma keeps_mark_list w ts : keeps_entered w (foldl mark_thread_exited w ts).
Proof.
  revert w. induction ts as [|t ts IH]; intros w; [done|]. cbn. etransitivity; [|apply IH]. unfold mark_thread_exited. destruct (threads w !! t) as [th|]; [|done].
  case_bool_decide; [done|]. destruct (parent th); [|by apply keeps_threads]. set (w1 := if clear_child_tid th =? 0 then w else _).
  assert (keeps_entered w w1) as H1 by (subst w1; case_match; [done|by apply keeps_map]). clearbody w1. cbn. set (w2 := with_ready_queues (remove_from_blocked_queues w1 t) _).
  transitivity w1; [done|]. transitivity w2; [|transitivity (set_state w2 t State.Zombie); [by apply keeps_map|by case_match; apply keeps_threads]].
  etransitivity; [apply keeps_wakes, (remove_blocked_same w1 t)|by apply keeps_threads].
Qed.

Lemma stop_threads_state w ts u : u ∈ ts → is_Some (w.(threads) !! u) → state_of (stop_threads w ts) u = Some (State.Blocked BlockType.Stopped).
Proof.
  assert (∀ ts w, is_Some (w.(threads) !! u) → state_of w u = Some (State.Blocked BlockType.Stopped) → state_of (stop_threads w ts) u = Some (State.Blocked BlockType.Stopped)) as Hstay.
  { clear. induction ts as [|t ts IH]; intros w Hu Hs; [done|]. cbn. apply IH; [|rewrite state_of_set; case_decide as Hut; [subst; by rewrite Hs|done]].
    unfold set_state, map_thread. cbn. destruct (decide (u = t)) as [->|]; [rewrite lookup_alter_eq; by destruct Hu as [x ->]|by rewrite lookup_alter_ne]. }
  revert w. induction ts as [|t ts IH]; intros w; [by intros ?%elem_of_nil|]. intros Hin Hu. cbn.
  assert (is_Some ((set_state w t (State.Blocked BlockType.Stopped)).(threads) !! u)) as Hu'.
  { unfold set_state, map_thread. cbn. destruct (decide (u = t)) as [->|]; [rewrite lookup_alter_eq; by destruct Hu as [x ->]|by rewrite lookup_alter_ne]. }
  destruct (decide (u = t)) as [->|Hne].
  - apply Hstay; [done|]. rewrite state_of_set, decide_True by done. unfold state_of. by destruct Hu as [x ->].
  - apply elem_of_cons in Hin as [->|Hin]; [done|]. by apply IH.
Qed.

Section acting.
Context (user_cs user_ss : Z) (frame_end : World → Z → Z).

Lemma enter_handler_enters w p t s a func i th : w.(threads) !! t = Some th →
  ∃ th', (enter_handler user_cs user_ss frame_end w p t s a func i).(threads) !! t = Some th' ∧ entered_by th' s func.
Proof.
  intros Ht. unfold enter_handler. rewrite Ht. destruct (restore_temporary_blocked_signals th) as [saved th1]. set (frame := match i with None => _ | Some _ => _ end).
  destruct frame as [[arg2 arg3] w1] eqn:Hf. assert (w1.(threads) = w.(threads)) as Hw by (subst frame; destruct i; by injection Hf as _ _ <-).
  cbn [prepare_signal_handler_stack]. eexists. split; [unfold map_thread, write_words; cbn; rewrite lookup_alter_eq, Hw, Ht; reflexivity|by split_and!].
Qed.

Lemma act_on_enters w p t s i th : w.(threads) !! t = Some th →
  ∃ th', (act_on user_cs user_ss frame_end w p t s i).2.(threads) !! t = Some th' ∧ entry_is (pair s <$> handler_of (action_of w p s)) th th'.
Proof.
  intros Ht. unfold act_on, handler_of. fold (action_of w p s). destruct (handling_type (action_of w p s)) as [| |f|f].
  - exists th. split; [|done]. unfold default_signal_action. case_match; [done|]. by destruct s.
  - by exists th.
  - by apply (enter_handler_enters w p t s _ f _ th).
  - by apply (enter_handler_enters w p t s _ f _ th).
Qed.

Lemma act_all_enters w p t infos r l th : w.(threads) !! t = Some th →
  ∃ th', (act_all user_cs user_ss frame_end w p t infos r l).2.(threads) !! t = Some th' ∧ entry_is (last (handled w p l)) th th'.
Proof.
  unfold act_all. revert w r th. induction l as [|s l IH]; intros w r th Ht; [by exists th|]. cbn [foldl fst snd].
  pose proof (act_on_enters w p t s (to_siginfo (take_info infos s)) th Ht) as (th1 & Ht1 & He1).
  pose proof (act_on_pending user_cs user_ss frame_end w p t s (to_siginfo (take_info infos s))) as Hsame. destruct (act_on _ _ _ w p t s _) as [r1 w1]. cbn [snd] in *.
  destruct (IH w1 (result_merge r r1) th1 Ht1) as (th2 & Ht2 & He2). exists th2. split; [exact Ht2|]. rewrite (handled_same w w1) in He2 by (intros u; by apply same_pending_action).
  pose proof (entry_compose _ _ _ _ _ He1 He2) as He. change (s :: l) with ([s] ++ l). rewrite last_handled_app. unfold handled at 2. cbn.
  destruct (last (handled w p l)); [exact He|]. by destruct (handler_of (action_of w p s)).
Qed.

Lemma act_all_stops w p t infos r l :
  let r' := (act_all user_cs user_ss frame_end w p t infos r l).1 in
  r'.(stop_current) = r.(stop_current) || existsb (halts w p) l ∧ (existsb (kills w p) l = false → r'.(exited_threads) = r.(exited_threads)).
Proof.
  unfold act_all. revert w r. induction l as [|s l IH]; intros w r; [by rewrite orb_false_r|]. cbn [foldl fst snd existsb].
  assert (let r1 := (act_on user_cs user_ss frame_end w p t s (to_siginfo (take_info infos s))).1 in r1.(stop_current) = halts w p s ∧ (kills w p s = false → r1.(exited_threads) = [])) as [Hs Hk].
  { unfold act_on, halts, kills. fold (action_of w p s). destruct (handling_type (action_of w p s)); [|done..]. unfold default_signal_action.
    destruct (terminates s) eqn:Ht; [by destruct s|]. by destruct s. }
  pose proof (act_on_pending user_cs user_ss frame_end w p t s (to_siginfo (take_info infos s))) as Hsame. destruct (act_on _ _ _ w p t s _) as [r1 w1]. cbn [fst snd] in *.
  destruct (IH w1 (result_merge r r1)) as [IH1 IH2]. split.
  - rewrite IH1. cbn. rewrite Hs, <- orb_assoc. do 2 f_equal. apply existsb_same. intros u. unfold halts. by rewrite (same_pending_action w w1).
  - intros [Hks Hkl]%orb_false_iff. rewrite IH2; [cbn; by rewrite Hk, app_nil_r|]. rewrite <- Hkl. apply existsb_same. intros u. unfold kills. by rewrite (same_pending_action w w1).
Qed.
End acting.

(** ** The pass before a thread goes back to user mode *)

(** An update of the pending sets alone. *)
Lemma map_process_lookup w p f pr q :
  w.(processes) !! p = Some pr → (map_process w p f).(processes) !! q = if decide (q = p) then Some (f pr) else w.(processes) !! q.
Proof. intros Hp. unfold map_process. cbn. case_decide; [subst q; by rewrite lookup_alter_eq, Hp|by rewrite lookup_alter_ne]. Qed.

Lemma map_thread_lookup w t f th u :
  w.(threads) !! t = Some th → (map_thread w t f).(threads) !! u = if decide (u = t) then Some (f th) else w.(threads) !! u.
Proof. intros Ht. unfold map_thread. cbn. case_decide; [subst u; by rewrite lookup_alter_eq, Ht|by rewrite lookup_alter_ne]. Qed.

#[local] Opaque all_signals.

Section properties.
Context (fds : Z → list Signalfd) (user_cs user_ss : Z) (frame_end : World → Z → Z).

Lemma process_signals_spec w p t blocked pr :
  w.(processes) !! p = Some pr →
  let taken := filter (λ s, deliverable pr.(p_pending_signals) blocked s = true) all_signals in
  let '(r, w') := process_signals user_cs user_ss frame_end w p t blocked in
  (∃ pr', w'.(processes) !! p = Some pr' ∧ pr'.(p_parent) = pr.(p_parent) ∧ pr'.(p_threads) = pr.(p_threads) ∧
     (pr.(exit_status) ≠ None → pr'.(exit_status) ≠ None) ∧
     (existsb (kills w p) taken = true → pr'.(exit_status) ≠ None ∧ ∀ u, u ∈ pr.(p_threads) → u ∈ r.(exited_threads)) ∧
     ∀ s, contains pr'.(p_pending_signals) (mask s) = contains pr.(p_pending_signals) (mask s) && negb (bool_decide (s ∈ taken))) ∧
  r.(should_switch) = existsb (diverts w p) taken ∧
  (∀ q, q ≠ p → pend_p <$> w'.(processes) !! q = pend_p <$> w.(processes) !! q) ∧
  (∀ u, owned_t <$> w'.(threads) !! u = owned_t <$> w.(threads) !! u).
Proof.
  intros Hp taken. unfold process_signals. rewrite Hp.
  set (w1 := map_process w p (λ pr, with_p_pending_signal_info (with_p_pending_signals pr 0) no_infos)).
  pose proof (map_process_lookup w p (λ pr, with_p_pending_signal_info (with_p_pending_signals pr 0) no_infos) pr) as Hl1.
  specialize (λ q, Hl1 q Hp). fold w1 in Hl1.
  unfold process_pending_signals. rewrite (pass_spec _ _ _ _ _ _ _ _ _ blocked _ all_signals_nodup). cbn zeta. fold taken.
  assert (is_Some (w1.(processes) !! p)) as Hs1 by (rewrite Hl1, decide_True; [by eexists|done]).
  pose proof (act_all_spec user_cs user_ss frame_end w1 p t pr.(p_pending_signal_info) result_default taken Hs1) as Hact.
  pose proof (act_all_pending user_cs user_ss frame_end w1 p t pr.(p_pending_signal_info) result_default taken) as Hsame.
  destruct (act_all _ _ _ w1 p t _ _ taken) as [r w2]. cbn [fst snd] in *. destruct Hact as (Hsw & _ & [pr2 Hp2] & Hx & Hk).
  assert (∀ s, action_of w1 p s = action_of w p s) as Hact by (intros s; unfold action_of; rewrite Hl1, decide_True, Hp; done).
  assert (∀ l, existsb (diverts w1 p) l = existsb (diverts w p) l ∧ existsb (kills w1 p) l = existsb (kills w p) l) as Hl.
  { intros l. induction l as [|s l [IH1 IH2]]; [done|]. cbn. rewrite IH1, IH2. unfold diverts, kills. by rewrite Hact. }
  destruct (Hl taken) as [Hd Hkl]. rewrite Hd in Hsw. rewrite Hkl in Hk.
  pose proof (sp_members _ _ Hsame p) as Hm. pose proof (sp_parents _ _ Hsame p) as Hpa. rewrite Hp2, Hl1, decide_True in Hm, Hpa by done.
  cbn in Hm, Hpa. injection Hm as Hm. injection Hpa as Hpa.
  assert (threads_of w1 p = pr.(p_threads)) as Hto by (unfold threads_of; rewrite Hl1, decide_True; done). rewrite Hto in Hk.
  assert (exited w2 p → pr2.(exit_status) ≠ None) as Hex by (intros (pr' & Heq & H); rewrite Hp2 in Heq; by injection Heq as ->).
  set (f := λ pr0, with_p_pending_signal_info _ _).
  pose proof (map_process_lookup w2 p f pr2) as Hl3. specialize (λ q, Hl3 q Hp2). split; [|split; [|split]].
  - exists (f pr2). rewrite Hl3, decide_True by done. split; [done|]. split; [done|]. split; [done|]. split.
    { intros He. apply Hex, Hx. unfold exited. rewrite Hl1, decide_True by done. by eexists. }
    split; [intros [? ?]%Hk; auto|]. intros s. apply remove_all_contains.
  - rewrite Hsw. done.
  - intros q Hq. rewrite Hl3, decide_False by done. rewrite (sp_processes _ _ Hsame), Hl1, decide_False by done. done.
  - intros u. exact (sp_threads _ _ Hsame u).
Qed.

Lemma finish_signals_spec w p t pending infos result th pr :
  w.(threads) !! t = Some th → w.(processes) !! p = Some pr → pr.(p_parent) ≠ Some p →
  let w' := finish_signals fds w p t pending infos result in
  (∃ th', w'.(threads) !! t = Some th' ∧ th'.(pending_signals) = pending) ∧
  (∃ pr', w'.(processes) !! p = Some pr' ∧ pr'.(p_pending_signals) = pr.(p_pending_signals) ∧ pr'.(exit_status) = pr.(exit_status)) ∧
  (∀ u thu q, u ∈ result.(exited_threads) → w.(threads) !! u = Some thu → thu.(parent) = Some q → state_of w' u = Some State.Zombie) ∧
  (∀ q, Some q ≠ pr.(p_parent) → pend_p <$> w'.(processes) !! q = pend_p <$> w.(processes) !! q) ∧
  (∀ u, u ≠ t → owned_t <$> w'.(threads) !! u = owned_t <$> w.(threads) !! u).
Proof.
  intros Ht Hp Hself w'. unfold finish_signals in w'. match goal with _ := context [map_thread w t ?f] |- _ => set (f3 := f) in w' end.
  set (w3 := map_thread w t f3) in w'. pose proof (λ u, map_thread_lookup w t f3 th u Ht) as Hl3. fold w3 in Hl3.
  set (w4 := match stopped_signal result with Some s => report_signal_stop fds w3 p s | None => w3 end) in w'.
  set (w5 := if stop_current result then stop_threads w4 (threads_of w4 p) else w4) in w'.
  assert (same_but pr.(p_parent) w3 w5) as H5.
  { apply (same_but_trans _ w3 w4).
    - subst w4. destruct (stopped_signal result); [|apply same_but_refl]. by apply report_stop_but.
    - subst w5. destruct (stop_current result); [apply stop_threads_but|apply same_but_refl]. }
  assert (same_but pr.(p_parent) w3 w') as H6 by (eapply same_but_trans; [exact H5|apply mark_list_but]).
  assert (∀ th0, owned_t (f3 th0) = (pending, infos, th0.(parent))) as Hf3.
  { intros th0. unfold f3. by destruct (should_switch result), (interruptible_wait_active th0). }
  split; [|split; [|split; [|split]]].
  - pose proof (sb_threads _ _ _ H6 t) as Hu. rewrite Hl3, decide_True in Hu by done. destruct (threads w' !! t) as [th6|]; [|done].
    exists th6. split; [done|]. cbn [fmap option_fmap option_map] in Hu. rewrite Hf3 in Hu. unfold owned_t in Hu. by injection Hu.
  - pose proof (sb_pending _ _ _ H6 p (not_eq_sym Hself)) as Hpend. pose proof (sb_exit _ _ _ H6 p) as Hexit.
    change (w3.(processes)) with (w.(processes)) in *. rewrite Hp in Hpend, Hexit.
    destruct (processes w' !! p) as [pr6|]; [|done]. exists pr6. cbn in Hpend, Hexit. unfold pend_p in Hpend. split; [done|]. split; congruence.
  - intros u thu q Hu Htu Hq. pose proof (sb_threads _ _ _ H5 u) as H7.
    assert (∃ th5, w5.(threads) !! u = Some th5 ∧ th5.(parent) = Some q) as (th5 & Ht5 & Hq5); [|apply (mark_list_zombies w5 _ u th5 q); auto].
    rewrite Hl3 in H7. destruct (threads w5 !! u) as [th5|]; [|case_decide; [done|by rewrite Htu in H7]]. exists th5. split; [done|].
    case_decide as Hut; [subst u; rewrite Ht in Htu; injection Htu as ->|rewrite Htu in H7]; cbn [fmap option_fmap option_map] in H7;
      rewrite ?Hf3 in H7; unfold owned_t in H7; congruence.
  - intros q Hqp. by rewrite (sb_pending _ _ _ H6 q) by done.
  - intros u Hu. by rewrite (sb_threads _ _ _ H6), Hl3, decide_False.
Qed.

(** The part of [signals_delivered] on pending sets, exits and the diversion *)
Lemma signals_taken w p t th pr :
  w.(threads) !! t = Some th → th.(parent) = Some p → w.(processes) !! p = Some pr → pr.(p_parent) ≠ Some p →
  th.(interruptible_wait_active) = false →
  let blocked := th.(blocked_signals) in
  let taken := filter (λ s, deliverable th.(pending_signals) blocked s = true) all_signals ++
               filter (λ s, deliverable pr.(p_pending_signals) blocked s = true) all_signals in
  let kept pending s := contains pending (mask s) && negb (is_unblockable s) && contains blocked (mask s) in
  let '(diverted, w') := process_current_process_signals fds user_cs user_ss frame_end w p t in
  diverted = existsb (diverts w p) taken ∧
  (∃ th', w'.(threads) !! t = Some th' ∧ ∀ s, contains th'.(pending_signals) (mask s) = kept th.(pending_signals) s) ∧
  (∃ pr', w'.(processes) !! p = Some pr' ∧ (∀ s, contains pr'.(p_pending_signals) (mask s) = kept pr.(p_pending_signals) s) ∧
     (existsb (kills w p) taken = true → pr'.(exit_status) ≠ None)) ∧
  (existsb (kills w p) taken = true →
     ∀ u thu q, u ∈ pr.(p_threads) → w.(threads) !! u = Some thu → thu.(parent) = Some q → state_of w' u = Some State.Zombie) ∧
  (∀ q, q ≠ p → Some q ≠ pr.(p_parent) → pend_p <$> w'.(processes) !! q = pend_p <$> w.(processes) !! q) ∧
  (∀ u, u ≠ t → owned_t <$> w'.(threads) !! u = owned_t <$> w.(threads) !! u).
Proof.
  intros Ht Hpar Hp Hself Hint blocked taken kept. unfold process_current_process_signals. rewrite Ht, Hp, Hint, andb_false_r. cbn [andb].
  set (mine := filter (λ s, deliverable th.(pending_signals) blocked s = true) all_signals) in *.
  set (shared := filter (λ s, deliverable pr.(p_pending_signals) blocked s = true) all_signals) in *.
  assert (∀ pending s, contains pending (mask s) && negb (bool_decide (s ∈ filter (λ s, deliverable pending blocked s = true) all_signals)) = kept pending s) as Hkept.
  { intros pending s. unfold kept. rewrite <- andb_assoc. unfold deliverable.
    destruct (contains pending (mask s)) eqn:Hc; [|done]. cbn. destruct (is_unblockable s || negb (contains blocked (mask s))) eqn:Hf.
    - rewrite bool_decide_eq_true_2; [by destruct (is_unblockable s), (contains blocked (mask s))|].
      apply list_elem_of_filter. rewrite Hc, Hf. split; [done|apply all_signals_complete].
    - rewrite bool_decide_eq_false_2; [by destruct (is_unblockable s), (contains blocked (mask s))|].
      intros [H1 _]%list_elem_of_filter. rewrite Hc, Hf in H1. done. }
  set (f0 := λ th0, with_pending_signal_info (with_pending_signals th0 0) no_infos). set (w0 := map_thread w t f0).
  pose proof (λ u, map_thread_lookup w t f0 th u Ht) as Hl0. fold w0 in Hl0.
  unfold process_pending_signals. rewrite (pass_spec _ _ _ _ _ _ _ _ _ blocked _ all_signals_nodup). cbn zeta. fold mine. fold blocked.
  pose proof (act_all_spec user_cs user_ss frame_end w0 p t th.(pending_signal_info) result_default mine) as Hact.
  pose proof (act_all_pending user_cs user_ss frame_end w0 p t th.(pending_signal_info) result_default mine) as Hsame1.
  destruct (act_all _ _ _ w0 p t _ _ mine) as [r1 w1]. cbn [fst snd] in *.
  destruct Hact as (Hsw1 & _ & [pr1 Hp1] & _ & Hk1); [by eexists|].
  assert (∀ l, existsb (diverts w1 p) l = existsb (diverts w p) l ∧ existsb (kills w1 p) l = existsb (kills w p) l) as Hl.
  { intros l. induction l as [|s l [IH1 IH2]]; [done|]. cbn. rewrite IH1, IH2. unfold diverts, kills. by rewrite (same_pending_action w0 w1). }
  assert (pend_p pr1 = pend_p pr ∧ pr1.(p_threads) = pr.(p_threads) ∧ pr1.(p_parent) = pr.(p_parent)) as (Hpp & Hm1 & Hpa1).
  { pose proof (sp_processes _ _ Hsame1 p) as H1. pose proof (sp_members _ _ Hsame1 p) as H2. pose proof (sp_parents _ _ Hsame1 p) as H3.
    change (w0.(processes)) with (w.(processes)) in *. rewrite Hp1, Hp in *. cbn in *. split; [congruence|split; congruence]. }
  assert (pr1.(p_pending_signals) = pr.(p_pending_signals)) as Hpp' by (unfold pend_p in Hpp; congruence).
  pose proof (process_signals_spec w1 p t blocked pr1 Hp1) as H2. rewrite Hpp' in H2. fold shared in H2.
  destruct (process_signals _ _ _ w1 p t blocked) as [r2 w2]. destruct H2 as ((pr2 & Hp2 & Hpa2 & Hm2 & Hx2 & Hk2 & Hc2) & Hsw2 & Hq2 & Hu2).
  destruct (Hl shared) as [Hd2 Hkk2]. rewrite Hd2 in Hsw2. rewrite Hkk2 in Hk2.
  assert (∀ u, owned_t <$> w2.(threads) !! u = owned_t <$> w0.(threads) !! u) as Hu20 by (intros u; rewrite Hu2; apply (sp_threads _ _ Hsame1)).
  assert (∀ u thu q, w.(threads) !! u = Some thu → thu.(parent) = Some q → ∃ th2, w2.(threads) !! u = Some th2 ∧ th2.(parent) = Some q) as Hth2.
  { intros u thu q Htu Hq. pose proof (Hu20 u) as H1. rewrite Hl0 in H1. destruct (threads w2 !! u) as [th2|]; [|case_decide; [done|by rewrite Htu in H1]].
    exists th2. split; [done|]. case_decide; [subst u; rewrite Ht in Htu; injection Htu as ->|rewrite Htu in H1]; cbn in H1; unfold owned_t in H1; cbn in H1; congruence. }
  destruct (Hth2 t th p Ht Hpar) as (th2 & Ht2 & _).
  match goal with |- context [finish_signals fds w2 p t ?b ?i ?r] =>
    destruct (finish_signals_spec w2 p t b i r th2 pr2 Ht2 Hp2) as (Hft & Hfp & Hfz & Hfq & Hfu); [congruence|set (w6 := finish_signals fds w2 p t b i r) in *] end.
  split; [|split; [|split; [|split; [|split]]]].
  - subst taken. cbn. rewrite Hsw1, Hsw2, existsb_app. done.
  - destruct Hft as (th6 & H6 & Hpend). exists th6. split; [done|]. intros s. rewrite Hpend, <- Hkept. apply remove_all_contains.
  - destruct Hfp as (pr6 & H6 & Hpend & Hexit). exists pr6. split; [done|]. split; [intros s; rewrite Hpend, Hc2; apply Hkept|].
    rewrite Hexit. subst taken. rewrite existsb_app. intros [Hkm|Hks]%orb_true_iff; [|by apply Hk2].
    apply Hx2. destruct (Hk1 Hkm) as [(pr' & Heq & He) _]. rewrite Hp1 in Heq. by injection Heq as <-.
  - intros Hkt u thu q Hu Htu Hq. destruct (Hth2 u thu q Htu Hq) as (thu2 & Htu2 & Hqu2). apply (Hfz u thu2 q); [|done..].
    subst taken. rewrite existsb_app in Hkt. apply elem_of_app. apply orb_true_iff in Hkt as [Hkm|Hks].
    + left. destruct (Hk1 Hkm) as [_ Hin]. apply Hin. unfold threads_of. change (w0.(processes)) with (w.(processes)). by rewrite Hp.
    + right. destruct (Hk2 Hks) as [_ Hin]. apply Hin. by rewrite Hm1.
  - intros q Hq Hqp. rewrite Hfq by congruence. rewrite Hq2 by done. apply (sp_processes _ _ Hsame1 q).
  - intros u Hu. rewrite Hfu by done. rewrite Hu20, Hl0, decide_False by done. done.
Qed.

Lemma finish_acted w p t pending infos result th pr : w.(threads) !! t = Some th → w.(processes) !! p = Some pr → pr.(p_parent) ≠ Some p →
  let w' := finish_signals fds w p t pending infos result in
  (∃ th', w'.(threads) !! t = Some th' ∧ entered_t th' = entered_t th) ∧
  (result.(stop_current) = true → result.(exited_threads) = [] → ∀ u, u ∈ pr.(p_threads) → is_Some (w.(threads) !! u) → state_of w' u = Some (State.Blocked BlockType.Stopped)).
Proof.
  intros Ht Hp Hself w'. unfold finish_signals in w'. match goal with _ := context [map_thread w t ?f] |- _ => set (f3 := f) in w' end.
  set (w3 := map_thread w t f3) in w'. set (w4 := match stopped_signal result with Some s => report_signal_stop fds w3 p s | None => w3 end) in w'.
  assert (keeps_entered w w3) as K3 by (apply keeps_map; intros th0; unfold f3; by destruct (should_switch result), (interruptible_wait_active th0)).
  assert (keeps_entered w3 w4) as K4 by (subst w4; destruct (stopped_signal result); [apply keeps_report|done]).
  assert (same_but pr.(p_parent) w3 w4) as B4 by (subst w4; destruct (stopped_signal result); [by apply report_stop_but|apply same_but_refl]). split.
  - assert (keeps_entered w w') as K.
    { transitivity w3; [done|]. transitivity w4; [done|]. etransitivity; [|apply keeps_mark_list]. destruct (stop_current result); [apply keeps_stop|done]. }
    specialize (K t). rewrite Ht in K. destruct (threads w' !! t) as [th'|]; [|done]. exists th'. split; [done|]. by apply (inj Some) in K.
  - intros Hstop Hex u Hu Hthu. subst w'. rewrite Hstop, Hex. cbn [foldl]. apply stop_threads_state.
    + pose proof (sb_members _ _ _ B4 p) as Hm. change (w3.(processes)) with (w.(processes)) in Hm. rewrite Hp in Hm. unfold threads_of. destruct (processes w4 !! p) as [pr4|]; [|done]. cbn in Hm. injection Hm as ->. done.
    + assert (is_Some (w3.(threads) !! u)) as [x3 Hx3].
      { specialize (K3 u). destruct Hthu as [x Hx]. rewrite Hx in K3. destruct (threads w3 !! u); [by eexists|done]. }
      specialize (K4 u). rewrite Hx3 in K4. destruct (threads w4 !! u); [by eexists|done].
Qed.

Lemma signals_acted w p t th pr :
  w.(threads) !! t = Some th → w.(processes) !! p = Some pr → pr.(p_parent) ≠ Some p → th.(interruptible_wait_active) = false →
  let taken := filter (λ s, deliverable th.(pending_signals) th.(blocked_signals) s = true) all_signals ++
               filter (λ s, deliverable pr.(p_pending_signals) th.(blocked_signals) s = true) all_signals in
  let w' := (process_current_process_signals fds user_cs user_ss frame_end w p t).2 in
  (∃ th', w'.(threads) !! t = Some th' ∧ entry_is (last (handled w p taken)) th th') ∧
  (existsb (halts w p) taken = true → existsb (kills w p) taken = false →
     ∀ u, u ∈ pr.(p_threads) → is_Some (w.(threads) !! u) → state_of w' u = Some (State.Blocked BlockType.Stopped)).
Proof.
  intros Ht Hp Hself Hint taken. unfold process_current_process_signals. rewrite Ht, Hp, Hint, andb_false_r. cbn [andb]. set (blocked := th.(blocked_signals)) in *.
  set (mine := filter (λ s, deliverable th.(pending_signals) blocked s = true) all_signals) in *.
  set (shared := filter (λ s, deliverable pr.(p_pending_signals) blocked s = true) all_signals) in *.
  set (w0 := map_thread w t _). assert (∃ th0, w0.(threads) !! t = Some th0 ∧ entered_t th0 = entered_t th) as (th0 & Ht0 & He0) by (eexists; split; [unfold w0; rewrite (map_thread_lookup w t _ th) by done; by rewrite decide_True|done]).
  unfold process_pending_signals. rewrite (pass_spec _ _ _ _ _ _ _ _ _ blocked _ all_signals_nodup). cbn zeta. fold mine.
  destruct (act_all_enters user_cs user_ss frame_end w0 p t th.(pending_signal_info) result_default mine th0 Ht0) as (th1 & Ht1 & He1).
  destruct (act_all_stops user_cs user_ss frame_end w0 p t th.(pending_signal_info) result_default mine) as [Hs1 Hx1].
  pose proof (act_all_pending user_cs user_ss frame_end w0 p t th.(pending_signal_info) result_default mine) as Hsame.
  destruct (act_all _ _ _ w0 p t _ _ mine) as [r1 w1]. cbn [fst snd] in *.
  assert (∀ s, action_of w1 p s = action_of w p s) as Ha1 by (intros s; by apply (same_pending_action w0 w1)).
  rewrite (handled_same w w0) in He1 by done.
  assert (∃ pr1, w1.(processes) !! p = Some pr1 ∧ pr1.(p_threads) = pr.(p_threads) ∧ pr1.(p_parent) = pr.(p_parent) ∧ pend_p pr1 = pend_p pr) as (pr1 & Hp1 & Hm1 & Hpa1 & Hpp1).
  { pose proof (sp_processes _ _ Hsame p) as H1. pose proof (sp_members _ _ Hsame p) as H2. pose proof (sp_parents _ _ Hsame p) as H3.
    change (w0.(processes)) with (w.(processes)) in *. rewrite Hp in *. destruct (processes w1 !! p) as [pr1|]; [|done]. cbn in *. exists pr1. split_and!; congruence. }
  unfold process_signals. rewrite Hp1. set (w2 := map_process w1 p _). unfold process_pending_signals. rewrite (pass_spec _ _ _ _ _ _ _ _ _ blocked _ all_signals_nodup). cbn zeta.
  assert (pr1.(p_pending_signals) = pr.(p_pending_signals)) as -> by (unfold pend_p in Hpp1; congruence). fold shared.
  assert (∀ s, action_of w2 p s = action_of w p s) as Ha2.
  { intros s. rewrite <- Ha1. unfold action_of, w2. rewrite (map_process_lookup w1 p _ pr1), decide_True by done. by rewrite Hp1. }
  destruct (act_all_enters user_cs user_ss frame_end w2 p t pr1.(p_pending_signal_info) result_default shared th1 Ht1) as (th2 & Ht2 & He2).
  destruct (act_all_stops user_cs user_ss frame_end w2 p t pr1.(p_pending_signal_info) result_default shared) as [Hs2 Hx2].
  pose proof (act_all_pending user_cs user_ss frame_end w2 p t pr1.(p_pending_signal_info) result_default shared) as Hsame2.
  destruct (act_all _ _ _ w2 p t _ _ shared) as [r2 w3]. cbn [fst snd] in *. rewrite (handled_same w w2) in He2 by done.
  assert (∃ pr3, w3.(processes) !! p = Some pr3 ∧ pr3.(p_threads) = pr.(p_threads) ∧ pr3.(p_parent) = pr.(p_parent)) as (pr3 & Hp3 & Hm3 & Hpa3).
  { pose proof (sp_members _ _ Hsame2 p) as H2. pose proof (sp_parents _ _ Hsame2 p) as H3. unfold w2 in H2, H3. rewrite (map_process_lookup w1 p _ pr1), decide_True in H2, H3 by done.
    destruct (processes w3 !! p) as [pr3|]; [|done]. cbn in *. exists pr3. split_and!; congruence. }
  set (f4 := λ pr0, with_p_pending_signal_info _ _). set (w4 := map_process w3 p f4).
  assert (w4.(processes) !! p = Some (f4 pr3)) as Hp4 by (unfold w4; by rewrite (map_process_lookup w3 p _ pr3), decide_True).
  match goal with |- context [finish_signals fds w4 p t ?b ?i ?r] => destruct (finish_acted w4 p t b i r th2 (f4 pr3) Ht2 Hp4) as [(th5 & Ht5 & He5) Hst]; [change (pr3.(p_parent) ≠ Some p); congruence|set (w5 := finish_signals fds w4 p t b i r) in *] end.
  split.
  - exists th5. split; [exact Ht5|]. pose proof (entry_compose _ _ _ _ _ He1 He2) as He. unfold taken. rewrite last_handled_app.
    pose proof (entry_compose None (match last (handled w p shared) with Some _ => last (handled w p shared) | None => last (handled w p mine) end) th th0 th2 He0 He) as He3.
    destruct (last (handled w p shared)) as [[s f]|]; [by apply (entry_compose (Some (s, f)) None th th2 th5)|].
    destruct (last (handled w p mine)) as [[s f]|]; [by apply (entry_compose (Some (s, f)) None th th2 th5)|]. cbn in *. congruence.
  - unfold taken. rewrite !existsb_app. intros Hh [Hk1 Hk2]%orb_false_iff u Hu Hthu.
    assert (∀ v l, (∀ s, action_of v p s = action_of w p s) → existsb (halts v p) l = existsb (halts w p) l ∧ existsb (kills v p) l = existsb (kills w p) l) as Hex.
    { intros v l Hv. split; apply existsb_same; intros s; unfold halts, kills; by rewrite Hv. }
    destruct (Hex w0 mine ltac:(done)) as [E1 E2]. destruct (Hex w2 shared Ha2) as [E3 E4]. rewrite E1 in Hs1. rewrite E2 in Hx1. rewrite E3 in Hs2. rewrite E4 in Hx2. cbn in Hs1, Hs2.
    apply Hst; [cbn; by rewrite Hs1, Hs2|cbn; by rewrite Hx1, Hx2|change (u ∈ pr3.(p_threads)); by rewrite Hm3|].
    pose proof (sp_threads _ _ Hsame2 u) as T2. pose proof (sp_threads _ _ Hsame u) as T1. change (w4.(threads)) with (w3.(threads)). change (w2.(threads)) with (w1.(threads)) in T2. rewrite T1 in T2.
    unfold w0 in T2. rewrite (map_thread_lookup w t _ th) in T2 by done. destruct Hthu as [x Hx]. rewrite Hx in T2. destruct (threads w3 !! u); [by eexists|]. by case_decide.
Qed.

(** C14. Before a thread that is in no interruptible wait goes back to user mode, exactly its
    deliverable signals are taken: those pending for it or its process that its mask does not
    block or that cannot be blocked.  All others stay pending, and no other thread's or
    process's pending signals change, apart from the parent's, who is told of a stop.  The
    thread is diverted exactly when a taken signal has a handler or its default action ends
    or stops the process.  After an action that ends it, the process has an exit status and
    all its threads are gone; after one that stops it, and none that ends it, all its threads
    are stopped; and the thread goes on at the start of the handler, with the number of the
    signal, of the last taken signal that has one (of several only that one is entered), or
    where it was when none has. *)
Theorem signals_delivered w p t th pr :
  w.(threads) !! t = Some th → th.(parent) = Some p → w.(processes) !! p = Some pr → pr.(p_parent) ≠ Some p →
  th.(interruptible_wait_active) = false →
  let blocked := th.(blocked_signals) in
  let taken := filter (λ s, deliverable th.(pending_signals) blocked s = true) all_signals ++
               filter (λ s, deliverable pr.(p_pending_signals) blocked s = true) all_signals in
  let kept pending s := contains pending (mask s) && negb (is_unblockable s) && contains blocked (mask s) in
  let '(diverted, w') := process_current_process_signals fds user_cs user_ss frame_end w p t in
  diverted = existsb (diverts w p) taken ∧
  (∃ th', w'.(threads) !! t = Some th' ∧ ∀ s, contains th'.(pending_signals) (mask s) = kept th.(pending_signals) s) ∧
  (∃ pr', w'.(processes) !! p = Some pr' ∧ (∀ s, contains pr'.(p_pending_signals) (mask s) = kept pr.(p_pending_signals) s) ∧
     (existsb (kills w p) taken = true → pr'.(exit_status) ≠ None)) ∧
  (existsb (kills w p) taken = true →
     ∀ u thu q, u ∈ pr.(p_threads) → w.(threads) !! u = Some thu → thu.(parent) = Some q → state_of w' u = Some State.Zombie) ∧
  (∀ q, q ≠ p → Some q ≠ pr.(p_parent) → pend_p <$> w'.(processes) !! q = pend_p <$> w.(processes) !! q) ∧
  (∀ u, u ≠ t → owned_t <$> w'.(threads) !! u = owned_t <$> w.(threads) !! u) ∧
  (∃ th', w'.(threads) !! t = Some th' ∧ entry_is (last (handled w p taken)) th th') ∧
  (existsb (halts w p) taken = true → existsb (kills w p) taken = false →
     ∀ u, u ∈ pr.(p_threads) → is_Some (w.(threads) !! u) → state_of w' u = Some (State.Blocked BlockType.Stopped)).
Proof.
  intros Ht Hpar Hp Hself Hint blocked taken kept. pose proof (signals_taken w p t th pr Ht Hpar Hp Hself Hint) as H1. pose proof (signals_acted w p t th pr Ht Hp Hself Hint) as [H2 H3].
  cbn zeta in *. fold blocked taken in H1, H2, H3. destruct (process_current_process_signals _ _ _ _ _ _ _) as [diverted w']. destruct H1 as (? & ? & ? & ? & ? & ?). by split_and!.
Qed.

End properties.

(** *** Sending *)

Section sending.
Context (fds : Z → list Signalfd).

Lemma process_list_elem w q pr : (q, pr) ∈ process_list w ↔ w.(processes) !! q = Some pr.
Proof. unfold process_list. rewrite (sort_by_perm _ _), elem_of_map_to_list. done. Qed.

Lemma elem_of_processes w q (P : Z * Process → Prop) `{∀ x, Decision (P x)} :
  q ∈ map fst (filter P (process_list w)) ↔ ∃ pr, w.(processes) !! q = Some pr ∧ P (q, pr).
Proof.
  rewrite list_elem_of_fmap. split.
  - intros ([q' pr] & -> & [HP Hin]%list_elem_of_filter). apply process_list_elem in Hin. by exists pr.
  - intros (pr & Hin & HP). exists (q, pr). split; [done|]. apply list_elem_of_filter. by rewrite process_list_elem.
Qed.

(** The processes a pid argument names. *)
Definition named (w : World) (current : Z) (pr : Process) (pid q : Z) : Prop :=
  ∃ pq, w.(processes) !! q = Some pq ∧ is_Some (pid_visible_from_namespace_inode pq pr.(pid_namespace)) ∧
    ((pid ≤ -2 ∧ pq.(group_id) = negated_group pid) ∨ (pid = -1 ∧ q ≠ current) ∨ (pid = 0 ∧ pq.(group_id) = pr.(group_id)) ∨
     (0 < pid ∧ pid_visible_from_namespace_inode pq pr.(pid_namespace) = Some pid)).

Lemma negated_group_small pid : - 2 ^ 31 < pid < 0 → negated_group pid = - pid.
Proof. intros Hp. unfold negated_group. rewrite swrap_id by (done || unfold is_sint; lia). unfold uwrap. apply Z.mod_small. lia. Qed.

Lemma kill_targets_spec w current pr pid :
  match kill_targets w current pr pid with
  | Err e => e = SyscallError.NoProcess ∧ ∀ q, ¬ named w current pr pid q
  | Ok targets => (∀ q, q ∈ targets → named w current pr pid q) ∧
      if decide (0 < pid) then ∃ q, targets = [q] else ∀ q, named w current pr pid q → q ∈ targets
  end.
Proof.
  unfold kill_targets, visible_from, named. destruct (Z.leb_spec pid (-2)); [|destruct (Z.eqb_spec pid (-1)) as [->|]; [|destruct (Z.eqb_spec pid 0) as [->|]]].
  - rewrite decide_False by lia. split; intros q; rewrite elem_of_processes; setoid_rewrite andb_true_iff; setoid_rewrite bool_decide_eq_true; setoid_rewrite Z.eqb_eq; naive_solver lia.
  - rewrite decide_False by lia. split; intros q; rewrite elem_of_processes; setoid_rewrite andb_true_iff; setoid_rewrite bool_decide_eq_true; setoid_rewrite negb_true_iff; setoid_rewrite Z.eqb_neq; naive_solver lia.
  - rewrite decide_False by lia. split; intros q; rewrite elem_of_processes; setoid_rewrite andb_true_iff; setoid_rewrite bool_decide_eq_true; setoid_rewrite Z.eqb_eq; naive_solver lia.
  - destruct (List.find _ _) as [[q pq]|] eqn:Hf; cbn.
    + apply find_some in Hf as [Hin Hb]. apply bool_decide_eq_true in Hb. apply list_elem_of_In, process_list_elem in Hin. cbn in Hb. split.
      * intros q' ->%list_elem_of_singleton. exists pq. split; [done|]. split; [by eexists|]. right; right; right. split; [lia|done].
      * rewrite decide_True by lia. by exists q.
    + split; [done|]. intros q (pq & Hq & _ & [H2|[H2|[H2|[_ H2]]]]); try lia.
      apply process_list_elem, list_elem_of_In in Hq. pose proof (find_none _ _ Hf _ Hq) as H3. cbn in H3.
      by rewrite bool_decide_eq_false in H3.
Qed.

Lemma contained_insert set bits : contains set bits = true → insert_bits set bits = set.
Proof.
  unfold contains, insert_bits. intros H1%Z.eqb_eq. rewrite <- H1. apply Z.bits_inj'. intros n _.
  rewrite Z.lor_spec, Z.land_spec. by destruct (Z.testbit set n), (Z.testbit bits n).
Qed.

Lemma queue_signal_pending w p s i q :
  s ≠ Signal.SIGCONT →
  p_pending_signals <$> (queue_signal fds w p s i).(processes) !! q =
  (λ pr, if decide (q = p) then insert_bits pr.(p_pending_signals) (mask s) else pr.(p_pending_signals)) <$> w.(processes) !! q.
Proof.
  intros Hs. rewrite (ow_processes _ _ (queue_signal_spec fds w p s i Hs)). destruct (processes w !! p) as [pr|] eqn:Hp; cbn.
  - case_decide as Hq; [subst q; by rewrite lookup_insert_eq, Hp|by rewrite lookup_insert_ne].
  - case_decide as Hq; [subst q; by rewrite Hp|done].
Qed.

(** What a queueing keeps of a process: what a signal says that is pending already. *)
Definition info_at (s : Signal) (pr : Process) : option PendingSignalInfo := mjoin (pr.(p_pending_signal_info) !! Z.to_nat (index s)).

Definition keeps_first (s : Signal) (w w' : World) : Prop := ∀ q pr i,
  w.(processes) !! q = Some pr → contains pr.(p_pending_signals) (mask s) = true → info_at s pr = Some i →
  ∃ pr', w'.(processes) !! q = Some pr' ∧ pr'.(p_pending_signals) = pr.(p_pending_signals) ∧ info_at s pr' = Some i.

Lemma keeps_first_trans s w1 w2 w3 : keeps_first s w1 w2 → keeps_first s w2 w3 → keeps_first s w1 w3.
Proof.
  intros H1 H2 q pr i Hq Hc Hi. destruct (H1 q pr i Hq Hc Hi) as (pr' & Hq' & Hp' & Hi').
  destruct (H2 q pr' i Hq') as (pr'' & ? & ? & ?); [congruence|done|]. exists pr''. split; [done|]. split; [congruence|done].
Qed.

Lemma queue_signal_keeps w p s i : s ≠ Signal.SIGCONT → keeps_first s w (queue_signal fds w p s i).
Proof.
  intros Hs q pr i0 Hq Hc Hi. rewrite (ow_processes _ _ (queue_signal_spec fds w p s i Hs)).
  destruct (processes w !! p) as [pp|] eqn:Hp; [|by exists pr]. cbn. destruct (decide (q = p)) as [->|]; [|rewrite lookup_insert_ne by done; by exists pr].
  rewrite lookup_insert_eq. rewrite Hp in Hq. injection Hq as ->. eexists. split; [done|]. cbn. split; [by apply contained_insert|].
  unfold info_at in *. cbn. unfold record_info. rewrite Hc, Hi. cbn. by destruct i.
Qed.

Lemma queue_signal_threads w p s i u :
  s ≠ Signal.SIGCONT → settled <$> (queue_signal fds w p s i).(threads) !! u = settled <$> w.(threads) !! u.
Proof. intros Hs. rewrite (ow_threads _ _ (queue_signal_spec fds w p s i Hs)). by destruct (processes w !! p). Qed.

(** Queueing for a list of processes, some of which are exempt. *)
Lemma queue_all_spec s (exempt : Z → bool) info l w :
  s ≠ Signal.SIGCONT →
  let w' := foldl (λ w p, if exempt p then w else queue_signal fds w p s info) w l in
  (∀ q, p_pending_signals <$> w'.(processes) !! q =
        (λ pr, if decide (q ∈ l ∧ exempt q = false) then insert_bits pr.(p_pending_signals) (mask s) else pr.(p_pending_signals)) <$> w.(processes) !! q) ∧
  keeps_first s w w' ∧
  ∀ u, settled <$> w'.(threads) !! u = settled <$> w.(threads) !! u.
Proof.
  intros Hs. revert w. induction l as [|p l IH]; intros w; cbn.
  - split; [|split; [by intros q pr i ? ? ?; exists pr|done]].
    intros q. destruct (processes w !! q); [|done]. cbn. rewrite decide_False; [done|]. by intros [[]%not_elem_of_nil _].
  - set (w1 := if exempt p then w else queue_signal fds w p s info). destruct (IH w1) as (H1 & H2 & H3). cbn zeta in *. split; [|split].
    + intros q. rewrite H1. transitivity ((λ x, if decide (q ∈ l ∧ exempt q = false) then insert_bits x (mask s) else x) <$> (p_pending_signals <$> w1.(processes) !! q)).
      { rewrite <- option_fmap_compose. done. }
      assert (p_pending_signals <$> w1.(processes) !! q = (λ pr, if decide (q = p ∧ exempt q = false) then insert_bits pr.(p_pending_signals) (mask s) else pr.(p_pending_signals)) <$> w.(processes) !! q) as ->.
      { subst w1. destruct (exempt p) eqn:Hx; [|rewrite queue_signal_pending by done]; (destruct (processes w !! q); [|done]; cbn).
        - rewrite decide_False; [done|]. intros [-> ?]. congruence.
        - f_equal. destruct (decide (q = p)) as [->|]; [by rewrite decide_True|]. rewrite decide_False; [done|]. by intros []. }
      rewrite <- option_fmap_compose. destruct (processes w !! q) as [pr|]; [|done]. cbn. f_equal.
      destruct (decide (q ∈ l ∧ exempt q = false)) as [[Hl Hx]|Hl], (decide (q = p ∧ exempt q = false)) as [[-> Hp]|Hp].
      * rewrite decide_True by (split; [by left|done]). unfold insert_bits. by rewrite <- Z.lor_assoc, Z.lor_diag.
      * rewrite decide_True by (split; [by right|done]). done.
      * rewrite decide_True by (split; [by left|done]). done.
      * rewrite decide_False; [done|]. intros [[->|?]%elem_of_cons ?]; tauto.
    + apply (keeps_first_trans s w w1); [|done]. subst w1. destruct (exempt p); [by intros q pr i ? ? ?; exists pr|by apply queue_signal_keeps].
    + intros u. rewrite H3. subst w1. destruct (exempt p); [done|by apply queue_signal_threads].
Qed.

(** [kill], for a signal other than SIGCONT, makes the signal pending for exactly the processes
    its argument names, but for the first process of a namespace that would kill itself; it
    fails exactly when it names none. What was pending stays pending, with what the first
    sender said, and threads are at most woken. *)
Lemma kill_reaches_targets w t pid sig s current pr :
  process_of w t = Some current → parent_of w t = Some pr → parse_signal sig = Ok s → s ≠ Signal.SIGCONT →
  match kill fds t w pid sig with
  | (Err e, w') => e = SyscallError.NoProcess ∧ w' = w ∧ ∀ q, ¬ named w current pr pid q
  | (Ok v, w') =>
      v = 0 ∧ ∃ targets, targets ≠ [] ∧ (∀ q, q ∈ targets → named w current pr pid q) ∧
      (if decide (0 < pid) then ∃ q, targets = [q] else ∀ q, named w current pr pid q → q ∈ targets) ∧
      (∀ q, p_pending_signals <$> w'.(processes) !! q =
        (λ pq, if decide (q ∈ targets ∧ ¬ (s = Signal.SIGKILL ∧ q = current ∧ pr.(pid_namespace_local_pid) = Some 1))
               then insert_bits pq.(p_pending_signals) (mask s) else pq.(p_pending_signals)) <$> w.(processes) !! q) ∧
      keeps_first s w w' ∧
      ∀ u, settled <$> w'.(threads) !! u = settled <$> w.(threads) !! u
  end.
Proof.
  intros Hcur Hpar Hsig Hs. unfold kill.
  assert ((sig =? 0) = false) as ->. { destruct (Z.eqb_spec sig 0) as [->|]; [by vm_compute in Hsig|done]. }
  cbn [mbind result_mbind]. rewrite Hsig. cbn [mbind result_mbind]. rewrite Hcur, Hpar. pose proof (kill_targets_spec w current pr pid) as Ht.
  destruct (kill_targets w current pr pid) as [targets|e]; [|naive_solver]. destruct Ht as [Hin Hall]. destruct targets as [|p l] eqn:Hl.
  - split; [done|]. split; [done|]. intros q Hq. case_decide; [by destruct Hall|]. apply (not_elem_of_nil q). by apply Hall.
  - rewrite <- Hl in *. assert (targets ≠ []) as Hne by (by rewrite Hl). clear Hl. split; [done|]. exists targets. split; [done|]. split; [done|]. split; [done|].
    set (exempt := λ q, bool_decide (s = Signal.SIGKILL) && (q =? current) && bool_decide (pr.(pid_namespace_local_pid) = Some 1)).
    match goal with |- context [Some (for_process_signal ?a ?b ?c)] =>
      destruct (queue_all_spec s exempt (Some (for_process_signal a b c)) targets w Hs) as (H1 & H2 & H3) end.
    split; [|by split]. intros q. rewrite H1. destruct (processes w !! q) as [pq|]; [|done]. cbn. f_equal. apply decide_ext.
    subst exempt. cbn beta. rewrite !andb_false_iff, !bool_decide_eq_false, Z.eqb_neq.
    destruct (decide (s = Signal.SIGKILL)), (decide (q = current)), (decide (pid_namespace_local_pid pr = Some 1)); tauto.
Qed.

End sending.

(** *** Masks around handlers *)

Section masks.
Context (user_cs user_ss : Z) (frame_end : World → Z → Z).

(** What a handler is entered with. *)
Record Entry := mkEntry { e_signal : Signal; e_action : SignalAction; e_func : Z; e_info : option SigInfo }.

Definition enter (p t : Z) (w : World) (e : Entry) : World :=
  enter_handler user_cs user_ss frame_end w p t e.(e_signal) e.(e_action) e.(e_func) e.(e_info).

(** The mask of a thread apart from a temporary one, and the masks it goes back to. *)
Definition mask_view (th : Thread) : Z * list Z := ((restore_temporary_blocked_signals th).1, th.(saved_blocked_signals)).

Definition handler_mask (e : Entry) : Z := insert_bits e.(e_action).(sig_handler_ignored_sigs) (mask e.(e_signal)).
Definition push_mask (v : Z * list Z) (e : Entry) : Z * list Z := (insert_bits v.1 (handler_mask e), v.2 ++ [v.1]).
Definition pop_mask (v : Z * list Z) : Z * list Z :=
  match last v.2 with Some m => (m, removelast v.2) | None => v end.

Lemma pop_push v e : pop_mask (push_mask v e) = v.
Proof. destruct v. unfold pop_mask, push_mask. cbn. by rewrite last_snoc, removelast_last. Qed.

Lemma pop_pushes v l : Nat.iter (length l) pop_mask (foldl push_mask v l) = v.
Proof.
  induction l as [|e l IH] using rev_ind; [done|]. rewrite foldl_snoc, length_app, Nat.add_comm. cbn [length plus].
  by rewrite Nat.iter_succ_r, pop_push.
Qed.

(** The thread has no temporary mask. *)
Definition masked (w : World) (t : Z) (v : Z * list Z) : Prop :=
  ∃ th, w.(threads) !! t = Some th ∧ th.(temporary_blocked_signals) = None ∧ mask_view th = v.

Lemma enter_masked w p t e th :
  w.(threads) !! t = Some th → masked (enter p t w e) t (push_mask (mask_view th) e).
Proof.
  intros Ht. unfold enter, enter_handler. rewrite Ht. unfold mask_view, restore_temporary_blocked_signals, masked.
  destruct th.(temporary_blocked_signals) as [[old new]|] eqn:Htmp, (e_info e) as [i|]; unfold map_thread; cbn;
    rewrite lookup_alter_eq, Ht; cbn; (eexists; split; [reflexivity|]); cbn; rewrite ?Htmp;
    (split; [done|]); unfold mask_view, restore_temporary_blocked_signals; cbn; rewrite ?Htmp; done.
Qed.

Lemma return_masked w t v : masked w t v → masked (rt_sigreturn t w) t (pop_mask v).
Proof.
  intros (th & Ht & Htmp & <-). unfold masked, rt_sigreturn, map_current, map_thread. cbn. rewrite lookup_alter_eq, Ht. cbn.
  eexists. split; [done|]. rewrite Htmp. unfold mask_view, pop_mask, restore_blocked_signals, restore_temporary_blocked_signals. cbn. rewrite Htmp. cbn.
  destruct (last _) eqn:Hl; cbn; by rewrite Htmp.
Qed.

Lemma enters_masked w p t l th :
  w.(threads) !! t = Some th → l ≠ [] → masked (foldl (enter p t) w l) t (foldl push_mask (mask_view th) l).
Proof.
  intros Ht. induction l as [|e l IH] using rev_ind; [done|]. intros _. rewrite !foldl_snoc.
  destruct l as [|e0 l]; [by apply enter_masked|]. destruct IH as (th' & H1 & H2 & <-); [done|]. by apply enter_masked.
Qed.

Lemma returns_masked w t v n : masked w t v → masked (Nat.iter n (rt_sigreturn t) w) t (Nat.iter n pop_mask v).
Proof. intros Hw. induction n as [|n IH]; [done|]. by apply return_masked. Qed.

Lemma contains_self x : contains x x = true.
Proof. unfold contains. by rewrite Z.land_diag, Z.eqb_refl. Qed.

Lemma pushes_contain v l e u :
  e ∈ l → contains (handler_mask e) (mask u) = true → contains (foldl push_mask v l).1 (mask u) = true.
Proof.
  induction l as [|e0 l IH] using rev_ind; [by intros []%not_elem_of_nil|]. rewrite foldl_snoc. cbn.
  unfold insert_bits. rewrite contains_lor. intros [Hin| ->%list_elem_of_singleton]%elem_of_app Hc; [by rewrite IH|by rewrite Hc, orb_true_r].
Qed.

(** Handlers entered one right after the other: then the signals they are run for and the masks
    of their actions are blocked, and after as many returns, with nothing in between, the
    thread has the mask it had before them, or before the temporary one it waited under.
    With other steps in between this fails ([temporary_mask_in_handler_unblocks]). *)
Lemma handler_masks_nest w p t th l :
  w.(threads) !! t = Some th → l ≠ [] →
  (∃ th', (foldl (enter p t) w l).(threads) !! t = Some th' ∧
    ∀ e, e ∈ l → contains th'.(blocked_signals) (mask e.(e_signal)) = true ∧
      ∀ u, contains e.(e_action).(sig_handler_ignored_sigs) (mask u) = true → contains th'.(blocked_signals) (mask u) = true) ∧
  ∃ th', (Nat.iter (length l) (rt_sigreturn t) (foldl (enter p t) w l)).(threads) !! t = Some th' ∧
    th'.(blocked_signals) = match th.(temporary_blocked_signals) with Some (old_mask, _) => old_mask | None => th.(blocked_signals) end ∧
    th'.(saved_blocked_signals) = th.(saved_blocked_signals) ∧ th'.(temporary_blocked_signals) = None.
Proof.
  intros Ht Hl. pose proof (enters_masked w p t l th Ht Hl) as Hm. split.
  - destruct Hm as (th' & H1 & Htmp & Hv). exists th'. split; [done|]. intros e He.
    assert (∀ u, contains (handler_mask e) (mask u) = true → contains th'.(blocked_signals) (mask u) = true) as Hall.
    { intros u Hu. pose proof (pushes_contain (mask_view th) l e u He Hu) as H2. rewrite <- Hv in H2.
      unfold mask_view, restore_temporary_blocked_signals in H2. by rewrite Htmp in H2. }
    split; [|intros u Hu]; apply Hall; unfold handler_mask, insert_bits; rewrite contains_lor, ?contains_self, ?Hu; auto with bool.
  - apply (returns_masked _ _ _ (length l)) in Hm. rewrite pop_pushes in Hm. destruct Hm as (th' & H1 & Htmp & Hv). exists th'. split; [done|].
    unfold mask_view, restore_temporary_blocked_signals in Hv. rewrite Htmp in Hv. injection Hv as Hb Hs.
    rewrite Hb, Hs. by destruct (temporary_blocked_signals th) as [[]|].
Qed.
End masks.

(** *** Actions *)

Lemma encode_decode a : encode_sigaction (decode_sigaction a) = a.
Proof.
  destruct a as [h f r k]. unfold decode_sigaction, encode_sigaction. cbn.
  destruct (Z.eqb_spec h SIG_DFL) as [->|]; cbn; [by rewrite Z.lor_0_r|]. destruct (Z.eqb_spec h SIG_IGN) as [->|]; cbn; [by rewrite Z.lor_0_r|].
  destruct (contains f SA_SIGINFO) eqn:Hc; cbn; [|by rewrite Z.lor_0_r]. f_equal. by apply contained_insert.
Qed.

(** C40. The action that [rt_sigaction] installs for a signal is the one it reads back, bit for
    bit, and the one that the delivery of the signal acts on; no other action changes. *)
Theorem sigaction_reads_back {M} `{um : UserMemoryLaws M LinuxSigAction} t w (m : M) sig new old a s p pr w' m1 m' w2 m2 v v2 :
  new ≠ 0 → old ≠ 0 → addrspace_read m new = (Ok a, m1) → parse_signal sig = Ok s →
  process_of w t = Some p → w.(processes) !! p = Some pr → length pr.(signal_actions) = 64%nat →
  rt_sigaction t w m sig new 0 8 = (Ok v, (w', m')) → rt_sigaction t w' m' sig 0 old 8 = (Ok v2, (w2, m2)) →
  (addrspace_read m2 old).1 = Ok a ∧ w2 = w' ∧ action_of w' p s = decode_sigaction a ∧
  ∀ u, u ≠ s → action_of w' p u = action_of w p u.
Proof.
  intros Hnew Hold Hread Hsig Hp Hpr Hlen. unfold rt_sigaction, parent_of, read_opt, user_read.
  destruct (Z.eqb_spec new 0) as [->|_]; [done|]. rewrite Hsig, Hp, Hread. cbn [mbind option_bind result_mbind negb Z.eqb Pos.eqb SIGSET_SIZE]. rewrite Hpr.
  cbn [write_opt Z.eqb]. intros [= <- <- <-].
  set (w' := map_process w p _). change (process_of w' t) with (process_of w t). rewrite Hp. cbn [mbind option_bind].
  assert (∃ pr', w'.(processes) !! p = Some pr' ∧ pr'.(signal_actions) = <[Z.to_nat (index s) := decode_sigaction a]> pr.(signal_actions)) as (pr' & Hpr' & Hacts).
  { subst w'. unfold map_process. cbn. rewrite lookup_alter_eq, Hpr. cbn. by eexists. }
  rewrite Hpr', Hacts. assert (Z.to_nat (index s) < 64)%nat as Hidx by (pose proof (number_range s); unfold index, SIGNAL_AMOUNT in *; lia).
  rewrite list_lookup_insert_eq by lia. cbn [from_option]. unfold Datatypes.id. rewrite encode_decode. unfold write_opt.
  destruct (Z.eqb_spec old 0) as [->|_]; [done|]. destruct (user_write m1 old a) as [[[]|e] m3] eqn:Hw; [|done]. intros [= _ <- <-].
  split; [|split; [done|]].
  - apply user_write_read in Hw. unfold user_read in Hw. by destruct (Z.eqb_spec old 0).
  - unfold action_of. rewrite Hpr', Hpr, Hacts. split; [by rewrite list_lookup_insert_eq by lia|]. intros u Hu.
    rewrite list_lookup_insert_ne; [done|]. intros Heq%index_inj. by subst u.
Qed.

(** ** Concrete inputs *)

Definition process0 (p : Z) (parent : option Z) (ts : list Z) : Process :=
  mkProcess p parent ts 0 no_infos default_signal_action_vec Signal.SIGCHLD None true 0 p p 1 None None None 0 0 0 0 None false None None
    (mkPtrace None 0 PtraceResumeMode.Continue 0 PtraceStopKind.None_).

(** Process 10 has the threads 1 and 2, its child 11 the thread 3. *)
Definition sample : World :=
  with_processes (spawn (spawn (spawn (world_init 1) (thread0 1 10)) (thread0 2 10)) (thread0 3 11))
    {[10 := process0 10 None [1; 2]; 11 := process0 11 (Some 10) [3]]}.

Definition no_fds (_ : Z) : list Signalfd := [].
Definition page_end (_ : World) (_ : Z) : Z := 8192.

Definition handler_action (func : Z) : SignalAction := mkAction (SignalHandlingType.Function1 func) 0 0 4096.

Definition with_action (w : World) (p : Z) (s : Signal) (a : SignalAction) : World :=
  map_process w p (λ pr, with_signal_actions pr (<[Z.to_nat (index s) := a]> pr.(signal_actions))).

Definition deliver_to (w : World) (p t : Z) : bool * World := process_current_process_signals no_fds 51 59 page_end w p t.

(** Process 10 sends SIGTERM to its child. *)
Definition term_sent : World := (kill no_fds 1 sample 11 15).2.

Lemma kill_reaches_targets_witness :
  (kill no_fds 1 sample 11 15).1 = Ok 0 ∧ p_pending_signals <$> term_sent.(processes) !! 11 = Some (mask Signal.SIGTERM) ∧
  p_pending_signals <$> term_sent.(processes) !! 10 = Some 0.
Proof.
  pose proof (kill_reaches_targets no_fds sample 1 11 15 Signal.SIGTERM 10 (process0 10 None [1; 2])) as Hk.
  unfold term_sent. destruct (kill no_fds 1 sample 11 15) as [[v|e] w'] eqn:Hc; [|vm_compute in Hc; discriminate Hc].
  destruct Hk as (-> & targets & _ & Hin & Hone & Hp & _); [vm_compute; reflexivity|vm_compute; reflexivity|vm_compute; reflexivity|discriminate|].
  destruct Hone as [q ->]. assert (q = 11) as ->.
  { destruct (Hin q) as (pq & Hq & _ & [H|[[H _]|[[H _]|[_ H]]]]); [left|lia|lia|lia|].
    change (processes sample) with ({[10 := process0 10 None [1; 2]; 11 := process0 11 (Some 10) [3]]} : gmap Z Process) in Hq.
    apply lookup_insert_Some in Hq as [[<- <-]|[_ [<- <-]%lookup_singleton_Some]]; [vm_compute in H; discriminate H|done]. }
  split; [done|]. cbn [snd]. rewrite !Hp. split; vm_compute; reflexivity.
Defined.

Lemma signals_delivered_witness :
  let '(diverted, w') := deliver_to term_sent 11 3 in
  diverted = true ∧ state_of w' 3 = Some State.Zombie ∧ (∃ pr', w'.(processes) !! 11 = Some pr' ∧ pr'.(exit_status) ≠ None).
Proof.
  destruct (threads term_sent !! 3) as [th|] eqn:Ht; [|vm_compute in Ht; discriminate Ht].
  destruct (processes term_sent !! 11) as [pr|] eqn:Hp; [|vm_compute in Hp; discriminate Hp].
  pose proof (signals_delivered no_fds 51 59 page_end term_sent 11 3 th pr Ht) as H. vm_compute in Ht. injection Ht as <-. pose proof Hp as Hp'.
  vm_compute in Hp'. injection Hp' as <-. specialize (H eq_refl Hp). unfold deliver_to.
  destruct (process_current_process_signals no_fds 51 59 page_end term_sent 11 3) as [diverted w'].
  destruct H as (-> & _ & (pr' & H1 & _ & H2) & H3 & _); [discriminate|reflexivity|].
  split; [vm_compute; reflexivity|]. split; [apply (H3 ltac:(vm_compute; reflexivity) 3 (thread0 3 11) 11); [left|vm_compute; reflexivity|reflexivity]|].
  exists pr'. split; [exact H1|]. apply H2. vm_compute. reflexivity.
Defined.

Definition usr_entries : list Entry :=
  [mkEntry Signal.SIGUSR1 (handler_action 1000) 1000 None; mkEntry Signal.SIGUSR2 (handler_action 2000) 2000 None].

Lemma handler_masks_nest_witness :
  ∃ th', (Nat.iter 2 (rt_sigreturn 1) (foldl (enter 51 59 page_end 10 1) sample usr_entries)).(threads) !! 1 = Some th' ∧
    th'.(blocked_signals) = 0 ∧ th'.(saved_blocked_signals) = [].
Proof.
  destruct (threads sample !! 1) as [th|] eqn:Ht; [|vm_compute in Ht; discriminate Ht].
  destruct (handler_masks_nest 51 59 page_end sample 10 1 th usr_entries Ht) as (_ & th' & H1 & H2 & H3 & _); [discriminate|].
  vm_compute in Ht. injection Ht as <-. exists th'. split; [exact H1|]. split; [exact H2|exact H3].
Defined.

Definition sample_memory : gmap Z LinuxSigAction := {[100 := mkLinuxAction 1000 SA_SIGINFO 4096 7; 200 := mkLinuxAction 0 0 0 0]}.

Lemma sigaction_reads_back_witness :
  match rt_sigaction 1 sample sample_memory 10 100 0 8 with
  | (_, (w', m')) => match rt_sigaction 1 w' m' 10 0 200 8 with
                     | (_, (_, m2)) => m2 !! 200 = Some (mkLinuxAction 1000 SA_SIGINFO 4096 7)
                     end
  end.
Proof.
  destruct (rt_sigaction 1 sample sample_memory 10 100 0 8) as [[v|e] [w' m']] eqn:H1; [|vm_compute in H1; discriminate H1].
  destruct (rt_sigaction 1 w' m' 10 0 200 8) as [[v2|e] [w2 m2]] eqn:H2;
    [|vm_compute in H1; injection H1 as _ <- <-; vm_compute in H2; discriminate H2].
  destruct (sigaction_reads_back 1 sample sample_memory 10 100 200 (mkLinuxAction 1000 SA_SIGINFO 4096 7) Signal.SIGUSR1 10
    (process0 10 None [1; 2]) w' sample_memory m' w2 m2 v v2) as (H & _); [discriminate|discriminate|vm_compute; reflexivity..|exact H1|exact H2|].
  cbn in H. destruct (m2 !! 200); [injection H as ->; reflexivity|discriminate H].
Defined.

(** ** Where signals do not do what they should *)

(** A call under a temporary mask inside a handler ends with the mask from before the
    handler: the signal that is being handled is no longer blocked. *)
Lemma temporary_mask_in_handler_unblocks :
  let w := enter 51 59 page_end 10 1 sample (mkEntry Signal.SIGUSR1 (handler_action 1000) 1000 None) in
  let w' := (with_temporary_signal_mask w 1 (Some (mask Signal.SIGUSR2)) (λ w, (Ok tt, w))).2 in
  blocked_signals <$> w.(threads) !! 1 = Some (mask Signal.SIGUSR1) ∧ blocked_signals <$> w'.(threads) !! 1 = Some 0.
Proof. vm_compute. done. Qed.

(** Two signals with handlers in one pass: the thread goes on in the second handler, whose
    return leaves for the program.  The first handler never runs, and its signal stays
    blocked. *)
Lemma second_handler_replaces_first :
  let w := with_action (with_action sample 10 Signal.SIGUSR1 (handler_action 1000)) 10 Signal.SIGUSR2 (handler_action 2000) in
  let w := send_signal_to_process no_fds (send_signal_to_process no_fds w 10 Signal.SIGUSR1) 10 Signal.SIGUSR2 in
  let '(diverted, w) := deliver_to w 10 1 in
  let w' := rt_sigreturn 1 w in
  diverted = true ∧ (λ th, (get_appropriate_snapshot th).(inner).(rip)) <$> w.(threads) !! 1 = Some 2000 ∧
  (λ th, (th.(snapshot_state), th.(blocked_signals))) <$> w'.(threads) !! 1 = Some (SnapshotState.Normal, mask Signal.SIGUSR1).
Proof. vm_compute. done. Qed.

(** SIGKILL can be ignored: [rt_sigaction] takes the action, and the delivery follows it. *)
Lemma sigkill_can_be_ignored :
  let '(r, (w, _)) := rt_sigaction 1 sample ({[100 := mkLinuxAction SIG_IGN 0 0 0]} : gmap Z LinuxSigAction) 9 100 0 8 in
  let '(diverted, w') := deliver_to (kill no_fds 3 w 10 9).2 10 1 in
  r = Ok 0 ∧ diverted = false ∧ exit_status <$> w'.(processes) !! 10 = Some None.
Proof. vm_compute. done. Qed.

(** SIGKILL does not reach a stopped process: its threads stay where only SIGCONT finds them. *)
Lemma sigkill_leaves_stopped :
  let w := stop_threads sample [1; 2] in
  let w' := (kill no_fds 3 w 10 9).2 in
  state_of w' 1 = Some (State.Blocked BlockType.Stopped) ∧ state_of w' 2 = Some (State.Blocked BlockType.Stopped).
Proof. vm_compute. done. Qed.

(** SIGCONT sent to a thread becomes pending, and its default action is unreachable code. *)
Lemma tkill_sigcont_panics :
  let '(r, w) := tkill no_fds 1 sample 2 18 in
  r = Ok 0 ∧ w.(panicked) = false ∧ (deliver_to w 10 2).2.(panicked) = true.
Proof. vm_compute. done. Qed.

(** A pending signal interrupts a sleep even when the mask blocks it. *)
Lemma blocked_signal_interrupts :
  let w := change_blocked 1 sample (λ _, mask Signal.SIGUSR1) in
  let w := send_signal_to_process no_fds w 10 Signal.SIGUSR1 in
  (has_interrupting_pending_signal w 1).1 = true ∧ (deliver_to w 10 1).1 = false.
Proof. vm_compute. done. Qed.

(** A thread waits for SIGCHLD with [rt_sigtimedwait]; the signal that arrives wakes it, and
    is dropped before the thread looks for it. *)
Lemma sigtimedwait_loses_sigchld :
  let w := send_signal_to_process no_fds sample 10 Signal.SIGCHLD in
  let '(error, (w', _)) := sigtimedwait_on_wake 1 (mask Signal.SIGCHLD) (w, tt) (Ok tt) in
  all_pending w 1 = mask Signal.SIGCHLD ∧ error = None ∧ all_pending w' 1 = 0.
Proof. vm_compute. done. Qed.
