(* ===== verification/Processes.v ===== *)
(** * Processes: numbers, the process tree, waiting, tracing

    How processes come to be (process/fork.rs, the clone calls of
    systemcall/implementations/misc.rs and misc/process.rs, thread/clone.rs), end
    (process/manager.rs, the end of thread/scheduling.rs), are waited for
    (process/wait.rs, systemcall/implementations/process.rs), are traced
    (process/ptrace.rs, systemcall/implementations/ptrace.rs), and which numbers they have
    and show in their namespaces (process/misc.rs, process/group.rs).

    A process is named by its number; the numbers still to come are the second part of a
    state where they matter.  Descriptors, mappings and control groups are not part of the
    state: what an operation needs of them is an argument. *)

From stdpp Require Import sets.
From S2P Require Import Prelude Errors Clock Blocking AddrAreas Polling SignalData Threads Futex Signals.

Open Scope Z_scope.

(** ** Numbers of processes and threads (process/misc.rs) *)

Definition MIN_PID_MAX : Z := 301.
Definition DEFAULT_PID_MAX : Z := 4194304.

(** [PROC_PID_MAX] clamped. *)
Definition proc_pid_max (setting : Z) : Z := Z.min (Z.max setting MIN_PID_MAX) DEFAULT_PID_MAX.

(** The next number, which is also the new [LAST_ID]. *)
Definition next_linux_task_id (pid_max last : Z) : Z := if pid_max <=? last then 1 else last + 1.

(** [n]: the attempts left of [0..pid_max]. *)
Fixpoint allocate_loop (n : nat) (w : World) (pid_max last : Z) : Z * Z :=
  match n with
  | O => (1, last)
  | S n =>
      let pid := next_linux_task_id pid_max last in
      if bool_decide (is_Some (w.(processes) !! pid)) then allocate_loop n w pid_max pid else (pid, pid)
  end.

Definition allocate_process_id (w : World) (pid_max last : Z) : Z * Z :=
  allocate_loop (Z.to_nat pid_max) w pid_max last.

(** ** What a namespace shows (process/misc.rs, process/group.rs) *)

Definition pid_visible_from (pr viewer : Process) : option Z := pid_visible_from_namespace_inode pr viewer.(pid_namespace).

Definition visible_id_from_namespace_inode (pr : Process) (id viewer_namespace_inode : Z) : option Z :=
  match pid_visible_from_namespace_inode pr viewer_namespace_inode with
  | None => None
  | Some _ =>
      if (pr.(pid_namespace) =? viewer_namespace_inode) && (id =? pr.(pid)) then Some (default pr.(pid) pr.(pid_namespace_local_pid))
      else if pr.(pid_namespace) =? viewer_namespace_inode then None
      else Some id
  end.

Definition visible_group_id_from_namespace_inode (pr : Process) (inode : Z) : option Z :=
  visible_id_from_namespace_inode pr pr.(group_id) inode.

Definition visible_session_id_from_namespace_inode (pr : Process) (inode : Z) : option Z :=
  visible_id_from_namespace_inode pr pr.(session_id) inode.

Definition get_processes_in_group (w : World) (group : Z) : list Z :=
  map fst (filter (λ x, x.2.(group_id) = group) (process_list w)).

(** *** Maps of user numbers *)

Definition USER_NAMESPACE_OVERFLOW_ID : Z := 65534.

(** A line of a map that parses: the first number inside, the first number outside, how many. *)
Record IdRange := mkIdRange { namespace_start : Z; kernel_start : Z; range_length : Z }.

Definition covers (start length id : Z) : bool := (start <=? id) && (id <? sat_add 32 start length).

(** [ranges]: the lines of the map, if there is one.  A line that does not parse is skipped,
    which is as if it was not there. *)
Definition namespace_id_from_map (kernel_id : Z) (map : option (list IdRange)) : Z :=
  match map with
  | None => kernel_id
  | Some ranges =>
      match List.find (λ r, covers r.(kernel_start) r.(range_length) kernel_id) ranges with
      | Some r => uwrap 32 (r.(namespace_start) + (kernel_id - r.(kernel_start)))
      | None => USER_NAMESPACE_OVERFLOW_ID
      end
  end.

Definition kernel_id_from_namespace_map (namespace_id : Z) (map : option (list IdRange)) : option Z :=
  match map with
  | None => Some namespace_id
  | Some ranges =>
      (λ r, uwrap 32 (r.(kernel_start) + (namespace_id - r.(namespace_start)))) <$>
      List.find (λ r, covers r.(namespace_start) r.(range_length) namespace_id) ranges
  end.

(** ** Exit statuses (process/mod.rs) *)

Definition CLD_EXITED : Z := 1.
Definition CLD_KILLED : Z := 2.
Definition CLD_TRAPPED : Z := 4.
Definition CLD_STOPPED : Z := 5.

Definition from_exit_code (code : Z) : ProcessExitStatus := ProcessExitStatus.Exited (Z.land code 255).

Definition wait_status (s : ProcessExitStatus) : Z :=
  match s with
  | ProcessExitStatus.Exited code => Z.shiftl code 8
  | ProcessExitStatus.Signaled signal core_dumped => Z.lor (number signal) (if core_dumped then 128 else 0)
  end.

Definition waitid_code (s : ProcessExitStatus) : Z :=
  match s with ProcessExitStatus.Exited _ => CLD_EXITED | ProcessExitStatus.Signaled _ _ => CLD_KILLED end.

Definition waitid_status (s : ProcessExitStatus) : Z :=
  match s with ProcessExitStatus.Exited code => code | ProcessExitStatus.Signaled signal _ => number signal end.

(** ** Fork (process/fork.rs, thread/clone.rs) *)

Definition ptrace_default : PtraceState := mkPtrace None 0 PtraceResumeMode.Stopped 0 PtraceStopKind.None_.
Definition stack_default : LinuxStack := mkStack 0 2 0.
Definition snapshot_default : ThreadSnapshot :=
  mkThreadSnapshot (mkSnapshot 0 0 0 0 0 0 0 0 0 0 0 0 0 0 0 0 0 0 0 0) 0 ThreadSnapshotType.Thread.

Definition with_rax (s : Snapshot) (v : Z) : Snapshot :=
  mkSnapshot s.(r15) s.(r14) s.(r13) s.(r12) s.(r11) s.(r10) s.(r9) s.(r8) s.(rdi) s.(rsi)
    s.(rbp) s.(rbx) s.(rdx) s.(rcx) v s.(rip) s.(cs) s.(rflags) s.(rsp) s.(ss).

Definition with_rsp (s : Snapshot) (v : Z) : Snapshot :=
  mkSnapshot s.(r15) s.(r14) s.(r13) s.(r12) s.(r11) s.(r10) s.(r9) s.(r8) s.(rdi) s.(rsi)
    s.(rbp) s.(rbx) s.(rdx) s.(rcx) s.(rax) s.(rip) s.(cs) s.(rflags) v s.(ss).

Definition with_inner (s : ThreadSnapshot) (i : Snapshot) : ThreadSnapshot := mkThreadSnapshot i s.(fs_base) s.(snapshot_type).
Definition with_fs_base (s : ThreadSnapshot) (b : Z) : ThreadSnapshot := mkThreadSnapshot s.(inner) b s.(snapshot_type).

(** The registers of a thread that is not running. *)
Definition map_registers (f : Snapshot → Snapshot) (th : Thread) : Thread :=
  with_snapshot th (with_inner th.(snapshot) (f th.(snapshot).(inner))).

(** The new thread, of the process [process]. *)
Definition clone_for_spawn_with_id (th : Thread) (process id : Z) : Thread :=
  mkThread id (Some process) State.Ready SnapshotState.Normal th.(snapshot) snapshot_default
    th.(saved_blocked_signals) th.(blocked_signals) None 0 no_infos false false 0 None stack_default
    th.(last_syscall_no) th.(last_user_snapshot) th.(last_user_fs_base).

Definition max_or (d : Z) (l : list Z) : Z := match l with [] => d | x :: l => foldl Z.max x l end.

(** The number inside the namespace: one more than the largest of the other members. *)
Definition child_local_pid (w : World) (parent : Z) (pr : Process) : option Z :=
  match pr.(pid_namespace_local_pid) with
  | None => None
  | Some parent_local_pid =>
      let others := omap (λ x, if (x.1 =? parent) || negb (x.2.(pid_namespace) =? pr.(pid_namespace)) then None
                               else x.2.(pid_namespace_local_pid)) (process_list w) in
      Some (max_or parent_local_pid others + 1)
  end.

Definition fork_child (w : World) (parent : Z) (pr : Process) (pid : Z) : Process :=
  let namespace := default pr.(pid_namespace) pr.(pending_child_pid_namespace) in
  let same := namespace =? pr.(pid_namespace) in
  mkProcess pid (Some parent) [] pr.(p_pending_signals) pr.(p_pending_signal_info) pr.(signal_actions) Signal.SIGCHLD None
    pr.(dumpable) pr.(rlimit_core_cur) pr.(group_id) pr.(session_id) namespace
    (if same then child_local_pid w parent pr else Some 1)
    (if same then pr.(pid_namespace_parent_inode) else Some pr.(pid_namespace))
    None pr.(real_uid) pr.(effective_uid) pr.(saved_uid) pr.(capability_effective) None false None None ptrace_default.

Section fork.
(** The largest number of a process, and the calling thread. *)
Context (pid_max t : Z).

(** The child is not in the table yet. *)
Definition fork_process (w : World) (last parent : Z) : option (Z * Process) * World * Z :=
  match w.(processes) !! parent with
  | None => (None, panic w, last)
  | Some pr =>
      let '(pid, last) := allocate_process_id w pid_max last in
      let w' := map_process w parent (λ pr, with_pending_child_pid_namespace pr None) in
      (Some (pid, fork_child w parent pr pid), w', last)
  end.

(** [fork_with_sharing] and, with [blocked], [vfork_with_sharing]: the first thread has the
    number of the process. *)
Definition fork_with_sharing (w : World) (last parent : Z) (blocked : bool) : option (Z * Process) * World * Z :=
  match fork_process w last parent, w.(threads) !! t with
  | (Some (pid, child), w, last), Some th =>
      let thread := clone_for_spawn_with_id th pid pid in
      let w := if blocked then spawn_blocked w thread BlockType.Stopped else spawn w thread in
      let w := map_thread w pid (map_registers (λ r, with_rax r 0)) in
      (Some (pid, with_p_threads child (child.(p_threads) ++ [pid])), w, last)
  | (_, w, last), _ => (None, panic w, last)
  end.

Definition insert_process (w : World) (pid : Z) (pr : Process) : World := with_processes w (<[pid := pr]> w.(processes)).

Definition fork (w : World) (last : Z) : result SyscallError Z * (World * Z) :=
  match process_of w t with
  | None => (Ok 0, (panic w, last))
  | Some p =>
      match fork_with_sharing w last p false with
      | (Some (pid, child), w, last) => (Ok pid, (insert_process w pid child, last))
      | (None, w, last) => (Ok 0, (w, last))
      end
  end.

(** *** Clone *)

Definition CLONE_NEWTIME : Z := 128.
Definition CLONE_VM : Z := 256.
Definition CLONE_FS : Z := 512.
Definition CLONE_FILES : Z := 1024.
Definition CLONE_SIGHAND : Z := 2048.
Definition CLONE_PIDFD : Z := 4096.
Definition CLONE_VFORK : Z := 16384.
Definition CLONE_PARENT : Z := 32768.
Definition CLONE_THREAD : Z := 65536.
Definition CLONE_NEWNS : Z := 131072.
Definition CLONE_SYSVSEM : Z := 262144.
Definition CLONE_SETTLS : Z := 524288.
Definition CLONE_PARENT_SETTID : Z := 1048576.
Definition CLONE_CHILD_CLEARTID : Z := 2097152.
Definition CLONE_CHILD_SETTID : Z := 16777216.
Definition CLONE_NEWCGROUP : Z := 33554432.
Definition CLONE_NEWUTS : Z := 67108864.
Definition CLONE_NEWIPC : Z := 134217728.
Definition CLONE_NEWUSER : Z := 268435456.
Definition CLONE_NEWPID : Z := 536870912.
Definition CLONE_NEWNET : Z := 1073741824.
Definition CLONE_CLEAR_SIGHAND : Z := 4294967296.
Definition CLONE_INTO_CGROUP : Z := 8589934592.

Definition union_of (l : list Z) : Z := foldl Z.lor 0 l.

(** All flags: [from_bits_truncate] keeps these. *)
Definition clone_flags_all : Z :=
  union_of [CLONE_NEWTIME; CLONE_VM; CLONE_FS; CLONE_FILES; CLONE_SIGHAND; CLONE_PIDFD; CLONE_VFORK; CLONE_PARENT;
    CLONE_THREAD; CLONE_NEWNS; CLONE_SYSVSEM; CLONE_SETTLS; CLONE_PARENT_SETTID; CLONE_CHILD_CLEARTID; CLONE_CHILD_SETTID;
    CLONE_NEWCGROUP; CLONE_NEWUTS; CLONE_NEWIPC; CLONE_NEWUSER; CLONE_NEWPID; CLONE_NEWNET; CLONE_CLEAR_SIGHAND; CLONE_INTO_CGROUP].

Definition clone_flags_from (raw : Z) : Z := Z.land raw clone_flags_all.

(** What [clone_process] takes: everything but [CLONE_THREAD], and the signal. *)
Definition clone_process_supported : Z := Z.lor 255 (Z.ldiff clone_flags_all CLONE_THREAD).

Definition namespace_flags : Z :=
  union_of [CLONE_NEWCGROUP; CLONE_NEWIPC; CLONE_NEWNET; CLONE_NEWNS; CLONE_NEWPID; CLONE_NEWTIME; CLONE_NEWUTS].

Definition CAP_SYS_ADMIN : Z := 21.

(** The first word of [DEFAULT_CAPABILITY_SET]. *)
Definition DEFAULT_CAPABILITY_SET : Z := 4294967295.

Definition validate_clone_flags (w : World) (fl exit_signal : Z) : result SyscallError unit :=
  if 255 <? exit_signal then Err SyscallError.InvalidArguments
  else if negb (exit_signal =? 0) && bool_decide (signal_try_from exit_signal = None) then Err SyscallError.InvalidArguments
  else if contains fl CLONE_SIGHAND && negb (contains fl CLONE_VM) then Err SyscallError.InvalidArguments
  else if contains fl CLONE_THREAD && negb (contains fl CLONE_SIGHAND) then Err SyscallError.InvalidArguments
  else if contains fl CLONE_FS && contains fl CLONE_NEWNS then Err SyscallError.InvalidArguments
  else if negb (Z.land fl namespace_flags =? 0) &&
          match parent_of w t with Some pr => Z.land pr.(capability_effective) (Z.shiftl 1 CAP_SYS_ADMIN) =? 0 | None => true end
  then Err SyscallError.PermissionDenied
  else Ok tt.

Definition clone_cleared_signal_actions (old_actions : list SignalAction) : list SignalAction :=
  map (λ old, match old.(handling_type) with SignalHandlingType.Ignore => old | _ => default_action end) old_actions.

Record CloneProcessArgs := mkCloneArgs {
  clone_flags : Z; raw_flags : Z; clone_exit_signal : Z; stack_pointer : Z; parent_tid : Z; child_tid : Z;
  tls : Z; pidfd_ptr : Z; cgroup_fd : Z;
}.

Context {M : Type} `{um_word : UserMemory M Z}.
(** Whether the address space of the child takes a write at an address; the inode of a new
    namespace; joining a control group; the descriptor a process descriptor gets. *)
Context (child_write : Z → Z → result SyscallError unit) (new_namespace : Z)
  (join_cgroup : Z → Z → result SyscallError unit) (push_pidfd : Z → Z).

Definition CloneState : Type := World * Z * M.

(** [prefault_clone_vm_tid_pages] *)
Definition prefault_clone_vm_tid_pages (m : M) (a : CloneProcessArgs) : result SyscallError unit * M :=
  let '(r, m) := if contains a.(clone_flags) CLONE_PARENT_SETTID then user_read (T := Z) m a.(parent_tid) else (Ok 0, m) in
  try _ := r with m in
  let '(r, m) := if contains a.(clone_flags) CLONE_CHILD_SETTID || contains a.(clone_flags) CLONE_CHILD_CLEARTID
                 then user_read (T := Z) m a.(child_tid) else (Ok 0, m) in
  try _ := r with m in
  (Ok tt, m).

Definition validate_clone_process (a : CloneProcessArgs) : result SyscallError unit :=
  let fl := a.(clone_flags) in
  if negb (Z.ldiff a.(raw_flags) clone_process_supported =? 0) then Err SyscallError.NoSyscall
  else if contains fl CLONE_PIDFD && (a.(pidfd_ptr) =? 0) then Err SyscallError.BadAddress
  else if contains fl CLONE_PIDFD && contains fl CLONE_PARENT_SETTID && (a.(pidfd_ptr) =? a.(parent_tid)) then Err SyscallError.NoSyscall
  else if contains fl CLONE_INTO_CGROUP && (a.(cgroup_fd) =? 0) then Err SyscallError.InvalidArguments
  else Ok tt.

(** What the flags make of the child before it is in the table. *)
Definition clone_child (a : CloneProcessArgs) (pr child : Process) : result SyscallError Process :=
  let fl := a.(clone_flags) in
  let child := if contains fl CLONE_NEWUSER then with_capability_effective child DEFAULT_CAPABILITY_SET else child in
  let child := if contains fl CLONE_NEWPID then with_pid_namespaces child new_namespace (Some 1) (Some pr.(pid_namespace)) else child in
  let child := if contains fl CLONE_PARENT then with_p_parent child pr.(p_parent) else child in
  if a.(clone_exit_signal) =? 0 then Ok child
  else
    s ← ok_or (signal_try_from a.(clone_exit_signal)) SyscallError.InvalidArguments;
    Ok (with_child_exit_signal child s).

(** The registers and the clear address of the new thread. *)
Definition clone_thread_registers (fl stack_pointer tls : Z) (th : Thread) : Thread :=
  let th := if stack_pointer =? 0 then th else map_registers (λ r, with_rsp r stack_pointer) th in
  let th := map_registers (λ r, with_rax r 0) th in
  if contains fl CLONE_SETTLS then with_snapshot th (with_fs_base th.(snapshot) tls) else th.

Definition write_child (w : World) (pid addr v : Z) : result SyscallError unit * World :=
  match child_write pid addr with
  | Ok _ => (Ok tt, with_user_writes w (w.(user_writes) ++ [(pid, addr, v)]))
  | Err e => (Err e, w)
  end.

(** [CLONE_PARENT_SETTID], [CLONE_CHILD_SETTID], [CLONE_CHILD_CLEARTID] and [CLONE_PIDFD]. *)
Definition clone_announce (a : CloneProcessArgs) (pid visible_pid : Z) (s : CloneState) : result SyscallError unit * CloneState :=
  let '(w, last, m) := s in
  let fl := a.(clone_flags) in
  let v := swrap 32 visible_pid in
  let '(r, m) := if contains fl CLONE_PARENT_SETTID then user_write m a.(parent_tid) v else (Ok tt, m) in
  try _ := r with (w, last, m) in
  let '(r, w) := if contains fl CLONE_PARENT_SETTID && contains fl CLONE_VM then write_child w pid a.(parent_tid) v else (Ok tt, w) in
  try _ := r with (w, last, m) in
  let '(r, w) := if contains fl CLONE_CHILD_SETTID then write_child w pid a.(child_tid) v else (Ok tt, w) in
  try _ := r with (w, last, m) in
  let w := if contains fl CLONE_CHILD_CLEARTID then map_thread w pid (λ th, with_clear_child_tid th a.(child_tid)) else w in
  if contains fl CLONE_PIDFD then
    let fd := push_pidfd pid in
    bail SyscallError.TooManyOpenFilesProcess when 2147483647 <? fd with (w, last, m);
    let '(r, m) := user_write m a.(pidfd_ptr) fd in
    (r, (w, last, m))
  else (Ok tt, (w, last, m)).

(** [clone_process] up to the wait of a [vfork]: the number the caller sees, and the child. *)
Definition clone_process_start (a : CloneProcessArgs) (s : CloneState) : result SyscallError (Z * Z) * CloneState :=
  let '(w, last, m) := s in
  let fl := a.(clone_flags) in
  try _ := validate_clone_process a with s in
  match process_of w t, parent_of w t with
  | Some current, Some pr0 =>
      let '(r, m) := if contains fl CLONE_VM then prefault_clone_vm_tid_pages m a else (Ok tt, m) in
      try _ := r with (w, last, m) in
      match fork_with_sharing w last current (contains fl CLONE_VFORK) with
      | (None, w, last) => (Ok (0, 0), (w, last, m))
      | (Some (pid, child), w, last) =>
          try child := clone_child a pr0 child with (w, last, m) in
          let w := insert_process w pid child in
          let visible_pid := default pid (pid_visible_from_namespace_inode child pr0.(pid_namespace)) in
          let w := if contains fl CLONE_VFORK then map_process w pid (λ c, with_vfork_blocker c (Some t)) else w in
          try _ := (if contains fl CLONE_INTO_CGROUP then join_cgroup a.(cgroup_fd) pid else Ok tt) with (w, last, m) in
          let w := if contains fl CLONE_CLEAR_SIGHAND
                   then map_process w pid (λ c, with_signal_actions c (clone_cleared_signal_actions c.(signal_actions))) else w in
          let w := map_thread w pid (clone_thread_registers fl a.(stack_pointer) a.(tls)) in
          let '(r, (w, last, m)) := clone_announce a pid visible_pid (w, last, m) in
          try _ := r with (w, last, m) in
          (Ok (visible_pid, pid), (wake w pid, last, m))
      end
  | _, _ => (Ok (0, 0), (panic w, last, m))
  end.

(** [wait_for_vfork_completion] *)
Definition vfork_done (w : World) (child : Z) : bool :=
  match w.(processes) !! child ≫= vfork_blocker with None => true | Some _ => false end.

Definition vfork_try (child : Z) (s : CloneState) : attempt CloneState SyscallError unit :=
  let '(w, last, m) := s in
  if vfork_done w child then Return (Ok tt) s
  else Sleep ((finish_block_current (prepare_block_current w t (BlockType.WakeRequired WakeType.ProcsesExit None)) t).2, last, m).

Definition clone_process (a : CloneProcessArgs) (ws : list (wakeup CloneState)) (s : CloneState)
  : option (result SyscallError Z) * CloneState :=
  match clone_process_start a s with
  | (Err e, s) => (Some (Err e), s)
  | (Ok (visible_pid, child), s) =>
      if contains a.(clone_flags) CLONE_VFORK then
        let '(r, s) := blocking_loop (vfork_try child) (λ s _, (None, s)) ws s in
        ((λ _, Ok visible_pid) <$> r, s)
      else (Some (Ok visible_pid), s)
  end.

(** The branch of [Clone] for a thread of the same process. *)
Definition clone_thread (fl stack_pointer parent_tid child_tid tls : Z) (s : CloneState) : result SyscallError Z * CloneState :=
  let '(w, last, m) := s in
  match process_of w t, w.(threads) !! t with
  | Some p, Some th =>
      let tid := next_linux_task_id pid_max last in
      let w := spawn w (clone_for_spawn_with_id th p tid) in
      let w := map_thread w tid (clone_thread_registers fl stack_pointer tls) in
      let w := if contains fl CLONE_CHILD_CLEARTID then map_thread w tid (λ th, with_clear_child_tid th child_tid) else w in
      let '(r, m) := if contains fl CLONE_PARENT_SETTID then user_write m parent_tid (swrap 32 tid) else (Ok tt, m) in
      try _ := r with (w, tid, m) in
      let '(r, m) := if contains fl CLONE_CHILD_SETTID then user_write m child_tid (swrap 32 tid) else (Ok tt, m) in
      try _ := r with (w, tid, m) in
      (Ok (swrap 32 tid), (map_process w p (λ pr, with_p_threads pr (pr.(p_threads) ++ [tid])), tid, m))
  | _, _ => (Ok 0, (panic w, last, m))
  end.

Definition clone (raw stack_pointer parent_tid child_tid tls : Z) (ws : list (wakeup CloneState)) (s : CloneState)
  : option (result SyscallError Z) * CloneState :=
  let fl := clone_flags_from raw in
  let exit_signal := Z.land raw 255 in
  match validate_clone_flags s.1.1 fl exit_signal with
  | Err e => (Some (Err e), s)
  | Ok _ =>
      if negb (contains fl CLONE_THREAD) then
        if contains fl CLONE_VFORK && negb (contains fl CLONE_VM) then (Some (Err SyscallError.NoSyscall), s)
        else clone_process (mkCloneArgs fl raw exit_signal stack_pointer parent_tid child_tid tls
               (if contains fl CLONE_PIDFD then parent_tid else 0) 0) ws s
      else if negb (contains fl (union_of [CLONE_VM; CLONE_SIGHAND; CLONE_THREAD])) then (Some (Err SyscallError.NoSyscall), s)
      else let '(r, s) := clone_thread fl stack_pointer parent_tid child_tid tls s in (Some r, s)
  end.

Definition vfork (ws : list (wakeup CloneState)) (s : CloneState) : option (result SyscallError Z) * CloneState :=
  let '(w, last, m) := s in
  match process_of w t with
  | None => (Some (Ok 0), (panic w, last, m))
  | Some p =>
      match fork_with_sharing w last p true with
      | (None, w, last) => (Some (Ok 0), (w, last, m))
      | (Some (pid, child), w, last) =>
          let w := map_process (insert_process w pid child) pid (λ c, with_vfork_blocker c (Some t)) in
          let '(r, s) := blocking_loop (vfork_try pid) (λ s _, (None, s)) ws (wake w pid, last, m) in
          ((λ _, Ok pid) <$> r, s)
      end
  end.

(** [Clone3]: the arguments as a record. *)
Record LinuxCloneArgs := mkClone3 {
  c3_flags : Z; c3_pidfd : Z; c3_child_tid : Z; c3_parent_tid : Z; c3_exit_signal : Z; c3_stack : Z; c3_stack_size : Z;
  c3_tls : Z; c3_set_tid : Z; c3_set_tid_size : Z; c3_cgroup : Z;
}.

Definition CLONE_ARGS_MINIMAL_SIZE : Z := 64.
Definition CLONE_ARGS_SIZE : Z := 88.

Context `{um_args : UserMemory M LinuxCloneArgs}.

Definition clone3_validated (a : LinuxCloneArgs) (ws : list (wakeup CloneState)) (s : CloneState)
  : option (result SyscallError Z) * CloneState :=
  let sp := if a.(c3_stack) =? 0 then 0 else sat_add 64 a.(c3_stack) a.(c3_stack_size) in
  let raw := Z.lor a.(c3_flags) (Z.land a.(c3_exit_signal) 255) in
  let fl := clone_flags_from raw in
  let fail e := (Some (Err e), s) in
  match validate_clone_flags s.1.1 fl a.(c3_exit_signal) with
  | Err e => fail e
  | Ok _ =>
      if negb (Bool.eqb (a.(c3_stack) =? 0) (a.(c3_stack_size) =? 0)) then fail SyscallError.InvalidArguments
      else if contains fl CLONE_THREAD then clone raw sp a.(c3_parent_tid) a.(c3_child_tid) a.(c3_tls) ws s
      else if contains fl CLONE_VFORK && negb (contains fl CLONE_VM) then fail SyscallError.NoSyscall
      else if contains fl CLONE_PIDFD && (a.(c3_pidfd) =? 0) then fail SyscallError.InvalidArguments
      else if negb (Bool.eqb (contains fl CLONE_INTO_CGROUP) (negb (a.(c3_cgroup) =? 0))) then fail SyscallError.InvalidArguments
      else clone_process (mkCloneArgs fl raw (Z.land a.(c3_exit_signal) 255) sp a.(c3_parent_tid) a.(c3_child_tid) a.(c3_tls)
             (if contains fl CLONE_PIDFD then a.(c3_pidfd) else 0) a.(c3_cgroup)) ws s
  end.

Definition clone3 (args size : Z) (ws : list (wakeup CloneState)) (s : CloneState) : option (result SyscallError Z) * CloneState :=
  let '(w, last, m) := s in
  if size <? CLONE_ARGS_MINIMAL_SIZE then (Some (Err SyscallError.InvalidArguments), s)
  else if args =? 0 then (Some (Err SyscallError.BadAddress), s)
  else if CLONE_ARGS_SIZE <? size then
    let '(r, m) := user_read (T := Z) m (args + CLONE_ARGS_SIZE) in
    (Some (match r with Err e => Err e | Ok _ => Err SyscallError.InvalidArguments end), (w, last, m))
  else
    let '(r, m) := user_read (T := LinuxCloneArgs) m args in
    match r with
    | Err e => (Some (Err e), (w, last, m))
    | Ok a =>
        if negb (a.(c3_set_tid) =? 0) || negb (a.(c3_set_tid_size) =? 0) then (Some (Err SyscallError.NoSyscall), (w, last, m))
        else clone3_validated a ws (w, last, m)
    end.
End fork.
