(* ===== verification/ProcessEnd.v ===== *)
(** * Processes: the end

    How a process ends (process/manager.rs): its children get another parent, which hears of
    those that are already dead, signals asked for are sent, the members of its namespace die
    with its first process, and its threads become zombies; the table entry goes when a wait
    collects it.  And what the scheduler does when a thread comes back to it
    (thread/scheduling.rs), where threads that exit end their process.

    What a process owns besides its threads (descriptors, mappings, timers, mounts, control
    groups) is not part of the state.  A process that has been collected is in no table: a
    process that still names it as its parent finds nothing there. *)

From stdpp Require Import sets.
From S2P Require Import Prelude Errors Clock SignalData Threads Futex Signals Processes.

Open Scope Z_scope.

(** ** Heirs (process/manager.rs) *)

Definition init_process_ref (w : World) : option Z :=
  fst <$> List.find (λ x, x.2.(pid) =? 1) (process_list w).

(** [fuel]: the ancestors to look at; the number of processes is enough when the parents form
    a tree. *)
Fixpoint nearest_live_subreaper (fuel : nat) (w : World) (current : option Z) : option Z :=
  match fuel, current with
  | S fuel, Some candidate =>
      match w.(processes) !! candidate with
      | None => None
      | Some pr =>
          if bool_decide (pr.(exit_status) = None) && pr.(child_subreaper) then Some candidate
          else nearest_live_subreaper fuel w pr.(p_parent)
      end
  | _, _ => None
  end.

Definition subreaper_of (w : World) (current : option Z) : option Z :=
  nearest_live_subreaper (S (size w.(processes))) w current.

Definition or_else {A} (x y : option A) : option A := match x with Some _ => x | None => y end.

Definition is_child_of (p : Z) (x : Z * Process) : bool := negb (x.1 =? p) && bool_decide (x.2.(p_parent) = Some p).

Definition children (w : World) (p : Z) : list (Z * Process) := filter (λ x, is_child_of p x = true) (process_list w).

Definition collect_parent_death_signals_for_children (w : World) (p : Z) : list (Z * Signal) :=
  omap (λ x, (λ s, (x.1, s)) <$> x.2.(parent_death_signal)) (children w p).

(** The children in the order of their numbers, and the world with their new parent. *)
Definition reparent_children (w : World) (p : Z) (target : option Z) : list Z * World :=
  let cs := map fst (children w p) in
  (cs, foldl (λ w c, map_process w c (λ pr, with_p_parent pr target)) w cs).

(** ** The end of a process *)

Definition mark_threads_exited (w : World) (ts : list Z) : World := foldl mark_thread_exited w ts.

Definition terminate_member (status : ProcessExitStatus) (w : World) (p : Z) : World :=
  let '(ts, w) := terminate_inner w p status in mark_threads_exited w ts.

Definition namespace_members (w : World) (init_pid namespace_inode : Z) : list Z :=
  map fst (filter (λ x, negb (x.2.(pid) =? init_pid) && (x.2.(pid_namespace) =? namespace_inode)
                         && bool_decide (x.2.(exit_status) = None) = true) (process_list w)).

Definition terminate_pid_namespace_members (w : World) (init_pid namespace_inode : Z) (status : ProcessExitStatus) : World :=
  foldl (terminate_member status) w (namespace_members w init_pid namespace_inode).

(** A child with something to wait for, with the process that has to hear of it. *)
Definition pending_wait (w : World) (c : Z) : option (Z * Z) :=
  match w.(processes) !! c with
  | None => None
  | Some pr =>
      if bool_decide (is_Some pr.(exit_status)) || bool_decide (is_Some pr.(wait_event))
      then (λ q, (c, q)) <$> pr.(p_parent) else None
  end.

Section ends.
(** The signal descriptors of a process, the process descriptors that watch one, with the
    pollers they notify; the segment selectors of user mode and the page a process is handed
    out next. *)
Context (signalfds : Z → list Signalfd) (pidfd_watchers : Z → nat) (pidfd_pollers : Z → list Z)
  (user_cs user_ss : Z) (frame_end : World → Z → Z).

Definition cleanup (current : option Z) (w : World) : World :=
  (cleanup_exited_threads (λ q, length (signalfds q)) pidfd_watchers pidfd_pollers current w).2.

(** The new parents hear of their children; one round of waking for each. *)
Definition adopt (w : World) (cs : list Z) : World :=
  let pending := omap (pending_wait w) cs in
  let w := foldl (λ w x, send_signal_to_process signalfds w x.2 Signal.SIGCHLD) w pending in
  foldl (λ w _, wake_process_exit_waiters w) w pending.

Definition release_vfork (w : World) (blocker : option Z) : World :=
  match blocker with Some t => wake_thread_by_id w t | None => w end.

Definition send_death_signals (w : World) (l : list (Z * Signal)) : World :=
  foldl (λ w x, send_signal_to_process signalfds w x.1 x.2) w l.

(** The children of [p] get their new parent and their signals. *)
Definition hand_over_children (w : World) (p : Z) (parent : option Z) : list Z * World :=
  let target := or_else (subreaper_of w parent) (init_process_ref w) in
  let signals := collect_parent_death_signals_for_children w p in
  let '(cs, w) := reparent_children w p target in
  (cs, send_death_signals w signals).

Definition terminate_process (w : World) (p : Z) (status : ProcessExitStatus) : World :=
  match w.(processes) !! p with
  | None => w
  | Some pr =>
      let w := map_process w p (λ pr, with_vfork_blocker pr None) in
      let '(ts, w) := terminate_inner w p status in
      let w := if bool_decide (pr.(pid_namespace_local_pid) = Some 1)
               then terminate_pid_namespace_members w pr.(pid) pr.(pid_namespace) status else w in
      let '(cs, w) := hand_over_children w p pr.(p_parent) in
      let w := adopt w cs in
      let w := release_vfork w pr.(vfork_blocker) in
      cleanup None (mark_threads_exited w ts)
  end.

Definition reap_process (w : World) (p : Z) : World := with_processes w (delete p w.(processes)).

(** ** Back in the scheduler (thread/scheduling.rs) *)

(** A thread that exits: it ends its process if it was given a status. *)
Definition finish_exiting_thread (w : World) (t : Z) : World :=
  match w.(threads) !! t with
  | None => w
  | Some th =>
      let w := map_thread w t (λ th, with_pending_exit_status th None) in
      let w := match th.(pending_exit_status), th.(parent) with
               | None, _ => w
               | Some status, Some p => terminate_process w p status
               | Some _, None => panic w
               end in
      cleanup None (mark_thread_exited w t)
  end.

Definition is_user_snapshot (th : Thread) : bool :=
  match (get_appropriate_snapshot th).(snapshot_type) with ThreadSnapshotType.Thread => true | _ => false end.

(** Signals are delivered to a thread that was in user mode. *)
Definition deliver_after_yield (w : World) (t : Z) (th : Thread) : World :=
  match th.(parent) with
  | None => panic w
  | Some p =>
      if is_user_snapshot th then
        let '(should_cleanup, w) := process_current_process_signals signalfds user_cs user_ss frame_end w p t in
        if should_cleanup then cleanup (Some t) w else w
      else w
  end.

Definition after_thread_yield (w : World) (t : Z) : World :=
  match w.(threads) !! t with
  | None => w
  | Some th =>
      match th.(state) with
      | State.Exiting => finish_exiting_thread w t
      | State.Zombie => defer_current_zombie_thread w t
      | _ =>
          let w := deliver_after_yield w t th in
          match state_of w t with
          | Some State.Exiting => finish_exiting_thread w t
          | Some State.Zombie => map_thread (cleanup (Some t) w) t (λ th, with_parent th None)
          | _ => after_yield_state w t
          end
      end
  end.
End ends.
