(* ===== verification/ProcessWait.v ===== *)
(** * Processes: waiting for children, and what a process is called

    wait4 and waitid, the exits, and the calls that ask for or change the numbers of a
    process, its group and its session (systemcall/implementations/process.rs), with
    process/wait.rs.  The caller is thread [t] of process [p]; a call that blocks is a
    [blocking_loop]. *)

From stdpp Require Import sets.
From S2P Require Import Prelude Errors Blocking AddrAreas SignalData Threads Futex Signals Processes ProcessEnd.

Open Scope Z_scope.

Definition SA_RESTART : Z := 268435456.

(** [Wait4Options] and [WaitidOptions]. *)
Definition W_NOHANG : Z := 1.
Definition W_WUNTRACED : Z := 2.
Definition W_WEXITED : Z := 4.
Definition W_WCONTINUED : Z := 8.
Definition W_WNOWAIT : Z := 16777216.
Definition W_WNOTHREAD : Z := 536870912.
Definition W_WALL : Z := 1073741824.
Definition W_WCLONE : Z := 2147483648.

Definition Wait4Options : Z := union_of [W_NOHANG; W_WUNTRACED; W_WCONTINUED; W_WNOTHREAD; W_WALL; W_WCLONE].
Definition WaitidOptions : Z := union_of [W_NOHANG; W_WUNTRACED; W_WEXITED; W_WCONTINUED; W_WNOWAIT].

(** [from_bits] on the low 32 bits of the argument. *)
Definition flags_from_bits (all v : Z) : result SyscallError Z :=
  let v := uwrap 32 v in if Z.ldiff v all =? 0 then Ok v else Err SyscallError.InvalidArguments.

(** ** What ends a wait *)

Definition signal_interrupts_wait (pr : Process) (s : Signal) : bool :=
  match pr.(signal_actions) !! Z.to_nat (index s) with
  | Some a => negb (bool_decide (s = Signal.SIGCHLD)) && has_handler a && (Z.land a.(flags) SA_RESTART =? 0)
  | None => false
  end.

Definition has_wait_interrupt_signal (w : World) (p t : Z) : bool :=
  match w.(processes) !! p, w.(threads) !! t with
  | Some pr, Some th =>
      existsb (λ s, (contains pr.(p_pending_signals) (mask s) || contains th.(pending_signals) (mask s))
                    && signal_interrupts_wait pr s) all_signals
  | _, _ => false
  end.

Definition is_default (a : SignalAction) : bool := match a.(handling_type) with SignalHandlingType.Default => true | _ => false end.

Definition consume_ignored_child_signal (w : World) (p : Z) : World :=
  map_process w p (λ pr,
    match pr.(signal_actions) !! Z.to_nat (index Signal.SIGCHLD) with
    | Some a => if is_default a then with_p_pending_signals pr (remove_bits pr.(p_pending_signals) (mask Signal.SIGCHLD)) else pr
    | None => pr
    end).

Module WaitOutcome.
Inductive WaitOutcome : Type :=
  | Exited (process pid : Z) (status : ProcessExitStatus)
  | Stopped (process pid : Z) (event : ProcessWaitEvent).
End WaitOutcome.
Abbreviation WaitOutcome := WaitOutcome.WaitOutcome.

Module WaitReport.
Inductive WaitReport : Type :=
  | Exited (pid : Z) (status : ProcessExitStatus)
  | Stopped (pid : Z) (event : ProcessWaitEvent).
End WaitReport.
Abbreviation WaitReport := WaitReport.WaitReport.

Record WaitBehavior := mkWaitBehavior { nohang : bool; preserve_child : bool; report_exited : bool; report_stopped : bool }.

Definition for_wait4 (options : Z) : WaitBehavior :=
  mkWaitBehavior (contains options W_NOHANG) false true (contains options W_WUNTRACED).

Definition behavior_for_waitid (options : Z) : WaitBehavior :=
  mkWaitBehavior (contains options W_NOHANG) (contains options W_WNOWAIT) (contains options W_WEXITED) (contains options W_WUNTRACED).

(** [take_wait_event] (process/wait.rs) *)
Definition take_wait_event (pr : Process) (preserve : bool) : option ProcessWaitEvent * Process :=
  (pr.(wait_event), if preserve then pr else with_wait_event pr None).

(** ** The children a wait is for *)

Section check.
(** The number asked for, what to report, and the caller. *)
Context (target : Z) (behavior : WaitBehavior) (p : Z) (cur : Process).

Definition target_group : option Z := if -1 <=? target then None else Some (- target).

Definition wait_matches (x : Z * Process) : bool :=
  let pr := x.2 in
  let is_current_child := bool_decide (pr.(p_parent) = Some p) in
  if target =? -1 then is_current_child
  else if target =? 0 then is_current_child && (pr.(group_id) =? cur.(group_id))
  else if 0 <? target then bool_decide (pid_visible_from_namespace_inode pr cur.(pid_namespace) = Some target) && is_current_child
  else is_current_child && bool_decide (visible_group_id_from_namespace_inode pr cur.(pid_namespace) = target_group).

Definition reported_pid (x : Z * Process) : Z :=
  if x.2.(pid_namespace) =? cur.(pid_namespace) then default x.1 (pid_visible_from_namespace_inode x.2 cur.(pid_namespace)) else x.1.

(** What one child has to report, with the child after the report. *)
Definition child_report (x : Z * Process) : option (WaitOutcome * Process) :=
  let pr := x.2 in
  match pr.(exit_status) with
  | Some status =>
      if behavior.(report_exited) && bool_decide (pr.(p_threads) = [])
      then Some (WaitOutcome.Exited x.1 (reported_pid x) status, pr)
      else if behavior.(report_stopped) then
        let '(e, pr) := take_wait_event pr behavior.(preserve_child) in
        (λ e, (WaitOutcome.Stopped x.1 (reported_pid x) e, pr)) <$> e
      else None
  | None =>
      if behavior.(report_stopped) then
        let '(e, pr) := take_wait_event pr behavior.(preserve_child) in
        (λ e, (WaitOutcome.Stopped x.1 (reported_pid x) e, pr)) <$> e
      else None
  end.

(** The walk over the table; [matched]: whether a child matched so far. *)
Fixpoint check_children (l : list (Z * Process)) (matched : bool) (w : World) : result SyscallError (option WaitOutcome) * World :=
  match l with
  | [] => (if matched then Ok None else Err SyscallError.NoChildProcesses, w)
  | x :: l =>
      if wait_matches x then
        match child_report x with
        | Some (outcome, pr) => (Ok (Some outcome), with_processes w (<[x.1 := pr]> w.(processes)))
        | None => check_children l true w
        end
      else check_children l matched w
  end.
End check.

Definition I32_MIN : Z := -2147483648.

Definition check_wait_outcome (target : Z) (behavior : WaitBehavior) (p : Z) (w : World)
  : result SyscallError (option WaitOutcome) * World :=
  match w.(processes) !! p with
  | None => (Err SyscallError.NoChildProcesses, panic w)
  | Some cur =>
      if target =? I32_MIN then (Err SyscallError.NoProcess, w)
      else check_children target behavior p cur (process_list w) false w
  end.

Definition finish_wait_outcome (w : World) (p : Z) (behavior : WaitBehavior) (outcome : WaitOutcome) : WaitReport * World :=
  let w := consume_ignored_child_signal w p in
  match outcome with
  | WaitOutcome.Exited c pid status =>
      (WaitReport.Exited pid status, if behavior.(preserve_child) then w else reap_process w c)
  | WaitOutcome.Stopped _ pid event => (WaitReport.Stopped pid event, w)
  end.

Section waits.
Context (signalfds : Z → list Signalfd) (pidfd_watchers : Z → nat) (pidfd_pollers : Z → list Z).
Context (target : Z) (behavior : WaitBehavior) (p t : Z).

(** [wait_for_child_exit]: once through the loop, up to the sleep. *)
Definition wait_try (w : World) : attempt World SyscallError (option WaitReport) :=
  let w := cleanup signalfds pidfd_watchers pidfd_pollers (Some t) w in
  match check_wait_outcome target behavior p w with
  | (Err e, w) => Return (Err e) w
  | (Ok (Some outcome), w) =>
      let '(r, w) := finish_wait_outcome w p behavior outcome in Return (Ok (Some r)) w
  | (Ok None, w) =>
      if behavior.(nohang) then Return (Ok None) w
      else if has_wait_interrupt_signal w p t then Return (Err SyscallError.Interrupted) w
      else
        let w := prepare_block_current w t (BlockType.WakeRequired WakeType.ProcsesExit None) in
        match check_wait_outcome target behavior p w with
        | (Ok (Some outcome), w) =>
            let '(r, w) := finish_wait_outcome w p behavior outcome in
            Return (Ok (Some r)) (finish_block_current (cancel_block w t) t).2
        | (Err e, w) => Return (Err e) (finish_block_current (cancel_block w t) t).2
        | (Ok None, w) => Sleep (finish_block_current w t).2
        end
  end.

Definition wait_on_wake (w : World) (_ : result ObjectError unit) : option SyscallError * World :=
  (if has_wait_interrupt_signal w p t then Some SyscallError.Interrupted else None, w).

Definition wait_for_child_exit (ws : list (wakeup World)) (w : World) : option (result SyscallError (option WaitReport)) * World :=
  blocking_loop wait_try wait_on_wake ws w.
End waits.

(** ** The calls *)

Definition report_status (r : WaitReport) : Z :=
  match r with WaitReport.Exited _ s => wait_status s | WaitReport.Stopped _ e => e.(ev_status) end.

Definition report_pid (r : WaitReport) : Z := match r with WaitReport.Exited pid _ | WaitReport.Stopped pid _ => pid end.

Definition report_info (r : WaitReport) : SigInfo :=
  match r with
  | WaitReport.Exited pid s => for_waitid Signal.SIGCHLD (waitid_code s) (swrap 32 pid) (waitid_status s)
  | WaitReport.Stopped pid e =>
      for_waitid Signal.SIGCHLD (if e.(ev_ptrace) then CLD_TRAPPED else CLD_STOPPED) (swrap 32 pid)
        (Z.land (Z.shiftr e.(ev_status) 8) 255)
  end.

(** [SigInfo::default()] *)
Definition siginfo_default : SigInfo := mkSigInfo 0 0 0 (words []).

(** [LinuxRusage::default()]: two times of two words and fourteen counts. *)
Definition rusage_default : list Z := replicate 18 0.

Section calls.
Context {M : Type} `{um_word : UserMemory M Z} `{um_rusage : UserMemory M (list Z)} `{um_info : UserMemory M SigInfo}.
Context (signalfds : Z → list Signalfd) (pidfd_watchers : Z → nat) (pidfd_pollers : Z → list Z) (p t : Z).

Definition wait4_answer (m : M) (status_ptr rusage : Z) (r : WaitReport) : result SyscallError Z * M :=
  let '(a, m) := if status_ptr =? 0 then (Ok tt, m) else user_write m status_ptr (report_status r) in
  try _ := a with m in
  let '(a, m) := if rusage =? 0 then (Ok tt, m) else user_write m rusage rusage_default in
  try _ := a with m in
  (Ok (report_pid r), m).

Definition wait4 (w : World) (m : M) (target status_ptr options rusage : Z) (ws : list (wakeup World))
  : option (result SyscallError Z) * (World * M) :=
  match flags_from_bits Wait4Options options with
  | Err e => (Some (Err e), (w, m))
  | Ok options =>
      let '(r, w) := wait_for_child_exit signalfds pidfd_watchers pidfd_pollers target (for_wait4 options) p t ws w in
      match r with
      | None => (None, (w, m))
      | Some (Err e) => (Some (Err e), (w, m))
      | Some (Ok None) => (Some (Ok 0), (w, m))
      | Some (Ok (Some report)) =>
          let '(r, m) := wait4_answer m status_ptr rusage report in (Some r, (w, m))
      end
  end.

(** [pidfd]: the process a descriptor stands for. *)
Definition waitid_target (pidfd : Z → result SyscallError Z) (id_type id : Z) : result SyscallError Z :=
  if id_type =? 0 then Ok (-1)
  else if id_type =? 1 then Ok (swrap 32 id)
  else if id_type =? 2 then Ok (swrap 32 (- swrap 32 id))
  else if id_type =? 3 then pid ← pidfd id; Ok (swrap 32 pid)
  else Err SyscallError.InvalidArguments.

Definition waitid (pidfd : Z → result SyscallError Z) (w : World) (m : M) (id_type id info_ptr options : Z) (ws : list (wakeup World))
  : option (result SyscallError Z) * (World * M) :=
  let validated :=
    options ← flags_from_bits WaitidOptions options;
    target ← waitid_target pidfd id_type id;
    if contains options W_WEXITED then Ok (options, target) else Err SyscallError.InvalidArguments in
  match validated with
  | Err e => (Some (Err e), (w, m))
  | Ok (options, target) =>
      let '(r, w) := wait_for_child_exit signalfds pidfd_watchers pidfd_pollers target (behavior_for_waitid options) p t ws w in
      match r with
      | None => (None, (w, m))
      | Some (Err e) => (Some (Err e), (w, m))
      | Some (Ok report) =>
          if info_ptr =? 0 then (Some (Ok 0), (w, m))
          else
            let '(r, m) := user_write m info_ptr (match report with Some r => report_info r | None => siginfo_default end) in
            (Some ((λ _, 0) <$> r), (w, m))
      end
  end.

Definition exit (w : World) (code : Z) : result SyscallError Z * World :=
  (Ok 0, exit_current_thread w t (from_exit_code code)).

Definition exit_group (w : World) (code : Z) : result SyscallError Z * World :=
  (Ok 0, exit_current_thread w t (from_exit_code code)).

Definition set_tid_address (w : World) (m : M) (tidptr : Z) : result SyscallError Z * (World * M) :=
  match w.(threads) !! t with
  | None => (Ok 0, (panic w, m))
  | Some th =>
      let tid := swrap 32 th.(id) in
      let w := map_thread w t (λ th, with_clear_child_tid th tidptr) in
      let '(r, m) := if tidptr =? 0 then (Ok tt, m) else user_write m tidptr tid in
      try _ := r with (w, m) in
      (Ok tid, (w, m))
  end.

Definition gettid (w : World) : result SyscallError Z :=
  Ok (match w.(threads) !! t with Some th => th.(id) | None => 0 end).
End calls.

Section numbers.
(** The caller's process and its number. *)
Context (p : Z) (cur : Process).

Definition getpid : result SyscallError Z := Ok (default cur.(pid) cur.(pid_namespace_local_pid)).

Definition getppid (w : World) : result SyscallError Z :=
  if bool_decide (cur.(pid_namespace_local_pid) = Some 1) then Ok 0
  else Ok (default 0 (cur.(p_parent) ≫= λ q, w.(processes) !! q ≫= λ pr, pid_visible_from pr cur)).

Definition getpgrp : result SyscallError Z := Ok cur.(group_id).

(** The process of a number as the caller sees it. *)
Definition find_visible (w : World) (n : Z) : result SyscallError (Z * Process) :=
  ok_or (List.find (λ x, bool_decide (pid_visible_from_namespace_inode x.2 cur.(pid_namespace) = Some n)) (process_list w)) SyscallError.NoProcess.

Definition getpgid (w : World) (n : Z) : result SyscallError Z :=
  if n =? 0 then Ok (default 0 (visible_group_id_from_namespace_inode cur cur.(pid_namespace)))
  else
    x ← find_visible w (uwrap 64 n);
    ok_or (visible_group_id_from_namespace_inode x.2 cur.(pid_namespace)) SyscallError.NoProcess.

Definition getsid (w : World) (n : Z) : result SyscallError Z :=
  if n =? 0 then Ok (default 0 (visible_session_id_from_namespace_inode cur cur.(pid_namespace)))
  else
    x ← find_visible w (uwrap 64 n);
    ok_or (visible_session_id_from_namespace_inode x.2 cur.(pid_namespace)) SyscallError.NoProcess.

Definition setpgid (w : World) (n group : Z) : result SyscallError Z * World :=
  try x := (if n =? 0 then Ok (p, cur) else find_visible w (uwrap 64 n)) with w in
  let pr := x.2 in
  let names_init := (group =? 1) && (pr.(pid_namespace) =? cur.(pid_namespace)) && bool_decide (pr.(pid_namespace_local_pid) = Some 1) in
  let g := if (group =? 0) || names_init then pr.(pid) else uwrap 64 group in
  (Ok 0, map_process w x.1 (λ pr, with_group_id pr g)).

Definition setsid (w : World) : result SyscallError Z * World :=
  if cur.(group_id) =? cur.(pid) then (Err SyscallError.PermissionDenied, w)
  else
    (Ok (default cur.(pid) cur.(pid_namespace_local_pid)),
     map_process w p (λ pr, with_session_id (with_group_id pr cur.(pid)) cur.(pid))).
End numbers.
