(* ===== verification/Ptrace.v ===== *)
(** * Processes: tracing

    A process that traces another sees it stop at calls, at an exec and at signals, reads its
    memory and registers, and lets it go on (process/ptrace.rs,
    systemcall/implementations/ptrace.rs), and what systemcall/handling.rs keeps of the
    registers and does about stops around a call. *)

From stdpp Require Import sets.
From S2P Require Import Prelude Errors Blocking AddrAreas SignalData Threads Futex Signals Processes.

Open Scope Z_scope.

Definition PTRACE_O_TRACESYSGOOD : Z := 1.
Definition PTRACE_O_TRACEEXEC : Z := 16.
Definition PTRACE_EVENT_EXEC : Z := 4.

Definition exec_event_status : Z := Z.lor (Z.shiftl (Z.lor (Z.shiftl PTRACE_EVENT_EXEC 8) (number Signal.SIGTRAP)) 8) 127.

Definition with_tracer (x : PtraceState) (v : option Z) : PtraceState :=
  mkPtrace v x.(ptrace_options) x.(resume_mode) x.(last_stop_status) x.(last_stop_kind).
Definition with_ptrace_options (x : PtraceState) (v : Z) : PtraceState :=
  mkPtrace x.(tracer) v x.(resume_mode) x.(last_stop_status) x.(last_stop_kind).
Definition with_resume_mode (x : PtraceState) (v : PtraceResumeMode) : PtraceState :=
  mkPtrace x.(tracer) x.(ptrace_options) v x.(last_stop_status) x.(last_stop_kind).

Definition map_ptrace (w : World) (p : Z) (f : PtraceState → PtraceState) : World :=
  map_process w p (λ pr, with_ptrace pr (f pr.(ptrace))).

Definition tracer_pid_of (w : World) (p : Z) : option Z := w.(processes) !! p ≫= λ pr, pr.(ptrace).(tracer).

(** [traceme_current]; [p] is the caller. *)
Definition traceme_current (w : World) (p : Z) : result SyscallError unit * World :=
  match w.(processes) !! p ≫= p_parent with
  | None => (Err SyscallError.NoProcess, w)
  | Some parent_pid =>
      match tracer_pid_of w p with
      | Some _ => (Err SyscallError.PermissionDenied, w)
      | None => (Ok tt, map_ptrace w p (λ x, with_resume_mode (with_tracer x (Some parent_pid)) PtraceResumeMode.Continue))
      end
  end.

Definition seize (w : World) (p tracer_pid options : Z) : result SyscallError unit * World :=
  if p =? tracer_pid then (Err SyscallError.PermissionDenied, w)
  else if match tracer_pid_of w p with Some existing => negb (existing =? tracer_pid) | None => false end
  then (Err SyscallError.PermissionDenied, w)
  else (Ok tt, map_ptrace w p (λ x, with_resume_mode (with_ptrace_options (with_tracer x (Some tracer_pid)) options) PtraceResumeMode.Continue)).

Definition ensure_traced_by (w : World) (p tracer_pid : Z) : result SyscallError unit :=
  if bool_decide (tracer_pid_of w p = Some tracer_pid) then Ok tt else Err SyscallError.PermissionDenied.

Definition set_options (w : World) (p tracer_pid options : Z) : result SyscallError unit * World :=
  try _ := ensure_traced_by w p tracer_pid with w in
  (Ok tt, map_ptrace w p (λ x, with_ptrace_options x options)).

(** A thread object of the process: the weak references that still lead somewhere. *)
Definition first_thread (w : World) (p : Z) : result SyscallError Thread :=
  ok_or (head (omap (λ t, w.(threads) !! t) (threads_of w p))) SyscallError.NoProcess.

Definition resume (w : World) (p tracer_pid : Z) (mode : PtraceResumeMode) : result SyscallError unit * World :=
  try _ := ensure_traced_by w p tracer_pid with w in
  let w := map_ptrace w p (λ x, with_last_stop (with_resume_mode x mode) 0 PtraceStopKind.None_) in
  try th := first_thread w p with w in
  (Ok tt, wake_thread_by_id w th.(id)).

Definition get_traced_process (w : World) (pid tracer_pid : Z) : result SyscallError Z :=
  if pid <=? 0 then Err SyscallError.InvalidArguments
  else
    p ← get_process_with_pid w pid;
    _ ← ensure_traced_by w p tracer_pid;
    Ok p.

(** ** Stops *)

Section stops.
Context (signalfds : Z → list Signalfd).

(** The thread is blocked when this returns; it goes on when it is woken. *)
Definition stop_current_with_status (w : World) (p t status : Z) (kind : PtraceStopKind) : World :=
  let w := map_ptrace w p (λ x, with_last_stop (with_resume_mode x PtraceResumeMode.Stopped) status kind) in
  let w := report_wait_event signalfds w p (mkStopped status true) in
  (finish_block_current (prepare_block_current w t BlockType.Stopped) t).2.

Definition syscall_stop_status (x : PtraceState) : Z :=
  stop_status (if negb (Z.land x.(ptrace_options) PTRACE_O_TRACESYSGOOD =? 0) then Z.lor (number Signal.SIGTRAP) 128 else number Signal.SIGTRAP).

Definition stops_at_syscalls (x : PtraceState) : bool :=
  match x.(tracer), x.(resume_mode) with Some _, PtraceResumeMode.Syscall => true | _, _ => false end.

Definition maybe_stop_current_on_syscall (kind : PtraceStopKind) (w : World) (p t : Z) : World :=
  match ptrace <$> w.(processes) !! p with
  | Some x => if stops_at_syscalls x then stop_current_with_status w p t (syscall_stop_status x) kind else w
  | None => w
  end.

Definition maybe_stop_current_on_syscall_entry : World → Z → Z → World := maybe_stop_current_on_syscall PtraceStopKind.SyscallEnter.
Definition maybe_stop_current_on_syscall_exit : World → Z → Z → World := maybe_stop_current_on_syscall PtraceStopKind.SyscallExit.

Definition maybe_stop_current_after_exec (w : World) (p t : Z) : World :=
  match ptrace <$> w.(processes) !! p with
  | Some x =>
      match x.(tracer), x.(resume_mode) with
      | Some _, PtraceResumeMode.Continue | Some _, PtraceResumeMode.Syscall =>
          let status := if negb (Z.land x.(ptrace_options) PTRACE_O_TRACEEXEC =? 0) then exec_event_status
                        else stop_status (number Signal.SIGTRAP) in
          stop_current_with_status w p t status PtraceStopKind.Exec
      | _, _ => w
      end
  | None => w
  end.
End stops.

(** What [syscall_handler] keeps of the registers when a call begins, and when it ends. *)
Definition save_user_snapshot (th : Thread) (regs : Snapshot) (base : Z) : Thread :=
  let s := mkThreadSnapshot regs base ThreadSnapshotType.Thread in
  match th.(snapshot_state) with
  | SnapshotState.Normal => with_snapshot th s
  | SnapshotState.SignalHandler => with_sig_handler_snapshot th s
  end.

Definition with_last_user (x : Thread) (no : Z) (regs : Snapshot) (base : Z) : Thread :=
  mkThread x.(id) x.(parent) x.(state) x.(snapshot_state) x.(snapshot) x.(sig_handler_snapshot)
    x.(saved_blocked_signals) x.(blocked_signals) x.(temporary_blocked_signals)
    x.(pending_signals) x.(pending_signal_info) x.(interrupted_by_signal)
    x.(interruptible_wait_active) x.(clear_child_tid) x.(pending_exit_status) x.(sigaltstack)
    no regs base.

Definition enter_syscall (th : Thread) (no : Z) (regs : Snapshot) (base : Z) : Thread :=
  with_last_user (save_user_snapshot th regs base) no regs base.

Definition leave_syscall (th : Thread) (regs : Snapshot) (base : Z) : Thread :=
  with_last_user (save_user_snapshot th regs base) th.(last_syscall_no) regs base.

(** ** The call (systemcall/implementations/ptrace.rs) *)

Definition PTRACE_TRACEME : Z := 0.
Definition PTRACE_PEEKTEXT : Z := 1.
Definition PTRACE_PEEKDATA : Z := 2.
Definition PTRACE_CONT : Z := 7.
Definition PTRACE_GETREGS : Z := 12.
Definition PTRACE_SYSCALL : Z := 24.
Definition PTRACE_SETOPTIONS : Z := 16896.
Definition PTRACE_GETEVENTMSG : Z := 16897.
Definition PTRACE_GETSIGINFO : Z := 16898.
Definition PTRACE_GETREGSET : Z := 16900.
Definition PTRACE_SEIZE : Z := 16902.
Definition PTRACE_GET_SYSCALL_INFO : Z := 16910.
Definition NT_PRSTATUS : Z := 1.
Definition AUDIT_ARCH_X86_64 : Z := 3221225534.

(** [LinuxUserRegsStruct], as its words. *)
Definition traced_regs (th : Thread) : list Z :=
  let s := th.(last_user_snapshot) in
  [s.(r15); s.(r14); s.(r13); s.(r12); s.(rbp); s.(rbx); s.(r11); s.(r10); s.(r9); s.(r8);
   uwrap 64 s.(rax); s.(rcx); s.(rdx); s.(rsi); s.(rdi); th.(last_syscall_no);
   s.(rip); s.(cs); s.(rflags); s.(rsp); s.(ss); th.(last_user_fs_base); 0; 0; 0; 0; 0].

Definition words_bytes (l : list Z) : list byte := concat (map (le_encode 8) l).

(** [LinuxPtraceSyscallInfo]: an operation, the architecture, two registers and 64 bytes. *)
Definition syscall_info_bytes (th : Thread) (kind : PtraceStopKind) : list byte :=
  let s := th.(last_user_snapshot) in
  let '(op, payload) :=
    match kind with
    | PtraceStopKind.SyscallEnter => (1, words_bytes [th.(last_syscall_no); s.(rdi); s.(rsi); s.(rdx); s.(r10); s.(r8); s.(r9)])
    | PtraceStopKind.SyscallExit =>
        (2, words_bytes [s.(rax); if (s.(rax) <? 0) && (-4095 <=? s.(rax)) then 1 else 0])
    | _ => (0, [])
    end in
  le_encode 1 op ++ replicate 3 x00 ++ le_encode 4 AUDIT_ARCH_X86_64 ++ words_bytes [s.(rip); s.(rsp)]
    ++ payload ++ replicate (64 - length payload) x00.

Record LinuxIovec := mkIovec { iov_base : Z; iov_len : Z }.

Section call.
Context {M : Type} `{um_word : UserMemory M Z} `{um_iovec : UserMemory M LinuxIovec} `{um_bytes : UserMemory M (list byte)}
  `{um_info : UserMemory M SigInfo}.
(** The address space of a process, read at an address, and the caller. *)
Context (peek : Z → Z → result SyscallError Z) (tracer_pid : Z).

(** A prefix of the bytes goes to user memory, unless it is empty. *)
Definition write_prefix (m : M) (ptr len : Z) (bytes : list byte) : result SyscallError Z * M :=
  let copy_len := Z.min len (zlen bytes) in
  let '(r, m) := if 0 <? copy_len then user_write m ptr (take (Z.to_nat copy_len) bytes) else (Ok tt, m) in
  ((λ _, copy_len) <$> r, m).

Definition peek_target_word (w : World) (pid addr : Z) : result SyscallError Z :=
  p ← get_traced_process w pid tracer_pid;
  peek p addr.

Definition regs_of (w : World) (pid : Z) : result SyscallError (list byte) :=
  p ← get_traced_process w pid tracer_pid;
  th ← first_thread w p;
  Ok (words_bytes (traced_regs th)).

Definition write_traced_regs (w : World) (m : M) (pid out_ptr out_len : Z) : result SyscallError unit * M :=
  try bytes := regs_of w pid with m in
  let '(r, m) := write_prefix m out_ptr out_len bytes in
  ((λ _, tt) <$> r, m).

Definition write_traced_regset (w : World) (m : M) (pid addr data : Z) : result SyscallError Z * M :=
  if negb (addr =? NT_PRSTATUS) then (Err SyscallError.InvalidArguments, m)
  else
    let '(r, m) := user_read (T := LinuxIovec) m data in
    try iov := r with m in
    try bytes := regs_of w pid with m in
    let '(r, m) := write_prefix m iov.(iov_base) iov.(iov_len) bytes in
    try _ := r with m in
    let '(r, m) := user_write m data (mkIovec iov.(iov_base) (zlen bytes)) in
    ((λ _, 0) <$> r, m).

(** The status of the stop the tracer has not seen yet, or of the last one. *)
Definition siginfo_status (pr : Process) : result SyscallError Z :=
  match pr.(wait_event) with
  | Some e => Ok e.(ev_status)
  | None => if negb (pr.(ptrace).(last_stop_status) =? 0) then Ok pr.(ptrace).(last_stop_status) else Err SyscallError.TryAgain
  end.

Definition write_siginfo (w : World) (m : M) (pid data : Z) : result SyscallError Z * M :=
  try p := get_traced_process w pid tracer_pid with m in
  match w.(processes) !! p with
  | None => (Err SyscallError.NoProcess, m)
  | Some pr =>
      try status := siginfo_status pr with m in
      let raw_signal := Z.land (Z.shiftr status 8) 255 in
      let signal := default Signal.SIGTRAP (signal_try_from (Z.land raw_signal 127)) in
      let '(r, m) := user_write m data (for_process_signal signal pid pr.(real_uid)) in
      ((λ _, 0) <$> r, m)
  end.

Definition write_syscall_info (w : World) (m : M) (pid size data : Z) : result SyscallError Z * M :=
  try p := get_traced_process w pid tracer_pid with m in
  try th := first_thread w p with m in
  let kind := match ptrace <$> w.(processes) !! p with Some x => x.(last_stop_kind) | None => PtraceStopKind.None_ end in
  write_prefix m data size (syscall_info_bytes th kind).

Definition resume_call (w : World) (pid data : Z) (mode : PtraceResumeMode) : result SyscallError Z * World :=
  if negb (data =? 0) then (Err SyscallError.InvalidArguments, w)
  else
    try p := get_traced_process w pid tracer_pid with w in
    let '(r, w) := resume w p tracer_pid mode in
    ((λ _, 0) <$> r, w).

Definition set_options_call (w : World) (pid data : Z) : result SyscallError Z * World :=
  try p := get_traced_process w pid tracer_pid with w in
  let '(r, w) := set_options w p tracer_pid (uwrap 32 data) in
  ((λ _, 0) <$> r, w).

Definition seize_call (w : World) (pid data : Z) : result SyscallError Z * World :=
  if pid <=? 0 then (Err SyscallError.InvalidArguments, w)
  else
    try p := get_process_with_pid w pid with w in
    let '(r, w) := seize w p tracer_pid (uwrap 32 data) in
    ((λ _, 0) <$> r, w).

Definition sys_ptrace (w : World) (m : M) (request pid addr data : Z) : result SyscallError Z * (World * M) :=
  let on_world (x : result SyscallError Z * World) := (x.1, (x.2, m)) in
  let on_memory (x : result SyscallError Z * M) := (x.1, (w, x.2)) in
  if request =? PTRACE_TRACEME then let '(r, w) := traceme_current w tracer_pid in ((λ _, 0) <$> r, (w, m))
  else if (request =? PTRACE_PEEKTEXT) || (request =? PTRACE_PEEKDATA) then (peek_target_word w pid addr, (w, m))
  else if request =? PTRACE_CONT then on_world (resume_call w pid data PtraceResumeMode.Continue)
  else if request =? PTRACE_SYSCALL then on_world (resume_call w pid data PtraceResumeMode.Syscall)
  else if request =? PTRACE_GETREGS then
    let '(r, m) := write_traced_regs w m pid data 216 in ((λ _, 0) <$> r, (w, m))
  else if request =? PTRACE_SETOPTIONS then on_world (set_options_call w pid data)
  else if request =? PTRACE_SEIZE then on_world (seize_call w pid data)
  else if request =? PTRACE_GETEVENTMSG then
    let '(r, m) := user_write m data 0 in ((λ _, 0) <$> r, (w, m))
  else if request =? PTRACE_GETSIGINFO then on_memory (write_siginfo w m pid data)
  else if request =? PTRACE_GETREGSET then on_memory (write_traced_regset w m pid addr data)
  else if request =? PTRACE_GET_SYSCALL_INFO then on_memory (write_syscall_info w m pid addr data)
  else (Err SyscallError.InvalidArguments, (w, m)).
End call.
