(* ===== verification/ProcessProps.v ===== *)
(** * Processes: properties

    The numbers: a free one is found, users keep theirs through a map.  The tree: parents
    never form a cycle, so the search for an heir ends, and the end of a process gives each
    of its children the nearest ancestor that collects orphans, or the first process.
    Waiting: which child a wait reports, that a death is reported once, and that the end of
    a child wakes a parent that waits and answers its wait.  Tracing: only a tracer looks
    into a process or lets it go on. *)

From stdpp Require Import sets.
From S2P Require Import Prelude Errors Clock Blocking AddrAreas SignalData Threads ThreadsProps Futex FutexProps.
From S2P Require Import Signals SignalProps Processes ProcessEnd ProcessWait Ptrace.

Open Scope Z_scope.

#[local] Opaque all_signals.

(** ** Lemmas: what waking, signals and the end of threads leave of a process *)

(** A process without its threads and pending signals. *)
Definition kin (pr : Process) : Process := with_p_threads (with_p_pending_signal_info (with_p_pending_signals pr 0) []) [].

(** The rest stays, and no pending signal is lost. *)
Definition keeps (pr pr' : Process) : Prop :=
  kin pr' = kin pr ∧ Z.land pr.(p_pending_signals) pr'.(p_pending_signals) = pr.(p_pending_signals).

Definition same_kin (w w' : World) : Prop := ∀ p, option_Forall2 keeps (w.(processes) !! p) (w'.(processes) !! p).

#[export] Instance keeps_refl : Reflexive keeps.
Proof. intros pr. split; [done|apply Z.land_diag]. Qed.

#[export] Instance keeps_trans : Transitive keeps.
Proof. intros a b c [H1 H2] [H3 H4]. split; [congruence|]. rewrite <- H2 at 1. by rewrite <- Z.land_assoc, H4. Qed.

Lemma same_kin_refl w : same_kin w w.
Proof. intros p. destruct (processes w !! p); by constructor. Qed.

Lemma same_kin_trans w1 w2 w3 : same_kin w1 w2 → same_kin w2 w3 → same_kin w1 w3.
Proof. intros H1 H2 p. specialize (H1 p). specialize (H2 p). destruct H1; inversion H2; constructor. by etransitivity. Qed.

Lemma same_kin_eq w w' : w'.(processes) = w.(processes) → same_kin w w'.
Proof. intros H p. rewrite H. apply same_kin_refl. Qed.

Lemma same_kin_only w w' : only_wakes w w' → same_kin w w'.
Proof. intros H. apply same_kin_eq, H. Qed.

Lemma same_kin_map w p f : (∀ pr, keeps pr (f pr)) → same_kin w (map_process w p f).
Proof.
  intros Hf q. unfold map_process. cbn. destruct (decide (q = p)) as [->|].
  - rewrite lookup_alter_eq. destruct (processes w !! p); by constructor.
  - rewrite lookup_alter_ne by done. apply same_kin_refl.
Qed.

Lemma same_kin_fold {A} (f : World → A → World) l w : (∀ w a, same_kin w (f w a)) → same_kin w (foldl f w l).
Proof.
  intros Hf. revert w. induction l as [|a l IH]; intros w; [apply same_kin_refl|]. cbn. eapply same_kin_trans; [apply Hf|apply IH].
Qed.

(** What is kept, for a process that is there before or after. *)
Lemma same_kin_at w w' p pr : same_kin w w' → w.(processes) !! p = Some pr → ∃ pr', w'.(processes) !! p = Some pr' ∧ keeps pr pr'.
Proof. intros H Hp. specialize (H p). rewrite Hp in H. inversion H; subst. by eexists. Qed.

Lemma same_kin_back w w' p pr' : same_kin w w' → w'.(processes) !! p = Some pr' → ∃ pr, w.(processes) !! p = Some pr ∧ keeps pr pr'.
Proof. intros H Hp. specialize (H p). rewrite Hp in H. inversion H; subst. by eexists. Qed.

Lemma keeps_adds pr pr' bits : kin pr' = kin pr → pr'.(p_pending_signals) = insert_bits pr.(p_pending_signals) bits → keeps pr pr'.
Proof.
  intros H1 H2. split; [done|]. rewrite H2. unfold insert_bits. apply Z.bits_inj. intros i. rewrite Z.land_spec, Z.lor_spec.
  by destruct (Z.testbit _ i).
Qed.

Lemma kin_fields pr pr' : keeps pr pr' →
  pr'.(pid) = pr.(pid) ∧ pr'.(p_parent) = pr.(p_parent) ∧ pr'.(exit_status) = pr.(exit_status) ∧ pr'.(child_subreaper) = pr.(child_subreaper) ∧
  pr'.(pid_namespace) = pr.(pid_namespace) ∧ pr'.(pid_namespace_local_pid) = pr.(pid_namespace_local_pid) ∧ pr'.(vfork_blocker) = pr.(vfork_blocker) ∧
  pr'.(wait_event) = pr.(wait_event).
Proof. intros [H _]. destruct pr, pr'. unfold kin in H. cbn in H. injection H as. subst. done. Qed.

Lemma send_signal_kin fds w q s : same_kin w (send_signal_to_process fds w q s).
Proof.
  destruct (decide (s = Signal.SIGCONT)) as [->|Hs]; [apply same_kin_only, wake_processes_only|].
  eapply same_kin_trans; [|apply same_kin_only, (queue_signal_spec fds w q s None Hs)].
  destruct (processes w !! q) as [pr|] eqn:Hq; [|apply same_kin_refl]. intros p. cbn.
  destruct (decide (p = q)) as [->|]; [|rewrite lookup_insert_ne by done; apply same_kin_refl].
  rewrite lookup_insert_eq, Hq. constructor. by apply (keeps_adds _ _ (mask s)).
Qed.

Lemma mark_exited_processes w t : (mark_thread_exited w t).(processes) = w.(processes).
Proof.
  unfold mark_thread_exited. destruct (threads w !! t) as [th|]; [|done]. case_bool_decide; [done|]. destruct (parent th); [|done].
  assert (∀ w, processes (remove_from_blocked_queues w t) = processes w) as Hr by (intros v; apply (remove_blocked_same v t)).
  cbn. case_match; cbn; by rewrite Hr.
Qed.

Lemma mark_list_processes w ts : (mark_threads_exited w ts).(processes) = w.(processes).
Proof.
  unfold mark_threads_exited. revert w. induction ts as [|t ts IH]; intros w; [done|]. cbn. by rewrite IH, mark_exited_processes.
Qed.

Lemma repeat_wake_only n w : only_wakes w (repeat_wake_io n w).
Proof. revert w. induction n as [|n IH]; intros w; [auto with kernel|]. cbn. eapply only_wakes_trans; [|apply IH]. apply wake_queue_only. Qed.

Lemma wake_pidfd_only pw pp w p : only_wakes w (wake_pidfd pw pp w p).
Proof.
  unfold wake_pidfd. eapply only_wakes_trans; [apply (repeat_wake_only (pw p))|]. case_match; [auto with kernel|].
  eapply only_wakes_trans; [|apply wake_matching_only]. by apply only_wakes_same.
Qed.

#[export] Hint Resolve repeat_wake_only wake_pidfd_only : kernel.

Lemma announce_death_kin sw pw pp w p : same_kin w (announce_death sw pw pp w p).
Proof.
  unfold announce_death. set (w1 := match processes w !! p with None => w | Some pr => _ end).
  apply (same_kin_trans _ w1).
  - subst w1. destruct (processes w !! p) as [pr|]; [|apply same_kin_refl]. destruct (p_parent pr) as [q|]; [|apply same_kin_refl].
    eapply same_kin_trans; [|apply same_kin_only, foldl_only; intros v t; repeat case_match; auto with kernel].
    eapply same_kin_trans; [|apply same_kin_only, repeat_wake_only]. apply same_kin_map. intros pq. by eapply keeps_adds.
  - apply same_kin_only. eapply only_wakes_trans; [|apply wake_pidfd_only]. apply wake_matching_only.
Qed.

Lemma reap_zombie_kin current w t : same_kin w (reap_zombie current w t).2.
Proof.
  unfold reap_zombie. destruct (threads w !! t ≫= parent); [|by apply same_kin_eq]. cbn.
  case_bool_decide; apply (same_kin_map w z (λ pr, with_p_threads pr (without t pr.(p_threads)))); split; try done; apply Z.land_diag.
Qed.

Lemma reap_zombies_kin current ts w : same_kin w (reap_zombies current w ts).2.
Proof.
  revert w. induction ts as [|t ts IH]; intros w; [apply same_kin_refl|]. cbn. pose proof (reap_zombie_kin current w t) as H.
  destruct (reap_zombie current w t) as [d w1]. specialize (IH w1). destruct (reap_zombies current w1 ts). cbn in *. by eapply same_kin_trans.
Qed.

Lemma wake_waiters_processes w key count p : (wake_waiters w key count p).2.(processes) = w.(processes).
Proof.
  unfold wake_waiters. pose proof (take_futex_waiters_spec w key count p) as H. destruct (take_futex_waiters w key count p) as [ts v].
  destruct H as (_ & rest & q & -> & _). cbn. by rewrite (ow_processes _ _ (wake_list_only _ ts)).
Qed.

Lemma flush_exits_processes w : (flush_pending_thread_exits w).(processes) = w.(processes).
Proof.
  unfold flush_pending_thread_exits. change (processes w) with (processes (with_pending_thread_exits w [])).
  generalize (with_pending_thread_exits w []). induction (pending_thread_exits w) as [|x l IH]; intros v; [done|]. cbn.
  rewrite IH. unfold wake_futex_for_process. by rewrite wake_waiters_processes.
Qed.

Lemma cleanup_kin fds pw pp current w : same_kin w (cleanup fds pw pp current w).
Proof.
  unfold cleanup, cleanup_exited_threads.
  pose proof (reap_zombies_kin current (flush_pending_thread_exits w).(zombies) (with_zombies (flush_pending_thread_exits w) [])) as H.
  destruct (reap_zombies current _ _) as [dead w1]. cbn in H |- *.
  eapply same_kin_trans; [|apply same_kin_fold; intros; apply announce_death_kin].
  eapply same_kin_trans; [|exact H]. apply same_kin_eq, flush_exits_processes.
Qed.

(** ** The tree of processes *)

(** A number of generations for each process: a parent has a smaller one, the first process
    none.  The first process is there, and each process is under its own number. *)
Record tree_by (rank : Z → nat) (w : World) : Prop := {
  tree_first : rank 1 = O;
  tree_rank c pr q : w.(processes) !! c = Some pr → pr.(p_parent) = Some q → (rank q < rank c)%nat;
  tree_init : is_Some (w.(processes) !! 1);
  tree_keys c pr : w.(processes) !! c = Some pr → pr.(pid) = c;
}.

Definition process_tree (w : World) : Prop := ∃ rank, tree_by rank w.

(** The tree is a matter of numbers and parents. *)
Definition place (pr : Process) : Z * option Z := (pr.(pid), pr.(p_parent)).

Definition same_places (w w' : World) : Prop := ∀ p, place <$> w'.(processes) !! p = place <$> w.(processes) !! p.

Lemma same_places_trans w1 w2 w3 : same_places w1 w2 → same_places w2 w3 → same_places w1 w3.
Proof. intros H1 H2 p. by rewrite H2. Qed.

Lemma same_places_kin w w' : same_kin w w' → same_places w w'.
Proof. intros H p. specialize (H p). destruct H as [pr pr' H|]; [|done]. cbn. apply kin_fields in H as (H1 & H2 & _). unfold place. congruence. Qed.

Lemma same_places_eq w w' : w'.(processes) = w.(processes) → same_places w w'.
Proof. intros H p. by rewrite H. Qed.

Lemma same_places_map w p f : (∀ pr, place (f pr) = place pr) → same_places w (map_process w p f).
Proof.
  intros Hf q. unfold map_process. cbn. destruct (decide (q = p)) as [->|]; [|by rewrite lookup_alter_ne].
  rewrite lookup_alter_eq. destruct (processes w !! p); [|done]. cbn. by rewrite Hf.
Qed.

Lemma same_places_back w w' p pr' : same_places w w' → w'.(processes) !! p = Some pr' →
  ∃ pr, w.(processes) !! p = Some pr ∧ pr'.(pid) = pr.(pid) ∧ pr'.(p_parent) = pr.(p_parent).
Proof.
  intros H Hp. specialize (H p). rewrite Hp in H. destruct (processes w !! p) as [pr|]; [|done]. exists pr. unfold place in H. cbn in H.
  split; [done|]. split; congruence.
Qed.

Lemma tree_places rank w w' : tree_by rank w → same_places w w' → tree_by rank w'.
Proof.
  intros [H1 H2 H3 H4] Hk. split; [done| | |].
  - intros c pr q Hc Hq. destruct (same_places_back _ _ _ _ Hk Hc) as (pr0 & Hc0 & _ & Hp). apply (H2 c pr0 q Hc0). by rewrite <- Hp.
  - specialize (Hk 1). destruct H3 as [pr Hp]. rewrite Hp in Hk. destruct (processes w' !! 1); [by eexists|done].
  - intros c pr Hc. destruct (same_places_back _ _ _ _ Hk Hc) as (pr0 & Hc0 & -> & _). by apply H4.
Qed.

Definition collects_orphans (pr : Process) : Prop := pr.(exit_status) = None ∧ pr.(child_subreaper) = true.

(** The nearest ancestor, from [c] on, that is alive and collects orphans, if there is one. *)
Inductive nearest (w : World) : option Z → option Z → Prop :=
  | nearest_none : nearest w None None
  | nearest_gone c : w.(processes) !! c = None → nearest w (Some c) None
  | nearest_here c pr : w.(processes) !! c = Some pr → collects_orphans pr → nearest w (Some c) (Some c)
  | nearest_up c pr r : w.(processes) !! c = Some pr → ¬ collects_orphans pr → nearest w pr.(p_parent) r → nearest w (Some c) r.

Lemma nearest_functional w c r1 r2 : nearest w c r1 → nearest w c r2 → r1 = r2.
Proof. intros H1. revert r2. induction H1; inversion 1; simplify_eq; auto; try done. Qed.

(** The processes of at most the rank of [c]: each step up the tree leaves one behind. *)
Definition below (rank : Z → nat) (w : World) (n : nat) : gmap Z Process := filter (λ x, (rank x.1 < n)%nat) w.(processes).

Lemma below_shrinks rank w n m c pr : w.(processes) !! c = Some pr → (n <= rank c < m)%nat → (size (below rank w n) < size (below rank w m))%nat.
Proof.
  intros Hc Hn. apply map_subset_size. split.
  - apply map_subseteq_spec. intros k x [Hk Hx]%map_lookup_filter_Some. apply map_lookup_filter_Some. split; [done|]. cbn beta iota delta [fst] in *. lia.
  - intros Hs. assert (below rank w m !! c = Some pr) as H by (apply map_lookup_filter_Some; split; [done|cbn beta iota delta [fst]; lia]).
    eapply lookup_weaken in H; [|exact Hs]. apply map_lookup_filter_Some in H as [_ H]. cbn beta iota delta [fst] in H. lia.
Qed.

Lemma below_size rank w n : (size (below rank w n) <= size w.(processes))%nat.
Proof. apply map_subseteq_size, map_filter_subseteq. Qed.

Lemma search_nearest rank w fuel : tree_by rank w →
  ∀ c, (match c with Some c => size (below rank w (S (rank c))) | None => O end < fuel)%nat → nearest w c (nearest_live_subreaper fuel w c).
Proof.
  intros Ht. induction fuel as [|fuel IH]; intros c Hf; [lia|]. cbn. destruct c as [c|]; [|constructor].
  destruct (processes w !! c) as [pr|] eqn:Hc; [|by constructor].
  assert (collects_orphans pr ↔ bool_decide (exit_status pr = None) && child_subreaper pr = true) as Hiff.
  { unfold collects_orphans. rewrite andb_true_iff, bool_decide_eq_true. done. }
  destruct (_ && _) eqn:Hb; [by apply (nearest_here _ _ pr); [|apply Hiff]|].
  apply (nearest_up _ _ pr); [done|by rewrite Hiff|]. destruct (p_parent pr) as [q|] eqn:Hq; [apply IH|destruct fuel; constructor].
  pose proof (tree_rank _ _ Ht _ _ _ Hc Hq) as Hr. pose proof (below_shrinks rank w (S (rank q)) (S (rank c)) c pr Hc ltac:(lia)). lia.
Qed.

Lemma search_enough rank w fuel c : tree_by rank w → (S (size w.(processes)) <= fuel)%nat → nearest w c (nearest_live_subreaper fuel w c).
Proof.
  intros Ht Hf. apply (search_nearest rank); [done|]. destruct c as [c|]; [|lia]. pose proof (below_size rank w (S (rank c))). lia.
Qed.

Lemma subreaper_nearest rank w c : tree_by rank w → nearest w c (subreaper_of w c).
Proof. intros Ht. by apply (search_enough rank). Qed.

Lemma nearest_rank rank w c r : tree_by rank w → nearest w (Some c) (Some r) → (rank r <= rank c)%nat.
Proof.
  intros Ht H. remember (Some c) as c' eqn:Ec. remember (Some r) as r' eqn:Er. revert c Ec.
  induction H as [| | |d pr r' Hc Hn H IH]; intros e Ee; simplify_eq; [lia|].
  destruct (p_parent pr) as [q|] eqn:Hq; [|by inversion H]. specialize (IH eq_refl q eq_refl). pose proof (tree_rank _ _ Ht _ _ _ Hc Hq). lia.
Qed.

Lemma init_found w : process_tree w → init_process_ref w = Some 1.
Proof.
  intros (rank & Ht). unfold init_process_ref. destruct (List.find _ (process_list w)) as [[k pr]|] eqn:Hf.
  - apply List.find_some in Hf as [Hin Hp]. apply list_elem_of_In, process_list_elem in Hin. cbn in *.
    pose proof (tree_keys _ _ Ht _ _ Hin). f_equal. lia.
  - exfalso. destruct (tree_init _ _ Ht) as [pr Hp]. pose proof (tree_keys _ _ Ht _ _ Hp).
    eapply List.find_none in Hf; [|apply list_elem_of_In, process_list_elem, Hp]. cbn in Hf. lia.
Qed.

(** *** Operations on the tree *)

(** No process has the number or names it as its parent. *)
Definition fresh (w : World) (n : Z) : Prop :=
  w.(processes) !! n = None ∧ ∀ c pr, w.(processes) !! c = Some pr → pr.(p_parent) ≠ Some n.

Lemma tree_insert w n child :
  process_tree w → fresh w n → child.(pid) = n → child.(p_parent) ≠ Some n → process_tree (insert_process w n child).
Proof.
  intros (rank & Ht) [Hn Hfresh] Hpid Hne.
  exists (λ c, if decide (c = n) then match child.(p_parent) with Some q => S (rank q) | None => O end else rank c).
  destruct (tree_init _ _ Ht) as [pr1 H1]. assert (n ≠ 1) as Hn1 by (intros ->; congruence).
  split; cbn.
  - rewrite decide_False by done. apply Ht.
  - intros c pr q. destruct (decide (c = n)) as [->|Hc].
    + rewrite lookup_insert_eq. intros [= <-] Hq. rewrite Hq. rewrite decide_False by congruence. lia.
    + rewrite lookup_insert_ne by done. intros Hl Hq. rewrite decide_False by (intros ->; by eapply Hfresh). by apply (tree_rank _ _ Ht c pr).
  - rewrite lookup_insert_ne by done. by rewrite H1.
  - intros c pr. destruct (decide (c = n)) as [->|Hc]; [by rewrite lookup_insert_eq; intros [= <-]|].
    rewrite lookup_insert_ne by done. apply Ht.
Qed.

Lemma fold_map_process f cs w q : (∀ pr, f (f pr) = f pr) →
  (foldl (λ w c, map_process w c f) w cs).(processes) !! q = (if decide (q ∈ cs) then f else λ pr, pr) <$> w.(processes) !! q.
Proof.
  intros Hf. revert w. induction cs as [|c cs IH]; intros w; cbn.
  - rewrite decide_False by apply not_elem_of_nil. by rewrite option_fmap_id.
  - rewrite IH. unfold map_process. cbn. destruct (decide (q = c)) as [->|Hne].
    + rewrite lookup_alter_eq, (decide_True (P := c ∈ c :: cs)) by (by constructor).
      destruct (processes w !! c); [|done]. cbn. by case_decide; rewrite ?Hf.
    + rewrite lookup_alter_ne by done. do 2 case_decide; try done; set_solver.
Qed.

Lemma elem_of_children w p c : c ∈ map fst (children w p) ↔ ∃ pr, w.(processes) !! c = Some pr ∧ c ≠ p ∧ pr.(p_parent) = Some p.
Proof.
  unfold children. rewrite elem_of_processes. unfold is_child_of. cbn. setoid_rewrite andb_true_iff. setoid_rewrite bool_decide_eq_true.
  setoid_rewrite negb_true_iff. setoid_rewrite Z.eqb_neq. done.
Qed.

(** The children of [p] have [target] as their parent. *)
Definition new_parent (w : World) (p : Z) (target : option Z) (q : Z) (pr : Process) : option Z :=
  if decide (q ≠ p ∧ pr.(p_parent) = Some p) then target else pr.(p_parent).

Lemma reparent_lookup w p target q :
  (reparent_children w p target).2.(processes) !! q = (λ pr, with_p_parent pr (new_parent w p target q pr)) <$> w.(processes) !! q.
Proof.
  unfold reparent_children. cbn. rewrite fold_map_process by done. destruct (processes w !! q) as [pr|] eqn:Hq; [|done]. cbn. f_equal.
  unfold new_parent. case_decide as H1; case_decide as H2; try done.
  - exfalso. apply H2. apply elem_of_children in H1 as (pr' & Hq' & ? & ?). naive_solver.
  - exfalso. apply H1. apply elem_of_children. naive_solver.
  - by destruct pr.
Qed.

Lemma tree_reparent rank w p target : tree_by rank w →
  (∀ c pr t, w.(processes) !! c = Some pr → pr.(p_parent) = Some p → target = Some t → (rank t < rank c)%nat) →
  tree_by rank (reparent_children w p target).2.
Proof.
  intros Ht Hr. split; [apply Ht| | |].
  - intros c pr q. rewrite reparent_lookup. destruct (processes w !! c) as [pr0|] eqn:Hc; [|done]. intros [= <-]. cbn.
    unfold new_parent. case_decide as Hd; intros Hq; [destruct Hd as [_ Hd]; by apply (Hr c pr0 q)|by apply (tree_rank _ _ Ht c pr0)].
  - rewrite reparent_lookup. destruct (tree_init _ _ Ht) as [pr1 ->]. by eexists.
  - intros c pr. rewrite reparent_lookup. destruct (processes w !! c) as [pr0|] eqn:Hc; [|done]. intros [= <-]. exact (tree_keys _ _ Ht c pr0 Hc).
Qed.

(** *** The end of a process *)

Definition give_status (status : ProcessExitStatus) (pr : Process) : Process :=
  match pr.(exit_status) with None => with_exit_status pr (Some status) | Some _ => pr end.

Definition is_namespace_init (pr : Process) : Prop := pr.(pid_namespace_local_pid) = Some 1.

(** Process [q] dies because [p] is the first of its namespace. *)
Definition dies_with (p : Z) (pr : Process) (q : Z) (qr : Process) : Prop :=
  is_namespace_init pr ∧ q ≠ p ∧ qr.(pid_namespace) = pr.(pid_namespace).

#[export] Instance dies_with_dec p pr q qr : Decision (dies_with p pr q qr).
Proof. unfold dies_with, is_namespace_init. apply _. Defined.

(** The first half of [terminate_process]. *)
Definition end_processes (w : World) (p : Z) (pr : Process) (status : ProcessExitStatus) : World :=
  let w := (terminate_inner (map_process w p (λ pr, with_vfork_blocker pr None)) p status).2 in
  if bool_decide (pr.(pid_namespace_local_pid) = Some 1) then terminate_pid_namespace_members w pr.(pid) pr.(pid_namespace) status else w.

Definition after_end (p : Z) (pr : Process) (status : ProcessExitStatus) (q : Z) (qr : Process) : Process :=
  if decide (q = p) then give_status status (with_vfork_blocker qr None)
  else if decide (dies_with p pr q qr) then give_status status qr else qr.

Lemma members_lookup w l status q :
  (foldl (terminate_member status) w l).(processes) !! q = (if decide (q ∈ l) then give_status status else λ pr, pr) <$> w.(processes) !! q.
Proof.
  assert (∀ pr, give_status status (give_status status pr) = give_status status pr) as Hi
    by (intros pr; unfold give_status at 2; destruct (exit_status pr) eqn:E; [done|]; unfold give_status; by rewrite E).
  rewrite <- (fold_map_process (give_status status) l w q Hi). clear Hi. assert (∀ w1 w2 : World, processes w1 = processes w2 →
    processes (foldl (terminate_member status) w1 l) !! q = processes (foldl (λ w c, map_process w c (give_status status)) w2 l) !! q) as H; [|by apply H].
  induction l as [|c l IH]; intros w1 w2 H; cbn; [by rewrite H|]. apply IH. unfold terminate_member, terminate_inner.
  rewrite mark_list_processes. unfold map_process. cbn. by rewrite H.
Qed.

Lemma end_lookup w p pr status q : process_tree w → w.(processes) !! p = Some pr →
  (end_processes w p pr status).(processes) !! q = after_end p pr status q <$> w.(processes) !! q.
Proof.
  intros (rank & Ht) Hp. unfold end_processes. set (w1 := (terminate_inner _ p status).2).
  assert (∀ q, processes w1 !! q = (λ qr, if decide (q = p) then give_status status (with_vfork_blocker qr None) else qr) <$> processes w !! q) as H1.
  { intros u. subst w1. unfold terminate_inner, map_process. cbn. destruct (decide (u = p)) as [->|].
    - rewrite !lookup_alter_eq, Hp. done.
    - rewrite !lookup_alter_ne by done. by rewrite option_fmap_id. }
  case_bool_decide as Hi.
  - unfold terminate_pid_namespace_members. rewrite members_lookup, H1. destruct (processes w !! q) as [qr|] eqn:Hq; [|done]. cbn.
    rewrite (tree_keys _ _ Ht _ _ Hp). unfold after_end, namespace_members, dies_with. destruct (decide (q = p)) as [->|Hne].
    + rewrite decide_False; [done|]. rewrite elem_of_processes, H1, Hp. cbn. rewrite decide_True by done.
      intros (x & [= <-] & [[Hx _]%andb_true_iff _]%andb_true_iff). rewrite negb_true_iff, Z.eqb_neq in Hx.
      apply Hx. rewrite <- (tree_keys _ _ Ht _ _ Hp). unfold give_status. by case_match.
    + case_decide as Hin; rewrite elem_of_processes, H1, Hq in Hin; cbn in Hin; rewrite decide_False in Hin by done.
      * destruct Hin as (x & [= <-] & [[_ Hx]%andb_true_iff _]%andb_true_iff). rewrite decide_True; [done|]. apply Z.eqb_eq in Hx. done.
      * case_decide as Hd; [|done]. destruct Hd as (_ & _ & Hns). unfold give_status. destruct (exit_status qr) eqn:Hs; [done|].
        exfalso. apply Hin. exists qr. split; [done|]. rewrite Hns, Hs, Z.eqb_refl, (tree_keys _ _ Ht _ _ Hq). cbn.
        rewrite !andb_true_iff, negb_true_iff, Z.eqb_neq. done.
  - rewrite H1. destruct (processes w !! q) as [qr|]; [|done]. cbn. unfold after_end. case_decide; [done|].
    rewrite decide_False; [done|]. by intros [? _].
Qed.

Lemma tree_end rank w p pr status : tree_by rank w → w.(processes) !! p = Some pr → tree_by rank (end_processes w p pr status).
Proof.
  intros Ht Hp. apply (tree_places rank w); [done|]. intros q. rewrite end_lookup by (done || by exists rank).
  destruct (processes w !! q) as [qr|]; [|done]. cbn. unfold after_end, give_status. by repeat case_match.
Qed.

Lemma end_fields p pr status q qr :
  let x := after_end p pr status q qr in
  x.(p_parent) = qr.(p_parent) ∧ x.(parent_death_signal) = qr.(parent_death_signal) ∧ x.(p_pending_signals) = qr.(p_pending_signals) ∧
  x.(exit_status) = (if decide (q = p ∨ dies_with p pr q qr) then Some (default status qr.(exit_status)) else qr.(exit_status)) ∧
  x.(vfork_blocker) = (if decide (q = p) then None else qr.(vfork_blocker)).
Proof.
  unfold after_end, give_status. destruct (decide (q = p)) as [->|].
  - rewrite (decide_True (P := p = p ∨ _)) by auto. unfold with_vfork_blocker. cbn. by destruct (exit_status qr) eqn:E; cbn.
  - destruct (decide (dies_with p pr q qr)).
    + rewrite decide_True by auto. by destruct (exit_status qr) eqn:E.
    + by rewrite decide_False by tauto.
Qed.

Section ends.
Context (fds : Z → list Signalfd) (pw : Z → nat) (pp : Z → list Z).

Lemma send_death_signals_kin w l : same_kin w (send_death_signals fds w l).
Proof. apply same_kin_fold. intros v x. apply send_signal_kin. Qed.

Lemma adopt_kin w cs : same_kin w (adopt fds w cs).
Proof.
  unfold adopt. eapply same_kin_trans; [|apply same_kin_only, foldl_only; intros; apply wake_matching_only].
  apply same_kin_fold. intros v x. apply send_signal_kin.
Qed.

Definition heir (w : World) (p : Z) (pr : Process) : option Z := or_else (subreaper_of w pr.(p_parent)) (init_process_ref w).

Lemma terminate_parts w p pr status : w.(processes) !! p = Some pr →
  terminate_process fds pw pp w p status =
  let '(cs, w2) := hand_over_children fds (end_processes w p pr status) p pr.(p_parent) in
  cleanup fds pw pp None (mark_threads_exited (release_vfork (adopt fds w2 cs) pr.(vfork_blocker)) (threads_of w p)).
Proof.
  intros Hp. unfold terminate_process, end_processes. rewrite Hp. unfold terminate_inner. cbn [snd].
  replace (threads_of (map_process w p (λ pr, with_vfork_blocker pr None)) p) with (threads_of w p); [done|].
  unfold threads_of. by rewrite (map_process_lookup _ _ _ _ _ Hp), decide_True, Hp.
Qed.

Lemma terminate_kin w p pr status : w.(processes) !! p = Some pr →
  let w1 := end_processes w p pr status in
  same_kin (send_death_signals fds (reparent_children w1 p (heir w1 p pr)).2 (collect_parent_death_signals_for_children w1 p))
    (terminate_process fds pw pp w p status).
Proof.
  intros Hp w1. rewrite (terminate_parts w p pr) by done. fold w1. unfold hand_over_children. fold (heir w1 p pr).
  destruct (reparent_children w1 p (heir w1 p pr)) as [cs w2]. cbn [snd].
  set (w3 := send_death_signals fds w2 _). apply (same_kin_trans w3 (adopt fds w3 cs)); [apply adopt_kin|]. set (w4 := adopt fds w3 cs).
  eapply same_kin_trans; [|apply cleanup_kin]. apply same_kin_eq. rewrite mark_list_processes. unfold release_vfork, wake_thread_by_id.
  destruct (vfork_blocker pr) as [t|]; [|done]. case_decide; [|done]. apply (wake_only w4 t).
Qed.

Lemma contained a b c : contains a c = true → Z.land a b = a → contains b c = true.
Proof.
  unfold contains. rewrite !Z.eqb_eq. intros H1 H2. transitivity (Z.land b (Z.land a c)); [by rewrite H1|].
  by rewrite Z.land_assoc, (Z.land_comm b a), H2.
Qed.

Lemma sent_pending w l q s qr : (q, s) ∈ l → s ≠ Signal.SIGCONT → w.(processes) !! q = Some qr →
  ∃ qr', (send_death_signals fds w l).(processes) !! q = Some qr' ∧ contains qr'.(p_pending_signals) (mask s) = true.
Proof.
  intros Hin Hs. revert w qr. induction l as [|x l IH]; intros w qr Hq; [by apply elem_of_nil in Hin|]. cbn.
  destruct (same_kin_at _ _ _ _ (send_signal_kin fds w x.1 x.2) Hq) as (qr1 & Hq1 & Hk).
  apply elem_of_cons in Hin as [<-|Hin]; [|by apply (IH Hin _ qr1)]. cbn in *. clear IH.
  destruct (same_kin_at _ _ _ _ (send_death_signals_kin (send_signal_to_process fds w q s) l) Hq1) as (qr2 & Hq2 & [_ Hk2]).
  exists qr2. split; [done|]. apply (contained qr1.(p_pending_signals)); [|done].
  pose proof (ow_processes _ _ (queue_signal_spec fds w q s None Hs)) as Hspec. rewrite Hq in Hspec.
  unfold send_signal_to_process in Hq1. rewrite Hspec in Hq1. cbn in Hq1. rewrite lookup_insert_eq in Hq1. injection Hq1 as <-.
  cbn. unfold contains, insert_bits. apply Z.eqb_eq. apply Z.bits_inj. intros i. rewrite Z.land_spec, Z.lor_spec. by destruct (Z.testbit (mask s) i), (Z.testbit (p_pending_signals qr) i).
Qed.

(** Looking up the tree from a process of small rank sees nothing of a change above it. *)
Lemma nearest_unchanged rank w w' n c r : tree_by rank w → nearest w c r →
  (∀ q, (rank q < n)%nat → option_Forall2 (λ a b, b.(p_parent) = a.(p_parent) ∧ (collects_orphans a ↔ collects_orphans b)) (w.(processes) !! q) (w'.(processes) !! q)) →
  (∀ q, c = Some q → (rank q < n)%nat) → nearest w' c r.
Proof.
  intros Ht H Hs. induction H as [|c Hc|c pr Hc Ho|c pr r Hc Ho H IH]; intros Hn; [constructor|..];
    specialize (Hs c (Hn c eq_refl)); rewrite Hc in Hs; inversion Hs as [? pr' [Hp Hiff]|]; subst.
  - by constructor.
  - apply (nearest_here _ _ pr'); [done|by apply Hiff].
  - apply (nearest_up _ _ pr'); [done|by rewrite <- Hiff|]. rewrite Hp. apply IH. intros q Hq.
    pose proof (tree_rank _ _ Ht _ _ _ Hc Hq). specialize (Hn c eq_refl). lia.
Qed.

(** What becomes of a process [q] when [p] ends. *)
Lemma terminate_lookup rank w p pr status q qr : tree_by rank w → w.(processes) !! p = Some pr → w.(processes) !! q = Some qr →
  let w1 := end_processes w p pr status in
  ∃ qr', (terminate_process fds pw pp w p status).(processes) !! q = Some qr' ∧
    keeps (with_p_parent (after_end p pr status q qr) (new_parent w p (heir w1 p pr) q qr)) qr'.
Proof.
  intros Ht Hp Hq w1. apply (same_kin_at (reparent_children w1 p (heir w1 p pr)).2).
  - eapply same_kin_trans; [apply send_death_signals_kin|by apply terminate_kin].
  - rewrite reparent_lookup. subst w1. rewrite end_lookup, Hq by (done || by exists rank). cbn. f_equal.
    unfold new_parent. destruct (end_fields p pr status q qr) as [-> _]. done.
Qed.

(** The heir is the nearest ancestor that collects orphans, as the world is afterwards. *)
Lemma heir_nearest rank w p pr status : tree_by rank w → w.(processes) !! p = Some pr →
  let w1 := end_processes w p pr status in
  ∃ r, heir w1 p pr = Some (default 1 r) ∧ nearest (terminate_process fds pw pp w p status) pr.(p_parent) r ∧ nearest w1 pr.(p_parent) r.
Proof.
  intros Ht Hp w1. pose proof (tree_end _ _ _ _ status Ht Hp) as Ht1. fold w1 in Ht1.
  pose proof (subreaper_nearest _ _ pr.(p_parent) Ht1) as Hn. exists (subreaper_of w1 pr.(p_parent)). split; [|split; [|done]].
  { unfold heir. rewrite (init_found w1) by by exists rank. by destruct (subreaper_of _ _). }
  apply (nearest_unchanged rank w1 _ (rank p)); [done..| |intros q Hq; by apply (tree_rank _ _ Ht _ pr)].
  intros q Hr. assert (processes w1 !! q = after_end p pr status q <$> processes w !! q) as Hl by (apply end_lookup; [by exists rank|done]).
  destruct (processes w !! q) as [qr|] eqn:Hq.
  - rewrite Hl. cbn. destruct (terminate_lookup rank w p pr status q qr Ht Hp Hq) as (qr' & -> & Hk). constructor.
    apply kin_fields in Hk as (_ & Hpar & Hex & Hsub & _). cbn in Hpar, Hex, Hsub. unfold collects_orphans. rewrite Hex, Hsub. split; [|done].
    rewrite Hpar. destruct (end_fields p pr status q qr) as [-> _]. unfold new_parent. rewrite decide_False; [done|]. intros [_ Hpp].
    pose proof (tree_rank _ _ Ht _ _ _ Hq Hpp). lia.
  - rewrite Hl. cbn. destruct (processes (terminate_process fds pw pp w p status) !! q) as [qr'|] eqn:Hq'; [|constructor].
    exfalso. pose proof (terminate_kin w p pr status Hp) as Hk. fold w1 in Hk.
    pose proof (same_kin_trans _ _ _ (send_death_signals_kin _ _) Hk) as Hk'. destruct (same_kin_back _ _ _ _ Hk' Hq') as (x & Hx & _).
    rewrite reparent_lookup, Hl in Hx. done.
Qed.

Lemma death_signal_arrives rank w p pr status q qr qr' s :
  tree_by rank w → w.(processes) !! p = Some pr → w.(processes) !! q = Some qr → q ≠ p → qr.(p_parent) = Some p →
  qr.(parent_death_signal) = Some s → s ≠ Signal.SIGCONT → (terminate_process fds pw pp w p status).(processes) !! q = Some qr' →
  contains qr'.(p_pending_signals) (mask s) = true.
Proof.
  intros Ht Hp Hqr Hq Hpar Hs Hne Hqr'. set (w1 := end_processes w p pr status).
  assert (processes w1 !! q = Some (after_end p pr status q qr)) as Hq1 by (subst w1; rewrite end_lookup, Hqr; [done|by exists rank|done]).
  pose proof (end_fields p pr status q qr) as (F1 & F2 & _).
  assert (∃ x, processes (reparent_children w1 p (heir w1 p pr)).2 !! q = Some x) as [x Hx] by (rewrite reparent_lookup, Hq1; by eexists).
  destruct (sent_pending (reparent_children w1 p (heir w1 p pr)).2 (collect_parent_death_signals_for_children w1 p) q s x) as (y & Hy & Hc); [|done|done|].
  { unfold collect_parent_death_signals_for_children. apply list_elem_of_omap. exists (q, after_end p pr status q qr). cbn. rewrite F2, Hs. split; [|done].
    unfold children. apply list_elem_of_filter. split; [|by apply process_list_elem]. unfold is_child_of. cbn. rewrite F1, Hpar.
    rewrite bool_decide_eq_true_2 by done. rewrite andb_true_r. apply negb_true_iff. by apply Z.eqb_neq. }
  destruct (same_kin_at _ _ _ _ (terminate_kin w p pr status Hp) Hy) as (z & Hz & [_ Hsub]). rewrite Hqr' in Hz. injection Hz as <-.
  by apply (contained y.(p_pending_signals)).
Qed.

Lemma tree_terminate w p status : process_tree w → process_tree (terminate_process fds pw pp w p status).
Proof.
  intros (rank & Ht). destruct (processes w !! p) as [pr|] eqn:Hp; [|unfold terminate_process; rewrite Hp; by exists rank].
  exists rank. pose proof (tree_end _ _ _ _ status Ht Hp) as Ht1. set (w1 := end_processes w p pr status) in *.
  apply (tree_places rank (reparent_children w1 p (heir w1 p pr)).2).
  - apply tree_reparent; [done|]. intros c cr t Hc Hpar Hh. pose proof (tree_rank _ _ Ht1 _ _ _ Hc Hpar) as Hr.
    destruct (heir_nearest rank w p pr status Ht Hp) as (r & Hheir & _ & Hn). fold w1 in Hheir, Hn. rewrite Hheir in Hh. injection Hh as <-.
    destruct r as [r|]; cbn; [|rewrite (tree_first _ _ Ht); lia].
    destruct (p_parent pr) as [q|] eqn:Hq; [|by inversion Hn]. pose proof (nearest_rank _ _ _ _ Ht1 Hn). pose proof (tree_rank _ _ Ht _ _ _ Hp Hq). lia.
  - apply same_places_kin. eapply same_kin_trans; [apply send_death_signals_kin|by apply terminate_kin].
Qed.
End ends.

(** ** What a wait reports *)

(** A child of [p] that the number asked for stands for. *)
Definition awaited (target p : Z) (cur pr : Process) : Prop :=
  pr.(p_parent) = Some p ∧
  (target = -1 ∨ (target = 0 ∧ pr.(group_id) = cur.(group_id)) ∨
   (0 < target ∧ pid_visible_from_namespace_inode pr cur.(pid_namespace) = Some target) ∨
   (target < -1 ∧ visible_group_id_from_namespace_inode pr cur.(pid_namespace) = Some (- target))).

(** It is dead and its threads are gone, or it stopped and nobody was told. *)
Definition reports (b : WaitBehavior) (pr : Process) : Prop :=
  (b.(report_exited) = true ∧ is_Some pr.(exit_status) ∧ pr.(p_threads) = []) ∨
  (b.(report_stopped) = true ∧ is_Some pr.(wait_event)).

Lemma wait_matches_awaited target p cur c pr : wait_matches target p cur (c, pr) = true ↔ awaited target p cur pr.
Proof.
  unfold wait_matches, awaited, target_group. cbn [snd]. destruct (Z.eqb_spec target (-1)) as [->|H1].
  { rewrite bool_decide_eq_true. naive_solver lia. }
  destruct (Z.eqb_spec target 0) as [->|H2].
  { rewrite andb_true_iff, bool_decide_eq_true, Z.eqb_eq. naive_solver lia. }
  destruct (Z.ltb_spec 0 target).
  { rewrite andb_true_iff, !bool_decide_eq_true. naive_solver lia. }
  destruct (Z.leb_spec (-1) target); [lia|]. rewrite andb_true_iff, !bool_decide_eq_true. naive_solver lia.
Qed.

Lemma child_report_reports b cur c pr : is_Some (child_report b cur (c, pr)) ↔ reports b pr.
Proof.
  unfold child_report, reports, take_wait_event, is_Some. cbn [fst snd].
  destruct (exit_status pr) as [s|], (report_exited b), (report_stopped b), (wait_event pr) as [e|]; cbn; try case_bool_decide; naive_solver.
Qed.

Definition tells (target : Z) (b : WaitBehavior) (p : Z) (cur : Process) (x : Z * Process) : bool :=
  wait_matches target p cur x && match child_report b cur x with Some _ => true | None => false end.

Lemma check_children_find target b p cur l matched w :
  check_children target b p cur l matched w =
  match List.find (tells target b p cur) l ≫= λ x, (λ r, (x.1, r)) <$> child_report b cur x with
  | Some (c, (outcome, pr)) => (Ok (Some outcome), with_processes w (<[c := pr]> w.(processes)))
  | None => (if matched || existsb (wait_matches target p cur) l then Ok None else Err SyscallError.NoChildProcesses, w)
  end.
Proof.
  revert matched. induction l as [|x l IH]; intros matched; cbn; [by rewrite orb_false_r|]. unfold tells at 1.
  destruct (wait_matches target p cur x) eqn:Hm; cbn.
  - destruct (child_report b cur x) as [[o pr]|] eqn:Hr; cbn; [by rewrite Hr|]. rewrite IH. by rewrite orb_true_r.
  - apply IH.
Qed.

(** The first of a sorted list. *)
Lemma find_first {A} (f : A → bool) (l : list A) x : List.find f l = Some x →
  f x = true ∧ ∃ l1 l2, l = l1 ++ x :: l2 ∧ ∀ y, y ∈ l1 → f y = false.
Proof.
  induction l as [|a l IH]; cbn; [done|]. destruct (f a) eqn:Hf; [intros [= <-]|intros H].
  - split; [done|]. exists [], l. split; [done|]. intros y Hy. by apply elem_of_nil in Hy.
  - destruct (IH H) as (Hx & l1 & l2 & -> & Hl). split; [done|]. exists (a :: l1), l2. split; [done|]. intros y [->|Hy]%elem_of_cons; auto.
Qed.

Lemma process_list_order w l1 x l2 y : process_list w = l1 ++ x :: l2 → y ∈ process_list w → y.1 < x.1 → y ∈ l1.
Proof.
  intros Hl Hin Hlt. rewrite Hl in Hin. apply elem_of_app in Hin as [?|[->|Hin]%elem_of_cons]; [done|lia|].
  assert (StronglySorted (λ a b : Z * Process, (a.1 <=? b.1) = true) (process_list w)) as Hs.
  { apply sort_by_sorted; intros; lia. }
  rewrite Hl in Hs. apply StronglySorted_app_1_r in Hs. inversion Hs as [|? ? _ Hall]; subst. rewrite Forall_forall in Hall.
  specialize (Hall y Hin). cbn in Hall. lia.
Qed.

(** What one look at the children answers. *)
Definition wait_answer (target : Z) (b : WaitBehavior) (p : Z) (cur : Process) (w : World) (r : result SyscallError (option WaitOutcome)) (w' : World) : Prop :=
  match r with
  | Err e => e = SyscallError.NoChildProcesses ∧ w' = w ∧ ∀ c pr, w.(processes) !! c = Some pr → ¬ awaited target p cur pr
  | Ok None => w' = w ∧ (∃ c pr, w.(processes) !! c = Some pr ∧ awaited target p cur pr) ∧
      ∀ c pr, w.(processes) !! c = Some pr → awaited target p cur pr → ¬ reports b pr
  | Ok (Some outcome) => ∃ c pr pr', w.(processes) !! c = Some pr ∧ awaited target p cur pr ∧ child_report b cur (c, pr) = Some (outcome, pr') ∧
      w' = with_processes w (<[c := pr']> w.(processes)) ∧
      ∀ d dr, d < c → w.(processes) !! d = Some dr → awaited target p cur dr → ¬ reports b dr
  end.

Lemma check_wait_answer target b p cur w : w.(processes) !! p = Some cur → target ≠ I32_MIN →
  let '(r, w') := check_wait_outcome target b p w in wait_answer target b p cur w r w'.
Proof.
  intros Hp Ht. unfold check_wait_outcome. rewrite Hp. destruct (Z.eqb_spec target I32_MIN); [done|]. rewrite check_children_find.
  assert (∀ c pr, processes w !! c = Some pr → tells target b p cur (c, pr) = false → awaited target p cur pr → ¬ reports b pr) as Hno.
  { intros c pr Hc Ht' Ha Hr. apply (wait_matches_awaited _ _ _ c) in Ha. apply (child_report_reports b cur c) in Hr as [x Hr].
    unfold tells in Ht'. by rewrite Ha, Hr in Ht'. }
  destruct (List.find _ (process_list w)) as [[c pr]|] eqn:Hf; cbn.
  - apply find_first in Hf as (Htl & l1 & l2 & Hl & Hbefore). unfold tells in Htl. apply andb_true_iff in Htl as [Hm Hr].
    destruct (child_report b cur (c, pr)) as [[o pr']|] eqn:Hrep; [|done]. cbn. exists c, pr, pr'.
    split; [apply process_list_elem; rewrite Hl; set_solver|]. split; [by apply (wait_matches_awaited _ _ _ c)|]. split; [done|]. split; [done|].
    intros d dr Hlt Hd. apply (Hno d); [done|]. apply Hbefore. eapply process_list_order; [exact Hl|by apply process_list_elem|done].
  - assert (∀ c pr, processes w !! c = Some pr → awaited target p cur pr → ¬ reports b pr) as Hnone.
    { intros c pr Hc. apply (Hno c pr Hc). apply (List.find_none _ _ Hf). by apply list_elem_of_In, process_list_elem. }
    destruct (existsb (wait_matches target p cur) (process_list w)) eqn:He.
    + apply existsb_exists in He as ([c pr] & Hin & Hm). apply list_elem_of_In, process_list_elem in Hin. apply wait_matches_awaited in Hm.
      split; [done|]. split; [by exists c, pr|done].
    + split; [done|]. split; [done|]. intros c pr Hc Ha. apply (wait_matches_awaited _ _ _ c) in Ha.
      assert (existsb (wait_matches target p cur) (process_list w) = true); [|congruence].
      apply existsb_exists. exists (c, pr). split; [by apply list_elem_of_In, process_list_elem|done].
Qed.

Lemma consume_places w p : same_places w (consume_ignored_child_signal w p).
Proof. apply same_places_map. intros pr. by repeat case_match. Qed.

Lemma child_report_shape b cur c pr o pr' : child_report b cur (c, pr) = Some (o, pr') →
  place pr' = place pr ∧ ∀ d pid s, o = WaitOutcome.Exited d pid s → d = c.
Proof.
  unfold child_report, take_wait_event. cbn [fst snd].
  destruct (exit_status pr) as [s|], (report_exited b && bool_decide (p_threads pr = [])), (report_stopped b), (wait_event pr) as [e|], (preserve_child b); cbn;
    intros Hr; simplify_eq; (split; [done|]); congruence.
Qed.

Lemma child_report_cases b cur c pr o pr' : child_report b cur (c, pr) = Some (o, pr') →
  match o with
  | WaitOutcome.Exited d n s => d = c ∧ n = reported_pid cur (c, pr) ∧ pr.(exit_status) = Some s ∧ pr' = pr
  | WaitOutcome.Stopped d n e => d = c ∧ pr.(wait_event) = Some e ∧ n = reported_pid cur (c, pr) ∧
      pr'.(exit_status) = pr.(exit_status) ∧ pr' = (if b.(preserve_child) then pr else with_wait_event pr None)
  end.
Proof.
  unfold child_report, take_wait_event. cbn [fst snd].
  destruct (exit_status pr) as [s|] eqn:E, (report_exited b && bool_decide (p_threads pr = [])), (report_stopped b), (wait_event pr) as [e|], (preserve_child b); cbn;
    intros Hr; simplify_eq; auto.
Qed.

Lemma consume_fields w p q : exit_status <$> (consume_ignored_child_signal w p).(processes) !! q = exit_status <$> w.(processes) !! q ∧
  wait_event <$> (consume_ignored_child_signal w p).(processes) !! q = wait_event <$> w.(processes) !! q.
Proof.
  unfold consume_ignored_child_signal, map_process. cbn [processes with_processes]. destruct (decide (q = p)) as [->|]; [|by rewrite lookup_alter_ne].
  rewrite lookup_alter_eq. destruct (processes w !! p) as [pr|]; [|done]. cbn [fmap option_fmap option_map].
  destruct (signal_actions pr !! _) as [a|]; [by destruct (is_default a)|done].
Qed.

Lemma tree_wait target b p w o w1 : process_tree w → check_wait_outcome target b p w = (Ok (Some o), w1) →
  process_tree (finish_wait_outcome w1 p b o).2.
Proof.
  intros (rank & Ht) Hc. pose proof Hc as Hc0. unfold check_wait_outcome in Hc. destruct (processes w !! p) as [cur|] eqn:Hp; [|done].
  destruct (Z.eqb_spec target I32_MIN) as [|Hne]; [done|]. pose proof (check_wait_answer target b p cur w Hp Hne) as Ha. rewrite Hc0 in Ha.
  destruct Ha as (c & pr & pr' & Hl & [Hpar _] & Hr & -> & _). clear Hc Hc0.
  assert (place pr' = place pr ∧ ∀ d pid s, o = WaitOutcome.Exited d pid s → d = c) as [Hpl Hd].
  { by apply child_report_shape in Hr. }
  set (w1 := with_processes w _). assert (same_places w (consume_ignored_child_signal w1 p)) as Hs.
  { apply (same_places_trans _ w1); [|apply consume_places]. intros q. subst w1. cbn. destruct (decide (q = c)) as [->|].
    - rewrite lookup_insert_eq, Hl. cbn. by rewrite Hpl.
    - by rewrite lookup_insert_ne. }
  pose proof (tree_places rank _ _ Ht Hs) as Ht2. destruct o as [d n s|d n e]; cbn; [|by exists rank].
  rewrite (Hd d n s eq_refl). destruct (preserve_child b); [by exists rank|]. exists rank.
  assert (c ≠ 1) as Hc1. { intros ->. pose proof (tree_rank _ _ Ht _ _ _ Hl Hpar) as Hx. rewrite (tree_first _ _ Ht) in Hx. lia. }
  split; [apply Ht2| | |]; unfold reap_process; cbn.
  - intros d' pr0 q [_ Hd']%lookup_delete_Some. by apply (tree_rank _ _ Ht2).
  - rewrite lookup_delete_ne by done. apply Ht2.
  - intros d' pr0 [_ Hd']%lookup_delete_Some. by apply (tree_keys _ _ Ht2).
Qed.

(** *** New processes *)

Lemma spawn_processes w th : (spawn w th).(processes) = w.(processes).
Proof. unfold spawn. apply (push_balanced_same (register_thread w th)). Qed.

Lemma map_thread_processes w t f : (map_thread w t f).(processes) = w.(processes).
Proof. done. Qed.

Lemma spawn_blocked_processes w th b : (spawn_blocked w th b).(processes) = w.(processes).
Proof. done. Qed.

(** A child with the number [n] was put into the table of [w], and after that no process
    moved. *)
Definition born (w : World) (n : Z) (w' : World) : Prop :=
  same_places w w' ∨
  ∃ w1 child, same_places w w1 ∧ child.(pid) = n ∧
    (is_Some (w.(processes) !! n) ∨ child.(p_parent) ≠ Some n ∨ ¬ fresh w n) ∧ same_places (insert_process w1 n child) w'.

Lemma tree_born w n w' : process_tree w → fresh w n → born w n w' → process_tree w'.
Proof.
  intros Ht Hf [Hs|(w1 & child & Hs & Hpid & Hpar & Hs')]; destruct Ht as [rank Ht].
  { exists rank. by apply (tree_places rank w). }
  pose proof (tree_places _ _ _ Ht Hs) as Ht1. assert (fresh w1 n) as Hf1.
  { destruct Hf as [Hn Hf]. split; [specialize (Hs n); rewrite Hn in Hs; by destruct (processes w1 !! n)|].
    intros c pr Hc. destruct (same_places_back _ _ _ _ Hs Hc) as (pr0 & Hc0 & _ & ->). by apply (Hf c). }
  assert (child.(p_parent) ≠ Some n) as Hne. { destruct Hf as [Hn Hf]. destruct Hpar as [[x Hx]|[?|[]]]; [congruence|done|by split]. }
  destruct (tree_insert w1 n child) as [rank' Ht']; [by exists rank|done..|]. exists rank'. by apply (tree_places rank' (insert_process w1 n child)).
Qed.

Lemma born_trans w n w1 w2 : born w n w1 → same_places w1 w2 → born w n w2.
Proof.
  intros [H|(v & child & ? & ? & ? & ?)] Hs; [left; by eapply same_places_trans|right]. exists v, child. repeat split; try done. by eapply same_places_trans.
Qed.

Section birth.
Context (pid_max t : Z).

Definition next_pid (w : World) (last : Z) : Z := (allocate_process_id w pid_max last).1.

Lemma fork_sharing_spec w last p b r w1 last1 : fork_with_sharing pid_max t w last p b = (r, w1, last1) →
  same_places w w1 ∧
  match r with
  | Some (n, child) => n = next_pid w last ∧ child.(pid) = n ∧ child.(p_parent) = Some p ∧ is_Some (w.(processes) !! p)
  | None => True
  end.
Proof.
  unfold fork_with_sharing, fork_process, next_pid. destruct (processes w !! p) as [pr|] eqn:Hp.
  - destruct (allocate_process_id w pid_max last) as [n last'] eqn:Ha. cbn.
    destruct (threads w !! t) as [th|]; cbn; intros [= <- <- <-]; (split; [|try done]).
    + apply (same_places_trans _ (map_process w p (λ pr, with_pending_child_pid_namespace pr None))); [by apply same_places_map|].
      apply same_places_eq. rewrite map_thread_processes. destruct b; [done|apply spawn_processes].
    + apply (same_places_trans _ (map_process w p (λ pr, with_pending_child_pid_namespace pr None))); [by apply same_places_map|by apply same_places_eq].
  - intros [= <- <- <-]. done.
Qed.

Lemma fork_born w last : born w (next_pid w last) (fork pid_max t w last).2.1.
Proof.
  unfold fork. destruct (process_of w t) as [p|]; [|by left]. destruct (fork_with_sharing pid_max t w last p false) as [[[[n child]|] w1] l1] eqn:Hf;
    apply fork_sharing_spec in Hf as [Hs Hc]; [|by left]. destruct Hc as (-> & Hpid & Hpar & Hin). right. exists w1, child.
  split; [done|]. split; [done|]. split; [|done]. destruct (decide (p = next_pid w last)) as [<-|]; [by left|right; left; congruence].
Qed.

Context {M : Type} `{um_word : UserMemory M Z}.
Context (child_write : Z → Z → result SyscallError unit) (new_namespace : Z)
  (join_cgroup : Z → Z → result SyscallError unit) (push_pidfd : Z → Z).

Lemma write_child_processes w n addr v : (write_child child_write w n addr v).2.(processes) = w.(processes).
Proof. unfold write_child. by case_match. Qed.

Lemma announce_processes a n v (s : CloneState) : (clone_announce child_write push_pidfd a n v s).2.1.1.(processes) = s.1.1.(processes).
Proof.
  destruct s as [[w last] m]. unfold clone_announce.
  repeat (cbn -[write_child]; match goal with
  | |- context [if ?b then write_child ?f ?w ?n ?x ?y else _] =>
      let H := fresh in pose proof (write_child_processes w n x y) as H; destruct b; [destruct (write_child f w n x y) as [[] ?]; cbn in H|]
  | |- context [if ?b then _ else _] => destruct b
  | |- context [match user_write ?m ?a ?v with _ => _ end] => destruct (user_write m a v) as [[] ?]
  end); cbn -[write_child]; try done; congruence.
Qed.

Lemma clone_child_place a pr child child' : clone_child new_namespace a pr child = Ok child' →
  child'.(pid) = child.(pid) ∧ (child'.(p_parent) = child.(p_parent) ∨ child'.(p_parent) = pr.(p_parent)).
Proof.
  unfold clone_child. set (c1 := if contains _ CLONE_NEWUSER then _ else child). set (c2 := if contains _ CLONE_NEWPID then _ else c1).
  set (c3 := if contains _ CLONE_PARENT then _ else c2). intros H.
  assert (child'.(pid) = c3.(pid) ∧ child'.(p_parent) = c3.(p_parent)) as [-> ->].
  { destruct (clone_exit_signal a =? 0); [by injection H as <-|]. destruct (signal_try_from (clone_exit_signal a)) as [s|]; cbn in H; [by injection H as <-|done]. }
  assert (c2.(pid) = child.(pid) ∧ c2.(p_parent) = child.(p_parent)) as [H2 H3].
  { subst c2 c1. by destruct (contains _ CLONE_NEWPID), (contains _ CLONE_NEWUSER). }
  subst c3. destruct (contains _ CLONE_PARENT); cbn; auto.
Qed.

Lemma clone_start_born a w last (m : M) :
  born w (next_pid w last) (clone_process_start pid_max t child_write new_namespace join_cgroup push_pidfd a (w, last, m)).2.1.1.
Proof.
  unfold clone_process_start. destruct (validate_clone_process a); [|by left].
  destruct (process_of w t) as [current|] eqn:Hcur; [|by left]. destruct (parent_of w t) as [pr0|] eqn:Hpr0; [|by left].
  destruct (if contains (clone_flags a) CLONE_VM then _ else _) as [[] m1]; [|by left].
  destruct (fork_with_sharing pid_max t w last current _) as [[[[n child]|] w1] l1] eqn:Hf; apply fork_sharing_spec in Hf as [Hs Hc]; [|by left].
  destruct Hc as (-> & Hpid & Hpar & Hin). destruct (clone_child new_namespace a pr0 child) as [child1|] eqn:Hcc; [|by left].
  apply clone_child_place in Hcc as [Hpid1 Hpar1]. set (n := next_pid w last) in *. set (w2 := insert_process w1 n child1).
  assert (born w n w2) as Hb.
  { right. exists w1, child1. split; [done|]. split; [congruence|]. split; [|done].
    unfold parent_of in Hpr0. rewrite Hcur in Hpr0. cbn in Hpr0. destruct (decide (current = n)) as [->|]; [by left|]. right.
    destruct Hpar1 as [->| ->]; [left; congruence|]. destruct (decide (p_parent pr0 = Some n)) as [Hd|]; [right; intros [_ Hfr]; by apply (Hfr current pr0)|by left]. }
  set (w3 := if contains (clone_flags a) CLONE_VFORK then _ else w2). assert (born w n w3) as Hb3.
  { subst w3. case_match; [|done]. eapply born_trans; [exact Hb|]. by apply same_places_map. }
  destruct (if contains (clone_flags a) CLONE_INTO_CGROUP then _ else _) as [[]|]; [|exact Hb3].
  set (w4 := map_thread _ n _). assert (born w n w4) as Hb4.
  { apply (born_trans _ _ w3); [done|]. subst w4.
    destruct (contains (clone_flags a) CLONE_CLEAR_SIGHAND); [|by apply same_places_eq]. by apply (same_places_map w3). }
  pose proof (announce_processes a n (default n (pid_visible_from_namespace_inode child1 (pid_namespace pr0))) (w4, l1, m1)) as Ha.
  destruct (clone_announce _ _ _ _ _ _) as [[] [[w5 l2] m2]]; cbn [fst snd] in Ha |- *; apply same_places_eq in Ha.
  - eapply born_trans; [exact Hb4|]. eapply same_places_trans; [exact Ha|apply same_places_eq, (wake_only w5)].
  - by eapply born_trans.
Qed.

Lemma vfork_born w last (m : M) : born w (next_pid w last) (vfork pid_max t [] (w, last, m)).2.1.1.
Proof.
  unfold vfork. destruct (process_of w t) as [p|]; [|by left].
  destruct (fork_with_sharing pid_max t w last p true) as [[[[n child]|] w1] l1] eqn:Hf; apply fork_sharing_spec in Hf as [Hs Hc]; [|by left].
  destruct Hc as (-> & Hpid & Hpar & Hin). set (n := next_pid w last) in *. set (w2 := wake _ n).
  assert (born w n w2) as Hb.
  { right. exists w1, child. split; [done|]. split; [done|]. split; [destruct (decide (p = n)) as [->|]; [by left|right; left; congruence]|].
    eapply same_places_trans; [|apply same_places_eq, (wake_only _ n)]. by apply (same_places_map (insert_process w1 n child)). }
  cbn. destruct (vfork_done w2 n); [exact Hb|]. cbn. eapply born_trans; [exact Hb|]. apply same_places_eq.
  unfold finish_block_current. repeat case_match; simplify_eq; try done; unfold remove_ready_thread in *; by simplify_eq.
Qed.
End birth.

(** ** The reachable trees *)

(** What changes the tree, with a new number that nobody has or names; everything else leaves
    every process in its place. *)
Inductive process_step (w : World) : World → Prop :=
  | step_fork pid_max t last : fresh w (next_pid pid_max w last) → process_step w (fork pid_max t w last).2.1
  | step_clone pid_max t last a f ns cg fd (m : gmap Z Z) : fresh w (next_pid pid_max w last) →
      process_step w (clone_process_start pid_max t f ns cg fd a (w, last, m)).2.1.1
  | step_vfork pid_max t last (m : gmap Z Z) : fresh w (next_pid pid_max w last) → process_step w (vfork pid_max t [] (w, last, m)).2.1.1
  | step_end fds pw pp p status : process_step w (terminate_process fds pw pp w p status)
  | step_wait target b p o w1 : check_wait_outcome target b p w = (Ok (Some o), w1) → process_step w (finish_wait_outcome w1 p b o).2
  | step_other w' : same_places w w' → process_step w w'.

(** The first process has no parent. *)
Definition process_start (w : World) : Prop :=
  (∃ pr, w.(processes) !! 1 = Some pr) ∧ ∀ c pr, w.(processes) !! c = Some pr → pr.(pid) = c ∧ pr.(p_parent) = None.

Inductive process_reachable : World → Prop :=
  | process_initial w : process_start w → process_reachable w
  | process_next w w' : process_reachable w → process_step w w' → process_reachable w'.

Lemma process_step_tree w w' : process_tree w → process_step w w' → process_tree w'.
Proof.
  intros Ht Hs. destruct Hs as [pm t last Hf|pm t last a f ns cg fd m Hf|pm t last m Hf|fds pw pp p status|tg b p o w1 Hc|w' Hs].
  - apply (tree_born w (next_pid pm w last)); [done|done|apply fork_born].
  - apply (tree_born w (next_pid pm w last)); [done|done|apply clone_start_born].
  - apply (tree_born w (next_pid pm w last)); [done|done|apply vfork_born].
  - by apply tree_terminate.
  - by eapply tree_wait.
  - destruct Ht as [rank Ht]. exists rank. by apply (tree_places rank w).
Qed.

Lemma process_reachable_tree w : process_reachable w → process_tree w.
Proof.
  induction 1 as [w [[pr H1] Hs]|w w' _ IH Hst]; [|by eapply process_step_tree]. exists (λ _, O). split; [done| |by exists pr|].
  - intros c cr q Hc Hq. destruct (Hs c cr Hc) as [_ Hn]. congruence.
  - intros c cr Hc. by apply Hs.
Qed.


(** The walk up from an exiting process to its heir ends in every reachable world: with
    the fuel chosen, or any more, it gives the nearest ancestor that is alive and collects
    orphans, and nothing exactly when there is none. *)
Lemma subreaper_search_terminates w c fuel :
  process_reachable w → (S (size w.(processes)) <= fuel)%nat →
  nearest_live_subreaper fuel w c = subreaper_of w c ∧ nearest w c (subreaper_of w c).
Proof.
  intros [rank Ht]%process_reachable_tree Hf. pose proof (subreaper_nearest rank w c Ht) as Hn. split; [|done].
  by apply (nearest_functional w c); [apply (search_enough rank)|].
Qed.

(** When a process ends it has its status (an earlier one stays) and holds no vfork parent
    any more; if it was the first of its namespace the other members have the status too; each
    of its children has the heir as its parent, which is the nearest ancestor that is alive and
    collects orphans or else the first process, and the signal it asked for is pending for
    it; every other process keeps its parent and its status. *)
Lemma terminate_process_hands_over fds pw pp w p pr status :
  process_reachable w → w.(processes) !! p = Some pr →
  let w' := terminate_process fds pw pp w p status in
  (∃ pr', w'.(processes) !! p = Some pr' ∧ pr'.(exit_status) = Some (default status pr.(exit_status)) ∧
     pr'.(p_parent) = pr.(p_parent) ∧ pr'.(vfork_blocker) = None) ∧
  ∃ r, nearest w' pr.(p_parent) r ∧
  ∀ q qr, q ≠ p → w.(processes) !! q = Some qr → ∃ qr', w'.(processes) !! q = Some qr' ∧
    qr'.(p_parent) = (if decide (qr.(p_parent) = Some p) then Some (default 1 r) else qr.(p_parent)) ∧
    qr'.(exit_status) = (if decide (dies_with p pr q qr) then Some (default status qr.(exit_status)) else qr.(exit_status)) ∧
    qr'.(vfork_blocker) = qr.(vfork_blocker) ∧
    Z.land qr.(p_pending_signals) qr'.(p_pending_signals) = qr.(p_pending_signals) ∧
    (∀ s, qr.(p_parent) = Some p → qr.(parent_death_signal) = Some s → s ≠ Signal.SIGCONT →
       contains qr'.(p_pending_signals) (mask s) = true).
Proof.
  intros [rank Ht]%process_reachable_tree Hp w'. set (w1 := end_processes w p pr status).
  destruct (heir_nearest fds pw pp rank w p pr status Ht Hp) as (r & Hheir & Hn & _). fold w1 w' in Hheir, Hn. split.
  - destruct (terminate_lookup fds pw pp rank w p pr status p pr Ht Hp Hp) as (pr' & Hp' & Hk). exists pr'. split; [exact Hp'|].
    apply kin_fields in Hk as (_ & H1 & H2 & _ & _ & _ & H3 & _). destruct (end_fields p pr status p pr) as (_ & _ & _ & E1 & E2). cbn in H1, H2, H3.
    rewrite decide_True in E1 by auto. rewrite decide_True in E2 by auto. unfold new_parent in H1. rewrite decide_False in H1 by tauto. split; [congruence|]. split; [done|]. congruence.
  - exists r. split; [done|]. intros q qr Hq Hqr. destruct (terminate_lookup fds pw pp rank w p pr status q qr Ht Hp Hqr) as (qr' & Hqr' & Hk).
    exists qr'. split; [exact Hqr'|]. destruct (end_fields p pr status q qr) as (_ & _ & E1 & E2 & E3). rewrite (decide_False (P := q = p)) in E3 by done.
    pose proof Hk as [_ Hpend]. cbn in Hpend. rewrite E1 in Hpend. apply kin_fields in Hk as (_ & H1 & H2 & _ & _ & _ & H3 & _). cbn in H1, H2, H3.
    fold w1 in H1. rewrite Hheir in H1. unfold new_parent in H1. rewrite H1, H2, H3, E2, E3. split; [|split; [|split; [done|split; [done|]]]].
    + repeat case_decide; naive_solver.
    + repeat case_decide; naive_solver.
    + intros s Hpar Hs Hne. by apply (death_signal_arrives fds pw pp rank w p pr status q qr).
Qed.

(** One look at the children, for a caller that is in the table: the answer is ECHILD
    exactly when no child is meant, nothing when children are meant and none is dead without
    threads (or stopped, if asked), and otherwise the one of the smallest number with
    something to report.  Taking the answer, unless the child is to stay, removes a dead
    child, and only it, so no other wait sees it again. *)
Lemma wait_reports_first target b p cur w :
  w.(processes) !! p = Some cur → target ≠ I32_MIN →
  let '(r, w1) := check_wait_outcome target b p w in
  wait_answer target b p cur w r w1 ∧
  ∀ outcome, r = Ok (Some outcome) →
    let '(report, w2) := finish_wait_outcome w1 p b outcome in
    match outcome with
    | WaitOutcome.Exited c n s =>
        report = WaitReport.Exited n s ∧ (∃ pr, w.(processes) !! c = Some pr ∧ pr.(exit_status) = Some s ∧ n = reported_pid cur (c, pr)) ∧
        (b.(preserve_child) = false → w2.(processes) !! c = None) ∧
        ∀ q, q ≠ c ∨ b.(preserve_child) = true → exit_status <$> w2.(processes) !! q = exit_status <$> w.(processes) !! q
    | WaitOutcome.Stopped c n e =>
        report = WaitReport.Stopped n e ∧
        (b.(preserve_child) = false → w2.(processes) !! c ≫= wait_event = None) ∧
        ∀ q, exit_status <$> w2.(processes) !! q = exit_status <$> w.(processes) !! q
    end.
Proof.
  intros Hp Ht. pose proof (check_wait_answer target b p cur w Hp Ht) as Ha. destruct (check_wait_outcome target b p w) as [r w1].
  split; [done|]. intros outcome ->. destruct Ha as (c & pr & pr' & Hc & _ & Hr & -> & _). apply child_report_cases in Hr.
  set (w1 := with_processes w _). assert (∀ q, exit_status <$> (consume_ignored_child_signal w1 p).(processes) !! q = exit_status <$> w.(processes) !! q ∧
    wait_event <$> (consume_ignored_child_signal w1 p).(processes) !! q = wait_event <$> w1.(processes) !! q) as Hcon.
  { intros q. destruct (consume_fields w1 p q) as [Hex ->]. rewrite Hex. split; [|done]. subst w1. cbn. destruct (decide (q = c)) as [->|]; [|by rewrite lookup_insert_ne].
    rewrite lookup_insert_eq, Hc. cbn. f_equal. by destruct outcome; destruct_and!; subst. }
  unfold finish_wait_outcome. set (w2 := consume_ignored_child_signal w1 p) in *. clearbody w2.
  destruct outcome as [d n s|d n e]; cbn.
  - destruct Hr as (-> & -> & Hs & ->). split; [done|]. split; [by exists pr|]. destruct (preserve_child b); cbn.
    + split; [done|]. intros q _. apply Hcon.
    + split; [by rewrite lookup_delete_eq|]. intros q [Hq|]; [|done]. rewrite lookup_delete_ne by done. apply Hcon.
  - destruct Hr as (-> & He & Hn & _ & Hpr). split; [done|]. split; [|intros q; apply Hcon]. intros Hpc.
    destruct (Hcon c) as [_ Hw]. destruct (processes w2 !! c) as [x|]; [|done].
    subst w1. cbn in Hw |- *. rewrite lookup_insert_eq, Hpr, Hpc in Hw. by injection Hw.
Qed.
