(* ===== verification/ProcessWake.v ===== *)
(** * Processes: a death reaches the parent, a traced call stops and goes on

    The threads of a dead process leave the tables, the parent that sleeps in a wait runs
    again, and its next look finds the child; a traced process stops at a call, its tracer's
    wait sees the stop, and the tracer lets it go on.  Then the numbers of processes and users,
    and who may trace. *)

From stdpp Require Import sets.
From S2P Require Import Prelude Errors Clock Blocking AddrAreas SignalData Threads ThreadsProps Futex FutexProps.
From S2P Require Import Signals SignalProps Processes ProcessEnd ProcessWait Ptrace ProcessProps.

Open Scope Z_scope.

#[local] Opaque all_signals.

(** ** Lemmas: a sleeper stays asleep or becomes ready *)

Definition asleep_or_ready (s : State) : Prop := match s with State.Blocked _ | State.Ready => True | _ => False end.

Definition stirs (t : Z) (w w' : World) : Prop :=
  ∀ s, asleep_or_ready s → state_of w t = Some s → state_of w' t = Some s ∨ state_of w' t = Some State.Ready.

Lemma stirs_refl t w : stirs t w w.
Proof. intros s _ Hs. by left. Qed.

Lemma stirs_trans t w1 w2 w3 : stirs t w1 w2 → stirs t w2 w3 → stirs t w1 w3.
Proof. intros H1 H2 s Ha Hs. destruct (H1 s Ha Hs) as [H|H]; [by apply H2|]. right. by destruct (H2 State.Ready I H). Qed.

Lemma stirs_same t w w' : state_of w' t = state_of w t → stirs t w w'.
Proof. intros H s _ Hs. left. congruence. Qed.

Lemma stirs_wake t w u : stirs t w (wake w u).
Proof. intros s Ha Hs. rewrite wake_state. case_decide; [subst u; rewrite Hs; right; by destruct s|by left]. Qed.

Lemma stirs_fold {A} t (f : World → A → World) l w : (∀ w a, stirs t w (f w a)) → stirs t w (foldl f w l).
Proof. intros Hf. revert w. induction l as [|a l IH]; intros w; [apply stirs_refl|]. cbn. eapply stirs_trans; [apply Hf|apply IH]. Qed.

Lemma stirs_list t w ts : stirs t w (wake_list w ts).
Proof. apply stirs_fold. intros. apply stirs_wake. Qed.

Lemma stirs_queue t w k : stirs t w (wake_queue w k).
Proof.
  unfold wake_queue. generalize (length (queue w.(blocked_queues) k)). intros n. revert w. induction n as [|n IH]; intros w; [apply stirs_refl|].
  cbn. case_match; [apply stirs_refl|]. eapply stirs_trans; [|apply IH]. eapply stirs_trans; [|apply stirs_wake]. by apply stirs_same.
Qed.

Lemma stirs_matching t w k p : stirs t w (wake_matching w k p).
Proof. unfold wake_matching. eapply stirs_trans; [|apply stirs_list]. by apply stirs_same. Qed.

Lemma stirs_repeat t n w : stirs t w (repeat_wake_io n w).
Proof. revert w. induction n as [|n IH]; intros w; [apply stirs_refl|]. cbn. eapply stirs_trans; [|apply IH]. apply stirs_queue. Qed.

#[export] Hint Resolve stirs_refl stirs_wake stirs_list stirs_queue stirs_matching stirs_repeat : kernel.

Lemma stirs_pidfd t pw pp w p : stirs t w (wake_pidfd pw pp w p).
Proof.
  unfold wake_pidfd. eapply stirs_trans; [apply (stirs_repeat t (pw p))|]. case_match; [auto with kernel|].
  eapply stirs_trans; [|apply stirs_matching]. by apply stirs_same.
Qed.

Lemma stirs_announce_parent t sw w p :
  stirs t w (match w.(processes) !! p with
             | None => w
             | Some pr =>
                 match pr.(p_parent) with
                 | None => w
                 | Some q =>
                     let w := map_process w q (λ pq, with_p_pending_signals pq (insert_bits pq.(p_pending_signals) (mask pr.(child_exit_signal)))) in
                     let ts := match w.(processes) !! q with Some pq => pq.(p_threads) | None => [] end in
                     let w := repeat_wake_io (sw q) w in
                     foldl (λ w t, match state_of w t with Some s => if sleeps_not_stopped s then wake w t else w | None => w end) w ts
                 end
             end).
Proof.
  destruct (processes w !! p) as [pr|]; [|auto with kernel]. destruct (p_parent pr) as [q|]; [|auto with kernel].
  eapply stirs_trans; [|apply stirs_fold; intros v u; repeat case_match; auto with kernel].
  eapply stirs_trans; [|apply stirs_repeat]. by apply stirs_same.
Qed.

Lemma stirs_announce t sw pw pp w p : stirs t w (announce_death sw pw pp w p).
Proof.
  unfold announce_death. eapply stirs_trans; [apply (stirs_announce_parent t sw w p)|].
  eapply stirs_trans; [|apply stirs_pidfd]. apply stirs_matching.
Qed.

Definition waits_for_children (s : State) : Prop := ∃ d, s = State.Blocked (BlockType.WakeRequired WakeType.ProcsesExit d).

(** Any announcement wakes the threads that wait for a child. *)
Lemma announce_wakes t sw pw pp w p s : threads_ok w → state_of w t = Some s → waits_for_children s ∨ s = State.Ready →
  state_of (announce_death sw pw pp w p) t = Some State.Ready.
Proof.
  intros Hok Hs Hw. assert (asleep_or_ready s) as Ha by (destruct Hw as [[d ->]| ->]; done). unfold announce_death.
  set (w1 := match processes w !! p with None => w | Some pr => _ end).
  assert (stirs t w w1) as H1 by apply stirs_announce_parent. assert (threads_ok w1) as Hok1.
  { subst w1. destruct (processes w !! p) as [pr|]; [|done].
    destruct (p_parent pr) as [q|]; [|done]. apply (threads_ok_parent sw w pr q Hok). }
  assert (state_of (wake_process_exit_waiters w1) t = Some State.Ready) as H2.
  { destruct (H1 s Ha Hs) as [Hs1|Hr].
    - destruct Hw as [[d ->]| ->].
      + destruct (wake_matching_spec w1 QueueKind.ProcessExit waits_for_process_exit (proj1 Hok1)) as [_ Hst].
        unfold wake_process_exit_waiters. rewrite (Hst t _ Hs1). cbn. rewrite bool_decide_eq_true_2; [done|].
        destruct (ok_sleepers _ w1 (proj1 Hok1) t _ _ Hs1 eq_refl) as [Hq _]; [tauto|]. by apply (Hq WakeType.ProcsesExit d).
      + by destruct (stirs_matching t w1 QueueKind.ProcessExit waits_for_process_exit State.Ready I Hs1).
    - by destruct (stirs_matching t w1 QueueKind.ProcessExit waits_for_process_exit State.Ready I Hr). }
  by destruct (stirs_pidfd t pw pp (wake_process_exit_waiters w1) p State.Ready I H2).
Qed.

(** ** The threads of a dead process leave *)

Lemma stirs_flush t w : stirs t w (flush_pending_thread_exits w).
Proof.
  unfold flush_pending_thread_exits. eapply stirs_trans; [|apply stirs_fold].
  - by apply stirs_same.
  - intros v x. unfold wake_futex_for_process, wake_waiters. set (v1 := with_user_writes v _).
    pose proof (take_futex_waiters_spec v1 (FutexKey.Private x.1 x.2) 1 None) as H. destruct (take_futex_waiters _ _ _ _) as [ts v2].
    destruct H as (_ & rest & q & -> & _). cbn. eapply stirs_trans; [|apply stirs_list]. by apply stirs_same.
Qed.

Lemma flush_parents w u : parent <$> (flush_pending_thread_exits w).(threads) !! u = parent <$> w.(threads) !! u.
Proof.
  unfold flush_pending_thread_exits. change (threads w) with (threads (with_pending_thread_exits w [])).
  generalize (with_pending_thread_exits w []). induction (pending_thread_exits w) as [|x l IH]; intros v; [done|]. cbn. rewrite IH.
  unfold wake_futex_for_process, wake_waiters. set (v1 := with_user_writes v _).
  pose proof (take_futex_waiters_spec v1 (FutexKey.Private x.1 x.2) 1 None) as H. destruct (take_futex_waiters _ _ _ _) as [ts v2].
  destruct H as (_ & rest & q & -> & _). cbn. pose proof (ow_threads _ _ (wake_list_only (with_futex_queue v1 q) ts) u) as Hu.
  change (threads (with_futex_queue v1 q)) with (threads v) in Hu.
  destruct (threads (wake_list _ ts) !! u) as [a|], (threads v !! u) as [b|]; try done. cbn in *. injection Hu as Hu.
  unfold settled, with_interrupted_by_signal, with_state in Hu. cbn in Hu. congruence.
Qed.

Lemma wake_zombies w t : (wake w t).(zombies) = w.(zombies).
Proof.
  assert (∀ v, zombies (remove_from_blocked_queues v t) = zombies v) as Hr by (intros v; unfold remove_from_blocked_queues; by repeat case_match).
  assert (∀ v, zombies (push_ready_balanced v t) = zombies v) as Hp.
  { intros v. unfold push_ready_balanced, push_ready_on_cpu, next_balanced_cpu, ensure_queue, resize_ready_queues. by repeat case_match. }
  unfold wake. destruct (state_of _ t) as [[]|]; rewrite ?Hr; try done; [apply Hr|].
  transitivity (zombies (push_ready_balanced (set_state (remove_from_blocked_queues w t) t State.Ready) t)); [done|]. rewrite Hp. apply Hr.
Qed.

Lemma wake_list_zombies w ts : (wake_list w ts).(zombies) = w.(zombies).
Proof. unfold wake_list. revert w. induction ts as [|t ts IH]; intros w; [done|]. cbn. by rewrite IH, wake_zombies. Qed.

Lemma flush_zombies w : (flush_pending_thread_exits w).(zombies) = w.(zombies).
Proof.
  unfold flush_pending_thread_exits. change (zombies w) with (zombies (with_pending_thread_exits w [])).
  generalize (with_pending_thread_exits w []). induction (pending_thread_exits w) as [|x l IH]; intros v; [done|]. cbn. rewrite IH.
  unfold wake_futex_for_process, wake_waiters. set (v1 := with_user_writes v _).
  pose proof (take_futex_waiters_spec v1 (FutexKey.Private x.1 x.2) 1 None) as H. destruct (take_futex_waiters _ _ _ _) as [ts v2].
  destruct H as (_ & rest & q & -> & _). cbn. by rewrite wake_list_zombies.
Qed.

Lemma reap_zombie_state current w t u : state_of (reap_zombie current w t).2 u = state_of w u.
Proof.
  unfold reap_zombie. destruct (threads w !! t ≫= parent) as [p|]; [|done]. cbn.
  change (state_of (map_process ?v _ _) u) with (state_of v u). change (state_of (with_manager_threads ?v _) u) with (state_of v u).
  case_bool_decide; [done|]. rewrite state_of_map. case_decide; [subst u|done]. unfold state_of. by destruct (threads w !! t).
Qed.

Lemma reap_zombie_parent current w t u : u ≠ t → parent <$> (reap_zombie current w t).2.(threads) !! u = parent <$> w.(threads) !! u.
Proof.
  intros Hu. unfold reap_zombie. destruct (threads w !! t ≫= parent) as [p|]; [|done]. cbn.
  case_bool_decide; [done|]. cbn. by rewrite lookup_alter_ne.
Qed.

Lemma reap_zombie_members current w t c :
  threads_of (reap_zombie current w t).2 c = (if decide (threads w !! t ≫= parent = Some c) then without t (threads_of w c) else threads_of w c).
Proof.
  unfold reap_zombie. destruct (threads w !! t ≫= parent) as [p|]; [|by rewrite decide_False]. cbn. unfold threads_of, map_process. cbn.
  assert (∀ v : World, processes (if bool_decide (current = Some t) then w else map_thread w t (λ th, with_parent th None)) = processes w) as Hp
    by (intros _; by case_bool_decide). rewrite (Hp w). destruct (decide (c = p)) as [->|Hne].
  - rewrite lookup_alter_eq, decide_True by done. destruct (processes w !! p); [done|]. done.
  - rewrite lookup_alter_ne by done. rewrite decide_False; [done|congruence].
Qed.

Lemma reap_zombie_dead current w t c : threads w !! t ≫= parent = Some c → is_Some (w.(processes) !! c) → without t (threads_of w c) = [] →
  (reap_zombie current w t).1 = Some c.
Proof.
  intros Hpar [cr Hc] He. unfold reap_zombie. rewrite Hpar. cbn. unfold map_process. cbn.
  unfold threads_of in He. rewrite Hc in He.
  assert (processes (if bool_decide (current = Some t) then w else map_thread w t (λ th, with_parent th None)) = processes w) as -> by by case_bool_decide.
  rewrite lookup_alter_eq, Hc. cbn. by rewrite He.
Qed.

Lemma reap_all_gone current ts w c : threads_of w c = [] → threads_of (reap_zombies current w ts).2 c = [].
Proof.
  revert w. induction ts as [|v ts IH]; intros w He; [done|]. cbn. pose proof (reap_zombie_members current w v c) as Hm.
  destruct (reap_zombie current w v) as [d w1]. specialize (IH w1). destruct (reap_zombies current w1 ts). cbn in *. apply IH.
  rewrite Hm, He. by case_decide.
Qed.

(** All threads of [c] are among the zombies [ts]. *)
Lemma reap_all_spec current ts w c :
  is_Some (w.(processes) !! c) → (∀ u, u ∈ threads_of w c → u ∈ ts ∧ w.(threads) !! u ≫= parent = Some c) → threads_of w c ≠ [] →
  let '(dead, w') := reap_zombies current w ts in c ∈ dead ∧ threads_of w' c = [].
Proof.
  revert w. induction ts as [|t ts IH]; intros w Hc Hall Hne.
  { destruct (threads_of w c) as [|u l]; [done|]. destruct (Hall u) as [Hin _]; [by constructor|]. by apply elem_of_nil in Hin. }
  cbn. pose proof (reap_zombie_members current w t c) as Hm. pose proof (λ u Hu, reap_zombie_parent current w t u Hu) as Hpar.
  pose proof (reap_zombie_dead current w t c) as Hd.
  assert (is_Some ((reap_zombie current w t).2.(processes) !! c)) as Hc1.
  { destruct Hc as [cr Hc]. destruct (same_kin_at _ _ _ _ (reap_zombie_kin current w t) Hc) as (x & Hx & _). by exists x. }
  destruct (reap_zombie current w t) as [d w1]. cbn [fst snd] in *.
  destruct (decide (threads_of w1 c = [])) as [He|He].
  - assert (d = Some c) as ->.
    { destruct (decide (threads w !! t ≫= parent = Some c)) as [Hp|]; [apply Hd; [done..|congruence]|congruence]. }
    pose proof (reap_all_gone current ts w1 c He) as Hg. destruct (reap_zombies current w1 ts). split; [set_solver|done].
  - specialize (IH w1 Hc1). destruct (reap_zombies current w1 ts) as [dead w']. destruct IH as [H1 H2]; [|done|by split; [set_solver|]].
    intros u Hu. rewrite Hm in Hu. case_decide as Hp.
    + apply elem_of_without in Hu as [Hu Hut]. destruct (Hall u Hu) as [[->|Hin]%elem_of_cons Hpu]; [done|]. split; [done|].
      specialize (Hpar u Hut). destruct (threads w1 !! u), (threads w !! u); try done. cbn in *. congruence.
    + destruct (Hall u Hu) as [Hin Hpu]. assert (u ≠ t) as Hut by congruence. apply elem_of_cons in Hin as [->|Hin]; [done|]. split; [done|].
      specialize (Hpar u Hut). destruct (threads w1 !! u), (threads w !! u); try done. cbn in *. congruence.
Qed.

Lemma announce_members sw pw pp w p c : threads_of (announce_death sw pw pp w p) c = threads_of w c.
Proof.
  unfold announce_death. set (w1 := match processes w !! p with None => w | Some pr => _ end).
  assert (threads_of w1 c = threads_of w c) as H1.
  { subst w1. destruct (processes w !! p) as [pr|]; [|done]. destruct (p_parent pr) as [q|]; [|done].
    set (w2 := map_process w q _). transitivity (threads_of w2 c).
    - unfold threads_of at 1. rewrite (ow_processes w2); [done|].
      eapply only_wakes_trans; [apply (repeat_wake_only (sw q))|]. apply foldl_only. intros v u. repeat case_match; auto with kernel.
    - subst w2. unfold threads_of, map_process. cbn. destruct (decide (c = q)) as [->|]; [|by rewrite lookup_alter_ne].
      rewrite lookup_alter_eq. by destruct (processes w !! q). }
  rewrite <- H1. unfold threads_of. rewrite (ow_processes w1); [done|].
  eapply only_wakes_trans; [|apply wake_pidfd_only]. apply wake_matching_only.
Qed.

Section death.
Context (fds : Z → list Signalfd) (pw : Z → nat) (pp : Z → list Z).

Lemma announce_all_members l w c : threads_of (foldl (announce_death (λ q, length (fds q)) pw pp) w l) c = threads_of w c.
Proof. revert w. induction l as [|p l IH]; intros w; [done|]. cbn. by rewrite IH, announce_members. Qed.

Lemma cleanup_parts current w :
  cleanup fds pw pp current w =
  let '(dead, w2) := reap_zombies current (with_zombies (flush_pending_thread_exits w) []) w.(zombies) in
  foldl (announce_death (λ q, length (fds q)) pw pp) w2 dead.
Proof. unfold cleanup, cleanup_exited_threads. rewrite flush_zombies. by destruct (reap_zombies _ _ _). Qed.

Lemma flushed_members w c : threads_of (with_zombies (flush_pending_thread_exits w) []) c = threads_of w c.
Proof. unfold threads_of. cbn. by rewrite flush_exits_processes. Qed.

Lemma cleanup_gone current w c : threads_of w c = [] → threads_of (cleanup fds pw pp current w) c = [].
Proof.
  intros He. rewrite cleanup_parts. pose proof (reap_all_gone current w.(zombies) (with_zombies (flush_pending_thread_exits w) []) c) as Hg.
  rewrite flushed_members in Hg. specialize (Hg He). destruct (reap_zombies _ _ _) as [dead w2]. by rewrite announce_all_members.
Qed.

(** The threads of [c] are all zombies and not yet collected. *)
Definition only_zombies (w : World) (c : Z) : Prop :=
  is_Some (w.(processes) !! c) ∧ threads_of w c ≠ [] ∧ ∀ u, u ∈ threads_of w c → u ∈ w.(zombies) ∧ w.(threads) !! u ≫= parent = Some c.

Lemma cleanup_wakes current w c t s : threads_ok w → only_zombies w c → state_of w t = Some s → waits_for_children s →
  threads_of (cleanup fds pw pp current w) c = [] ∧ runnable (cleanup fds pw pp current w) t.
Proof.
  intros Hok (Hc & Hne & Hall) Hs Hw. set (w1 := with_zombies (flush_pending_thread_exits w) []).
  assert (asleep_or_ready s) as Ha by by destruct Hw as [d ->].
  pose proof (reap_all_spec current w.(zombies) w1 c) as Hr. pose proof (threads_ok_cleanup (λ q, length (fds q)) pw pp current w Hok) as Hok'.
  fold (cleanup fds pw pp current w) in Hok'. rewrite cleanup_parts in Hok' |- *. fold w1 in Hok' |- *.
  assert (stirs t w (reap_zombies current w1 w.(zombies)).2) as Hst.
  { eapply stirs_trans; [apply (stirs_flush t w)|]. apply (stirs_trans _ _ w1); [by apply stirs_same|]. generalize w1 (zombies w). intros v l.
    revert v. induction l as [|u l IH]; intros v; [apply stirs_refl|]. cbn. pose proof (reap_zombie_state current v u t) as Hu.
    destruct (reap_zombie current v u) as [d v1]. specialize (IH v1). destruct (reap_zombies current v1 l). cbn in *.
    eapply stirs_trans; [by apply stirs_same|done]. }
  pose proof (threads_ok_reap_all current w.(zombies) w1) as Hok2.
  destruct (reap_zombies current w1 (zombies w)) as [dead w2]. cbn [snd] in *. destruct Hr as [Hin Hgone].
  { subst w1. cbn. by rewrite flush_exits_processes. }
  { intros u. unfold w1. rewrite flushed_members. intros Hu. destruct (Hall u Hu) as [Hz Hp]. split; [done|]. cbn.
    pose proof (flush_parents w u) as Hf. destruct (threads (flush_pending_thread_exits w) !! u), (threads w !! u); try done. cbn in *. congruence. }
  { unfold w1. by rewrite flushed_members. }
  split; [by rewrite announce_all_members|]. assert (threads_ok w2) as Hok3.
  { apply Hok2. apply threads_ok_flush in Hok. unfold w1. by apply threads_ok_zombies. }
  assert (∃ s2, state_of w2 t = Some s2 ∧ (waits_for_children s2 ∨ s2 = State.Ready)) as (s2 & Hs2 & Hw2) by (destruct (Hst s Ha Hs); eauto).
  assert (state_of (foldl (announce_death (λ q, length (fds q)) pw pp) w2 dead) t = Some State.Ready) as Hready.
  { clear -Hin Hok3 Hs2 Hw2. revert w2 s2 Hok3 Hs2 Hw2 Hin. induction dead as [|p dead IH]; intros w2 s2 Hok Hs Hw Hin; [by apply elem_of_nil in Hin|].
    cbn. pose proof (announce_wakes t (λ q, length (fds q)) pw pp w2 p s2 Hok Hs Hw) as Hr.
    clear Hin IH. revert Hr. generalize (announce_death (λ q, length (fds q)) pw pp w2 p). induction dead as [|q dead IH]; intros v Hr; [done|].
    cbn. apply IH. by destruct (stirs_announce t (λ q, length (fds q)) pw pp v q State.Ready I Hr). }
  split; [done|]. by apply (ok_ready_queued _ _ (proj1 Hok')).
Qed.
End death.

(** ** The wait that follows *)

Lemma keeps_awaited target p cur cur' pr pr' : keeps cur cur' → keeps pr pr' → awaited target p cur pr → awaited target p cur' pr'.
Proof.
  intros [Hc _] [Hp _]. destruct cur, cur', pr, pr'. unfold kin in *. cbn in *. injection Hc as. injection Hp as. subst. done.
Qed.

(** A death reaches a parent that waits.  When the threads of a dead child are collected,
    every thread that sleeps in a wait becomes runnable; and a thread of the parent that
    goes round its wait again, for a number that stands for the child, gets an answer: the
    call returns with a child, whatever else happened to the other processes' signals and
    threads in between. *)
Lemma death_answers_wait fds pw pp current w c cr s p cur t st target b ws :
  threads_ok w → w.(processes) !! c = Some cr → cr.(exit_status) = Some s → only_zombies w c →
  w.(processes) !! p = Some cur → awaited target p cur cr → target ≠ I32_MIN → b.(report_exited) = true →
  state_of w t = Some st → waits_for_children st →
  let w' := cleanup fds pw pp current w in
  runnable w' t ∧
  ∃ report w2, wait_for_child_exit fds pw pp target b p t ws w' = (Some (Ok (Some report)), w2).
Proof.
  intros Hok Hc Hex Hz Hp Ha Ht Hb Hst Hw w'. destruct (cleanup_wakes fds pw pp current w c t st Hok Hz Hst Hw) as [Hgone Hrun].
  fold w' in Hgone, Hrun. split; [done|]. pose proof (same_kin_trans _ _ _ (cleanup_kin fds pw pp current w) (cleanup_kin fds pw pp (Some t) w')) as Hk.
  fold w' in Hk. apply (cleanup_gone fds pw pp (Some t)) in Hgone. unfold wait_for_child_exit.
  set (w1 := cleanup fds pw pp (Some t) w') in *.
  destruct (same_kin_at _ _ _ _ Hk Hc) as (cr' & Hc' & Hkc). destruct (same_kin_at _ _ _ _ Hk Hp) as (cur' & Hp' & Hkp).
  pose proof (keeps_awaited target p cur cur' cr cr' Hkp Hkc Ha) as Ha'. apply kin_fields in Hkc as (_ & _ & Hs & _).
  assert (reports b cr') as Hrep. { left. unfold threads_of in Hgone. rewrite Hc' in Hgone. rewrite Hs, Hex. done. }
  pose proof (check_wait_answer target b p cur' w1 Hp' Ht) as Hans. destruct (check_wait_outcome target b p w1) as [[[o|]|e] w2] eqn:Hcheck.
  - destruct (finish_wait_outcome w2 p b o) as [r w3] eqn:Hf. exists r, w3. apply blocking_loop_return.
    unfold wait_try. fold w1. by rewrite Hcheck, Hf.
  - exfalso. destruct Hans as (_ & _ & Hno). by apply (Hno c cr').
  - exfalso. destruct Hans as (_ & _ & Hno). by apply (Hno c cr').
Qed.

(** ** Numbers *)

(** The numbers after [last], in the order in which they are tried. *)
Definition nth_candidate (pid_max last : Z) (i : nat) : Z := (next_linux_task_id pid_max last - 1 + Z.of_nat i) `mod` pid_max + 1.

Lemma next_candidate pid_max last i : 0 < pid_max → 0 ≤ last →
  next_linux_task_id pid_max (nth_candidate pid_max last i) = nth_candidate pid_max last (S i).
Proof.
  intros Hm Hl. unfold nth_candidate, next_linux_task_id at 1. set (a := next_linux_task_id pid_max last - 1 + Z.of_nat i).
  replace (next_linux_task_id pid_max last - 1 + Z.of_nat (S i)) with (a + 1) by lia.
  pose proof (Z.mod_pos_bound a pid_max Hm). rewrite <- (Z.add_mod_idemp_l a 1) by lia. revert H. generalize (a `mod` pid_max). intros q Hq.
  destruct (Z.leb_spec pid_max (q + 1)); [|by rewrite Z.mod_small by lia].
  replace (q + 1) with pid_max by lia. by rewrite Z.mod_same by lia.
Qed.

Lemma first_candidate pid_max last : 0 < pid_max → 0 ≤ last → nth_candidate pid_max last 0 = next_linux_task_id pid_max last.
Proof.
  intros Hm Hl. unfold nth_candidate. rewrite Z.add_0_r, Z.mod_small; [lia|]. unfold next_linux_task_id. destruct (Z.leb_spec pid_max last); lia.
Qed.

Lemma allocate_loop_spec n w pid_max last k : 0 < pid_max → 0 ≤ last →
  let x := match k with O => last | S k => nth_candidate pid_max last k end in
  (∃ i, (k <= i < k + n)%nat ∧ allocate_loop n w pid_max x = (nth_candidate pid_max last i, nth_candidate pid_max last i) ∧
     w.(processes) !! nth_candidate pid_max last i = None ∧ ∀ j, (k <= j < i)%nat → is_Some (w.(processes) !! nth_candidate pid_max last j)) ∨
  ((∀ j, (k <= j < k + n)%nat → is_Some (w.(processes) !! nth_candidate pid_max last j)) ∧ (allocate_loop n w pid_max x).1 = 1).
Proof.
  intros Hm Hl. revert k. induction n as [|n IH]; intros k x.
  { right. split; [intros; lia|done]. }
  cbn. replace (next_linux_task_id pid_max x) with (nth_candidate pid_max last k).
  2:{ subst x. destruct k; [by apply first_candidate|]. symmetry. by apply next_candidate. }
  case_bool_decide as Hd.
  - destruct (IH (S k)) as [(i & Hi & Hr & Hn & Hj)|[Hj Hr]].
    + left. exists i. split; [lia|]. split; [done|]. split; [done|]. intros j Hjk. destruct (decide (j = k)) as [->|]; [done|apply Hj; lia].
    + right. split; [|done]. intros j Hjk. destruct (decide (j = k)) as [->|]; [done|apply Hj; lia].
  - left. exists k. split; [lia|]. split; [done|]. split; [by apply eq_None_not_Some|]. intros; lia.
Qed.

(** A new process gets the first number after the last one given out, going round at the
    limit, that no process has; it is between 1 and the limit.  Only when every number is
    taken the answer is 1. *)
Lemma allocate_process_id_free w pid_max last :
  0 < pid_max → 0 ≤ last →
  let '(n, last') := allocate_process_id w pid_max last in
  (∃ i, n = nth_candidate pid_max last i ∧ last' = n ∧ 1 ≤ n ≤ pid_max ∧ w.(processes) !! n = None ∧
     ∀ j, (j < i)%nat → is_Some (w.(processes) !! nth_candidate pid_max last j)) ∨
  (n = 1 ∧ ∀ x, 1 ≤ x ≤ pid_max → is_Some (w.(processes) !! x)).
Proof.
  intros Hm Hl. unfold allocate_process_id. destruct (allocate_loop_spec (Z.to_nat pid_max) w pid_max last 0 Hm Hl) as [(i & Hi & -> & Hn & Hj)|[Hj Hr]].
  - left. exists i. split; [done|]. split; [done|]. split; [|split; [done|intros j ?; apply Hj; lia]].
    unfold nth_candidate. pose proof (Z.mod_pos_bound (next_linux_task_id pid_max last - 1 + Z.of_nat i) pid_max Hm). lia.
  - destruct (allocate_loop _ _ _ _) as [n last']. cbn in Hr. right. split; [done|]. intros x Hx.
    set (s := next_linux_task_id pid_max last - 1). assert (0 ≤ s < pid_max) as Hs by (subst s; unfold next_linux_task_id; destruct (Z.leb_spec pid_max last); lia).
    specialize (Hj (Z.to_nat ((x - 1 - s) `mod` pid_max))). pose proof (Z.mod_pos_bound (x - 1 - s) pid_max Hm) as Hb.
    replace x with (nth_candidate pid_max last (Z.to_nat ((x - 1 - s) `mod` pid_max))); [apply Hj; lia|].
    unfold nth_candidate. fold s. rewrite Z2Nat.id by lia. rewrite Z.add_mod_idemp_r by lia. replace (s + (x - 1 - s)) with (x - 1) by lia.
    rewrite Z.mod_small; lia.
Qed.

(** ** Users *)

Definition U32_MAX : Z := 4294967295.

Definition range_ok (r : IdRange) : Prop :=
  0 ≤ r.(namespace_start) ∧ 0 ≤ r.(kernel_start) ∧ 0 < r.(range_length) ∧
  r.(namespace_start) + r.(range_length) ≤ U32_MAX ∧ r.(kernel_start) + r.(range_length) ≤ U32_MAX.

(** No number is in two lines of a map, on either side. *)
Definition disjoint_map (l : list IdRange) : Prop :=
  ∀ r r' n, r ∈ l → r' ∈ l →
    (covers r.(namespace_start) r.(range_length) n = true ∧ covers r'.(namespace_start) r'.(range_length) n = true) ∨
    (covers r.(kernel_start) r.(range_length) n = true ∧ covers r'.(kernel_start) r'.(range_length) n = true) → r = r'.

Lemma find_unique {A} (f : A → bool) (l : list A) x : x ∈ l → f x = true → (∀ y, y ∈ l → f y = true → y = x) → List.find f l = Some x.
Proof.
  intros Hin Hf Hu. destruct (List.find f l) as [y|] eqn:Hy.
  - apply List.find_some in Hy as [Hy1 Hy2]. f_equal. apply Hu; [by apply list_elem_of_In|done].
  - eapply List.find_none in Hy; [|by apply list_elem_of_In]. congruence.
Qed.

Lemma covers_spec start length id : start + length ≤ U32_MAX → covers start length id = true ↔ start ≤ id < start + length.
Proof. intros H. unfold covers, sat_add, U32_MAX in *. change (2 ^ 32) with 4294967296 in *. rewrite andb_true_iff. lia. Qed.

(** Users of a namespace and of the kernel: through a map whose lines do not overlap, a
    number that has a kernel number is read back from it, and a kernel number that shows in
    the namespace as something is got back from that; every other kernel number shows as the
    overflow number. *)
Lemma user_map_roundtrip l :
  Forall range_ok l → disjoint_map l →
  (∀ n k, kernel_id_from_namespace_map n (Some l) = Some k → namespace_id_from_map k (Some l) = n ∧ is_uint 32 k) ∧
  (∀ k, (∃ r, r ∈ l ∧ r.(kernel_start) ≤ k < r.(kernel_start) + r.(range_length)) →
     kernel_id_from_namespace_map (namespace_id_from_map k (Some l)) (Some l) = Some k) ∧
  (∀ k, (∀ r, r ∈ l → ¬ r.(kernel_start) ≤ k < r.(kernel_start) + r.(range_length)) →
     namespace_id_from_map k (Some l) = USER_NAMESPACE_OVERFLOW_ID).
Proof.
  intros Hok Hd. rewrite Forall_forall in Hok.
  assert (∀ r k, r ∈ l → covers r.(kernel_start) r.(range_length) k = true ↔ r.(kernel_start) ≤ k < r.(kernel_start) + r.(range_length)) as Hk
    by (intros r k Hr; apply covers_spec; destruct (Hok r Hr); lia).
  assert (∀ r n, r ∈ l → covers r.(namespace_start) r.(range_length) n = true ↔ r.(namespace_start) ≤ n < r.(namespace_start) + r.(range_length)) as Hn
    by (intros r n Hr; apply covers_spec; destruct (Hok r Hr); lia).
  assert (∀ r k, r ∈ l → r.(kernel_start) ≤ k < r.(kernel_start) + r.(range_length) →
    List.find (λ r, covers r.(kernel_start) r.(range_length) k) l = Some r) as Hfk.
  { intros r k Hr Hin. apply find_unique; [done|by apply Hk|]. intros y Hy Hc. apply (Hd y r k); [done..|right; split; [done|by apply Hk]]. }
  assert (∀ r n, r ∈ l → r.(namespace_start) ≤ n < r.(namespace_start) + r.(range_length) →
    List.find (λ r, covers r.(namespace_start) r.(range_length) n) l = Some r) as Hfn.
  { intros r n Hr Hin. apply find_unique; [done|by apply Hn|]. intros y Hy Hc. apply (Hd y r n); [done..|left; split; [done|by apply Hn]]. }
  assert (∀ z, 0 ≤ z ≤ U32_MAX → uwrap 32 z = z) as Hwrap by (intros z Hz; apply uwrap_id; unfold U32_MAX in Hz; split; [lia|change (2 ^ 32) with 4294967296; lia]).
  unfold kernel_id_from_namespace_map, namespace_id_from_map. split; [|split].
  - intros n k Hf. destruct (List.find _ l) as [r|] eqn:Hr; [|done]. cbn in Hf. injection Hf as <-. apply List.find_some in Hr as [Hin Hc].
    apply list_elem_of_In in Hin. apply Hn in Hc; [|done]. destruct (Hok r Hin) as (? & ? & ? & ? & ?).
    rewrite Hwrap by lia. rewrite (Hfk r) by (done || lia). rewrite Hwrap by lia. split; [lia|]. unfold U32_MAX in *. split; [lia|]. change (2 ^ 32) with 4294967296. lia.
  - intros k (r & Hin & Hr). destruct (Hok r Hin) as (? & ? & ? & ? & ?). rewrite (Hfk r) by done. rewrite Hwrap by lia.
    rewrite (Hfn r) by (done || lia). cbn. f_equal. rewrite Hwrap; lia.
  - intros k Hno. destruct (List.find _ l) as [r|] eqn:Hr; [|done]. exfalso. apply List.find_some in Hr as [Hin Hc]. apply list_elem_of_In in Hin.
    apply (Hno r Hin). by apply Hk.
Qed.

(** ** Tracing *)

Definition running (t : Z) (w w' : World) : Prop := state_of w t = Some State.Running → state_of w' t = Some State.Running.

Lemma running_trans t w1 w2 w3 : running t w1 w2 → running t w2 w3 → running t w1 w3.
Proof. unfold running. auto. Qed.

Lemma running_same t w w' : state_of w' t = state_of w t → running t w w'.
Proof. unfold running. congruence. Qed.

Lemma running_wake t w u : running t w (wake w u).
Proof. intros Hs. rewrite wake_state. case_decide; [subst u; by rewrite Hs|done]. Qed.

Lemma running_fold {A} t (f : World → A → World) l w : (∀ w a, running t w (f w a)) → running t w (foldl f w l).
Proof. intros Hf. revert w. induction l as [|a l IH]; intros w; [by intros ?|]. cbn. eapply running_trans; [apply Hf|apply IH]. Qed.

Lemma running_queue t w k : running t w (wake_queue w k).
Proof.
  unfold wake_queue. generalize (length (queue w.(blocked_queues) k)). intros n. revert w. induction n as [|n IH]; intros w; [by intros ?|].
  cbn. case_match; [by intros ?|]. eapply running_trans; [|apply IH]. eapply running_trans; [|apply running_wake]. by apply running_same.
Qed.

Lemma running_matching t w k p : running t w (wake_matching w k p).
Proof. unfold wake_matching. eapply running_trans; [|apply running_fold; intros; apply running_wake]. by apply running_same. Qed.

Lemma running_specific t w u s : running t w (wake_specific_thread_for_signal w u s).
Proof.
  unfold wake_specific_thread_for_signal. destruct (threads w !! u) as [th|]; [|by intros ?].
  set (w1 := if _ && _ then map_thread _ _ _ else w). apply (running_trans _ _ w1).
  - subst w1. case_match; [|by intros ?]. apply running_same. rewrite state_of_map. case_decide; [subst u|done]. unfold state_of. by destruct (threads w !! t).
  - case_match; [apply running_wake|by intros ?].
Qed.

Lemma running_signal fds t w q : running t w (send_signal_to_process fds w q Signal.SIGCHLD).
Proof.
  unfold send_signal_to_process, queue_signal. destruct (processes w !! q) as [pr|]; [|by intros ?].
  eapply running_trans; [|apply running_fold; intros; apply running_specific].
  eapply running_trans; [|apply running_same; done]. eapply running_trans; [|apply running_matching].
  eapply running_trans; [|apply running_fold].
  - by apply running_same.
  - intros v f. case_match; [|by intros ?]. unfold signalfd_wake_waiters, wake_pollers_for_object.
    eapply running_trans; [apply (running_queue t v QueueKind.Io)|]. case_match; [by intros ?|].
    eapply running_trans; [|apply running_matching]. by apply running_same.
Qed.

(** A stop is reported: the event is there, the rest of the processes and threads as before. *)
Lemma report_event_spec fds w p pr e t :
  w.(processes) !! p = Some pr →
  let w' := report_wait_event fds w p e in
  (∃ pr', w'.(processes) !! p = Some pr' ∧ keeps (with_wait_event pr (Some e)) pr') ∧
  (∀ q qr, q ≠ p → w.(processes) !! q = Some qr → ∃ qr', w'.(processes) !! q = Some qr' ∧ keeps qr qr') ∧
  running t w w' ∧ (∀ u, settled <$> w'.(threads) !! u = settled <$> w.(threads) !! u) ∧ w'.(manager_threads) = w.(manager_threads) ∧
  (∀ q, threads_of w' q = threads_of w q).
Proof.
  intros Hp w'. subst w'. unfold report_wait_event. rewrite Hp. set (w1 := map_process w p _).
  assert (∀ q, processes w1 !! q = if decide (q = p) then Some (with_wait_event pr (Some e)) else processes w !! q) as H1
    by (intros q; subst w1; by rewrite (map_process_lookup _ _ _ _ _ Hp)).
  assert (∀ q, threads_of w1 q = threads_of w q) as Hm1.
  { intros q. unfold threads_of. rewrite H1. case_decide; [subst q; by rewrite Hp|done]. }
  destruct (p_parent pr) as [q|].
  2:{ split; [exists (with_wait_event pr (Some e)); by rewrite H1, decide_True|].
      split; [intros u qr Hu Hq; exists qr; by rewrite H1, decide_False|].
      split; [by apply running_same|]. split; [done|]. split; [done|exact Hm1]. }
  set (w2 := send_signal_to_process fds w1 q Signal.SIGCHLD). set (w3 := wake_process_exit_waiters w2).
  assert (same_kin w1 w3) as Hk.
  { eapply same_kin_trans; [apply (send_signal_kin fds w1 q Signal.SIGCHLD)|]. apply same_kin_only, wake_matching_only. }
  pose proof (queue_signal_spec fds w1 q Signal.SIGCHLD None ltac:(discriminate)) as Hq. fold (send_signal_to_process fds w1 q Signal.SIGCHLD) in Hq. fold w2 in Hq.
  pose proof (only_wakes_trans _ _ _ Hq (wake_matching_only w2 QueueKind.ProcessExit waits_for_process_exit)) as How. fold (wake_process_exit_waiters w2) in How. fold w3 in How.
  split; [|split; [|split; [|split; [|split]]]].
  - apply (same_kin_at _ _ _ _ Hk). by rewrite H1, decide_True.
  - intros u qr Hu Hqr. apply (same_kin_at _ _ _ _ Hk). by rewrite H1, decide_False.
  - eapply running_trans; [|apply running_matching]. eapply running_trans; [|apply running_signal]. by apply running_same.
  - intros u. rewrite (ow_threads _ _ How). by destruct (processes w1 !! q).
  - rewrite (ow_manager _ _ How). by destruct (processes w1 !! q).
  - intros u. rewrite <- Hm1. unfold threads_of. rewrite (ow_processes _ _ How). destruct (processes w1 !! q) as [x|] eqn:Hx; [|done]. cbn [processes with_processes].
    destruct (decide (u = q)) as [->|]; [by rewrite lookup_insert_eq, Hx|by rewrite lookup_insert_ne].
Qed.

Lemma same_threads_first w w' p th : (∀ u, settled <$> w'.(threads) !! u = settled <$> w.(threads) !! u) → threads_of w' p = threads_of w p →
  first_thread w p = Ok th → ∃ th', first_thread w' p = Ok th' ∧ th'.(id) = th.(id).
Proof.
  intros Hs Hm. unfold first_thread. rewrite Hm. clear Hm. induction (threads_of w p) as [|u l IH]; cbn; [done|]. specialize (Hs u).
  destruct (threads w' !! u) as [a|], (threads w !! u) as [b|]; try done; cbn in *.
  intros [= <-]. exists a. split; [done|]. injection Hs as Hs. unfold settled, with_interrupted_by_signal, with_state in Hs. cbn in Hs. congruence.
Qed.

Definition trap_status (pr : Process) : Z := syscall_stop_status pr.(ptrace).

(** A running thread that stops. *)
Lemma stop_current_spec fds w p t pr status kind th :
  w.(processes) !! p = Some pr → state_of w t = Some State.Running → first_thread w p = Ok th →
  let w' := stop_current_with_status fds w p t status kind in
  state_of w' t = Some (State.Blocked BlockType.Stopped) ∧ w'.(manager_threads) = w.(manager_threads) ∧
  (∃ th', first_thread w' p = Ok th' ∧ th'.(id) = th.(id)) ∧
  (∃ pr', w'.(processes) !! p = Some pr' ∧
     keeps (with_wait_event (with_ptrace pr (with_last_stop (with_resume_mode pr.(ptrace) PtraceResumeMode.Stopped) status kind)) (Some (mkStopped status true))) pr') ∧
  ∀ q qr, q ≠ p → w.(processes) !! q = Some qr → ∃ qr', w'.(processes) !! q = Some qr' ∧ keeps qr qr'.
Proof.
  intros Hp Hs Hth. unfold stop_current_with_status. set (w1 := map_ptrace w p _).
  assert (∀ q, processes w1 !! q = if decide (q = p) then Some (with_ptrace pr (with_last_stop (with_resume_mode pr.(ptrace) PtraceResumeMode.Stopped) status kind))
    else processes w !! q) as H1 by (intros q; subst w1; unfold map_ptrace; by rewrite (map_process_lookup _ _ _ _ _ Hp)).
  assert (threads_of w1 p = threads_of w p) as Hm1 by (unfold threads_of; by rewrite H1, decide_True, Hp).
  destruct (report_event_spec fds w1 p _ (mkStopped status true) t ltac:(by rewrite H1, decide_True)) as (Hpr & Hoth & Hrun & Hset & Hman & Hmem).
  set (w2 := report_wait_event fds w1 p (mkStopped status true)) in *.
  assert (state_of w2 t = Some State.Running) as Hs2 by (apply Hrun; exact Hs).
  set (w3 := prepare_block_current w2 t BlockType.Stopped). assert (state_of w3 t = Some (State.Blocking BlockType.Stopped)) as Hs3.
  { unfold w3, prepare_block_current, block. change (state_of (with_blocked_queues ?v _) t) with (state_of v t). by apply (state_of_set_eq _ _ _ State.Running). }
  assert ((finish_block_current w3 t).2 = set_state w3 t (State.Blocked BlockType.Stopped)) as -> by (unfold finish_block_current; by rewrite Hs3).
  split; [by apply (state_of_set_eq _ _ _ _ Hs3)|]. split; [done|]. split; [|split; [done|]].
  - apply (same_threads_first w); [|unfold threads_of in *; cbn; etransitivity; [apply Hmem|exact Hm1]|done].
    intros u. transitivity (settled <$> threads w2 !! u); [|exact (Hset u)]. unfold w3, prepare_block_current, block, set_state, map_thread. cbn.
    destruct (decide (u = t)) as [->|]; [|by rewrite !lookup_alter_ne]. rewrite !lookup_alter_eq. by destruct (threads w2 !! t).
  - intros q qr Hq Hqr. apply (Hoth q qr Hq). by rewrite H1, decide_False.
Qed.

Lemma wake_runnable w t b : state_of w t = Some (State.Blocked b) → runnable (wake w t) t.
Proof.
  intros Hs. split; [by rewrite wake_state, decide_True, Hs|]. unfold in_ready. rewrite (wake_ready_queues w t), Hs.
  destruct (is_ready_queued w t) eqn:Hq; [by apply is_ready_queued_spec|by constructor].
Qed.

Lemma keeps_ptrace pr pr' : keeps pr pr' → pr'.(ptrace) = pr.(ptrace).
Proof. intros [H _]. destruct pr, pr'. unfold kin in H. cbn in H. injection H as. by subst. Qed.

Section tracing.
Context {M : Type} `{um_word : UserMemory M Z} `{um_iovec : UserMemory M LinuxIovec} `{um_bytes : UserMemory M (list byte)}
  `{um_info : UserMemory M SigInfo}.
Context (peek : Z → Z → result SyscallError Z).

Lemma traced_by w p q : ensure_traced_by w p q = Ok tt ↔ tracer_pid_of w p = Some q.
Proof. unfold ensure_traced_by. case_bool_decide; [tauto|]. split; congruence. Qed.

Lemma get_traced w n q p : get_traced_process w n q = Ok p → p = n ∧ tracer_pid_of w n = Some q.
Proof.
  unfold get_traced_process, get_process_with_pid. destruct (n <=? 0); [done|]. destruct (processes w !! n); [|done]. cbn.
  destruct (ensure_traced_by w n q) as [[]|] eqn:He; [|done]. intros [= <-]. by apply traced_by in He.
Qed.

Lemma not_traced w n q : tracer_pid_of w n ≠ Some q → is_ok (get_traced_process w n q) = false.
Proof. intros Hn. destruct (get_traced_process w n q) eqn:H; [|done]. apply get_traced in H as [_ H]. done. Qed.

(** Tracing is for the tracer.  A request about a process that the caller does not trace
    fails and changes nothing, except the two that make a tracer; these give a process a
    tracer only when it has none or the caller already, and asking to be traced makes the
    tracer the parent.  Nobody traces himself. *)
Lemma ptrace_needs_tracer w (m : M) request n addr data q r w' m' :
  sys_ptrace peek q w m request n addr data = (r, (w', m')) →
  (tracer_pid_of w n ≠ Some q → request ≠ PTRACE_TRACEME → request ≠ PTRACE_SEIZE → request ≠ PTRACE_GETEVENTMSG → is_ok r = false ∧ w' = w) ∧
  (request = PTRACE_SEIZE → is_ok r = true → n ≠ q ∧ (tracer_pid_of w n = None ∨ tracer_pid_of w n = Some q) ∧ tracer_pid_of w' n = Some q) ∧
  (request = PTRACE_TRACEME → is_ok r = true → tracer_pid_of w q = None ∧ tracer_pid_of w' q = w.(processes) !! q ≫= p_parent).
Proof.
  intros Hp. split; [|split].
  - intros Hn H1 H2 H3. pose proof (not_traced w n q Hn) as Hg. revert Hp. unfold sys_ptrace.
    destruct (Z.eqb_spec request PTRACE_TRACEME); [done|].
    destruct ((request =? PTRACE_PEEKTEXT) || (request =? PTRACE_PEEKDATA)).
    { unfold peek_target_word. destruct (get_traced_process w n q); [done|]. by intros [= <- <- <-]. }
    destruct (request =? PTRACE_CONT); [|destruct (request =? PTRACE_SYSCALL)].
    1,2: unfold resume_call; destruct (negb (data =? 0)); [by intros [= <- <- <-]|]; destruct (get_traced_process w n q); [done|]; by intros [= <- <- <-].
    destruct (request =? PTRACE_GETREGS).
    { unfold write_traced_regs, regs_of. destruct (get_traced_process w n q); [done|]. by intros [= <- <- <-]. }
    destruct (request =? PTRACE_SETOPTIONS).
    { unfold set_options_call. destruct (get_traced_process w n q); [done|]. by intros [= <- <- <-]. }
    destruct (Z.eqb_spec request PTRACE_SEIZE); [done|]. destruct (Z.eqb_spec request PTRACE_GETEVENTMSG); [done|].
    destruct (request =? PTRACE_GETSIGINFO).
    { unfold write_siginfo. destruct (get_traced_process w n q); [done|]. by intros [= <- <- <-]. }
    destruct (request =? PTRACE_GETREGSET).
    { unfold write_traced_regset. destruct (negb (addr =? NT_PRSTATUS)); [by intros [= <- <- <-]|]. destruct (user_read m data) as [[] m1]; [|by intros [= <- <- <-]].
      unfold regs_of. destruct (get_traced_process w n q); [done|]. by intros [= <- <- <-]. }
    destruct (request =? PTRACE_GET_SYSCALL_INFO); [|by intros [= <- <- <-]].
    unfold write_syscall_info. destruct (get_traced_process w n q); [done|]. by intros [= <- <- <-].
  - intros -> Hr. revert Hp. cbn. unfold seize_call, get_process_with_pid, seize. destruct (n <=? 0); [by intros [= <- <- <-]|].
    destruct (processes w !! n) as [pr|] eqn:Hn; [|by intros [= <- <- <-]]. cbn. destruct (Z.eqb_spec n q); [by intros [= <- <- <-]|].
    assert (∀ f, tracer_pid_of (map_ptrace w n f) n = (f pr.(ptrace)).(tracer)) as Hf.
    { intros f. unfold tracer_pid_of, map_ptrace. by rewrite (map_process_lookup _ _ _ _ _ Hn), decide_True. }
    destruct (tracer_pid_of w n) as [x|] eqn:Hx.
    + destruct (Z.eqb_spec x q) as [->|]; cbn; intros [= <- <- <-]; [|done]. rewrite Hf. auto.
    + cbn. intros [= <- <- <-]. rewrite Hf. auto.
  - intros -> Hr. revert Hp. cbn. unfold traceme_current. destruct (processes w !! q) as [pr|] eqn:Hn; [|by intros [= <- <- <-]]. cbn.
    destruct (p_parent pr) as [x|] eqn:Hpar; [|by intros [= <- <- <-]]. destruct (tracer_pid_of w q); [by intros [= <- <- <-]|].
    intros [= <- <- <-]. split; [done|]. unfold tracer_pid_of, map_ptrace. by rewrite (map_process_lookup _ _ _ _ _ Hn), decide_True.
Qed.

(** A traced call stops, is seen and goes on.  A thread of a process that is traced by its
    parent and was told to stop at calls blocks when it makes one; the tracer's next wait for
    stopped children has an answer, and the state of the process says what it stopped for;
    the tracer's request to go on succeeds, and the thread is runnable again and will stop at
    the next call. *)
Lemma traced_call_stops_and_resumes fds w p t q pr qr th (m : M) addr :
  w.(processes) !! p = Some pr → w.(processes) !! q = Some qr → p ≠ q → 0 < p → pr.(p_parent) = Some q → pr.(ptrace).(tracer) = Some q →
  pr.(ptrace).(resume_mode) = PtraceResumeMode.Syscall → pr.(exit_status) = None →
  state_of w t = Some State.Running → first_thread w p = Ok th → th.(id) = t → t ∈ w.(manager_threads) →
  let w1 := maybe_stop_current_on_syscall_entry fds w p t in
  state_of w1 t = Some (State.Blocked BlockType.Stopped) ∧
  (∃ pr1, w1.(processes) !! p = Some pr1 ∧ pr1.(wait_event) = Some (mkStopped (trap_status pr) true) ∧ pr1.(ptrace).(last_stop_kind) = PtraceStopKind.SyscallEnter) ∧
  (∃ outcome w', check_wait_outcome (-1) (for_wait4 W_WUNTRACED) q w1 = (Ok (Some outcome), w')) ∧
  let '(r, (w2, _)) := sys_ptrace peek q w1 m PTRACE_SYSCALL p addr 0 in
  r = Ok 0 ∧ runnable w2 t ∧ ptrace <$> w2.(processes) !! p = Some (mkPtrace (Some q) pr.(ptrace).(ptrace_options) PtraceResumeMode.Syscall 0 PtraceStopKind.None_).
Proof.
  intros Hp Hq Hne Hpos Hpar Htr Hmode Hex Hs Hth Hid Hman w1.
  assert (w1 = stop_current_with_status fds w p t (trap_status pr) PtraceStopKind.SyscallEnter) as Hw1.
  { unfold w1, maybe_stop_current_on_syscall_entry, maybe_stop_current_on_syscall, stops_at_syscalls. rewrite Hp. cbn. by rewrite Htr, Hmode. }
  destruct (stop_current_spec fds w p t pr (trap_status pr) PtraceStopKind.SyscallEnter th Hp Hs Hth) as (Hst & Hmt & (th' & Hth' & Hid') & (pr1 & Hp1 & Hk1) & Hoth).
  rewrite <- Hw1 in *. clear Hw1. clearbody w1. destruct (Hoth q qr ltac:(congruence) Hq) as (qr1 & Hq1 & _). clear Hoth.
  pose proof (keeps_ptrace _ _ Hk1) as Hpt. cbn in Hpt. apply kin_fields in Hk1 as (_ & Hpar1 & Hex1 & _ & _ & _ & _ & Hev). cbn in Hpar1, Hex1, Hev.
  split; [done|]. split; [exists pr1; by rewrite Hpt|]. split.
  - pose proof (check_wait_answer (-1) (for_wait4 W_WUNTRACED) q qr1 w1 Hq1 ltac:(done)) as Ha.
    assert (awaited (-1) q qr1 pr1) as Haw by (split; [congruence|by left]).
    assert (reports (for_wait4 W_WUNTRACED) pr1) as Hrep by (right; rewrite Hev; done).
    destruct (check_wait_outcome _ _ q w1) as [[[o|]|e] w']; [by exists o, w'|..]; exfalso; destruct Ha as (_ & _ & Hno); by apply (Hno p pr1).
  - cbn. unfold resume_call. cbn. unfold get_traced_process, get_process_with_pid. destruct (Z.leb_spec p 0); [lia|]. rewrite Hp1. cbn.
    assert (ensure_traced_by w1 p q = Ok tt) as He by (apply traced_by; unfold tracer_pid_of; rewrite Hp1; cbn; rewrite Hpt; exact Htr).
    rewrite He. cbn. unfold resume. rewrite He. set (w2 := map_ptrace w1 p _).
    assert (first_thread w2 p = Ok th') as ->.
    { rewrite <- Hth'. unfold first_thread, threads_of, w2, map_ptrace. rewrite (map_process_lookup _ _ _ _ _ Hp1), decide_True, Hp1 by done. done. }
    cbn. unfold wake_thread_by_id. rewrite Hid', Hid. rewrite decide_True by (change (manager_threads w2) with (manager_threads w1); by rewrite Hmt).
    split; [done|]. split; [by apply (wake_runnable w2 t BlockType.Stopped)|].
    rewrite (ow_processes _ _ (wake_only w2 t)). unfold w2, map_ptrace. rewrite (map_process_lookup _ _ _ _ _ Hp1), decide_True by done. cbn.
    rewrite Hpt. unfold with_last_stop, with_resume_mode. cbn. by rewrite Htr.
Qed.
End tracing.

(** ** Concrete inputs *)

Lemma fresh_check w n :
  bool_decide (w.(processes) !! n = None) && forallb (λ x, negb (bool_decide (x.2.(p_parent) = Some n))) (map_to_list w.(processes)) = true → fresh w n.
Proof.
  intros [H1%bool_decide_eq_true H2]%andb_true_iff. split; [done|]. intros c pr Hc Hp. rewrite List.forallb_forall in H2.
  specialize (H2 (c, pr)). cbn beta iota delta [snd] in H2. rewrite bool_decide_eq_true_2 in H2 by done.
  discriminate H2. apply list_elem_of_In. by apply elem_of_map_to_list.
Qed.

Definition first_process : World := with_processes (spawn (world_init 1) (thread0 1 1)) {[1 := process0 1 None [1]]}.
Definition fork_of (t last : Z) (w : World) : World := (fork 100 t w last).2.1.

(** 1 has the child 2, which has 3, which has 4. *)
Definition four : World := fork_of 3 3 (fork_of 2 2 (fork_of 1 1 first_process)).

(** 2 collects orphans, 4 wants a signal when its parent dies. *)
Definition family : World :=
  map_process (map_process four 2 (λ pr, with_child_subreaper pr true)) 4 (λ pr, with_parent_death_signal pr (Some Signal.SIGTERM)).

Lemma family_reachable : process_reachable family.
Proof.
  assert (process_reachable first_process) as H0.
  { apply process_initial. split; [by eexists|]. intros c pr. unfold first_process. cbn. intros [<- <-]%lookup_singleton_Some. done. }
  assert (process_reachable (fork_of 1 1 first_process)) as H1 by (eapply process_next; [exact H0|]; apply step_fork, fresh_check; vm_compute; reflexivity).
  assert (process_reachable (fork_of 2 2 (fork_of 1 1 first_process))) as H2 by (eapply process_next; [exact H1|]; apply step_fork, fresh_check; vm_compute; reflexivity).
  assert (process_reachable four) as H3 by (eapply process_next; [exact H2|]; apply step_fork, fresh_check; vm_compute; reflexivity).
  eapply process_next; [exact H3|]. apply step_other. unfold family.
  apply (same_places_trans _ (map_process four 2 (λ pr, with_child_subreaper pr true))); by apply same_places_map.
Qed.


Lemma subreaper_search_terminates_witness :
  nearest_live_subreaper 5 family (Some 3) = Some 2 ∧ nearest family (Some 3) (Some 2).
Proof.
  destruct (subreaper_search_terminates family (Some 3) 5 family_reachable) as [_ Hn].
  - apply Nat.leb_le. vm_compute. reflexivity.
  - split; [vm_compute; reflexivity|]. assert (subreaper_of family (Some 3) = Some 2) as Hs by (vm_compute; reflexivity). by rewrite Hs in Hn.
Defined.

Definition no_watchers (_ : Z) : nat := O.
Definition no_pollers (_ : Z) : list Z := [].
Definition three_ends : World := terminate_process no_fds no_watchers no_pollers family 3 (ProcessExitStatus.Exited 7).

Definition exit_of (w : World) (p : Z) : option ProcessExitStatus := w.(processes) !! p ≫= exit_status.
Definition parent_number (w : World) (p : Z) : option Z := w.(processes) !! p ≫= p_parent.

Lemma terminate_process_hands_over_witness :
  exit_of three_ends 3 = Some (ProcessExitStatus.Exited 7) ∧ parent_number three_ends 4 = Some 2 ∧ parent_number three_ends 3 = Some 2 ∧
  ∃ pr, three_ends.(processes) !! 4 = Some pr ∧ contains pr.(p_pending_signals) (mask Signal.SIGTERM) = true.
Proof.
  destruct (family.(processes) !! 3) as [pr3|] eqn:H3; [|vm_compute in H3; discriminate H3].
  destruct (family.(processes) !! 4) as [pr4|] eqn:H4; [|vm_compute in H4; discriminate H4].
  destruct (terminate_process_hands_over no_fds no_watchers no_pollers family 3 pr3 (ProcessExitStatus.Exited 7) family_reachable H3) as [(a & Ha & _) (r & _ & Hq)].
  destruct (Hq 4 pr4 ltac:(done) H4) as (b & Hb & _ & _ & _ & _ & Hs).
  split; [vm_compute; reflexivity|]. split; [vm_compute; reflexivity|]. split; [vm_compute; reflexivity|]. exists b. split; [exact Hb|].
  vm_compute in H4. injection H4 as <-. apply Hs; [reflexivity|reflexivity|discriminate].
Defined.

(** 3 has ended and 2, which runs as thread 2, waits for any child. *)
Definition wait_any : WaitBehavior := for_wait4 0.

Lemma wait_reports_first_witness :
  ∃ s w1, check_wait_outcome (-1) wait_any 2 three_ends = (Ok (Some (WaitOutcome.Exited 3 3 s)), w1) ∧ s = ProcessExitStatus.Exited 7 ∧
  (finish_wait_outcome w1 2 wait_any (WaitOutcome.Exited 3 3 s)).2.(processes) !! 3 = None.
Proof.
  destruct (three_ends.(processes) !! 2) as [cur|] eqn:Hc; [|vm_compute in Hc; discriminate Hc].
  assert (fst <$> Some (check_wait_outcome (-1) wait_any 2 three_ends) = Some (Ok (Some (WaitOutcome.Exited 3 3 (ProcessExitStatus.Exited 7))))) as Hr by (vm_compute; reflexivity).
  pose proof (wait_reports_first (-1) wait_any 2 cur three_ends Hc ltac:(discriminate)) as H.
  destruct (check_wait_outcome (-1) wait_any 2 three_ends) as [r w1]. cbn in Hr. injection Hr as ->. destruct H as [_ H].
  specialize (H _ eq_refl). exists (ProcessExitStatus.Exited 7), w1. split; [done|]. split; [done|].
  destruct (finish_wait_outcome w1 2 wait_any _) as [report w2]. destruct H as (_ & _ & Hgone & _). apply Hgone. reflexivity.
Defined.

(** Thread 2 sleeps in a wait and thread 3 runs; then it has exited. *)
Definition in_wait : BlockType := BlockType.WakeRequired WakeType.ProcsesExit None.
Definition three_runs : World :=
  next_thread (sleep_of 2 (prepare_block_current (next_thread (spawn (spawn (world_init 1) (thread0 2 2)) (thread0 3 3))) 2 in_wait)).
Definition three_exited : World := mark_thread_exited three_runs 3.

Definition dead_child : Process := with_exit_status (process0 3 (Some 2) [3]) (Some (ProcessExitStatus.Exited 7)).
Definition parent_waits : World := with_processes three_exited {[2 := process0 2 None [2]; 3 := dead_child]}.

Lemma parent_waits_ok : threads_ok parent_waits.
Proof.
  assert (threads_ok three_exited) as Hok; [|unfold parent_waits; same_threads]. apply (futex_reachable_ok (M := gmap Z Z)).
  eapply sample_step; [|apply step_mark_exited|by vm_compute]. apply sample_next; [|by vm_compute]. apply sample_sleep; [|by vm_compute].
  eapply sample_step; [|by apply step_block; left|by vm_compute]. apply sample_next; [|by vm_compute].
  do 2 (eapply sample_step; [|by apply step_spawn|by vm_compute]). apply futex_init.
Qed.

Definition after_cleanup : World := cleanup no_fds no_watchers no_pollers None parent_waits.

Lemma death_answers_wait_witness :
  runnable after_cleanup 2 ∧
  ∃ report w2, wait_for_child_exit no_fds no_watchers no_pollers (-1) wait_any 2 2 [] after_cleanup = (Some (Ok (Some report)), w2).
Proof.
  unfold after_cleanup.
  apply (death_answers_wait no_fds no_watchers no_pollers None parent_waits 3 dead_child (ProcessExitStatus.Exited 7) 2 (process0 2 None [2]) 2 (State.Blocked in_wait) (-1) wait_any []).
  - apply parent_waits_ok.
  - vm_compute. reflexivity.
  - reflexivity.
  - split; [by exists dead_child|]. split; [discriminate|]. intros u Hu. apply list_elem_of_singleton in Hu as ->. split; [|vm_compute; reflexivity].
    change (3 ∈ [3]). by constructor.
  - vm_compute. reflexivity.
  - split; [reflexivity|by left].
  - discriminate.
  - reflexivity.
  - vm_compute. reflexivity.
  - by exists None.
Defined.

Lemma allocate_process_id_free_witness :
  allocate_process_id family 4 3 = (1, 3) ∧ allocate_process_id family 100 99 = (100, 100) ∧ allocate_process_id family 100 100 = (5, 5) ∧
  family.(processes) !! 5 = None.
Proof.
  pose proof (allocate_process_id_free family 100 100 ltac:(lia) ltac:(lia)) as H.
  split; [vm_compute; reflexivity|]. split; [vm_compute; reflexivity|].
  assert (allocate_process_id family 100 100 = (5, 5)) as Ha by (vm_compute; reflexivity). rewrite Ha in H |- *. split; [done|].
  destruct H as [(_ & _ & _ & _ & H & _)|[H _]]; [exact H|discriminate H].
Defined.

Definition two_ranges : list IdRange := [mkIdRange 0 100000 1000; mkIdRange 1000 500000 10].

Lemma user_map_roundtrip_witness :
  kernel_id_from_namespace_map 1003 (Some two_ranges) = Some 500003 ∧ namespace_id_from_map 500003 (Some two_ranges) = 1003 ∧
  namespace_id_from_map 7 (Some two_ranges) = 65534.
Proof.
  destruct (user_map_roundtrip two_ranges) as (H1 & _ & H3).
  - apply List.Forall_cons; [|apply List.Forall_cons; [|constructor]]; unfold range_ok, U32_MAX; cbn; lia.
  - intros r r' n Hr Hr'. unfold two_ranges in *. rewrite !elem_of_cons, elem_of_nil in Hr, Hr'. unfold covers, sat_add. change (2 ^ 32) with 4294967296.
    destruct Hr as [->|[->|[]]], Hr' as [->|[->|[]]]; try done; cbn; rewrite !andb_true_iff; lia.
  - assert (kernel_id_from_namespace_map 1003 (Some two_ranges) = Some 500003) as Hk by (vm_compute; reflexivity). split; [exact Hk|].
    split; [by apply H1|]. apply H3. intros r Hr. unfold two_ranges in Hr. rewrite !elem_of_cons, elem_of_nil in Hr.
    destruct Hr as [->|[->|[]]]; cbn; lia.
Defined.

(** 3 is traced by its parent and stops at calls. *)
Definition traced_child : Process :=
  with_ptrace (process0 3 (Some 2) [3]) (mkPtrace (Some 2) PTRACE_O_TRACESYSGOOD PtraceResumeMode.Syscall 0 PtraceStopKind.None_).
Definition three_traced : World := with_processes three_runs {[2 := process0 2 None [2]; 3 := traced_child]}.
Definition no_memory (_ _ : Z) : result SyscallError Z := Err SyscallError.BadAddress.
Definition at_call : World := maybe_stop_current_on_syscall_entry no_fds three_traced 3 3.

Lemma ptrace_needs_tracer_witness :
  (sys_ptrace (M := unit) no_memory 3 three_traced tt PTRACE_CONT 2 0 0).1 = Err SyscallError.PermissionDenied ∧
  is_ok (sys_ptrace (M := unit) no_memory 2 three_traced tt PTRACE_SYSCALL 3 0 0).1 = true ∧
  (sys_ptrace (M := unit) no_memory 3 three_traced tt PTRACE_CONT 2 0 0).2.1 = three_traced.
Proof.
  destruct (sys_ptrace (M := unit) no_memory 3 three_traced tt PTRACE_CONT 2 0 0) as [r [w' m']] eqn:He.
  destruct (ptrace_needs_tracer no_memory three_traced tt PTRACE_CONT 2 0 0 3 r w' m' He) as [H _].
  split; [|split].
  - assert ((sys_ptrace (M := unit) no_memory 3 three_traced tt PTRACE_CONT 2 0 0).1 = Err SyscallError.PermissionDenied) as Hr by (vm_compute; reflexivity).
    by rewrite He in Hr.
  - vm_compute. reflexivity.
  - apply H; discriminate.
Defined.

Lemma traced_call_stops_and_resumes_witness :
  state_of at_call 3 = Some (State.Blocked BlockType.Stopped) ∧
  runnable (sys_ptrace (M := unit) no_memory 2 at_call tt PTRACE_SYSCALL 3 0 0).2.1 3.
Proof.
  destruct (three_traced.(threads) !! 3) as [th|] eqn:Ht; [|vm_compute in Ht; discriminate Ht].
  destruct (traced_call_stops_and_resumes (M := unit) no_memory no_fds three_traced 3 3 2 traced_child (process0 2 None [2]) th tt 0) as (H1 & _ & _ & H2);
    try (vm_compute; reflexivity).
  - discriminate.
  - vm_compute in Ht. injection Ht as <-. vm_compute. reflexivity.
  - vm_compute in Ht. by injection Ht as <-.
  - fold at_call in H1, H2. split; [exact H1|]. destruct (sys_ptrace no_memory 2 at_call tt PTRACE_SYSCALL 3 0 0) as [r [w2 m2]]. apply H2.
Defined.

(** ** Behaviours worth knowing *)

(** A process that a signal ends keeps its children: 3 is dead, and 4 still has it as its
    parent and was not sent the signal it asked for. *)
Definition three_killed : World := (deliver_to (kill no_fds 1 family 3 15).2 3 3).2.

Lemma signal_death_keeps_children :
  is_Some (exit_of three_killed 3) ∧ parent_number three_killed 4 = Some 3 ∧
  p_pending_signals <$> three_killed.(processes) !! 4 = Some 0.
Proof. split; [|split]; vm_compute; [by eexists|reflexivity|reflexivity]. Qed.

(** A parent with the largest number of its namespace gives the child the number it has itself. *)
Definition with_local (pr : Process) (n : Z) : Process := with_pid_namespaces pr 77 (Some n) (Some 1).
Definition namespace_pair : World :=
  with_processes three_runs {[2 := with_local (process0 2 None [2]) 4; 3 := with_local (process0 3 (Some 2) [3]) 5]}.

Lemma namespace_number_twice :
  let w := fork_of 3 3 namespace_pair in
  pid_namespace_local_pid <$> w.(processes) !! 3 = Some (Some 5) ∧ pid_namespace_local_pid <$> w.(processes) !! 4 = Some (Some 5).
Proof. split; vm_compute; reflexivity. Qed.

(** A new thread takes the next number even if a thread has it: the manager then knows only
    the new one. *)
Lemma thread_number_taken :
  let '(r, (w, _, _)) := clone_thread (M := gmap Z Z) 100 2 0 0 0 0 0 (three_runs, 2, ∅) in
  r = Ok 3 ∧ parent <$> three_runs.(threads) !! 3 = Some (Some 3) ∧ parent <$> w.(threads) !! 3 = Some (Some 2).
Proof. vm_compute. done. Qed.

(** A bad address for the child's number is reported after the child was made. *)
Lemma bad_address_leaves_child :
  let a := mkCloneArgs (Z.lor CLONE_VM CLONE_CHILD_SETTID) (Z.lor CLONE_VM CLONE_CHILD_SETTID) 17 0 0 5 0 0 0 in
  let '(r, (w, _, _)) := clone_process_start (M := gmap Z Z) 100 3 (λ _ _, Err SyscallError.BadAddress) 9 (λ _ _, Ok tt) (λ _, 0) a (family, 4, {[5 := 0]}) in
  r = Err SyscallError.BadAddress ∧ parent_number w 5 = Some 3 ∧ state_of w 5 = Some State.Ready.
Proof. vm_compute. done. Qed.

(** The group of a process that does not lead it is not shown in its own namespace. *)
Lemma group_of_member_hidden :
  let member := with_group_id (process0 3 (Some 2) [3]) 2 in
  let w := with_processes three_runs {[2 := process0 2 None [2]; 3 := member]} in
  getpgid member w 0 = Ok 0 ∧ getpgid member w 3 = Err SyscallError.NoProcess ∧ getpgrp member = Ok 2.
Proof. split; [|split]; vm_compute; reflexivity. Qed.

(** Any process moves any other into any group. *)
Lemma setpgid_checks_nothing :
  (λ x : result SyscallError Z * World, (x.1, group_id <$> x.2.(processes) !! 1)) (setpgid 4 (process0 4 (Some 3) [4]) family 1 4242) = (Ok 0, Some 4242).
Proof. vm_compute. reflexivity. Qed.

(** The exit of one thread ends the process. *)
Lemma exit_ends_process :
  let w := with_processes three_runs {[2 := process0 2 None [2; 3]]} in
  let w := map_thread w 3 (λ th, with_parent th (Some 2)) in
  let w := finish_exiting_thread no_fds no_watchers no_pollers (exit 3 w 5).2 3 in
  exit_of w 2 = Some (ProcessExitStatus.Exited 5) ∧ state_of w 2 = Some State.Zombie.
Proof. vm_compute. done. Qed.
