(* ===== verification/Ioctl.v ===== *)
(** * ioctl requests

    The requests of [ioctl] as the kernel names them (object/config.rs) and the numbers that
    ask for them (object/linux_ioctl.rs, with the numbers of drm/client.rs and
    drm/mode.rs).  A pointer of the source is the address. *)

From S2P Require Import Prelude Errors Polling.

Open Scope Z_scope.

(** ** Operations (object/linux_ioctl.rs) *)

Module LinuxIoctlTarget.
Inductive LinuxIoctlTarget : Type :=
  | Framebuffer | Terminal | TtyDevice | PtyMaster | PtySlave | DrmCard | DrmPrime | EvdevClient
  | UnixSocket | InetSocket | NetlinkSocket.
End LinuxIoctlTarget.
Abbreviation LinuxIoctlTarget := LinuxIoctlTarget.LinuxIoctlTarget.


Module LinuxIoctlOp.
Inductive LinuxIoctlOp : Type :=
  | FbGetVariableScreenInfo | FbPutVariableScreenInfo | FbGetFixedScreenInfo | FbGetColorMap
  | FbPutColorMap | FbPanDisplay | FbBlank | LinuxTcGets | LinuxTcSets | LinuxTcFlush
  | LinuxTcGets2 | LinuxTcSets2 | LinuxTiocnxcl | LinuxTiocsctty | LinuxTiocgPgrp | LinuxTiocnotty
  | LinuxTiocspgrp | LinuxTiocoutq | LinuxTiocgwinsz | LinuxTiocswinsz | LinuxTiocgptn
  | LinuxTiocsptlck | LinuxTiocgptpeer | LinuxTiocvhangup | LinuxKdGetKeyboardMode
  | LinuxKdSetKeyboardMode | LinuxKdGetKeyboardType | LinuxKdGetKeyboardEntry
  | LinuxKdGetDisplayMode | LinuxKdSetDisplayMode | LinuxKdSignalAccept | LinuxVtOpenQuery
  | LinuxVtGetMode | LinuxVtGetState | LinuxVtSetMode | LinuxVtActivate | LinuxVtWaitActive
  | LinuxVtRelDisp | DrmVersion | DrmGetUnique | DrmGetMagic | DrmGetCap | DrmWaitVblank
  | DrmSetUnique | DrmAuthMagic | DrmSetClientCap | DrmSetMaster | DrmDropMaster
  | DrmModeGetResources | DrmModeGetCrtc | DrmModeSetCrtc | DrmModeCursor | DrmModeCursor2
  | DrmModeGetGamma | DrmModeSetGamma | DrmModeGetEncoder | DrmModeGetConnector
  | DrmModeGetProperty | DrmModeObjGetProperties | DrmModeGetPlaneResources | DrmModeGetPlane
  | DrmModeListLessees | DrmModeAddFb | DrmModeAddFb2 | DrmModeRemoveFb | DrmModePageFlip
  | DrmModeDirtyFb | DrmModeCreateDumb | DrmModeMapDumb | DrmModeDestroyDumb | DrmGemClose
  | DrmPrimeHandleToFd | DrmPrimeFdToHandle | RawFionbio | RawFioclex | DmaBufSync
  | DmaBufExportSyncFile | DmaBufImportSyncFile | EvdevGetVersion | EvdevGetId | EvdevGetRepeat
  | EvdevGetName | EvdevGetPhys | EvdevGetUniq | EvdevGetProp | EvdevGetKey | EvdevGetLed
  | EvdevGetSnd | EvdevGetSw | EvdevGetBit | EvdevGrab | EvdevRevoke | EvdevSetClockId.
End LinuxIoctlOp.
Abbreviation LinuxIoctlOp := LinuxIoctlOp.LinuxIoctlOp.


(** ** The fields of a request number *)

Definition RAW_IOCTL_FIONBIO : Z := 0x5421.
Definition RAW_IOCTL_FIOCLEX : Z := 0x5451.

Definition IOC_NRBITS : Z := 8.
Definition IOC_TYPEBITS : Z := 8.
Definition IOC_SIZEBITS : Z := 14.
Definition IOC_NRSHIFT : Z := 0.
Definition IOC_TYPESHIFT : Z := IOC_NRSHIFT + IOC_NRBITS.
Definition IOC_SIZESHIFT : Z := IOC_TYPESHIFT + IOC_TYPEBITS.
Definition IOC_DIRSHIFT : Z := IOC_SIZESHIFT + IOC_SIZEBITS.
Definition IOC_NRMASK : Z := Z.shiftl 1 IOC_NRBITS - 1.
Definition IOC_TYPEMASK : Z := Z.shiftl 1 IOC_TYPEBITS - 1.
Definition IOC_SIZEMASK : Z := Z.shiftl 1 IOC_SIZEBITS - 1.

Definition EVDEV_IOCTL_TYPE : Z := 0x45.
Definition DMABUF_IOCTL_TYPE : Z := 0x62.

(** The shifts of a [u64] drop what leaves the word. *)
Definition ioctl_request (dir ty nr size : Z) : Z :=
  Z.lor (Z.lor (Z.lor nr (uwrap 64 (Z.shiftl ty IOC_TYPESHIFT))) (uwrap 64 (Z.shiftl size IOC_SIZESHIFT)))
    (uwrap 64 (Z.shiftl dir IOC_DIRSHIFT)).

Definition ioctl_nr (request : Z) : Z := Z.land (Z.shiftr request IOC_NRSHIFT) IOC_NRMASK.
Definition ioctl_type (request : Z) : Z := uwrap 8 (Z.land (Z.shiftr request IOC_TYPESHIFT) IOC_TYPEMASK).
Definition ioctl_size (request : Z) : Z := Z.land (Z.shiftr request IOC_SIZESHIFT) IOC_SIZEMASK.

Definition socket_raw_ioctl_op (request : Z) : option LinuxIoctlOp :=
  if request =? RAW_IOCTL_FIONBIO then Some LinuxIoctlOp.RawFionbio
  else if request =? RAW_IOCTL_FIOCLEX then Some LinuxIoctlOp.RawFioclex
  else None.

Definition drm_prime_raw_ioctl_op (request : Z) : option LinuxIoctlOp :=
  if negb (ioctl_type request =? DMABUF_IOCTL_TYPE) then None
  else
    let nr := ioctl_nr request in
    if nr =? 0 then Some LinuxIoctlOp.DmaBufSync
    else if nr =? 2 then Some LinuxIoctlOp.DmaBufExportSyncFile
    else if nr =? 3 then Some LinuxIoctlOp.DmaBufImportSyncFile
    else None.

Definition evdev_raw_ioctl_op (request : Z) : option LinuxIoctlOp :=
  if negb (ioctl_type request =? EVDEV_IOCTL_TYPE) then None else
  let nr := ioctl_nr request in
  if nr =? 0x01 then Some LinuxIoctlOp.EvdevGetVersion else
  if nr =? 0x02 then Some LinuxIoctlOp.EvdevGetId else
  if nr =? 0x03 then Some LinuxIoctlOp.EvdevGetRepeat else
  if nr =? 0x06 then Some LinuxIoctlOp.EvdevGetName else
  if nr =? 0x07 then Some LinuxIoctlOp.EvdevGetPhys else
  if nr =? 0x08 then Some LinuxIoctlOp.EvdevGetUniq else
  if nr =? 0x09 then Some LinuxIoctlOp.EvdevGetProp else
  if nr =? 0x18 then Some LinuxIoctlOp.EvdevGetKey else
  if nr =? 0x19 then Some LinuxIoctlOp.EvdevGetLed else
  if nr =? 0x1a then Some LinuxIoctlOp.EvdevGetSnd else
  if nr =? 0x1b then Some LinuxIoctlOp.EvdevGetSw else
  if (0x20 <=? nr) && (nr <=? 0x3f) then Some LinuxIoctlOp.EvdevGetBit else
  if nr =? 0x90 then Some LinuxIoctlOp.EvdevGrab else
  if nr =? 0x91 then Some LinuxIoctlOp.EvdevRevoke else
  if nr =? 0xa0 then Some LinuxIoctlOp.EvdevSetClockId else
  None.

(** ** The other side of a pseudo terminal (object/config.rs) *)

Definition O_NOCTTY : Z := 0x100.
Definition O_NONBLOCK : Z := 2048.
Definition O_CLOEXEC : Z := 524288.
Definition PtyPeerOpenFlags : Z := Z.lor O_NOCTTY (Z.lor O_NONBLOCK O_CLOEXEC).

Module PtyPeerAccessMode.
Inductive PtyPeerAccessMode : Type := ReadOnly | WriteOnly | ReadWrite.
End PtyPeerAccessMode.
Abbreviation PtyPeerAccessMode := PtyPeerAccessMode.PtyPeerAccessMode.

Record PtyPeerOpenRequest := mkPtyPeerOpenRequest { access_mode : PtyPeerAccessMode; open_flags : Z }.

Definition ACCESS_MODE_MASK : Z := 3.

Definition pty_peer_open_request (raw : Z) : result ObjectError PtyPeerOpenRequest :=
  let mode := Z.land raw ACCESS_MODE_MASK in
  access_mode ← (if mode =? 0 then Ok PtyPeerAccessMode.ReadOnly
                 else if mode =? 1 then Ok PtyPeerAccessMode.WriteOnly
                 else if mode =? 2 then Ok PtyPeerAccessMode.ReadWrite
                 else Err ObjectError.InvalidArguments);
  let flag_bits := Z.ldiff raw ACCESS_MODE_MASK in
  if 2 ^ 32 <=? flag_bits then Err ObjectError.InvalidArguments
  else if Z.ldiff flag_bits PtyPeerOpenFlags =? 0 then Ok (mkPtyPeerOpenRequest access_mode flag_bits)
  else Err ObjectError.InvalidArguments.

(** [FdFlags::CLOEXEC] (process/mod.rs) *)
Definition FD_CLOEXEC : Z := 1.

Definition fd_flags (r : PtyPeerOpenRequest) : Z := if flag_set r.(open_flags) O_CLOEXEC then FD_CLOEXEC else 0.
Definition file_flags (r : PtyPeerOpenRequest) : Z := if flag_set r.(open_flags) O_NONBLOCK then NONBLOCK else 0.

(** ** Requests *)

Module ConfigurateRequest.
Inductive ConfigurateRequest : Type :=
  | BlockDiscard (ptr : Z) | BlockFlushBuffers | BlockGetAlignmentOffset (ptr : Z)
  | BlockGetBlockSize (ptr : Z) | BlockGetDiskSequence (ptr : Z) | BlockGetGeometry (ptr : Z)
  | BlockGetIOOptimalSize (ptr : Z) | BlockGetIOMinimumSize (ptr : Z)
  | BlockGetPhysicalSectorSize (ptr : Z) | BlockGetReadOnly (ptr : Z)
  | BlockGetSectorSize (ptr : Z) | BlockGetSize (ptr : Z) | BlockGetSize64 (ptr : Z)
  | BlockGetZoneCount (ptr : Z) | BlockGetZoneSize (ptr : Z) | BlockGetDiscardZeroes (ptr : Z)
  | BlockZeroOut (ptr : Z) | FileGetFlags (ptr : Z) | FileSetFlags (ptr : Z)
  | FbGetVariableScreenInfo (ptr : Z) | FbPutVariableScreenInfo (ptr : Z)
  | FbGetFixedScreenInfo (ptr : Z) | FbGetColorMap (ptr : Z) | FbPutColorMap (ptr : Z)
  | FbPanDisplay (ptr : Z) | FbBlank (value : Z) | LinuxTcGetA (ptr : Z) | LinuxTcGets (ptr : Z)
  | LinuxTcSets (ptr : Z) | LinuxTcFlush (value : Z) | LinuxTcGets2 (ptr : Z)
  | LinuxTcSets2 (ptr : Z) | LinuxTiocnxcl | LinuxTiocsctty (value : Z) | LinuxTiocgPgrp (ptr : Z)
  | LinuxTiocnotty | LinuxTiocspgrp (ptr : Z) | LinuxFionRead (ptr : Z) | LinuxTiocoutq (ptr : Z)
  | LinuxTiocgwinsz (ptr : Z) | LinuxTiocswinsz (ptr : Z) | LinuxTiocgptn (ptr : Z)
  | LinuxTiocsptlck (ptr : Z) | LinuxTiocgptpeer (request : PtyPeerOpenRequest) | LinuxTiocvhangup
  | LinuxKdGetKeyboardMode (ptr : Z) | LinuxKdSetKeyboardMode (value : Z)
  | LinuxKdGetKeyboardType (ptr : Z) | LinuxKdGetKeyboardEntry (ptr : Z)
  | LinuxKdGetDisplayMode (ptr : Z) | LinuxKdSetDisplayMode (value : Z)
  | LinuxKdSignalAccept (value : Z) | LinuxVtOpenQuery (ptr : Z) | LinuxVtGetMode (ptr : Z)
  | LinuxVtGetState (ptr : Z) | LinuxVtSetMode (ptr : Z) | LinuxVtActivate (value : Z)
  | LinuxVtWaitActive (value : Z) | LinuxVtRelDisp (value : Z) | DrmVersion (ptr : Z)
  | DrmGetUnique (ptr : Z) | DrmGetMagic (ptr : Z) | DrmGetCap (ptr : Z) | DrmWaitVblank (ptr : Z)
  | DrmSetUnique (ptr : Z) | DrmAuthMagic (ptr : Z) | DrmSetClientCap (ptr : Z) | DrmSetMaster
  | DrmDropMaster | DrmModeGetResources (ptr : Z) | DrmModeGetCrtc (ptr : Z)
  | DrmModeSetCrtc (ptr : Z) | DrmModeCursor (ptr : Z) | DrmModeCursor2 (ptr : Z)
  | DrmModeGetGamma (ptr : Z) | DrmModeSetGamma (ptr : Z) | DrmModeGetEncoder (ptr : Z)
  | DrmModeGetConnector (ptr : Z) | DrmModeGetProperty (ptr : Z)
  | DrmModeObjGetProperties (ptr : Z) | DrmModeGetPlaneResources (ptr : Z)
  | DrmModeGetPlane (ptr : Z) | DrmModeListLessees (ptr : Z) | DrmModeAddFb (ptr : Z)
  | DrmModeAddFb2 (ptr : Z) | DrmModeRemoveFb (ptr : Z) | DrmModePageFlip (ptr : Z)
  | DrmModeDirtyFb (ptr : Z) | DrmModeCreateDumb (ptr : Z) | DrmModeMapDumb (ptr : Z)
  | DrmModeDestroyDumb (ptr : Z) | DrmGemClose (ptr : Z) | DrmPrimeHandleToFd (ptr : Z)
  | DrmPrimeFdToHandle (ptr : Z) | DmaBufSync (ptr : Z) | DmaBufExportSyncFile (ptr : Z)
  | DmaBufImportSyncFile (ptr : Z) | EvdevGetVersion (ptr : Z) | EvdevGetId (ptr : Z)
  | EvdevGetRepeat (ptr : Z) | EvdevGetName (ptr len : Z) | EvdevGetPhys (ptr len : Z)
  | EvdevGetUniq (ptr len : Z) | EvdevGetProp (ptr len : Z) | EvdevGetKey (ptr len : Z)
  | EvdevGetLed (ptr len : Z) | EvdevGetSnd (ptr len : Z) | EvdevGetSw (ptr len : Z)
  | EvdevGetBit (event_type ptr len : Z) | EvdevGrab (value : Z) | EvdevRevoke (value : Z)
  | EvdevSetClockId (ptr : Z) | RawIoctl (request arg : Z).
End ConfigurateRequest.
Abbreviation ConfigurateRequest := ConfigurateRequest.ConfigurateRequest.

Definition name (r : ConfigurateRequest) : string :=
  match r with
  | ConfigurateRequest.BlockDiscard _ => "BlockDiscard"
  | ConfigurateRequest.BlockFlushBuffers => "BlockFlushBuffers"
  | ConfigurateRequest.BlockGetAlignmentOffset _ => "BlockGetAlignmentOffset"
  | ConfigurateRequest.BlockGetBlockSize _ => "BlockGetBlockSize"
  | ConfigurateRequest.BlockGetDiskSequence _ => "BlockGetDiskSequence"
  | ConfigurateRequest.BlockGetGeometry _ => "BlockGetGeometry"
  | ConfigurateRequest.BlockGetIOOptimalSize _ => "BlockGetIOOptimalSize"
  | ConfigurateRequest.BlockGetIOMinimumSize _ => "BlockGetIOMinimumSize"
  | ConfigurateRequest.BlockGetPhysicalSectorSize _ => "BlockGetPhysicalSectorSize"
  | ConfigurateRequest.BlockGetReadOnly _ => "BlockGetReadOnly"
  | ConfigurateRequest.BlockGetSectorSize _ => "BlockGetSectorSize"
  | ConfigurateRequest.BlockGetSize _ => "BlockGetSize"
  | ConfigurateRequest.BlockGetSize64 _ => "BlockGetSize64"
  | ConfigurateRequest.BlockGetZoneCount _ => "BlockGetZoneCount"
  | ConfigurateRequest.BlockGetZoneSize _ => "BlockGetZoneSize"
  | ConfigurateRequest.BlockGetDiscardZeroes _ => "BlockGetDiscardZeroes"
  | ConfigurateRequest.BlockZeroOut _ => "BlockZeroOut"
  | ConfigurateRequest.FileGetFlags _ => "FileGetFlags"
  | ConfigurateRequest.FileSetFlags _ => "FileSetFlags"
  | ConfigurateRequest.FbGetVariableScreenInfo _ => "FbGetVariableScreenInfo"
  | ConfigurateRequest.FbPutVariableScreenInfo _ => "FbPutVariableScreenInfo"
  | ConfigurateRequest.FbGetFixedScreenInfo _ => "FbGetFixedScreenInfo"
  | ConfigurateRequest.FbGetColorMap _ => "FbGetColorMap"
  | ConfigurateRequest.FbPutColorMap _ => "FbPutColorMap"
  | ConfigurateRequest.FbPanDisplay _ => "FbPanDisplay"
  | ConfigurateRequest.FbBlank _ => "FbBlank"
  | ConfigurateRequest.LinuxTcGetA _ => "LinuxTcGetA"
  | ConfigurateRequest.LinuxTcGets _ => "LinuxTcGets"
  | ConfigurateRequest.LinuxTcSets _ => "LinuxTcSets"
  | ConfigurateRequest.LinuxTcFlush _ => "LinuxTcFlush"
  | ConfigurateRequest.LinuxTcGets2 _ => "LinuxTcGets2"
  | ConfigurateRequest.LinuxTcSets2 _ => "LinuxTcSets2"
  | ConfigurateRequest.LinuxTiocnxcl => "LinuxTiocnxcl"
  | ConfigurateRequest.LinuxTiocsctty _ => "LinuxTiocsctty"
  | ConfigurateRequest.LinuxTiocgPgrp _ => "LinuxTiocgPgrp"
  | ConfigurateRequest.LinuxTiocnotty => "LinuxTiocnotty"
  | ConfigurateRequest.LinuxTiocspgrp _ => "LinuxTiocspgrp"
  | ConfigurateRequest.LinuxFionRead _ => "LinuxFionRead"
  | ConfigurateRequest.LinuxTiocoutq _ => "LinuxTiocoutq"
  | ConfigurateRequest.LinuxTiocgwinsz _ => "LinuxTiocgwinsz"
  | ConfigurateRequest.LinuxTiocswinsz _ => "LinuxTiocswinsz"
  | ConfigurateRequest.LinuxTiocgptn _ => "LinuxTiocgptn"
  | ConfigurateRequest.LinuxTiocsptlck _ => "LinuxTiocsptlck"
  | ConfigurateRequest.LinuxTiocgptpeer _ => "LinuxTiocgptpeer"
  | ConfigurateRequest.LinuxTiocvhangup => "LinuxTiocvhangup"
  | ConfigurateRequest.LinuxKdGetKeyboardMode _ => "LinuxKdGetKeyboardMode"
  | ConfigurateRequest.LinuxKdSetKeyboardMode _ => "LinuxKdSetKeyboardMode"
  | ConfigurateRequest.LinuxKdGetKeyboardType _ => "LinuxKdGetKeyboardType"
  | ConfigurateRequest.LinuxKdGetKeyboardEntry _ => "LinuxKdGetKeyboardEntry"
  | ConfigurateRequest.LinuxKdGetDisplayMode _ => "LinuxKdGetDisplayMode"
  | ConfigurateRequest.LinuxKdSetDisplayMode _ => "LinuxKdSetDisplayMode"
  | ConfigurateRequest.LinuxKdSignalAccept _ => "LinuxKdSignalAccept"
  | ConfigurateRequest.LinuxVtOpenQuery _ => "LinuxVtOpenQuery"
  | ConfigurateRequest.LinuxVtGetMode _ => "LinuxVtGetMode"
  | ConfigurateRequest.LinuxVtGetState _ => "LinuxVtGetState"
  | ConfigurateRequest.LinuxVtSetMode _ => "LinuxVtSetMode"
  | ConfigurateRequest.LinuxVtActivate _ => "LinuxVtActivate"
  | ConfigurateRequest.LinuxVtWaitActive _ => "LinuxVtWaitActive"
  | ConfigurateRequest.LinuxVtRelDisp _ => "LinuxVtRelDisp"
  | ConfigurateRequest.DrmVersion _ => "DrmVersion"
  | ConfigurateRequest.DrmGetUnique _ => "DrmGetUnique"
  | ConfigurateRequest.DrmGetMagic _ => "DrmGetMagic"
  | ConfigurateRequest.DrmGetCap _ => "DrmGetCap"
  | ConfigurateRequest.DrmWaitVblank _ => "DrmWaitVblank"
  | ConfigurateRequest.DrmSetUnique _ => "DrmSetUnique"
  | ConfigurateRequest.DrmAuthMagic _ => "DrmAuthMagic"
  | ConfigurateRequest.DrmSetClientCap _ => "DrmSetClientCap"
  | ConfigurateRequest.DrmSetMaster => "DrmSetMaster"
  | ConfigurateRequest.DrmDropMaster => "DrmDropMaster"
  | ConfigurateRequest.DrmModeGetResources _ => "DrmModeGetResources"
  | ConfigurateRequest.DrmModeGetCrtc _ => "DrmModeGetCrtc"
  | ConfigurateRequest.DrmModeSetCrtc _ => "DrmModeSetCrtc"
  | ConfigurateRequest.DrmModeCursor _ => "DrmModeCursor"
  | ConfigurateRequest.DrmModeCursor2 _ => "DrmModeCursor2"
  | ConfigurateRequest.DrmModeGetGamma _ => "DrmModeGetGamma"
  | ConfigurateRequest.DrmModeSetGamma _ => "DrmModeSetGamma"
  | ConfigurateRequest.DrmModeGetEncoder _ => "DrmModeGetEncoder"
  | ConfigurateRequest.DrmModeGetConnector _ => "DrmModeGetConnector"
  | ConfigurateRequest.DrmModeGetProperty _ => "DrmModeGetProperty"
  | ConfigurateRequest.DrmModeObjGetProperties _ => "DrmModeObjGetProperties"
  | ConfigurateRequest.DrmModeGetPlaneResources _ => "DrmModeGetPlaneResources"
  | ConfigurateRequest.DrmModeGetPlane _ => "DrmModeGetPlane"
  | ConfigurateRequest.DrmModeListLessees _ => "DrmModeListLessees"
  | ConfigurateRequest.DrmModeAddFb _ => "DrmModeAddFb"
  | ConfigurateRequest.DrmModeAddFb2 _ => "DrmModeAddFb2"
  | ConfigurateRequest.DrmModeRemoveFb _ => "DrmModeRemoveFb"
  | ConfigurateRequest.DrmModePageFlip _ => "DrmModePageFlip"
  | ConfigurateRequest.DrmModeDirtyFb _ => "DrmModeDirtyFb"
  | ConfigurateRequest.DrmModeCreateDumb _ => "DrmModeCreateDumb"
  | ConfigurateRequest.DrmModeMapDumb _ => "DrmModeMapDumb"
  | ConfigurateRequest.DrmModeDestroyDumb _ => "DrmModeDestroyDumb"
  | ConfigurateRequest.DrmGemClose _ => "DrmGemClose"
  | ConfigurateRequest.DrmPrimeHandleToFd _ => "DrmPrimeHandleToFd"
  | ConfigurateRequest.DrmPrimeFdToHandle _ => "DrmPrimeFdToHandle"
  | ConfigurateRequest.DmaBufSync _ => "DmaBufSync"
  | ConfigurateRequest.DmaBufExportSyncFile _ => "DmaBufExportSyncFile"
  | ConfigurateRequest.DmaBufImportSyncFile _ => "DmaBufImportSyncFile"
  | ConfigurateRequest.EvdevGetVersion _ => "EvdevGetVersion"
  | ConfigurateRequest.EvdevGetId _ => "EvdevGetId"
  | ConfigurateRequest.EvdevGetRepeat _ => "EvdevGetRepeat"
  | ConfigurateRequest.EvdevGetName _ _ => "EvdevGetName"
  | ConfigurateRequest.EvdevGetPhys _ _ => "EvdevGetPhys"
  | ConfigurateRequest.EvdevGetUniq _ _ => "EvdevGetUniq"
  | ConfigurateRequest.EvdevGetProp _ _ => "EvdevGetProp"
  | ConfigurateRequest.EvdevGetKey _ _ => "EvdevGetKey"
  | ConfigurateRequest.EvdevGetLed _ _ => "EvdevGetLed"
  | ConfigurateRequest.EvdevGetSnd _ _ => "EvdevGetSnd"
  | ConfigurateRequest.EvdevGetSw _ _ => "EvdevGetSw"
  | ConfigurateRequest.EvdevGetBit _ _ _ => "EvdevGetBit"
  | ConfigurateRequest.EvdevGrab _ => "EvdevGrab"
  | ConfigurateRequest.EvdevRevoke _ => "EvdevRevoke"
  | ConfigurateRequest.EvdevSetClockId _ => "EvdevSetClockId"
  | ConfigurateRequest.RawIoctl _ _ => "RawIoctl"
  end.

Definition kind (r : ConfigurateRequest) : option LinuxIoctlOp :=
  match r with
  | ConfigurateRequest.FbGetVariableScreenInfo _ => Some LinuxIoctlOp.FbGetVariableScreenInfo
  | ConfigurateRequest.FbPutVariableScreenInfo _ => Some LinuxIoctlOp.FbPutVariableScreenInfo
  | ConfigurateRequest.FbGetFixedScreenInfo _ => Some LinuxIoctlOp.FbGetFixedScreenInfo
  | ConfigurateRequest.FbGetColorMap _ => Some LinuxIoctlOp.FbGetColorMap
  | ConfigurateRequest.FbPutColorMap _ => Some LinuxIoctlOp.FbPutColorMap
  | ConfigurateRequest.FbPanDisplay _ => Some LinuxIoctlOp.FbPanDisplay
  | ConfigurateRequest.FbBlank _ => Some LinuxIoctlOp.FbBlank
  | ConfigurateRequest.LinuxTcGets _ => Some LinuxIoctlOp.LinuxTcGets
  | ConfigurateRequest.LinuxTcSets _ => Some LinuxIoctlOp.LinuxTcSets
  | ConfigurateRequest.LinuxTcFlush _ => Some LinuxIoctlOp.LinuxTcFlush
  | ConfigurateRequest.LinuxTcGets2 _ => Some LinuxIoctlOp.LinuxTcGets2
  | ConfigurateRequest.LinuxTcSets2 _ => Some LinuxIoctlOp.LinuxTcSets2
  | ConfigurateRequest.LinuxTiocnxcl => Some LinuxIoctlOp.LinuxTiocnxcl
  | ConfigurateRequest.LinuxTiocsctty _ => Some LinuxIoctlOp.LinuxTiocsctty
  | ConfigurateRequest.LinuxTiocgPgrp _ => Some LinuxIoctlOp.LinuxTiocgPgrp
  | ConfigurateRequest.LinuxTiocnotty => Some LinuxIoctlOp.LinuxTiocnotty
  | ConfigurateRequest.LinuxTiocspgrp _ => Some LinuxIoctlOp.LinuxTiocspgrp
  | ConfigurateRequest.LinuxTiocoutq _ => Some LinuxIoctlOp.LinuxTiocoutq
  | ConfigurateRequest.LinuxTiocgwinsz _ => Some LinuxIoctlOp.LinuxTiocgwinsz
  | ConfigurateRequest.LinuxTiocswinsz _ => Some LinuxIoctlOp.LinuxTiocswinsz
  | ConfigurateRequest.LinuxTiocgptn _ => Some LinuxIoctlOp.LinuxTiocgptn
  | ConfigurateRequest.LinuxTiocsptlck _ => Some LinuxIoctlOp.LinuxTiocsptlck
  | ConfigurateRequest.LinuxTiocgptpeer _ => Some LinuxIoctlOp.LinuxTiocgptpeer
  | ConfigurateRequest.LinuxTiocvhangup => Some LinuxIoctlOp.LinuxTiocvhangup
  | ConfigurateRequest.LinuxKdGetKeyboardMode _ => Some LinuxIoctlOp.LinuxKdGetKeyboardMode
  | ConfigurateRequest.LinuxKdSetKeyboardMode _ => Some LinuxIoctlOp.LinuxKdSetKeyboardMode
  | ConfigurateRequest.LinuxKdGetKeyboardType _ => Some LinuxIoctlOp.LinuxKdGetKeyboardType
  | ConfigurateRequest.LinuxKdGetKeyboardEntry _ => Some LinuxIoctlOp.LinuxKdGetKeyboardEntry
  | ConfigurateRequest.LinuxKdGetDisplayMode _ => Some LinuxIoctlOp.LinuxKdGetDisplayMode
  | ConfigurateRequest.LinuxKdSetDisplayMode _ => Some LinuxIoctlOp.LinuxKdSetDisplayMode
  | ConfigurateRequest.LinuxKdSignalAccept _ => Some LinuxIoctlOp.LinuxKdSignalAccept
  | ConfigurateRequest.LinuxVtOpenQuery _ => Some LinuxIoctlOp.LinuxVtOpenQuery
  | ConfigurateRequest.LinuxVtGetMode _ => Some LinuxIoctlOp.LinuxVtGetMode
  | ConfigurateRequest.LinuxVtGetState _ => Some LinuxIoctlOp.LinuxVtGetState
  | ConfigurateRequest.LinuxVtSetMode _ => Some LinuxIoctlOp.LinuxVtSetMode
  | ConfigurateRequest.LinuxVtActivate _ => Some LinuxIoctlOp.LinuxVtActivate
  | ConfigurateRequest.LinuxVtWaitActive _ => Some LinuxIoctlOp.LinuxVtWaitActive
  | ConfigurateRequest.LinuxVtRelDisp _ => Some LinuxIoctlOp.LinuxVtRelDisp
  | ConfigurateRequest.DrmVersion _ => Some LinuxIoctlOp.DrmVersion
  | ConfigurateRequest.DrmGetUnique _ => Some LinuxIoctlOp.DrmGetUnique
  | ConfigurateRequest.DrmGetMagic _ => Some LinuxIoctlOp.DrmGetMagic
  | ConfigurateRequest.DrmGetCap _ => Some LinuxIoctlOp.DrmGetCap
  | ConfigurateRequest.DrmWaitVblank _ => Some LinuxIoctlOp.DrmWaitVblank
  | ConfigurateRequest.DrmSetUnique _ => Some LinuxIoctlOp.DrmSetUnique
  | ConfigurateRequest.DrmAuthMagic _ => Some LinuxIoctlOp.DrmAuthMagic
  | ConfigurateRequest.DrmSetClientCap _ => Some LinuxIoctlOp.DrmSetClientCap
  | ConfigurateRequest.DrmSetMaster => Some LinuxIoctlOp.DrmSetMaster
  | ConfigurateRequest.DrmDropMaster => Some LinuxIoctlOp.DrmDropMaster
  | ConfigurateRequest.DrmModeGetResources _ => Some LinuxIoctlOp.DrmModeGetResources
  | ConfigurateRequest.DrmModeGetCrtc _ => Some LinuxIoctlOp.DrmModeGetCrtc
  | ConfigurateRequest.DrmModeSetCrtc _ => Some LinuxIoctlOp.DrmModeSetCrtc
  | ConfigurateRequest.DrmModeCursor _ => Some LinuxIoctlOp.DrmModeCursor
  | ConfigurateRequest.DrmModeCursor2 _ => Some LinuxIoctlOp.DrmModeCursor2
  | ConfigurateRequest.DrmModeGetGamma _ => Some LinuxIoctlOp.DrmModeGetGamma
  | ConfigurateRequest.DrmModeSetGamma _ => Some LinuxIoctlOp.DrmModeSetGamma
  | ConfigurateRequest.DrmModeGetEncoder _ => Some LinuxIoctlOp.DrmModeGetEncoder
  | ConfigurateRequest.DrmModeGetConnector _ => Some LinuxIoctlOp.DrmModeGetConnector
  | ConfigurateRequest.DrmModeGetProperty _ => Some LinuxIoctlOp.DrmModeGetProperty
  | ConfigurateRequest.DrmModeObjGetProperties _ => Some LinuxIoctlOp.DrmModeObjGetProperties
  | ConfigurateRequest.DrmModeGetPlaneResources _ => Some LinuxIoctlOp.DrmModeGetPlaneResources
  | ConfigurateRequest.DrmModeGetPlane _ => Some LinuxIoctlOp.DrmModeGetPlane
  | ConfigurateRequest.DrmModeListLessees _ => Some LinuxIoctlOp.DrmModeListLessees
  | ConfigurateRequest.DrmModeAddFb _ => Some LinuxIoctlOp.DrmModeAddFb
  | ConfigurateRequest.DrmModeAddFb2 _ => Some LinuxIoctlOp.DrmModeAddFb2
  | ConfigurateRequest.DrmModeRemoveFb _ => Some LinuxIoctlOp.DrmModeRemoveFb
  | ConfigurateRequest.DrmModePageFlip _ => Some LinuxIoctlOp.DrmModePageFlip
  | ConfigurateRequest.DrmModeDirtyFb _ => Some LinuxIoctlOp.DrmModeDirtyFb
  | ConfigurateRequest.DrmModeCreateDumb _ => Some LinuxIoctlOp.DrmModeCreateDumb
  | ConfigurateRequest.DrmModeMapDumb _ => Some LinuxIoctlOp.DrmModeMapDumb
  | ConfigurateRequest.DrmModeDestroyDumb _ => Some LinuxIoctlOp.DrmModeDestroyDumb
  | ConfigurateRequest.DrmGemClose _ => Some LinuxIoctlOp.DrmGemClose
  | ConfigurateRequest.DrmPrimeHandleToFd _ => Some LinuxIoctlOp.DrmPrimeHandleToFd
  | ConfigurateRequest.DrmPrimeFdToHandle _ => Some LinuxIoctlOp.DrmPrimeFdToHandle
  | ConfigurateRequest.DmaBufSync _ => Some LinuxIoctlOp.DmaBufSync
  | ConfigurateRequest.DmaBufExportSyncFile _ => Some LinuxIoctlOp.DmaBufExportSyncFile
  | ConfigurateRequest.DmaBufImportSyncFile _ => Some LinuxIoctlOp.DmaBufImportSyncFile
  | ConfigurateRequest.EvdevGetVersion _ => Some LinuxIoctlOp.EvdevGetVersion
  | ConfigurateRequest.EvdevGetId _ => Some LinuxIoctlOp.EvdevGetId
  | ConfigurateRequest.EvdevGetRepeat _ => Some LinuxIoctlOp.EvdevGetRepeat
  | ConfigurateRequest.EvdevGetName _ _ => Some LinuxIoctlOp.EvdevGetName
  | ConfigurateRequest.EvdevGetPhys _ _ => Some LinuxIoctlOp.EvdevGetPhys
  | ConfigurateRequest.EvdevGetUniq _ _ => Some LinuxIoctlOp.EvdevGetUniq
  | ConfigurateRequest.EvdevGetProp _ _ => Some LinuxIoctlOp.EvdevGetProp
  | ConfigurateRequest.EvdevGetKey _ _ => Some LinuxIoctlOp.EvdevGetKey
  | ConfigurateRequest.EvdevGetLed _ _ => Some LinuxIoctlOp.EvdevGetLed
  | ConfigurateRequest.EvdevGetSnd _ _ => Some LinuxIoctlOp.EvdevGetSnd
  | ConfigurateRequest.EvdevGetSw _ _ => Some LinuxIoctlOp.EvdevGetSw
  | ConfigurateRequest.EvdevGetBit _ _ _ => Some LinuxIoctlOp.EvdevGetBit
  | ConfigurateRequest.EvdevGrab _ => Some LinuxIoctlOp.EvdevGrab
  | ConfigurateRequest.EvdevRevoke _ => Some LinuxIoctlOp.EvdevRevoke
  | ConfigurateRequest.EvdevSetClockId _ => Some LinuxIoctlOp.EvdevSetClockId
  | ConfigurateRequest.BlockDiscard _ | ConfigurateRequest.BlockFlushBuffers
  | ConfigurateRequest.BlockGetAlignmentOffset _ | ConfigurateRequest.BlockGetBlockSize _
  | ConfigurateRequest.BlockGetDiskSequence _ | ConfigurateRequest.BlockGetGeometry _
  | ConfigurateRequest.BlockGetIOOptimalSize _ | ConfigurateRequest.BlockGetIOMinimumSize _
  | ConfigurateRequest.BlockGetPhysicalSectorSize _ | ConfigurateRequest.BlockGetReadOnly _
  | ConfigurateRequest.BlockGetSectorSize _ | ConfigurateRequest.BlockGetSize _
  | ConfigurateRequest.BlockGetSize64 _ | ConfigurateRequest.BlockGetZoneCount _
  | ConfigurateRequest.BlockGetZoneSize _ | ConfigurateRequest.BlockGetDiscardZeroes _
  | ConfigurateRequest.BlockZeroOut _ | ConfigurateRequest.FileGetFlags _
  | ConfigurateRequest.FileSetFlags _ | ConfigurateRequest.LinuxTcGetA _
  | ConfigurateRequest.LinuxFionRead _ | ConfigurateRequest.RawIoctl _ _ => None
  end.

(** ** From numbers to requests *)

Definition DRM_IOCTL_VERSION : Z := 0xc0406400.
Definition DRM_IOCTL_GET_UNIQUE : Z := 0xc0106401.
Definition DRM_IOCTL_GET_MAGIC : Z := 0x80046402.
Definition DRM_IOCTL_GET_CAP : Z := 0xc010640c.
Definition DRM_IOCTL_WAIT_VBLANK : Z := 0xc018643a.
Definition DRM_IOCTL_SET_UNIQUE : Z := 0x40106410.
Definition DRM_IOCTL_AUTH_MAGIC : Z := 0x40046411.
Definition DRM_IOCTL_SET_CLIENT_CAP : Z := 0x4010640d.
Definition DRM_IOCTL_SET_MASTER : Z := 0x0000641e.
Definition DRM_IOCTL_DROP_MASTER : Z := 0x0000641f.
Definition DRM_IOCTL_GEM_CLOSE : Z := 0x40086409.
Definition DRM_IOCTL_PRIME_HANDLE_TO_FD : Z := 0xc00c642d.
Definition DRM_IOCTL_PRIME_FD_TO_HANDLE : Z := 0xc00c642e.
Definition DRM_IOCTL_MODE_GETRESOURCES : Z := 0xc04064a0.
Definition DRM_IOCTL_MODE_GETCRTC : Z := 0xc06864a1.
Definition DRM_IOCTL_MODE_SETCRTC : Z := 0xc06864a2.
Definition DRM_IOCTL_MODE_CURSOR : Z := 0xc01c64a3.
Definition DRM_IOCTL_MODE_GETGAMMA : Z := 0xc02064a4.
Definition DRM_IOCTL_MODE_SETGAMMA : Z := 0xc02064a5.
Definition DRM_IOCTL_MODE_GETENCODER : Z := 0xc01464a6.
Definition DRM_IOCTL_MODE_GETCONNECTOR : Z := 0xc05064a7.
Definition DRM_IOCTL_MODE_GETPROPERTY : Z := 0xc04064aa.
Definition DRM_IOCTL_MODE_ADDFB : Z := 0xc01c64ae.
Definition DRM_IOCTL_MODE_RMFB : Z := 0xc00464af.
Definition DRM_IOCTL_MODE_PAGE_FLIP : Z := 0xc01864b0.
Definition DRM_IOCTL_MODE_DIRTYFB : Z := 0xc01864b1.
Definition DRM_IOCTL_MODE_CREATE_DUMB : Z := 0xc02064b2.
Definition DRM_IOCTL_MODE_MAP_DUMB : Z := 0xc01064b3.
Definition DRM_IOCTL_MODE_DESTROY_DUMB : Z := 0xc00464b4.
Definition DRM_IOCTL_MODE_GETPLANERESOURCES : Z := 0xc01064b5.
Definition DRM_IOCTL_MODE_GETPLANE : Z := 0xc02064b6.
Definition DRM_IOCTL_MODE_ADDFB2 : Z := 0xc06864b8.
Definition DRM_IOCTL_MODE_OBJ_GETPROPERTIES : Z := 0xc02064b9.
Definition DRM_IOCTL_MODE_CURSOR2 : Z := 0xc02464bb.
Definition DRM_IOCTL_MODE_LIST_LESSEES : Z := 0xc01064c7.

(** The arms of [ConfigurateRequest::new] with fixed numbers, in their order; [None] when
    none of them is taken. *)
Definition decode_fixed (request ptr : Z) : option (result ObjectError ConfigurateRequest) :=
  if request =? 0x0301 then Some (Ok (ConfigurateRequest.BlockGetGeometry ptr)) else
  if request =? 0x125e then Some (Ok (ConfigurateRequest.BlockGetReadOnly ptr)) else
  if request =? 0x1260 then Some (Ok (ConfigurateRequest.BlockGetSize ptr)) else
  if request =? 0x1261 then Some (Ok ConfigurateRequest.BlockFlushBuffers) else
  if request =? 0x1268 then Some (Ok (ConfigurateRequest.BlockGetSectorSize ptr)) else
  if (request =? 0x80081270) || (request =? 0xffffffff80081270) then Some (Ok (ConfigurateRequest.BlockGetBlockSize ptr)) else
  if request =? 0x80081272 then Some (Ok (ConfigurateRequest.BlockGetSize64 ptr)) else
  if request =? 0x1277 then Some (Ok (ConfigurateRequest.BlockDiscard ptr)) else
  if request =? 0x1278 then Some (Ok (ConfigurateRequest.BlockGetIOMinimumSize ptr)) else
  if request =? 0x1279 then Some (Ok (ConfigurateRequest.BlockGetIOOptimalSize ptr)) else
  if request =? 0x127a then Some (Ok (ConfigurateRequest.BlockGetAlignmentOffset ptr)) else
  if request =? 0x127b then Some (Ok (ConfigurateRequest.BlockGetPhysicalSectorSize ptr)) else
  if request =? 0x127c then Some (Ok (ConfigurateRequest.BlockGetDiscardZeroes ptr)) else
  if request =? 0x127f then Some (Ok (ConfigurateRequest.BlockZeroOut ptr)) else
  if (request =? 0x80046601) || (request =? 0x80086601) then Some (Ok (ConfigurateRequest.FileGetFlags ptr)) else
  if (request =? 0x40046602) || (request =? 0x40086602) then Some (Ok (ConfigurateRequest.FileSetFlags ptr)) else
  if request =? 0x80081280 then Some (Ok (ConfigurateRequest.BlockGetDiskSequence ptr)) else
  if request =? 0x80041284 then Some (Ok (ConfigurateRequest.BlockGetZoneSize ptr)) else
  if request =? 0x80041285 then Some (Ok (ConfigurateRequest.BlockGetZoneCount ptr)) else
  if request =? DRM_IOCTL_VERSION then Some (Ok (ConfigurateRequest.DrmVersion ptr)) else
  if request =? DRM_IOCTL_GET_UNIQUE then Some (Ok (ConfigurateRequest.DrmGetUnique ptr)) else
  if request =? DRM_IOCTL_GET_MAGIC then Some (Ok (ConfigurateRequest.DrmGetMagic ptr)) else
  if request =? DRM_IOCTL_GET_CAP then Some (Ok (ConfigurateRequest.DrmGetCap ptr)) else
  if request =? DRM_IOCTL_WAIT_VBLANK then Some (Ok (ConfigurateRequest.DrmWaitVblank ptr)) else
  if request =? DRM_IOCTL_SET_UNIQUE then Some (Ok (ConfigurateRequest.DrmSetUnique ptr)) else
  if request =? DRM_IOCTL_AUTH_MAGIC then Some (Ok (ConfigurateRequest.DrmAuthMagic ptr)) else
  if request =? DRM_IOCTL_SET_CLIENT_CAP then Some (Ok (ConfigurateRequest.DrmSetClientCap ptr)) else
  if request =? DRM_IOCTL_SET_MASTER then Some (Ok ConfigurateRequest.DrmSetMaster) else
  if request =? DRM_IOCTL_DROP_MASTER then Some (Ok ConfigurateRequest.DrmDropMaster) else
  if request =? DRM_IOCTL_MODE_GETRESOURCES then Some (Ok (ConfigurateRequest.DrmModeGetResources ptr)) else
  if request =? DRM_IOCTL_MODE_GETCRTC then Some (Ok (ConfigurateRequest.DrmModeGetCrtc ptr)) else
  if request =? DRM_IOCTL_MODE_SETCRTC then Some (Ok (ConfigurateRequest.DrmModeSetCrtc ptr)) else
  if request =? DRM_IOCTL_MODE_CURSOR then Some (Ok (ConfigurateRequest.DrmModeCursor ptr)) else
  if request =? DRM_IOCTL_MODE_GETGAMMA then Some (Ok (ConfigurateRequest.DrmModeGetGamma ptr)) else
  if request =? DRM_IOCTL_MODE_SETGAMMA then Some (Ok (ConfigurateRequest.DrmModeSetGamma ptr)) else
  if request =? DRM_IOCTL_MODE_GETENCODER then Some (Ok (ConfigurateRequest.DrmModeGetEncoder ptr)) else
  if request =? DRM_IOCTL_MODE_GETCONNECTOR then Some (Ok (ConfigurateRequest.DrmModeGetConnector ptr)) else
  if request =? DRM_IOCTL_MODE_GETPROPERTY then Some (Ok (ConfigurateRequest.DrmModeGetProperty ptr)) else
  if request =? DRM_IOCTL_MODE_OBJ_GETPROPERTIES then Some (Ok (ConfigurateRequest.DrmModeObjGetProperties ptr)) else
  if request =? DRM_IOCTL_MODE_GETPLANERESOURCES then Some (Ok (ConfigurateRequest.DrmModeGetPlaneResources ptr)) else
  if request =? DRM_IOCTL_MODE_GETPLANE then Some (Ok (ConfigurateRequest.DrmModeGetPlane ptr)) else
  if request =? DRM_IOCTL_MODE_LIST_LESSEES then Some (Ok (ConfigurateRequest.DrmModeListLessees ptr)) else
  if request =? DRM_IOCTL_MODE_ADDFB then Some (Ok (ConfigurateRequest.DrmModeAddFb ptr)) else
  if request =? DRM_IOCTL_MODE_ADDFB2 then Some (Ok (ConfigurateRequest.DrmModeAddFb2 ptr)) else
  if request =? DRM_IOCTL_MODE_CURSOR2 then Some (Ok (ConfigurateRequest.DrmModeCursor2 ptr)) else
  if request =? DRM_IOCTL_MODE_RMFB then Some (Ok (ConfigurateRequest.DrmModeRemoveFb ptr)) else
  if request =? DRM_IOCTL_MODE_PAGE_FLIP then Some (Ok (ConfigurateRequest.DrmModePageFlip ptr)) else
  if request =? DRM_IOCTL_MODE_DIRTYFB then Some (Ok (ConfigurateRequest.DrmModeDirtyFb ptr)) else
  if request =? DRM_IOCTL_MODE_CREATE_DUMB then Some (Ok (ConfigurateRequest.DrmModeCreateDumb ptr)) else
  if request =? DRM_IOCTL_MODE_MAP_DUMB then Some (Ok (ConfigurateRequest.DrmModeMapDumb ptr)) else
  if request =? DRM_IOCTL_MODE_DESTROY_DUMB then Some (Ok (ConfigurateRequest.DrmModeDestroyDumb ptr)) else
  if request =? DRM_IOCTL_GEM_CLOSE then Some (Ok (ConfigurateRequest.DrmGemClose ptr)) else
  if request =? DRM_IOCTL_PRIME_HANDLE_TO_FD then Some (Ok (ConfigurateRequest.DrmPrimeHandleToFd ptr)) else
  if request =? DRM_IOCTL_PRIME_FD_TO_HANDLE then Some (Ok (ConfigurateRequest.DrmPrimeFdToHandle ptr)) else
  if request =? 0x4600 then Some (Ok (ConfigurateRequest.FbGetVariableScreenInfo ptr)) else
  if request =? 0x4601 then Some (Ok (ConfigurateRequest.FbPutVariableScreenInfo ptr)) else
  if request =? 0x4602 then Some (Ok (ConfigurateRequest.FbGetFixedScreenInfo ptr)) else
  if request =? 0x4604 then Some (Ok (ConfigurateRequest.FbGetColorMap ptr)) else
  if request =? 0x4605 then Some (Ok (ConfigurateRequest.FbPutColorMap ptr)) else
  if request =? 0x4606 then Some (Ok (ConfigurateRequest.FbPanDisplay ptr)) else
  if request =? 0x4611 then Some (Ok (ConfigurateRequest.FbBlank (uwrap 32 ptr))) else
  if request =? 0x5401 then Some (Ok (ConfigurateRequest.LinuxTcGets ptr)) else
  if (0x5402 <=? request) && (request <=? 0x5404) then Some (Ok (ConfigurateRequest.LinuxTcSets ptr)) else
  if request =? 0x5405 then Some (Ok (ConfigurateRequest.LinuxTcGetA ptr)) else
  if request =? 0x540B then Some (Ok (ConfigurateRequest.LinuxTcFlush (uwrap 32 ptr))) else
  if request =? 0x540D then Some (Ok ConfigurateRequest.LinuxTiocnxcl) else
  if request =? 0x540E then Some (Ok (ConfigurateRequest.LinuxTiocsctty (uwrap 32 ptr))) else
  if request =? 0x802C542A then Some (Ok (ConfigurateRequest.LinuxTcGets2 ptr)) else
  if (0x402C542B <=? request) && (request <=? 0x402C542D) then Some (Ok (ConfigurateRequest.LinuxTcSets2 ptr)) else
  if request =? 0x540F then Some (Ok (ConfigurateRequest.LinuxTiocgPgrp ptr)) else
  if request =? 0x5422 then Some (Ok ConfigurateRequest.LinuxTiocnotty) else
  if request =? 0x5410 then Some (Ok (ConfigurateRequest.LinuxTiocspgrp ptr)) else
  if request =? 0x5411 then Some (Ok (ConfigurateRequest.LinuxTiocoutq ptr)) else
  if request =? 0x541B then Some (Ok (ConfigurateRequest.LinuxFionRead ptr)) else
  if request =? 0x5413 then Some (Ok (ConfigurateRequest.LinuxTiocgwinsz ptr)) else
  if request =? 0x5414 then Some (Ok (ConfigurateRequest.LinuxTiocswinsz ptr)) else
  if request =? 0x80045430 then Some (Ok (ConfigurateRequest.LinuxTiocgptn ptr)) else
  if request =? 0x40045431 then Some (Ok (ConfigurateRequest.LinuxTiocsptlck ptr)) else
  if request =? 0x5441 then Some (ConfigurateRequest.LinuxTiocgptpeer <$> pty_peer_open_request ptr) else
  if request =? 0x5437 then Some (Ok ConfigurateRequest.LinuxTiocvhangup) else
  if request =? 0x4B44 then Some (Ok (ConfigurateRequest.LinuxKdGetKeyboardMode ptr)) else
  if request =? 0x4B45 then Some (Ok (ConfigurateRequest.LinuxKdSetKeyboardMode (uwrap 32 ptr))) else
  if request =? 0x4B33 then Some (Ok (ConfigurateRequest.LinuxKdGetKeyboardType ptr)) else
  if request =? 0x4B46 then Some (Ok (ConfigurateRequest.LinuxKdGetKeyboardEntry ptr)) else
  if request =? 0x4B3B then Some (Ok (ConfigurateRequest.LinuxKdGetDisplayMode ptr)) else
  if request =? 0x4B3A then Some (Ok (ConfigurateRequest.LinuxKdSetDisplayMode (uwrap 32 ptr))) else
  if request =? 0x4B4E then Some (Ok (ConfigurateRequest.LinuxKdSignalAccept (uwrap 32 ptr))) else
  if request =? 0x5600 then Some (Ok (ConfigurateRequest.LinuxVtOpenQuery ptr)) else
  if request =? 0x5601 then Some (Ok (ConfigurateRequest.LinuxVtGetMode ptr)) else
  if request =? 0x5603 then Some (Ok (ConfigurateRequest.LinuxVtGetState ptr)) else
  if request =? 0x5602 then Some (Ok (ConfigurateRequest.LinuxVtSetMode ptr)) else
  if request =? 0x5606 then Some (Ok (ConfigurateRequest.LinuxVtActivate (uwrap 32 ptr))) else
  if request =? 0x5607 then Some (Ok (ConfigurateRequest.LinuxVtWaitActive (uwrap 32 ptr))) else
  if request =? 0x5605 then Some (Ok (ConfigurateRequest.LinuxVtRelDisp (uwrap 32 ptr))) else
  None.

(** The arms below the evdev guard; [None] is the arm that cannot be reached. *)
Definition decode_evdev (request ptr : Z) : option ConfigurateRequest :=
  let len := ioctl_size request in
  let nr := ioctl_nr request in
  if nr =? 0x01 then Some (ConfigurateRequest.EvdevGetVersion ptr) else
  if nr =? 0x02 then Some (ConfigurateRequest.EvdevGetId ptr) else
  if nr =? 0x03 then Some (ConfigurateRequest.EvdevGetRepeat ptr) else
  if nr =? 0x06 then Some (ConfigurateRequest.EvdevGetName ptr len) else
  if nr =? 0x07 then Some (ConfigurateRequest.EvdevGetPhys ptr len) else
  if nr =? 0x08 then Some (ConfigurateRequest.EvdevGetUniq ptr len) else
  if nr =? 0x09 then Some (ConfigurateRequest.EvdevGetProp ptr len) else
  if nr =? 0x18 then Some (ConfigurateRequest.EvdevGetKey ptr len) else
  if nr =? 0x19 then Some (ConfigurateRequest.EvdevGetLed ptr len) else
  if nr =? 0x1a then Some (ConfigurateRequest.EvdevGetSnd ptr len) else
  if nr =? 0x1b then Some (ConfigurateRequest.EvdevGetSw ptr len) else
  if (0x20 <=? nr) && (nr <=? 0x3f) then Some (ConfigurateRequest.EvdevGetBit (uwrap 8 (nr - 0x20)) ptr len) else
  if nr =? 0x90 then Some (ConfigurateRequest.EvdevGrab ptr) else
  if nr =? 0x91 then Some (ConfigurateRequest.EvdevRevoke ptr) else
  if nr =? 0xa0 then Some (ConfigurateRequest.EvdevSetClockId ptr) else
  None.

Definition decode_dma_buf (request ptr : Z) : option ConfigurateRequest :=
  let nr := ioctl_nr request in
  if nr =? 0 then Some (ConfigurateRequest.DmaBufSync ptr)
  else if nr =? 2 then Some (ConfigurateRequest.DmaBufExportSyncFile ptr)
  else if nr =? 3 then Some (ConfigurateRequest.DmaBufImportSyncFile ptr)
  else None.

(** [ConfigurateRequest::new]; [None] is [unreachable!()]. *)
Definition configurate_request_new (request ptr : Z) : option (result ObjectError ConfigurateRequest) :=
  match decode_fixed request ptr with
  | Some r => Some r
  | None =>
      match evdev_raw_ioctl_op request with
      | Some _ => Ok <$> decode_evdev request ptr
      | None =>
          match drm_prime_raw_ioctl_op request with
          | Some _ => Ok <$> decode_dma_buf request ptr
          | None => Some (Ok (ConfigurateRequest.RawIoctl request ptr))
          end
      end
  end.

(** ** Fields *)

Lemma field_bits x lo n i : 0 ≤ lo → 0 ≤ n → 0 ≤ i →
  Z.testbit (Z.land (Z.shiftr x lo) (Z.shiftl 1 n - 1)) i = Z.testbit x (i + lo) && (i <? n).
Proof.
  intros Hlo Hn Hi. rewrite Z.land_spec, Z.shiftr_spec by done. f_equal.
  rewrite Z.shiftl_1_l. replace (2 ^ n - 1) with (Z.ones n) by (rewrite Z.ones_equiv; lia). by rewrite Z.testbit_ones_nonneg.
Qed.

Lemma small_bits x n i : 0 ≤ x < 2 ^ n → 0 ≤ n → n ≤ i → Z.testbit x i = false.
Proof.
  intros Hx Hn Hi. destruct (decide (x = 0)) as [->|]; [apply Z.bits_0|].
  apply Z.bits_above_log2; [lia|]. apply Z.lt_le_trans with n; [|done]. apply Z.log2_lt_pow2; lia.
Qed.

Lemma shifted_bits x k n i : 0 ≤ x < 2 ^ n → 0 ≤ k → 0 ≤ n → k + n ≤ 64 → 0 ≤ i →
  Z.testbit (uwrap 64 (Z.shiftl x k)) i = Z.testbit x (i - k).
Proof.
  intros Hx Hk Hn Hkn Hi. rewrite uwrap_id; [by rewrite Z.shiftl_spec|].
  rewrite Z.shiftl_mul_pow2 by done. split; [nia|].
  apply Z.lt_le_trans with (2 ^ n * 2 ^ k); [apply Z.mul_lt_mono_pos_r; lia|].
  rewrite <- Z.pow_add_r by done. apply Z.pow_le_mono_r; lia.
Qed.

Section fields.
Context (dir ty nr size : Z).
Context (Hdir : 0 ≤ dir < 2 ^ 2) (Hty : 0 ≤ ty < 2 ^ 8) (Hsize : 0 ≤ size < 2 ^ 14).

Lemma request_bits i : 0 ≤ i →
  Z.testbit (ioctl_request dir ty nr size) i =
  Z.testbit nr i || Z.testbit ty (i - 8) || Z.testbit size (i - 16) || Z.testbit dir (i - 30).
Proof.
  intros Hi. unfold ioctl_request. rewrite !Z.lor_spec.
  by rewrite (shifted_bits ty _ 8), (shifted_bits size _ 14), (shifted_bits dir _ 2) by (done || (unfold IOC_DIRSHIFT, IOC_SIZESHIFT, IOC_TYPESHIFT; cbn; lia)).
Qed.

(** A field is what was put there: the other parts have no bits in it. *)
Lemma request_field lo n x : 0 ≤ lo → 0 ≤ n → 0 ≤ x < 2 ^ n →
  (∀ i, 0 ≤ i < n →
     Z.testbit nr (i + lo) || Z.testbit ty (i + lo - 8) || Z.testbit size (i + lo - 16) || Z.testbit dir (i + lo - 30)
     = Z.testbit x i) →
  Z.land (Z.shiftr (ioctl_request dir ty nr size) lo) (Z.shiftl 1 n - 1) = x.
Proof.
  intros Hlo Hn Hx Hb. apply Z.bits_inj'. intros i Hi. rewrite field_bits, request_bits by lia.
  destruct (i <? n) eqn:E; boolify.
  - rewrite andb_true_r. apply Hb. lia.
  - rewrite andb_false_r. symmetry. apply (small_bits x n); lia.
Qed.
End fields.

(** The bits of a field outside its place. *)
Ltac outside :=
  repeat match goal with
  | |- context [Z.testbit ?x ?i] =>
      first [ rewrite (Z.testbit_neg_r x i) by lia
            | match goal with H : 0 ≤ x < 2 ^ ?n |- _ => rewrite (small_bits x n i) by lia end ]
  end; rewrite ?orb_false_r; cbn; f_equal; lia.

(** The three fields the kernel reads from a request number are the ones it was built
    from, for every direction, type, number and size of their widths. *)
Lemma ioctl_fields_roundtrip dir ty nr size :
  0 ≤ dir < 2 ^ 2 → 0 ≤ ty < 2 ^ 8 → 0 ≤ nr < 2 ^ 8 → 0 ≤ size < 2 ^ 14 →
  let r := ioctl_request dir ty nr size in
  ioctl_nr r = nr ∧ ioctl_type r = ty ∧ ioctl_size r = size.
Proof.
  intros Hdir Hty Hnr Hsize r. split_and!.
  - unfold ioctl_nr, IOC_NRSHIFT, IOC_NRMASK, IOC_NRBITS. apply request_field; try lia. intros i Hi. outside.
  - transitivity (uwrap 8 ty); [|by apply uwrap_id]. unfold ioctl_type. f_equal. change IOC_TYPESHIFT with 8.
    unfold IOC_TYPEMASK, IOC_TYPEBITS. apply request_field; try lia. intros i Hi. outside.
  - unfold ioctl_size, IOC_SIZEMASK, IOC_SIZEBITS. change IOC_SIZESHIFT with 16. apply request_field; try lia. intros i Hi. outside.
Qed.

(** ** Decoding *)

Lemma fixed_type request ptr r : decode_fixed request ptr = Some r →
  ioctl_type request ≠ EVDEV_IOCTL_TYPE ∧ ioctl_type request ≠ DMABUF_IOCTL_TYPE.
Proof.
  unfold decode_fixed. intros H.
  repeat match type of H with
  | (if ?c then _ else _) = _ =>
      destruct c eqn:E;
      [ clear H;
        repeat match type of E with _ || _ = true => apply orb_true_iff in E as [E|E] end;
        first [ apply Z.eqb_eq in E; subst request; split; vm_compute; discriminate
              | boolify; match goal with H1 : ?a <= request, H2 : request <= _ |- _ =>
                  let Hc := fresh in assert (Hc : request = a ∨ request = a + 1 ∨ request = a + 2) by lia;
                  destruct Hc as [->|[->| ->]]; split; vm_compute; discriminate end ]
      | clear E ]
  end.
  discriminate.
Qed.

Lemma evdev_decodes request ptr op : evdev_raw_ioctl_op request = Some op →
  ∃ c, decode_evdev request ptr = Some c ∧ kind c = Some op.
Proof. unfold evdev_raw_ioctl_op, decode_evdev. intros H. repeat case_match; naive_solver. Qed.

Lemma dma_buf_decodes request ptr op : drm_prime_raw_ioctl_op request = Some op →
  ∃ c, decode_dma_buf request ptr = Some c ∧ kind c = Some op.
Proof. unfold drm_prime_raw_ioctl_op, decode_dma_buf. intros H. repeat case_match; naive_solver. Qed.

Lemma peer_error raw e : pty_peer_open_request raw = Err e → e = ObjectError.InvalidArguments.
Proof. unfold pty_peer_open_request, mbind, result_mbind. intros H. repeat case_match; naive_solver. Qed.

Lemma fixed_error request ptr e : decode_fixed request ptr = Some (Err e) →
  request = 0x5441 ∧ e = ObjectError.InvalidArguments.
Proof.
  unfold decode_fixed. intros H.
  repeat match type of H with
  | (if ?c then _ else _) = _ =>
      let E := fresh in destruct c eqn:E; [try discriminate H|clear E]
  end; [|discriminate H].
  boolify. split; [done|]. destruct (pty_peer_open_request ptr) eqn:Hp; [done|].
  cbn in H. injection H as <-. by eapply peer_error.
Qed.

(** Every request number is decoded: the arms the source marks as unreachable are never
    reached.  Only the request for the other side of a pseudo terminal can be refused, with
    [InvalidArguments]; a number of the evdev or dma-buf type that the kernel knows becomes
    the request of that operation, and every other number of those types is passed on as it
    is. *)
Lemma ioctl_decoded request ptr :
  ∃ r, configurate_request_new request ptr = Some r ∧
  (∀ e, r = Err e → request = 0x5441 ∧ e = ObjectError.InvalidArguments) ∧
  (∀ op, evdev_raw_ioctl_op request = Some op ∨ drm_prime_raw_ioctl_op request = Some op →
     ∃ c, r = Ok c ∧ kind c = Some op) ∧
  (ioctl_type request = EVDEV_IOCTL_TYPE ∨ ioctl_type request = DMABUF_IOCTL_TYPE →
   evdev_raw_ioctl_op request = None → drm_prime_raw_ioctl_op request = None →
   r = Ok (ConfigurateRequest.RawIoctl request ptr)).
Proof.
  assert (Htype : ∀ op, (evdev_raw_ioctl_op request = Some op → ioctl_type request = EVDEV_IOCTL_TYPE) ∧
                        (drm_prime_raw_ioctl_op request = Some op → ioctl_type request = DMABUF_IOCTL_TYPE)).
  { intros op. unfold evdev_raw_ioctl_op, drm_prime_raw_ioctl_op. split; case_match; boolify; done. }
  unfold configurate_request_new. destruct (decode_fixed request ptr) as [r|] eqn:Hf.
  { exists r. destruct (fixed_type _ _ _ Hf). split_and!; [done|..|naive_solver].
    - intros e ->. by eapply fixed_error.
    - intros op [Hop|Hop]; apply Htype in Hop; done. }
  destruct (evdev_raw_ioctl_op request) as [op|] eqn:He.
  { destruct (evdev_decodes _ ptr _ He) as (c & -> & Hk). exists (Ok c). split_and!; try done.
    intros op' [[= <-]|Hd]; [by exists c|]. apply Htype in Hd. destruct (Htype op) as [H _]. specialize (H eq_refl).
    rewrite Hd in H. done. }
  destruct (drm_prime_raw_ioctl_op request) as [op|] eqn:Hd.
  { destruct (dma_buf_decodes _ ptr _ Hd) as (c & -> & Hk). exists (Ok c). split_and!; try done.
    intros op' [?|[= <-]]; [done|by exists c]. }
  exists (Ok (ConfigurateRequest.RawIoctl request ptr)). split_and!; try done. by intros op [?|?].
Qed.

Lemma ioctl_fields_witness :
  let r := ioctl_request 2 0x45 0x20 96 in r = 0x80604520 ∧ ioctl_nr r = 0x20 ∧ ioctl_type r = 0x45 ∧ ioctl_size r = 96.
Proof. split; [vm_compute; reflexivity|]. by apply (ioctl_fields_roundtrip 2 0x45 0x20 96). Defined.
