(* ===== verification/Console.v ===== *)
(** * Keyboards and consoles

    The modes of a Linux console and the requests that read and set them
    (terminal/linux_kd.rs), the tables from keys to Linux key codes, to keyboard entries and
    to escape sequences (terminal/linux_kd.rs, keyboard/key_to_escape_sequence.rs). *)

From S2P Require Import Prelude Errors Blocking Ioctl.

Open Scope Z_scope.

(** ** Modes *)

Module KeyboardMode.
Inductive KeyboardMode : Type := Raw | Xlate | MediumRaw | Unicode | Off.
End KeyboardMode.
Abbreviation KeyboardMode := KeyboardMode.KeyboardMode.

#[export] Instance KeyboardMode_eq_dec : EqDecision KeyboardMode.
Proof. solve_decision. Defined.

Definition keyboard_mode_number (m : KeyboardMode) : Z :=
  match m with
  | KeyboardMode.Raw => 0
  | KeyboardMode.Xlate => 1
  | KeyboardMode.MediumRaw => 2
  | KeyboardMode.Unicode => 3
  | KeyboardMode.Off => 4
  end.

(** [KeyboardMode::try_from] *)
Definition keyboard_mode_try_from (v : Z) : option KeyboardMode :=
  if v =? 0 then Some KeyboardMode.Raw
  else if v =? 1 then Some KeyboardMode.Xlate
  else if v =? 2 then Some KeyboardMode.MediumRaw
  else if v =? 3 then Some KeyboardMode.Unicode
  else if v =? 4 then Some KeyboardMode.Off
  else None.

Module DisplayMode.
Inductive DisplayMode : Type := Text | Graphics | Text0 | Text1.
End DisplayMode.
Abbreviation DisplayMode := DisplayMode.DisplayMode.

#[export] Instance DisplayMode_eq_dec : EqDecision DisplayMode.
Proof. solve_decision. Defined.

Definition display_mode_number (m : DisplayMode) : Z :=
  match m with
  | DisplayMode.Text => 0
  | DisplayMode.Graphics => 1
  | DisplayMode.Text0 => 2
  | DisplayMode.Text1 => 3
  end.

Definition display_mode_try_from (v : Z) : option DisplayMode :=
  if v =? 0 then Some DisplayMode.Text
  else if v =? 1 then Some DisplayMode.Graphics
  else if v =? 2 then Some DisplayMode.Text0
  else if v =? 3 then Some DisplayMode.Text1
  else None.

(** [KeyboardType::Kb101] *)
Definition Kb101 : Z := 2.

(** ** Keyboard entries *)

Module KeyType.
Inductive KeyType : Type := Latin | Function | Special | Pad | Cursor | Shift | Letter.
End KeyType.
Abbreviation KeyType := KeyType.KeyType.

Definition key_type_number (t : KeyType) : Z :=
  match t with
  | KeyType.Latin => 0
  | KeyType.Function => 1
  | KeyType.Special => 2
  | KeyType.Pad => 3
  | KeyType.Cursor => 6
  | KeyType.Shift => 7
  | KeyType.Letter => 11
  end.

Definition k (ty : KeyType) (value : Z) : Z := Z.lor (uwrap 16 (Z.shiftl (key_type_number ty) 8)) value.

Module KeyValue.
Inductive KeyValue : Type :=
  | Enter | Break | Caps | Num | Hold | Alt | AltGr | Ctrl | CtrlL | CtrlR | Shift | ShiftL
  | ShiftR | Compose | F1 | F2 | F3 | F4 | F5 | F6 | F7 | F8 | F9 | F10 | F11 | F12 | Find | Insert
  | Remove | Select | PgUp | PgDn | Macro | Pause | PPlus | PMinus | PStar | PSlash | PEnter
  | PComma | PDot | PPlusMinus | P0 | P1 | P2 | P3 | P4 | P5 | P6 | P7 | P8 | P9 | Down | Left
  | Right | Up.
End KeyValue.
Abbreviation KeyValue := KeyValue.KeyValue.

(** [KeyValue::code] *)
Definition code (v : KeyValue) : Z :=
  match v with
  | KeyValue.Enter => k KeyType.Special 1
  | KeyValue.Break => k KeyType.Special 2
  | KeyValue.Caps => k KeyType.Special 8
  | KeyValue.Num => k KeyType.Special 9
  | KeyValue.Hold => k KeyType.Special 10
  | KeyValue.Alt => k KeyType.Special 12
  | KeyValue.AltGr => k KeyType.Special 13
  | KeyValue.Ctrl => k KeyType.Special 14
  | KeyValue.CtrlL => k KeyType.Special 15
  | KeyValue.CtrlR => k KeyType.Special 16
  | KeyValue.Shift => k KeyType.Special 17
  | KeyValue.ShiftL => k KeyType.Special 18
  | KeyValue.ShiftR => k KeyType.Special 19
  | KeyValue.Compose => k KeyType.Special 127
  | KeyValue.F1 => k KeyType.Function 0
  | KeyValue.F2 => k KeyType.Function 1
  | KeyValue.F3 => k KeyType.Function 2
  | KeyValue.F4 => k KeyType.Function 3
  | KeyValue.F5 => k KeyType.Function 4
  | KeyValue.F6 => k KeyType.Function 5
  | KeyValue.F7 => k KeyType.Function 6
  | KeyValue.F8 => k KeyType.Function 7
  | KeyValue.F9 => k KeyType.Function 8
  | KeyValue.F10 => k KeyType.Function 9
  | KeyValue.F11 => k KeyType.Function 10
  | KeyValue.F12 => k KeyType.Function 11
  | KeyValue.Find => k KeyType.Function 20
  | KeyValue.Insert => k KeyType.Function 21
  | KeyValue.Remove => k KeyType.Function 22
  | KeyValue.Select => k KeyType.Function 23
  | KeyValue.PgUp => k KeyType.Function 24
  | KeyValue.PgDn => k KeyType.Function 25
  | KeyValue.Macro => k KeyType.Function 26
  | KeyValue.Pause => k KeyType.Function 29
  | KeyValue.PPlus => k KeyType.Pad 0
  | KeyValue.PMinus => k KeyType.Pad 1
  | KeyValue.PStar => k KeyType.Pad 2
  | KeyValue.PSlash => k KeyType.Pad 3
  | KeyValue.PEnter => k KeyType.Pad 4
  | KeyValue.PComma => k KeyType.Pad 5
  | KeyValue.PDot => k KeyType.Pad 6
  | KeyValue.PPlusMinus => k KeyType.Pad 7
  | KeyValue.P0 => k KeyType.Pad 0
  | KeyValue.P1 => k KeyType.Pad 1
  | KeyValue.P2 => k KeyType.Pad 2
  | KeyValue.P3 => k KeyType.Pad 3
  | KeyValue.P4 => k KeyType.Pad 4
  | KeyValue.P5 => k KeyType.Pad 5
  | KeyValue.P6 => k KeyType.Pad 6
  | KeyValue.P7 => k KeyType.Pad 7
  | KeyValue.P8 => k KeyType.Pad 8
  | KeyValue.P9 => k KeyType.Pad 9
  | KeyValue.Down => k KeyType.Cursor 0
  | KeyValue.Left => k KeyType.Cursor 1
  | KeyValue.Right => k KeyType.Cursor 2
  | KeyValue.Up => k KeyType.Cursor 3
  end.

(** [u8::to_ascii_uppercase] *)
Definition to_ascii_uppercase (b : Z) : Z := if (97 <=? b) && (b <=? 122) then b - 32 else b.

(** A letter of a row of keys; [None] is an index past the row, which panics. *)
Definition letter_entry (shifted : bool) (row : list Z) (i : Z) : option Z :=
  (λ base, k KeyType.Letter (if shifted then to_ascii_uppercase base else base)) <$> row !! Z.to_nat i.

Definition linux_kb_entry_value (table index : Z) : option Z :=
  let shifted := (table =? 1) || (table =? 9) in
  if index =? 1 then Some (k KeyType.Special 27) else
  if index =? 2 then Some (k KeyType.Latin (if shifted then 33 else 49)) else
  if index =? 3 then Some (k KeyType.Latin (if shifted then 64 else 50)) else
  if index =? 4 then Some (k KeyType.Latin (if shifted then 35 else 51)) else
  if index =? 5 then Some (k KeyType.Latin (if shifted then 36 else 52)) else
  if index =? 6 then Some (k KeyType.Latin (if shifted then 37 else 53)) else
  if index =? 7 then Some (k KeyType.Latin (if shifted then 94 else 54)) else
  if index =? 8 then Some (k KeyType.Latin (if shifted then 38 else 55)) else
  if index =? 9 then Some (k KeyType.Latin (if shifted then 42 else 56)) else
  if index =? 10 then Some (k KeyType.Latin (if shifted then 40 else 57)) else
  if index =? 11 then Some (k KeyType.Latin (if shifted then 41 else 48)) else
  if index =? 12 then Some (k KeyType.Latin (if shifted then 95 else 45)) else
  if index =? 13 then Some (k KeyType.Latin (if shifted then 43 else 61)) else
  if index =? 14 then Some (k KeyType.Latin 127) else
  if index =? 15 then Some (k KeyType.Latin 9) else
  if (16 <=? index) && (index <=? 25) then letter_entry shifted [113; 119; 101; 114; 116; 121; 117; 105; 111; 112] (index - 16) else
  if index =? 26 then Some (k KeyType.Latin (if shifted then 123 else 91)) else
  if index =? 27 then Some (k KeyType.Latin (if shifted then 125 else 93)) else
  if index =? 28 then Some (code KeyValue.Enter) else
  if index =? 29 then Some (code KeyValue.CtrlL) else
  if (30 <=? index) && (index <=? 38) then letter_entry shifted [97; 115; 100; 102; 103; 104; 106; 107; 108] (index - 30) else
  if index =? 39 then Some (k KeyType.Latin (if shifted then 58 else 59)) else
  if index =? 40 then Some (k KeyType.Latin (if shifted then 34 else 39)) else
  if index =? 41 then Some (k KeyType.Latin (if shifted then 126 else 96)) else
  if index =? 42 then Some (code KeyValue.ShiftL) else
  if index =? 43 then Some (k KeyType.Latin (if shifted then 124 else 92)) else
  if (44 <=? index) && (index <=? 50) then letter_entry shifted [122; 120; 99; 118; 98; 110; 109] (index - 44) else
  if index =? 51 then Some (k KeyType.Latin (if shifted then 60 else 44)) else
  if index =? 52 then Some (k KeyType.Latin (if shifted then 62 else 46)) else
  if index =? 53 then Some (k KeyType.Latin (if shifted then 63 else 47)) else
  if index =? 54 then Some (code KeyValue.ShiftR) else
  if index =? 55 then Some (code KeyValue.PStar) else
  if index =? 56 then Some (code KeyValue.Alt) else
  if index =? 57 then Some (k KeyType.Latin 32) else
  if index =? 58 then Some (code KeyValue.Caps) else
  if index =? 59 then Some (code KeyValue.F1) else
  if index =? 60 then Some (code KeyValue.F2) else
  if index =? 61 then Some (code KeyValue.F3) else
  if index =? 62 then Some (code KeyValue.F4) else
  if index =? 63 then Some (code KeyValue.F5) else
  if index =? 64 then Some (code KeyValue.F6) else
  if index =? 65 then Some (code KeyValue.F7) else
  if index =? 66 then Some (code KeyValue.F8) else
  if index =? 67 then Some (code KeyValue.F9) else
  if index =? 68 then Some (code KeyValue.F10) else
  if index =? 69 then Some (code KeyValue.Num) else
  if index =? 70 then Some (code KeyValue.Hold) else
  if index =? 71 then Some (if shifted then code KeyValue.Find else code KeyValue.P7) else
  if index =? 72 then Some (if shifted then code KeyValue.Up else code KeyValue.P8) else
  if index =? 73 then Some (if shifted then code KeyValue.PgUp else code KeyValue.P9) else
  if index =? 74 then Some (code KeyValue.PMinus) else
  if index =? 75 then Some (if shifted then code KeyValue.Left else code KeyValue.P4) else
  if index =? 76 then Some (code KeyValue.P5) else
  if index =? 77 then Some (if shifted then code KeyValue.Right else code KeyValue.P6) else
  if index =? 78 then Some (code KeyValue.PPlus) else
  if index =? 79 then Some (if shifted then code KeyValue.Select else code KeyValue.P1) else
  if index =? 80 then Some (if shifted then code KeyValue.Down else code KeyValue.P2) else
  if index =? 81 then Some (if shifted then code KeyValue.PgDn else code KeyValue.P3) else
  if index =? 82 then Some (if shifted then code KeyValue.Insert else code KeyValue.P0) else
  if index =? 83 then Some (if shifted then code KeyValue.Remove else code KeyValue.PDot) else
  if index =? 87 then Some (code KeyValue.F11) else
  if index =? 88 then Some (code KeyValue.F12) else
  if index =? 96 then Some (code KeyValue.PEnter) else
  if index =? 97 then Some (code KeyValue.CtrlR) else
  if index =? 98 then Some (code KeyValue.PSlash) else
  if index =? 99 then Some (code KeyValue.Break) else
  if index =? 100 then Some (code KeyValue.AltGr) else
  if index =? 102 then Some (code KeyValue.Find) else
  if index =? 103 then Some (code KeyValue.Up) else
  if index =? 104 then Some (code KeyValue.PgUp) else
  if index =? 105 then Some (code KeyValue.Left) else
  if index =? 106 then Some (code KeyValue.Right) else
  if index =? 107 then Some (code KeyValue.Select) else
  if index =? 108 then Some (code KeyValue.Down) else
  if index =? 109 then Some (code KeyValue.PgDn) else
  if index =? 110 then Some (code KeyValue.Insert) else
  if index =? 111 then Some (code KeyValue.Remove) else
  if index =? 119 then Some (code KeyValue.Pause) else
  if index =? 125 then Some (code KeyValue.Alt) else
  if index =? 126 then Some (code KeyValue.AltGr) else
  if index =? 127 then Some (code KeyValue.Macro) else
  None.

(** ** Keys *)

(** The keys of the decoder, as [to_escape_sequence] lists them. *)
Module KeyCode.
Inductive KeyCode : Type :=
  | Escape | F1 | F2 | F3 | F4 | F5 | F6 | F7 | F8 | F9 | F10 | F11 | F12 | PrintScreen | SysRq
  | ScrollLock | PauseBreak | Oem8 | Key1 | Key2 | Key3 | Key4 | Key5 | Key6 | Key7 | Key8 | Key9
  | Key0 | OemMinus | OemPlus | Backspace | Insert | Home | PageUp | NumpadLock | NumpadDivide
  | NumpadMultiply | NumpadSubtract | Tab | Q | W | E | R | T | Y | U | I | O | P | Oem4 | Oem6
  | Oem5 | Oem7 | Delete | End | PageDown | Numpad7 | Numpad8 | Numpad9 | NumpadAdd | CapsLock | A
  | S | D | F | G | H | J | K | L | Oem1 | Oem3 | Return | Numpad4 | Numpad5 | Numpad6 | LShift | Z
  | X | C | V | B | N | M | OemComma | OemPeriod | Oem2 | RShift | ArrowUp | Numpad1 | Numpad2
  | Numpad3 | NumpadEnter | LControl | LWin | LAlt | Spacebar | RAltGr | RWin | Apps | RControl
  | ArrowLeft | ArrowDown | ArrowRight | Numpad0 | NumpadPeriod | Oem9 | Oem10 | Oem11 | Oem12
  | Oem13 | PrevTrack | NextTrack | Mute | Calculator | Play | Stop | VolumeDown | VolumeUp
  | WWWHome | PowerOnTestOk | TooManyKeys | Unknown | RControl2 | RAlt2.
End KeyCode.
Abbreviation KeyCode := KeyCode.KeyCode.

Definition linux_keycode_from_keycode (key : KeyCode) : option Z :=
  match key with
  | KeyCode.Escape => Some 1
  | KeyCode.F1 => Some 59
  | KeyCode.F2 => Some 60
  | KeyCode.F3 => Some 61
  | KeyCode.F4 => Some 62
  | KeyCode.F5 => Some 63
  | KeyCode.F6 => Some 64
  | KeyCode.F7 => Some 65
  | KeyCode.F8 => Some 66
  | KeyCode.F9 => Some 67
  | KeyCode.F10 => Some 68
  | KeyCode.F11 => Some 87
  | KeyCode.F12 => Some 88
  | KeyCode.PrintScreen => Some 99
  | KeyCode.SysRq => Some 99
  | KeyCode.ScrollLock => Some 70
  | KeyCode.PauseBreak => Some 119
  | KeyCode.Oem8 => Some 41
  | KeyCode.Key1 => Some 2
  | KeyCode.Key2 => Some 3
  | KeyCode.Key3 => Some 4
  | KeyCode.Key4 => Some 5
  | KeyCode.Key5 => Some 6
  | KeyCode.Key6 => Some 7
  | KeyCode.Key7 => Some 8
  | KeyCode.Key8 => Some 9
  | KeyCode.Key9 => Some 10
  | KeyCode.Key0 => Some 11
  | KeyCode.OemMinus => Some 12
  | KeyCode.OemPlus => Some 13
  | KeyCode.Backspace => Some 14
  | KeyCode.Insert => Some 110
  | KeyCode.Home => Some 102
  | KeyCode.PageUp => Some 104
  | KeyCode.NumpadLock => Some 69
  | KeyCode.NumpadDivide => Some 98
  | KeyCode.NumpadMultiply => Some 55
  | KeyCode.NumpadSubtract => Some 74
  | KeyCode.Tab => Some 15
  | KeyCode.Q => Some 16
  | KeyCode.W => Some 17
  | KeyCode.E => Some 18
  | KeyCode.R => Some 19
  | KeyCode.T => Some 20
  | KeyCode.Y => Some 21
  | KeyCode.U => Some 22
  | KeyCode.I => Some 23
  | KeyCode.O => Some 24
  | KeyCode.P => Some 25
  | KeyCode.Oem4 => Some 26
  | KeyCode.Oem6 => Some 27
  | KeyCode.Oem5 => Some 43
  | KeyCode.Oem7 => Some 86
  | KeyCode.Delete => Some 111
  | KeyCode.End => Some 107
  | KeyCode.PageDown => Some 109
  | KeyCode.Numpad7 => Some 71
  | KeyCode.Numpad8 => Some 72
  | KeyCode.Numpad9 => Some 73
  | KeyCode.NumpadAdd => Some 78
  | KeyCode.CapsLock => Some 58
  | KeyCode.A => Some 30
  | KeyCode.S => Some 31
  | KeyCode.D => Some 32
  | KeyCode.F => Some 33
  | KeyCode.G => Some 34
  | KeyCode.H => Some 35
  | KeyCode.J => Some 36
  | KeyCode.K => Some 37
  | KeyCode.L => Some 38
  | KeyCode.Oem1 => Some 39
  | KeyCode.Oem3 => Some 40
  | KeyCode.Return => Some 28
  | KeyCode.Numpad4 => Some 75
  | KeyCode.Numpad5 => Some 76
  | KeyCode.Numpad6 => Some 77
  | KeyCode.LShift => Some 42
  | KeyCode.Z => Some 44
  | KeyCode.X => Some 45
  | KeyCode.C => Some 46
  | KeyCode.V => Some 47
  | KeyCode.B => Some 48
  | KeyCode.N => Some 49
  | KeyCode.M => Some 50
  | KeyCode.OemComma => Some 51
  | KeyCode.OemPeriod => Some 52
  | KeyCode.Oem2 => Some 53
  | KeyCode.RShift => Some 54
  | KeyCode.ArrowUp => Some 103
  | KeyCode.Numpad1 => Some 79
  | KeyCode.Numpad2 => Some 80
  | KeyCode.Numpad3 => Some 81
  | KeyCode.NumpadEnter => Some 96
  | KeyCode.LControl => Some 29
  | KeyCode.LWin => Some 125
  | KeyCode.LAlt => Some 56
  | KeyCode.Spacebar => Some 57
  | KeyCode.RAltGr => Some 100
  | KeyCode.RWin => Some 126
  | KeyCode.Apps => Some 127
  | KeyCode.RControl => Some 97
  | KeyCode.ArrowLeft => Some 105
  | KeyCode.ArrowDown => Some 108
  | KeyCode.ArrowRight => Some 106
  | KeyCode.Numpad0 => Some 82
  | KeyCode.NumpadPeriod => Some 83
  | KeyCode.RControl2 => Some 97
  | KeyCode.RAlt2 => Some 100
  | _ => None
  end.

Definition to_escape_sequence (key : KeyCode) : list Z :=
  match key with
  | KeyCode.Escape => [27]
  | KeyCode.F1 => [27; 79; 80]
  | KeyCode.F2 => [27; 79; 81]
  | KeyCode.F3 => [27; 79; 82]
  | KeyCode.F4 => [27; 79; 83]
  | KeyCode.F5 => [27; 91; 49; 53; 126]
  | KeyCode.F6 => [27; 91; 49; 55; 126]
  | KeyCode.F7 => [27; 91; 49; 56; 126]
  | KeyCode.F8 => [27; 91; 49; 57; 126]
  | KeyCode.F9 => [27; 91; 50; 48; 126]
  | KeyCode.F10 => [27; 91; 50; 49; 126]
  | KeyCode.F11 => [27; 91; 50; 51; 126]
  | KeyCode.F12 => [27; 91; 50; 52; 126]
  | KeyCode.Backspace => [127]
  | KeyCode.Insert => [27; 91; 50; 126]
  | KeyCode.Home => [27; 91; 72]
  | KeyCode.PageUp => [27; 91; 53; 126]
  | KeyCode.NumpadDivide => [47]
  | KeyCode.NumpadMultiply => [42]
  | KeyCode.NumpadSubtract => [45]
  | KeyCode.Tab => [9]
  | KeyCode.Delete => [27; 91; 51; 126]
  | KeyCode.End => [27; 91; 70]
  | KeyCode.PageDown => [27; 91; 54; 126]
  | KeyCode.Numpad7 => [55]
  | KeyCode.Numpad8 => [56]
  | KeyCode.Numpad9 => [57]
  | KeyCode.NumpadAdd => [43]
  | KeyCode.Return => [10]
  | KeyCode.Numpad4 => [52]
  | KeyCode.Numpad5 => [53]
  | KeyCode.Numpad6 => [54]
  | KeyCode.ArrowUp => [27; 91; 65]
  | KeyCode.Numpad1 => [49]
  | KeyCode.Numpad2 => [50]
  | KeyCode.Numpad3 => [51]
  | KeyCode.NumpadEnter => [10]
  | KeyCode.Spacebar => [32]
  | KeyCode.ArrowLeft => [27; 91; 68]
  | KeyCode.ArrowDown => [27; 91; 66]
  | KeyCode.ArrowRight => [27; 91; 67]
  | KeyCode.Numpad0 => [48]
  | KeyCode.NumpadPeriod => [46]
  | KeyCode.PrintScreen | KeyCode.SysRq | KeyCode.ScrollLock | KeyCode.PauseBreak | KeyCode.Oem8
  | KeyCode.Key1 | KeyCode.Key2 | KeyCode.Key3 | KeyCode.Key4 | KeyCode.Key5 | KeyCode.Key6
  | KeyCode.Key7 | KeyCode.Key8 | KeyCode.Key9 | KeyCode.Key0 | KeyCode.OemMinus | KeyCode.OemPlus
  | KeyCode.NumpadLock | KeyCode.Q | KeyCode.W | KeyCode.E | KeyCode.R | KeyCode.T | KeyCode.Y
  | KeyCode.U | KeyCode.I | KeyCode.O | KeyCode.P | KeyCode.Oem4 | KeyCode.Oem6 | KeyCode.Oem5
  | KeyCode.Oem7 | KeyCode.CapsLock | KeyCode.A | KeyCode.S | KeyCode.D | KeyCode.F | KeyCode.G
  | KeyCode.H | KeyCode.J | KeyCode.K | KeyCode.L | KeyCode.Oem1 | KeyCode.Oem3 | KeyCode.LShift
  | KeyCode.Z | KeyCode.X | KeyCode.C | KeyCode.V | KeyCode.B | KeyCode.N | KeyCode.M
  | KeyCode.OemComma | KeyCode.OemPeriod | KeyCode.Oem2 | KeyCode.RShift | KeyCode.LControl
  | KeyCode.LWin | KeyCode.LAlt | KeyCode.RAltGr | KeyCode.RWin | KeyCode.Apps | KeyCode.RControl
  | KeyCode.Oem9 | KeyCode.Oem10 | KeyCode.Oem11 | KeyCode.Oem12 | KeyCode.Oem13
  | KeyCode.PrevTrack | KeyCode.NextTrack | KeyCode.Mute | KeyCode.Calculator | KeyCode.Play
  | KeyCode.Stop | KeyCode.VolumeDown | KeyCode.VolumeUp | KeyCode.WWWHome | KeyCode.PowerOnTestOk
  | KeyCode.TooManyKeys | KeyCode.Unknown | KeyCode.RControl2 | KeyCode.RAlt2 => []
  end.

(** ** The console of a terminal *)

Record LinuxVtMode := mkVtMode { vt_mode_mode : Z; waitv : Z; relsig : Z; acqsig : Z; frsig : Z }.

Record LinuxKbEntry := mkKbEntry { kb_table : Z; kb_index : Z; kb_value : Z }.

Record LinuxVtStat := mkVtStat { v_active : Z; v_signal : Z; v_state : Z }.

Record LinuxConsoleState := mkConsole {
  keyboard_mode : KeyboardMode;
  display_mode : DisplayMode;
  kbrequest_signal : Z;
  vt_mode : LinuxVtMode;
}.

Definition console_default : LinuxConsoleState :=
  mkConsole KeyboardMode.Unicode DisplayMode.Text 0 (mkVtMode 0 0 0 0 0).

Definition with_keyboard_mode (c : LinuxConsoleState) (m : KeyboardMode) : LinuxConsoleState :=
  mkConsole m c.(display_mode) c.(kbrequest_signal) c.(vt_mode).
Definition with_display_mode (c : LinuxConsoleState) (m : DisplayMode) : LinuxConsoleState :=
  mkConsole c.(keyboard_mode) m c.(kbrequest_signal) c.(vt_mode).
Definition with_kbrequest_signal (c : LinuxConsoleState) (s : Z) : LinuxConsoleState :=
  mkConsole c.(keyboard_mode) c.(display_mode) s c.(vt_mode).
Definition with_vt_mode (c : LinuxConsoleState) (m : LinuxVtMode) : LinuxConsoleState :=
  mkConsole c.(keyboard_mode) c.(display_mode) c.(kbrequest_signal) m.

(** [map_err(|_| ObjectError::BadAddress)] after a read or a write of user memory. *)
Definition bad_address {A} (r : result SyscallError A) : result ObjectError A := map_err (λ _, ObjectError.BadAddress) r.

(** ** Requests (terminal/linux_kd.rs) *)

Section kd.
Context {M : Type} `{um_int : UserMemory M Z} `{um_byte : UserMemory M Byte.byte} `{um_entry : UserMemory M LinuxKbEntry}.

(** [Ok None]: not a request of the keyboard or the display. *)
Definition handle_kd_request (c : LinuxConsoleState) (request : ConfigurateRequest) (m : M)
  : result ObjectError (option Z) * (LinuxConsoleState * M) :=
  match request with
  | ConfigurateRequest.LinuxKdGetKeyboardMode ptr =>
      let '(r, m) := user_write m ptr (keyboard_mode_number c.(keyboard_mode)) in
      ((λ _, Some 0) <$> bad_address r, (c, m))
  | ConfigurateRequest.LinuxKdSetKeyboardMode mode =>
      match keyboard_mode_try_from mode with
      | None => (Err ObjectError.InvalidArguments, (c, m))
      | Some mode => (Ok (Some 0), (with_keyboard_mode c mode, m))
      end
  | ConfigurateRequest.LinuxKdGetKeyboardType ptr =>
      let '(r, m) := user_write m ptr (Z_to_byte Kb101) in
      ((λ _, Some 0) <$> bad_address r, (c, m))
  | ConfigurateRequest.LinuxKdGetKeyboardEntry ptr =>
      let '(r, m) := user_read m ptr in
      try entry := bad_address r with (c, m) in
      let entry := mkKbEntry entry.(kb_table) entry.(kb_index)
                     (default 0 (linux_kb_entry_value entry.(kb_table) entry.(kb_index))) in
      let '(r, m) := user_write m ptr entry in
      ((λ _, Some 0) <$> bad_address r, (c, m))
  | ConfigurateRequest.LinuxKdGetDisplayMode ptr =>
      let '(r, m) := user_write m ptr (display_mode_number c.(display_mode)) in
      ((λ _, Some 0) <$> bad_address r, (c, m))
  | ConfigurateRequest.LinuxKdSetDisplayMode mode =>
      match display_mode_try_from mode with
      | None => (Err ObjectError.InvalidArguments, (c, m))
      | Some mode => (Ok (Some 0), (with_display_mode c mode, m))
      end
  | ConfigurateRequest.LinuxKdSignalAccept signal => (Ok (Some 0), (with_kbrequest_signal c signal, m))
  | _ => (Ok None, (c, m))
  end.
End kd.
