(* ===== verification/LineDiscipline.v ===== *)
(** * Line discipline

    The settings of a terminal (terminal/termios.rs, the records of object/config.rs), the
    line discipline that turns typed bytes into input, echo and interrupts, the
    post-processing of output (terminal/line_discipline.rs), and the byte queues of
    object/queue_helpers.rs.

    The callbacks of the source are actions in the order of their calls.  A byte is a [Z]
    from 0 to 255. *)

From S2P Require Import Prelude Polling.

Open Scope Z_scope.

(** ** Settings *)

Definition VINTR_INDEX : nat := 0.
Definition VQUIT_INDEX : nat := 1.
Definition VERASE_INDEX : nat := 2.
Definition VKILL_INDEX : nat := 3.
Definition VEOF_INDEX : nat := 4.
Definition VTIME_INDEX : nat := 5.
Definition VMIN_INDEX : nat := 6.
Definition VSTART_INDEX : nat := 8.
Definition VSTOP_INDEX : nat := 9.
Definition VSUSP_INDEX : nat := 10.

Definition ICRNL : Z := 0x100.

Definition ISIG : Z := 0x1.
Definition ICANON : Z := 0x2.
Definition ECHO : Z := 0x8.
Definition ECHOE : Z := 0x10.
Definition ECHONL : Z := 0x40.

Definition OPOST : Z := 0x1.
Definition ONLCR : Z := 0x4.

Definition CREAD : Z := 0x80.
Definition CS8 : Z := 0x30.

Record LinuxTermios2 := mkTermios2 {
  c_iflag : Z;
  c_oflag : Z;
  c_cflag : Z;
  c_lflag : Z;
  c_line : Z;
  c_cc : list Z;
  c_ispeed : Z;
  c_ospeed : Z;
}.

Record LinuxTermios := mkTermios {
  t_iflag : Z;
  t_oflag : Z;
  t_cflag : Z;
  t_lflag : Z;
  t_line : Z;
  t_cc : list Z;
}.

Record LinuxTermio := mkTermio {
  o_iflag : Z;
  o_oflag : Z;
  o_cflag : Z;
  o_lflag : Z;
  o_line : Z;
  o_cc : list Z;
}.

(** [LinuxTermios2::new_default] *)
Definition termios_default : LinuxTermios2 :=
  mkTermios2 ICRNL (Z.lor OPOST ONLCR) (Z.lor CREAD CS8) (Z.lor ISIG (Z.lor ICANON (Z.lor ECHO (Z.lor ECHOE ECHONL)))) 0
    (<[VINTR_INDEX := 3]> (<[VQUIT_INDEX := 28]> (<[VERASE_INDEX := 127]> (<[VKILL_INDEX := 21]> (<[VEOF_INDEX := 4]>
     (<[VTIME_INDEX := 0]> (<[VMIN_INDEX := 1]> (<[VSTART_INDEX := 17]> (<[VSTOP_INDEX := 19]> (<[VSUSP_INDEX := 26]>
       (replicate 19 0)))))))))))
    38400 38400.

Definition as_linux_termios (t : LinuxTermios2) : LinuxTermios :=
  mkTermios t.(c_iflag) t.(c_oflag) t.(c_cflag) t.(c_lflag) t.(c_line) t.(c_cc).

Definition as_linux_termio (t : LinuxTermios2) : LinuxTermio :=
  mkTermio (uwrap 16 t.(c_iflag)) (uwrap 16 t.(c_oflag)) (uwrap 16 t.(c_cflag)) (uwrap 16 t.(c_lflag)) t.(c_line)
    (take 8 t.(c_cc)).

Definition apply_linux_termios (t : LinuxTermios2) (new : LinuxTermios) : LinuxTermios2 :=
  mkTermios2 new.(t_iflag) new.(t_oflag) new.(t_cflag) new.(t_lflag) new.(t_line) new.(t_cc) t.(c_ispeed) t.(c_ospeed).

Definition apply_linux_termios2 (t new : LinuxTermios2) : LinuxTermios2 := new.

Definition is_canonical (t : LinuxTermios2) : bool := flag_set t.(c_lflag) ICANON.
Definition should_echo (t : LinuxTermios2) : bool := flag_set t.(c_lflag) ECHO.
Definition should_echo_newline (t : LinuxTermios2) : bool := flag_set t.(c_lflag) ECHO || flag_set t.(c_lflag) ECHONL.
Definition should_echo_erase (t : LinuxTermios2) : bool := flag_set t.(c_lflag) ECHO && flag_set t.(c_lflag) ECHOE.
Definition should_signal_on_special_chars (t : LinuxTermios2) : bool := flag_set t.(c_lflag) ISIG.
Definition map_input_cr_to_nl (t : LinuxTermios2) : bool := flag_set t.(c_iflag) ICRNL.
Definition map_output_newline_to_crlf (t : LinuxTermios2) : bool :=
  flag_set t.(c_oflag) OPOST && flag_set t.(c_oflag) ONLCR.

(** The array has 19 entries, so the index is in range. *)
Definition interrupt_char (t : LinuxTermios2) : Z := default 0 (t.(c_cc) !! VINTR_INDEX).
Definition erase_char (t : LinuxTermios2) : Z := default 0 (t.(c_cc) !! VERASE_INDEX).
Definition eof_char (t : LinuxTermios2) : Z := default 0 (t.(c_cc) !! VEOF_INDEX).

Record LinuxWinsize := mkWinsize { ws_row : Z; ws_col : Z; ws_xpixel : Z; ws_ypixel : Z }.

Definition U16_MAX : Z := 65535.

(** [u16::try_from(..).unwrap_or(u16::MAX)] of a [u64] *)
Definition from_rows_cols (rows cols : Z) : LinuxWinsize :=
  mkWinsize (if rows <=? U16_MAX then rows else U16_MAX) (if cols <=? U16_MAX then cols else U16_MAX) 0 0.

Definition default_terminal_size : LinuxWinsize := from_rows_cols 25 80.

(** TIOCSWINSZ: a size of zero leaves the old one. *)
Definition apply_winsize (old new : LinuxWinsize) : LinuxWinsize :=
  mkWinsize (if new.(ws_row) =? 0 then old.(ws_row) else new.(ws_row))
    (if new.(ws_col) =? 0 then old.(ws_col) else new.(ws_col)) old.(ws_xpixel) old.(ws_ypixel).

(** ** Input *)

Definition CR : Z := 13.
Definition LF : Z := 10.
Definition BS : Z := 8.
Definition SPACE : Z := 32.

(** The calls of the three callbacks. *)
Module Action.
Inductive Action : Type :=
  | QueueByte (byte : Z)
  | EchoBytes (bytes : list Z)
  | Interrupt.
End Action.
Abbreviation Action := Action.Action.

(** [line_buffer.pop_back()] *)
Definition pop_back (l : list Z) : option Z * list Z := (last l, take (length l - 1) l).

(** The line buffer after the byte, and the actions. *)
Definition process_input_byte (t : LinuxTermios2) (line_buffer : list Z) (byte : Z) : list Z * list Action :=
  let byte := if (byte =? CR) && map_input_cr_to_nl t then LF else byte in
  if should_signal_on_special_chars t && (byte =? interrupt_char t) then (line_buffer, [Action.Interrupt])
  else if negb (is_canonical t) then
    (line_buffer, (if should_echo t then [Action.EchoBytes [byte]] else []) ++ [Action.QueueByte byte])
  else if byte =? eof_char t then ([], map Action.QueueByte line_buffer)
  else if byte =? LF then
    ([], (if should_echo_newline t then [Action.EchoBytes [LF]] else []) ++ map Action.QueueByte (line_buffer ++ [LF]))
  else if (byte =? erase_char t) || (byte =? BS) then
    let '(removed, line_buffer) := pop_back line_buffer in
    (line_buffer,
     match removed with
     | Some _ => if should_echo_erase t then [Action.EchoBytes [BS; SPACE; BS]] else []
     | None => []
     end)
  else (line_buffer ++ [byte], if should_echo t then [Action.EchoBytes [byte]] else []).

(** ** Output *)

Fixpoint process_output_loop (t : LinuxTermios2) (prev_was_cr : bool) (buffer : list Z) : list Z :=
  match buffer with
  | [] => []
  | byte :: buffer =>
      (if (byte =? LF) && negb prev_was_cr && map_output_newline_to_crlf t then [CR] else [])
      ++ byte :: process_output_loop t (byte =? CR) buffer
  end.

Definition process_output_bytes (t : LinuxTermios2) (buffer : list Z) : list Z := process_output_loop t false buffer.

(** ** Queues (object/queue_helpers.rs) *)

(** What is copied into a buffer of [len] bytes, and what is left. *)
Definition copy_from_queue (queue : list Z) (len : Z) : list Z * list Z :=
  (take (Z.to_nat len) queue, drop (Z.to_nat len) queue).

Definition push_to_queue (queue buffer : list Z) : list Z := queue ++ buffer.

(** ** What the actions of a byte amount to *)

Definition queued (acts : list Action) : list Z :=
  omap (λ a, match a with Action.QueueByte b => Some b | _ => None end) acts.

Definition echoed (acts : list Action) : list (list Z) :=
  omap (λ a, match a with Action.EchoBytes bs => Some bs | _ => None end) acts.

Definition wants_interrupt (acts : list Action) : bool :=
  existsb (λ a, match a with Action.Interrupt => true | _ => false end) acts.

(** A byte typed at a terminal whose owner empties the line at an interrupt, as pty and tty
    do: the line buffer, the bytes that can be read and the echo. *)
Definition type_byte (t : LinuxTermios2) (s : list Z * list Z * list Z) (byte : Z) : list Z * list Z * list Z :=
  let '(line, input, echo) := s in
  let '(line, acts) := process_input_byte t line byte in
  (if wants_interrupt acts then [] else line, input ++ queued acts,
   echo ++ concat (map (process_output_bytes t) (echoed acts))).

(** ** Reference: a line and how it is edited *)

Module LineEnd.
Inductive LineEnd : Type := ByNewline | ByEof | ByInterrupt.
End LineEnd.
Abbreviation LineEnd := LineEnd.LineEnd.

(** What a typed byte means in canonical mode. *)
Inductive Key : Type :=
  | KEnd (e : LineEnd)
  | KErase
  | KChar (b : Z).

Definition key_of (t : LinuxTermios2) (byte : Z) : Key :=
  let byte := if (byte =? CR) && map_input_cr_to_nl t then LF else byte in
  if should_signal_on_special_chars t && (byte =? interrupt_char t) then KEnd LineEnd.ByInterrupt
  else if byte =? eof_char t then KEnd LineEnd.ByEof
  else if byte =? LF then KEnd LineEnd.ByNewline
  else if (byte =? erase_char t) || (byte =? BS) then KErase
  else KChar byte.

(** Read from the right, an erase removes the nearest character to its left that no other
    erase removes: the characters that stay, and the erases that found none. *)
Fixpoint survivors (keys : list Key) : nat * list Z :=
  match keys with
  | [] => (O, [])
  | key :: keys =>
      let '(n, out) := survivors keys in
      match key, n with
      | KErase, _ => (S n, out)
      | KChar b, O => (O, b :: out)
      | KChar _, S n => (n, out)
      | KEnd _, _ => (n, out)
      end
  end.

(** A line that begins with [line], after some more keys. *)
Definition edited (line : list Z) (keys : list Key) : list Z :=
  let '(n, out) := survivors keys in take (length line - n) line ++ out.

(** The finished lines, and the one that is not. *)
Fixpoint split_lines (keys : list Key) : list (list Key * LineEnd) * list Key :=
  match keys with
  | [] => ([], [])
  | KEnd e :: keys => let '(ls, rest) := split_lines keys in (([], e) :: ls, rest)
  | key :: keys =>
      let '(ls, rest) := split_lines keys in
      match ls with
      | [] => ([], key :: rest)
      | (l, e) :: ls => ((key :: l, e) :: ls, rest)
      end
  end.

Definition delivered (line : list Z) (l : list Key * LineEnd) : list Z :=
  match l.2 with
  | LineEnd.ByNewline => edited line l.1 ++ [LF]
  | LineEnd.ByEof => edited line l.1
  | LineEnd.ByInterrupt => []
  end.

(** The line left in the buffer and the input, for keys typed after [line]. *)
Definition typed (line : list Z) (keys : list Key) : list Z * list Z :=
  match split_lines keys with
  | ([], rest) => (edited line rest, [])
  | (l :: ls, rest) => (edited [] rest, delivered line l ++ concat (map (delivered []) ls))
  end.

(** ** Lemmas *)

Lemma pop_back_snoc l x : pop_back (l ++ [x]) = (Some x, l).
Proof.
  unfold pop_back. rewrite last_snoc, length_app. cbn. f_equal.
  replace (length l + 1 - 1)%nat with (length l) by lia. by rewrite take_app_length.
Qed.

Lemma pop_back_rest l : (pop_back l).2 = take (length l - 1) l.
Proof. done. Qed.

Lemma queued_map l : queued (map Action.QueueByte l) = l.
Proof. induction l; cbn; f_equal; done. Qed.

Lemma queued_app a b : queued (a ++ b) = queued a ++ queued b.
Proof. apply omap_app. Qed.

Lemma echoed_app a b : echoed (a ++ b) = echoed a ++ echoed b.
Proof. apply omap_app. Qed.

Lemma queued_echo (c : bool) bs : queued (if c then [Action.EchoBytes bs] else []) = [].
Proof. by destruct c. Qed.

Lemma echoed_echo (c : bool) bs : echoed (if c then [Action.EchoBytes bs] else []) = if c then [bs] else [].
Proof. by destruct c. Qed.

Lemma echoed_map l : echoed (map Action.QueueByte l) = [].
Proof. by induction l. Qed.

Lemma interrupt_echo_queue (c : bool) bs l :
  wants_interrupt ((if c then [Action.EchoBytes bs] else []) ++ map Action.QueueByte l) = false.
Proof. destruct c; cbn; induction l; done. Qed.

Lemma interrupt_queue l : wants_interrupt (map Action.QueueByte l) = false.
Proof. by induction l. Qed.

(** What one byte does to the line and the input, by the key it is. *)
Lemma canonical_byte t line byte : is_canonical t = true →
  let '(line', acts) := process_input_byte t line byte in
  let line'' := if wants_interrupt acts then [] else line' in
  match key_of t byte with
  | KEnd e => line'' = [] ∧ queued acts = delivered line ([], e)
  | KErase => line'' = take (length line - 1) line ∧ queued acts = []
  | KChar b => line'' = line ++ [b] ∧ queued acts = []
  end.
Proof.
  intros Hc. unfold process_input_byte, key_of. rewrite Hc. cbn [negb].
  set (b := if (byte =? CR) && map_input_cr_to_nl t then LF else byte). clearbody b.
  assert (He : edited line [] = line).
  { unfold edited. cbn. rewrite Nat.sub_0_r, app_nil_r. apply take_ge. lia. }
  destruct (should_signal_on_special_chars t && (b =? interrupt_char t)); [done|].
  destruct (b =? eof_char t); [by rewrite interrupt_queue, queued_map; unfold delivered; cbn [fst snd]; rewrite He|].
  destruct (b =? LF).
  { rewrite interrupt_echo_queue, queued_app, queued_echo, queued_map. unfold delivered. cbn [fst snd]. by rewrite He. }
  destruct ((b =? erase_char t) || (b =? BS)).
  { destruct (pop_back line) as [r line'] eqn:Hp. pose proof (pop_back_rest line) as Hr. rewrite Hp in Hr. cbn in Hr. subst.
    by destruct r, (should_echo_erase t). }
  by destruct (should_echo t).
Qed.

Lemma edited_char line b keys : edited line (KChar b :: keys) = edited (line ++ [b]) keys.
Proof.
  unfold edited. cbn. destruct (survivors keys) as [[|n] out].
  - rewrite length_app, !Nat.sub_0_r, take_ge, (take_ge (line ++ [b])) by (rewrite ?length_app; cbn; lia).
    by rewrite <- app_assoc.
  - rewrite length_app, take_app_le by (cbn; lia). do 2 f_equal. cbn. lia.
Qed.

Lemma edited_erase line keys : edited line (KErase :: keys) = edited (take (length line - 1) line) keys.
Proof.
  unfold edited. cbn. destruct (survivors keys) as [n out]. rewrite take_take, length_take. do 2 f_equal. lia.
Qed.

Lemma typed_cons line key keys :
  typed line (key :: keys) =
  match key with
  | KEnd e => let '(rest, input) := typed [] keys in (rest, delivered line ([], e) ++ input)
  | KErase => typed (take (length line - 1) line) keys
  | KChar b => typed (line ++ [b]) keys
  end.
Proof.
  unfold typed. destruct key as [e| |b]; cbn; destruct (split_lines keys) as [[|[l e'] ls] rest]; try done;
    unfold delivered; cbn [fst snd]; by rewrite ?edited_char, ?edited_erase.
Qed.

Lemma type_bytes_typed t bytes line input echo : is_canonical t = true →
  let '(line', input', _) := foldl (type_byte t) (line, input, echo) bytes in
  (line', input') = ((typed line (map (key_of t) bytes)).1, input ++ (typed line (map (key_of t) bytes)).2).
Proof.
  intros Hc. revert line input echo. induction bytes as [|b bytes IH]; intros line input echo; cbn [foldl map].
  { unfold typed. cbn. unfold edited. cbn. by rewrite Nat.sub_0_r, take_ge, !app_nil_r by lia. }
  rewrite typed_cons. unfold type_byte at 2. pose proof (canonical_byte t line b Hc) as Hb.
  destruct (process_input_byte t line b) as [line' acts].
  specialize (IH (if wants_interrupt acts then [] else line') (input ++ queued acts)
                (echo ++ concat (map (process_output_bytes t) (echoed acts)))).
  destruct (foldl _ _ _) as [[line2 input2] echo2]. rewrite IH.
  destruct (key_of t b); destruct Hb as [-> ->]; rewrite ?app_nil_r; [|done..].
  destruct (typed [] _). cbn. by rewrite app_assoc.
Qed.

(** Without ICANON every byte is input at once, but for the interrupt character. *)
Definition raw_input (t : LinuxTermios2) (bytes : list Z) : list Z :=
  filter (λ b, should_signal_on_special_chars t && (b =? interrupt_char t) = false)
    (map (λ b, if (b =? CR) && map_input_cr_to_nl t then LF else b) bytes).

Lemma type_bytes_raw t bytes line input echo : is_canonical t = false →
  (foldl (type_byte t) (line, input, echo) bytes).1.2 = input ++ raw_input t bytes.
Proof.
  intros Hc. unfold raw_input. revert line input echo. induction bytes as [|b bytes IH]; intros line input echo; cbn [foldl map].
  { by rewrite app_nil_r. }
  unfold type_byte at 2, process_input_byte. rewrite Hc. cbn [negb]. rewrite filter_cons.
  destruct (should_signal_on_special_chars t && _) eqn:Hs; rewrite IH.
  - rewrite decide_False by done. cbn. by rewrite app_nil_r.
  - rewrite decide_True by done. destruct (should_echo t); cbn; by rewrite <- app_assoc.
Qed.

(** In canonical mode the byte-by-byte line discipline is the line editor of the
    reference: the typed keys fall into lines; in a line each erase removes the nearest
    character before it that is left, at most to the start of the line; a line that ends
    with a newline or the end-of-file character becomes input, one that is interrupted does
    not; and what follows the last end stays in the buffer.  Without canonical mode every
    byte but the interrupt character is input at once. *)
Lemma line_editing_reference t line input echo bytes :
  let '(line', input', _) := foldl (type_byte t) (line, input, echo) bytes in
  if is_canonical t then
    line' = (typed line (map (key_of t) bytes)).1 ∧ input' = input ++ (typed line (map (key_of t) bytes)).2
  else input' = input ++ raw_input t bytes.
Proof.
  destruct (is_canonical t) eqn:Hc.
  - pose proof (type_bytes_typed t bytes line input echo Hc) as H.
    destruct (foldl _ _ _) as [[line' input'] echo']. by injection H.
  - pose proof (type_bytes_raw t bytes line input echo Hc) as H. by destruct (foldl _ _ _) as [[line' input'] echo'].
Qed.

(** ** Output *)

(** Every newline comes after a carriage return; [prev] says whether one stands before. *)
Fixpoint newlines_returned (prev : bool) (bs : list Z) : bool :=
  match bs with
  | [] => true
  | b :: bs => (negb (b =? LF) || prev) && newlines_returned (b =? CR) bs
  end.

(** The text without the carriage returns that stand right before a newline. *)
Fixpoint without_returns (bs : list Z) : list Z :=
  match bs with
  | [] => []
  | b :: bs =>
      let rest := without_returns bs in
      if b =? CR then match bs with c :: _ => if c =? LF then rest else b :: rest | [] => b :: rest end
      else b :: rest
  end.

Lemma output_off t prev bs : map_output_newline_to_crlf t = false → process_output_loop t prev bs = bs.
Proof.
  intros Ht. revert prev. induction bs as [|b bs IH]; intros prev; cbn; [done|]. by rewrite Ht, andb_false_r, IH.
Qed.

Section output.
Context (t : LinuxTermios2) (Ht : map_output_newline_to_crlf t = true).

Lemma output_cons prev b bs :
  process_output_loop t prev (b :: bs) =
  if (b =? LF) && negb prev then CR :: LF :: process_output_loop t false bs else b :: process_output_loop t (b =? CR) bs.
Proof.
  cbn. rewrite Ht, andb_true_r. destruct ((b =? LF) && negb prev) eqn:H; [|done]. boolify. by subst b.
Qed.

Lemma output_returned prev bs : newlines_returned prev (process_output_loop t prev bs) = true.
Proof.
  revert prev. induction bs as [|b bs IH]; intros prev; [done|]. rewrite output_cons.
  destruct (b =? LF) eqn:Hb, prev; cbn; rewrite ?Hb; try apply IH.
Qed.

Lemma returned_output prev bs : newlines_returned prev bs = true → process_output_loop t prev bs = bs.
Proof.
  revert prev. induction bs as [|b bs IH]; intros prev; [done|]. rewrite output_cons. cbn [newlines_returned].
  intros [Hb Hr]%andb_true_iff. rewrite (IH (b =? CR)) by done. by destruct (b =? LF), prev.
Qed.

Lemma output_head prev bs : bs ≠ [] → head (process_output_loop t prev bs) =
  (if match head bs with Some b => (b =? LF) && negb prev | None => false end then Some CR else head bs).
Proof. destruct bs as [|b bs]; [done|]. intros _. rewrite output_cons. cbn [head]. by destruct (_ && _). Qed.

Lemma without_returns_output prev bs : without_returns (process_output_loop t prev bs) = without_returns bs.
Proof.
  revert prev. induction bs as [|b bs IH]; intros prev; [done|]. rewrite output_cons.
  destruct ((b =? LF) && negb prev) eqn:Hb.
  { boolify. subst b. cbn. by rewrite IH. }
  cbn [without_returns]. rewrite !IH. destruct (b =? CR) eqn:Hr; [|done]. destruct bs as [|c bs]; [done|].
  rewrite output_cons. by destruct (c =? LF) eqn:Hc; cbn; rewrite ?andb_false_r, Hc.
Qed.
End output.

(** With newline mapping on, every newline of the output comes after a carriage return,
    output that is already so is not changed (so mapping twice is mapping once), and nothing
    but carriage returns before newlines is added; with it off the output is the input. *)
Lemma output_newlines t bs :
  let out := process_output_bytes t bs in
  if map_output_newline_to_crlf t then
    newlines_returned false out = true ∧
    (newlines_returned false bs = true → out = bs) ∧
    process_output_bytes t out = out ∧
    without_returns out = without_returns bs
  else out = bs.
Proof.
  cbv zeta. unfold process_output_bytes. destruct (map_output_newline_to_crlf t) eqn:Ht; [|by apply output_off].
  split_and!.
  - by apply output_returned.
  - by apply returned_output.
  - apply returned_output; [done|]. by apply output_returned.
  - by apply without_returns_output.
Qed.

(** The loop starts anew with each write: a carriage return that ended the last write is
    forgotten, and a second one is added before the newline. *)
Lemma split_output_doubles_return :
  process_output_bytes termios_default [65; CR; LF] = [65; CR; LF] ∧
  process_output_bytes termios_default [65; CR] ++ process_output_bytes termios_default [LF] = [65; CR; CR; LF].
Proof. by vm_compute. Qed.

(** ** Echo *)

(** A screen that shows what it is sent: the rows above, the cells of the current row and
    the column of the cursor. *)
Record Screen := mkScreen { rows : list (list Z); cells : list Z; col : nat }.

Definition show (s : Screen) (b : Z) : Screen :=
  if b =? CR then mkScreen s.(rows) s.(cells) 0
  else if b =? LF then mkScreen (s.(rows) ++ [s.(cells)]) [] s.(col)
  else if b =? BS then mkScreen s.(rows) s.(cells) (s.(col) - 1)
  else mkScreen s.(rows) (take s.(col) s.(cells) ++ [b] ++ drop (S s.(col)) s.(cells)) (S s.(col)).

(** A row shows a text: the text, and blanks. *)
Definition shows (cells text : list Z) : Prop := ∃ n, cells = text ++ replicate n SPACE.

Definition printable (b : Z) : Prop := 32 ≤ b < 127.

(** Keys that a user types to write and edit lines. *)
Definition plain_key (t : LinuxTermios2) (byte : Z) : Prop :=
  match key_of t byte with
  | KChar b => printable b
  | KErase => True
  | KEnd LineEnd.ByNewline => True
  | KEnd _ => False
  end.

(** The texts of the rows below [done]: the first begins with the prompt. *)
Definition rows_of (prompt : list Z) (lines : list (list Z)) : list (list Z) :=
  match lines with [] => [] | l :: lines => (prompt ++ l) :: lines end.

Definition current_row (prompt : list Z) (lines : list (list Z)) (line : list Z) : list Z :=
  match lines with [] => prompt ++ line | _ => line end.

(** What was typed so far and what the screen shows of it. *)
Definition in_sync (done : list (list Z)) (prompt : list Z) (line input : list Z) (s : Screen) : Prop :=
  ∃ lines texts,
    input = concat (map (λ l, l ++ [LF]) lines) ∧
    s.(rows) = done ++ texts ∧ Forall2 shows texts (rows_of prompt lines) ∧
    shows s.(cells) (current_row prompt lines line) ∧ s.(col) = length (current_row prompt lines line).

Lemma shows_char cells text b : shows cells text →
  shows (take (length text) cells ++ [b] ++ drop (S (length text)) cells) (text ++ [b]).
Proof.
  intros [n ->]. rewrite take_app_length. exists (n - 1)%nat. rewrite <- !app_assoc. do 2 f_equal.
  rewrite drop_app_ge by lia. rewrite drop_replicate. f_equal. lia.
Qed.

Lemma shows_erase cells text b : shows cells (text ++ [b]) →
  shows (take (length text) cells ++ [SPACE] ++ drop (S (length text)) cells) text.
Proof.
  intros [n ->]. exists (S n). rewrite <- app_assoc, take_app_length. cbn [replicate]. f_equal. cbn. f_equal.
  rewrite (drop_app_ge text) by lia. by replace (S (length text) - length text)%nat with 1%nat by lia.
Qed.

Lemma current_row_snoc prompt lines line b : current_row prompt lines (line ++ [b]) = current_row prompt lines line ++ [b].
Proof. destruct lines; cbn; by rewrite <- ?app_assoc. Qed.

Lemma rows_of_snoc prompt lines l : rows_of prompt (lines ++ [l]) = rows_of prompt lines ++ [current_row prompt lines l].
Proof. by destruct lines. Qed.

(** What a byte echoes when everything is echoed, by the key it is. *)
Lemma echo_byte t line byte :
  is_canonical t = true → should_echo t = true → should_echo_erase t = true →
  let '(line', acts) := process_input_byte t line byte in
  echoed acts =
  match key_of t byte with
  | KEnd LineEnd.ByNewline => [[LF]]
  | KEnd _ => []
  | KErase => match last line with Some _ => [[BS; SPACE; BS]] | None => [] end
  | KChar b => [[b]]
  end.
Proof.
  intros Hc He Hee. unfold process_input_byte, key_of. rewrite Hc. cbn [negb].
  set (b := if (byte =? CR) && map_input_cr_to_nl t then LF else byte). clearbody b.
  destruct (should_signal_on_special_chars t && (b =? interrupt_char t)); [done|].
  destruct (b =? eof_char t); [by rewrite echoed_map|].
  destruct (b =? LF).
  { rewrite echoed_app, echoed_map. unfold should_echo_newline. unfold should_echo in He. by rewrite He. }
  destruct ((b =? erase_char t) || (b =? BS)).
  { destruct (pop_back line) as [r line'] eqn:Hp. unfold pop_back in Hp. injection Hp as <- <-. rewrite Hee.
    by destruct (last line). }
  by rewrite He.
Qed.

(** The termios settings of a screen editor's peer: echo, visible erase, newline mapping. *)
Definition cooked (t : LinuxTermios2) : Prop :=
  is_canonical t = true ∧ should_echo t = true ∧ should_echo_erase t = true ∧ map_output_newline_to_crlf t = true.

Lemma output_plain t b : b ≠ LF → process_output_bytes t [b] = [b].
Proof. intros Hb. unfold process_output_bytes. cbn. by apply Z.eqb_neq in Hb as ->. Qed.

Lemma output_newline t : map_output_newline_to_crlf t = true → process_output_bytes t [LF] = [CR; LF].
Proof. intros Ht. unfold process_output_bytes. cbn. by rewrite Ht. Qed.

Lemma output_erase t : process_output_bytes t [BS; SPACE; BS] = [BS; SPACE; BS].
Proof. done. Qed.

Lemma shows_newline s : foldl show s [CR; LF] = mkScreen (s.(rows) ++ [s.(cells)]) [] 0.
Proof. done. Qed.

Lemma show_erase s : (0 < s.(col))%nat →
  foldl show s [BS; SPACE; BS] =
  mkScreen s.(rows) (take (s.(col) - 1) s.(cells) ++ [SPACE] ++ drop (S (s.(col) - 1)) s.(cells)) (s.(col) - 1).
Proof. intros Hc. cbn. f_equal. lia. Qed.

Lemma show_printable s b : printable b →
  show s b = mkScreen s.(rows) (take s.(col) s.(cells) ++ [b] ++ drop (S s.(col)) s.(cells)) (S s.(col)).
Proof.
  intros Hb. unfold printable in Hb. unfold show, CR, LF, BS. do 3 (rewrite (proj2 (Z.eqb_neq _ _)) by lia). done.
Qed.

Lemma sync_byte t byte done prompt line input s : cooked t → plain_key t byte → in_sync done prompt line input s →
  let '(line', input', echo') := type_byte t (line, input, []) byte in
  in_sync done prompt line' input' (foldl show s echo').
Proof.
  intros (Hc & He & Hee & Ho) Hk (lines & texts & Hin & Hrows & Htexts & Hcells & Hcol). unfold type_byte.
  pose proof (canonical_byte t line byte Hc) as Hq. pose proof (echo_byte t line byte Hc He Hee) as Hecho.
  destruct (process_input_byte t line byte) as [line' acts]. rewrite Hecho. cbn [app].
  unfold plain_key in Hk. destruct (key_of t byte) as [[]| |b]; try done; destruct Hq as [-> ->].
  - cbn [map concat]. rewrite output_newline, app_nil_r, shows_newline by done.
    exists (lines ++ [line]), (texts ++ [s.(cells)]). cbn [rows cells col]. split_and!.
    + rewrite map_app, concat_app, <- Hin. unfold delivered, edited. cbn [fst snd survivors].
      rewrite Nat.sub_0_r, take_ge, app_nil_r by lia. cbn. by rewrite app_nil_r.
    + by rewrite Hrows, <- app_assoc.
    + rewrite rows_of_snoc. apply Forall2_app; [done|]. by constructor.
    + exists 0%nat. by destruct lines.
    + by destruct lines.
  - destruct (last line) as [x|] eqn:Hl.
    + apply last_Some in Hl as [l ->]. cbn [map concat]. rewrite output_erase, app_nil_r.
      rewrite current_row_snoc, length_app in Hcol. cbn in Hcol. rewrite current_row_snoc in Hcells.
      rewrite show_erase by lia. exists lines, texts. cbn [rows cells col]. rewrite Hcol, Nat.add_sub.
      rewrite length_app. cbn [length]. rewrite Nat.add_sub, take_app_length.
      split_and!; try done. by eapply shows_erase.
    + apply last_None in Hl as ->. exists lines, texts. by rewrite app_nil_r.
  - cbn [map concat]. rewrite output_plain by (unfold printable, LF in *; lia). rewrite !app_nil_r.
    exists lines, texts. cbn [foldl]. rewrite show_printable by done. cbn [rows cells col]. rewrite current_row_snoc, length_app, Hcol.
    split_and!; try done; [by apply shows_char|cbn; lia].
Qed.

Lemma type_byte_echo t line input echo byte :
  type_byte t (line, input, echo) byte =
  let '(line', input', echo') := type_byte t (line, input, []) byte in (line', input', echo ++ echo').
Proof. unfold type_byte. by destruct (process_input_byte t line byte). Qed.

Lemma sync_bytes t done prompt bytes line input echo s :
  cooked t → Forall (plain_key t) bytes → in_sync done prompt line input (foldl show s echo) →
  let '(line', input', echo') := foldl (type_byte t) (line, input, echo) bytes in
  in_sync done prompt line' input' (foldl show s echo').
Proof.
  intros Ht Hbs. revert line input echo. induction Hbs as [|b bs Hb Hbs IH]; intros line input echo Hs; [done|].
  cbn [foldl]. rewrite type_byte_echo. pose proof (sync_byte t b _ _ _ _ _ Ht Hb Hs) as H.
  destruct (type_byte t (line, input, []) b) as [[line' input'] echo']. apply IH. by rewrite foldl_app.
Qed.

(** What is seen is what will be read: while printable characters, erases and newlines
    are typed at a terminal with echo, the rows of the screen show exactly the lines that
    became input and the current row the line being edited, after the prompt that stood
    there, with the cursor at its end; an erase never removes the prompt. *)
Lemma screen_shows_line t done prompt bytes s :
  cooked t → Forall (plain_key t) bytes →
  s.(rows) = done → shows s.(cells) prompt → s.(col) = length prompt →
  let '(line, input, echo) := foldl (type_byte t) ([], [], []) bytes in
  in_sync done prompt line input (foldl show s echo).
Proof.
  intros Ht Hbs Hr Hcells Hcol. apply sync_bytes; [done..|].
  exists [], []. cbn. rewrite !app_nil_r. by split_and!.
Qed.

(** An interrupt empties the line, but nothing is echoed: the screen still shows the text,
    and the next erase, which finds no character, leaves it there. *)
Lemma interrupt_leaves_text_on_screen :
  let '(line, input, echo) := foldl (type_byte termios_default) ([], [], []) [97; 98; 3; 127] in
  line = [] ∧ input = [] ∧ (foldl show (mkScreen [] [] 0) echo).(cells) = [97; 98].
Proof. by vm_compute. Qed.

(** An end of file on an empty line queues nothing, so the reader does not learn of it. *)
Lemma eof_on_empty_line :
  process_input_byte termios_default [] 4 = ([], []).
Proof. by vm_compute. Qed.

(** The characters for kill, quit and suspend are in the settings, but are ordinary input. *)
Lemma kill_char_is_input :
  foldl (type_byte termios_default) ([], [], []) [97; 21; 28; 26; LF] = ([], [97; 21; 28; 26; LF], [97; 21; 28; 26; CR; LF]).
Proof. by vm_compute. Qed.

Lemma screen_shows_line_witness :
  let '(line, input, echo) := foldl (type_byte termios_default) ([], [], []) [97; 98; 127; LF; 127; 99] in
  in_sync [[36]] [62] line input (foldl show (mkScreen [[36]] [62] 1) echo).
Proof.
  apply (screen_shows_line termios_default [[36]] [62] [97; 98; 127; LF; 127; 99] (mkScreen [[36]] [62] 1)).
  - by vm_compute.
  - repeat (apply List.Forall_cons; [vm_compute; repeat split; discriminate|]). apply List.Forall_nil.
  - done.
  - by exists 0%nat.
  - done.
Defined.

(** Settings written through one form of the structure are read back through it. *)
Lemma termios_reads_back t new : as_linux_termios (apply_linux_termios t new) = new.
Proof. by destruct new. Qed.
