(* ===== verification/Poller.v ===== *)
(** * Pollers

    The objects that wait for events of many objects (polling/): their entries and the
    events they collect, the registry of who watches what, the notification of pollers, and
    the wait for one event of one object (polling/wait.rs).

    An object is known by its address; a poller is alive while it is in [pollers], which is
    what a weak reference asks.  [env] says how an object that is not a poller answers when
    asked for an event, [None] for one that cannot be polled. *)

From stdpp Require Import sets.
From S2P Require Import Prelude Errors Polling SignalData Threads.

Open Scope Z_scope.

Definition EPOLL_MAX_NESTING_DEPTH : nat := 5.

(** ** Data *)

Record PollerEntry := mkEntry {
  data : Z;
  object : Z;
  event : PollableEvent;
  ready_bits : Z;
  oneshot : bool;
  edge_triggered : bool;
  delivered_once : bool;
  enabled : bool;
}.

(** [PollerEntry::new] *)
Definition entry_new (object : Z) (event : PollableEvent) (data ready_bits : Z) (oneshot edge_triggered : bool) : PollerEntry :=
  mkEntry data object event ready_bits oneshot edge_triggered false true.

Record PollerReadyEvent := mkReady { r_data : Z; r_object : Z; r_event : PollableEvent; r_bits : Z }.

Record PollerObject := mkPoller {
  entries : list PollerEntry;
  registered_objects : list Z;
  woken_events : list PollerReadyEvent;
  poller_flags : Z;
}.

Definition poller_empty : PollerObject := mkPoller [] [] [] 0.

(** The live pollers, and [POLL_REGISTRY]: the pollers that watch an event of an object. *)
Record Pollers := mkPollers {
  pollers : gmap Z PollerObject;
  watchers : gmap (Z * Z) (list Z);
}.

Definition with_pollers (ps : Pollers) (m : gmap Z PollerObject) : Pollers := mkPollers m ps.(watchers).
Definition with_watchers (ps : Pollers) (m : gmap (Z * Z) (list Z)) : Pollers := mkPollers ps.(pollers) m.

Definition with_entries (p : PollerObject) (es : list PollerEntry) : PollerObject :=
  mkPoller es p.(registered_objects) p.(woken_events) p.(poller_flags).
Definition with_registered (p : PollerObject) (os : list Z) : PollerObject :=
  mkPoller p.(entries) os p.(woken_events) p.(poller_flags).
Definition with_woken (p : PollerObject) (es : list PollerReadyEvent) : PollerObject :=
  mkPoller p.(entries) p.(registered_objects) es p.(poller_flags).

Definition map_poller (ps : Pollers) (p : Z) (f : PollerObject → PollerObject) : Pollers :=
  with_pollers ps (alter f p ps.(pollers)).

Definition with_enabled (e : PollerEntry) (b : bool) : PollerEntry :=
  mkEntry e.(data) e.(object) e.(event) e.(ready_bits) e.(oneshot) e.(edge_triggered) e.(delivered_once) b.
Definition with_delivered (e : PollerEntry) (b : bool) : PollerEntry :=
  mkEntry e.(data) e.(object) e.(event) e.(ready_bits) e.(oneshot) e.(edge_triggered) b e.(enabled).

(** ** The registry (polling/registration.rs) *)

Definition event_key (e : PollableEvent) : Z :=
  match e with
  | PollableEvent.CanBeRead => 0
  | PollableEvent.CanBeWritten => 1
  | PollableEvent.Priority => 2
  | PollableEvent.Error => 3
  | PollableEvent.Closed => 4
  | PollableEvent.ReadClosed => 5
  | PollableEvent.PipeWriteSpace => 6
  | PollableEvent.Other bits => bits
  end.

Definition registry_key (o : Z) (e : PollableEvent) : Z * Z := (o, event_key e).

Definition alive (ps : Pollers) (p : Z) : Prop := is_Some (ps.(pollers) !! p).

#[export] Instance alive_dec ps p : Decision (alive ps p).
Proof. apply _. Defined.

Definition register_interest (ps : Pollers) (p o : Z) (e : PollableEvent) : Pollers :=
  let key := registry_key o e in
  let ws := filter (alive ps) (default [] (ps.(watchers) !! key)) in
  with_watchers ps (<[key := if decide (p ∈ ws) then ws else ws ++ [p]]> ps.(watchers)).

(** What [retain] leaves; an empty list is removed from the map. *)
Definition remove_watcher (ps : Pollers) (p : Z) (key : Z * Z) : Pollers :=
  match ps.(watchers) !! key with
  | None => ps
  | Some ws =>
      match filter (λ q, alive ps q ∧ q ≠ p) ws with
      | [] => with_watchers ps (delete key ps.(watchers))
      | ws => with_watchers ps (<[key := ws]> ps.(watchers))
      end
  end.

Definition unregister_interest (ps : Pollers) (p o : Z) (e : PollableEvent) : Pollers :=
  remove_watcher ps p (registry_key o e).

Definition unregister_all_interests (ps : Pollers) (p : Z) (es : list PollerEntry) : Pollers :=
  foldl (λ ps e, remove_watcher ps p (registry_key e.(object) e.(event))) ps es.

(** The pollers that watch, and the registry without the dead ones. *)
Definition interested_pollers (ps : Pollers) (o : Z) (e : PollableEvent) : list Z * Pollers :=
  match ps.(watchers) !! registry_key o e with
  | None => ([], ps)
  | Some ws =>
      let ws := filter (alive ps) ws in
      (ws, with_watchers ps (<[registry_key o e := ws]> ps.(watchers)))
  end.

(** ** Pollers that come and go (polling/object.rs) *)

Definition poller_new (ps : Pollers) (p : Z) : Pollers := with_pollers ps (<[p := poller_empty]> ps.(pollers)).

(** [Drop]: the last reference is gone, so weak references fail already. *)
Definition poller_drop (ps : Pollers) (p : Z) : Pollers :=
  match ps.(pollers) !! p with
  | None => ps
  | Some po => unregister_all_interests (with_pollers ps (delete p ps.(pollers))) p po.(entries)
  end.

(** [is_event_ready] of a poller *)
Definition poller_ready (po : PollerObject) (e : PollableEvent) : bool :=
  bool_decide (e = PollableEvent.CanBeRead) && negb (bool_decide (po.(woken_events) = [])).

Definition has_woken_events (ps : Pollers) (p : Z) : bool :=
  match ps.(pollers) !! p with Some po => negb (bool_decide (po.(woken_events) = [])) | None => false end.

(** ** Which pollers contain which *)

(** The registered objects that are pollers. *)
Definition child_pollers (ps : Pollers) (p : Z) : list Z :=
  match ps.(pollers) !! p with
  | Some po => filter (alive ps) po.(registered_objects)
  | None => []
  end.

Section path.
Context (ps : Pollers) (target : Z).

(** [any] over the children: the first that answers [true] ends it. *)
Definition any_path (inner : Z → gset Z → bool * gset Z) : list Z → gset Z → bool * gset Z :=
  fix any children visited :=
    match children with
    | [] => (false, visited)
    | c :: children =>
        match inner c visited with
        | (true, visited) => (true, visited)
        | (false, visited) => any children visited
        end
    end.

Fixpoint has_epoll_path_to_inner (fuel : nat) (p : Z) (visited : gset Z) : bool * gset Z :=
  match fuel with
  | O => (false, visited)
  | S fuel =>
      if decide (p = target) then (true, visited)
      else if decide (p ∈ visited) then (false, visited)
      else any_path (has_epoll_path_to_inner fuel) (child_pollers ps p) ({[p]} ∪ visited)
  end.

Definition path_fuel : nat := S (S (size ps.(pollers))).

Definition has_epoll_path_to (p : Z) : bool := (has_epoll_path_to_inner path_fuel p ∅).1.
End path.

Section depth.
Context (ps : Pollers).

(** The maximum over the children, 0 for none. *)
Definition max_depth (depth : Z → gset Z → nat * gset Z) : list Z → gset Z → nat * gset Z :=
  fix go children visited :=
    match children with
    | [] => (O, visited)
    | c :: children =>
        let '(d, visited) := depth c visited in
        let '(d', visited) := go children visited in
        (d `max` d', visited)
    end%nat.

Fixpoint epoll_nesting_depth (fuel : nat) (p : Z) (visited : gset Z) : nat * gset Z :=
  match fuel with
  | O => (S EPOLL_MAX_NESTING_DEPTH, visited)
  | S fuel =>
      if decide (p ∈ visited) then (S EPOLL_MAX_NESTING_DEPTH, visited)
      else
        let '(d, visited) := max_depth (epoll_nesting_depth fuel) (child_pollers ps p) ({[p]} ∪ visited) in
        (S d, visited)
  end.

Definition would_exceed_epoll_nesting_depth (target : Z) : bool :=
  if decide (alive ps target)
  then (EPOLL_MAX_NESTING_DEPTH <? 1 + (epoll_nesting_depth (path_fuel ps) target ∅).1)%nat
  else false.
End depth.

(** ** Registrations *)

Definition has_registration (ps : Pollers) (p o : Z) : bool :=
  match ps.(pollers) !! p with Some po => bool_decide (o ∈ po.(registered_objects)) | None => false end.

Definition remember_registration (ps : Pollers) (p o : Z) : Pollers :=
  map_poller ps p (λ po,
    if decide (o ∈ po.(registered_objects)) then po else with_registered po (po.(registered_objects) ++ [o])).

Definition forget_registration (ps : Pollers) (p o : Z) : Pollers :=
  map_poller ps p (λ po, with_registered po (filter (λ r, r ≠ o) po.(registered_objects))).

Definition same_interest (o : Z) (e : PollableEvent) (entry : PollerEntry) : bool :=
  bool_decide (entry.(event) = e) && (entry.(object) =? o).

(** [iter_mut().find(..)]: the first entry that matches is changed; [None] if none does. *)
Fixpoint update_first {A} (P : A → bool) (f : A → A) (l : list A) : option (list A) :=
  match l with
  | [] => None
  | x :: l => if P x then Some (f x :: l) else cons x <$> update_first P f l
  end.

Definition register_obj_with_ready_bits (ps : Pollers) (p o : Z) (e : PollableEvent) (d bits : Z) (once edge : bool) : Pollers :=
  match ps.(pollers) !! p with
  | None => ps
  | Some po =>
      let is_new_event_interest := negb (existsb (same_interest o e) po.(entries)) in
      let es :=
        match update_first (λ x, same_interest o e x && (x.(ready_bits) =? bits))
                (λ x, mkEntry d x.(object) x.(event) x.(ready_bits) once edge false true) po.(entries) with
        | Some es => es
        | None => po.(entries) ++ [entry_new o e d bits once edge]
        end in
      let ps := map_poller ps p (λ po, with_entries po es) in
      let ps := if is_new_event_interest then register_interest ps p o e else ps in
      map_poller ps p (λ po, with_woken po (filter (λ r, r.(r_object) ≠ o) po.(woken_events)))
  end.

Definition default_ready_bits (e : PollableEvent) : Z :=
  match e with
  | PollableEvent.CanBeRead => 0x001
  | PollableEvent.CanBeWritten => 0x004
  | PollableEvent.Priority => 0x002
  | PollableEvent.Error => 0x008
  | PollableEvent.Closed => 0x010
  | PollableEvent.ReadClosed => 0x2000
  | PollableEvent.PipeWriteSpace => 0
  | PollableEvent.Other bits => uwrap 32 bits
  end.

Definition register_obj (ps : Pollers) (p o : Z) (e : PollableEvent) (d : Z) : Pollers :=
  register_obj_with_ready_bits ps p o e d (default_ready_bits e) false false.

Definition unregister_obj (ps : Pollers) (p o : Z) (e : PollableEvent) : Pollers :=
  match ps.(pollers) !! p with
  | None => ps
  | Some po =>
      let removed_any := existsb (same_interest o e) po.(entries) in
      let ps := map_poller ps p (λ po, with_entries po (filter (λ x, same_interest o e x = false) po.(entries))) in
      let ps := if removed_any then unregister_interest ps p o e else ps in
      map_poller ps p (λ po, with_woken po (filter (λ r, r.(r_object) ≠ o) po.(woken_events)))
  end.

Definition unregister_object (ps : Pollers) (p o : Z) : Pollers :=
  match ps.(pollers) !! p with
  | None => ps
  | Some po =>
      let events := map event (filter (λ x, x.(object) = o) po.(entries)) in
      forget_registration (foldl (λ ps e, unregister_obj ps p o e) ps events) p o
  end.

Definition disable_entries (os : list Z) (po : PollerObject) : PollerObject :=
  with_entries po (map (λ x, if decide (x.(object) ∈ os) then with_enabled x false else x) po.(entries)).

Definition disable_oneshot_entries (ps : Pollers) (p o : Z) : Pollers := map_poller ps p (disable_entries [o]).

Definition mark_delivered_ready_bits (rs : list PollerReadyEvent) (po : PollerObject) : PollerObject :=
  with_entries po (map (λ x,
    if existsb (λ r, (x.(object) =? r.(r_object)) && negb (Z.land r.(r_bits) x.(ready_bits) =? 0)) rs
    then with_delivered x true else x) po.(entries)).

(** ** Events (polling/wake.rs) *)

(** The list of collected events after one more, which merges with an event of the same
    object and user data. *)
Definition queue_ready_event (es : list PollerReadyEvent) (o : Z) (e : PollableEvent) (d bits : Z) : list PollerReadyEvent :=
  default (es ++ [mkReady d o e bits])
    (update_first (λ r, (r.(r_data) =? d) && (r.(r_object) =? o))
       (λ r, mkReady r.(r_data) r.(r_object) r.(r_event) (Z.lor r.(r_bits) bits)) es).

Definition take_woken_events (ps : Pollers) (p : Z) (maxevents : Z) : list PollerReadyEvent * Pollers :=
  match ps.(pollers) !! p with
  | None => ([], ps)
  | Some po =>
      let count := Z.to_nat (Z.min (zlen po.(woken_events)) maxevents) in
      let ready := take count po.(woken_events) in
      (ready, map_poller ps p (λ po, mark_delivered_ready_bits ready (with_woken po (drop count po.(woken_events)))))
  end.

Record PollWakeResult := mkWakeResult { interested : bool; became_readable : bool }.

Section events.
Context (env : Z → option (PollableEvent → bool)).

Definition is_entry_ready (ps : Pollers) (x : PollerEntry) : bool :=
  match ps.(pollers) !! x.(object) with
  | Some po => poller_ready po x.(event)
  | None => match env x.(object) with Some ready => ready x.(event) | None => false end
  end.

Definition ready_entries_for_object (ps : Pollers) (po : PollerObject) (o : Z) : list PollerEntry :=
  filter (λ x, x.(enabled) && (x.(object) =? o) && is_entry_ready ps x = true) po.(entries).

Definition push_woken_event (ps : Pollers) (p o : Z) (e : PollableEvent) : PollWakeResult * Pollers :=
  match ps.(pollers) !! p with
  | None => (mkWakeResult false false, ps)
  | Some po =>
      let matching := filter (λ x, x.(enabled) && same_interest o e x = true) po.(entries) in
      let interested := negb (bool_decide (matching = [])) in
      let ready := ready_entries_for_object ps po o in
      let woken := foldl (λ es x, queue_ready_event es o e x.(data) x.(ready_bits)) po.(woken_events) ready in
      let became_readable := interested && bool_decide (po.(woken_events) = []) && negb (bool_decide (woken = [])) in
      let ps := if interested then map_poller ps p (λ po, with_woken po woken) else ps in
      let ps := if existsb oneshot matching then disable_oneshot_entries ps p o else ps in
      (mkWakeResult interested became_readable, ps)
  end.

(** The entries that are due, in order; [woken]: the events so far, [delivered]: the objects
    that got their first event here, [disable]: those with an entry for one event. *)
Fixpoint push_ready_loop (xs : list PollerEntry) (woken : list PollerReadyEvent) (delivered disable : list Z)
  : list PollerReadyEvent * list Z :=
  match xs with
  | [] => (woken, disable)
  | x :: xs =>
      let known := existsb (λ r, r.(r_object) =? x.(object)) woken in
      if negb known && bool_decide (x.(object) ∈ delivered) then push_ready_loop xs woken delivered disable
      else
        push_ready_loop xs (queue_ready_event woken x.(object) x.(event) x.(data) x.(ready_bits))
          (if known then delivered else delivered ++ [x.(object)])
          (if x.(oneshot) then x.(object) :: disable else disable)
  end.

Definition due_entries (ps : Pollers) (po : PollerObject) : list PollerEntry :=
  filter (λ x, x.(enabled) && (negb x.(edge_triggered) || negb x.(delivered_once)) && is_entry_ready ps x = true) po.(entries).

Definition push_already_ready_events (ps : Pollers) (p : Z) : bool * Pollers :=
  match ps.(pollers) !! p with
  | None => (false, ps)
  | Some po =>
      let due := due_entries ps po in
      let '(woken, disable) := push_ready_loop due po.(woken_events) [] [] in
      (negb (bool_decide (due = [])), map_poller ps p (λ po, disable_entries disable (with_woken po woken)))
  end.

(** ** Notification (polling/registration.rs) *)

Record Notify := mkNotify {
  n_pollers : Pollers;
  n_queue : list (Z * PollableEvent);
  n_affected : list Z;
}.

(** One interested poller of the current object and event. *)
Definition notify_one (o : Z) (e : PollableEvent) (n : Notify) (p : Z) : Notify :=
  let '(r, ps) := push_woken_event n.(n_pollers) p o e in
  if r.(interested) && r.(became_readable)
  then mkNotify ps (n.(n_queue) ++ [(p, PollableEvent.CanBeRead)])
         (if decide (p ∈ n.(n_affected)) then n.(n_affected) else n.(n_affected) ++ [p])
  else mkNotify ps n.(n_queue) n.(n_affected).

(** [fuel]: rounds; an event that was looked at before is skipped.  [None]: not enough. *)
Fixpoint notify_loop (fuel : nat) (visited : gset (Z * Z)) (n : Notify) : option Notify :=
  match n.(n_queue), fuel with
  | [], _ => Some n
  | _, O => None
  | (o, e) :: queue, S fuel =>
      let n := mkNotify n.(n_pollers) queue n.(n_affected) in
      if decide (registry_key o e ∈ visited) then notify_loop fuel visited n
      else
        let '(ps, pollers) := (λ x, (x.2, x.1)) (interested_pollers n.(n_pollers) o e) in
        notify_loop fuel ({[registry_key o e]} ∪ visited)
          (foldl (notify_one o e) (mkNotify ps queue n.(n_affected)) pollers)
  end.

Definition notify_fuel (ps : Pollers) : nat := S (size ps.(pollers)).

(** The affected pollers, and the pollers after it. *)
Definition notify_pollers (ps : Pollers) (o : Z) (e : PollableEvent) : option (list Z * Pollers) :=
  (λ n, (n.(n_affected), n.(n_pollers))) <$> notify_loop (notify_fuel ps) ∅ (mkNotify ps [(o, e)] []).

(** [wake_pollers_for_object] (thread/yielding.rs); [None] only if the loop did not end. *)
Definition wake_pollers_for_object (w : World) (ps : Pollers) (o : Z) (e : PollableEvent) : option (World * Pollers) :=
  (λ '(affected, ps),
     (match affected with [] => w | _ => wake_affected_pollers (mark_pollers_dirty w true) affected end, ps))
  <$> notify_pollers ps o e.

(** [wake_ready_pollers]: each poller a thread sleeps on is asked again. *)
Definition ask_poller (ps : Pollers) (p : Z) : bool * Pollers :=
  if decide (alive ps p) then
    let '(pushed, ps) := push_already_ready_events ps p in (pushed || has_woken_events ps p, ps)
  else (false, ps).
End events.

(** The threads of the queue in turn: those to wake, and the pollers after they were asked. *)
Fixpoint ask_sleepers (env : Z → option (PollableEvent → bool)) (w : World) (ps : Pollers) (ts : list Z) : list Z * Pollers :=
  match ts with
  | [] => ([], ps)
  | t :: ts =>
      let '(hit, ps) :=
        match state_of w t with
        | Some (State.Blocked (BlockType.WakeRequired (WakeType.Poller p) _)) => ask_poller env ps p
        | _ => (false, ps)
        end in
      let '(to_wake, ps) := ask_sleepers env w ps ts in
      (if hit then t :: to_wake else to_wake, ps)
  end.

Definition wake_ready_pollers_now (env : Z → option (PollableEvent → bool)) (w : World) (ps : Pollers) : World * Pollers :=
  match w.(blocked_queues).(poller) with
  | [] => (mark_pollers_dirty w false, ps)
  | q => let '(to_wake, ps) := ask_sleepers env w ps q in (mark_pollers_dirty (wake_list w to_wake) false, ps)
  end.
