(* ===== verification/PollerProps.v ===== *)
(** * Pollers: the registry, what is collected, and who is woken

    The registry of watchers holds exactly the interests of the live pollers; every
    collected event belongs to an entry; a notification ends, reaches every poller that
    watches and wakes the threads that sleep on it; and the search for a path between
    pollers decides reachability. *)

From stdpp Require Import sets fin_sets.
From S2P Require Import Prelude Errors Polling SignalData Threads ThreadsProps Poller.

Open Scope Z_scope.

(** ** The invariant *)

Definition known_event (e : PollableEvent) : Prop := match e with PollableEvent.Other _ => False | _ => True end.

Definition watched (ps : Pollers) (p : Z) (k : Z * Z) : Prop := p ∈ default [] (ps.(watchers) !! k).

Definition key_of_entry (x : PollerEntry) : Z * Z := registry_key x.(object) x.(event).

Definition interest (ps : Pollers) (p : Z) (k : Z * Z) : Prop :=
  ∃ po x, ps.(pollers) !! p = Some po ∧ x ∈ po.(entries) ∧ key_of_entry x = k.

(** Every collected event is for an object and with user data of some entry. *)
Definition backed (po : PollerObject) : Prop :=
  ∀ r, r ∈ po.(woken_events) → ∃ x, x ∈ po.(entries) ∧ x.(object) = r.(r_object) ∧ x.(data) = r.(r_data).

Record pollers_ok (ps : Pollers) : Prop := {
  ok_watch : ∀ p k, watched ps p k ↔ interest ps p k;
  ok_nodup : ∀ k ws, ps.(watchers) !! k = Some ws → NoDup ws;
  ok_known : ∀ p po x, ps.(pollers) !! p = Some po → x ∈ po.(entries) → known_event x.(event);
  ok_backed : ∀ p po, ps.(pollers) !! p = Some po → backed po;
}.

Lemma event_key_inj e e' : known_event e → known_event e' → event_key e = event_key e' → e = e'.
Proof. by destruct e, e'. Qed.

Lemma watched_alive ps p k : pollers_ok ps → watched ps p k → alive ps p.
Proof. intros Hok (po & x & Hp & _)%(ok_watch _ Hok). by exists po. Qed.

(** ** The registry *)

Lemma remove_watcher_pollers ps p k : (remove_watcher ps p k).(pollers) = ps.(pollers).
Proof. unfold remove_watcher. by repeat case_match. Qed.

Lemma remove_watcher_watched ps p k q k' :
  watched (remove_watcher ps p k) q k' ↔ watched ps q k' ∧ (k' = k → alive ps q ∧ q ≠ p).
Proof.
  unfold watched, remove_watcher. destruct (ps.(watchers) !! k) as [ws|] eqn:Hk.
  - destruct (decide (k' = k)) as [->|Hne].
    + rewrite Hk. cbn [default]. assert (q ∈ filter (λ q, alive ps q ∧ q ≠ p) ws ↔ q ∈ ws ∧ (k = k → alive ps q ∧ q ≠ p)) as Hq.
      { rewrite list_elem_of_filter. tauto. }
      rewrite <- Hq. destruct (filter _ ws); cbn; by rewrite ?lookup_delete_eq, ?lookup_insert_eq.
    + assert (∀ ps', ps'.(watchers) !! k' = ps.(watchers) !! k' →
        q ∈ default [] (ps'.(watchers) !! k') ↔ q ∈ default [] (ps.(watchers) !! k') ∧ (k' = k → alive ps q ∧ q ≠ p)) as Hq.
      { intros ps' ->. tauto. }
      apply Hq. destruct (filter _ ws); cbn; by rewrite ?lookup_delete_ne, ?lookup_insert_ne by done.
  - split; [|tauto]. intros Hq. split; [done|]. intros ->. rewrite Hk in Hq. by apply elem_of_nil in Hq.
Qed.

Definition all_nodup (ps : Pollers) : Prop := ∀ k ws, ps.(watchers) !! k = Some ws → NoDup ws.

Lemma insert_nodup ps k ws : all_nodup ps → NoDup ws → all_nodup (with_watchers ps (<[k := ws]> ps.(watchers))).
Proof.
  intros Hps Hws k' ws'. cbn. destruct (decide (k' = k)) as [->|]; [rewrite lookup_insert_eq; by intros [= <-]|].
  rewrite lookup_insert_ne by done. apply Hps.
Qed.

Lemma remove_watcher_nodup ps p k : all_nodup ps → all_nodup (remove_watcher ps p k).
Proof.
  intros Hps. unfold remove_watcher. destruct (ps.(watchers) !! k) as [ws|] eqn:Hk; [|done].
  pose proof (NoDup_filter (λ q, alive ps q ∧ q ≠ p) _ (Hps _ _ Hk)) as Hf.
  destruct (filter _ ws); [|by apply insert_nodup].
  intros k' ws'. cbn. rewrite lookup_delete_Some. intros [_ ?]. by eapply Hps.
Qed.

Lemma register_interest_watched ps p o e q k' :
  watched (register_interest ps p o e) q k' ↔
  (k' = registry_key o e ∧ (watched ps q k' ∧ alive ps q ∨ q = p)) ∨ (k' ≠ registry_key o e ∧ watched ps q k').
Proof.
  unfold watched, register_interest. cbn. destruct (decide (k' = registry_key o e)) as [->|Hne].
  - rewrite lookup_insert_eq. cbn. set (ws := filter _ _).
    assert (q ∈ ws ↔ q ∈ default [] (watchers ps !! registry_key o e) ∧ alive ps q) as <- by (unfold ws; rewrite list_elem_of_filter; tauto).
    case_decide; [|rewrite elem_of_app, list_elem_of_singleton; tauto].
    split; [tauto|]. by intros [[_ [?| ->]]|[? _]].
  - rewrite lookup_insert_ne by done. tauto.
Qed.

Lemma register_interest_nodup ps p o e : all_nodup ps → all_nodup (register_interest ps p o e).
Proof.
  intros Hps. unfold register_interest. apply insert_nodup; [done|].
  assert (NoDup (filter (alive ps) (default [] (watchers ps !! registry_key o e)))) as Hf.
  { apply NoDup_filter. destruct (watchers ps !! registry_key o e) eqn:Hk; [by eapply Hps|constructor]. }
  case_decide; [done|]. apply NoDup_app. split_and!; [done| |apply NoDup_singleton].
  intros x Hx ->%list_elem_of_singleton. done.
Qed.

(** ** One poller changed *)

(** The interests of a poller, and what it collected. *)
Definition keys (po : PollerObject) : list (Z * Z) := map key_of_entry po.(entries).

Lemma interest_lookup ps p k po : ps.(pollers) !! p = Some po → interest ps p k ↔ k ∈ keys po.
Proof.
  intros Hp. unfold interest, keys. split.
  - intros (po' & x & Hp' & Hx & <-). rewrite Hp in Hp'. injection Hp' as <-. apply list_elem_of_fmap. by exists x.
  - intros (x & -> & Hx)%list_elem_of_fmap. by exists po, x.
Qed.

Lemma interest_dead ps p k : ps.(pollers) !! p = None → ¬ interest ps p k.
Proof. intros Hp (po & x & Hp' & _). congruence. Qed.

(** A change of one poller that keeps its keys and its events known and backed. *)
Lemma map_poller_ok ps p f :
  pollers_ok ps →
  (∀ po, ps.(pollers) !! p = Some po → backed po →
     (∀ k, k ∈ keys (f po) ↔ k ∈ keys po) ∧
     (∀ x, x ∈ (f po).(entries) → ∃ y, y ∈ po.(entries) ∧ x.(event) = y.(event)) ∧ backed (f po)) →
  pollers_ok (map_poller ps p f).
Proof.
  intros [Hw Hn Hk Hb] Hf. split.
  - intros q k. transitivity (watched ps q k); [done|]. rewrite Hw.
    destruct (decide (q = p)) as [->|Hne]; [|unfold interest; cbn; by rewrite lookup_alter_ne].
    destruct (ps.(pollers) !! p) as [po|] eqn:Hp.
    + rewrite (interest_lookup ps p k po), (interest_lookup (map_poller ps p f) p k (f po)) by (cbn; by rewrite ?lookup_alter_eq, ?Hp).
      symmetry. by apply (Hf po); [|apply (Hb p)].
    + split; intros H; exfalso; revert H; apply interest_dead; cbn; by rewrite ?lookup_alter_eq, Hp.
  - done.
  - intros q po x. cbn. destruct (decide (q = p)) as [->|Hne]; [|rewrite lookup_alter_ne by done; apply Hk].
    rewrite lookup_alter_eq. destruct (ps.(pollers) !! p) as [po'|] eqn:Hp; cbn; [|done]. intros [= <-] Hx.
    destruct (Hf po' eq_refl (Hb _ _ Hp)) as (_ & Hev & _). destruct (Hev x Hx) as (y & Hy & ->). by eapply Hk.
  - intros q po. cbn. destruct (decide (q = p)) as [->|Hne]; [|rewrite lookup_alter_ne by done; apply Hb].
    rewrite lookup_alter_eq. destruct (ps.(pollers) !! p) as [po'|] eqn:Hp; cbn; [|done]. intros [= <-].
    by destruct (Hf po' eq_refl (Hb _ _ Hp)) as (_ & _ & H).
Qed.

(** ** First matches *)

Lemma update_first_some {A} (P : A → bool) (f : A → A) l l' :
  update_first P f l = Some l' → ∃ a x b, l = a ++ x :: b ∧ l' = a ++ f x :: b ∧ P x = true.
Proof.
  revert l'. induction l as [|x l IH]; intros l'; cbn; [done|]. destruct (P x) eqn:Hx.
  - intros [= <-]. by exists [], x, l.
  - destruct (update_first P f l) as [l1|]; [|done]. intros [= <-]. destruct (IH l1 eq_refl) as (a & y & b & -> & -> & Hy).
    by exists (x :: a), y, b.
Qed.

Lemma update_first_none {A} (P : A → bool) (f : A → A) l : update_first P f l = None → ∀ x, x ∈ l → P x = false.
Proof.
  induction l as [|x l IH]; cbn; [intros _ x ?%elem_of_nil; done|]. destruct (P x) eqn:Hx; [done|].
  destruct (update_first P f l); [done|]. intros _ y [->|Hy]%elem_of_cons; auto.
Qed.

Lemma queue_ready_backed es o e d bits r : r ∈ queue_ready_event es o e d bits →
  (∃ r0, r0 ∈ es ∧ r0.(r_object) = r.(r_object) ∧ r0.(r_data) = r.(r_data)) ∨ (r.(r_object) = o ∧ r.(r_data) = d).
Proof.
  unfold queue_ready_event. destruct (update_first _ _ es) as [es'|] eqn:Hu; cbn.
  - apply update_first_some in Hu as (a & x & b & -> & -> & Hx). rewrite elem_of_app, elem_of_cons.
    intros [Hr|[->|Hr]]; left; [exists r|exists x|exists r]; split_and!; try done; rewrite elem_of_app, elem_of_cons; auto.
  - rewrite elem_of_app, list_elem_of_singleton. intros [Hr| ->]; [left; by exists r|by right].
Qed.

(** ** The operations keep the invariant *)

Lemma same_interest_spec o e x : same_interest o e x = true ↔ x.(event) = e ∧ x.(object) = o.
Proof. unfold same_interest. rewrite andb_true_iff, bool_decide_eq_true, Z.eqb_eq. tauto. Qed.

Lemma same_keys_ok ps p f : pollers_ok ps →
  (∀ po, (f po).(entries) = po.(entries)) →
  (∀ po, ps.(pollers) !! p = Some po → backed po → backed (f po)) → pollers_ok (map_poller ps p f).
Proof.
  intros Hok He Hb. apply map_poller_ok; [done|]. intros po Hp Hpo. split_and!; [|by rewrite He; eauto|by eapply Hb].
  intros k. unfold keys. by rewrite He.
Qed.

Lemma remember_ok ps p o : pollers_ok ps → pollers_ok (remember_registration ps p o).
Proof. intros Hok. apply same_keys_ok; [done|intros po; by case_decide|]. intros po _. by case_decide. Qed.

Lemma poller_forget_ok ps p o : pollers_ok ps → pollers_ok (forget_registration ps p o).
Proof. intros Hok. by apply same_keys_ok. Qed.

Lemma purge_ok ps p o : pollers_ok ps →
  pollers_ok (map_poller ps p (λ po, with_woken po (filter (λ r, r.(r_object) ≠ o) po.(woken_events)))).
Proof. intros Hok. apply same_keys_ok; [done..|]. intros po _ Hb r [_ Hr]%list_elem_of_filter. by apply Hb. Qed.

(** Entries changed one by one, but not in what they watch and carry. *)
Lemma map_entries_ok po (g : PollerEntry → PollerEntry) es :
  (∀ x, (g x).(event) = x.(event) ∧ (g x).(object) = x.(object) ∧ (g x).(data) = x.(data)) →
  (∀ r, r ∈ es → ∃ x, x ∈ po.(entries) ∧ x.(object) = r.(r_object) ∧ x.(data) = r.(r_data)) →
  (∀ k, k ∈ keys (with_entries (with_woken po es) (map g po.(entries))) ↔ k ∈ keys po) ∧
  (∀ x, x ∈ map g po.(entries) → ∃ y, y ∈ po.(entries) ∧ x.(event) = y.(event)) ∧
  backed (with_entries (with_woken po es) (map g po.(entries))).
Proof.
  intros Hg Hes. split_and!.
  - intros k. unfold keys. cbn. rewrite map_map. replace (map _ po.(entries)) with (map key_of_entry po.(entries)); [done|].
    apply map_ext. intros x. unfold key_of_entry. by destruct (Hg x) as (-> & -> & _).
  - intros x (y & -> & Hy)%list_elem_of_fmap. exists y. by rewrite (proj1 (Hg y)).
  - intros r Hr. destruct (Hes r Hr) as (x & Hx & Ho & Hd). exists (g x). destruct (Hg x) as (_ & -> & ->).
    split_and!; [|done..]. apply list_elem_of_fmap. by exists x.
Qed.

Lemma map_entries_woken po g es : with_entries (with_woken po es) (map g po.(entries)) = with_woken (with_entries po (map g po.(entries))) es.
Proof. done. Qed.

Lemma disable_ok ps p os : pollers_ok ps → pollers_ok (map_poller ps p (disable_entries os)).
Proof.
  intros Hok. apply map_poller_ok; [done|]. intros po Hp Hb.
  apply (map_entries_ok po (λ x, if decide (x.(object) ∈ os) then with_enabled x false else x) po.(woken_events)); [|done].
  intros x. by case_decide.
Qed.

Lemma take_ok ps p n : pollers_ok ps → pollers_ok (take_woken_events ps p n).2.
Proof.
  intros Hok. unfold take_woken_events. destruct (ps.(pollers) !! p) as [po0|] eqn:Hp0; [|done]. cbn [snd].
  apply map_poller_ok; [done|]. intros po Hp Hb. rewrite Hp0 in Hp. injection Hp as ->.
  set (count := Z.to_nat _). set (rs := take count _).
  apply (map_entries_ok po (λ x, if existsb (λ r, (x.(object) =? r.(r_object)) && negb (Z.land r.(r_bits) x.(ready_bits) =? 0)) rs
           then with_delivered x true else x) (drop count po.(woken_events))).
  - intros x. by destruct (existsb _ rs).
  - intros r Hr. apply Hb. rewrite <- (take_drop count). apply elem_of_app. by right.
Qed.

Lemma poller_new_ok ps p : pollers_ok ps → ps.(pollers) !! p = None → pollers_ok (poller_new ps p).
Proof.
  intros [Hw Hn Hk Hb] Hp. split.
  - intros q k. transitivity (watched ps q k); [done|]. rewrite Hw. unfold interest. cbn.
    destruct (decide (q = p)) as [->|Hne]; [|by rewrite lookup_insert_ne].
    rewrite lookup_insert_eq, Hp. split; [naive_solver|]. intros (po & x & [= <-] & Hx & _). by apply elem_of_nil in Hx.
  - done.
  - intros q po x. cbn. destruct (decide (q = p)) as [->|Hne]; [rewrite lookup_insert_eq|rewrite lookup_insert_ne by done; apply Hk].
    intros [= <-] Hx. by apply elem_of_nil in Hx.
  - intros q po. cbn. destruct (decide (q = p)) as [->|Hne]; [rewrite lookup_insert_eq|rewrite lookup_insert_ne by done; apply Hb].
    intros [= <-] r Hr. by apply elem_of_nil in Hr.
Qed.

Lemma unregister_all_pollers ps p es : (unregister_all_interests ps p es).(pollers) = ps.(pollers).
Proof.
  unfold unregister_all_interests. revert ps. induction es as [|x es IH]; intros ps; [done|]. cbn. by rewrite IH, remove_watcher_pollers.
Qed.

Lemma unregister_all_nodup ps p es : all_nodup ps → all_nodup (unregister_all_interests ps p es).
Proof.
  unfold unregister_all_interests. revert ps. induction es as [|x es IH]; intros ps Hps; [done|]. cbn. by apply IH, remove_watcher_nodup.
Qed.

Lemma unregister_all_watched ps p es q k :
  watched (unregister_all_interests ps p es) q k ↔ watched ps q k ∧ (k ∈ map key_of_entry es → alive ps q ∧ q ≠ p).
Proof.
  unfold unregister_all_interests. revert ps. induction es as [|x es IH]; intros ps; cbn.
  - split; [|tauto]. intros H. split; [done|]. by intros ?%elem_of_nil.
  - rewrite IH, remove_watcher_watched, elem_of_cons. unfold alive. rewrite remove_watcher_pollers. unfold key_of_entry at 2. naive_solver.
Qed.

Lemma drop_ok ps p : pollers_ok ps → pollers_ok (poller_drop ps p).
Proof.
  intros Hok. pose proof Hok as [Hw Hn Hk Hb]. unfold poller_drop. destruct (ps.(pollers) !! p) as [po|] eqn:Hp; [|done].
  set (ps' := with_pollers ps (delete p ps.(pollers))). split.
  - intros q k. rewrite unregister_all_watched. change (watched ps' q k) with (watched ps q k). rewrite Hw.
    destruct (decide (q = p)) as [->|Hne].
    + rewrite (interest_lookup ps p k po Hp). split; [intros [H1 H2]; by destruct (H2 H1)|].
      intros (po' & x & H & _). rewrite unregister_all_pollers in H. cbn in H. by rewrite lookup_delete_eq in H.
    + unfold interest, alive. rewrite unregister_all_pollers. cbn. rewrite lookup_delete_ne by done. naive_solver.
  - by apply unregister_all_nodup.
  - intros q po' x. rewrite unregister_all_pollers. cbn. rewrite lookup_delete_Some. intros [_ ?]. by eapply Hk.
  - intros q po'. rewrite unregister_all_pollers. cbn. rewrite lookup_delete_Some. intros [_ ?]. by eapply Hb.
Qed.

(** A poller whose entries and registrations change together: what is needed of both. *)
Lemma entries_ok ps ps' p po es :
  pollers_ok ps → ps.(pollers) !! p = Some po → (∀ x, x ∈ es → known_event x.(event)) → (∀ q, alive ps' q ↔ alive ps q) →
  all_nodup ps' → ps'.(pollers) = <[p := with_entries po es]> ps.(pollers) →
  (∀ k, watched ps' p k ↔ k ∈ map key_of_entry es) →
  (∀ q k, q ≠ p → watched ps' q k ↔ watched ps q k) →
  ∀ o, (∀ x, x ∈ po.(entries) → x.(object) ≠ o → x ∈ es) →
  pollers_ok (map_poller ps' p (λ po, with_woken po (filter (λ r, r.(r_object) ≠ o) po.(woken_events)))).
Proof.
  intros [Hw Hn Hk Hb] Hp Hes Halive Hnodup Hps' Hwp Hwq o Hkeep. split; cbn; rewrite ?Hps'.
  - intros q k. destruct (decide (q = p)) as [->|Hne].
    + rewrite (interest_lookup _ p k (with_woken (with_entries po es) (filter (λ r, r.(r_object) ≠ o) po.(woken_events)))).
      * apply Hwp.
      * cbn. by rewrite Hps', lookup_alter_eq, lookup_insert_eq.
    + transitivity (watched ps q k); [by apply Hwq|]. rewrite Hw. unfold interest. cbn.
      by rewrite Hps', lookup_alter_ne, lookup_insert_ne by done.
  - done.
  - intros q po' x. destruct (decide (q = p)) as [->|Hne].
    + rewrite lookup_alter_eq, lookup_insert_eq. intros [= <-] Hx. by apply Hes.
    + rewrite lookup_alter_ne, lookup_insert_ne by done. apply Hk.
  - intros q po'. destruct (decide (q = p)) as [->|Hne].
    + rewrite lookup_alter_eq, lookup_insert_eq. intros [= <-] r [Hr Hin]%list_elem_of_filter.
      destruct (Hb _ _ Hp r Hin) as (x & Hx & Ho & Hd). exists x. split_and!; [|done..]. apply Hkeep; [done|]. by rewrite Ho.
    + rewrite lookup_alter_ne, lookup_insert_ne by done. apply Hb.
Qed.

Lemma alter_insert_map (ps : Pollers) p f po : ps.(pollers) !! p = Some po → (map_poller ps p f).(pollers) = <[p := f po]> ps.(pollers).
Proof.
  intros Hp. cbn. apply map_eq. intros q. destruct (decide (q = p)) as [->|Hne].
  - by rewrite lookup_alter_eq, lookup_insert_eq, Hp.
  - by rewrite lookup_alter_ne, lookup_insert_ne.
Qed.

Lemma map_poller_alive ps p f q : alive (map_poller ps p f) q ↔ alive ps q.
Proof.
  unfold alive. cbn. destruct (decide (q = p)) as [->|Hne]; [|by rewrite lookup_alter_ne].
  rewrite lookup_alter_eq. apply fmap_is_Some.
Qed.

Lemma elem_of_replace {A} (a b : list A) y x z : z ∈ a ++ y :: b → z ∈ a ++ x :: b ∨ z = y.
Proof. rewrite !elem_of_app, !elem_of_cons. tauto. Qed.

(** The entries after a registration: one for the event, and the others. *)
Lemma register_entries (po : PollerObject) o e d bits once edge :
  let es := match update_first (λ x, same_interest o e x && (x.(ready_bits) =? bits))
                (λ x, mkEntry d x.(object) x.(event) x.(ready_bits) once edge false true) po.(entries) with
            | Some es => es | None => po.(entries) ++ [entry_new o e d bits once edge] end in
  (∀ x, x ∈ es → x ∈ po.(entries) ∨ (x.(event) = e ∧ x.(object) = o)) ∧
  (∀ x, x ∈ po.(entries) → x.(object) ≠ o → x ∈ es) ∧
  (∀ k, k ∈ map key_of_entry es ↔ k ∈ keys po ∨ k = registry_key o e).
Proof.
  cbv zeta. destruct (update_first _ _ po.(entries)) as [es|] eqn:Hu.
  - apply update_first_some in Hu as (a & x & b & Hes & -> & [Hx _]%andb_true_iff). apply same_interest_spec in Hx as [<- <-]. split_and!.
    + intros y [Hy| ->]%(elem_of_replace _ _ _ x); [left; by rewrite Hes|by right].
    + intros y Hy Hne. rewrite Hes in Hy. by apply (elem_of_replace _ _ _ (mkEntry d x.(object) x.(event) x.(ready_bits) once edge false true)) in Hy as [Hy| ->].
    + intros k. unfold keys. rewrite Hes, !map_app. cbn. rewrite !elem_of_app, !elem_of_cons. unfold key_of_entry at 2 4. cbn.
      unfold key_of_entry. tauto.
  - split_and!.
    + intros x [Hx|Hx%list_elem_of_singleton]%elem_of_app; [by left|right; by subst x].
    + intros x Hx _. apply elem_of_app. by left.
    + intros k. unfold keys. rewrite map_app, elem_of_app. cbn [map]. by rewrite list_elem_of_singleton.
Qed.

Lemma poller_register_ok ps p o e d bits once edge :
  pollers_ok ps → known_event e → pollers_ok (register_obj_with_ready_bits ps p o e d bits once edge).
Proof.
  intros Hok He. pose proof Hok as [Hw Hn Hk _]. unfold register_obj_with_ready_bits.
  destruct (ps.(pollers) !! p) as [po|] eqn:Hp; [|done].
  destruct (register_entries po o e d bits once edge) as (Hin & Hkeep & Hkeys).
  set (es := match update_first _ _ po.(entries) with Some es => es | None => _ end) in *.
  set (ps1 := map_poller ps p (λ po, with_entries po es)).
  assert (Hps1 : ps1.(pollers) = <[p := with_entries po es]> ps.(pollers)).
  { exact (alter_insert_map ps p (λ po, with_entries po es) po Hp). }
  assert (Hal : ∀ q, alive ps1 q ↔ alive ps q) by (intros q; apply map_poller_alive).
  assert (Hkn : ∀ x, x ∈ es → known_event x.(event)).
  { intros x Hx. destruct (Hin x Hx) as [Hx'|[-> _]]; [by eapply Hk|done]. }
  assert (Hwp : ∀ k, watched ps p k ↔ k ∈ keys po) by (intros k; by rewrite Hw, (interest_lookup ps p k po)).
  destruct (existsb (same_interest o e) po.(entries)) eqn:Hex; cbn [negb].
  - eapply (entries_ok ps ps1); try done. intros k. rewrite Hkeys. change (watched ps1 p k) with (watched ps p k). rewrite Hwp.
    split; [tauto|]. intros [?| ->]; [done|]. apply existsb_exists in Hex as (x & Hx & Hs). apply same_interest_spec in Hs as [<- <-].
    apply list_elem_of_fmap. exists x. split; [done|]. by apply list_elem_of_In.
  - eapply (entries_ok ps (register_interest ps1 p o e)); try done; [by apply register_interest_nodup|..].
    + intros k. rewrite register_interest_watched, Hkeys, Hal. change (watched ps1 p k) with (watched ps p k).
      rewrite Hwp. destruct (decide (k = registry_key o e)); [tauto|tauto].
    + intros q k Hne. rewrite register_interest_watched, Hal. change (watched ps1 q k) with (watched ps q k).
      pose proof (watched_alive ps q k Hok). destruct (decide (k = registry_key o e)); tauto.
Qed.

Lemma unregister_obj_ok ps p o e : pollers_ok ps → known_event e → pollers_ok (unregister_obj ps p o e).
Proof.
  intros Hok He. pose proof Hok as [Hw Hn Hk _]. unfold unregister_obj. destruct (ps.(pollers) !! p) as [po|] eqn:Hp; [|done].
  set (es := filter (λ x, same_interest o e x = false) po.(entries)).
  set (ps1 := map_poller ps p _).
  assert (Hps1 : ps1.(pollers) = <[p := with_entries po es]> ps.(pollers)) by exact (alter_insert_map ps p _ po Hp).
  assert (Hal : ∀ q, alive ps1 q ↔ alive ps q) by (intros q; apply map_poller_alive).
  assert (Hsub : ∀ x, x ∈ es → x ∈ po.(entries)) by (by intros x [_ ?]%list_elem_of_filter).
  assert (Hkeep : ∀ x, x ∈ po.(entries) → x.(object) ≠ o → x ∈ es).
  { intros x Hx Hne. apply list_elem_of_filter. split; [|done]. apply not_true_iff_false. by intros [_ ?]%same_interest_spec. }
  assert (Hwp : ∀ k, watched ps p k ↔ k ∈ keys po) by (intros k; by rewrite Hw, (interest_lookup ps p k po)).
  assert (Hkeys : ∀ k, k ∈ map key_of_entry es ↔ k ∈ keys po ∧ k ≠ registry_key o e).
  { intros k. unfold keys. rewrite !list_elem_of_fmap. split.
    - intros (x & -> & [Hs Hx]%list_elem_of_filter). split; [by exists x|]. intros Heq. unfold key_of_entry, registry_key in Heq.
      injection Heq as Ho Hev. apply event_key_inj in Hev; [|by eapply Hk|done].
      assert (same_interest o e x = true) by (by apply same_interest_spec). congruence.
    - intros ((x & -> & Hx) & Hne). exists x. split; [done|]. apply list_elem_of_filter. split; [|done].
      apply not_true_iff_false. by intros [<- <-]%same_interest_spec. }
  destruct (existsb (same_interest o e) po.(entries)) eqn:Hex.
  - eapply (entries_ok ps (unregister_interest ps1 p o e)); try done; unfold unregister_interest.
    + by eauto.
    + intros q. unfold alive. rewrite remove_watcher_pollers. apply Hal.
    + by apply remove_watcher_nodup.
    + by rewrite remove_watcher_pollers.
    + intros k. rewrite remove_watcher_watched, Hkeys. change (watched ps1 p k) with (watched ps p k). rewrite Hwp. naive_solver.
    + intros q k Hne. rewrite remove_watcher_watched, Hal. change (watched ps1 q k) with (watched ps q k).
      pose proof (watched_alive ps q k Hok). tauto.
  - eapply (entries_ok ps ps1); try done; [by eauto|]. intros k. rewrite Hkeys. change (watched ps1 p k) with (watched ps p k). rewrite Hwp.
    split; [|tauto]. intros Hin. split; [done|]. intros ->. apply list_elem_of_fmap in Hin as (x & Heq & Hx).
    unfold key_of_entry, registry_key in Heq. injection Heq as Ho Hev. symmetry in Hev. apply event_key_inj in Hev; [|by eapply Hk|done].
    assert (same_interest o e x = true) by (by apply same_interest_spec).
    assert (existsb (same_interest o e) po.(entries) = true); [|congruence]. apply existsb_exists. exists x. by rewrite <- list_elem_of_In.
Qed.

Lemma unregister_object_ok ps p o : pollers_ok ps → pollers_ok (unregister_object ps p o).
Proof.
  intros Hok. unfold unregister_object. destruct (ps.(pollers) !! p) as [po|] eqn:Hp; [|done]. apply poller_forget_ok.
  assert (Forall known_event (map event (filter (λ x, x.(object) = o) po.(entries)))) as Hev.
  { apply List.Forall_forall. intros e He. apply list_elem_of_In, list_elem_of_fmap in He as (x & -> & [_ Hx]%list_elem_of_filter).
    by eapply ok_known. }
  clear Hp. revert ps Hok. induction Hev as [|e es He _ IH]; intros ps Hok; cbn; [done|]. by apply IH, unregister_obj_ok.
Qed.

(** ** Events keep the invariant *)

Definition backed_by (xs : list PollerEntry) (es : list PollerReadyEvent) : Prop :=
  ∀ r, r ∈ es → ∃ x, x ∈ xs ∧ x.(object) = r.(r_object) ∧ x.(data) = r.(r_data).

Lemma queue_backed_by xs es x e bits : backed_by xs es → x ∈ xs → backed_by xs (queue_ready_event es x.(object) e x.(data) bits).
Proof.
  intros Hes Hx r Hr. apply queue_ready_backed in Hr as [(r0 & Hr0 & <- & <-)|[-> ->]]; [by apply Hes|by exists x].
Qed.

Lemma queue_all_backed xs ys es o e : backed_by xs es → (∀ y, y ∈ ys → y ∈ xs ∧ y.(object) = o) →
  backed_by xs (foldl (λ es x, queue_ready_event es o e x.(data) x.(ready_bits)) es ys).
Proof.
  revert es. induction ys as [|y ys IH]; intros es Hes Hys; cbn; [done|]. apply IH.
  - destruct (Hys y) as [Hy <-]; [by constructor|]. by apply queue_backed_by.
  - intros z Hz. apply Hys. by constructor.
Qed.

Lemma push_loop_backed xs ys es delivered disable : backed_by xs es → (∀ y, y ∈ ys → y ∈ xs) →
  backed_by xs (push_ready_loop ys es delivered disable).1.
Proof.
  revert es delivered disable. induction ys as [|y ys IH]; intros es delivered disable Hes Hys; cbn; [done|].
  assert (∀ z, z ∈ ys → z ∈ xs) by (intros z Hz; apply Hys; by constructor).
  case_match; apply IH; try done. apply queue_backed_by; [done|]. apply Hys. by constructor.
Qed.

Section events.
Context (env : Z → option (PollableEvent → bool)).

Lemma ready_entries_in ps po o y : y ∈ ready_entries_for_object env ps po o → y ∈ po.(entries) ∧ y.(object) = o.
Proof. unfold ready_entries_for_object. rewrite list_elem_of_filter. intros [H ?]. by boolify. Qed.

Lemma push_woken_ok ps p o e : pollers_ok ps → pollers_ok (push_woken_event env ps p o e).2.
Proof.
  intros Hok. unfold push_woken_event. destruct (ps.(pollers) !! p) as [po|] eqn:Hp; [|done]. cbn [snd].
  set (woken := foldl _ _ _). set (i := negb (bool_decide _)). clearbody i.
  assert (pollers_ok (if i then map_poller ps p (λ po, with_woken po woken) else ps)) as H1.
  { destruct i; [|done]. apply same_keys_ok; [done..|]. intros po' Hp' Hb. rewrite Hp in Hp'. injection Hp' as <-.
    apply queue_all_backed; [exact Hb|]. intros y Hy. by eapply ready_entries_in. }
  destruct (existsb oneshot _); [by apply disable_ok|done].
Qed.

Lemma push_already_ok ps p : pollers_ok ps → pollers_ok (push_already_ready_events env ps p).2.
Proof.
  intros Hok. unfold push_already_ready_events. destruct (ps.(pollers) !! p) as [po|] eqn:Hp; [|done].
  pose proof (push_loop_backed po.(entries) (due_entries env ps po) po.(woken_events) [] [] (ok_backed _ Hok _ _ Hp)) as Hb.
  destruct (push_ready_loop _ _ _ _) as [woken disable]. cbn [snd fst] in *.
  apply map_poller_ok; [done|]. intros po' Hp' _. rewrite Hp in Hp'. injection Hp' as <-.
  apply (map_entries_ok po (λ x, if decide (x.(object) ∈ disable) then with_enabled x false else x) woken).
  - intros x. by case_decide.
  - apply Hb. intros y [_ Hy]%list_elem_of_filter. done.
Qed.

Lemma interested_ok ps o e : pollers_ok ps →
  pollers_ok (interested_pollers ps o e).2 ∧ (interested_pollers ps o e).2.(pollers) = ps.(pollers) ∧
  (∀ p, p ∈ (interested_pollers ps o e).1 ↔ watched ps p (registry_key o e)) ∧ NoDup (interested_pollers ps o e).1.
Proof.
  intros Hok. unfold interested_pollers, watched. destruct (ps.(watchers) !! registry_key o e) as [ws|] eqn:Hk.
  - cbn. assert (filter (alive ps) ws = ws) as ->.
    { apply filter_keep. intros q Hq. apply (watched_alive ps q (registry_key o e)); [done|]. unfold watched. by rewrite Hk. }
    rewrite (insert_id _ _ _ Hk). split_and!; try done; [by destruct ps|by eapply ok_nodup].
  - cbn. split_and!; try done. constructor.
Qed.

Lemma notify_one_ok o e n p : pollers_ok n.(n_pollers) → pollers_ok (notify_one env o e n p).(n_pollers).
Proof.
  intros Hok. unfold notify_one. pose proof (push_woken_ok n.(n_pollers) p o e Hok) as H.
  destruct (push_woken_event env _ p o e) as [r ps]. by destruct (_ && _).
Qed.

Lemma notify_all_ok o e ws n : pollers_ok n.(n_pollers) → pollers_ok (foldl (notify_one env o e) n ws).(n_pollers).
Proof. revert n. induction ws as [|p ws IH]; intros n Hok; cbn; [done|]. by apply IH, notify_one_ok. Qed.

(** ** A notification ends *)

(** The pollers that collected nothing yet: each of them can be pushed once. *)
Definition quiet (ps : Pollers) : gset Z := dom (filter (λ x, x.2.(woken_events) = []) ps.(pollers)).

Lemma elem_of_quiet ps p : p ∈ quiet ps ↔ ∃ po, ps.(pollers) !! p = Some po ∧ po.(woken_events) = [].
Proof.
  unfold quiet. rewrite elem_of_dom. unfold is_Some. setoid_rewrite map_lookup_filter_Some. cbn. naive_solver.
Qed.

Lemma queue_ready_not_nil es o e d bits : queue_ready_event es o e d bits ≠ [].
Proof.
  unfold queue_ready_event. destruct (update_first _ _ es) as [es'|] eqn:Hu; cbn.
  - apply update_first_some in Hu as (a & x & b & _ & -> & _). by destruct a.
  - by destruct es.
Qed.

Lemma queue_all_not_nil (ys : list PollerEntry) es o e : es ≠ [] →
  foldl (λ es x, queue_ready_event es o e x.(data) x.(ready_bits)) es ys ≠ [].
Proof. revert es. induction ys as [|y ys IH]; intros es Hes; cbn; [done|]. apply IH, queue_ready_not_nil. Qed.

(** What one notification of one poller does to the pollers that collected nothing. *)
Lemma push_woken_quiet ps p o e :
  let '(r, ps') := push_woken_event env ps p o e in
  quiet ps' = (if r.(interested) && r.(became_readable) then quiet ps ∖ {[p]} else quiet ps) ∧
  (r.(interested) && r.(became_readable) = true → p ∈ quiet ps).
Proof.
  unfold push_woken_event. destruct (ps.(pollers) !! p) as [po|] eqn:Hp; [|done]. cbn [interested became_readable].
  set (woken := foldl _ _ _). set (i := negb (bool_decide (_ = []))). set (d := existsb _ _). clearbody d.
  assert (Hq : ∀ ps', (∀ q, q ≠ p → ps'.(pollers) !! q = ps.(pollers) !! q) →
     (∃ po', ps'.(pollers) !! p = Some po' ∧ po'.(woken_events) = if i then woken else po.(woken_events)) →
     quiet ps' = if i && (i && bool_decide (po.(woken_events) = []) && negb (bool_decide (woken = []))) then quiet ps ∖ {[p]} else quiet ps).
  { intros ps' Hne (po' & Hp' & Hw'). apply leibniz_equiv. intros q.
    assert (Hpo : po.(woken_events) ≠ [] → woken ≠ []) by apply queue_all_not_nil.
    destruct (decide (q = p)) as [->|Hq].
    - assert (p ∈ quiet ps' ↔ (if i then woken else po.(woken_events)) = []) as ->.
      { rewrite elem_of_quiet, <- Hw'. naive_solver. }
      assert (p ∈ quiet ps ↔ po.(woken_events) = []) as Hps by (rewrite elem_of_quiet; naive_solver).
      destruct i; cbn; [|by rewrite Hps]. repeat case_bool_decide; cbn; rewrite ?elem_of_difference, ?elem_of_singleton, ?Hps; naive_solver.
    - assert (q ∈ quiet ps' ↔ q ∈ quiet ps) as -> by (rewrite !elem_of_quiet, Hne; done).
      destruct (i && _); [|done]. rewrite elem_of_difference, elem_of_singleton. tauto. }
  split.
  - apply Hq.
    + intros q Hne. destruct i, d; cbn; by rewrite ?lookup_alter_ne by done.
    + destruct i, d; cbn; rewrite ?lookup_alter_eq, Hp; cbn; eexists; split; try done.
  - intros H. boolify. apply elem_of_quiet. by exists po.
Qed.

Lemma notify_all_size o e ws n :
  let n' := foldl (notify_one env o e) n ws in
  (length n'.(n_queue) + size (quiet n'.(n_pollers)) = length n.(n_queue) + size (quiet n.(n_pollers)))%nat.
Proof.
  cbv zeta. revert n. induction ws as [|p ws IH]; intros n; cbn; [done|]. rewrite IH. unfold notify_one.
  pose proof (push_woken_quiet n.(n_pollers) p o e) as Hq. destruct (push_woken_event env _ p o e) as [r ps]. destruct Hq as [Hq Hin].
  destruct (interested r && became_readable r); cbn; rewrite Hq; [|done]. rewrite length_app. cbn.
  rewrite size_difference by set_solver. rewrite size_singleton.
  assert (size (quiet n.(n_pollers)) ≠ 0%nat). { apply size_non_empty_iff. set_solver. } lia.
Qed.

Lemma notify_loop_total fuel visited n :
  (length n.(n_queue) + size (quiet n.(n_pollers)) ≤ fuel)%nat → pollers_ok n.(n_pollers) →
  ∃ n', notify_loop env fuel visited n = Some n' ∧ pollers_ok n'.(n_pollers).
Proof.
  revert visited n. induction fuel as [|fuel IH]; intros visited n Hlen Hok.
  - destruct n as [ps [|x q] a]; cbn in *; [by eexists|lia].
  - destruct n as [ps [|[o e] q] a]; cbn in *; [by eexists|]. case_decide.
    + apply IH; cbn; [lia|done].
    + destruct (interested_ok ps o e Hok) as (Hok' & Heq & _). destruct (interested_pollers ps o e) as [ws ps1]. cbn [fst snd] in *.
      apply IH; [|by apply notify_all_ok]. rewrite notify_all_size. cbn. unfold quiet in *. rewrite Heq. lia.
Qed.

Lemma quiet_size ps : (size (quiet ps) ≤ size ps.(pollers))%nat.
Proof. unfold quiet. rewrite size_dom. apply map_size_filter. Qed.
End events.

(** ** What a notification delivers *)

(** The poller collected an event of the object with these user data and bits. *)
Definition collected (es : list PollerReadyEvent) (o d bits : Z) : Prop :=
  ∃ r, r ∈ es ∧ r.(r_object) = o ∧ r.(r_data) = d ∧ Z.land r.(r_bits) bits = bits.

Lemma land_lor_right a b : Z.land (Z.lor a b) b = b.
Proof. apply Z.bits_inj'. intros i _. rewrite Z.land_spec, Z.lor_spec. by destruct (Z.testbit a i), (Z.testbit b i). Qed.

Lemma land_lor_keep a b c : Z.land a c = c → Z.land (Z.lor a b) c = c.
Proof.
  intros H. apply Z.bits_inj'. intros i Hi. rewrite Z.land_spec, Z.lor_spec. assert (Hc := f_equal (λ z, Z.testbit z i) H). cbn in Hc.
  rewrite Z.land_spec in Hc. by destruct (Z.testbit a i), (Z.testbit b i), (Z.testbit c i).
Qed.

Lemma queue_collects es o e d bits : collected (queue_ready_event es o e d bits) o d bits.
Proof.
  unfold queue_ready_event. destruct (update_first _ _ es) as [es'|] eqn:Hu; cbn.
  - apply update_first_some in Hu as (a & r & b & _ & -> & Hr). boolify. eexists. split_and!; [apply elem_of_app; right; by left|done..|].
    apply land_lor_right.
  - eexists. split_and!; [apply elem_of_app; right; by left|done..|]. cbn. apply Z.land_diag.
Qed.

Lemma queue_keeps es o e d bits o' d' bits' : collected es o' d' bits' → collected (queue_ready_event es o e d bits) o' d' bits'.
Proof.
  intros (r & Hr & Ho & Hd & Hb). unfold queue_ready_event. destruct (update_first _ _ es) as [es'|] eqn:Hu; cbn.
  - apply update_first_some in Hu as (a & x & b & -> & -> & Hx).
    apply (elem_of_replace _ _ _ (mkReady x.(r_data) x.(r_object) x.(r_event) (Z.lor x.(r_bits) bits))) in Hr as [Hr| ->].
    + by exists r.
    + eexists. split_and!; [apply elem_of_app; right; by left|done..|]. cbn. by apply land_lor_keep.
  - exists r. split_and!; try done. apply elem_of_app. by left.
Qed.

Lemma queue_all_keeps (ys : list PollerEntry) es o e o' d' bits' : collected es o' d' bits' →
  collected (foldl (λ es x, queue_ready_event es o e x.(data) x.(ready_bits)) es ys) o' d' bits'.
Proof. revert es. induction ys as [|y ys IH]; intros es Hes; cbn; [done|]. by apply IH, queue_keeps. Qed.

Lemma queue_all_collects (ys : list PollerEntry) es o e y : y ∈ ys →
  collected (foldl (λ es x, queue_ready_event es o e x.(data) x.(ready_bits)) es ys) o y.(data) y.(ready_bits).
Proof.
  revert es. induction ys as [|z ys IH]; intros es; [by intros ?%elem_of_nil|]. cbn. intros [->|Hy]%elem_of_cons.
  - apply queue_all_keeps, queue_collects.
  - by apply IH.
Qed.

(** Pollers after some notifications: nothing collected is lost. *)
Definition more (ps ps' : Pollers) : Prop :=
  (∀ q, ps.(pollers) !! q = None → ps'.(pollers) !! q = None) ∧
  (∀ q po, ps.(pollers) !! q = Some po → ∃ po', ps'.(pollers) !! q = Some po' ∧
     (∀ o d b, collected po.(woken_events) o d b → collected po'.(woken_events) o d b) ∧
     (po.(woken_events) ≠ [] → po'.(woken_events) ≠ [])).

Lemma more_refl ps : more ps ps.
Proof. split; [done|]. intros q po Hq. by exists po. Qed.

Lemma more_trans ps1 ps2 ps3 : more ps1 ps2 → more ps2 ps3 → more ps1 ps3.
Proof.
  intros [N1 S1] [N2 S2]. split; [auto|]. intros q po Hq. destruct (S1 q po Hq) as (po' & Hq' & Hc & Hn).
  destruct (S2 q po' Hq') as (po'' & Hq'' & Hc' & Hn'). exists po''. split_and!; auto.
Qed.

Lemma more_same ps ps' : ps'.(pollers) = ps.(pollers) → more ps ps'.
Proof. intros H. unfold more. rewrite H. apply more_refl. Qed.

Section deliver.
Context (env : Z → option (PollableEvent → bool)).

Lemma more_ready ps ps' y : more ps ps' → is_entry_ready env ps y = true → is_entry_ready env ps' y = true.
Proof.
  intros [Hnone Hsome]. unfold is_entry_ready. destruct (ps.(pollers) !! y.(object)) as [po|] eqn:Hp.
  - destruct (Hsome _ _ Hp) as (po' & -> & _ & Hn). unfold poller_ready. rewrite !andb_true_iff. intros [He Hw]. split; [done|].
    boolify. apply negb_true_iff, bool_decide_eq_false. by apply Hn.
  - by rewrite (Hnone _ Hp).
Qed.

(** What one poller collects, and that only it changes. *)
Lemma push_woken_spec ps p o e :
  more ps (push_woken_event env ps p o e).2 ∧
  (∀ q, q ≠ p → (push_woken_event env ps p o e).2.(pollers) !! q = ps.(pollers) !! q) ∧
  ∀ po x, ps.(pollers) !! p = Some po → x ∈ po.(entries) → x.(enabled) = true → same_interest o e x = true →
    is_entry_ready env ps x = true →
    (∃ po', (push_woken_event env ps p o e).2.(pollers) !! p = Some po' ∧ collected po'.(woken_events) o x.(data) x.(ready_bits)) ∧
    (po.(woken_events) = [] → (push_woken_event env ps p o e).1 = mkWakeResult true true).
Proof.
  unfold push_woken_event. destruct (ps.(pollers) !! p) as [po|] eqn:Hp; [|by split_and!; [apply more_refl|..]].
  cbn [fst snd]. set (woken := foldl _ _ _). set (matching := filter _ po.(entries)).
  set (ps' := if existsb oneshot matching then _ else _).
  assert (Hother : ∀ q, q ≠ p → ps'.(pollers) !! q = ps.(pollers) !! q).
  { intros q Hq. unfold ps'. destruct (existsb _ _), (negb (bool_decide (matching = []))); cbn; by rewrite ?lookup_alter_ne by done. }
  assert (Hthis : ∃ po', ps'.(pollers) !! p = Some po' ∧
     po'.(woken_events) = if negb (bool_decide (matching = [])) then woken else po.(woken_events)).
  { unfold ps'. destruct (existsb _ _), (negb (bool_decide (matching = []))); cbn; rewrite ?lookup_alter_eq, Hp; cbn; eexists; split; try done. }
  destruct Hthis as (po' & Hp' & Hw). split_and!.
  - split.
    + intros q Hq. by rewrite Hother by congruence.
    + intros q po1 Hq. destruct (decide (q = p)) as [->|Hne]; [|rewrite Hother by done; by exists po1].
      rewrite Hp in Hq. injection Hq as <-. exists po'. rewrite Hw. split; [done|]. case_match; [|done].
      split; [intros o1 d1 b1; apply queue_all_keeps|apply queue_all_not_nil].
  - done.
  - intros po1 x [= <-] Hx He Hs Hr.
    assert (Hin : x ∈ matching) by (unfold matching; rewrite list_elem_of_filter, He, Hs; done).
    assert (Hm : bool_decide (matching = []) = false) by (apply bool_decide_eq_false; intros Hm; rewrite Hm in Hin; by apply elem_of_nil in Hin).
    rewrite Hm in *. cbn [negb andb] in *.
    assert (Hry : x ∈ ready_entries_for_object env ps po o).
    { unfold ready_entries_for_object. rewrite list_elem_of_filter, He, Hr. apply same_interest_spec in Hs as [_ ->]. by rewrite Z.eqb_refl. }
    split; [exists po'; rewrite Hw; split; [done|]; by apply queue_all_collects|].
    intros Hnil. f_equal. rewrite Hnil. cbn. apply negb_true_iff, bool_decide_eq_false. intros Hno.
    destruct (queue_all_collects _ po.(woken_events) o e x Hry) as (r & Hr' & _). fold woken in Hr'. rewrite Hno in Hr'. by apply elem_of_nil in Hr'.
Qed.

Lemma notify_one_spec o e n p :
  let n' := notify_one env o e n p in
  n'.(n_pollers) = (push_woken_event env n.(n_pollers) p o e).2 ∧ (∀ q, q ∈ n.(n_affected) → q ∈ n'.(n_affected)) ∧
  ((push_woken_event env n.(n_pollers) p o e).1 = mkWakeResult true true → p ∈ n'.(n_affected)).
Proof.
  unfold notify_one. destruct (push_woken_event env _ p o e) as [[i b] ps]. cbn. destruct i, b; cbn; split_and!; try done.
  - intros q Hq. case_decide; [done|]. apply elem_of_app. by left.
  - intros _. case_decide; [done|]. apply elem_of_app. right. by left.
Qed.

Lemma notify_all_more o e ws n :
  let n' := foldl (notify_one env o e) n ws in
  more n.(n_pollers) n'.(n_pollers) ∧ (∀ q, q ∈ n.(n_affected) → q ∈ n'.(n_affected)) ∧
  (∀ q, q ∉ ws → n'.(n_pollers).(pollers) !! q = n.(n_pollers).(pollers) !! q).
Proof.
  cbv zeta. revert n. induction ws as [|p ws IH]; intros n; cbn; [by split_and!; [apply more_refl|..]|].
  destruct (notify_one_spec o e n p) as (Hps & Haff & _). destruct (push_woken_spec n.(n_pollers) p o e) as (Hmore & Hother & _).
  rewrite <- Hps in Hmore, Hother. destruct (IH (notify_one env o e n p)) as (Hm & Ha & Ho). split_and!.
  - by eapply more_trans.
  - auto.
  - intros q [Hq Hws]%not_elem_of_cons. rewrite Ho by done. by apply Hother.
Qed.

Lemma notify_loop_more fuel visited n n' : pollers_ok n.(n_pollers) → notify_loop env fuel visited n = Some n' →
  more n.(n_pollers) n'.(n_pollers) ∧ (∀ q, q ∈ n.(n_affected) → q ∈ n'.(n_affected)).
Proof.
  revert visited n. induction fuel as [|fuel IH]; intros visited [ps [|[o e] q] a] Hok; cbn; try done;
    try (by intros [= <-]; split; [apply more_refl|done]).
  case_decide; [by apply (IH visited (mkNotify ps q a))|].
  destruct (interested_ok ps o e Hok) as (Hok' & Heq & _). destruct (interested_pollers ps o e) as [ws ps1]. cbn [fst snd] in *.
  destruct (notify_all_more o e ws (mkNotify ps1 q a)) as (Hm & Ha & _). cbn in Hm, Ha. intros Hn.
  destruct (IH _ _ (notify_all_ok env o e ws (mkNotify ps1 q a) Hok') Hn) as (Hm' & Ha'). split; [|auto].
  eapply more_trans; [by apply more_same|]. by eapply more_trans.
Qed.

(** The poller of an entry that is due collects the event, and is among the affected if it
    had nothing before. *)
Lemma notify_delivers ps p o e po x :
  pollers_ok ps → ps.(pollers) !! p = Some po → x ∈ po.(entries) → x.(enabled) = true → same_interest o e x = true →
  is_entry_ready env ps x = true →
  ∃ affected ps' po', notify_pollers env ps o e = Some (affected, ps') ∧ pollers_ok ps' ∧ ps'.(pollers) !! p = Some po' ∧
    collected po'.(woken_events) o x.(data) x.(ready_bits) ∧ (po.(woken_events) = [] → p ∈ affected).
Proof.
  intros Hok Hp Hx He Hs Hr. unfold notify_pollers, notify_fuel.
  destruct (notify_loop_total env (S (size ps.(pollers))) ∅ (mkNotify ps [(o, e)] [])) as (n' & Hn & Hok'); [|done|].
  { cbn. pose proof (quiet_size ps). lia. }
  rewrite Hn. cbn [fmap option_fmap option_map]. cbn [notify_loop n_queue n_pollers n_affected] in Hn.
  rewrite decide_False in Hn by set_solver.
  destruct (interested_ok ps o e Hok) as (Hok1 & Heq & Hin & Hnd). destruct (interested_pollers ps o e) as [ws ps1]. cbn [fst snd] in *.
  assert (Hpw : p ∈ ws).
  { apply Hin. apply (ok_watch _ Hok). exists po, x. split_and!; [done..|]. apply same_interest_spec in Hs as [<- <-]. done. }
  apply list_elem_of_split in Hpw as (a & b & ->). rewrite foldl_app in Hn. cbn [foldl] in Hn.
  apply NoDup_app in Hnd as (_ & Hnd & _). assert (Hpa : p ∉ a) by (intros ?; by apply (Hnd p); [|left]).
  destruct (notify_all_more o e a (mkNotify ps1 [] [])) as (Hma & _ & Hsame). set (na := foldl _ _ a) in *.
  specialize (Hsame p Hpa). cbn [n_pollers] in Hsame, Hma. rewrite Heq, Hp in Hsame.
  assert (Hmore1 : more ps na.(n_pollers)) by (eapply more_trans; [by apply more_same|done]).
  destruct (push_woken_spec na.(n_pollers) p o e) as (_ & _ & Hpush).
  destruct (Hpush po x Hsame Hx He Hs (more_ready _ _ _ Hmore1 Hr)) as ((po1 & Hp1 & Hc1) & Hres).
  destruct (notify_one_spec o e na p) as (Hps1 & _ & Haff). rewrite <- Hps1 in Hp1.
  destruct (notify_all_more o e b (notify_one env o e na p)) as ((_ & Hmb) & Hab & _). set (nb := foldl _ _ b) in *.
  assert (Hokb : pollers_ok nb.(n_pollers)).
  { unfold nb. apply notify_all_ok, notify_one_ok. unfold na. by apply notify_all_ok. }
  destruct (notify_loop_more _ _ _ _ Hokb Hn) as ((_ & Hmn) & Han).
  destruct (Hmb _ _ Hp1) as (po2 & Hp2 & Hc2 & _). destruct (Hmn _ _ Hp2) as (po3 & Hp3 & Hc3 & _).
  exists n'.(n_affected), n'.(n_pollers), po3. split_and!; auto.
Qed.
End deliver.

(** ** Threads that sleep on a poller *)

Lemma dirty_ok w b : sched_ok w → sched_ok (mark_pollers_dirty w b).
Proof. intros []; by constructor. Qed.

Lemma affected_run w t p deadline affected :
  sched_ok w → state_of w t = Some (State.Blocked (BlockType.WakeRequired (WakeType.Poller p) deadline)) → p ∈ affected →
  runnable (wake_affected_pollers (mark_pollers_dirty w true) affected) t.
Proof.
  intros Hok Hs Hp. pose proof (dirty_ok w true Hok) as Hok1.
  destruct (wake_matching_spec (mark_pollers_dirty w true) QueueKind.Poller (waits_for_poller affected) Hok1) as [Hok' Hst].
  change (state_of w t) with (state_of (mark_pollers_dirty w true) t) in Hs.
  pose proof (Hst t _ Hs) as Ht. cbn [waits_for_poller] in Ht. rewrite (bool_decide_eq_true_2 (p ∈ affected)) in Ht by done.
  rewrite bool_decide_eq_true_2 in Ht; [split; [done|by apply (ok_ready_queued _ _ Hok')]|].
  by apply (waits_on_queue _ t _ QueueKind.Poller Hok1 Hs).
Qed.

Section wake.
Context (env : Z → option (PollableEvent → bool)).

(** An event reaches its sleepers: when an object reports an event that is ready, the
    notification ends, every poller with an enabled entry for it has an event with the user
    data and the bits of the entry, and every thread that sleeps on such a poller, which had
    nothing to report before, is runnable. *)
Lemma event_reaches_sleepers w ps t p deadline o e po x :
  sched_ok w → pollers_ok ps →
  state_of w t = Some (State.Blocked (BlockType.WakeRequired (WakeType.Poller p) deadline)) →
  ps.(pollers) !! p = Some po → po.(woken_events) = [] →
  x ∈ po.(entries) → x.(enabled) = true → x.(event) = e → x.(object) = o → is_entry_ready env ps x = true →
  ∃ w' ps' po', wake_pollers_for_object env w ps o e = Some (w', ps') ∧
    ps'.(pollers) !! p = Some po' ∧ collected po'.(woken_events) o x.(data) x.(ready_bits) ∧ runnable w' t.
Proof.
  intros Hw Hps Ht Hp Hnil Hx He Hev Ho Hr.
  destruct (notify_delivers env ps p o e po x) as (affected & ps' & po' & Hn & _ & Hp' & Hc & Ha); try done; [by apply same_interest_spec|].
  specialize (Ha Hnil). unfold wake_pollers_for_object. rewrite Hn. cbn.
  eexists _, ps', po'. split_and!; [done..|]. destruct affected as [|q qs]; [by apply elem_of_nil in Ha|]. by eapply affected_run.
Qed.
End wake.

(** ** Paths between pollers *)

Definition edge (ps : Pollers) (a b : Z) : Prop := b ∈ child_pollers ps a.

Lemma edge_alive ps a b : edge ps a b → alive ps a ∧ alive ps b.
Proof.
  unfold edge, child_pollers. destruct (ps.(pollers) !! a) as [po|] eqn:Ha; [|by intros ?%elem_of_nil].
  intros [Hb _]%list_elem_of_filter. split; [by exists po|done].
Qed.

Lemma closed_path ps (v : gset Z) a b :
  (∀ a, a ∈ v → ∀ b, edge ps a b → b ∈ v) → rtc (edge ps) a b → a ∈ v → b ∈ v.
Proof. intros Hv. induction 1 as [|a b c Hab _ IH]; [done|]. intros Ha. apply IH. by apply (Hv a). Qed.

Section search.
Context (ps : Pollers) (target : Z).

(** What the search marked since [v] is closed and is not the target. *)
Definition searched (v v' : gset Z) : Prop :=
  v ⊆ v' ∧ ∀ a, a ∈ v' → a ∉ v → a ≠ target ∧ ∀ b, edge ps a b → b ∈ v'.

Definition unmarked (v : gset Z) : nat := size (dom ps.(pollers) ∖ v).

Definition search_ok (inner : Z → gset Z → bool * gset Z) (n : nat) : Prop :=
  ∀ p v, alive ps p → (unmarked v < n)%nat →
    let '(r, v') := inner p v in
    (r = true → rtc (edge ps) p target) ∧ (r = false → p ∈ v' ∧ searched v v').

Lemma searched_refl v : searched v v.
Proof. by split. Qed.

Lemma searched_trans v1 v2 v3 : searched v1 v2 → searched v2 v3 → searched v1 v3.
Proof.
  intros [H1 C1] [H2 C2]. split; [set_solver|]. intros a Ha Hna. destruct (decide (a ∈ v2)) as [Hin|Hni].
  - destruct (C1 a Hin Hna) as [Ht He]. split; [done|]. intros b Hb. by apply H2, He.
  - by apply C2.
Qed.

Lemma unmarked_mono v v' : v ⊆ v' → (unmarked v' ≤ unmarked v)%nat.
Proof. intros H. unfold unmarked. apply (subseteq_size (C := gset Z)). set_solver. Qed.

Lemma any_path_ok inner n children v :
  search_ok inner n → (∀ c, c ∈ children → alive ps c) → (unmarked v < n)%nat →
  let '(r, v') := any_path inner children v in
  (r = true → ∃ c, c ∈ children ∧ rtc (edge ps) c target) ∧ (r = false → (∀ c, c ∈ children → c ∈ v') ∧ searched v v').
Proof.
  intros Hin. revert v. induction children as [|c children IH]; intros v Hal Hv; cbn.
  - split; [done|]. intros _. split; [by intros c ?%elem_of_nil|apply searched_refl].
  - pose proof (Hin c v (Hal c (list_elem_of_here _ _)) Hv) as Hc. destruct (inner c v) as [[] v1].
    + split; [|done]. intros _. exists c. split; [by left|]. by apply Hc.
    + destruct Hc as [_ Hc]. destruct (Hc eq_refl) as [Hcv Hs].
      specialize (IH v1). destruct (any_path inner children v1) as [r v2].
      destruct IH as [IHt IHf]; [intros; apply Hal; by right|pose proof (unmarked_mono v v1 (proj1 Hs)); lia|]. split.
      * intros ->. destruct (IHt eq_refl) as (d & Hd & ?). exists d. split; [by right|done].
      * intros ->. destruct (IHf eq_refl) as [Hall Hs2]. split; [|by eapply searched_trans].
        intros d [->|Hd]%elem_of_cons; [|by apply Hall]. by apply Hs2.
Qed.

Lemma inner_ok fuel : search_ok (has_epoll_path_to_inner ps target fuel) fuel.
Proof.
  induction fuel as [|fuel IH]; intros p v Hp Hv; [lia|]. cbn. case_decide as Ht.
  { split; [intros _; subst; apply rtc_refl|done]. }
  case_decide as Hv'.
  { split; [done|]. intros _. split; [done|apply searched_refl]. }
  assert (Hd : p ∈ dom ps.(pollers)) by (by apply elem_of_dom).
  assert (Hlt : (unmarked ({[p]} ∪ v) < unmarked v)%nat).
  { unfold unmarked. apply (subset_size (C := gset Z)). split; [set_solver|]. intros H. specialize (H p). set_solver. }
  pose proof (any_path_ok (has_epoll_path_to_inner ps target fuel) fuel (child_pollers ps p) ({[p]} ∪ v) IH) as Ha.
  destruct (any_path _ _ _) as [r v']. destruct Ha as [Htrue Hfalse]; [|lia|].
  { intros c Hc. by eapply edge_alive. }
  split.
  - intros ->. destruct (Htrue eq_refl) as (c & Hc & ?). by eapply rtc_l.
  - intros ->. destruct (Hfalse eq_refl) as [Hall [Hsub Hcl]]. split; [set_solver|]. split; [set_solver|].
    intros a Ha Hna. destruct (decide (a = p)) as [->|Hne]; [by split|]. apply Hcl; set_solver.
Qed.

Lemma path_search p : alive ps p → has_epoll_path_to ps target p = true ↔ rtc (edge ps) p target.
Proof.
  intros Hp. unfold has_epoll_path_to. pose proof (inner_ok (path_fuel ps) p ∅ Hp) as H.
  destruct (has_epoll_path_to_inner ps target (path_fuel ps) p ∅) as [r v']. cbn.
  destruct H as [Ht Hf]. { unfold unmarked, path_fuel. rewrite difference_empty_L, size_dom. lia. }
  split; [by intros ->; apply Ht|]. destruct r; [done|]. destruct (Hf eq_refl) as [Hpv [_ Hcl]]. intros Hpath. exfalso.
  assert (Hin : target ∈ v') by (eapply (closed_path ps v'); [|done|done]; intros a Ha; by apply Hcl).
  by destruct (Hcl _ Hin).
Qed.
End search.
