(* ===== verification/Epoll.v ===== *)
(** * epoll

    The epoll system calls (systemcall/implementations/polling.rs) and the wait for one event
    of one object (polling/wait.rs), over the pollers of Poller and the threads of Threads.

    [Sys] is what the calls see: the threads, the pollers, how the other objects answer when
    asked for an event, and user memory.  A call that sleeps is a loop over [Round]s: what
    the others do between the announcement of the sleep and the second look, and what they
    do while the thread is away. *)

From stdpp Require Import sets.
From S2P Require Import Prelude Errors Clock Blocking Polling SignalData Threads Futex Signals ProcessWait Poller Ioctl.

Open Scope Z_scope.

(** ** Data *)

(** [EpollEvents] *)
Definition EPOLLIN : Z := 0x001.
Definition EPOLLPRI : Z := 0x002.
Definition EPOLLOUT : Z := 0x004.
Definition EPOLLERR : Z := 0x008.
Definition EPOLLHUP : Z := 0x010.
Definition EPOLLRDHUP : Z := 0x2000.
Definition EPOLLET : Z := 0x80000000.
Definition EPOLLONESHOT : Z := 0x40000000.

Definition EPOLL_CLOEXEC : Z := 524288.

Module EpollCtlOp.
Inductive EpollCtlOp : Type := Add | Del | Mod.
End EpollCtlOp.
Abbreviation EpollCtlOp := EpollCtlOp.EpollCtlOp.

(** [EpollCtlOp::try_from] *)
Definition epoll_ctl_op (op : Z) : option EpollCtlOp :=
  if op =? 1 then Some EpollCtlOp.Add
  else if op =? 2 then Some EpollCtlOp.Del
  else if op =? 3 then Some EpollCtlOp.Mod
  else None.

Record LinuxEpollEvent := mkEpollEvent { ev_events : Z; ev_data : Z }.

(** The structure is packed. *)
Definition EPOLL_EVENT_SIZE : Z := 12.

Record Sys (M : Type) := mkSys {
  s_world : World;
  s_pollers : Pollers;
  s_env : Z → option (PollableEvent → bool);
  s_mem : M;
}.
Arguments mkSys {M} s_world s_pollers s_env s_mem.
Arguments s_world {M} s.
Arguments s_pollers {M} s.
Arguments s_env {M} s _.
Arguments s_mem {M} s.

Definition with_s_world {M} (s : Sys M) (w : World) : Sys M := mkSys w s.(s_pollers) s.(s_env) s.(s_mem).
Definition with_s_pollers {M} (s : Sys M) (ps : Pollers) : Sys M := mkSys s.(s_world) ps s.(s_env) s.(s_mem).
Definition with_s_mem {M} (s : Sys M) (m : M) : Sys M := mkSys s.(s_world) s.(s_pollers) s.(s_env) m.

Record Round (M : Type) := mkRound { between : Sys M → Sys M; during : Sys M → Sys M }.
Arguments mkRound {M} between during.
Arguments between {M} r _.
Arguments during {M} r _.

Definition epoll_interest_entries (bits : Z) : list (bool * PollableEvent * Z) :=
  let has f := flag_set bits f in
  let watch_any := has EPOLLIN || has EPOLLPRI || has EPOLLOUT in
  [(has EPOLLIN, PollableEvent.CanBeRead, EPOLLIN);
   (has EPOLLPRI, PollableEvent.Priority, EPOLLPRI);
   (has EPOLLOUT, PollableEvent.CanBeWritten, EPOLLOUT);
   (watch_any || has EPOLLERR, PollableEvent.Error, EPOLLERR);
   (watch_any || has EPOLLHUP, PollableEvent.Closed, EPOLLHUP);
   (watch_any || has EPOLLRDHUP, PollableEvent.ReadClosed, EPOLLRDHUP)].

Section epoll.
Context {M : Type} `{um_event : UserMemory M LinuxEpollEvent} `{um_word : UserMemory M Z} `{um_time : UserMemory M LinuxTimespec}.
(** The calling thread, its descriptors, the device behind a file, and the objects that can
    be polled but not by epoll. *)
Context (t : Z) (fds : Z → option Z) (poll_identity_object : Z → Z) (supports_epoll : Z → bool).

(** [ObjectRef::from_u64] *)
Definition object_arg (fd : Z) : result SyscallError Z := ok_or (fds fd) SyscallError.BadFileDescriptor.

Definition is_pollable (s : Sys M) (o : Z) : bool :=
  bool_decide (alive s.(s_pollers) o) || match s.(s_env) o with Some _ => true | None => false end.

(** [as_epoll_poller] *)
Definition as_epoll_poller (s : Sys M) (o : Z) : result SyscallError Z :=
  if decide (alive s.(s_pollers) o) then Ok o else Err SyscallError.InvalidArguments.

(** ** Creation: [new] is the address of the new object; the descriptor's flags *)

Definition create_epoll (s : Sys M) (new flags : Z) : Z * Sys M := (flags, with_s_pollers s (poller_new s.(s_pollers) new)).

Definition epoll_create (s : Sys M) (new size : Z) : result SyscallError Z * Sys M :=
  if size <=? 0 then (Err SyscallError.InvalidArguments, s)
  else let '(f, s) := create_epoll s new 0 in (Ok f, s).

Definition epoll_create1 (s : Sys M) (new flags : Z) : result SyscallError Z * Sys M :=
  try flags := flags_from_bits EPOLL_CLOEXEC flags with s in
  let '(f, s) := create_epoll s new (if flag_set flags EPOLL_CLOEXEC then FD_CLOEXEC else 0) in (Ok f, s).

(** ** Control *)

Definition epoll_update_impl (s : Sys M) (poller target bits data : Z) : result SyscallError Z * Sys M :=
  let target := poll_identity_object target in
  bail SyscallError.PermissionDenied when negb (is_pollable s target) with s;
  bail SyscallError.PermissionDenied when negb (bool_decide (alive s.(s_pollers) target) || supports_epoll target) with s;
  let ps := foldl (λ ps x,
    let '(enabled, event, ready_bits) := x in
    if (enabled : bool)
    then register_obj_with_ready_bits ps poller target event data ready_bits (flag_set bits EPOLLONESHOT) (flag_set bits EPOLLET)
    else ps) s.(s_pollers) (epoll_interest_entries bits) in
  (Ok 0, with_s_pollers s ps).

(** EPOLL_CTL_ADD, with the target known not to be registered. *)
Definition epoll_add (s : Sys M) (poller target event : Z) : result SyscallError Z * Sys M :=
  bail SyscallError.BadAddress when event =? 0 with s;
  bail SyscallError.InvalidArguments when poller =? target with s;
  bail SyscallError.TooManySymbolicLinks when
    bool_decide (alive s.(s_pollers) target) && has_epoll_path_to s.(s_pollers) poller target with s;
  bail SyscallError.InvalidArguments when would_exceed_epoll_nesting_depth s.(s_pollers) target with s;
  let '(r, m) := user_read (T := LinuxEpollEvent) s.(s_mem) event in
  let s := with_s_mem s m in
  try ev := r with s in
  let s := with_s_pollers s (remember_registration s.(s_pollers) poller target) in
  epoll_update_impl s poller target ev.(ev_events) ev.(ev_data).

Definition epoll_mod (s : Sys M) (poller target event : Z) : result SyscallError Z * Sys M :=
  bail SyscallError.BadAddress when event =? 0 with s;
  let '(r, m) := user_read (T := LinuxEpollEvent) s.(s_mem) event in
  let s := with_s_mem s m in
  try ev := r with s in
  let ps := foldl (λ ps e, unregister_obj ps poller target e) s.(s_pollers)
    [PollableEvent.CanBeRead; PollableEvent.CanBeWritten; PollableEvent.Priority; PollableEvent.Error;
     PollableEvent.Closed; PollableEvent.ReadClosed] in
  let s := with_s_pollers s (remember_registration ps poller target) in
  epoll_update_impl s poller target ev.(ev_events) ev.(ev_data).

Definition epoll_ctl (s : Sys M) (poller_fd op target_fd event : Z) : result SyscallError Z * Sys M :=
  try poller := object_arg poller_fd with s in
  try target := object_arg target_fd with s in
  let target := poll_identity_object target in
  try poller := as_epoll_poller s poller with s in
  let is_registered := has_registration s.(s_pollers) poller target in
  match epoll_ctl_op op with
  | None => (Err SyscallError.InvalidArguments, s)
  | Some EpollCtlOp.Add =>
      bail SyscallError.FileAlreadyExists when is_registered with s;
      epoll_add s poller target event
  | Some EpollCtlOp.Mod =>
      bail SyscallError.FileNotFound when negb is_registered with s;
      epoll_mod s poller target event
  | Some EpollCtlOp.Del =>
      bail SyscallError.FileNotFound when negb is_registered with s;
      (Ok 0, with_s_pollers s (unregister_object s.(s_pollers) poller target))
  end.

(** ** Waiting *)

(** [take_signal_interrupt() || has_pending_signal_handlers_ignoring_restart()] *)
Definition signalled (s : Sys M) : bool * Sys M :=
  let '(interrupted, w) := take_signal_interrupt t s.(s_world) in
  (interrupted || has_pending_signal_handlers_ignoring_restart w t, with_s_world s w).

Definition push_ready (s : Sys M) (poller : Z) : bool * Sys M :=
  let '(b, ps) := push_already_ready_events s.(s_env) s.(s_pollers) poller in (b, with_s_pollers s ps).

Definition has_woken (s : Sys M) (poller : Z) : bool := has_woken_events s.(s_pollers) poller.

Definition announce_sleep (s : Sys M) (poller : Z) (deadline : option Time) : Sys M :=
  with_s_world s (prepare_block_current s.(s_world) t (BlockType.WakeRequired (WakeType.Poller poller) deadline)).

Definition cancel_sleep (s : Sys M) : Sys M := with_s_world s (cancel_block s.(s_world) t).

(** [finish_block_current], and what the others do while the thread is away. *)
Definition sleep (s : Sys M) (others : Sys M → Sys M) : Sys M :=
  let '(at_once, w) := finish_block_current s.(s_world) t in
  let s := with_s_world s w in if at_once then s else others s.

(** What a look at the poller leads to. *)
Inductive Look (M : Type) : Type :=
  | Leave (r : result SyscallError Z) (s : Sys M)
  | Report (s : Sys M)
  | Again (s : Sys M)
  | Announced (s : Sys M).
Arguments Leave {M} r s.
Arguments Report {M} s.
Arguments Again {M} s.
Arguments Announced {M} s.

(** The loop of [epoll_wait_impl] up to the announcement of the sleep. *)
Definition first_look (poller timeout : Z) (deadline : option Time) (s : Sys M) : Look M :=
  let '(stop, s) := signalled s in
  if (stop : bool) then Leave (Err SyscallError.Interrupted) s
  else
    let '(_, s) := push_ready s poller in
    if has_woken s poller then Report s
    else if timeout =? 0 then Leave (Ok 0) s
    else if deadline_passed s.(s_world) deadline then Leave (Ok 0) s
    else Announced (announce_sleep s poller deadline).

(** From the announcement to the sleep. *)
Definition second_look (poller : Z) (s : Sys M) : Look M :=
  if has_pending_signal_handlers_ignoring_restart s.(s_world) t then Leave (Err SyscallError.Interrupted) (cancel_sleep s)
  else
    let '(stop, s) := signalled s in
    if stop || has_woken s poller then
      let s := cancel_sleep s in
      if (stop : bool) then Leave (Err SyscallError.Interrupted) s
      else
        let '(_, s) := push_ready s poller in
        let '(stop, s) := signalled s in
        if (stop : bool) then Leave (Err SyscallError.Interrupted) s
        else if has_woken s poller then Report s else Again s
    else Announced s.

Definition after_sleep (deadline : option Time) (s : Sys M) : Look M :=
  let '(stop, s) := signalled s in
  if (stop : bool) then Leave (Err SyscallError.Interrupted) s
  else if deadline_passed s.(s_world) deadline then Leave (Ok 0) s
  else Again s.

(** After the loop: the events are taken, and written one after the other. *)
Definition report (events_ptr maxevents poller : Z) (s : Sys M) : result SyscallError Z * Sys M :=
  let '(stop, s) := signalled s in
  if (stop : bool) then (Err SyscallError.Interrupted, s)
  else
    let '(woken, ps) := take_woken_events s.(s_pollers) poller maxevents in
    let s := with_s_pollers s ps in
    let '(r, m) := user_write_array s.(s_mem) events_ptr EPOLL_EVENT_SIZE (map (λ r, mkEpollEvent r.(r_bits) r.(r_data)) woken) in
    let s := with_s_mem s m in
    try _ := r with s in
    (Ok (zlen woken), s).

(** [None]: the thread is still asleep after the given rounds. *)
Fixpoint epoll_wait_loop (events_ptr maxevents poller timeout : Z) (deadline : option Time) (rounds : list (Round M)) (s : Sys M)
  : option (result SyscallError Z) * Sys M :=
  match first_look poller timeout deadline s with
  | Leave r s => (Some r, s)
  | Report s => let '(r, s) := report events_ptr maxevents poller s in (Some r, s)
  | Again s => (None, s)
  | Announced s =>
      match rounds with
      | [] => (None, s)
      | round :: rounds =>
          match second_look poller (round.(between) s) with
          | Leave r s => (Some r, s)
          | Report s => let '(r, s) := report events_ptr maxevents poller s in (Some r, s)
          | Again s => epoll_wait_loop events_ptr maxevents poller timeout deadline rounds s
          | Announced s =>
              match after_sleep deadline (sleep s round.(during)) with
              | Leave r s => (Some r, s)
              | Report s => (None, s)
              | Again s => epoll_wait_loop events_ptr maxevents poller timeout deadline rounds s
              | Announced s => (None, s)
              end
          end
      end
  end.

(** The end of [InterruptibleWaitGuard]: a call that is still asleep keeps it. *)
Definition end_wait {A} (x : option A * Sys M) : option A * Sys M :=
  match x with
  | (None, s) => (None, s)
  | (Some r, s) => (Some r, with_s_world s (set_interruptible t s.(s_world) false))
  end.

Definition epoll_deadline (s : Sys M) (timeout : Z) : option Time :=
  if timeout <? 0 then None else Some (add_ms (mkTime s.(s_world).(now)) timeout).

Definition epoll_wait_impl (rounds : list (Round M)) (s : Sys M) (poller events_ptr maxevents timeout : Z)
  : option (result SyscallError Z) * Sys M :=
  let s := with_s_world s (set_interruptible t s.(s_world) true) in
  end_wait
    (if maxevents <=? 0 then (Some (Err SyscallError.InvalidArguments), s)
     else if events_ptr =? 0 then (Some (Err SyscallError.BadAddress), s)
     else
       match as_epoll_poller s poller with
       | Err e => (Some (Err e), s)
       | Ok poller => epoll_wait_loop events_ptr maxevents poller timeout (epoll_deadline s timeout) rounds s
       end).

Definition epoll_wait (rounds : list (Round M)) (s : Sys M) (poller_fd events_ptr maxevents timeout : Z)
  : option (result SyscallError Z) * Sys M :=
  match object_arg poller_fd with
  | Err e => (Some (Err e), s)
  | Ok poller => epoll_wait_impl rounds s poller events_ptr maxevents timeout
  end.

(** [with_temporary_signal_mask] around a call that may sleep; while it sleeps the mask
    stays. *)
Definition with_mask {A} (new_mask : option Z) (s : Sys M) (body : Sys M → option (result SyscallError A) * Sys M)
  : option (result SyscallError A) * Sys M :=
  match new_mask, s.(s_world).(threads) !! t with
  | Some new_mask, Some th =>
      let '(old_mask, th) := enter_temporary_mask th new_mask in
      match body (with_s_world s (map_thread s.(s_world) t (λ _, th))) with
      | (None, s) => (None, s)
      | (Some r, s) =>
          let interrupted := match r with Err SyscallError.Interrupted => true | _ => false end in
          if interrupted && has_temporary_unblocked_pending_signal_handlers s.(s_world) t then (Some r, s)
          else (Some r, with_s_world s (map_thread s.(s_world) t (λ th, leave_temporary_mask th old_mask)))
      end
  | _, _ => body s
  end.

(** The mask argument of the calls that have one: a null pointer is no mask. *)
Definition read_sigmask (m : M) (sigmask sigsetsize : Z) : result SyscallError (option Z) * M :=
  if sigmask =? 0 then (Ok None, m)
  else if negb (sigsetsize =? SIGSET_SIZE) then (Err SyscallError.InvalidArguments, m)
  else let '(r, m) := user_read (T := Z) m sigmask in (Some <$> r, m).

Definition epoll_pwait (rounds : list (Round M)) (s : Sys M) (poller_fd events_ptr maxevents timeout sigmask sigsetsize : Z)
  : option (result SyscallError Z) * Sys M :=
  match object_arg poller_fd with
  | Err e => (Some (Err e), s)
  | Ok poller =>
      let '(r, m) := read_sigmask s.(s_mem) sigmask sigsetsize in
      let s := with_s_mem s m in
      match r with
      | Err e => (Some (Err e), s)
      | Ok new_mask => with_mask new_mask s (λ s, epoll_wait_impl rounds s poller events_ptr maxevents timeout)
      end
  end.

Definition I32_MAX : Z := 2147483647.

(** Rounded up to milliseconds. *)
Definition epoll_pwait2_timeout_ms (m : M) (timeout : Z) : result SyscallError Z * M :=
  if timeout =? 0 then (Ok (-1), m)
  else
    let '(r, m) := user_read (T := LinuxTimespec) m timeout in
    try ts := r with m in
    bail SyscallError.InvalidArguments when
      (ts.(tv_sec) <? 0) || negb ((0 <=? ts.(tv_nsec)) && (ts.(tv_nsec) <? 1000000000)) with m;
    let ms := ts.(tv_sec) * 1000 + ts.(tv_nsec) / 1000000 + (if ts.(tv_nsec) mod 1000000 =? 0 then 0 else 1) in
    (Ok (Z.min ms I32_MAX), m).

Definition epoll_pwait2 (rounds : list (Round M)) (s : Sys M) (poller_fd events_ptr maxevents timeout sigmask sigsetsize : Z)
  : option (result SyscallError Z) * Sys M :=
  match object_arg poller_fd with
  | Err e => (Some (Err e), s)
  | Ok poller =>
      let '(r, m) := read_sigmask s.(s_mem) sigmask sigsetsize in
      match r with
      | Err e => (Some (Err e), with_s_mem s m)
      | Ok new_mask =>
          let '(r, m) := epoll_pwait2_timeout_ms m timeout in
          let s := with_s_mem s m in
          match r with
          | Err e => (Some (Err e), s)
          | Ok timeout => with_mask new_mask s (λ s, epoll_wait_impl rounds s poller events_ptr maxevents timeout)
          end
      end
  end.

(** ** One event of one object (polling/wait.rs) *)

Definition has_pending_signal (w : World) : bool :=
  match parent_of w t with Some pr => negb (pr.(p_pending_signals) =? 0) | None => false end ||
  match w.(threads) !! t with Some th => negb (th.(pending_signals) =? 0) | None => false end.

(** [new]: the address of the poller of the call; it is dropped at every return.  [None]:
    still asleep, since no round was given. *)
Definition wait_for_object_event_interruptible (new object : Z) (event : PollableEvent) (round : option (Round M)) (s : Sys M)
  : option (result ObjectError unit) * Sys M :=
  let s := with_s_pollers s (register_obj (poller_new s.(s_pollers) new) new object event 0) in
  let leave r s := (Some r, with_s_pollers s (poller_drop (take_woken_events s.(s_pollers) new 1).2 new)) in
  let '(_, s) := push_ready s new in
  if has_woken s new then leave (Ok tt) s
  else if has_pending_signal s.(s_world) then (Some (Err ObjectError.Interrupted), with_s_pollers s (poller_drop s.(s_pollers) new))
  else
    let s := announce_sleep (with_s_world s (set_interruptible t s.(s_world) true)) new None in
    match round with
    | None => (None, s)
    | Some round =>
        let s := round.(between) s in
        let s := if has_woken s new then s else (push_ready s new).2 in
        let '(r, s) :=
          if has_woken s new then (Ok tt, cancel_sleep s)
          else
            let s := sleep s round.(during) in
            let '(interrupted, w) := take_signal_interrupt t s.(s_world) in
            let s := with_s_world s w in
            (if interrupted || has_pending_signal w then Err ObjectError.Interrupted else Ok tt, s) in
        leave r (with_s_world s (set_interruptible t s.(s_world) false))
    end.
End epoll.

Arguments Leave {M} r s.
Arguments Report {M} s.
Arguments Again {M} s.
Arguments Announced {M} s.
