(* ===== verification/PollSelect.v ===== *)
(** * poll and select

    The calls poll, ppoll, select and pselect6 (systemcall/implementations/poll.rs and
    select.rs): each makes a poller of its own, registers what the caller asked for, sleeps
    at most once and translates what the poller collected. *)

From stdpp Require Import sets.
From S2P Require Import Prelude Errors Clock Blocking Polling SignalData Threads Futex Signals ProcessWait Poller Epoll.

Open Scope Z_scope.

(** ** Data *)

(** [PollEvents] *)
Definition POLLIN : Z := 0x001.
Definition POLLPRI : Z := 0x002.
Definition POLLOUT : Z := 0x004.
Definition POLLERR : Z := 0x008.
Definition POLLHUP : Z := 0x010.
Definition POLLNVAL : Z := 0x020.
Definition POLLRDNORM : Z := 0x040.
Definition POLLRDBAND : Z := 0x080.
Definition POLLWRNORM : Z := 0x100.
Definition POLLWRBAND : Z := 0x200.
Definition POLLRDHUP : Z := 0x2000.

Record LinuxPollFd := mkPollFd { pfd_fd : Z; pfd_events : Z; pfd_revents : Z }.

Definition POLLFD_SIZE : Z := 8.

Definition with_revents (p : LinuxPollFd) (r : Z) : LinuxPollFd := mkPollFd p.(pfd_fd) p.(pfd_events) r.

Record Timeval := mkTimeval { t_sec : Z; t_usec : Z }.

Record SigSetWithSize := mkSigSet { ss_sigmask : Z; ss_sigsetsize : Z }.

(** ** Events *)

(** [bits.intersects(flags)] *)
Definition intersects (bits flags : Z) : bool := flag_set bits flags.

Definition then_some {A} (b : bool) (x : A) : option A := if b then Some x else None.

Definition kernel_events_for (bits : Z) : list (option PollableEvent) :=
  let watch_read := intersects bits (Z.lor POLLIN POLLRDNORM) in
  let watch_priority := intersects bits (Z.lor POLLPRI POLLRDBAND) in
  let watch_write := intersects bits (Z.lor POLLOUT (Z.lor POLLWRNORM POLLWRBAND)) in
  let watch_any := watch_read || watch_priority || watch_write in
  [then_some watch_read PollableEvent.CanBeRead;
   then_some watch_priority PollableEvent.Priority;
   then_some watch_write PollableEvent.CanBeWritten;
   then_some (watch_any || flag_set bits POLLERR) PollableEvent.Error;
   then_some (watch_any || flag_set bits POLLHUP) PollableEvent.Closed;
   then_some (watch_any || flag_set bits POLLRDHUP) PollableEvent.ReadClosed].

Definition translate_ready_events (requested kernel_events : Z) : Z :=
  let add (flag out translated : Z) := if flag_set kernel_events flag then Z.lor translated out else translated in
  let translated := 0 in
  let translated := add POLLIN (Z.land requested (Z.lor POLLIN POLLRDNORM)) translated in
  let translated := add POLLPRI (Z.land requested (Z.lor POLLPRI POLLRDBAND)) translated in
  let translated := add POLLOUT (Z.land requested (Z.lor POLLOUT (Z.lor POLLWRNORM POLLWRBAND))) translated in
  let translated := add POLLERR POLLERR translated in
  let translated := add POLLHUP POLLHUP translated in
  let translated := add POLLRDHUP (Z.land requested (Z.lor POLLIN POLLRDNORM)) translated in
  add POLLRDHUP (Z.land requested POLLRDHUP) translated.

Definition count_ready (fds : list LinuxPollFd) : Z := zlen (filter (λ p, p.(pfd_revents) ≠ 0) fds).

Definition saturating_timeout_ms (timeout : LinuxTimespec) : result SyscallError Z :=
  if (timeout.(tv_sec) <? 0) || (timeout.(tv_nsec) <? 0) || (1000000000 <=? timeout.(tv_nsec)) then Err SyscallError.InvalidArguments
  else if I32_MAX / 1000 <? timeout.(tv_sec) then Ok I32_MAX
  else Ok (swrap 32 (swrap 32 (timeout.(tv_sec) * 1000) + timeout.(tv_nsec) / 1000000)).

Definition timeout_to_deadline_value (w : World) (timeout : LinuxTimespec) : result SyscallError Time :=
  if (timeout.(tv_sec) <? 0) || (timeout.(tv_nsec) <? 0) || (1000000000 <=? timeout.(tv_nsec)) then Err SyscallError.InvalidArguments
  else Ok (add_ns (mkTime w.(now)) (sat_add 64 (sat_mul 64 timeout.(tv_sec) 1000000000) timeout.(tv_nsec))).

Definition timeval_to_timespec (timeout : Timeval) : result SyscallError LinuxTimespec :=
  if (timeout.(t_sec) <? 0) || (timeout.(t_usec) <? 0) || (1000000 <=? timeout.(t_usec)) then Err SyscallError.InvalidArguments
  else Ok (mkTimespec timeout.(t_sec) (timeout.(t_usec) * 1000)).

(** The answer of a call whose value is known. *)
Definition with_value {A B} (b : B) (r : option (result SyscallError A)) : option (result SyscallError B) :=
  match r with Some (Ok _) => Some (Ok b) | Some (Err e) => Some (Err e) | None => None end.

Section calls.
Context {M : Type} `{um_pollfd : UserMemory M LinuxPollFd} `{um_word : UserMemory M Z} `{um_time : UserMemory M LinuxTimespec}
  `{um_timeval : UserMemory M Timeval} `{um_sigset : UserMemory M SigSetWithSize}.
(** The calling thread, its descriptors, the device behind a file, and its limit of open
    descriptors. *)
Context (t : Z) (fds : Z → option Z) (poll_identity_object : Z → Z) (rlimit_nofile_cur : Z).

(** [is_event_ready] of an object; [None] when it cannot be polled. *)
Definition object_ready (s : Sys M) (o : Z) (e : PollableEvent) : option bool :=
  match s.(s_pollers).(pollers) !! o with
  | Some po => Some (poller_ready po e)
  | None => (λ ready, ready e) <$> s.(s_env) o
  end.

(** ** poll *)

Definition pollfd_mask : Z :=
  Z.lor POLLIN (Z.lor POLLPRI (Z.lor POLLRDNORM (Z.lor POLLRDBAND (Z.lor POLLOUT (Z.lor POLLWRNORM POLLWRBAND))))).

(** One entry of the array: itself, the pollers, and whether it is active and invalid. *)
Definition register_pollfd (s : Sys M) (poller index : Z) (p : LinuxPollFd) : LinuxPollFd * Sys M * bool * bool :=
  if p.(pfd_fd) <? 0 then (p, s, false, false)
  else
    match fds p.(pfd_fd) with
    | None => (with_revents p (Z.lor p.(pfd_revents) POLLNVAL), s, true, true)
    | Some o =>
        let o := poll_identity_object o in
        if is_pollable s o then
          (p, with_s_pollers s (foldl (λ ps e, register_obj ps poller o e index) s.(s_pollers) (omap (λ x, x) (kernel_events_for p.(pfd_events)))),
           true, false)
        else (with_revents p (Z.lor p.(pfd_revents) (Z.land p.(pfd_events) pollfd_mask)), s, true, false)
    end.

Fixpoint register_pollfds (s : Sys M) (poller index : Z) (ps : list LinuxPollFd) (active invalid : Z)
  : list LinuxPollFd * Sys M * Z * Z :=
  match ps with
  | [] => ([], s, active, invalid)
  | p :: ps =>
      let '(p, s, a, i) := register_pollfd s poller index p in
      let '(ps, s, active, invalid) :=
        register_pollfds s poller (index + 1) ps (if a : bool then active + 1 else active) (if i : bool then invalid + 1 else invalid) in
      (p :: ps, s, active, invalid)
  end.

(** One sleep, without a second look; [None]: no round was given. *)
Definition sleep_once (s : Sys M) (b : BlockType) (round : option (Round M)) : bool * Sys M :=
  let s := with_s_world s (prepare_block_current s.(s_world) t b) in
  match round with
  | None => (false, s)
  | Some round => (true, sleep t (round.(between) s) round.(during))
  end.

Definition wait_on_poller (s : Sys M) (poller timeout_ms : Z) (round : option (Round M)) : option unit * Sys M :=
  let s := if has_woken s poller then s else (push_ready s poller).2 in
  if has_woken s poller then (Some tt, s)
  else if timeout_ms =? 0 then (Some tt, s)
  else
    let deadline := if timeout_ms <? 0 then None else Some (add_ms (mkTime s.(s_world).(now)) timeout_ms) in
    let '(woken, s) := sleep_once s (BlockType.WakeRequired (WakeType.Poller poller) deadline) round in
    if woken then (Some tt, cancel_sleep t s) else (None, s).

(** [block_current_with_sig_check], with the rounds left. *)
Definition block_round (s : Sys M) (b : BlockType) (round : option (Round M)) : option (result ObjectError unit) * Sys M :=
  let '(pending, w) := has_interrupting_pending_signal s.(s_world) t in
  let s := with_s_world s w in
  if (pending : bool) then (Some (Err ObjectError.Interrupted), s)
  else
    let '(woken, s) := sleep_once s b round in
    if woken then
      let '(pending, w) := has_interrupting_pending_signal s.(s_world) t in
      (Some (if pending : bool then Err ObjectError.Interrupted else Ok tt), with_s_world s w)
    else (None, s).

Fixpoint sleep_forever (s : Sys M) (rounds : list (Round M)) : option (result ObjectError unit) * Sys M :=
  match block_round s (BlockType.WakeRequired WakeType.IO None) (head rounds) with
  | (Some (Ok _), s) => match rounds with [] => (None, s) | _ :: rounds => sleep_forever s rounds end
  | x => x
  end.

Definition poll_sleep_without_fds (s : Sys M) (timeout_ms : Z) (rounds : list (Round M)) : option (result SyscallError unit) * Sys M :=
  if timeout_ms =? 0 then (Some (Ok tt), s)
  else
    let '(r, s) :=
      if timeout_ms <? 0 then sleep_forever s rounds
      else block_round s (BlockType.SetTime (add_ms (mkTime s.(s_world).(now)) timeout_ms)) (head rounds) in
    (map_err object_error_as_syscall_error <$> r, s).

(** The bits collected for each entry. *)
Definition ready_by_index (n : nat) (woken : list PollerReadyEvent) : list Z :=
  foldl (λ bits r, alter (λ b, Z.lor b r.(r_bits)) (Z.to_nat r.(r_data)) bits) (replicate n 0) woken.

Definition translate_all (ps : list LinuxPollFd) (bits : list Z) : list LinuxPollFd :=
  zip_with (λ p b, if b =? 0 then p else with_revents p (Z.lor p.(pfd_revents) (translate_ready_events p.(pfd_events) b))) ps bits.

(** The array after the call, with the number of ready entries.  [new] is the address of
    the poller, which is dropped at the end. *)
Definition poll_impl (new : Z) (rounds : list (Round M)) (s : Sys M) (ps : list LinuxPollFd) (timeout_ms : Z)
  : option (result SyscallError (Z * list LinuxPollFd)) * Sys M :=
  let ps := map (λ p, with_revents p 0) ps in
  if bool_decide (ps = []) then
    let '(r, s) := poll_sleep_without_fds s timeout_ms rounds in (with_value (0, ps) r, s)
  else
    let s := with_s_pollers s (poller_new s.(s_pollers) new) in
    let '(ps, s, active, invalid) := register_pollfds s new 0 ps 0 0 in
    let leave ps s := (Some (Ok (count_ready ps, ps)), with_s_pollers s (poller_drop s.(s_pollers) new)) in
    if (0 <? invalid) && (invalid =? active) then leave ps s
    else
      let '(already_ready, s) := push_ready s new in
      let '(done, s) :=
        if (count_ready ps =? 0) && negb already_ready then wait_on_poller s new timeout_ms (head rounds) else (Some tt, s) in
      match done with
      | None => (None, s)
      | Some _ =>
          let '(woken, pollers) := take_woken_events s.(s_pollers) new (zlen ps) in
          leave (translate_all ps (ready_by_index (length ps) woken)) (with_s_pollers s pollers)
      end.

Definition check_nfds_limit (nfds : Z) : result SyscallError unit :=
  if rlimit_nofile_cur <? nfds then Err SyscallError.InvalidArguments else Ok tt.

Definition read_pollfds (m : M) (ptr nfds : Z) : result SyscallError (list LinuxPollFd) * M :=
  user_read_array m ptr POLLFD_SIZE (Z.to_nat nfds).

(** The array is written back after a call that did not fail. *)
Definition write_back (ptr : Z) (x : option (result SyscallError (Z * list LinuxPollFd)) * Sys M) : option (result SyscallError Z) * Sys M :=
  match x with
  | (Some (Ok (n, ps)), s) =>
      let '(r, m) := user_write_array s.(s_mem) ptr POLLFD_SIZE ps in (Some ((λ _, n) <$> r), with_s_mem s m)
  | (Some (Err e), s) => (Some (Err e), s)
  | (None, s) => (None, s)
  end.

Definition poll (new : Z) (rounds : list (Round M)) (s : Sys M) (ptr nfds timeout : Z) : option (result SyscallError Z) * Sys M :=
  match check_nfds_limit nfds with
  | Err e => (Some (Err e), s)
  | Ok _ =>
      if (ptr =? 0) && negb (nfds =? 0) then (Some (Err SyscallError.BadAddress), s)
      else
        let '(r, m) := read_pollfds s.(s_mem) ptr nfds in
        let s := with_s_mem s m in
        match r with
        | Err e => (Some (Err e), s)
        | Ok ps => write_back ptr (poll_impl new rounds s ps timeout)
        end
  end.

Definition ppoll_timeout (m : M) (timeout : Z) : result SyscallError Z * M :=
  if timeout =? 0 then (Ok (-1), m)
  else let '(r, m) := user_read (T := LinuxTimespec) m timeout in (r ≫= saturating_timeout_ms, m).

Definition ppoll (new : Z) (rounds : list (Round M)) (s : Sys M) (ptr nfds timeout sigmask sigsetsize : Z)
  : option (result SyscallError Z) * Sys M :=
  match check_nfds_limit nfds with
  | Err e => (Some (Err e), s)
  | Ok _ =>
      if negb (sigmask =? 0) && negb (sigsetsize =? SIGSET_SIZE) then (Some (Err SyscallError.InvalidArguments), s)
      else
        let '(r, m) := ppoll_timeout s.(s_mem) timeout in
        let s := with_s_mem s m in
        match r with
        | Err e => (Some (Err e), s)
        | Ok timeout_ms =>
            if (ptr =? 0) && negb (nfds =? 0) then (Some (Err SyscallError.BadAddress), s)
            else
              let '(r, m) := read_sigmask s.(s_mem) sigmask sigsetsize in
              let s := with_s_mem s m in
              match r with
              | Err e => (Some (Err e), s)
              | Ok new_mask =>
                  let '(r, m) := read_pollfds s.(s_mem) ptr nfds in
                  let s := with_s_mem s m in
                  match r with
                  | Err e => (Some (Err e), s)
                  | Ok ps => write_back ptr (with_mask t new_mask s (λ s, poll_impl new rounds s ps timeout_ms))
                  end
              end
        end
  end.

(** ** select *)

Definition fdset_words (nfds : Z) : Z := (nfds + 63) / 64.

Definition read_fdset (m : M) (fdset nfds : Z) : result SyscallError (option (list Z)) * M :=
  if fdset =? 0 then (Ok None, m)
  else let '(r, m) := user_read_array (T := Z) m fdset 8 (Z.to_nat (fdset_words nfds)) in (Some <$> r, m).

Definition fdset_slice_contains (fdset : list Z) (fd : nat) : bool :=
  match fdset !! (fd / 64)%nat with Some word => Z.testbit word (Z.of_nat (fd mod 64)) | None => false end.

(** The answers so far: for one event, for any event, and how many descriptors. *)
Record Ready := mkReady_ { ready_fds : list bool; unique_count : Z }.

Definition mark_ready (fd : nat) (event_ready : list bool) (r : Ready) : list bool * Ready :=
  (<[fd := true]> event_ready,
   if default false (r.(ready_fds) !! fd) then r else mkReady_ (<[fd := true]> r.(ready_fds)) (r.(unique_count) + 1)).

(** The descriptors of the set, in order. *)
Fixpoint register_fds (fdset : list Z) (poller : Z) (watched : PollableEvent) (numbers : list nat) (s : Sys M)
    (event_ready : list bool) (r : Ready) : result SyscallError (list bool * Ready) * Sys M :=
  match numbers with
  | [] => (Ok (event_ready, r), s)
  | fd :: numbers =>
      if fdset_slice_contains fdset fd then
        match fds (Z.of_nat fd) with
        | None => (Err (object_error_as_syscall_error ObjectError.DoesNotExist), s)
        | Some o =>
            let o := poll_identity_object o in
            match object_ready s o watched with
            | Some ready =>
                let '(event_ready, r) := if (ready : bool) then mark_ready fd event_ready r else (event_ready, r) in
                register_fds fdset poller watched numbers (with_s_pollers s (register_obj s.(s_pollers) poller o watched (Z.of_nat fd)))
                  event_ready r
            | None =>
                let '(event_ready, r) := mark_ready fd event_ready r in
                register_fds fdset poller watched numbers s event_ready r
            end
        end
      else register_fds fdset poller watched numbers s event_ready r
  end.

(** [register_interest] of select.rs *)
Definition register_interest_set (poller : Z) (fdset : option (list Z)) (nfds : Z) (watched : PollableEvent) (s : Sys M)
    (event_ready : list bool) (r : Ready) : result SyscallError (list bool * Ready) * Sys M :=
  match fdset with
  | None => (Ok (event_ready, r), s)
  | Some fdset => register_fds fdset poller watched (seq 0 (Z.to_nat nfds)) s event_ready r
  end.

Record Sets := mkSets { read_ready : list bool; write_ready : list bool; except_ready : list bool; ready_any : Ready }.

Definition set_at (i : nat) (l : list bool) : list bool := <[i := true]> l.

(** One collected event. *)
Definition collect_one (nfds : Z) (x : Sets) (e : PollerReadyEvent) : Sets :=
  if nfds <=? e.(r_data) then x
  else
    let fd := Z.to_nat e.(r_data) in
    let any := snd (mark_ready fd [] x.(ready_any)) in
    match e.(r_event) with
    | PollableEvent.CanBeRead | PollableEvent.Closed | PollableEvent.ReadClosed =>
        mkSets (set_at fd x.(read_ready)) x.(write_ready) x.(except_ready) any
    | PollableEvent.CanBeWritten => mkSets x.(read_ready) (set_at fd x.(write_ready)) x.(except_ready) any
    | PollableEvent.Error => mkSets x.(read_ready) x.(write_ready) (set_at fd x.(except_ready)) any
    | _ => mkSets x.(read_ready) x.(write_ready) x.(except_ready) any
    end.

Definition collect_ready (poller nfds : Z) (x : Sets) (s : Sys M) : Sets * Sys M :=
  let '(woken, ps) := take_woken_events s.(s_pollers) poller nfds in
  (foldl (collect_one nfds) x woken, with_s_pollers s ps).

Definition count_true (l : list bool) : Z := zlen (filter (λ b, b = true) l).

Definition count_ready_sets (x : Sets) : Z := count_true x.(read_ready) + count_true x.(write_ready) + count_true x.(except_ready).

(** The bits of one word. *)
Definition fdset_word (ready : list bool) (word_index : nat) : Z :=
  foldl (λ word bit,
    if default false (ready !! (word_index * 64 + bit)%nat) then Z.lor word (Z.shiftl 1 (Z.of_nat bit)) else word) 0 (seq 0 64).

Definition rewrite_fdset (m : M) (fdset : Z) (ready : list bool) (nfds : Z) : result SyscallError unit * M :=
  if fdset =? 0 then (Ok tt, m)
  else user_write_array (T := Z) m fdset 8 (map (fdset_word ready) (seq 0 (Z.to_nat (fdset_words nfds)))).

(** [block_on_poller]; [None]: asleep, since no round was given. *)
Definition block_on_poller (poller : Z) (deadline : option Time) (round : option (Round M)) (s : Sys M)
  : option (result SyscallError unit) * Sys M :=
  if has_woken s poller then (Some (Ok tt), s)
  else
    let '(pushed, s) := push_ready s poller in
    if (pushed : bool) then (Some (Ok tt), s)
    else if has_unblocked_pending_signals s.(s_world) t then (Some (Err SyscallError.Interrupted), s)
    else
      let '(woken, s) := sleep_once s (BlockType.WakeRequired (WakeType.Poller poller) deadline) round in
      if woken then
        let s := cancel_sleep t s in
        (Some (if has_unblocked_pending_signals s.(s_world) t then Err SyscallError.Interrupted else Ok tt), s)
      else (None, s).

(** [sleep_without_fds] of select.rs *)
Definition select_sleep_without_fds (deadline : option Time) (round : option (Round M)) (s : Sys M)
  : option (result SyscallError unit) * Sys M :=
  if has_unblocked_pending_signals s.(s_world) t then (Some (Err SyscallError.Interrupted), s)
  else
    let b := match deadline with Some d => BlockType.SetTime d | None => BlockType.WakeRequired WakeType.IO None end in
    let '(woken, s) := sleep_once s b round in
    if woken then
      let s := cancel_sleep t s in
      (Some (if has_unblocked_pending_signals s.(s_world) t then Err SyscallError.Interrupted else Ok tt), s)
    else (None, s).

(** [timeout.map(timeout_to_deadline_value).transpose()] *)
Definition select_deadline (w : World) (timeout : option LinuxTimespec) : result SyscallError (option Time) :=
  match timeout with None => Ok None | Some ts => Some <$> timeout_to_deadline_value w ts end.

(** The six registrations: which set, which event, and which answers it sets. *)
Definition register_sets (poller nfds : Z) (readfds writefds exceptfds : option (list Z)) (s : Sys M) : result SyscallError Sets * Sys M :=
  let none := replicate (Z.to_nat nfds) false in
  let reg fdset e s l r k :=
    match register_interest_set poller fdset nfds e s l r with
    | (Ok (l, r), s) => k l r s
    | (Err e, s) => (Err e, s)
    end in
  reg readfds PollableEvent.CanBeRead s none (mkReady_ none 0) (λ rd r s,
  reg readfds PollableEvent.Closed s rd r (λ rd r s,
  reg readfds PollableEvent.ReadClosed s rd r (λ rd r s,
  reg writefds PollableEvent.CanBeWritten s none r (λ wr r s,
  reg writefds PollableEvent.Closed s wr r (λ wr r s,
  reg exceptfds PollableEvent.Error s none r (λ ex r s,
  (Ok (mkSets rd wr ex r), s))))))).

(** After the sleep: collecting and the three answers. *)
Definition select_finish (poller nfds readfds writefds exceptfds : Z) (x : Sets) (s : Sys M) : result SyscallError Z * Sys M :=
  let '(x, s) := collect_ready poller nfds x s in
  let '(r, m) := rewrite_fdset s.(s_mem) readfds x.(read_ready) nfds in
  try _ := r with (with_s_mem s m) in
  let '(r, m) := rewrite_fdset m writefds x.(write_ready) nfds in
  try _ := r with (with_s_mem s m) in
  let '(r, m) := rewrite_fdset m exceptfds x.(except_ready) nfds in
  try _ := r with (with_s_mem s m) in
  (Ok (count_ready_sets x), with_s_mem s m).

Definition select_body (new : Z) (round : option (Round M)) (nfds readfds writefds exceptfds : Z) (timeout : option LinuxTimespec)
    (readfds_in writefds_in exceptfds_in : option (list Z)) (s : Sys M) : option (result SyscallError Z) * Sys M :=
  let timeout_is_zero := match timeout with Some ts => (ts.(tv_sec) =? 0) && (ts.(tv_nsec) =? 0) | None => false end in
  if nfds =? 0 then
    if timeout_is_zero then (Some (Ok 0), s)
    else
      match select_deadline s.(s_world) timeout with
      | Err e => (Some (Err e), s)
      | Ok deadline => let '(r, s) := select_sleep_without_fds deadline round s in (with_value 0 r, s)
      end
  else
    let drop s := with_s_pollers s (poller_drop s.(s_pollers) new) in
    let s := with_s_pollers s (poller_new s.(s_pollers) new) in
    match register_sets new nfds readfds_in writefds_in exceptfds_in s with
    | (Err e, s) => (Some (Err e), drop s)
    | (Ok x, s) =>
        let '(r, s) :=
          if (count_ready_sets x =? 0) && negb timeout_is_zero then
            match select_deadline s.(s_world) timeout with
            | Err e => (Some (Err e), s)
            | Ok deadline => block_on_poller new deadline round s
            end
          else (Some (Ok tt), s) in
        match r with
        | None => (None, s)
        | Some (Err e) => (Some (Err e), drop s)
        | Some (Ok _) => let '(r, s) := select_finish new nfds readfds writefds exceptfds x s in (Some r, drop s)
        end
    end.

Definition select_impl (new : Z) (round : option (Round M)) (s : Sys M) (nfds readfds writefds exceptfds : Z)
    (timeout : option LinuxTimespec) (requested_sigmask : option Z) : option (result SyscallError Z) * Sys M :=
  if nfds <? 0 then (Some (Err SyscallError.InvalidArguments), s)
  else
    let '(rd, m) := read_fdset s.(s_mem) readfds nfds in
    match rd with
    | Err e => (Some (Err e), with_s_mem s m)
    | Ok rd =>
        let '(wr, m) := read_fdset m writefds nfds in
        match wr with
        | Err e => (Some (Err e), with_s_mem s m)
        | Ok wr =>
            let '(ex, m) := read_fdset m exceptfds nfds in
            let s := with_s_mem s m in
            match ex with
            | Err e => (Some (Err e), s)
            | Ok ex => with_mask t requested_sigmask s (select_body new round nfds readfds writefds exceptfds timeout rd wr ex)
            end
        end
    end.

Definition select (new : Z) (round : option (Round M)) (s : Sys M) (nfds readfds writefds exceptfds timeout : Z)
  : option (result SyscallError Z) * Sys M :=
  if timeout =? 0 then select_impl new round s nfds readfds writefds exceptfds None None
  else
    let '(r, m) := user_read (T := Timeval) s.(s_mem) timeout in
    let s := with_s_mem s m in
    match r ≫= timeval_to_timespec with
    | Err e => (Some (Err e), s)
    | Ok ts => select_impl new round s nfds readfds writefds exceptfds (Some ts) None
    end.

Definition pselect6_mask (m : M) (sigmask : Z) : result SyscallError (option Z) * M :=
  if sigmask =? 0 then (Ok None, m)
  else
    let '(r, m) := user_read (T := SigSetWithSize) m sigmask in
    try ss := r with m in
    bail SyscallError.InvalidArguments when negb (ss.(ss_sigmask) =? 0) && negb (ss.(ss_sigsetsize) =? SIGSET_SIZE) with m;
    if ss.(ss_sigmask) =? 0 then (Ok None, m)
    else let '(r, m) := user_read (T := Z) m ss.(ss_sigmask) in (Some <$> r, m).

Definition pselect6 (new : Z) (round : option (Round M)) (s : Sys M) (nfds readfds writefds exceptfds timeout sigmask : Z)
  : option (result SyscallError Z) * Sys M :=
  let '(r, m) := pselect6_mask s.(s_mem) sigmask in
  let s := with_s_mem s m in
  match r with
  | Err e => (Some (Err e), s)
  | Ok requested_sigmask =>
      if timeout =? 0 then select_impl new round s nfds readfds writefds exceptfds None requested_sigmask
      else
        let '(r, m) := user_read (T := LinuxTimespec) s.(s_mem) timeout in
        let s := with_s_mem s m in
        match r with
        | Err e => (Some (Err e), s)
        | Ok ts => select_impl new round s nfds readfds writefds exceptfds (Some ts) requested_sigmask
        end
  end.
End calls.
