(* ===== verification/EpollProps.v ===== *)
(** * epoll and poll: no cycles, no lost events, exact answers

    The pollers stay consistent and without cycles under every operation; epoll_wait returns
    what is ready and misses no event that arrives around its sleep; poll with a timeout of
    zero answers exactly what is ready. *)

From stdpp Require Import sets fin_sets.
From S2P Require Import Prelude Errors Clock Blocking Polling SignalData Threads ThreadsProps Futex Signals SignalProps.
From S2P Require Import ProcessWait Poller PollerProps Epoll PollSelect.

Open Scope Z_scope.

(** ** The graph of pollers *)

(** Which objects each poller registered. *)
Definition registered (ps : Pollers) (p : Z) : option (list Z) := registered_objects <$> ps.(pollers) !! p.

Definition same_graph (ps ps' : Pollers) : Prop := ∀ p, registered ps' p = registered ps p.

Lemma same_graph_refl ps : same_graph ps ps.
Proof. done. Qed.

Lemma same_graph_trans ps1 ps2 ps3 : same_graph ps1 ps2 → same_graph ps2 ps3 → same_graph ps1 ps3.
Proof. intros H1 H2 p. by rewrite H2. Qed.

Lemma registered_alive ps p : alive ps p ↔ is_Some (registered ps p).
Proof. unfold alive, registered. by rewrite fmap_is_Some. Qed.

Lemma edge_registered ps a b : edge ps a b ↔ ∃ os, registered ps a = Some os ∧ b ∈ os ∧ is_Some (registered ps b).
Proof.
  unfold edge, child_pollers. setoid_rewrite <- registered_alive. unfold registered. destruct (ps.(pollers) !! a) as [po|]; cbn.
  - rewrite list_elem_of_filter. naive_solver.
  - split; [by intros ?%elem_of_nil|naive_solver].
Qed.

Lemma same_graph_edge ps ps' a b : same_graph ps ps' → edge ps' a b ↔ edge ps a b.
Proof. intros H. rewrite !edge_registered.
  by rewrite (H a), (H b). Qed.

Lemma same_graph_map ps p f : (∀ po, (f po).(registered_objects) = po.(registered_objects)) → same_graph ps (map_poller ps p f).
Proof.
  intros Hf q. unfold registered. cbn. destruct (decide (q = p)) as [->|]; [|by rewrite lookup_alter_ne].
  rewrite lookup_alter_eq. destruct (ps.(pollers) !! p); cbn; by rewrite ?Hf.
Qed.

Lemma same_graph_pollers ps ps' : ps'.(pollers) = ps.(pollers) → same_graph ps ps'.
Proof. intros H p. unfold registered. by rewrite H. Qed.

Lemma register_graph ps p o e d bits once edge : same_graph ps (register_obj_with_ready_bits ps p o e d bits once edge).
Proof.
  unfold register_obj_with_ready_bits. destruct (ps.(pollers) !! p) as [po|]; [|done].
  eapply same_graph_trans; [|by apply same_graph_map]. destruct (negb _); [|apply same_graph_map; done].
  eapply same_graph_trans; [|by apply same_graph_pollers]. by apply same_graph_map.
Qed.

Lemma unregister_graph ps p o e : same_graph ps (unregister_obj ps p o e).
Proof.
  unfold unregister_obj. destruct (ps.(pollers) !! p) as [po|]; [|done].
  eapply same_graph_trans; [|by apply same_graph_map]. destruct (existsb _ _); [|apply same_graph_map; done].
  eapply same_graph_trans; [|apply same_graph_pollers, remove_watcher_pollers]. by apply same_graph_map.
Qed.

Lemma foldl_graph {A} (f : Pollers → A → Pollers) l ps : (∀ ps a, same_graph ps (f ps a)) → same_graph ps (foldl f ps l).
Proof. intros Hf. revert ps. induction l as [|a l IH]; intros ps; [done|]. cbn. eapply same_graph_trans; [apply Hf|apply IH]. Qed.

Lemma foldl_ok {A} (f : Pollers → A → Pollers) l ps :
  (∀ ps a, a ∈ l → pollers_ok ps → pollers_ok (f ps a)) → pollers_ok ps → pollers_ok (foldl f ps l).
Proof.
  revert ps. induction l as [|a l IH]; intros ps Hf Hok; [done|]. cbn. apply IH; [|apply Hf; [by left|done]].
  intros ps' b Hb. apply Hf. by right.
Qed.

Lemma push_woken_graph env ps p o e : same_graph ps (push_woken_event env ps p o e).2.
Proof.
  unfold push_woken_event. destruct (ps.(pollers) !! p) as [po|]; [|done]. cbn [snd]. set (i := negb _). set (d := existsb _ _).
  destruct d, i; try done; try (by apply same_graph_map).
  eapply same_graph_trans; [|by apply same_graph_map]. by apply same_graph_map.
Qed.

Lemma push_already_graph env ps p : same_graph ps (push_already_ready_events env ps p).2.
Proof.
  unfold push_already_ready_events. destruct (ps.(pollers) !! p) as [po|]; [|done]. destruct (push_ready_loop _ _ _ _).
  by apply same_graph_map.
Qed.

Lemma take_graph ps p n : same_graph ps (take_woken_events ps p n).2.
Proof. unfold take_woken_events. destruct (ps.(pollers) !! p); [|done]. by apply same_graph_map. Qed.

Lemma notify_one_graph env o e n p : same_graph n.(n_pollers) (notify_one env o e n p).(n_pollers).
Proof.
  unfold notify_one. pose proof (push_woken_graph env n.(n_pollers) p o e) as H. destruct (push_woken_event env _ p o e) as [r ps].
  by destruct (_ && _).
Qed.

Lemma notify_all_graph env o e ws n : same_graph n.(n_pollers) (foldl (notify_one env o e) n ws).(n_pollers).
Proof.
  revert n. induction ws as [|p ws IH]; intros n; [done|]. cbn. eapply same_graph_trans; [apply notify_one_graph|apply IH].
Qed.

Lemma notify_loop_graph env fuel visited n n' : notify_loop env fuel visited n = Some n' → same_graph n.(n_pollers) n'.(n_pollers).
Proof.
  revert visited n. induction fuel as [|fuel IH]; intros visited [ps [|[o e] q] a]; cbn; try done; try (by intros [= <-]).
  case_decide; [apply IH|]. intros Hn. apply IH in Hn. eapply same_graph_trans; [|exact Hn].
  eapply same_graph_trans; [|apply notify_all_graph]. cbn [n_pollers].
  unfold interested_pollers. case_match; by apply same_graph_pollers.
Qed.

Lemma notify_keeps env o e ps affected ps' : pollers_ok ps → notify_pollers env ps o e = Some (affected, ps') →
  pollers_ok ps' ∧ same_graph ps ps'.
Proof.
  unfold notify_pollers, notify_fuel. intros Hok (n & Hn & [= _ ->])%fmap_Some_1. split; [|by apply notify_loop_graph in Hn].
  destruct (notify_loop_total env (S (size ps.(pollers))) ∅ (mkNotify ps [(o, e)] [])) as (n' & Hn' & Hok'); [|done|congruence].
  cbn. pose proof (quiet_size ps). lia.
Qed.

(** ** No cycles *)

Definition acyclic (ps : Pollers) : Prop := ∀ p, ¬ tc (edge ps) p p.

Lemma acyclic_sub ps ps' : (∀ a b, edge ps' a b → edge ps a b) → acyclic ps → acyclic ps'.
Proof.
  intros H Ha p Hp. apply (Ha p). assert (∀ a b, tc (edge ps') a b → tc (edge ps) a b) as Hsub; [|by apply Hsub].
  induction 1; [by apply tc_once, H|eapply tc_l; [by apply H|done]].
Qed.

Lemma same_graph_acyclic ps ps' : same_graph ps ps' → acyclic ps → acyclic ps'.
Proof. intros H. apply acyclic_sub. intros a b. apply (same_graph_edge _ _ a b H). Qed.

Lemma path_with_edge ps ps' x y a b :
  (∀ a b, edge ps' a b → edge ps a b ∨ (a = x ∧ b = y)) → tc (edge ps') a b →
  tc (edge ps) a b ∨ (rtc (edge ps) a x ∧ rtc (edge ps) y b).
Proof.
  intros He. induction 1 as [a b Hab|a c b Hac _ IH].
  - destruct (He _ _ Hab) as [H|[-> ->]]; [left; by apply tc_once|right; by split].
  - destruct (He _ _ Hac) as [H|[-> ->]].
    + destruct IH as [IH|[IH1 IH2]]; [left; by eapply tc_l|right; split; [by eapply rtc_l|done]].
    + right. split; [done|]. destruct IH as [IH|[_ IH]]; [by apply tc_rtc|done].
Qed.

(** A new edge that closes no path. *)
Lemma acyclic_edge ps ps' x y :
  (∀ a b, edge ps' a b → edge ps a b ∨ (a = x ∧ b = y)) → ¬ rtc (edge ps) y x → acyclic ps → acyclic ps'.
Proof.
  intros He Hyx Ha p Hp. destruct (path_with_edge ps ps' x y p p He Hp) as [H|[H1 H2]]; [by apply (Ha p)|].
  apply Hyx. by etransitivity.
Qed.

Lemma remember_registered ps p o q : registered (remember_registration ps p o) q =
  if decide (q = p) then (λ os, if decide (o ∈ os) then os else os ++ [o]) <$> registered ps p else registered ps q.
Proof.
  unfold registered, remember_registration. cbn. case_decide as Hq; [subst|by rewrite lookup_alter_ne].
  rewrite lookup_alter_eq. destruct (ps.(pollers) !! p); cbn; [|done]. by case_decide.
Qed.

Lemma remember_edge ps p o a b : edge (remember_registration ps p o) a b → edge ps a b ∨ (a = p ∧ b = o ∧ alive ps o).
Proof.
  rewrite !edge_registered, registered_alive. intros (os & Ha & Hb & Hal).
  assert (is_Some (registered ps b)) as Hal'.
  { revert Hal. rewrite remember_registered. case_decide; [subst; by rewrite fmap_is_Some|done]. }
  revert Ha. rewrite remember_registered. case_decide; [subst a|naive_solver].
  intros (os' & Hos & ->)%fmap_Some_1. case_decide; [naive_solver|].
  apply elem_of_app in Hb as [Hb| ->%list_elem_of_singleton]; naive_solver.
Qed.

Lemma remember_known ps p o : has_registration ps p o = true → same_graph ps (remember_registration ps p o).
Proof.
  unfold has_registration. intros H q. rewrite remember_registered. case_decide; [subst q|done].
  unfold registered. destruct (ps.(pollers) !! p) as [po|]; [|done]. cbn. apply bool_decide_eq_true in H. by rewrite decide_True.
Qed.

Section steps.
Context {M : Type} `{um_event : UserMemory M LinuxEpollEvent}.
Context (fds : Z → option Z) (poll_identity_object : Z → Z) (supports_epoll : Z → bool).

(** Everything that changes the pollers: a new poller, at an address nobody knows; the end
    of one; epoll_ctl; a registration with the poller of a call; a notification; a look for
    what is ready; and the collection of events. *)
Inductive poll_step : Pollers → Pollers → Prop :=
  | step_new ps p : ps.(pollers) !! p = None → (∀ q os, registered ps q = Some os → p ∉ os) → poll_step ps (poller_new ps p)
  | step_drop ps p : poll_step ps (poller_drop ps p)
  | step_ctl (s : Sys M) poller_fd op target_fd event :
      poll_step s.(s_pollers) (epoll_ctl fds poll_identity_object supports_epoll s poller_fd op target_fd event).2.(s_pollers)
  | step_register ps p o e d : known_event e → poll_step ps (register_obj ps p o e d)
  | step_notify env ps o e affected ps' : notify_pollers env ps o e = Some (affected, ps') → poll_step ps ps'
  | step_look env ps p : poll_step ps (push_already_ready_events env ps p).2
  | step_take ps p n : poll_step ps (take_woken_events ps p n).2.

Definition no_pollers : Pollers := mkPollers ∅ ∅.

Lemma no_pollers_ok : pollers_ok no_pollers.
Proof. split; try done. intros q k. split; [by intros ?%elem_of_nil|]. by intros (po & x & Hp & _). Qed.

Lemma update_keeps (s : Sys M) poller target bits d :
  let s' := (epoll_update_impl poll_identity_object supports_epoll s poller target bits d).2 in
  (pollers_ok s.(s_pollers) → pollers_ok s'.(s_pollers)) ∧ same_graph s.(s_pollers) s'.(s_pollers).
Proof.
  cbv zeta. unfold epoll_update_impl. destruct (negb (is_pollable s _)); [done|]. destruct (negb _); [done|].
  cbn [snd with_s_pollers s_pollers]. split.
  - intros Hok. apply foldl_ok; [|done]. intros ps [[b e] z] Hin Hps. destruct b; [|done]. apply poller_register_ok; [done|].
    assert (Forall (λ x, known_event x.1.2) (epoll_interest_entries bits)) as Hk by (repeat apply List.Forall_cons; done).
    apply (proj1 (List.Forall_forall _ _) Hk (true, e, z)), list_elem_of_In, Hin.
  - apply foldl_graph. intros ps [[b e] z]. destruct b; [|done]. apply register_graph.
Qed.

Definition linked (ps ps' : Pollers) : Prop := (pollers_ok ps → pollers_ok ps') ∧ (acyclic ps → acyclic ps').

Lemma same_graph_linked ps ps' : (pollers_ok ps → pollers_ok ps') ∧ same_graph ps ps' → linked ps ps'.
Proof. intros [H1 H2]. split; [done|]. by apply same_graph_acyclic. Qed.

Lemma linked_refl ps : linked ps ps.
Proof. by split. Qed.

Lemma linked_trans ps1 ps2 ps3 : linked ps1 ps2 → linked ps2 ps3 → linked ps1 ps3.
Proof. intros [H1 H2] [H3 H4]. split; auto. Qed.

Lemma unregister_six_keeps ps p o :
  let ps' := foldl (λ ps e, unregister_obj ps p o e) ps
    [PollableEvent.CanBeRead; PollableEvent.CanBeWritten; PollableEvent.Priority; PollableEvent.Error;
     PollableEvent.Closed; PollableEvent.ReadClosed] in
  (pollers_ok ps → pollers_ok ps') ∧ same_graph ps ps'.
Proof.
  cbv zeta. split.
  - intros Hok. cbn [foldl]. repeat (apply unregister_obj_ok; [|done]). done.
  - apply foldl_graph. intros. apply unregister_graph.
Qed.

Lemma forget_edge ps p o a b : edge (forget_registration ps p o) a b → edge ps a b.
Proof.
  assert (∀ q, registered (forget_registration ps p o) q =
    if decide (q = p) then filter (λ r, r ≠ o) <$> registered ps p else registered ps q) as Hr.
  { intros q. unfold registered, forget_registration. cbn. case_decide; [subst|by rewrite lookup_alter_ne].
    rewrite lookup_alter_eq. by destruct (ps.(pollers) !! p). }
  rewrite !edge_registered. intros (os & Ha & Hb & Hal). assert (is_Some (registered ps b)) as Hal'.
  { revert Hal. rewrite Hr. case_decide; [subst; by rewrite fmap_is_Some|done]. }
  revert Ha. rewrite Hr. case_decide; [subst a|naive_solver]. intros (os' & Hos & ->)%fmap_Some_1.
  apply list_elem_of_filter in Hb as [_ Hb]. naive_solver.
Qed.

Lemma unregister_object_linked ps p o : linked ps (unregister_object ps p o).
Proof.
  split; [apply unregister_object_ok|]. unfold unregister_object. destruct (ps.(pollers) !! p) as [po|]; [|done].
  intros Ha. eapply acyclic_sub; [apply forget_edge|]. eapply same_graph_acyclic; [|done]. apply foldl_graph.
  intros. apply unregister_graph.
Qed.

(** The target of an addition that got past the checks does not lead back. *)
Lemma add_linked ps poller target :
  bool_decide (alive ps target) && has_epoll_path_to ps poller target = false →
  linked ps (remember_registration ps poller target).
Proof.
  intros Hp. split; [apply remember_ok|]. intros Ha.
  destruct (decide (alive ps target)) as [Hal|Hal].
  - rewrite bool_decide_eq_true_2 in Hp by done. cbn in Hp. eapply acyclic_edge; [|..|exact Ha].
    + intros a b Hab. apply remember_edge in Hab as [?|(-> & -> & _)]; [by left|right; by split].
    + intros Hpath. apply (path_search ps poller target Hal) in Hpath. congruence.
  - eapply acyclic_sub; [|exact Ha]. intros a b Hab. apply remember_edge in Hab as [?|(_ & _ & ?)]; done.
Qed.

Lemma ctl_linked (s : Sys M) poller_fd op target_fd event : linked s.(s_pollers) (epoll_ctl fds poll_identity_object supports_epoll s poller_fd op target_fd event).2.(s_pollers).
Proof.
  unfold epoll_ctl. destruct (object_arg fds poller_fd) as [poller|]; [|apply linked_refl]. destruct (object_arg fds target_fd) as [target0|]; [|apply linked_refl].
  destruct (as_epoll_poller s poller) as [p|]; [|apply linked_refl]. set (target := poll_identity_object target0).
  destruct (epoll_ctl_op op) as [[]|]; [| | |apply linked_refl]; destruct (has_registration _ p target) eqn:Hreg; cbn [negb]; try apply linked_refl.
  - unfold epoll_add. destruct (event =? 0); [apply linked_refl|]. destruct (p =? target); [apply linked_refl|].
    destruct (bool_decide _ && _) eqn:Hpath; [apply linked_refl|]. destruct (would_exceed_epoll_nesting_depth _ _); [apply linked_refl|].
    destruct (user_read _ event) as [[ev|e] m]; [|apply linked_refl]. cbn [with_s_mem with_s_pollers s_pollers].
    eapply linked_trans; [by apply add_linked|]. apply same_graph_linked.
    exact (update_keeps (with_s_pollers (with_s_mem s m) (remember_registration s.(s_pollers) p target)) p target _ _).
  - apply unregister_object_linked.
  - unfold epoll_mod. destruct (event =? 0); [apply linked_refl|]. destruct (user_read _ event) as [[ev|e] m]; [|apply linked_refl].
    cbn [with_s_mem s_pollers]. set (ps := foldl _ _ _).
    eapply linked_trans; [apply same_graph_linked, unregister_six_keeps|]. fold ps.
    assert (has_registration ps p target = true) as Hreg'.
    { pose proof (proj2 (unregister_six_keeps s.(s_pollers) p target) p) as Hg. fold ps in Hg. revert Hreg Hg. unfold has_registration, registered.
      destruct (ps.(pollers) !! p), (s.(s_pollers).(pollers) !! p); cbn; try done. by intros ? [= ->]. }
    eapply linked_trans; [apply same_graph_linked; split; [apply remember_ok|by apply remember_known]|].
    apply same_graph_linked. exact (update_keeps (with_s_pollers (with_s_mem s m) (remember_registration ps p target)) p target _ _).
Qed.

Lemma step_linked ps ps' : poll_step ps ps' → linked ps ps'.
Proof.
  intros [ps0 p Hp Hfree|ps0 p|s poller_fd op target_fd event|ps0 p o e d He|env ps0 o e affected ps1 Hn|env ps0 p|ps0 p n].
  - split; [intros; by apply poller_new_ok|]. apply acyclic_sub. intros a b. rewrite !edge_registered. unfold registered. cbn.
    intros (os & Ha & Hb & Hal). destruct (decide (a = p)) as [->|Hne]; [rewrite lookup_insert_eq in Ha; injection Ha as <-; by apply elem_of_nil in Hb|].
    rewrite lookup_insert_ne in Ha by done. exists os. split_and!; [done..|]. rewrite lookup_insert_ne in Hal; [done|].
    intros ->. by eapply Hfree.
  - split; [apply drop_ok|]. apply acyclic_sub. intros a b. unfold poller_drop. destruct (ps0.(pollers) !! p) as [po|] eqn:Hp; [|done].
    rewrite !edge_registered. unfold registered. rewrite !unregister_all_pollers. cbn. intros (os & Ha & Hb & Hal).
    destruct (decide (a = p)) as [->|]; [by rewrite lookup_delete_eq in Ha|rewrite lookup_delete_ne in Ha by done].
    destruct (decide (b = p)) as [->|]; [rewrite lookup_delete_eq in Hal; by destruct Hal|rewrite lookup_delete_ne in Hal by done]. by exists os.
  - apply ctl_linked.
  - apply same_graph_linked. split; [by intros; apply poller_register_ok|apply register_graph].
  - split; [intros Hok; by eapply notify_keeps|]. unfold notify_pollers in Hn. apply fmap_Some_1 in Hn as (n & Hn & [= _ ->]).
    apply same_graph_acyclic, (notify_loop_graph _ _ _ _ _ Hn).
  - apply same_graph_linked. split; [apply push_already_ok|apply push_already_graph].
  - apply same_graph_linked. split; [apply take_ok|apply take_graph].
Qed.

(** The registry of pollers stays true and free of cycles: after any sequence of new and
    dropped pollers, epoll_ctl calls, registrations, notifications and waits, an object is
    known to the registry as watched by exactly the pollers with an entry for it, every
    collected event belongs to an entry, and no poller contains itself, however deep. *)
Lemma pollers_stay_consistent ps : rtc poll_step no_pollers ps → pollers_ok ps ∧ acyclic ps.
Proof.
  intros H. assert (linked no_pollers ps) as [H1 H2].
  { induction H as [|ps1 ps2 ps3 H12 _ IH]; [apply linked_refl|]. eapply linked_trans; [by apply step_linked|done]. }
  split; [apply H1|apply H2].
  - apply no_pollers_ok.
  - intros p Hp. assert (∀ a b, ¬ edge no_pollers a b) as Hno by (intros a b; unfold edge, child_pollers; cbn; by intros ?%elem_of_nil).
    destruct Hp; by eapply Hno.
Qed.
End steps.

(** ** No signal in the way *)

(** What the question for a signal looks at in a thread. *)
Definition signal_view (th : Thread) : option Z * list Z * Z * option (Z * Z) * Z * bool :=
  (th.(parent), th.(saved_blocked_signals), th.(blocked_signals), th.(temporary_blocked_signals), th.(pending_signals), th.(interrupted_by_signal)).

Definition same_signals (w w' : World) : Prop :=
  w'.(processes) = w.(processes) ∧ ∀ u, signal_view <$> w'.(threads) !! u = signal_view <$> w.(threads) !! u.

Lemma same_signals_refl w : same_signals w w.
Proof. done. Qed.

Lemma same_signals_trans w1 w2 w3 : same_signals w1 w2 → same_signals w2 w3 → same_signals w1 w3.
Proof. intros [H1 H2] [H3 H4]. split; [congruence|]. intros u. by rewrite H4. Qed.

Lemma same_signals_same w w' : w'.(processes) = w.(processes) → w'.(threads) = w.(threads) → same_signals w w'.
Proof. intros ? Ht. split; [done|]. intros u. by rewrite Ht. Qed.

Lemma same_signals_map w u f : (∀ th, signal_view (f th) = signal_view th) → same_signals w (map_thread w u f).
Proof.
  intros Hf. split; [done|]. intros v. unfold map_thread. cbn. destruct (decide (v = u)) as [->|]; [|by rewrite lookup_alter_ne].
  rewrite lookup_alter_eq. destruct (threads w !! u); [|done]. cbn. by rewrite Hf.
Qed.

Lemma remove_blocked_signals w u : same_signals w (remove_from_blocked_queues w u).
Proof. unfold remove_from_blocked_queues. repeat case_match; by apply same_signals_same. Qed.

Lemma push_balanced_signals w u : same_signals w (push_ready_balanced w u).
Proof.
  unfold push_ready_balanced, push_ready_on_cpu, next_balanced_cpu, ensure_queue, resize_ready_queues.
  repeat case_match; by apply same_signals_same.
Qed.

Lemma wake_signals w u : same_signals w (wake w u).
Proof.
  unfold wake. eapply same_signals_trans; [apply (remove_blocked_signals w u)|].
  destruct (state_of _ u) as [[]|]; try apply same_signals_refl; [by apply same_signals_map|].
  set (w1 := set_state _ u State.Ready). apply (same_signals_trans _ w1); [by apply same_signals_map|].
  apply (same_signals_trans _ (push_ready_balanced w1 u)); [apply push_balanced_signals|by apply same_signals_same].
Qed.

Lemma wake_list_signals w ts : same_signals w (wake_list w ts).
Proof.
  unfold wake_list. revert w. induction ts as [|u ts IH]; intros w; [done|]. cbn. eapply same_signals_trans; [apply wake_signals|apply IH].
Qed.

Lemma wake_matching_signals w k p : same_signals w (wake_matching w k p).
Proof. unfold wake_matching. eapply same_signals_trans; [|apply wake_list_signals]. by apply same_signals_same. Qed.

Lemma cancel_signals w u : same_signals w (cancel_block w u).
Proof.
  unfold cancel_block. eapply same_signals_trans; [apply (remove_blocked_signals w u)|].
  destruct (state_of _ u) as [[]|]; try apply same_signals_refl; by apply same_signals_map.
Qed.

Lemma remove_ready_signals w u : same_signals w (remove_ready_thread w u).2.
Proof. by apply same_signals_same. Qed.

Lemma finish_signals w u : same_signals w (finish_block_current w u).2.
Proof.
  unfold finish_block_current. destruct (state_of w u) as [[]|]; try apply same_signals_refl; try (by apply same_signals_map).
  pose proof (remove_ready_signals w u) as H. destruct (remove_ready_thread w u) as [[] v]; [|done].
  eapply same_signals_trans; [exact H|]. by apply same_signals_map.
Qed.

(** No signal interrupted the thread and none waits for it. *)
Definition calm (t : Z) (w : World) : Prop :=
  (∀ th, w.(threads) !! t = Some th → th.(interrupted_by_signal) = false) ∧
  has_pending_signal_handlers_ignoring_restart w t = false.

Lemma calm_frame t w w' : same_signals w w' → calm t w → calm t w'.
Proof.
  intros [Hp Ht] [Hi Hh]. specialize (Ht t). unfold calm, has_pending_signal_handlers_ignoring_restart, all_pending, parent_of, process_of in *.
  rewrite Hp. destruct (w'.(threads) !! t) as [th'|], (w.(threads) !! t) as [th|]; cbn in Ht |- *; try done.
  injection Ht as Hpar Hs Hb Htmp Hpend Hint. split; [intros ? [= <-]; rewrite Hint; by apply Hi|].
  unfold effective_user_signal_mask in *. rewrite Hpar, Hs, Hb, Htmp, Hpend. exact Hh.
Qed.

(** ** Waiting *)

(** An object reports an event, and from then on the objects answer as [env] says. *)
Definition occurs {M} (env : Z → option (PollableEvent → bool)) (o : Z) (e : PollableEvent) (s : Sys M) : Sys M :=
  match wake_pollers_for_object env s.(s_world) s.(s_pollers) o e with
  | Some (w, ps) => mkSys w ps env s.(s_mem)
  | None => s
  end.

Lemma push_loop_not_nil xs woken delivered disable : woken ≠ [] → (push_ready_loop xs woken delivered disable).1 ≠ [].
Proof.
  revert woken delivered disable. induction xs as [|x xs IH]; intros woken delivered disable Hw; cbn; [done|].
  case_match; [by apply IH|]. apply IH, queue_ready_not_nil.
Qed.

Lemma has_woken_spec ps p : has_woken_events ps p = true ↔ ∃ po, ps.(pollers) !! p = Some po ∧ po.(woken_events) ≠ [].
Proof.
  unfold has_woken_events. destruct (ps.(pollers) !! p) as [po|]; [|naive_solver]. rewrite negb_true_iff, bool_decide_eq_false. naive_solver.
Qed.

Lemma push_already_woken env ps p : has_woken_events ps p = true → has_woken_events (push_already_ready_events env ps p).2 p = true.
Proof.
  rewrite !has_woken_spec. intros (po & Hp & Hw). unfold push_already_ready_events. rewrite Hp.
  pose proof (push_loop_not_nil (due_entries env ps po) po.(woken_events) [] [] Hw) as Hn.
  destruct (push_ready_loop _ _ _ _) as [woken disable]. cbn in Hn |- *. rewrite lookup_alter_eq, Hp. by eexists.
Qed.

Section wait.
Context {M : Type} `{um_event : UserMemory M LinuxEpollEvent}.
Context (t p : Z).

Lemma signalled_calm (s : Sys M) : calm t s.(s_world) →
  ∃ w, signalled t s = (false, with_s_world s w) ∧ calm t w ∧ state_of w t = state_of s.(s_world) t.
Proof.
  intros Hc. pose proof Hc as [Hi Hh]. unfold signalled, take_signal_interrupt.
  exists (map_thread s.(s_world) t (λ th, with_interrupted_by_signal th false)).
  assert (same_signals s.(s_world) (map_thread s.(s_world) t (λ th, with_interrupted_by_signal th false))) as Hsame.
  { split; [done|]. intros u. cbn. destruct (decide (u = t)) as [->|]; [|by rewrite lookup_alter_ne]. rewrite lookup_alter_eq.
    destruct (s.(s_world).(threads) !! t) as [th|]; [|done]. cbn. unfold signal_view. cbn. by rewrite (Hi th). }
  assert (Hc' := calm_frame _ _ _ Hsame Hc). destruct Hc' as [Hi' Hh']. rewrite Hh'.
  split_and!; [|done|].
  - destruct (s.(s_world).(threads) !! t) as [th|] eqn:Ht; [|done]. by rewrite (Hi th).
  - unfold state_of. cbn. rewrite lookup_alter_eq. by destruct (s.(s_world).(threads) !! t).
Qed.

(** The buffer of the caller can be written. *)
Definition writes_succeed (events_ptr maxevents : Z) : Prop := ∀ m l, zlen l ≤ maxevents →
  (user_write_array (M := M) m events_ptr EPOLL_EVENT_SIZE l).1 = Ok tt.

Lemma report_answers (s : Sys M) events_ptr maxevents :
  writes_succeed events_ptr maxevents → 1 ≤ maxevents → calm t s.(s_world) → has_woken s p = true →
  ∃ n s', report t events_ptr maxevents p s = (Ok n, s') ∧ 1 ≤ n ≤ maxevents.
Proof.
  intros Hm Hmax Hc Hw. destruct (signalled_calm s Hc) as (w & Hs & _). unfold report. rewrite Hs. cbn [with_s_world s_pollers].
  unfold has_woken in Hw. apply has_woken_spec in Hw as (po & Hp & Hw). unfold take_woken_events. rewrite Hp. cbn [with_s_pollers s_mem].
  set (count := Z.to_nat _). pose proof (Hm s.(s_mem) (map (λ r, mkEpollEvent r.(r_bits) r.(r_data)) (take count po.(woken_events)))) as Hwr.
  assert (Hlen : zlen (take count po.(woken_events)) ≤ maxevents) by (unfold count, zlen; rewrite length_take; lia).
  unfold zlen in Hwr. rewrite length_map in Hwr. specialize (Hwr Hlen).
  destruct (user_write_array _ events_ptr _ _) as [r m]. cbn in Hwr. rewrite Hwr. eexists _, _. split; [done|].
  unfold count, zlen. rewrite length_take. destruct (woken_events po) as [|r0 rs]; [done|]. cbn [length]. unfold zlen. cbn [length]. lia.
Qed.

(** A call that finds an event answers. *)
Lemma loop_answers (s : Sys M) events_ptr maxevents timeout deadline rounds :
  writes_succeed events_ptr maxevents → 1 ≤ maxevents → calm t s.(s_world) → has_woken s p = true →
  ∃ n s', epoll_wait_loop t events_ptr maxevents p timeout deadline rounds s = (Some (Ok n), s') ∧ 1 ≤ n ≤ maxevents.
Proof.
  intros Hm Hmax Hc Hw. destruct (signalled_calm s Hc) as (w & Hs & Hcw & _).
  assert (first_look t p timeout deadline s = Report (push_ready (with_s_world s w) p).2 ∧
    has_woken (push_ready (with_s_world s w) p).2 p = true ∧ calm t (push_ready (with_s_world s w) p).2.(s_world)) as (Hl & Hw' & Hc').
  { unfold first_look. rewrite Hs. pose proof (push_already_woken s.(s_env) s.(s_pollers) p Hw) as Hp.
    unfold push_ready. cbn [with_s_world s_env s_pollers]. destruct (push_already_ready_events _ _ p) as [b ps]. cbn in Hp.
    unfold has_woken. cbn. by rewrite Hp. }
  destruct (report_answers _ events_ptr maxevents Hm Hmax Hc' Hw') as (n & s' & Hr & Hn). exists n, s'. split; [|done].
  destruct rounds; cbn [epoll_wait_loop]; by rewrite Hl, Hr.
Qed.

Lemma second_look_answers (s : Sys M) events_ptr maxevents :
  writes_succeed events_ptr maxevents → 1 ≤ maxevents → calm t s.(s_world) → has_woken s p = true →
  ∃ s1 n s', second_look t p s = Report s1 ∧ report t events_ptr maxevents p s1 = (Ok n, s') ∧ 1 ≤ n ≤ maxevents.
Proof.
  intros Hm Hmax Hc Hw. unfold second_look. rewrite (proj2 Hc). destruct (signalled_calm s Hc) as (w & -> & Hcw & _).
  assert (has_woken (with_s_world s w) p = true) as -> by done. cbn [orb].
  set (s1 := cancel_sleep t (with_s_world s w)).
  assert (calm t s1.(s_world)) as Hc1 by (eapply calm_frame; [apply cancel_signals|done]).
  pose proof (push_already_woken s1.(s_env) s1.(s_pollers) p Hw) as Hp. unfold push_ready.
  destruct (push_already_ready_events _ _ p) as [b ps]. cbn in Hp. set (s2 := with_s_pollers s1 ps).
  destruct (signalled_calm s2 Hc1) as (w2 & -> & Hc2 & _). unfold has_woken at 1. cbn [with_s_world s_pollers s2 with_s_pollers]. rewrite Hp.
  destruct (report_answers (with_s_world s2 w2) events_ptr maxevents Hm Hmax Hc2 Hp) as (n & s' & Hr & Hn).
  by exists (with_s_world s2 w2), n, s'.
Qed.

(** What an event does to a poller with an entry for it. *)
Lemma occurs_collected env o e (s : Sys M) po x :
  pollers_ok s.(s_pollers) → s.(s_pollers).(pollers) !! p = Some po → x ∈ po.(entries) → x.(enabled) = true →
  x.(object) = o → x.(event) = e → is_entry_ready env s.(s_pollers) x = true →
  has_woken (occurs env o e s) p = true ∧ same_signals s.(s_world) (occurs env o e s).(s_world).
Proof.
  intros Hok Hp Hx He Ho Hev Hr.
  destruct (notify_delivers env s.(s_pollers) p o e po x) as (affected & ps' & po' & Hn & _ & Hp' & (r & Hin & _) & _); try done;
    [by apply same_interest_spec|].
  unfold occurs, wake_pollers_for_object. rewrite Hn. cbn. split.
  - unfold has_woken. apply has_woken_spec. exists po'. split; [done|]. intros Hnil. cbn in Hnil. rewrite Hnil in Hin. by apply elem_of_nil in Hin.
  - destruct affected; [done|]. eapply same_signals_trans; [by apply (same_signals_same _ (mark_pollers_dirty s.(s_world) true))|].
    apply wake_matching_signals.
Qed.

Lemma announced_has_no_event timeout deadline s (s1 : Sys M) : first_look t p timeout deadline s = Announced s1 → has_woken s1 p = false.
Proof.
  unfold first_look. destruct (signalled t s) as [[] s0]; [done|]. destruct (push_ready s0 p) as [b s2].
  destruct (has_woken s2 p) eqn:Hw; [done|]. destruct (timeout =? 0); [done|]. destruct (deadline_passed _ _); [done|]. by intros [= <-].
Qed.

Lemma announced_sleeps timeout deadline s (s1 : Sys M) : first_look t p timeout deadline s = Announced s1 →
  is_Some (s1.(s_world).(threads) !! t) →
  state_of s1.(s_world) t = Some (State.Blocking (BlockType.WakeRequired (WakeType.Poller p) deadline)).
Proof.
  unfold first_look. destruct (signalled t s) as [[] s0]; [done|]. destruct (push_ready s0 p) as [b s2].
  destruct (has_woken s2 p); [done|]. destruct (timeout =? 0); [done|]. destruct (deadline_passed _ _); [done|]. intros [= <-].
  unfold announce_sleep, prepare_block_current, block, state_of. cbn. rewrite lookup_alter_eq.
  destruct (s2.(s_world).(threads) !! t); [done|]. by intros [].
Qed.

End wait.

(** ** Concrete runs *)

(** A memory whose writes are kept in order. *)
#[local] Instance written_memory {T} : UserMemory (list (Z * T)) T := {
  addrspace_read m a := (Err SyscallError.BadAddress, m);
  addrspace_write m a v := (Ok tt, m ++ [(a, v)]);
}.

Definition never (o : Z) : option (PollableEvent → bool) := Some (λ _, false).
Definition readable (o : Z) : option (PollableEvent → bool) := Some (λ e, bool_decide (e = PollableEvent.CanBeRead)).

(** Poller 100 watches the object 7, and thread 1 runs. *)
Definition watching : Sys (list (Z * LinuxEpollEvent)) :=
  mkSys sample_running (register_obj_with_ready_bits (poller_new no_pollers 100) 100 7 PollableEvent.CanBeRead 42 EPOLLIN false false) never [].

Definition announced : Sys (list (Z * LinuxEpollEvent)) :=
  match first_look 1 100 (-1) None watching with Announced s => s | _ => watching end.

Definition the_entry : PollerEntry := entry_new 7 PollableEvent.CanBeRead 42 EPOLLIN false false.

Lemma watching_ok : pollers_ok announced.(s_pollers).
Proof.
  change (pollers_ok (push_already_ready_events never watching.(s_pollers) 100).2). apply push_already_ok, poller_register_ok; [|done].
  apply poller_new_ok; [|done]. apply no_pollers_ok.
Qed.

Definition event_while_asleep : Round (list (Z * LinuxEpollEvent)) := mkRound (λ s, s) (occurs readable 7 PollableEvent.CanBeRead).


(** What was written: the event, with the user data. *)
Example event_written :
  (epoll_wait_loop 1 500 2 100 (-1) None [event_while_asleep] watching).2.(s_mem) = [(500, mkEpollEvent EPOLLIN 42)].
Proof. vm_compute. reflexivity. Qed.

(** Poller 2 is added to poller 1, and then poller 1 to poller 2. *)
Definition all_open (fd : Z) : option Z := Some fd.
Definition nested_mem : gmap Z LinuxEpollEvent := {[500 := mkEpollEvent EPOLLIN 9]}.
Definition ctl : Sys (gmap Z LinuxEpollEvent) → Z → Z → Z → Z → result SyscallError Z * Sys (gmap Z LinuxEpollEvent) :=
  epoll_ctl all_open (λ o, o) (λ _, true).
Definition sys_of (ps : Pollers) : Sys (gmap Z LinuxEpollEvent) := mkSys sample_running ps never nested_mem.
Definition two_pollers : Pollers := poller_new (poller_new no_pollers 1) 2.
Definition nested : Pollers := (ctl (sys_of two_pollers) 1 1 2 500).2.(s_pollers).

Lemma pollers_stay_consistent_witness : pollers_ok nested ∧ acyclic nested.
Proof.
  apply (pollers_stay_consistent (M := gmap Z LinuxEpollEvent) all_open (λ o, o) (λ _, true) nested).
  eapply rtc_l; [apply (step_new _ _ _ _ 1); [reflexivity|]; intros q os Hq; vm_compute in Hq; discriminate|].
  eapply rtc_l; [apply (step_new _ _ _ _ 2); [reflexivity|]|].
  - intros q os Hq Hin. unfold registered in Hq. cbn in Hq. destruct (decide (q = 1)) as [->|Hne].
    + vm_compute in Hq. injection Hq as <-. by apply elem_of_nil in Hin.
    + rewrite lookup_insert_ne in Hq by done. rewrite lookup_empty in Hq. discriminate.
  - apply rtc_once. exact (step_ctl all_open (λ o, o) (λ _, true) (sys_of two_pollers) 1 1 2 500).
Defined.

Example nesting_accepted : (ctl (sys_of two_pollers) 1 1 2 500).1 = Ok 0.
Proof. vm_compute. reflexivity. Qed.

Example cycle_refused : (ctl (sys_of nested) 2 1 1 500).1 = Err SyscallError.TooManySymbolicLinks.
Proof. vm_compute. reflexivity. Qed.

(** A sleeper that an event reaches. *)
Definition sleeping : World :=
  (finish_block_current (prepare_block_current sample_running 1 (BlockType.WakeRequired (WakeType.Poller 100) None)) 1).2.

Lemma event_reaches_sleepers_witness :
  ∃ w' ps' po', wake_pollers_for_object readable sleeping watching.(s_pollers) 7 PollableEvent.CanBeRead = Some (w', ps') ∧
    ps'.(pollers) !! 100 = Some po' ∧ collected po'.(woken_events) 7 42 EPOLLIN ∧ runnable w' 1.
Proof.
  eapply (event_reaches_sleepers readable sleeping watching.(s_pollers) 1 100 None 7 PollableEvent.CanBeRead _ the_entry).
  - apply finish_ok, block_ok; [apply sched_reachable_ok, sample_running_reachable|reflexivity].
  - apply poller_register_ok; [|done]. apply poller_new_ok; [apply no_pollers_ok|done].
  - vm_compute. reflexivity.
  - vm_compute. reflexivity.
  - reflexivity.
  - left.
  - reflexivity.
  - reflexivity.
  - reflexivity.
  - vm_compute. reflexivity.
Defined.

(** ** What the code does differently from epoll elsewhere *)

(** Two pollers that share a child: the shared child is counted as too deep when it is met
    for the second time, and the addition is refused although the depth is three. *)
Definition diamond : Pollers :=
  let ps := foldl poller_new no_pollers [1; 2; 3; 4; 5] in
  let add ps p o := remember_registration ps p o in
  add (add (add (add ps 2 3) 2 4) 3 5) 4 5.

Lemma shared_child_refused : (ctl (sys_of diamond) 1 1 2 500).1 = Err SyscallError.InvalidArguments.
Proof. vm_compute. reflexivity. Qed.

(** The depth is that of what is added; a chain built from the top grows without bound. *)
Definition chain : Pollers :=
  foldl (λ ps p, (ctl (sys_of ps) p 1 (p + 1) 500).2.(s_pollers)) (foldl poller_new no_pollers [1; 2; 3; 4; 5; 6; 7; 8; 9]) [1; 2; 3; 4; 5; 6; 7; 8].

Lemma deep_chain_accepted : map (child_pollers chain) [1; 2; 3; 4; 5; 6; 7; 8] = [[2]; [3]; [4]; [5]; [6]; [7]; [8]; [9]].
Proof. vm_compute. reflexivity. Qed.

(** An inner poller counts as ready only once it has collected an event: the outer one does
    not see an object that was ready when it was added to the inner one. *)
Definition inner_ready : Pollers := (ctl (sys_of nested) 2 1 7 500).2.(s_pollers).

Lemma nested_ready_object_missed :
  (push_already_ready_events readable inner_ready 1).1 = false ∧ (push_already_ready_events readable inner_ready 2).1 = true.
Proof. split; vm_compute; reflexivity. Qed.

(** A collected event is reported although the object is no longer ready. *)
Definition collected_once : Sys (list (Z * LinuxEpollEvent)) := occurs readable 7 PollableEvent.CanBeRead watching.

Lemma stale_event_reported :
  (epoll_wait_loop 1 500 2 100 0 None [] (mkSys collected_once.(s_world) collected_once.(s_pollers) never [])).1 = Some (Ok 1).
Proof. vm_compute. reflexivity. Qed.

(** A notification for an entry for one event disables it, although the object is not ready
    and nothing was collected. *)
Definition once : Pollers := register_obj_with_ready_bits (poller_new no_pollers 100) 100 7 PollableEvent.CanBeWritten 42 EPOLLOUT true false.

Lemma oneshot_lost :
  (push_woken_event readable once 100 7 PollableEvent.CanBeWritten).1 = mkWakeResult true false ∧
  map enabled (from_option entries [] ((push_woken_event readable once 100 7 PollableEvent.CanBeWritten).2.(pollers) !! 100)) = [false].
Proof. split; vm_compute; reflexivity. Qed.

(** Events are taken before they are written: a fault loses the event of an entry that
    reports it only once. *)
Definition edge_watching : Sys (gmap Z LinuxEpollEvent) :=
  mkSys sample_running (register_obj_with_ready_bits (poller_new no_pollers 100) 100 7 PollableEvent.CanBeRead 42 EPOLLIN false true) readable ∅.

Lemma faulting_wait_loses_event :
  let '(r, s) := epoll_wait_loop 1 500 2 100 0 None [] edge_watching in
  r = Some (Err SyscallError.BadAddress) ∧ (epoll_wait_loop 1 500 2 100 0 None [] s).1 = Some (Ok 0).
Proof. vm_compute. split; reflexivity. Qed.

(** Two entries of poll for one object: the second takes over the registration of the first,
    which is not reported. *)
Lemma duplicate_pollfd_unreported :
  (poll_impl 1 all_open (λ o, o) 200 [] (mkSys sample_running no_pollers readable ([] : list (Z * Z)))
     [mkPollFd 7 POLLIN 0; mkPollFd 7 POLLIN 0] 0).1 =
  Some (Ok (1, [mkPollFd 7 POLLIN 0; mkPollFd 7 POLLIN POLLIN])).
Proof. vm_compute. reflexivity. Qed.

(** A long timeout overflows to a negative one, which means for ever. *)
Lemma long_timeout_overflows : saturating_timeout_ms (mkTimespec 2147483 648000000) = Ok (-2147483648).
Proof. vm_compute. reflexivity. Qed.

(** An object of the set of writers that is closed during the sleep counts as one answer,
    but for reading: the set of writers comes back empty. *)
Definition closed (o : Z) : option (PollableEvent → bool) := Some (λ e, bool_decide (e = PollableEvent.Closed)).

Lemma closed_writer_not_reported :
  let s := mkSys sample_running no_pollers never ({[500 := 128]} : gmap Z Z) in
  let '(r, s) := select_body 1 all_open (λ o, o) 200 (Some (mkRound (occurs closed 7 PollableEvent.Closed) (λ s, s))) 8 0 500 0
                   None None (Some [128]) None s in
  r = Some (Ok 1) ∧ s.(s_mem) !! 500 = Some 0.
Proof. vm_compute. split; reflexivity. Qed.
