(* ===== verification/OutputFilter.v ===== *)
(** * Output filter

    The text written to a terminal before it is shown: the strings of Rust as bytes, the
    filter that swallows operating system commands and answers the queries for terminal
    capabilities (terminal/output_filter.rs), and the filter in front of the screen
    (terminal/object.rs).

    A [String] is its bytes, each a [Z] from 0 to 255. *)

From S2P Require Import Prelude.

Open Scope Z_scope.

(** ** Strings of the standard library *)

(** [String::push] of a character below 256, that is, of a byte [as char] *)
Definition push_latin (byte : Z) : list Z :=
  if byte <? 128 then [byte] else [Z.lor 0xC0 (Z.shiftr byte 6); Z.lor 0x80 (Z.land byte 0x3F)].

Definition continuation (b : Z) : bool := Z.land b 0xC0 =? 0x80.

(** What follows a first byte: how many continuation bytes, and the range of the first. *)
Definition utf8_lead (b : Z) : option (nat * (Z * Z)) :=
  if b <? 0x80 then Some (0%nat, (0x80, 0xBF))
  else if (0xC2 <=? b) && (b <=? 0xDF) then Some (1%nat, (0x80, 0xBF))
  else if b =? 0xE0 then Some (2%nat, (0xA0, 0xBF))
  else if b =? 0xED then Some (2%nat, (0x80, 0x9F))
  else if (0xE1 <=? b) && (b <=? 0xEF) then Some (2%nat, (0x80, 0xBF))
  else if b =? 0xF0 then Some (3%nat, (0x90, 0xBF))
  else if (0xF1 <=? b) && (b <=? 0xF3) then Some (3%nat, (0x80, 0xBF))
  else if b =? 0xF4 then Some (3%nat, (0x80, 0x8F))
  else None.

(** Continuation bytes still due, and the range of the next one. *)
Fixpoint utf8_valid_from (due : nat) (range : Z * Z) (l : list Z) : bool :=
  match l, due with
  | [], O => true
  | [], S _ => false
  | b :: l, O => match utf8_lead b with Some (n, r) => utf8_valid_from n r l | None => false end
  | b :: l, S n => (range.1 <=? b) && (b <=? range.2) && utf8_valid_from n (0x80, 0xBF) l
  end.

(** [str::from_utf8] succeeds. *)
Definition utf8_valid (l : list Z) : bool := utf8_valid_from 0 (0x80, 0xBF) l.

(** ASCII text of a literal of the source *)
Definition ascii (s : String.string) : list Z := map (λ a, Z.of_N (Ascii.N_of_ascii a)) (String.list_ascii_of_string s).

(** [split] of a string at a byte *)
Fixpoint split_at (sep : Z) (l : list Z) : list (list Z) :=
  match l with
  | [] => [[]]
  | b :: l =>
      match split_at sep l with
      | [] => [[b]]
      | p :: ps => if b =? sep then [] :: p :: ps else (b :: p) :: ps
      end
  end.

Fixpoint join_with (sep : Z) (l : list (list Z)) : list Z :=
  match l with
  | [] => []
  | [p] => p
  | p :: l => p ++ sep :: join_with sep l
  end.

(** ** Hexadecimal text *)

Definition decode_hex_nibble (byte : Z) : option Z :=
  if (48 <=? byte) && (byte <=? 57) then Some (byte - 48)
  else if (97 <=? byte) && (byte <=? 102) then Some (byte - 97 + 10)
  else if (65 <=? byte) && (byte <=? 70) then Some (byte - 65 + 10)
  else None.

Fixpoint decode_hex_pairs (l : list Z) : option (list Z) :=
  match l with
  | high :: low :: l =>
      high ← decode_hex_nibble high;
      low ← decode_hex_nibble low;
      rest ← decode_hex_pairs l;
      Some (push_latin (Z.lor (Z.shiftl high 4) low) ++ rest)
  | _ => Some []
  end.

Definition decode_hex_ascii (encoded : list Z) : option (list Z) :=
  if negb (zlen encoded mod 2 =? 0) then None else decode_hex_pairs encoded.

Definition HEX : list Z := ascii "0123456789ABCDEF".

Definition encode_hex_ascii (text : list Z) : list Z :=
  concat (map (λ b, [default 0 (HEX !! Z.to_nat (Z.shiftr b 4)); default 0 (HEX !! Z.to_nat (Z.land b 0xF))]) text).

(** ** Queries for terminal capabilities *)

Definition ESC : Z := 27.
Definition BEL : Z := 7.
Definition BACKSLASH : Z := 92.

Definition refused : list Z := ESC :: ascii "P0+r" ++ [ESC; BACKSLASH].

Definition capability (name : list Z) : option (list Z) :=
  if bool_decide (name = ascii "name") || bool_decide (name = ascii "TN") then Some (ascii "linux")
  else if bool_decide (name = ascii "Co") || bool_decide (name = ascii "colors") then Some (ascii "8")
  else if bool_decide (name = ascii "RGB") then Some (ascii "-1")
  else None.

(** The loop over the names: [None] when one of them ends it. *)
Fixpoint answer_names (names : list (list Z)) : option (list (list Z)) :=
  match names with
  | [] => Some []
  | encoded_name :: names =>
      name ← decode_hex_ascii encoded_name;
      value ← capability name;
      pairs ← answer_names names;
      Some ((encoded_name ++ 61 :: encode_hex_ascii value) :: pairs)
  end.

Definition xtgettcap_response (payload : list Z) : list Z :=
  match answer_names (split_at 59 payload) with
  | Some pairs => ESC :: ascii "P1+r" ++ join_with 59 pairs ++ [ESC; BACKSLASH]
  | None => refused
  end.

Module XtgettcapParse.
Inductive XtgettcapParse : Type :=
  | Complete (rest response : list Z)
  | Incomplete
  | NotXtgettcap.
End XtgettcapParse.
Abbreviation XtgettcapParse := XtgettcapParse.XtgettcapParse.

(** The payload up to the first terminator, and what follows it. *)
Fixpoint find_terminator (l : list Z) : option (list Z * list Z) :=
  match l with
  | [] => None
  | b :: l =>
      match l with
      | c :: rest =>
          if (b =? ESC) && (c =? BACKSLASH) then Some ([], rest)
          else (λ x, (b :: x.1, x.2)) <$> find_terminator l
      | [] => None
      end
  end.

(** Index arithmetic of the source is what is left of the text here. *)
Definition parse_xtgettcap (bytes : list Z) : XtgettcapParse :=
  match bytes with
  | e :: p :: plus :: q :: l =>
      if (e =? ESC) && (p =? 80) && (plus =? 43) && (q =? 113) then
        match find_terminator l with
        | Some (payload, rest) =>
            XtgettcapParse.Complete rest (if utf8_valid payload then xtgettcap_response payload else refused)
        | None => XtgettcapParse.Incomplete
        end
      else XtgettcapParse.NotXtgettcap
  | _ => XtgettcapParse.NotXtgettcap
  end.

(** ** The filter *)

Record FilteredOutput := mkFiltered { display_text : list Z; responses : list (list Z) }.

(** What follows an operating system command, which BEL or ESC \ ends. *)
Fixpoint skip_command (l : list Z) : option (list Z) :=
  match l with
  | [] => None
  | b :: l =>
      if b =? BEL then Some l
      else
        match l with
        | c :: rest => if (b =? ESC) && (c =? BACKSLASH) then Some rest else skip_command l
        | [] => None
        end
  end.

Definition starts_command (l : list Z) : option (list Z) :=
  match l with
  | b :: c :: l => if (b =? ESC) && (c =? 93) then Some l else None
  | _ => None
  end.

(** One round of the loop at a text that is not empty. *)
Inductive Round_ : Type :=
  | Consumed (out : FilteredOutput) (rest : list Z)
  | Pending.

Definition filter_round (l : list Z) : Round_ :=
  match starts_command l with
  | Some body => match skip_command body with Some rest => Consumed (mkFiltered [] []) rest | None => Pending end
  | None =>
      match parse_xtgettcap l with
      | XtgettcapParse.Complete rest response => Consumed (mkFiltered [] [response]) rest
      | XtgettcapParse.Incomplete => Pending
      | XtgettcapParse.NotXtgettcap =>
          match l with b :: rest => Consumed (mkFiltered (push_latin b) []) rest | [] => Pending end
      end
  end.

Definition add_output (a b : FilteredOutput) : FilteredOutput :=
  mkFiltered (a.(display_text) ++ b.(display_text)) (a.(responses) ++ b.(responses)).

(** [fuel]: rounds; each consumes a byte, so the length is enough. *)
Fixpoint filter_loop (fuel : nat) (l : list Z) : FilteredOutput * list Z :=
  match l, fuel with
  | [], _ | _, O => (mkFiltered [] [], l)
  | _, S fuel =>
      match filter_round l with
      | Consumed out rest => let '(out', pending) := filter_loop fuel rest in (add_output out out', pending)
      | Pending => (mkFiltered [] [], l)
      end
  end.

(** [OutputFilter::filter]: the output, and the new [pending_escape_buffer] *)
Definition output_filter (pending_escape_buffer text : list Z) : FilteredOutput * list Z :=
  let input := pending_escape_buffer ++ text in filter_loop (length input) input.

(** [filter_terminal_output] (terminal/object.rs): an unfinished command is dropped. *)
Fixpoint screen_loop (fuel : nat) (l : list Z) : list Z :=
  match l, fuel with
  | [], _ | _, O => []
  | b :: rest, S fuel =>
      match starts_command l with
      | Some body => screen_loop fuel (default [] (skip_command body))
      | None => push_latin b ++ screen_loop fuel rest
      end
  end.

Definition filter_terminal_output (text : list Z) : list Z := screen_loop (length text) text.

(** ** Lemmas *)

Lemma hex_digit n : 0 ≤ n < 16 → decode_hex_nibble (default 0 (HEX !! Z.to_nat n)) = Some n.
Proof.
  intros Hn. assert (Forall (λ n, decode_hex_nibble (default 0 (HEX !! Z.to_nat n)) = Some n) (map Z.of_nat (seq 0 16))) as H
    by (cbn [seq map]; repeat (apply List.Forall_cons; [vm_compute; reflexivity|]); apply List.Forall_nil).
  apply (proj1 (List.Forall_forall _ _) H n), in_map_iff. exists (Z.to_nat n). split; [lia|]. apply in_seq. lia.
Qed.

(** Hexadecimal text reads back: the decoder of the queries gives back any ASCII text
    that the encoder of the answers wrote. *)
Lemma hex_roundtrip text : Forall (λ b, 0 ≤ b < 128) text → decode_hex_ascii (encode_hex_ascii text) = Some text.
Proof.
  intros Ht. unfold decode_hex_ascii.
  assert (zlen (encode_hex_ascii text) mod 2 = 0) as Hlen.
  { clear Ht. unfold encode_hex_ascii, zlen. induction text as [|b text IH]; [done|]. cbn [map concat]. rewrite length_app. cbn [length].
    rewrite Nat2Z.inj_add, Z.add_comm. change (Z.of_nat 2) with (1 * 2). by rewrite Z_mod_plus_full. }
  rewrite Hlen, Z.eqb_refl. cbn [negb]. induction Ht as [|b text Hb _ IH]; [done|].
  unfold encode_hex_ascii in *. cbn [map concat app decode_hex_pairs].
  assert (0 ≤ Z.shiftr b 4 < 16) as H1 by (rewrite Z.shiftr_div_pow2 by lia; change (2 ^ 4) with 16; split; [apply Z.div_pos|apply Z.div_lt_upper_bound]; lia).
  assert (0 ≤ Z.land b 15 < 16) as H2 by (change 15 with (Z.ones 4); rewrite Z.land_ones by lia; apply Z.mod_pos_bound; lia).
  rewrite (hex_digit _ H1), (hex_digit _ H2). cbn [mbind option_bind]. rewrite IH.
  - cbn [mbind option_bind]. f_equal. assert (Z.lor (Z.shiftl (Z.shiftr b 4) 4) (Z.land b 15) = b) as ->.
    { apply Z.bits_inj'. intros i Hi. rewrite Z.lor_spec, Z.land_spec. change 15 with (Z.ones 4).
      destruct (Z.lt_ge_cases i 4).
      - rewrite Z.shiftl_spec_low, Z.ones_spec_low by lia. by rewrite andb_true_r.
      - rewrite Z.shiftl_spec, Z.shiftr_spec, Z.ones_spec_high by lia. rewrite andb_false_r, orb_false_r. f_equal. lia. }
    unfold push_latin. destruct (Z.ltb_spec b 128); [done|lia].
  - revert Hlen. cbn [map concat]. unfold zlen. rewrite length_app. cbn [length]. rewrite Nat2Z.inj_add, Z.add_comm.
    change (Z.of_nat 2) with (1 * 2). by rewrite Z_mod_plus_full.
Qed.

Lemma find_terminator_app l b payload rest : find_terminator l = Some (payload, rest) → find_terminator (l ++ b) = Some (payload, rest ++ b).
Proof.
  revert payload rest. induction l as [|x l IH]; intros payload rest; [done|]. cbn. destruct l as [|y l]; [done|].
  change ((y :: l) ++ b) with (y :: (l ++ b)) in *. cbn [app]. destruct ((x =? ESC) && (y =? BACKSLASH)); [by intros [= <- <-]|].
  intros ([p r] & Hf & [= -> ->])%fmap_Some_1. by rewrite (IH p r Hf).
Qed.

Lemma skip_command_app l b rest : skip_command l = Some rest → skip_command (l ++ b) = Some (rest ++ b).
Proof.
  revert rest. induction l as [|x l IH]; intros rest; [done|]. cbn. destruct (x =? BEL); [by intros [= <-]|].
  destruct l as [|y l]; [done|]. change ((y :: l) ++ b) with (y :: (l ++ b)) in *. cbn [app].
  destruct ((x =? ESC) && (y =? BACKSLASH)); [by intros [= <-]|]. apply IH.
Qed.

Lemma skip_command_suffix l rest : skip_command l = Some rest → rest `suffix_of` l.
Proof.
  revert rest. induction l as [|x l IH]; intros rest; [done|]. cbn. destruct (x =? BEL); [intros [= <-]; by exists [x]|].
  destruct l as [|y l]; [done|]. destruct ((x =? ESC) && (y =? BACKSLASH)); [intros [= <-]; by exists [x; y]|].
  intros [u Hu]%IH. exists (x :: u). by rewrite Hu.
Qed.

Lemma find_terminator_suffix l payload rest : find_terminator l = Some (payload, rest) → rest `suffix_of` l.
Proof.
  revert payload rest. induction l as [|x l IH]; intros payload rest; [done|]. cbn. destruct l as [|y l]; [done|].
  destruct ((x =? ESC) && (y =? BACKSLASH)); [intros [= <- <-]; by exists [x; y]|].
  intros ([p r] & Hf & [= -> ->])%fmap_Some_1. destruct (IH _ _ Hf) as [u Hu]. exists (x :: u). by rewrite Hu.
Qed.

(** The start of a sequence that cannot be told from text yet. *)
Definition cut (l : list Z) : Prop := l = [ESC] ∨ l = [ESC; 80] ∨ l = [ESC; 80; 43].

Lemma round_suffix l out rest : filter_round l = Consumed out rest → ∃ b l', l = b :: l' ∧ rest `suffix_of` l'.
Proof.
  unfold filter_round. destruct l as [|b0 l0]; [done|]. intros H. exists b0, l0. split; [done|]. revert H.
  destruct (starts_command (b0 :: l0)) as [body|] eqn:Hc.
  - destruct (skip_command body) as [r|] eqn:Hs; [|done]. intros [= _ <-]. apply skip_command_suffix in Hs.
    unfold starts_command in Hc. destruct l0 as [|c l0]; [done|]. destruct (_ && _); [|done]. injection Hc as ->. by apply suffix_cons_r.
  - destruct (parse_xtgettcap (b0 :: l0)) as [r resp| |] eqn:Hp; [|done|by intros [= _ <-]].
    intros [= _ <-]. unfold parse_xtgettcap in Hp. destruct l0 as [|p [|plus [|q l0]]]; try done. destruct (_ && _); [|done].
    destruct (find_terminator l0) as [[pl rs]|] eqn:Hf; [|done]. injection Hp as <- _. apply find_terminator_suffix in Hf.
    by do 3 apply suffix_cons_r.
Qed.

(** A round reads the same when more text follows, unless it is cut. *)
Lemma round_app l b out rest : filter_round l = Consumed out rest → ¬ cut l → filter_round (l ++ b) = Consumed out (rest ++ b).
Proof.
  unfold filter_round, cut. destruct l as [|x l]; [done|]. cbn [app].
  destruct (Z.eqb_spec x ESC) as [->|Hx].
  - destruct l as [|y l]; [intros _ []; tauto|]. cbn [app starts_command]. rewrite Z.eqb_refl. cbn [andb].
    destruct (y =? 93) eqn:Hy.
    { destruct (skip_command l) as [r|] eqn:Hs; [|done]. intros [= <- <-] _. by rewrite (skip_command_app _ b _ Hs). }
    destruct (Z.eqb_spec y 80) as [->|Hy80].
    + destruct l as [|z l]; [intros _ []; tauto|]. cbn [app]. destruct (Z.eqb_spec z 43) as [->|Hz].
      * destruct l as [|q l]; [intros _ []; tauto|]. cbn [app parse_xtgettcap]. rewrite Z.eqb_refl. cbn [andb]. change (80 =? 80) with true. change (43 =? 43) with true. cbn [andb].
        destruct (q =? 113); [|by intros [= <- <-]]. destruct (find_terminator l) as [[pl r]|] eqn:Hf; [|done].
        intros [= <- <-] _. by rewrite (find_terminator_app _ b _ _ Hf).
      * assert (∀ l, parse_xtgettcap (ESC :: 80 :: z :: l) = XtgettcapParse.NotXtgettcap) as Hn.
        { intros [|q l']; [done|]. cbn. apply Z.eqb_neq in Hz. by rewrite Hz. }
        rewrite !Hn. by intros [= <- <-].
    + assert (∀ l, parse_xtgettcap (ESC :: y :: l) = XtgettcapParse.NotXtgettcap) as Hn.
      { intros [|z [|q l']]; [done..|]. cbn. apply Z.eqb_neq in Hy80. by rewrite Hy80. }
      rewrite !Hn. by intros [= <- <-].
  - assert (∀ l, starts_command (x :: l) = None) as Hs by (intros [|y l']; [done|]; cbn; apply Z.eqb_neq in Hx; by rewrite Hx).
    assert (∀ l, parse_xtgettcap (x :: l) = XtgettcapParse.NotXtgettcap) as Hn.
    { intros [|y [|z [|q l']]]; [done..|]. cbn. apply Z.eqb_neq in Hx. by rewrite Hx. }
    rewrite !Hs, !Hn. by intros [= <- <-].
Qed.

Lemma filter_loop_fuel n m l : (length l ≤ n)%nat → (length l ≤ m)%nat → filter_loop n l = filter_loop m l.
Proof.
  revert m l. induction n as [|n IH]; intros m [|x l] Hn Hm; cbn in Hn; try (destruct m; done); try lia.
  destruct m as [|m]; [cbn in Hm; lia|]. cbn [filter_loop]. destruct (filter_round (x :: l)) as [out rest|] eqn:Hr; [|done].
  apply round_suffix in Hr as (b & l' & [= <- <-] & Hr%suffix_length). cbn in Hm. by rewrite (IH m rest) by lia.
Qed.

Lemma add_output_nil o : add_output (mkFiltered [] []) o = o.
Proof. by destruct o. Qed.

Lemma add_output_assoc a b c : add_output (add_output a b) c = add_output a (add_output b c).
Proof. unfold add_output. cbn. by rewrite <- !app_assoc. Qed.

Lemma filter_loop_app n l b : (length l ≤ n)%nat → (∀ s, s `suffix_of` l → ¬ cut s) →
  filter_loop (length (l ++ b)) (l ++ b) =
  (let '(o1, p1) := filter_loop n l in
   let '(o2, p2) := filter_loop (length (p1 ++ b)) (p1 ++ b) in (add_output o1 o2, p2)).
Proof.
  revert l. induction n as [|n IH]; intros l Hn Hcut.
  - destruct l; [|cbn in Hn; lia]. cbn [app filter_loop]. destruct (filter_loop _ b) as [o p]. by rewrite add_output_nil.
  - destruct l as [|x l]; [cbn [app filter_loop]; destruct (filter_loop _ b) as [o p]; by rewrite add_output_nil|].
    cbn [filter_loop]. destruct (filter_round (x :: l)) as [out rest|] eqn:Hr.
    + destruct (round_suffix _ _ _ Hr) as (x' & l' & [= <- <-] & Hs). assert (Hlen := suffix_length _ _ Hs). cbn in Hn.
      assert (Hr' := round_app _ b _ _ Hr (Hcut (x :: l) (reflexivity _))). cbn [app length filter_loop] in Hr' |- *. rewrite Hr'.
      rewrite (filter_loop_fuel _ (length (rest ++ b))) by (rewrite ?length_app; lia). rewrite (IH rest) by
        first [lia|intros s Hsuf; apply Hcut; etrans; [exact Hsuf|by apply suffix_cons_r]].
      destruct (filter_loop n rest) as [o1 p1]. destruct (filter_loop _ (p1 ++ b)) as [o2 p2]. by rewrite add_output_assoc.
    + destruct (filter_loop (length ((x :: l) ++ b)) ((x :: l) ++ b)) as [o p]. by rewrite add_output_nil.
Qed.

(** Output does not depend on how it is split: writing a text in two pieces gives the
    same display, the same answers and the same unfinished sequence as writing it at once,
    unless the first piece ends within the first three bytes of a sequence. *)
Lemma output_in_pieces pending a b :
  (∀ s, s `suffix_of` (pending ++ a) → ¬ cut s) →
  output_filter pending (a ++ b) =
  (let '(o1, p1) := output_filter pending a in
   let '(o2, p2) := output_filter p1 b in (add_output o1 o2, p2)).
Proof. intros Hcut. unfold output_filter. rewrite app_assoc. by apply filter_loop_app. Qed.

Lemma hex_roundtrip_witness : decode_hex_ascii (encode_hex_ascii (ascii "linux")) = Some (ascii "linux").
Proof. apply (hex_roundtrip (ascii "linux")). repeat (apply List.Forall_cons; [vm_compute; split; [discriminate|reflexivity]|]). apply List.Forall_nil. Defined.

(** A title that is set in two pieces, and text after it. *)
Definition title_start : list Z := ascii "a" ++ ESC :: ascii "]0;ti".
Definition title_end : list Z := ascii "tle" ++ [BEL] ++ ascii "b".

Lemma output_in_pieces_witness :
  output_filter [] (title_start ++ title_end) =
  (let '(o1, p1) := output_filter [] title_start in
   let '(o2, p2) := output_filter p1 title_end in (add_output o1 o2, p2)).
Proof.
  apply (output_in_pieces [] title_start title_end). intros s [u Hu] [->|[->| ->]];
    apply (f_equal (λ l, last l)) in Hu; rewrite ?last_app in Hu; vm_compute in Hu; discriminate.
Defined.

Example title_swallowed : output_filter [] (title_start ++ title_end) = (mkFiltered (ascii "ab") [], []).
Proof. vm_compute. reflexivity. Qed.

(** The query for the number of colours, and its answer. *)
Example colours_answered :
  output_filter [] (ESC :: ascii "P+q" ++ encode_hex_ascii (ascii "Co") ++ [ESC; BACKSLASH]) =
  (mkFiltered [] [ESC :: ascii "P1+r436F=38" ++ [ESC; BACKSLASH]], []).
Proof. vm_compute. reflexivity. Qed.

(** A title whose first byte is the last of a write is shown as text. *)
Lemma split_after_escape :
  (output_filter [] [ESC]).2 = [] ∧ (output_filter [] (ascii "]0;t" ++ [BEL])).1.(display_text) = ascii "]0;t" ++ [BEL].
Proof. by vm_compute. Qed.

(** Text that is not ASCII is encoded a second time by the filter, and a third time in front
    of the screen. *)
Lemma accented_letter_mangled :
  utf8_valid [0xC3; 0xA9] = true ∧ (output_filter [] [0xC3; 0xA9]).1.(display_text) = [0xC3; 0x83; 0xC2; 0xA9] ∧
  filter_terminal_output [0xC3; 0x83; 0xC2; 0xA9] = [0xC3; 0x83; 0xC2; 0x83; 0xC3; 0x82; 0xC2; 0xA9].
Proof. by vm_compute. Qed.
