(* ===== verification/Tty.v ===== *)
(** * Terminals of the console

    The virtual terminals (object/tty_device.rs, terminal/linux_vt.rs), the terminal behind
    them (terminal/object.rs, terminal/object_config.rs), and the reads that wait for a queue
    (object/queue_helpers.rs).

    A terminal device is known by its address.  The emulator that draws the text is a
    third-party crate: [emulator] says which answers it writes for a text, given all the
    texts before.  Drawing itself is not modelled. *)

From stdpp Require Import sets.
From S2P Require Import Prelude Errors Clock Blocking Polling SignalData Threads Futex Signals Poller Ioctl Console LineDiscipline Epoll OutputFilter.

Open Scope Z_scope.

Definition MAX_VIRTUAL_TTYS : Z := 6.

(** ** Data *)

Record TerminalObject := mkTerminal {
  termios : LinuxTermios2;
  winsize : LinuxWinsize;
  terminal_console : LinuxConsoleState;
  screen : list (list Z);
}.

Record TtyDevice := mkTty {
  linux_console : LinuxConsoleState;
  virtual_terminal : option Z;
  interactive : bool;
  pending_escape : list Z;
  keyboard_queue : list Z;
  terminal_response_queue : list Z;
  raw_queue : list Z;
  medium_raw_queue : list Z;
  tty_line_buffer : list Z;
  active_group : option Z;
  tty_flags : Z;
}.

Definition tty_new (interactive : bool) (virtual_terminal : option Z) : TtyDevice :=
  mkTty console_default virtual_terminal interactive [] [] [] [] [] [] None 0.

(** [ACTIVE_VT], [VIRTUAL_TTYS], the devices by address, the one terminal they share, and
    whether the framebuffer belongs to user programs. *)
Record Terminals := mkTerminals {
  active_vt : Z;
  virtual_ttys : gmap Z Z;
  ttys : gmap Z TtyDevice;
  terminal : TerminalObject;
  user_controlled : bool;
}.

Definition with_active_vt (x : Terminals) (v : Z) : Terminals := mkTerminals v x.(virtual_ttys) x.(ttys) x.(terminal) x.(user_controlled).
Definition with_ttys (x : Terminals) (v : gmap Z TtyDevice) : Terminals := mkTerminals x.(active_vt) x.(virtual_ttys) v x.(terminal) x.(user_controlled).
Definition with_terminal (x : Terminals) (v : TerminalObject) : Terminals := mkTerminals x.(active_vt) x.(virtual_ttys) x.(ttys) v x.(user_controlled).
Definition framebuffer_set_user_controlled (x : Terminals) (b : bool) : Terminals := mkTerminals x.(active_vt) x.(virtual_ttys) x.(ttys) x.(terminal) b.

Definition map_tty (x : Terminals) (d : Z) (f : TtyDevice → TtyDevice) : Terminals := with_ttys x (alter f d x.(ttys)).

(** Updates of one field of a device. *)
Definition with_linux_console (d : TtyDevice) (v : LinuxConsoleState) : TtyDevice :=
  mkTty v d.(virtual_terminal) d.(interactive) d.(pending_escape) d.(keyboard_queue) d.(terminal_response_queue) d.(raw_queue) d.(medium_raw_queue) d.(tty_line_buffer) d.(active_group) d.(tty_flags).
Definition with_pending_escape (d : TtyDevice) (v : list Z) : TtyDevice :=
  mkTty d.(linux_console) d.(virtual_terminal) d.(interactive) v d.(keyboard_queue) d.(terminal_response_queue) d.(raw_queue) d.(medium_raw_queue) d.(tty_line_buffer) d.(active_group) d.(tty_flags).
Definition with_keyboard_queue (d : TtyDevice) (v : list Z) : TtyDevice :=
  mkTty d.(linux_console) d.(virtual_terminal) d.(interactive) d.(pending_escape) v d.(terminal_response_queue) d.(raw_queue) d.(medium_raw_queue) d.(tty_line_buffer) d.(active_group) d.(tty_flags).
Definition with_response_queue (d : TtyDevice) (v : list Z) : TtyDevice :=
  mkTty d.(linux_console) d.(virtual_terminal) d.(interactive) d.(pending_escape) d.(keyboard_queue) v d.(raw_queue) d.(medium_raw_queue) d.(tty_line_buffer) d.(active_group) d.(tty_flags).
Definition with_raw_queue (d : TtyDevice) (v : list Z) : TtyDevice :=
  mkTty d.(linux_console) d.(virtual_terminal) d.(interactive) d.(pending_escape) d.(keyboard_queue) d.(terminal_response_queue) v d.(medium_raw_queue) d.(tty_line_buffer) d.(active_group) d.(tty_flags).
Definition with_medium_raw_queue (d : TtyDevice) (v : list Z) : TtyDevice :=
  mkTty d.(linux_console) d.(virtual_terminal) d.(interactive) d.(pending_escape) d.(keyboard_queue) d.(terminal_response_queue) d.(raw_queue) v d.(tty_line_buffer) d.(active_group) d.(tty_flags).
Definition with_line_buffer (d : TtyDevice) (v : list Z) : TtyDevice :=
  mkTty d.(linux_console) d.(virtual_terminal) d.(interactive) d.(pending_escape) d.(keyboard_queue) d.(terminal_response_queue) d.(raw_queue) d.(medium_raw_queue) v d.(active_group) d.(tty_flags).
Definition with_active_group (d : TtyDevice) (v : option Z) : TtyDevice :=
  mkTty d.(linux_console) d.(virtual_terminal) d.(interactive) d.(pending_escape) d.(keyboard_queue) d.(terminal_response_queue) d.(raw_queue) d.(medium_raw_queue) d.(tty_line_buffer) v d.(tty_flags).

Definition with_termios (o : TerminalObject) (v : LinuxTermios2) : TerminalObject := mkTerminal v o.(winsize) o.(terminal_console) o.(screen).
Definition with_winsize (o : TerminalObject) (v : LinuxWinsize) : TerminalObject := mkTerminal o.(termios) v o.(terminal_console) o.(screen).
Definition with_terminal_console (o : TerminalObject) (v : LinuxConsoleState) : TerminalObject := mkTerminal o.(termios) o.(winsize) v o.(screen).
Definition with_screen (o : TerminalObject) (v : list (list Z)) : TerminalObject := mkTerminal o.(termios) o.(winsize) o.(terminal_console) v.

(** [TerminalObject::new], for the size of the emulator *)
Definition terminal_new (rows cols : Z) : TerminalObject := mkTerminal termios_default (from_rows_cols rows cols) console_default [].

(** ** The virtual terminals *)

Definition get_virtual_tty (x : Terminals) (vt : Z) : option Z := x.(virtual_ttys) !! vt.

Definition get_active_tty (x : Terminals) : option Z := get_virtual_tty x x.(active_vt).

(** Setting the mode of the framebuffer; what is drawn then is not modelled. *)
Definition apply_display_mode_to_framebuffer (x : Terminals) (d : TtyDevice) : Terminals :=
  framebuffer_set_user_controlled x
    (match d.(linux_console).(display_mode) with DisplayMode.Graphics => true | _ => false end).

Definition set_active_vt (x : Terminals) (vt : Z) : bool * Terminals :=
  match get_virtual_tty x vt with
  | None => (false, x)
  | Some d =>
      let x := with_active_vt x vt in
      (true, match x.(ttys) !! d with Some tty => apply_display_mode_to_framebuffer x tty | None => x end)
  end.

(** The first in the order of the numbers that has no group, or else the first. *)
Definition find_unused_virtual_tty (x : Terminals) : option Z :=
  let vts := btree_iter x.(virtual_ttys) in
  let no_group d := match x.(ttys) !! d with Some tty => bool_decide (tty.(active_group) = None) | None => false end in
  match List.find (λ v, negb (v.1 =? x.(active_vt)) && no_group v.2) vts with
  | Some v => Some v.1
  | None => fst <$> List.find (λ v, negb (v.1 =? x.(active_vt))) vts
  end.

(** [terminal::init]: the console device, at [console], and the virtual ones, at [address]
    of their numbers, for the size of the emulator. *)
Definition vt_numbers : list Z := map Z.of_nat (seq 1 (Z.to_nat MAX_VIRTUAL_TTYS)).

Definition terminals_init (console : Z) (address : Z → Z) (rows cols : Z) : Terminals :=
  mkTerminals 1 (list_to_map (map (λ vt, (vt, address vt)) vt_numbers))
    (<[console := tty_new false None]> (list_to_map (map (λ vt, (address vt, tty_new true (Some vt))) vt_numbers)))
    (terminal_new rows cols) false.

(** ** A device *)

Definition tty_keyboard_mode (d : TtyDevice) : KeyboardMode := d.(linux_console).(keyboard_mode).

Definition is_active_virtual_terminal (x : Terminals) (d : TtyDevice) : bool := bool_decide (d.(virtual_terminal) = Some x.(active_vt)).

Definition receives_hardware_keyboard_input (d : TtyDevice) : bool :=
  match d.(linux_console).(display_mode) with DisplayMode.Graphics => false | _ => true end.

Definition push_raw_byte (d : TtyDevice) (byte : Z) : TtyDevice := with_raw_queue d (d.(raw_queue) ++ [byte]).
Definition push_medium_raw_bytes (d : TtyDevice) (bytes : list Z) : TtyDevice := with_medium_raw_queue d (d.(medium_raw_queue) ++ bytes).
Definition push_keyboard_bytes (d : TtyDevice) (bytes : list Z) : TtyDevice := with_keyboard_queue d (d.(keyboard_queue) ++ bytes).
Definition clear_line_buffer (d : TtyDevice) : TtyDevice := with_line_buffer d [].

Definition clear_input_state (d : TtyDevice) : TtyDevice :=
  clear_line_buffer (with_medium_raw_queue (with_raw_queue (with_response_queue (with_keyboard_queue d []) []) []) []).

Definition flush_line_buffer (d : TtyDevice) : TtyDevice := clear_line_buffer (push_keyboard_bytes d d.(tty_line_buffer)).

(** A change of the group drops the answers that nobody has read. *)
Definition set_active_group (d : TtyDevice) (group : option Z) : TtyDevice :=
  let changed := negb (bool_decide (d.(active_group) = group)) in
  let d := with_active_group d group in
  if changed then with_response_queue d [] else d.

(** The queue that a read takes from. *)
Definition input_queue (d : TtyDevice) : list Z :=
  match tty_keyboard_mode d with
  | KeyboardMode.Raw | KeyboardMode.Off => d.(raw_queue)
  | KeyboardMode.MediumRaw => d.(medium_raw_queue)
  | KeyboardMode.Xlate | KeyboardMode.Unicode => d.(keyboard_queue)
  end.

Definition with_input_queue (d : TtyDevice) (q : list Z) : TtyDevice :=
  match tty_keyboard_mode d with
  | KeyboardMode.Raw | KeyboardMode.Off => with_raw_queue d q
  | KeyboardMode.MediumRaw => with_medium_raw_queue d q
  | KeyboardMode.Xlate | KeyboardMode.Unicode => with_keyboard_queue d q
  end.

(** [is_event_ready] *)
Definition tty_ready (d : TtyDevice) (e : PollableEvent) : bool :=
  match e with
  | PollableEvent.CanBeRead => negb (bool_decide (d.(terminal_response_queue) = [])) || negb (bool_decide (input_queue d = []))
  | PollableEvent.CanBeWritten => true
  | _ => false
  end.

(** One attempt of a read of [len] bytes. *)
Definition tty_try_read (d : TtyDevice) (len : Z) : option (list Z * TtyDevice) :=
  if negb (bool_decide (d.(terminal_response_queue) = [])) then
    let '(bytes, q) := copy_from_queue d.(terminal_response_queue) len in Some (bytes, with_response_queue d q)
  else if negb (bool_decide (input_queue d = [])) then
    let '(bytes, q) := copy_from_queue (input_queue d) len in Some (bytes, with_input_queue d q)
  else None.

(** ** The machine around the terminals *)

Record Con (M : Type) := mkCon {
  c_sys : Sys M;
  c_terms : Terminals;
  c_controlling : gmap Z Z;
}.
Arguments mkCon {M} c_sys c_terms c_controlling.
Arguments c_sys {M} c.
Arguments c_terms {M} c.
Arguments c_controlling {M} c.

Definition with_sys {M} (c : Con M) (s : Sys M) : Con M := mkCon s c.(c_terms) c.(c_controlling).
Definition with_terms {M} (c : Con M) (x : Terminals) : Con M := mkCon c.(c_sys) x c.(c_controlling).
Definition with_c_world {M} (c : Con M) (w : World) : Con M := with_sys c (with_s_world c.(c_sys) w).
Definition with_c_mem {M} (c : Con M) (m : M) : Con M := with_sys c (with_s_mem c.(c_sys) m).
Definition set_controlling {M} (c : Con M) (p : Z) (v : option Z) : Con M :=
  mkCon c.(c_sys) c.(c_terms) (match v with Some d => <[p := d]> c.(c_controlling) | None => delete p c.(c_controlling) end).

Definition on_tty {M} (c : Con M) (d : Z) (f : TtyDevice → TtyDevice) : Con M := with_terms c (map_tty c.(c_terms) d f).

(** How the objects answer a poller: a terminal device from its queues. *)
Definition con_env {M} (c : Con M) (o : Z) : option (PollableEvent → bool) :=
  match c.(c_terms).(ttys) !! o with Some d => Some (tty_ready d) | None => c.(c_sys).(s_env) o end.

(** [wake_pollers_for_object]; the notification ends for consistent pollers. *)
Definition notify_object {M} (env : Z → option (PollableEvent → bool)) (s : Sys M) (o : Z) (e : PollableEvent) : Sys M :=
  match wake_pollers_for_object env s.(s_world) s.(s_pollers) o e with
  | Some (w, ps) => with_s_pollers (with_s_world s w) ps
  | None => s
  end.

(** A panic for an active terminal that is not registered. *)
Definition on_active_tty {M} (c : Con M) (f : Z → Con M) : Con M :=
  match get_active_tty c.(c_terms) with
  | Some d => f d
  | None => with_c_world c (panic c.(c_sys).(s_world))
  end.

Definition wake_tty_poller_readable {M} (c : Con M) : Con M :=
  on_active_tty c (λ d, with_sys c (notify_object (con_env c) c.(c_sys) d PollableEvent.CanBeRead)).

Definition wake_keyboard {M} (c : Con M) : Con M := with_c_world c (wake_queue c.(c_sys).(s_world) QueueKind.Keyboard).

Definition push_terminal_query_responses {M} (c : Con M) (d : Z) (bytes : list Z) : Con M :=
  match c.(c_terms).(ttys) !! d with
  | Some tty =>
      if negb tty.(interactive) || bool_decide (bytes = []) then c
      else wake_keyboard (on_tty c d (λ tty, with_response_queue tty (tty.(terminal_response_queue) ++ bytes)))
  | None => c
  end.

Definition push_terminal_response_bytes {M} (c : Con M) (d : Z) (bytes : list Z) : Con M :=
  let c := push_terminal_query_responses c d bytes in
  if bool_decide (bytes = []) then c else wake_tty_poller_readable c.

Section emulator.
Context {M : Type} (emulator : list (list Z) → list Z → list (list Z)).

(** [push_str] of the emulator: what it writes back goes to the active terminal. *)
Definition push_str (c : Con M) (text : list Z) : Con M :=
  let answers := emulator c.(c_terms).(terminal).(screen) text in
  let c := with_terms c (with_terminal c.(c_terms) (with_screen c.(c_terms).(terminal) (c.(c_terms).(terminal).(screen) ++ [text]))) in
  foldl (λ c a, on_active_tty c (λ d, push_terminal_response_bytes c d a)) c answers.

Definition write_screen_text (c : Con M) (text : list Z) : Con M :=
  let filtered := filter_terminal_output text in
  if bool_decide (filtered = []) then c else push_str c filtered.

Definition unsupported : list Z := ascii "Unsupported charcter".

(** The number of bytes; [None]: not a device. *)
Definition tty_write (c : Con M) (d : Z) (buffer : list Z) : result ObjectError Z * Con M :=
  match c.(c_terms).(ttys) !! d with
  | None => (Err ObjectError.Other, c)
  | Some tty =>
      let string := if utf8_valid buffer then buffer else unsupported in
      let '(filtered, pending) := output_filter tty.(pending_escape) string in
      let c := on_tty c d (λ tty, with_pending_escape tty pending) in
      let c := foldl (λ c r, push_terminal_response_bytes c d r) c filtered.(responses) in
      (Ok (zlen buffer),
       if bool_decide (filtered.(display_text) = []) then c else write_screen_text c filtered.(display_text))
  end.

(** [print!] *)
Definition print (c : Con M) (rendered : list Z) : Con M :=
  if bool_decide (rendered = []) then c else write_screen_text c rendered.
End emulator.

(** ** Reads that wait (object/queue_helpers.rs) *)

Section read.
(** The state with its threads, and an attempt to read. *)
Context {S A : Type} (world_of : S → World) (set_world : S → World → S) (try_read : S → option (A * S)).
Context (t : Z).

(** What the others do before the second attempt, and while the thread sleeps. *)
Record ReadRound := mkReadRound { r_between : S → S; r_during : S → S }.

Definition has_pending (s : S) : bool :=
  match parent_of (world_of s) t with Some pr => negb (pr.(p_pending_signals) =? 0) | None => false end.

Definition finish_read_block (s : S) (others : S → S) : S :=
  let '(at_once, w) := finish_block_current (world_of s) t in
  let s := set_world s w in if at_once then s else others s.

(** [read_or_block_with_flags]; [None]: still asleep after the given rounds. *)
Fixpoint read_or_block_with_flags (flags : Z) (wake_type : WakeType) (rounds : list ReadRound) (s : S)
  : option (result ObjectError A) * S :=
  match try_read s with
  | Some (r, s) => (Some (Ok r), s)
  | None =>
      if flag_set flags NONBLOCK then (Some (Err ObjectError.TryAgain), s)
      else if has_pending s then (Some (Err ObjectError.Interrupted), s)
      else
        let s := set_world s (prepare_block_current (world_of s) t (BlockType.WakeRequired wake_type None)) in
        match rounds with
        | [] => (None, s)
        | round :: rounds =>
            let s := round.(r_between) s in
            match try_read s with
            | Some (r, s) => (Some (Ok r), set_world s (cancel_block (world_of s) t))
            | None =>
                let s := finish_read_block s round.(r_during) in
                if has_pending s then (Some (Err ObjectError.Interrupted), s)
                else read_or_block_with_flags flags wake_type rounds s
            end
        end
  end.
End read.

Arguments mkReadRound {S} r_between r_during.
Arguments r_between {S} r _.
Arguments r_during {S} r _.

Definition con_world {M} (c : Con M) : World := c.(c_sys).(s_world).

Definition tty_attempt {M} (d len : Z) (c : Con M) : option (list Z * Con M) :=
  match c.(c_terms).(ttys) !! d with
  | Some tty => match tty_try_read tty len with Some (bytes, tty) => Some (bytes, on_tty c d (λ _, tty)) | None => None end
  | None => None
  end.

(** The bytes a read of [len] gives. *)
Definition tty_read_with_flags {M} (t d len flags : Z) (rounds : list (ReadRound (S := Con M))) (c : Con M)
  : option (result ObjectError (list Z)) * Con M :=
  read_or_block_with_flags con_world with_c_world (tty_attempt d len) t flags WakeType.Keyboard rounds c.

(** ** Requests *)

Section configure.
Context {M : Type} `{um_int : UserMemory M Z} `{um_byte : UserMemory M Byte.byte} `{um_entry : UserMemory M LinuxKbEntry}
  `{um_vtmode : UserMemory M LinuxVtMode} `{um_vtstat : UserMemory M LinuxVtStat} `{um_termios : UserMemory M LinuxTermios}
  `{um_termios2 : UserMemory M LinuxTermios2} `{um_termio : UserMemory M LinuxTermio} `{um_winsize : UserMemory M LinuxWinsize}.

(** A value written for the caller, who gets zero. *)
Definition give {T} `{UserMemory M T} {S} (m : M) (ptr : Z) (v : T) (back : M → S) : result ObjectError (option Z) * S :=
  let '(r, m) := user_write m ptr v in ((λ _, Some 0) <$> bad_address r, back m).

(** A value read from the caller. *)
Definition taken {T} `{UserMemory M T} {S} (m : M) (ptr : Z) (back : M → S) (f : T → M → result ObjectError (option Z) * S)
  : result ObjectError (option Z) * S :=
  let '(r, m) := user_read (T := T) m ptr in
  match bad_address r with Ok v => f v m | Err e => (Err e, back m) end.

(** Requests for virtual terminals (terminal/linux_vt.rs); [Ok None]: another request. *)
Definition handle_vt_request (x : Terminals) (console : LinuxConsoleState) (request : ConfigurateRequest) (m : M)
  : result ObjectError (option Z) * (Terminals * LinuxConsoleState * M) :=
  let same m := (x, console, m) in
  match request with
  | ConfigurateRequest.LinuxVtOpenQuery ptr =>
      match find_unused_virtual_tty x with
      | None => (Err ObjectError.InvalidArguments, same m)
      | Some vt => give m ptr (uwrap 16 vt) same
      end
  | ConfigurateRequest.LinuxVtGetMode ptr => give m ptr console.(vt_mode) same
  | ConfigurateRequest.LinuxVtGetState ptr =>
      let active := uwrap 16 x.(active_vt) in
      give m ptr (mkVtStat active 0 (uwrap 16 (Z.shiftl 1 (active mod 16)))) same
  | ConfigurateRequest.LinuxVtSetMode ptr =>
      taken (T := LinuxVtMode) m ptr same (λ mode m, (Ok (Some 0), (x, with_vt_mode console mode, m)))
  | ConfigurateRequest.LinuxVtActivate vt | ConfigurateRequest.LinuxVtWaitActive vt =>
      if vt =? 0 then (Err ObjectError.InvalidArguments, same m)
      else
        let '(found, x) := set_active_vt x vt in
        (if found then Ok (Some 0) else Err ObjectError.InvalidArguments, (x, console, m))
  | ConfigurateRequest.LinuxVtRelDisp ack =>
      (if ack =? 0 then Err ObjectError.InvalidArguments else Ok (Some 0), same m)
  | _ => (Ok None, same m)
  end.

(** Requests for the settings of the shared terminal (terminal/object_config.rs). *)
Definition terminal_settings (o : TerminalObject) (request : ConfigurateRequest) (m : M)
  : result ObjectError (option Z) * (TerminalObject * M) :=
  let same m := (o, m) in
  match request with
  | ConfigurateRequest.LinuxTcGetA ptr => give m ptr (as_linux_termio o.(termios)) same
  | ConfigurateRequest.LinuxTcGets ptr => give m ptr (as_linux_termios o.(termios)) same
  | ConfigurateRequest.LinuxTcSets ptr =>
      taken (T := LinuxTermios) m ptr same (λ t m, (Ok (Some 0), (with_termios o (apply_linux_termios o.(termios) t), m)))
  | ConfigurateRequest.LinuxTcGets2 ptr => give m ptr o.(termios) same
  | ConfigurateRequest.LinuxTcSets2 ptr =>
      taken (T := LinuxTermios2) m ptr same (λ t m, (Ok (Some 0), (with_termios o (apply_linux_termios2 o.(termios) t), m)))
  | ConfigurateRequest.LinuxTiocgwinsz ptr => give m ptr o.(winsize) same
  | ConfigurateRequest.LinuxTiocswinsz ptr =>
      taken (T := LinuxWinsize) m ptr same (λ ws m, (Ok (Some 0), (with_winsize o (apply_winsize o.(winsize) ws), m)))
  | _ => (Err ObjectError.InvalidRequest, same m)
  end.

(** A request offered to one handler after the other: the first that knows it answers. *)
Definition or_else {S} (x : result ObjectError (option Z) * S) (next : S → result ObjectError (option Z) * S)
  : result ObjectError (option Z) * S :=
  match x with (Ok None, s) => next s | x => x end.

(** [configure] of the terminal, whose console is its own. *)
Definition terminal_configure (x : Terminals) (request : ConfigurateRequest) (m : M) : result ObjectError (option Z) * (Terminals * M) :=
  let kd '(console, m) := (with_terminal x (with_terminal_console x.(terminal) console), m) in
  or_else (let '(r, s) := handle_kd_request x.(terminal).(terminal_console) request m in (r, kd s)) (λ '(x, m),
  or_else
    (let '(r, (x', console, m)) := handle_vt_request x x.(terminal).(terminal_console) request m in
     (r, (with_terminal x' (with_terminal_console x'.(terminal) console), m))) (λ '(x, m),
  let '(r, (o, m)) := terminal_settings x.(terminal) request m in (r, (with_terminal x o, m)))).

Context (p : Z) (stdin_terminal_rdev : Z → option Z).

Definition con_mem (c : Con M) : M := c.(c_sys).(s_mem).

Definition caller_group (c : Con M) : option Z := group_id <$> (con_world c).(processes) !! p.

Definition sets_console_mode (request : ConfigurateRequest) : bool :=
  match request with ConfigurateRequest.LinuxKdSetKeyboardMode _ | ConfigurateRequest.LinuxKdSetDisplayMode _ => true | _ => false end.

Definition tty_kd_request (c : Con M) (d : Z) (request : ConfigurateRequest) : result ObjectError (option Z) * Con M :=
  match c.(c_terms).(ttys) !! d with
  | None => (Err ObjectError.Other, c)
  | Some tty =>
      let '(r, (console, m)) := handle_kd_request tty.(linux_console) request (con_mem c) in
      let c := on_tty (with_c_mem c m) d (λ tty, with_linux_console tty console) in
      match r with
      | Ok (Some _) =>
          if sets_console_mode request then
            let tty := with_linux_console tty console in
            let x := match request with
                     | ConfigurateRequest.LinuxKdSetDisplayMode _ =>
                         if is_active_virtual_terminal c.(c_terms) tty then apply_display_mode_to_framebuffer c.(c_terms) tty else c.(c_terms)
                     | _ => c.(c_terms)
                     end in
            (r, on_tty (with_terms c x) d clear_input_state)
          else (r, c)
      | _ => (r, c)
      end
  end.

Definition tty_vt_request (c : Con M) (d : Z) (request : ConfigurateRequest) : result ObjectError (option Z) * Con M :=
  match c.(c_terms).(ttys) !! d with
  | None => (Err ObjectError.Other, c)
  | Some tty =>
      let '(r, (x, console, m)) := handle_vt_request c.(c_terms) tty.(linux_console) request (con_mem c) in
      (r, on_tty (with_c_mem (with_terms c x) m) d (λ tty, with_linux_console tty console))
  end.

Definition tty_request (c : Con M) (d : Z) (request : ConfigurateRequest) : result ObjectError (option Z) * Con M :=
  match request with
  | ConfigurateRequest.LinuxTcFlush _ => (Ok (Some 0), on_tty c d clear_input_state)
  | ConfigurateRequest.LinuxTiocnxcl => (Ok (Some 0), c)
  | ConfigurateRequest.LinuxTiocsctty _ =>
      match caller_group c with
      | None => (Err ObjectError.Other, c)
      | Some group => (Ok (Some 0), set_controlling (on_tty c d (λ tty, set_active_group tty (Some group))) p (stdin_terminal_rdev p))
      end
  | ConfigurateRequest.LinuxTiocgPgrp ptr =>
      let group := match c.(c_terms).(ttys) !! d with Some tty => swrap 32 (default 0 tty.(active_group)) | None => 0 end in
      give (con_mem c) ptr group (with_c_mem c)
  | ConfigurateRequest.LinuxTiocnotty => (Ok (Some 0), set_controlling c p None)
  | ConfigurateRequest.LinuxTiocspgrp ptr =>
      taken (T := Z) (con_mem c) ptr (with_c_mem c) (λ group m,
        (Ok (Some 0), on_tty (with_c_mem c m) d (λ tty, set_active_group tty (Some (uwrap 64 group)))))
  | ConfigurateRequest.LinuxTiocvhangup => (Ok (Some 0), on_tty c d clear_input_state)
  | request =>
      let '(r, (x, m)) := terminal_configure c.(c_terms) request (con_mem c) in (r, with_c_mem (with_terms c x) m)
  end.

(** [configure] of a device *)
Definition tty_configure (c : Con M) (d : Z) (request : ConfigurateRequest) : result ObjectError (option Z) * Con M :=
  or_else (tty_kd_request c d request) (λ c, or_else (tty_vt_request c d request) (λ c, tty_request c d request)).
End configure.
