(* ===== verification/Keyboard.v ===== *)
(** * Keyboard

    From the scancodes of the interrupt handler to the input of the active terminal
    (keyboard/mod.rs, decoding.rs, char_processing.rs, raw_key_processing.rs).

    The decoder of scancodes is a third-party crate: [add_byte] and [process_keyevent] say
    what it answers.  What is passed on to the event devices is kept in order. *)

From stdpp Require Import sets.
From S2P Require Import Prelude Errors Clock Blocking Polling SignalData Threads Futex Signals Poller Console LineDiscipline Epoll OutputFilter Tty.

Open Scope Z_scope.

Definition SCANCODE_CAPACITY : Z := 512.

Definition encode_linux_raw_byte (scancode : Z) : Z :=
  if scancode =? 0xE0 then 0x60 else if scancode =? 0xE1 then 0x61 else scancode.

(** Of pc_keyboard. *)
Record KeyEvent := mkKeyEvent { key_code : KeyCode; key_up : bool }.

Module DecodedKey.
Inductive DecodedKey : Type := RawKey (code : KeyCode) | Unicode (character : Z).
End DecodedKey.
Abbreviation DecodedKey := DecodedKey.DecodedKey.

(** What MediumRaw mode shows of an event: one byte, or three for a large code. *)
Definition medium_raw_bytes (event : KeyEvent) : list Z :=
  match linux_keycode_from_keycode event.(key_code) with
  | None => []
  | Some keycode =>
      let mark := if event.(key_up) then 0x80 else 0 in
      if keycode <? 0x80 then [Z.lor keycode mark]
      else [mark; Z.land (Z.shiftr keycode 7) 0x7f; Z.land keycode 0x7f]
  end.

Section keyboard.
Context {M K : Type} (emulator : list (list Z) → list Z → list (list Z)).
(** The signal descriptors of a process. *)
Context (signalfds : Z → list Signalfd).
Context (add_byte : K → Z → option KeyEvent * K) (process_keyevent : K → KeyEvent → option DecodedKey * K).

(** ** Characters (keyboard/char_processing.rs) *)

Definition active_device (c : Con M) : option (Z * TtyDevice) :=
  d ← get_active_tty c.(c_terms); (λ tty, (d, tty)) <$> c.(c_terms).(ttys) !! d.

Definition announce_input (c : Con M) : Con M := wake_tty_poller_readable (wake_keyboard c).

Definition handle_interrupt_char (c : Con M) (d : Z) (tty : TtyDevice) (t : LinuxTermios2) : Con M :=
  if negb (should_signal_on_special_chars t) then c
  else
    let c := on_tty c d clear_line_buffer in
    let c := match tty.(active_group) with
             | Some group => with_c_world c (send_signal_group signalfds (con_world c) group Signal.SIGINT)
             | None => c
             end in
    announce_input c.

(** One callback of the line discipline. *)
Definition char_action (d : Z) (t : LinuxTermios2) (c : Con M) (a : Action) : Con M :=
  match a with
  | Action.QueueByte b => on_tty c d (λ tty, push_keyboard_bytes tty [b])
  | Action.EchoBytes bytes =>
      let echoed := process_output_bytes t bytes in
      if utf8_valid echoed then print emulator c echoed else c
  | Action.Interrupt => c
  end.

Definition process_char (c : Con M) (character : Z) : Con M :=
  match active_device c with
  | None => with_c_world c (panic (con_world c))
  | Some (d, tty) =>
      if negb (receives_hardware_keyboard_input tty) then c
      else
        let t := c.(c_terms).(terminal).(termios) in
        if 255 <? character then c
        else
          let byte := character in
          let '(line_buffer, acts) := process_input_byte t tty.(tty_line_buffer) byte in
          let c := foldl (char_action d t) c acts in
          let c := on_tty c d (λ tty, with_line_buffer tty line_buffer) in
          if wants_interrupt acts then handle_interrupt_char c d tty t
          else
            let c := if byte =? LF then on_tty c d flush_line_buffer else c in
            announce_input c
  end.

(** ** Keys without a character (keyboard/raw_key_processing.rs) *)

Definition process_key (c : Con M) (key : KeyCode) : Con M :=
  match active_device c with
  | None => with_c_world c (panic (con_world c))
  | Some (d, tty) =>
      if negb (receives_hardware_keyboard_input tty) then c
      else
        let t := c.(c_terms).(terminal).(termios) in
        let sequence := to_escape_sequence key in
        let c := if should_echo t && utf8_valid sequence then print emulator c sequence else c in
        if negb (is_canonical t) then announce_input (on_tty c d (λ tty, push_keyboard_bytes tty sequence)) else c
  end.

(** ** Scancodes (keyboard/mod.rs, keyboard/decoding.rs) *)

Record Kb := mkKb { kb_con : Con M; kb_decoder : K; kb_queue : list Z; kb_events : list KeyEvent }.

Definition with_con (k : Kb) (c : Con M) : Kb := mkKb c k.(kb_decoder) k.(kb_queue) k.(kb_events).
Definition with_decoder (k : Kb) (x : K) : Kb := mkKb k.(kb_con) x k.(kb_queue) k.(kb_events).

(** A full queue drops the scancode. *)
Definition push_scancode (k : Kb) (scancode : Z) : Kb :=
  if zlen k.(kb_queue) <? SCANCODE_CAPACITY then mkKb k.(kb_con) k.(kb_decoder) (k.(kb_queue) ++ [scancode]) k.(kb_events) else k.

Definition has_pending_scancodes (k : Kb) : bool := negb (bool_decide (k.(kb_queue) = [])).

Definition push_medium_raw_event (c : Con M) (d : Z) (event : KeyEvent) : Con M :=
  match linux_keycode_from_keycode event.(key_code) with
  | None => c
  | Some _ => announce_input (on_tty c d (λ tty, push_medium_raw_bytes tty (medium_raw_bytes event)))
  end.

Definition push_raw (c : Con M) (d scancode : Z) : Con M :=
  announce_input (on_tty c d (λ tty, push_raw_byte tty (encode_linux_raw_byte scancode))).

Definition process_decoded (k : Kb) (key : option DecodedKey) : Kb :=
  match key with
  | Some (DecodedKey.RawKey code) => with_con k (process_key k.(kb_con) code)
  | Some (DecodedKey.Unicode character) => with_con k (process_char k.(kb_con) character)
  | None => k
  end.

(** One scancode that was taken from the queue. *)
Definition process_scancode (k : Kb) (scancode : Z) : Kb :=
  match active_device k.(kb_con) with
  | None => with_con k (with_c_world k.(kb_con) (panic (con_world k.(kb_con))))
  | Some (d, tty) =>
      let receives := receives_hardware_keyboard_input tty in
      let '(event, decoder) := add_byte k.(kb_decoder) scancode in
      let k := with_decoder k decoder in
      match event with
      | Some event =>
          let k := mkKb k.(kb_con) k.(kb_decoder) k.(kb_queue) (k.(kb_events) ++ [event]) in
          if negb receives then k
          else
            let k := with_con k (push_raw k.(kb_con) d scancode) in
            match tty_keyboard_mode tty with
            | KeyboardMode.Raw | KeyboardMode.Off => k
            | KeyboardMode.MediumRaw => with_con k (push_medium_raw_event k.(kb_con) d event)
            | KeyboardMode.Xlate | KeyboardMode.Unicode =>
                let '(key, decoder) := process_keyevent k.(kb_decoder) event in
                process_decoded (with_decoder k decoder) key
            end
      | None => if receives then with_con k (push_raw k.(kb_con) d scancode) else k
      end
  end.

(** The loop takes scancodes until the queue is empty; none comes meanwhile. *)
Definition process_pending_scancodes (k : Kb) : Kb :=
  foldl process_scancode (mkKb k.(kb_con) k.(kb_decoder) [] k.(kb_events)) k.(kb_queue).
End keyboard.

Arguments mkKb {M K} kb_con kb_decoder kb_queue kb_events.
