(* ===== verification/Pty.v ===== *)
(** * Pseudo terminals

    The pairs of a master and a slave, their registry, and their reads, writes and requests
    (terminal/pty/mod.rs, shared.rs, master.rs, slave.rs).

    The two ends are known by their addresses; [held] says which objects somebody other than
    the registry refers to.  The state an end shares with its peer is kept in the entry of
    the registry, which is there as long as an end is held. *)

From stdpp Require Import sets.
From S2P Require Import Prelude Errors Clock Blocking Polling SignalData Threads Futex Signals Poller Ioctl Console LineDiscipline Epoll OutputFilter Tty.

Open Scope Z_scope.

(** ** Data *)

Record PtyShared := mkShared {
  from_master : list Z;
  from_slave : list Z;
  line_buffer : list Z;
  pty_termios : LinuxTermios2;
  pty_winsize : LinuxWinsize;
  pty_group : option Z;
}.

Definition shared_default : PtyShared := mkShared [] [] [] termios_default default_terminal_size None.

Record PtyEntry := mkPtyEntry {
  master : Z;
  slave : Z;
  locked : bool;
  shared : PtyShared;
  slave_console : LinuxConsoleState;
  master_flags : Z;
  slave_flags : Z;
}.

Record PtyRegistry := mkRegistry { next_number : Z; pty_entries : gmap Z PtyEntry }.

Definition with_locked (e : PtyEntry) (b : bool) : PtyEntry :=
  mkPtyEntry e.(master) e.(slave) b e.(shared) e.(slave_console) e.(master_flags) e.(slave_flags).
Definition with_shared (e : PtyEntry) (s : PtyShared) : PtyEntry :=
  mkPtyEntry e.(master) e.(slave) e.(locked) s e.(slave_console) e.(master_flags) e.(slave_flags).
Definition with_slave_console (e : PtyEntry) (c : LinuxConsoleState) : PtyEntry :=
  mkPtyEntry e.(master) e.(slave) e.(locked) e.(shared) c e.(master_flags) e.(slave_flags).
Definition with_slave_flags (e : PtyEntry) (f : Z) : PtyEntry :=
  mkPtyEntry e.(master) e.(slave) e.(locked) e.(shared) e.(slave_console) e.(master_flags) f.

Definition with_from_master (s : PtyShared) (l : list Z) : PtyShared := mkShared l s.(from_slave) s.(line_buffer) s.(pty_termios) s.(pty_winsize) s.(pty_group).
Definition with_from_slave (s : PtyShared) (l : list Z) : PtyShared := mkShared s.(from_master) l s.(line_buffer) s.(pty_termios) s.(pty_winsize) s.(pty_group).
Definition with_pty_termios (s : PtyShared) (t : LinuxTermios2) : PtyShared := mkShared s.(from_master) s.(from_slave) s.(line_buffer) t s.(pty_winsize) s.(pty_group).
Definition with_pty_winsize (s : PtyShared) (w : LinuxWinsize) : PtyShared := mkShared s.(from_master) s.(from_slave) s.(line_buffer) s.(pty_termios) w s.(pty_group).
Definition with_pty_group (s : PtyShared) (g : option Z) : PtyShared := mkShared s.(from_master) s.(from_slave) s.(line_buffer) s.(pty_termios) s.(pty_winsize) g.

(** ** The registry (terminal/pty/mod.rs) *)

Section registry.
Context (held : Z → bool).

Definition cleanup (r : PtyRegistry) : PtyRegistry :=
  mkRegistry r.(next_number) (filter (λ x, held x.2.(master) || held x.2.(slave) = true) r.(pty_entries)).

(** [m], [s]: the addresses of the new ends. *)
Definition create_entry (r : PtyRegistry) (m s : Z) (locked : bool) : Z * PtyRegistry :=
  let r := cleanup r in
  let number := r.(next_number) in
  (number, mkRegistry (uwrap 32 (number + 1))
             (<[number := mkPtyEntry m s locked shared_default console_default 0 0]> r.(pty_entries))).

Definition get_pty_slave (r : PtyRegistry) (number : Z) : option Z * PtyRegistry :=
  let r := cleanup r in
  (match r.(pty_entries) !! number with Some e => if e.(locked) then None else Some e.(slave) | None => None end, r).

Definition list_ptys (r : PtyRegistry) : list Z * PtyRegistry :=
  let r := cleanup r in (map fst (btree_iter r.(pty_entries)), r).

Definition set_pty_lock (r : PtyRegistry) (number : Z) (locked : bool) : bool * PtyRegistry :=
  let r := cleanup r in
  match r.(pty_entries) !! number with
  | None => (false, r)
  | Some e => (true, mkRegistry r.(next_number) (<[number := with_locked e locked]> r.(pty_entries)))
  end.
End registry.

(** ** What a write of the master does to the pair *)

Record MasterWrite := mkMasterWrite {
  w_shared : PtyShared;
  wrote_input : bool;
  wrote_echo : bool;
  interrupt_group : option Z;
}.

Definition master_write_byte (t : LinuxTermios2) (w : MasterWrite) (byte : Z) : MasterWrite :=
  let s := w.(w_shared) in
  let '(line_buffer, acts) := process_input_byte t s.(line_buffer) byte in
  let queued_input := queued acts in
  let queued_echo := concat (map (process_output_bytes t) (echoed acts)) in
  let interrupt := wants_interrupt acts in
  mkMasterWrite
    (mkShared (s.(from_master) ++ queued_input) (s.(from_slave) ++ queued_echo) (if interrupt then [] else line_buffer)
       s.(pty_termios) s.(pty_winsize) s.(pty_group))
    (w.(wrote_input) || negb (bool_decide (queued_input = [])))
    (w.(wrote_echo) || negb (bool_decide (queued_echo = [])))
    (if interrupt then s.(pty_group) else w.(interrupt_group)).

Definition master_write_bytes (s : PtyShared) (buffer : list Z) : MasterWrite :=
  foldl (master_write_byte s.(pty_termios)) (mkMasterWrite s false false None) buffer.

Definition slave_write_bytes (s : PtyShared) (buffer : list Z) : PtyShared :=
  with_from_slave s (s.(from_slave) ++ process_output_bytes s.(pty_termios) buffer).

(** [is_event_ready] of the two ends *)
Definition end_ready (queue : list Z) (e : PollableEvent) : bool :=
  match e with
  | PollableEvent.CanBeRead => negb (bool_decide (queue = []))
  | PollableEvent.CanBeWritten => true
  | _ => false
  end.

(** ** The machine around the pairs *)

Record Ptys (M : Type) := mkPtys { p_con : Con M; p_registry : PtyRegistry }.
Arguments mkPtys {M} p_con p_registry.
Arguments p_con {M} p.
Arguments p_registry {M} p.

Definition with_p_con {M} (s : Ptys M) (c : Con M) : Ptys M := mkPtys c s.(p_registry).
Definition with_registry {M} (s : Ptys M) (r : PtyRegistry) : Ptys M := mkPtys s.(p_con) r.
Definition with_p_world {M} (s : Ptys M) (w : World) : Ptys M := with_p_con s (with_c_world s.(p_con) w).
Definition p_world {M} (s : Ptys M) : World := con_world s.(p_con).

Definition on_entry {M} (s : Ptys M) (number : Z) (f : PtyEntry → PtyEntry) : Ptys M :=
  with_registry s (mkRegistry s.(p_registry).(next_number) (alter f number s.(p_registry).(pty_entries))).

Definition entry_of {M} (s : Ptys M) (number : Z) : option PtyEntry := s.(p_registry).(pty_entries) !! number.

(** How the objects answer a poller: the ends of a pair from their queues. *)
Definition pty_env {M} (s : Ptys M) (o : Z) : option (PollableEvent → bool) :=
  match List.find (λ x, (x.2.(master) =? o) || (x.2.(slave) =? o)) (btree_iter s.(p_registry).(pty_entries)) with
  | Some (_, e) => Some (end_ready (if e.(master) =? o then e.(shared).(from_slave) else e.(shared).(from_master)))
  | None => con_env s.(p_con) o
  end.

Definition notify_end {M} (s : Ptys M) (o : Z) : Ptys M :=
  with_p_con s (with_sys s.(p_con) (notify_object (pty_env s) s.(p_con).(c_sys) o PollableEvent.CanBeRead)).

Definition wake_pty {M} (s : Ptys M) : Ptys M := with_p_world s (wake_queue (p_world s) QueueKind.Pty).

(** [write] of a master: the number of bytes.  A panic when the peer is gone.
    [signalfds]: the signal descriptors of a process. *)
Definition pty_master_write {M} (signalfds : Z → list Signalfd) (s : Ptys M) (number : Z) (buffer : list Z) : result ObjectError Z * Ptys M :=
  match entry_of s number with
  | None => (Err ObjectError.Other, with_p_world s (panic (p_world s)))
  | Some e =>
      let w := master_write_bytes e.(shared) buffer in
      let s := on_entry s number (λ e, with_shared e w.(w_shared)) in
      let s := match w.(interrupt_group) with
               | Some group => with_p_world s (send_signal_group signalfds (p_world s) group Signal.SIGINT)
               | None => s
               end in
      let s := wake_pty s in
      let s := if w.(wrote_input) then notify_end s e.(slave) else s in
      (Ok (zlen buffer), if w.(wrote_echo) then notify_end s e.(master) else s)
  end.

Definition pty_slave_write {M} (s : Ptys M) (number : Z) (buffer : list Z) : result ObjectError Z * Ptys M :=
  match entry_of s number with
  | None => (Err ObjectError.Other, with_p_world s (panic (p_world s)))
  | Some e =>
      let s := on_entry s number (λ e, with_shared e (slave_write_bytes e.(shared) buffer)) in
      (Ok (zlen buffer), notify_end (wake_pty s) e.(master))
  end.

(** One attempt of a read of [len] bytes. *)
Definition master_attempt {M} (number len : Z) (s : Ptys M) : option (list Z * Ptys M) :=
  e ← entry_of s number;
  if bool_decide (e.(shared).(from_slave) = []) then None
  else
    let '(bytes, q) := copy_from_queue e.(shared).(from_slave) len in
    Some (bytes, on_entry s number (λ e, with_shared e (with_from_slave e.(shared) q))).

Definition slave_attempt {M} (number len : Z) (s : Ptys M) : option (list Z * Ptys M) :=
  e ← entry_of s number;
  if bool_decide (e.(shared).(from_master) = []) then None
  else
    let '(bytes, q) := copy_from_queue e.(shared).(from_master) len in
    Some (bytes, on_entry s number (λ e, with_shared e (with_from_master e.(shared) q))).

Definition pty_master_read {M} (t number len flags : Z) (rounds : list (ReadRound (S := Ptys M))) (s : Ptys M)
  : option (result ObjectError (list Z)) * Ptys M :=
  read_or_block_with_flags p_world with_p_world (master_attempt number len) t flags WakeType.Pty rounds s.

Definition pty_slave_read {M} (t number len flags : Z) (rounds : list (ReadRound (S := Ptys M))) (s : Ptys M)
  : option (result ObjectError (list Z)) * Ptys M :=
  read_or_block_with_flags p_world with_p_world (slave_attempt number len) t flags WakeType.Pty rounds s.

(** ** Requests *)

Section configure.
Context {M : Type} `{um_int : UserMemory M Z} `{um_byte : UserMemory M Byte.byte} `{um_entry : UserMemory M LinuxKbEntry}
  `{um_vtmode : UserMemory M LinuxVtMode} `{um_vtstat : UserMemory M LinuxVtStat} `{um_termios : UserMemory M LinuxTermios}
  `{um_termios2 : UserMemory M LinuxTermios2} `{um_termio : UserMemory M LinuxTermio} `{um_winsize : UserMemory M LinuxWinsize}.
Context (held : Z → bool) (p : Z) (stdin_terminal_rdev : Z → option Z).

Definition with_p_mem (s : Ptys M) (m : M) : Ptys M := with_p_con s (with_c_mem s.(p_con) m).
Definition p_mem (s : Ptys M) : M := con_mem s.(p_con).

Definition on_shared (s : Ptys M) (number : Z) (f : PtyShared → PtyShared) : Ptys M :=
  on_entry s number (λ e, with_shared e (f e.(shared))).

Definition slave_request (s : Ptys M) (number : Z) (sh : PtyShared) (request : ConfigurateRequest)
  : result ObjectError (option Z) * Ptys M :=
  let done s := (Ok (Some 0), s) in
  let back := with_p_mem s in
  match request with
  | ConfigurateRequest.LinuxTiocsctty _ =>
      match caller_group p s.(p_con) with
      | None => (Err ObjectError.Other, s)
      | Some group =>
          let s := on_shared s number (λ sh, with_pty_group sh (Some group)) in
          done (with_p_con s (set_controlling s.(p_con) p (stdin_terminal_rdev p)))
      end
  | ConfigurateRequest.LinuxTiocgPgrp ptr => give (p_mem s) ptr (swrap 32 (default 0 sh.(pty_group))) back
  | ConfigurateRequest.LinuxTiocnotty => done (with_p_con s (set_controlling s.(p_con) p None))
  | ConfigurateRequest.LinuxTiocspgrp ptr =>
      taken (T := Z) (p_mem s) ptr back (λ g m, done (on_shared (with_p_mem s m) number (λ sh, with_pty_group sh (Some (uwrap 64 g)))))
  | ConfigurateRequest.LinuxTcGetA ptr => give (p_mem s) ptr (as_linux_termio sh.(pty_termios)) back
  | ConfigurateRequest.LinuxTcGets ptr => give (p_mem s) ptr (as_linux_termios sh.(pty_termios)) back
  | ConfigurateRequest.LinuxTcSets ptr =>
      taken (T := LinuxTermios) (p_mem s) ptr back (λ t m,
        done (on_shared (with_p_mem s m) number (λ sh, with_pty_termios sh (apply_linux_termios sh.(pty_termios) t))))
  | ConfigurateRequest.LinuxTcGets2 ptr => give (p_mem s) ptr sh.(pty_termios) back
  | ConfigurateRequest.LinuxTcSets2 ptr =>
      taken (T := LinuxTermios2) (p_mem s) ptr back (λ t m,
        done (on_shared (with_p_mem s m) number (λ sh, with_pty_termios sh (apply_linux_termios2 sh.(pty_termios) t))))
  | ConfigurateRequest.LinuxTiocgwinsz ptr => give (p_mem s) ptr sh.(pty_winsize) back
  | ConfigurateRequest.LinuxTiocswinsz ptr =>
      taken (T := LinuxWinsize) (p_mem s) ptr back (λ ws m,
        done (on_shared (with_p_mem s m) number (λ sh, with_pty_winsize sh (apply_winsize sh.(pty_winsize) ws))))
  | ConfigurateRequest.LinuxTiocvhangup =>
      done (on_shared s number (λ sh, mkShared [] sh.(from_slave) [] sh.(pty_termios) sh.(pty_winsize) sh.(pty_group)))
  | _ => (Err ObjectError.InvalidRequest, s)
  end.

Definition slave_kd_request (s : Ptys M) (number : Z) (e : PtyEntry) (request : ConfigurateRequest) : result ObjectError (option Z) * Ptys M :=
  let '(r, (console, m)) := handle_kd_request e.(slave_console) request (p_mem s) in
  (r, on_entry (with_p_mem s m) number (λ e, with_slave_console e console)).

Definition slave_vt_request (s : Ptys M) (number : Z) (e : PtyEntry) (request : ConfigurateRequest) : result ObjectError (option Z) * Ptys M :=
  let '(r, (x, console, m)) := handle_vt_request s.(p_con).(c_terms) e.(slave_console) request (p_mem s) in
  let s := with_p_mem s m in
  (r, on_entry (with_p_con s (with_terms s.(p_con) x)) number (λ e, with_slave_console e console)).

Definition pty_slave_configure (s : Ptys M) (number : Z) (request : ConfigurateRequest) : result ObjectError (option Z) * Ptys M :=
  match entry_of s number with
  | None => (Err ObjectError.Other, with_p_world s (panic (p_world s)))
  | Some e =>
      or_else (slave_kd_request s number e request) (λ s,
      or_else (slave_vt_request s number e request) (λ s, slave_request s number e.(shared) request))
  end.

(** [push_object]: the descriptor the caller gets for an object with flags, if it can have
    one.  The answer is that of the request, or the descriptor of TIOCGPTPEER. *)
Definition pty_master_configure (push_object : Ptys M → Z → Z → Z * Ptys M) (s : Ptys M) (number : Z) (request : ConfigurateRequest)
  : result ObjectError (option Z) * Ptys M :=
  match entry_of s number with
  | None => (Err ObjectError.Other, with_p_world s (panic (p_world s)))
  | Some e =>
      match request with
      | ConfigurateRequest.LinuxTiocgptn ptr => give (p_mem s) ptr (swrap 32 number) (with_p_mem s)
      | ConfigurateRequest.LinuxTiocsptlck ptr =>
          taken (T := Z) (p_mem s) ptr (with_p_mem s) (λ v m,
            (Ok (Some 0), with_registry (with_p_mem s m) (set_pty_lock held s.(p_registry) number (negb (v =? 0))).2))
      | ConfigurateRequest.LinuxTiocgptpeer open_request =>
          let s := on_entry s number (λ e, with_slave_flags e (file_flags open_request)) in
          let '(fd, s) := push_object s e.(slave) (fd_flags open_request) in (Ok (Some fd), s)
      | request => pty_slave_configure s number request
      end
  end.
End configure.
