(* ===== verification/PtyProps.v ===== *)
(** * Terminals: input reaches its readers

    What is typed at a pseudo terminal, or at the console, is edited by the line discipline
    and reaches the reader that waits for it; the registry of pairs keeps every open end; and
    the framebuffer belongs to user programs exactly while the active terminal says so. *)

From stdpp Require Import sets.
From S2P Require Import Prelude Errors Clock Blocking Polling SignalData Threads ThreadsProps Futex Signals SignalProps.
From S2P Require Import Ioctl Console LineDiscipline Poller Epoll OutputFilter Tty Keyboard Pty.

Open Scope Z_scope.

(** ** A reader that waits *)

Lemma prepare_then_finish w t b : is_Some (w.(threads) !! t) →
  finish_block_current (prepare_block_current w t b) t = (false, set_state (prepare_block_current w t b) t (State.Blocked b)).
Proof.
  intros [th Hth]. unfold finish_block_current.
  assert (state_of (prepare_block_current w t b) t = Some (State.Blocking b)) as ->; [|done].
  unfold prepare_block_current, block, state_of. cbn. by rewrite lookup_alter_eq, Hth.
Qed.

Section read.
Context {S A : Type} (world_of : S → World) (set_world : S → World → S) (try_read : S → option (A * S)).
Context (t : Z).
Context (get_set : ∀ s w, world_of (set_world s w) = w).
Context (try_frame : ∀ s w, is_Some (try_read (set_world s w)) ↔ is_Some (try_read s)).

(** A read that found nothing, slept, and was woken by [others], which made input. *)
Lemma read_after_sleep flags wake_type rounds others s :
  try_read s = None → flag_set flags NONBLOCK = false → has_pending world_of t s = false →
  is_Some ((world_of s).(threads) !! t) →
  let asleep := set_world (set_world s (prepare_block_current (world_of s) t (BlockType.WakeRequired wake_type None)))
                  (finish_block_current (prepare_block_current (world_of s) t (BlockType.WakeRequired wake_type None)) t).2 in
  has_pending world_of t (others asleep) = false →
  read_or_block_with_flags world_of set_world try_read t flags wake_type (mkReadRound (λ s, s) others :: rounds) s =
  read_or_block_with_flags world_of set_world try_read t flags wake_type rounds (others asleep).
Proof.
  intros Hnone Hflags Hp Hth asleep Hp'. set (s1 := set_world s _) in asleep.
  assert (try_read s1 = None) as Hnone1.
  { destruct (try_read s1) eqn:Ht; [|done]. assert (is_Some (try_read s1)) as H by (by eexists).
    apply try_frame in H. rewrite Hnone in H. by destruct H. }
  cbn [read_or_block_with_flags]. rewrite Hnone, Hflags, Hp. cbn [r_between r_during]. fold s1. rewrite Hnone1.
  unfold finish_read_block. assert (Hw : world_of s1 = prepare_block_current (world_of s) t (BlockType.WakeRequired wake_type None)) by apply get_set.
  pose proof (prepare_then_finish (world_of s) t (BlockType.WakeRequired wake_type None) Hth) as Hf.
  unfold asleep in *. rewrite Hw, Hf in *. cbn [snd] in *.
  by rewrite Hp'.
Qed.
End read.

(** ** What wakes do to a waiting reader *)

Lemma parent_frame w w' t : only_wakes w w' → parent_of w' t = parent_of w t.
Proof.
  intros [Hp Ht _ _]. unfold parent_of, process_of. rewrite Hp. specialize (Ht t).
  destruct (w'.(threads) !! t) as [th'|], (w.(threads) !! t) as [th|]; cbn in Ht |- *; try done.
  apply (f_equal (λ x, parent (default th x))) in Ht. cbn in Ht. by rewrite Ht.
Qed.

(** Only wake-ups, and a thread that runs stays ready. *)
Definition wakes_only (t : Z) (w w' : World) : Prop :=
  only_wakes w w' ∧ (sched_ok w → sched_ok w' ∧ (state_of w t = Some State.Ready → state_of w' t = Some State.Ready)).

Lemma wakes_refl t w : wakes_only t w w.
Proof. split; [apply only_wakes_refl|done]. Qed.

Lemma wakes_trans t w1 w2 w3 : wakes_only t w1 w2 → wakes_only t w2 w3 → wakes_only t w1 w3.
Proof. intros [H1 R1] [H2 R2]. split; [by eapply only_wakes_trans|]. intros Hok. destruct (R1 Hok) as [Hok2 S1]. destruct (R2 Hok2) as [Hok3 S2]. auto. Qed.

Lemma wakes_queue t w k : wakes_only t w (wake_queue w k).
Proof.
  split; [apply wake_queue_only|]. intros Hok. destruct (wake_queue_spec w k Hok) as (Hok' & _ & Hs). split; [done|].
  intros Ht. rewrite Hs, Ht. by case_decide.
Qed.

Lemma notify_wakes {M} env (s : Sys M) o e t : wakes_only t s.(s_world) (notify_object env s o e).(s_world).
Proof.
  unfold notify_object, wake_pollers_for_object. destruct (notify_pollers env s.(s_pollers) o e) as [[affected ps]|]; [|apply wakes_refl].
  cbn [fmap option_fmap option_map s_world with_s_pollers with_s_world].
  destruct affected as [|q qs]; [apply wakes_refl|]. set (w := mark_pollers_dirty s.(s_world) true).
  split.
  - eapply only_wakes_trans; [by apply (only_wakes_same _ w)|]. apply wake_matching_only.
  - intros Hok. assert (sched_ok w) as Hok1 by (destruct Hok; by constructor).
    destruct (wake_matching_spec w QueueKind.Poller (waits_for_poller (q :: qs)) Hok1) as [Hok' Hst]. split; [done|].
    intros Ht. unfold wake_affected_pollers. fold w. rewrite (Hst t State.Ready) by done. cbn [waits_for_poller]. by rewrite andb_false_r.
Qed.

(** ** Pseudo terminals *)

(** The bytes of a write are typed one after the other. *)
Lemma master_write_types s buffer w :
  w = master_write_bytes s buffer →
  (w.(w_shared).(line_buffer), w.(w_shared).(from_master), w.(w_shared).(from_slave)) =
  foldl (type_byte s.(pty_termios)) (s.(line_buffer), s.(from_master), s.(from_slave)) buffer.
Proof.
  intros ->. unfold master_write_bytes. set (t := s.(pty_termios)).
  enough (∀ w, foldl (type_byte t) (w.(w_shared).(line_buffer), w.(w_shared).(from_master), w.(w_shared).(from_slave)) buffer =
    let w' := foldl (master_write_byte t) w buffer in (w'.(w_shared).(line_buffer), w'.(w_shared).(from_master), w'.(w_shared).(from_slave))) as H
    by (symmetry; apply (H (mkMasterWrite s false false None))).
  induction buffer as [|b buffer IH]; intros w; [done|]. cbn [foldl]. rewrite <- IH. f_equal.
  unfold type_byte, master_write_byte. by destruct (process_input_byte t _ b) as [lb acts].
Qed.

Lemma master_write_wrote t buffer w :
  (foldl (master_write_byte t) w buffer).(wrote_input) = false →
  (foldl (master_write_byte t) w buffer).(w_shared).(from_master) = w.(w_shared).(from_master).
Proof.
  revert w. induction buffer as [|b buffer IH]; intros w; [done|]. cbn [foldl]. intros H. rewrite (IH _ H).
  assert (∀ buffer w, w.(wrote_input) = true → (foldl (master_write_byte t) w buffer).(wrote_input) = true) as Hmono.
  { clear. intros buffer. induction buffer as [|b buffer IH]; intros w Hw; [done|]. cbn. apply IH. unfold master_write_byte.
    destruct (process_input_byte _ _ _). cbn. by rewrite Hw. }
  destruct (wrote_input (master_write_byte t w b)) eqn:Hb; [by rewrite Hmono in H|]. revert Hb. unfold master_write_byte.
  destruct (process_input_byte t (line_buffer (w_shared w)) b) as [lb acts]. cbn. intros [_ Hq]%orb_false_iff.
  apply negb_false_iff, bool_decide_eq_true in Hq. by rewrite Hq, app_nil_r.
Qed.

Section pty.
Context {M : Type} (signalfds : Z → list Signalfd).

Lemma slave_attempt_frame number len (s : Ptys M) w : is_Some (slave_attempt number len (with_p_world s w)) ↔ is_Some (slave_attempt number len s).
Proof.
  unfold slave_attempt. change (entry_of (with_p_world s w) number) with (entry_of s number). destruct (entry_of s number) as [e|]; [|done].
  cbn. case_bool_decide; [done|]. split; intros _; by eexists.
Qed.

Lemma notify_end_world (s : Ptys M) o t : wakes_only t (p_world s) (p_world (notify_end s o)).
Proof. unfold p_world, con_world, notify_end. cbn. apply notify_wakes. Qed.

Lemma notify_end_registry (s : Ptys M) o : (notify_end s o).(p_registry) = s.(p_registry).
Proof. done. Qed.

(** The registry and the threads after a write without an interrupt. *)
Lemma master_write_spec (s : Ptys M) number e buffer t :
  entry_of s number = Some e → (master_write_bytes e.(shared) buffer).(interrupt_group) = None →
  let s' := (pty_master_write signalfds s number buffer).2 in
  entry_of s' number = Some (with_shared e (master_write_bytes e.(shared) buffer).(w_shared)) ∧
  wakes_only t (wake_queue (p_world s) QueueKind.Pty) (p_world s').
Proof.
  intros He Hi. cbv zeta. unfold pty_master_write. rewrite He. set (w := master_write_bytes e.(shared) buffer) in *. rewrite Hi.
  set (s1 := wake_pty (on_entry s number (λ e, with_shared e w.(w_shared)))). cbn [snd].
  set (s2 := if w.(wrote_input) then notify_end s1 e.(slave) else s1).
  assert (entry_of s1 number = Some (with_shared e w.(w_shared))) as H1.
  { unfold entry_of, s1. cbn. rewrite lookup_alter_eq. unfold entry_of in He. by rewrite He. }
  assert (entry_of s2 number = entry_of s1 number ∧ wakes_only t (p_world s1) (p_world s2)) as [H2 W2].
  { unfold s2. destruct (wrote_input w); (split; [done|]); [apply notify_end_world|apply wakes_refl]. }
  split; [by destruct (wrote_echo w); cbn; rewrite <- H1, <- H2|].
  change (wake_queue (p_world s) QueueKind.Pty) with (p_world s1). eapply wakes_trans; [exact W2|].
  destruct (wrote_echo w); [apply notify_end_world|apply wakes_refl].
Qed.

(** What is typed at a pseudo terminal reaches the reader: a reader of the slave that
    found nothing and sleeps is runnable once the master was written bytes that complete some
    input, and its read answers with the start of what the line discipline passed on, in
    canonical mode the lines as a reference editor gives them. *)
Lemma typed_input_reaches_reader (s : Ptys M) number e t len flags buffer :
  entry_of s number = Some e → e.(shared).(from_master) = [] → flag_set flags NONBLOCK = false →
  has_pending p_world t s = false → sched_ok (p_world s) → state_of (p_world s) t = Some State.Running →
  let w := master_write_bytes e.(shared) buffer in
  let input := w.(w_shared).(from_master) in
  input ≠ [] → w.(interrupt_group) = None →
  (is_canonical e.(shared).(pty_termios) = true →
   input = (typed e.(shared).(line_buffer) (map (key_of e.(shared).(pty_termios)) buffer)).2) ∧
  (let asleep := (finish_block_current (prepare_block_current (p_world s) t (BlockType.WakeRequired WakeType.Pty None)) t).2 in
   runnable (p_world (pty_master_write signalfds (with_p_world s asleep) number buffer).2) t) ∧
  (pty_slave_read t number len flags [mkReadRound (λ s, s) (λ s, (pty_master_write signalfds s number buffer).2)] s).1 =
  Some (Ok (take (Z.to_nat len) input)).
Proof.
  intros He Hnil Hf Hp Hok Hrun w input Hin Hi.
  set (b := BlockType.WakeRequired WakeType.Pty None).
  set (asleep := (finish_block_current (prepare_block_current (p_world s) t b) t).2).
  destruct (master_write_spec (with_p_world s asleep) number e buffer t He Hi) as [He' [How0 Hst]].
  set (s' := (pty_master_write signalfds (with_p_world s asleep) number buffer).2) in *.
  assert (sched_ok asleep) as Hok1 by (apply finish_ok, block_ok; done).
  split_and!.
  - intros Hc. pose proof (type_bytes_typed e.(shared).(pty_termios) buffer e.(shared).(line_buffer) e.(shared).(from_master) e.(shared).(from_slave) Hc) as Ht.
    rewrite <- (master_write_types e.(shared) buffer w eq_refl) in Ht. injection Ht as _ Ht. unfold input. by rewrite Ht, Hnil.
  - destruct (wake_queue_spec asleep QueueKind.Pty Hok1) as (Hok2 & _ & Hq). destruct (Hst Hok2) as [Hok3 Hready].
    assert (state_of asleep t = Some (State.Blocked b)) as Hsl.
    { unfold asleep. rewrite prepare_then_finish by (unfold state_of in Hrun; destruct (threads (p_world s) !! t); [by eexists|done]).
      unfold prepare_block_current, block, state_of in Hrun |- *. cbn. rewrite lookup_alter_eq, lookup_alter_eq. by destruct (threads (p_world s) !! t). }
    split; [|apply (ok_ready_queued _ _ Hok3)]; apply Hready; rewrite Hq, Hsl, decide_True; try done;
      apply (waits_on_queue _ t _ QueueKind.Pty Hok1 Hsl); done.
  - unfold pty_slave_read. rewrite (read_after_sleep p_world with_p_world (slave_attempt number len) t).
    + match goal with |- context [read_or_block_with_flags _ _ _ _ _ _ [] ?x] => change x with s' end.
      assert (slave_attempt number len s' = Some (take (Z.to_nat len) input, on_entry s' number (λ e, with_shared e (with_from_master e.(shared) (drop (Z.to_nat len) input))))) as Ha.
      { unfold slave_attempt. rewrite He'. cbn [mbind option_bind shared with_shared]. fold w. fold input. by rewrite bool_decide_eq_false_2. }
      cbn [read_or_block_with_flags]. by rewrite Ha.
    + done.
    + intros ? ?. apply slave_attempt_frame.
    + unfold slave_attempt. rewrite He. cbn. by rewrite bool_decide_eq_true_2.
    + done.
    + done.
    + unfold state_of in Hrun. destruct (threads (p_world s) !! t); [by eexists|done].
    + cbv zeta. change (has_pending p_world t s' = false). revert Hp. unfold has_pending. intros Hp.
      assert (only_wakes asleep (p_world s')) as How by (eapply only_wakes_trans; [apply wake_queue_only|exact How0]).
      assert (only_wakes (p_world s) asleep) as How1.
      { unfold asleep. rewrite prepare_then_finish by (unfold state_of in Hrun; destruct (threads (p_world s) !! t); [by eexists|done]).
        cbn [snd]. unfold prepare_block_current, block. eapply only_wakes_trans; [|by apply only_wakes_map].
        apply (only_wakes_trans _ (set_state (p_world s) t (State.Blocking b))); [by apply only_wakes_map|by apply only_wakes_same]. }
      rewrite (parent_frame _ _ t How), (parent_frame _ _ t How1). exact Hp.
Qed.
End pty.

(** ** Who owns the framebuffer *)

(** The virtual terminals are the devices that know their number, and one is active. *)
Record terms_ok (x : Terminals) : Prop := {
  terms_virtual vt d : x.(virtual_ttys) !! vt = Some d ↔ ∃ tty, x.(ttys) !! d = Some tty ∧ tty.(virtual_terminal) = Some vt;
  terms_active : is_Some (get_active_tty x);
}.

Definition graphics (tty : TtyDevice) : bool :=
  match tty.(linux_console).(display_mode) with DisplayMode.Graphics => true | _ => false end.

Definition framebuffer_follows (x : Terminals) : Prop :=
  ∀ d tty, get_active_tty x = Some d → x.(ttys) !! d = Some tty → x.(user_controlled) = graphics tty.

Definition owned (x : Terminals) : Prop := terms_ok x ∧ framebuffer_follows x.

Definition mode_view (tty : TtyDevice) : DisplayMode * option Z := (tty.(linux_console).(display_mode), tty.(virtual_terminal)).

(** Nothing changes that says who owns the framebuffer. *)
Definition same_modes (x x' : Terminals) : Prop :=
  x'.(active_vt) = x.(active_vt) ∧ x'.(virtual_ttys) = x.(virtual_ttys) ∧ x'.(user_controlled) = x.(user_controlled) ∧
  ∀ d, mode_view <$> x'.(ttys) !! d = mode_view <$> x.(ttys) !! d.

Lemma same_modes_refl x : same_modes x x.
Proof. done. Qed.

Lemma same_modes_trans x1 x2 x3 : same_modes x1 x2 → same_modes x2 x3 → same_modes x1 x3.
Proof. intros (A1 & B1 & C1 & D1) (A2 & B2 & C2 & D2). split_and!; [congruence..|]. intros d. by rewrite D2. Qed.

Lemma same_modes_back x x' d tty' : same_modes x x' → x'.(ttys) !! d = Some tty' →
  ∃ tty, x.(ttys) !! d = Some tty ∧ mode_view tty' = mode_view tty.
Proof. intros (_ & _ & _ & H) Hd. specialize (H d). rewrite Hd in H. symmetry in H. apply fmap_Some in H as (tty & ? & ?). by exists tty. Qed.

Lemma same_modes_owned x x' : same_modes x x' → owned x → owned x'.
Proof.
  intros Hs [[Hv Ha] Hf]. pose proof Hs as (Hact & Hvt & Hu & Hd). unfold get_active_tty, get_virtual_tty in *. split; [split|].
  - intros vt d. rewrite Hvt, Hv. split; intros (tty & Ht & Hn); specialize (Hd d); rewrite Ht in Hd; [|symmetry in Hd];
      apply fmap_Some in Hd as (tty' & -> & [= _ Hvt']); exists tty'; split; [done|congruence|done|congruence].
  - unfold get_active_tty, get_virtual_tty. by rewrite Hvt, Hact.
  - intros d tty'. unfold get_active_tty, get_virtual_tty. rewrite Hvt, Hact. intros Hg Ht.
    destruct (same_modes_back _ _ _ _ Hs Ht) as (tty & Ht0 & [= Hm _]). rewrite Hu, (Hf d tty Hg Ht0). unfold graphics. by rewrite Hm.
Qed.

Lemma same_modes_map x d f : (∀ tty, mode_view (f tty) = mode_view tty) → same_modes x (map_tty x d f).
Proof.
  intros Hf. split_and!; try done. intros q. cbn. destruct (decide (q = d)) as [->|]; [|by rewrite lookup_alter_ne].
  rewrite lookup_alter_eq. destruct (ttys x !! d); [|done]. cbn. by rewrite Hf.
Qed.

Lemma same_modes_at x d f tty : x.(ttys) !! d = Some tty → mode_view (f tty) = mode_view tty → same_modes x (map_tty x d f).
Proof.
  intros Ht Hf. split_and!; try done. intros q. cbn. destruct (decide (q = d)) as [->|]; [|by rewrite lookup_alter_ne].
  rewrite lookup_alter_eq, Ht. cbn. by rewrite Hf.
Qed.

Lemma same_modes_terminal x o : same_modes x (with_terminal x o).
Proof. done. Qed.

Lemma same_modes_foldl {M A} (f : Con M → A → Con M) l c :
  (∀ c a, same_modes c.(c_terms) (f c a).(c_terms)) → same_modes c.(c_terms) (foldl f c l).(c_terms).
Proof. intros Hf. revert c. induction l as [|a l IH]; intros c; [done|]. cbn. eapply same_modes_trans; [apply Hf|apply IH]. Qed.

Section steps.
Context {M : Type} (emulator : list (list Z) → list Z → list (list Z)).

Lemma announce_modes (c : Con M) : same_modes c.(c_terms) (announce_input c).(c_terms).
Proof. unfold announce_input, wake_tty_poller_readable, on_active_tty. by destruct (get_active_tty _). Qed.

Lemma response_modes (c : Con M) d bytes : same_modes c.(c_terms) (push_terminal_response_bytes c d bytes).(c_terms).
Proof.
  unfold push_terminal_response_bytes. set (c1 := push_terminal_query_responses c d bytes).
  assert (same_modes c.(c_terms) c1.(c_terms)) as H1.
  { unfold c1, push_terminal_query_responses. destruct (c.(c_terms).(ttys) !! d); [|done]. destruct (_ || _); [done|]. cbn. by apply same_modes_map. }
  case_bool_decide; [done|]. unfold wake_tty_poller_readable, on_active_tty. by destruct (get_active_tty _).
Qed.

Lemma push_str_modes (c : Con M) text : same_modes c.(c_terms) (push_str emulator c text).(c_terms).
Proof.
  unfold push_str. eapply same_modes_trans; [|apply same_modes_foldl]; [done|].
  intros c1 a. unfold on_active_tty. destruct (get_active_tty _); [apply response_modes|done].
Qed.

Lemma write_text_modes (c : Con M) text : same_modes c.(c_terms) (write_screen_text emulator c text).(c_terms).
Proof. unfold write_screen_text. case_bool_decide; [done|apply push_str_modes]. Qed.

Lemma print_modes (c : Con M) text : same_modes c.(c_terms) (print emulator c text).(c_terms).
Proof. unfold print. case_bool_decide; [done|apply write_text_modes]. Qed.

Lemma tty_write_modes (c : Con M) d buffer : same_modes c.(c_terms) (tty_write emulator c d buffer).2.(c_terms).
Proof.
  unfold tty_write. destruct (c.(c_terms).(ttys) !! d) as [tty|]; [|done]. destruct (output_filter _ _) as [filtered pending]. cbn [snd].
  set (c1 := foldl _ _ _). assert (same_modes c.(c_terms) c1.(c_terms)) as H1.
  { unfold c1. eapply same_modes_trans; [|apply same_modes_foldl; intros; apply response_modes]. by apply same_modes_map. }
  case_bool_decide; [done|]. eapply same_modes_trans; [exact H1|apply write_text_modes].
Qed.

Context (signalfds : Z → list Signalfd).

Lemma process_char_modes (c : Con M) ch : same_modes c.(c_terms) (process_char emulator signalfds c ch).(c_terms).
Proof.
  unfold process_char. destruct (active_device c) as [[d tty]|]; [|done]. destruct (negb _); [done|]. destruct (255 <? ch); [done|].
  destruct (process_input_byte _ _ ch) as [lb acts]. set (c1 := foldl _ c acts).
  assert (same_modes c.(c_terms) c1.(c_terms)) as H1.
  { apply same_modes_foldl. intros c2 [b|bytes|]; cbn [char_action]; [by apply same_modes_map| |done].
    destruct (utf8_valid _); [apply print_modes|done]. }
  eapply same_modes_trans; [exact H1|]. set (c2 := on_tty c1 d _). apply (same_modes_trans _ c2.(c_terms)); [by apply same_modes_map|].
  destruct (wants_interrupt acts).
  - unfold handle_interrupt_char. destruct (negb _); [done|]. set (c3 := on_tty c2 d clear_line_buffer).
    apply (same_modes_trans _ c3.(c_terms)); [by apply same_modes_map|]. eapply same_modes_trans; [|apply announce_modes].
    by destruct (active_group tty).
  - eapply same_modes_trans; [|apply announce_modes]. destruct (ch =? LF); [by apply same_modes_map|done].
Qed.

Lemma process_key_modes (c : Con M) key : same_modes c.(c_terms) (process_key emulator c key).(c_terms).
Proof.
  unfold process_key. destruct (active_device c) as [[d tty]|]; [|done]. destruct (negb _); [done|]. set (c1 := if _ && _ then _ else c).
  assert (same_modes c.(c_terms) c1.(c_terms)) as H1 by (unfold c1; destruct (_ && _); [apply print_modes|done]).
  destruct (negb _); [|done]. eapply same_modes_trans; [exact H1|]. eapply same_modes_trans; [|apply announce_modes]. by apply same_modes_map.
Qed.
End steps.

Lemma on_active_modes {M} (c : Con M) f : (∀ d, same_modes c.(c_terms) (f d).(c_terms)) → same_modes c.(c_terms) (on_active_tty c f).(c_terms).
Proof. unfold on_active_tty. by destruct (get_active_tty _). Qed.

Lemma try_read_mode tty len bytes tty' : tty_try_read tty len = Some (bytes, tty') → mode_view tty' = mode_view tty.
Proof.
  unfold tty_try_read, with_input_queue. destruct (negb _); [by intros [= _ <-]|]. destruct (negb _); [|done]. intros [= _ <-].
  by destruct (tty_keyboard_mode tty).
Qed.

Lemma vt_devices_lookup (address : Z → Z) `{!Inj (=) (=) address} (l : list Z) q tty :
  (list_to_map (map (λ vt, (address vt, tty_new true (Some vt))) l) : gmap Z TtyDevice) !! q = Some tty ↔
  ∃ vt, vt ∈ l ∧ q = address vt ∧ tty = tty_new true (Some vt).
Proof.
  induction l as [|v l IH]; cbn; [rewrite lookup_empty; split; [done|intros (? & ?%elem_of_nil & _); done]|].
  destruct (decide (address v = q)) as [<-|Hne].
  - rewrite lookup_insert_eq. split; [intros [= <-]; exists v; split_and!; [left|done..]|].
    intros (vt & _ & ->%(inj address) & ->). done.
  - rewrite lookup_insert_ne by done. rewrite IH. split; intros (vt & Hin & -> & ->); exists vt; split_and!; try done; [by right|].
    apply elem_of_cons in Hin as [->|]; done.
Qed.

Lemma vt_numbers_lookup (address : Z → Z) (l : list Z) vt d :
  (list_to_map (map (λ vt, (vt, address vt)) l) : gmap Z Z) !! vt = Some d ↔ vt ∈ l ∧ d = address vt.
Proof.
  induction l as [|v l IH]; cbn; [rewrite lookup_empty; split; [done|intros (?%elem_of_nil & _); done]|].
  destruct (decide (v = vt)) as [<-|Hne].
  - rewrite lookup_insert_eq. split; [intros [= <-]; split; [left|done]|]. by intros (_ & ->).
  - rewrite lookup_insert_ne by done. rewrite IH. split; intros (Hin & ->); (split; [|done]); [by right|]. by apply elem_of_cons in Hin as [->|].
Qed.

(** At the start the first terminal is active, and in text mode like the others. *)
Lemma init_owned console (address : Z → Z) rows cols :
  Inj (=) (=) address → (∀ vt, address vt ≠ console) → owned (terminals_init console address rows cols).
Proof.
  intros Hinj Hc. assert (∀ vt d, (terminals_init console address rows cols).(virtual_ttys) !! vt = Some d ↔ vt ∈ vt_numbers ∧ d = address vt) as Hvt
    by (intros; apply vt_numbers_lookup).
  assert (∀ d tty, (terminals_init console address rows cols).(ttys) !! d = Some tty →
    tty = tty_new false None ∧ d = console ∨ ∃ vt, vt ∈ vt_numbers ∧ d = address vt ∧ tty = tty_new true (Some vt)) as Hd.
  { intros d tty. cbn [ttys terminals_init]. destruct (decide (console = d)) as [<-|Hne]; [rewrite lookup_insert_eq; intros [= <-]; by left|].
    rewrite lookup_insert_ne by done. rewrite (vt_devices_lookup address). by right. }
  split; [split|].
  - intros vt d. rewrite Hvt. split.
    + intros [Hin ->]. exists (tty_new true (Some vt)). split; [|done]. cbn [ttys terminals_init]. rewrite lookup_insert_ne by (by apply not_eq_sym).
      rewrite (vt_devices_lookup address). by exists vt.
    + intros (tty & [[-> _]|(v & Hin & -> & ->)]%Hd & Hn); [done|]. by injection Hn as ->.
  - exists (address 1). unfold get_active_tty, get_virtual_tty. apply Hvt. split; [|done].
    apply list_elem_of_In. vm_compute. by left.
  - intros d tty _ [[-> _]|(v & _ & _ & ->)]%Hd; done.
Qed.

Section owners.
Context {M K : Type} (emulator : list (list Z) → list Z → list (list Z)) (signalfds : Z → list Signalfd).
Context (add_byte : K → Z → option KeyEvent * K) (process_keyevent : K → KeyEvent → option DecodedKey * K).

Lemma push_raw_modes (c : Con M) d code : same_modes c.(c_terms) (push_raw c d code).(c_terms).
Proof. unfold push_raw. eapply same_modes_trans; [|apply announce_modes]. by apply same_modes_map. Qed.

Lemma process_scancode_modes (k : Kb) code :
  same_modes k.(kb_con).(c_terms) (process_scancode (M := M) emulator signalfds add_byte process_keyevent k code).(kb_con).(c_terms).
Proof.
  unfold process_scancode. destruct (active_device _) as [[d tty]|]; [|done]. destruct (add_byte _ code) as [[event|] decoder]; cbn [kb_con with_decoder].
  - destruct (negb _); [done|]. eapply same_modes_trans; [apply push_raw_modes|]. destruct (tty_keyboard_mode tty); try done.
    1, 3: destruct (process_keyevent _ event) as [[[key|ch]|] decoder']; cbn; [apply process_key_modes|apply process_char_modes|done].
    unfold push_medium_raw_event. cbn. destruct (linux_keycode_from_keycode _); [|done].
    eapply same_modes_trans; [|apply announce_modes]. by apply same_modes_map.
  - destruct (receives_hardware_keyboard_input tty); [apply push_raw_modes|done].
Qed.

(** A switch gives the framebuffer to the owner of the terminal that comes up. *)
Lemma set_active_vt_owned x vt : owned x → owned (set_active_vt x vt).2.
Proof.
  intros Ho. pose proof Ho as [[Hv Ha] Hf]. unfold set_active_vt. destruct (get_virtual_tty x vt) as [d|] eqn:Hd; [|done]. cbn.
  pose proof (proj1 (Hv vt d) Hd) as (tty & Ht & Hn). rewrite Ht. split; [split; [done|]|].
  - cbn. unfold get_virtual_tty in Hd. cbn. by rewrite Hd.
  - intros d' tty'. unfold get_active_tty, get_virtual_tty in *. cbn. rewrite Hd. intros [= <-]. by rewrite Ht; intros [= <-].
Qed.

(** A mode set on one device, and the framebuffer with it when the device is the active one. *)
Lemma set_mode_owned x d tty console :
  owned x → x.(ttys) !! d = Some tty →
  let x' := map_tty x d (λ tty, with_linux_console tty console) in
  owned (if is_active_virtual_terminal x' (with_linux_console tty console) then apply_display_mode_to_framebuffer x' (with_linux_console tty console) else x').
Proof.
  intros [[Hv Ha] Hf] Ht x'.
  assert (∀ vt q, x.(virtual_ttys) !! vt = Some q ↔ ∃ tty, x'.(ttys) !! q = Some tty ∧ tty.(virtual_terminal) = Some vt) as Hv'.
  { intros vt q. rewrite Hv. unfold x'. cbn. destruct (decide (q = d)) as [->|]; [|by rewrite lookup_alter_ne by done].
    rewrite lookup_alter_eq, Ht. cbn. split; intros (y & [= <-] & Hy); eexists; done. }
  assert (terms_ok x') as Hok by (split; [exact Hv'|exact Ha]).
  destruct (is_active_virtual_terminal x' _) eqn:Hact; (split; [split; [exact Hv'|exact Ha]|]); apply bool_decide_eq_true in Hact || apply bool_decide_eq_false in Hact; cbn in Hact.
  - intros q y Hq. assert (q = d) as ->.
    { unfold get_active_tty, get_virtual_tty in Hq. cbn in Hq. pose proof (proj2 (Hv x.(active_vt) d) (ex_intro _ tty (conj Ht Hact))) as Hd. congruence. }
    cbn. rewrite lookup_alter_eq, Ht. by intros [= <-].
  - intros q y Hq. unfold get_active_tty, get_virtual_tty in Hq. cbn in Hq.
    pose proof (proj1 (Hv _ _) Hq) as (t0 & Ht0 & Hn0). assert (q ≠ d) as Hne by (intros ->; congruence).
    cbn. rewrite lookup_alter_ne by done. intros Hy. by apply (Hf q).
Qed.
End owners.

Section requests.
Context {M : Type} `{um_int : UserMemory M Z} `{um_byte : UserMemory M Byte.byte} `{um_entry : UserMemory M LinuxKbEntry}
  `{um_vtmode : UserMemory M LinuxVtMode} `{um_vtstat : UserMemory M LinuxVtStat} `{um_termios : UserMemory M LinuxTermios}
  `{um_termios2 : UserMemory M LinuxTermios2} `{um_termio : UserMemory M LinuxTermio} `{um_winsize : UserMemory M LinuxWinsize}.

(** What a handler leaves behind is right whatever way it ends. *)
Lemma give_keeps {T} `{UserMemory M T} {S} (P : S → Prop) (m : M) ptr (v : T) back : (∀ m, P (back m)) → P (give m ptr v back).2.
Proof. intros Hb. unfold give. destruct (user_write m ptr v). apply Hb. Qed.

Lemma taken_keeps {T} `{UserMemory M T} {S} (P : S → Prop) (m : M) ptr back (f : T → M → result ObjectError (option Z) * S) :
  (∀ m, P (back m)) → (∀ v m, P (f v m).2) → P (taken m ptr back f).2.
Proof. intros Hb Hf. unfold taken. destruct (user_read m ptr) as [r m']. destruct (bad_address r); [apply Hf|apply Hb]. Qed.

Lemma or_else_keeps {S} (P : S → Prop) x next : P x.2 → (∀ s, P s → P (next s).2) → P (or_else x next).2.
Proof. destruct x as [[[v|]|e] s]; cbn; auto. Qed.

Lemma kd_request_mode c request (m : M) :
  sets_console_mode request = false → (handle_kd_request c request m).2.1.(display_mode) = c.(display_mode).
Proof.
  destruct request; cbn [handle_kd_request sets_console_mode]; try done; intros _;
    repeat match goal with |- context [user_write ?a ?b ?c] => destruct (user_write a b c) | |- context [user_read ?a ?b] => destruct (user_read a b) end; try done.
  by destruct (bad_address r); [destruct (user_write _ _ _)|].
Qed.

Lemma kd_request_error c request (m : M) :
  (∀ v, (handle_kd_request c request m).1 ≠ Ok (Some v)) → (handle_kd_request c request m).2.1.(display_mode) = c.(display_mode).
Proof.
  destruct (sets_console_mode request) eqn:Hs; [|by intros _; apply kd_request_mode].
  destruct request; try done; cbn [handle_kd_request]; case_match; try done; intros Hn; by destruct (Hn 0).
Qed.

Lemma vt_request_owned x console request (m : M) :
  owned x → owned (handle_vt_request x console request m).2.1.1 ∧ (handle_vt_request x console request m).2.1.2.(display_mode) = console.(display_mode).
Proof.
  intros Ho. destruct request; cbn [handle_vt_request]; try done.
  all: try (apply (give_keeps (λ y : Terminals * LinuxConsoleState * M, owned y.1.1 ∧ y.1.2.(display_mode) = console.(display_mode))); done).
  - destruct (find_unused_virtual_tty x); [|done].
    apply (give_keeps (λ y : Terminals * LinuxConsoleState * M, owned y.1.1 ∧ y.1.2.(display_mode) = console.(display_mode))); done.
  - apply (taken_keeps (λ y : Terminals * LinuxConsoleState * M, owned y.1.1 ∧ y.1.2.(display_mode) = console.(display_mode))); done.
  - case_match; [done|]. pose proof (set_active_vt_owned x value Ho). destruct (set_active_vt x value). by destruct b.
  - case_match; [done|]. pose proof (set_active_vt_owned x value Ho). destruct (set_active_vt x value). by destruct b.
Qed.

Lemma owned_terminal x o : owned x → owned (with_terminal x o).
Proof. by apply same_modes_owned. Qed.

Lemma owned_map x d f : (∀ tty, mode_view (f tty) = mode_view tty) → owned x → owned (map_tty x d f).
Proof. intros Hf. by apply same_modes_owned, same_modes_map. Qed.

Lemma owned_same_console x d console tty :
  owned x → x.(ttys) !! d = Some tty → console.(display_mode) = tty.(linux_console).(display_mode) →
  owned (map_tty x d (λ tty, with_linux_console tty console)).
Proof.
  intros Ho Ht Hc. revert Ho. apply same_modes_owned. split_and!; try done. intros q. cbn. destruct (decide (q = d)) as [->|]; [|by rewrite lookup_alter_ne].
  rewrite lookup_alter_eq, Ht. cbn. unfold mode_view. cbn. by rewrite Hc.
Qed.

Lemma terminal_configure_owned x request (m : M) : owned x → owned (terminal_configure x request m).2.1.
Proof.
  intros Ho. unfold terminal_configure. apply (or_else_keeps (λ y : Terminals * M, owned y.1)).
  { destruct (handle_kd_request _ _ _) as [r [c m']]. by apply owned_terminal. }
  clear x m Ho. intros [x m] Ho. cbn in Ho. apply (or_else_keeps (λ y : Terminals * M, owned y.1)).
  { destruct (vt_request_owned x x.(terminal).(terminal_console) request m Ho) as [Hx _].
    destruct (handle_vt_request _ _ _ _) as [r [[x' c] m']]. by apply owned_terminal. }
  clear x m Ho. intros [x m] Ho. cbn in Ho. destruct (terminal_settings _ _ _) as [r [o m']]. by apply owned_terminal.
Qed.
End requests.

Section steps_of_console.
Context {M K : Type} `{um_int : UserMemory M Z} `{um_byte : UserMemory M Byte.byte} `{um_entry : UserMemory M LinuxKbEntry}
  `{um_vtmode : UserMemory M LinuxVtMode} `{um_vtstat : UserMemory M LinuxVtStat} `{um_termios : UserMemory M LinuxTermios}
  `{um_termios2 : UserMemory M LinuxTermios2} `{um_termio : UserMemory M LinuxTermio} `{um_winsize : UserMemory M LinuxWinsize}.
Context (emulator : list (list Z) → list Z → list (list Z)) (signalfds : Z → list Signalfd) (held : Z → bool).
Context (add_byte : K → Z → option KeyEvent * K) (process_keyevent : K → KeyEvent → option DecodedKey * K).

Definition terms_owned (s : Ptys M) : Prop := owned s.(p_con).(c_terms).

Lemma group_mode group tty : mode_view (set_active_group tty group) = mode_view tty.
Proof. unfold set_active_group. by case_match. Qed.

Lemma kd_step_owned (c : Con M) d request : owned c.(c_terms) → owned (tty_kd_request c d request).2.(c_terms).
Proof.
  intros Ho. unfold tty_kd_request. destruct (c.(c_terms).(ttys) !! d) as [tty|] eqn:Ht; [|done].
  pose proof (kd_request_mode tty.(linux_console) request (con_mem c)) as Hm. pose proof (kd_request_error tty.(linux_console) request (con_mem c)) as He.
  destruct (handle_kd_request _ _ _) as [r [console m']] eqn:Hr. cbn [fst snd] in *.
  assert (owned (c_terms c) → console.(display_mode) = tty.(linux_console).(display_mode) → owned (map_tty c.(c_terms) d (λ tty, with_linux_console tty console))) as Hs
    by (intros; by apply (owned_same_console _ _ _ tty)).
  destruct r as [[v|]|e]; [|by apply Hs, He..].
  destruct (sets_console_mode request) eqn:Hsets; [|by apply Hs, Hm]. cbn. apply owned_map; [done|].
  destruct request; try done; cbn [handle_kd_request] in Hr.
  - destruct (keyboard_mode_try_from value); [|done]. injection Hr as <- <- <-. by apply Hs.
  - by apply set_mode_owned.
Qed.

Lemma tty_configure_owned p rdev (c : Con M) d request : owned c.(c_terms) → owned (tty_configure p rdev c d request).2.(c_terms).
Proof.
  intros Ho. unfold tty_configure. apply (or_else_keeps (λ c : Con M, owned c.(c_terms))); [by apply kd_step_owned|].
  clear c Ho. intros c Ho. apply (or_else_keeps (λ c : Con M, owned c.(c_terms))).
  { unfold tty_vt_request. destruct (c.(c_terms).(ttys) !! d) as [tty|] eqn:Ht; [|done].
    destruct (vt_request_owned c.(c_terms) tty.(linux_console) request (con_mem c) Ho) as [Hx Hm].
    assert ((handle_vt_request c.(c_terms) tty.(linux_console) request (con_mem c)).2.1.1.(ttys) = c.(c_terms).(ttys)) as Htt.
    { clear -c. destruct request; cbn [handle_vt_request]; try done.
      all: try (apply (give_keeps (λ y : Terminals * LinuxConsoleState * M, y.1.1.(ttys) = c.(c_terms).(ttys))); done).
      - destruct (find_unused_virtual_tty _); [|done]. apply (give_keeps (λ y : Terminals * LinuxConsoleState * M, y.1.1.(ttys) = c.(c_terms).(ttys))); done.
      - apply (taken_keeps (λ y : Terminals * LinuxConsoleState * M, y.1.1.(ttys) = c.(c_terms).(ttys))); done.
      - case_match; [done|]. unfold set_active_vt. destruct (get_virtual_tty _ _); [|done]. cbn. by destruct (_ !! _).
      - case_match; [done|]. unfold set_active_vt. destruct (get_virtual_tty _ _); [|done]. cbn. by destruct (_ !! _). }
    destruct (handle_vt_request _ _ _ _) as [r [[x console] m']]. cbn in *. apply (owned_same_console _ _ _ tty); [done|congruence|done]. }
  clear c Ho. intros c Ho. unfold tty_request.
  assert (∀ m : M, owned (with_c_mem c m).(c_terms)) as Hb by done.
  destruct request; try done.
  all: try (by apply owned_map).
  all: try (by apply (give_keeps (λ c : Con M, owned c.(c_terms)))).
  all: try (apply (taken_keeps (λ c : Con M, owned c.(c_terms))); [done|]; intros; apply owned_map; [apply group_mode|done]).
  all: try (pose proof (terminal_configure_owned c.(c_terms)) as Hc; match goal with |- context [terminal_configure ?a ?b ?m] => specialize (Hc b m Ho); destruct (terminal_configure a b m) as [? [? ?]]; exact Hc end).
  destruct (caller_group p c); [apply owned_map; [apply group_mode|done]|done].
Qed.

Lemma slave_configure_owned p rdev (s : Ptys M) number request : terms_owned s → terms_owned (pty_slave_configure p rdev s number request).2.
Proof.
  intros Ho. unfold pty_slave_configure. destruct (entry_of s number) as [e|]; [|done].
  apply (or_else_keeps terms_owned).
  { unfold slave_kd_request. by destruct (handle_kd_request _ _ _) as [r [c m']]. }
  clear s Ho. intros s Ho. apply (or_else_keeps terms_owned).
  { unfold slave_vt_request. destruct (vt_request_owned s.(p_con).(c_terms) e.(slave_console) request (p_mem s) Ho) as [Hx _].
    by destruct (handle_vt_request _ _ _ _) as [r [[x c] m']]. }
  clear s Ho. intros s Ho. destruct request; cbn [slave_request]; try done.
  all: try (by apply (give_keeps terms_owned)).
  all: try (by apply (taken_keeps terms_owned)).
  by destruct (caller_group p _).
Qed.

(** What happens to the terminals and the pairs.  The other parts of the kernel leave the
    terminals as they are: of these, the graphics devices set the owner of the framebuffer
    for themselves, and are not among the steps. *)
Inductive console_step : Ptys M → Ptys M → Prop :=
  | step_tty_write s d buffer : console_step s (with_p_con s (tty_write emulator s.(p_con) d buffer).2)
  | step_tty_read s d len data c : tty_attempt d len s.(p_con) = Some (data, c) → console_step s (with_p_con s c)
  | step_tty_configure s p rdev d request : console_step s (with_p_con s (tty_configure p rdev s.(p_con) d request).2)
  | step_print s text : console_step s (with_p_con s (print emulator s.(p_con) text))
  | step_scancode s decoder queue events code :
      console_step s (with_p_con s (process_scancode emulator signalfds add_byte process_keyevent (mkKb s.(p_con) decoder queue events) code).(kb_con))
  | step_slave_configure s p rdev number request : console_step s (pty_slave_configure p rdev s number request).2
  | step_master_configure s p rdev push_object number request :
      (∀ s o flags, (push_object s o flags).2.(p_con).(c_terms) = s.(p_con).(c_terms)) →
      console_step s (pty_master_configure held p rdev push_object s number request).2
  | step_elsewhere s s' : s'.(p_con).(c_terms) = s.(p_con).(c_terms) → console_step s s'.

Lemma console_step_owned s s' : console_step s s' → terms_owned s → terms_owned s'.
Proof.
  unfold terms_owned. intros Hstep Ho. destruct Hstep as [s d buffer|s d len data c Ha|s p rdev d request|s text|s decoder queue events code|s p rdev number request|s p rdev push number request Hpush|s s' Heq].
  - exact (same_modes_owned _ _ (tty_write_modes _ _ _ _) Ho).
  - revert Ha. unfold tty_attempt. destruct (ttys _ !! d) as [tty|] eqn:Ht; [|done]. destruct (tty_try_read tty len) as [[bytes tty']|] eqn:Hr; [|done].
    intros [= <- <-]. revert Ho. apply same_modes_owned, (same_modes_at _ _ _ tty Ht), (try_read_mode _ _ _ _ Hr).
  - by apply tty_configure_owned.
  - exact (same_modes_owned _ _ (print_modes _ _ _) Ho).
  - exact (same_modes_owned _ _ (process_scancode_modes _ _ _ _ (mkKb s.(p_con) decoder queue events) code) Ho).
  - by apply slave_configure_owned.
  - unfold pty_master_configure. destruct (entry_of s number) as [e|]; [|done].
    pose proof (slave_configure_owned p rdev s number request Ho) as Hs. destruct request; try exact Hs.
    all: try (by apply (give_keeps terms_owned)).
    all: try (by apply (taken_keeps terms_owned)).
    match goal with |- context [push ?a ?b ?c] => pose proof (Hpush a b c); destruct (push a b c) end. cbn in *. by rewrite H.
  - by rewrite Heq.
Qed.

(** The framebuffer is in the hands of user programs exactly when the active virtual
    terminal is in graphics mode, whatever was written, typed, requested (also by requests
    that fail, and by the pairs, whose requests switch terminals too), or done elsewhere, and
    in whatever order; and the active terminal is one that exists and knows its number. *)
Lemma framebuffer_follows_active (console : Z) (address : Z → Z) (rows cols : Z) (s s' : Ptys M)
  (Hinj : Inj (=) (=) address) (Hcon : ∀ vt, address vt ≠ console)
  (Hinit : s.(p_con).(c_terms) = terminals_init console address rows cols) (Hsteps : rtc console_step s s') :
  let x := s'.(p_con).(c_terms) in
  ∃ d tty, get_active_tty x = Some d ∧ x.(ttys) !! d = Some tty ∧ tty.(virtual_terminal) = Some x.(active_vt) ∧
    x.(user_controlled) = bool_decide (tty.(linux_console).(display_mode) = DisplayMode.Graphics).
Proof.
  intros x. assert (owned x) as [[Hv [d Ha]] Hf].
  { unfold x. change (terms_owned s'). assert (terms_owned s) as Hs by (unfold terms_owned; rewrite Hinit; by apply init_owned).
    clear Hinit x. induction Hsteps as [|s1 s2 s3 H12 _ IH]; [done|]. by apply IH, (console_step_owned _ _ H12). }
  pose proof (proj1 (Hv _ _) Ha) as (tty & Ht & Hn). exists d, tty. split_and!; try done.
  rewrite (Hf d tty Ha Ht). unfold graphics. by destruct (display_mode _).
Qed.
End steps_of_console.

(** ** The registry keeps what is held *)

(** Who holds the ends outside the registry: the end at an address, and the number it has. *)
Definition holds (held : gmap Z Z) (o : Z) : bool := bool_decide (is_Some (held !! o)).

Definition is_end (e : PtyEntry) (o : Z) : Prop := e.(master) = o ∨ e.(slave) = o.

Inductive registry_step : gmap Z Z * PtyRegistry → gmap Z Z * PtyRegistry → Prop :=
  | reg_create held r m s locked :
      m ≠ s → (∀ n e, r.(pty_entries) !! n = Some e → ¬ is_end e m ∧ ¬ is_end e s) → held !! m = None → held !! s = None →
      r.(next_number) + 1 < 2^32 →
      let '(number, r') := create_entry (holds held) r m s locked in
      registry_step (held, r) (<[m := number]> (<[s := number]> held), r')
  | reg_get held r number :
      let '(found, r') := get_pty_slave (holds held) r number in
      registry_step (held, r) (match found with Some o => <[o := number]> held | None => held end, r')
  | reg_list held r : registry_step (held, r) (held, (list_ptys (holds held) r).2)
  | reg_lock held r number locked : registry_step (held, r) (held, (set_pty_lock (holds held) r number locked).2)
  | reg_use held r number f :
      (∀ e, (f e).(master) = e.(master) ∧ (f e).(slave) = e.(slave)) →
      registry_step (held, r) (held, mkRegistry r.(next_number) (alter f number r.(pty_entries)))
  | reg_drop held r o : registry_step (held, r) (delete o held, r).

Record registry_ok (x : gmap Z Z * PtyRegistry) : Prop := {
  next_nonneg : 0 <= x.2.(next_number);
  held_kept o n : x.1 !! o = Some n → ∃ e, x.2.(pty_entries) !! n = Some e ∧ is_end e o;
  numbers_below n e : x.2.(pty_entries) !! n = Some e → 0 <= n < x.2.(next_number);
  one_pair n1 n2 e1 e2 o : x.2.(pty_entries) !! n1 = Some e1 → x.2.(pty_entries) !! n2 = Some e2 → is_end e1 o → is_end e2 o → n1 = n2;
}.

Lemma holds_true held o : holds held o = true ↔ is_Some (held !! o).
Proof. apply bool_decide_eq_true. Qed.

Lemma cleanup_lookup held r n e :
  (cleanup (holds held) r).(pty_entries) !! n = Some e ↔ r.(pty_entries) !! n = Some e ∧ ∃ o, is_end e o ∧ is_Some (held !! o).
Proof.
  cbn. rewrite map_lookup_filter_Some. cbn. rewrite orb_true_iff, !holds_true. unfold is_end. split.
  - intros [? [?|?]]; (split; [done|]); eexists; eauto.
  - intros (? & o & [->| ->] & ?); eauto.
Qed.

Lemma cleanup_ok held r : registry_ok (held, r) → registry_ok (held, cleanup (holds held) r).
Proof.
  intros [Hz Hk Hb Ho]. split; cbn [fst snd]; [done|..].
  - intros o n Hn. destruct (Hk o n Hn) as (e & He & Hend). exists e. split; [|done]. apply cleanup_lookup. split; [done|]. exists o. by rewrite Hn.
  - intros n e [He _]%cleanup_lookup. by apply (Hb n e).
  - intros n1 n2 e1 e2 o [H1 _]%cleanup_lookup [H2 _]%cleanup_lookup. by apply Ho.
Qed.

(** An entry replaced by one with the same ends. *)
Lemma same_ends_ok held r n e e' :
  r.(pty_entries) !! n = Some e → e'.(master) = e.(master) → e'.(slave) = e.(slave) →
  registry_ok (held, r) → registry_ok (held, mkRegistry r.(next_number) (<[n := e']> r.(pty_entries))).
Proof.
  intros He Hm Hs [Hz Hk Hb Ho]. assert (∀ o, is_end e' o ↔ is_end e o) as Hend by (intros; unfold is_end; by rewrite Hm, Hs).
  assert (∀ q x, <[n := e']> r.(pty_entries) !! q = Some x → ∃ y, r.(pty_entries) !! q = Some y ∧ ∀ o, is_end x o ↔ is_end y o) as Hback.
  { intros q x [[<- <-]|[_ Hq]]%lookup_insert_Some; [by exists e|by exists x]. }
  split; cbn [fst snd pty_entries next_number] in *; [done|..].
  - intros o k Hk'. destruct (Hk o k Hk') as (x & Hx & Hxo). destruct (decide (k = n)) as [->|Hne].
    + exists e'. rewrite lookup_insert_eq. split; [done|]. apply Hend. congruence.
    + exists x. by rewrite lookup_insert_ne.
  - intros q x (y & Hy & _)%Hback. by apply (Hb q y).
  - intros q1 q2 x1 x2 o (y1 & H1 & E1)%Hback (y2 & H2 & E2)%Hback. rewrite E1, E2. by apply Ho.
Qed.

(** A new pair, whose ends are not those of another one. *)
Lemma create_pair_ok held r m s locked :
  (∀ n e, r.(pty_entries) !! n = Some e → ¬ is_end e m ∧ ¬ is_end e s) →
  r.(next_number) + 1 < 2^32 → registry_ok (held, r) →
  registry_ok (<[m := r.(next_number)]> (<[s := r.(next_number)]> held),
    mkRegistry (uwrap 32 (r.(next_number) + 1)) (<[r.(next_number) := mkPtyEntry m s locked shared_default console_default 0 0]> r.(pty_entries))).
Proof.
  intros Hfresh Hn [Hz Hk Hb Ho]. cbn [fst snd] in *. set (n := r.(next_number)) in *.
  assert (uwrap 32 (n + 1) = n + 1) as Hu by (apply Z.mod_small; lia).
  assert (r.(pty_entries) !! n = None) as Hnone by (apply eq_None_not_Some; intros [e He]; specialize (Hb n e He); lia).
  split; cbn [fst snd pty_entries next_number].
  - lia.
  - intros o k [[<- <-]|[_ [[<- <-]|[_ Hk']]%lookup_insert_Some]]%lookup_insert_Some; try (eexists; rewrite lookup_insert_eq; split; [done|]; by constructor).
    destruct (Hk o k Hk') as (e & He & Hend). exists e. split; [|done]. rewrite lookup_insert_ne; [done|]. intros ->. congruence.
  - rewrite Hu. intros k e [[<- _]|[_ He]]%lookup_insert_Some; [lia|]. specialize (Hb k e He). lia.
  - intros n1 n2 e1 e2 o [[<- <-]|[_ H1]]%lookup_insert_Some [[<- <-]|[_ H2]]%lookup_insert_Some E1 E2; try done.
    + destruct (Hfresh n2 e2 H2) as [Fm Fs]. by destruct E1 as [<-|<-].
    + destruct (Hfresh n1 e1 H1) as [Fm Fs]. by destruct E2 as [<-|<-].
    + by apply (Ho n1 n2 e1 e2 o).
Qed.

Lemma registry_step_ok x x' : registry_step x x' → registry_ok x → registry_ok x'.
Proof.
  intros Hstep Hok. destruct Hstep as [held r m s locked Hms Hfresh Hm Hs Hn|held r number|held r|held r number locked|held r number f Hf|held r o].
  - pose proof (cleanup_ok _ _ Hok) as Hc. unfold create_entry. set (rc := cleanup (holds held) r) in *.
    assert (∀ n e, rc.(pty_entries) !! n = Some e → ¬ is_end e m ∧ ¬ is_end e s) as Hfresh' by (intros n e [He _]%cleanup_lookup; by apply (Hfresh n)).
    change r.(next_number) with rc.(next_number) in Hn. by apply create_pair_ok.
  - unfold get_pty_slave. pose proof (cleanup_ok _ _ Hok) as Hc. set (rc := cleanup (holds held) r) in *.
    destruct (rc.(pty_entries) !! number) as [e|] eqn:He; [|done]. destruct e.(locked); [done|].
    destruct Hc as [Hz Hk Hb Ho]. split; cbn [fst snd] in *; [done| |done|done].
    intros o n [[<- <-]|[_ Hn]]%lookup_insert_Some; [|by apply Hk]. exists e. split; [done|by right].
  - by apply cleanup_ok.
  - unfold set_pty_lock. pose proof (cleanup_ok _ _ Hok) as Hc. set (rc := cleanup (holds held) r) in *.
    destruct (rc.(pty_entries) !! number) as [e|] eqn:He; [|done]. by apply (same_ends_ok _ _ _ e).
  - destruct (r.(pty_entries) !! number) as [e|] eqn:He.
    + assert (alter f number r.(pty_entries) = <[number := f e]> r.(pty_entries)) as ->.
      { apply map_eq. intros q. destruct (decide (q = number)) as [->|]; [by rewrite lookup_alter_eq, lookup_insert_eq, He|by rewrite lookup_alter_ne, lookup_insert_ne]. }
      destruct (Hf e). by apply (same_ends_ok _ _ _ e).
    + assert (alter f number r.(pty_entries) = r.(pty_entries)) as ->; [|by destruct r].
      apply map_eq. intros q. destruct (decide (q = number)) as [->|]; [by rewrite lookup_alter_eq, He|by rewrite lookup_alter_ne].
  - destruct Hok as [Hz Hk Hb Ho]. split; cbn [fst snd] in *; [done| |done|done]. intros o' n [_ Hn]%lookup_delete_Some. by apply Hk.
Qed.

(** No end of a pair that somebody still holds loses its entry, whatever pairs were made,
    opened, locked, listed, used and dropped: its other end is there whenever a write or a
    notice asks for it (and does not panic).  The pairs that are listed are those of which an
    end is held. *)
Lemma held_end_keeps_pair (x : gmap Z Z * PtyRegistry) (Hsteps : rtc registry_step (∅, mkRegistry 0 ∅) x) :
  (∀ o n, x.1 !! o = Some n → ∃ e, x.2.(pty_entries) !! n = Some e ∧ is_end e o) ∧
  (∀ n, n ∈ (list_ptys (holds x.1) x.2).1 ↔ ∃ o, x.1 !! o = Some n).
Proof.
  assert (registry_ok x) as Hok.
  { assert (registry_ok (∅, mkRegistry 0 ∅)) as H0 by (by split; cbn).
    induction Hsteps as [|x1 x2 x3 H12 _ IH]; [done|]. by apply IH, (registry_step_ok _ _ H12). }
  destruct x as [held r]. pose proof Hok as [Hz Hk Hb Ho]. split; [done|]. cbn [fst snd] in *. intros n. unfold list_ptys. cbn [fst].
  rewrite list_elem_of_In, in_map_iff. split.
  - intros ([k e] & Hkn & Hin%list_elem_of_In%elem_of_btree_iter). cbn in Hkn. subst k. apply cleanup_lookup in Hin as [He (o & Hend & [q Hq])].
    exists o. destruct (Hk o q Hq) as (e' & He' & Hend'). by rewrite (Ho n q e e' o).
  - intros [o Hn]. destruct (Hk o n Hn) as (e & He & Hend). exists (n, e). split; [done|].
    apply list_elem_of_In, elem_of_btree_iter, cleanup_lookup. split; [done|]. exists o. by rewrite Hn.
Qed.

(** ** Concrete runs *)

Definition address (vt : Z) : Z := 2 * vt.
Definition no_answer (o : Z) : option (PollableEvent → bool) := Some (λ _, false).

(** The terminals at the start, thread 1 running, and one pair whose ends are 101 and 103. *)
Definition consoles : Con unit := mkCon (mkSys sample_running (mkPollers ∅ ∅) no_answer tt) (terminals_init 1 address 25 80) ∅.
Definition both_held (_ : Z) : bool := true.
Definition one_pty : Ptys unit := mkPtys consoles (create_entry both_held (mkRegistry 0 ∅) 101 103 false).2.
Definition pair_zero : PtyEntry := mkPtyEntry 101 103 false shared_default console_default 0 0.
Definition no_signalfds (_ : Z) : list Signalfd := [].
Definition no_emulator (_ : list (list Z)) (_ : list Z) : list (list Z) := [].

Definition run_typed : list Z := [104; 105; 13].

Lemma typed_input_reaches_reader_witness :
  (pty_slave_read 1 0 10 0 [mkReadRound (λ s, s) (λ s, (pty_master_write no_signalfds s 0 run_typed).2)] one_pty).1 = Some (Ok [104; 105; 10]).
Proof.
  destruct (typed_input_reaches_reader no_signalfds one_pty 0 pair_zero 1 10 0 run_typed) as (_ & _ & H).
  - reflexivity.
  - reflexivity.
  - reflexivity.
  - vm_compute. reflexivity.
  - apply sched_reachable_ok, sample_running_reachable.
  - vm_compute. reflexivity.
  - vm_compute. discriminate.
  - vm_compute. reflexivity.
  - exact H.
Defined.

(** The decoder of the examples: a scancode is the character itself. *)
Definition no_keys (k : unit) (_ : Z) : option KeyEvent * unit := (None, k).
Definition no_decoding (k : unit) (_ : KeyEvent) : option DecodedKey * unit := (None, k).

Definition switched : Ptys unit :=
  (pty_slave_configure 1 (λ _, None) one_pty 0 (ConfigurateRequest.LinuxVtActivate 2)).2.
Definition in_graphics : Ptys unit :=
  with_p_con switched (tty_configure 1 (λ _, None) switched.(p_con) (address 2) (ConfigurateRequest.LinuxKdSetDisplayMode 1)).2.

Lemma framebuffer_follows_active_witness :
  let x := in_graphics.(p_con).(c_terms) in
  x.(user_controlled) = true ∧ x.(active_vt) = 2 ∧
  ∃ d tty, get_active_tty x = Some d ∧ x.(ttys) !! d = Some tty ∧ tty.(virtual_terminal) = Some x.(active_vt) ∧
    x.(user_controlled) = bool_decide (tty.(linux_console).(display_mode) = DisplayMode.Graphics).
Proof.
  split; [vm_compute; reflexivity|]. split; [vm_compute; reflexivity|].
  apply (framebuffer_follows_active (M := unit) no_emulator no_signalfds both_held no_keys no_decoding 1 address 25 80 one_pty in_graphics).
  - intros a b. unfold address. lia.
  - intros vt. unfold address. lia.
  - reflexivity.
  - eapply rtc_l; [apply (step_slave_configure no_emulator no_signalfds both_held no_keys no_decoding one_pty 1 (λ _, None) 0 (ConfigurateRequest.LinuxVtActivate 2))|].
    apply rtc_once, (step_tty_configure no_emulator no_signalfds both_held no_keys no_decoding switched).
Defined.

(** A pair was made, and both ends are held. *)
Definition first_pair : gmap Z Z * PtyRegistry :=
  (<[101 := 0]> (<[103 := 0]> ∅), (create_entry (holds ∅) (mkRegistry 0 ∅) 101 103 true).2).

Lemma held_end_keeps_pair_witness :
  ((∀ o n, first_pair.1 !! o = Some n → ∃ e, first_pair.2.(pty_entries) !! n = Some e ∧ is_end e o) ∧
   (∀ n, n ∈ (list_ptys (holds first_pair.1) first_pair.2).1 ↔ ∃ o, first_pair.1 !! o = Some n)) ∧
  (list_ptys (holds first_pair.1) first_pair.2).1 = [0].
Proof.
  split; [|vm_compute; reflexivity]. apply (held_end_keeps_pair first_pair).
  apply rtc_once. apply (reg_create ∅ (mkRegistry 0 ∅) 101 103 true); [lia| |reflexivity..].
  intros n e He. vm_compute in He. discriminate.
Defined.

(** ** What the code does differently from what it is for *)

Definition active_tty (c : Con unit) : TtyDevice := default (tty_new false None) (snd <$> active_device c).

(** A terminal in the usual (Unicode) mode also queues every scancode for a raw reader, and
    no read takes them: the queue grows with every key. *)
Lemma raw_queue_grows :
  let k := process_scancode (M := unit) (K := unit) no_emulator no_signalfds no_keys no_decoding (mkKb consoles tt [] []) 30 in
  (active_tty k.(kb_con)).(raw_queue) = [30] ∧ tty_try_read (active_tty k.(kb_con)) 100 = None.
Proof. vm_compute. split; reflexivity. Qed.

(** A half-typed line is kept when a program switches to reading single bytes, and then comes
    out after the line feed that was typed later. *)
Definition half_typed : Con unit := foldl (process_char no_emulator no_signalfds) consoles [97; 98].
Definition raw_settings (c : Con unit) : Con unit :=
  with_terms c (with_terminal c.(c_terms) (with_termios c.(c_terms).(terminal) (apply_linux_termios termios_default (mkTermios 0 0 0 0 0 [])))).

Lemma half_line_out_of_order :
  input_queue (active_tty (process_char no_emulator no_signalfds (raw_settings half_typed) 10)) = [10; 97; 98].
Proof. vm_compute. reflexivity. Qed.

(** A character that UTF-8 writes in two bytes is queued as one byte. *)
Lemma accented_key_one_byte :
  (active_tty (foldl (process_char no_emulator no_signalfds) consoles [233; 10])).(keyboard_queue) = [233; 10].
Proof. vm_compute. reflexivity. Qed.

(** Nobody holds the master any more: the slave still sees no end of its input, and blocks. *)
Lemma slave_outlives_master :
  let r := (get_pty_slave (λ o, o =? 103) one_pty.(p_registry) 0).2 in
  (pty_slave_read 1 0 10 0 [] (with_registry one_pty r)).1 = None ∧ (pty_slave_read 1 0 10 NONBLOCK [] (with_registry one_pty r)).1 = Some (Err ObjectError.TryAgain).
Proof. vm_compute. split; reflexivity. Qed.
