(* ===== verification/FdTable.v ===== *)
(** * File descriptors

    The table of file descriptors of a process (process/fd_table.rs, process/object.rs, the
    entries of process/mod.rs), the calls that copy, close and mark descriptors
    (systemcall/implementations/objects.rs), the creation of pipes
    (systemcall/implementations/pipe.rs), and what becomes of the table at fork, exec and the
    end of a process (process/fork.rs, process/execve.rs, process/manager.rs).

    Tables and objects are named by their addresses, as several processes can share a table
    and several entries an object.  An entry for the end of a pipe holds a reference that the
    pipe counts; the pipes are those of Pipe, and the advisory locks those of FileLocks. *)

From stdpp Require Import sets pretty.
From S2P Require Import Prelude Errors Blocking Polling FileLocks Pipe.

Open Scope Z_scope.

(** ** Data *)

Definition FD_CLOEXEC : Z := 1.

Record FdEntry := mkFdEntry { entry_object : Z; fd_flags : Z; created_by_open : bool }.

#[export] Instance FdEntry_eq_dec : EqDecision FdEntry.
Proof. solve_decision. Defined.

Abbreviation FdTable := (list (option FdEntry)).

(** What the table needs of a process: the address of its table, and its limit. *)
Record FdProcess := mkFdProcess { fp_table : Z; rlimit_nofile_cur : Z }.

(** What F_SETOWN, F_SETSIG and F_SETLEASE set (object/control.rs). *)
Record LinuxFOwnerEx := mkOwnerEx { owner_type : Z; owner_pid : Z }.
Record FcntlObjectState := mkFcntlState { fs_owner : LinuxFOwnerEx; fs_signal : Z; fs_lease : Z }.

Definition fcntl_default : FcntlObjectState := mkFcntlState (mkOwnerEx 0 0) 0 F_UNLCK.

(** What the calls ask of an object that is not the end of a pipe. *)
Class Objects (X : Type) := {
  obj_get_flags : X → Z → result ObjectError Z;
  obj_set_flags : X → Z → Z → result ObjectError unit * X;
  (** [as_file_like]: the number of its mount, and its normal path *)
  obj_file_like : X → Z → option (Z * string);
  obj_readable : X → Z → bool;
  obj_writable : X → Z → bool;
  (** what the locks see of it, with its number of references *)
  obj_lock_view : X → Z → Z → FileLocks.Object;
  (** the last reference goes *)
  obj_drop : X → Z → X;
}.

(** [fd_procs]: the processes of the manager.  [f_ends]: the objects that are ends of pipes.
    [f_refs]: references to an object from outside of the tables. *)
Record Fds (X : Type) := mkFds {
  f_objects : X;
  f_tables : gmap Z FdTable;
  fd_procs : gmap Z FdProcess;
  f_ends : gmap Z (Z * PipeEndpointKind);
  f_pipes : gmap Z Pipe;
  f_locks : LockState;
  f_fcntl : gmap string FcntlObjectState;
  f_refs : Z → Z;
}.
Arguments mkFds {X} f_objects f_tables fd_procs f_ends f_pipes f_locks f_fcntl f_refs.
Arguments f_objects {X} f.
Arguments f_tables {X} f.
Arguments fd_procs {X} f.
Arguments f_ends {X} f.
Arguments f_pipes {X} f.
Arguments f_locks {X} f.
Arguments f_fcntl {X} f.
Arguments f_refs {X} f _.

Section updates.
Context {X : Type}.
Implicit Types s : Fds X.

Definition with_objects s (v : X) : Fds X := mkFds v s.(f_tables) s.(fd_procs) s.(f_ends) s.(f_pipes) s.(f_locks) s.(f_fcntl) s.(f_refs).
Definition with_tables s v : Fds X := mkFds s.(f_objects) v s.(fd_procs) s.(f_ends) s.(f_pipes) s.(f_locks) s.(f_fcntl) s.(f_refs).
Definition with_procs s v : Fds X := mkFds s.(f_objects) s.(f_tables) v s.(f_ends) s.(f_pipes) s.(f_locks) s.(f_fcntl) s.(f_refs).
Definition with_ends s v : Fds X := mkFds s.(f_objects) s.(f_tables) s.(fd_procs) v s.(f_pipes) s.(f_locks) s.(f_fcntl) s.(f_refs).
Definition with_pipes s v : Fds X := mkFds s.(f_objects) s.(f_tables) s.(fd_procs) s.(f_ends) v s.(f_locks) s.(f_fcntl) s.(f_refs).
Definition with_locks s v : Fds X := mkFds s.(f_objects) s.(f_tables) s.(fd_procs) s.(f_ends) s.(f_pipes) v s.(f_fcntl) s.(f_refs).
Definition with_fcntl s v : Fds X := mkFds s.(f_objects) s.(f_tables) s.(fd_procs) s.(f_ends) s.(f_pipes) s.(f_locks) v s.(f_refs).

Definition table_id s (pid : Z) : Z := match s.(fd_procs) !! pid with Some pr => pr.(fp_table) | None => 0 end.
Definition limit s (pid : Z) : Z := match s.(fd_procs) !! pid with Some pr => pr.(rlimit_nofile_cur) | None => 0 end.
Definition table s (pid : Z) : FdTable := default [] (s.(f_tables) !! table_id s pid).
Definition with_table s (pid : Z) (t : FdTable) : Fds X := with_tables s (<[table_id s pid := t]> s.(f_tables)).
Definition use_table s (pid tid : Z) : Fds X :=
  with_procs s (alter (λ pr, mkFdProcess tid pr.(rlimit_nofile_cur)) pid s.(fd_procs)).
End updates.

(** [Vec::resize] to a length that is not smaller, with empty entries. *)
Definition grow (t : FdTable) (len : Z) : FdTable := t ++ replicate (Z.to_nat len - length t) None.

Definition entry_at (t : FdTable) (fd : Z) : option FdEntry := t !! Z.to_nat fd ≫= id.

(** Entries of a table that are open, in the order of their numbers. *)
Definition open_entries (t : FdTable) : list FdEntry := omap id t.

(** ** References to objects *)

Section references.
Context {X : Type} `{Objects X}.
Implicit Types s : Fds X.

(** The references an entry holds: an end of a pipe is also counted by the pipe reference. *)
Definition entry_refs s (e : FdEntry) : list Z :=
  match s.(f_ends) !! e.(entry_object) with
  | Some _ => [e.(entry_object); e.(entry_object)]
  | None => [e.(entry_object)]
  end.

Definition all_entries s : list FdEntry := concat (map (λ x : Z * FdTable, open_entries x.2) (map_to_list s.(f_tables))).

(** [Arc::strong_count]; [held]: the references of values that are not in a table. *)
Definition strong_count s (held : list Z) (o : Z) : Z :=
  s.(f_refs) o + zlen (List.filter (Z.eqb o) (concat (map (entry_refs s) (all_entries s)) ++ held)).

(** [PipeFdReference::new] and its [Drop] *)
Definition new_pipe_reference s (o : Z) : Fds X :=
  match s.(f_ends) !! o with Some (p, k) => with_pipes s (alter (clone_fd_reference k) p s.(f_pipes)) | None => s end.

Definition drop_pipe_reference s (o : Z) : Fds X :=
  match s.(f_ends) !! o with Some (p, k) => with_pipes s (alter (close_fd_reference k) p s.(f_pipes)) | None => s end.

Definition end_gone (k : PipeEndpointKind) (p : Pipe) : Pipe :=
  mkPipe p.(state) p.(read_flags) p.(write_flags)
    (match k with PipeEndpointKind.Read => false | PipeEndpointKind.Write => p.(read_alive) end)
    (match k with PipeEndpointKind.Write => false | PipeEndpointKind.Read => p.(write_alive) end) p.(wakes) p.(async_notified).

(** A reference goes, and with the last one the object. *)
Definition drop_object s (held : list Z) (o : Z) : Fds X :=
  if strong_count s held o =? 0 then
    match s.(f_ends) !! o with
    | Some (p, k) => with_pipes s (alter (end_gone k) p s.(f_pipes))
    | None => with_objects s (obj_drop s.(f_objects) o)
    end
  else s.

(** [FdEntry::with_created_by_open], [FdEntry::clone], and its end; [held]: without the entry. *)
Definition entry_new s (o flags : Z) (created : bool) : FdEntry * Fds X := (mkFdEntry o flags created, new_pipe_reference s o).

Definition drop_entry s (held : list Z) (e : FdEntry) : Fds X :=
  drop_object (drop_pipe_reference s e.(entry_object)) held e.(entry_object).

(** ** What is released with an entry *)

Definition object_flags s (o : Z) : result ObjectError Z :=
  match s.(f_ends) !! o with
  | Some (p, k) => match s.(f_pipes) !! p with Some pipe => Ok (endpoint_flags k pipe) | None => Ok 0 end
  | None => obj_get_flags s.(f_objects) o
  end.

Definition set_object_flags s (o flags : Z) : result ObjectError unit * Fds X :=
  match s.(f_ends) !! o with
  | Some (p, k) => (Ok tt, with_pipes s (alter (set_flags k flags) p s.(f_pipes)))
  | None => let '(r, x) := obj_set_flags s.(f_objects) o flags in (r, with_objects s x)
  end.

Definition object_file_like s (o : Z) : option (Z * string) :=
  match s.(f_ends) !! o with Some _ => None | None => obj_file_like s.(f_objects) o end.

Definition lock_view s (held : list Z) (o : Z) : FileLocks.Object :=
  match s.(f_ends) !! o with
  | Some _ => mkObject o (strong_count s held o) None (Err SyscallError.IllegalSeek) (Err SyscallError.BadFileDescriptor)
  | None => obj_lock_view s.(f_objects) o (strong_count s held o)
  end.

Definition fcntl_object_key s (o : Z) : string :=
  match object_file_like s o with
  | Some (mount_id, path) => "file-path:" +:+ pretty (Z.to_N mount_id) +:+ ":" +:+ path
  | None =>
      match s.(f_ends) !! o with
      | Some _ => "pipe:" +:+ format_pointer o
      | None => "object:" +:+ format_pointer o
      end
  end.

Definition fd_entry_is_other_open_file s (e : FdEntry) (o : Z) : bool :=
  if e.(entry_object) =? o then false else bool_decide (fcntl_object_key s e.(entry_object) = fcntl_object_key s o).

(** [skip]: the number not to look at *)
Definition fd_table_has_other_open_file_description s (t : FdTable) (skip : option Z) (o : Z) : bool :=
  existsb (λ x : nat * option FdEntry,
    negb (bool_decide (Some (Z.of_nat x.1) = skip)) &&
    match x.2 with Some e => fd_entry_is_other_open_file s e o | None => false end) (imap pair t).

(** [try_lock] fails for the processes and tables that are locked, and then the answer is yes. *)
Definition has_other_open_file_description_for_release s (locked tlocked : gset Z) (o : Z) : bool :=
  existsb (λ x : Z * FdProcess,
    bool_decide (x.1 ∈ locked) || bool_decide (x.2.(fp_table) ∈ tlocked) ||
    fd_table_has_other_open_file_description s (default [] (s.(f_tables) !! x.2.(fp_table))) None o) (map_to_list s.(fd_procs)).

Definition release_fcntl_object_state s (locked tlocked : gset Z) (held : list Z) (o : Z) : Fds X :=
  if (strong_count s held o =? 1) && negb (has_other_open_file_description_for_release s locked tlocked o)
  then with_fcntl s (delete (fcntl_object_key s o) s.(f_fcntl)) else s.

(** [held]: with the references of the entry *)
Definition release_fd_entry_resources s (locked tlocked : gset Z) (held : list Z) (pid : Z) (e : FdEntry) : Fds X :=
  let s := with_locks s (release_fd_entry_locks pid (lock_view s held e.(entry_object)) s.(f_locks)) in
  release_fcntl_object_state s locked tlocked held e.(entry_object).

(** Entries that were taken from a table, released and dropped one after the other; the last
    argument are references of other values. *)
Fixpoint release_entries s (locked tlocked : gset Z) (pid : Z) (es : list FdEntry) (held : list Z) : Fds X :=
  match es with
  | [] => s
  | e :: es =>
      let others := concat (map (entry_refs s) es) ++ held in
      let s := release_fd_entry_resources s locked tlocked (entry_refs s e ++ others) pid e in
      release_entries (drop_entry s others e) locked tlocked pid es held
  end.

Fixpoint drop_entries s (es : list FdEntry) (held : list Z) : Fds X :=
  match es with
  | [] => s
  | e :: es => drop_entries (drop_entry s (concat (map (entry_refs s) es) ++ held) e) es held
  end.

(** A table that no process uses any more. *)
Definition table_users s (tid : Z) : Z := zlen (List.filter (λ x : Z * FdProcess, x.2.(fp_table) =? tid) (map_to_list s.(fd_procs))).

Definition drop_table s (tid : Z) (held : list Z) : Fds X :=
  if table_users s tid =? 0 then
    let es := open_entries (default [] (s.(f_tables) !! tid)) in
    drop_entries (with_tables s (delete tid s.(f_tables))) es held
  else s.

(** Entries of a table that is cloned. *)
Definition clone_entries s (t : FdTable) : Fds X := foldl (λ s e, new_pipe_reference s e.(entry_object)) s (open_entries t).

(** ** The methods of a process (process/object.rs) *)

Definition fd_within_limit s (pid fd : Z) : bool := fd <? limit s pid.

Definition find_empty_fd_slot s (pid from : Z) : option Z :=
  (λ x : nat * option FdEntry, from + Z.of_nat x.1) <$>
  list_find (λ e, e = None) (take (Z.to_nat (sat_sub (limit s pid) from)) (drop (Z.to_nat from) (table s pid))).

Definition alloc_fd_slot s (pid : Z) : result ObjectError Z * Fds X :=
  match find_empty_fd_slot s pid 0 with
  | Some fd => (Ok fd, s)
  | None =>
      let t := table s pid in
      if limit s pid <=? zlen t then (Err ObjectError.TooManyOpenFilesProcess, s)
      else (Ok (zlen t), with_table s pid (t ++ [None]))
  end.

Definition alloc_fd_slot_with_min s (pid min : Z) : result ObjectError Z * Fds X :=
  if limit s pid <=? min then (Err ObjectError.TooManyOpenFilesProcess, s)
  else
    match find_empty_fd_slot s pid min with
    | Some fd => (Ok fd, s)
    | None =>
        let t := table s pid in
        if zlen t <=? min then (Ok min, with_table s pid (grow t (min + 1)))
        else if zlen t <? limit s pid then (Ok (zlen t), with_table s pid (t ++ [None]))
        else (Err ObjectError.TooManyOpenFilesProcess, s)
    end.

Definition get_object s (pid fd : Z) : result ObjectError Z := ok_or (entry_object <$> entry_at (table s pid) fd) ObjectError.DoesNotExist.

(** [held]: the reference that is stored, among others. *)
Definition set_fd_entry_with_created_by_open s (pid slot o flags : Z) (created : bool) (held : list Z) : result ObjectError Z * Fds X :=
  if negb (fd_within_limit s pid slot) then (Err ObjectError.DoesNotExist, s)
  else
    let t := grow (table s pid) (slot + 1) in
    let old := entry_at t slot in
    let s := with_table s pid (<[Z.to_nat slot := None]> t) in
    let s := match old with
             | Some e => release_entries s {[pid]} {[table_id s pid]} pid [e] held
             | None => s
             end in
    let '(e, s) := entry_new s o flags created in
    (Ok slot, with_table s pid (<[Z.to_nat slot := Some e]> (table s pid))).

Definition set_fd_entry s (pid slot o flags : Z) : result ObjectError Z * Fds X :=
  set_fd_entry_with_created_by_open s pid slot o flags false [o].

Definition clear_fd_slot s (pid slot : Z) : result ObjectError unit * Fds X :=
  let t := table s pid in
  match entry_at t slot with
  | None => (Err ObjectError.DoesNotExist, s)
  | Some e =>
      let s := with_table s pid (<[Z.to_nat slot := None]> t) in
      (Ok tt, release_entries s {[pid]} {[table_id s pid]} pid [e] [])
  end.

Definition get_fd_flags s (pid fd : Z) : result ObjectError Z := ok_or (fd_flags <$> entry_at (table s pid) fd) ObjectError.DoesNotExist.

Definition fd_created_by_open s (pid fd : Z) : result ObjectError bool :=
  ok_or (created_by_open <$> entry_at (table s pid) fd) ObjectError.DoesNotExist.

Definition with_fd_flags (e : FdEntry) (flags : Z) : FdEntry := mkFdEntry e.(entry_object) flags e.(created_by_open).

Definition set_fd_flags s (pid fd flags : Z) : result ObjectError unit * Fds X :=
  let t := table s pid in
  match entry_at t fd with
  | None => (Err ObjectError.DoesNotExist, s)
  | Some e => (Ok tt, with_table s pid (<[Z.to_nat fd := Some (with_fd_flags e flags)]> t))
  end.

Definition clone_object s (pid o : Z) : result ObjectError Z * Fds X :=
  let '(slot, s) := alloc_fd_slot s pid in
  try slot := slot with s in set_fd_entry s pid slot o 0.

Definition clone_object_with_min_and_flags s (pid o min flags : Z) : result ObjectError Z * Fds X :=
  let '(slot, s) := alloc_fd_slot_with_min s pid min in
  try slot := slot with s in set_fd_entry s pid slot o flags.

Definition clone_object_with_min s (pid o min : Z) : result ObjectError Z * Fds X := clone_object_with_min_and_flags s pid o min 0.

Definition clone_object_to_with_flags s (pid o dest flags : Z) : result ObjectError Z * Fds X := set_fd_entry s pid dest o flags.

Definition clone_object_to s (pid o dest : Z) : result ObjectError Z * Fds X := clone_object_to_with_flags s pid o dest 0.

(** The first free number, whatever the limit. *)
Definition push_object_with_flags s (pid o flags : Z) : Z * Fds X :=
  let t := table s pid in
  let '(slot, t) := match list_find (λ e, e = None) t with
                    | Some (i, _) => (Z.of_nat i, t)
                    | None => (zlen t, t ++ [None])
                    end in
  let '(e, s) := entry_new s o flags false in
  (slot, with_table s pid (<[Z.to_nat slot := Some e]> t)).

Definition push_object s (pid o : Z) : Z * Fds X := push_object_with_flags s pid o 0.

(** What stays, and what was taken. *)
Definition is_cloexec (e : FdEntry) : bool := flag_set e.(fd_flags) FD_CLOEXEC.

Definition keep_fd (e : option FdEntry) : option FdEntry := match e with Some e => if is_cloexec e then None else Some e | None => None end.

Definition close_cloexec_fd_entries (t : FdTable) : list FdEntry * FdTable :=
  (List.filter is_cloexec (open_entries t), map keep_fd t).

Definition close_cloexec_objects s (pid : Z) : Fds X :=
  let '(closed, t) := close_cloexec_fd_entries (table s pid) in
  release_entries (with_table s pid t) {[pid]} {[table_id s pid]} pid closed [].

(** [fresh]: the address of the new table *)
Definition close_all_fds s (pid fresh : Z) : Fds X :=
  let tid := table_id s pid in
  let t := table s pid in
  let s :=
    if 1 <? table_users s tid then
      let s := clone_entries s t in
      let held := concat (map (entry_refs s) (open_entries t)) in
      let s := with_locks s (release_process_fd_table_locks pid (map (fmap (λ e, lock_view s held e.(entry_object))) t) s.(f_locks)) in
      let s := foldl (λ s e, release_fcntl_object_state s {[pid]} ∅ held e.(entry_object)) s (open_entries t) in
      drop_entries s (open_entries t) []
    else release_entries (with_table s pid []) {[pid]} ∅ pid (open_entries t) [] in
  let s := use_table (with_tables s (<[fresh := []]> s.(f_tables))) pid fresh in
  drop_table s tid [].

Definition unshare_fd_table s (pid fresh : Z) : Fds X :=
  let tid := table_id s pid in
  let t := table s pid in
  let s := clone_entries s t in
  drop_table (use_table (with_tables s (<[fresh := t]> s.(f_tables))) pid fresh) tid [].

(** The three first descriptors, when they are missing: the default terminal. *)
Definition init_objects s (t : FdTable) (default_tty : Z) : FdTable * Fds X :=
  let t := grow t 3 in
  foldl (λ '(t, s) i,
    match t !! i with
    | Some None => let '(e, s) := entry_new s default_tty 0 false in (<[i := Some e]> t, s)
    | _ => (t, s)
    end) (t, s) (seq 0 3).

(** [fork]: a copy of the table at [fresh], or the same table with CLONE_FILES. *)
Definition fork_fd_table s (parent child fresh : Z) (share : bool) : Fds X :=
  match s.(fd_procs) !! parent with
  | None => s
  | Some pr =>
      if share then with_procs s (<[child := pr]> s.(fd_procs))
      else
        let t := table s parent in
        let s := clone_entries s t in
        with_procs (with_tables s (<[fresh := t]> s.(f_tables))) (<[child := mkFdProcess fresh pr.(rlimit_nofile_cur)]> s.(fd_procs))
  end.

(** [prepare_execve] and [commit_execve] on the table, for an exec that succeeds. *)
Definition execve_fd_table s (pid fresh default_tty : Z) : Fds X :=
  let tid := table_id s pid in
  let s := clone_entries s (table s pid) in
  let '(closed, t) := close_cloexec_fd_entries (table s pid) in
  let '(t, s) := init_objects s t default_tty in
  let s := use_table (with_tables s (<[fresh := t]> s.(f_tables))) pid fresh in
  let s := drop_table s tid (concat (map (entry_refs s) closed)) in
  release_entries s {[pid]} ∅ pid closed [].

(** ** System calls *)

Definition map_object_error {A} (r : result ObjectError A) : result SyscallError A := map_err object_error_as_syscall_error r.

Definition dup s (pid o : Z) : result SyscallError Z * Fds X :=
  let '(r, s) := clone_object s pid o in (map_object_error r, s).

Definition dup2 s (pid source_fd dest : Z) : result SyscallError Z * Fds X :=
  try source := map_object_error (get_object s pid source_fd) with s in
  bail SyscallError.BadFileDescriptor when negb (fd_within_limit s pid dest) with s;
  if source_fd =? dest then (Ok dest, s)
  else let '(r, s) := clone_object_to s pid source dest in (map_object_error r, s).

Definition DUP3_CLOEXEC : Z := 0x80000.

Definition dup3 s (pid source_fd dest flags : Z) : result SyscallError Z * Fds X :=
  bail SyscallError.InvalidArguments when (source_fd =? dest) with s;
  bail SyscallError.BadFileDescriptor when negb (fd_within_limit s pid dest) with s;
  try source := map_object_error (get_object s pid source_fd) with s in
  let '(r, s) := clone_object_to_with_flags s pid source dest (if flag_set flags DUP3_CLOEXEC then FD_CLOEXEC else 0) in
  (map_object_error r, s).

Definition close s (pid fd : Z) : result SyscallError Z * Fds X :=
  match clear_fd_slot s pid fd with
  | (Ok _, s) => (Ok 0, s)
  | (Err _, s) => (Err SyscallError.BadFileDescriptor, s)
  end.

Definition CLOSE_RANGE_UNSHARE : Z := 2.
Definition CLOSE_RANGE_CLOEXEC : Z := 4.

(** The entries from [first] to [last], marked or taken. *)
Definition in_range_fd (first last : Z) (i : nat) : bool := (first <=? Z.of_nat i) && (Z.of_nat i <=? last).

Definition mark_range (first last : Z) (t : FdTable) : FdTable :=
  imap (λ i e, if in_range_fd first last i then (λ e, with_fd_flags e FD_CLOEXEC) <$> e else e) t.

Definition take_range (first last : Z) (t : FdTable) : list FdEntry * FdTable :=
  (omap (λ x : nat * option FdEntry, if in_range_fd first last x.1 then x.2 else None) (imap pair t),
   imap (λ i e, if in_range_fd first last i then None else e) t).

Definition close_range s (pid first last flags fresh : Z) : result SyscallError Z * Fds X :=
  bail SyscallError.InvalidArguments when (last <? first) with s;
  bail SyscallError.InvalidArguments when negb (Z.land flags (Z.lnot (Z.lor CLOSE_RANGE_UNSHARE CLOSE_RANGE_CLOEXEC)) =? 0) with s;
  let s := if flag_set flags CLOSE_RANGE_UNSHARE then unshare_fd_table s pid fresh else s in
  let t := table s pid in
  if zlen t <=? first then (Ok 0, s)
  else
    let last := Z.min last (sat_sub (zlen t) 1) in
    if flag_set flags CLOSE_RANGE_CLOEXEC then (Ok 0, with_table s pid (mark_range first last t))
    else
      let '(closed, t) := take_range first last t in
      (Ok 0, release_entries (with_table s pid t) {[pid]} ∅ pid closed []).

(** [unshare(CLONE_FILES)]; [nr_open]: the setting of the system. *)
Definition highest_open (t : FdTable) : Z :=
  foldl (λ (acc : Z) (x : nat * option FdEntry), match x.2 with Some _ => Z.of_nat x.1 + 1 | None => acc end) 0 (imap pair t).

Definition unshare_files s (pid nr_open fresh : Z) : result SyscallError unit * Fds X :=
  bail SyscallError.TooManyOpenFilesProcess when (nr_open <? highest_open (table s pid)) with s;
  (Ok tt, unshare_fd_table s pid fresh).

(** ** Creating a pipe *)

Definition O_NONBLOCK : Z := 0x800.
Definition O_DIRECT : Z := 0x4000.
Definition O_CLOEXEC : Z := 0x80000.
Definition DIRECT : Z := 32.

(** The first two free numbers below the limit. *)
Definition two_free_slots (t : FdTable) (limit : Z) : option Z * option Z :=
  let free := List.filter (λ i, bool_decide (entry_at t (Z.of_nat i) = None)) (seq 0 (Z.to_nat limit)) in
  (Z.of_nat <$> free !! 0%nat, Z.of_nat <$> free !! 1%nat).

(** [r], [w], [p]: the addresses of the ends and of what they share; [fd_i32]: whether a
    number fits.  The pair is written as two integers. *)
Context {M : Type} `{um_pair : UserMemory M (Z * Z)}.

Definition create_pipe s (m : M) (pid fds flags r w p : Z) (privileged : bool) (pipe_max_size : Z)
  : result SyscallError Z * (M * Fds X) :=
  bail SyscallError.BadAddress when (fds =? 0) with (m, s);
  let object_flags := Z.lor (if flag_set flags O_NONBLOCK then NONBLOCK else 0) (if flag_set flags O_DIRECT then DIRECT else 0) in
  let t := table s pid in
  match two_free_slots t (limit s pid) with
  | (Some read_fd, Some write_fd) =>
      let s := with_pipes (with_ends s (<[r := (p, PipeEndpointKind.Read)]> (<[w := (p, PipeEndpointKind.Write)]> s.(f_ends))))
                 (<[p := pipe_pair privileged pipe_max_size object_flags]> s.(f_pipes)) in
      let flags := if flag_set flags O_CLOEXEC then FD_CLOEXEC else 0 in
      let '(re, s) := entry_new s r flags false in
      let '(we, s) := entry_new s w flags false in
      let s := with_table s pid (<[Z.to_nat write_fd := Some we]> (<[Z.to_nat read_fd := Some re]> (grow t (write_fd + 1)))) in
      bail SyscallError.TooManyOpenFilesProcess when ((2^31 <=? read_fd) || (2^31 <=? write_fd)) with (m, s);
      let '(res, m) := user_write m fds (read_fd, write_fd) in
      ((λ _, 0) <$> res, (m, s))
  | _ => (Err SyscallError.TooManyOpenFilesProcess, (m, s))
  end.

Definition pipe s (m : M) (pid fds r w p : Z) (privileged : bool) (pipe_max_size : Z) : result SyscallError Z * (M * Fds X) :=
  create_pipe s m pid fds 0 r w p privileged pipe_max_size.

Definition pipe2 s (m : M) (pid fds flags r w p : Z) (privileged : bool) (pipe_max_size : Z) : result SyscallError Z * (M * Fds X) :=
  create_pipe s m pid fds flags r w p privileged pipe_max_size.
End references.
