(* ===== verification/FdTableProps.v ===== *)
(** * File descriptors: properties

    Descriptors are the lowest that are free and below the limit; closing, replacing, marking
    and executing change exactly the descriptors they name; and the readers and writers a
    pipe counts are the descriptors of its ends in all tables, whatever was done to them. *)

From stdpp Require Import sets.
From S2P Require Import Prelude Errors Blocking Polling FileLocks Pipe FdTable.

Open Scope Z_scope.

(** ** Tables *)

Implicit Types t : FdTable.

Lemma entry_at_nat t (i : nat) : entry_at t (Z.of_nat i) = t !! i ≫= id.
Proof. unfold entry_at. by rewrite Nat2Z.id. Qed.

Lemma entry_at_Z t fd : 0 <= fd → ∃ i : nat, fd = Z.of_nat i.
Proof. intros H. exists (Z.to_nat fd). lia. Qed.

Lemma entry_at_out t fd : zlen t <= fd → entry_at t fd = None.
Proof. intros H. unfold entry_at. rewrite lookup_ge_None_2; [done|]. unfold zlen in H. lia. Qed.

Lemma grow_length t n : zlen (grow t n) = Z.max (zlen t) n ∨ n < 0.
Proof. unfold grow, zlen. rewrite length_app, length_replicate. lia. Qed.

Lemma entry_at_grow t n fd : entry_at (grow t n) fd = entry_at t fd.
Proof.
  unfold entry_at, grow. destruct (t !! Z.to_nat fd) as [e|] eqn:He; [by rewrite lookup_app_l_Some with (x := e)|].
  rewrite lookup_app_r by (by apply lookup_ge_None). cbn. destruct (replicate _ _ !! _) eqn:Hr; [|done].
  by apply lookup_replicate in Hr as [-> _].
Qed.

Lemma entry_at_app_none t fd : entry_at (t ++ [None]) fd = entry_at t fd.
Proof.
  unfold entry_at. destruct (t !! Z.to_nat fd) as [e|] eqn:He; [by rewrite lookup_app_l_Some with (x := e)|].
  rewrite lookup_app_r by (by apply lookup_ge_None). by destruct (Z.to_nat fd - length t)%nat as [|[]].
Qed.

Lemma entry_at_insert t fd e : 0 <= fd < zlen t → entry_at (<[Z.to_nat fd := e]> t) fd = e.
Proof. intros H. unfold entry_at. rewrite list_lookup_insert_eq; [by destruct e|]. unfold zlen in H. lia. Qed.

Lemma entry_at_insert_ne t fd k e : 0 <= fd → 0 <= k → fd ≠ k → entry_at (<[Z.to_nat fd := e]> t) k = entry_at t k.
Proof. intros. unfold entry_at. rewrite list_lookup_insert_ne; [done|lia]. Qed.

Lemma open_entries_app t1 t2 : open_entries (t1 ++ t2) = open_entries t1 ++ open_entries t2.
Proof. apply omap_app. Qed.

Lemma open_entries_none n : open_entries (replicate n None) = [].
Proof. induction n; done. Qed.

Lemma open_entries_grow t n : open_entries (grow t n) = open_entries t.
Proof. unfold grow. by rewrite open_entries_app, open_entries_none, app_nil_r. Qed.

(** A slot that is emptied, and one that is filled. *)
Lemma open_entries_clear t (i : nat) x : t !! i = Some x →
  open_entries t ≡ₚ option_list x ++ open_entries (<[i := None]> t).
Proof.
  intros Hx. rewrite <- (take_drop_middle t i x Hx) at 1. rewrite insert_take_drop by (by eapply lookup_lt_Some).
  rewrite !open_entries_app. cbn. unfold open_entries at 2. destruct x as [e|]; cbn; [|done]. by rewrite <- Permutation_middle.
Qed.

Lemma open_entries_fill t (i : nat) e : t !! i = Some None → open_entries (<[i := Some e]> t) ≡ₚ e :: open_entries t.
Proof.
  intros Hn. rewrite insert_take_drop by (by eapply lookup_lt_Some). rewrite <- (take_drop_middle t i None Hn) at 3.
  rewrite !open_entries_app. cbn. by rewrite <- Permutation_middle.
Qed.

(** ** Frames: what is released does not touch the tables *)

Section frames.
Context {X : Type} `{Objects X}.
Implicit Types s : Fds X.

Definition same_tables s s' : Prop := s'.(f_tables) = s.(f_tables) ∧ s'.(fd_procs) = s.(fd_procs) ∧ s'.(f_ends) = s.(f_ends).

Lemma same_tables_refl s : same_tables s s.
Proof. done. Qed.

Lemma same_tables_trans s1 s2 s3 : same_tables s1 s2 → same_tables s2 s3 → same_tables s1 s3.
Proof. unfold same_tables. intros (A1 & B1 & C1) (A2 & B2 & C2). split_and!; congruence. Qed.

Lemma new_reference_tables s o : same_tables s (new_pipe_reference s o).
Proof. unfold new_pipe_reference. by destruct (f_ends s !! o) as [[p k]|]. Qed.

Lemma drop_reference_tables s o : same_tables s (drop_pipe_reference s o).
Proof. unfold drop_pipe_reference. by destruct (f_ends s !! o) as [[p k]|]. Qed.

Lemma drop_object_tables s held o : same_tables s (drop_object s held o).
Proof. unfold drop_object. destruct (_ =? 0); [|done]. by destruct (f_ends s !! o) as [[p k]|]. Qed.

Lemma drop_entry_tables s held e : same_tables s (drop_entry s held e).
Proof. unfold drop_entry. eapply same_tables_trans; [apply drop_reference_tables|apply drop_object_tables]. Qed.

Lemma release_fcntl_tables s locked tlocked held o : same_tables s (release_fcntl_object_state s locked tlocked held o).
Proof. unfold release_fcntl_object_state. by destruct (_ && _). Qed.

Lemma release_resources_tables s locked tlocked held pid e : same_tables s (release_fd_entry_resources s locked tlocked held pid e).
Proof. unfold release_fd_entry_resources. eapply same_tables_trans; [|apply release_fcntl_tables]. done. Qed.

Lemma release_entries_tables s locked tlocked pid es held : same_tables s (release_entries s locked tlocked pid es held).
Proof.
  revert s. induction es as [|e es IH]; intros s; [done|]. cbn. eapply same_tables_trans; [|apply IH].
  eapply same_tables_trans; [apply release_resources_tables|apply drop_entry_tables].
Qed.

Lemma drop_entries_tables s es held : same_tables s (drop_entries s es held).
Proof. revert s. induction es as [|e es IH]; intros s; [done|]. cbn. eapply same_tables_trans; [apply drop_entry_tables|apply IH]. Qed.

Lemma clone_entries_tables s t : same_tables s (clone_entries s t).
Proof.
  unfold clone_entries. generalize (open_entries t). intros es. revert s. induction es as [|e es IH]; intros s; [done|]. cbn.
  eapply same_tables_trans; [apply new_reference_tables|apply IH].
Qed.

Lemma same_table_of s s' pid : same_tables s s' → table s' pid = table s pid ∧ table_id s' pid = table_id s pid ∧ limit s' pid = limit s pid.
Proof. unfold table, table_id, limit. intros (-> & -> & _). done. Qed.
End frames.

(** ** Which number a new descriptor gets *)

Section numbers.
Context {X : Type} `{Objects X}.
Implicit Types s : Fds X.

(** The process is known, with its table. *)
Definition has_table s (pid : Z) : Prop := ∃ pr t, s.(fd_procs) !! pid = Some pr ∧ s.(f_tables) !! pr.(fp_table) = Some t.

Lemma table_with_table s pid t : has_table s pid → table (with_table s pid t) pid = t ∧ table_id (with_table s pid t) pid = table_id s pid.
Proof. intros (pr & t0 & Hp & Ht). unfold table, with_table, table_id. cbn. rewrite Hp. cbn. by rewrite lookup_insert_eq. Qed.

Lemma has_table_with s pid t : has_table s pid → has_table (with_table s pid t) pid.
Proof. intros (pr & t0 & Hp & Ht). exists pr, t. split; [done|]. unfold with_table, table_id. cbn. rewrite Hp. by rewrite lookup_insert_eq. Qed.

Lemma has_table_same s s' pid : same_tables s s' → has_table s pid → has_table s' pid.
Proof. intros (Ht & Hp & _) (pr & t & A & B). exists pr, t. by rewrite Ht, Hp. Qed.

(** The descriptors of the process before and after a call that changes at most one. *)
Definition only_fd s s' (pid fd : Z) (e : option FdEntry) : Prop :=
  table_id s' pid = table_id s pid ∧
  (∀ k, 0 <= k → entry_at (table s' pid) k = if decide (k = fd) then e else entry_at (table s pid) k) ∧
  (∀ tid, tid ≠ table_id s pid → s'.(f_tables) !! tid = s.(f_tables) !! tid).

Lemma only_fd_trans s s1 s2 pid fd e1 e2 : only_fd s s1 pid fd e1 → only_fd s1 s2 pid fd e2 → only_fd s s2 pid fd e2.
Proof.
  intros (A & B & C) (A' & B' & C'). split_and!; [congruence| |].
  - intros k Hk. rewrite B', B by done. by destruct (decide (k = fd)).
  - intros tid Hne. rewrite C', C by congruence. done.
Qed.

Lemma only_fd_same s s' pid fd : same_tables s s' → only_fd s s' pid fd (entry_at (table s pid) fd).
Proof.
  intros Hs. destruct (same_table_of s s' pid Hs) as (Ht & Hid & _). split_and!; [done| |].
  - intros k _. rewrite Ht. by destruct (decide (k = fd)) as [->|].
  - intros tid _. by destruct Hs as (-> & _).
Qed.

Lemma only_fd_with_table s pid t fd e : has_table s pid →
  (∀ k, 0 <= k → entry_at t k = if decide (k = fd) then e else entry_at (table s pid) k) → only_fd s (with_table s pid t) pid fd e.
Proof.
  intros Hp Hk. destruct (table_with_table s pid t Hp) as [Ht Hid]. split_and!; [done|by rewrite Ht|].
  intros tid Hne. unfold with_table. cbn. by rewrite lookup_insert_ne.
Qed.

(** A table that shows the same descriptors. *)
Lemma only_fd_equal s pid t fd : has_table s pid → (∀ k, entry_at t k = entry_at (table s pid) k) →
  only_fd s (with_table s pid t) pid fd (entry_at (table s pid) fd).
Proof. intros Hp Hk. apply only_fd_with_table; [done|]. intros k _. rewrite Hk. by destruct (decide (k = fd)) as [->|]. Qed.

Lemma find_empty_spec s pid from fd : 0 <= from → find_empty_fd_slot s pid from = Some fd →
  from <= fd < limit s pid ∧ fd < zlen (table s pid) ∧ entry_at (table s pid) fd = None ∧ ∀ k, from <= k < fd → entry_at (table s pid) k ≠ None.
Proof.
  intros Hf. unfold find_empty_fd_slot. intros ([i e] & (Hi & -> & Hbefore)%list_find_Some & ->)%fmap_Some. cbn.
  apply lookup_take_Some in Hi as [Hi Hlt]. rewrite lookup_drop in Hi.
  pose proof (lookup_lt_Some _ _ _ Hi). unfold sat_sub in Hlt. split_and!; [lia|lia|unfold zlen; lia| |].
  - unfold entry_at. replace (Z.to_nat (from + Z.of_nat i)) with (Z.to_nat from + i)%nat by lia. by rewrite Hi.
  - intros k Hk. set (j := (Z.to_nat k - Z.to_nat from)%nat).
    assert (is_Some (table s pid !! Z.to_nat k)) as [x Hx] by (apply lookup_lt_is_Some; lia).
    unfold entry_at. rewrite Hx. cbn. apply (Hbefore j x); [|unfold j; lia]. rewrite lookup_take_lt by (unfold j, sat_sub; lia). rewrite lookup_drop.
    by replace (Z.to_nat from + j)%nat with (Z.to_nat k) by (unfold j; lia).
Qed.

Lemma find_empty_none s pid from k : 0 <= from → find_empty_fd_slot s pid from = None →
  from <= k < limit s pid → k < zlen (table s pid) → entry_at (table s pid) k ≠ None.
Proof.
  intros Hf. unfold find_empty_fd_slot. intros Hn%fmap_None%list_find_None Hk Hlen. rewrite Forall_lookup in Hn.
  assert (is_Some (table s pid !! Z.to_nat k)) as [x Hx] by (apply lookup_lt_is_Some; unfold zlen in Hlen; lia).
  unfold entry_at. rewrite Hx. cbn. apply (Hn (Z.to_nat k - Z.to_nat from)%nat). unfold sat_sub. rewrite lookup_take_lt by lia.
  rewrite lookup_drop. by replace (Z.to_nat from + (Z.to_nat k - Z.to_nat from))%nat with (Z.to_nat k) by lia.
Qed.

(** The slot is the lowest one that is free, and the table shows the same descriptors. *)
Lemma alloc_with_min_spec s pid min : 0 <= min → has_table s pid →
  match alloc_fd_slot_with_min s pid min with
  | (Ok fd, s') =>
      min <= fd < limit s pid ∧ entry_at (table s pid) fd = None ∧ (∀ k, min <= k < fd → entry_at (table s pid) k ≠ None) ∧
      fd < zlen (table s' pid) ∧ has_table s' pid ∧ limit s' pid = limit s pid ∧ only_fd s s' pid fd None
  | (Err e, s') =>
      e = ObjectError.TooManyOpenFilesProcess ∧ s' = s ∧ ∀ k, min <= k < limit s pid → entry_at (table s pid) k ≠ None
  end.
Proof.
  intros Hm Hp. unfold alloc_fd_slot_with_min. destruct (limit s pid <=? min) eqn:Hl; [apply Z.leb_le in Hl; split_and!; [done..|intros; lia]|].
  apply Z.leb_gt in Hl. destruct (find_empty_fd_slot s pid min) as [fd|] eqn:Hf.
  - destruct (find_empty_spec s pid min fd Hm Hf) as (Hr & Hlt & Hn & Hb). split_and!; try done; try lia. rewrite <- Hn. by apply only_fd_same.
  - pose proof (λ k, find_empty_none s pid min k Hm Hf) as Hnone.
    assert (∀ n, limit (with_table s pid n) pid = limit s pid) as Hlim by done.
    destruct (zlen (table s pid) <=? min) eqn:Hlen.
    + apply Z.leb_le in Hlen. pose proof (entry_at_out (table s pid) min Hlen) as Hout.
      destruct (table_with_table s pid (grow (table s pid) (min + 1)) Hp) as [Ht _]. split_and!; try done; try lia; [|by apply has_table_with|].
      * rewrite Ht. destruct (grow_length (table s pid) (min + 1)); lia.
      * rewrite <- Hout. apply only_fd_equal; [done|]. intros. apply entry_at_grow.
    + apply Z.leb_gt in Hlen. destruct (zlen (table s pid) <? limit s pid) eqn:Hll.
      * apply Z.ltb_lt in Hll. assert (entry_at (table s pid) (zlen (table s pid)) = None) as Hout by (by apply entry_at_out).
        destruct (table_with_table s pid (table s pid ++ [None]) Hp) as [Ht _]. split_and!; try done; try lia; [intros; apply Hnone; lia| |by apply has_table_with|].
        -- rewrite Ht. unfold zlen. rewrite length_app. cbn. lia.
        -- set (t' := table s pid ++ [None]). rewrite <- Hout. apply only_fd_equal; [done|]. intros. apply entry_at_app_none.
      * apply Z.ltb_ge in Hll. split_and!; [done..|]. intros k Hk. apply Hnone; lia.
Qed.

Lemma alloc_is_with_min s pid : alloc_fd_slot s pid = alloc_fd_slot_with_min s pid 0.
Proof.
  unfold alloc_fd_slot, alloc_fd_slot_with_min. destruct (limit s pid <=? 0) eqn:Hl.
  - apply Z.leb_le in Hl. assert (find_empty_fd_slot s pid 0 = None) as ->.
    { unfold find_empty_fd_slot, sat_sub. by replace (Z.to_nat (Z.max 0 (limit s pid - 0))) with 0%nat by lia. }
    rewrite (proj2 (Z.leb_le _ _)); [done|]. unfold zlen. lia.
  - apply Z.leb_gt in Hl. destruct (find_empty_fd_slot s pid 0); [done|]. destruct (table s pid) as [|x t] eqn:Ht.
    + rewrite (proj2 (Z.leb_gt _ _)) by done. done.
    + assert ((zlen (x :: t) <=? 0) = false) as -> by (apply Z.leb_gt; unfold zlen; cbn; lia). rewrite Z.ltb_antisym. by destruct (_ <=? _).
Qed.

Lemma set_entry_spec s pid slot o flags : 0 <= slot < limit s pid → has_table s pid →
  ∃ s', set_fd_entry s pid slot o flags = (Ok slot, s') ∧ only_fd s s' pid slot (Some (mkFdEntry o flags false)) ∧ has_table s' pid.
Proof.
  intros Hr Hp. unfold set_fd_entry, set_fd_entry_with_created_by_open, fd_within_limit. rewrite (proj2 (Z.ltb_lt _ _)) by lia. cbn [negb].
  set (t := grow (table s pid) (slot + 1)). set (s1 := with_table s pid _). set (s2 := match entry_at t slot with Some _ => _ | None => s1 end).
  assert (slot < zlen t) as Hlen by (destruct (grow_length (table s pid) (slot + 1)); unfold t; lia).
  assert (same_tables s1 s2) as H12 by (unfold s2; destruct (entry_at t slot); [apply release_entries_tables|done]).
  cbn [entry_new]. set (s3 := new_pipe_reference s2 o).
  assert (same_tables s1 s3) as H13 by (eapply same_tables_trans; [exact H12|apply new_reference_tables]).
  eexists. split; [reflexivity|]. assert (has_table s1 pid) as Hp1 by (by apply has_table_with).
  assert (has_table s3 pid) as Hp3 by (by eapply has_table_same). destruct (same_table_of s1 s3 pid H13) as (Ht3 & Hid3 & _).
  destruct (table_with_table s pid (<[Z.to_nat slot := None]> t) Hp) as [Ht1 _]. fold s1 in Ht1.
  split; [|by apply has_table_with]. apply (only_fd_trans s s1 _ pid slot None).
  - apply only_fd_with_table; [done|]. intros k Hk. destruct (decide (k = slot)) as [->|Hne]; [apply entry_at_insert; lia|].
    rewrite entry_at_insert_ne by (done || lia). apply entry_at_grow.
  - eapply only_fd_trans; [by apply only_fd_same|]. apply only_fd_with_table; [done|]. intros k Hk. rewrite Ht3, Ht1.
    destruct (decide (k = slot)) as [->|Hne]; [apply entry_at_insert; unfold zlen in *; rewrite length_insert; lia|].
    by rewrite entry_at_insert_ne by (done || lia).
Qed.

(** A copy of a descriptor gets the lowest number from a minimum on that is free, below
    the limit of the process, and only that number changes; it is refused exactly when every
    number from the minimum up to the limit is in use, and then nothing changes. *)
Lemma duplicate_takes_lowest s pid o min flags :
  0 <= min → has_table s pid →
  match clone_object_with_min_and_flags s pid o min flags with
  | (Ok fd, s') =>
      min <= fd < limit s pid ∧ entry_at (table s pid) fd = None ∧ (∀ k, min <= k < fd → entry_at (table s pid) k ≠ None) ∧
      only_fd s s' pid fd (Some (mkFdEntry o flags false))
  | (Err e, s') =>
      e = ObjectError.TooManyOpenFilesProcess ∧ s' = s ∧ ∀ k, min <= k < limit s pid → entry_at (table s pid) k ≠ None
  end.
Proof.
  intros Hm Hp. unfold clone_object_with_min_and_flags. pose proof (alloc_with_min_spec s pid min Hm Hp) as Ha.
  destruct (alloc_fd_slot_with_min s pid min) as [[fd|e] s1]; [|done]. destruct Ha as (Hr & Hn & Hb & _ & Hp1 & Hl & H1).
  destruct (set_entry_spec s1 pid fd o flags) as (s2 & -> & H2 & _); [lia|done|]. split_and!; try done; try lia. by eapply only_fd_trans.
Qed.
End numbers.

(** ** Tables that are replaced *)

Section replaced.
Context {X : Type} `{Objects X}.
Implicit Types s : Fds X.

Lemma drop_table_procs s tid held : (drop_table s tid held).(fd_procs) = s.(fd_procs) ∧ (drop_table s tid held).(f_ends) = s.(f_ends).
Proof.
  unfold drop_table. destruct (_ =? 0); [|done].
  destruct (drop_entries_tables (with_tables s (delete tid s.(f_tables))) (open_entries (default [] (s.(f_tables) !! tid))) held) as (_ & -> & ->). done.
Qed.

Lemma table_users_zero s tid pid pr : table_users s tid = 0 → s.(fd_procs) !! pid = Some pr → pr.(fp_table) ≠ tid.
Proof.
  intros Hz Hp Ht. unfold table_users, zlen in Hz.
  assert ((pid, pr) ∈ List.filter (λ x : Z * FdProcess, x.2.(fp_table) =? tid) (map_to_list s.(fd_procs))) as Hin.
  { apply list_elem_of_In, filter_In. split; [by apply list_elem_of_In, elem_of_map_to_list|]. cbn. by apply Z.eqb_eq. }
  destruct (List.filter _ _); [by apply elem_of_nil in Hin|cbn in Hz; lia].
Qed.

(** A table that a process uses stays. *)
Lemma drop_table_keeps s tid held pid pr :
  s.(fd_procs) !! pid = Some pr → (drop_table s tid held).(f_tables) !! pr.(fp_table) = s.(f_tables) !! pr.(fp_table).
Proof.
  intros Hp. unfold drop_table. destruct (table_users s tid =? 0) eqn:Hz; [|done]. apply Z.eqb_eq in Hz.
  destruct (drop_entries_tables (with_tables s (delete tid s.(f_tables))) (open_entries (default [] (s.(f_tables) !! tid))) held) as (-> & _ & _).
  cbn. rewrite lookup_delete_ne; [done|]. intros ->. by apply (table_users_zero s pr.(fp_table) pid pr Hz Hp).
Qed.

(** Process [pid] moves to a new table at [fresh]; the others keep theirs. *)
Definition moves_to s s' (pid fresh : Z) (t : FdTable) : Prop :=
  table_id s' pid = fresh ∧ table s' pid = t ∧ has_table s' pid ∧ limit s' pid = limit s pid ∧
  ∀ q, q ≠ pid → has_table s q → table s' q = table s q ∧ table_id s' q = table_id s q ∧ has_table s' q.

Lemma move_to_table s0 s pid fresh t held :
  has_table s0 pid → s0.(f_tables) !! fresh = None → same_tables s0 s →
  moves_to s0 (drop_table (use_table (with_tables s (<[fresh := t]> s.(f_tables))) pid fresh) (table_id s0 pid) held) pid fresh t.
Proof.
  intros (pr & t0 & Hp & Ht0) Hfresh (Ht & Hpr & _). set (s1 := use_table _ pid fresh). set (s' := drop_table s1 _ held).
  destruct (drop_table_procs s1 (table_id s0 pid) held) as [Hprocs _]. fold s' in Hprocs.
  assert (s1.(fd_procs) !! pid = Some (mkFdProcess fresh pr.(rlimit_nofile_cur))) as H1 by (unfold s1; cbn; by rewrite lookup_alter_eq, Hpr, Hp).
  pose proof (drop_table_keeps s1 (table_id s0 pid) held pid _ H1) as Hk. fold s' in Hk. cbn in Hk. rewrite lookup_insert_eq in Hk.
  split_and!.
  - unfold table_id. by rewrite Hprocs, H1.
  - unfold table, table_id. rewrite Hprocs, H1. cbn. by rewrite Hk.
  - eexists _, t. rewrite Hprocs. split; [exact H1|]. exact Hk.
  - unfold limit. by rewrite Hprocs, H1, Hp.
  - intros q Hne (qr & qt & Hq & Hqt). assert (s1.(fd_procs) !! q = Some qr) as H2 by (unfold s1; cbn; by rewrite lookup_alter_ne, Hpr).
    pose proof (drop_table_keeps s1 (table_id s0 pid) held q _ H2) as Hk2. fold s' in Hk2. cbn in Hk2.
    rewrite lookup_insert_ne in Hk2 by congruence. rewrite Ht, Hqt in Hk2.
    split_and!; [unfold table, table_id; by rewrite Hprocs, H2, Hq, Hk2, Hqt|unfold table_id; by rewrite Hprocs, H2, Hq|]. exists qr, qt. by rewrite Hprocs, H2, Hk2.
Qed.

Lemma unshare_moves s pid fresh : has_table s pid → s.(f_tables) !! fresh = None → moves_to s (unshare_fd_table s pid fresh) pid fresh (table s pid).
Proof. intros Hp Hf. unfold unshare_fd_table. apply move_to_table; [done|done|apply clone_entries_tables]. Qed.

Lemma moves_same s s1 s2 pid fresh t : moves_to s s1 pid fresh t → same_tables s1 s2 → moves_to s s2 pid fresh t.
Proof.
  intros (A & B & C & D & E) Hs. destruct (same_table_of s1 s2 pid Hs) as (Ht & Hid & Hl).
  split_and!; [congruence|congruence|by eapply has_table_same|congruence|].
  intros q Hne Hq. destruct (E q Hne Hq) as (E1 & E2 & E3). destruct (same_table_of s1 s2 q Hs) as (Ht' & Hid' & _).
  split_and!; [congruence|congruence|by eapply has_table_same].
Qed.

Lemma keep_lookup t k : entry_at (map keep_fd t) k = keep_fd (entry_at t k).
Proof. unfold entry_at. rewrite list_lookup_fmap. by destruct (t !! Z.to_nat k) as [[e|]|]. Qed.

(** The three first descriptors. *)
Definition std_fd (default_tty : Z) (k : Z) (e : option FdEntry) : option FdEntry :=
  match e with Some e => Some e | None => if k <? 3 then Some (mkFdEntry default_tty 0 false) else None end.

Lemma init_step s t tty i : 0 <= i < zlen t →
  ∃ t' s', (match t !! Z.to_nat i with
            | Some None => let '(e, s) := entry_new s tty 0 false in (<[Z.to_nat i := Some e]> t, s)
            | _ => (t, s)
            end) = (t', s') ∧ same_tables s s' ∧ zlen t' = zlen t ∧
    ∀ k, 0 <= k → entry_at t' k = if decide (k = i) then std_fd tty 0 (entry_at t k) else entry_at t k.
Proof.
  intros Hi. destruct (t !! Z.to_nat i) as [[e|]|] eqn:He.
  - exists t, s. split_and!; try done. intros k Hk. destruct (decide (k = i)) as [->|]; [|done]. unfold entry_at. by rewrite He.
  - eexists _, _. split; [reflexivity|]. split_and!; [apply new_reference_tables|unfold zlen; by rewrite length_insert|].
    intros k Hk. destruct (decide (k = i)) as [->|Hne].
    + rewrite entry_at_insert by done. unfold entry_at. by rewrite He.
    + by rewrite entry_at_insert_ne by lia.
  - apply lookup_ge_None in He. unfold zlen in Hi. lia.
Qed.

Lemma init_objects_spec s t tty : same_tables s (init_objects s t tty).2 ∧
  ∀ k, 0 <= k → entry_at (init_objects s t tty).1 k = std_fd tty k (entry_at t k).
Proof.
  unfold init_objects. set (g := grow t 3). assert (3 <= zlen g) as Hlen by (destruct (grow_length t 3); unfold g; lia). cbn [seq foldl].
  destruct (init_step s g tty 0) as (t1 & s1 & H1 & S1 & L1 & E1); [lia|]. change (Z.to_nat 0) with 0%nat in H1. rewrite H1.
  destruct (init_step s1 t1 tty 1) as (t2 & s2 & H2 & S2 & L2 & E2); [lia|]. change (Z.to_nat 1) with 1%nat in H2. rewrite H2.
  destruct (init_step s2 t2 tty 2) as (t3 & s3 & H3 & S3 & L3 & E3); [lia|]. change (Z.to_nat 2) with 2%nat in H3. rewrite H3. cbn [fst snd].
  split; [by do 2 (eapply same_tables_trans; [eassumption|])|]. intros k Hk. rewrite E3, E2, E1 by done. unfold g. rewrite entry_at_grow. unfold std_fd.
  destruct (entry_at t k); [by repeat case_decide|]. destruct (k <? 3) eqn:Hk3; [apply Z.ltb_lt in Hk3|apply Z.ltb_ge in Hk3]; repeat case_decide; (done || lia).
Qed.

(** After an exec the process has exactly the descriptors that are not marked to be
    closed, under their numbers, and the default terminal at the missing ones of the first
    three; no other process, and none that shared the table, sees a change. *)
Lemma exec_keeps_unmarked s pid fresh tty :
  has_table s pid → s.(f_tables) !! fresh = None →
  let s' := execve_fd_table s pid fresh tty in
  (∀ k, 0 <= k → entry_at (table s' pid) k = std_fd tty k (keep_fd (entry_at (table s pid) k))) ∧
  (∀ q, q ≠ pid → has_table s q → table s' q = table s q).
Proof.
  intros Hp Hf. cbv zeta. set (s1 := clone_entries s (table s pid)).
  assert (same_tables s s1) as H1 by apply clone_entries_tables. destruct (same_table_of s s1 pid H1) as (Ht1 & Hid1 & _).
  set (kept := map keep_fd (table s pid)). destruct (init_objects_spec s1 kept tty) as [H2 He].
  assert (moves_to s (execve_fd_table s pid fresh tty) pid fresh (init_objects s1 kept tty).1) as (_ & Hts & _ & _ & Hq).
  { unfold execve_fd_table, close_cloexec_fd_entries. fold s1. rewrite Ht1. fold kept. destruct (init_objects s1 kept tty) as [t s2]. cbn [fst snd] in *.
    eapply moves_same; [|apply release_entries_tables]. apply move_to_table; [done|done|]. by eapply same_tables_trans. }
  split; [|intros q Hne Hqt; by apply Hq]. intros k Hk. rewrite Hts, He by done. unfold kept. by rewrite keep_lookup.
Qed.

Lemma entry_at_imap (f : nat → option FdEntry → option FdEntry) t k : (∀ i, f i None = None) → 0 <= k →
  entry_at (imap f t) k = f (Z.to_nat k) (entry_at t k).
Proof. intros Hn Hk. unfold entry_at. rewrite list_lookup_imap. destruct (t !! Z.to_nat k) as [[e|]|]; cbn; [done|by rewrite Hn..]. Qed.

(** What close_range does to one descriptor. *)
Definition range_fd (first last flags k : Z) (e : option FdEntry) : option FdEntry :=
  if (first <=? k) && (k <=? last) then
    if flag_set flags CLOSE_RANGE_CLOEXEC then (λ e, with_fd_flags e FD_CLOEXEC) <$> e else None
  else e.

(** close_range closes, or marks, exactly the descriptors of its range, also when the
    range goes beyond the table; with CLOSE_RANGE_UNSHARE no other process sees a change,
    without it those that share the table do; a range that ends before it starts and an
    unknown flag are refused and change nothing. *)
Lemma close_range_exact s pid first last flags fresh :
  has_table s pid → s.(f_tables) !! fresh = None → 0 <= first → 0 <= last →
  match close_range s pid first last flags fresh with
  | (Ok v, s') =>
      v = 0 ∧ first <= last ∧
      (∀ k, 0 <= k → entry_at (table s' pid) k = range_fd first last flags k (entry_at (table s pid) k)) ∧
      (∀ q, q ≠ pid → has_table s q → table_id s q ≠ table_id s pid ∨ flag_set flags CLOSE_RANGE_UNSHARE = true → table s' q = table s q)
  | (Err e, s') => e = SyscallError.InvalidArguments ∧ s' = s ∧ (last < first ∨ Z.land flags (Z.lnot 6) ≠ 0)
  end.
Proof.
  intros Hp Hf Hfirst Hlast. unfold close_range. destruct (last <? first) eqn:Hlf; [apply Z.ltb_lt in Hlf; auto|]. apply Z.ltb_ge in Hlf.
  change (Z.lor CLOSE_RANGE_UNSHARE CLOSE_RANGE_CLOEXEC) with 6. destruct (Z.land flags (Z.lnot 6) =? 0) eqn:Hfl; cbn [negb]; [|apply Z.eqb_neq in Hfl; auto].
  set (s1 := if flag_set flags CLOSE_RANGE_UNSHARE then _ else s).
  assert (has_table s1 pid ∧ table s1 pid = table s pid ∧
    ∀ q, q ≠ pid → has_table s q → table_id s q ≠ table_id s pid ∨ flag_set flags CLOSE_RANGE_UNSHARE = true →
      table s1 q = table s q ∧ table_id s1 q ≠ table_id s1 pid) as (Hp1 & Ht1 & Hq1).
  { unfold s1. destruct (flag_set flags CLOSE_RANGE_UNSHARE).
    - destruct (unshare_moves s pid fresh Hp Hf) as (A & B & C & _ & E). split_and!; [done|done|]. intros q Hne Hq _.
      destruct (E q Hne Hq) as (E1 & E2 & _). split; [done|]. rewrite E2, A. destruct Hq as (qr & qt & Hq & Hqt). unfold table_id. rewrite Hq. congruence.
    - split_and!; [done|done|]. intros q _ _ [Hne|]; done. }
  rewrite Ht1. set (t := table s pid).
  assert (∀ t' s2, same_tables (with_table s1 pid t') s2 → (∀ k, 0 <= k → entry_at t' k = range_fd first last flags k (entry_at t k)) →
    (∀ k, 0 <= k → entry_at (table s2 pid) k = range_fd first last flags k (entry_at t k)) ∧
    (∀ q, q ≠ pid → has_table s q → table_id s q ≠ table_id s pid ∨ flag_set flags CLOSE_RANGE_UNSHARE = true → table s2 q = table s q)) as Hend.
  { intros t' s2 Hs Ht'. destruct (same_table_of _ s2 pid Hs) as (Ht2 & _). destruct (table_with_table s1 pid t' Hp1) as [Hw _]. split.
    - intros k Hk. rewrite Ht2, Hw. by apply Ht'.
    - intros q Hne Hq Hd. destruct (Hq1 q Hne Hq Hd) as [Hqt Hid]. destruct (same_table_of _ s2 q Hs) as (-> & _). rewrite <- Hqt.
      unfold table, with_table. cbn. change (table_id (with_tables s1 _) q) with (table_id s1 q). by rewrite lookup_insert_ne. }
  destruct (zlen t <=? first) eqn:Hlen.
  - apply Z.leb_le in Hlen. split_and!; [done|done| |].
    + intros k Hk. rewrite Ht1. fold t. unfold range_fd. destruct ((first <=? k) && (k <=? last)) eqn:Hin; [|done]. apply andb_true_iff in Hin as [?%Z.leb_le ?].
      rewrite entry_at_out by lia. by destruct (flag_set flags CLOSE_RANGE_CLOEXEC).
    + intros q Hne Hq Hd. by apply Hq1.
  - apply Z.leb_gt in Hlen. set (last' := Z.min last (sat_sub (zlen t) 1)).
    assert (∀ k e, 0 <= k → e = entry_at t k → e ≠ None → in_range_fd first last' (Z.to_nat k) = ((first <=? k) && (k <=? last))) as Hin.
    { intros k e Hk -> Hs. assert (k < zlen t) by (destruct (Z.lt_ge_cases k (zlen t)); [done|]; by rewrite entry_at_out in Hs).
      unfold in_range_fd. rewrite Z2Nat.id by done. f_equal. unfold last', sat_sub. destruct (k <=? last) eqn:Hkl; [apply Z.leb_le in Hkl; apply Z.leb_le; lia|apply Z.leb_gt in Hkl; apply Z.leb_gt; lia]. }
    destruct (flag_set flags CLOSE_RANGE_CLOEXEC) eqn:Hcl.
    + destruct (Hend (mark_range first last' t) (with_table s1 pid (mark_range first last' t))) as [E1 E2]; [done| |split_and!; done].
      intros k Hk. unfold mark_range. rewrite entry_at_imap by (done || intros; by case_match). unfold range_fd. rewrite Hcl.
      destruct (entry_at t k) as [e|] eqn:He; [by rewrite (Hin k (Some e))|by repeat case_match].
    + cbn [take_range]. set (closed := omap _ _). set (t' := imap _ _). destruct (Hend t' (release_entries (with_table s1 pid t') {[pid]} ∅ pid closed [])) as [E1 E2];
        [apply release_entries_tables| |split_and!; done].
      intros k Hk. unfold t'. rewrite entry_at_imap by (done || intros; by case_match). unfold range_fd. rewrite Hcl.
      destruct (entry_at t k) as [e|] eqn:He; [by rewrite (Hin k (Some e))|by repeat case_match].
Qed.
End replaced.

(** ** Readers and writers of a pipe are its descriptors *)

Definition side (k : PipeEndpointKind) (p : Pipe) : Z :=
  match k with PipeEndpointKind.Read => p.(state).(readers) | PipeEndpointKind.Write => p.(state).(writers) end.

Definition refers (ends : gmap Z (Z * PipeEndpointKind)) (p : Z) (k : PipeEndpointKind) (e : FdEntry) : bool :=
  bool_decide (ends !! e.(entry_object) = Some (p, k)).

Definition count_refs (ends : gmap Z (Z * PipeEndpointKind)) (p : Z) (k : PipeEndpointKind) (es : list FdEntry) : Z :=
  zlen (List.filter (refers ends p k) es).

Definition entries_of (m : gmap Z FdTable) : list FdEntry := concat (map (λ x : Z * FdTable, open_entries x.2) (map_to_list m)).

#[export] Instance open_filter_perm {A} (f : A → bool) : Proper ((≡ₚ) ==> (≡ₚ)) (List.filter f).
Proof.
  intros l1 l2 Hp. induction Hp; cbn; [done|by destruct (f x); [constructor|]|destruct (f x), (f y); try done; apply perm_swap|by etrans].
Qed.

#[export] Instance count_refs_perm ends p k : Proper ((≡ₚ) ==> (=)) (count_refs ends p k).
Proof. intros l1 l2 Hp. unfold count_refs, zlen. by rewrite Hp. Qed.

Lemma count_refs_app ends p k l1 l2 : count_refs ends p k (l1 ++ l2) = count_refs ends p k l1 + count_refs ends p k l2.
Proof. unfold count_refs, zlen. rewrite List.filter_app, length_app. lia. Qed.

Lemma count_refs_cons ends p k e l : count_refs ends p k (e :: l) = (if refers ends p k e then 1 else 0) + count_refs ends p k l.
Proof. unfold count_refs, zlen. cbn. destruct (refers ends p k e); cbn [length]; lia. Qed.

Lemma count_refs_nonneg ends p k l : 0 <= count_refs ends p k l.
Proof. unfold count_refs, zlen. lia. Qed.

Lemma entries_of_delete m tid t : m !! tid = Some t → entries_of m ≡ₚ open_entries t ++ entries_of (delete tid m).
Proof. intros Ht. unfold entries_of. rewrite <- (map_to_list_delete m tid t Ht). done. Qed.

Lemma entries_of_insert m tid t : entries_of (<[tid := t]> m) ≡ₚ open_entries t ++ entries_of (delete tid m).
Proof. rewrite (entries_of_delete _ tid t) by apply lookup_insert_eq. by rewrite delete_insert_eq. Qed.

Section pipes.
Context {X : Type} `{Objects X}.
Implicit Types s : Fds X.

(** Every pipe counts the descriptors of its ends, in the tables and in [extra]. *)
Definition counted s (extra : list FdEntry) : Prop :=
  ∀ p pipe k, s.(f_pipes) !! p = Some pipe → side k pipe = count_refs s.(f_ends) p k (entries_of s.(f_tables) ++ extra).

Lemma counted_perm s s' extra extra' :
  s'.(f_pipes) = s.(f_pipes) → s'.(f_ends) = s.(f_ends) →
  entries_of s'.(f_tables) ++ extra' ≡ₚ entries_of s.(f_tables) ++ extra → counted s extra → counted s' extra'.
Proof. intros Hp He Hperm Hc p pipe k. rewrite Hp, He. intros Hpipe. rewrite Hperm. by apply Hc. Qed.

Lemma counted_extra s l1 l2 : l1 ≡ₚ l2 → counted s l1 → counted s l2.
Proof. intros Hp. apply counted_perm; [done|done|by rewrite Hp]. Qed.

Lemma side_clone k k' p : side k' (clone_fd_reference k p) = side k' p + (if decide (k' = k) then 1 else 0).
Proof. destruct k, k'; cbn; repeat case_decide; (congruence || lia). Qed.

Lemma side_close k k' p : 0 < side k p → side k' (close_fd_reference k p) = side k' p - (if decide (k' = k) then 1 else 0).
Proof.
  destruct k; unfold close_fd_reference; intros Hpos; cbn in Hpos.
  - set (q := with_state p _). assert (side k' q = side k' p - (if decide (k' = PipeEndpointKind.Read) then 1 else 0)) as Hq
      by (destruct k'; cbn; unfold sat_sub; repeat case_decide; (congruence || lia)).
    destruct (_ =? 0); [|done]. rewrite <- Hq. unfold wake_blocked_writers, wake_writers. destruct k'; by repeat case_match.
  - set (q := with_state p _). assert (side k' q = side k' p - (if decide (k' = PipeEndpointKind.Write) then 1 else 0)) as Hq
      by (destruct k'; cbn; unfold sat_sub; repeat case_decide; (congruence || lia)).
    destruct (_ =? 0); [|done]. rewrite <- Hq. unfold wake_readers. destruct k'; by repeat case_match.
Qed.

Lemma counted_new s extra e : counted s extra → counted (new_pipe_reference s e.(entry_object)) (e :: extra).
Proof.
  intros Hc p pipe k. unfold new_pipe_reference. destruct (f_ends s !! entry_object e) as [[q j]|] eqn:He; cbn [f_pipes f_ends f_tables with_pipes].
  - intros Hp. rewrite <- Permutation_middle, count_refs_cons. unfold refers. rewrite He. destruct (decide (p = q)) as [->|Hne].
    + rewrite lookup_alter_eq in Hp. apply fmap_Some in Hp as (pipe0 & Hp0 & ->). rewrite side_clone, (Hc q pipe0 k Hp0).
      rewrite Z.add_comm. f_equal. destruct (decide (k = j)) as [->|Hkj]; [by rewrite bool_decide_eq_true_2|]. rewrite bool_decide_eq_false_2; [done|congruence].
    + rewrite lookup_alter_ne in Hp by done. rewrite (Hc p pipe k Hp). by rewrite bool_decide_eq_false_2 by congruence.
  - intros Hp. rewrite <- Permutation_middle, count_refs_cons. unfold refers. rewrite He. by rewrite (Hc p pipe k Hp).
Qed.

Lemma counted_drop_reference s extra e : counted s (e :: extra) → counted (drop_pipe_reference s e.(entry_object)) extra.
Proof.
  intros Hc p pipe k. unfold drop_pipe_reference. destruct (f_ends s !! entry_object e) as [[q j]|] eqn:He; cbn [f_pipes f_ends f_tables with_pipes].
  - intros Hp. destruct (decide (p = q)) as [->|Hne].
    + rewrite lookup_alter_eq in Hp. apply fmap_Some in Hp as (pipe0 & Hp0 & ->).
      assert (∀ k, side k pipe0 = (if decide (k = j) then 1 else 0) + count_refs (f_ends s) q k (entries_of (f_tables s) ++ extra)) as Hs.
      { intros k0. rewrite (Hc q pipe0 k0 Hp0), <- Permutation_middle, count_refs_cons. unfold refers. rewrite He. f_equal.
        destruct (decide (k0 = j)) as [->|]; [by rewrite bool_decide_eq_true_2|]. rewrite bool_decide_eq_false_2; [done|congruence]. }
      rewrite side_close; [rewrite Hs; lia|]. rewrite Hs. rewrite decide_True by done.
      pose proof (count_refs_nonneg (f_ends s) q j (entries_of (f_tables s) ++ extra)). lia.
    + rewrite lookup_alter_ne in Hp by done. rewrite (Hc p pipe k Hp), <- Permutation_middle, count_refs_cons. unfold refers. rewrite He.
      by rewrite bool_decide_eq_false_2 by congruence.
  - intros Hp. rewrite (Hc p pipe k Hp), <- Permutation_middle, count_refs_cons. unfold refers. by rewrite He.
Qed.

Lemma counted_drop_object s held o extra : counted s extra → counted (drop_object s held o) extra.
Proof.
  intros Hc. unfold drop_object. destruct (_ =? 0); [|done]. destruct (f_ends s !! o) as [[q j]|]; [|done].
  intros p pipe k. cbn. destruct (decide (p = q)) as [->|Hne]; [|rewrite lookup_alter_ne by done; apply Hc].
  rewrite lookup_alter_eq. intros (pipe0 & Hp0 & ->)%fmap_Some. rewrite <- (Hc q pipe0 k Hp0). by destruct k, j.
Qed.

Lemma counted_drop s held e extra : counted s (e :: extra) → counted (drop_entry s held e) extra.
Proof. intros Hc. unfold drop_entry. by apply counted_drop_object, counted_drop_reference. Qed.

Lemma counted_release_resources s locked tlocked held pid e extra : counted s extra → counted (release_fd_entry_resources s locked tlocked held pid e) extra.
Proof. intros Hc. unfold release_fd_entry_resources, release_fcntl_object_state. by destruct (_ && _). Qed.

Lemma counted_release_entries s locked tlocked pid es held extra : counted s (es ++ extra) → counted (release_entries s locked tlocked pid es held) extra.
Proof.
  revert s. induction es as [|e es IH]; intros s Hc; [done|]. cbn. apply IH. apply counted_drop. by apply counted_release_resources.
Qed.

Lemma counted_drop_entries s es held extra : counted s (es ++ extra) → counted (drop_entries s es held) extra.
Proof. revert s. induction es as [|e es IH]; intros s Hc; [done|]. cbn. apply IH. by apply counted_drop. Qed.

Lemma counted_clone_entries s t extra : counted s extra → counted (clone_entries s t) (open_entries t ++ extra).
Proof.
  unfold clone_entries. generalize (open_entries t). intros es. revert s extra. induction es as [|e es IH]; intros s extra Hc; [done|]. cbn.
  apply (counted_extra _ (es ++ e :: extra)); [by rewrite Permutation_middle|]. by apply IH, counted_new.
Qed.

(** The table of a process replaced: entries that leave it are in flight, and the others way. *)
Lemma counted_with_table s pid t extra extra' :
  has_table s pid → open_entries t ++ extra' ≡ₚ open_entries (table s pid) ++ extra → counted s extra → counted (with_table s pid t) extra'.
Proof.
  intros (pr & t0 & Hp & Ht) Hperm. apply counted_perm; [done|done|]. unfold with_table, table_id in *. unfold table, table_id in Hperm. cbn.
  rewrite Hp in *. rewrite Ht in Hperm. cbn in Hperm. rewrite entries_of_insert, (entries_of_delete _ _ _ Ht).
  rewrite <- !app_assoc, !(Permutation_app_comm (entries_of _)), !app_assoc. by rewrite Hperm.
Qed.

Lemma counted_new_table s tid t extra :
  s.(f_tables) !! tid = None → counted s (open_entries t ++ extra) → counted (with_tables s (<[tid := t]> s.(f_tables))) extra.
Proof.
  intros Hn. apply counted_perm; [done|done|]. cbn. rewrite entries_of_insert, delete_id by done.
  rewrite app_assoc. by rewrite (Permutation_app_comm (open_entries t)).
Qed.

Lemma counted_drop_table s tid held extra : counted s extra → counted (drop_table s tid held) extra.
Proof.
  intros Hc. unfold drop_table. destruct (_ =? 0); [|done]. apply counted_drop_entries. revert Hc. apply counted_perm; [done|done|]. cbn.
  destruct (f_tables s !! tid) as [t|] eqn:Ht; cbn.
  - rewrite (entries_of_delete _ _ _ Ht), app_assoc. by rewrite (Permutation_app_comm (open_entries t)).
  - by rewrite delete_id.
Qed.

Lemma counted_use_table s pid tid extra : counted s extra → counted (use_table s pid tid) extra.
Proof. done. Qed.
End pipes.

Section calls.
Context {X : Type} `{Objects X}.
Implicit Types s : Fds X.

Lemma counted_alloc s pid min : has_table s pid → counted s [] → counted (alloc_fd_slot_with_min s pid min).2 [] ∧ has_table (alloc_fd_slot_with_min s pid min).2 pid.
Proof.
  intros Hp Hc. unfold alloc_fd_slot_with_min. destruct (_ <=? min); [done|]. destruct (find_empty_fd_slot s pid min); [done|].
  destruct (_ <=? min); [|destruct (_ <? _); [|done]]; (split; [|by apply has_table_with]); revert Hc; apply counted_with_table; (done || cbn).
  - by rewrite open_entries_grow.
  - by rewrite open_entries_app, app_nil_r.
Qed.

Lemma counted_set_entry s pid slot o flags : 0 <= slot → has_table s pid → counted s [] → counted (set_fd_entry s pid slot o flags).2 [].
Proof.
  intros Hs Hp Hc. unfold set_fd_entry, set_fd_entry_with_created_by_open. destruct (negb _); [done|].
  set (t := grow (table s pid) (slot + 1)). set (s1 := with_table s pid (<[Z.to_nat slot := None]> t)).
  assert (slot < zlen t) as Hlen by (destruct (grow_length (table s pid) (slot + 1)); unfold t; lia).
  assert (is_Some (t !! Z.to_nat slot)) as [x Hx] by (apply lookup_lt_is_Some; unfold zlen in Hlen; lia).
  assert (entry_at t slot = x) as He by (unfold entry_at; by rewrite Hx).
  assert (counted s1 (option_list x)) as H1.
  { revert Hc. apply counted_with_table; [done|]. rewrite app_nil_r, (Permutation_app_comm _ (option_list x)), <- (open_entries_clear t _ x Hx). apply reflexive_eq, open_entries_grow. }
  set (s2 := match entry_at t slot with Some _ => _ | None => s1 end).
  assert (counted s2 [] ∧ same_tables s1 s2) as [H2 S2].
  { unfold s2. rewrite He. destruct x as [e|]; [|done]. split; [by apply counted_release_entries|apply release_entries_tables]. }
  cbn [entry_new snd]. set (e := mkFdEntry o flags false). set (s3 := new_pipe_reference s2 o).
  assert (counted s3 [e]) as H3 by (by apply (counted_new s2 [] e)).
  assert (same_tables s1 s3) as S3 by (eapply same_tables_trans; [exact S2|apply new_reference_tables]).
  assert (has_table s3 pid) as Hp3 by (eapply has_table_same; [exact S3|by apply has_table_with]).
  destruct (same_table_of s1 s3 pid S3) as (Ht3 & _). destruct (table_with_table s pid (<[Z.to_nat slot := None]> t) Hp) as [Ht1 _]. fold s1 in Ht1.
  revert H3. apply counted_with_table; [done|]. rewrite Ht3, Ht1, app_nil_r. rewrite open_entries_fill; [by rewrite Permutation_cons_append|].
  rewrite list_lookup_insert_eq; [done|]. unfold zlen in Hlen. lia.
Qed.

Lemma counted_clone_object s pid o min flags : 0 <= min → has_table s pid → counted s [] → counted (clone_object_with_min_and_flags s pid o min flags).2 [].
Proof.
  intros Hm Hp Hc. unfold clone_object_with_min_and_flags. destruct (counted_alloc s pid min Hp Hc) as [Ha Hpa].
  pose proof (alloc_with_min_spec s pid min Hm Hp) as Hspec. destruct (alloc_fd_slot_with_min s pid min) as [[slot|e] s1]; [|done].
  apply counted_set_entry; [lia|done|done].
Qed.

Lemma counted_push s pid o flags : has_table s pid → counted s [] → counted (push_object_with_flags s pid o flags).2 [].
Proof.
  intros Hp Hc. unfold push_object_with_flags.
  assert (∀ slot t, t !! slot = Some None → open_entries t = open_entries (table s pid) →
    counted (with_table (new_pipe_reference s o) pid (<[slot := Some (mkFdEntry o flags false)]> t)) []) as Hput.
  { intros slot t Hn Ht. pose proof (counted_new s [] (mkFdEntry o flags false) Hc) as H1. cbn in H1. revert H1.
    destruct (new_reference_tables s o) as (A & B & C). destruct (same_table_of s _ pid (conj A (conj B C))) as (Ht1 & _).
    apply counted_with_table; [eapply has_table_same; [|exact Hp]; done|]. rewrite Ht1, app_nil_r, open_entries_fill by done. rewrite Ht.
    by rewrite Permutation_cons_append. }
  destruct (list_find _ (table s pid)) as [[i e]|] eqn:Hf; cbn [entry_new snd].
  - apply list_find_Some in Hf as (Hi & -> & _). rewrite Nat2Z.id. by apply Hput.
  - apply Hput; [|by rewrite open_entries_app, app_nil_r]. unfold zlen. rewrite Nat2Z.id. rewrite lookup_app_r by lia. by rewrite Nat.sub_diag.
Qed.

Lemma counted_clear s pid fd : has_table s pid → counted s [] → counted (clear_fd_slot s pid fd).2 [].
Proof.
  intros Hp Hc. unfold clear_fd_slot. destruct (entry_at (table s pid) fd) as [e|] eqn:He; [|done]. cbn [snd]. apply counted_release_entries.
  revert Hc. apply counted_with_table; [done|]. unfold entry_at in He. apply bind_Some in He as (x & Hx & Hid). cbn in Hid. subst x.
  rewrite app_nil_r, (open_entries_clear _ _ _ Hx). cbn. by rewrite <- Permutation_middle, app_nil_r.
Qed.

Lemma counted_set_flags s pid fd flags : has_table s pid → counted s [] → counted (set_fd_flags s pid fd flags).2 [].
Proof.
  intros Hp Hc p pipe k. unfold set_fd_flags. destruct (entry_at (table s pid) fd) as [e|] eqn:He; [|apply Hc]. cbn [snd].
  unfold entry_at in He. apply bind_Some in He as (x & Hx & Hid). cbn in Hid. subst x. destruct Hp as (pr & t & Hpr & Ht).
  unfold with_table, table, table_id in *. cbn. rewrite Hpr in *. rewrite Ht in *. cbn in *. intros Hpipe. rewrite (Hc p pipe k Hpipe), !app_nil_r.
  rewrite entries_of_insert, (entries_of_delete _ _ _ Ht), !count_refs_app. f_equal.
  rewrite (open_entries_clear t _ _ Hx). cbn. rewrite count_refs_cons.
  assert (open_entries (<[Z.to_nat fd := Some (with_fd_flags e flags)]> t) ≡ₚ with_fd_flags e flags :: open_entries (<[Z.to_nat fd := None]> t)) as ->.
  { rewrite <- (list_insert_insert_eq t (Z.to_nat fd) (Some (with_fd_flags e flags)) None). apply open_entries_fill. apply list_lookup_insert_eq. by eapply lookup_lt_Some. }
  by rewrite count_refs_cons.
Qed.

Lemma take_keep_perm t : open_entries (map keep_fd t) ++ List.filter is_cloexec (open_entries t) ≡ₚ open_entries t.
Proof.
  induction t as [|[e|] t IH]; [done| |done]. cbn. destruct (is_cloexec e); cbn; [|by rewrite IH]. rewrite <- Permutation_middle. by rewrite IH.
Qed.

Lemma counted_init_objects s t tty extra : counted s (open_entries t ++ extra) →
  counted (init_objects s t tty).2 (open_entries (init_objects s t tty).1 ++ extra).
Proof.
  intros Hc. unfold init_objects. rewrite <- (open_entries_grow t 3) in Hc. revert Hc. generalize (grow t 3). generalize (seq 0 3). clear t.
  intros l. revert s. induction l as [|i l IH]; intros s t Hc; [done|]. cbn [foldl]. destruct (t !! i) as [[e|]|] eqn:Hi; [by apply IH| |by apply IH].
  cbn [entry_new]. apply IH. set (e := mkFdEntry tty 0 false). apply (counted_extra _ (e :: open_entries t ++ extra)); [|by apply (counted_new s _ e)].
  by rewrite (open_entries_fill t i e Hi).
Qed.

Lemma take_range_perm first last t : open_entries (take_range first last t).2 ++ (take_range first last t).1 ≡ₚ open_entries t.
Proof.
  unfold take_range. cbn [fst snd]. set (f := λ n e, if in_range_fd first last n then None else e). set (g := λ x : nat * option FdEntry, if in_range_fd first last x.1 then x.2 else None).
  enough (∀ n, open_entries (imap (λ i e, f (n + i)%nat e) t) ++ omap g (imap (λ i e, (n + i, e)%nat) t) ≡ₚ open_entries t) as Hn by (apply (Hn 0%nat)).
  induction t as [|x t IH]; intros n; [done|]. cbn [imap]. specialize (IH (S n)).
  assert (imap ((λ i e, f (n + i)%nat e) ∘ S) t = imap (λ i e, f (S n + i)%nat e) t) as -> by (apply imap_ext; intros i e _; cbn; f_equal; lia).
  assert (imap ((λ i (e : option FdEntry), (n + i, e)%nat) ∘ S) t = imap (λ i e, (S n + i, e)%nat) t) as -> by (apply imap_ext; intros i e _; cbn; do 2 f_equal; lia).
  unfold open_entries in *. cbn. unfold f at 1, g at 1. cbn. destruct (in_range_fd first last (n + 0)), x as [e|]; cbn; rewrite ?IH; try done.
  by rewrite <- Permutation_middle, IH.
Qed.

Lemma mark_range_refs ends p k first last t : count_refs ends p k (open_entries (mark_range first last t)) = count_refs ends p k (open_entries t).
Proof.
  unfold mark_range. generalize (in_range_fd first last). intros f. revert f. induction t as [|x t IH]; intros f; [done|]. cbn.
  unfold open_entries in *. specialize (IH (f ∘ S)). destruct x as [e|], (f 0%nat); cbn; rewrite ?count_refs_cons; rewrite <- IH; done.
Qed.

Lemma counted_unshare s pid fresh : has_table s pid → s.(f_tables) !! fresh = None → counted s [] → counted (unshare_fd_table s pid fresh) [].
Proof.
  intros Hp Hf Hc. unfold unshare_fd_table. apply counted_drop_table, counted_use_table. set (s1 := clone_entries s (table s pid)).
  destruct (clone_entries_tables s (table s pid)) as (A & _). fold s1 in A. apply counted_new_table; [by rewrite A|].
  by apply counted_clone_entries.
Qed.

Lemma counted_close_range s pid first last flags fresh :
  has_table s pid → s.(f_tables) !! fresh = None → counted s [] → counted (close_range s pid first last flags fresh).2 [].
Proof.
  intros Hp Hf Hc. unfold close_range. destruct (last <? first); [done|]. destruct (negb _); [done|].
  set (s1 := if flag_set flags CLOSE_RANGE_UNSHARE then _ else s).
  assert (has_table s1 pid ∧ counted s1 []) as [Hp1 Hc1].
  { unfold s1. destruct (flag_set _ _); [|done]. split; [by destruct (unshare_moves s pid fresh Hp Hf) as (_ & _ & ? & _)|by apply counted_unshare]. }
  destruct (_ <=? first); [done|]. set (last' := Z.min _ _). destruct (flag_set flags CLOSE_RANGE_CLOEXEC); cbn [snd].
  - intros p pipe k Hpipe. destruct Hp1 as (pr & t & Hpr & Ht).
    assert (table_id s1 pid = pr.(fp_table)) as Hid by (unfold table_id; by rewrite Hpr).
    assert (table s1 pid = t) as Htab by (unfold table; by rewrite Hid, Ht). unfold with_table. rewrite Hid, Htab. cbn [f_tables f_ends f_pipes with_tables].
    rewrite (Hc1 p pipe k Hpipe), !app_nil_r, entries_of_insert, (entries_of_delete _ _ _ Ht), !count_refs_app. f_equal. by rewrite mark_range_refs.
  - apply (counted_release_entries _ _ _ pid (take_range first last' (table s1 pid)).1 [] []). revert Hc1. apply counted_with_table; [done|].
    rewrite !app_nil_r. apply (take_range_perm first last').
Qed.

Lemma counted_exec s pid fresh tty : has_table s pid → s.(f_tables) !! fresh = None → counted s [] → counted (execve_fd_table s pid fresh tty) [].
Proof.
  intros Hp Hf Hc. unfold execve_fd_table, close_cloexec_fd_entries. set (s1 := clone_entries s (table s pid)).
  pose proof (clone_entries_tables s (table s pid)) as S1. fold s1 in S1. destruct (same_table_of s s1 pid S1) as (Ht1 & _). rewrite Ht1.
  set (closed := List.filter is_cloexec (open_entries (table s pid))). set (kept := map keep_fd (table s pid)).
  assert (counted s1 (open_entries kept ++ closed)) as H1.
  { apply (counted_extra _ (open_entries (table s pid) ++ [])); [rewrite app_nil_r; symmetry; apply take_keep_perm|by apply counted_clone_entries]. }
  pose proof (counted_init_objects s1 kept tty closed H1) as H2. destruct (init_objects_spec s1 kept tty) as [S2 _].
  destruct (init_objects s1 kept tty) as [t s2]. cbn [fst snd] in *. apply counted_release_entries. rewrite app_nil_r.
  apply counted_drop_table, counted_use_table, counted_new_table; [|done]. destruct S1 as (A & _), S2 as (B & _). by rewrite B, A.
Qed.

Lemma counted_close_all s pid fresh : has_table s pid → s.(f_tables) !! fresh = None → counted s [] → counted (close_all_fds s pid fresh) [].
Proof.
  intros Hp Hf Hc. unfold close_all_fds. apply counted_drop_table, counted_use_table. set (s1 := if _ <? _ then _ else _).
  assert (counted s1 [] ∧ s1.(f_tables) !! fresh = None) as [H1 F1]; [|by apply counted_new_table].
  assert (table_id s pid ≠ fresh) as Hne by (destruct Hp as (pr & t & Hpr & Ht); unfold table_id; rewrite Hpr; congruence).
  unfold s1. destruct (1 <? _).
  - set (s2 := clone_entries s (table s pid)). pose proof (clone_entries_tables s (table s pid)) as (S2 & _). fold s2 in S2.
    set (held := concat _). set (s3 := with_locks s2 _). set (es := open_entries (table s pid)).
    assert (∀ l s', counted s' es → s'.(f_tables) !! fresh = None →
      let s'' := foldl (λ s e, release_fcntl_object_state s {[pid]} ∅ held e.(entry_object)) s' l in counted s'' es ∧ s''.(f_tables) !! fresh = None) as Hl.
    { induction l as [|e l IH]; intros s' Hs' Hf'; [done|]. cbn. apply IH; unfold release_fcntl_object_state; by destruct (_ && _). }
    assert (counted s2 es) as H2 by (apply (counted_extra _ (es ++ [])); [by rewrite app_nil_r|by apply counted_clone_entries]).
    destruct (Hl es s3) as [H4 F4]; [done|unfold s3; cbn; by rewrite S2|]. split; [apply counted_drop_entries; by rewrite app_nil_r|].
    by destruct (drop_entries_tables (foldl (λ s e, release_fcntl_object_state s {[pid]} ∅ held e.(entry_object)) s3 es) es []) as (-> & _).
  - split.
    + apply counted_release_entries. rewrite app_nil_r. revert Hc. apply counted_with_table; [done|]. cbn. by rewrite app_nil_r.
    + destruct (release_entries_tables (with_table s pid []) {[pid]} ∅ pid (open_entries (table s pid)) []) as (-> & _). unfold with_table. cbn. by rewrite lookup_insert_ne.
Qed.

Lemma counted_fork s parent child fresh share : has_table s parent → s.(f_tables) !! fresh = None → counted s [] → counted (fork_fd_table s parent child fresh share) [].
Proof.
  intros Hp Hf Hc. unfold fork_fd_table. destruct (fd_procs s !! parent); [|done]. destruct share; [done|].
  destruct (clone_entries_tables s (table s parent)) as (S2 & _).
  apply (counted_new_table (clone_entries s (table s parent)) fresh (table s parent) []); [by rewrite S2|by apply counted_clone_entries].
Qed.
End calls.

Section reachable.
Context {X M : Type} `{Objects X} `{um_pair : UserMemory M (Z * Z)}.
Implicit Types s : Fds X.

Record fds_ok s : Prop := {
  ok_counted : counted s [];
  ok_tables pid : is_Some (s.(fd_procs) !! pid) → has_table s pid;
}.

(** Every process still has a table. *)
Definition keeps_tables s s' : Prop := ∀ q, is_Some (s'.(fd_procs) !! q) → is_Some (s.(fd_procs) !! q) ∧ (has_table s q → has_table s' q).

Lemma keeps_ok s s' : keeps_tables s s' → counted s' [] → fds_ok s → fds_ok s'.
Proof. intros Hk Hc [_ Ht]. split; [done|]. intros pid Hp. destruct (Hk pid Hp) as [H1 H2]. by apply H2, Ht. Qed.

Lemma keeps_refl s : keeps_tables s s.
Proof. done. Qed.

Lemma keeps_trans s1 s2 s3 : keeps_tables s1 s2 → keeps_tables s2 s3 → keeps_tables s1 s3.
Proof. intros H12 H23 q Hq. destruct (H23 q Hq) as [H2 T2]. destruct (H12 q H2) as [H1 T1]. split; [done|auto]. Qed.

Lemma keeps_same s s' : same_tables s s' → keeps_tables s s'.
Proof. intros Hs q Hq. split; [by destruct Hs as (_ & <- & _)|by apply has_table_same]. Qed.

Lemma keeps_with_table s pid t : keeps_tables s (with_table s pid t).
Proof.
  intros q Hq. split; [done|]. intros (pr & tq & A & B). unfold has_table, with_table. cbn. rewrite A.
  destruct (decide (table_id s pid = pr.(fp_table))) as [->|Hne]; [exists pr, t; by rewrite lookup_insert_eq|exists pr, tq; by rewrite lookup_insert_ne].
Qed.

Lemma keeps_moves s s' pid fresh t : moves_to s s' pid fresh t → (∀ q, is_Some (s'.(fd_procs) !! q) → is_Some (s.(fd_procs) !! q)) → keeps_tables s s'.
Proof. intros (_ & _ & Hp & _ & Hq) Hprocs q Hs. split; [by apply Hprocs|]. intros Ht. destruct (decide (q = pid)) as [->|Hne]; [done|by apply Hq]. Qed.

Lemma keeps_alloc s pid min : keeps_tables s (alloc_fd_slot_with_min s pid min).2.
Proof.
  unfold alloc_fd_slot_with_min. destruct (_ <=? min); [done|]. destruct (find_empty_fd_slot s pid min); [done|].
  destruct (_ <=? min); [|destruct (_ <? _); [|done]]; apply keeps_with_table.
Qed.

Lemma keeps_set_entry s pid slot o flags : keeps_tables s (set_fd_entry s pid slot o flags).2.
Proof.
  unfold set_fd_entry, set_fd_entry_with_created_by_open. destruct (negb _); [done|]. cbn [entry_new snd].
  eapply keeps_trans; [|apply keeps_with_table]. eapply keeps_trans; [|apply keeps_same, new_reference_tables].
  eapply keeps_trans; [apply (keeps_with_table s pid)|]. destruct (entry_at _ slot); [apply keeps_same, release_entries_tables|done].
Qed.

Lemma keeps_clone s pid o min flags : keeps_tables s (clone_object_with_min_and_flags s pid o min flags).2.
Proof.
  unfold clone_object_with_min_and_flags. pose proof (keeps_alloc s pid min). destruct (alloc_fd_slot_with_min s pid min) as [[slot|e] s1]; [|done].
  eapply keeps_trans; [done|apply keeps_set_entry].
Qed.

Lemma keeps_drop_table s tid held : keeps_tables s (drop_table s tid held).
Proof.
  intros q Hq. destruct (drop_table_procs s tid held) as [Hp _]. rewrite Hp in Hq. split; [done|]. intros (pr & t & A & B).
  exists pr, t. rewrite Hp. split; [done|]. by rewrite (drop_table_keeps s tid held q pr A).
Qed.

Lemma keeps_new_table s fresh t : s.(f_tables) !! fresh = None → keeps_tables s (with_tables s (<[fresh := t]> s.(f_tables))).
Proof. intros Hf q Hq. split; [done|]. intros (pr & tq & A & B). exists pr, tq. split; [done|]. cbn. rewrite lookup_insert_ne; [done|]. congruence. Qed.

Lemma keeps_use s pid fresh : is_Some (s.(f_tables) !! fresh) → keeps_tables s (use_table s pid fresh).
Proof.
  intros [t Ht] q. cbn. rewrite lookup_alter. case_decide as Hq; [|intros Hs; split; [done|]; intros (pr & tq & A & B); exists pr, tq; cbn; by rewrite lookup_alter_ne]. subst q. intros Hq. split; [by apply fmap_is_Some in Hq|].
  intros (pr & tq & A & B). eexists _, t. cbn. rewrite lookup_alter_eq, A. split; [reflexivity|done].
Qed.

(** A process moves to a new table, and leaves the old one. *)
Lemma keeps_move s s1 pid fresh t tid held :
  same_tables s s1 → s.(f_tables) !! fresh = None →
  keeps_tables s (drop_table (use_table (with_tables s1 (<[fresh := t]> s1.(f_tables))) pid fresh) tid held).
Proof.
  intros Hs Hf. eapply keeps_trans; [|apply keeps_drop_table]. eapply keeps_trans; [apply keeps_same, Hs|].
  eapply keeps_trans; [apply keeps_new_table|apply keeps_use]; [by destruct Hs as (-> & _)|]. cbn. by rewrite lookup_insert_eq.
Qed.

Lemma keeps_push s pid o flags : keeps_tables s (push_object_with_flags s pid o flags).2.
Proof.
  unfold push_object_with_flags. destruct (list_find _ _) as [[i e]|]; cbn [entry_new snd];
    (eapply keeps_trans; [apply keeps_same, new_reference_tables|apply keeps_with_table]).
Qed.

Lemma keeps_clear s pid fd : keeps_tables s (clear_fd_slot s pid fd).2.
Proof.
  unfold clear_fd_slot. destruct (entry_at _ fd); [|done]. cbn [snd]. eapply keeps_trans; [apply keeps_with_table|apply keeps_same, release_entries_tables].
Qed.

Lemma keeps_unshare s pid fresh : s.(f_tables) !! fresh = None → keeps_tables s (unshare_fd_table s pid fresh).
Proof. intros Hf. apply keeps_move; [apply clone_entries_tables|done]. Qed.

Lemma keeps_close_range s pid first last flags fresh : s.(f_tables) !! fresh = None → keeps_tables s (close_range s pid first last flags fresh).2.
Proof.
  intros Hf. unfold close_range. destruct (last <? first); [done|]. destruct (negb _); [done|]. set (s1 := if flag_set flags CLOSE_RANGE_UNSHARE then _ else s).
  assert (keeps_tables s s1) as K1 by (unfold s1; destruct (flag_set _ _); [by apply keeps_unshare|done]).
  destruct (_ <=? first); [done|]. destruct (flag_set flags CLOSE_RANGE_CLOEXEC); cbn [snd take_range]; (eapply keeps_trans; [exact K1|]); [apply keeps_with_table|].
  eapply keeps_trans; [apply keeps_with_table|apply keeps_same, release_entries_tables].
Qed.

Lemma keeps_exec s pid fresh tty : s.(f_tables) !! fresh = None → keeps_tables s (execve_fd_table s pid fresh tty).
Proof.
  intros Hf. unfold execve_fd_table. set (s1 := clone_entries s (table s pid)). assert (same_tables s s1) as S1 by apply clone_entries_tables.
  destruct (close_cloexec_fd_entries (table s1 pid)) as [closed t]. destruct (init_objects_spec s1 t tty) as [S2 _].
  destruct (init_objects s1 t tty) as [t2 s2]. cbn [fst snd] in *. eapply keeps_trans; [|apply keeps_same, release_entries_tables].
  apply keeps_move; [by eapply same_tables_trans|done].
Qed.

Lemma keeps_close_all s pid fresh : s.(f_tables) !! fresh = None → has_table s pid → keeps_tables s (close_all_fds s pid fresh).
Proof.
  intros Hf Hp. unfold close_all_fds. set (s1 := if _ <? _ then _ else _).
  assert (table_id s pid ≠ fresh) as Hne by (destruct Hp as (pr & t & Hpr & Ht); unfold table_id; rewrite Hpr; congruence).
  assert (keeps_tables s s1 ∧ s1.(f_tables) !! fresh = None) as [K1 F1]; [|eapply keeps_trans; [exact K1|]; by apply keeps_move].
  unfold s1. destruct (1 <? _).
  - set (s2 := clone_entries s (table s pid)). assert (same_tables s s2) as S2 by apply clone_entries_tables. set (held := concat _). set (s3 := with_locks s2 _).
    assert (∀ l s', same_tables s s' → same_tables s (foldl (λ s e, release_fcntl_object_state s {[pid]} ∅ held e.(entry_object)) s' l)) as Hl.
    { induction l as [|e l IH]; intros s' Hs'; [done|]. cbn. apply IH. eapply same_tables_trans; [exact Hs'|apply release_fcntl_tables]. }
    match goal with |- context [drop_entries ?a ?b ?c] => assert (same_tables s (drop_entries a b c)) as S4 end.
    { eapply same_tables_trans; [|apply drop_entries_tables]. by apply Hl. }
    split; [by apply keeps_same|]. by destruct S4 as (-> & _).
  - split; [eapply keeps_trans; [apply keeps_with_table|apply keeps_same, release_entries_tables]|].
    destruct (release_entries_tables (with_table s pid []) {[pid]} ∅ pid (open_entries (table s pid)) []) as (-> & _). unfold with_table. cbn. by rewrite lookup_insert_ne.
Qed.

Lemma keeps_child s child pr : s.(fd_procs) !! child = None → is_Some (s.(f_tables) !! pr.(fp_table)) →
  ∀ q, is_Some (<[child := pr]> s.(fd_procs) !! q) → (∀ q, is_Some (s.(fd_procs) !! q) → has_table s q) → has_table (with_procs s (<[child := pr]> s.(fd_procs))) q.
Proof.
  intros Hn [t Ht] q Hq Hall. unfold has_table. cbn. destruct (decide (child = q)) as [<-|Hne].
  - exists pr, t. by rewrite lookup_insert_eq.
  - rewrite lookup_insert_ne in Hq |- * by done. by apply Hall.
Qed.

(** The slots of a pipe are two free ones, in order. *)
Lemma free_pair (f : nat → bool) n : ∀ start i j,
  List.filter f (seq start n) !! 0%nat = Some i → List.filter f (seq start n) !! 1%nat = Some j →
  (start <= i < j)%nat ∧ f i = true ∧ f j = true.
Proof.
  assert (∀ n start i, List.filter f (seq start n) !! 0%nat = Some i → (start <= i)%nat ∧ f i = true) as Hhead.
  { intros m start i Hi%list_elem_of_lookup_2%list_elem_of_In%filter_In. destruct Hi as [Hi%in_seq Hf]. split; [lia|done]. }
  induction n as [|n IH]; intros start i j; [done|]. cbn. destruct (f start) eqn:Hf.
  - cbn. intros [= <-] Hj. destruct (Hhead _ _ _ Hj). split_and!; (done || lia).
  - intros Hi Hj. destruct (IH _ _ _ Hi Hj) as ([? ?] & ? & ?). split_and!; (done || lia).
Qed.

Lemma two_free_spec t limit a b : two_free_slots t limit = (Some a, Some b) → 0 <= a ∧ a < b ∧ entry_at t a = None ∧ entry_at t b = None.
Proof.
  unfold two_free_slots. intros [= (i & Hi & ->)%fmap_Some (j & Hj & ->)%fmap_Some]. destruct (free_pair _ _ _ _ _ Hi Hj) as (? & H1 & H2).
  apply bool_decide_eq_true in H1, H2. split_and!; (done || lia).
Qed.

(** What a process, or another part of the kernel, does to the tables. *)
Inductive fd_step : Fds X → Fds X → Prop :=
  | step_dup s pid o : is_Some (s.(fd_procs) !! pid) → fd_step s (dup s pid o).2
  | step_dup2 s pid source dest : is_Some (s.(fd_procs) !! pid) → 0 <= dest → fd_step s (dup2 s pid source dest).2
  | step_dup3 s pid source dest flags : is_Some (s.(fd_procs) !! pid) → 0 <= dest → fd_step s (dup3 s pid source dest flags).2
  | step_dup_min s pid o min flags : is_Some (s.(fd_procs) !! pid) → 0 <= min → fd_step s (clone_object_with_min_and_flags s pid o min flags).2
  | step_push s pid o flags : is_Some (s.(fd_procs) !! pid) → fd_step s (push_object_with_flags s pid o flags).2
  | step_close s pid fd : is_Some (s.(fd_procs) !! pid) → fd_step s (close s pid fd).2
  | step_set_flags s pid fd flags : is_Some (s.(fd_procs) !! pid) → fd_step s (set_fd_flags s pid fd flags).2
  | step_close_range s pid first last flags fresh :
      is_Some (s.(fd_procs) !! pid) → s.(f_tables) !! fresh = None → fd_step s (close_range s pid first last flags fresh).2
  | step_unshare s pid nr_open fresh :
      is_Some (s.(fd_procs) !! pid) → s.(f_tables) !! fresh = None → fd_step s (unshare_files s pid nr_open fresh).2
  | step_fork s parent child fresh share :
      is_Some (s.(fd_procs) !! parent) → s.(f_tables) !! fresh = None → s.(fd_procs) !! child = None → fd_step s (fork_fd_table s parent child fresh share)
  | step_exec s pid fresh tty : is_Some (s.(fd_procs) !! pid) → s.(f_tables) !! fresh = None → fd_step s (execve_fd_table s pid fresh tty)
  | step_exit s pid fresh : is_Some (s.(fd_procs) !! pid) → s.(f_tables) !! fresh = None → fd_step s (close_all_fds s pid fresh)
  | step_reap s pid tid : tid = table_id s pid → fd_step s (drop_table (with_procs s (delete pid s.(fd_procs))) tid [])
  | step_spawn s pid fresh limit : s.(f_tables) !! fresh = None → s.(fd_procs) !! pid = None →
      fd_step s (with_procs (with_tables s (<[fresh := []]> s.(f_tables))) (<[pid := mkFdProcess fresh limit]> s.(fd_procs)))
  | step_pipe s (m : M) pid fds flags r w p privileged pipe_max_size :
      is_Some (s.(fd_procs) !! pid) → r ≠ w → (∀ o k, s.(f_ends) !! o ≠ Some (p, k)) →
      (∀ e, e ∈ entries_of s.(f_tables) → e.(entry_object) ≠ r ∧ e.(entry_object) ≠ w) →
      fd_step s (create_pipe s m pid fds flags r w p privileged pipe_max_size).2.2
  | step_elsewhere s s' : same_tables s s' → (∀ p k, side k <$> s'.(f_pipes) !! p = side k <$> s.(f_pipes) !! p) → fd_step s s'.

Lemma counted_pipe s (m : M) pid fds flags r w p privileged pipe_max_size :
  has_table s pid → r ≠ w → (∀ o k, s.(f_ends) !! o ≠ Some (p, k)) →
  (∀ e, e ∈ entries_of s.(f_tables) → e.(entry_object) ≠ r ∧ e.(entry_object) ≠ w) →
  counted s [] →
  let s' := (create_pipe s m pid fds flags r w p privileged pipe_max_size).2.2 in counted s' [] ∧ keeps_tables s s'.
Proof.
  intros Hp Hrw Hpf Hfresh Hc. unfold create_pipe. destruct (fds =? 0); [done|].
  destruct (two_free_slots (table s pid) (limit s pid)) as [[read_fd|] [write_fd|]] eqn:Hslots; try done.
  set (s0 := with_pipes (with_ends s _) _).
  assert (counted s0 []) as H0.
  { intros q pipe k Hq. unfold s0 in *. cbn [f_pipes f_ends f_tables with_pipes with_ends] in *. rewrite app_nil_r.
    set (ends := <[r := _]> _) in *.
    assert (∀ q k, count_refs ends q k (entries_of s.(f_tables)) = count_refs s.(f_ends) q k (entries_of s.(f_tables))) as Hcr.
    { intros q' k'. unfold count_refs. f_equal. apply List.filter_ext_in. intros e He%list_elem_of_In. destruct (Hfresh e He) as [Hr Hw].
      unfold refers, ends. by rewrite !lookup_insert_ne by congruence. }
    rewrite Hcr. destruct (decide (q = p)) as [->|Hne].
    - rewrite lookup_insert_eq in Hq. injection Hq as <-. transitivity 0; [by destruct k|]. symmetry. unfold count_refs.
      assert (List.filter (refers s.(f_ends) p k) (entries_of s.(f_tables)) = []) as ->; [|done].
      apply List.incl_l_nil. intros e [_ He]%filter_In. unfold refers in He. apply bool_decide_eq_true in He. by apply Hpf in He.
    - rewrite lookup_insert_ne in Hq by done. specialize (Hc q pipe k Hq). by rewrite app_nil_r in Hc. }
  set (fl := if flag_set flags O_CLOEXEC then FD_CLOEXEC else 0). set (re := mkFdEntry r fl false). set (we := mkFdEntry w fl false).
  cbn [entry_new]. set (s1 := new_pipe_reference s0 r). set (s2 := new_pipe_reference s1 w).
  assert (counted s2 [we; re]) as H2 by (apply (counted_new s1 [re] we), (counted_new s0 [] re), H0).
  destruct (two_free_spec _ _ _ _ Hslots) as (Hr0 & Hlt & Hra & Hwa). set (t := grow (table s pid) (write_fd + 1)).
  assert (write_fd < zlen t) as Hlen by (destruct (grow_length (table s pid) (write_fd + 1)); unfold t; lia).
  assert (∀ fd, 0 <= fd <= write_fd → entry_at (table s pid) fd = None → t !! Z.to_nat fd = Some None) as Hslot.
  { intros fd Hfd He. assert (is_Some (t !! Z.to_nat fd)) as [x Hx] by (apply lookup_lt_is_Some; unfold zlen in Hlen; lia).
    rewrite <- (entry_at_grow _ (write_fd + 1)) in He. fold t in He. unfold entry_at in He. rewrite Hx in He. cbn in He. by rewrite Hx, He. }
  assert (s2.(f_tables) = s.(f_tables) ∧ s2.(fd_procs) = s.(fd_procs)) as [A B].
  { destruct (new_reference_tables s0 r) as (A & B & _), (new_reference_tables s1 w) as (C & D & _). fold s1 in A, B. fold s2 in C, D. by rewrite C, D, A, B. }
  assert (has_table s2 pid) as Hp2 by (destruct Hp as (pr & tp & ? & ?); exists pr, tp; by rewrite A, B).
  assert (table s2 pid = table s pid) as Ht2 by (unfold table, table_id; by rewrite A, B).
  set (s3 := with_table s2 pid _).
  assert (counted s3 []) as H3.
  { revert H2. apply counted_with_table; [done|]. rewrite app_nil_r, Ht2, open_entries_fill.
    - rewrite open_entries_fill by (apply Hslot; lia || done). unfold t. rewrite open_entries_grow. by rewrite (Permutation_app_comm _ [we; re]).
    - rewrite list_lookup_insert_ne by lia. apply Hslot; [lia|done]. }
  assert (keeps_tables s s3) as K3.
  { eapply keeps_trans; [|apply keeps_with_table]. intros q Hq. rewrite B in Hq. split; [done|]. intros (pr & tp & ? & ?). exists pr, tp. by rewrite A, B. }
  destruct (_ || _); [done|]. by destruct (user_write m fds (read_fd, write_fd)).
Qed.

Lemma fd_step_ok s s' : fd_step s s' → fds_ok s → fds_ok s'.
Proof.
  intros Hstep Hok. pose proof Hok as [Hc Ht].
  destruct Hstep as [s pid o Hp|s pid source dest Hp Hd|s pid source dest flags Hp Hd|s pid o min flags Hp Hm|s pid o flags Hp|s pid fd Hp|s pid fd flags Hp
    |s pid first last flags fresh Hp Hf|s pid nr_open fresh Hp Hf|s parent child fresh share Hp Hf Hch|s pid fresh tty Hp Hf|s pid fresh Hp Hf|s pid tid Htid|s pid fresh limit Hf Hn
    |s m pid fds flags r w p privileged pipe_max_size Hp Hrw Hpf Hfresh|s s' Hs Hside]; try apply Ht in Hp.
  - unfold dup, clone_object. rewrite alloc_is_with_min. change (let '(slot, s1) := alloc_fd_slot_with_min s pid 0 in _) with (clone_object_with_min_and_flags s pid o 0 0).
    pose proof (counted_clone_object s pid o 0 0 (Z.le_refl 0) Hp Hc). pose proof (keeps_clone s pid o 0 0).
    destruct (clone_object_with_min_and_flags s pid o 0 0). by apply (keeps_ok s).
  - unfold dup2. destruct (map_object_error (get_object s pid source)) as [o|e]; [|done]. destruct (negb _); [done|]. destruct (source =? dest); [done|].
    unfold clone_object_to, clone_object_to_with_flags. pose proof (counted_set_entry s pid dest o 0 Hd Hp Hc). pose proof (keeps_set_entry s pid dest o 0).
    destruct (set_fd_entry s pid dest o 0). by apply (keeps_ok s).
  - unfold dup3. destruct (source =? dest); [done|]. destruct (negb _); [done|]. destruct (map_object_error (get_object s pid source)) as [o|e]; [|done].
    unfold clone_object_to_with_flags. set (fl := if flag_set flags _ then _ else _). pose proof (counted_set_entry s pid dest o fl Hd Hp Hc).
    pose proof (keeps_set_entry s pid dest o fl). destruct (set_fd_entry s pid dest o fl). by apply (keeps_ok s).
  - revert Hok. apply keeps_ok; [apply keeps_clone|by apply counted_clone_object].
  - revert Hok. apply keeps_ok; [apply keeps_push|by apply counted_push].
  - unfold close. pose proof (keeps_clear s pid fd). pose proof (counted_clear s pid fd Hp Hc). destruct (clear_fd_slot s pid fd) as [[v|e] s1]; by apply (keeps_ok s).
  - revert Hok. apply keeps_ok; [|by apply counted_set_flags]. unfold set_fd_flags. destruct (entry_at _ fd); [apply keeps_with_table|done].
  - revert Hok. apply keeps_ok; [by apply keeps_close_range|by apply counted_close_range].
  - unfold unshare_files. destruct (_ <? _); [done|]. revert Hok. apply keeps_ok; [by apply keeps_unshare|by apply counted_unshare].
  - split; [by apply counted_fork|]. unfold fork_fd_table. destruct (fd_procs s !! parent) as [pr|] eqn:Hpr; [|done].
    destruct Hp as (pr' & t & Hpr' & Htab). rewrite Hpr in Hpr'. injection Hpr' as <-. intros q Hq. destruct share; [by apply keeps_child|].
    destruct (clone_entries_tables s (table s parent)) as (A & B & _).
    set (s1 := with_tables (clone_entries s (table s parent)) _) in *. change (with_tables _ _) with s1 in Hq.
    apply (keeps_child s1); [by unfold s1; cbn; rewrite B|unfold s1; cbn; by rewrite lookup_insert_eq|done|].
    intros q0 Hq0. unfold s1 in Hq0. cbn in Hq0. rewrite B in Hq0. apply (keeps_new_table (clone_entries s (table s parent))); [by rewrite A|by cbn; rewrite B|].
    apply (has_table_same s); [apply clone_entries_tables|by apply Ht].
  - revert Hok. apply keeps_ok; [by apply keeps_exec|by apply counted_exec].
  - revert Hok. apply keeps_ok; [by apply keeps_close_all|by apply counted_close_all].
  - revert Hok. apply keeps_ok; [|by apply counted_drop_table]. eapply keeps_trans; [|apply keeps_drop_table]. intros q. cbn. rewrite lookup_delete.
    case_decide; [by intros []|]. intros Hq. split; [done|]. intros (pr & t & A & B). exists pr, t. cbn. by rewrite lookup_delete_ne.
  - split; [apply (counted_new_table s fresh [] []); [done|done]|]. intros q. cbn. rewrite lookup_insert. case_decide as Hq.
    + subst q. intros _. exists (mkFdProcess fresh limit), []. cbn. by rewrite !lookup_insert_eq.
    + intros Hs. destruct (Ht q Hs) as (pr & t & A & B). exists pr, t. cbn. rewrite !lookup_insert_ne by congruence. done.
  - destruct (counted_pipe s m pid fds flags r w p privileged pipe_max_size Hp Hrw Hpf Hfresh Hc) as [C K]. by apply (keeps_ok s).
  - revert Hok. apply keeps_ok; [by apply keeps_same|]. intros p pipe k Hpipe. destruct Hs as (A & _ & B). rewrite A, B.
    pose proof (Hside p k) as Hsd. rewrite Hpipe in Hsd. symmetry in Hsd. apply fmap_Some in Hsd as (pipe0 & Hp0 & ->). by apply Hc.
Qed.

Definition fds_empty (x : X) : Fds X := mkFds x ∅ ∅ ∅ ∅ lock_init ∅ (λ _, 0).

End reachable.

(** ** Concrete runs *)

(** Objects without state, none of them a file. *)
#[local] Instance plain_objects : Objects unit := {
  obj_get_flags _ _ := Ok 0;
  obj_set_flags x _ _ := (Ok tt, x);
  obj_file_like _ _ := None;
  obj_readable _ _ := true;
  obj_writable _ _ := true;
  obj_lock_view _ o n := mkObject o n None (Ok 0) (Ok 0);
  obj_drop x _ := x;
}.

(** A memory that keeps what is written, and one that faults. *)
#[local] Instance pair_memory : UserMemory (list (Z * Z)) (Z * Z) := {
  addrspace_read m a := (Err SyscallError.BadAddress, m);
  addrspace_write m a v := (Ok tt, m ++ [v]);
}.

(** Process 1, limited to four descriptors, makes a pipe, copies its write end, and forks. *)
Definition one_process : Fds unit :=
  with_procs (with_tables (fds_empty tt) (<[500 := []]> ∅)) (<[1 := mkFdProcess 500 4]> ∅).
Definition with_pipe : Fds unit := (create_pipe one_process ([] : list (Z * Z)) 1 4096 0 11 13 15 true 65536).2.2.
Definition with_copy : Fds unit := (dup with_pipe 1 13).2.
Definition forked : Fds unit := fork_fd_table with_copy 1 2 501 false.
Definition child_left : Fds unit := close_all_fds forked 2 502.


Lemma duplicate_takes_lowest_witness :
  match clone_object_with_min_and_flags with_pipe 1 13 0 0 with
  | (Ok fd, s') => fd = 2 ∧ only_fd with_pipe s' 1 fd (Some (mkFdEntry 13 0 false))
  | (Err e, s') => False
  end.
Proof.
  assert (has_table with_pipe 1) as Hp by (eexists _, _; split; vm_compute; reflexivity).
  pose proof (duplicate_takes_lowest with_pipe 1 13 0 0 (Z.le_refl 0) Hp) as H.
  destruct (clone_object_with_min_and_flags with_pipe 1 13 0 0) as [r s'] eqn:E.
  assert (r = Ok 2) as -> by (change r with (r, s').1; rewrite <- E; vm_compute; reflexivity). split; [reflexivity|]. apply H.
Defined.

(** The write end is marked; the read end survives an exec, and so does the terminal. *)
Definition marked : Fds unit := (set_fd_flags with_pipe 1 1 FD_CLOEXEC).2.

Lemma exec_keeps_unmarked_witness :
  (∀ k, 0 <= k → entry_at (table (execve_fd_table marked 1 503 99) 1) k = std_fd 99 k (keep_fd (entry_at (table marked 1) k))) ∧
  map (λ k, entry_object <$> entry_at (table (execve_fd_table marked 1 503 99) 1) k) [0; 1; 2; 3] = [Some 11; Some 99; Some 99; None].
Proof.
  split; [|vm_compute; reflexivity]. apply (exec_keeps_unmarked marked 1 503 99); [|vm_compute; reflexivity].
  eexists _, _. split; vm_compute; reflexivity.
Defined.

Lemma close_range_exact_witness :
  match close_range with_copy 1 1 100 0 504 with
  | (Ok v, s') => (∀ k, 0 <= k → entry_at (table s' 1) k = range_fd 1 100 0 k (entry_at (table with_copy 1) k))
  | (Err e, s') => False
  end.
Proof.
  pose proof (close_range_exact with_copy 1 1 100 0 504) as H. destruct (close_range with_copy 1 1 100 0 504) as [r s'] eqn:E.
  assert (r = Ok 0) as -> by (change r with (r, s').1; rewrite <- E; vm_compute; reflexivity). apply H; [|vm_compute; reflexivity|lia|lia].
  eexists _, _. split; vm_compute; reflexivity.
Defined.

(** ** What the code does differently from what it is for *)

(** New objects get a descriptor beyond the limit of the process. *)
Lemma new_object_ignores_limit :
  let s := (dup with_copy 1 11).2 in
  limit s 1 = 4 ∧ (push_object s 1 77).1 = 4 ∧ (dup s 1 77).1 = Err SyscallError.TooManyOpenFilesProcess.
Proof. vm_compute. auto. Qed.

(** A pipe call that cannot write its answer leaves both descriptors open. *)
Lemma failed_pipe_leaves_descriptors :
  let r := create_pipe (M := unit) one_process tt 1 4096 0 11 13 15 true 65536 in
  r.1 = Err SyscallError.BadAddress ∧ length (open_entries (table r.2.2 1)) = 2%nat.
Proof. vm_compute. auto. Qed.

(** What F_SETOWN and F_SETLEASE set is kept when the object is closed for the last time,
    since the process that closes it holds its own lock, which counts as another user; a new
    object at the same address has the old owner. *)
Definition owned_object : Fds unit :=
  let s := (push_object one_process 1 77).2 in with_fcntl s {[fcntl_object_key s 77 := mkFcntlState (mkOwnerEx 1 42) 0 F_UNLCK]}.

Lemma owner_outlives_object :
  let s := (close owned_object 1 0).2 in
  open_entries (table s 1) = [] ∧ strong_count s [] 77 = 0 ∧ fs_owner <$> s.(f_fcntl) !! fcntl_object_key s 77 = Some (mkOwnerEx 1 42).
Proof. vm_compute. auto. Qed.
