(* ===== verification/Vm.v ===== *)
(** * Frames, page tables and copy-on-write

    memory/paging.rs (the run-time frame allocator), memory/addrspace/{cow,apply,mapping,
    clone,allocate,mod}.rs and memory/addrspace/mem_area.rs: what the address spaces do to
    frames and page tables, over the area lists of AddrAreas.

    All address spaces are in one machine.  A page table is what it translates: the entries
    of all of them are one map from an address space and a page to a frame and its flags,
    which is what the x86_64 crate and the processor make of the tables; the frames of the
    tables themselves, their release, and the flushes of translation buffers are not
    modelled.  The buddy allocator below [BootinfoFrameAllocator] and the files behind
    mappings are interfaces.  [None] is a panic of the kernel.

    A [SharedFrames] object lives as long as an area refers to it, since only areas keep it
    between calls. *)

From stdpp Require Import sets.
From S2P Require Import Prelude Errors SparseFile AddrAreas.

Open Scope Z_scope.

(** ** Third-party code *)

(** [buddy_system_allocator::FrameAllocator]: numbers of frames *)
Class BuddyAllocator (A : Type) := {
  buddy_alloc : A → Z → option (Z * A);
  buddy_dealloc : A → Z → Z → A;
}.

(** Its promise for single frames: it hands out a frame that is free, which then is not. *)
Class BuddyAllocatorLaws (A : Type) `{BuddyAllocator A} (free : A → Z → Prop) : Prop := {
  alloc_was_free a n a' : buddy_alloc a 1 = Some (n, a') → free a n;
  alloc_takes a n a' k : buddy_alloc a 1 = Some (n, a') → (free a' k ↔ free a k ∧ k ≠ n);
  dealloc_gives a n k : ¬ free a n → (free (buddy_dealloc a n 1) k ↔ free a k ∨ k = n);
}.

(** A pool of free frames, for examples *)
#[export] Instance pool_allocator : BuddyAllocator (gset Z) := {
  buddy_alloc a _ := match elements a with [] => None | f :: _ => Some (f, a ∖ {[f]}) end;
  buddy_dealloc a n _ := {[n]} ∪ a;
}.

#[export] Instance pool_allocator_laws : BuddyAllocatorLaws (gset Z) (λ a n, n ∈ a).
Proof.
  split; cbn.
  - intros a n a'. destruct (elements a) as [|f l] eqn:He; [done|]. intros [= <- _]. apply elem_of_elements. rewrite He. left.
  - intros a n a' k. destruct (elements a) as [|f l]; [done|]. intros [= <- <-]. set_solver.
  - intros a n k _. set_solver.
Qed.

(** What a mapping needs of a file: its page cache identity (device, inode, size) when it is
    a regular file, a cluster of the page cache with its valid length, and the writes of
    [write_back_area_range]. *)
Class MappedFiles (F : Type) := {
  readonly_page_cache_file : F → Z → option (Z * Z * Z);
  read_cluster : F → Z → Z * Z * Z → Z → result FSError (list byte * Z) * F;
  info_size : F → Z → result FSError Z;
  invalidate_file : F → Z * Z → F;
  resolve_file : F → Z → result FSError unit;
  seek_current : F → Z → result FSError Z * F;
  seek_start : F → Z → Z → result FSError Z * F;
  file_write : F → Z → list byte → result FSError Z * F;
}.

(** ** State *)

Definition COW_FLAG : Z := 512.
Definition DIRTY : Z := 64.
Definition KERNEL_MEM_START : Z := 18446603336221196288.
Definition FILE_LAZY_CLUSTER_PAGES : Z := 16.

(** [m_refs]: FRAME_REF_COUNT.  [m_file_frames]: SHARED_FILE_PAGE_CACHE, by device, inode and
    offset.  [m_shared]: the frames of the [SharedFrames] objects.  [m_held]: frames that
    other parts of the kernel hold, by their owner. *)
Record Machine (A F : Type) := mkMachine {
  m_alloc : A;
  m_phys : gmap Z (list byte);
  m_refs : gmap Z Z;
  m_file_frames : gmap (Z * Z * Z) Z;
  m_files : F;
  m_shared : gmap Z (list Z);
  m_held : gmap Z (list Z);
  m_ptes : gmap (Z * Z) (Z * Z);
  m_areas : gmap Z AddrSpace;
}.
Arguments mkMachine {A F} m_alloc m_phys m_refs m_file_frames m_files m_shared m_held m_ptes m_areas.
Arguments m_alloc {A F} m.
Arguments m_phys {A F} m.
Arguments m_refs {A F} m.
Arguments m_file_frames {A F} m.
Arguments m_files {A F} m.
Arguments m_shared {A F} m.
Arguments m_held {A F} m.
Arguments m_ptes {A F} m.
Arguments m_areas {A F} m.

Section updates.
Context {A F : Type}.
Implicit Types m : Machine A F.

Definition with_alloc (v : A) m : Machine A F :=
  mkMachine v m.(m_phys) m.(m_refs) m.(m_file_frames) m.(m_files) m.(m_shared) m.(m_held) m.(m_ptes) m.(m_areas).
Definition with_phys (v : gmap Z (list byte)) m : Machine A F :=
  mkMachine m.(m_alloc) v m.(m_refs) m.(m_file_frames) m.(m_files) m.(m_shared) m.(m_held) m.(m_ptes) m.(m_areas).
Definition with_refs (v : gmap Z Z) m : Machine A F :=
  mkMachine m.(m_alloc) m.(m_phys) v m.(m_file_frames) m.(m_files) m.(m_shared) m.(m_held) m.(m_ptes) m.(m_areas).
Definition with_file_frames (v : gmap (Z * Z * Z) Z) m : Machine A F :=
  mkMachine m.(m_alloc) m.(m_phys) m.(m_refs) v m.(m_files) m.(m_shared) m.(m_held) m.(m_ptes) m.(m_areas).
Definition with_files (v : F) m : Machine A F :=
  mkMachine m.(m_alloc) m.(m_phys) m.(m_refs) m.(m_file_frames) v m.(m_shared) m.(m_held) m.(m_ptes) m.(m_areas).
Definition with_shared (v : gmap Z (list Z)) m : Machine A F :=
  mkMachine m.(m_alloc) m.(m_phys) m.(m_refs) m.(m_file_frames) m.(m_files) v m.(m_held) m.(m_ptes) m.(m_areas).
Definition with_held (v : gmap Z (list Z)) m : Machine A F :=
  mkMachine m.(m_alloc) m.(m_phys) m.(m_refs) m.(m_file_frames) m.(m_files) m.(m_shared) v m.(m_ptes) m.(m_areas).
Definition with_ptes (v : gmap (Z * Z) (Z * Z)) m : Machine A F :=
  mkMachine m.(m_alloc) m.(m_phys) m.(m_refs) m.(m_file_frames) m.(m_files) m.(m_shared) m.(m_held) v m.(m_areas).
Definition with_spaces (v : gmap Z AddrSpace) m : Machine A F :=
  mkMachine m.(m_alloc) m.(m_phys) m.(m_refs) m.(m_file_frames) m.(m_files) m.(m_shared) m.(m_held) m.(m_ptes) v.
End updates.

(** ** State passing with panics *)

Definition VM (A F X : Type) : Type := Machine A F → option (X * Machine A F).

#[export] Instance VM_ret A F : MRet (VM A F) := λ X x m, Some (x, m).
#[export] Instance VM_bind A F : MBind (VM A F) := λ X Y k c m,
  match c m with Some (x, m) => k x m | None => None end.

Section machine.
Context {A F : Type}.

Definition panic {X} : VM A F X := λ _, None.
Definition gets {X} (f : Machine A F → X) : VM A F X := λ m, Some (f m, m).
Definition modify (f : Machine A F → Machine A F) : VM A F unit := λ m, Some (tt, f m).

(** [for x in xs { c(x) }] *)
Fixpoint for_each {X} (xs : list X) (c : X → VM A F unit) : VM A F unit :=
  match xs with
  | [] => mret tt
  | x :: xs => _ ← c x; for_each xs c
  end.
End machine.

(** ** Frames *)

Section frames.
Context {A F : Type} `{BuddyAllocator A}.
Abbreviation VM := (VM A F).

(** [usize::next_power_of_two] *)
Definition normalized_pages (pages : Z) : option Z := if pages =? 0 then None else Some (2 ^ Z.log2_up pages).

Definition allocate_contiguous (pages : Z) : VM (option Z) := λ m,
  Some match normalized_pages pages with
       | None => (None, m)
       | Some pages =>
           match buddy_alloc m.(m_alloc) pages with
           | None => (None, m)
           | Some (n, a) => (Some (n * PAGE_SIZE), with_alloc a m)
           end
       end.

Definition allocate_frame : VM (option Z) := allocate_contiguous 1.

Definition deallocate_frame (frame : Z) : VM unit :=
  modify (λ m, with_alloc (buddy_dealloc m.(m_alloc) (frame / PAGE_SIZE) 1) m).

(** [.expect("memory full;")] and [.unwrap()] *)
Definition must_allocate : VM Z := o ← allocate_frame; match o with Some f => mret f | None => panic end.

(** ** Contents *)

Definition frame_bytes (m : Machine A F) (frame : Z) : list byte := default zero_page (m.(m_phys) !! frame).

Definition write_frame (frame offset : Z) (bytes : list byte) : VM unit :=
  modify (λ m, with_phys (<[frame := zsplice (frame_bytes m frame) offset bytes]> m.(m_phys)) m).

Definition zero_frame (frame : Z) : VM unit := modify (λ m, with_phys (<[frame := zero_page]> m.(m_phys)) m).

Definition copy_frame (src dst : Z) : VM unit := modify (λ m, with_phys (<[dst := frame_bytes m src]> m.(m_phys)) m).

(** ** Reference counts (cow.rs) *)

Definition increase_ref_by (frame amount : Z) : VM unit :=
  modify (λ m, with_refs (<[frame := default 0 (m.(m_refs) !! frame) + amount]> m.(m_refs)) m).

Definition increase_ref (frame : Z) : VM unit := increase_ref_by frame 1.

Definition is_ref_counted (frame : Z) : VM bool := gets (λ m, bool_decide (is_Some (m.(m_refs) !! frame))).

Definition take_exclusive_ref (frame : Z) : VM bool := λ m,
  Some match m.(m_refs) !! frame with
       | None => (true, m)
       | Some count => if count =? 1 then (true, with_refs (delete frame m.(m_refs)) m) else (false, m)
       end.

(** The common part of [release_mapping_ref] and [decrease_ref]; [absent]: the answer for a
    frame that is not counted. *)
Definition drop_ref (absent : bool) (frame : Z) : VM bool := λ m,
  Some match m.(m_refs) !! frame with
       | None => (absent, m)
       | Some count =>
           if count - 1 =? 0 then (true, with_refs (delete frame m.(m_refs)) m)
           else (false, with_refs (<[frame := count - 1]> m.(m_refs)) m)
       end.

Definition release_mapping_ref (frame : Z) : VM bool := drop_ref true frame.

Definition decrease_ref (frame : Z) : VM bool := drop_ref false frame.

(** ** Page tables *)

(** [Page::containing_address], and the pages of [Page::range_inclusive] *)
Definition page_of (addr : Z) : Z := addr - addr mod PAGE_SIZE.

Definition pages_from (first : Z) (n : nat) : list Z := map (λ i, first + Z.of_nat i * PAGE_SIZE) (seq 0 n).

Definition range_inclusive (first last : Z) : list Z := pages_from first (Z.to_nat ((last - first) / PAGE_SIZE + 1)).

Definition page_range (first last : Z) : list Z := pages_from first (Z.to_nat ((last - first) / PAGE_SIZE)).

Definition pte (p page : Z) : VM (option (Z * Z)) := gets (λ m, m.(m_ptes) !! (p, page)).

Definition translate_addr (p addr : Z) : VM (option Z) :=
  gets (λ m, (λ e : Z * Z, e.1 + addr mod PAGE_SIZE) <$> m.(m_ptes) !! (p, page_of addr)).

(** [map_to(..).unwrap()]: a page that is mapped already is an error. *)
Definition map_to (p page frame flags : Z) : VM unit := λ m,
  match m.(m_ptes) !! (p, page) with
  | Some _ => None
  | None => Some (tt, with_ptes (<[(p, page) := (frame, flags)]> m.(m_ptes)) m)
  end.

Definition unmap_page (p page : Z) : VM (option Z) := λ m,
  Some match m.(m_ptes) !! (p, page) with
       | Some (frame, _) => (Some frame, with_ptes (delete (p, page) m.(m_ptes)) m)
       | None => (None, m)
       end.

(** Whether the page is mapped *)
Definition update_flags (p page flags : Z) : VM bool := λ m,
  Some match m.(m_ptes) !! (p, page) with
       | Some (frame, _) => (true, with_ptes (<[(p, page) := (frame, flags)]> m.(m_ptes)) m)
       | None => (false, m)
       end.

(** ** Areas and shared frames *)

Definition space (p : Z) : VM AddrSpace := gets (λ m, default addrspace_default (m.(m_areas) !! p)).

Definition arcs_of (areas : list MemoryArea) : list Z :=
  omap (λ a, match a.(data) with Data.Shared arc _ _ => Some arc | _ => None end) areas.

Definition arc_used (m : Machine A F) (arc : Z) : bool :=
  existsb (λ x : Z * AddrSpace, bool_decide (arc ∈ arcs_of x.2.(memory_areas))) (map_to_list m.(m_areas)).

(** [SharedFrames::new] and its [Drop] *)
Definition shared_frames_new (arc : Z) (frames : list Z) : VM unit :=
  _ ← for_each frames increase_ref;
  modify (λ m, with_shared (<[arc := frames]> m.(m_shared)) m).

Definition release_frames (frames : list Z) : VM unit :=
  for_each frames (λ frame, last ← decrease_ref frame; if last : bool then deallocate_frame frame else mret tt).

Definition drop_shared (arc : Z) : VM unit :=
  used ← gets (λ m, arc_used m arc);
  if used : bool then mret tt
  else
    frames ← gets (λ m, default [] (m.(m_shared) !! arc));
    _ ← modify (λ m, with_shared (delete arc m.(m_shared)) m);
    release_frames frames.

(** The fields of the space are replaced, and what no area refers to any more is dropped. *)
Definition set_space (p : Z) (st : AddrSpace) : VM unit :=
  old ← space p;
  _ ← modify (λ m, with_spaces (<[p := st]> m.(m_areas)) m);
  for_each (remove_dups (arcs_of old.(memory_areas))) drop_shared.

(** [get_area], and the index it leaves *)
Definition find_area (p addr : Z) : VM (option MemoryArea) :=
  st ← space p;
  let '(area, st) := get_area st addr in
  _ ← modify (λ m, with_spaces (<[p := st]> m.(m_areas)) m);
  mret area.

(** ** Copy-on-write *)

Definition has_flag (flags bit : Z) : bool := Z.land flags bit =? bit.

Definition remove_flag (flags bit : Z) : Z := Z.land flags (Z.lnot bit).

Definition as_cow_flags (flags : Z) : Z := remove_flag (Z.lor flags COW_FLAG) WRITABLE.

Definition replace_cow_page (p addr : Z) : VM unit :=
  let page := page_of addr in
  entry ← pte p page;
  match entry with
  | None => mret tt
  | Some (old_frame, flags) =>
      let flags := Z.lor (remove_flag flags COW_FLAG) WRITABLE in
      exclusive ← take_exclusive_ref old_frame;
      if exclusive : bool then _ ← update_flags p page flags; mret tt
      else
        new_frame ← must_allocate;
        _ ← unmap_page p page;
        _ ← copy_frame old_frame new_frame;
        _ ← map_to p page new_frame flags;
        _ ← increase_ref new_frame;
        deallocate_old_frame ← decrease_ref old_frame;
        if deallocate_old_frame : bool then deallocate_frame old_frame else mret tt
  end.
End frames.

(** ** Applying pages (apply.rs) *)

Section apply.
Context {A F : Type} `{BuddyAllocator A} `{MappedFiles F}.
Abbreviation VM := (VM A F).

Definition map_existing_frame (p page frame flags : Z) (refcount_frame : bool) : VM Z :=
  _ ← map_to p page frame flags;
  _ ← (if refcount_frame then increase_ref frame else mret tt);
  mret frame.

Definition alloc_zeroed_frame : VM Z := frame ← must_allocate; _ ← zero_frame frame; mret frame.

Definition alloc_map_zeroed_page (p page : Z) (area : MemoryArea) (zero_page : bool) : VM Z :=
  frame ← must_allocate;
  _ ← map_to p page frame area.(flags);
  _ ← increase_ref frame;
  _ ← (if zero_page then zero_frame frame else mret tt);
  mret frame.

(** A method of the files *)
Definition on_files {X} (f : F → X * F) : VM X := λ m,
  let '(x, fs) := f m.(m_files) in Some (x, with_files fs m).

Definition CLUSTER_LEN : Z := PAGE_SIZE * FILE_LAZY_CLUSTER_PAGES.

(** [id]: the identity that [resolve_file_cache] found *)
Definition get_or_load_shared_file_frame (file : Z) (id : Z * Z * Z) (offset read_len : Z) : VM (option Z) :=
  let key := (id.1.1, id.1.2, offset) in
  cached ← gets (λ m, m.(m_file_frames) !! key);
  match cached with
  | Some frame => mret (Some frame)
  | None =>
      frame ← alloc_zeroed_frame;
      loaded ← (if read_len =? 0 then mret true
                else
                  cluster ← on_files (λ fs, read_cluster fs file id (offset / PAGE_SIZE));
                  match cluster with
                  | Err _ => mret false
                  | Ok (data, valid_len) =>
                      let cluster_offset := page_of (offset mod CLUSTER_LEN) in
                      let copy_len := Z.min read_len (sat_sub valid_len cluster_offset) in
                      _ ← write_frame frame 0 (zslice data cluster_offset (cluster_offset + copy_len));
                      mret true
                  end);
      if loaded : bool then
        _ ← increase_ref frame;
        _ ← modify (λ m, with_file_frames (<[key := frame]> m.(m_file_frames)) m);
        mret (Some frame)
      else mret None
  end.

(** [read_len] is not zero; [.expect(..)] on a failed read. *)
Definition copy_cached_file_page (file : Z) (id : Z * Z * Z) (file_offset read_len frame : Z) : VM unit :=
  cluster ← on_files (λ fs, read_cluster fs file id (file_offset / PAGE_SIZE));
  match cluster with
  | Err _ => panic
  | Ok (data, valid_len) =>
      let cluster_offset := file_offset mod CLUSTER_LEN in
      let copy_len := Z.min (sat_sub valid_len cluster_offset) read_len in
      _ ← write_frame frame 0 (zslice data cluster_offset (cluster_offset + copy_len));
      write_frame frame copy_len (replicate (Z.to_nat (sat_sub read_len copy_len)) x00)
  end.

(** One page of the loop of [apply_page_cluster] over a file: [None] when it is mapped. *)
Definition apply_file_page (p page : Z) (area : MemoryArea) (offset file_bytes file : Z) (shared : bool)
  (id : Z * Z * Z) : VM (option Z) :=
  entry ← pte p page;
  match entry with
  | Some _ => mret None
  | None =>
      let page_offset := page - area.(start) in
      let read_len := Z.min PAGE_SIZE (sat_sub file_bytes page_offset) in
      let file_offset := offset + page_offset in
      shared_frame ← get_or_load_shared_file_frame file id file_offset read_len;
      match shared, shared_frame with
      | true, Some frame => frame ← map_existing_frame p page frame area.(flags) true; mret (Some frame)
      | _, _ =>
          frame ← alloc_map_zeroed_page p page area (read_len <? PAGE_SIZE);
          _ ← (if read_len =? 0 then mret tt else copy_cached_file_page file id file_offset read_len frame);
          mret (Some frame)
      end
  end.

(** The frame of the first page that the loop maps *)
Fixpoint apply_file_pages (p : Z) (pages : list Z) (area : MemoryArea) (offset file_bytes file : Z) (shared : bool)
  (id : Z * Z * Z) (first_frame : option Z) : VM (option Z) :=
  match pages with
  | [] => mret first_frame
  | page :: pages =>
      frame ← apply_file_page p page area offset file_bytes file shared id;
      apply_file_pages p pages area offset file_bytes file shared id
        (match first_frame with Some f => Some f | None => frame end)
  end.

Definition apply_page_cluster (p page : Z) (area : MemoryArea) (cluster_pages : Z) : VM Z :=
  match area.(data) with
  | Data.Normal _ => alloc_map_zeroed_page p page area true
  | Data.File offset file_bytes _ file shared =>
      resolved ← gets (λ m, readonly_page_cache_file m.(m_files) file);
      match resolved with
      | None => panic
      | Some id =>
          let page_index := (page - area.(start)) / PAGE_SIZE in
          let max_pages := Z.min cluster_pages (sat_sub (area_pages area) page_index) in
          first_frame ← apply_file_pages p (pages_from page (Z.to_nat max_pages)) area offset file_bytes file shared id None;
          match first_frame with
          | Some frame => mret frame
          | None => entry ← pte p page; match entry with Some (frame, _) => mret frame | None => panic end
          end
      end
  | Data.Shared _ frames shared_flags =>
      let page_index := (page - area.(start)) / PAGE_SIZE in
      match frames !! Z.to_nat page_index with
      | None => panic
      | Some frame => map_existing_frame p page frame (Z.lor area.(flags) shared_flags) true
      end
  end.

Definition apply_page (p page : Z) (area : MemoryArea) : VM Z := apply_page_cluster p page area 1.

(** The three kinds of areas are applied page by page. *)
Definition apply_area (p : Z) (area : MemoryArea) : VM Z :=
  let first := page_of area.(start) in
  _ ← for_each (pages_from first (Z.to_nat (area_pages area))) (λ page, _ ← apply_page p page area; mret tt);
  mret first.

(** ** Mapping and unmapping (mapping.rs) *)

(** The address, if the area was applied *)
Definition register (p : Z) (area : MemoryArea) : VM (option Z) :=
  st ← space p;
  let '(eager, st) := register_area st area in
  _ ← set_space p st;
  if eager then first ← apply_area p area; mret (Some first) else mret None.

(** [.expect(..)]: a lazy area is not applied *)
Definition map_area (p : Z) (area : MemoryArea) : VM Z :=
  applied ← register p area;
  match applied with Some first => mret first | None => panic end.

(** Entries of pages are removed; the frames to give back. *)
Fixpoint unmap_pages (p : Z) (pages : list Z) : VM (list Z) :=
  match pages with
  | [] => mret []
  | page :: pages =>
      frame ← unmap_page p page;
      match frame with
      | None => unmap_pages p pages
      | Some frame =>
          last ← release_mapping_ref frame;
          frames ← unmap_pages p pages;
          mret (if last : bool then frame :: frames else frames)
      end
  end.

(** ** Write-back (mod.rs) *)

(** The loop [while written < chunk_buffer.len()] *)
Fixpoint write_chunk (fuel : nat) (file : Z) (bytes : list byte) : VM (result FSError unit) :=
  match fuel, bytes with
  | _, [] => mret (Ok tt)
  | O, _ => mret (Err FSError.Other)
  | S fuel, _ =>
      count ← on_files (λ fs, file_write fs file bytes);
      match count with
      | Err e => mret (Err e)
      | Ok count => if count =? 0 then mret (Err FSError.Other) else write_chunk fuel file (drop (Z.to_nat count) bytes)
      end
  end.

Definition flush_chunk (file chunk_start : Z) (bytes : list byte) : VM (result FSError unit) :=
  match bytes with
  | [] => mret (Ok tt)
  | _ =>
      position ← on_files (λ fs, seek_start fs file chunk_start);
      match position with
      | Err e => mret (Err e)
      | Ok _ => write_chunk (length bytes) file bytes
      end
  end.

(** A page to write: its page, its frame, its place in the file and the length *)
Record page_write := mkPageWrite { pw_page : Z; pw_frame : Z; pw_offset : Z; pw_len : Z }.

Fixpoint write_pages (file : Z) (writes : list page_write) (chunk : list byte) (chunk_start chunk_end : Z)
  : VM (result FSError unit) :=
  match writes with
  | [] => flush_chunk file chunk_start chunk
  | w :: writes =>
      bytes ← gets (λ m, zslice (frame_bytes m w.(pw_frame)) 0 w.(pw_len));
      let next_start := match chunk with [] => w.(pw_offset) | _ => chunk_start end in
      if match chunk with [] => false | _ => negb (chunk_end =? w.(pw_offset)) end then
        flushed ← flush_chunk file chunk_start chunk;
        match flushed with
        | Err e => mret (Err e)
        | Ok _ => write_pages file writes bytes w.(pw_offset) (w.(pw_offset) + w.(pw_len))
        end
      else write_pages file writes (chunk ++ bytes) next_start (w.(pw_offset) + w.(pw_len))
  end.

(** [with_file_write_cursor(false, ..)] *)
Definition with_file_write_cursor {X} (file : Z) (c : VM (result FSError X)) : VM (result FSError X) :=
  resolved ← gets (λ m, resolve_file m.(m_files) file);
  match resolved with
  | Err e => mret (Err e)
  | Ok _ =>
      current ← on_files (λ fs, seek_current fs file);
      match current with
      | Err e => mret (Err e)
      | Ok current =>
          r ← c;
          _ ← on_files (λ fs, seek_start fs file current);
          mret r
      end
  end.

Definition page_writes (m : Machine A F) (p : Z) (area : MemoryArea) (offset current_file_bytes first last : Z) : list page_write :=
  omap (λ page,
    frame ← fst <$> m.(m_ptes) !! (p, page);
    let page_offset := page - area.(start) in
    if current_file_bytes <=? page_offset then None
    else Some (mkPageWrite page frame (offset + page_offset) (Z.min PAGE_SIZE (current_file_bytes - page_offset))))
  (range_inclusive first last).

Definition write_back_area_range (p : Z) (area : MemoryArea) (start' end' : Z) : VM (result FSError unit) :=
  match area.(data) with
  | Data.File offset file_bytes _ file true =>
      let write_start := Z.max start' area.(start) in
      let write_end := Z.min end' area.(end_) in
      if write_end <=? write_start then mret (Ok tt)
      else
        current_file_bytes ← gets (λ m,
          Z.max match info_size m.(m_files) file with Ok size => sat_sub size offset | Err _ => file_bytes end file_bytes);
        _ ← modify (λ m, match readonly_page_cache_file m.(m_files) file with
                         | Some id => with_files (invalidate_file m.(m_files) id.1) m
                         | None => m
                         end);
        writes ← gets (λ m, page_writes m p area offset current_file_bytes (page_of write_start) (page_of (write_end - 1)));
        written ← with_file_write_cursor file (write_pages file writes [] 0 0);
        match written with
        | Err e => mret (Err e)
        | Ok _ =>
            _ ← for_each writes (λ w,
                  entry ← pte p w.(pw_page);
                  match entry with
                  | Some (_, flags) => _ ← update_flags p w.(pw_page) (remove_flag flags DIRTY); mret tt
                  | None => mret tt
                  end);
            mret (Ok tt)
        end
  | _ => mret (Ok tt)
  end.

Fixpoint write_back_areas (p : Z) (areas : list MemoryArea) (range : MemoryArea → Z * Z) : VM (result FSError unit) :=
  match areas with
  | [] => mret (Ok tt)
  | area :: areas =>
      r ← write_back_area_range p area (range area).1 (range area).2;
      match r with Err e => mret (Err e) | Ok _ => write_back_areas p areas range end
  end.

Definition flush_file_mappings (p start' len : Z) : VM (result FSError unit) :=
  if len =? 0 then mret (Ok tt)
  else
    st ← space p;
    write_back_areas p (List.filter (λ a, overlaps a start' (start' + len)) st.(memory_areas)) (λ _, (start', start' + len)).

Definition flush_all_file_mappings (p : Z) : VM (result FSError unit) :=
  st ← space p;
  write_back_areas p (List.filter is_user st.(memory_areas)) (λ area, (area.(start), area.(end_))).

Definition try_unmap (p start' len : Z) : VM (result FSError unit) :=
  if len =? 0 then mret (Ok tt)
  else
    flushed ← flush_file_mappings p start' len;
    match flushed with
    | Err e => mret (Err e)
    | Ok _ =>
        let end' := start' + len in
        frames ← unmap_pages p (range_inclusive (page_of start') (page_of (end' - 1)));
        _ ← for_each frames deallocate_frame;
        st ← space p;
        _ ← set_space p (unmap_areas st start' end');
        mret (Ok tt)
    end.

Definition unmap (p start' len : Z) : VM unit := _ ← try_unmap p start' len; mret tt.

(** ** Duplicating and releasing an address space (clone.rs, mod.rs) *)

(** [matches!(area.data, Data::File { shared: true, .. } | Data::Shared { .. })] *)
Definition is_shared_mapping (area : MemoryArea) : bool :=
  match area.(data) with Data.File _ _ _ _ true => true | Data.Shared _ _ _ => true | _ => false end.

Definition clone_page (p child : Z) (share_vm : bool) (area : MemoryArea) (page : Z) : VM unit :=
  entry ← pte p page;
  match entry with
  | None => mret tt
  | Some (frame, flags) =>
      if KERNEL_MEM_START <=? page then mret tt
      else
        already_ref_counted ← is_ref_counted frame;
        new_flags ← (if has_flag flags WRITABLE && negb (is_shared_mapping area) && negb share_vm
                     then _ ← update_flags p page (as_cow_flags flags); mret (as_cow_flags flags)
                     else mret flags);
        _ ← map_to child page frame new_flags;
        if already_ref_counted : bool then increase_ref frame else increase_ref_by frame 2
  end.

Definition clone_area (p child : Z) (share_vm : bool) (area : MemoryArea) : VM unit :=
  if area_pages area =? 0 then mret tt
  else for_each (range_inclusive (page_of area.(start)) (page_of (area.(end_) - 1))) (clone_page p child share_vm area).

(** [child]: the new space, whose page table is empty; its areas are cloned before the loop. *)
Definition clone_with_vm_sharing (p child : Z) (share_vm : bool) : VM unit :=
  st ← space p;
  _ ← modify (λ m, with_spaces (<[child := mkAddrSpace st.(memory_areas) st.(user_mem) None]> m.(m_areas)) m);
  for_each st.(memory_areas) (clone_area p child share_vm).

Definition clone_all (p child : Z) : VM unit := clone_with_vm_sharing p child false.
Definition clone_shared_vm (p child : Z) : VM unit := clone_with_vm_sharing p child true.

Fixpoint release_areas (p : Z) (write_back : bool) (areas : list MemoryArea) : VM (list Z) :=
  match areas with
  | [] => mret []
  | area :: areas =>
      if negb (is_user area) then release_areas p write_back areas
      else
        _ ← (if write_back then write_back_area_range p area area.(start) area.(end_) else mret (Ok tt));
        frames ← unmap_pages p (page_range (page_of area.(start)) (page_of area.(end_)));
        more ← release_areas p write_back areas;
        mret (frames ++ more)
  end.

Definition release_user_mappings (p : Z) (write_back : bool) : VM unit :=
  st ← space p;
  frames ← release_areas p write_back st.(memory_areas);
  _ ← for_each frames deallocate_frame;
  set_space p (mkAddrSpace [] USER_MEM_START None).

(** The page tables that [clean] also exchanges are not modelled. *)
Definition clean (p : Z) : VM unit := release_user_mappings p true.
Definition clean_for_exit (p : Z) : VM unit := release_user_mappings p true.

(** ** Permissions and allocation *)

Definition set_permissions (p start' end' protection : Z) : VM unit :=
  if end' <=? start' then mret tt
  else
    st ← space p;
    _ ← set_space p (update_permissions st start' end' protection);
    for_each (range_inclusive (page_of start') (page_of (end' - 1)))
      (λ page, _ ← update_flags p page (protection_to_page_flags protection); mret tt).

Definition fetch_user_mem (p pages : Z) : VM Z :=
  st ← space p;
  let '(mem, st) := fetch_add_user_mem st pages in
  _ ← modify (λ m, with_spaces (<[p := st]> m.(m_areas)) m);
  mret mem.

Definition allocate_user_pages (p pages : Z) : VM Z :=
  mem ← fetch_user_mem p pages;
  map_area p (area_new_with_guard mem pages (Z.lor PRESENT (Z.lor WRITABLE USER_ACCESSIBLE))
    (Z.lor PROT_READ PROT_WRITE) (Data.Normal default_permissions) false).

Definition allocate_user_lazily (p pages protection : Z) (data : Data) : VM Z :=
  mem ← fetch_user_mem p pages;
  _ ← register p (area_new mem pages (protection_to_page_flags protection) protection data true);
  mret mem.
End apply.
