(* ===== verification/VmUser.v ===== *)
(** * User memory and page faults

    memory/addrspace/user.rs and memory/user_safe.rs: the copies between the kernel and the
    memory of a process, page by page, with the pages they apply and copy on write;
    interrupts/pagefault.rs: what a page fault does.  Over the machine of Vm.

    [VirtAddr::new] of the x86_64 crate panics for an address that is not canonical. *)

From S2P Require Import Prelude Errors SignalData SparseFile AddrAreas Vm.

Open Scope Z_scope.

Section user.
Context {A F : Type} `{BuddyAllocator A} `{MappedFiles F}.
Abbreviation VM := (VM A F).

(** ** Access to a page (user.rs) *)

Definition canonical (addr : Z) : bool := (addr <? 2 ^ 47) || (2 ^ 64 - 2 ^ 47 <=? addr).

Definition virt_addr (addr : Z) : VM Z := if canonical addr then mret addr else panic.

Definition valid_user_access (addr len : Z) : bool := bool_decide (is_Some (checked_user_range addr len)).

Definition is_file_backed (area : MemoryArea) : bool := match area.(data) with Data.File _ _ _ _ _ => true | _ => false end.

(** A page of a lazy area, with the following ones of a file *)
Definition apply_lazy (p addr : Z) (area : MemoryArea) : VM unit :=
  _ ← apply_page_cluster p (page_of addr) area (if is_file_backed area then FILE_LAZY_CLUSTER_PAGES else 1);
  mret tt.

Definition ensure_user_page_readable (p addr len : Z) : VM bool :=
  if negb (valid_user_access addr len) then mret false
  else
    found ← find_area p addr;
    match found with
    | None => mret false
    | Some area =>
        if negb (is_user area) || negb (has_flag area.(protection) PROT_READ) then mret false
        else
          entry ← pte p (page_of addr);
          match entry with
          | Some (_, flags) => mret (has_flag flags USER_ACCESSIBLE)
          | None =>
              if area.(lazy) && has_flag area.(flags) USER_ACCESSIBLE then
                _ ← apply_lazy p addr area;
                entry ← pte p (page_of addr);
                mret match entry with Some (_, flags) => has_flag flags USER_ACCESSIBLE | None => false end
              else mret false
          end
    end.

Definition ensure_user_page_writable (p addr len : Z) : VM bool :=
  if negb (valid_user_access addr len) then mret false
  else
    entry ← pte p (page_of addr);
    match entry with
    | Some (_, flags) =>
        if negb (has_flag flags USER_ACCESSIBLE) then mret false
        else if has_flag flags COW_FLAG then _ ← replace_cow_page p addr; mret true
        else mret (has_flag flags WRITABLE)
    | None =>
        found ← find_area p addr;
        match found with
        | None => mret false
        | Some area =>
            if area.(lazy) && is_user area && has_flag area.(flags) USER_ACCESSIBLE && has_flag area.(flags) WRITABLE then
              _ ← apply_lazy p addr area;
              entry ← pte p (page_of addr);
              mret match entry with
                   | Some (_, flags) => has_flag flags USER_ACCESSIBLE && has_flag flags WRITABLE
                   | None => false
                   end
            else mret false
        end
    end.

(** ** Copies *)

(** The part of [n] bytes at [addr] that is on its page *)
Definition chunk_len (addr n : Z) : Z := Z.min n (PAGE_SIZE - addr mod PAGE_SIZE).

(** Every round copies at least a byte. *)
Fixpoint write_bytes_loop (fuel : nat) (p addr : Z) (src : list byte) : VM (result SyscallError unit) :=
  match fuel, src with
  | _, [] | O, _ => mret (Ok tt)
  | S fuel, _ =>
      virt ← virt_addr addr;
      let n := chunk_len virt (zlen src) in
      writable ← ensure_user_page_writable p virt n;
      if negb writable then mret (Err SyscallError.BadAddress)
      else
        entry ← pte p (page_of virt);
        match entry with
        | None => mret (Err SyscallError.BadAddress)
        | Some (frame, _) =>
            _ ← write_frame frame (virt mod PAGE_SIZE) (zslice src 0 n);
            write_bytes_loop fuel p (addr + n) (drop (Z.to_nat n) src)
        end
  end.

Definition write_bytes (p addr : Z) (src : list byte) : VM (result SyscallError unit) :=
  write_bytes_loop (length src) p addr src.

Fixpoint read_bytes_loop (fuel : nat) (p addr len : Z) : VM (result SyscallError (list byte)) :=
  match fuel with
  | O => mret (Ok [])
  | S fuel =>
      if len <=? 0 then mret (Ok [])
      else
        virt ← virt_addr addr;
        let n := chunk_len virt len in
        readable ← ensure_user_page_readable p virt n;
        if negb readable then mret (Err SyscallError.BadAddress)
        else
          entry ← pte p (page_of virt);
          match entry with
          | None => mret (Err SyscallError.BadAddress)
          | Some (frame, _) =>
              bytes ← gets (λ m, zslice (frame_bytes m frame) (virt mod PAGE_SIZE) (virt mod PAGE_SIZE + n));
              rest ← read_bytes_loop fuel p (addr + n) (len - n);
              mret match rest with Ok rest => Ok (bytes ++ rest) | Err e => Err e end
          end
  end.

Definition read_bytes (p addr len : Z) : VM (result SyscallError (list byte)) :=
  read_bytes_loop (Z.to_nat len) p addr len.

(** [user_safe::write_buffer] and [user_safe::read_buffer]; the typed [write] and [read] are
    these for the bytes of a value, with the same check of the pointer. *)
Definition user_safe_write_buffer (p ptr : Z) (bytes : list byte) : VM (result SyscallError unit) :=
  match bytes with
  | [] => mret (Ok tt)
  | _ => if ptr =? 0 then mret (Err SyscallError.BadAddress) else write_bytes p ptr bytes
  end.

Definition user_safe_read_buffer (p ptr len : Z) : VM (result SyscallError (list byte)) :=
  if len =? 0 then mret (Ok [])
  else if ptr =? 0 then mret (Err SyscallError.BadAddress) else read_bytes p ptr len.

(** ** Page faults (pagefault.rs) *)

Definition PROTECTION_VIOLATION : Z := 1.
Definition CAUSED_BY_WRITE : Z := 2.
Definition INSTRUCTION_FETCH : Z := 16.

Definition fault_allowed_by_protection (error_code protection : Z) : bool :=
  if has_flag error_code INSTRUCTION_FETCH then has_flag protection PROT_EXEC
  else if has_flag error_code CAUSED_BY_WRITE then has_flag protection PROT_WRITE
  else has_flag protection PROT_READ.

Definition fault_area (p address : Z) : VM (option MemoryArea) :=
  found ← find_area p address;
  match found with
  | Some area => mret (Some area)
  | None =>
      st ← space p;
      match grown_stack st.(memory_areas) (page_of address) with
      | None => mret None
      | Some index =>
          let st := grow_down st (page_of address) index in
          _ ← modify (λ m, with_spaces (<[p := st]> m.(m_areas)) m);
          mret (st.(memory_areas) !! index)
      end
  end.

Definition beyond_file (area : MemoryArea) (address : Z) : bool :=
  match area.(data) with
  | Data.File _ file_bytes zero_fill_after_file _ _ =>
      negb zero_fill_after_file && (file_bytes <=? page_of address - area.(start))
  | _ => false
  end.

(** The signal for the thread; a signal for the kernel itself is a panic. *)
Definition fault_signal (p address error_code : Z) : VM (option Signal) :=
  entry ← pte p (page_of address);
  if has_flag error_code CAUSED_BY_WRITE && match entry with Some (_, flags) => has_flag flags COW_FLAG | None => false end then
    _ ← replace_cow_page p address; mret None
  else if has_flag error_code PROTECTION_VIOLATION then mret (Some Signal.SIGSEGV)
  else
    found ← fault_area p address;
    match found with
    | None => mret (Some Signal.SIGSEGV)
    | Some area =>
        if area.(lazy) && fault_allowed_by_protection error_code area.(protection) then
          if beyond_file area address then mret (Some Signal.SIGBUS)
          else _ ← apply_lazy p address area; mret None
        else mret (Some Signal.SIGSEGV)
    end.

Definition pagefault_handler (p address error_code : Z) (from_user : bool) : VM (option Signal) :=
  signal ← fault_signal p address error_code;
  match signal with
  | Some _ => if from_user then mret signal else panic
  | None => mret None
  end.
End user.
