(* ===== verification/VmCalls.v ===== *)
(** * The system calls on memory

    systemcall/implementations/memory_sync.rs, from [prot_to_protection] on: mmap, munmap,
    msync, mremap, mprotect, mlock, munlock, mlockall, munlockall, mincore, get_mempolicy,
    over the machine of Vm; [p] is the current process.  The descriptor table and the objects
    that mmap asks are an interface; a mapping of a device is an argument.  The address of a
    new [Arc] is an argument.

    Adding to a [VirtAddr] panics when the sum is not canonical. *)

From S2P Require Import Prelude Errors SignalData SparseFile AddrAreas Vm VmUser.

Open Scope Z_scope.

(** ** Flags *)

Definition MAP_SHARED : Z := 0x01.
Definition MAP_PRIVATE : Z := 0x02.
Definition MAP_SHARED_VALIDATE : Z := 0x03.
Definition MAP_FIXED : Z := 0x10.
Definition MAP_ANONYMOUS : Z := 0x20.
Definition MAP_GROWSDOWN : Z := 0x0100.
Definition MAP_LOCKED : Z := 0x2000.
Definition MAP_POPULATE : Z := 0x008000.
Definition MAP_SYNC : Z := 0x080000.
Definition MAP_FIXED_NOREPLACE : Z := 0x100000.
(** [MmapFlags::all] *)
Definition MAP_ALL : Z := 0x1FF97B.
Definition MREMAP_MAYMOVE : Z := 1.
Definition MREMAP_FIXED : Z := 2.
Definition MS_ASYNC : Z := 1.
Definition MS_INVALIDATE : Z := 2.
Definition MS_SYNC : Z := 4.
Definition MCL_ONFAULT : Z := 4.
Definition MPOL_NODE : Z := 1.
Definition MPOL_ADDR : Z := 2.
Definition MPOL_MEMS_ALLOWED : Z := 4.

Definition intersects (flags bits : Z) : bool := negb (Z.land flags bits =? 0).

Definition prot_to_protection (prot : Z) : result SyscallError Z :=
  if negb (Z.land prot (Z.lnot (Z.lor PROT_READ (Z.lor PROT_WRITE PROT_EXEC))) =? 0) then Err SyscallError.InvalidArguments
  else Ok (Z.lor (if intersects prot PROT_READ then PROT_READ else 0)
          (Z.lor (if intersects prot PROT_WRITE then PROT_WRITE else 0)
                 (if intersects prot PROT_EXEC then PROT_EXEC else 0))).

Definition mapping_overlaps (areas : list MemoryArea) (s e : Z) : bool := existsb (λ a, overlaps a s e) areas.

Definition mmap_shared (flags : Z) : result SyscallError bool :=
  let bits := Z.land flags MAP_SHARED_VALIDATE in
  if bits =? MAP_SHARED then Ok true
  else if bits =? MAP_PRIVATE then Ok false
  else if bits =? MAP_SHARED_VALIDATE then Ok true
  else Err SyscallError.InvalidArguments.

Definition check_mmap_flags (flags : Z) : result SyscallError unit :=
  let unknown := Z.land flags (Z.lnot MAP_ALL) in
  if negb (unknown =? 0) && has_flag flags MAP_SHARED_VALIDATE then Err SyscallError.OperationNotSupported
  else if has_flag flags MAP_SYNC && negb (has_flag flags MAP_SHARED_VALIDATE) then Err SyscallError.InvalidArguments
  else if has_flag flags MAP_FIXED_NOREPLACE && has_flag flags MAP_FIXED then Err SyscallError.InvalidArguments
  else Ok tt.

(** ** Ranges *)

Definition checked_mul (w a b : Z) : option Z := if 2 ^ w <=? a * b then None else Some (a * b).

Definition align_down (a n : Z) : Z := a - a mod n.
(** It panics on overflow, which a checked user range excludes. *)
Definition align_up (a n : Z) : Z := align_down (a + (n - 1)) n.

Definition checked_user_mapping (addr pages : Z) : result SyscallError (Z * Z) :=
  if (addr =? 0) || negb (addr mod PAGE_SIZE =? 0) then Err SyscallError.InvalidArguments
  else
    match len ← checked_mul 64 pages PAGE_SIZE; checked_user_range addr len with
    | Some range => Ok range
    | None => Err SyscallError.InvalidArguments
    end.

Definition mmap_hint_addr (addr pages : Z) (areas : list MemoryArea) : option Z :=
  if (addr =? 0) || negb (addr mod PAGE_SIZE =? 0) then None
  else
    match checked_user_mapping addr pages with
    | Ok (s, e) => if mapping_overlaps areas s e then None else Some s
    | Err _ => None
    end.

Definition checked_user_range_for_memory_syscall (addr len : Z) : result SyscallError (Z * Z) :=
  if len =? 0 then Ok (addr, addr)
  else
    match checked_add 64 addr len with
    | None => Err SyscallError.NoMemory
    | Some e => match checked_user_range addr len with Some _ => Ok (addr, e) | None => Err SyscallError.NoMemory end
    end.

(** A round moves the cursor to the end of another area. *)
Fixpoint covers_loop (fuel : nat) (areas : list MemoryArea) (cursor e : Z) : bool :=
  if e <=? cursor then true
  else
    match fuel with
    | O => false
    | S fuel =>
        match List.find (λ a, contains a cursor) areas with
        | None => false
        | Some area => covers_loop fuel areas (Z.min area.(end_) e) e
        end
    end.

Definition mapped_area_covers_range (areas : list MemoryArea) (s e : Z) : bool := covers_loop (length areas) areas s e.

Definition checked_page_range_for_memory_syscall (addr len : Z) : result SyscallError (Z * Z) :=
  range ← checked_user_range_for_memory_syscall addr len;
  let '(s, e) := range in
  if s =? e then Ok (s, e)
  else
    let page_start := align_down s PAGE_SIZE in
    let page_end := align_up e PAGE_SIZE in
    if USER_MEM_END <? page_end then Err SyscallError.NoMemory else Ok (page_start, page_end).

Definition area_covers_range (area : MemoryArea) (s pages : Z) : bool :=
  (area.(start) <=? s) && (s + pages * PAGE_SIZE <=? area.(end_)).

Definition ranges_overlap (s len other_start other_len : Z) : bool :=
  (s <? other_start + other_len) && (other_start <? s + len).

Definition remapped_area_data (area : MemoryArea) (offset pages : Z) : result SyscallError Data :=
  let len := pages * PAGE_SIZE in
  match area.(data) with
  | Data.Normal permissions => Ok (Data.Normal permissions)
  | Data.File file_offset file_bytes zero_fill file shared =>
      Ok (Data.File (file_offset + offset) (Z.min (sat_sub file_bytes offset) len) zero_fill file shared)
  | Data.Shared _ _ _ => Err SyscallError.InvalidArguments
  end.

(** ** Operations *)

Section calls.
Context {A F : Type} `{BuddyAllocator A} `{MappedFiles F}.
Abbreviation VM := (VM A F).
Abbreviation Call X := (VM (result SyscallError X)).

(** [?] *)
Definition attempt {X Y} (c : Call X) (k : X → Call Y) : Call Y :=
  VM_bind A F _ _ (λ r, match r with Ok x => k x | Err e => mret (Err e) end) c.

Definition lift {X} (r : result SyscallError X) : Call X := mret r.

Definition fail {X} (e : SyscallError) : Call X := mret (Err e).

Definition lift_fs {X} (c : VM (result FSError X)) : Call X :=
  VM_bind A F _ _ (λ r, mret match r with Ok x => Ok x | Err e => Err (fs_error_as_syscall_error e) end) c.

Definition virt_add (addr n : Z) : VM Z := if (addr + n <? 2 ^ 64) && canonical (addr + n) then mret (addr + n) else panic.

Definition areas (p : Z) : VM (list MemoryArea) := gets (λ m, (default addrspace_default (m.(m_areas) !! p)).(memory_areas)).

Definition populate_mapping (p s pages : Z) : VM unit :=
  for_each (pages_from s (Z.to_nat pages)) (λ address,
    area ← find_area p address;
    match area with
    | None => mret tt
    | Some area => _ ← apply_page p (page_of address) area; mret tt
    end).

Record MappingOptions := mkOptions { o_locked : bool; o_grows_down : bool; o_populate : bool }.

Definition register_lazy_mapping (p s pages protection : Z) (data : Data) (options : MappingOptions) : VM Z :=
  let area := with_grows_down (with_locked (area_new s pages (protection_to_page_flags protection) protection data true)
    options.(o_locked)) options.(o_grows_down) in
  _ ← register p area;
  _ ← (if options.(o_populate) || options.(o_locked) then populate_mapping p s pages else mret tt);
  mret s.

(** The loop of [anonymous_mapping_data]; the frames that it had are lost when one is missing. *)
Fixpoint allocate_zeroed (n : nat) (frames : list Z) : Call (list Z) :=
  match n with
  | O => mret (Ok frames)
  | S n =>
      frame ← allocate_frame;
      match frame with
      | None => fail SyscallError.NoMemory
      | Some frame => _ ← zero_frame frame; allocate_zeroed n (frames ++ [frame])
      end
  end.

Definition anonymous_mapping_data (arc pages : Z) (shared : bool) (protection : Z) : Call Data :=
  if negb shared then mret (Ok (Data.Normal default_permissions))
  else attempt (allocate_zeroed (Z.to_nat pages) []) (λ frames,
    _ ← shared_frames_new arc frames;
    mret (Ok (Data.Shared arc frames (protection_to_page_flags protection)))).

(** [FileLikeObject::mmap_data] *)
Definition mmap_data (fs : F) (file offset pages : Z) (shared : bool) : Data :=
  let file_bytes := match info_size fs file with Ok size => Z.min (sat_sub size offset) (uwrap 64 (pages * 4096)) | Err _ => 0 end in
  Data.File offset file_bytes false file shared.

Definition lock_range (p s e : Z) (locked : bool) : VM unit :=
  st ← space p; modify (λ m, with_spaces (<[p := set_locked st s e locked]> m.(m_areas)) m).

(** ** mmap *)

(** Descriptors and objects: an object by descriptor, its flags, the write seal of a memfd,
    the file, whether that is a device, and [as_mappable] with [map] *)
Context (get_object : Z → Z → option Z) (object_flags : Z → result SyscallError Z)
  (memfd_allows_shared_write : Z → option bool) (as_file_like : Z → result SyscallError Z)
  (is_device_backed : Z → bool) (object_map : Z → Z → Z → Z → Z → Call Z).

Definition fd_allows_shared_write (object : Z) : result SyscallError bool :=
  flags ← object_flags object;
  if Z.land flags (Z.lor WRONLY RDWR) =? 0 then Ok false
  else
    match as_file_like object with
    | Ok file => Ok (default true (memfd_allows_shared_write file))
    | Err _ => Ok true
    end.

Definition check_file_mapping_readable (object : Z) : result SyscallError unit :=
  flags ← object_flags object;
  if has_flag flags WRONLY && negb (has_flag flags RDWR) then Err SyscallError.AccessDenied else Ok tt.

Definition check_shared_writable_mapping (object : Z) (shared : bool) (protection : Z) : result SyscallError unit :=
  if negb shared || negb (has_flag protection PROT_WRITE) then Ok tt
  else
    allows ← fd_allows_shared_write object;
    if allows : bool then Ok tt else Err SyscallError.AccessDenied.

Definition shared_write_permission (object : Z) (shared : bool) : result SyscallError bool :=
  if negb shared then Ok false else fd_allows_shared_write object.

Definition descriptor (p fd : Z) : result SyscallError Z :=
  if fd <? 0 then Err SyscallError.BadFileDescriptor
  else match get_object p fd with Some object => Ok object | None => Err SyscallError.BadFileDescriptor end.

(** The file of a fixed mapping *)
Definition fixed_file (p fd : Z) (shared : bool) (protection : Z) : result SyscallError Z :=
  object ← descriptor p fd;
  _ ← check_file_mapping_readable object;
  _ ← check_shared_writable_mapping object shared protection;
  file ← as_file_like object;
  if is_device_backed file then Err SyscallError.InvalidArguments else Ok file.

Definition mmap_fixed (p arc addr pages protection flags fd offset : Z) (shared : bool) : Call Z :=
  if negb (offset mod 4096 =? 0) then fail SyscallError.InvalidArguments
  else attempt (lift (checked_user_mapping addr pages)) (λ '(s, e),
    attempt (if has_flag flags MAP_ANONYMOUS then mret (Ok None)
             else attempt (lift (fixed_file p fd shared protection)) (λ file,
               fs ← gets m_files; mret (Ok (Some (mmap_data fs file offset pages shared))))) (λ file_mapping,
    l ← areas p;
    if has_flag flags MAP_FIXED_NOREPLACE && mapping_overlaps l s e then fail SyscallError.FileAlreadyExists
    else
      _ ← (if has_flag flags MAP_FIXED then unmap p s (pages * 4096) else mret tt);
      attempt (match file_mapping with Some data => mret (Ok data) | None => anonymous_mapping_data arc pages shared protection end) (λ data,
      _ ← register_lazy_mapping p s pages protection data
            (mkOptions (has_flag flags MAP_LOCKED) (has_flag flags MAP_GROWSDOWN) (has_flag flags MAP_POPULATE));
      mret (Ok addr)))).

(** [mmap_hint_addr(..).unwrap_or_else(..)] *)
Definition mmap_address (p addr pages : Z) : VM Z :=
  l ← areas p;
  match mmap_hint_addr addr pages l with Some s => mret s | None => fetch_user_mem p pages end.

(** The permission that [Mmap] stores with a shared mapping of a device *)
Definition set_shared_write (p address : Z) (allowed : bool) : VM unit :=
  area ← find_area p address;
  st ← space p;
  match area, st.(last_area_index) with
  | Some area, Some index =>
      match area.(data) with
      | Data.Normal permissions =>
          let area := with_bounds area area.(start) area.(end_)
            (Data.Normal (mkPermissions (Some allowed) permissions.(shared_mapping))) in
          modify (λ m, with_spaces (<[p := mkAddrSpace (<[index := area]> st.(memory_areas)) st.(user_mem) st.(last_area_index)]> m.(m_areas)) m)
      | _ => mret tt
      end
  | _, _ => mret tt
  end.

Definition mmap_object (p addr pages protection flags fd offset : Z) (shared : bool) (options : MappingOptions) : Call Z :=
  if negb (offset mod 4096 =? 0) then fail SyscallError.InvalidArguments
  else attempt (lift (descriptor p fd)) (λ object,
    attempt (lift (check_file_mapping_readable object)) (λ _,
    attempt (lift (check_shared_writable_mapping object shared protection)) (λ _,
    attempt (lift (shared_write_permission object shared)) (λ shared_write_allowed,
    match as_file_like object with
    | Ok file =>
        if negb (is_device_backed file) then
          fs ← gets m_files;
          address ← mmap_address p addr pages;
          address ← register_lazy_mapping p address pages protection (mmap_data fs file offset pages shared) options;
          mret (Ok address)
        else
          attempt (object_map p object offset pages protection) (λ address,
          _ ← (if shared then set_shared_write p address shared_write_allowed else mret tt);
          mret (Ok address))
    | Err _ =>
        attempt (object_map p object offset pages protection) (λ address,
        _ ← (if shared then set_shared_write p address shared_write_allowed else mret tt);
        mret (Ok address))
    end)))).

Definition mmap (p arc addr len prot flags fd offset : Z) : Call Z :=
  attempt (lift (check_mmap_flags flags)) (λ _,
  attempt (lift (prot_to_protection prot)) (λ protection,
  if len =? 0 then
    if negb (has_flag flags MAP_ANONYMOUS) then
      attempt (lift (descriptor p fd)) (λ _, fail SyscallError.InvalidArguments)
    else fail SyscallError.InvalidArguments
  else
    let pages := div_ceil len 4096 in
    attempt (lift (mmap_shared flags)) (λ shared,
    let options := mkOptions (has_flag flags MAP_LOCKED) (has_flag flags MAP_GROWSDOWN) (has_flag flags MAP_POPULATE) in
    if intersects flags (Z.lor MAP_FIXED MAP_FIXED_NOREPLACE) then mmap_fixed p arc addr pages protection flags fd offset shared
    else if has_flag flags MAP_ANONYMOUS then
      attempt (anonymous_mapping_data arc pages shared protection) (λ data,
      s ← mmap_address p addr pages;
      s ← register_lazy_mapping p s pages protection data options;
      mret (Ok s))
    else mmap_object p addr pages protection flags fd offset shared options))).

(** ** munmap, msync, mprotect *)

(** And whether SIGBUS is sent to the process *)
Definition munmap (p addr len : Z) : VM (result SyscallError Z * bool) :=
  if negb (addr mod PAGE_SIZE =? 0) then mret (Err SyscallError.InvalidArguments, false)
  else
    match checked_user_range_for_memory_syscall addr len with
    | Err e => mret (Err e, false)
    | Ok (s, e) =>
        if s =? e then mret (Ok 0, false)
        else
          let e := align_up e PAGE_SIZE in
          if USER_MEM_END <? e then mret (Err SyscallError.NoMemory, false)
          else
            r ← try_unmap p addr (e - s);
            mret match r with Ok _ => (Ok 0, false) | Err err => (Err (fs_error_as_syscall_error err), true) end
    end.

Definition msync (p addr len flags : Z) : Call Z :=
  if negb (addr mod PAGE_SIZE =? 0) then fail SyscallError.InvalidArguments
  else if len =? 0 then mret (Ok 0)
  else if negb (Z.land flags (Z.lnot (Z.lor MS_ASYNC (Z.lor MS_INVALIDATE MS_SYNC))) =? 0) then fail SyscallError.InvalidArguments
  else if has_flag flags MS_ASYNC && has_flag flags MS_SYNC then fail SyscallError.InvalidArguments
  else attempt (lift (checked_page_range_for_memory_syscall addr len)) (λ '(s, e),
    st ← space p;
    if negb (mapped_area_covers_range st.(memory_areas) s e) then fail SyscallError.NoMemory
    else if has_flag flags MS_INVALIDATE && range_has_locked_area st s e then fail SyscallError.DeviceOrResourceBusy
    else attempt (lift_fs (flush_file_mappings p addr len)) (λ _, mret (Ok 0))).

Definition mprotect (p addr len prot : Z) : Call Z :=
  attempt (lift (prot_to_protection prot)) (λ protection,
  if len =? 0 then mret (Ok 0)
  else if negb (addr mod PAGE_SIZE =? 0) then fail SyscallError.InvalidArguments
  else
    match span ← checked_mul 64 (div_ceil len 4096) PAGE_SIZE; checked_add 64 addr span with
    | None => fail SyscallError.NoMemory
    | Some e =>
        e ← virt_addr e;
        st ← space p;
        attempt (lift (validate_permission_update object_flags memfd_allows_shared_write st addr e protection)) (λ _,
        _ ← set_permissions p addr e protection;
        mret (Ok 0))
    end).

(** ** mremap *)

(** [copy_nonoverlapping] between two pages *)
Definition copy_phys (src dst len : Z) : VM unit :=
  bytes ← gets (λ m, zslice (frame_bytes m (page_of src)) (src mod PAGE_SIZE) (src mod PAGE_SIZE + len));
  write_frame (page_of dst) (dst mod PAGE_SIZE) bytes.

(** The loop over the pages to copy; [again]: the source is translated again after the page
    is applied. *)
Fixpoint copy_pages (p old_addr new_addr old_len : Z) (new_area : MemoryArea) (again : bool) (pages : list Z) : Call unit :=
  match pages with
  | [] => mret (Ok tt)
  | i :: pages =>
      let src_addr := old_addr + i * PAGE_SIZE in
      let dst_addr := new_addr + i * PAGE_SIZE in
      src ← translate_addr p src_addr;
      match src with
      | None => copy_pages p old_addr new_addr old_len new_area again pages
      | Some src_phys =>
          _ ← apply_page p (page_of dst_addr) new_area;
          src_again ← (if again then translate_addr p src_addr else mret (Some src_phys));
          dst ← translate_addr p dst_addr;
          match src_again, dst with
          | Some src_phys, Some dst_phys =>
              _ ← (if src_phys =? dst_phys then mret tt else copy_phys src_phys dst_phys (Z.min 4096 (old_len - i * 4096)));
              copy_pages p old_addr new_addr old_len new_area again pages
          | _, _ => fail SyscallError.InvalidArguments
          end
      end
  end.

Definition page_indices (n : Z) : list Z := map Z.of_nat (seq 0 (Z.to_nat n)).

Definition mremap_fixed (p old_addr old_len old_pages new_pages new_addr : Z) (area : MemoryArea) : Call Z :=
  attempt (lift (remapped_area_data area (old_addr - area.(start)) new_pages)) (λ data,
  let new_area := with_grows_down (with_locked (area_new new_addr new_pages area.(flags) area.(protection) data area.(lazy))
    area.(locked)) area.(grows_down) in
  attempt (lift_fs (try_unmap p new_addr (new_pages * PAGE_SIZE))) (λ _,
  _ ← register p new_area;
  attempt (copy_pages p old_addr new_addr old_len new_area false (page_indices (Z.min old_pages new_pages))) (λ _,
  _ ← unmap p old_addr old_len;
  mret (Ok new_addr)))).

(** The mapping grows where it is: the first area that starts there. *)
Definition extend_in_place (p old_addr new_end new_pages : Z) : VM bool :=
  st ← space p;
  fs ← gets m_files;
  match list_find (λ a, a.(start) = old_addr) st.(memory_areas) with
  | None => mret false
  | Some (index, area) =>
      let data := match area.(data) with
                  | Data.File offset _ _ file shared => mmap_data fs file offset new_pages shared
                  | d => d
                  end in
      _ ← modify (λ m, with_spaces (<[p := grow_in_place st index area new_end data]> m.(m_areas)) m);
      mret true
  end.

Definition mremap_move (p old_addr old_len old_pages new_pages : Z) (area : MemoryArea) : Call Z :=
  new_start ← fetch_user_mem p new_pages;
  attempt (lift (remapped_area_data area 0 new_pages)) (λ new_data,
  let new_area := with_locked (area_new new_start new_pages area.(flags) area.(protection) new_data area.(lazy)) area.(locked) in
  _ ← register p new_area;
  let n := match area.(data) with Data.Shared _ _ _ => 0 | _ => old_pages end in
  attempt (copy_pages p old_addr new_start old_len new_area true (page_indices n)) (λ _,
  _ ← unmap p old_addr old_len;
  mret (Ok new_start))).

Definition mremap (p old_addr old_len new_len flags new_addr : Z) : Call Z :=
  if (old_len =? 0) || (new_len =? 0) then fail SyscallError.InvalidArguments
  else if has_flag flags MREMAP_FIXED && negb (has_flag flags MREMAP_MAYMOVE) then fail SyscallError.InvalidArguments
  else if has_flag flags MREMAP_FIXED && negb (new_addr mod PAGE_SIZE =? 0) then fail SyscallError.InvalidArguments
  else
    let old_pages := div_ceil old_len 4096 in
    let new_pages := div_ceil new_len 4096 in
    attempt (lift (checked_user_mapping old_addr old_pages)) (λ _,
    attempt (if has_flag flags MREMAP_FIXED then
               attempt (lift (checked_user_mapping new_addr new_pages)) (λ _,
               if ranges_overlap old_addr (old_pages * PAGE_SIZE) new_addr (new_pages * PAGE_SIZE)
               then fail SyscallError.InvalidArguments else mret (Ok tt))
             else mret (Ok tt)) (λ _,
    found ← find_area p old_addr;
    match found with
    | None => fail SyscallError.BadAddress
    | Some area =>
        if negb (area_covers_range area old_addr old_pages) then fail SyscallError.BadAddress
        else if has_flag flags MREMAP_FIXED then mremap_fixed p old_addr old_len old_pages new_pages new_addr area
        else if negb (area.(start) =? old_addr) then fail SyscallError.InvalidArguments
        else if new_pages <=? old_pages then
          _ ← (if new_len <? old_len then unmap p (old_addr + new_len) (old_len - new_len) else mret tt);
          mret (Ok old_addr)
        else
          old_end ← virt_add old_addr (old_pages * PAGE_SIZE);
          new_end ← virt_add old_addr (new_pages * PAGE_SIZE);
          l ← areas p;
          let extension_free := match checked_user_mapping old_addr new_pages with
                                | Ok _ => negb (mapping_overlaps l old_end new_end)
                                | Err _ => false
                                end in
          extended ← (if extension_free then extend_in_place p old_addr new_end new_pages else mret false);
          if extended : bool then mret (Ok old_addr)
          else if negb (has_flag flags MREMAP_MAYMOVE) then fail SyscallError.NoMemory
          else mremap_move p old_addr old_len old_pages new_pages area
    end)).

(** ** mlock and the rest *)

Definition ensure_mapped_user_page_range (p addr len : Z) : Call (Z * Z) :=
  attempt (lift (checked_page_range_for_memory_syscall addr len)) (λ '(s, e),
  if s =? e then mret (Ok (s, e))
  else
    l ← areas p;
    if mapped_area_covers_range l s e then mret (Ok (s, e)) else fail SyscallError.NoMemory).

(** [addrspace.read] of a byte of every page *)
Fixpoint touch_pages (p : Z) (pages : list Z) : Call unit :=
  match pages with
  | [] => mret (Ok tt)
  | page :: pages => attempt (read_bytes p page 1) (λ _, touch_pages p pages)
  end.

(** [limit]: RLIMIT_MEMLOCK; [beyond]: [current_process_may_lock_memory_beyond_limit] *)
Definition mlock (p addr len limit : Z) (beyond : bool) : Call Z :=
  if len =? 0 then mret (Ok 0)
  else attempt (ensure_mapped_user_page_range p addr len) (λ '(s, e),
    if (limit <? e - s) && negb beyond then fail SyscallError.NoMemory
    else attempt (touch_pages p (page_range s e)) (λ _,
    _ ← lock_range p s e true;
    mret (Ok 0))).

Definition munlock (p addr len : Z) : Call Z :=
  if len =? 0 then mret (Ok 0)
  else attempt (ensure_mapped_user_page_range p addr len) (λ '(s, e),
    _ ← lock_range p s e false;
    mret (Ok 0)).

(** It locks nothing. *)
Definition mlockall (flags : Z) : Call Z :=
  if (flags =? 0) || (flags =? MCL_ONFAULT) then fail SyscallError.InvalidArguments else mret (Ok 0).

Definition munlockall (p : Z) : Call Z :=
  st ← space p;
  _ ← lock_range p 0 st.(user_mem) false;
  mret (Ok 0).

Fixpoint residency (p : Z) (pages : list Z) : Call (list byte) :=
  match pages with
  | [] => mret (Ok [])
  | page :: pages =>
      area ← find_area p page;
      match area with
      | None => fail SyscallError.NoMemory
      | Some _ =>
          phys ← translate_addr p page;
          attempt (residency p pages) (λ bytes, mret (Ok (match phys with Some _ => Byte.x01 | None => x00 end :: bytes)))
      end
  end.

Definition mincore (p addr len vec : Z) : Call Z :=
  if len =? 0 then mret (Ok 0)
  else if vec =? 0 then fail SyscallError.BadAddress
  else if negb (addr mod PAGE_SIZE =? 0) then fail SyscallError.InvalidArguments
  else attempt (lift (checked_user_range_for_memory_syscall addr len)) (λ '(_, e),
    let page_count := div_ceil (e - addr) PAGE_SIZE in
    attempt (user_safe_read_buffer p vec page_count) (λ _,
    attempt (residency p (pages_from addr (Z.to_nat page_count))) (λ bytes,
    attempt (user_safe_write_buffer p vec bytes) (λ _, mret (Ok 0))))).

Definition word_bytes (b : byte) : list byte := b :: replicate 7 x00.

Fixpoint write_words (p ptr : Z) (words : list (list byte)) : Call unit :=
  match words with
  | [] => mret (Ok tt)
  | word :: words => attempt (user_safe_write_buffer p ptr word) (λ _, write_words p (uwrap 64 (ptr + 8)) words)
  end.

Definition get_mempolicy (p mode nodemask maxnode addr flags : Z) : Call Z :=
  if has_flag flags MPOL_MEMS_ALLOWED && intersects flags (Z.lor MPOL_ADDR MPOL_NODE) then fail SyscallError.InvalidArguments
  else if has_flag flags MPOL_ADDR && (addr =? 0) then fail SyscallError.InvalidArguments
  else if negb (has_flag flags MPOL_ADDR) && negb (addr =? 0) then fail SyscallError.InvalidArguments
  else if has_flag flags MPOL_NODE && negb (has_flag flags MPOL_ADDR) then fail SyscallError.InvalidArguments
  else if negb (nodemask =? 0) && (maxnode =? 0) then fail SyscallError.InvalidArguments
  else attempt (if has_flag flags MPOL_ADDR then
                  addr ← virt_addr addr;
                  area ← find_area p addr;
                  match area with
                  | None => fail SyscallError.BadAddress
                  | Some _ =>
                      phys ← translate_addr p addr;
                      if has_flag flags MPOL_NODE && match phys with None => true | Some _ => false end
                      then attempt (read_bytes p addr 1) (λ _, mret (Ok tt)) else mret (Ok tt)
                  end
                else mret (Ok tt)) (λ _,
    attempt (if negb (mode =? 0) && negb (has_flag flags MPOL_MEMS_ALLOWED)
             then user_safe_write_buffer p mode (replicate 4 x00) else mret (Ok tt)) (λ _,
    attempt (if nodemask =? 0 then mret (Ok tt)
             else
               let word_count := div_ceil maxnode 64 in
               let first_word := if has_flag flags MPOL_MEMS_ALLOWED then Byte.x01 else x00 in
               write_words p nodemask (word_bytes first_word :: replicate (Z.to_nat (word_count - 1)) (word_bytes x00))) (λ _,
    mret (Ok 0)))).
End calls.
