(* ===== verification/VmFrames.v ===== *)
(** * Frames are released exactly when nothing refers to them

    Over Vm and VmUser: the reference counts of frames agree with the page tables, the
    [SharedFrames] objects and the caches, through every operation on address spaces, and no
    frame that something refers to is free.  The state passing has a small logic of pre- and
    postconditions; a panic satisfies every postcondition. *)

From stdpp Require Import sets.
From Stdlib Require Import Permutation.
From S2P Require Import Prelude Errors SignalData SparseFile AddrAreas Vm VmUser.

Open Scope Z_scope.

(** ** Pre- and postconditions *)

Section hoare.
Context {A F : Type}.
Abbreviation VM := (VM A F).
Abbreviation Machine := (Machine A F).

Definition hoare {X} (P : Machine → Prop) (c : VM X) (Q : X → Machine → Prop) : Prop :=
  ∀ m, P m → match c m with Some (x, m') => Q x m' | None => True end.

Lemma hoare_bind {X Y} (P : Machine → Prop) (R : X → Machine → Prop) Q (c : VM X) (k : X → VM Y) :
  hoare P c R → (∀ x, hoare (R x) (k x) Q) → hoare P (mbind k c) Q.
Proof.
  intros Hc Hk m HP. unfold mbind, VM_bind. specialize (Hc m HP). destruct (c m) as [[x m']|]; [|done].
  exact (Hk x m' Hc).
Qed.

Lemma hoare_ret {X} (x : X) (Q : X → Machine → Prop) : hoare (Q x) (mret x) Q.
Proof. by intros m HP. Qed.

Lemma hoare_panic {X} P (Q : X → Machine → Prop) : hoare P panic Q.
Proof. by intros m HP. Qed.

Lemma hoare_gets {X} (f : Machine → X) (Q : X → Machine → Prop) : hoare (λ m, Q (f m) m) (gets f) Q.
Proof. by intros m HP. Qed.

Lemma hoare_modify (f : Machine → Machine) (Q : unit → Machine → Prop) : hoare (λ m, Q tt (f m)) (modify f) Q.
Proof. by intros m HP. Qed.

Lemma hoare_pre {X} (P P' : Machine → Prop) (c : VM X) Q : (∀ m, P m → P' m) → hoare P' c Q → hoare P c Q.
Proof. intros Himp Hc m HP. apply Hc. by apply Himp. Qed.

Lemma hoare_post {X} P (c : VM X) (Q Q' : X → Machine → Prop) : hoare P c Q' → (∀ x m, Q' x m → Q x m) → hoare P c Q.
Proof. intros Hc Himp m HP. specialize (Hc m HP). destruct (c m) as [[x m']|]; [|done]. by apply Himp. Qed.

(** An invariant, and a pure fact of the precondition *)
Lemma hoare_for_each {X} (I : Machine → Prop) (xs : list X) (c : X → VM unit) :
  (∀ x, x ∈ xs → hoare I (c x) (λ _, I)) → hoare I (for_each xs c) (λ _, I).
Proof.
  induction xs as [|x xs IH]; intros Hc; [by intros m HP|]. cbn. eapply hoare_bind; [apply Hc; left|].
  intros u. apply IH. intros y Hy. apply Hc. by right.
Qed.

Lemma hoare_pure {X} (φ : Prop) P (c : VM X) Q : (φ → hoare P c Q) → hoare (λ m, φ ∧ P m) c Q.
Proof. intros Hc m [Hφ HP]. by apply Hc. Qed.

Lemma hoare_state {X} P (c : VM X) Q : (∀ m, P m → hoare (λ m', m' = m) c Q) → hoare P c Q.
Proof. intros Hc m HP. by apply (Hc m HP). Qed.
End hoare.

(** ** Counting *)

Definition occ (f : Z) (l : list Z) : Z := Z.of_nat (count_occ Z.eq_dec l f).

Definition hit (f g : Z) : Z := if decide (f = g) then 1 else 0.

Lemma occ_nil f : occ f [] = 0.
Proof. done. Qed.

Lemma occ_cons f g l : occ f (g :: l) = hit f g + occ f l.
Proof. unfold occ, hit. cbn. destruct (Z.eq_dec g f), (decide (f = g)); lia. Qed.

Lemma occ_app f l k : occ f (l ++ k) = occ f l + occ f k.
Proof. unfold occ. rewrite count_occ_app. lia. Qed.

Lemma occ_perm f l k : l ≡ₚ k → occ f l = occ f k.
Proof. intros Hp. unfold occ. f_equal. revert f. by apply (Permutation_count_occ Z.eq_dec). Qed.

Lemma occ_nonneg f l : 0 <= occ f l.
Proof. unfold occ. lia. Qed.

Lemma occ_pos f l : 0 < occ f l ↔ f ∈ l.
Proof. unfold occ. rewrite list_elem_of_In, (count_occ_In Z.eq_dec). lia. Qed.

Lemma hit_same f : hit f f = 1.
Proof. unfold hit. by rewrite decide_True. Qed.

Lemma hit_ne f g : f ≠ g → hit f g = 0.
Proof. intros ?. unfold hit. by rewrite decide_False. Qed.

Lemma hit_range f g : 0 <= hit f g <= 1.
Proof. unfold hit. destruct (decide _); lia. Qed.

Section uses.
Context {A F : Type}.
Implicit Types m : Machine A F.

Definition pte_frames (t : gmap (Z * Z) (Z * Z)) : list Z := map (λ x : (Z * Z) * (Z * Z), x.2.1) (map_to_list t).

Definition frames_of {K} `{Countable K} (t : gmap K (list Z)) : list Z := concat (map snd (map_to_list t)).

Definition held_frames m : list Z :=
  frames_of m.(m_shared) ++ map snd (map_to_list m.(m_file_frames)) ++ frames_of m.(m_held).

Definition mapped m (f : Z) : Z := occ f (pte_frames m.(m_ptes)).
Definition held m (f : Z) : Z := occ f (held_frames m).

(** [xs]: references that are counted but not in a table at the moment *)
Definition total m (xs : list Z) (f : Z) : Z := mapped m f + held m f + occ f xs.

Lemma pte_frames_insert t k v f : t !! k = None → occ f (pte_frames (<[k := v]> t)) = hit f v.1 + occ f (pte_frames t).
Proof.
  intros Hk. unfold pte_frames. rewrite <- occ_cons. apply occ_perm. by rewrite (map_to_list_insert t k v Hk).
Qed.

Lemma pte_frames_delete t k v f : t !! k = Some v → occ f (pte_frames (delete k t)) = occ f (pte_frames t) - hit f v.1.
Proof.
  intros Hk. rewrite <- (insert_delete_id t k v Hk) at 2.
  rewrite pte_frames_insert by apply lookup_delete_eq. lia.
Qed.

Lemma pte_frames_update t k v v' f : t !! k = Some v → v'.1 = v.1 → occ f (pte_frames (<[k := v']> t)) = occ f (pte_frames t).
Proof.
  intros Hk Hv. rewrite <- insert_delete_eq, pte_frames_insert by apply lookup_delete_eq.
  rewrite (pte_frames_delete t k v) by done. rewrite Hv. lia.
Qed.

Lemma elem_of_pte_frames t f : f ∈ pte_frames t ↔ ∃ k v, t !! k = Some v ∧ v.1 = f.
Proof.
  unfold pte_frames. rewrite list_elem_of_fmap. split.
  - intros ([k v] & -> & Hk%elem_of_map_to_list). eauto.
  - intros (k & v & Hk & <-). exists (k, v). split; [done|]. by apply elem_of_map_to_list.
Qed.

Lemma frames_of_insert {K} `{Countable K} (t : gmap K (list Z)) k v f :
  t !! k = None → occ f (frames_of (<[k := v]> t)) = occ f v + occ f (frames_of t).
Proof.
  intros Hk. unfold frames_of. rewrite <- occ_app. apply occ_perm. rewrite (map_to_list_insert t k v Hk). done.
Qed.

Lemma frames_of_delete {K} `{Countable K} (t : gmap K (list Z)) k v f :
  t !! k = Some v → occ f (frames_of (delete k t)) = occ f (frames_of t) - occ f v.
Proof.
  intros Hk. rewrite <- (insert_delete_id t k v Hk) at 2.
  rewrite frames_of_insert by apply lookup_delete_eq. lia.
Qed.

Lemma file_frames_insert {K} `{Countable K} (t : gmap K Z) k v f :
  t !! k = None → occ f (map snd (map_to_list (<[k := v]> t))) = hit f v + occ f (map snd (map_to_list t)).
Proof. intros Hk. rewrite <- occ_cons. apply occ_perm. by rewrite (map_to_list_insert t k v Hk). Qed.

(** ** The invariant *)

Context `{BuddyAllocator A}.
(** [free]: the free frame numbers of the allocator *)
Context (free : A → Z → Prop).

Definition aligned (f : Z) : Prop := f mod PAGE_SIZE = 0.

Definition free_frame m (f : Z) : Prop := aligned f ∧ free m.(m_alloc) (f / PAGE_SIZE).

(** [ls]: frames that are taken from the allocator and that nothing refers to *)
Record frames_ok m (ls xs : list Z) : Prop := mkFramesOk {
  fo_counted f c : m.(m_refs) !! f = Some c → c = total m xs f ∧ 0 < c;
  fo_uncounted f : m.(m_refs) !! f = None → held m f = 0 ∧ mapped m f + occ f xs <= 1;
  fo_free f : free_frame m f → m.(m_refs) !! f = None ∧ total m xs f = 0 ∧ f ∉ ls;
  fo_loose f : f ∈ ls → aligned f ∧ m.(m_refs) !! f = None ∧ total m xs f = 0;
  fo_nodup : NoDup ls;
  fo_aligned f : 0 < total m xs f → aligned f;
}.

Lemma total_nonneg m xs f : 0 <= mapped m f ∧ 0 <= held m f ∧ 0 <= occ f xs.
Proof. unfold mapped, held. pose proof (occ_nonneg f). auto. Qed.

(** What is in the tables decides. *)
Lemma frames_ok_same m m' ls xs :
  m'.(m_refs) = m.(m_refs) → m'.(m_alloc) = m.(m_alloc) →
  (∀ f, mapped m' f = mapped m f) → (∀ f, held m' f = held m f) → frames_ok m ls xs → frames_ok m' ls xs.
Proof.
  intros Hr Ha Hm Hh [H1 H2 H3 H4 H5 H6]. assert (∀ f, total m' xs f = total m xs f) as Ht.
  { intros f. unfold total. by rewrite Hm, Hh. }
  split; intros; rewrite ?Hr, ?Ht, ?Hm, ?Hh in *; eauto.
  apply H3. unfold free_frame in *. by rewrite <- Ha.
Qed.

Lemma frames_ok_perm m ls ls' xs xs' : ls ≡ₚ ls' → xs ≡ₚ xs' → frames_ok m ls xs → frames_ok m ls' xs'.
Proof.
  intros Hl Hx [H1 H2 H3 H4 H5 H6]. assert (∀ f, occ f xs' = occ f xs) as Ho by (intros; symmetry; by apply occ_perm).
  assert (∀ f, total m xs' f = total m xs f) as Ht by (intros; unfold total; by rewrite Ho).
  split; intros; rewrite ?Ht, ?Ho in *; eauto.
  - rewrite <- Hl. eauto.
  - apply H4. by rewrite Hl.
  - by rewrite <- Hl.
Qed.
End uses.

(** ** Single steps *)

(** Reference counts are no uses. *)
Ltac fold_uses := repeat match goal with
  | |- context [total (with_refs ?v ?m)] => change (total (with_refs v m)) with (total m)
  | |- context [held (with_refs ?v ?m)] => change (held (with_refs v m)) with (held m)
  | |- context [mapped (with_refs ?v ?m)] => change (mapped (with_refs v m)) with (mapped m)
  end.

Ltac occ_lia := repeat (rewrite ?occ_cons, ?occ_app, ?occ_nil, ?hit_same in *); lia.

Section steps.
Context {A F : Type} `{BuddyAllocatorLaws A free}.
Abbreviation VM := (VM A F).
Abbreviation ok := (λ ls xs m, @frames_ok A F free m ls xs).
Implicit Types m : Machine A F.

Lemma normalized_one : normalized_pages 1 = Some 1.
Proof. done. Qed.

Lemma aligned_div f : aligned f → f / PAGE_SIZE * PAGE_SIZE = f.
Proof. unfold aligned. intros Hf. pose proof (Z.div_mod f PAGE_SIZE). unfold PAGE_SIZE in *. lia. Qed.

Lemma hoare_allocate_frame ls xs :
  hoare (ok ls xs) (must_allocate (F := F)) (λ f m, frames_ok free m (f :: ls) xs).
Proof.
  intros m [H1 H2 H3 H4 H5 H6]. unfold must_allocate, allocate_frame, allocate_contiguous, mbind, VM_bind.
  rewrite normalized_one. destruct (buddy_alloc m.(m_alloc) 1) as [[n a]|] eqn:Ha; [|done]. cbn.
  assert (free_frame free m (n * PAGE_SIZE)) as Hn.
  { split; [unfold aligned; by rewrite Z.mod_mul|]. rewrite Z.div_mul by done. by eapply alloc_was_free. }
  destruct (H3 _ Hn) as (Hr & Ht & Hl). split; cbn; try done.
  - intros f [Hal Hf]. cbn in Hf. apply (alloc_takes m.(m_alloc) n a) in Hf as [Hf Hne]; [|done].
    destruct (H3 f) as (? & ? & ?); [done|]. split_and!; [done|done|]. intros [->|?]%elem_of_cons; [|done].
    by rewrite Z.div_mul in Hne.
  - intros f [->|Hf]%elem_of_cons; [split_and!; [unfold aligned; by rewrite Z.mod_mul|done|done]|by apply H4].
  - by constructor.
Qed.

Lemma hoare_deallocate f ls xs :
  hoare (ok (f :: ls) xs) (deallocate_frame (F := F) f) (λ _ m, frames_ok free m ls xs).
Proof.
  intros m [H1 H2 H3 H4 H5 H6]. cbn. destruct (H4 f) as (Hal & Hr & Ht); [left|]. apply NoDup_cons in H5 as [Hf H5].
  split; cbn; try done.
  - intros g [Hg Hfree]. cbn in Hfree. apply dealloc_gives in Hfree as [Hfree|Heq].
    + destruct (H3 g) as (? & ? & Hnot); [done|]. split_and!; [done|done|]. intros ?. apply Hnot. by right.
    + assert (g = f) as -> by (rewrite <- (aligned_div g), <- (aligned_div f) by done; by rewrite Heq). done.
    + intros Hc. destruct (H3 f) as (? & ? & Hnot); [by split|]. apply Hnot. left.
  - intros g Hg. apply H4. by right.
Qed.

Lemma hoare_same {X} ls xs (c : VM X) :
  (∀ m, match c m with
        | Some (_, m') => m'.(m_refs) = m.(m_refs) ∧ m'.(m_alloc) = m.(m_alloc) ∧ (∀ f, mapped m' f = mapped m f) ∧ (∀ f, held m' f = held m f)
        | None => True
        end) →
  hoare (ok ls xs) c (λ _ m, frames_ok free m ls xs).
Proof.
  intros Hc m Hm. specialize (Hc m). destruct (c m) as [[x m']|]; [|done]. destruct Hc as (? & ? & ? & ?).
  by eapply frames_ok_same.
Qed.

Lemma hoare_update_flags p page flags ls xs :
  hoare (ok ls xs) (update_flags (F := F) p page flags) (λ _ m, frames_ok free m ls xs).
Proof.
  apply hoare_same. intros m. unfold update_flags. destruct (m.(m_ptes) !! (p, page)) as [[frame fl]|] eqn:Hp; [|done].
  split_and!; try done. intros f. unfold mapped. cbn. by rewrite (pte_frames_update _ _ (frame, fl)).
Qed.

Lemma hoare_unmap_page p page ls xs :
  hoare (ok ls xs) (unmap_page (F := F) p page)
    (λ r m, match r with Some f => frames_ok free m ls (f :: xs) | None => frames_ok free m ls xs end).
Proof.
  intros m Hm. unfold unmap_page. destruct (m.(m_ptes) !! (p, page)) as [[f fl]|] eqn:Hp; [|done].
  set (m' := with_ptes _ m). assert (∀ g, mapped m' g = mapped m g - hit g f) as Hmap.
  { intros g. unfold mapped, m'. cbn. by rewrite (pte_frames_delete _ _ (f, fl)). }
  assert (∀ g, total m' (f :: xs) g = total m xs g) as Ht.
  { intros g. unfold total. rewrite Hmap, occ_cons. change (held m' g) with (held m g). lia. }
  destruct Hm as [H1 H2 H3 H4 H5 H6]. split; intros; rewrite ?Ht in *; eauto.
  rewrite Hmap, occ_cons. change (held m' f0) with (held m f0). destruct (H2 f0) as [? ?]; [done|]. split; [done|lia].
Qed.

(** One frame changes its count, its uses and its place among the loose frames. *)
Lemma frames_ok_set m m' ls xs ls' xs' f (r : option Z) :
  frames_ok free m ls xs →
  m'.(m_refs) = partial_alter (λ _, r) f m.(m_refs) → m'.(m_alloc) = m.(m_alloc) →
  (∀ g, g ≠ f → mapped m' g = mapped m g ∧ held m' g = held m g ∧ occ g xs' = occ g xs ∧ (g ∈ ls' ↔ g ∈ ls)) →
  match r with Some c => c = total m' xs' f ∧ 0 < c | None => held m' f = 0 ∧ mapped m' f + occ f xs' <= 1 end →
  NoDup ls' → (f ∈ ls' → r = None ∧ total m' xs' f = 0) → ¬ free_frame free m f → aligned f →
  frames_ok free m' ls' xs'.
Proof.
  intros [H1 H2 H3 H4 H5 H6] Hr Ha Hother Hf Hnd Hloose Hnf Hal.
  assert (∀ g, g ≠ f → total m' xs' g = total m xs g ∧ m'.(m_refs) !! g = m.(m_refs) !! g) as Hg.
  { intros g Hne. destruct (Hother g Hne) as (H8 & H9 & H10 & _). unfold total. rewrite H8, H9, H10. split; [done|].
    by rewrite Hr, lookup_partial_alter_ne. }
  assert (m'.(m_refs) !! f = r) as Hrf by (by rewrite Hr, lookup_partial_alter_eq).
  assert (∀ g, free_frame free m' g ↔ free_frame free m g) as Hfree by (intros g; unfold free_frame; by rewrite Ha).
  split.
  - intros g c Hc. destruct (decide (g = f)) as [->|Hne]; [rewrite Hrf in Hc; by rewrite Hc in Hf|].
    destruct (Hg g Hne) as [-> Hlk]. rewrite Hlk in Hc. by apply H1.
  - intros g Hc. destruct (decide (g = f)) as [->|Hne]; [rewrite Hrf in Hc; by rewrite Hc in Hf|].
    destruct (Hg g Hne) as [_ Hlk]. rewrite Hlk in Hc. destruct (Hother g Hne) as (-> & -> & -> & _). by apply H2.
  - intros g Hfg. apply Hfree in Hfg. assert (g ≠ f) as Hne by (by intros ->).
    destruct (Hg g Hne) as [-> ->]. destruct (Hother g Hne) as (_ & _ & _ & ->). by apply H3.
  - intros g Hgl. destruct (decide (g = f)) as [->|Hne]; [rewrite Hrf; split; [done|by apply Hloose]|].
    destruct (Hg g Hne) as [-> ->]. apply H4. by apply (Hother g Hne).
  - done.
  - intros g Hpos. destruct (decide (g = f)) as [->|Hne]; [done|]. destruct (Hg g Hne) as [Ht _]. apply H6. by rewrite <- Ht.
Qed.

(** A frame with a use is not free, not loose, and at a page boundary. *)
Lemma frames_ok_used m ls xs f : frames_ok free m ls xs → 0 < total m xs f → ¬ free_frame free m f ∧ (f ∉ ls) ∧ aligned f.
Proof.
  intros [H1 H2 H3 H4 H5 H6] Hpos. split; [|split; [intros Hl; apply H4 in Hl as (_ & _ & ?); lia|by auto]].
  intros Hf. apply H3 in Hf as (_ & ? & _). lia.
Qed.

Lemma frames_ok_loose m ls xs f : frames_ok free m (f :: ls) xs →
  ¬ free_frame free m f ∧ (f ∉ ls) ∧ NoDup ls ∧ aligned f ∧ m.(m_refs) !! f = None ∧ mapped m f = 0 ∧ held m f = 0 ∧ occ f xs = 0.
Proof.
  intros [H1 H2 H3 H4 H5 H6]. apply NoDup_cons in H5 as [Hn H5]. destruct (H4 f) as (Hal & Hr & Ht); [left|].
  unfold total in Ht. pose proof (total_nonneg m xs f). split_and!; try done; try lia.
  intros Hf. apply H3 in Hf as (_ & _ & Hnot). apply Hnot. left.
Qed.

Lemma occ_ne g f xs : g ≠ f → occ g (f :: xs) = occ g xs.
Proof. intros ?. rewrite occ_cons, hit_ne by done. lia. Qed.

Lemma elem_ne (g f : Z) ls : g ≠ f → (g ∈ (f :: ls)) ↔ (g ∈ ls).
Proof. intros ?. rewrite elem_of_cons. tauto. Qed.

Lemma hoare_drop_ref b f ls xs :
  hoare (ok ls (f :: xs)) (drop_ref (F := F) b f)
    (λ last m, frames_ok free m (if last : bool then f :: ls else ls) xs ∨ (frames_ok free m ls xs ∧ last = false)).
Proof.
  intros m Hm. pose proof (total_nonneg m xs f) as Hnn.
  assert (total m (f :: xs) f = total m xs f + 1) as Ht by (unfold total; occ_lia).
  destruct (frames_ok_used m ls (f :: xs) f) as (Hnf & Hnl & Hal); [done|unfold total in *; lia|].
  unfold drop_ref. destruct (m.(m_refs) !! f) as [c|] eqn:Hr.
  - destruct (fo_counted _ _ _ _ Hm f c) as [Hc _]; [done|]. destruct (c - 1 =? 0) eqn:Hone; boolify; left.
    + eapply (frames_ok_set m _ ls (f :: xs) _ _ f None); try done; fold_uses.
      * intros g Hne. by rewrite occ_ne, elem_ne.
      * unfold total in *. lia.
      * constructor; [done|by apply fo_nodup in Hm].
      * split; [done|unfold total in *; lia].
    + eapply (frames_ok_set m _ ls (f :: xs) _ _ f (Some (c - 1))); try done; fold_uses.
      * intros g Hne. by rewrite occ_ne.
      * unfold total in *. lia.
      * by apply fo_nodup in Hm.
  - destruct (fo_uncounted _ _ _ _ Hm f) as [Hh Hm1]; [done|]. rewrite occ_cons, hit_same in Hm1.
    assert (m.(m_refs) = partial_alter (λ _, None) f m.(m_refs)) as Hrefs by (apply map_eq; intros g; destruct (decide (g = f)) as [->|?]; [by rewrite lookup_partial_alter_eq|by rewrite lookup_partial_alter_ne]).
    destruct b; [left|right; split; [|done]].
    + eapply (frames_ok_set m _ ls (f :: xs) _ _ f None); try done; fold_uses.
      * intros g Hne. by rewrite occ_ne, elem_ne.
      * lia.
      * constructor; [done|by apply fo_nodup in Hm].
      * split; [done|unfold total in *; lia].
    + eapply (frames_ok_set m _ ls (f :: xs) _ _ f None); try done; fold_uses.
      * intros g Hne. by rewrite occ_ne.
      * lia.
      * by apply fo_nodup in Hm.
Qed.

Lemma hoare_take_exclusive f ls xs :
  hoare (λ m, frames_ok free m ls xs ∧ 0 < mapped m f) (take_exclusive_ref (F := F) f)
    (λ b m, frames_ok free m ls xs ∧ (b = true → held m f = 0 ∧ mapped m f = 1) ∧ (b = false → is_Some (m.(m_refs) !! f))).
Proof.
  intros m [Hm Hpos]. pose proof (total_nonneg m xs f) as Hnn. unfold take_exclusive_ref.
  destruct (m.(m_refs) !! f) as [c|] eqn:Hr.
  - destruct (fo_counted _ _ _ _ Hm f c) as [Hc _]; [done|]. destruct (c =? 1) eqn:Hone; boolify.
    + split; [|split; [|done]; fold_uses; unfold total in *; lia].
      destruct (frames_ok_used m ls xs f) as (Hnf & Hnl & Hal); [done|unfold total in *; lia|].
      eapply (frames_ok_set m _ ls xs _ _ f None); try done; fold_uses; [unfold total in *; lia|by apply fo_nodup in Hm].
    + split; [done|]. split; [done|]. intros _. by exists c.
  - split; [done|]. split; [|done]. intros _. destruct (fo_uncounted _ _ _ _ Hm f); [done|lia].
Qed.

(** A frame that is counted, or loose, gets one more reference. *)
Lemma hoare_increase f ls ls' xs :
  ls = ls' ∨ ls = f :: ls' →
  hoare (λ m, frames_ok free m ls xs ∧ (ls = ls' → is_Some (m.(m_refs) !! f))) (increase_ref (F := F) f)
    (λ _ m, frames_ok free m ls' (f :: xs) ∧ is_Some (m.(m_refs) !! f)).
Proof.
  intros Hls m [Hm Hsome]. cbn. split; [|cbn; rewrite lookup_insert_eq; by eexists].
  assert (∃ c, default 0 (m.(m_refs) !! f) = c ∧ c = total m xs f ∧ 0 <= c ∧ ¬ free_frame free m f ∧ aligned f ∧ (f ∉ ls') ∧ NoDup ls')
    as (c & Hd & Hc & H0c & Hnf & Hal & Hnl & Hnd).
  { destruct Hls as [->| ->].
    - destruct Hsome as [c Hc]; [done|]. rewrite Hc. destruct (fo_counted _ _ _ _ Hm f c) as [-> ?]; [done|].
      destruct (frames_ok_used m ls' xs f) as (? & ? & ?); [done..|]. exists (total m xs f). cbn. split_and!; try done; [lia|by apply fo_nodup in Hm].
    - destruct (frames_ok_loose m ls' xs f Hm) as (? & ? & ? & ? & Hr & ? & ? & ?). rewrite Hr. exists 0. unfold total. split_and!; try done; lia. }
  rewrite Hd. eapply (frames_ok_set m _ ls xs _ _ f (Some (c + 1))); try done; fold_uses.
  - intros g Hne. rewrite occ_ne by done. destruct Hls as [->| ->]; [done|]. by rewrite elem_ne.
  - unfold total in *. occ_lia.
Qed.

(** A page is mapped to a frame that was just allocated, and the frame counted. *)
Lemma hoare_map_new {X} p page f fl ls xs (k : VM X) Q :
  hoare (λ m, frames_ok free m ls xs ∧ m.(m_ptes) !! (p, page) = Some (f, fl) ∧ mapped m f = 1 ∧ held m f = 0) k Q →
  hoare (ok (f :: ls) xs) (_ ← map_to p page f fl; _ ← increase_ref f; k) Q.
Proof.
  intros Hk m Hm. unfold mbind, VM_bind, map_to. destruct (m.(m_ptes) !! (p, page)) eqn:Hp; [done|].
  set (m1 := with_ptes _ m). cbn [increase_ref increase_ref_by modify]. apply Hk.
  destruct (frames_ok_loose m ls xs f Hm) as (Hnf & Hnl & Hnd & Hal & Hr & Hm0 & Hh0 & Ho0).
  assert (∀ g, mapped m1 g = hit g f + mapped m g) as Hmap by (intros g; unfold mapped, m1; cbn; by rewrite pte_frames_insert).
  split; [|split; [cbn; by rewrite lookup_insert_eq|by fold_uses; rewrite Hmap, hit_same; change (held m1 f) with (held m f); lia]].
  eapply (frames_ok_set m _ (f :: ls) xs _ _ f (Some 1)); try done; fold_uses.
  - cbn. by rewrite Hr.
  - intros g Hne. rewrite Hmap, hit_ne by done. split_and!; try done. by rewrite elem_ne.
  - unfold total. rewrite Hmap, hit_same. change (held m1 f) with (held m f). lia.
Qed.

(** A page is mapped to a frame with other uses, and they are counted. *)
Lemma hoare_map_counted {X} p page f fl (n : Z) ls xs (k : VM X) Q :
  hoare (ok ls xs) k Q →
  hoare (λ m, frames_ok free m ls xs ∧ 0 < total m xs f ∧ n = match m.(m_refs) !! f with Some _ => 1 | None => 2 end)
    (_ ← map_to p page f fl; _ ← increase_ref_by f n; k) Q.
Proof.
  intros Hk m (Hm & Hpos & Hn). unfold mbind, VM_bind, map_to. destruct (m.(m_ptes) !! (p, page)) eqn:Hp; [done|].
  set (m1 := with_ptes _ m). cbn [increase_ref_by modify]. apply Hk.
  destruct (frames_ok_used m ls xs f Hm Hpos) as (Hnf & Hnl & Hal). pose proof (total_nonneg m xs f) as Hnn.
  assert (∀ g, mapped m1 g = hit g f + mapped m g) as Hmap by (intros g; unfold mapped, m1; cbn; by rewrite pte_frames_insert).
  assert (default 0 (m.(m_refs) !! f) + n = total m xs f + 1) as Hval.
  { destruct (m.(m_refs) !! f) as [c|] eqn:Hr; cbn.
    - destruct (fo_counted _ _ _ _ Hm f c) as [-> _]; [done|]. lia.
    - destruct (fo_uncounted _ _ _ _ Hm f) as [? ?]; [done|]. unfold total in *. lia. }
  eapply (frames_ok_set m _ ls xs _ _ f (Some (total m xs f + 1))); try done; fold_uses.
  - cbn. by rewrite Hval.
  - intros g Hne. by rewrite Hmap, hit_ne by done.
  - unfold total. rewrite Hmap, hit_same. change (held m1 f) with (held m f). unfold total in Hpos. lia.
  - by apply fo_nodup in Hm.
Qed.
End steps.
