(* ===== verification/VmKinds.v ===== *)
(** * Private and shared pages

    Over Vm: every mapped page lies in an area, a frame is used by private pages or by shared
    ones, and a writable private page is the only use of its frame.  Here the invariant, and
    what keeps it. *)

From stdpp Require Import sets.
From S2P Require Import Prelude Errors SignalData SparseFile AddrAreas Vm VmUser VmFrames.

Open Scope Z_scope.

(** ** The kind of a page *)

Definition area_at (areas : list MemoryArea) (page : Z) : option MemoryArea := List.find (λ a, contains a page) areas.

(** [Some true]: in a shared mapping *)
Definition kind_at (areas : list MemoryArea) (page : Z) : option bool := is_shared_mapping <$> area_at areas page.

#[local] Arguments kind_at : simpl never.

Lemma kind_at_app l k page : kind_at (l ++ k) page = match kind_at l page with Some b => Some b | None => kind_at k page end.
Proof. unfold kind_at, area_at. induction l as [|a l IH]; cbn; [done|]. by destruct (contains a page). Qed.

Lemma kind_at_cons a l page : kind_at (a :: l) page = if contains a page then Some (is_shared_mapping a) else kind_at l page.
Proof. unfold kind_at, area_at. cbn. by destruct (contains a page). Qed.

Lemma kind_at_none l page : kind_at l page = None ↔ ∀ a, a ∈ l → contains a page = false.
Proof.
  induction l as [|a l IH]; [split; [by intros _ a Ha%elem_of_nil|done]|]. rewrite kind_at_cons.
  destruct (contains a page) eqn:Hc; split; try done.
  - intros Hall. by rewrite (Hall a) in Hc; [|left].
  - intros Hn b [->|Hb]%elem_of_cons; [done|]. by apply IH.
  - intros Hall. apply IH. intros b Hb. apply Hall. by right.
Qed.

Lemma kind_at_area l a page : areas_ok l → a ∈ l → contains a page = true → kind_at l page = Some (is_shared_mapping a).
Proof.
  intros Hok Ha Hc. unfold kind_at, area_at. destruct (List.find _ _) as [b|] eqn:Hf.
  - apply find_some in Hf as [Hb%list_elem_of_In Hcb]. cbn. do 2 f_equal.
    apply list_elem_of_lookup in Ha as [i Hi]. apply list_elem_of_lookup in Hb as [j Hj].
    assert (i = j) as -> by (by eapply contains_unique). congruence.
  - pose proof (find_none _ _ Hf a (proj1 (list_elem_of_In _ _) Ha)). cbn in *. congruence.
Qed.

(** The kinds in a list whose areas are cut into pieces *)
Lemma kind_concat (g : MemoryArea → list MemoryArea) (cut : bool) l page :
  (∀ a, a ∈ l → kind_at (g a) page = if cut then None else kind_at [a] page) →
  kind_at (concat (map g l)) page = if cut then None else kind_at l page.
Proof.
  induction l as [|a l IH]; intros Hg; cbn [concat map]; [by destruct cut|]. rewrite kind_at_app, Hg by left.
  rewrite IH by (intros b Hb; apply Hg; by right). destruct cut; [done|].
  rewrite !kind_at_cons. by destruct (contains a page).
Qed.

Lemma kind_at_pieces (l : list MemoryArea) (page : Z) a :
  Forall (λ p, is_shared_mapping p = is_shared_mapping a) l →
  kind_at l page = if existsb (λ p, contains p page) l then Some (is_shared_mapping a) else None.
Proof.
  induction 1 as [|p l Hp _ IH]; cbn; [done|]. rewrite kind_at_cons, IH, Hp. by destruct (contains p page).
Qed.

Lemma cut_left_shared d span : (∃ arc fr fl, cut_left d span = Data.Shared arc fr fl) → cut_left d span = d.
Proof. intros (arc & fr & fl & Hd). by destruct d. Qed.

(** A piece has the kind of its area, and its frames. *)
Definition piece_of (a p : MemoryArea) : Prop :=
  is_shared_mapping p = is_shared_mapping a ∧ ∀ arc fr fl, p.(data) = Data.Shared arc fr fl → a.(data) = Data.Shared arc fr fl.

Lemma piece_bounds a s e d :
  (d = a.(data) ∨ ∃ n, d = cut_left a.(data) n ∨ ∃ k, d = cut_from a.(data) k n) → piece_of a (with_bounds a s e d).
Proof.
  intros Hd. split.
  - unfold is_shared_mapping. cbn. by destruct Hd as [->|(n & [->|[k ->]])]; destruct a.(data).
  - cbn. by destruct Hd as [->|(n & [->|[k ->]])]; destruct a.(data).
Qed.

Lemma piece_same a : piece_of a a.
Proof. by split. Qed.

Lemma unmap_pieces_of s e a : Forall (piece_of a) (unmap_area s e a).
Proof.
  unfold unmap_area. destruct (_ <=? _); [by constructor; [apply piece_same|]|].
  apply Forall_app. split; (destruct (_ <? _); constructor; [|done]; apply piece_bounds; right; eauto).
Qed.

Lemma retag_pieces_of retag s e a : (∀ x, piece_of x (retag x)) → Forall (piece_of a) (retag_area retag s e a).
Proof.
  intros Hret. unfold retag_area, split_memory_area. destruct (_ <=? _); [by constructor; [apply piece_same|]|].
  apply Forall_app. split; [destruct (_ <? _); cbn; constructor; [|done]; apply piece_bounds; right; eauto|].
  apply Forall_app. split; [|destruct (_ <? _); cbn; constructor; [|done]; apply piece_bounds; right; eauto].
  constructor; [|done]. set (mid := with_bounds _ _ _ _).
  assert (piece_of a mid) as [H1 H2] by (apply piece_bounds; right; eauto). destruct (Hret mid) as [H3 H4].
  split; [by rewrite H3|]. intros arc fr fl Hd. apply H2. by apply H4.
Qed.

Lemma unmap_area_kind s e a page : kind_at (unmap_area s e a) page = if in_span s e page then None else kind_at [a] page.
Proof.
  rewrite (kind_at_pieces _ _ a) by (eapply Forall_impl; [apply unmap_pieces_of|]; by intros p [? _]).
  rewrite kind_at_cons. replace (existsb _ _) with (negb (in_span s e page) && contains a page); [by destruct (in_span _ _ _), (contains _ _)|].
  unfold unmap_area, in_span. destruct (Z.min a.(end_) e <=? Z.max a.(start) s) eqn:Hov; cbn; [unfold contains; lia|].
  destruct (a.(start) <? Z.max a.(start) s) eqn:H1, (Z.min a.(end_) e <? a.(end_)) eqn:H2; cbn; unfold contains; cbn; lia.
Qed.

Lemma retag_area_kind retag s e a page :
  (∀ x, piece_of x (retag x) ∧ (retag x).(start) = x.(start) ∧ (retag x).(end_) = x.(end_)) →
  kind_at (retag_area retag s e a) page = kind_at [a] page.
Proof.
  intros Hret. rewrite (kind_at_pieces _ _ a) by (eapply Forall_impl; [apply retag_pieces_of, Hret|]; by intros p [? _]).
  rewrite kind_at_cons. replace (existsb _ _) with (contains a page); [done|].
  unfold retag_area, split_memory_area. destruct (_ <=? _) eqn:Hov; cbn; [by rewrite orb_false_r|].
  set (mid := with_bounds a (Z.max a.(start) s) (Z.min a.(end_) e) _). destruct (Hret mid) as (_ & Hs & He).
  rewrite !existsb_app. cbn.
  assert (contains (retag mid) page = (Z.max a.(start) s <=? page) && (page <? Z.min a.(end_) e)) as -> by (unfold contains; by rewrite Hs, He).
  destruct (a.(start) <? Z.max a.(start) s) eqn:H1, (Z.min a.(end_) e <? a.(end_)) eqn:H2; cbn; unfold contains; cbn; lia.
Qed.

(** ** What the area operations do to kinds *)

Lemma unmap_areas_kind st s e page :
  kind_at (unmap_areas st s e).(memory_areas) page = if in_span s e page then None else kind_at st.(memory_areas) page.
Proof. apply kind_concat. intros a _. apply unmap_area_kind. Qed.

Lemma retag_areas_kind retag s e areas page :
  (∀ x, piece_of x (retag x) ∧ (retag x).(start) = x.(start) ∧ (retag x).(end_) = x.(end_)) →
  kind_at (concat (map (retag_area retag s e) areas)) page = kind_at areas page.
Proof. intros Hret. apply (kind_concat _ false). intros a _. by apply retag_area_kind. Qed.

Lemma set_locked_kind st s e b page : kind_at (set_locked st s e b).(memory_areas) page = kind_at st.(memory_areas) page.
Proof. unfold set_locked. destruct (_ <=? _); [done|]. by apply retag_areas_kind. Qed.

Lemma update_permissions_kind st s e p page :
  kind_at (update_permissions st s e p).(memory_areas) page = kind_at st.(memory_areas) page.
Proof. unfold update_permissions. destruct (_ <=? _); [done|]. by apply retag_areas_kind. Qed.

Lemma register_area_kind st a page : addrspace_ok st → a.(start) < a.(end_) →
  kind_at (register_area st a).2.(memory_areas) page =
  if contains a page then Some (is_shared_mapping a) else kind_at st.(memory_areas) page.
Proof.
  intros Hok Hne. unfold register_area. cbn [LAZY_MAP snd with_areas memory_areas].
  pose proof (register_area_ok st a Hok Hne) as [Hreg _]. unfold register_area in Hreg. cbn [LAZY_MAP snd with_areas memory_areas] in Hreg.
  set (l := vec_insert_area _ _ _) in *. destruct (contains a page) eqn:Hc.
  - apply kind_at_area; [done| |done]. unfold l, vec_insert_area. rewrite elem_of_app. right. left.
  - unfold l, vec_insert_area. rewrite kind_at_app, kind_at_cons, Hc, <- kind_at_app, take_drop, unmap_areas_kind.
    replace (in_span _ _ page) with (contains a page) by done. by rewrite Hc.
Qed.

(** ** The invariant *)

Section kinds.
Context {A F : Type} `{BuddyAllocatorLaws A free}.
Abbreviation VM := (VM A F).
Implicit Types m : Machine A F.

Definition areas_of m (p : Z) : list MemoryArea := (default addrspace_default (m.(m_areas) !! p)).(memory_areas).

Definition kind m (k : Z * Z) : option bool := kind_at (areas_of m k.1) k.2.

(** Mapped pages are in areas; a frame has pages of one kind; what
    other parts of the kernel hold is shared; a writable private page has its frame for
    itself. *)
Record kinds m : Prop := mkKinds {
  k_covered k e : m.(m_ptes) !! k = Some e → is_Some (kind m k);
  k_same k k' f fl fl' : m.(m_ptes) !! k = Some (f, fl) → m.(m_ptes) !! k' = Some (f, fl') → kind m k = kind m k';
  k_held k f fl : m.(m_ptes) !! k = Some (f, fl) → 0 < held m f → kind m k = Some true;
  k_exclusive k f fl : m.(m_ptes) !! k = Some (f, fl) → has_flag fl WRITABLE = true → kind m k = Some false → mapped m f = 1;
  k_pages k e : m.(m_ptes) !! k = Some e → aligned k.2;
}.

(** The area lists are well formed and made of whole pages, and the frames of shared areas are held. *)
Record arcs_ok m : Prop := mkArcsOk {
  ao_areas p : addrspace_ok (default addrspace_default (m.(m_areas) !! p));
  ao_arcs p a arc frames fl : a ∈ areas_of m p → a.(data) = Data.Shared arc frames fl → m.(m_shared) !! arc = Some frames;
  ao_aligned p a : a ∈ areas_of m p → aligned a.(start) ∧ aligned a.(end_);
}.

(** [iso]: with the kinds of pages, which [mprotect] and CLONE_VM break *)
Context (iso : bool).

Record vm_ok (ls xs : list Z) m : Prop := mkVmOk {
  vm_frames : frames_ok free m ls xs;
  vm_arcs : arcs_ok m;
  vm_kinds : iso = true → kinds m;
}.

Lemma mapped_pos m k f fl : m.(m_ptes) !! k = Some (f, fl) → 0 < mapped m f.
Proof. intros Hk. apply occ_pos, elem_of_pte_frames. by exists k, (f, fl). Qed.

Definition same_tables m m' : Prop :=
  m'.(m_ptes) = m.(m_ptes) ∧ m'.(m_areas) = m.(m_areas) ∧ m'.(m_shared) = m.(m_shared) ∧
  m'.(m_file_frames) = m.(m_file_frames) ∧ m'.(m_held) = m.(m_held).

Lemma arcs_same_areas m m' : m'.(m_areas) = m.(m_areas) → m'.(m_shared) = m.(m_shared) → arcs_ok m → arcs_ok m'.
Proof.
  intros Ha Hs [A1 A2 A3]. assert (∀ p, areas_of m' p = areas_of m p) as Hareas by (intros p; unfold areas_of; by rewrite Ha).
  split; intros p; rewrite ?Ha, ?Hareas, ?Hs; eauto.
Qed.

Lemma vm_ok_same m m' ls xs ls' xs' : same_tables m m' → frames_ok free m' ls' xs' → vm_ok ls xs m → vm_ok ls' xs' m'.
Proof.
  intros (Hp & Ha & Hs & Hf & Hh) Hok [_ Harcs Hk].
  assert (∀ k, kind m' k = kind m k) as Hkind by (intros k; unfold kind, areas_of; by rewrite Ha).
  assert (∀ f, held m' f = held m f) as Hheld by (intros f; unfold held, held_frames; by rewrite Hs, Hf, Hh).
  assert (∀ f, mapped m' f = mapped m f) as Hmap by (intros f; unfold mapped; by rewrite Hp).
  split; [done| |].
  - by apply (arcs_same_areas m).
  - intros Hi. destruct (Hk Hi) as [K1 K2 K3 K4 K6]. split; rewrite ?Hp; intros *; rewrite ?Hkind, ?Hheld, ?Hmap; eauto.
Qed.

(** An operation that changes neither page tables nor areas nor holders *)
Definition keeps_tables {X} (c : VM X) : Prop := ∀ m, match c m with Some (_, m') => same_tables m m' | None => True end.

Lemma hoare_keep {X} (P : Machine A F → Prop) (Q : X → Machine A F → Prop) ls xs (ls' xs' : X → list Z) (c : VM X) :
  keeps_tables c → hoare (λ m, frames_ok free m ls xs ∧ P m) c (λ x m, frames_ok free m (ls' x) (xs' x) ∧ Q x m) →
  hoare (λ m, vm_ok ls xs m ∧ P m) c (λ x m, vm_ok (ls' x) (xs' x) m ∧ Q x m).
Proof.
  intros Hsame Hc m [Hm HP]. specialize (Hsame m). specialize (Hc m (conj (vm_frames _ _ _ Hm) HP)).
  destruct (c m) as [[x m']|]; [|done]. destruct Hc as [Hok HQ]. split; [|done]. by eapply vm_ok_same.
Qed.

Lemma hoare_keep_simple {X} ls xs (ls' xs' : X → list Z) (c : VM X) :
  keeps_tables c → hoare (λ m, frames_ok free m ls xs) c (λ x m, frames_ok free m (ls' x) (xs' x)) →
  hoare (vm_ok ls xs) c (λ x, vm_ok (ls' x) (xs' x)).
Proof.
  intros Hsame Hc m Hm. specialize (Hsame m). specialize (Hc m (vm_frames _ _ _ Hm)).
  destruct (c m) as [[x m']|]; [|done]. by eapply vm_ok_same.
Qed.

Lemma vm_allocate ls xs : hoare (vm_ok ls xs) must_allocate (λ f, vm_ok (f :: ls) xs).
Proof.
  apply (hoare_keep_simple ls xs (λ f, f :: ls) (λ _, xs)); [|apply hoare_allocate_frame].
  intros m. unfold must_allocate, allocate_frame, allocate_contiguous, mbind, VM_bind.
  destruct (normalized_pages 1); [|done]. by destruct (buddy_alloc _ _) as [[n a]|].
Qed.

Lemma vm_deallocate f ls xs : hoare (vm_ok (f :: ls) xs) (deallocate_frame f) (λ _, vm_ok ls xs).
Proof. apply (hoare_keep_simple (f :: ls) xs (λ _, ls) (λ _, xs)); [by intros m|apply hoare_deallocate]. Qed.

Lemma vm_contents ls xs (g : gmap Z (list byte) → Machine A F → gmap Z (list byte)) :
  hoare (vm_ok ls xs) (modify (λ m, with_phys (g m.(m_phys) m) m)) (λ _, vm_ok ls xs).
Proof.
  apply (hoare_keep_simple ls xs (λ _, ls) (λ _, xs)); [by intros m|]. by apply hoare_same.
Qed.

Lemma vm_zero_frame f ls xs : hoare (vm_ok ls xs) (zero_frame f) (λ _, vm_ok ls xs).
Proof. apply (vm_contents ls xs (λ phys _, <[f := zero_page]> phys)). Qed.

Lemma vm_write_frame f off bytes ls xs : hoare (vm_ok ls xs) (write_frame f off bytes) (λ _, vm_ok ls xs).
Proof. apply (vm_contents ls xs (λ phys m, <[f := zsplice (frame_bytes m f) off bytes]> phys)). Qed.

Lemma vm_copy_frame f g ls xs : hoare (vm_ok ls xs) (copy_frame f g) (λ _, vm_ok ls xs).
Proof. apply (vm_contents ls xs (λ phys m, <[g := frame_bytes m f]> phys)). Qed.

Lemma vm_on_files {X} (g : F → X * F) ls xs : hoare (vm_ok ls xs) (on_files g) (λ _, vm_ok ls xs).
Proof.
  apply (hoare_keep_simple ls xs (λ _, ls) (λ _, xs)).
  - intros m. unfold on_files. by destruct (g _).
  - apply hoare_same. intros m. unfold on_files. by destruct (g _).
Qed.

Lemma drop_ref_keeps b f : keeps_tables (drop_ref b f).
Proof. intros m. unfold drop_ref. destruct (m.(m_refs) !! f); [|done]. by destruct (_ =? 0). Qed.

(** What is collected to be given back *)
Lemma vm_release_ref f ls xs :
  hoare (vm_ok ls (f :: xs)) (release_mapping_ref f) (λ last, vm_ok (if last : bool then f :: ls else ls) xs).
Proof.
  apply (hoare_keep_simple ls (f :: xs) (λ last : bool, if last then f :: ls else ls) (λ _, xs)); [apply drop_ref_keeps|].
  eapply hoare_post; [apply hoare_drop_ref|]. by intros [] m [?|[? ?]].
Qed.

Lemma vm_decrease_ref f ls xs :
  hoare (vm_ok ls (f :: xs)) (last ← decrease_ref f; if last : bool then deallocate_frame f else mret tt) (λ _, vm_ok ls xs).
Proof.
  eapply hoare_bind.
  - apply (hoare_keep_simple ls (f :: xs) (λ last : bool, if last then f :: ls else ls) (λ _, xs)); [apply drop_ref_keeps|].
    eapply hoare_post; [apply hoare_drop_ref|]. by intros [] m [?|[? ?]].
  - intros [|]; cbn; [apply vm_deallocate|by intros m Hm].
Qed.

(** ** Page table entries *)

(** Entries go, or stay as they are. *)
Lemma kinds_fewer m m' :
  m'.(m_areas) = m.(m_areas) → (∀ k e, m'.(m_ptes) !! k = Some e → m.(m_ptes) !! k = Some e) →
  (∀ f, mapped m' f <= mapped m f) → (∀ f, held m' f <= held m f) → kinds m → kinds m'.
Proof.
  intros Ha Hp Hm Hh [K1 K2 K3 K4 K6]. assert (∀ k, kind m' k = kind m k) as Hkind by (intros k; unfold kind, areas_of; by rewrite Ha).
  split; intros *; rewrite ?Hkind.
  - eauto.
  - eauto.
  - intros Hk Hf. specialize (Hh f). apply (K3 k f fl); [by apply Hp|lia].
  - intros Hk Hw Hpr. pose proof (mapped_pos m' k f fl Hk). specialize (Hm f). assert (mapped m f = 1) by eauto. lia.
  - eauto.
Qed.

Lemma vm_unmap_page p page ls xs :
  hoare (vm_ok ls xs) (unmap_page p page) (λ r, vm_ok ls match r with Some f => f :: xs | None => xs end).
Proof.
  intros m Hm. pose proof (hoare_unmap_page p page ls xs m (vm_frames _ _ _ Hm)) as Hok. unfold unmap_page in *.
  destruct (m.(m_ptes) !! (p, page)) as [[f fl]|] eqn:Hp; [|done]. destruct Hm as [_ Harcs Hk]. split; [done|by apply (arcs_same_areas m)|].
  intros Hi. apply (kinds_fewer m); [done| | | |by apply Hk]; cbn.
  - intros k e He. by apply lookup_delete_Some in He as [_ ?].
  - intros g. unfold mapped. cbn. rewrite (pte_frames_delete _ _ (f, fl)) by done. pose proof (hit_range g f). cbn. lia.
  - done.
Qed.

(** Flags that do not make a private page writable, or one that has its frame for itself *)
Lemma vm_update_flags p page flags ls xs :
  hoare (λ m, vm_ok ls xs m ∧ (iso = true → has_flag flags WRITABLE = true → kind m (p, page) = Some false →
                 ∀ f fl, m.(m_ptes) !! (p, page) = Some (f, fl) → mapped m f = 1 ∨ has_flag fl WRITABLE = true))
    (update_flags p page flags) (λ _, vm_ok ls xs).
Proof.
  intros m [Hm Hw]. pose proof (hoare_update_flags p page flags ls xs m (vm_frames _ _ _ Hm)) as Hok. unfold update_flags in *.
  destruct (m.(m_ptes) !! (p, page)) as [[f fl]|] eqn:Hp; [|done]. set (m' := with_ptes _ m) in *.
  destruct Hm as [_ Harcs Hk]. split; [done|by apply (arcs_same_areas m)|].
  intros Hi. destruct (Hk Hi) as [K1 K2 K3 K4 K6].
  assert (∀ g, mapped m' g = mapped m g) as Hmap by (intros g; unfold mapped, m'; cbn; by rewrite (pte_frames_update _ _ (f, fl))).
  assert (∀ k g gl, m'.(m_ptes) !! k = Some (g, gl) → ∃ gl', m.(m_ptes) !! k = Some (g, gl') ∧ (k ≠ (p, page) → gl' = gl) ∧ (k = (p, page) → gl = flags ∧ g = f)) as Hpt.
  { intros k g gl. unfold m'. cbn. destruct (decide (k = (p, page))) as [->|Hne].
    - rewrite lookup_insert_eq. intros [= <- <-]. by exists fl.
    - rewrite lookup_insert_ne by done. intros Hg. by exists gl. }
  split; intros *; rewrite ?Hmap; change (kind m') with (kind m); change (held m') with (held m).
  - destruct e as [g gl]. intros (gl' & He & _)%Hpt. eauto.
  - intros (gl1 & H1 & _)%Hpt (gl2 & H2 & _)%Hpt. eauto.
  - intros (gl1 & H1 & _)%Hpt ?. eauto.
  - intros (gl1 & H1 & Hne & Heq)%Hpt Hwr Hpriv. destruct (decide (k = (p, page))) as [->|Hn].
    + destruct Heq as [-> ->]; [done|]. destruct (Hw Hi Hwr Hpriv f fl eq_refl) as [?|?]; [done|by eapply (K4 _ _ _ Hp)].
    + rewrite Hne in H1 by done. by eapply K4.
  - destruct e as [g gl]. intros (gl' & He & _)%Hpt. by eapply K6.
Qed.

(** A new entry: what it needs of the other entries for its frame *)
Lemma kinds_map m k f fl b :
  m.(m_ptes) !! k = None → aligned k.2 → kind m k = Some b → (0 < held m f → b = true) →
  (∀ k' fl', m.(m_ptes) !! k' = Some (f, fl') → kind m k' = Some b ∧ (b = false → has_flag fl' WRITABLE = false)) →
  (b = false → has_flag fl WRITABLE = true → mapped m f = 0) →
  kinds m → kinds (with_ptes (<[k := (f, fl)]> m.(m_ptes)) m).
Proof.
  intros Hk Hal Hb Hheld Hother Hwr [K1 K2 K3 K4 K6]. set (m' := with_ptes _ m).
  assert (∀ g, mapped m' g = hit g f + mapped m g) as Hmap by (intros g; unfold mapped, m'; cbn; by rewrite pte_frames_insert).
  assert (∀ k' g gl, m'.(m_ptes) !! k' = Some (g, gl) → (k' = k ∧ g = f ∧ gl = fl) ∨ (k' ≠ k ∧ m.(m_ptes) !! k' = Some (g, gl))) as Hpt.
  { intros k' g gl. unfold m'. cbn. destruct (decide (k' = k)) as [->|Hne]; [rewrite lookup_insert_eq; intros [= <- <-]; auto|].
    rewrite lookup_insert_ne by done. auto. }
  split; intros *; change (kind m') with (kind m); change (held m') with (held m).
  - destruct e as [g gl]. intros [(-> & _ & _)|[_ ?]]%Hpt; [by exists b|eauto].
  - intros [(-> & -> & ->)|[_ H1]]%Hpt [(-> & ? & ?)|[_ H2]]%Hpt; [done| | |by eapply K2].
    + rewrite Hb. symmetry. by eapply Hother.
    + subst. rewrite Hb. by eapply Hother.
  - intros [(-> & -> & ->)|[_ H1]]%Hpt Hh; [rewrite Hb; by rewrite Hheld|eauto].
  - rewrite Hmap. intros [(-> & -> & ->)|[_ H1]]%Hpt Hw Hp.
    + rewrite hit_same, Hwr; [done| |done]. congruence.
    + destruct (decide (f0 = f)) as [->|Hne].
      * destruct (Hother _ _ H1) as [Hkb Hnw]. rewrite Hnw in Hw; [done|congruence].
      * rewrite hit_ne by done. assert (mapped m f0 = 1) by eauto. lia.
  - destruct e as [g gl]. intros [(-> & _ & _)|[_ ?]]%Hpt; [done|by eapply K6].
Qed.

(** A page of an area gets a frame that was just allocated. *)
Lemma vm_map_new {X} p page f fl ls xs (k : VM X) Q :
  hoare (λ m, vm_ok ls xs m ∧ m.(m_ptes) !! (p, page) = Some (f, fl)) k Q →
  hoare (λ m, vm_ok (f :: ls) xs m ∧ (iso = true → is_Some (kind m (p, page)) ∧ aligned page)) (_ ← map_to p page f fl; _ ← increase_ref f; k) Q.
Proof.
  intros Hk m (Hm & Hcov).
  pose proof (hoare_map_new (free := free) p page f fl ls xs (λ m, Some (tt, m))
    (λ _ m, frames_ok free m ls xs ∧ m.(m_ptes) !! (p, page) = Some (f, fl) ∧ mapped m f = 1 ∧ held m f = 0)
    ltac:(by intros ? ?) m (vm_frames _ _ _ Hm)) as Hnew. unfold mbind, VM_bind, map_to in *.
  destruct (m.(m_ptes) !! (p, page)) eqn:Hp; [done|]. cbn [increase_ref increase_ref_by modify] in *. apply Hk.
  destruct Hnew as (Hok & Hpt & _). set (m1 := with_ptes _ m) in *.
  destruct (frames_ok_loose m ls xs f (vm_frames _ _ _ Hm)) as (_ & _ & _ & _ & _ & Hm0 & Hh0 & _).
  split; [|done]. destruct Hm as [_ Harcs Hkinds]. split; [done|by apply (arcs_same_areas m)|].
  intros Hi. destruct (Hcov Hi) as [[b Hb] Hal]. assert (kinds m1) as Hk1.
  { apply (kinds_map m (p, page) f fl b); [done|done|done|lia| |done|by apply Hkinds].
    intros k' fl' Hk'. apply mapped_pos in Hk'. lia. }
  apply (kinds_fewer m1); [done|by intros|intros g; apply Z.le_refl|intros g; apply Z.le_refl|exact Hk1].
Qed.

(** A page gets a frame that is in use: a shared page a shared frame, or a private page one
    that is nowhere writable, without the right to write. *)
Lemma vm_map_counted {X} p page f fl n b ls xs (k : VM X) Q :
  hoare (λ m, vm_ok ls xs m ∧ m.(m_ptes) !! (p, page) = Some (f, fl)) k Q →
  hoare (λ m, vm_ok ls xs m ∧ 0 < total m xs f ∧ n = match m.(m_refs) !! f with Some _ => 1 | None => 2 end ∧
      (iso = true → kind m (p, page) = Some b ∧ aligned page ∧ (0 < held m f → b = true) ∧
         (∀ k' fl', m.(m_ptes) !! k' = Some (f, fl') → kind m k' = Some b ∧ (b = false → has_flag fl' WRITABLE = false)) ∧
         (b = false → has_flag fl WRITABLE = false)))
    (_ ← map_to p page f fl; _ ← increase_ref_by f n; k) Q.
Proof.
  intros Hk m (Hm & Hpos & Hn & Hcov).
  pose proof (hoare_map_counted (free := free) p page f fl n ls xs (λ m, Some (tt, m)) (λ _ m, frames_ok free m ls xs)
    ltac:(by intros ? ?) m (conj (vm_frames _ _ _ Hm) (conj Hpos Hn))) as Hnew. unfold mbind, VM_bind, map_to in *.
  destruct (m.(m_ptes) !! (p, page)) eqn:Hp; [done|]. cbn [increase_ref_by modify] in *. apply Hk.
  set (m1 := with_ptes _ m) in *. split; [|cbn; by rewrite lookup_insert_eq].
  destruct Hm as [_ Harcs Hkinds]. split; [done|by apply (arcs_same_areas m)|].
  intros Hi. destruct (Hcov Hi) as (Hb & Hal & Hh & Hother & Hw). assert (kinds m1) as Hk1.
  { apply (kinds_map m (p, page) f fl b); [done..| |by apply Hkinds]. intros Hf Hwr. rewrite Hw in Hwr; done. }
  apply (kinds_fewer m1); [done|by intros|intros g; apply Z.le_refl|intros g; apply Z.le_refl|exact Hk1].
Qed.

(** ** Operations that leave the areas alone *)

Definition keeps_areas {X} (c : VM X) : Prop :=
  ∀ m, match c m with Some (_, m') => m'.(m_areas) = m.(m_areas) ∧ m'.(m_shared) = m.(m_shared) | None => True end.

Lemma keeps_bind {X Y} (c : VM X) (k : X → VM Y) : keeps_areas c → (∀ x, keeps_areas (k x)) → keeps_areas (mbind k c).
Proof.
  intros Hc Hk m. specialize (Hc m). unfold mbind, VM_bind. destruct (c m) as [[x m1]|]; [|done]. specialize (Hk x m1).
  destruct (k x m1) as [[y m2]|]; [|done]. destruct Hc, Hk. split; congruence.
Qed.

Lemma tables_keep_areas {X} (c : VM X) : keeps_tables c → keeps_areas c.
Proof. intros Hc m. specialize (Hc m). destruct (c m) as [[x m']|]; [|done]. destruct Hc as (_ & ? & ? & _). done. Qed.

Lemma keeps_for_each {X} (xs : list X) (c : X → VM unit) : (∀ x, keeps_areas (c x)) → keeps_areas (for_each xs c).
Proof. intros Hc. induction xs; cbn; [by intros m|]. by apply keeps_bind. Qed.

(** Facts about the areas and the shared frames stay. *)
Lemma hoare_frame {X} (R : gmap Z AddrSpace → gmap Z (list Z) → Prop) P (c : VM X) Q :
  keeps_areas c → hoare P c Q →
  hoare (λ m, P m ∧ R m.(m_areas) m.(m_shared)) c (λ x m, Q x m ∧ R m.(m_areas) m.(m_shared)).
Proof.
  intros Hkeep Hc m [HP HR]. specialize (Hkeep m). specialize (Hc m HP). destruct (c m) as [[x m']|]; [|done].
  destruct Hkeep as [-> ->]. by split.
Qed.
End kinds.
