(* ===== verification/VmOps.v ===== *)
(** * The operations on address spaces keep the invariant

    Over VmFrames and VmKinds: each operation of Vm and VmUser, from copy-on-write to fork,
    keeps frames counted, areas well formed and, where it is meant to, private pages
    private. *)

From stdpp Require Import sets.
From S2P Require Import Prelude Errors SignalData SparseFile AddrAreas Vm VmUser VmFrames VmKinds.

Open Scope Z_scope.

Section ops.
Context {A F : Type} `{BuddyAllocatorLaws A free} `{MappedFiles F}.
Context (iso : bool).
Abbreviation VM := (VM A F).
Abbreviation Machine := (Machine A F).
Implicit Types m : Machine.

(** ** While the areas stay

    [st]: the areas; [sh]: the shared frames; [vw]: pages whose contents do not change *)
Definition seen (vw : Z * Z → option (list byte)) (m : Machine) : Prop :=
  ∀ k c, vw k = Some c → ∃ f fl, m.(m_ptes) !! k = Some (f, fl) ∧ frame_bytes m f = c.

(** A frame that can be written *)
Definition unseen (vw : Z * Z → option (list byte)) (f : Z) (m : Machine) : Prop :=
  ∀ k fl, m.(m_ptes) !! k = Some (f, fl) → vw k = None.

Definition vm_at (st : gmap Z AddrSpace) (sh : gmap Z (list Z)) (vw : Z * Z → option (list byte)) (ls xs : list Z) (m : Machine) : Prop :=
  vm_ok (free := free) iso ls xs m ∧ m.(m_areas) = st ∧ m.(m_shared) = sh ∧ seen vw m.

Definition areas_in (st : gmap Z AddrSpace) (p : Z) : list MemoryArea := (default addrspace_default (st !! p)).(memory_areas).
Definition kind_in (st : gmap Z AddrSpace) (p page : Z) : option bool := kind_at (areas_in st p) page.

Lemma frame_bytes_same m m' f : m'.(m_phys) !! f = m.(m_phys) !! f → frame_bytes m' f = frame_bytes m f.
Proof. intros Hp. unfold frame_bytes. by rewrite Hp. Qed.

Lemma seen_same vw m m' : m'.(m_ptes) = m.(m_ptes) → m'.(m_phys) = m.(m_phys) → seen vw m → seen vw m'.
Proof.
  intros Hp Hf Hs k c Hk. destruct (Hs k c Hk) as (f & fl & ? & <-). exists f, fl. rewrite Hp. split; [done|].
  apply frame_bytes_same. by rewrite Hf.
Qed.

Lemma seen_less vw vw' m : (∀ k c, vw' k = Some c → vw k = Some c) → seen vw m → seen vw' m.
Proof. intros Hv Hs k c Hk. by apply Hs, Hv. Qed.

(** An operation that changes no contents *)
Definition keeps_contents {X} (c : VM X) : Prop :=
  ∀ m, match c m with Some (_, m') => same_tables m m' ∧ m'.(m_phys) = m.(m_phys) | None => True end.

Lemma contents_drop_ref b f : keeps_contents (drop_ref b f).
Proof. intros m. unfold drop_ref. destruct (m.(m_refs) !! f); [|done]. by destruct (_ =? 0). Qed.

Lemma contents_allocate : keeps_contents must_allocate.
Proof.
  intros m. unfold must_allocate, allocate_frame, allocate_contiguous, mbind, VM_bind.
  destruct (normalized_pages 1); [|done]. by destruct (buddy_alloc _ _) as [[n a]|].
Qed.

Lemma contents_on_files {X} (g : F → X * F) : keeps_contents (on_files g).
Proof. intros m. unfold on_files. by destruct (g _). Qed.

Lemma contents_take_exclusive f : keeps_contents (take_exclusive_ref f).
Proof. intros m. unfold take_exclusive_ref. destruct (m.(m_refs) !! f); [|done]. by destruct (_ =? 1). Qed.

Lemma contents_bind {X Y} (c : VM X) (k : X → VM Y) : keeps_contents c → (∀ x, keeps_contents (k x)) → keeps_contents (mbind k c).
Proof.
  intros Hc Hk m. specialize (Hc m). unfold mbind, VM_bind. destruct (c m) as [[x m1]|]; [|done]. specialize (Hk x m1).
  destruct (k x m1) as [[y m2]|]; [|done]. unfold same_tables in *.
  destruct Hc as [(? & ? & ? & ? & ?) ?], Hk as [(? & ? & ? & ? & ?) ?]. split_and!; congruence.
Qed.

Section fixed_areas.
Context (st : gmap Z AddrSpace) (sh : gmap Z (list Z)) (vw : Z * Z → option (list byte)).
Implicit Types ls xs : list Z.
Abbreviation at_ := (vm_at st sh vw).

Lemma at_ok ls xs m : at_ ls xs m → vm_ok (free := free) iso ls xs m.
Proof. by intros [? _]. Qed.

Lemma kind_here m ls xs p page : at_ ls xs m → kind m (p, page) = kind_in st p page.
Proof. intros (_ & <- & _). done. Qed.

(** [P]: a fact of the page tables, say *)
Lemma at_frame {X} (R : Machine → Prop) (c : VM X) (ls xs : list Z) (ls' xs' : X → list Z) :
  keeps_contents c → (∀ m m', same_tables m m' → R m → R m') →
  hoare (vm_ok (free := free) iso ls xs) c (λ x, vm_ok (free := free) iso (ls' x) (xs' x)) →
  hoare (λ m, at_ ls xs m ∧ R m) c (λ x m, at_ (ls' x) (xs' x) m ∧ R m).
Proof.
  intros Hk HR Hc m [(Hm & <- & <- & Hv) Hr]. specialize (Hk m). specialize (Hc m Hm). destruct (c m) as [[x m']|]; [|done].
  destruct Hk as [Hst Hph]. split; [|by eapply HR]. destruct Hst as (Hp & Ha & Hs & _). split_and!; try done. by eapply seen_same.
Qed.

Lemma at_simple {X} (c : VM X) (ls xs : list Z) (ls' xs' : X → list Z) :
  keeps_contents c →
  hoare (vm_ok (free := free) iso ls xs) c (λ x, vm_ok (free := free) iso (ls' x) (xs' x)) →
  hoare (at_ ls xs) c (λ x, at_ (ls' x) (xs' x)).
Proof.
  intros Hk Hc m Hm. pose proof (at_frame (λ _, True) c ls xs ls' xs' Hk ltac:(done) Hc m (conj Hm I)) as Hf.
  destruct (c m) as [[x m']|]; [|done]. apply Hf.
Qed.

Lemma at_allocate ls xs : hoare (at_ ls xs) must_allocate (λ f, at_ (f :: ls) xs).
Proof. apply (at_simple _ ls xs (λ f, f :: ls) (λ _, xs)); [apply contents_allocate|apply vm_allocate]. Qed.

Lemma at_deallocate f ls xs : hoare (at_ (f :: ls) xs) (deallocate_frame f) (λ _, at_ ls xs).
Proof. by apply (at_simple _ (f :: ls) xs (λ _, ls) (λ _, xs)); [|apply vm_deallocate]. Qed.

Lemma at_on_files {X} (g : F → X * F) ls xs : hoare (at_ ls xs) (on_files g) (λ _, at_ ls xs).
Proof. apply (at_simple _ ls xs (λ _, ls) (λ _, xs)); [apply contents_on_files|apply vm_on_files]. Qed.

Lemma at_gets {X} (g : Machine → X) ls xs : hoare (at_ ls xs) (gets g) (λ x m, at_ ls xs m ∧ x = g m).
Proof. by intros m Hm. Qed.

Lemma at_release_ref f ls xs : hoare (at_ ls (f :: xs)) (release_mapping_ref f) (λ last, at_ (if last : bool then f :: ls else ls) xs).
Proof.
  apply (at_simple _ ls (f :: xs) (λ last : bool, if last then f :: ls else ls) (λ _, xs)); [apply contents_drop_ref|apply vm_release_ref].
Qed.

Lemma at_decrease_ref f ls xs :
  hoare (at_ ls (f :: xs)) (last ← decrease_ref f; if last : bool then deallocate_frame f else mret tt) (λ _, at_ ls xs).
Proof.
  apply (at_simple _ ls (f :: xs) (λ _, ls) (λ _, xs)); [|apply vm_decrease_ref].
  apply contents_bind; [apply contents_drop_ref|]. by intros [] m.
Qed.

(** ** Contents *)

Lemma loose_unseen f ls xs m : at_ ls xs m → f ∈ ls → unseen vw f m.
Proof.
  intros Hm Hf k fl Hk. apply mapped_pos in Hk. destruct (fo_loose _ _ _ _ (vm_frames _ _ _ _ (at_ok _ _ _ Hm)) f Hf) as (_ & _ & Ht).
  unfold total in Ht. pose proof (total_nonneg m xs f). lia.
Qed.

Lemma at_set_frame f (v : Machine → list byte) ls xs :
  hoare (λ m, at_ ls xs m ∧ unseen vw f m) (modify (λ m, with_phys (<[f := v m]> m.(m_phys)) m)) (λ _ m, at_ ls xs m ∧ unseen vw f m).
Proof.
  intros m ((Hm & Ha & Hs & Hv) & Hf). pose proof (vm_contents (free := free) iso ls xs (λ phys m, <[f := v m]> phys) m Hm) as Hok.
  split; [|done]. split_and!; [exact Hok|done|done|]. intros k c Hk. destruct (Hv k c Hk) as (g & gl & Hg & <-). exists g, gl. split; [done|].
  apply frame_bytes_same. cbn. apply lookup_insert_ne. intros <-. specialize (Hf k gl Hg). congruence.
Qed.

Lemma at_zero_frame f ls xs : hoare (λ m, at_ ls xs m ∧ unseen vw f m) (zero_frame f) (λ _ m, at_ ls xs m ∧ unseen vw f m).
Proof. apply (at_set_frame f (λ _, zero_page)). Qed.

Lemma at_write_frame f off bytes ls xs :
  hoare (λ m, at_ ls xs m ∧ unseen vw f m) (write_frame f off bytes) (λ _ m, at_ ls xs m ∧ unseen vw f m).
Proof. apply (at_set_frame f (λ m, zsplice (frame_bytes m f) off bytes)). Qed.

Lemma at_copy_frame f g ls xs :
  hoare (λ m, at_ ls xs m ∧ unseen vw g m) (copy_frame f g) (λ _ m, at_ ls xs m ∧ unseen vw g m).
Proof. apply (at_set_frame g (λ m, frame_bytes m f)). Qed.

(** ** Page tables *)

Lemma at_unmap_page p page ls xs :
  vw (p, page) = None →
  hoare (at_ ls xs) (unmap_page p page) (λ r, at_ ls match r with Some f => f :: xs | None => xs end).
Proof.
  intros Hvw m (Hm & Ha & Hs & Hv). pose proof (vm_unmap_page (free := free) iso p page ls xs m Hm) as Hok. unfold unmap_page in *.
  destruct (m.(m_ptes) !! _) as [[f fl]|]; [|by split]. split_and!; try done.
  intros k c Hk. destruct (Hv k c Hk) as (g & gl & Hg & <-). exists g, gl. split; [|done]. cbn. rewrite lookup_delete_ne; [done|congruence].
Qed.

Lemma seen_map m k e : m.(m_ptes) !! k = None → seen vw m → seen vw (with_ptes (<[k := e]> m.(m_ptes)) m).
Proof.
  intros Hk Hv k' c Hk'. destruct (Hv k' c Hk') as (g & gl & Hg & <-). exists g, gl. split; [|done]. cbn. rewrite lookup_insert_ne; [done|congruence].
Qed.

Lemma unseen_new m k : m.(m_ptes) !! k = None → seen vw m → vw k = None.
Proof. intros Hk Hv. destruct (vw k) as [c|] eqn:Hc; [|done]. destruct (Hv k c Hc) as (g & gl & Hg & _). congruence. Qed.

(** [hoare] for a continuation of [map_to] and [increase_ref] *)
Lemma at_map_new {X} p page f fl c ls xs (k : VM X) Q :
  (iso = true → is_Some (kind_in st p page) ∧ aligned page) →
  hoare (λ m, at_ ls xs m ∧ m.(m_ptes) !! (p, page) = Some (f, fl) ∧ unseen vw f m ∧ frame_bytes m f = c) k Q →
  hoare (λ m, at_ (f :: ls) xs m ∧ frame_bytes m f = c) (_ ← map_to p page f fl; _ ← increase_ref f; k) Q.
Proof.
  intros Hkind Hk m [Hat Hc]. pose proof (loose_unseen f (f :: ls) xs m Hat ltac:(left)) as Hun. destruct Hat as (Hm & Ha & Hs & Hv).
  pose proof (vm_map_new (free := free) iso p page f fl ls xs (λ m, Some (tt, m))
    (λ _ m, vm_ok (free := free) iso ls xs m ∧ m.(m_ptes) !! (p, page) = Some (f, fl)) ltac:(by intros ? ?) m) as Hnew.
  unfold mbind, VM_bind, map_to in *. destruct (m.(m_ptes) !! (p, page)) eqn:Hp; [done|].
  cbn [increase_ref increase_ref_by modify] in *. apply Hk.
  destruct Hnew as [Hok Hpt].
  { split; [done|]. intros Hi. unfold kind, areas_of. rewrite Ha. by apply Hkind. }
  split; [split_and!; [exact Hok|done|done|by apply (seen_map m)]|]. split; [done|]. split; [|done].
  intros k' fl'. cbn. destruct (decide (k' = (p, page))) as [->|Hne]; [intros _; by apply (unseen_new m)|].
  rewrite lookup_insert_ne by done. apply Hun.
Qed.

Lemma at_map_counted {X} p page f fl n b ls xs (k : VM X) Q :
  (iso = true → kind_in st p page = Some b ∧ aligned page) → (iso = true → b = false → has_flag fl WRITABLE = false) →
  hoare (λ m, at_ ls xs m ∧ m.(m_ptes) !! (p, page) = Some (f, fl)) k Q →
  hoare (λ m, at_ ls xs m ∧ 0 < total m xs f ∧ n = match m.(m_refs) !! f with Some _ => 1 | None => 2 end ∧
      (iso = true → (0 < held m f → b = true) ∧
         ∀ k' fl', m.(m_ptes) !! k' = Some (f, fl') → kind_in st k'.1 k'.2 = Some b ∧ (b = false → has_flag fl' WRITABLE = false)))
    (_ ← map_to p page f fl; _ ← increase_ref_by f n; k) Q.
Proof.
  intros Hkind Hfl Hk m ((Hm & Ha & Hs & Hv) & Hpos & Hn & Hother).
  pose proof (vm_map_counted (free := free) iso p page f fl n b ls xs (λ m, Some (tt, m))
    (λ _ m, vm_ok (free := free) iso ls xs m ∧ m.(m_ptes) !! (p, page) = Some (f, fl)) ltac:(by intros ? ?) m) as Hnew.
  unfold mbind, VM_bind, map_to in *. destruct (m.(m_ptes) !! (p, page)) eqn:Hp; [done|].
  cbn [increase_ref_by modify] in *. apply Hk. destruct Hnew as [Hok Hpt].
  { split_and!; try done. intros Hi. destruct (Hother Hi) as [Hh Ho]. split_and!; [|by apply Hkind|done| |by apply Hfl].
    - unfold kind, areas_of. rewrite Ha. by apply Hkind.
    - intros k' fl' Hk'. destruct (Ho k' fl' Hk') as [? ?]. split; [|done]. unfold kind, areas_of. by rewrite Ha. }
  split; [|done]. split_and!; [exact Hok|done|done|by apply (seen_map m)].
Qed.

Lemma at_update_flags p page flags ls xs :
  hoare (λ m, at_ ls xs m ∧ (iso = true → has_flag flags WRITABLE = true → kind_in st p page = Some false →
                 ∀ f fl, m.(m_ptes) !! (p, page) = Some (f, fl) → mapped m f = 1 ∨ has_flag fl WRITABLE = true))
    (update_flags p page flags) (λ _, at_ ls xs).
Proof.
  intros m [(Hm & Ha & Hs & Hv) Hw]. pose proof (vm_update_flags (free := free) iso p page flags ls xs m) as Hup.
  unfold update_flags in *. destruct (m.(m_ptes) !! (p, page)) as [[f fl]|] eqn:Hp; [|by split].
  split; [apply Hup; split; [done|]; intros Hi Hwr Hkind; apply Hw; [done..|]; unfold kind, areas_of in Hkind; by rewrite Ha in Hkind|].
  split_and!; [done|done|]. intros k c Hk. destruct (Hv k c Hk) as (g & gl & Hg & <-). destruct (decide (k = (p, page))) as [->|Hne].
  - exists f, flags. cbn. rewrite lookup_insert_eq. split; [done|]. rewrite Hp in Hg. by simplify_eq.
  - exists g, gl. cbn. by rewrite lookup_insert_ne.
Qed.
End fixed_areas.

(** ** Copy-on-write *)

Section copying.
Context (st : gmap Z AddrSpace) (sh : gmap Z (list Z)) (vw : Z * Z → option (list byte)).

Definition except (k : Z * Z) : Z * Z → option (list byte) := λ k', if decide (k' = k) then None else vw k'.

Lemma at_except k ls xs m : vm_at st sh vw ls xs m → vm_at st sh (except k) ls xs m.
Proof.
  intros (? & ? & ? & Hv). split_and!; try done. eapply seen_less, Hv. intros k' c. unfold except. by destruct (decide _).
Qed.

Lemma at_restore k f fl ls xs m :
  vm_at st sh (except k) ls xs m → m.(m_ptes) !! k = Some (f, fl) → (∀ c, vw k = Some c → frame_bytes m f = c) →
  vm_at st sh vw ls xs m.
Proof.
  intros (? & ? & ? & Hv) Hk Hc. split_and!; try done. intros k' c Hk'. destruct (decide (k' = k)) as [->|Hne].
  - exists f, fl. split; [done|by apply Hc].
  - apply Hv. unfold except. by rewrite decide_False.
Qed.

Lemma hoare_assert {X} P (φ : Prop) (c : VM X) Q : (∀ m, P m → φ) → (φ → hoare P c Q) → hoare P c Q.
Proof. intros Hφ Hc m HP. by apply (Hc (Hφ m HP)). Qed.

(** The page has a frame for itself: its contents, and all other pages, stay. *)
Lemma at_copy_page p page f fl fl' c ls xs :
  (iso = true → is_Some (kind_in st p page) ∧ aligned page) → (∀ c', vw (p, page) = Some c' → c' = c) →
  hoare (λ m, vm_at st sh vw ls xs m ∧ m.(m_ptes) !! (p, page) = Some (f, fl) ∧ frame_bytes m f = c)
    (g ← must_allocate; _ ← unmap_page p page; _ ← copy_frame f g; _ ← map_to p page g fl'; _ ← increase_ref g;
     last ← decrease_ref f; if last : bool then deallocate_frame f else mret tt)
    (λ _, vm_at st sh vw ls xs).
Proof.
  intros Hkind Hc.
  eapply (hoare_bind _ (λ g m, vm_at st sh vw (g :: ls) xs m ∧ m.(m_ptes) !! (p, page) = Some (f, fl) ∧ frame_bytes m f = c)).
  { intros m (Hm & Hp & Hb). pose proof (at_allocate st sh vw ls xs m Hm) as Hal. pose proof (contents_allocate m) as Hk.
    destruct (must_allocate m) as [[g m1]|]; [|done]. destruct Hk as [[Hpt _] Hph]. split; [done|]. rewrite Hpt. split; [done|].
    rewrite <- Hb. apply frame_bytes_same. by rewrite Hph. }
  intros g. eapply (hoare_bind _ (λ _ m, vm_at st sh (except (p, page)) (g :: ls) (f :: xs) m ∧ frame_bytes m f = c)).
  { intros m (Hm & Hp & Hb). apply (at_except (p, page)) in Hm.
    pose proof (at_unmap_page st sh (except (p, page)) p page (g :: ls) xs ltac:(unfold except; by rewrite decide_True) m Hm) as Hu.
    unfold unmap_page in *. by rewrite Hp in *. }
  intros u. eapply (hoare_bind _ (λ _ m, vm_at st sh (except (p, page)) (g :: ls) (f :: xs) m ∧ frame_bytes m g = c)).
  { intros m [Hm Hb]. pose proof (loose_unseen st sh _ g (g :: ls) (f :: xs) m Hm ltac:(left)) as Hun.
    destruct (at_copy_frame st sh _ f g (g :: ls) (f :: xs) m (conj Hm Hun)) as [Hm' _]. split; [done|].
    unfold frame_bytes at 1. cbn. by rewrite lookup_insert_eq. }
  intros u1. apply at_map_new; [done|]. eapply hoare_pre; [|apply at_decrease_ref].
  intros m (Hm & Hp & _ & Hb). apply (at_restore (p, page) g fl'); [done|done|]. intros c' Hc'. by rewrite Hb, (Hc c' Hc').
Qed.

Lemma at_replace_cow p addr ls xs : hoare (vm_at st sh vw ls xs) (replace_cow_page p addr) (λ _, vm_at st sh vw ls xs).
Proof.
  unfold replace_cow_page. set (page := page_of addr). eapply hoare_bind; [apply at_gets|]. intros entry. cbn.
  destruct entry as [[f fl]|]; [|by intros m []]. apply hoare_state. intros m0 [Hm0 Hpt]. symmetry in Hpt.
  set (fl' := Z.lor _ _). assert (iso = true → is_Some (kind_in st p page) ∧ aligned page) as Hkind.
  { intros Hi. rewrite <- (kind_here st sh vw m0 ls xs) by done. destruct Hm0 as [[_ _ Hk] _].
    split; [exact (k_covered m0 (Hk Hi) _ _ Hpt)|exact (k_pages m0 (Hk Hi) _ _ Hpt)]. }
  eapply (hoare_bind _ (λ b m, vm_at st sh vw ls xs m ∧ m.(m_ptes) = m0.(m_ptes) ∧ m.(m_phys) = m0.(m_phys) ∧ (b = true → mapped m f = 1))).
  - intros m ->. destruct Hm0 as (Hm & Ha & Hs & Hv).
    pose proof (hoare_take_exclusive (free := free) f ls xs m0 (conj (vm_frames _ _ _ _ Hm) (mapped_pos _ _ _ _ Hpt))) as Hex.
    pose proof (contents_take_exclusive f m0) as Hk. destruct (take_exclusive_ref f m0) as [[b m1]|]; [|done].
    destruct Hex as (Hok & Htrue & _). destruct Hk as [Hst Hph]. split_and!; [|by destruct Hst|done|intros Hb; by apply Htrue].
    split; [by eapply vm_ok_same|]. destruct Hst as (Hp & Hka & Hks & _). rewrite Hka, Hks. split_and!; [done..|by eapply seen_same].
  - intros [|].
    + eapply (hoare_bind _ (λ _, vm_at st sh vw ls xs)); [|intros b m ?; done]. eapply hoare_pre; [|apply at_update_flags].
      intros m (Hm & Hp & _ & Hone). split; [done|]. intros _ _ _ g gl Hg. rewrite Hp, Hpt in Hg. simplify_eq. left. by apply Hone.
    + eapply hoare_pre; [|apply (at_copy_page p page f fl fl' (frame_bytes m0 f) ls xs Hkind)].
      * intros m (Hm & Hp & Hph & _). split; [done|]. rewrite Hp. split; [done|]. apply frame_bytes_same. by rewrite Hph.
      * intros c' Hc'. destruct Hm0 as (_ & _ & _ & Hv). destruct (Hv _ _ Hc') as (g & gl & Hg & <-). rewrite Hpt in Hg. by simplify_eq.
Qed.
End copying.

Section applying.
Context (st : gmap Z AddrSpace) (sh : gmap Z (list Z)) (vw : Z * Z → option (list byte)).
Abbreviation at_ := (vm_at st sh vw).

(** ** Applying pages *)

Lemma frames_ok_forget m f ls xs : frames_ok free m (f :: ls) xs → frames_ok free m ls xs.
Proof.
  intros [H1' H2' H3' H4' H5' H6']. split; try done.
  - intros g Hg. destruct (H3' g Hg) as (? & ? & Hn). split_and!; [done..|]. intros ?. apply Hn. by right.
  - intros g Hg. apply H4'. by right.
  - by apply NoDup_cons in H5' as [_ ?].
Qed.

(** A frame that nothing refers to is lost. *)
Lemma at_forget f ls xs m : at_ (f :: ls) xs m → at_ ls xs m.
Proof. intros ([Hf ? ?] & ? & ? & ?). split; [|done]. split; [by eapply frames_ok_forget|done..]. Qed.

Lemma at_alloc_zeroed ls xs : hoare (at_ ls xs) alloc_zeroed_frame (λ f, at_ (f :: ls) xs).
Proof.
  unfold alloc_zeroed_frame. eapply hoare_bind; [apply at_allocate|]. intros f.
  eapply (hoare_bind _ (λ _, at_ (f :: ls) xs)); [|by intros u m Hm].
  eapply hoare_post; [eapply hoare_pre; [|apply at_zero_frame]|by intros u m []].
  intros m Hm. split; [done|]. eapply loose_unseen; [done|left].
Qed.

Lemma at_alloc_map p page area z ls xs :
  (iso = true → is_Some (kind_in st p page) ∧ aligned page) →
  hoare (at_ ls xs) (alloc_map_zeroed_page p page area z) (λ f m, at_ ls xs m ∧ unseen vw f m).
Proof.
  intros Hk. unfold alloc_map_zeroed_page. eapply hoare_bind; [apply at_allocate|]. intros f. cbn.
  apply hoare_state. intros m0 Hm0. eapply hoare_pre; [|apply (at_map_new st sh vw p page f _ (frame_bytes m0 f) ls xs); [done|]].
  { by intros m ->. }
  eapply (hoare_bind _ (λ _ m, at_ ls xs m ∧ unseen vw f m)); [|by intros u m Hm].
  destruct z; (eapply hoare_pre; [intros m (Hm & _ & Hu & _); exact (conj Hm Hu)|]); [apply at_zero_frame|by intros m Hm].
Qed.

(** What [SharedFrames] objects, the frame cache and other owners hold is counted. *)
Lemma held_counted m f ls xs : at_ ls xs m → 0 < held m f → is_Some (m.(m_refs) !! f).
Proof.
  intros ([Hf _ _] & _) Hh. destruct (m.(m_refs) !! f) eqn:Hr; [by eexists|].
  destruct (fo_uncounted _ _ _ _ Hf f Hr). lia.
Qed.

Lemma at_map_existing p page f fl ls xs :
  (iso = true → kind_in st p page = Some true ∧ aligned page) →
  hoare (λ m, at_ ls xs m ∧ 0 < held m f) (map_existing_frame p page f fl true) (λ _, at_ ls xs).
Proof.
  intros Hk. unfold map_existing_frame.
  eapply hoare_pre; [|apply (at_map_counted st sh vw p page f fl 1 true ls xs (mret f) (λ _, at_ ls xs)); [done|done|by intros m []]].
  intros m [Hm Hh]. destruct (held_counted m f ls xs Hm Hh) as [c Hc]. split; [done|]. split; [|rewrite Hc; split; [done|]].
  - unfold total. pose proof (total_nonneg m xs f). lia.
  - intros Hi. split; [done|]. intros k' fl' Hk'. split; [|done]. destruct Hm as ([_ _ Hkk] & Ha & _).
    pose proof (k_held m (Hkk Hi) k' f fl' Hk' Hh) as Hkind. unfold kind, areas_of in Hkind. by rewrite Ha in Hkind.
Qed.

(** A frame that nothing refers to enters the cache of file frames. *)
Lemma at_new_file_frame f key ls xs :
  hoare (λ m, at_ (f :: ls) xs m ∧ m.(m_file_frames) !! key = None)
    (_ ← increase_ref f; modify (λ m, with_file_frames (<[key := f]> m.(m_file_frames)) m))
    (λ _ m, at_ ls xs m ∧ 0 < held m f).
Proof.
  intros m (([Hf Harcs Hk] & Ha & Hs & Hv) & Hkey). cbn.
  pose proof (hoare_increase (free := free) f (f :: ls) ls xs ltac:(by right) m) as Hinc. cbn in Hinc.
  destruct Hinc as [Hok _]; [split; [done|]; intros Heq; exfalso; by apply (f_equal length) in Heq; cbn in Heq; lia|].
  destruct (frames_ok_loose m ls xs f Hf) as (_ & _ & _ & _ & _ & Hm0 & Hh0 & _).
  set (m1 := with_refs _ m) in *. set (m2 := with_file_frames (<[key := f]> m.(m_file_frames)) m1).
  assert (∀ g, held m2 g = hit g f + held m g) as Hheld.
  { intros g. unfold held, held_frames, m2, m1. cbn. rewrite !occ_app, file_frames_insert by done. lia. }
  assert (∀ g, total m2 xs g = total m1 (f :: xs) g) as Htot.
  { intros g. unfold total. rewrite Hheld, occ_cons. change (mapped m2 g) with (mapped m g). change (mapped m1 g) with (mapped m g).
    change (held m1 g) with (held m g). lia. }
  split; [split; [|done]|rewrite Hheld, hit_same; lia]. split.
  - destruct Hok as [H1' H2' H3' H4' H5' H6']. split; [intros g; rewrite Htot; apply H1'| |intros g; rewrite Htot; apply H3'|intros g; rewrite Htot; apply H4'|done|intros g; rewrite Htot; apply H6'].
    intros g Hg. assert (g ≠ f) as Hne by (intros ->; unfold m2, m1 in Hg; cbn in Hg; by rewrite lookup_insert_eq in Hg).
    destruct (H2' g Hg) as [Hh Hm]. rewrite Hheld, hit_ne by done. rewrite occ_cons, hit_ne in Hm by done. split; [exact Hh|exact Hm].
  - by apply (arcs_same_areas m).
  - intros Hi. destruct (Hk Hi) as [K1 K2 K3 K4 K6]. split; try done.
    intros k g gl Hpt Hpos. rewrite Hheld in Hpos. destruct (decide (g = f)) as [->|Hne]; [pose proof (mapped_pos m k f gl Hpt); lia|].
    rewrite hit_ne in Hpos by done. by eapply (K3 k g gl).
Qed.

Lemma at_get_or_load file id offset read_len ls xs :
  hoare (at_ ls xs) (get_or_load_shared_file_frame file id offset read_len)
    (λ r m, at_ ls xs m ∧ match r with Some f => 0 < held m f | None => True end).
Proof.
  unfold get_or_load_shared_file_frame. set (key := (_, _, offset)). eapply hoare_bind; [apply at_gets|]. intros cached. cbn.
  destruct cached as [f|].
  { intros m [Hm Hc]. split; [done|]. unfold held, held_frames. rewrite occ_pos, !elem_of_app. right. left.
    apply list_elem_of_fmap. exists (key, f). split; [done|]. by apply elem_of_map_to_list. }
  set (P := λ m : Machine, m.(m_file_frames) !! key = None).
  assert (∀ m m' : Machine, same_tables m m' → P m → P m') as HP by (intros m m' (_ & _ & _ & Hff & _); unfold P; by rewrite Hff).
  eapply (hoare_bind _ (λ f m, at_ (f :: ls) xs m ∧ P m)).
  { unfold alloc_zeroed_frame. eapply (hoare_bind _ (λ f m, at_ (f :: ls) xs m ∧ P m)).
    - eapply hoare_pre; [|apply (at_frame st sh vw P must_allocate ls xs (λ f, f :: ls) (λ _, xs)); [apply contents_allocate|exact HP|apply vm_allocate]].
      intros m [Hm Hn]. by split.
    - intros f. eapply (hoare_bind _ (λ _ m, at_ (f :: ls) xs m ∧ P m)); [|by intros u m Hm]. intros m [Hm Hn].
      split; [|done]. by apply (at_zero_frame st sh vw f (f :: ls) xs m (conj Hm (loose_unseen _ _ _ _ _ _ _ Hm ltac:(left)))). }
  intros f. eapply (hoare_bind _ (λ _ m, at_ (f :: ls) xs m ∧ P m)).
  { destruct (read_len =? 0); [by intros m Hm|].
    eapply (hoare_bind _ (λ _ m, at_ (f :: ls) xs m ∧ P m)).
    - apply (at_frame st sh vw P _ (f :: ls) xs (λ _, f :: ls) (λ _, xs)); [apply contents_on_files|exact HP|apply vm_on_files].
    - intros [[data valid]|e]; [|by intros m Hm]. eapply (hoare_bind _ (λ _ m, at_ (f :: ls) xs m ∧ P m)); [|by intros u m Hm].
      intros m [Hm Hn]. split; [|done].
      apply (at_write_frame st sh vw f _ _ (f :: ls) xs m (conj Hm (loose_unseen _ _ _ _ _ _ _ Hm ltac:(left)))). }
  intros [|]; cbn.
  - intros m Hm. pose proof (at_new_file_frame f key ls xs m Hm) as Hnew. exact Hnew.
  - intros m [Hm _]. split; [by eapply at_forget|done].
Qed.

Lemma at_copy_cached file id off len f ls xs :
  hoare (λ m, at_ ls xs m ∧ unseen vw f m) (copy_cached_file_page file id off len f) (λ _, at_ ls xs).
Proof.
  unfold copy_cached_file_page. eapply (hoare_bind _ (λ _ m, at_ ls xs m ∧ unseen vw f m)).
  - apply (at_frame st sh vw (unseen vw f) _ ls xs (λ _, ls) (λ _, xs)); [apply contents_on_files| |apply vm_on_files].
    intros m m' (Hp & _) Hu k fl. rewrite Hp. apply Hu.
  - intros [[data valid]|e]; [|by intros m Hm]. eapply hoare_bind; [apply at_write_frame|]. intros u.
    eapply hoare_post; [apply at_write_frame|by intros ? ? []].
Qed.

Lemma at_apply_file_page p page area offset file_bytes file shared id ls xs :
  (iso = true → kind_in st p page = Some shared ∧ aligned page) →
  hoare (at_ ls xs) (apply_file_page p page area offset file_bytes file shared id) (λ _, at_ ls xs).
Proof.
  intros Hk. unfold apply_file_page. eapply hoare_bind; [apply at_gets|]. intros entry. cbn.
  destruct entry; [by intros m []|]. eapply hoare_bind; [eapply hoare_pre; [|apply at_get_or_load]; by intros m []|].
  intros r. assert (hoare (λ m, at_ ls xs m ∧ match r with Some f => 0 < held m f | None => True end)
    (frame ← alloc_map_zeroed_page p page area (Z.min PAGE_SIZE (sat_sub file_bytes (page - area.(start))) <? PAGE_SIZE);
     _ ← (if Z.min PAGE_SIZE (sat_sub file_bytes (page - area.(start))) =? 0 then mret tt
          else copy_cached_file_page file id (offset + (page - area.(start))) (Z.min PAGE_SIZE (sat_sub file_bytes (page - area.(start)))) frame);
     mret (Some frame)) (λ _, at_ ls xs)) as Hprivate.
  { eapply (hoare_bind _ (λ f m, at_ ls xs m ∧ unseen vw f m)); [eapply hoare_pre; [|apply at_alloc_map]; [by intros m []|]; intros Hi; destruct (Hk Hi) as [-> ?]; by split|].
    intros f. eapply (hoare_bind _ (λ _, at_ ls xs)); [|by intros u m Hm]. destruct (_ =? 0); [by intros m []|apply at_copy_cached]. }
  destruct shared; [destruct r as [f|]|]; [|exact Hprivate..].
  eapply hoare_bind; [by apply at_map_existing|]. by intros g m Hm.
Qed.

Lemma at_apply_file_pages p pages area offset file_bytes file shared id first ls xs :
  (iso = true → ∀ page, page ∈ pages → kind_in st p page = Some shared ∧ aligned page) →
  hoare (at_ ls xs) (apply_file_pages p pages area offset file_bytes file shared id first) (λ _, at_ ls xs).
Proof.
  revert first. induction pages as [|page pages IH]; intros first Hk; cbn; [by intros m Hm|].
  eapply hoare_bind; [apply at_apply_file_page; intros Hi; apply Hk; [done|left]|]. intros f. apply IH. intros Hi q Hq. apply Hk; [done|by right].
Qed.

(** ** Areas *)

Lemma at_areas_ok ls xs m p : at_ ls xs m → areas_ok (areas_in st p).
Proof. intros ([_ [A1 _] _] & <- & _). destruct (A1 p) as [? _]. done. Qed.

Lemma at_aligned ls xs m p a : at_ ls xs m → a ∈ areas_in st p → aligned a.(start) ∧ aligned a.(end_).
Proof. intros ([_ Harcs _] & <- & _) Ha. by apply (ao_aligned m Harcs p). Qed.

(** A page of an area; for [iso] its address counts. *)
Definition page_in (p : Z) (area : MemoryArea) (page : Z) : Prop :=
  area ∈ areas_in st p ∧ (iso = true → contains area page = true ∧ aligned page).

Lemma page_in_kind ls xs m p area page : at_ ls xs m → page_in p area page → iso = true →
  kind_in st p page = Some (is_shared_mapping area) ∧ aligned page.
Proof. intros Hm [Ha Hc] Hi. split; [apply kind_at_area; [by eapply at_areas_ok|done|by apply Hc]|by apply Hc]. Qed.

Lemma page_of_in ls xs m p area addr : at_ ls xs m → area ∈ areas_in st p → contains area addr = true → page_in p area (page_of addr).
Proof.
  intros Hm Ha Hc. split; [done|]. intros Hi. destruct (at_aligned ls xs m p area Hm Ha) as [Hs He].
  unfold contains, page_of, aligned, PAGE_SIZE in *. split; [|by rewrite Zminus_mod_idemp_r, Z.sub_diag].
  boolify. Z.to_euclidean_division_equations. lia.
Qed.

Lemma elem_of_pages_from first n page : page ∈ pages_from first n ↔ ∃ i : nat, (i < n)%nat ∧ page = first + Z.of_nat i * PAGE_SIZE.
Proof.
  unfold pages_from. rewrite list_elem_of_fmap. split.
  - intros (i & -> & Hi%elem_of_seq). exists i. split; [lia|done].
  - intros (i & Hi & ->). exists i. split; [done|]. apply elem_of_seq. lia.
Qed.

Lemma pages_in ls xs m p area page n i :
  at_ ls xs m → page_in p area page → (n ≤ Z.to_nat (sat_sub (area_pages area) ((page - area.(start)) / PAGE_SIZE)))%nat → (i < n)%nat →
  page_in p area (page + Z.of_nat i * PAGE_SIZE).
Proof.
  intros Hm [Ha Hc] Hn Hlt. split; [done|]. intros Hi. destruct (Hc Hi) as [Hcon Hal]. destruct (at_aligned ls xs m p area Hm Ha) as [Hs He].
  unfold contains, aligned, area_pages, sat_sub, PAGE_SIZE in *. boolify.
  pose proof (Z.div_mod page 4096). pose proof (Z.div_mod area.(start) 4096). pose proof (Z.div_mod area.(end_) 4096).
  replace ((area.(end_) - area.(start)) / 4096) with (area.(end_) / 4096 - area.(start) / 4096) in Hn by (symmetry; Z.to_euclidean_division_equations; lia).
  replace ((page - area.(start)) / 4096) with (page / 4096 - area.(start) / 4096) in Hn by (symmetry; Z.to_euclidean_division_equations; lia).
  split; [lia|]. rewrite Z_mod_plus_full. done.
Qed.

Lemma held_shared m arc frames f : m.(m_shared) !! arc = Some frames → f ∈ frames → 0 < held m f.
Proof.
  intros Hs Hf. unfold held, held_frames. rewrite occ_pos, !elem_of_app. left. unfold frames_of. rewrite list_elem_of_In, in_concat.
  exists frames. split; [|by apply list_elem_of_In]. apply in_map_iff. exists (arc, frames). split; [done|]. by apply list_elem_of_In, elem_of_map_to_list.
Qed.

Lemma at_apply_cluster p page area n ls xs :
  page_in p area page → hoare (at_ ls xs) (apply_page_cluster p page area n) (λ _, at_ ls xs).
Proof.
  intros Hpage. unfold apply_page_cluster. destruct area.(data) as [|offset file_bytes zf file shared|arc frames shared_flags] eqn:Hd.
  - apply hoare_state. intros m0 Hm0. eapply hoare_pre; [|eapply hoare_post; [apply at_alloc_map|by intros ? ? []]]; [by intros m ->|].
    intros Hi. destruct (page_in_kind ls xs m0 p area page Hm0 Hpage Hi) as [-> ?]. by split.
  - eapply hoare_bind; [apply at_gets|]. intros [id|]; [|by intros m Hm]. cbn.
    eapply (hoare_bind _ (λ _, at_ ls xs)).
    + apply hoare_state. intros m0 [Hm0 _]. eapply hoare_pre; [|apply at_apply_file_pages]; [by intros m ->|].
      intros Hi q (i & Hlt & ->)%elem_of_pages_from.
      destruct (page_in_kind ls xs m0 p area (page + Z.of_nat i * PAGE_SIZE) Hm0) as [-> Hal];
        [eapply (pages_in ls xs m0 p area page _ i Hm0 Hpage); [|exact Hlt]; lia|done|].
      split; [|done]. unfold is_shared_mapping. rewrite Hd. by destruct shared.
    + intros [frame|]; [by intros m Hm|]. eapply hoare_bind; [apply at_gets|]. intros [[frame fl]|]; [by intros m []|by intros m Hm].
  - destruct (frames !! _) as [frame|] eqn:Hf; [|by intros m Hm]. apply hoare_state. intros m0 Hm0.
    eapply hoare_pre; [|apply at_map_existing].
    + intros m ->. split; [done|]. apply (held_shared m0 arc frames); [|by eapply list_elem_of_lookup_2].
      destruct Hpage as [Hin _]. destruct Hm0 as ([_ [_ A2 _] _] & <- & <- & _). by apply (A2 p area arc frames shared_flags).
    + intros Hi. destruct (page_in_kind ls xs m0 p area page Hm0 Hpage Hi) as [-> ?]. split; [|done]. unfold is_shared_mapping. by rewrite Hd.
Qed.

Lemma at_apply_area p area ls xs :
  area ∈ areas_in st p → hoare (at_ ls xs) (apply_area p area) (λ _, at_ ls xs).
Proof.
  intros Ha. unfold apply_area. eapply (hoare_bind _ (λ _, at_ ls xs)); [|by intros u m Hm]. apply hoare_for_each.
  intros page (i & Hi & ->)%elem_of_pages_from. apply hoare_state. intros m0 Hm0.
  eapply hoare_pre; [by intros m ->; exact Hm0|]. eapply (hoare_bind _ (λ _, at_ ls xs)); [|by intros u m Hm].
  apply at_apply_cluster. split; [done|]. intros Hiso. destruct (at_aligned ls xs m0 p area Hm0 Ha) as [Hs He].
  unfold area_pages, page_of, contains, aligned, PAGE_SIZE in *.
  pose proof (Z.div_mod area.(start) 4096). pose proof (Z.div_mod area.(end_) 4096).
  replace ((area.(end_) - area.(start)) / 4096) with (area.(end_) / 4096 - area.(start) / 4096) in Hi by (symmetry; Z.to_euclidean_division_equations; lia).
  split; [lia|]. by rewrite Hs, Z.sub_0_r, Z_mod_plus_full.
Qed.
End applying.
End ops.
