(* ===== verification/VmSteps.v ===== *)
(** * Area lists, mapping and unmapping

    Over VmOps: the operations that change the areas of a space keep frames counted, areas
    well formed, and the contents of the pages that they do not unmap. *)

From stdpp Require Import sets.
From S2P Require Import Prelude Errors SignalData SparseFile AddrAreas Vm VmUser VmFrames VmKinds VmOps.

Open Scope Z_scope.

(** ** The search for an area *)

Lemma get_area_found st addr : addrspace_ok st →
  (get_area st addr).2.(memory_areas) = st.(memory_areas) ∧
  match (get_area st addr).1 with
  | Some a => a ∈ st.(memory_areas) ∧ contains a addr = true
  | None => ∀ a, a ∈ st.(memory_areas) → contains a addr = false
  end.
Proof.
  intros [Hok _]. unfold get_area. destruct (_ ≫= _) as [a|] eqn:Hc.
  - apply bind_Some in Hc as (i & _ & Hc). apply bind_Some in Hc as (b & Hb & Hc). destruct (contains b addr) eqn:Hcon; [|done].
    simplify_eq. split; [done|]. split; [by eapply list_elem_of_lookup_2|done].
  - destruct (search_area_spec (memory_areas st) addr (search_fuel (memory_areas st)) 0
      (length (memory_areas st)) Hok) as (res & -> & Hres); [unfold search_fuel; lia|lia| |].
    { intros i a Hi _. apply lookup_lt_Some in Hi. lia. }
    destruct res as [i|]; [|by split]. destruct Hres as (a & Ha & Hcon). cbn. rewrite Ha. split; [done|].
    split; [by eapply list_elem_of_lookup_2|done].
Qed.

(** ** Flags *)

Lemma has_flag_remove flags bit other : Z.land other bit = 0 → has_flag (remove_flag flags other) bit = has_flag flags bit.
Proof.
  intros Hd. unfold has_flag, remove_flag. f_equal. rewrite <- Z.land_assoc. f_equal. rewrite Z.land_comm.
  apply Z.bits_inj'. intros n Hn. rewrite Z.land_spec, Z.lnot_spec by done.
  assert (Z.testbit (Z.land other bit) n = false) as Hz by (by rewrite Hd, Z.bits_0). rewrite Z.land_spec in Hz.
  by destruct (Z.testbit other n), (Z.testbit bit n).
Qed.

Lemma has_flag_removed flags bit : bit ≠ 0 → has_flag (remove_flag flags bit) bit = false.
Proof.
  intros Hb. unfold has_flag, remove_flag. rewrite <- Z.land_assoc, (Z.land_comm (Z.lnot bit)), Z.land_lnot_diag, Z.land_0_r. lia.
Qed.

Lemma has_flag_lor flags bit : has_flag (Z.lor flags bit) bit = true.
Proof.
  unfold has_flag. apply Z.eqb_eq. apply Z.bits_inj'. intros n Hn. rewrite Z.land_spec, Z.lor_spec.
  by destruct (Z.testbit flags n), (Z.testbit bit n).
Qed.

Lemma cow_flags_not_writable flags : has_flag (as_cow_flags flags) WRITABLE = false.
Proof. by apply has_flag_removed. Qed.

(** ** Pieces of areas *)

Lemma unmap_piece_bounds s e a p : p ∈ unmap_area s e a →
  (p.(start) = a.(start) ∨ p.(start) = e) ∧ (p.(end_) = a.(end_) ∨ p.(end_) = s).
Proof.
  unfold unmap_area. destruct (_ <=? _) eqn:Hov; [intros ->%list_elem_of_singleton; auto|].
  intros [[Hc ->]%elem_of_if|[Hc ->]%elem_of_if]%elem_of_app; cbn; lia.
Qed.

Lemma retag_piece_bounds retag s e a p :
  (∀ x, (retag x).(start) = x.(start) ∧ (retag x).(end_) = x.(end_)) → p ∈ retag_area retag s e a →
  (p.(start) = a.(start) ∨ p.(start) = s ∨ p.(start) = e) ∧ (p.(end_) = a.(end_) ∨ p.(end_) = s ∨ p.(end_) = e).
Proof.
  intros Hret. unfold retag_area, split_memory_area. destruct (_ <=? _) eqn:Hov; [intros ->%list_elem_of_singleton; auto|].
  set (m := with_bounds a (Z.max a.(start) s) (Z.min a.(end_) e) _). destruct (Hret m) as [Hs He].
  assert (∀ (c : bool) (p : MemoryArea), opt_list (if c then Some p else None) = if c then [p] else []) as Hopt by (by intros []).
  rewrite !Hopt. intros [[Hc ->]%elem_of_if|[->%list_elem_of_singleton|[Hc ->]%elem_of_if]%elem_of_app]%elem_of_app;
    rewrite ?Hs, ?He; cbn; lia.
Qed.

Lemma elem_of_register st area x : x ∈ (register_area st area).2.(memory_areas) →
  x = area ∨ ∃ a, a ∈ st.(memory_areas) ∧ x ∈ unmap_area area.(start) area.(end_) a.
Proof.
  unfold register_area. cbn [LAZY_MAP snd with_areas memory_areas]. unfold vec_insert_area. set (i := search_start _ _). set (l := (unmap_areas _ _ _).(memory_areas)).
  intros Hx. assert (x = area ∨ x ∈ l) as [->|Hl]; [|by left|].
  - rewrite <- (take_drop i l). apply elem_of_app in Hx as [Hx|[->|Hx]%elem_of_cons]; rewrite elem_of_app; auto.
  - right. by apply elem_of_concat_map in Hl.
Qed.

Section steps.
Context {A F : Type} `{BuddyAllocatorLaws A free} `{MappedFiles F}.
Context (iso : bool).
Abbreviation VM := (VM A F).
Abbreviation Machine := (Machine A F).
Abbreviation ok := (vm_ok (free := free) iso).
Implicit Types m : Machine.

(** The invariant, and pages that keep their contents; with [iso] they are private. *)
Definition vm_sees (vw : Z * Z → option (list byte)) (ls xs : list Z) m : Prop :=
  ok ls xs m ∧ seen vw m ∧ (iso = true → ∀ k, is_Some (vw k) → kind m k = Some false).

Lemma sees_at {X} vw (c : VM X) ls xs (ls' xs' : X → list Z) (P : Machine → Prop) (Q : gmap Z AddrSpace → X → Machine → Prop) :
  (∀ st sh, hoare (λ m, vm_at (free := free) iso st sh vw ls xs m ∧ P m) c (λ x m, vm_at (free := free) iso st sh vw (ls' x) (xs' x) m ∧ Q st x m)) →
  hoare (λ m, vm_sees vw ls xs m ∧ P m) c (λ x m, vm_sees vw (ls' x) (xs' x) m ∧ Q m.(m_areas) x m).
Proof.
  intros Hc m [(Hm & Hv & Hk) HP]. specialize (Hc m.(m_areas) m.(m_shared) m). destruct (c m) as [[x m']|]; [|done].
  destruct Hc as [(Hm' & Ha & Hs & Hv') HQ]; [by split|]. split; [|by rewrite Ha]. split_and!; [done..|].
  intros Hi k Hvk. unfold kind, areas_of. rewrite Ha. by apply Hk.
Qed.

Lemma sees_simple {X} vw (c : VM X) ls xs (ls' xs' : X → list Z) :
  (∀ st sh, hoare (vm_at (free := free) iso st sh vw ls xs) c (λ x, vm_at (free := free) iso st sh vw (ls' x) (xs' x))) →
  hoare (vm_sees vw ls xs) c (λ x, vm_sees vw (ls' x) (xs' x)).
Proof.
  intros Hc. eapply hoare_pre; [|eapply hoare_post; [apply (sees_at vw c ls xs ls' xs' (λ _, True) (λ _ _ _, True))|]].
  - by intros m Hm.
  - intros st sh m [Hm _]. specialize (Hc st sh m Hm). by destruct (c m) as [[x m']|].
  - by intros x m [].
Qed.

(** ** New areas for a space *)

Lemma set_areas_ok m p st' ls xs :
  ok ls xs m → addrspace_ok st' →
  (∀ a arc fr fl, a ∈ st'.(memory_areas) → a.(data) = Data.Shared arc fr fl → m.(m_shared) !! arc = Some fr) →
  (iso = true → ∀ page e, m.(m_ptes) !! (p, page) = Some e → kind_at st'.(memory_areas) page = kind m (p, page)) →
  (∀ a, a ∈ st'.(memory_areas) → aligned a.(start) ∧ aligned a.(end_)) →
  ok ls xs (with_spaces (<[p := st']> m.(m_areas)) m) ∧
  (iso = true → ∀ k e, m.(m_ptes) !! k = Some e → kind (with_spaces (<[p := st']> m.(m_areas)) m) k = kind m k).
Proof.
  intros [Hf [A1 A2 A3] Hk] Hst Harc Hkind Hal. set (m' := with_spaces _ m).
  assert (∀ q, areas_of m' q = if decide (q = p) then st'.(memory_areas) else areas_of m q) as Hareas.
  { intros q. unfold areas_of, m'. cbn. destruct (decide (q = p)) as [->|Hne]; [by rewrite lookup_insert_eq|by rewrite lookup_insert_ne]. }
  assert (iso = true → ∀ k e, m.(m_ptes) !! k = Some e → kind m' k = kind m k) as Hsame.
  { intros Hi [q page] e He. unfold kind at 1. rewrite Hareas. cbn. destruct (decide (q = p)) as [->|Hne]; [by apply (Hkind Hi page e)|done]. }
  split; [|done]. split.
  - by apply (frames_ok_same free m).
  - split.
    + intros q. unfold m'. cbn. destruct (decide (q = p)) as [->|Hne]; [by rewrite lookup_insert_eq|by rewrite lookup_insert_ne].
    + intros q a arc fr fl. rewrite Hareas. destruct (decide (q = p)); [apply Harc|apply A2].
    + intros q a. rewrite Hareas. destruct (decide (q = p)); [by apply Hal|apply A3].
  - intros Hi. destruct (Hk Hi) as [K1 K2 K3 K4 K6]. specialize (Hsame Hi).
    split; intros *; change (m_ptes m') with (m_ptes m); change (held m') with (held m); change (mapped m') with (mapped m).
    + intros He. rewrite (Hsame k e He). by eapply K1.
    + intros He He'. rewrite (Hsame _ _ He), (Hsame _ _ He'). by eapply K2.
    + intros He. rewrite (Hsame _ _ He). by eapply K3.
    + intros He. rewrite (Hsame _ _ He). by eapply K4.
    + apply K6.
Qed.

(** What a change of areas has to keep *)
Definition fits m p (st' : AddrSpace) : Prop :=
  addrspace_ok st' ∧
  (∀ a arc fr fl, a ∈ st'.(memory_areas) → a.(data) = Data.Shared arc fr fl → m.(m_shared) !! arc = Some fr) ∧
  (iso = true → ∀ page e, m.(m_ptes) !! (p, page) = Some e → kind_at st'.(memory_areas) page = kind m (p, page)) ∧
  (∀ a, a ∈ st'.(memory_areas) → aligned a.(start) ∧ aligned a.(end_)).

Lemma sees_areas vw p st' ls xs :
  hoare (λ m, vm_sees vw ls xs m ∧ fits m p st') (modify (λ m, with_spaces (<[p := st']> m.(m_areas)) m))
    (λ _ m, vm_sees vw ls xs m ∧ areas_of m p = st'.(memory_areas)).
Proof.
  intros m ((Hm & Hv & Hk) & Hst & Harc & Hkind & Hal). cbn. destruct (set_areas_ok m p st' ls xs Hm Hst Harc Hkind Hal) as [Hok Hsame].
  split; [|unfold areas_of; cbn; by rewrite lookup_insert_eq]. split_and!; [done|done|]. intros Hi k [c Hc].
  destruct (Hv k c Hc) as (f & fl & He & _). rewrite (Hsame Hi k _ He). apply Hk; [done|by eexists].
Qed.

(** The same list of areas, whatever else changes *)
Lemma fits_same m p st' ls xs :
  ok ls xs m → addrspace_ok st' → st'.(memory_areas) = areas_of m p → fits m p st'.
Proof.
  intros [_ [A1 A2 A3] Hk] Hst Heq. split_and!; [done|rewrite Heq; apply A2|by rewrite Heq|]. rewrite Heq. apply A3.
Qed.

Lemma sees_find_area vw p addr ls xs :
  hoare (vm_sees vw ls xs) (find_area p addr)
    (λ r m, vm_sees vw ls xs m ∧ match r with
            | Some a => a ∈ areas_of m p ∧ contains a addr = true
            | None => ∀ a, a ∈ areas_of m p → contains a addr = false end).
Proof.
  intros m Hm. unfold find_area, mbind, VM_bind, space, gets. set (st := default addrspace_default _).
  assert (addrspace_ok st) as Hst by (by destruct Hm as ([_ [A1 _] _] & _); apply (A1 p)).
  destruct (get_area_found st addr Hst) as [Hsame Hfound]. pose proof (get_area_ok st addr Hst) as Hok'.
  destruct (get_area st addr) as [r st'] eqn:Hg. cbn in *.
  destruct (sees_areas vw p st' ls xs m) as [Hm' Ha]; [split; [done|]; eapply fits_same; [apply Hm|done|by rewrite Hsame]|].
  split; [done|]. cbn in Ha. rewrite Ha, Hsame. done.
Qed.

(** ** Shared frames go *)

Lemma sees_release_frames vw frames ls xs : hoare (vm_sees vw ls (frames ++ xs)) (release_frames frames) (λ _, vm_sees vw ls xs).
Proof.
  unfold release_frames. induction frames as [|f frames IH]; cbn; [by intros m Hm|].
  eapply hoare_bind; [|intros u; exact IH].
  apply (sees_simple vw _ ls (f :: frames ++ xs) (λ _, ls) (λ _, frames ++ xs)). intros st sh. apply at_decrease_ref.
Qed.

Lemma arc_used_false m arc : arc_used m arc = false → ∀ p a fr fl, a ∈ areas_of m p → a.(data) ≠ Data.Shared arc fr fl.
Proof.
  unfold arc_used. intros Hu p a fr fl Ha Hd. apply Bool.not_true_iff_false in Hu. apply Hu, existsb_exists.
  unfold areas_of in Ha. destruct (m.(m_areas) !! p) as [st|] eqn:Hp; cbn in Ha; [|by apply elem_of_nil in Ha].
  exists (p, st). split; [by apply list_elem_of_In, elem_of_map_to_list|]. apply bool_decide_eq_true. cbn.
  unfold arcs_of. apply list_elem_of_omap. exists a. by rewrite Hd.
Qed.

Lemma sees_drop_shared vw arc ls xs : hoare (vm_sees vw ls xs) (drop_shared arc) (λ _, vm_sees vw ls xs).
Proof.
  unfold drop_shared. eapply (hoare_bind _ (λ used m, vm_sees vw ls xs m ∧ used = arc_used m arc)); [by intros m Hm|]. intros [|]; [by intros m []|].
  eapply (hoare_bind _ (λ fr m, vm_sees vw ls xs m ∧ arc_used m arc = false ∧ fr = default [] (m.(m_shared) !! arc))).
  { intros m [Hm Hu]. split; [done|]. split; [by symmetry|done]. }
  intros fr. eapply (hoare_bind _ (λ _, vm_sees vw ls (fr ++ xs))); [|intros u; apply sees_release_frames].
  intros m [([Hf [A1 A2 A3] Hk] & Hv & Hp) [Hu ->]]. cbn. set (m' := with_shared _ m). set (fr := default [] _).
  assert (∀ g, held m g = occ g fr + held m' g) as Hheld.
  { intros g. unfold held, held_frames, m', fr. cbn. rewrite !occ_app. destruct (m.(m_shared) !! arc) as [l|] eqn:Hl; cbn.
    - rewrite (frames_of_delete _ arc l) by done. lia.
    - rewrite delete_id by done. rewrite occ_nil. lia. }
  assert (∀ g, total m' (fr ++ xs) g = total m xs g) as Htot.
  { intros g. unfold total. rewrite Hheld, occ_app. change (mapped m' g) with (mapped m g). lia. }
  split_and!; [|done|done]. split.
  - destruct Hf as [F1 F2 F3 F4 F5 F6]. split; [intros g; rewrite Htot; apply F1| |intros g; rewrite Htot; apply F3|intros g; rewrite Htot; apply F4|done|intros g; rewrite Htot; apply F6].
    intros g Hg. destruct (F2 g Hg) as [Hh Hmm]. rewrite Hheld in Hh. pose proof (occ_nonneg g fr). pose proof (total_nonneg m' [] g).
    rewrite occ_app. change (mapped m' g) with (mapped m g). lia.
  - split; [done| |done]. intros p a arc' fr' fl Ha Hd. unfold m'. cbn. rewrite lookup_delete_ne; [by eapply A2|].
    intros <-. by eapply (arc_used_false m arc Hu p a).
  - intros Hi. destruct (Hk Hi) as [K1 K2 K3 K4 K6]. split; try done. intros k f fl He Hpos. apply (K3 k f fl He).
    rewrite Hheld. pose proof (occ_nonneg f fr). lia.
Qed.

(** Neither areas nor page tables change. *)
Definition keeps_maps {X} (c : VM X) : Prop :=
  ∀ m, match c m with Some (_, m') => m'.(m_areas) = m.(m_areas) ∧ m'.(m_ptes) = m.(m_ptes) | None => True end.

Lemma maps_bind {X Y} (c : VM X) (k : X → VM Y) : keeps_maps c → (∀ x, keeps_maps (k x)) → keeps_maps (mbind k c).
Proof.
  intros Hc Hk m. specialize (Hc m). unfold mbind, VM_bind. destruct (c m) as [[x m1]|]; [|done]. specialize (Hk x m1).
  destruct (k x m1) as [[y m2]|]; [|done]. destruct Hc, Hk. split; congruence.
Qed.

Lemma maps_for_each {X} (xs : list X) (c : X → VM unit) : (∀ x, keeps_maps (c x)) → keeps_maps (for_each xs c).
Proof. intros Hc. induction xs; cbn; [by intros m|]. by apply maps_bind. Qed.

Lemma maps_contents {X} (c : VM X) : keeps_contents c → keeps_maps c.
Proof. intros Hc m. specialize (Hc m). destruct (c m) as [[x m']|]; [|done]. by destruct Hc as [(? & ? & _) _]. Qed.

Lemma drop_shared_maps arc : keeps_maps (drop_shared arc).
Proof.
  apply maps_bind; [by intros m|]. intros [|]; [by intros m|]. apply maps_bind; [by intros m|]. intros fr.
  apply maps_bind; [by intros m|]. intros u. apply maps_for_each. intros f.
  apply maps_bind; [apply maps_contents, contents_drop_ref|]. by intros [] m.
Qed.

Lemma hoare_maps {X : Type} (R : gmap Z AddrSpace → gmap (Z * Z) (Z * Z) → Prop) P (c : VM X) Q :
  keeps_maps c → hoare P c Q → hoare (λ m, P m ∧ R m.(m_areas) m.(m_ptes)) c (λ x m, Q x m ∧ R m.(m_areas) m.(m_ptes)).
Proof.
  intros Hk Hc m [HP HR]. specialize (Hk m). specialize (Hc m HP). destruct (c m) as [[x m']|]; [|done].
  destruct Hk as [-> ->]. done.
Qed.

Lemma sees_set_space vw p st' ls xs :
  hoare (λ m, vm_sees vw ls xs m ∧ fits m p st') (set_space p st') (λ _ m, vm_sees vw ls xs m ∧ areas_of m p = st'.(memory_areas)).
Proof.
  unfold set_space. eapply (hoare_bind _ (λ _ m, vm_sees vw ls xs m ∧ fits m p st')); [by intros m Hm|]. intros old.
  eapply hoare_bind; [apply sees_areas|]. intros u.
  apply (hoare_maps (λ areas _, (default addrspace_default (areas !! p)).(memory_areas) = st'.(memory_areas)) (vm_sees vw ls xs) _ (λ _, vm_sees vw ls xs)).
  - apply maps_for_each. intros arc. apply drop_shared_maps.
  - apply hoare_for_each. intros arc _. apply sees_drop_shared.
Qed.
(** ** Mapping *)

(** What a new area needs; with [iso] it is made of pages that are not mapped. *)
Definition new_area m (p : Z) (area : MemoryArea) : Prop :=
  area.(start) < area.(end_) ∧
  (∀ arc fr fl, area.(data) = Data.Shared arc fr fl → m.(m_shared) !! arc = Some fr) ∧
  aligned area.(start) ∧ aligned area.(end_) ∧
  (iso = true → ∀ page e, m.(m_ptes) !! (p, page) = Some e → contains area page = false).

Lemma fits_unmap m p s e ls xs :
  ok ls xs m → aligned s → aligned e → (iso = true → ∀ page, in_span s e page = true → m.(m_ptes) !! (p, page) = None) →
  fits m p (unmap_areas (default addrspace_default (m.(m_areas) !! p)) s e).
Proof.
  intros [_ [A1 A2 A3] Hk] Hs He Hno. split_and!.
  - by apply unmap_areas_ok.
  - intros a arc fr fl (b & Hb & Ha)%elem_of_concat_map Hd. pose proof (unmap_pieces_of s e b) as Hp.
    rewrite Forall_forall in Hp. destruct (Hp a Ha) as [_ Hdata]. eapply (A2 p b); [done|by apply Hdata].
  - intros Hi page en Hpe. rewrite unmap_areas_kind. destruct (in_span s e page) eqn:Hin; [|done].
    by rewrite (Hno Hi page Hin) in Hpe.
  - intros a (b & Hb & Ha)%elem_of_concat_map. destruct (A3 p b Hb) as [Hbs Hbe]. destruct (unmap_piece_bounds s e b a Ha) as [[-> | ->] [-> | ->]]; done.
Qed.

Lemma fits_register m p area ls xs :
  ok ls xs m → new_area m p area → fits m p (register_area (default addrspace_default (m.(m_areas) !! p)) area).2.
Proof.
  intros [_ [A1 A2 A3] Hk] (Hne & Harc & Hs & He & Hnew). split_and!.
  - by apply register_area_ok.
  - intros a arc fr fl [->|(b & Hb & Ha)]%elem_of_register Hd; [by eapply Harc|].
    pose proof (unmap_pieces_of area.(start) area.(end_) b) as Hp.
    rewrite Forall_forall in Hp. destruct (Hp a Ha) as [_ Hdata]. eapply (A2 p b); [done|by apply Hdata].
  - intros Hi page en Hpe. rewrite register_area_kind by done. by rewrite (Hnew Hi page en Hpe).
  - intros a [->|(b & Hb & Ha)]%elem_of_register; [done|].
    destruct (A3 p b Hb) as [Hbs Hbe]. destruct (unmap_piece_bounds _ _ b a Ha) as [[-> | ->] [-> | ->]]; done.
Qed.

Lemma sees_space vw p ls xs : hoare (vm_sees vw ls xs) (space p)
  (λ st m, vm_sees vw ls xs m ∧ st = default addrspace_default (m.(m_areas) !! p)).
Proof. by intros m Hm. Qed.

Lemma sees_register vw p area ls xs :
  hoare (λ m, vm_sees vw ls xs m ∧ new_area m p area) (register p area) (λ _, vm_sees vw ls xs).
Proof.
  unfold register. eapply (hoare_bind _ (λ st m, (vm_sees vw ls xs m ∧ new_area m p area) ∧ st = default addrspace_default (m.(m_areas) !! p))); [by intros m Hm|].
  intros st. destruct (register_area st area) as [eager st'] eqn:Hreg.
  eapply (hoare_bind _ (λ _ m, vm_sees vw ls xs m ∧ areas_of m p = st'.(memory_areas))).
  - eapply hoare_pre; [|apply sees_set_space]. intros m [[Hm Hn] ->]. split; [done|].
    replace st' with (register_area (default addrspace_default (m.(m_areas) !! p)) area).2 by (by rewrite Hreg).
    eapply fits_register; [apply Hm|done].
  - intros u. destruct eager; [|by intros m []]. assert (area ∈ st'.(memory_areas)) as Hin.
    { replace st' with (register_area st area).2 by (by rewrite Hreg). unfold register_area. cbn [LAZY_MAP snd with_areas memory_areas].
      unfold vec_insert_area. rewrite elem_of_app. right. left. }
    eapply (hoare_bind _ (λ _, vm_sees vw ls xs)); [|by intros f m Hm].
    intros m [Hm Ha]. assert (area ∈ areas_in m.(m_areas) p) as Hin' by (change (area ∈ areas_of m p); by rewrite Ha).
    destruct Hm as (Hm & Hv & Hk). pose proof (at_apply_area iso m.(m_areas) m.(m_shared) vw p area ls xs Hin' m) as Hap.
    destruct (apply_area p area m) as [[x m']|]; [|done]. destruct Hap as (Hm' & Hsa & Hss & Hv'); [by split_and!|].
    split_and!; [done|done|]. intros Hi k Hvk. unfold kind, areas_of. rewrite Hsa. by apply Hk.
Qed.
(** ** Write-back *)

(** Only the files change. *)
Definition files_only {X} (c : VM X) : Prop :=
  ∀ m, match c m with Some (_, m') => ∃ fs, m' = with_files fs m | None => True end.

Lemma files_same m : with_files m.(m_files) m = m.
Proof. by destruct m. Qed.

Lemma files_ret {X} (x : X) : files_only (mret x).
Proof. intros m. exists m.(m_files). by rewrite files_same. Qed.

Lemma files_gets {X} (g : Machine → X) : files_only (gets g).
Proof. intros m. exists m.(m_files). by rewrite files_same. Qed.

Lemma files_on_files {X} (g : F → X * F) : files_only (on_files g).
Proof. intros m. unfold on_files. destruct (g m.(m_files)) as [x fs]. by exists fs. Qed.

Lemma files_bind {X Y} (c : VM X) (k : X → VM Y) : files_only c → (∀ x, files_only (k x)) → files_only (mbind k c).
Proof.
  intros Hc Hk m. specialize (Hc m). unfold mbind, VM_bind. destruct (c m) as [[x m1]|]; [|done]. destruct Hc as [fs ->].
  specialize (Hk x (with_files fs m)). destruct (k x _) as [[y m2]|]; [|done]. destruct Hk as [fs' ->]. by exists fs'.
Qed.

Lemma files_write_chunk fuel file bytes : files_only (write_chunk fuel file bytes).
Proof.
  revert bytes. induction fuel as [|fuel IH]; intros [|b bytes]; cbn; try apply files_ret.
  apply files_bind; [apply files_on_files|]. intros [n|e]; [|apply files_ret]. destruct (n =? 0); [apply files_ret|apply IH].
Qed.

Lemma files_flush_chunk file start bytes : files_only (flush_chunk file start bytes).
Proof.
  unfold flush_chunk. destruct bytes; [apply files_ret|]. apply files_bind; [apply files_on_files|].
  intros [n|e]; [apply files_write_chunk|apply files_ret].
Qed.

Lemma files_write_pages file writes chunk s e : files_only (write_pages file writes chunk s e).
Proof.
  revert chunk s e. induction writes as [|w writes IH]; intros chunk s e; cbn; [apply files_flush_chunk|].
  apply files_bind; [apply files_gets|]. intros bytes. destruct (match chunk with [] => false | _ => _ end); [|apply IH].
  apply files_bind; [apply files_flush_chunk|]. intros [u|er]; [apply IH|apply files_ret].
Qed.

Lemma files_with_cursor {X} file (c : VM (result FSError X)) : files_only c → files_only (with_file_write_cursor file c).
Proof.
  intros Hc. apply files_bind; [apply files_gets|]. intros [u|e]; [|apply files_ret]. apply files_bind; [apply files_on_files|].
  intros [n|e]; [|apply files_ret]. apply files_bind; [done|]. intros r. apply files_bind; [apply files_on_files|]. intros u1. apply files_ret.
Qed.

Lemma sees_with_files vw ls xs fs m : vm_sees vw ls xs m → vm_sees vw ls xs (with_files fs m).
Proof.
  intros (Hm & Hv & Hk). split; [|by split]. eapply vm_ok_same; [|apply (frames_ok_same free m); try done; apply Hm|exact Hm]. done.
Qed.

Lemma sees_files {X} vw ls xs (c : VM X) : files_only c → hoare (vm_sees vw ls xs) c (λ _, vm_sees vw ls xs).
Proof.
  intros Hc m Hm. specialize (Hc m). destruct (c m) as [[x m']|]; [|done]. destruct Hc as [fs ->]. by apply sees_with_files.
Qed.

(** Areas stay, and no page gets mapped. *)
Definition maps_less {X} (c : VM X) : Prop :=
  ∀ m, match c m with
       | Some (_, m') => m'.(m_areas) = m.(m_areas) ∧ ∀ k, is_Some (m'.(m_ptes) !! k) → is_Some (m.(m_ptes) !! k)
       | None => True
       end.

Lemma less_bind {X Y} (c : VM X) (k : X → VM Y) : maps_less c → (∀ x, maps_less (k x)) → maps_less (mbind k c).
Proof.
  intros Hc Hk m. specialize (Hc m). unfold mbind, VM_bind. destruct (c m) as [[x m1]|]; [|done]. specialize (Hk x m1).
  destruct (k x m1) as [[y m2]|]; [|done]. destruct Hc as [Ha Hp], Hk as [Ha' Hp']. split; [congruence|eauto].
Qed.

Lemma less_maps {X} (c : VM X) : keeps_maps c → maps_less c.
Proof. intros Hc m. specialize (Hc m). destruct (c m) as [[x m']|]; [|done]. by destruct Hc as [-> ->]. Qed.

Lemma less_files {X} (c : VM X) : files_only c → maps_less c.
Proof. intros Hc. apply less_maps. intros m. specialize (Hc m). destruct (c m) as [[x m']|]; [|done]. by destruct Hc as [fs ->]. Qed.

Lemma less_for_each {X} (xs : list X) (c : X → VM unit) : (∀ x, maps_less (c x)) → maps_less (for_each xs c).
Proof. intros Hc. induction xs; cbn; [by intros m|]. by apply less_bind. Qed.

Lemma less_update_flags p page fl : maps_less (update_flags p page fl).
Proof.
  intros m. unfold update_flags. destruct (m.(m_ptes) !! (p, page)) as [[f fl']|] eqn:Hp; [|done]. split; [done|]. intros k. cbn.
  destruct (decide (k = (p, page))) as [->|Hne]; [rewrite Hp; by eauto|by rewrite lookup_insert_ne].
Qed.

Lemma less_write_back p area s e : maps_less (write_back_area_range p area s e).
Proof.
  unfold write_back_area_range. destruct area.(data) as [|off bytes zf file shared|]; [by intros m| |by intros m]. destruct shared; [|by intros m].
  destruct (_ <=? _); [by intros m|]. apply less_bind; [by intros m|]. intros n. apply less_bind.
  - intros m. cbn. by destruct (readonly_page_cache_file _ _).
  - intros u. apply less_bind; [by intros m|]. intros writes. apply less_bind; [apply less_files, files_with_cursor, files_write_pages|].
    intros [r|er]; [|by intros m]. apply less_bind; [|by intros u1 m]. apply less_for_each. intros w. apply less_bind; [by intros m|].
    intros [[f fl]|]; [|by intros m]. apply less_bind; [apply less_update_flags|by intros b m].
Qed.

(** A page that was written is not dirty any more. *)
Lemma sees_clear_dirty vw p page ls xs :
  hoare (vm_sees vw ls xs)
    (entry ← pte p page;
     match entry with Some (_, flags) => _ ← update_flags p page (remove_flag flags DIRTY); mret tt | None => mret tt end)
    (λ _, vm_sees vw ls xs).
Proof.
  apply (sees_simple vw _ ls xs (λ _, ls) (λ _, xs)). intros st sh. eapply hoare_bind; [apply at_gets|]. intros [[f fl]|]; [|by intros m []].
  eapply (hoare_bind _ (λ _, vm_at (free := free) iso st sh vw ls xs)); [|by intros b m Hm]. eapply hoare_pre; [|apply at_update_flags].
  intros m [Hm He]. split; [done|]. intros Hi Hw Hkind g gl Hg. right. rewrite has_flag_remove in Hw by done. rewrite Hg in He. by simplify_eq.
Qed.

Lemma sees_write_back vw p area s e ls xs : hoare (vm_sees vw ls xs) (write_back_area_range p area s e) (λ _, vm_sees vw ls xs).
Proof.
  unfold write_back_area_range. destruct area.(data) as [|off bytes zf file shared|]; [by intros m Hm| |by intros m Hm]. destruct shared; [|by intros m Hm].
  destruct (_ <=? _); [by intros m Hm|]. eapply hoare_bind; [apply sees_files, files_gets|]. intros n. eapply (hoare_bind _ (λ _, vm_sees vw ls xs)).
  - intros m Hm. cbn. destruct (readonly_page_cache_file _ _); [by apply sees_with_files|done].
  - intros u. eapply hoare_bind; [apply sees_files, files_gets|]. intros writes.
    eapply hoare_bind; [apply sees_files, files_with_cursor, files_write_pages|].
    intros [r|er]; [|by intros m Hm]. eapply (hoare_bind _ (λ _, vm_sees vw ls xs)); [|by intros u1 m Hm].
    apply hoare_for_each. intros w _. apply sees_clear_dirty.
Qed.

Lemma sees_write_back_areas vw p areas range ls xs : hoare (vm_sees vw ls xs) (write_back_areas p areas range) (λ _, vm_sees vw ls xs).
Proof.
  induction areas as [|a areas IH]; cbn; [by intros m Hm|]. eapply hoare_bind; [apply sees_write_back|]. intros [u|er]; [exact IH|by intros m Hm].
Qed.

Lemma sees_flush vw p s len ls xs : hoare (vm_sees vw ls xs) (flush_file_mappings p s len) (λ _, vm_sees vw ls xs).
Proof.
  unfold flush_file_mappings. destruct (len =? 0); [by intros m Hm|]. eapply hoare_bind; [apply sees_files, files_gets|].
  intros st. apply sees_write_back_areas.
Qed.

Lemma sees_flush_all vw p ls xs : hoare (vm_sees vw ls xs) (flush_all_file_mappings p) (λ _, vm_sees vw ls xs).
Proof. eapply hoare_bind; [apply sees_files, files_gets|]. intros st. apply sees_write_back_areas. Qed.
(** ** Unmapping *)

Lemma sees_perm vw ls ls' xs m : ls ≡ₚ ls' → vm_sees vw ls xs m → vm_sees vw ls' xs m.
Proof. intros Hp ([Hf ? ?] & Hv & Hk). split; [|done]. split; [by eapply frames_ok_perm|done..]. Qed.

Lemma sees_unmap_pages vw p pages ls xs :
  (∀ page, page ∈ pages → vw (p, page) = None) →
  hoare (vm_sees vw ls xs) (unmap_pages p pages) (λ frames, vm_sees vw (frames ++ ls) xs).
Proof.
  revert ls. induction pages as [|page pages IH]; intros ls Hvw; cbn; [by intros m Hm|].
  assert (∀ q, q ∈ pages → vw (p, q) = None) as Hvw' by (intros q Hq; apply Hvw; by right).
  eapply hoare_bind; [apply (sees_simple vw _ ls xs (λ _, ls) (λ r, match r with Some f => f :: xs | None => xs end)); intros st sh; apply at_unmap_page; apply Hvw; left|].
  intros [f|]; [|by apply IH].
  eapply hoare_bind; [apply (sees_simple vw _ ls (f :: xs) (λ last : bool, if last then f :: ls else ls) (λ _, xs)); intros st sh; apply at_release_ref|].
  intros last. eapply hoare_bind; [by apply IH|]. intros frames m Hm. destruct last; [|done].
  eapply sees_perm, Hm. by rewrite <- Permutation_middle.
Qed.

Lemma release_ref_maps f : keeps_maps (release_mapping_ref f).
Proof. apply maps_contents, contents_drop_ref. Qed.

Lemma less_unmap_pages p pages : maps_less (unmap_pages p pages).
Proof.
  induction pages as [|page pages IH]; cbn; [by intros m|]. apply less_bind.
  - intros m. unfold unmap_page. destruct (m.(m_ptes) !! (p, page)) as [[f fl]|]; [|done]. split; [done|]. intros k [e He].
    cbn in He. apply lookup_delete_Some in He as [_ He]. by eexists.
  - intros [f|]; [|done]. apply less_bind; [apply less_maps, release_ref_maps|]. intros last. apply less_bind; [done|]. by intros fs m.
Qed.

(** Pages of [p] that are not mapped *)
Definition gone (p : Z) (pages : Z → Prop) m : Prop := ∀ page, pages page → m.(m_ptes) !! (p, page) = None.

Lemma hoare_gone {X} p pages P (c : VM X) Q :
  maps_less c → hoare P c Q → hoare (λ m, P m ∧ gone p pages m) c (λ x m, Q x m ∧ gone p pages m).
Proof.
  intros Hk Hc m [HP Hg]. specialize (Hk m). specialize (Hc m HP). destruct (c m) as [[x m']|]; [|done]. destruct Hk as [_ Hp].
  split; [done|]. intros page Hpage. specialize (Hg page Hpage). destruct (m'.(m_ptes) !! (p, page)) eqn:He; [|done].
  destruct (Hp (p, page)) as [e' He']; [by eexists|congruence].
Qed.

Lemma unmap_pages_gone p pages : hoare (λ _, True) (unmap_pages p pages) (λ _, gone p (λ page, page ∈ pages)).
Proof.
  induction pages as [|page pages IH]; cbn; [intros m _ page Hp; by apply elem_of_nil in Hp|].
  eapply (hoare_bind _ (λ _, gone p (λ q, q = page))).
  - intros m _. unfold unmap_page. destruct (m.(m_ptes) !! (p, page)) as [[f fl]|] eqn:He; intros q ->; [cbn; by rewrite lookup_delete_eq|done].
  - assert (hoare (gone p (λ q, q = page)) (unmap_pages p pages) (λ _, gone p (λ q, q ∈ page :: pages))) as Hrest.
    { eapply hoare_pre; [|eapply hoare_post; [apply (hoare_gone p (λ q, q = page) (λ _, True) _ _ (less_unmap_pages p pages) IH)|]]; [by intros m Hm|].
      intros fs m [H1' H2'] q [->|Hq]%elem_of_cons; [by apply H2'|by apply H1']. }
    intros [f|]; [|exact Hrest]. eapply (hoare_bind _ (λ _, gone p (λ q, q = page))).
    + intros m Hm. pose proof (release_ref_maps f m) as Hk. destruct (release_mapping_ref f m) as [[last m']|]; [|done].
      destruct Hk as [_ Hp]. intros q Hq. rewrite Hp. by apply Hm.
    + intros last. eapply hoare_bind; [exact Hrest|]. by intros fs m Hm.
Qed.

Lemma hoare_conj {X} P1 P2 (c : VM X) Q1 Q2 :
  hoare P1 c Q1 → hoare P2 c Q2 → hoare (λ m, P1 m ∧ P2 m) c (λ x m, Q1 x m ∧ Q2 x m).
Proof. intros H1' H2' m [HP1 HP2]. specialize (H1' m HP1). specialize (H2' m HP2). by destruct (c m) as [[x m']|]. Qed.

Lemma sees_deallocate_all vw frames ls xs : hoare (vm_sees vw (frames ++ ls) xs) (for_each frames deallocate_frame) (λ _, vm_sees vw ls xs).
Proof.
  induction frames as [|f frames IH]; cbn; [by intros m Hm|]. eapply hoare_bind; [|intros u; exact IH].
  apply (sees_simple vw _ (f :: frames ++ ls) xs (λ _, frames ++ ls) (λ _, xs)). intros st sh. apply at_deallocate.
Qed.

Lemma deallocate_all_maps frames : keeps_maps (for_each frames deallocate_frame).
Proof. apply maps_for_each. by intros f m. Qed.

(** Every aligned page that overlaps the range is in the list. *)
Lemma elem_of_range_inclusive s e page :
  aligned s → aligned e → aligned page → in_span s e page = true → page ∈ range_inclusive (page_of s) (page_of (e - 1)).
Proof.
  unfold range_inclusive, in_span, page_of, aligned, PAGE_SIZE. intros Hs He Hp Hin. apply elem_of_pages_from.
  exists (Z.to_nat ((page - s) / 4096)). unfold PAGE_SIZE. Z.to_euclidean_division_equations. lia.
Qed.

Lemma sees_try_unmap vw p s len ls xs :
  aligned s → aligned (s + len) →
  (∀ page, page ∈ range_inclusive (page_of s) (page_of (s + len - 1)) → vw (p, page) = None) →
  hoare (vm_sees vw ls xs) (try_unmap p s len) (λ _, vm_sees vw ls xs).
Proof.
  intros Hs He Hvw. unfold try_unmap. destruct (len =? 0); [by intros m Hm|]. eapply hoare_bind; [apply sees_flush|].
  intros [u|er]; [|by intros m Hm]. cbn.
  set (pages := range_inclusive _ _).
  eapply (hoare_bind _ (λ frames m, vm_sees vw (frames ++ ls) xs m ∧ gone p (λ page, page ∈ pages) m)).
  { eapply hoare_pre; [|apply hoare_conj; [by apply sees_unmap_pages|apply unmap_pages_gone]]. by intros m Hm. }
  intros frames. eapply (hoare_bind _ (λ _ m, vm_sees vw ls xs m ∧ gone p (λ page, page ∈ pages) m)).
  { apply hoare_gone; [apply less_maps, deallocate_all_maps|apply sees_deallocate_all]. }
  intros u1. eapply (hoare_bind _ (λ st m, (vm_sees vw ls xs m ∧ gone p (λ page, page ∈ pages) m) ∧ st = default addrspace_default (m.(m_areas) !! p))); [by intros m Hm|].
  intros st. eapply (hoare_bind _ (λ _, vm_sees vw ls xs)); [|by intros u2 m Hm].
  eapply hoare_post; [eapply hoare_pre; [|apply sees_set_space]|by intros u2 m []].
  intros m [[Hm Hg] ->]. split; [done|]. eapply fits_unmap; [apply Hm|done|done|]. intros Hi page Hin. destruct (m.(m_ptes) !! (p, page)) as [e|] eqn:Hpe; [|done].
  destruct Hm as ([_ _ Hk] & _). pose proof (k_pages m (Hk Hi) _ _ Hpe) as Hpal.
  rewrite <- Hpe. apply Hg. by apply elem_of_range_inclusive.
Qed.

(** ** Releasing a space *)

Definition user_pages (areas : list MemoryArea) (page : Z) : Prop :=
  ∃ a, a ∈ areas ∧ is_user a = true ∧ page ∈ page_range (page_of a.(start)) (page_of a.(end_)).

Lemma less_write_back_if (wb : bool) p area :
  maps_less (if wb then write_back_area_range p area area.(start) area.(end_) else mret (Ok tt)).
Proof. destruct wb; [apply less_write_back|by intros m]. Qed.

Lemma less_release_areas p wb areas : maps_less (release_areas p wb areas).
Proof.
  induction areas as [|a areas IH]; cbn; [by intros m|]. destruct (negb (is_user a)); [done|]. apply less_bind; [apply less_write_back_if|].
  intros r. apply less_bind; [apply less_unmap_pages|]. intros fs. apply less_bind; [done|]. by intros fs' m.
Qed.

Lemma release_areas_gone p wb areas : hoare (λ _, True) (release_areas p wb areas) (λ _, gone p (user_pages areas)).
Proof.
  induction areas as [|a areas IH]; cbn; [intros m _ page (a & Ha & _); by apply elem_of_nil in Ha|].
  destruct (is_user a) eqn:Hu; cbn.
  - eapply (hoare_bind _ (λ _ _, True)); [by intros m _; destruct (_ m) as [[r m']|]|]. intros r.
    set (pages := page_range _ _). eapply (hoare_bind _ (λ _, gone p (λ page, page ∈ pages))); [apply unmap_pages_gone|]. intros fs.
    eapply (hoare_bind _ (λ _ m, gone p (user_pages areas) m ∧ gone p (λ page, page ∈ pages) m)).
    + eapply hoare_pre; [|apply hoare_gone; [apply less_release_areas|exact IH]]. by intros m Hm.
    + intros fs' m [H1' H2'] page (b & [->|Hb]%elem_of_cons & Hub & Hin); [by apply H2'|apply H1'; by exists b].
  - eapply hoare_post; [exact IH|]. intros fs m Hg page (b & [->|Hb]%elem_of_cons & Hub & Hin); [congruence|apply Hg; by exists b].
Qed.

Lemma sees_release_areas vw p wb areas ls xs :
  (∀ page, vw (p, page) = None) → hoare (vm_sees vw ls xs) (release_areas p wb areas) (λ frames, vm_sees vw (frames ++ ls) xs).
Proof.
  intros Hvw. revert ls. induction areas as [|a areas IH]; intros ls; cbn; [by intros m Hm|]. destruct (negb (is_user a)); [apply IH|].
  eapply (hoare_bind _ (λ _, vm_sees vw ls xs)); [destruct wb; [apply sees_write_back|by intros m Hm]|]. intros r.
  eapply hoare_bind; [by apply sees_unmap_pages|]. intros fs. eapply hoare_bind; [apply IH|]. intros fs' m Hm.
  eapply sees_perm, Hm. by rewrite app_assoc, (Permutation_app_comm fs' fs).
Qed.

Lemma elem_of_page_range a page :
  aligned a.(start) → aligned a.(end_) → aligned page → contains a page = true → page ∈ page_range (page_of a.(start)) (page_of a.(end_)).
Proof.
  unfold page_range, contains, page_of, aligned, PAGE_SIZE. intros Hs He Hp Hin. apply elem_of_pages_from.
  exists (Z.to_nat ((page - a.(start)) / 4096)). unfold PAGE_SIZE. Z.to_euclidean_division_equations. lia.
Qed.

Lemma kind_at_some areas page b : kind_at areas page = Some b → ∃ a, a ∈ areas ∧ contains a page = true.
Proof.
  intros Hk. unfold kind_at, area_at in Hk. destruct (List.find _ _) as [a|] eqn:Hf; [|done].
  apply find_some in Hf as [Ha%list_elem_of_In Hc]. by exists a.
Qed.

Lemma sees_release vw p wb ls xs :
  (∀ page, vw (p, page) = None) →
  hoare (λ m, vm_sees vw ls xs m ∧ (iso = true → ∀ a, a ∈ areas_of m p → is_user a = true))
    (release_user_mappings p wb) (λ _, vm_sees vw ls xs).
Proof.
  intros Hvw. apply hoare_state. intros m0 [Hm0 Husers]. set (st := default addrspace_default (m0.(m_areas) !! p)).
  set (same := λ m, m.(m_areas) = m0.(m_areas)). unfold release_user_mappings.
  eapply (hoare_bind _ (λ st' m, st' = st ∧ m = m0)); [by intros m ->|]. intros st'.
  eapply (hoare_bind _ (λ frames m, (vm_sees vw (frames ++ ls) xs m ∧ same m) ∧ gone p (user_pages st.(memory_areas)) m)).
  { intros m [-> ->]. fold st. pose proof (sees_release_areas vw p wb st.(memory_areas) ls xs Hvw m0 Hm0) as Hs.
    pose proof (release_areas_gone p wb st.(memory_areas) m0 I) as Hg. pose proof (less_release_areas p wb st.(memory_areas) m0) as Hl.
    destruct (release_areas p wb st.(memory_areas) m0) as [[fs m']|]; [|done]. destruct Hl as [Ha _]. done. }
  intros frames. eapply (hoare_bind _ (λ _ m, (vm_sees vw ls xs m ∧ same m) ∧ gone p (user_pages st.(memory_areas)) m)).
  { apply hoare_gone; [apply less_maps, deallocate_all_maps|]. intros m [Hm Hs]. pose proof (sees_deallocate_all vw frames ls xs m Hm) as Hd.
    pose proof (deallocate_all_maps frames m) as Hk. destruct (for_each frames deallocate_frame m) as [[u m']|]; [|done].
    destruct Hk as [Ha _]. split; [done|]. unfold same in *. congruence. }
  intros u. eapply hoare_post; [eapply hoare_pre; [|apply sees_set_space]|by intros u2 m []].
  intros m [[Hm Hs] Hg]. split; [done|]. split_and!; [by split; [split; constructor|]|by intros a ? ? ? Ha%elem_of_nil| |by intros a Ha%elem_of_nil].
  intros Hi page e He. exfalso. destruct Hm as ([_ Harcs Hk] & _). destruct (k_covered m (Hk Hi) _ _ He) as [b Hb].
  unfold kind in Hb. apply kind_at_some in Hb as (a & Ha & Hc). unfold areas_of in Ha. cbn in Ha, Hc. rewrite Hs in Ha. fold st in Ha.
  assert (m.(m_ptes) !! (p, page) = None) as Hn; [|congruence]. apply Hg. exists a. split; [done|]. split; [by apply Husers|].
  destruct (ao_aligned m Harcs p a) as [? ?]; [unfold areas_of; by rewrite Hs|]. apply elem_of_page_range; [done..|exact (k_pages m (Hk Hi) _ _ He)|done].
Qed.
End steps.
