(* ===== verification/VmAccess.v ===== *)
(** * Permissions, accesses and page faults

    Over VmSteps: the operations of VmUser, and [set_permissions], keep the invariant; a
    write reaches no private page but the one at its address. *)

From stdpp Require Import sets.
From S2P Require Import Prelude Errors SignalData SparseFile AddrAreas Vm VmUser VmFrames VmKinds VmOps VmSteps.

Open Scope Z_scope.

Section access.
Context {A F : Type} `{BuddyAllocatorLaws A free} `{MappedFiles F}.
Context (iso : bool).
Abbreviation VM := (VM A F).
Abbreviation Machine := (Machine A F).
Abbreviation ok := (vm_ok (free := free) iso).
Abbreviation sees := (vm_sees (free := free) iso).
Implicit Types m : Machine.

(** ** Permissions *)

Lemma fits_permissions m p s e prot ls xs :
  ok ls xs m → aligned s → aligned e →
  fits iso m p (update_permissions (default addrspace_default (m.(m_areas) !! p)) s e prot).
Proof.
  intros [_ [A1 A2 A3] Hk] Hs He. set (st := default addrspace_default _). set (fl := protection_to_page_flags prot).
  assert (∀ x, x ∈ (update_permissions st s e prot).(memory_areas) →
    x ∈ st.(memory_areas) ∨ ∃ a, a ∈ st.(memory_areas) ∧ x ∈ retag_area (λ a, with_protection a fl prot) s e a) as Hin.
  { intros x. unfold update_permissions. destruct (_ <=? _); [by left|]. intros Hx%elem_of_concat_map. by right. }
  split_and!.
  - apply update_permissions_ok, A1.
  - intros a arc fr fl' [Ha|(b & Hb & Ha)]%Hin Hd; [by eapply (A2 p a)|].
    pose proof (retag_pieces_of (λ a, with_protection a fl prot) s e b ltac:(by intros x; split)) as Hp.
    rewrite Forall_forall in Hp. destruct (Hp a Ha) as [_ Hdata]. eapply (A2 p b); [done|by apply Hdata].
  - intros Hi page en Hpe. by rewrite update_permissions_kind.
  - intros a [Ha|(b & Hb & Ha)]%Hin; [by apply (A3 p)|].
    destruct (A3 p b Hb) as [Hbs Hbe]. destruct (retag_piece_bounds (λ a, with_protection a fl prot) s e b a ltac:(done) Ha) as [[Hx|[Hx|Hx]] [Hy|[Hy|Hy]]]; rewrite Hx, Hy; done.
Qed.

(** New flags that do not make a copy-on-write page writable *)
Definition may_write (p : Z) (pages : list Z) (flags : Z) m : Prop :=
  iso = true → has_flag flags WRITABLE = true → ∀ page f fl, page ∈ pages → m.(m_ptes) !! (p, page) = Some (f, fl) →
  kind m (p, page) = Some false → mapped m f = 1 ∨ has_flag fl WRITABLE = true.

Lemma sees_update_flags vw p page flags ls xs :
  hoare (λ m, sees vw ls xs m ∧ (iso = true → has_flag flags WRITABLE = true → ∀ f fl, m.(m_ptes) !! (p, page) = Some (f, fl) →
                 kind m (p, page) = Some false → mapped m f = 1 ∨ has_flag fl WRITABLE = true))
    (update_flags p page flags) (λ _, sees vw ls xs).
Proof.
  eapply hoare_post; [apply (sees_at iso vw (update_flags p page flags) ls xs (λ _, ls) (λ _, xs) _ (λ _ _ _, True))|by intros b m []].
  intros st sh m [Hm Hw]. pose proof (at_update_flags (free := free) iso st sh vw p page flags ls xs m) as Hup. destruct (update_flags p page flags m) as [[b m']|]; [|done].
  split; [|done]. apply Hup. split; [done|]. intros Hi Hwr Hk f fl He. apply (Hw Hi Hwr f fl He).
  destruct Hm as (_ & Ha & _). unfold kind, areas_of. by rewrite Ha.
Qed.

Lemma may_write_update p page pages flags :
  hoare (may_write p pages flags) (update_flags p page flags) (λ _, may_write p pages flags).
Proof.
  intros m Hmay. unfold update_flags. destruct (m.(m_ptes) !! (p, page)) as [[f fl]|] eqn:Hp; [|done].
  intros Hi Hw q g gl Hin. cbn. destruct (decide (q = page)) as [->|Hne].
  - rewrite lookup_insert_eq. intros [= <- <-] _. by right.
  - rewrite lookup_insert_ne by congruence. intros Hg Hk. destruct (Hmay Hi Hw q g gl Hin Hg Hk) as [Hone|?]; [left|by right].
    rewrite <- Hone. unfold mapped. cbn. by rewrite (pte_frames_update _ _ (f, fl)).
Qed.

Lemma sees_permissions vw p s e prot ls xs :
  aligned s → aligned e →
  hoare (λ m, sees vw ls xs m ∧ may_write p (range_inclusive (page_of s) (page_of (e - 1))) (protection_to_page_flags prot) m)
    (set_permissions p s e prot) (λ _, sees vw ls xs).
Proof.
  intros Hs He. unfold set_permissions. destruct (e <=? s); [by intros m []|]. set (pages := range_inclusive _ _). set (fl := protection_to_page_flags prot).
  apply hoare_state. intros m0 [Hm0 Hmay0].
  eapply (hoare_bind _ (λ st m, m = m0 ∧ st = default addrspace_default (m.(m_areas) !! p))); [by intros m ->|]. intros st.
  eapply (hoare_bind _ (λ _ m, sees vw ls xs m ∧ may_write p pages fl m)).
  - intros m [-> ->]. set (st' := update_permissions _ s e prot).
    assert (fits iso m0 p st') as Hfit by (eapply fits_permissions; [apply Hm0|done|done]).
    pose proof (sees_set_space iso vw p st' ls xs m0 (conj Hm0 Hfit)) as Hset.
    assert (match set_space p st' m0 with Some (_, m') => m'.(m_ptes) = m0.(m_ptes) | None => True end) as Hpt.
    { unfold set_space, mbind, VM_bind, space, gets, modify. cbn.
      pose proof (maps_for_each (remove_dups (arcs_of (default addrspace_default (m_areas m0 !! p)).(memory_areas))) drop_shared
        drop_shared_maps (with_spaces (<[p := st']> m0.(m_areas)) m0)) as Hk. destruct (for_each _ _ _) as [[u m']|]; [|done]. by destruct Hk as [_ ->]. }
    destruct (set_space p st' m0) as [[u m']|]; [|done]. destruct Hset as [Hm' Ha]. split; [done|].
    intros Hi Hw page f fl' Hin Hpe Hkind. unfold kind in Hkind. cbn in Hkind. rewrite Ha in Hkind. unfold st' in Hkind. rewrite update_permissions_kind in Hkind.
    assert (mapped m' f = mapped m0 f) as -> by (unfold mapped; by rewrite Hpt). rewrite Hpt in Hpe. by apply (Hmay0 Hi Hw page).
  - intros u. eapply (hoare_post _ _ _ (λ _ m, sees vw ls xs m ∧ may_write p pages fl m)); [|by intros u1 m [Hm _]]. apply (hoare_for_each (λ m, sees vw ls xs m ∧ may_write p pages fl m)). intros page Hpage.
    eapply (hoare_bind _ (λ _ m, sees vw ls xs m ∧ may_write p pages fl m)); [|by intros b m Hm].
    eapply hoare_pre; [|apply hoare_conj; [apply (sees_update_flags vw p page fl)|by apply (may_write_update p page pages)]].
    intros m [Hm Hmay]. split; [split; [done|]|done]. intros Hi Hw f fl' Hpe. by apply (Hmay Hi Hw page).
Qed.
(** ** New frames and addresses *)

Lemma sees_fetch vw p pages ls xs : hoare (sees vw ls xs) (fetch_user_mem (A := A) (F := F) p pages) (λ _, sees vw ls xs).
Proof.
  intros m Hm. unfold fetch_user_mem, mbind, VM_bind, space, gets. cbn.
  set (st := default addrspace_default _). set (st' := mkAddrSpace _ _ _).
  assert (fits iso m p st') as Hfit.
  { eapply fits_same; [apply Hm|by destruct Hm as ([_ [A1 _] _] & _); apply (A1 p)|done]. }
  by destruct (sees_areas iso vw p st' ls xs m (conj Hm Hfit)) as [? _].
Qed.

Lemma sees_increase_all vw frames ls xs :
  hoare (sees vw (frames ++ ls) xs) (for_each frames increase_ref) (λ _ m, sees vw ls (rev frames ++ xs) m ∧ ∀ f, f ∈ frames → is_Some (m.(m_refs) !! f)).
Proof.
  revert xs. induction frames as [|f frames IH]; intros xs; cbn [for_each app rev]; [intros m Hm; split; [done|]; by intros f Hf%elem_of_nil|].
  eapply (hoare_bind _ (λ _ m, sees vw (frames ++ ls) (f :: xs) m ∧ is_Some (m.(m_refs) !! f))).
  - intros m (Hm & Hv & Hk). pose proof (hoare_increase (free := free) f (f :: frames ++ ls) (frames ++ ls) xs ltac:(by right) m) as Hinc. cbn in Hinc.
    destruct Hinc as [Hok Hs]; [split; [apply Hm|]; intros Heq; exfalso; apply (f_equal length) in Heq; cbn in Heq; lia|].
    split; [|exact Hs]. split; [|by split]. eapply vm_ok_same; [|exact Hok|exact Hm]. done.
  - intros u m [Hm [c Hc]]. specialize (IH (f :: xs) m Hm).
    assert (∀ m', match for_each frames increase_ref m' with Some (_, m2) => ∀ g, is_Some (m'.(m_refs) !! g) → is_Some (m2.(m_refs) !! g) | None => True end) as Hgrow.
    { clear. induction frames as [|h frames IH]; intros m'; cbn; [done|]. unfold mbind, VM_bind. cbn.
      specialize (IH (with_refs (<[h := default 0 (m'.(m_refs) !! h) + 1]> m'.(m_refs)) m')). destruct (for_each _ _ _) as [[u m2]|]; [|done].
      intros g Hg. apply IH. cbn. destruct (decide (g = h)) as [->|Hne]; [rewrite lookup_insert_eq; by eexists|by rewrite lookup_insert_ne]. }
    specialize (Hgrow m). destruct (for_each frames increase_ref m) as [[u' m2]|]; [|done]. destruct IH as [Hm2 Hall]. rewrite <- app_assoc. cbn. split; [done|].
    intros g [->|Hg]%elem_of_cons; [apply Hgrow; by eexists|by apply Hall].
Qed.

(** Fresh frames become those of a new [SharedFrames] object. *)
Lemma sees_shared_frames_new vw arc frames ls xs :
  hoare (λ m, sees vw (frames ++ ls) xs m ∧ m.(m_shared) !! arc = None) (shared_frames_new arc frames) (λ _, sees vw ls xs).
Proof.
  unfold shared_frames_new. eapply (hoare_bind _ (λ _ m, (sees vw ls (rev frames ++ xs) m ∧ ∀ f, f ∈ frames → is_Some (m.(m_refs) !! f)) ∧
    (m.(m_shared) !! arc = None ∧ ∀ f, f ∈ frames → mapped m f = 0))).
  - intros m [Hm Harc]. pose proof (sees_increase_all vw frames ls xs m Hm) as Hinc.
    assert (∀ m', match for_each frames increase_ref m' with Some (_, m2) => m2.(m_shared) = m'.(m_shared) ∧ m2.(m_ptes) = m'.(m_ptes) | None => True end) as Hsame.
    { clear. induction frames as [|h frames IH]; intros m'; cbn; [done|]. unfold mbind, VM_bind. cbn.
      exact (IH (with_refs (<[h := default 0 (m'.(m_refs) !! h) + 1]> m'.(m_refs)) m')). }
    specialize (Hsame m). destruct (for_each frames increase_ref m) as [[u m']|]; [|done]. destruct Hsame as [Hs Hp]. split; [done|]. rewrite Hs.
    split; [done|]. intros f Hf. unfold mapped. rewrite Hp. destruct Hm as ([Hf' _ _] & _).
    destruct (fo_loose _ _ _ _ Hf' f) as (_ & _ & Ht); [apply elem_of_app; by left|]. unfold total in Ht. pose proof (total_nonneg m xs f). unfold mapped in *. lia.
  - intros u m [[([Hf [A1 A2 A3] Hk] & Hv & Hp) Hcounted] [Harc Hun]]. cbn. set (m' := with_shared _ m).
    assert (∀ g, held m' g = occ g frames + held m g) as Hheld.
    { intros g. unfold held, held_frames, m'. cbn. rewrite !occ_app, frames_of_insert by done. lia. }
    assert (∀ g, occ g (rev frames) = occ g frames) as Hrev by (intros g; apply occ_perm, Permutation_sym, Permutation_rev).
    assert (∀ g, total m' xs g = total m (rev frames ++ xs) g) as Htot.
    { intros g. unfold total. rewrite Hheld, occ_app, Hrev. change (mapped m' g) with (mapped m g). lia. }
    split_and!; [|done|done]. split.
    + destruct Hf as [F1 F2 F3 F4 F5 F6]. split; [intros g; rewrite Htot; apply F1| |intros g; rewrite Htot; apply F3|intros g; rewrite Htot; apply F4|done|intros g; rewrite Htot; apply F6].
      intros g Hg. destruct (F2 g Hg) as [Hh Hmm]. rewrite occ_app, Hrev in Hmm. rewrite Hheld. change (mapped m' g) with (mapped m g).
      assert (occ g frames = 0) as Ho; [|lia]. pose proof (occ_nonneg g frames). destruct (decide (0 < occ g frames)) as [Hin%occ_pos|]; [|lia].
      destruct (Hcounted g Hin) as [c Hc]. unfold m' in Hg. cbn in Hg. congruence.
    + split; [done| |done]. intros p a arc' fr' fl Ha Hd. unfold m'. cbn. pose proof (A2 p a arc' fr' fl Ha Hd). rewrite lookup_insert_ne; [done|congruence].
    + intros Hi. destruct (Hk Hi) as [K1 K2 K3 K4 K6]. split; try done. intros k f fl He Hpos.
      change (kind m' k) with (kind m k). change (m_ptes m' !! k) with (m_ptes m !! k) in He. rewrite Hheld in Hpos.
      destruct (decide (0 < occ f frames)) as [Hin%occ_pos|Hno]; [|apply (K3 k f fl He); pose proof (occ_nonneg f frames); lia].
      pose proof (mapped_pos m k f fl He). rewrite (Hun f Hin) in *. lia.
Qed.
(** ** Accesses *)

Lemma sees_apply_lazy vw p addr area ls xs :
  hoare (λ m, sees vw ls xs m ∧ area ∈ areas_of m p ∧ contains area addr = true) (apply_lazy p addr area) (λ _, sees vw ls xs).
Proof.
  eapply hoare_post; [apply (sees_at iso vw (apply_lazy p addr area) ls xs (λ _, ls) (λ _, xs) _ (λ _ _ _, True))|by intros b m []].
  intros st sh m [Hm [Ha Hc]]. assert (area ∈ areas_in st p) as Hin by (by destruct Hm as (_ & <- & _)).
  pose proof (page_of_in iso st sh vw ls xs m p area addr Hm Hin Hc) as Hpage. unfold apply_lazy, mbind, VM_bind.
  set (n := if is_file_backed area then _ else _).
  pose proof (at_apply_cluster iso st sh vw p (page_of addr) area n ls xs Hpage m Hm) as Hap.
  by destruct (apply_page_cluster p (page_of addr) area n m) as [[x m']|].
Qed.

Lemma sees_gets {X} vw (g : Machine → X) ls xs : hoare (sees vw ls xs) (gets g) (λ x m, sees vw ls xs m ∧ x = g m).
Proof. by intros m Hm. Qed.

Lemma sees_replace_cow vw p addr ls xs : hoare (sees vw ls xs) (replace_cow_page (A := A) (F := F) p addr) (λ _, sees vw ls xs).
Proof. apply (sees_simple iso vw _ ls xs (λ _, ls) (λ _, xs)). intros st sh. apply at_replace_cow. Qed.

(** Copy-on-write makes the page writable and keeps its other flags. *)
Lemma replace_cow_flags p addr f0 fl :
  hoare (λ m, m.(m_ptes) !! (p, page_of addr) = Some (f0, fl)) (replace_cow_page (A := A) (F := F) p addr)
    (λ _ m, ∃ f, m.(m_ptes) !! (p, page_of addr) = Some (f, Z.lor (remove_flag fl COW_FLAG) WRITABLE)).
Proof.
  unfold replace_cow_page. apply hoare_state. intros m0 Hp.
  eapply (hoare_bind _ (λ e m, e = Some (f0, fl) ∧ m.(m_ptes) !! (p, page_of addr) = Some (f0, fl))); [by intros m ->|]. intros entry.
  apply hoare_pure. intros ->. set (fl' := Z.lor _ _).
  set (Q := λ m, ∃ f, m.(m_ptes) !! (p, page_of addr) = Some (f, fl')).
  assert (∀ {X} (c : VM X), keeps_maps c → hoare Q c (λ _, Q)) as Hkeep.
  { intros X c Hc m Hm. specialize (Hc m). destruct (c m) as [[x m']|]; [|done]. destruct Hc as [_ Hpt]. unfold Q. by rewrite Hpt. }
  eapply (hoare_bind _ (λ _ m, m.(m_ptes) !! (p, page_of addr) = Some (f0, fl))).
  { intros m Hm. pose proof (contents_take_exclusive f0 m) as Hk. destruct (take_exclusive_ref f0 m) as [[b m']|]; [|done].
    destruct Hk as [[-> _] _]. done. }
  intros [|].
  - eapply (hoare_bind _ (λ _, Q)); [|by intros b m Hm]. intros m Hm. unfold update_flags. rewrite Hm. exists f0. cbn. by rewrite lookup_insert_eq.
  - eapply (hoare_bind _ (λ _ _, True)); [by intros m _; destruct (must_allocate m) as [[g m']|]|]. intros g.
    eapply (hoare_bind _ (λ _ _, True)); [by intros m _; destruct (unmap_page p _ m) as [[r m']|]|]. intros r.
    eapply (hoare_bind _ (λ _ _, True)); [by intros m _|]. intros u. eapply (hoare_bind _ (λ _, Q)).
    + intros m _. unfold map_to. destruct (m.(m_ptes) !! _) eqn:He; [done|]. exists g. cbn. by rewrite lookup_insert_eq.
    + intros u1. eapply (hoare_bind _ (λ _, Q)); [by apply Hkeep|]. intros u2.
      eapply (hoare_bind _ (λ _, Q)); [apply Hkeep, maps_contents, contents_drop_ref|]. intros [|]; [by apply Hkeep|by intros m Hm].
Qed.

(** A page that the process may write *)
Definition writable_at (p page : Z) m : Prop :=
  ∃ f fl, m.(m_ptes) !! (p, page) = Some (f, fl) ∧ has_flag fl WRITABLE = true ∧ has_flag fl USER_ACCESSIBLE = true.

Lemma has_flag_lor_l flags other bit : has_flag flags bit = true → has_flag (Z.lor flags other) bit = true.
Proof.
  unfold has_flag. rewrite !Z.eqb_eq. intros Hb. apply Z.bits_inj'. intros n Hn. assert (Z.testbit (Z.land flags bit) n = Z.testbit bit n) as Ht by (by rewrite Hb).
  rewrite Z.land_spec in Ht. rewrite Z.land_spec, Z.lor_spec. by destruct (Z.testbit flags n), (Z.testbit other n), (Z.testbit bit n).
Qed.

Lemma sees_ensure_writable vw p addr len ls xs :
  hoare (sees vw ls xs) (ensure_user_page_writable (A := A) (F := F) p addr len)
    (λ b m, sees vw ls xs m ∧ (b = true → writable_at p (page_of addr) m)).
Proof.
  unfold ensure_user_page_writable. destruct (valid_user_access addr len); cbn [negb]; [|by intros m Hm].
  eapply hoare_bind; [apply sees_gets|]. intros [[f fl]|].
  - destruct (has_flag fl USER_ACCESSIBLE) eqn:Huser; cbn [negb]; [|by intros m []]. destruct (has_flag fl COW_FLAG).
    + eapply (hoare_bind _ (λ _ m, sees vw ls xs m ∧ writable_at p (page_of addr) m)); [|by intros u m [? ?]].
      eapply hoare_pre; [|eapply hoare_post; [apply hoare_conj; [apply sees_replace_cow|apply (replace_cow_flags p addr f fl)]|]]; [by intros m [Hm He]|].
      intros u m [Hm [g Hg]]. split; [done|]. exists g, (Z.lor (remove_flag fl COW_FLAG) WRITABLE). split_and!; [done|apply has_flag_lor|].
      apply has_flag_lor_l. by rewrite has_flag_remove.
    + intros m [Hm He]. split; [done|]. intros Hw. by exists f, fl.
  - eapply (hoare_bind _ (λ r m, sees vw ls xs m ∧ match r with Some a => a ∈ areas_of m p ∧ contains a addr = true | None => True end)).
    { eapply hoare_pre; [|eapply hoare_post; [apply (sees_find_area (free := free) iso vw p addr ls xs)|]]; [by intros m []|]. by intros [a|] m []. }
    intros [area|]; [|by intros m []]. destruct (area.(lazy) && _ && _ && _); [|by intros m []].
    eapply hoare_bind; [apply sees_apply_lazy|]. intros u. eapply hoare_bind; [apply sees_gets|]. intros [[f fl]|]; [|by intros m []].
    intros m [Hm He]. split; [done|]. intros [Hu Hw]%andb_prop. by exists f, fl.
Qed.

Lemma sees_ensure_readable vw p addr len ls xs :
  hoare (sees vw ls xs) (ensure_user_page_readable (A := A) (F := F) p addr len) (λ _, sees vw ls xs).
Proof.
  unfold ensure_user_page_readable. destruct (valid_user_access addr len); cbn [negb]; [|by intros m Hm].
  eapply hoare_bind; [apply sees_find_area|]. intros [area|]; [|by intros m []]. destruct (negb _ || negb _); [by intros m []|].
  eapply (hoare_bind _ (λ _ m, sees vw ls xs m ∧ area ∈ areas_of m p ∧ contains area addr = true)); [by intros m Hm|]. intros [[f fl]|]; [by intros m []|].
  destruct (area.(lazy) && _); [|by intros m []]. eapply hoare_bind; [apply sees_apply_lazy|]. intros u. by intros m Hm.
Qed.

(** ** Writes *)

Lemma mapped_two m k k' f fl fl' : k ≠ k' → m.(m_ptes) !! k = Some (f, fl) → m.(m_ptes) !! k' = Some (f, fl') → 2 <= mapped m f.
Proof.
  intros Hne Hk Hk'. unfold mapped. rewrite <- (insert_delete_id m.(m_ptes) k (f, fl) Hk), pte_frames_insert by apply lookup_delete_eq. rewrite hit_same.
  assert (0 < occ f (pte_frames (delete k m.(m_ptes)))); [|lia]. apply occ_pos, elem_of_pte_frames. exists k', (f, fl').
  split; [|done]. by rewrite lookup_delete_ne.
Qed.

(** Without [iso] no contents are followed. *)
Lemma writable_unseen vw ls xs m p page f fl :
  sees vw ls xs m → (iso = true ∨ ∀ k, vw k = None) → m.(m_ptes) !! (p, page) = Some (f, fl) → has_flag fl WRITABLE = true →
  vw (p, page) = None → unseen vw f m.
Proof.
  intros ([_ _ Hk] & Hv & Hpriv) [Hi|Hn] He Hw Hvw k fl' Hk'; [|apply Hn]. destruct (vw k) as [c|] eqn:Hc; [exfalso|done].
  destruct (decide (k = (p, page))) as [->|Hne]; [congruence|]. assert (kind m k = Some false) as Hkind by (apply (Hpriv Hi); by eexists).
  pose proof (k_same m (Hk Hi) _ _ _ _ _ Hk' He) as Hs. rewrite Hkind in Hs. pose proof (k_exclusive m (Hk Hi) _ _ _ He Hw (eq_sym Hs)).
  pose proof (mapped_two m k (p, page) f fl' fl Hne Hk' He). lia.
Qed.

Lemma sees_write_page vw p page f off bytes ls xs :
  (iso = true ∨ ∀ k, vw k = None) → vw (p, page) = None →
  hoare (λ m, sees vw ls xs m ∧ ∃ fl, m.(m_ptes) !! (p, page) = Some (f, fl) ∧ has_flag fl WRITABLE = true)
    (write_frame f off bytes) (λ _, sees vw ls xs).
Proof.
  intros Hiso Hvw. eapply hoare_pre with (P' := λ m, sees vw ls xs m ∧ unseen vw f m).
  { intros m (Hm & fl & He & Hw). split; [done|]. by eapply writable_unseen. }
  eapply hoare_post; [apply (sees_at iso vw (write_frame f off bytes) ls xs (λ _, ls) (λ _, xs) (unseen vw f) (λ _ _ _, True))|by intros b m []].
  intros st sh. eapply hoare_post; [apply at_write_frame|]. by intros u m [].
Qed.

Lemma page_of_same addr i : 0 <= i → addr mod PAGE_SIZE + i < PAGE_SIZE → page_of (addr + i) = page_of addr.
Proof. unfold page_of, PAGE_SIZE. intros. Z.to_euclidean_division_equations. lia. Qed.

Lemma chunk_len_pos addr n : 0 < n → 0 < chunk_len addr n ≤ n.
Proof. unfold chunk_len, PAGE_SIZE. intros. Z.to_euclidean_division_equations. lia. Qed.

Lemma sees_write_bytes vw p fuel addr src ls xs :
  (iso = true ∨ ∀ k, vw k = None) → (∀ i, 0 <= i < zlen src → vw (p, page_of (addr + i)) = None) →
  hoare (sees vw ls xs) (write_bytes_loop (A := A) (F := F) fuel p addr src) (λ _, sees vw ls xs).
Proof.
  intros Hiso. revert addr src. induction fuel as [|fuel IH]; intros addr src Hvw; [by destruct src; intros m Hm|].
  destruct src as [|b src]; [by intros m Hm|]. cbn [write_bytes_loop]. set (all := b :: src) in *.
  assert (0 < zlen all) as Hlen by (unfold all, zlen; cbn; lia).
  eapply (hoare_bind _ (λ v m, v = addr ∧ sees vw ls xs m)); [intros m Hm; unfold virt_addr; by destruct (canonical addr)|].
  intros v. apply hoare_pure. intros ->. pose proof (chunk_len_pos addr (zlen all) Hlen) as Hn. set (n := chunk_len addr (zlen all)) in *.
  eapply hoare_bind; [apply sees_ensure_writable|]. intros [|]; cbn [negb]; [|by intros m []].
  eapply (hoare_bind _ (λ e m, sees vw ls xs m ∧ e = m.(m_ptes) !! (p, page_of addr) ∧ writable_at p (page_of addr) m)).
  { intros m [Hm Hw]. split_and!; [done|done|by apply Hw]. }
  intros [[f fl]|]; [|by intros m []]. eapply (hoare_bind _ (λ _, sees vw ls xs)).
  - eapply hoare_pre; [|apply (sees_write_page vw p (page_of addr)); [done|]].
    + intros m (Hm & He & g & gl & Hg & Hw & _). split; [done|]. rewrite Hg in He. simplify_eq. by exists gl.
    + rewrite <- (Z.add_0_r addr). apply Hvw. lia.
  - intros u. apply IH. intros i Hi. rewrite <- Z.add_assoc. apply Hvw. unfold zlen in *. rewrite length_drop in Hi. lia.
Qed.

Lemma sees_read_bytes vw p fuel addr len ls xs : hoare (sees vw ls xs) (read_bytes_loop (A := A) (F := F) fuel p addr len) (λ _, sees vw ls xs).
Proof.
  revert addr len. induction fuel as [|fuel IH]; intros addr len; cbn [read_bytes_loop]; [by intros m Hm|]. destruct (len <=? 0); [by intros m Hm|].
  eapply (hoare_bind _ (λ _, sees vw ls xs)); [intros m Hm; unfold virt_addr; by destruct (canonical addr)|]. intros v.
  eapply hoare_bind; [apply sees_ensure_readable|]. intros [|]; cbn [negb]; [|by intros m Hm].
  eapply (hoare_bind _ (λ _, sees vw ls xs)); [by intros m Hm|]. intros [[f fl]|]; [|by intros m Hm].
  eapply (hoare_bind _ (λ _, sees vw ls xs)); [by intros m Hm|]. intros bytes. eapply hoare_bind; [apply IH|]. by intros r m Hm.
Qed.
(** ** Page faults *)

Lemma grown_stack_found areas fp i : grown_stack areas fp = Some i →
  ∃ a, areas !! i = Some a ∧ a.(grows_down) = true ∧ fp + PAGE_SIZE = a.(start) ∧
    ∀ j b, areas !! j = Some b → j ≠ i → b.(start) < fp → b.(end_) ≤ sat_sub fp (STACK_GUARD_GAP_PAGES * PAGE_SIZE).
Proof.
  unfold grown_stack. change 4096 with PAGE_SIZE. intros ([i' a] & Hf & Hg)%bind_Some. destruct (existsb _ _) eqn:He; [done|]. simplify_eq.
  apply list_find_Some in Hf as (Ha & (Hd & Hlt & Hs) & _). exists a. split_and!; [done..|]. intros j b Hb Hne Hbs.
  apply Bool.not_true_iff_false in He. destruct (Z.le_gt_cases b.(end_) (sat_sub fp (STACK_GUARD_GAP_PAGES * PAGE_SIZE))) as [|Hgt]; [done|].
  exfalso. apply He, existsb_exists. exists (j, b). split.
  - apply list_elem_of_In, list_elem_of_lookup. exists j. by rewrite list_lookup_imap, Hb.
  - cbn. apply Nat.eqb_neq in Hne. rewrite Hne. cbn. lia.
Qed.

Lemma alter_split {X} (g : X → X) l i x : l !! i = Some x → alter g i l = take i l ++ g x :: drop (S i) l.
Proof.
  revert i. induction l as [|y l IH]; intros [|i] Hi; [done..| |]; cbn in *; [by simplify_eq|]. f_equal. by apply IH.
Qed.

Lemma grown_areas_ok areas fp i address :
  areas_ok areas → (∀ a, a ∈ areas → aligned a.(start) ∧ aligned a.(end_)) → 0 <= address → fp = page_of address →
  (∀ a, a ∈ areas → contains a address = false) → grown_stack areas fp = Some i →
  areas_ok (alter (λ a, with_start a fp) i areas).
Proof.
  intros [Hs Hne] Hal Hpos Hfp Hno Hg. destruct (grown_stack_found areas fp i Hg) as (a & Ha & Hd & Hst & Hgap).
  rewrite (alter_split _ _ _ a Ha). rewrite <- (take_drop_middle areas i a Ha) in Hs, Hne.
  apply StronglySorted_app in Hs as (H12 & Hs1 & Hs2). apply Forall_app in Hne as [Hn1 Hn2]. inversion Hs2 as [|? ? Hs3 Ha3]; subst.
  apply Forall_cons in Hn2 as [Hna Hn2]. apply areas_ok_app; [done| |].
  - split; [|constructor; [cbn; unfold PAGE_SIZE in *; lia|done]]. constructor; [done|]. eapply List.Forall_impl; [|exact Ha3]. by intros b Hb.
  - assert (∀ b, b ∈ take i areas → b.(end_) ≤ page_of address) as Hbefore.
    { intros b Hb. pose proof (H12 b a Hb ltac:(left)) as Hba. unfold area_before in Hba. rewrite Forall_forall in Hn1. pose proof (Hn1 b Hb) as Hbne.
      assert (b ∈ areas) as Hin by (rewrite <- (take_drop i areas), elem_of_app; by left). destruct (Hal b Hin) as [Hbs Hbe]. specialize (Hno b Hin).
      apply list_elem_of_lookup in Hb as [j Hj]. apply lookup_take_Some in Hj as [Hj Hji].
      specialize (Hgap j b Hj ltac:(lia)). unfold contains, aligned, page_of, sat_sub, STACK_GUARD_GAP_PAGES, PAGE_SIZE in *.
      Z.to_euclidean_division_equations. lia. }
    intros b c Hb [->|Hc]%elem_of_cons; [by apply Hbefore|]. apply H12; [done|by right].
Qed.

Lemma fits_grown m p address i um ls xs :
  ok ls xs m → 0 <= address → (∀ a, a ∈ areas_of m p → contains a address = false) →
  grown_stack (areas_of m p) (page_of address) = Some i →
  fits iso m p (mkAddrSpace (alter (λ a, with_start a (page_of address)) i (areas_of m p)) um (Some i)).
Proof.
  intros [_ [A1 A2 A3] Hk] Hpos Hno Hg. set (areas := areas_of m p) in *. set (g := λ a, with_start a (page_of address)).
  destruct (grown_stack_found areas _ i Hg) as (a & Ha & Hd & Hst & Hgap).
  assert (areas_ok (alter g i areas)) as Hok by (apply (grown_areas_ok areas (page_of address) i address); [apply (A1 p)|apply A3|done..]).
  assert (∀ x, x ∈ alter g i areas → x ∈ areas ∨ x = g a) as Hin.
  { intros x Hx. rewrite (alter_split g areas i a Ha) in Hx. rewrite <- (take_drop_middle areas i a Ha).
    apply elem_of_app in Hx as [Hx|[->|Hx]%elem_of_cons]; [left; apply elem_of_app; by left|by right|left; apply elem_of_app; right; by right]. }
  assert (a ∈ areas) as Haa by (by eapply list_elem_of_lookup_2). split_and!.
  - split; [done|]. cbn. rewrite length_alter. by apply lookup_lt_Some in Ha.
  - intros x arc fr fl [Hx| ->]%Hin Hdata; [by eapply (A2 p x)|by eapply (A2 p a)].
  - intros Hi page e He. cbn. destruct (k_covered m (Hk Hi) _ _ He) as [b Hb]. rewrite Hb. unfold kind in Hb. cbn in Hb. fold areas in Hb.
    destruct (kind_at_some _ _ _ Hb) as (x & Hx & Hc). pose proof (kind_at_area areas x page (proj1 (A1 p)) Hx Hc) as Hkx. rewrite Hb in Hkx. injection Hkx as ->.
    apply list_elem_of_lookup in Hx as [j Hj]. destruct (decide (j = i)) as [->|Hne].
    + rewrite Ha in Hj. simplify_eq. change (is_shared_mapping x) with (is_shared_mapping (g x)). apply kind_at_area; [done| |].
      * eapply list_elem_of_lookup_2. by rewrite list_lookup_alter_eq, Ha.
      * unfold contains, g in *. cbn. unfold PAGE_SIZE in *. lia.
    + apply kind_at_area; [done| |done]. eapply list_elem_of_lookup_2. by rewrite list_lookup_alter_ne.
  - intros x [Hx| ->]%Hin; [by apply (A3 p)|]. cbn. destruct (A3 p a Haa). split; [|done]. unfold aligned, page_of, PAGE_SIZE. Z.to_euclidean_division_equations. lia.
Qed.
Lemma sees_fault_area vw p address ls xs : 0 <= address →
  hoare (sees vw ls xs) (fault_area (A := A) (F := F) p address)
    (λ r m, sees vw ls xs m ∧ match r with Some a => a ∈ areas_of m p ∧ contains a address = true | None => True end).
Proof.
  intros Hpos. unfold fault_area. eapply hoare_bind; [apply sees_find_area|]. intros [a|]; [by intros m Hm|].
  eapply (hoare_bind _ (λ st m, (sees vw ls xs m ∧ ∀ a, a ∈ areas_of m p → contains a address = false) ∧ st.(memory_areas) = areas_of m p)); [by intros m Hm|].
  intros st. destruct (grown_stack st.(memory_areas) (page_of address)) as [i|] eqn:Hg; [|by intros m [[Hm _] _]].
  intros m [[Hm Hno] Hst]. rewrite Hst in Hg. unfold mbind, VM_bind, modify. cbv zeta. unfold grow_down. cbn [memory_areas user_mem]. rewrite Hst.
  set (st' := mkAddrSpace (alter (λ a, with_start a (page_of address)) i (areas_of m p)) _ (Some i)).
  assert (fits iso m p st') as Hfit by (eapply fits_grown; [apply Hm|done..]).
  destruct (sees_areas iso vw p st' ls xs m (conj Hm Hfit)) as [Hm' Ha]. cbn. split; [exact Hm'|].
  destruct (grown_stack_found _ _ _ Hg) as (a & Hai & _ & Hs & _). rewrite list_lookup_alter_eq, Hai. cbn. split.
  - rewrite Ha. cbn. eapply list_elem_of_lookup_2. by rewrite list_lookup_alter_eq, Hai.
  - destruct Hm as ([_ [A1 _ _] _] & _). destruct (A1 p) as [[_ Hne] _]. rewrite Forall_forall in Hne.
    pose proof (Hne a (list_elem_of_lookup_2 _ _ _ Hai)). unfold contains. cbn. unfold page_of, PAGE_SIZE in *. Z.to_euclidean_division_equations. lia.
Qed.

Lemma sees_fault_signal vw p address code ls xs : 0 <= address →
  hoare (sees vw ls xs) (fault_signal (A := A) (F := F) p address code) (λ _, sees vw ls xs).
Proof.
  intros Hpos. unfold fault_signal. eapply (hoare_bind _ (λ _, sees vw ls xs)); [by intros m Hm|]. intros entry.
  destruct (_ && _). { eapply (hoare_bind _ (λ _, sees vw ls xs)); [apply sees_replace_cow|by intros u m Hm]. }
  destruct (has_flag code PROTECTION_VIOLATION); [by intros m Hm|].
  eapply hoare_bind; [by apply sees_fault_area|]. intros [area|]; [|by intros m []].
  destruct (_ && _); [|by intros m []]. destruct (beyond_file area address); [by intros m []|].
  eapply (hoare_bind _ (λ _, sees vw ls xs)); [apply sees_apply_lazy|by intros u m Hm].
Qed.

Lemma sees_pagefault vw p address code from_user ls xs : 0 <= address →
  hoare (sees vw ls xs) (pagefault_handler (A := A) (F := F) p address code from_user) (λ _, sees vw ls xs).
Proof.
  intros Hpos. unfold pagefault_handler. eapply hoare_bind; [by apply sees_fault_signal|].
  intros [sig|]; [|by intros m Hm]. by destruct from_user; intros m Hm.
Qed.
End access.
