(* ===== verification/VmFork.v ===== *)
(** * Duplicating an address space

    Over VmAccess: [clone_all] and [clone_shared_vm] keep the invariant, and the child maps
    the frames of its parent. *)

From stdpp Require Import sets.
From S2P Require Import Prelude Errors SignalData SparseFile AddrAreas Vm VmUser VmCalls VmFrames VmKinds VmOps VmSteps VmAccess.

Open Scope Z_scope.

Section fork.
Context {A F : Type} `{BuddyAllocatorLaws A free} `{MappedFiles F}.
Context (iso : bool).
Abbreviation VM := (VM A F).
Abbreviation Machine := (Machine A F).
Abbreviation ok := (vm_ok (free := free) iso).
Abbreviation sees := (vm_sees (free := free) iso).
Implicit Types m : Machine.

(** ** Frames for shared memory *)

Lemma sees_must_allocate vw ls xs : hoare (sees vw ls xs) (must_allocate (A := A) (F := F)) (λ f, sees vw (f :: ls) xs).
Proof. apply (sees_simple iso vw must_allocate ls xs (λ f, f :: ls) (λ _, xs)). intros st sh. apply at_allocate. Qed.

Lemma sees_zero_loose vw f ls xs : f ∈ ls → hoare (sees vw ls xs) (zero_frame (A := A) (F := F) f) (λ _, sees vw ls xs).
Proof.
  intros Hf. eapply hoare_pre with (P' := λ m, sees vw ls xs m ∧ unseen vw f m).
  { intros m Hm. split; [done|]. destruct Hm as (Hm & Hv & Hk).
    eapply (loose_unseen (free := free) iso m.(m_areas) m.(m_shared)); [by split_and!|done]. }
  eapply hoare_post; [apply (sees_at iso vw (zero_frame f) ls xs (λ _, ls) (λ _, xs) (unseen vw f) (λ _ _ _, True))|by intros b m []].
  intros st sh. eapply hoare_post; [apply at_zero_frame|]. by intros u m [? _].
Qed.

Lemma sees_allocate_zeroed vw n frames ls xs :
  hoare (sees vw (frames ++ ls) xs) (allocate_zeroed (A := A) (F := F) n frames)
    (λ r m, match r with Ok fs => sees vw (fs ++ ls) xs m | Err _ => sees vw ls xs m end).
Proof.
  assert (∀ fs m, sees vw (fs ++ ls) xs m → sees vw ls xs m) as Hforget.
  { induction fs as [|f fs IH]; [done|]. intros m ([Hf Harcs Hk] & Hv). apply IH. split; [|done]. split; [by eapply frames_ok_forget|done..]. }
  revert frames. induction n as [|n IH]; intros frames; cbn [allocate_zeroed]; [by intros m Hm|].
  eapply (hoare_bind _ (λ o m, match o with Some f => sees vw ((frames ++ [f]) ++ ls) xs m | None => sees vw (frames ++ ls) xs m end)).
  - intros m Hm. pose proof (sees_must_allocate vw (frames ++ ls) xs m Hm) as Hal. unfold must_allocate, mbind, VM_bind in Hal.
    assert (match allocate_frame m with Some (None, m') => m' = m | _ => True end) as Hnone.
    { unfold allocate_frame, allocate_contiguous. destruct (normalized_pages 1); [|done]. by destruct (buddy_alloc _ _) as [[? ?]|]. }
    destruct (allocate_frame m) as [[[f|] m']|]; [| |done].
    + eapply sees_perm, Hal. by rewrite <- app_assoc; cbn; rewrite <- Permutation_middle.
    + by rewrite Hnone.
  - intros [f|]; [|intros m Hm; by eapply Hforget]. eapply hoare_bind; [|intros u; apply IH].
    apply sees_zero_loose. apply elem_of_app. left. apply elem_of_app. right. by left.
Qed.

Lemma sees_anonymous vw arc pages shared prot ls xs :
  hoare (λ m, sees vw ls xs m ∧ m.(m_shared) !! arc = None) (anonymous_mapping_data (A := A) (F := F) arc pages shared prot) (λ _, sees vw ls xs).
Proof.
  unfold anonymous_mapping_data. destruct shared; cbn [negb]; [|by intros m []].
  set (sh := λ m, m.(m_shared) !! arc = None).
  eapply (hoare_bind _ (λ r m, match r with Ok fs => sees vw (fs ++ ls) xs m | Err _ => sees vw ls xs m end ∧ sh m)).
  - intros m [Hm Harc]. pose proof (sees_allocate_zeroed vw (Z.to_nat pages) [] ls xs m Hm) as Hal.
    assert (∀ n fs m1, match allocate_zeroed n fs m1 with Some (_, m2) => m2.(m_shared) = m1.(m_shared) | None => True end) as Hsame.
    { clear. induction n as [|n IH]; intros fs m1; [done|]. cbn [allocate_zeroed]. unfold mbind, VM_bind.
      assert (match allocate_frame m1 with Some (_, m') => m'.(m_shared) = m1.(m_shared) | None => True end) as Ha.
      { unfold allocate_frame, allocate_contiguous. destruct (normalized_pages 1); [|done]. by destruct (buddy_alloc _ _) as [[? ?]|]. }
      destruct (allocate_frame m1) as [[[f|] m']|]; [|done..]. cbn. specialize (IH (fs ++ [f]) (with_phys (<[f := zero_page]> m'.(m_phys)) m')).
      destruct (allocate_zeroed n (fs ++ [f]) _) as [[r m2]|]; [|done]. by rewrite IH. }
    specialize (Hsame (Z.to_nat pages) [] m). destruct (allocate_zeroed _ _ m) as [[r m']|]; [|done]. split; [done|]. unfold sh. by rewrite Hsame.
  - intros [fs|e]; [|by intros m []]. eapply (hoare_bind _ (λ _, sees vw ls xs)); [apply sees_shared_frames_new|by intros u m Hm].
Qed.

(** ** Duplicating a page *)

Lemma at_clone_page st sh vw p child (share : bool) area page ls xs :
  (iso = true → share = false) → areas_in st child = areas_in st p → page_in iso st p area page →
  hoare (vm_at (free := free) iso st sh vw ls xs) (clone_page (A := A) (F := F) p child share area page) (λ _, vm_at (free := free) iso st sh vw ls xs).
Proof.
  intros Hshare Hsame Hpage. set (b := is_shared_mapping area). unfold clone_page.
  eapply hoare_bind; [apply at_gets|]. intros [[f fl]|]; [|by intros m []]. destruct (_ <=? page); [by intros m []|].
  apply hoare_state. intros m0 [Hm0 Hpt]. symmetry in Hpt.
  assert (iso = true → kind_in st p page = Some b ∧ aligned page) as Hkind by (intros Hi; exact (page_in_kind (free := free) iso st sh vw ls xs m0 p area page Hm0 Hpage Hi)).
  assert (iso = true → kind_in st child page = Some b ∧ aligned page) as Hkind'.
  { intros Hi. unfold kind_in. rewrite Hsame. by apply Hkind. }
  eapply (hoare_bind _ (λ already m, m = m0 ∧ already = bool_decide (is_Some (m0.(m_refs) !! f)))); [by intros m ->|]. intros already.
  apply hoare_state. intros m [-> ->]. set (already := bool_decide _).
  eapply (hoare_bind _ (λ new m, vm_at (free := free) iso st sh vw ls xs m ∧ m.(m_refs) = m0.(m_refs) ∧ m.(m_ptes) !! (p, page) = Some (f, new) ∧
    (iso = true → b = false → has_flag new WRITABLE = false))).
  - destruct (_ && _ && _) eqn:Hcow.
    + intros m ->. pose proof (at_update_flags (free := free) iso st sh vw p page (as_cow_flags fl) ls xs m0) as Hup.
      unfold mbind, VM_bind, update_flags in *. rewrite Hpt in *. cbn. split_and!; [|done|by rewrite lookup_insert_eq|intros _ _; apply cow_flags_not_writable].
      apply Hup. split; [done|]. intros _ Hw. by rewrite cow_flags_not_writable in Hw.
    + intros m ->. split_and!; [done..|]. intros Hi Hb. rewrite (Hshare Hi) in Hcow. fold b in Hcow. rewrite Hb in Hcow. cbn in Hcow.
      by destruct (has_flag fl WRITABLE).
  - intros new. set (n := if already then 1 else 2).
    assert (∀ m, (_ ← map_to child page f new; (if already then increase_ref f else increase_ref_by f 2)) m =
                 (_ ← map_to child page f new; _ ← increase_ref_by f n; mret tt) m) as Heq.
    { intros m. unfold mbind, VM_bind, n. destruct (map_to child page f new m) as [[u m1]|]; [|done]. by destruct already. }
    intros m (Hm & Hrefs & Hp & Hw). rewrite Heq.
    refine (at_map_counted (free := free) iso st sh vw child page f new n b ls xs (mret tt) (λ _, vm_at (free := free) iso st sh vw ls xs) Hkind' Hw _ m _); [by intros m1 []|].
    split; [done|]. split; [pose proof (mapped_pos m (p, page) f new Hp); unfold total; pose proof (total_nonneg m xs f); lia|]. split.
    { unfold n, already. rewrite Hrefs. by destruct (m0.(m_refs) !! f). }
    intros Hi. destruct Hm as ([_ _ Hk] & Ha & _). specialize (Hk Hi).
    assert (kind m (p, page) = Some b) as Hkp by (unfold kind, areas_of; rewrite Ha; by apply Hkind).
    split.
    + intros Hh. pose proof (k_held m Hk _ _ _ Hp Hh) as Ht. congruence.
    + intros k' fl' Hk'. pose proof (k_same m Hk _ _ _ _ _ Hk' Hp) as Hs. rewrite Hkp in Hs. split.
      * unfold kind, areas_of in Hs. by rewrite Ha in Hs.
      * intros Hb. destruct (has_flag fl' WRITABLE) eqn:Hwr; [exfalso|done]. destruct (decide (k' = (p, page))) as [->|Hne].
        -- rewrite Hp in Hk'. assert (new = fl') as <- by congruence. by rewrite (Hw Hi Hb) in Hwr.
        -- rewrite Hb in Hs. pose proof (k_exclusive m Hk _ _ _ Hk' Hwr Hs). pose proof (mapped_two m k' (p, page) f fl' new Hne Hk' Hp). lia.
Qed.

(** The pages of an area *)
Definition clone_pages (area : MemoryArea) : list Z :=
  if area_pages area =? 0 then [] else range_inclusive (page_of area.(start)) (page_of (area.(end_) - 1)).

Lemma clone_area_pages p child share area m :
  clone_area p child share area m = for_each (clone_pages area) (clone_page p child share area) m.
Proof. unfold clone_area, clone_pages. by destruct (area_pages area =? 0). Qed.

Lemma elem_of_clone_pages area page :
  aligned area.(start) → aligned area.(end_) → area.(start) < area.(end_) →
  page ∈ clone_pages area ↔ aligned page ∧ contains area page = true.
Proof.
  unfold clone_pages, area_pages, range_inclusive, contains, page_of, aligned. intros Hs He Hne.
  destruct ((area.(end_) - area.(start)) / 4096 =? 0) eqn:Hz; [exfalso; unfold PAGE_SIZE in *; Z.to_euclidean_division_equations; lia|].
  rewrite elem_of_pages_from. unfold PAGE_SIZE in *. split.
  - intros (i & Hi & ->). Z.to_euclidean_division_equations. lia.
  - intros [Hp Hc]. exists (Z.to_nat ((page - area.(start)) / 4096)). Z.to_euclidean_division_equations. lia.
Qed.

Lemma at_clone_areas st sh vw p child (share : bool) ls xs l :
  (iso = true → share = false) → areas_in st child = areas_in st p → (∀ a, a ∈ l → a ∈ areas_in st p) →
  hoare (vm_at (free := free) iso st sh vw ls xs) (for_each l (clone_area (A := A) (F := F) p child share)) (λ _, vm_at (free := free) iso st sh vw ls xs).
Proof.
  intros Hshare Hsame Hl. apply hoare_for_each. intros area Ha. specialize (Hl area Ha). intros m Hm. rewrite clone_area_pages. revert m Hm.
  apply hoare_for_each. intros page Hp. apply hoare_state. intros m0 Hm0.
  destruct (at_aligned (free := free) iso st sh vw ls xs m0 p area Hm0 Hl) as [Hs He].
  pose proof (at_areas_ok (free := free) iso st sh vw ls xs m0 p Hm0) as [_ Hne]. rewrite Forall_forall in Hne.
  apply elem_of_clone_pages in Hp as [Hal Hc]; [|done|done|by apply Hne].
  eapply hoare_pre; [|apply at_clone_page; [done|done|]]; [by intros m ->|]. split; [done|]. intros _. by split.
Qed.

(** A new space: it has neither areas nor pages. *)
Definition fresh_space m (child : Z) : Prop :=
  m.(m_areas) !! child = None ∧ ∀ page, m.(m_ptes) !! (child, page) = None.

Lemma sees_clone vw p child (share : bool) ls xs :
  (iso = true → share = false) → p ≠ child →
  hoare (λ m, sees vw ls xs m ∧ fresh_space m child) (clone_with_vm_sharing (A := A) (F := F) p child share) (λ _, sees vw ls xs).
Proof.
  intros Hshare Hne. unfold clone_with_vm_sharing.
  eapply (hoare_bind _ (λ st m, (sees vw ls xs m ∧ fresh_space m child) ∧ st = default addrspace_default (m.(m_areas) !! p))); [by intros m Hm|].
  intros st. set (st' := mkAddrSpace st.(memory_areas) st.(user_mem) None).
  eapply (hoare_bind _ (λ _ m, sees vw ls xs m ∧ areas_of m p = st.(memory_areas) ∧ areas_of m child = st.(memory_areas))).
  - intros m [[Hm [Hc Hpt]] ->]. cbn [modify]. assert (fits iso m child st') as Hfit.
    { destruct Hm as ([_ [A1 A2 A3] _] & _). split_and!; [by split; [apply (A1 p)|]|apply (A2 p)| |apply (A3 p)].
      intros _ page e He. by rewrite Hpt in He. }
    destruct (sees_areas iso vw child st' ls xs m (conj Hm Hfit)) as [Hm' Ha]. split; [exact Hm'|]. split; [|exact Ha].
    unfold areas_of. cbn. by rewrite lookup_insert_ne.
  - intros u m (Hm & Hp & Hch).
    destruct Hm as (Hm & Hv & Hk). pose proof (at_clone_areas m.(m_areas) m.(m_shared) vw p child share ls xs st.(memory_areas) Hshare) as Hc.
    specialize (Hc ltac:(change (areas_of m child = areas_of m p); congruence) ltac:(intros a Ha; change (a ∈ areas_of m p); by rewrite Hp) m).
    destruct (for_each _ _ m) as [[r m']|]; [|done]. destruct Hc as (Hm' & Hsa & Hss & Hv'); [by split_and!|].
    split_and!; [done|done|]. intros Hi k Hvk. unfold kind, areas_of. rewrite Hsa. by apply Hk.
Qed.
(** ** The child maps the frames of its parent *)

Definition same_frames m m' : Prop :=
  m'.(m_phys) = m.(m_phys) ∧ ∀ k f fl, m.(m_ptes) !! k = Some (f, fl) → ∃ fl', m'.(m_ptes) !! k = Some (f, fl').

Lemma same_frames_refl m : same_frames m m.
Proof. split; [done|]. eauto. Qed.

Lemma same_frames_trans m1 m2 m3 : same_frames m1 m2 → same_frames m2 m3 → same_frames m1 m3.
Proof. intros [? H1'] [? H2']. split; [congruence|]. intros k f fl Hk. destruct (H1' k f fl Hk) as [fl' Hk']. by eapply H2'. Qed.

(** The pages [pages] of [p] are pages of [child] too. *)
Definition child_maps (p child : Z) (pages : Z → Prop) m m' : Prop :=
  same_frames m m' ∧ ∀ page f fl, pages page → m.(m_ptes) !! (p, page) = Some (f, fl) → page < KERNEL_MEM_START →
    ∃ fl', m'.(m_ptes) !! (child, page) = Some (f, fl').

Lemma clone_page_maps p child share area page m :
  match clone_page p child share area page m with
  | Some (_, m') => child_maps p child (λ q, q = page) m m'
  | None => True
  end.
Proof.
  unfold clone_page, pte, gets, mbind, VM_bind. destruct (m.(m_ptes) !! (p, page)) as [[f fl]|] eqn:Hp.
  2: { split; [apply same_frames_refl|]. intros q g gl -> Hq. congruence. }
  destruct (KERNEL_MEM_START <=? page) eqn:Hkern.
  { split; [apply same_frames_refl|]. intros q g gl -> _ Hlt. boolify. lia. }
  cbn [is_ref_counted gets]. set (already := bool_decide _).
  assert (∃ m1 new, (if has_flag fl WRITABLE && negb (is_shared_mapping area) && negb share
     then VM_bind A F _ _ (λ _, mret (as_cow_flags fl)) (update_flags p page (as_cow_flags fl)) else mret fl) m = Some (new, m1) ∧ same_frames m m1)
    as (m1 & new & Heq & Hs1).
  { destruct (_ && _ && _); [|exists m, fl; split; [done|apply same_frames_refl]].
    unfold VM_bind, update_flags. rewrite Hp. do 2 eexists. split; [done|]. split; [done|]. intros k g gl Hk. cbn.
    destruct (decide (k = (p, page))) as [->|Hne]; [rewrite lookup_insert_eq, Hp in *; simplify_eq; by eexists|rewrite lookup_insert_ne by done; by eexists]. }
  unfold mbind, VM_bind in *. rewrite Heq. unfold map_to. destruct (m1.(m_ptes) !! (child, page)) eqn:Hc; [done|].
  set (m2 := with_ptes _ m1). assert (same_frames m1 m2) as Hs2.
  { split; [done|]. intros k g gl Hk. exists gl. cbn. rewrite lookup_insert_ne; [done|congruence]. }
  assert (child_maps p child (λ q, q = page) m m2) as Hm2.
  { split; [by eapply same_frames_trans|]. intros q g gl -> Hq _. rewrite Hp in Hq. simplify_eq. exists new. cbn. by rewrite lookup_insert_eq. }
  by destruct already.
Qed.

Lemma child_maps_trans p child P Q m1 m2 m3 : child_maps p child P m1 m2 → child_maps p child Q m2 m3 → child_maps p child (λ x, P x ∨ Q x) m1 m3.
Proof.
  intros [S1 C1] [S2 C2]. split; [by eapply same_frames_trans|]. intros page f fl [HP|HQ] Hk Hlt.
  - destruct (C1 page f fl HP Hk Hlt) as [fl' Hc]. by eapply S2.
  - destruct (proj2 S1 _ _ _ Hk) as [fl' Hk']. by eapply C2.
Qed.

Lemma child_maps_less p child (P Q : Z → Prop) m m' : (∀ page, Q page → P page) → child_maps p child P m m' → child_maps p child Q m m'.
Proof. intros HPQ [S C]. split; [done|]. intros page f fl HQ. by apply C, HPQ. Qed.

Lemma child_maps_for_each {X} p child (P : X → Z → Prop) (c : X → VM unit) xs m :
  (∀ x m, match c x m with Some (_, m') => child_maps p child (P x) m m' | None => True end) →
  match for_each xs c m with Some (_, m') => child_maps p child (λ page, ∃ x, x ∈ xs ∧ P x page) m m' | None => True end.
Proof.
  intros Hc. revert m. induction xs as [|x xs IH]; intros m; cbn.
  - split; [apply same_frames_refl|]. intros page f fl (x & Hx%elem_of_nil & _). done.
  - unfold mbind, VM_bind. specialize (Hc x m). destruct (c x m) as [[u m1]|]; [|done]. specialize (IH m1). destruct (for_each xs c m1) as [[u' m2]|]; [|done].
    eapply child_maps_less, child_maps_trans; [|exact Hc|exact IH]. cbn. intros page (y & [->|Hy]%elem_of_cons & HP); [by left|right; by exists y].
Qed.

Lemma clone_maps p child share m m' :
  clone_with_vm_sharing p child share m = Some (tt, m') →
  child_maps p child (λ page, ∃ a, a ∈ areas_of m p ∧ page ∈ clone_pages a) m m'.
Proof.
  unfold clone_with_vm_sharing, mbind, VM_bind, space, gets, modify. cbn. set (m1 := with_spaces _ m). intros Hc.
  pose proof (child_maps_for_each p child (λ a page, ∃ q, q ∈ clone_pages a ∧ page = q) (clone_area p child share)
    (default addrspace_default (m.(m_areas) !! p)).(memory_areas) m1) as Hf. rewrite Hc in Hf.
  assert (child_maps p child (λ page, ∃ a, a ∈ areas_of m p ∧ page ∈ clone_pages a) m1 m') as [S C].
  { eapply child_maps_less, Hf.
    - intros page (a & Ha & Hp). exists a. split; [exact Ha|]. by exists page.
    - intros a m2. rewrite clone_area_pages. apply child_maps_for_each. intros page m3. apply clone_page_maps. }
  split; [exact S|exact C].
Qed.
End fork.
