(* ===== verification/SysvShm.v ===== *)
(** * System V shared memory

    ipc/sysv_shm.rs: segments of frames in the table of SysvIpc, attached to address spaces
    of the machine of Vm as [SharedFrames].  A call takes the process, the table and the
    machine.  The frames of a segment are also in [m_held] of the machine, under its
    identifier.  [proc_sysvipc_shm_bytes], a text for /proc, is not modelled. *)

From S2P Require Import Prelude Errors Clock SysvIpc SignalData SparseFile AddrAreas Vm VmUser VmCalls.

Open Scope Z_scope.

(** ** Data *)

Definition SHM_RDONLY : Z := 4096.
Definition SHM_RND : Z := 8192.
Definition SHMLBA : Z := 4096.

Record LinuxShmidDs := mkShmidDs {
  shm_perm : LinuxIpcPerm; shm_segsz : Z; shm_atime : Z; shm_dtime : Z; shm_ctime : Z;
  shm_cpid : Z; shm_lpid : Z; shm_nattch : Z; shmid_pad1 : Z; shmid_pad2 : Z;
}.

Record ProcessShmMapping := mkShmMapping { shmid : Z; addr : Z; len : Z }.

Record SysvShmSegment := mkSegment {
  seg_namespace_inode : Z;
  seg_key : Z;
  size : Z;
  frames : list Z;
  seg_owner_uid : Z;
  seg_owner_gid : Z;
  seg_creator_uid : Z;
  seg_creator_gid : Z;
  seg_mode : Z;
  seq : Z;
  creator_pid : Z;
  last_pid : Z;
  attach_count : Z;
  atime : Z;
  dtime : Z;
  ctime : Z;
  marked_for_removal : bool;
}.

#[export] Instance SysvShmSegment_object : IpcObject SysvShmSegment := {
  namespace_inode := seg_namespace_inode;
  key := seg_key;
  owner_uid := seg_owner_uid;
  owner_gid := seg_owner_gid;
  creator_uid := seg_creator_uid;
  creator_gid := seg_creator_gid;
  mode := seg_mode;
  removed := marked_for_removal;
}.

Definition with_attach (count last_pid atime dtime : Z) (s : SysvShmSegment) : SysvShmSegment :=
  mkSegment s.(seg_namespace_inode) s.(seg_key) s.(size) s.(frames) s.(seg_owner_uid) s.(seg_owner_gid) s.(seg_creator_uid)
    s.(seg_creator_gid) s.(seg_mode) s.(seq) s.(creator_pid) last_pid count atime dtime s.(ctime) s.(marked_for_removal).

Definition with_removal (now : Z) (s : SysvShmSegment) : SysvShmSegment :=
  mkSegment s.(seg_namespace_inode) s.(seg_key) s.(size) s.(frames) s.(seg_owner_uid) s.(seg_owner_gid) s.(seg_creator_uid)
    s.(seg_creator_gid) s.(seg_mode) s.(seq) s.(creator_pid) s.(last_pid) s.(attach_count) s.(atime) s.(dtime) now true.

Abbreviation ShmTable := (Ipc SysvShmSegment).

Definition mapping_pages (len : Z) : Z := div_ceil len PAGE_SIZE.

(** [segment_allows_access] asks for the same bits as the other components. *)
Definition segment_allows_access (s : SysvShmSegment) (c : Credentials) (readonly : bool) : bool :=
  has_access s c (negb readonly).

Section shm.
Context {A F : Type} `{BuddyAllocator A} `{MappedFiles F}.
Abbreviation VM := (VM A F).
Abbreviation Call X := (VM (result SyscallError X)).
(** The bytes of the [repr(C)] record *)
Context (ds_bytes : LinuxShmidDs → list byte).

(** ** Frames of a segment *)

Fixpoint allocate_segment_frames (n : nat) (frames : list Z) : Call (list Z) :=
  match n with
  | O => mret (Ok frames)
  | S n =>
      frame ← allocate_frame;
      match frame with
      | None => fail SyscallError.NoMemory
      | Some frame => _ ← zero_frame frame; _ ← increase_ref frame; allocate_segment_frames n (frames ++ [frame])
      end
  end.

Definition hold (id : Z) (frames : list Z) : VM unit := modify (λ m, with_held (<[id := frames]> m.(m_held)) m).

Definition destroy_segment_locked (st : ShmTable) (id : Z) : VM ShmTable :=
  match st.(objects) !! id with
  | None => mret st
  | Some segment =>
      _ ← modify (λ m, with_held (delete id m.(m_held)) m);
      _ ← release_frames segment.(frames);
      mret (ipc_remove id st)
  end.

(** ** Attaching *)

(** [VirtAddr::new] panics for an address that is not canonical. *)
Definition attach_addr (p requested flags len : Z) : Call Z :=
  if requested =? 0 then mem ← fetch_user_mem p (mapping_pages len); mret (Ok mem)
  else if SysvIpc.has_flag flags SHM_RND then mret (Ok (Z.land requested (Z.lnot (SHMLBA - 1))))
  else if negb (requested mod PAGE_SIZE =? 0) then fail SyscallError.InvalidArguments
  else mret (Ok requested).

Definition complete_detach (p pid : Z) (mapping : ProcessShmMapping) (st : ShmTable) : VM ShmTable :=
  _ ← unmap p mapping.(addr) mapping.(len);
  match st.(objects) !! mapping.(shmid) with
  | None => mret st
  | Some segment =>
      let count := sat_sub segment.(attach_count) 1 in
      let segment := with_attach count pid segment.(atime) (now_seconds st) segment in
      let st := ipc_put mapping.(shmid) segment st in
      if segment.(marked_for_removal) && (count =? 0) then destroy_segment_locked st mapping.(shmid) else mret st
  end.

Definition inherit_forked_mappings (mappings : list ProcessShmMapping) (st : ShmTable) : ShmTable :=
  foldl (λ st mapping,
    match st.(objects) !! mapping.(shmid) with
    | None => st
    | Some s => ipc_put mapping.(shmid) (with_attach (Z.min (s.(attach_count) + 1) U64_MAX) s.(last_pid) s.(atime) s.(dtime) s) st
    end) st mappings.

Fixpoint detach_all_process_mappings (p pid : Z) (mappings : list ProcessShmMapping) (st : ShmTable) : VM ShmTable :=
  match mappings with
  | [] => mret st
  | mapping :: mappings => st ← complete_detach p pid mapping st; detach_all_process_mappings p pid mappings st
  end.

(** ** System calls *)

Definition shmget (c : Credentials) (k size shmflg : Z) (st : ShmTable) : VM (result SyscallError Z * ShmTable) :=
  let create := SysvIpc.has_flag shmflg IPC_CREAT in
  let exclusive := SysvIpc.has_flag shmflg IPC_EXCL in
  let mode := Z.land shmflg IPC_MODE_MASK in
  let ns := c.(cred_namespace) in
  match (if k =? IPC_PRIVATE then None else ipc_find ns k st) with
  | Some (id, existing) =>
      mret (if create && exclusive then Err SyscallError.FileAlreadyExists
            else if negb (size =? 0) && (existing.(SysvShm.size) <? size) then Err SyscallError.InvalidArguments
            else Ok id, st)
  | None =>
      if negb create && negb (k =? IPC_PRIVATE) then mret (Err SyscallError.FileNotFound, st)
      else if size =? 0 then mret (Err SyscallError.InvalidArguments, st)
      else
        allocated ← allocate_segment_frames (Z.to_nat (div_ceil size PAGE_SIZE)) [];
        match allocated with
        | Err e => mret (Err e, st)
        | Ok frames =>
            let '(id, st) := ipc_next_id st in
            let uid := c.(effective_uid) in
            let gid := c.(effective_gid) in
            let pid := c.(cred_pid) in
            let segment := mkSegment ns k size frames uid gid uid gid mode 0 pid pid 0 0 0 (now_seconds st) false in
            _ ← hold id frames;
            mret (Ok id, ipc_put id segment st)
        end
  end.

(** [arc]: the address of the new [SharedFrames]; the mappings of the process also change. *)
Definition shmat (p arc : Z) (c : Credentials) (id shmaddr shmflg : Z) (mappings : list ProcessShmMapping) (st : ShmTable)
  : VM (result SyscallError Z * list ProcessShmMapping * ShmTable) :=
  let fail e := mret (M := VM) (Err e, mappings, st) in
  if negb (Z.land shmflg (Z.lnot (Z.lor SHM_RDONLY SHM_RND)) =? 0) then fail SyscallError.InvalidArguments
  else
    match st.(objects) !! id with
    | None => fail SyscallError.InvalidArguments
    | Some segment =>
        if negb (segment.(seg_namespace_inode) =? c.(cred_namespace)) then fail SyscallError.InvalidArguments
        else
          let readonly := SysvIpc.has_flag shmflg SHM_RDONLY in
          if negb (segment_allows_access segment c readonly) then fail SyscallError.PermissionDenied
          else
            requested ← virt_addr shmaddr;
            address ← attach_addr p requested shmflg segment.(size);
            match address with
            | Err e => fail e
            | Ok address =>
                let pages := mapping_pages segment.(size) in
                let flags := Z.lor (Z.lor PRESENT USER_ACCESSIBLE) (if readonly then 0 else WRITABLE) in
                _ ← shared_frames_new arc segment.(frames);
                _ ← map_area p (area_new address pages flags (if readonly then PROT_READ else Z.lor PROT_READ PROT_WRITE)
                      (Data.Shared arc segment.(frames) 0) false);
                let mappings := mappings ++ [mkShmMapping id address (pages * PAGE_SIZE)] in
                let count := Z.min (segment.(attach_count) + 1) U64_MAX in
                mret (Ok address, mappings,
                      ipc_put id (with_attach count c.(cred_pid) (now_seconds st) segment.(dtime) segment) st)
            end
    end.

Definition shmdt (p pid shmaddr : Z) (mappings : list ProcessShmMapping) (st : ShmTable)
  : VM (result SyscallError Z * list ProcessShmMapping * ShmTable) :=
  address ← virt_addr shmaddr;
  match list_find (λ mapping, mapping.(addr) = address) mappings with
  | None => mret (Err SyscallError.InvalidArguments, mappings, st)
  | Some (index, mapping) =>
      st ← complete_detach p pid mapping st;
      mret (Ok 0, delete index mappings, st)
  end.

Definition shmid_ds (s : SysvShmSegment) : LinuxShmidDs :=
  mkShmidDs (mkIpcPerm s.(seg_key) s.(seg_owner_uid) s.(seg_owner_gid) s.(seg_creator_uid) s.(seg_creator_gid) s.(seg_mode) s.(seq) 0 0)
    s.(size) s.(atime) s.(dtime) s.(ctime) s.(creator_pid) s.(last_pid) s.(attach_count) 0 0.

Definition shmctl (p euid ns id cmd buf : Z) (st : ShmTable) : VM (result SyscallError Z * ShmTable) :=
  if cmd =? IPC_RMID then
    match st.(objects) !! id with
    | None => mret (Err SyscallError.InvalidArguments, st)
    | Some segment =>
        if negb (segment.(seg_namespace_inode) =? ns) then mret (Err SyscallError.InvalidArguments, st)
        else if not_owner segment euid then mret (Err SyscallError.PermissionDenied, st)
        else
          let segment := with_removal (now_seconds st) segment in
          let st := ipc_put id segment st in
          st ← (if segment.(attach_count) =? 0 then destroy_segment_locked st id else mret st);
          mret (Ok 0, st)
    end
  else if cmd =? IPC_STAT then
    if buf =? 0 then mret (Err SyscallError.BadAddress, st)
    else
      match st.(objects) !! id with
      | None => mret (Err SyscallError.InvalidArguments, st)
      | Some segment =>
          if negb (segment.(seg_namespace_inode) =? ns) then mret (Err SyscallError.InvalidArguments, st)
          else
            written ← user_safe_write_buffer p buf (ds_bytes (shmid_ds segment));
            mret (match written with Ok _ => Ok 0 | Err e => Err e end, st)
      end
  else mret (Err SyscallError.InvalidArguments, st).
End shm.
