(* ===== verification/VmHeld.v ===== *)
(** * Frames of shared memory segments

    Over VmFork and SysvShm: frames that a segment holds are counted, from [shmget] to the
    removal of the segment, and a mapping of them takes its own references. *)

From stdpp Require Import sets.
From S2P Require Import Prelude Errors Clock SysvIpc SignalData SparseFile AddrAreas Vm VmUser VmCalls SysvShm VmFrames VmKinds VmOps VmSteps VmAccess VmFork.

Open Scope Z_scope.

Section held.
Context {A F : Type} `{BuddyAllocatorLaws A free} `{MappedFiles F}.
Context (iso : bool).
Abbreviation VM := (VM A F).
Abbreviation Machine := (Machine A F).
Abbreviation sees := (vm_sees (free := free) iso).
Implicit Types m : Machine.

(** References in hand become those of an owner: the frames are counted, and their pages, if
    any, shared. *)
Lemma sees_give vw (frames ls xs : list Z) m m' :
  (∀ g, held m' g = occ g frames + held m g) →
  m'.(m_ptes) = m.(m_ptes) → m'.(m_areas) = m.(m_areas) → m'.(m_refs) = m.(m_refs) → m'.(m_alloc) = m.(m_alloc) → m'.(m_phys) = m.(m_phys) →
  arcs_ok m' → (∀ f, f ∈ frames → is_Some (m.(m_refs) !! f) ∧ (mapped m f = 0 ∨ 0 < held m f)) →
  sees vw ls (frames ++ xs) m → sees vw ls xs m'.
Proof.
  intros Hheld Hp Ha Hr Hal Hph Harcs Hfr ([Hf _ Hk] & Hv & Hpriv).
  assert (∀ g, mapped m' g = mapped m g) as Hmap by (intros g; unfold mapped; by rewrite Hp).
  assert (∀ g, total m' xs g = total m (frames ++ xs) g) as Htot by (intros g; unfold total; rewrite Hheld, occ_app, Hmap; lia).
  assert (∀ k, kind m' k = kind m k) as Hkind by (intros k; unfold kind, areas_of; by rewrite Ha).
  split_and!; [split; [|done|]|by eapply seen_same|intros Hi k Hvk; rewrite Hkind; by apply Hpriv].
  - destruct Hf as [F1 F2 F3 F4 F5 F6]. split; intros *; rewrite ?Htot, ?Hr; eauto; [|intros [? Hfree]; apply F3; split; [done|by rewrite <- Hal]].
    intros Hg. destruct (F2 _ Hg) as [Hh Hmm]. rewrite Hheld, Hmap, Hh. rewrite occ_app in Hmm.
    assert (occ f frames = 0) as Ho; [|lia]. pose proof (occ_nonneg f frames). destruct (decide (0 < occ f frames)) as [Hin%occ_pos|]; [|lia].
    destruct (Hfr f Hin) as [[c Hc] _]. congruence.
  - intros Hi. destruct (Hk Hi) as [K1 K2 K3 K4 K6]. split; intros *; rewrite ?Hkind, ?Hmap, ?Hp; eauto.
    intros He Hpos. rewrite Hheld in Hpos. destruct (decide (0 < occ f frames)) as [Hin%occ_pos|Hno].
    + destruct (Hfr f Hin) as [_ [Hz|Hpos']]; [pose proof (mapped_pos m k f fl He); lia|by eapply K3].
    + eapply K3; [done|]. pose proof (occ_nonneg f frames). lia.
Qed.

(** ** A segment is made *)

Definition counted_unmapped (frames : list Z) m : Prop := ∀ f, f ∈ frames → is_Some (m.(m_refs) !! f) ∧ mapped m f = 0.

Lemma sees_segment_frames vw n frames ls xs :
  hoare (λ m, sees vw ls (frames ++ xs) m ∧ counted_unmapped frames m) (allocate_segment_frames (A := A) (F := F) n frames)
    (λ r m, match r with Ok fs => sees vw ls (fs ++ xs) m ∧ counted_unmapped fs m | Err _ => True end).
Proof.
  revert frames. induction n as [|n IH]; intros frames; cbn [allocate_segment_frames]; [by intros m Hm|].
  eapply (hoare_bind _ (λ o m, match o with Some f => sees vw (f :: ls) (frames ++ xs) m ∧ counted_unmapped frames m | None => True end)).
  - intros m [Hm Hc]. pose proof (sees_must_allocate iso vw ls (frames ++ xs) m Hm) as Hal. pose proof (contents_allocate m) as Hk.
    assert (match must_allocate m with Some (_, m') => m'.(m_refs) = m.(m_refs) | None => True end) as Hr.
    { unfold must_allocate, allocate_frame, allocate_contiguous, mbind, VM_bind. destruct (normalized_pages 1); [|done]. by destruct (buddy_alloc _ _) as [[? ?]|]. }
    unfold must_allocate, mbind, VM_bind in Hal, Hk, Hr. destruct (allocate_frame m) as [[[f|] m']|]; [|done..].
    split; [done|]. destruct Hk as [[Hp _] _]. intros g Hg. unfold mapped. cbn in Hr. rewrite Hr, Hp. by apply Hc.
  - intros [f|]; [|by intros m _]. eapply (hoare_bind _ (λ _ m, sees vw (f :: ls) (frames ++ xs) m ∧ counted_unmapped frames m)).
    { intros m [Hm Hc]. split; [|done]. apply (sees_zero_loose iso vw f (f :: ls) (frames ++ xs) ltac:(left) m Hm). }
    intros u. eapply hoare_bind; [|intros u1; apply IH]. intros m [(Hm & Hv & Hk) Hc].
    pose proof (hoare_increase (free := free) f (f :: ls) ls (frames ++ xs) ltac:(by right) m) as Hinc. cbn in Hinc.
    destruct (frames_ok_loose m ls (frames ++ xs) f (vm_frames _ _ _ _ Hm)) as (_ & _ & _ & _ & _ & Hm0 & _).
    destruct Hinc as [Hok Hs]; [split; [apply Hm|]; intros Heq; exfalso; apply (f_equal length) in Heq; cbn in Heq; lia|].
    cbn. set (m1 := with_refs _ m) in *. split.
    + split; [|by split]. eapply (vm_ok_same _ m m1); [done| |exact Hm]. eapply frames_ok_perm; [done| |exact Hok].
      rewrite <- app_assoc. by rewrite (Permutation_middle frames xs f).
    + intros g Hg. unfold m1. fold_uses. cbn. apply elem_of_app in Hg as [Hg|Hg%list_elem_of_singleton].
      * destruct (Hc g Hg) as [[c Hcg] ?]. split; [|done]. destruct (decide (g = f)) as [->|Hne]; [rewrite lookup_insert_eq; by eexists|].
        rewrite lookup_insert_ne by done. by exists c.
      * subst g. rewrite lookup_insert_eq. split; [by eexists|done].
Qed.

Lemma counted_unmapped_nil m : counted_unmapped [] m.
Proof. by intros f Hf%elem_of_nil. Qed.

Lemma segment_frames_held n frames m :
  match allocate_segment_frames n frames m with Some (_, m') => m'.(m_held) = m.(m_held) | None => True end.
Proof.
  revert frames m. induction n as [|n IH]; intros frames m; [done|]. cbn [allocate_segment_frames]. unfold mbind, VM_bind.
  assert (match allocate_frame m with Some (_, m') => m'.(m_held) = m.(m_held) | None => True end) as Ha.
  { unfold allocate_frame, allocate_contiguous. destruct (normalized_pages 1); [|done]. by destruct (buddy_alloc _ _) as [[? ?]|]. }
  destruct (allocate_frame m) as [[[f|] m']|]; [|done..]. cbn.
  set (m2 := with_refs _ _). specialize (IH (frames ++ [f]) m2). destruct (allocate_segment_frames n (frames ++ [f]) m2) as [[r m3]|]; [|done].
  rewrite IH. exact Ha.
Qed.

Lemma held_segment m id fs f : m.(m_held) !! id = Some fs → f ∈ fs → 0 < held m f.
Proof.
  intros Hid Hf. unfold held, held_frames. rewrite occ_pos, !elem_of_app. right. right. unfold frames_of. rewrite list_elem_of_In, in_concat.
  exists fs. split; [|by apply list_elem_of_In]. apply in_map_iff. exists (id, fs). split; [done|]. by apply list_elem_of_In, elem_of_map_to_list.
Qed.

Lemma held_insert m id frames g : m.(m_held) !! id = None →
  held (with_held (<[id := frames]> m.(m_held)) m) g = occ g frames + held m g.
Proof. intros Hid. unfold held, held_frames. cbn. rewrite !occ_app, frames_of_insert by done. lia. Qed.

Lemma sees_hold vw id frames ls xs :
  hoare (λ m, (sees vw ls (frames ++ xs) m ∧ counted_unmapped frames m) ∧ m.(m_held) !! id = None) (hold (A := A) (F := F) id frames) (λ _, sees vw ls xs).
Proof.
  intros m [[Hm Hc] Hid]. unfold hold, modify. eapply (sees_give vw frames ls xs m); try done.
  - intros g. by apply held_insert.
  - by apply (arcs_same_areas m); [..|apply Hm].
  - intros f Hf. destruct (Hc f Hf). auto.
Qed.

(** ** A segment goes *)

Lemma sees_take_held vw id frames ls xs :
  hoare (λ m, sees vw ls xs m ∧ m.(m_held) !! id = Some frames) (modify (λ m, with_held (delete id m.(m_held)) m)) (λ _, sees vw ls (frames ++ xs)).
Proof.
  intros m [([Hf [A1 A2 A3] Hk] & Hv & Hp) Hid]. cbn. set (m' := with_held _ m).
  assert (∀ g, held m g = occ g frames + held m' g) as Hheld.
  { intros g. unfold held, held_frames, m'. cbn. rewrite !occ_app, (frames_of_delete _ id frames) by done. lia. }
  assert (∀ g, total m' (frames ++ xs) g = total m xs g) as Htot.
  { intros g. unfold total. rewrite Hheld, occ_app. change (mapped m' g) with (mapped m g). lia. }
  split_and!; [|done|done]. split; [|done|].
  - destruct Hf as [F1 F2 F3 F4 F5 F6]. split; [intros g; rewrite Htot; apply F1| |intros g; rewrite Htot; apply F3|intros g; rewrite Htot; apply F4|done|intros g; rewrite Htot; apply F6].
    intros g Hg. destruct (F2 g Hg) as [Hh Hmm]. rewrite Hheld in Hh. pose proof (occ_nonneg g frames). pose proof (total_nonneg m' [] g).
    rewrite occ_app. change (mapped m' g) with (mapped m g). lia.
  - intros Hi. destruct (Hk Hi) as [K1 K2 K3 K4 K6]. split; try done. intros k f fl He Hpos. apply (K3 k f fl He).
    rewrite Hheld. pose proof (occ_nonneg f frames). lia.
Qed.

(** ** Attaching *)

Lemma increase_counted_all vw frames ls xs :
  hoare (λ m, sees vw ls xs m ∧ ∀ f, f ∈ frames → 0 < held m f) (for_each frames increase_ref)
    (λ _ m, sees vw ls (frames ++ xs) m ∧ ∀ f, f ∈ frames → is_Some (m.(m_refs) !! f) ∧ 0 < held m f).
Proof.
  assert (∀ (rest : list Z) m, (∀ f, f ∈ rest → 0 < held m f) → ∀ ls xs, sees vw ls xs m → ∀ f, f ∈ rest → is_Some (m.(m_refs) !! f)) as Hsome.
  { intros rest m Hh ls' xs' ([Hf _ _] & _) f Hin. destruct (m.(m_refs) !! f) eqn:Hr; [by eexists|]. destruct (fo_uncounted _ _ _ _ Hf f Hr). specialize (Hh f Hin). lia. }
  assert (∀ rest done_ m, sees vw ls (done_ ++ xs) m → (∀ f, f ∈ rest → 0 < held m f) →
    match for_each rest increase_ref m with Some (_, m') => sees vw ls (rest ++ done_ ++ xs) m' ∧ ∀ f, held m' f = held m f | None => True end) as Hall.
  { induction rest as [|f rest IH]; intros done_ m Hm Hh; cbn; [done|]. unfold mbind, VM_bind.
    pose proof (hoare_increase (free := free) f ls ls (done_ ++ xs) ltac:(by left) m) as Hinc. cbn in Hinc.
    assert (is_Some (m.(m_refs) !! f)) as Hs by (eapply (Hsome (f :: rest)); [done|exact Hm|left]).
    destruct Hinc as [Hok _]; [by split; [apply Hm|]|]. destruct Hm as (Hm & Hv & Hk). set (m1 := with_refs _ m) in *.
    assert (sees vw ls ((f :: done_) ++ xs) m1) as Hm1 by (split; [by eapply (vm_ok_same _ m m1)|by split]).
    specialize (IH (f :: done_) m1 Hm1). change (increase_ref f m) with (Some (tt, m1)). cbn.
    destruct (for_each rest increase_ref m1) as [[u m2]|]; [|done]. destruct IH as [Hm2 Hh2]; [intros g Hg; unfold m1; fold_uses; apply Hh; by right|].
    split; [|exact Hh2]. destruct Hm2 as ([Hf2 Ha2 Hk2] & Hv2). split; [|done]. split; [|done..]. eapply frames_ok_perm; [done| |exact Hf2].
    cbn. by rewrite <- (Permutation_middle rest (done_ ++ xs) f). }
  intros m [Hm Hh]. specialize (Hall frames [] m Hm Hh). destruct (for_each frames increase_ref m) as [[u m']|]; [|done]. destruct Hall as [Hm' Hh'].
  split; [exact Hm'|]. intros f Hf. rewrite Hh'. split; [|by apply Hh]. eapply (Hsome frames); [intros g Hg; rewrite Hh'; by apply Hh|exact Hm'|done].
Qed.

(** The frames of a segment become those of a new [SharedFrames] object too. *)
Lemma sees_attach_frames vw arc frames ls xs :
  hoare (λ m, (sees vw ls xs m ∧ ∀ f, f ∈ frames → 0 < held m f) ∧ m.(m_shared) !! arc = None) (shared_frames_new arc frames) (λ _, sees vw ls xs).
Proof.
  unfold shared_frames_new. eapply (hoare_bind _ (λ _ m, (sees vw ls (frames ++ xs) m ∧ ∀ f, f ∈ frames → is_Some (m.(m_refs) !! f) ∧ 0 < held m f) ∧ m.(m_shared) !! arc = None)).
  - intros m [Hm Harc]. pose proof (increase_counted_all vw frames ls xs m Hm) as Hinc.
    assert (∀ m', match for_each frames increase_ref m' with Some (_, m2) => m2.(m_shared) = m'.(m_shared) | None => True end) as Hsame.
    { clear. induction frames as [|h frames IH]; intros m'; cbn; [done|]. unfold mbind, VM_bind. cbn.
      exact (IH (with_refs (<[h := default 0 (m'.(m_refs) !! h) + 1]> m'.(m_refs)) m')). }
    specialize (Hsame m). destruct (for_each frames increase_ref m) as [[u m']|]; [|done]. by rewrite Hsame.
  - intros u m [[Hm Hc] Harc]. cbn. eapply (sees_give vw frames ls xs m); try done.
    + intros g. unfold held, held_frames. cbn. rewrite !occ_app, frames_of_insert by done. lia.
    + destruct Hm as ([_ [A1 A2 A3] _] & _). split; [done| |done]. intros p a arc' fr' fl Ha Hd. cbn. pose proof (A2 p a arc' fr' fl Ha Hd). rewrite lookup_insert_ne; [done|congruence].
    + intros f Hf. destruct (Hc f Hf). auto.
Qed.
End held.
