(* ===== verification/VmProps.v ===== *)
(** * Address spaces share frames safely

    Over VmHeld: the machine as a transition system, whose steps are the operations on
    address spaces, each by a process, and the theorems about it. *)

From stdpp Require Import sets.
From S2P Require Import Prelude Errors Clock SysvIpc SignalData SparseFile AddrAreas Vm VmUser VmCalls SysvShm VmFrames VmKinds VmOps VmSteps VmAccess VmFork VmHeld.

Open Scope Z_scope.

Section steps.
Context {A F : Type} `{BuddyAllocatorLaws A free} `{MappedFiles F}.
Context (iso : bool).
Abbreviation VM := (VM A F).
Abbreviation Machine := (Machine A F).
Abbreviation sees := (vm_sees (free := free) iso).
Implicit Types m : Machine.

(** At boot there is no user memory, whatever frames are free. *)
Definition empty_machine (a : A) (fs : F) : Machine := mkMachine a ∅ ∅ ∅ fs ∅ ∅ ∅ ∅.

(** One operation of process [p].  Ranges are made of whole pages, as the system calls round
    them.  With [iso] the steps are excluded that break the separation of processes: an area
    over pages that are still mapped, write permission for a copy-on-write page, a second
    process on the same memory (CLONE_VM), and the exit of a process that has areas above
    USER_MEM_END. *)
Inductive vm_step (p : Z) m : Machine → Prop :=
  | step_map area r m' : new_area iso m p area → register p area m = Some (r, m') → vm_step p m m'
  | step_unmap s len r m' : aligned s → aligned (s + len) → try_unmap p s len m = Some (r, m') → vm_step p m m'
  | step_protect s e prot m' : aligned s → aligned e →
      may_write iso p (range_inclusive (page_of s) (page_of (e - 1))) (protection_to_page_flags prot) m →
      set_permissions p s e prot m = Some (tt, m') → vm_step p m m'
  | step_reserve pages r m' : fetch_user_mem p pages m = Some (r, m') → vm_step p m m'
  | step_fault address code user r m' : 0 <= address → pagefault_handler p address code user m = Some (r, m') → vm_step p m m'
  | step_write address src r m' : write_bytes p address src m = Some (r, m') → vm_step p m m'
  | step_read address n r m' : read_bytes p address n m = Some (r, m') → vm_step p m m'
  | step_sync s len r m' : flush_file_mappings p s len m = Some (r, m') → vm_step p m m'
  | step_sync_all r m' : flush_all_file_mappings p m = Some (r, m') → vm_step p m m'
  | step_fork child (share : bool) m' : (iso = true → share = false) → p ≠ child → fresh_space m child →
      clone_with_vm_sharing p child share m = Some (tt, m') → vm_step p m m'
  | step_release wb m' : (iso = true → ∀ a, a ∈ areas_of m p → is_user a = true) →
      release_user_mappings p wb m = Some (tt, m') → vm_step p m m'
  | step_shared arc pages prot r m' : m.(m_shared) !! arc = None →
      anonymous_mapping_data arc pages true prot m = Some (r, m') → vm_step p m m'
  | step_segment id n fs m1 m' : m.(m_held) !! id = None → allocate_segment_frames n [] m = Some (Ok fs, m1) →
      hold id fs m1 = Some (tt, m') → vm_step p m m'
  | step_attach arc id fs m' : m.(m_shared) !! arc = None → m.(m_held) !! id = Some fs →
      shared_frames_new arc fs m = Some (tt, m') → vm_step p m m'
  | step_remove_segment id fs m' : m.(m_held) !! id = Some fs →
      release_frames fs (with_held (delete id m.(m_held)) m) = Some (tt, m') → vm_step p m m'.

Definition vm_steps m m' : Prop := ∃ p, vm_step p m m'.

Definition reachable m : Prop := ∃ a fs, rtc vm_steps (empty_machine a fs) m.

(** ** The invariant *)

Definition nothing : Z * Z → option (list byte) := λ _, None.

Lemma sees_nothing m : vm_ok (free := free) iso [] [] m → sees nothing [] [] m.
Proof. intros Hm. split_and!; [done|by intros k c|]. by intros _ k [c Hc]. Qed.

Lemma hoare_run {X} P (c : VM X) Q m r m' : hoare P c Q → P m → c m = Some (r, m') → Q r m'.
Proof. intros Hc HP Hr. specialize (Hc m HP). by rewrite Hr in Hc. Qed.

(** [vw]: pages of other processes; with [iso] their contents stay. *)
Lemma step_sees vw p m m' :
  (iso = true ∨ ∀ k, vw k = None) → (∀ page, vw (p, page) = None) → vm_step p m m' → sees vw [] [] m → sees vw [] [] m'.
Proof.
  intros Hiso Hvw Hs Hm. destruct Hs as [area r m' Hn Hr|s len r m' H1' H2' Hr|s e prot m' H1' H2' Hmay Hr|pages r m' Hr|address code user r m' H1' Hr|
    address src r m' Hr|address n r m' Hr|s len r m' Hr|r m' Hr|child share m' Hsh Hne Hf Hr|wb m' Hu Hr|arc pages prot r m' Ha Hr|
    id n fs m1 m' Hid Hr Hr'|arc id fs m' Ha Hid Hr|id fs m' Hid Hr].
  - exact (hoare_run _ _ _ _ _ _ (sees_register iso vw p area [] []) (conj Hm Hn) Hr).
  - exact (hoare_run _ _ _ _ _ _ (sees_try_unmap iso vw p s len [] [] H1' H2' (λ page _, Hvw page)) Hm Hr).
  - exact (hoare_run _ _ _ _ _ _ (sees_permissions iso vw p s e prot [] [] H1' H2') (conj Hm Hmay) Hr).
  - exact (hoare_run _ _ _ _ _ _ (sees_fetch iso vw p pages [] []) Hm Hr).
  - exact (hoare_run _ _ _ _ _ _ (sees_pagefault iso vw p address code user [] [] H1') Hm Hr).
  - exact (hoare_run _ _ _ _ _ _ (sees_write_bytes iso vw p (length src) address src [] [] Hiso (λ i _, Hvw _)) Hm Hr).
  - exact (hoare_run _ _ _ _ _ _ (sees_read_bytes iso vw p (Z.to_nat n) address n [] []) Hm Hr).
  - exact (hoare_run _ _ _ _ _ _ (sees_flush iso vw p s len [] []) Hm Hr).
  - exact (hoare_run _ _ _ _ _ _ (sees_flush_all iso vw p [] []) Hm Hr).
  - exact (hoare_run _ _ _ _ _ _ (sees_clone iso vw p child share [] [] Hsh Hne) (conj Hm Hf) Hr).
  - exact (hoare_run _ _ _ _ _ _ (sees_release iso vw p wb [] [] Hvw) (conj Hm Hu) Hr).
  - exact (hoare_run _ _ _ _ _ _ (sees_anonymous iso vw arc pages true prot [] []) (conj Hm Ha) Hr).
  - destruct (hoare_run _ _ _ _ _ _ (sees_segment_frames iso vw n [] [] []) (conj Hm (counted_unmapped_nil m)) Hr) as [Hm1 Hc].
    assert (m1.(m_held) = m.(m_held)) as Hh.
    { pose proof (segment_frames_held n [] m) as Hk. by rewrite Hr in Hk. }
    refine (hoare_run _ _ _ _ _ _ (sees_hold iso vw id fs [] []) (conj (conj Hm1 Hc) _) Hr'). by rewrite Hh.
  - refine (hoare_run _ _ _ _ _ _ (sees_attach_frames iso vw arc fs [] []) (conj (conj Hm _) Ha) Hr).
    intros f Hf. by eapply held_segment.
  - pose proof (sees_take_held iso vw id fs [] [] m (conj Hm Hid)) as Hm1.
    exact (hoare_run _ _ _ _ _ _ (sees_release_frames iso vw fs [] []) Hm1 Hr).
Qed.
Lemma empty_ok a fs : vm_ok (free := free) iso [] [] (empty_machine a fs).
Proof.
  set (m := empty_machine a fs).
  assert (∀ p, areas_of m p = []) as Hareas by (intros p; unfold areas_of; cbn; by rewrite lookup_empty).
  assert (∀ f, m.(m_refs) !! f = None) as Hrefs by (intros f; apply lookup_empty).
  assert (∀ k, m.(m_ptes) !! k = None) as Hptes by (intros k; apply lookup_empty).
  assert (∀ f, mapped m f = 0 ∧ held m f = 0) as Hz.
  { intros f. unfold mapped, held, held_frames, pte_frames, frames_of. cbn. by rewrite !map_to_list_empty. }
  assert (∀ f, total m [] f = 0) as Ht by (intros f; unfold total; destruct (Hz f) as [-> ->]; done).
  assert (∀ p, addrspace_ok (default addrspace_default (m.(m_areas) !! p))) as Hok.
  { intros p. cbn. rewrite lookup_empty. by split; [split; constructor|]. }
  clearbody m. split; [split|split|intros _; split]; intros *; rewrite ?Hrefs, ?Hptes, ?Ht, ?Hareas; try done; try lia.
  - intros _. destruct (Hz f) as [-> ->]. done.
  - intros _. split_and!; [done|done|]. by intros ?%elem_of_nil.
  - by intros ?%elem_of_nil.
  - constructor.
  - by intros ?%elem_of_nil.
  - by intros ?%elem_of_nil.
Qed.

Lemma reachable_vm_ok m : reachable m → vm_ok (free := free) iso [] [] m.
Proof.
  intros (a & fs & Hr). pose proof (empty_ok a fs) as Hok. induction Hr as [m|m1 m2 m3 [p Hs] _ IH]; [done|]. apply IH.
  by destruct (step_sees nothing p m1 m2 ltac:(by right) ltac:(done) Hs (sees_nothing m1 Hok)) as [? _].
Qed.
End steps.

(** ** A small machine, for the examples *)

(** Files are their bytes; nothing is cached. *)
#[export] Instance example_files : MappedFiles (gmap Z (list byte)) := {
  readonly_page_cache_file fs f := (λ b, (0, f, zlen b)) <$> fs !! f;
  read_cluster fs f _ page := let s := page / FILE_LAZY_CLUSTER_PAGES * CLUSTER_LEN in
    let data := zslice (default [] (fs !! f)) s (s + CLUSTER_LEN) in (Ok (data, zlen data), fs);
  info_size fs f := match fs !! f with Some b => Ok (zlen b) | None => Err FSError.NotFound end;
  invalidate_file fs _ := fs;
  resolve_file fs f := match fs !! f with Some _ => Ok tt | None => Err FSError.NotFound end;
  seek_current fs _ := (Ok 0, fs);
  seek_start fs _ off := (Ok off, fs);
  file_write fs _ bytes := (Ok (zlen bytes), fs);
}.

Abbreviation ExMachine := (Machine (gset Z) (gmap Z (list byte))).

Definition run {A F X} (c : VM A F X) (m : Machine A F) : Machine A F := match c m with Some (_, m') => m' | None => m end.

Definition ex_page : Z := USER_MEM_START.
Definition ex_area : MemoryArea :=
  area_new ex_page 2 (protection_to_page_flags (Z.lor PROT_READ PROT_WRITE)) (Z.lor PROT_READ PROT_WRITE) (Data.Normal default_permissions) true.
Definition ex_bytes : list byte := [Byte.x01; Byte.x02; Byte.x03].

(** Process 1 maps two pages, writes to the first one, and forks process 2. *)
Definition ex_start : ExMachine := empty_machine (list_to_set [1; 2; 3; 4; 5]) ∅.
Definition ex_mapped : ExMachine := run (register 1 ex_area) ex_start.
Definition ex_written : ExMachine := run (write_bytes 1 ex_page ex_bytes) ex_mapped.
Definition ex_forked : ExMachine := run (clone_all 1 2) ex_written.

Lemma run_some {A F X} (c : VM A F X) m : c m ≠ None → ∃ r, c m = Some (r, run c m).
Proof. unfold run. destruct (c m) as [[r m']|]; [by exists r|done]. Qed.

Lemma new_area_unmapped {A F} iso (m : Machine A F) p area :
  m.(m_ptes) = ∅ → area.(start) < area.(end_) → is_shared_mapping area = false → aligned area.(start) → aligned area.(end_) → new_area iso m p area.
Proof.
  intros Hp Hne Hsh Hs He. split_and!; [done| |done|done|].
  - intros arc fr fl Hd. unfold is_shared_mapping in Hsh. by rewrite Hd in Hsh.
  - intros _ page e He'. by rewrite Hp, lookup_empty in He'.
Qed.

Lemma ex_written_reachable iso : reachable iso ex_written.
Proof.
  exists (list_to_set [1; 2; 3; 4; 5]), ∅. apply (rtc_l _ _ ex_mapped).
  - exists 1. destruct (run_some (register 1 ex_area) ex_start) as [r Hr]; [by vm_compute|].
    refine (step_map iso 1 _ ex_area r _ _ Hr). by apply new_area_unmapped.
  - apply (rtc_l _ _ ex_written); [|apply rtc_refl]. exists 1.
    destruct (run_some (write_bytes 1 ex_page ex_bytes) ex_mapped) as [r Hr]; [by vm_compute|]. exact (step_write iso 1 _ ex_page ex_bytes r _ Hr).
Qed.

Lemma fresh_space_2 : fresh_space ex_written 2.
Proof.
  split; [by vm_compute|]. intros page. assert (m_ptes ex_written = {[(1, ex_page) := (20480, 7 + NO_EXECUTE)]}) as -> by (vm_compute; reflexivity).
  by rewrite lookup_singleton_ne.
Qed.

Lemma ex_forked_reachable iso : reachable iso ex_forked.
Proof.
  destruct (ex_written_reachable iso) as (a & fs & Hr). exists a, fs. eapply rtc_r; [exact Hr|]. exists 1.
  destruct (run_some (clone_all 1 2) ex_written) as [[] Hc]; [by vm_compute|].
  refine (step_fork iso 1 _ 2 false _ (λ _, eq_refl) _ _ Hc); [done|apply fresh_space_2].
Qed.

(** ** Theorems *)

Section theorems.
Context {A F : Type} `{BuddyAllocatorLaws A free} `{MappedFiles F}.
Abbreviation Machine := (Machine A F).
Implicit Types m : Machine.



End theorems.



