(* ===== verification/VmRoundtrip.v ===== *)
(** * What a process writes it reads back

    Over VmProps: bytes written to private memory are what a later read returns, whatever
    pages the write applies or copies on the way. *)

From stdpp Require Import sets.
From S2P Require Import Prelude Errors Clock SysvIpc SignalData SparseFile AddrAreas Vm VmUser VmCalls SysvShm VmFrames VmKinds VmOps VmSteps VmAccess VmFork VmHeld VmProps.

Open Scope Z_scope.

(** ** The area lists stay *)

Section lists.
Context {A F : Type} `{BuddyAllocator A} `{MappedFiles F}.
Abbreviation VM := (VM A F).
Implicit Types m : Machine A F.

Definition keeps_lists {X} (c : VM X) : Prop :=
  ∀ m, match c m with Some (_, m') => ∀ q, areas_of m' q = areas_of m q | None => True end.

Lemma lists_bind {X Y} (c : VM X) (k : X → VM Y) : keeps_lists c → (∀ x, keeps_lists (k x)) → keeps_lists (mbind k c).
Proof.
  intros Hc Hk m. specialize (Hc m). unfold mbind, VM_bind. destruct (c m) as [[x m1]|]; [|done]. specialize (Hk x m1).
  destruct (k x m1) as [[y m2]|]; [|done]. intros q. by rewrite Hk.
Qed.

Lemma lists_same {X} (c : VM X) : (∀ m, match c m with Some (_, m') => m'.(m_areas) = m.(m_areas) | None => True end) → keeps_lists c.
Proof. intros Hc m. specialize (Hc m). destruct (c m) as [[x m']|]; [|done]. intros q. unfold areas_of. by rewrite Hc. Qed.

Lemma lists_allocate : keeps_lists must_allocate.
Proof. apply lists_same. intros m. pose proof (contents_allocate m) as Hk. destruct (must_allocate m) as [[f m']|]; [|done]. by destruct Hk as [(_ & ? & _) _]. Qed.

Lemma lists_contents {X} (c : VM X) : keeps_contents c → keeps_lists c.
Proof. intros Hc. apply lists_same. intros m. specialize (Hc m). destruct (c m) as [[f m']|]; [|done]. by destruct Hc as [(_ & ? & _) _]. Qed.

Lemma lists_map_to p page f fl : keeps_lists (map_to p page f fl).
Proof. apply lists_same. intros m. unfold map_to. by destruct (m.(m_ptes) !! _). Qed.

Lemma lists_unmap_page p page : keeps_lists (unmap_page p page).
Proof. apply lists_same. intros m. unfold unmap_page. by destruct (m.(m_ptes) !! _) as [[f fl]|]. Qed.

Lemma lists_update_flags p page fl : keeps_lists (update_flags p page fl).
Proof. apply lists_same. intros m. unfold update_flags. by destruct (m.(m_ptes) !! _) as [[f fl']|]. Qed.

Lemma lists_for_each {X} (xs : list X) (c : X → VM unit) : (∀ x, keeps_lists (c x)) → keeps_lists (for_each xs c).
Proof. intros Hc. induction xs; cbn; [by intros m|]. by apply lists_bind. Qed.

Lemma lists_find_area p addr : keeps_lists (find_area p addr).
Proof.
  intros m. unfold find_area, mbind, VM_bind, space, gets, modify. set (st := default addrspace_default _).
  assert ((get_area st addr).2.(memory_areas) = st.(memory_areas)) as Hsame.
  { unfold get_area. destruct (_ ≫= _); [done|]. by destruct (search_area _ _ _ _ _) as [[i|]|]. }
  destruct (get_area st addr) as [r st']. cbn in *. intros q. unfold areas_of. cbn.
  destruct (decide (q = p)) as [->|Hne]; [by rewrite lookup_insert_eq|by rewrite lookup_insert_ne].
Qed.

Ltac keeps_lists_tac := repeat first
  [ apply lists_allocate | apply lists_map_to | apply lists_unmap_page | apply lists_update_flags
  | apply lists_find_area | apply lists_contents; first [apply contents_on_files|apply contents_drop_ref|apply contents_take_exclusive]
  | case_match | apply lists_bind; [|intros ?] | by intros ? ].

Lemma lists_alloc_map p page area z : keeps_lists (alloc_map_zeroed_page p page area z).
Proof. unfold alloc_map_zeroed_page. keeps_lists_tac. Qed.

Lemma lists_get_or_load file id off len : keeps_lists (get_or_load_shared_file_frame file id off len).
Proof. unfold get_or_load_shared_file_frame, alloc_zeroed_frame. keeps_lists_tac. Qed.

Lemma lists_copy_cached file id off len f : keeps_lists (copy_cached_file_page file id off len f).
Proof. unfold copy_cached_file_page. keeps_lists_tac. Qed.

Lemma lists_apply_file_pages p pages area offset n file shared id first : keeps_lists (apply_file_pages p pages area offset n file shared id first).
Proof.
  revert first. induction pages as [|page pages IH]; intros first; cbn; [by intros m|]. apply lists_bind; [|intros f; apply IH].
  unfold apply_file_page, map_existing_frame. apply lists_bind; [by intros m|]. intros [e|]; [by intros m|]. apply lists_bind; [apply lists_get_or_load|].
  intros r. keeps_lists_tac.
Qed.

Lemma lists_apply_cluster p page area n : keeps_lists (apply_page_cluster p page area n).
Proof.
  unfold apply_page_cluster, map_existing_frame. destruct area.(data); [apply lists_alloc_map| |keeps_lists_tac].
  apply lists_bind; [by intros m|]. intros [id|]; [|by intros m]. apply lists_bind; [apply lists_apply_file_pages|]. intros f. keeps_lists_tac.
Qed.

Lemma lists_ensure_writable p addr len : keeps_lists (ensure_user_page_writable p addr len).
Proof. unfold ensure_user_page_writable. keeps_lists_tac; apply lists_apply_cluster. Qed.

Lemma lists_write_bytes fuel p addr src : keeps_lists (write_bytes_loop fuel p addr src).
Proof.
  revert addr src. induction fuel as [|fuel IH]; intros addr [|b src]; [by intros m..|]. cbn [write_bytes_loop]. apply lists_bind.
  - intros m. unfold virt_addr. by destruct (canonical addr).
  - intros v. apply lists_bind; [apply lists_ensure_writable|]. intros w. destruct (negb w); [by intros m|]. apply lists_bind; [by intros m|].
    intros [[f fl]|]; [|by intros m]. apply lists_bind; [by intros m|]. intros u. apply IH.
Qed.
End lists.

(** ** Frames are pages *)

Section full.
Context {A F : Type} `{BuddyAllocator A} `{MappedFiles F}.
Abbreviation VM := (VM A F).
Implicit Types m : Machine A F.

Definition full m : Prop := ∀ f, zlen (frame_bytes m f) = PAGE_SIZE.

Definition keeps_full {X} (c : VM X) : Prop := hoare full c (λ _, full).

Lemma full_bind {X Y} (c : VM X) (k : X → VM Y) : keeps_full c → (∀ x, keeps_full (k x)) → keeps_full (mbind k c).
Proof. intros Hc Hk. by eapply hoare_bind. Qed.

Lemma full_phys {X} (c : VM X) : (∀ m, match c m with Some (_, m') => m'.(m_phys) = m.(m_phys) | None => True end) → keeps_full c.
Proof.
  intros Hc m Hm. specialize (Hc m). destruct (c m) as [[x m']|]; [|done]. intros f. unfold frame_bytes. rewrite Hc. apply Hm.
Qed.

Lemma full_contents {X} (c : VM X) : keeps_contents c → keeps_full c.
Proof. intros Hc. apply full_phys. intros m. specialize (Hc m). destruct (c m) as [[x m']|]; [|done]. by destruct Hc. Qed.

Lemma full_modify (g : Machine A F → Machine A F) : (∀ m, (g m).(m_phys) = m.(m_phys)) → keeps_full (modify g).
Proof. intros Hg. by apply full_phys. Qed.

Lemma full_set f (v : list byte) m : zlen v = PAGE_SIZE → full m → full (with_phys (<[f := v]> m.(m_phys)) m).
Proof.
  intros Hv Hm g. unfold frame_bytes. cbn. destruct (decide (g = f)) as [->|Hne]; [by rewrite lookup_insert_eq|rewrite lookup_insert_ne by done; apply Hm].
Qed.

Lemma full_zero f : keeps_full (zero_frame f).
Proof. intros m Hm. by apply full_set. Qed.

Lemma full_copy f g : keeps_full (copy_frame f g).
Proof. intros m Hm. apply full_set; [apply Hm|done]. Qed.

Lemma full_write f off bytes : 0 <= off → off + zlen bytes <= PAGE_SIZE → keeps_full (write_frame f off bytes).
Proof. intros Ho Hl m Hm. apply full_set; [|done]. rewrite zlen_zsplice; [apply Hm|done|by rewrite Hm]. Qed.

Lemma full_allocate : keeps_full allocate_frame.
Proof.
  apply full_phys. intros m. unfold allocate_frame, allocate_contiguous. destruct (normalized_pages 1); [|done]. by destruct (buddy_alloc _ _) as [[? ?]|].
Qed.

Lemma full_map_to p page f fl : keeps_full (map_to p page f fl).
Proof. apply full_phys. intros m. unfold map_to. by destruct (m.(m_ptes) !! _). Qed.

Lemma full_unmap_page p page : keeps_full (unmap_page p page).
Proof. apply full_phys. intros m. unfold unmap_page. by destruct (m.(m_ptes) !! _) as [[f fl]|]. Qed.

Lemma full_update_flags p page fl : keeps_full (update_flags p page fl).
Proof. apply full_phys. intros m. unfold update_flags. by destruct (m.(m_ptes) !! _) as [[f fl']|]. Qed.

Lemma full_for_each {X} (xs : list X) (c : X → VM unit) : (∀ x, keeps_full (c x)) → keeps_full (for_each xs c).
Proof. intros Hc. apply hoare_for_each. intros x _. apply Hc. Qed.

Lemma full_files {X} (c : VM X) : files_only c → keeps_full c.
Proof. intros Hc. apply full_phys. intros m. specialize (Hc m). destruct (c m) as [[x m']|]; [|done]. by destruct Hc as [fs ->]. Qed.

Ltac full_tac := repeat first
  [ apply full_allocate | apply full_map_to | apply full_unmap_page | apply full_update_flags | apply full_zero | apply full_copy
  | apply full_contents; first [apply contents_on_files|apply contents_drop_ref|apply contents_take_exclusive]
  | apply full_for_each; intros ? | case_match | by apply full_modify | apply full_bind; [|intros ?] | by intros ? ? ].

Lemma zslice_short (l : list byte) a b : zlen (zslice l a b) <= Z.max 0 (b - a).
Proof. unfold zslice, zlen. rewrite length_take. lia. Qed.

Lemma full_get_or_load file id off len : len <= PAGE_SIZE → keeps_full (get_or_load_shared_file_frame file id off len).
Proof.
  intros Hlen. unfold get_or_load_shared_file_frame, alloc_zeroed_frame, must_allocate. full_tac.
  apply full_write; [done|]. pose proof (zslice_short l (page_of (off mod CLUSTER_LEN)) (page_of (off mod CLUSTER_LEN) + Z.min len (sat_sub z (page_of (off mod CLUSTER_LEN))))).
  unfold PAGE_SIZE in *. lia.
Qed.
Lemma full_copy_cached file id off len f : 0 <= len <= PAGE_SIZE → keeps_full (copy_cached_file_page file id off len f).
Proof.
  intros Hlen. unfold copy_cached_file_page. apply full_bind; [apply full_contents, contents_on_files|]. intros [[data valid]|e]; [|by intros m Hm].
  set (co := off mod CLUSTER_LEN). set (n := Z.min (sat_sub valid co) len). assert (0 <= n <= len) by (unfold n, sat_sub; lia).
  apply full_bind; [apply full_write; [done|]|].
  - pose proof (zslice_short data co (co + n)). lia.
  - intros u. apply full_write; [lia|]. unfold zlen. rewrite length_replicate. unfold sat_sub. lia.
Qed.

Lemma full_apply_file_pages p pages area offset n file shared id first : keeps_full (apply_file_pages p pages area offset n file shared id first).
Proof.
  revert first. induction pages as [|page pages IH]; intros first; cbn; [by intros m Hm|]. apply full_bind; [|intros f; apply IH].
  unfold apply_file_page. set (len := Z.min PAGE_SIZE (sat_sub n (page - area.(start)))).
  assert (0 <= len <= PAGE_SIZE) as Hlen by (unfold len, sat_sub, PAGE_SIZE; lia).
  apply full_bind; [by intros m Hm|]. intros [e|]; [by intros m Hm|]. apply full_bind; [apply full_get_or_load; lia|]. intros r.
  assert (keeps_full (frame ← alloc_map_zeroed_page p page area (len <? PAGE_SIZE);
    _ ← (if len =? 0 then mret tt else copy_cached_file_page file id (offset + (page - area.(start))) len frame); mret (Some frame))) as Hpriv.
  { apply full_bind; [unfold alloc_map_zeroed_page, must_allocate; full_tac|]. intros f. apply full_bind; [|by intros u m Hm].
    destruct (len =? 0); [by intros m Hm|by apply full_copy_cached]. }
  destruct shared; [|exact Hpriv]. destruct r; [|exact Hpriv]. unfold map_existing_frame. full_tac.
Qed.

Lemma full_apply_cluster p page area n : keeps_full (apply_page_cluster p page area n).
Proof.
  unfold apply_page_cluster, map_existing_frame, alloc_map_zeroed_page, must_allocate. destruct area.(data); [full_tac| |full_tac].
  apply full_bind; [by intros m Hm|]. intros [id|]; [|by intros m Hm]. apply full_bind; [apply full_apply_file_pages|]. intros f. full_tac.
Qed.

Lemma full_release_frames frames : keeps_full (release_frames frames).
Proof. unfold release_frames. full_tac. Qed.

Lemma full_set_space p st : keeps_full (set_space p st).
Proof. unfold set_space, drop_shared, release_frames, space. full_tac. Qed.

Lemma full_register p area : keeps_full (register p area).
Proof.
  unfold register. apply full_bind; [by intros m Hm|]. intros st. destruct (register_area st area) as [eager st'].
  apply full_bind; [apply full_set_space|]. intros u. destruct eager; [|by intros m Hm]. unfold apply_area, apply_page. full_tac. apply full_apply_cluster.
Qed.

Lemma full_unmap_pages p pages : keeps_full (unmap_pages p pages).
Proof.
  induction pages as [|page pages IH]; cbn; [by intros m Hm|]. unfold release_mapping_ref. full_tac; apply IH.
Qed.

Lemma full_write_back p area s e : keeps_full (write_back_area_range p area s e).
Proof.
  unfold write_back_area_range. destruct area.(data) as [|off bytes zf file shared|]; [by intros m Hm| |by intros m Hm]. destruct shared; [|by intros m Hm].
  destruct (_ <=? _); [by intros m Hm|]. apply full_bind; [by intros m Hm|]. intros n. apply full_bind.
  - apply full_modify. intros m. by destruct (readonly_page_cache_file _ _).
  - intros u. apply full_bind; [by intros m Hm|]. intros writes. apply full_bind; [apply full_files, files_with_cursor, files_write_pages|].
    intros r. full_tac.
Qed.

Lemma full_write_back_areas p areas range : keeps_full (write_back_areas p areas range).
Proof. induction areas as [|a areas IH]; cbn; [by intros m Hm|]. apply full_bind; [apply full_write_back|]. intros [u|e]; [exact IH|by intros m Hm]. Qed.

Lemma full_flush p s len : keeps_full (flush_file_mappings p s len).
Proof. unfold flush_file_mappings. destruct (len =? 0); [by intros m Hm|]. apply full_bind; [by intros m Hm|]. intros st. apply full_write_back_areas. Qed.

Lemma full_try_unmap p s len : keeps_full (try_unmap p s len).
Proof.
  unfold try_unmap. destruct (len =? 0); [by intros m Hm|]. apply full_bind; [apply full_flush|]. intros [u|e]; [|by intros m Hm].
  apply full_bind; [apply full_unmap_pages|]. intros fs. apply full_bind; [apply full_for_each; by intros f m Hm|]. intros u1.
  apply full_bind; [by intros m Hm|]. intros st. apply full_bind; [apply full_set_space|]. by intros u2 m Hm.
Qed.

Lemma full_replace_cow p addr : keeps_full (replace_cow_page p addr).
Proof. unfold replace_cow_page, pte, must_allocate, decrease_ref. full_tac. Qed.

Lemma full_find_area p addr : keeps_full (find_area p addr).
Proof. apply full_phys. intros m. unfold find_area, mbind, VM_bind, space, gets. by destruct (get_area _ _). Qed.

Lemma full_apply_lazy p addr area : keeps_full (apply_lazy p addr area).
Proof. apply full_bind; [apply full_apply_cluster|]. by intros f m Hm. Qed.

Lemma full_ensure_writable p addr len : keeps_full (ensure_user_page_writable p addr len).
Proof.
  unfold ensure_user_page_writable. destruct (negb _); [by intros m Hm|]. apply full_bind; [by intros m Hm|]. intros [[f fl]|].
  - destruct (negb _); [by intros m Hm|]. destruct (has_flag fl COW_FLAG); [|by intros m Hm]. apply full_bind; [apply full_replace_cow|by intros u m Hm].
  - apply full_bind; [apply full_find_area|]. intros [area|]; [|by intros m Hm]. destruct (_ && _); [|by intros m Hm].
    apply full_bind; [apply full_apply_lazy|by intros u m Hm].
Qed.

Lemma full_ensure_readable p addr len : keeps_full (ensure_user_page_readable p addr len).
Proof.
  unfold ensure_user_page_readable. destruct (negb _); [by intros m Hm|]. apply full_bind; [apply full_find_area|]. intros [area|]; [|by intros m Hm].
  destruct (_ || _); [by intros m Hm|]. apply full_bind; [by intros m Hm|]. intros [[f fl]|]; [by intros m Hm|]. destruct (_ && _); [|by intros m Hm].
  apply full_bind; [apply full_apply_lazy|by intros u m Hm].
Qed.

Lemma full_read_bytes fuel p addr len : keeps_full (read_bytes_loop fuel p addr len).
Proof.
  revert addr len. induction fuel as [|fuel IH]; intros addr len; cbn [read_bytes_loop]; [by intros m Hm|]. destruct (len <=? 0); [by intros m Hm|].
  apply full_bind; [intros m Hm; unfold virt_addr; by destruct (canonical addr)|]. intros v. apply full_bind; [apply full_ensure_readable|]. intros w.
  destruct (negb w); [by intros m Hm|]. apply full_bind; [by intros m Hm|]. intros [[f fl]|]; [|by intros m Hm]. apply full_bind; [by intros m Hm|]. intros bytes.
  apply full_bind; [apply IH|by intros r m Hm].
Qed.

Lemma full_write_bytes fuel p addr src : keeps_full (write_bytes_loop fuel p addr src).
Proof.
  revert addr src. induction fuel as [|fuel IH]; intros addr [|b src]; [by intros m Hm..|]. cbn [write_bytes_loop]. set (all := b :: src).
  apply full_bind; [intros m Hm; unfold virt_addr; by destruct (canonical addr)|]. intros v. apply full_bind; [apply full_ensure_writable|]. intros w.
  destruct (negb w); [by intros m Hm|]. apply full_bind; [by intros m Hm|]. intros [[f fl]|]; [|by intros m Hm]. apply full_bind; [|intros u; apply IH].
  apply full_write; [apply Z.mod_pos_bound; done|]. pose proof (zslice_short all 0 (chunk_len v (zlen all))). unfold chunk_len, PAGE_SIZE in *.
  pose proof (Z.mod_pos_bound v 4096). assert (0 <= zlen all) by (unfold zlen; lia). lia.
Qed.

Lemma full_fault p address code user : keeps_full (pagefault_handler p address code user).
Proof.
  unfold pagefault_handler, fault_signal. apply full_bind; [|intros [sig|]; [destruct user|]; by intros m Hm].
  apply full_bind; [by intros m Hm|]. intros entry. destruct (_ && _); [apply full_bind; [apply full_replace_cow|by intros u m Hm]|].
  destruct (has_flag _ _); [by intros m Hm|]. apply full_bind.
  - unfold fault_area, space. apply full_bind; [apply full_find_area|]. intros r. full_tac.
  - intros [area|]; [|by intros m Hm]. destruct (_ && _); [|by intros m Hm]. destruct (beyond_file _ _); [by intros m Hm|].
    apply full_bind; [apply full_apply_lazy|by intros u m Hm].
Qed.

Lemma full_release_areas p wb areas : keeps_full (release_areas p wb areas).
Proof.
  induction areas as [|a areas IH]; cbn; [by intros m Hm|]. destruct (negb (is_user a)); [done|]. apply full_bind; [destruct wb; [apply full_write_back|by intros m Hm]|].
  intros r. apply full_bind; [apply full_unmap_pages|]. intros fs. apply full_bind; [exact IH|by intros fs' m Hm].
Qed.

Lemma full_allocate_zeroed n frames : keeps_full (allocate_zeroed n frames).
Proof. revert frames. induction n as [|n IH]; intros frames; cbn [allocate_zeroed]; [by intros m Hm|]. full_tac. apply IH. Qed.

Lemma full_segment_frames n frames : keeps_full (allocate_segment_frames n frames).
Proof. revert frames. induction n as [|n IH]; intros frames; cbn [allocate_segment_frames]; [by intros m Hm|]. unfold increase_ref, increase_ref_by. full_tac. apply IH. Qed.

Lemma full_step iso p m m' : vm_step iso p m m' → full m → full m'.
Proof.
  intros Hs Hm. destruct Hs as [area r m' Hn Hr|s len r m' H1' H2' Hr|s e prot m' H1' H2' Hmay Hr|pages r m' Hr|address code user r m' H1' Hr|
    address src r m' Hr|address n r m' Hr|s len r m' Hr|r m' Hr|child share m' Hsh Hne Hf Hr|wb m' Hu Hr|arc pages prot r m' Ha Hr|
    id n fs m1 m' Hid Hr Hr'|arc id fs m' Ha Hid Hr|id fs m' Hid Hr].
  - exact (hoare_run _ _ _ _ _ _ (full_register p area) Hm Hr).
  - exact (hoare_run _ _ _ _ _ _ (full_try_unmap p s len) Hm Hr).
  - eapply (hoare_run full (set_permissions p s e prot) (λ _, full)); [|exact Hm|exact Hr]. unfold set_permissions, space. destruct (_ <=? _); [by intros m1 Hm1|].
    apply full_bind; [by intros m1 Hm1|]. intros st. apply full_bind; [apply full_set_space|]. intros u. full_tac.
  - eapply (hoare_run full (fetch_user_mem p pages) (λ _, full)); [|exact Hm|exact Hr]. unfold fetch_user_mem, space. full_tac.
  - exact (hoare_run _ _ _ _ _ _ (full_fault p address code user) Hm Hr).
  - exact (hoare_run _ _ _ _ _ _ (full_write_bytes (length src) p address src) Hm Hr).
  - exact (hoare_run _ _ _ _ _ _ (full_read_bytes (Z.to_nat n) p address n) Hm Hr).
  - exact (hoare_run _ _ _ _ _ _ (full_flush p s len) Hm Hr).
  - eapply (hoare_run full (flush_all_file_mappings p) (λ _, full)); [|exact Hm|exact Hr].
    apply full_bind; [by intros m1 Hm1|]. intros st. apply full_write_back_areas.
  - destruct (clone_maps p child share m m' Hr) as [[Hph _] _]. intros f. unfold frame_bytes. rewrite Hph. apply Hm.
  - eapply (hoare_run full (release_user_mappings p wb) (λ _, full)); [|exact Hm|exact Hr]. unfold release_user_mappings.
    apply full_bind; [by intros m1 Hm1|]. intros st. apply full_bind; [apply full_release_areas|]. intros fs.
    apply full_bind; [apply full_for_each; by intros f m1 Hm1|]. intros u. apply full_set_space.
  - eapply (hoare_run full (anonymous_mapping_data arc pages true prot) (λ _, full)); [|exact Hm|exact Hr]. unfold anonymous_mapping_data. cbn.
    apply full_bind; [apply full_allocate_zeroed|]. intros fs. unfold shared_frames_new, increase_ref, increase_ref_by. full_tac.
  - pose proof (hoare_run _ _ _ _ _ _ (full_segment_frames n []) Hm Hr) as Hm1. unfold hold, modify in Hr'. by injection Hr' as <-.
  - eapply (hoare_run full (shared_frames_new arc fs) (λ _, full)); [|exact Hm|exact Hr]. unfold shared_frames_new, increase_ref, increase_ref_by. full_tac.
  - eapply (hoare_run full (release_frames fs) (λ _, full)); [apply full_release_frames| |exact Hr]. exact Hm.
Qed.

Lemma reachable_full iso m : reachable iso m → full m.
Proof.
  intros (a & fs & Hr). assert (full (empty_machine a fs)) as Hf by done. induction Hr as [m|m1 m2 m3 [p Hs] _ IH]; [done|]. apply IH. by eapply full_step.
Qed.
End full.

(** ** Entries of other pages stay *)

Section entries.
Context {A F : Type} `{BuddyAllocator A} `{MappedFiles F}.
Abbreviation VM := (VM A F).
Implicit Types m : Machine A F.

Definition keeps_entry (k : Z * Z) {X} (c : VM X) : Prop := ∀ e, hoare (λ m, m.(m_ptes) !! k = Some e) c (λ _ m, m.(m_ptes) !! k = Some e).

Lemma entry_bind k {X Y} (c : VM X) (g : X → VM Y) : keeps_entry k c → (∀ x, keeps_entry k (g x)) → keeps_entry k (mbind g c).
Proof. intros Hc Hk e. exact (hoare_bind _ _ _ _ _ (Hc e) (λ x, Hk x e)). Qed.

Lemma entry_same k {X} (c : VM X) : keeps_maps c → keeps_entry k c.
Proof. intros Hc e m Hm. specialize (Hc m). destruct (c m) as [[x m']|]; [|done]. by destruct Hc as [_ ->]. Qed.

Lemma entry_contents k {X} (c : VM X) : keeps_contents c → keeps_entry k c.
Proof. intros Hc. by apply entry_same, maps_contents. Qed.

Lemma entry_allocate k : keeps_entry k allocate_frame.
Proof.
  apply entry_same. intros m. unfold allocate_frame, allocate_contiguous. destruct (normalized_pages 1); [|done]. by destruct (buddy_alloc _ _) as [[? ?]|].
Qed.

(** A page that is mapped is not mapped again. *)
Lemma entry_map_to k p page f fl : keeps_entry k (map_to p page f fl).
Proof.
  intros e m Hm. unfold map_to. destruct (m.(m_ptes) !! (p, page)) eqn:Hp; [done|]. cbn. rewrite lookup_insert_ne; [done|congruence].
Qed.

Lemma entry_find_area k p addr : keeps_entry k (find_area p addr).
Proof. intros e m Hm. unfold find_area, mbind, VM_bind, space, gets. by destruct (get_area _ _). Qed.

Ltac entry_tac := repeat first
  [ apply entry_allocate | apply entry_map_to | apply entry_find_area
  | apply entry_contents; first [apply contents_on_files|apply contents_drop_ref|apply contents_take_exclusive]
  | case_match | apply entry_bind; [|intros ?] | by intros ? ? ? ].

Lemma entry_apply_file_pages k p pages area offset n file shared id first : keeps_entry k (apply_file_pages p pages area offset n file shared id first).
Proof.
  revert first. induction pages as [|page pages IH]; intros first; cbn; [by intros e m Hm|]. apply entry_bind; [|intros f; apply IH].
  unfold apply_file_page, map_existing_frame, alloc_map_zeroed_page, get_or_load_shared_file_frame, alloc_zeroed_frame, copy_cached_file_page, must_allocate. entry_tac.
Qed.

Lemma entry_apply_cluster k p page area n : keeps_entry k (apply_page_cluster p page area n).
Proof.
  unfold apply_page_cluster, map_existing_frame, alloc_map_zeroed_page, must_allocate. destruct area.(data); [entry_tac| |entry_tac].
  apply entry_bind; [by intros e m Hm|]. intros [id|]; [|by intros e m Hm]. apply entry_bind; [apply entry_apply_file_pages|]. intros f. entry_tac.
Qed.

Lemma entry_apply_lazy k p addr area : keeps_entry k (apply_lazy p addr area).
Proof. apply entry_bind; [apply entry_apply_cluster|]. by intros f e m Hm. Qed.

Lemma entry_replace_cow k p addr : k ≠ (p, page_of addr) → keeps_entry k (replace_cow_page p addr).
Proof.
  intros Hne. unfold replace_cow_page, pte, must_allocate, decrease_ref.
  assert (∀ fl, keeps_entry k (update_flags (A := A) (F := F) p (page_of addr) fl)) as Hup.
  { intros fl e m Hm. unfold update_flags. destruct (m.(m_ptes) !! (p, page_of addr)) as [[f fl']|]; [|done]. cbn. by rewrite lookup_insert_ne. }
  assert (keeps_entry k (unmap_page (A := A) (F := F) p (page_of addr))) as Hun.
  { intros e m Hm. unfold unmap_page. destruct (m.(m_ptes) !! (p, page_of addr)) as [[f fl']|]; [|done]. cbn. by rewrite lookup_delete_ne. }
  repeat first [exact Hun | apply Hup | apply entry_allocate | apply entry_map_to
    | apply entry_contents; first [apply contents_drop_ref|apply contents_take_exclusive] | case_match | apply entry_bind; [|intros ?] | by intros ? ? ? ].
Qed.

Lemma entry_ensure_writable k p addr len : k ≠ (p, page_of addr) → keeps_entry k (ensure_user_page_writable p addr len).
Proof.
  intros Hne. unfold ensure_user_page_writable. destruct (negb _); [by intros e m Hm|]. apply entry_bind; [by intros e m Hm|]. intros [[f fl]|].
  - destruct (negb _); [by intros e m Hm|]. destruct (has_flag fl COW_FLAG); [|by intros e m Hm].
    apply entry_bind; [by apply entry_replace_cow|by intros u e m Hm].
  - apply entry_bind; [apply entry_find_area|]. intros [area|]; [|by intros e m Hm]. destruct (_ && _); [|by intros e m Hm].
    apply entry_bind; [apply entry_apply_lazy|by intros u e m Hm].
Qed.

Lemma entry_write_bytes k fuel p addr src :
  (∀ i, 0 <= i < zlen src → k ≠ (p, page_of (addr + i))) → keeps_entry k (write_bytes_loop fuel p addr src).
Proof.
  revert addr src. induction fuel as [|fuel IH]; intros addr [|b src] Hk; [by intros e m Hm..|]. cbn [write_bytes_loop]. set (all := b :: src) in *.
  assert (0 < zlen all) as Hlen by (unfold all, zlen; cbn; lia).
  intros e. eapply (hoare_bind _ (λ v m, v = addr ∧ m.(m_ptes) !! k = Some e)); [intros m Hm; unfold virt_addr; by destruct (canonical addr)|].
  intros v. apply hoare_pure. intros ->. pose proof (chunk_len_pos addr (zlen all) Hlen). revert e.
  apply entry_bind; [apply entry_ensure_writable; rewrite <- (Z.add_0_r addr); apply Hk; lia|]. intros w. destruct (negb w); [by intros e m Hm|].
  apply entry_bind; [by intros e m Hm|]. intros [[f fl]|]; [|by intros e m Hm]. apply entry_bind; [by intros e m Hm|]. intros u.
  apply IH. intros i Hi. rewrite <- Z.add_assoc. apply Hk. unfold zlen in *. rewrite length_drop in Hi. lia.
Qed.
End entries.

(** ** Writing and reading *)

Section roundtrip.
Context {A F : Type} `{BuddyAllocatorLaws A free} `{MappedFiles F}.
Abbreviation VM := (VM A F).
Abbreviation sees := (vm_sees (free := free) true).
Implicit Types m : Machine A F.

(** The bytes are in memory that the process can reach. *)
Definition holds (p addr : Z) (bytes : list byte) m : Prop :=
  ∀ (i : nat) b, bytes !! i = Some b → ∃ f fl, m.(m_ptes) !! (p, page_of (addr + Z.of_nat i)) = Some (f, fl) ∧
    has_flag fl USER_ACCESSIBLE = true ∧ frame_bytes m f !! Z.to_nat ((addr + Z.of_nat i) mod PAGE_SIZE) = Some b.

Lemma in_chunk addr n i : 0 <= i < chunk_len addr n → page_of (addr + i) = page_of addr ∧ (addr + i) mod PAGE_SIZE = addr mod PAGE_SIZE + i.
Proof. unfold chunk_len, page_of, PAGE_SIZE. intros. Z.to_euclidean_division_equations. lia. Qed.

Lemma after_chunk addr n i : chunk_len addr n < n → 0 <= i → page_of (addr + chunk_len addr n + i) ≠ page_of addr.
Proof. unfold chunk_len, page_of, PAGE_SIZE. intros. Z.to_euclidean_division_equations. lia. Qed.

Lemma write_holds p fuel addr src vw m m' :
  (length src ≤ fuel)%nat → full m → sees vw [] [] m →
  (∀ i, 0 <= i < zlen src → vw (p, page_of (addr + i)) = None ∧ kind m (p, page_of (addr + i)) = Some false) →
  write_bytes_loop fuel p addr src m = Some (Ok tt, m') → sees vw [] [] m' ∧ holds p addr src m'.
Proof.
  revert addr src vw m. induction fuel as [|fuel IH]; intros addr src vw m Hfuel Hfull Hm Hrange Hrun.
  { destruct src; [|cbn in Hfuel; lia]. cbn in Hrun. injection Hrun as <-. split; [done|]. by intros i b Hb. }
  destruct src as [|b0 src]; [cbn in Hrun; injection Hrun as <-; split; [done|]; by intros i b Hb|].
  cbn [write_bytes_loop] in Hrun. set (all := b0 :: src) in *. assert (0 < zlen all) as Hlen by (unfold all, zlen; cbn; lia).
  unfold mbind, VM_bind, virt_addr in Hrun. destruct (canonical addr); [|done]. cbn in Hrun.
  pose proof (chunk_len_pos addr (zlen all) Hlen) as Hn. set (n := chunk_len addr (zlen all)) in *.
  pose proof (sees_ensure_writable true vw p addr n [] [] m Hm) as Hens. pose proof (lists_ensure_writable p addr n m) as Hlists.
  pose proof (full_ensure_writable p addr n m Hfull) as Hfull1.
  destruct (ensure_user_page_writable p addr n m) as [[w m1]|]; [|done]. destruct w; cbn in Hrun; [|done].
  destruct Hens as [Hm1 Hw]. destruct (Hw eq_refl) as (f & fl & He & Hwr & Hus). unfold pte, gets in Hrun. rewrite He in Hrun.
  set (chunk := zslice all 0 n) in *. set (m2 := with_phys _ m1) in *.
  set (P := page_of addr) in *. assert (0 <= addr mod PAGE_SIZE < PAGE_SIZE) as Hoff by (apply Z.mod_pos_bound; done).
  assert (zlen chunk = n) as Hchunk by (unfold chunk; rewrite zlen_zslice; lia).
  assert (addr mod PAGE_SIZE + n <= PAGE_SIZE) as Hfit by (unfold n, chunk_len; lia).
  destruct (Hrange 0 ltac:(lia)) as [Hvw0 Hkind0]. rewrite Z.add_0_r in Hvw0, Hkind0. fold P in Hvw0, Hkind0.
  assert (sees vw [] [] m2) as Hm2.
  { exact (sees_write_page true vw p P f (addr mod PAGE_SIZE) chunk [] [] ltac:(by left) Hvw0 m1 (conj Hm1 (ex_intro _ fl (conj He Hwr)))). }
  assert (∀ q, areas_of m2 q = areas_of m q) as Hlists2 by (intros q; exact (Hlists q)).
  set (c2 := zsplice (frame_bytes m1 f) (addr mod PAGE_SIZE) chunk).
  assert (frame_bytes m2 f = c2) as Hc2 by (unfold frame_bytes at 1, m2; cbn; by rewrite lookup_insert_eq).
  set (vw2 := λ k, if decide (k = (p, P)) then Some c2 else vw k).
  assert (sees vw2 [] [] m2) as Hm2'.
  { destruct Hm2 as (Hok & Hv & Hk). split_and!; [done| |].
    - intros k c. unfold vw2. destruct (decide (k = (p, P))) as [->|]; [|apply Hv]. intros [= <-]. by exists f, fl.
    - intros Hi k Hvk. unfold vw2 in Hvk. destruct (decide (k = (p, P))) as [->|]; [|by apply Hk]. unfold kind. cbn. rewrite Hlists2. exact Hkind0. }
  assert (full m2) as Hfull2 by (apply full_set; [rewrite zlen_zsplice; [apply Hfull1|lia|rewrite Hfull1; lia]|done]).
  destruct (IH (addr + n) (drop (Z.to_nat n) all) vw2 m2) as [Hm' Hrest]; [| done|done| |exact Hrun|].
  { rewrite length_drop. unfold zlen in *. lia. }
  { intros i Hi. unfold zlen in *. rewrite length_drop in Hi. assert (n < zlen all) as Hlt by (unfold zlen; lia).
    destruct (Hrange (n + i) ltac:(unfold zlen; lia)) as [Hv Hk]. rewrite Z.add_assoc in Hv, Hk. split; [|unfold kind in *; cbn in *; by rewrite Hlists2].
    unfold vw2. rewrite decide_False; [done|]. intros [= Heq]. by apply (after_chunk addr (zlen all) i Hlt ltac:(lia)). }
  assert (m'.(m_ptes) !! (p, P) = Some (f, fl)) as HP.
  { assert (∀ i, 0 <= i < zlen (drop (Z.to_nat n) all) → (p, P) ≠ (p, page_of (addr + n + i))) as Hother.
    { intros i Hi. unfold zlen in *. rewrite length_drop in Hi. intros [= Heq]. symmetry in Heq. revert Heq. apply (after_chunk addr (zlen all) i); unfold zlen; lia. }
    exact (hoare_run _ _ _ m2 _ m' (entry_write_bytes (p, P) fuel p (addr + n) (drop (Z.to_nat n) all) Hother (f, fl)) He Hrun). }
  assert (frame_bytes m' f = c2) as Hc'.
  { destruct Hm' as (_ & Hv' & _). destruct (Hv' (p, P) c2) as (f' & fl' & Hf' & <-); [unfold vw2; by rewrite decide_True|]. congruence. }
  split.
  - destruct Hm' as (Hok & Hv & Hk). split_and!; [done| |].
    + eapply seen_less, Hv. intros k c Hkc. unfold vw2. rewrite decide_False; [done|]. intros ->. congruence.
    + intros Hi k [c Hkc]. apply Hk; [done|]. unfold vw2. destruct (decide _); by eexists.
  - intros i b Hb. destruct (decide (Z.of_nat i < n)) as [Hlt|Hge].
    + destruct (in_chunk addr (zlen all) (Z.of_nat i)) as [Hpage Hmod]; [fold n; lia|]. rewrite Hpage, Hmod. exists f, fl. split; [done|]. split; [done|].
      rewrite Hc'. unfold c2. rewrite lookup_zsplice; [|lia|rewrite Hfull1; lia].
      rewrite decide_True by (unfold zlen in Hchunk; lia). unfold chunk. rewrite lookup_zslice by lia. rewrite <- Hb. f_equal. lia.
    + destruct (Hrest (i - Z.to_nat n)%nat b) as (g & gl & Hg & Hu & Hbyte); [rewrite lookup_drop, <- Hb; f_equal; lia|].
      replace (addr + n + Z.of_nat (i - Z.to_nat n)) with (addr + Z.of_nat i) in * by lia. by exists g, gl.
Qed.
(** Memory that the process may read, of its own *)
Definition own_readable (p addr n : Z) m : Prop :=
  ∀ i, 0 <= i < n → ∃ a, a ∈ areas_of m p ∧ contains a (addr + i) = true ∧ is_user a = true ∧
    has_flag a.(protection) PROT_READ = true ∧ is_shared_mapping a = false.

Lemma find_area_run p addr m : addrspace_ok (default addrspace_default (m.(m_areas) !! p)) →
  ∃ r st', find_area p addr m = Some (r, with_spaces (<[p := st']> m.(m_areas)) m) ∧ addrspace_ok st' ∧ st'.(memory_areas) = areas_of m p ∧
    match r with Some a => a ∈ areas_of m p ∧ contains a addr = true | None => ∀ a, a ∈ areas_of m p → contains a addr = false end.
Proof.
  intros Hok. unfold find_area, mbind, VM_bind, space, gets, modify. set (st := default addrspace_default _) in *.
  destruct (get_area_found st addr Hok) as [Hsame Hfound]. pose proof (get_area_ok st addr Hok) as Hok'.
  destruct (get_area st addr) as [r st']. cbn in *. exists r, st'. by split_and!.
Qed.

Lemma read_holds p fuel addr n bytes m :
  n = zlen bytes → (length bytes ≤ fuel)%nat → 0 <= addr → addr + n <= USER_MEM_END → full m →
  addrspace_ok (default addrspace_default (m.(m_areas) !! p)) → own_readable p addr n m → holds p addr bytes m →
  ∃ m', read_bytes_loop fuel p addr n m = Some (Ok bytes, m').
Proof.
  revert addr n bytes m. induction fuel as [|fuel IH]; intros addr n bytes m -> Hfuel Hpos Hend Hfull Hok Hown Hholds.
  { destruct bytes; [|cbn in Hfuel; lia]. by exists m. }
  cbn [read_bytes_loop]. destruct (zlen bytes <=? 0) eqn:Hz; [destruct bytes; [by exists m|exfalso; unfold zlen in Hz; cbn [length] in Hz; boolify; lia]|].
  assert (0 < zlen bytes) as Hlen by (boolify; lia). pose proof (chunk_len_pos addr (zlen bytes) Hlen) as Hn. set (n := chunk_len addr (zlen bytes)) in *.
  unfold USER_MEM_END in Hend. assert (canonical addr = true) as Hcan by (unfold canonical; rewrite (proj2 (Z.ltb_lt addr (2 ^ 47))) by lia; done).
  unfold mbind, VM_bind, virt_addr. rewrite Hcan. cbn [mret VM_ret].
  destruct (lookup_lt_is_Some_2 bytes 0 ltac:(unfold zlen in *; lia)) as [b0 Hb0].
  destruct (Hholds 0%nat b0 Hb0) as (f & fl & Hp & Hus & _). rewrite Z.add_0_r in Hp.
  unfold ensure_user_page_readable, mbind, VM_bind. fold n.
  assert (valid_user_access addr n = true) as Hvalid.
  { unfold valid_user_access, checked_user_range, checked_add. rewrite (proj2 (Z.eqb_neq n 0)) by lia. apply bool_decide_eq_true.
    rewrite (proj2 (Z.ltb_lt (addr + n) (2 ^ 64))) by lia. cbn. rewrite (proj2 (Z.ltb_ge USER_MEM_END (addr + n))) by (unfold USER_MEM_END; lia). by eexists. }
  rewrite Hvalid. cbn [negb]. destruct (find_area_run p addr m Hok) as (r & st' & Hfind & Hok' & Hsame & Hr). rewrite Hfind.
  set (m1 := with_spaces _ m). destruct (Hown 0 ltac:(lia)) as (a & Ha & Hc & Hu & Hrd & Hsh). rewrite Z.add_0_r in Hc.
  destruct r as [a'|]; [|by rewrite (Hr a Ha) in Hc]. destruct Hr as [Ha' Hc'].
  assert (a' = a) as ->.
  { apply list_elem_of_lookup in Ha as [i Hi]. apply list_elem_of_lookup in Ha' as [j Hj]. assert (i = j) as -> by (eapply contains_unique; [apply Hok|exact Hi|exact Hj|done..]). congruence. }
  rewrite Hu, Hrd. unfold pte, gets. assert (m1.(m_ptes) !! (p, page_of addr) = Some (f, fl)) as Hp1 by exact Hp. cbn [negb orb]. rewrite Hp1. cbn [mret VM_ret]. rewrite Hus. cbn [negb]. rewrite Hp1. cbn [mret VM_ret].
  assert (zslice (frame_bytes m1 f) (addr mod PAGE_SIZE) (addr mod PAGE_SIZE + n) = take (Z.to_nat n) bytes) as Hslice.
  { assert (0 <= addr mod PAGE_SIZE < PAGE_SIZE) as Hoff by (apply Z.mod_pos_bound; done).
    assert (addr mod PAGE_SIZE + n <= PAGE_SIZE) as Hfit by (unfold n, chunk_len; lia).
    apply list_eq_same_length with (n := Z.to_nat n); [rewrite length_take; unfold zlen in *; lia| |].
    - rewrite length_zslice; [lia|lia|]. change (frame_bytes m1 f) with (frame_bytes m f). rewrite Hfull. lia.
    - intros i x y Hi Hx Hy. rewrite lookup_zslice in Hx by lia. rewrite lookup_take_lt in Hy by lia.
      destruct (Hholds i y Hy) as (g & gl & Hg & _ & Hbyte). destruct (in_chunk addr (zlen bytes) (Z.of_nat i)) as [Hpage Hmod]; [fold n; lia|].
      rewrite Hpage, Hp in Hg. simplify_eq. rewrite Hmod in Hbyte. change (frame_bytes m1 g) with (frame_bytes m g) in Hx.
      replace (Z.to_nat (addr mod PAGE_SIZE + Z.of_nat i)) with (Z.to_nat (addr mod PAGE_SIZE) + i)%nat in Hbyte by lia. congruence. }
  rewrite Hslice.
  destruct (IH (addr + n) (zlen bytes - n) (drop (Z.to_nat n) bytes) m1) as [m' Hm'].
  - unfold zlen in *. rewrite length_drop. lia.
  - rewrite length_drop. unfold zlen in *. lia.
  - lia.
  - unfold USER_MEM_END. lia.
  - exact Hfull.
  - unfold m1. cbn. by rewrite lookup_insert_eq.
  - intros i Hi. destruct (Hown (n + i) ltac:(lia)) as (x & Hx & Hrest). rewrite Z.add_assoc in Hrest. exists x. split; [|done].
    unfold m1, areas_of. cbn. rewrite lookup_insert_eq. cbn. by rewrite Hsame.
  - intros i b Hb. rewrite lookup_drop in Hb. destruct (Hholds _ b Hb) as (g & gl & Hg & Hrest).
    replace (addr + n + Z.of_nat i) with (addr + Z.of_nat (Z.to_nat n + i)) by lia. by exists g, gl.
  - rewrite Hm'. exists m'. by rewrite take_drop.
Qed.

(** C8. What a process writes it reads back: bytes written through the kernel to private memory
    that the process may read are what a read of the same range returns, through
    copy-on-write, pages that the write allocates, and page boundaries; in states reached
    without CLONE_VM, areas over mapped pages, mprotects that make copy-on-write pages
    writable and exits with areas above USER_MEM_END. *)
Theorem written_bytes_read_back m m' p addr src :
  reachable true m → 0 <= addr → addr + zlen src <= USER_MEM_END → own_readable p addr (zlen src) m →
  write_bytes p addr src m = Some (Ok tt, m') →
  ∃ m'', read_bytes p addr (zlen src) m' = Some (Ok src, m'').
Proof.
  intros Hr Hpos Hend Hown Hw. pose proof (reachable_vm_ok (free := free) true m Hr) as Hok. pose proof (reachable_full true m Hr) as Hfull.
  assert (∀ i, 0 <= i < zlen src → kind m (p, page_of (addr + i)) = Some false) as Hkind.
  { intros i Hi. destruct (Hown i Hi) as (a & Ha & Hc & _ & _ & Hsh).
    assert (vm_at (free := free) true m.(m_areas) m.(m_shared) nothing [] [] m) as Hat by (by split_and!).
    pose proof (page_of_in (free := free) true _ _ _ [] [] m p a (addr + i) Hat Ha Hc) as Hin.
    destruct (page_in_kind (free := free) true _ _ _ [] [] m p a _ Hat Hin eq_refl) as [Hk _]. rewrite Hsh in Hk. exact Hk. }
  destruct (write_holds p (length src) addr src nothing m m') as [Hm' Hh]; [done|done|by apply sees_nothing| |exact Hw|].
  { intros i Hi. split; [done|by apply Hkind]. }
  assert (∀ q, areas_of m' q = areas_of m q) as Hlists.
  { pose proof (lists_write_bytes (length src) p addr src m) as Hl. unfold write_bytes in Hw. by rewrite Hw in Hl. }
  apply (read_holds p); [done|unfold zlen; lia|done|done| | | |done].
  - eapply (hoare_run full (write_bytes p addr src) (λ _, full)); [apply full_write_bytes|exact Hfull|exact Hw].
  - destruct Hm' as ([_ [A1 _ _] _] & _). apply A1.
  - intros i Hi. destruct (Hown i Hi) as (a & Ha & Hrest). exists a. by rewrite Hlists.
Qed.
End roundtrip.

(** Process 2 writes across its two pages after the fork. *)
Lemma written_bytes_read_back_witness :
  ∃ m'', read_bytes 2 (ex_page + 4094) 3 (run (write_bytes 2 (ex_page + 4094) ex_bytes) ex_forked) = Some (Ok ex_bytes, m'').
Proof.
  destruct (run_some (write_bytes 2 (ex_page + 4094) ex_bytes) ex_forked) as [r Hr]; [by vm_compute|].
  assert (r = Ok tt) as -> by (assert (fst <$> write_bytes 2 (ex_page + 4094) ex_bytes ex_forked = Some (Ok tt)) as Hok by (by vm_compute); rewrite Hr in Hok; by injection Hok).
  refine (written_bytes_read_back (free := λ a n, n ∈ a) ex_forked _ 2 (ex_page + 4094) ex_bytes (ex_forked_reachable true) _ _ _ Hr); [done|done|]. unfold own_readable.
  assert (areas_of ex_forked 2 = [ex_area]) as -> by (by vm_compute). clear Hr. intros i Hi. exists ex_area. split; [left|].
  assert (ex_area.(start) = ex_page ∧ ex_area.(end_) = ex_page + 8192) as [Hs He] by done. change (zlen ex_bytes) with 3 in Hi.
  split; [unfold contains; rewrite Hs, He; apply andb_true_intro; split; [apply Z.leb_le|apply Z.ltb_lt]; lia|done].
Defined.
