(* ===== verification/VmFault.v ===== *)
(** * Page faults and unmapping

    Over VmRoundtrip: a page fault that gives no signal leaves the page mapped, one that does
    changes no page; munmap removes the pages of its range and no others. *)

From stdpp Require Import sets.
From S2P Require Import Prelude Errors Clock SysvIpc SignalData SparseFile AddrAreas Vm VmUser VmCalls SysvShm VmFrames VmKinds VmOps VmSteps VmAccess VmFork VmHeld VmProps VmRoundtrip.

Open Scope Z_scope.

Section fault.
Context {A F : Type} `{BuddyAllocatorLaws A free} `{MappedFiles F}.
Abbreviation VM := (VM A F).
Implicit Types m : Machine A F.

(** ** Applied pages are mapped *)

Definition mapped_at (k : Z * Z) m : Prop := is_Some (m.(m_ptes) !! k).

Lemma keeps_mapped k {X} (c : VM X) : keeps_entry k c → hoare (mapped_at k) c (λ _, mapped_at k).
Proof. intros Hc m [e He]. specialize (Hc e m He). destruct (c m) as [[x m']|]; [|done]. by exists e. Qed.

Lemma map_to_maps p page f fl : hoare (λ _, True) (map_to (A := A) (F := F) p page f fl) (λ _, mapped_at (p, page)).
Proof. intros m _. unfold map_to. destruct (m.(m_ptes) !! (p, page)); [done|]. eexists. cbn. by rewrite lookup_insert_eq. Qed.

Lemma hoare_any {X Y} (c : VM X) (k : X → VM Y) Q : (∀ x, hoare (λ _, True) (k x) Q) → hoare (λ _, True) (mbind k c) Q.
Proof. intros Hk. eapply (hoare_bind _ (λ _ _, True)); [|exact Hk]. intros m _. by destruct (c m) as [[x m']|]. Qed.

Lemma map_existing_maps p page f fl b : hoare (λ _, True) (map_existing_frame (A := A) (F := F) p page f fl b) (λ _, mapped_at (p, page)).
Proof. eapply hoare_bind; [apply map_to_maps|]. intros u m Hm. by destruct b. Qed.

Lemma alloc_map_maps p page area z : hoare (λ _, True) (alloc_map_zeroed_page (A := A) (F := F) p page area z) (λ _, mapped_at (p, page)).
Proof.
  unfold alloc_map_zeroed_page. apply hoare_any. intros f. eapply hoare_bind; [apply map_to_maps|]. intros u m Hm. by destruct z.
Qed.

Lemma copy_cached_entry k file id off len f : keeps_entry k (copy_cached_file_page (A := A) (F := F) file id off len f).
Proof.
  unfold copy_cached_file_page. apply entry_bind; [apply entry_contents, contents_on_files|]. intros [[data valid]|e]; [|by intros e' m Hm].
  apply entry_bind; [|intros u]; by intros e m Hm.
Qed.

Lemma apply_file_page_maps p page area offset n file shared id :
  hoare (λ _, True) (apply_file_page (A := A) (F := F) p page area offset n file shared id) (λ _, mapped_at (p, page)).
Proof.
  unfold apply_file_page. eapply (hoare_bind _ (λ e m, e = m.(m_ptes) !! (p, page))); [by intros m _|]. intros [e|]; [intros m He; by exists e|].
  eapply hoare_pre; [by intros m _; exact I|]. apply hoare_any. intros r. set (len := Z.min _ _).
  assert (hoare (λ _, True) (frame ← alloc_map_zeroed_page p page area (len <? PAGE_SIZE);
    _ ← (if len =? 0 then mret tt else copy_cached_file_page file id (offset + (page - area.(start))) len frame); mret (Some frame)) (λ _ : option Z, mapped_at (p, page))) as Hpriv.
  { eapply hoare_bind; [apply alloc_map_maps|]. intros f. eapply (hoare_bind _ (λ _, mapped_at (p, page))); [|by intros u m Hm].
    destruct (len =? 0); [by intros m Hm|apply keeps_mapped, copy_cached_entry]. }
  destruct shared; [|exact Hpriv]. destruct r as [f|]; [|exact Hpriv]. eapply hoare_bind; [apply map_existing_maps|]. by intros g m Hm.
Qed.

Lemma apply_lazy_maps p address area :
  contains area address = true → aligned area.(start) → aligned area.(end_) →
  hoare (λ _, True) (apply_lazy (A := A) (F := F) p address area) (λ _, mapped_at (p, page_of address)).
Proof.
  intros Hc Hs He. unfold apply_lazy. eapply (hoare_bind _ (λ _, mapped_at (p, page_of address))); [|by intros f m Hm]. unfold apply_page_cluster.
  destruct area.(data) as [|offset n zf file shared|arc frames fl] eqn:Hd; [apply alloc_map_maps| |].
  - apply hoare_any. intros [id|]; [|by intros m _]. unfold is_file_backed. rewrite Hd.
    set (k := Z.to_nat _). assert (∃ k', k = S k') as [k' ->].
    { exists (Nat.pred k). unfold k, FILE_LAZY_CLUSTER_PAGES, area_pages, sat_sub, contains, aligned, page_of, PAGE_SIZE in *. boolify.
      Z.to_euclidean_division_equations. lia. }
    assert (pages_from (page_of address) (S k') = page_of address :: pages_from (page_of address + PAGE_SIZE) k') as ->.
    { unfold pages_from. change (List.seq 0 (S k')) with (0%nat :: List.seq 1 k'). rewrite <- (seq_shift k' 0), map_cons, map_map, Z.add_0_r. f_equal.
      apply map_ext. intros i. lia. }
    cbn [apply_file_pages]. eapply (hoare_bind _ (λ _, mapped_at (p, page_of address))).
    + eapply hoare_bind; [apply apply_file_page_maps|]. intros f. apply keeps_mapped, entry_apply_file_pages.
    + intros [f|]; [by intros m Hm|]. intros m Hm. unfold mbind, VM_bind, pte, gets. by destruct (m.(m_ptes) !! _) as [[f fl]|].
  - destruct (frames !! _) as [f|]; [apply map_existing_maps|by intros m _].
Qed.

(** ** Page faults *)

Lemma find_area_ptes p addr m : match find_area p addr m with Some (_, m') => m'.(m_ptes) = m.(m_ptes) | None => True end.
Proof. unfold find_area, mbind, VM_bind, space, gets. by destruct (get_area _ _). Qed.

Lemma fault_area_ptes p addr m : match fault_area p addr m with Some (_, m') => m'.(m_ptes) = m.(m_ptes) | None => True end.
Proof.
  unfold fault_area, mbind, VM_bind, space, gets, modify. pose proof (find_area_ptes p addr m) as Hf. destruct (find_area p addr m) as [[[a|] m1]|]; [done| |done].
  by destruct (grown_stack _ _).
Qed.

(** C9. A page fault in user mode is resolved or reported: when the handler gives no signal, the
    page of the address is mapped afterwards, and writable if the fault was a write to a
    copy-on-write page, so that the instruction can go on; when it gives one, no page has
    changed, and the signal is SIGSEGV, or SIGBUS where the page lies beyond the end of the
    file mapped there. The state is one reached without CLONE_VM, areas over mapped pages,
    mprotects that make copy-on-write pages writable and exits with areas above
    USER_MEM_END. *)
Theorem page_fault_resolved m m' p address code r :
  reachable true m → 0 <= address → pagefault_handler p address code true m = Some (r, m') →
  match r with
  | None => ∃ f fl, m'.(m_ptes) !! (p, page_of address) = Some (f, fl) ∧
      (∀ e, m.(m_ptes) !! (p, page_of address) = Some e → has_flag code CAUSED_BY_WRITE = true → has_flag e.2 COW_FLAG = true → has_flag fl WRITABLE = true)
  | Some sig => m'.(m_ptes) = m.(m_ptes) ∧
      (sig = Signal.SIGSEGV ∨ sig = Signal.SIGBUS ∧ ∃ a, a ∈ areas_of m' p ∧ contains a address = true ∧ beyond_file a address = true)
  end.
Proof.
  intros Hr Hpos. pose proof (reachable_vm_ok (free := free) true m Hr) as Hok. unfold pagefault_handler, fault_signal, mbind, VM_bind, pte, gets.
  set (cow := has_flag code CAUSED_BY_WRITE && match m.(m_ptes) !! (p, page_of address) with Some (_, fl) => has_flag fl COW_FLAG | None => false end).
  destruct cow eqn:Hcow; unfold cow in Hcow.
  - apply andb_prop in Hcow as [_ Hcow]. destruct (m.(m_ptes) !! _) as [[f fl]|] eqn:Hp; [|done].
    pose proof (replace_cow_flags p address f fl m Hp) as Hrep. destruct (replace_cow_page p address m) as [[u m1]|]; [|done]. intros [= <- <-].
    destruct Hrep as [g Hg]. exists g, (Z.lor (remove_flag fl COW_FLAG) WRITABLE). split; [done|]. intros _ _ _ _. apply has_flag_lor.
  - destruct (has_flag code PROTECTION_VIOLATION); [intros [= <- <-]; split; [done|by left]|].
    pose proof (fault_area_ptes p address m) as Hpt.
    pose proof (sees_fault_area true nothing p address [] [] Hpos m (sees_nothing (free := free) true m Hok)) as Hfa.
    destruct (fault_area p address m) as [[[a|] m1]|]; [| |done].
    2: { intros [= <- <-]. split; [done|by left]. }
    destruct Hfa as [([_ [_ _ A3] _] & _) [Ha Hc]]. destruct (A3 p a Ha) as [Hs He]. destruct (a.(lazy) && _); [|intros [= <- <-]; split; [done|by left]].
    destruct (beyond_file a address) eqn:Hb; [intros [= <- <-]; split; [done|right; split; [done|by exists a]]|].
    pose proof (apply_lazy_maps p address a Hc Hs He m1 I) as Hmap. destruct (apply_lazy p address a m1) as [[u m2]|]; [|done]. intros [= <- <-].
    destruct Hmap as [[f fl] Hf]. exists f, fl. split; [done|]. intros e Hpe Hw Hcf. rewrite Hpe, Hw in Hcow. destruct e. cbn in *. congruence.
Qed.
End fault.

(** ** munmap *)

Section unmap.
Context {A F : Type} `{BuddyAllocatorLaws A free} `{MappedFiles F}.
Abbreviation VM := (VM A F).
Implicit Types m : Machine A F.

(** The entry may get other flags. *)
Definition maps_to (k : Z * Z) (f : Z) m : Prop := ∃ fl, m.(m_ptes) !! k = Some (f, fl).

Definition keeps_frame (k : Z * Z) {X} (c : VM X) : Prop := ∀ f, hoare (maps_to k f) c (λ _, maps_to k f).

Lemma frame_bind k {X Y} (c : VM X) (g : X → VM Y) : keeps_frame k c → (∀ x, keeps_frame k (g x)) → keeps_frame k (mbind g c).
Proof. intros Hc Hk f. exact (hoare_bind _ _ _ _ _ (Hc f) (λ x, Hk x f)). Qed.

Lemma frame_maps k {X} (c : VM X) : keeps_maps c → keeps_frame k c.
Proof. intros Hc f m Hm. specialize (Hc m). destruct (c m) as [[x m']|]; [|done]. destruct Hc as [_ Hp]. unfold maps_to. by rewrite Hp. Qed.

Lemma frame_for_each k {X} (xs : list X) (c : X → VM unit) : (∀ x, x ∈ xs → keeps_frame k (c x)) → keeps_frame k (for_each xs c).
Proof. intros Hc f. apply hoare_for_each. intros x Hx. by apply Hc. Qed.

Lemma frame_files k {X} (c : VM X) : files_only c → keeps_frame k c.
Proof. intros Hc. apply frame_maps. intros m. specialize (Hc m). destruct (c m) as [[x m']|]; [|done]. by destruct Hc as [fs ->]. Qed.

Lemma frame_update_flags k p page fl : keeps_frame k (update_flags p page fl).
Proof.
  intros f m [fl0 Hm]. unfold update_flags. destruct (m.(m_ptes) !! (p, page)) as [[g gl]|] eqn:Hp; [|by exists fl0]. cbn.
  destruct (decide (k = (p, page))) as [->|Hne]; [exists fl; cbn; rewrite lookup_insert_eq; congruence|exists fl0; cbn; by rewrite lookup_insert_ne].
Qed.

Lemma frame_write_back k p area s e : keeps_frame k (write_back_area_range p area s e).
Proof.
  unfold write_back_area_range. destruct area.(data) as [|off bytes zf file shared|]; [by intros f m Hm| |by intros f m Hm]. destruct shared; [|by intros f m Hm].
  destruct (_ <=? _); [by intros f m Hm|]. apply frame_bind; [by intros f m Hm|]. intros n. apply frame_bind.
  - apply frame_maps. intros m. cbn. by destruct (readonly_page_cache_file _ _).
  - intros u. apply frame_bind; [by intros f m Hm|]. intros writes. apply frame_bind; [apply frame_files, files_with_cursor, files_write_pages|].
    intros [r|er]; [|by intros f m Hm]. apply frame_bind; [|by intros u1 f m Hm]. apply frame_for_each. intros w _. apply frame_bind; [by intros f m Hm|].
    intros [[f fl]|]; [|by intros g m Hm]. apply frame_bind; [apply frame_update_flags|by intros b g m Hm].
Qed.

Lemma frame_flush k p s len : keeps_frame k (flush_file_mappings p s len).
Proof.
  unfold flush_file_mappings. destruct (len =? 0); [by intros f m Hm|]. apply frame_bind; [by intros f m Hm|]. intros st.
  induction (List.filter _ _) as [|a l IH]; cbn; [by intros f m Hm|]. apply frame_bind; [apply frame_write_back|]. intros [u|e]; [exact IH|by intros f m Hm].
Qed.

Lemma frame_unmap_pages k p pages : (∀ page, page ∈ pages → k ≠ (p, page)) → keeps_frame k (unmap_pages p pages).
Proof.
  induction pages as [|page pages IH]; intros Hk; cbn; [by intros f m Hm|]. assert (keeps_frame k (unmap_pages p pages)) as Hrest by (apply IH; intros q Hq; apply Hk; by right).
  apply frame_bind.
  - intros f m [fl Hm]. unfold unmap_page. destruct (m.(m_ptes) !! (p, page)) as [[g gl]|]; [|by exists fl]. exists fl. cbn.
    rewrite lookup_delete_ne; [done|]. intros Heq. symmetry in Heq. revert Heq. apply Hk. left.
  - intros [f|]; [|exact Hrest]. apply frame_bind; [apply frame_maps, release_ref_maps|]. intros last. apply frame_bind; [exact Hrest|by intros fs g m Hm].
Qed.

Lemma set_space_maps p st : hoare (λ _, True) (set_space (A := A) (F := F) p st) (λ _ m, areas_of m p = st.(memory_areas)).
Proof.
  unfold set_space. apply hoare_any. intros old. eapply (hoare_bind _ (λ _ m, areas_of m p = st.(memory_areas))).
  - intros m _. unfold areas_of. cbn. by rewrite lookup_insert_eq.
  - intros u m Hm. pose proof (maps_for_each (remove_dups (arcs_of old.(memory_areas))) drop_shared drop_shared_maps m) as Hk.
    destruct (for_each _ _ m) as [[r m']|]; [|done]. destruct Hk as [Ha _]. unfold areas_of in *. by rewrite Ha.
Qed.

Lemma set_space_ptes p st m : match set_space p st m with Some (_, m') => m'.(m_ptes) = m.(m_ptes) | None => True end.
Proof.
  unfold set_space, mbind, VM_bind, space, gets, modify. pose proof (maps_for_each (remove_dups (arcs_of (default addrspace_default (m.(m_areas) !! p)).(memory_areas))) drop_shared drop_shared_maps
    (with_spaces (<[p := st]> m.(m_areas)) m)) as Hk. destruct (for_each _ _ _) as [[r m']|]; [|done]. by destruct Hk as [_ ->].
Qed.

Lemma range_page s len page : 0 < len → aligned s → aligned (s + len) →
  page ∈ range_inclusive (page_of s) (page_of (s + len - 1)) → in_span s (s + len) page = true ∧ aligned page.
Proof.
  unfold range_inclusive, in_span, page_of, aligned. intros Hlen Hs He (i & Hi & ->)%elem_of_pages_from. unfold PAGE_SIZE in *.
  Z.to_euclidean_division_equations. lia.
Qed.

(** The result of a successful unmap *)
Definition unmapped (p s e : Z) m m' : Prop :=
  (∀ page, aligned page → in_span s e page = true → m'.(m_ptes) !! (p, page) = None ∧ ∀ a, a ∈ areas_of m' p → contains a page = false) ∧
  (∀ k f, ¬ (k.1 = p ∧ in_span s e k.2 = true) → maps_to k f m → maps_to k f m').

Lemma try_unmap_exact p s len m m' : 0 < len → aligned s → aligned (s + len) →
  try_unmap p s len m = Some (Ok tt, m') → unmapped p s (s + len) m m'.
Proof.
  intros Hlen Hs He. unfold try_unmap. rewrite (proj2 (Z.eqb_neq len 0)) by lia. unfold mbind, VM_bind.
  pose proof (frame_flush) as Hflush. destruct (flush_file_mappings p s len m) as [[[[]|er] m1]|] eqn:Hfl; [|done..].
  set (pages := range_inclusive _ _). pose proof (unmap_pages_gone p pages m1 I) as Hg. pose proof (frame_unmap_pages) as Hun.
  destruct (unmap_pages p pages m1) as [[frames m2]|] eqn:Hum; [|done]. pose proof (deallocate_all_maps frames m2) as Hd.
  destruct (for_each frames deallocate_frame m2) as [[u m3]|]; [|done]. destruct Hd as [_ Hp3]. unfold space, gets.
  set (st := default addrspace_default (m3.(m_areas) !! p)). pose proof (set_space_ptes p (unmap_areas st s (s + len)) m3) as Hp4.
  pose proof (set_space_maps p (unmap_areas st s (s + len)) m3 I) as Ha4. destruct (set_space p _ m3) as [[u' m4]|]; [|done]. intros [= <-]. split.
  - intros page Hal Hin. split; [rewrite Hp4, Hp3; apply Hg; by apply elem_of_range_inclusive|]. rewrite Ha4.
    apply kind_at_none. rewrite unmap_areas_kind. by rewrite Hin.
  - intros k f Hout Hk. assert (maps_to k f m1) as H1m by (exact (hoare_run _ _ _ m _ m1 (Hflush k p s len f) Hk Hfl)).
    assert (maps_to k f m2) as [fl H2m]; [|exists fl; by rewrite Hp4, Hp3]. refine (hoare_run _ _ _ m1 _ m2 (Hun k p pages _ f) H1m Hum).
    intros page Hpage ->. apply Hout. split; [done|]. by apply range_page in Hpage as [? _].
Qed.

(** munmap removes exactly its range: after a successful call no page of the range, rounded
    up to whole pages, is mapped or in an area of the process, and every other page, of this
    process or another, is mapped to the same frame as before. *)
Lemma munmap_exact m m' p addr len (sigbus : bool) :
  0 <= addr → 0 < len → munmap p addr len m = Some (Ok 0, sigbus, m') →
  unmapped p addr (align_up (addr + len) PAGE_SIZE) m m'.
Proof.
  intros Hpos Hlen. unfold munmap. destruct (negb _) eqn:Hal; [done|]. unfold checked_user_range_for_memory_syscall.
  rewrite (proj2 (Z.eqb_neq len 0)) by lia. destruct (checked_add 64 addr len) as [e|] eqn:Hadd; [|done].
  unfold checked_add in Hadd. destruct (_ <? _); [|done]. injection Hadd as <-. destruct (checked_user_range addr len); [|done].
  destruct (addr =? addr + len) eqn:Heq; [boolify; lia|]. destruct (_ <? _); [done|]. unfold mbind, VM_bind.
  destruct (try_unmap p addr _ m) as [[[[]|er] m1]|] eqn:Hun; [|done..]. intros [= <- <-].
  assert (aligned addr) as Ha by (unfold aligned; boolify; lia). set (e := align_up (addr + len) PAGE_SIZE) in *.
  assert (aligned e ∧ addr < e) as [He Hlt].
  { unfold e, align_up, align_down, aligned, PAGE_SIZE in *. Z.to_euclidean_division_equations. lia. }
  replace e with (addr + (e - addr)) by lia. apply try_unmap_exact; [lia|done|by replace (addr + (e - addr)) with e by lia|exact Hun].
Qed.
End unmap.

(** A write to a page that was never touched *)
Lemma page_fault_resolved_witness :
  ∃ f fl, m_ptes (run (pagefault_handler 1 (ex_page + 4096) 6 true) ex_written) !! (1, ex_page + 4096) = Some (f, fl).
Proof.
  destruct (run_some (pagefault_handler 1 (ex_page + 4096) 6 true) ex_written) as [r Hr]; [by vm_compute|].
  assert (r = None) as -> by (assert (fst <$> pagefault_handler 1 (ex_page + 4096) 6 true ex_written = Some None) as Hn by (by vm_compute); rewrite Hr in Hn; by injection Hn).
  destruct (page_fault_resolved (free := λ a n, n ∈ a) ex_written _ 1 (ex_page + 4096) 6 None (ex_written_reachable true) ltac:(done) Hr) as (f & fl & Hf & _).
  exists f, fl. exact Hf.
Defined.

Lemma munmap_exact_witness :
  unmapped 1 ex_page (ex_page + 4096) ex_forked (run (munmap 1 ex_page 100) ex_forked) ∧
  maps_to (2, ex_page) 20480 (run (munmap 1 ex_page 100) ex_forked).
Proof.
  destruct (run_some (munmap 1 ex_page 100) ex_forked) as [r Hr]; [by vm_compute|].
  assert (r = (Ok 0, false)) as -> by (assert (fst <$> munmap 1 ex_page 100 ex_forked = Some (Ok 0, false)) as Hn by (by vm_compute); rewrite Hr in Hn; by injection Hn).
  pose proof (munmap_exact ex_forked _ 1 ex_page 100 false ltac:(done) ltac:(done) Hr) as Hu. split; [exact Hu|].
  apply (proj2 Hu (2, ex_page)); [by intros [? _]|]. exists (5 + COW_FLAG + NO_EXECUTE). by vm_compute.
Defined.
