(* ===== verification/VmFindings.v ===== *)
(** * What runs of the memory system show

    Over VmFault: concrete runs in which the code does something that it does not mean to, on
    the example machine of VmProps. *)

From stdpp Require Import sets.
From S2P Require Import Prelude Errors Clock SysvIpc SignalData SparseFile AddrAreas Vm VmUser VmCalls SysvShm VmFrames VmKinds VmOps VmSteps VmAccess VmFork VmHeld VmProps VmRoundtrip VmFault.

Open Scope Z_scope.

(** System calls of the example, without descriptors *)
Definition ex_mprotect (p addr len prot : Z) := mprotect (A := gset Z) (F := gmap Z (list byte)) (λ _, Ok 0) (λ _, None) p addr len prot.
Definition ex_mmap (p arc addr len prot flags : Z) :=
  mmap (A := gset Z) (F := gmap Z (list byte)) (λ _ _, None) (λ _, Ok 0) (λ _, None) (λ _, Err SyscallError.BadFileDescriptor) (λ _, false)
    (λ _ _ _ _ _, fail SyscallError.NoDevice) p arc addr len prot flags (-1) 0.

Definition result_of {A F X} (c : VM A F X) (m : Machine A F) : option X := fst <$> c m.

(** mprotect gives a copy-on-write page its write permission back: the child then writes to
    the frame of the parent. *)
Lemma mprotect_defeats_cow :
  let m := run (ex_mprotect 2 ex_page 4096 3) ex_forked in
  let m' := run (write_bytes 2 ex_page [Byte.xff]) m in
  fst <$> m_ptes m' !! (1, ex_page) = Some 20480 ∧
  take 1 (frame_bytes ex_forked 20480) = [Byte.x01] ∧ take 1 (frame_bytes m' 20480) = [Byte.xff].
Proof. by vm_compute. Qed.

(** A page that PROT_NONE protects stays mapped for the user. *)
Lemma prot_none_keeps_access :
  (λ e : Z * Z, has_flag e.2 (Z.lor PRESENT USER_ACCESSIBLE)) <$> m_ptes (run (ex_mprotect 1 ex_page 4096 0) ex_written) !! (1, ex_page) = Some true.
Proof. by vm_compute. Qed.

(** A pointer that is not canonical stops the kernel. *)
Lemma noncanonical_pointer_panics : write_bytes 1 (2 ^ 47) [x00] ex_written = None.
Proof. by vm_compute. Qed.

(** A private mapping of a file leaves its page in the cache of shared frames, where it stays
    after the process has gone. *)
Definition ex_file_machine : ExMachine := empty_machine (list_to_set [1; 2; 3]) {[7 := replicate 100 Byte.x41]}.
Definition ex_file_area : MemoryArea := area_new ex_page 1 5 1 (Data.File 0 100 false 7 false) true.

Lemma private_mapping_fills_cache :
  let m := run (pagefault_handler 1 ex_page 4 true) (run (register 1 ex_file_area) ex_file_machine) in
  let m' := run (clean_for_exit 1) m in
  base.size (m_file_frames m') = 1%nat ∧ base.size (m_alloc m') = 2%nat ∧ m_ptes m' = ∅.
Proof. by vm_compute. Qed.

(** mmap without a hint takes addresses that a mapping with a hint already has. *)
Lemma mmap_replaces_hinted_mapping :
  let m := run (ex_mmap 1 0 ex_page 4096 3 (Z.lor MAP_PRIVATE MAP_ANONYMOUS)) ex_start in
  result_of (ex_mmap 1 0 ex_page 4096 3 (Z.lor MAP_PRIVATE MAP_ANONYMOUS)) ex_start = Some (Ok ex_page) ∧
  result_of (ex_mmap 1 0 0 4096 3 (Z.lor MAP_PRIVATE MAP_ANONYMOUS)) m = Some (Ok ex_page) ∧
  length (areas_of (run (ex_mmap 1 0 0 4096 3 (Z.lor MAP_PRIVATE MAP_ANONYMOUS)) m) 1) = 1%nat.
Proof. by vm_compute. Qed.

(** Shrinking a mapping to a length inside its first page unmaps that page. *)
Lemma mremap_shrink_unmaps_kept_page :
  result_of (mremap 1 ex_page 8192 100 0 0) ex_written = Some (Ok ex_page) ∧
  m_ptes ex_written !! (1, ex_page) ≠ None ∧ m_ptes (run (mremap 1 ex_page 8192 100 0 0) ex_written) !! (1, ex_page) = None.
Proof. by vm_compute. Qed.

(** Moving a mapping that was applied when it was made maps its pages twice. *)
Lemma mremap_of_applied_area_panics :
  let m := run (allocate_user_pages 1 1) ex_start in
  mremap 1 (ex_page + 4096) 4096 4096 (Z.lor MREMAP_MAYMOVE MREMAP_FIXED) (ex_page + 65536) m = None.
Proof. by vm_compute. Qed.

Definition ex_credentials : Credentials := mkCredentials 1 1 0 0 [].

Definition ex_shm (m : ExMachine) (bytes : Z) := shmget ex_credentials 5 bytes (Z.lor 438 IPC_CREAT) (ipc_init (ex_clock 0)) m.

(** Attaching over a mapped page stops the kernel. *)
Lemma shmat_over_mapped_page_panics :
  match ex_shm ex_written 4096 with
  | Some ((Ok id, st), m) => shmat 1 0 ex_credentials id ex_page 0 [] st m = None
  | _ => False
  end.
Proof. by vm_compute. Qed.

(** No address is too high for an attachment: a page of the upper half, which belongs to the
    kernel, becomes accessible to the user. *)
Lemma shmat_maps_kernel_half :
  match ex_shm ex_written 4096 with
  | Some ((Ok id, st), m) =>
      match shmat 1 0 ex_credentials id KERNEL_MEM_START 0 [] st m with
      | Some ((Ok a, _, _), m) =>
          a = KERNEL_MEM_START ∧ (λ e : Z * Z, Vm.has_flag e.2 USER_ACCESSIBLE) <$> m_ptes m !! (1, KERNEL_MEM_START) = Some true
      | _ => False
      end
  | _ => False
  end.
Proof. by vm_compute. Qed.

(** When frames run out, those that shmget has taken stay counted, and nothing holds them. *)
Lemma shmget_loses_frames :
  match ex_shm (empty_machine {[1]} ∅) 8192 with
  | Some ((Err SyscallError.NoMemory, _), m) => m_alloc m = ∅ ∧ m_refs m !! 4096 = Some 1 ∧ held m 4096 = 0
  | _ => False
  end.
Proof. by vm_compute. Qed.

(** The same for a shared anonymous mapping *)
Lemma shared_mmap_loses_frames :
  let m : ExMachine := empty_machine {[1]} ∅ in
  let c := ex_mmap 1 0 0 8192 3 (Z.lor MAP_SHARED MAP_ANONYMOUS) in
  result_of c m = Some (Err SyscallError.NoMemory) ∧ m_alloc (run c m) = ∅ ∧ m_shared (run c m) = ∅ ∧ m_ptes (run c m) = ∅.
Proof. by vm_compute. Qed.
