(* ===== verification/Vfs.v ===== *)
(** * Mounts and the resolution of paths

    filesystem/vfs.rs (the table of mounts), filesystem/resolve.rs (the walk along a path),
    filesystem/vfs_operations.rs (creating, renaming and removing below mounts) and the part
    of process/manager.rs that says which mounts the processes of a namespace see.

    A file system is a trait object: it is named by the address of its reference counted
    pointer, and what the objects of all file systems do is the class [FileSystems].  A lookup
    is an observation: the handles it returns are dropped where the code drops them.
    [Path] is the one of FsPath. *)

From stdpp Require Import strings.
From S2P Require Import Prelude Errors FsPath.

Open Scope Z_scope.

(** ** File systems *)

Module FileLike.
Inductive FileLike (N : Type) : Type := File (n : N) | Directory (n : N) | Symlink (n : N).
Arguments File {N} n.
Arguments Directory {N} n.
Arguments Symlink {N} n.
End FileLike.
Abbreviation FileLike := FileLike.FileLike.

Module ContentType.
Inductive DirectoryContentType : Type := File | Directory | Symlink.
End ContentType.
Abbreviation DirectoryContentType := ContentType.DirectoryContentType.

(** What a creation and a listing say of an entry *)
Record DirectoryContentInfo := mkContent {
  content_name : string;
  content_type : DirectoryContentType;
  permission : option Z;
  content_rdev : Z;
}.

(** [W]: the state of all file systems; [N]: a file, directory or link of one of them. *)
Class FileSystems (W N : Type) := {
  fs_lookup : W → Z → Path → result FSError (FileLike N);
  fs_rename : W → Z → Path → Path → result FSError unit * W;
  fs_link : W → Z → Path → Path → result FSError unit * W;
  dir_get : W → N → string → result FSError (FileLike N);
  dir_create : W → N → DirectoryContentInfo → result FSError unit * W;
  dir_create_symlink : W → N → string → string → result FSError unit * W;
  dir_delete : W → N → string → result FSError unit * W;
  dir_contents : W → N → result FSError (list DirectoryContentInfo);
  dir_mode_gid : W → N → result FSError (Z * Z);
  like_chown : W → FileLike N → Z → Z → result FSError unit * W;
  link_target : W → N → result FSError Path;
}.

(** ** The table of mounts (vfs.rs) *)

Definition MS_RDONLY : Z := 1.
Definition MS_NOSYMFOLLOW : Z := 256.

Module MountPropagation.
Inductive MountPropagation : Type := Private | Shared (group : Z) | Slave (master : Z) | Unbindable.
End MountPropagation.
Abbreviation MountPropagation := MountPropagation.MountPropagation.

Module MountPropagationUpdate.
Inductive MountPropagationUpdate : Type := Private | Shared | Slave | Unbindable.
End MountPropagationUpdate.
Abbreviation MountPropagationUpdate := MountPropagationUpdate.MountPropagationUpdate.

Record Mount := mkMount {
  path : Path;
  fs : Z;
  source_path : Path;
  flags : Z;
  propagation : MountPropagation;
  device_id : Z;
  mount_id : Z;
  expire_pending : bool;
}.

Record VFS := mkVFS {
  mounts : list Mount;
  next_mount_device_id : Z;
  next_mount_id : Z;
  next_peer_group_id : Z;
}.

Definition vfs_new : VFS := mkVFS [] 1 1 1.

(** Updates of one field *)
Definition with_path (m : Mount) (p : Path) : Mount :=
  mkMount p m.(fs) m.(source_path) m.(flags) m.(propagation) m.(device_id) m.(mount_id) m.(expire_pending).
Definition with_flags (m : Mount) (f : Z) : Mount :=
  mkMount m.(path) m.(fs) m.(source_path) f m.(propagation) m.(device_id) m.(mount_id) m.(expire_pending).
Definition with_propagation (m : Mount) (p : MountPropagation) : Mount :=
  mkMount m.(path) m.(fs) m.(source_path) m.(flags) p m.(device_id) m.(mount_id) m.(expire_pending).
Definition with_mount_id (m : Mount) (i : Z) : Mount :=
  mkMount m.(path) m.(fs) m.(source_path) m.(flags) m.(propagation) m.(device_id) i m.(expire_pending).
Definition with_expire (m : Mount) (b : bool) : Mount :=
  mkMount m.(path) m.(fs) m.(source_path) m.(flags) m.(propagation) m.(device_id) m.(mount_id) b.
Definition with_mounts (l : list Mount) (v : VFS) : VFS :=
  mkVFS l v.(next_mount_device_id) v.(next_mount_id) v.(next_peer_group_id).

Definition path_len (m : Mount) : Z := Z.of_nat (String.length (as_string m.(path))).

(** The order of the keys [(Reverse(length), Reverse(mount_id))] *)
Definition mount_le (a b : Mount) : bool :=
  (path_len b <? path_len a) || (path_len a =? path_len b) && (b.(mount_id) <=? a.(mount_id)).

Definition sort_mounts (v : VFS) : VFS := with_mounts (sort_by mount_le v.(mounts)) v.

Definition same_path (m : Mount) (p : Path) : bool := bool_decide (m.(path) = p).

(** The comparison of the texts of two paths *)
Definition same_text (m : Mount) (p : Path) : bool := bool_decide (as_string m.(path) = as_string p).

(** [retain] of [remove_mounts_at]: the first mount at the path, or all with those below. *)
Fixpoint retain_not_at (p : Path) (include_children removed_exact : bool) (l : list Mount) : list Mount :=
  match l with
  | [] => []
  | m :: l =>
      if same_text m p then
        if include_children || negb removed_exact then retain_not_at p include_children true l
        else m :: retain_not_at p include_children removed_exact l
      else if include_children && path_starts_with m.(path) p then retain_not_at p include_children removed_exact l
      else m :: retain_not_at p include_children removed_exact l
  end.

Definition remove_mounts_at (v : VFS) (p : Path) (include_children : bool) : result FSError unit * VFS :=
  let p := normalize p in
  if existsb (λ m, same_text m p) v.(mounts) then (Ok tt, with_mounts (retain_not_at p include_children false v.(mounts)) v)
  else (Err FSError.NotFound, v).

Definition attach_mount_with_propagation (v : VFS) (p : Path) (f : Z) (source : Path) (fl : Z) (pr : MountPropagation) : VFS :=
  let '(device, next_device) :=
    match list_find (λ m, m.(fs) = f) v.(mounts) with
    | Some (_, m) => (m.(device_id), v.(next_mount_device_id))
    | None => (v.(next_mount_device_id), v.(next_mount_device_id) + 1)
    end in
  let m := mkMount (normalize p) f (normalize source) fl pr device v.(next_mount_id) false in
  sort_mounts (mkVFS (v.(mounts) ++ [m]) next_device (v.(next_mount_id) + 1) v.(next_peer_group_id)).

Definition attach_mount (v : VFS) (p : Path) (f : Z) (source : Path) (fl : Z) : VFS :=
  attach_mount_with_propagation v p f source fl MountPropagation.Private.

(** [mount_ref]: what [init] answers and the default flags come from the file system. *)
Definition mount_ref (v : VFS) (p : Path) (f : Z) (init : result FSError unit) (default_flags : Z) : result FSError unit * VFS :=
  match init with
  | Err e => (Err e, v)
  | Ok _ => (Ok tt, attach_mount v (normalize p) f (Path_new "/") default_flags)
  end.

Definition join_mount_source (source suffix : Path) : Path := join_path source suffix.

(** [find_mount], of the table and of a snapshot of it *)
Fixpoint find_mount_in (l : list Mount) (p : Path) : result FSError (Mount * Path) :=
  match l with
  | [] => Err FSError.NotFound
  | m :: l =>
      match strip_prefix p m.(path) with
      | Some stripped => Ok (m, join_mount_source m.(source_path) stripped)
      | None => find_mount_in l p
      end
  end.

Definition find_mount (v : VFS) (p : Path) : result FSError (Mount * Path) := find_mount_in v.(mounts) p.

Definition join_paths (base suffix : Path) : Path :=
  let text := foldl (λ text part,
      match part with
      | PathPart.Normal component =>
          ((if str_ends_with_slash text then text else text +:+ "/") +:+ component)%stdpp
      | _ => text
      end) (as_string (normalize base)) (normalize suffix).(parts) in
  normalize (Path_new text).

(** The loop of [bind_mount] over the mounts below the source *)
Fixpoint bind_below (source target : Path) (l : list Mount) (v : VFS) : VFS :=
  match l with
  | [] => v
  | m :: l =>
      if same_path m source || negb (path_starts_with m.(path) source) then bind_below source target l v
      else
        match strip_prefix m.(path) source with
        | None => bind_below source target l v
        | Some suffix =>
            bind_below source target l
              (attach_mount_with_propagation v (join_paths target suffix) m.(fs) m.(source_path) m.(flags) m.(propagation))
        end
  end.

Definition bind_mount (v : VFS) (source target : Path) (recursive : bool) : result FSError unit * VFS :=
  let source := normalize source in
  let target := normalize target in
  match find_mount v source with
  | Err e => (Err e, v)
  | Ok (m, relative) =>
      match m.(propagation) with
      | MountPropagation.Unbindable => (Err FSError.InvalidArguments, v)
      | _ =>
          let v' := attach_mount_with_propagation v target m.(fs) relative m.(flags) m.(propagation) in
          (Ok tt, if recursive then bind_below source target v.(mounts) v' else v')
      end
  end.

Definition mount_path (v : VFS) (p : Path) : result FSError Path :=
  r ← find_mount v (normalize p); Ok r.1.(path).

(** [flags.remove(mask); flags.insert(flags & mask)] *)
Definition update_flags (old fl mask : Z) : Z := Z.lor (Z.land old (Z.lnot mask)) (Z.land fl mask).

Definition is_target (v_path : Path) (recursive : bool) (m : Mount) : bool :=
  same_text m v_path || recursive && path_starts_with m.(path) v_path.

Definition remount_bind (v : VFS) (p : Path) (fl mask : Z) (recursive : bool) : result FSError unit * VFS :=
  match mount_path v p with
  | Err e => (Err e, v)
  | Ok mp =>
      if existsb (is_target mp recursive) v.(mounts) then
        (Ok tt, with_mounts (map (λ m, if is_target mp recursive m then with_flags m (update_flags m.(flags) fl mask) else m) v.(mounts)) v)
      else (Err FSError.NotFound, v)
  end.

(** [namespaced]: the process has a snapshot; [overrides]: its [mount_namespace_flag_overrides]. *)
Definition remount_bind_in_current_namespace (v : VFS) (namespaced : bool) (overrides : gmap Z Z) (p : Path) (fl mask : Z)
  (recursive : bool) : result FSError unit * VFS * gmap Z Z :=
  if negb namespaced then (remount_bind v p fl mask recursive, overrides)
  else
    match mount_path v p with
    | Err e => (Err e, v, overrides)
    | Ok mp =>
        match List.filter (is_target mp recursive) v.(mounts) with
        | [] => (Err FSError.NotFound, v, overrides)
        | targets =>
            (Ok tt, v, foldl (λ o m, <[m.(mount_id) := update_flags (default m.(flags) (o !! m.(mount_id))) fl mask]> o) overrides targets)
        end
    end.

(** Whether a namespace sees a mount *)
Definition in_snapshot (snapshot : option (list Z)) (id : Z) : bool :=
  match snapshot with None => true | Some ids => bool_decide (id ∈ ids) end.

(** The propagation that a mount gets, and the next peer group *)
Definition updated_propagation (update : MountPropagationUpdate) (shared_id next : Z) (m : Mount) : MountPropagation * Z :=
  match update with
  | MountPropagationUpdate.Shared => (MountPropagation.Shared shared_id, next)
  | MountPropagationUpdate.Private => (MountPropagation.Private, next)
  | MountPropagationUpdate.Unbindable => (MountPropagation.Unbindable, next)
  | MountPropagationUpdate.Slave =>
      match m.(propagation) with
      | MountPropagation.Shared id => (MountPropagation.Slave id, next)
      | MountPropagation.Slave master => (MountPropagation.Slave master, next)
      | _ => (MountPropagation.Slave next, next + 1)
      end
  end.

Definition propagation_target (snapshot : option (list Z)) (mp : Path) (recursive : bool) (m : Mount) : bool :=
  in_snapshot snapshot m.(mount_id) && (same_path m mp || recursive && path_starts_with m.(path) mp).

Fixpoint update_propagations (snapshot : option (list Z)) (mp : Path) (recursive : bool) (update : MountPropagationUpdate)
  (shared_id next : Z) (l : list Mount) : list Mount * Z :=
  match l with
  | [] => ([], next)
  | m :: l =>
      if propagation_target snapshot mp recursive m then
        let '(pr, next) := updated_propagation update shared_id next m in
        let '(l, next) := update_propagations snapshot mp recursive update shared_id next l in
        (with_propagation m pr :: l, next)
      else
        let '(l, next) := update_propagations snapshot mp recursive update shared_id next l in
        (m :: l, next)
  end.

Definition set_mount_propagation (v : VFS) (snapshot : option (list Z)) (p : Path) (update : MountPropagationUpdate) (recursive : bool)
  : result FSError unit * VFS :=
  match mount_path v p with
  | Err e => (Err e, v)
  | Ok mp =>
      let id := v.(next_peer_group_id) in
      let next := match update with MountPropagationUpdate.Shared => id + 1 | _ => id end in
      let '(l, next) := update_propagations snapshot mp recursive update id next v.(mounts) in
      let v' := mkVFS l v.(next_mount_device_id) v.(next_mount_id) next in
      (if existsb (propagation_target snapshot mp recursive) v.(mounts) then Ok tt else Err FSError.NotFound, v')
  end.

Definition mount_id_of (v : VFS) (p : Path) : result FSError Z := r ← find_mount v (normalize p); Ok r.1.(mount_id).

Definition copy_mount_for_current_namespace (v : VFS) (snapshot : option (list Z)) (p : Path) : result FSError Z * VFS :=
  let p := normalize p in
  match snapshot with
  | None => (mount_id_of v p, v)
  | Some ids =>
      match list_find (λ m, m.(path) = p ∧ m.(mount_id) ∈ ids) v.(mounts) with
      | None => (Err FSError.NotFound, v)
      | Some (_, m) =>
          let id := v.(next_mount_id) in
          (Ok id, sort_mounts (mkVFS (v.(mounts) ++ [with_mount_id m id]) v.(next_mount_device_id) (id + 1) v.(next_peer_group_id)))
      end
  end.

Definition stack_mount_beneath (v : VFS) (source target : Path) : result FSError unit * VFS :=
  let source := normalize source in
  let target := normalize target in
  match list_find (λ m, m.(path) = source) v.(mounts), list_find (λ m, m.(path) = target) v.(mounts) with
  | Some (si, m), Some (ti, _) =>
      let l := delete si v.(mounts) in
      let ti := if (si <? ti)%nat then (ti - 1)%nat else ti in
      let m := with_mount_id (with_path m target) v.(next_mount_id) in
      (Ok tt, sort_mounts (mkVFS (take (S ti) l ++ [m] ++ drop (S ti) l) v.(next_mount_device_id) (v.(next_mount_id) + 1) v.(next_peer_group_id)))
  | _, _ => (Err FSError.NotFound, v)
  end.

Definition moved (source target : Path) (m : Mount) : Mount :=
  if same_path m source then with_path m target
  else match strip_prefix m.(path) source with Some suffix => with_path m (join_paths target suffix) | None => m end.

Definition move_mount_tree (v : VFS) (source target : Path) : result FSError unit * VFS :=
  let source := normalize source in
  let target := normalize target in
  if existsb (λ m, same_path m source) v.(mounts) then
    (Ok tt, sort_mounts (with_mounts (map (moved source target) v.(mounts)) v))
  else (Err FSError.NotFound, v).

Definition unmount (v : VFS) (p : Path) : result FSError unit * VFS :=
  let p := normalize p in
  if existsb (λ m, negb (same_path m p) && path_starts_with m.(path) p) v.(mounts) then (Err FSError.Busy, v)
  else remove_mounts_at v p false.

Definition detach_mount (v : VFS) (p : Path) : result FSError unit * VFS := remove_mounts_at v (normalize p) true.

Definition detach_unreferenced_mounts (v : VFS) (ids : list Z) : VFS :=
  with_mounts (List.filter (λ m, negb (bool_decide (m.(mount_id) ∈ ids))) v.(mounts)) v.

Definition begin_expire_mount (v : VFS) (p : Path) : result FSError bool * VFS :=
  let p := normalize p in
  match list_find (λ m, m.(path) = p) v.(mounts) with
  | None => (Err FSError.NotFound, v)
  | Some (i, m) =>
      if m.(expire_pending) then (Ok true, v) else (Ok false, with_mounts (<[i := with_expire m true]> v.(mounts)) v)
  end.

Definition mark_mount_accessed (v : VFS) (p : Path) : result FSError unit * VFS :=
  match find_mount v (normalize p) with
  | Err e => (Err e, v)
  | Ok (m, _) =>
      match list_find (λ m', m'.(path) = m.(path)) v.(mounts) with
      | Some (i, m') => (Ok tt, with_mounts (<[i := with_expire m' false]> v.(mounts)) v)
      | None => (Ok tt, v)
      end
  end.

Definition contains_mount_at (v : VFS) (p : Path) : bool := existsb (λ m, same_path m (normalize p)) v.(mounts).

Definition contains_mount_at_in_current_namespace (v : VFS) (snapshot : option (list Z)) (p : Path) : bool :=
  existsb (λ m, same_path m (normalize p) && in_snapshot snapshot m.(mount_id)) v.(mounts).

Definition mount_id_for_current_namespace (v : VFS) (snapshot : option (list Z)) (p : Path) : result FSError Z :=
  match List.find (λ m, same_path m (normalize p) && in_snapshot snapshot m.(mount_id)) v.(mounts) with
  | Some m => Ok m.(mount_id)
  | None => Err FSError.NotFound
  end.

Definition containing_mount_id_for_current_namespace (v : VFS) (snapshot : option (list Z)) (p : Path) : result FSError Z :=
  match List.find (λ m, bool_decide (is_Some (strip_prefix (normalize p) m.(path))) && in_snapshot snapshot m.(mount_id)) v.(mounts) with
  | Some m => Ok m.(mount_id)
  | None => Err FSError.NotFound
  end.

Definition ensure_writable_mount (v : VFS) (p : Path) : result FSError unit :=
  r ← find_mount v (normalize p);
  if Z.land r.1.(flags) MS_RDONLY =? MS_RDONLY then Err FSError.Readonly else Ok tt.

Definition mount_propagation_by_id (v : VFS) (id : Z) : result FSError MountPropagation :=
  match List.find (λ m, m.(mount_id) =? id) v.(mounts) with Some m => Ok m.(propagation) | None => Err FSError.NotFound end.

Definition snapshot_receives_peer_group (v : VFS) (ids : list Z) (group : Z) : bool :=
  existsb (λ m, bool_decide (m.(mount_id) ∈ ids) &&
    match m.(propagation) with
    | MountPropagation.Shared id => id =? group
    | MountPropagation.Slave master => master =? group
    | _ => false
    end) v.(mounts).

Definition mount_ids (v : VFS) : list Z := map mount_id v.(mounts).

(** The mounts of a namespace, the first one at each path *)
Fixpoint first_at_paths (seen : list Path) (l : list Mount) : list Mount :=
  match l with
  | [] => []
  | m :: l => if bool_decide (m.(path) ∈ seen) then first_at_paths seen l else m :: first_at_paths (m.(path) :: seen) l
  end.

Fixpoint number_from (id : Z) (l : list Mount) : list Mount :=
  match l with
  | [] => []
  | m :: l => with_mount_id m id :: number_from (id + 1) l
  end.

Definition visible_mounts (v : VFS) (snapshot : option (list Z)) : list Mount :=
  List.filter (λ m, in_snapshot snapshot m.(mount_id)) v.(mounts).

Definition clone_mount_namespace (v : VFS) (snapshot : option (list Z)) : list Z * VFS :=
  let cloned := number_from v.(next_mount_id) (first_at_paths [] (visible_mounts v snapshot)) in
  (map mount_id cloned,
   sort_mounts (mkVFS (v.(mounts) ++ cloned) v.(next_mount_device_id) (v.(next_mount_id) + zlen cloned) v.(next_peer_group_id))).

(** ** The walk along a path (resolve.rs) *)

Definition path_components (p : Path) : list string := omap as_normal_name p.(parts).

(** The trait [PathResolver] *)
Record PathResolver (N : Type) := mkResolver {
  resolve_root : result FSError (FileLike N);
  mount_flags : Path → result FSError Z;
  lookup_child : FileLike N → Path → string → result FSError (FileLike N);
}.
Arguments mkResolver {N} resolve_root mount_flags lookup_child.
Arguments resolve_root {N} p.
Arguments mount_flags {N} p _.
Arguments lookup_child {N} p _ _ _.

Definition MAX_SYMLINKS : Z := 40.

Definition rewrite_symlink_target (current target : Path) (remainder : list string) : Path :=
  let target := normalize (if is_absolute target then target else join_path (default (Path_new "/") (parent current)) target) in
  normalize (foldl join_component target remainder).

(** What a pass along the components ends with *)
Inductive Walk (N : Type) :=
  | Finished (r : result FSError (FileLike N * Path))
  | Restart (p : Path).
Arguments Finished {N} r.
Arguments Restart {N} p.

Section walk.
Context {W N : Type} `{FileSystems W N}.
Implicit Types (w : W) (R : PathResolver N).

(** The steps taken at a link; [followed]: the links followed before. *)
Definition follow_link w R (followed : Z) (next_path : Path) (link : N) (remainder : list string) : Walk N :=
  match mount_flags R next_path with
  | Err e => Finished (Err e)
  | Ok fl =>
      if Z.land fl MS_NOSYMFOLLOW =? MS_NOSYMFOLLOW then Finished (Err FSError.TooManySymlinks)
      else if MAX_SYMLINKS <? followed + 1 then Finished (Err FSError.TooManySymlinks)
      else
        match link_target w link with
        | Err e => Finished (Err e)
        | Ok target => Restart (rewrite_symlink_target next_path target remainder)
        end
  end.

(** The loop over the components, of which there is at least one *)
Fixpoint walk_components w R (follow_final had_trailing_slash : bool) (followed : Z) (current : FileLike N) (current_path : Path)
  (components : list string) : Walk N :=
  match components with
  | [] => Finished (Ok (current, current_path))
  | component :: rest =>
      let next_path := join_component current_path component in
      match lookup_child R current next_path component with
      | Err e => Finished (Err e)
      | Ok next =>
          match rest, next with
          | _ :: _, FileLike.Symlink link => follow_link w R followed next_path link rest
          | _ :: _, FileLike.Directory _ => walk_components w R follow_final had_trailing_slash followed next next_path rest
          | _ :: _, FileLike.File _ => Finished (Err FSError.NotADirectory)
          | [], FileLike.Symlink link =>
              if follow_final || had_trailing_slash then follow_link w R followed next_path link []
              else Finished (Ok (next, next_path))
          | [], FileLike.Directory _ => Finished (Ok (next, next_path))
          | [], FileLike.File _ => Finished (if had_trailing_slash then Err FSError.NotADirectory else Ok (next, next_path))
          end
      end
  end.

(** One round of the loop ['restart] *)
Definition walk_round w R (follow_final : bool) (followed : Z) (p : Path) : Walk N :=
  let had_trailing_slash := str_ends_with_slash (as_string p) in
  let components := path_components (normalize p) in
  match resolve_root R with
  | Err e => Finished (Err e)
  | Ok root =>
      match components with
      | [] => Finished (Ok (root, Path_new "/"))
      | _ => walk_components w R follow_final had_trailing_slash followed root (Path_new "/") components
      end
  end.

(** Each restart follows another link. *)
Fixpoint walk_rounds (fuel : nat) w R (follow_final : bool) (followed : Z) (p : Path) : option (result FSError (FileLike N * Path)) :=
  match fuel with
  | O => None
  | S fuel =>
      match walk_round w R follow_final followed p with
      | Finished r => Some r
      | Restart p => walk_rounds fuel w R follow_final (followed + 1) p
      end
  end.

Definition walk_fuel : nat := Z.to_nat (MAX_SYMLINKS + 1).

Definition resolve_path_walk w R (p : Path) (follow_final : bool) : option (result FSError (FileLike N * Path)) :=
  walk_rounds walk_fuel w R follow_final 0 (normalize p).

(** [resolve_raw], of the table and of a snapshot *)
Definition resolve_raw_with_mounts w (l : list Mount) (p : Path) : result FSError (FileLike N) :=
  r ← find_mount_in l (normalize p); fs_lookup w r.1.(fs) r.2.

(** [VFS] and [SnapshotResolver] as resolvers: a mount at the path itself covers the entry of
    the directory.  A walk never keeps a link, so that arm is unreachable. *)
Definition mounts_resolver w (l : list Mount) : PathResolver N :=
  mkResolver (resolve_raw_with_mounts w l (Path_new "/"))
    (λ p, r ← find_mount_in l p; Ok r.1.(flags))
    (λ current next_path component,
      match current with
      | FileLike.Directory dir =>
          r ← find_mount_in l next_path;
          if decide (r.1.(path) = next_path) then resolve_raw_with_mounts w l next_path else dir_get w dir component
      | _ => Err FSError.NotADirectory
      end).

(** [resolve_with_mounts]; [resolve_path] does this over the mounts that the process sees, and
    [VFS::resolve_internal] over all. *)
Definition resolve_with_mounts w (l : list Mount) (p : Path) (follow_final : bool) : option (result FSError (FileLike N * Path)) :=
  resolve_path_walk w (mounts_resolver w l) p follow_final.

(** The answer of a walk, which there always is *)
Definition answer {X} (o : option (result FSError X)) : result FSError X := default (Err FSError.Other) o.

Definition resolve_internal w (v : VFS) (p : Path) (follow_final : bool) : result FSError (FileLike N * Path) :=
  answer (resolve_with_mounts w v.(mounts) (normalize p) follow_final).

Definition resolve_path w (v : VFS) (snapshot : option (list Z)) (p : Path) (follow_final : bool) : result FSError (FileLike N * Path) :=
  answer (resolve_with_mounts w (visible_mounts v snapshot) p follow_final).

(** And its flags, its identity and whether it is the root of its mount *)
Definition resolve_path_with_mount_info w (v : VFS) (snapshot : option (list Z)) (p : Path) (follow_final : bool)
  : result FSError (FileLike N * Path * Z * Z * bool) :=
  r ← resolve_path w v snapshot p follow_final;
  m ← find_mount_in (visible_mounts v snapshot) r.2;
  Ok (r.1, r.2, m.1.(flags), m.1.(mount_id), bool_decide (r.2 = m.1.(path))).

(** ** Operations below mounts (vfs_operations.rs) *)

Definition S_ISGID : Z := 1024.
Definition U32_NONE : Z := 4294967295.

(** The walk follows links, so that its entry is a link only where the root directory is one;
    [depth] bounds the links followed there. *)
Fixpoint resolve_dir_in (depth : nat) w (v : VFS) (p : Path) : result FSError N :=
  match depth with
  | O => Err FSError.TooManySymlinks
  | S depth =>
      r ← resolve_internal w v p true;
      match r.1 with
      | FileLike.File _ => Err FSError.NotADirectory
      | FileLike.Directory dir => Ok dir
      | FileLike.Symlink link => target ← link_target w link; resolve_dir_in depth w v target
      end
  end.

Fixpoint resolve_file_in (depth : nat) w (v : VFS) (p : Path) : result FSError N :=
  match depth with
  | O => Err FSError.TooManySymlinks
  | S depth =>
      r ← resolve_internal w v p true;
      match r.1 with
      | FileLike.File file => Ok file
      | FileLike.Symlink link => target ← link_target w link; resolve_file_in depth w v target
      | FileLike.Directory _ => Err FSError.NotAFile
      end
  end.

Definition resolve_dir w (v : VFS) (p : Path) : result FSError N := resolve_dir_in walk_fuel w v p.
Definition resolve_file w (v : VFS) (p : Path) : result FSError N := resolve_file_in walk_fuel w v p.

Definition resolve_parent_normalized w (v : VFS) (p : Path) : result FSError (N * string) :=
  match file_name p, parent p with
  | Some name, Some up => dir ← resolve_dir w v up; Ok (dir, name)
  | _, _ => Err FSError.NotFound
  end.

Definition resolve_parent w (v : VFS) (p : Path) : result FSError (N * string) := resolve_parent_normalized w v (normalize p).

Definition create_file_with_metadata w (v : VFS) (p : Path) (mode : option Z) (rdev : Z) : result FSError unit * W :=
  let p := normalize p in
  if p.(ends_with_slash) then (Err FSError.NotADirectory, w)
  else
    match _ ← ensure_writable_mount v p; resolve_parent_normalized w v p with
    | Err e => (Err e, w)
    | Ok (dir, name) => dir_create w dir (mkContent name ContentType.File mode rdev)
    end.

(** [Ok(_)]: the name exists; [NotFound]: it can be made. *)
Definition must_not_exist w (v : VFS) (p : Path) : result FSError unit :=
  match resolve_internal w v p false with
  | Ok _ => Err FSError.AlreadyExists
  | Err FSError.NotFound => Ok tt
  | Err e => Err e
  end.

Definition create_dir_with_mode w (v : VFS) (p : Path) (mode : option Z) : result FSError unit * W :=
  let p := normalize p in
  match _ ← must_not_exist w v p; r ← resolve_parent_normalized w v p;
        match dir_get w r.1 r.2 with
        | Ok _ => Err FSError.AlreadyExists
        | Err _ => _ ← ensure_writable_mount v p; stat ← dir_mode_gid w r.1; Ok (r, stat)
        end with
  | Err e => (Err e, w)
  | Ok ((dir, name), (st_mode, st_gid)) =>
      let inherits := negb (Z.land st_mode S_ISGID =? 0) in
      let perm := (λ mode, let mode := Z.land mode 4095 in if inherits then Z.lor mode S_ISGID else mode) <$> mode in
      let '(created, w) := dir_create w dir (mkContent name ContentType.Directory perm 0) in
      match created with
      | Err e => (Err e, w)
      | Ok _ =>
          if inherits then
            match dir_get w dir name with
            | Err e => (Err e, w)
            | Ok entry => like_chown w entry U32_NONE st_gid
            end
          else (Ok tt, w)
      end
  end.

Definition create_symlink w (v : VFS) (p : Path) (target : string) : result FSError unit * W :=
  let p := normalize p in
  match _ ← must_not_exist w v p; r ← resolve_parent_normalized w v p; _ ← ensure_writable_mount v p; Ok r with
  | Err e => (Err e, w)
  | Ok (dir, name) => dir_create_symlink w dir name target
  end.

Definition delete_file w (v : VFS) (p : Path) : result FSError unit * W :=
  match resolve_parent_normalized w v (normalize p) with
  | Err e => (Err e, w)
  | Ok (dir, name) => dir_delete w dir name
  end.

(** [rename_file] and [link_file]: the mount of both paths, and the paths below it *)
Definition within_one_mount (v : VFS) (old_path new_path : Path) : result FSError (Z * Path * Path) :=
  let old_path := normalize old_path in
  let new_path := normalize new_path in
  old ← find_mount v old_path;
  new ← find_mount v new_path;
  if decide (old.1.(path) = new.1.(path)) then
    match strip_prefix old_path old.1.(path), strip_prefix new_path old.1.(path) with
    | Some old_relative, Some new_relative => Ok (old.1.(fs), old_relative, new_relative)
    | _, _ => Err FSError.NotFound
    end
  else Err FSError.Other.

Definition rename_file w (v : VFS) (old_path new_path : Path) : result FSError unit * W :=
  match within_one_mount v old_path new_path with
  | Err e => (Err e, w)
  | Ok (f, old_relative, new_relative) => fs_rename w f old_relative new_relative
  end.

Definition link_file w (v : VFS) (old_path new_path : Path) : result FSError unit * W :=
  match within_one_mount v old_path new_path with
  | Err e => (Err e, w)
  | Ok (f, old_relative, new_relative) => fs_link w f old_relative new_relative
  end.

Definition list_contents w (v : VFS) (p : Path) : result FSError (list DirectoryContentInfo) :=
  dir ← resolve_dir w v p; dir_contents w dir.

Definition is_dot (name : string) : bool := bool_decide (name = "."%string) || bool_decide (name = ".."%string).

(** [if first_error.is_none()] *)
Definition keep_first (first : option FSError) (r : result FSError unit) : option FSError :=
  match first, r with None, Err e => Some e | _, _ => first end.

(** [fuel]: how deep the tree is; every entry is removed after what is in it. *)
Fixpoint clear_directory (fuel : nat) w (v : VFS) (p : Path) : result FSError unit * W :=
  match fuel with
  | O => (Err FSError.Other, w)
  | S fuel =>
      match list_contents w v p with
      | Err e => (Err e, w)
      | Ok entries =>
          let '(first_error, w) := foldl (λ acc entry,
              if is_dot entry.(content_name) then acc
              else
                let '(first_error, w) := acc in
                let child_path := Path_new (as_string p +:+ "/" +:+ entry.(content_name))%stdpp in
                let '(first_error, w) :=
                  match entry.(content_type) with
                  | ContentType.Directory => let '(r, w) := clear_directory fuel w v child_path in (keep_first first_error r, w)
                  | _ => (first_error, w)
                  end in
                let '(r, w) := delete_file w v child_path in (keep_first first_error r, w))
              (None, w) entries in
          (match first_error with Some e => Err e | None => Ok tt end, w)
      end
  end.
End walk.

(** ** Mount namespaces of processes (process/manager.rs) *)

(** What the table of processes says of one; [mnt_inode]: the namespace. *)
Record MountView := mkView {
  exited : bool;
  mnt_inode : Z;
  snapshot : option (list Z);
  overrides : gmap Z Z;
}.

Definition with_snapshot (s : option (list Z)) (p : MountView) : MountView := mkView p.(exited) p.(mnt_inode) s p.(overrides).

Abbreviation MountViews := (gmap Z MountView).

Definition push_new (id : Z) (ids : list Z) : list Z := if bool_decide (id ∈ ids) then ids else ids ++ [id].

Definition retain_ids (gone : list Z) (ids : list Z) : list Z := List.filter (λ id, negb (bool_decide (id ∈ gone))) ids.

Definition propagate_mount_from_source (v : VFS) (source_id new_id : Z) (ps : MountViews) : MountViews :=
  match mount_propagation_by_id v source_id with
  | Ok (MountPropagation.Shared group) =>
      (λ p,
        let ids := default (mount_ids v) p.(snapshot) in
        with_snapshot (Some (if snapshot_receives_peer_group v ids group then push_new new_id ids else ids)) p) <$> ps
  | _ => ps
  end.

Definition update_current_mnt_namespace_snapshots (current : Z) (update : list Z → gmap Z Z → list Z * gmap Z Z) (ps : MountViews) : MountViews :=
  match ps !! current with
  | None => ps
  | Some c =>
      (λ p,
        match p.(snapshot) with
        | Some ids =>
            if p.(exited) || negb (p.(mnt_inode) =? c.(mnt_inode)) then p
            else let '(ids, o) := update ids p.(overrides) in mkView p.(exited) p.(mnt_inode) (Some ids) o
        | None => p
        end) <$> ps
  end.

Definition add_mount_to_current_mnt_namespace (current id : Z) (ps : MountViews) : MountViews :=
  update_current_mnt_namespace_snapshots current (λ ids o, (push_new id ids, o)) ps.

Definition remove_mounts_from_current_mnt_namespace (current : Z) (gone : list Z) (ps : MountViews) : MountViews :=
  update_current_mnt_namespace_snapshots current (λ ids o, (retain_ids gone ids, foldl (λ o id, delete id o) o gone)) ps.

Definition remove_mount_from_current_mnt_namespace (current id : Z) (ps : MountViews) : MountViews :=
  remove_mounts_from_current_mnt_namespace current [id] ps.

Definition replace_mount_in_current_mnt_namespace (current old new : Z) (ps : MountViews) : MountViews :=
  update_current_mnt_namespace_snapshots current (λ ids o, (push_new new (retain_ids [old] ids), o)) ps.

Definition remove_mount_from_namespaces (id : Z) (ps : MountViews) : MountViews :=
  (λ p, with_snapshot (retain_ids [id] <$> p.(snapshot)) p) <$> ps.

Definition unmount_id (v : VFS) (id : Z) (ps : MountViews) : result FSError unit * VFS * MountViews :=
  match list_find (λ m, m.(mount_id) = id) v.(mounts) with
  | None => (Err FSError.NotFound, v, ps)
  | Some (i, _) => (Ok tt, with_mounts (delete i v.(mounts)) v, remove_mount_from_namespaces id ps)
  end.

Definition detach_mount_ids (v : VFS) (snap : option (list Z)) (p : Path) (ps : MountViews) : result FSError (list Z) * VFS * MountViews :=
  let p := normalize p in
  match map mount_id (List.filter (λ m, in_snapshot snap m.(mount_id) && (same_text m p || path_starts_with m.(path) p)) v.(mounts)) with
  | [] => (Err FSError.NotFound, v, ps)
  | ids => (Ok ids, sort_mounts (detach_unreferenced_mounts v ids), foldl (λ ps id, remove_mount_from_namespaces id ps) ps ids)
  end.

Definition unreferenced_mounts_after_process_exit (ps : MountViews) (pid inode : Z) (ids : list Z) : list Z :=
  List.filter (λ id, negb (existsb (λ x : Z * MountView,
    negb (x.1 =? pid) && negb x.2.(exited) && (x.2.(mnt_inode) =? inode) && in_snapshot x.2.(snapshot) id) (map_to_list ps))) ids.

(** The part of [Process::terminate_inner] on mounts *)
Definition exit_mounts (v : VFS) (pid : Z) (ps : MountViews) : VFS * MountViews :=
  match ps !! pid with
  | None => (v, ps)
  | Some p =>
      if p.(exited) then (v, ps)
      else
        let ps := <[pid := mkView true p.(mnt_inode) p.(snapshot) p.(overrides)]> ps in
        match p.(snapshot) with
        | None => (v, ps)
        | Some ids => (detach_unreferenced_mounts v (unreferenced_mounts_after_process_exit ps pid p.(mnt_inode) ids), ps)
        end
  end.

(** The part of [Unshare] for NEWNS; [inode]: the new namespace. *)
Definition unshare_mounts (v : VFS) (pid inode : Z) (ps : MountViews) : VFS * MountViews :=
  match ps !! pid with
  | None => (v, ps)
  | Some p =>
      let '(ids, v) := clone_mount_namespace v p.(snapshot) in
      (v, <[pid := mkView p.(exited) inode (Some ids) p.(overrides)]> ps)
  end.
