(* ===== verification/VfsProps.v ===== *)
(** * Mounts and path resolution: properties

    The table of mounts keeps its order, so that a path is served by the innermost and newest
    mount on it; unmounting undoes mounting, and a recursive bind mirrors a tree; every walk
    ends, and its answer is a canonical path that resolves to the same entry again. *)

From stdpp Require Import strings.
From S2P Require Import Prelude Errors FsPath Vfs.

Open Scope Z_scope.

(** ** Paths without [..], links and trailing slashes *)

Definition abs_path (ns : list string) (e : bool) : Path := mkPath (PathPart.Root :: map PathPart.Normal ns) e.

(** Names that a path text can hold *)
Definition good_names (ns : list string) : Prop := Forall (λ c, parsed_part (PathPart.Normal c)) ns.

Definition clean_path (p : Path) : Prop := ∃ ns, p = abs_path ns false ∧ good_names ns.

Lemma abs_is_canon ns e : abs_path ns e = mkPath (canon true 0 ns) e.
Proof. done. Qed.

Lemma resolve_abs ns e : FsPath.resolve (abs_path ns e) = (0%nat, ns).
Proof. rewrite abs_is_canon. by apply resolve_canon. Qed.

Lemma normalize_abs ns e : normalize (abs_path ns e) = abs_path ns e.
Proof.
  assert ((normalize (abs_path ns e)).(parts) = (abs_path ns e).(parts)) as Hp by (by rewrite normalize_parts, resolve_abs).
  change (normalize (abs_path ns e)) with (mkPath (normalize (abs_path ns e)).(parts) e). by rewrite Hp.
Qed.

Lemma abs_path_inj ns e ms e' : abs_path ns e = abs_path ms e' → ns = ms ∧ e = e'.
Proof. intros [= H ->]. split; [|done]. revert ms H. induction ns as [|c ns IH]; intros [|d ms]; cbn; try done. intros [= -> H]. f_equal. by apply IH. Qed.

Lemma parts_app_inv ns ms (rest : list PathPart) :
  PathPart.Root :: map PathPart.Normal ns = (PathPart.Root :: map PathPart.Normal ms) ++ rest →
  ∃ rs, rest = map PathPart.Normal rs ∧ ns = ms ++ rs.
Proof.
  cbn. intros [= H]. revert ns H. induction ms as [|d ms IH]; intros ns H; cbn in *; [by exists ns|].
  destruct ns as [|c ns]; [done|]. cbn in H. injection H as -> H. destruct (IH ns H) as (rs & -> & ->). by exists rs.
Qed.

Lemma strip_abs ns e ms e' r : strip_prefix (abs_path ns e) (abs_path ms e') = Some r ↔ ∃ rs, ns = ms ++ rs ∧ r = abs_path rs e.
Proof.
  rewrite strip_prefix_spec, !normalize_abs. cbn [parts abs_path]. split.
  - intros (rest & H & ->). destruct (parts_app_inv _ _ _ H) as (rs & -> & ->). by exists rs.
  - intros (rs & -> & ->). exists (map PathPart.Normal rs). split; [by rewrite map_app|done].
Qed.

Lemma strip_abs_app ms rs e e' : strip_prefix (abs_path (ms ++ rs) e) (abs_path ms e') = Some (abs_path rs e).
Proof. apply strip_abs. by exists rs. Qed.

Lemma starts_abs ns e ms e' : path_starts_with (abs_path ns e) (abs_path ms e') = true ↔ ∃ rs, ns = ms ++ rs.
Proof.
  rewrite path_starts_with_spec, !normalize_abs. cbn [parts abs_path]. split.
  - intros [rest H]. destruct (parts_app_inv _ _ _ H) as (rs & _ & ->). by exists rs.
  - intros (rs & ->). exists (map PathPart.Normal rs). by rewrite map_app.
Qed.

Lemma normalize_step_names abs ns acc : foldl (normalize_step abs) acc (map PathPart.Normal ns) = acc ++ map PathPart.Normal ns.
Proof. revert acc. induction ns as [|c ns IH]; intros acc; cbn; [by rewrite app_nil_r|]. rewrite IH. by rewrite <- app_assoc. Qed.

Lemma join_path_abs ns e ms e' : join_path (abs_path ns e) (abs_path ms e') = abs_path (ns ++ ms) e'.
Proof. unfold join_path. rewrite !normalize_abs. cbn. rewrite normalize_step_names. unfold abs_path. by rewrite map_app. Qed.

Lemma join_component_abs ns e c : join_component (abs_path ns e) c = abs_path (ns ++ [c]) false.
Proof. unfold join_component. rewrite normalize_abs. unfold abs_path. by rewrite map_app. Qed.

Lemma components_abs ns e : path_components (abs_path ns e) = ns.
Proof. unfold path_components, abs_path. cbn. induction ns; cbn; [done|]. by f_equal. Qed.

Lemma file_name_abs ns c e : file_name (abs_path (ns ++ [c]) e) = Some c.
Proof. unfold file_name. rewrite normalize_abs. unfold abs_path. rewrite map_app. cbn. by rewrite rev_app_distr. Qed.

Lemma parent_abs ns c e : parent (abs_path (ns ++ [c]) e) = Some (abs_path ns false).
Proof.
  unfold parent. rewrite normalize_abs. change (is_absolute _) with true. cbn [parts abs_path]. rewrite decide_False by (by destruct ns).
  rewrite map_app. cbn [map]. rewrite app_comm_cons, rev_unit. cbn [pop_through_normal]. by rewrite rev_involutive.
Qed.

Lemma good_app ns ms : good_names (ns ++ ms) ↔ good_names ns ∧ good_names ms.
Proof. unfold good_names. by rewrite Forall_app. Qed.

(** *** Their texts *)

Fixpoint text_len (ns : list string) : Z :=
  match ns with [] => 0 | c :: ns => 1 + Z.of_nat (String.length c) + text_len ns end.

Lemma text_len_app ns ms : text_len (ns ++ ms) = text_len ns + text_len ms.
Proof. induction ns; cbn; lia. Qed.

Lemma text_len_pos ns : good_names ns → ns ≠ [] → 2 <= text_len ns.
Proof.
  destruct ns as [|c ns]; [done|]. intros [(_ & _ & Hc) Hns]%Forall_cons _. cbn in *.
  assert (0 <= text_len ns) by (clear; induction ns; cbn; lia). destruct c; [done|]. cbn [String.length]. lia.
Qed.

Lemma join_slash_len ns : ns ≠ [] → 1 + Z.of_nat (String.length (join_slash ns)) = text_len ns.
Proof.
  induction ns as [|c ns IH]; [done|]. intros _. destruct ns as [|d ns]; [cbn; lia|].
  rewrite join_slash_cons, string_length_app by done. cbn [String.length]. change (text_len (c :: d :: ns)) with (1 + Z.of_nat (String.length c) + text_len (d :: ns)).
  rewrite <- IH by done. lia.
Qed.

Lemma body_of_names ns : good_names ns → Forall (λ part, parsed_part part ∧ part ≠ PathPart.Root) (map PathPart.Normal ns).
Proof. intros H. apply List.Forall_map. eapply List.Forall_impl; [|exact H]. by intros c Hc. Qed.

Lemma strings_of_names ns : map part_string (map PathPart.Normal ns) = ns.
Proof. induction ns; cbn; [done|]. by f_equal. Qed.

Lemma abs_text ns e : good_names ns → ns ≠ [] → as_string (abs_path ns e) = ("/" +:+ join_slash ns +:+ (if e then "/" else ""))%stdpp.
Proof.
  intros Hg Hne. pose proof (as_string_body true (map PathPart.Normal ns) e (body_of_names ns Hg)) as H.
  rewrite strings_of_names in H. apply H. by destruct ns.
Qed.

Lemma abs_text_len ns : good_names ns → ns ≠ [] → Z.of_nat (String.length (as_string (abs_path ns false))) = text_len ns.
Proof.
  intros Hg Hne. rewrite abs_text, string_app_nil_r, string_length_app by done. cbn [String.length].
  rewrite <- join_slash_len by done. lia.
Qed.

Lemma root_text : as_string (abs_path [] false) = "/"%string.
Proof. done. Qed.

Lemma Path_new_text ns : good_names ns → Path_new (as_string (abs_path ns false)) = abs_path ns false.
Proof.
  intros Hg. destruct (decide (ns = [])) as [->|Hne]; [done|]. rewrite abs_text by done.
  pose proof (Path_new_printed true (map PathPart.Normal ns) false) as H. rewrite strings_of_names in H. apply H.
  - eapply List.Forall_impl; [|exact (body_of_names ns Hg)]. by intros ? [? _].
  - by destruct ns.
Qed.

Lemma abs_text_inj ns ms : good_names ns → good_names ms → as_string (abs_path ns false) = as_string (abs_path ms false) → ns = ms.
Proof. intros Hn Hm H. apply (abs_path_inj ns false ms false). by rewrite <- (Path_new_text ns), <- (Path_new_text ms), H. Qed.

Lemma deeper_longer ms rs : good_names (ms ++ rs) → rs ≠ [] →
  Z.of_nat (String.length (as_string (abs_path ms false))) < Z.of_nat (String.length (as_string (abs_path (ms ++ rs) false))).
Proof.
  intros Hg Hr. destruct (proj1 (good_app _ _) Hg) as [Hm Hgr]. rewrite (abs_text_len (ms ++ rs)); [|done|by destruct ms].
  rewrite text_len_app. pose proof (text_len_pos rs Hgr Hr). destruct (decide (ms = [])) as [->|Hne]; [cbn; lia|].
  rewrite abs_text_len by done. lia.
Qed.

Lemma abs_no_slash ns : good_names ns → ns ≠ [] → str_ends_with_slash (as_string (abs_path ns false)) = false.
Proof.
  intros Hg Hne. rewrite abs_text, string_app_nil_r by done.
  destruct (join_slash_ends (map PathPart.Normal ns)) as (H & _ & Hn); rewrite ?strings_of_names in *; [by destruct ns|..].
  - eapply List.Forall_impl; [|exact (body_of_names ns Hg)]. by intros ? [? _].
  - by rewrite ends_with_slash_app.
Qed.

Lemma join_slash_snoc base c : base ≠ [] → join_slash (base ++ [c]) = (join_slash base +:+ String slash c)%stdpp.
Proof.
  induction base as [|b base IH]; [done|]. intros _. destruct base as [|b' base]; [done|].
  change ((b :: b' :: base) ++ [c]) with (b :: ((b' :: base) ++ [c])). rewrite !join_slash_cons by done. rewrite IH by done.
  by rewrite !string_app_assoc.
Qed.

Lemma join_paths_text ns base : good_names (base ++ ns) →
  foldl (λ text part, match part with
      | PathPart.Normal component => ((if str_ends_with_slash text then text else text +:+ "/") +:+ component)%stdpp
      | _ => text end) (as_string (abs_path base false)) (map PathPart.Normal ns) = as_string (abs_path (base ++ ns) false).
Proof.
  revert base. induction ns as [|c ns IH]; intros base Hg; [by rewrite app_nil_r|]. cbn [map foldl].
  assert (good_names base ∧ good_names (base ++ [c])) as [Hb Hbc].
  { split; [by apply good_app in Hg as [? _]|]. change (c :: ns) with ([c] ++ ns) in Hg. rewrite app_assoc in Hg. by apply good_app in Hg as [? _]. }
  assert (((if str_ends_with_slash (as_string (abs_path base false)) then as_string (abs_path base false) else as_string (abs_path base false) +:+ "/") +:+ c)%stdpp
          = as_string (abs_path (base ++ [c]) false)) as ->.
  { rewrite (abs_text (base ++ [c])), string_app_nil_r by (done || by destruct base). destruct (decide (base = [])) as [->|Hne]; [done|].
    rewrite abs_no_slash, abs_text, string_app_nil_r, join_slash_snoc by done. by rewrite !string_app_assoc. }
  rewrite IH by (by rewrite <- app_assoc). by rewrite <- app_assoc.
Qed.

Lemma join_paths_abs base ns : good_names (base ++ ns) → join_paths (abs_path base false) (abs_path ns false) = abs_path (base ++ ns) false.
Proof.
  intros Hg. unfold join_paths. rewrite !normalize_abs. cbn [parts abs_path]. cbn [foldl].
  change (foldl _ _ (map PathPart.Normal ns)) with
    (foldl (λ text part, match part with
      | PathPart.Normal component => ((if str_ends_with_slash text then text else text +:+ "/") +:+ component)%stdpp
      | _ => text end) (as_string (abs_path base false)) (map PathPart.Normal ns)).
  rewrite join_paths_text, Path_new_text, normalize_abs by done. done.
Qed.

(** ** The invariant of the table *)

Abbreviation by_place := (StronglySorted (λ a b, mount_le a b = true)).

Implicit Types (m : Mount) (l : list Mount) (v : VFS).

Definition mount_ok (next_device next_id : Z) m : Prop :=
  m.(mount_id) < next_id ∧ m.(device_id) < next_device ∧ clean_path m.(path) ∧ clean_path m.(source_path).

Record table_ok (next_device next_id : Z) l : Prop := {
  t_ids : NoDup (map mount_id l);
  t_mounts : ∀ m, m ∈ l → mount_ok next_device next_id m;
  t_devices : ∀ m m', m ∈ l → m' ∈ l → (m.(fs) = m'.(fs) ↔ m.(device_id) = m'.(device_id));
}.

Definition vfs_ok v : Prop := by_place v.(mounts) ∧ table_ok v.(next_mount_device_id) v.(next_mount_id) v.(mounts).

Lemma mount_le_total a b : mount_le a b = true ∨ mount_le b a = true.
Proof. unfold mount_le. destruct (path_len b <? path_len a) eqn:H1; [by left|]. destruct (path_len a <? path_len b) eqn:H2; [by right|].
  assert (path_len a = path_len b) as -> by (boolify; lia). rewrite Z.eqb_refl. cbn. destruct (mount_id b <=? mount_id a) eqn:H3; [by left|right]. apply Z.leb_le. boolify. lia. Qed.

Lemma mount_le_spec a b : mount_le a b = true ↔ path_len b < path_len a ∨ path_len a = path_len b ∧ b.(mount_id) <= a.(mount_id).
Proof. unfold mount_le. rewrite orb_true_iff, andb_true_iff, Z.ltb_lt, Z.eqb_eq, Z.leb_le. done. Qed.

Lemma mount_le_trans a b c : mount_le a b = true → mount_le b c = true → mount_le a c = true.
Proof. rewrite !mount_le_spec. lia. Qed.

Lemma table_perm nd ni l l' : l ≡ₚ l' → table_ok nd ni l → table_ok nd ni l'.
Proof.
  intros Hp [H1 H2 H3]. split.
  - eapply NoDup_Permutation_proper; [|exact H1]. symmetry. by apply Permutation_map.
  - intros m Hm. apply H2. by rewrite Hp.
  - intros m m' Hm Hm'. apply H3; by rewrite Hp.
Qed.

Lemma table_sublist nd ni l l' : l' `sublist_of` l → table_ok nd ni l → table_ok nd ni l'.
Proof.
  intros Hs [H1 H2 H3]. split.
  - eapply sublist_NoDup; [exact H1|]. by apply (fmap_sublist mount_id).
  - intros m Hm. apply H2. by eapply elem_of_sublist.
  - intros m m' Hm Hm'. apply H3; by eapply elem_of_sublist.
Qed.

Lemma table_mono nd ni nd' ni' l : nd <= nd' → ni <= ni' → table_ok nd ni l → table_ok nd' ni' l.
Proof. intros ? ? [H1 H2 H3]. split; [done| |done]. intros m Hm. destruct (H2 m Hm) as (? & ? & ?). split_and!; try lia; tauto. Qed.

Lemma sorted_sublist l l' : l' `sublist_of` l → by_place l → by_place l'.
Proof.
  intros Hs Hl. revert l' Hs. induction Hl as [|m l Hl IH Hm]; intros l' Hs.
  - apply sublist_nil_r in Hs as ->. constructor.
  - apply sublist_cons_r in Hs as [Hs|(k & -> & Hs)]; [by apply IH|]. constructor; [by apply IH|].
    apply Forall_forall. intros x Hx. rewrite Forall_forall in Hm. apply Hm. by eapply elem_of_sublist.
Qed.

Lemma ok_sublist v l' : l' `sublist_of` v.(mounts) → vfs_ok v → vfs_ok (with_mounts l' v).
Proof. intros Hs [H1 H2]. split; [by eapply sorted_sublist|by eapply table_sublist]. Qed.

Lemma ok_sorted nd ni pg l : table_ok nd ni l → vfs_ok (sort_mounts (mkVFS l nd ni pg)).
Proof.
  intros Ht. split; cbn.
  - apply sort_by_sorted; [apply mount_le_total|apply mount_le_trans].
  - eapply table_perm; [|exact Ht]. symmetry. apply sort_by_perm.
Qed.

(** *** What keeps the places of all mounts *)

Definition same_key m m' : Prop :=
  m'.(path) = m.(path) ∧ m'.(mount_id) = m.(mount_id) ∧ m'.(fs) = m.(fs) ∧ m'.(device_id) = m.(device_id) ∧ m'.(source_path) = m.(source_path).

Lemma same_key_le a b a' b' : same_key a a' → same_key b b' → mount_le a' b' = mount_le a b.
Proof. intros (H1 & H2 & _) (H3 & H4 & _). unfold mount_le, path_len. by rewrite H1, H2, H3, H4. Qed.

Lemma ok_same_keys v l' pg : Forall2 same_key v.(mounts) l' → vfs_ok v → vfs_ok (mkVFS l' v.(next_mount_device_id) v.(next_mount_id) pg).
Proof.
  intros Hf [Hs [H1 H2 H3]]. assert (∀ m', m' ∈ l' → ∃ m, m ∈ v.(mounts) ∧ same_key m m') as Hin.
  { intros m' [i Hi]%list_elem_of_lookup. destruct (Forall2_lookup_r _ _ _ _ _ Hf Hi) as (m & Hm & Hk). exists m. split; [by eapply list_elem_of_lookup_2|done]. }
  split; cbn; [|split].
  - clear -Hf Hs. induction Hf as [|m m' l l' Hm Hf IH]; [constructor|]. apply StronglySorted_inv in Hs as [Hs Hall]. constructor; [by apply IH|].
    clear IH Hs. induction Hf as [|x x' l l' Hx Hf IH]; [done|]. apply Forall_cons in Hall as [Hmx Hall]. constructor; [|by apply IH]. by rewrite (same_key_le m x).
  - replace (map mount_id l') with (map mount_id v.(mounts)); [done|]. clear -Hf. induction Hf as [|m m' l l' Hm Hf IH]; [done|]. cbn. f_equal; [symmetry; apply Hm|done].
  - intros m' (m & Hm & Hp & Hi & _ & Hd & Hso)%Hin. destruct (H2 m Hm) as (? & ? & ? & ?). unfold mount_ok. by rewrite Hp, Hi, Hd, Hso.
  - intros a' b' (a & Ha & _ & _ & Hfa & Hda & _)%Hin (b & Hb & _ & _ & Hfb & Hdb & _)%Hin. rewrite Hfa, Hfb, Hda, Hdb. by apply H3.
Qed.

Lemma map_same_keys (f : Mount → Mount) l : (∀ m, same_key m (f m)) → Forall2 same_key l (map f l).
Proof. intros Hf. induction l; cbn; by constructor. Qed.

Lemma insert_same_keys l i m m' : l !! i = Some m → same_key m m' → Forall2 same_key l (<[i := m']> l).
Proof.
  intros Hi Hk. assert (∀ k, Forall2 same_key k k) as Hr by (intros k; induction k; constructor; done).
  revert i Hi. induction l as [|x l IH]; intros [|i] Hi; cbn in *; [done|done|injection Hi as ->; by constructor|]. constructor; [done|by apply IH].
Qed.

(** ** Every operation keeps it *)

Lemma ok_attach v p f source fl pr : vfs_ok v → clean_path p → clean_path source → vfs_ok (attach_mount_with_propagation v p f source fl pr).
Proof.
  intros [_ Ht] (pn & -> & Hp) (sn & -> & Hsn). unfold attach_mount_with_propagation. rewrite !normalize_abs. destruct Ht as [H1 H2 H3].
  assert (NoDup (map mount_id (mounts v) ++ [next_mount_id v])) as Hnd.
  { apply NoDup_app. split_and!; [done| |apply NoDup_singleton]. intros x Hx ->%list_elem_of_singleton.
    apply list_elem_of_In, in_map_iff in Hx as (m & Hm & Hin). apply list_elem_of_In in Hin. destruct (H2 m Hin). lia. }
  destruct (list_find _ _) as [[i m]|] eqn:Hfind.
  - apply list_find_Some in Hfind as (Hi & Hfs & _). apply list_elem_of_lookup_2 in Hi. apply ok_sorted. split; cbn.
    + by rewrite map_app.
    + intros x [Hx| ->%list_elem_of_singleton]%elem_of_app.
      * destruct (H2 x Hx) as (? & ? & ?). split_and!; [lia|lia|tauto..].
      * destruct (H2 m Hi) as (? & ? & ?). unfold mount_ok. cbn. split_and!; [lia|done|by exists pn|by exists sn].
    + intros x y [Hx| ->%list_elem_of_singleton]%elem_of_app [Hy| ->%list_elem_of_singleton]%elem_of_app; cbn; [by apply H3|..|done]; rewrite <- Hfs; by apply H3.
  - assert (∀ m, m ∈ mounts v → m.(fs) ≠ f) as Hno.
    { intros m Hm ?. apply list_find_None in Hfind. rewrite Forall_forall in Hfind. by apply (Hfind m Hm). }
    apply ok_sorted. split; cbn.
    + by rewrite map_app.
    + intros x [Hx| ->%list_elem_of_singleton]%elem_of_app.
      * destruct (H2 x Hx) as (? & ? & ?). split_and!; [lia|lia|tauto..].
      * unfold mount_ok. cbn. split_and!; [lia|lia|by exists pn|by exists sn].
    + intros x y [Hx| ->%list_elem_of_singleton]%elem_of_app [Hy| ->%list_elem_of_singleton]%elem_of_app; cbn; [by apply H3|..|done].
      * split; [intros ?; by destruct (Hno x Hx)|]. destruct (H2 x Hx) as (_ & ? & _). lia.
      * split; [intros Heq; by destruct (Hno y Hy)|]. destruct (H2 y Hy) as (_ & ? & _). lia.
Qed.

Lemma clean_join target source p suffix : clean_path target → clean_path source → clean_path p → strip_prefix p source = Some suffix →
  clean_path (join_paths target suffix).
Proof.
  intros (tn & -> & Ht) (sn & -> & Hs) (pn & -> & Hp) (rs & -> & ->)%strip_abs. apply good_app in Hp as [_ Hr].
  rewrite join_paths_abs by (by apply good_app). exists (tn ++ rs). split; [done|by apply good_app].
Qed.

Lemma ok_bind_below source target l v : clean_path source → clean_path target → (∀ m, m ∈ l → clean_path m.(path) ∧ clean_path m.(source_path)) →
  vfs_ok v → vfs_ok (bind_below source target l v).
Proof.
  intros Hs Ht. revert v. induction l as [|m l IH]; intros v Hl Hv; cbn; [done|]. assert (∀ m, m ∈ l → clean_path m.(path) ∧ clean_path m.(source_path)) as Hl'.
  { intros x Hx. apply Hl. by right. }
  destruct (Hl m) as [Hmp Hms]; [by left|]. destruct (_ || _); [by apply IH|]. destruct (strip_prefix _ _) as [suffix|] eqn:Hstrip; [|by apply IH].
  apply IH; [done|]. apply ok_attach; [done|exact (clean_join _ _ _ _ Ht Hs Hmp Hstrip)|done].
Qed.

Lemma find_mount_clean l p m r : (∀ m, m ∈ l → clean_path m.(path) ∧ clean_path m.(source_path)) → clean_path p →
  find_mount_in l p = Ok (m, r) → m ∈ l ∧ clean_path r.
Proof.
  intros Hl (pn & -> & Hp). induction l as [|x l IH]; cbn; [done|]. destruct (strip_prefix _ _) as [stripped|] eqn:Hst.
  - intros [= <- <-]. split; [by left|]. destruct (Hl x) as [(xn & Hxp & Hx) (sn & Hsp & Hsn)]; [by left|]. rewrite Hxp in Hst. apply strip_abs in Hst as (rs & -> & ->).
    unfold join_mount_source. rewrite Hsp, join_path_abs. apply good_app in Hp as [_ Hr]. exists (sn ++ rs). split; [done|by apply good_app].
  - intros H. destruct IH as [Hm Hr]; [|done|split; [by right|done]]. intros y Hy. apply Hl. by right.
Qed.

Lemma table_clean nd ni l : table_ok nd ni l → ∀ m, m ∈ l → clean_path m.(path) ∧ clean_path m.(source_path).
Proof. intros [_ H2 _] m Hm. destruct (H2 m Hm) as (_ & _ & ? & ?). done. Qed.

Lemma clean_normal p : clean_path p → normalize p = p.
Proof. intros (ns & -> & _). apply normalize_abs. Qed.

Lemma ok_bind v source target recursive : vfs_ok v → clean_path source → clean_path target → vfs_ok (bind_mount v source target recursive).2.
Proof.
  intros Hv Hs Ht. unfold bind_mount. rewrite !clean_normal by done. pose proof (table_clean _ _ _ (proj2 Hv)) as Hc.
  destruct (find_mount v source) as [[m r]|] eqn:Hf; [|done]. apply (find_mount_clean _ _ _ _ Hc Hs) in Hf as [Hm Hr].
  assert (vfs_ok (attach_mount_with_propagation v target m.(fs) r m.(flags) m.(propagation))) as Ha by (by apply ok_attach).
  destruct (m.(propagation)); cbn; try done; destruct recursive; try done; by apply ok_bind_below.
Qed.

Lemma ok_remount v p fl mask recursive : vfs_ok v → vfs_ok (remount_bind v p fl mask recursive).2.
Proof.
  intros Hv. unfold remount_bind. destruct (mount_path v p); [|done]. destruct (existsb _ _); [|done]. cbn. apply ok_same_keys; [|done].
  apply map_same_keys. intros m. by destruct (is_target _ _ _).
Qed.

Lemma update_propagations_keys snap mp recursive update sid next l : Forall2 same_key l (update_propagations snap mp recursive update sid next l).1.
Proof.
  revert next. induction l as [|m l IH]; intros next; cbn; [constructor|]. destruct (propagation_target _ _ _ _).
  - destruct (updated_propagation _ _ _ _) as [pr next']. specialize (IH next'). destruct (update_propagations _ _ _ _ _ next' l). by constructor.
  - specialize (IH next). destruct (update_propagations _ _ _ _ _ next l). by constructor.
Qed.

Lemma ok_propagation v snap p update recursive : vfs_ok v → vfs_ok (set_mount_propagation v snap p update recursive).2.
Proof.
  intros Hv. unfold set_mount_propagation. destruct (mount_path v p) as [mp|]; [|done].
  set (next := match update with MountPropagationUpdate.Shared => _ | _ => _ end).
  pose proof (update_propagations_keys snap mp recursive update (next_peer_group_id v) next (mounts v)) as Hk.
  destruct (update_propagations _ _ _ _ _ _ _) as [l next']. by apply (ok_same_keys v l next').
Qed.

Lemma fresh_id nd ni l m : table_ok nd ni l → m ∈ l → m.(mount_id) ≠ ni.
Proof. intros [_ H2 _] Hm. destruct (H2 m Hm). lia. Qed.

(** A mount of the table under a new number, or at a new place *)
Lemma table_add nd ni l m m0 : table_ok nd ni l → m.(mount_id) = ni → m.(fs) = m0.(fs) → m.(device_id) = m0.(device_id) → mount_ok nd ni m0 →
  clean_path m.(path) → clean_path m.(source_path) →
  (∀ x, x ∈ l → (x.(fs) = m0.(fs) ↔ x.(device_id) = m0.(device_id))) → table_ok nd (ni + 1) (m :: l).
Proof.
  intros [H1 H2 H3] Hid Hf Hd (_ & Hm0 & _) Hp Hs Hdev. split.
  - cbn. constructor; [|done]. intros Hin. apply list_elem_of_In, in_map_iff in Hin as (x & Hx & Hin). apply list_elem_of_In in Hin. destruct (H2 x Hin). lia.
  - intros x [->|Hx]%elem_of_cons.
    + unfold mount_ok. rewrite Hid, Hd. split_and!; [lia|done..].
    + destruct (H2 x Hx) as (? & ? & ? & ?). split_and!; [lia|done..].
  - intros x y [->|Hx]%elem_of_cons [->|Hy]%elem_of_cons; [done| | |by apply H3]; rewrite Hf, Hd.
    + specialize (Hdev y Hy). split; intros; symmetry; apply Hdev; done.
    + by apply Hdev.
Qed.

Lemma ok_copy v snap p : vfs_ok v → vfs_ok (copy_mount_for_current_namespace v snap p).2.
Proof.
  intros Hv. unfold copy_mount_for_current_namespace. destruct snap as [ids|]; [|done]. destruct (list_find _ _) as [[i m]|] eqn:Hf; [|done].
  apply list_find_Some in Hf as (Hi & _). apply list_elem_of_lookup_2 in Hi. destruct Hv as [_ Ht]. pose proof Ht as [H1 H2 H3]. cbn. apply ok_sorted.
  eapply table_perm; [apply Permutation_cons_append|]. destruct (H2 m Hi) as (Ha & Hb & Hc & Hd).
  apply (table_add _ _ _ _ m); try done. intros x Hx. by apply H3.
Qed.

Lemma ok_stack v source target : vfs_ok v → clean_path target → vfs_ok (stack_mount_beneath v source target).2.
Proof.
  intros Hv Htg. pose proof (proj2 Hv) as Ht. unfold stack_mount_beneath. rewrite (clean_normal target) by done.
  destruct (list_find (λ m, m.(path) = normalize source) _) as [[si m]|] eqn:Hf; [|done].
  destruct (list_find (λ m, m.(path) = target) _) as [[ti tm]|]; [|done]. cbn. apply list_find_Some in Hf as (Hi & _). apply list_elem_of_lookup_2 in Hi as Hin.
  pose proof Ht as [H1 H2 H3]. set (k := if (si <? ti)%nat then (ti - 1)%nat else ti). apply ok_sorted.
  apply (table_perm _ _ (with_mount_id (with_path m target) (next_mount_id v) :: delete si (mounts v))).
  { rewrite <- (take_drop (S k) (delete si (mounts v))) at 1. by rewrite Permutation_middle. }
  destruct (H2 m Hin) as (Ha & Hb & Hc & Hd).
  apply (table_add _ _ _ _ m); try done; [eapply table_sublist; [apply sublist_delete|done]|].
  intros x Hx. apply H3; [|done]. eapply elem_of_sublist; [exact Hx|apply sublist_delete].
Qed.

Lemma ok_move v source target : vfs_ok v → clean_path source → clean_path target → vfs_ok (move_mount_tree v source target).2.
Proof.
  intros Hv Hs Ht. unfold move_mount_tree. rewrite !clean_normal by done. destruct (existsb _ _); [|done]. cbn. destruct v as [l nd ni pg], Hv as [_ [H1 H2 H3]]. cbn in *.
  apply ok_sorted. assert (∀ m, (moved source target m).(mount_id) = m.(mount_id) ∧ (moved source target m).(fs) = m.(fs) ∧
    (moved source target m).(device_id) = m.(device_id) ∧ (moved source target m).(source_path) = m.(source_path)) as Hk.
  { intros m. unfold moved. destruct (same_path _ _); [done|]. by destruct (strip_prefix _ _). }
  split.
  - rewrite List.map_map. replace (map _ l) with (map mount_id l); [done|]. apply map_ext. intros m. symmetry. apply Hk.
  - intros x Hx. apply list_elem_of_In, in_map_iff in Hx as (m & <- & Hm). apply list_elem_of_In in Hm. destruct (H2 m Hm) as (? & ? & Hmp & ?), (Hk m) as (Hi & _ & Hd & Hso).
    unfold mount_ok. rewrite Hi, Hd, Hso. split_and!; try done. unfold moved. destruct (same_path _ _); [done|].
    destruct (strip_prefix _ _) eqn:Hst; [|done]. exact (clean_join _ _ _ _ Ht Hs Hmp Hst).
  - intros x y Hx Hy. apply list_elem_of_In, in_map_iff in Hx as (a & <- & Ha), Hy as (b & <- & Hb). apply list_elem_of_In in Ha, Hb.
    destruct (Hk a) as (_ & -> & -> & _), (Hk b) as (_ & -> & -> & _). by apply H3.
Qed.

Lemma retain_sublist p children removed l : retain_not_at p children removed l `sublist_of` l.
Proof.
  revert removed. induction l as [|m l IH]; intros removed; cbn; [constructor|].
  destruct (same_text m p); [destruct (children || negb removed)|destruct (_ && _)]; by constructor.
Qed.

Lemma filter_is_sublist (f : Mount → bool) l : List.filter f l `sublist_of` l.
Proof. induction l as [|m l IH]; cbn; [constructor|]. destruct (f m); by constructor. Qed.

Lemma ok_remove v p children : vfs_ok v → vfs_ok (remove_mounts_at v p children).2.
Proof. intros Hv. unfold remove_mounts_at. destruct (existsb _ _); [|done]. apply ok_sublist; [apply retain_sublist|done]. Qed.

Lemma ok_unmount v p : vfs_ok v → vfs_ok (unmount v p).2.
Proof. intros Hv. unfold unmount. destruct (existsb _ _); [done|by apply ok_remove]. Qed.

Lemma ok_detach v ids : vfs_ok v → vfs_ok (detach_unreferenced_mounts v ids).
Proof. intros Hv. apply ok_sublist; [apply filter_is_sublist|done]. Qed.

Lemma ok_sort v : vfs_ok v → vfs_ok (sort_mounts v).
Proof. destruct v. intros [_ H]. by apply ok_sorted. Qed.

Lemma ok_expire v p : vfs_ok v → vfs_ok (begin_expire_mount v p).2.
Proof.
  intros Hv. unfold begin_expire_mount. destruct (list_find _ _) as [[i m]|] eqn:Hf; [|done]. apply list_find_Some in Hf as (Hi & _).
  destruct (m.(expire_pending)); [done|]. apply ok_same_keys; [|done]. by eapply insert_same_keys.
Qed.

Lemma ok_accessed v p : vfs_ok v → vfs_ok (mark_mount_accessed v p).2.
Proof.
  intros Hv. unfold mark_mount_accessed. destruct (find_mount _ _) as [[m r]|]; [|done]. destruct (list_find _ _) as [[i m']|] eqn:Hf; [|done].
  apply list_find_Some in Hf as (Hi & _). apply ok_same_keys; [|done]. by eapply insert_same_keys.
Qed.

Lemma first_at_sublist seen l : first_at_paths seen l `sublist_of` l.
Proof. revert seen. induction l as [|m l IH]; intros seen; cbn; [constructor|]. destruct (bool_decide _); by constructor. Qed.

(** Copies with the next numbers *)
Lemma table_number nd ni l k : table_ok nd ni l → (∀ m, m ∈ k → ∃ m0, m0 ∈ l ∧ same_key m0 m) →
  table_ok nd (ni + zlen k) (l ++ number_from ni k).
Proof.
  revert ni l. induction k as [|m k IH]; intros ni l Ht Hk; cbn [number_from].
  - rewrite app_nil_r. by replace (ni + zlen []) with ni by (unfold zlen; cbn; lia).
  - assert (l ++ with_mount_id m ni :: number_from (ni + 1) k = (l ++ [with_mount_id m ni]) ++ number_from (ni + 1) k) as -> by (by rewrite <- app_assoc).
    replace (ni + zlen (m :: k)) with (ni + 1 + zlen k) by (unfold zlen; cbn; lia).
    destruct (Hk m) as (m0 & Hm0 & Hp & Hi & Hf & Hd & Hs); [by left|]. pose proof Ht as [H1 H2 H3]. destruct (H2 m0 Hm0) as (? & ? & ? & ?). apply IH.
    + eapply table_perm; [apply Permutation_cons_append|]. apply (table_add _ _ _ _ m0); cbn; try done; [by rewrite Hp|by rewrite Hs|]. intros x Hx. by apply H3.
    + intros x Hx. destruct (Hk x) as (x0 & Hx0 & ?); [by right|]. exists x0. split; [|done]. apply elem_of_app. by left.
Qed.

Lemma number_from_len i k : zlen (number_from i k) = zlen k.
Proof. revert i. induction k as [|m k IH]; intros i; cbn; [done|]. unfold zlen in *. cbn. rewrite !Nat2Z.inj_succ, IH. done. Qed.

Lemma ok_clone v snap : vfs_ok v → vfs_ok (clone_mount_namespace v snap).2.
Proof.
  intros [_ Ht]. unfold clone_mount_namespace. cbn. rewrite number_from_len. apply ok_sorted. apply table_number; [done|].
  intros m Hm. exists m. split; [|done]. eapply elem_of_sublist; [exact Hm|]. etrans; [apply first_at_sublist|apply filter_is_sublist].
Qed.

(** ** Reachable tables *)

(** Paths are those that a walk answers with, which are clean (VfsResolve). *)
Inductive vfs_step v : VFS → Prop :=
  | step_attach p f source fl pr : clean_path p → clean_path source → vfs_step v (attach_mount_with_propagation v p f source fl pr)
  | step_bind source target recursive : clean_path source → clean_path target → vfs_step v (bind_mount v source target recursive).2
  | step_remount p fl mask recursive : vfs_step v (remount_bind v p fl mask recursive).2
  | step_propagation snap p update recursive : vfs_step v (set_mount_propagation v snap p update recursive).2
  | step_copy snap p : vfs_step v (copy_mount_for_current_namespace v snap p).2
  | step_stack source target : clean_path target → vfs_step v (stack_mount_beneath v source target).2
  | step_move source target : clean_path source → clean_path target → vfs_step v (move_mount_tree v source target).2
  | step_unmount p : vfs_step v (unmount v p).2
  | step_unmount_id id ps : vfs_step v (unmount_id v id ps).1.2
  | step_detach p : vfs_step v (detach_mount v p).2
  | step_detach_ids snap p ps : vfs_step v (detach_mount_ids v snap p ps).1.2
  | step_exit pid ps : vfs_step v (exit_mounts v pid ps).1
  | step_expire p : vfs_step v (begin_expire_mount v p).2
  | step_accessed p : vfs_step v (mark_mount_accessed v p).2
  | step_clone snap : vfs_step v (clone_mount_namespace v snap).2.

Inductive reachable : VFS → Prop :=
  | reach_new : reachable vfs_new
  | reach_step v v' : reachable v → vfs_step v v' → reachable v'.

Lemma vfs_step_ok v v' : vfs_step v v' → vfs_ok v → vfs_ok v'.
Proof.
  intros [] Hv; auto using ok_attach, ok_bind, ok_remount, ok_propagation, ok_copy, ok_stack, ok_move, ok_unmount, ok_remove, ok_expire, ok_accessed, ok_clone.
  - unfold unmount_id. destruct (list_find _ _) as [[i m]|]; [|done]. apply ok_sublist; [apply sublist_delete|done].
  - by apply ok_remove.
  - unfold detach_mount_ids. destruct (map mount_id _); [done|]. by apply ok_sort, ok_detach.
  - unfold exit_mounts. destruct (ps !! pid) as [p|]; [|done]. destruct (p.(exited)); [done|]. destruct (p.(snapshot)); [|done]. by apply ok_detach.
Qed.

Lemma reachable_vfs_ok v : reachable v → vfs_ok v.
Proof.
  induction 1; [|by eapply vfs_step_ok]. split; [constructor|]. split; cbn; [constructor|by intros ? ?%elem_of_nil|by intros ? ? ?%elem_of_nil].
Qed.

(** ** The mount that serves a path *)

Definition covers m (q : list string) : Prop := ∃ ms rs, m.(path) = abs_path ms false ∧ q = ms ++ rs.

Lemma find_in_spec l q e : (∀ m, m ∈ l → clean_path m.(path) ∧ clean_path m.(source_path)) →
  match find_mount_in l (abs_path q e) with
  | Ok (m, r) => ∃ l1 l2 ms rs ss, l = l1 ++ m :: l2 ∧ (∀ x, x ∈ l1 → ¬ covers x q) ∧
      m.(path) = abs_path ms false ∧ q = ms ++ rs ∧ m.(source_path) = abs_path ss false ∧ r = abs_path (ss ++ rs) e
  | Err _ => ∀ m, m ∈ l → ¬ covers m q
  end.
Proof.
  induction l as [|m l IH]; intros Hl; [by intros m ?%elem_of_nil|]. cbn [find_mount_in].
  destruct (Hl m) as [(mn & Hm & Hg) (sn & Hs & Hsg)]; [by left|]. destruct (strip_prefix (abs_path q e) (path m)) as [stripped|] eqn:Hst.
  - rewrite Hm in Hst. apply strip_abs in Hst as (rs & -> & ->). exists [], l, mn, rs, sn. split_and!; [done|by intros x ?%elem_of_nil|done..|].
    unfold join_mount_source. by rewrite Hs, join_path_abs.
  - assert (¬ covers m q) as Hno.
    { intros (ms & rs & Hp & ->). rewrite Hp, strip_abs_app in Hst. done. }
    specialize (IH ltac:(intros x Hx; apply Hl; by right)). destruct (find_mount_in l (abs_path q e)) as [[x r]|].
    + destruct IH as (l1 & l2 & ms & rs & ss & -> & H1 & H2). exists (m :: l1), l2, ms, rs, ss. split; [done|]. split; [|done].
      intros y [->|Hy]%elem_of_cons; [done|by apply H1].
    + intros y [->|Hy]%elem_of_cons; [done|by apply IH].
Qed.

Lemma same_place_len m ms : m.(path) = abs_path ms false → path_len m = Z.of_nat (String.length (as_string (abs_path ms false))).
Proof. unfold path_len. by intros ->. Qed.

Lemma find_innermost v q e : vfs_ok v →
  match find_mount v (abs_path q e) with
  | Ok (m, r) => ∃ ms rs ss, m ∈ v.(mounts) ∧ m.(path) = abs_path ms false ∧ q = ms ++ rs ∧ m.(source_path) = abs_path ss false ∧
      r = abs_path (ss ++ rs) e ∧
      ∀ m' ms', m' ∈ v.(mounts) → m'.(path) = abs_path ms' false → ms' `prefix_of` q →
        ms' `prefix_of` ms ∧ (ms' = ms → m'.(mount_id) <= m.(mount_id))
  | Err _ => ∀ m, m ∈ v.(mounts) → ¬ covers m q
  end.
Proof.
  intros [Hs Ht]. pose proof (find_in_spec (mounts v) q e (table_clean _ _ _ Ht)) as Hf. unfold find_mount.
  destruct (find_mount_in _ _) as [[m r]|]; [|done]. destruct Hf as (l1 & l2 & ms & rs & ss & Hl & H1 & Hp & -> & Hso & ->).
  exists ms, rs, ss. assert (m ∈ mounts v) as Hm by (rewrite Hl; apply elem_of_app; right; by left). split_and!; try done.
  intros m' ms' Hm' Hp' [rs' Hq]. assert (mount_le m m' = true) as Hle.
  { rewrite Hl in Hm'. apply elem_of_app in Hm' as [Hm'|[->|Hm']%elem_of_cons].
    - destruct (H1 m' Hm'). by exists ms', rs'.
    - apply mount_le_spec. lia.
    - rewrite Hl in Hs. clear -Hs Hm'. induction l1 as [|x l1 IH]; cbn in Hs; apply StronglySorted_inv in Hs as [Hs Hall]; [|by apply IH].
      rewrite Forall_forall in Hall. by apply Hall. }
  apply mount_le_spec in Hle. rewrite (same_place_len m ms), (same_place_len m' ms') in Hle by done.
  destruct (prefix_weak_total ms' ms (ms ++ rs)) as [Hpre|[k ->]]; [by exists rs'|by exists rs| |].
  - split; [done|]. intros ->. lia.
  - destruct (decide (k = [])) as [->|Hk]; [rewrite app_nil_r in *; split; [done|lia]|].
    destruct (table_clean _ _ _ Ht m' Hm') as [(mn & Hmn & Hg) _]. rewrite Hp' in Hmn. apply abs_path_inj in Hmn as [<- _].
    pose proof (deeper_longer ms k Hg Hk). lia.
Qed.

(** ** Unmounting undoes mounting *)

Lemma same_id v m m' : vfs_ok v → m ∈ v.(mounts) → m' ∈ v.(mounts) → m.(mount_id) = m'.(mount_id) → m = m'.
Proof.
  intros [_ [H1 _ _]] Hm Hm' Hid. clear -H1 Hm Hm' Hid. induction (mounts v) as [|x l IH]; [by apply elem_of_nil in Hm|]. cbn in H1. apply NoDup_cons in H1 as [Hx Hl].
  assert (∀ y, y ∈ l → y.(mount_id) ≠ x.(mount_id)) as Hno.
  { intros y Hy Heq. apply Hx. rewrite <- Heq. apply list_elem_of_In, in_map. by apply list_elem_of_In. }
  apply elem_of_cons in Hm as [->|Hm], Hm' as [->|Hm']; [done|by destruct (Hno m')|by destruct (Hno m)|by apply IH].
Qed.

Lemma attach_mounts v p f source fl pr : ∃ dev, (attach_mount_with_propagation v p f source fl pr).(mounts) ≡ₚ
  mkMount (normalize p) f (normalize source) fl pr dev v.(next_mount_id) false :: v.(mounts).
Proof.
  unfold attach_mount_with_propagation. destruct (list_find _ _) as [[i m]|]; [exists (device_id m)|exists (next_mount_device_id v)];
    unfold sort_mounts; cbn [mounts with_mounts]; (etrans; [apply sort_by_perm|symmetry; apply Permutation_cons_append]).
Qed.

Lemma retain_first p l1 m l2 : (∀ x, x ∈ l1 → same_text x p = false) → same_text m p = true →
  retain_not_at p false false (l1 ++ m :: l2) = l1 ++ l2.
Proof.
  intros H1 Hm. assert (∀ l, retain_not_at p false true l = l) as Hrest.
  { intros l. induction l as [|x l IH]; cbn; [done|]. destruct (same_text x p); cbn; by rewrite IH. }
  induction l1 as [|x l1 IH]; cbn [app retain_not_at].
  - by rewrite Hm, Hrest.
  - rewrite H1 by by left. cbn. rewrite IH; [done|]. intros y Hy. apply H1. by right.
Qed.

Lemma first_of (f : Mount → bool) l : existsb f l = true → ∃ l1 m l2, l = l1 ++ m :: l2 ∧ f m = true ∧ ∀ x, x ∈ l1 → f x = false.
Proof.
  induction l as [|m l IH]; cbn; [done|]. destruct (f m) eqn:Hm.
  - intros _. exists [], m, l. split_and!; [done..|]. by intros x ?%elem_of_nil.
  - intros H. destruct (IH H) as (l1 & x & l2 & -> & Hx & H1). exists (m :: l1), x, l2. split_and!; [done..|].
    intros y [->|Hy]%elem_of_cons; [done|by apply H1].
Qed.

Lemma sorted_split l1 m l2 : by_place (l1 ++ m :: l2) → (∀ x, x ∈ l2 → mount_le m x = true) ∧ by_place (l1 ++ l2).
Proof.
  induction l1 as [|x l1 IH]; cbn; intros [Hs Hall]%StronglySorted_inv; rewrite Forall_forall in Hall; [by split|].
  destruct (IH Hs) as [H1 H2]. split; [done|]. constructor; [done|]. apply Forall_forall. intros y Hy. apply Hall.
  apply elem_of_app. apply elem_of_app in Hy as [?|?]; [by left|right; by right].
Qed.

Lemma same_text_clean m ms p : good_names ms → good_names p → m.(path) = abs_path ms false → same_text m (abs_path p false) = true ↔ ms = p.
Proof.
  intros Hg Hgp Hm. unfold same_text. rewrite Hm, bool_decide_eq_true. split; [by apply abs_text_inj|by intros ->].
Qed.

(** Unmounting undoes mounting: after a file system is mounted at a place with nothing
    mounted below it, unmounting that place succeeds and leaves every mount of the table as it
    was, in the same order, also where other file systems are mounted at the same place. *)
Lemma unmount_undoes_mount v p f source fl pr :
  reachable v → clean_path p → clean_path source →
  (∀ m, m ∈ v.(mounts) → path_starts_with m.(path) p = true → m.(path) = p) →
  let v' := attach_mount_with_propagation v p f source fl pr in
  (unmount v' p).1 = Ok tt ∧ (unmount v' p).2.(mounts) = v.(mounts).
Proof.
  intros Hr Hcp Hcs Hbelow v'. pose proof (reachable_vfs_ok v Hr) as Hv. assert (vfs_ok v') as Hv' by (by apply ok_attach).
  destruct (attach_mounts v p f source fl pr) as [dev Hperm]. fold v' in Hperm. rewrite (clean_normal p Hcp) in Hperm.
  set (new := mkMount _ _ _ _ _ _ _ _) in Hperm. destruct Hcp as (ps & -> & Hps).
  unfold unmount. rewrite normalize_abs. assert (existsb (λ m, negb (same_path m (abs_path ps false)) && path_starts_with m.(path) (abs_path ps false)) (mounts v') = false) as ->.
  { apply not_true_is_false. intros (m & Hm & Hb)%existsb_exists. apply list_elem_of_In in Hm. rewrite Hperm in Hm. apply andb_true_iff in Hb as [Hne Hst].
    unfold same_path in Hne. apply negb_true_iff, bool_decide_eq_false in Hne. apply elem_of_cons in Hm as [->|Hm]; [done|]. by apply Hne, Hbelow. }
  unfold remove_mounts_at. rewrite normalize_abs. assert (∀ m, m ∈ mounts v' → ∃ ms, m.(path) = abs_path ms false ∧ good_names ms) as Hcl.
  { intros m Hm. destruct (table_clean _ _ _ (proj2 Hv') m Hm) as [(ms & ? & ?) _]. by exists ms. }
  assert (new ∈ mounts v') as Hnew by (rewrite Hperm; by left).
  assert (existsb (λ m, same_text m (abs_path ps false)) (mounts v') = true) as Hex.
  { apply existsb_exists. exists new. split; [by apply list_elem_of_In|]. by apply bool_decide_eq_true. }
  rewrite Hex. split; [done|]. cbn. destruct (first_of _ _ Hex) as (l1 & m & l2 & Hl & Hm & H1). rewrite Hl, retain_first by done.
  destruct Hv' as [Hs' Ht'], Hv as [Hs Ht]. rewrite Hl in Hs'. destruct (sorted_split l1 m l2 Hs') as [Hle Hs2].
  assert (m = new) as ->.
  { rewrite Hl in Hnew. apply elem_of_app in Hnew as [Hn|[->|Hn]%elem_of_cons]; [|done|].
    - specialize (H1 new Hn). assert (same_text new (abs_path ps false) = true) as Hsame by (by apply bool_decide_eq_true). congruence.
    - apply Hle, mount_le_spec in Hn. destruct (Hcl m) as (ms & Hms & Hg); [rewrite Hl; apply elem_of_app; right; by left|].
      apply (same_text_clean m ms ps) in Hm as ->; [|done..].
      assert (path_len m = path_len new) as Hlen by (unfold path_len; by rewrite Hms). cbn in Hn.
      assert (m ∈ mounts v') as Hin by (rewrite Hl; apply elem_of_app; right; by left). rewrite Hperm in Hin.
      apply elem_of_cons in Hin as [->|Hin]; [done|]. destruct (t_mounts _ _ _ Ht m Hin) as [Hid _]. lia. }
  apply (StronglySorted_unique_strong (λ a b, mount_le a b = true)); [|done..|].
  - intros x y Hx Hy Hxy%mount_le_spec Hyx%mount_le_spec. eapply (same_id v'); [by split; [rewrite Hl|]|rewrite Hl|rewrite Hperm|lia].
    + apply elem_of_app. apply elem_of_app in Hx as [?|?]; [by left|right; by right].
    + by right.
  - apply (Permutation_cons_inv (a := new)). rewrite <- Hperm, Hl. by rewrite Permutation_middle.
Qed.

(** C19. The mount that serves a path is the innermost and newest one on it: in every table
    reached by mount operations on clean paths, the mount found for an absolute path without
    dots is of the table and lies on the path; the rest of the path continues below the
    source of that mount; every other mount on the path is mounted at the same place or
    further out, and at the same place it is older. No mount is found only where none lies
    on the path. *)
Theorem innermost_mount_serves v q e : reachable v →
  match find_mount v (abs_path q e) with
  | Ok (m, r) => ∃ place rest source, m ∈ v.(mounts) ∧ m.(path) = abs_path place false ∧ q = place ++ rest ∧
      m.(source_path) = abs_path source false ∧ r = abs_path (source ++ rest) e ∧
      ∀ m' place', m' ∈ v.(mounts) → m'.(path) = abs_path place' false → place' `prefix_of` q →
        place' `prefix_of` place ∧ (place' = place → m'.(mount_id) <= m.(mount_id))
  | Err _ => ∀ m, m ∈ v.(mounts) → ¬ covers m q
  end.
Proof. intros Hv. by apply find_innermost, reachable_vfs_ok. Qed.

(** ** A sample: two file systems at one place *)

Definition stacked : VFS := attach_mount (attach_mount (attach_mount vfs_new (Path_new "/") 0 (Path_new "/") 0) (Path_new "/a") 1 (Path_new "/") 0) (Path_new "/a") 2 (Path_new "/b") 0.

Lemma clean_new s ns : Path_new s = abs_path ns false → good_names ns → clean_path (Path_new s).
Proof. intros -> Hns. by exists ns. Qed.

Ltac solve_clean ns := apply (clean_new _ ns); [reflexivity|by repeat constructor].

Lemma stacked_reachable : reachable stacked.
Proof.
  assert (clean_path (Path_new "/")) as Hr by (solve_clean (@nil string)).
  assert (clean_path (Path_new "/a")) as Ha by (solve_clean ["a"%string]).
  assert (clean_path (Path_new "/b")) as Hb by (solve_clean ["b"%string]).
  eapply (reach_step _ _); [eapply (reach_step _ _); [eapply (reach_step _ _); [apply reach_new|]|]|]; by apply step_attach.
Qed.

Lemma innermost_mount_serves_witness : reachable stacked ∧ ∃ m r, find_mount stacked (abs_path ["a"; "x"]%string true) = Ok (m, r) ∧
  m.(fs) = 2 ∧ r = abs_path ["b"; "x"]%string true ∧ ∀ m', m' ∈ stacked.(mounts) → m'.(path) = m.(path) → m'.(mount_id) <= m.(mount_id).
Proof.
  split; [apply stacked_reachable|]. pose proof (innermost_mount_serves stacked ["a"; "x"]%string true stacked_reachable) as H.
  destruct (find_mount stacked (abs_path ["a"; "x"]%string true)) as [[m r]|] eqn:Hf; [|by vm_compute in Hf].
  exists m, r. split; [done|]. vm_compute in Hf. injection Hf as <- <-. split; [done|]. split; [done|].
  destruct H as (place & rest & source & _ & Hp & Hq & _ & _ & Hall). intros m' Hm' Hp'.
  apply (Hall m' place Hm'); [by rewrite Hp', Hp|by exists rest|done].
Defined.

Lemma unmount_undoes_mount_witness :
  let v' := attach_mount_with_propagation stacked (Path_new "/a") 1 (Path_new "/") 0 MountPropagation.Private in
  reachable stacked ∧ zlen v'.(mounts) = 4 ∧ (unmount v' (Path_new "/a")).1 = Ok tt ∧ (unmount v' (Path_new "/a")).2.(mounts) = stacked.(mounts).
Proof.
  assert (clean_path (Path_new "/")) as Hr by (solve_clean (@nil string)).
  assert (clean_path (Path_new "/a")) as Ha by (solve_clean ["a"%string]).
  intros v'. split; [apply stacked_reachable|]. split; [by vm_compute|]. apply (unmount_undoes_mount stacked _ _ _ _ _ stacked_reachable Ha Hr).
  intros m Hm Hst. apply list_elem_of_In in Hm. vm_compute in Hm. destruct Hm as [<-|[<-|[<-|[]]]]; [done|done|by vm_compute in Hst].
Defined.
