(* ===== verification/VfsResolve.v ===== *)
(** * The walk along a path: it ends, and its answer is canonical

    Every walk follows at most 40 links and then ends, also on links that lead to
    themselves; the path it answers with holds no [.], [..], link or trailing slash, and
    walking along it reaches the same entry again without following a link. *)

From stdpp Require Import strings.
From S2P Require Import Prelude Errors FsPath Vfs VfsProps.

Open Scope Z_scope.

(** ** Paths whose names a text can hold *)

Definition good_part (part : PathPart) : Prop := match part with PathPart.Normal _ => parsed_part part | _ => True end.

Definition good_path (p : Path) : Prop := Forall good_part p.(parts).

Lemma removelast_good l : Forall good_part l → Forall good_part (removelast l).
Proof. induction 1 as [|x l Hx Hl IH]; cbn; [done|]. destruct l; by constructor. Qed.

Lemma normalize_loop_good abs ps acc : Forall good_part acc → Forall good_part ps → Forall good_part (foldl (normalize_step abs) acc ps).
Proof.
  intros Ha Hp. revert acc Ha. induction Hp as [|part ps Hpart Hp IH]; intros acc Ha; cbn [foldl]; [done|]. apply IH.
  assert (Forall good_part (acc ++ [PathPart.ParentDir])) as Hup by (apply Forall_app; split; [done|by repeat constructor]).
  destruct part; cbn; try done.
  - destruct (last acc) as [[| | |d]|]; try destruct abs; try done; by apply removelast_good.
  - apply Forall_app. split; [done|]. constructor; [exact Hpart|constructor].
Qed.

Lemma good_normalize p : good_path p → good_path (normalize p).
Proof. intros Hp. unfold good_path, normalize. cbn. apply normalize_loop_good; [destruct (is_absolute p); by repeat constructor|done]. Qed.

Lemma good_join p q : good_path p → good_path q → good_path (join_path p q).
Proof. intros Hp Hq. unfold good_path, join_path. cbn. apply normalize_loop_good; by apply good_normalize. Qed.

Lemma good_abs ns e : good_names ns → good_path (abs_path ns e).
Proof. intros H. constructor; [done|]. by apply List.Forall_map. Qed.

Lemma good_component p c : good_path p → parsed_part (PathPart.Normal c) → good_path (join_component p c).
Proof. intros Hp Hc. apply Forall_app. split; [by apply good_normalize|]. constructor; [exact Hc|constructor]. Qed.

Lemma good_components p : good_path p → good_names (path_components p).
Proof. unfold good_path, path_components, good_names. induction 1 as [|x l Hx Hl IH]; cbn; [done|]. destruct x; cbn; [done..|by constructor]. Qed.

Lemma good_new s : good_path (Path_new s).
Proof.
  destruct (Path_new_shape s) as (abs & body & Hp & Hb & _). unfold good_path. rewrite Hp. apply Forall_app. split; [destruct abs; by repeat constructor|].
  eapply List.Forall_impl; [|exact Hb]. intros part [Hpart _]. by destruct part.
Qed.

Lemma list_snoc_inv {A} (l : list A) : l = [] ∨ ∃ k x, l = k ++ [x].
Proof. destruct l as [|x l _] using rev_ind; [by left|right; by exists l, x]. Qed.

(** ** One round *)

Section walk.
Context {W N : Type} `{FileSystems W N}.
Implicit Types (w : W) (R : PathResolver N).

Definition is_link (entry : FileLike N) : bool := match entry with FileLike.Symlink _ => true | _ => false end.

Lemma follow_link_answers w R followed p link rest : match follow_link w R followed p link rest with
  | Finished r => ∃ e, r = Err e
  | Restart q => followed < MAX_SYMLINKS ∧ ∃ target, link_target w link = Ok target ∧ q = rewrite_symlink_target p target rest
  end.
Proof.
  unfold follow_link. destruct (mount_flags R p) as [fl|e]; [|by exists e]. destruct (Z.eqb _ _); [by eexists|].
  destruct (Z.ltb_spec MAX_SYMLINKS (followed + 1)); [by eexists|]. destruct (link_target w link) as [t|e]; [|by exists e].
  split; [lia|by exists t].
Qed.

(** A pass that ends with an entry followed no link, so the same components lead there again. *)
Lemma walk_components_end w R ff slash followed cs : ∀ current base entry q,
  walk_components w R ff slash followed current (abs_path base false) cs = Finished (Ok (entry, q)) →
  q = abs_path (base ++ cs) false ∧ (cs ≠ [] → ff = true → is_link entry = false) ∧
  ∀ followed', walk_components w R ff false followed' current (abs_path base false) cs = Finished (Ok (entry, q)).
Proof.
  induction cs as [|c cs IH]; intros current base entry q; cbn [walk_components].
  { intros [= <- <-]. by rewrite app_nil_r. }
  rewrite join_component_abs. destruct (lookup_child R current _ c) as [next|e]; [|done]. destruct cs as [|d cs], next as [n|n|n]; try done.
  - destruct slash; [done|]. intros [= <- <-]. done.
  - intros [= <- <-]. done.
  - destruct ff; cbn [orb]; [|destruct slash].
    1,2: intros Hf; pose proof (follow_link_answers w R followed (abs_path (base ++ [c]) false) n []) as Ha; rewrite Hf in Ha; by destruct Ha.
    intros [= <- <-]. done.
  - intros Hw. apply IH in Hw as (-> & Hl & Hw). rewrite <- app_assoc in *. split_and!; [done|by intros _; apply Hl|done].
  - intros Hf. pose proof (follow_link_answers w R followed (abs_path (base ++ [c]) false) n (d :: cs)) as Ha. rewrite Hf in Ha. by destruct Ha.
Qed.

(** A pass that does not end follows a link that it may still follow. *)
Lemma walk_components_restart w R ff slash followed cs : ∀ current base q,
  walk_components w R ff slash followed current (abs_path base false) cs = Restart q →
  followed < MAX_SYMLINKS ∧ ∃ ms rest link target, cs = ms ++ rest ∧ link_target w link = Ok target ∧
    q = rewrite_symlink_target (abs_path (base ++ ms) false) target rest.
Proof.
  induction cs as [|c cs IH]; intros current base q; cbn [walk_components]; [done|].
  rewrite join_component_abs. destruct (lookup_child R current _ c) as [next|e]; [|done].
  assert (∀ n rest, rest = cs → follow_link w R followed (abs_path (base ++ [c]) false) n rest = Restart q →
    followed < MAX_SYMLINKS ∧ ∃ ms rest link target, c :: cs = ms ++ rest ∧ link_target w link = Ok target ∧
    q = rewrite_symlink_target (abs_path (base ++ ms) false) target rest) as Hlink.
  { intros n rest -> Hf. pose proof (follow_link_answers w R followed (abs_path (base ++ [c]) false) n cs) as Ha. rewrite Hf in Ha.
    destruct Ha as (Hm & t & Ht & ->). split; [done|]. by exists [c], cs, n, t. }
  destruct cs as [|d cs], next as [n|n|n]; try done.
  - destruct (_ || _); [|done]. by apply Hlink.
  - intros Hw. apply IH in Hw as (Hm & ms & rest & link & t & Hcs & Ht & ->). split; [done|]. exists (c :: ms), rest, link, t.
    split_and!; [by rewrite Hcs|done|by rewrite <- app_assoc].
  - by apply Hlink.
Qed.

Lemma walk_round_restart w R ff followed p q : walk_round w R ff followed p = Restart q →
  followed < MAX_SYMLINKS ∧ ∃ ms rest link target, path_components (normalize p) = ms ++ rest ∧ link_target w link = Ok target ∧
    q = rewrite_symlink_target (abs_path ms false) target rest.
Proof.
  unfold walk_round. destruct (resolve_root R) as [r|e]; [|done]. destruct (path_components (normalize p)) as [|c cs] eqn:Hc; [done|].
  rewrite <- Hc. intros Hw. by apply (walk_components_restart w R ff _ followed _ r []) in Hw.
Qed.

Lemma walk_round_end w R ff followed p entry q : good_path p → walk_round w R ff followed p = Finished (Ok (entry, q)) →
  clean_path q ∧ (ff = true → is_link entry = false ∨ q = Path_new "/") ∧ ∀ followed', walk_round w R ff followed' q = Finished (Ok (entry, q)).
Proof.
  intros Hp. unfold walk_round. destruct (resolve_root R) as [r|e]; [|done]. pose proof (good_components _ (good_normalize p Hp)) as Hg.
  destruct (path_components (normalize p)) as [|c cs] eqn:Hc.
  - intros [= <- <-]. split; [by exists []|]. split; [by right|done].
  - set (slash' := str_ends_with_slash _). intros Hw. apply (walk_components_end w R ff slash' followed (c :: cs) r []) in Hw as (-> & Hl & Hw).
    cbn [app] in *. split; [by exists (c :: cs)|]. split; [intros Hf; left; by apply Hl|]. intros followed'.
    rewrite normalize_abs, components_abs, abs_no_slash by done. apply Hw.
Qed.

Lemma rewrite_good current target rest : good_names current → good_path target → good_names rest →
  good_path (rewrite_symlink_target (abs_path current false) target rest).
Proof.
  intros Hc Ht Hr. unfold rewrite_symlink_target. apply good_normalize. set (start := normalize _). assert (good_path start) as Hs.
  { apply good_normalize. destruct (is_absolute target); [done|]. apply good_join; [|done]. destruct (list_snoc_inv current) as [->|(up & c & ->)].
    - apply good_new.
    - rewrite parent_abs. apply good_abs. by apply good_app in Hc as [? _]. }
  clearbody start. revert start Hs. induction Hr as [|c rest Hc' Hr IH]; intros start Hs; cbn; [done|]. by apply IH, good_component.
Qed.

(** ** All rounds *)

Lemma walk_rounds_end w R ff fuel : ∀ followed p, followed <= MAX_SYMLINKS < Z.of_nat fuel + followed → ∃ r, walk_rounds fuel w R ff followed p = Some r.
Proof.
  induction fuel as [|fuel IH]; intros followed p Hf; [lia|].
  cbn. destruct (walk_round w R ff followed p) as [r|q] eqn:Hr; [by exists r|]. apply walk_round_restart in Hr as [Hr _]. apply IH; lia.
Qed.

Lemma walk_rounds_more w R ff fuel fuel' : ∀ followed p r, (fuel <= fuel')%nat → walk_rounds fuel w R ff followed p = Some r → walk_rounds fuel' w R ff followed p = Some r.
Proof.
  revert fuel'. induction fuel as [|fuel IH]; intros fuel' followed p r Hle; [done|]. destruct fuel' as [|fuel']; [lia|]. cbn.
  destruct (walk_round w R ff followed p); [done|]. apply IH. lia.
Qed.

Lemma walk_rounds_answer w R ff : (∀ link t, link_target w link = Ok t → good_path t) → ∀ fuel followed p entry q, good_path p →
  walk_rounds fuel w R ff followed p = Some (Ok (entry, q)) → ∃ followed' p', good_path p' ∧ walk_round w R ff followed' p' = Finished (Ok (entry, q)).
Proof.
  intros Ht fuel. induction fuel as [|fuel IH]; intros followed p entry q Hp; cbn; [done|].
  destruct (walk_round w R ff followed p) as [r|p'] eqn:Hr.
  - intros [= ->]. by exists followed, p.
  - apply IH. apply walk_round_restart in Hr as (_ & ms & rest & link & t & Hc & Hl & ->).
    assert (good_names (ms ++ rest)) as [Hms Hrest]%good_app by (rewrite <- Hc; by apply good_components, good_normalize).
    apply rewrite_good; [done|by apply (Ht link)|done].
Qed.

(** The walk ends: for every file system state, table of mounts and path, also where links
    lead to themselves or to each other, the loop of [resolve_path_walk] has an answer after
    at most 41 rounds (40 links), and the answer does not depend on the bound put on them. *)
Lemma resolution_terminates w R p ff :
  ∃ r, resolve_path_walk w R p ff = Some r ∧
    ∀ fuel, (walk_fuel <= fuel)%nat → walk_rounds fuel w R ff 0 (normalize p) = Some r.
Proof.
  destruct (walk_rounds_end w R ff walk_fuel 0 (normalize p)) as [r Hr]; [unfold walk_fuel, MAX_SYMLINKS; lia|].
  exists r. split; [done|]. intros fuel Hle. by eapply walk_rounds_more.
Qed.

(** The answer of a resolution is canonical: its path is absolute and holds no [.], [..]
    or trailing slash; resolving that path again gives the same entry and the same path, so no
    link is left on it; and where links are followed the entry is not a link (the root
    directory apart, which is what its file system says). *)
Lemma resolved_path_canonical w v snapshot p ff entry q :
  (∀ link t, link_target w link = Ok t → good_path t) → good_path p →
  resolve_path w v snapshot p ff = Ok (entry, q) →
  clean_path q ∧ (ff = true → q ≠ Path_new "/" → is_link entry = false) ∧
  resolve_path w v snapshot q ff = Ok (entry, q).
Proof.
  intros Ht Hp. unfold resolve_path, resolve_with_mounts. destruct (resolve_path_walk w _ p ff) as [r|] eqn:Hr; [|done]. cbn. intros ->.
  apply (walk_rounds_answer w _ ff Ht) in Hr as (followed & p' & Hp' & Hr); [|by apply good_normalize].
  apply walk_round_end in Hr as (Hc & Hl & Hr); [|done]. split; [done|]. split.
  { intros Hf Hq. by destruct (Hl Hf). }
  unfold resolve_path_walk. rewrite (clean_normal q Hc). cbn [walk_rounds walk_fuel]. change walk_fuel with (S (Z.to_nat MAX_SYMLINKS)).
  cbn [walk_rounds]. by rewrite Hr.
Qed.
End walk.
