(* ===== verification/VfsCreate.v ===== *)
(** * Creating a file makes its path resolve

    [CreationLaws] states what the walk relies on of the file systems: a creation keeps what
    was found before.  Against it: after [create_file_with_metadata] the path resolves to the
    new file, through the same links and mounts as the directory it was made in. *)

From stdpp Require Import strings.
From S2P Require Import Prelude Errors FsPath Vfs VfsProps VfsResolve.

Open Scope Z_scope.

Definition inner {N} (x : FileLike N) : N := match x with FileLike.File n | FileLike.Directory n | FileLike.Symlink n => n end.

(** [handed]: the entries that lookups hand out. *)
Class CreationLaws (W N : Type) `{FileSystems W N} := {
  inv : W → Prop;
  handed : N → Prop;
  lookup_handed w f p x : inv w → good_path p → fs_lookup w f p = Ok x → handed (inner x);
  get_handed w d c x : inv w → handed d → parsed_part (PathPart.Normal c) → dir_get w d c = Ok x → handed (inner x);
  target_good w link t : link_target w link = Ok t → good_path t;
  create_file_law w d c mode rdev w' : inv w → handed d → parsed_part (PathPart.Normal c) →
    dir_create w d (mkContent c ContentType.File mode rdev) = (Ok tt, w') →
    (∀ f p x, good_path p → fs_lookup w f p = Ok x → fs_lookup w' f p = Ok x) ∧
    (∀ d c x, handed d → parsed_part (PathPart.Normal c) → dir_get w d c = Ok x → dir_get w' d c = Ok x) ∧
    (∀ n t, handed n → link_target w n = Ok t → link_target w' n = Ok t) ∧
    ∃ n, dir_get w' d c = Ok (FileLike.File n);
}.

(** ** Absolute paths *)

Lemma absolute_abs p : good_path p → is_absolute p = true → ∃ ns e, normalize p = abs_path ns e ∧ good_names ns.
Proof.
  intros Hp Ha. exists (FsPath.resolve p).2, p.(ends_with_slash). assert ((normalize p).(parts) = (abs_path (FsPath.resolve p).2 false).(parts)) as Hn.
  { rewrite normalize_parts, Ha, (resolve_absolute p Ha). done. }
  split; [|].
  - change (normalize p) with (mkPath (normalize p).(parts) p.(ends_with_slash)). by rewrite Hn.
  - apply good_normalize in Hp. unfold good_path in Hp. rewrite Hn in Hp. apply (good_components (abs_path (FsPath.resolve p).2 false)) in Hp. by rewrite components_abs in Hp.
Qed.

Lemma join_components_abs ts e rest : foldl join_component (abs_path ts e) rest = abs_path (ts ++ rest) (match rest with [] => e | _ => false end).
Proof.
  assert (∀ ts, foldl join_component (abs_path ts false) rest = abs_path (ts ++ rest) false) as Hj.
  { induction rest as [|c rest IH]; intros ts'; cbn [foldl]; [by rewrite app_nil_r|]. rewrite join_component_abs, IH. by rewrite <- app_assoc. }
  destruct rest as [|c rest]; cbn [foldl]; [by rewrite app_nil_r|]. rewrite join_component_abs.
  specialize (Hj ts). cbn [foldl] in Hj. by rewrite join_component_abs in Hj.
Qed.

Lemma rewrite_abs current target : good_names current → good_path target →
  ∃ ts e, good_names ts ∧ ∀ rest, rewrite_symlink_target (abs_path current false) target rest = abs_path (ts ++ rest) (match rest with [] => e | _ => false end).
Proof.
  intros Hc Ht. unfold rewrite_symlink_target. set (start := if is_absolute target then _ else _). assert (good_path start ∧ is_absolute start = true) as [Hs Ha].
  { subst start. destruct (is_absolute target) eqn:Ha; [done|]. assert (∃ up, default (Path_new "/") (parent (abs_path current false)) = abs_path up false ∧ good_names up) as (up & -> & Hup).
    { destruct (list_snoc_inv current) as [->|(up & c & ->)]; [by exists []|]. rewrite parent_abs. exists up. by apply good_app in Hc as [? _]. }
    split; [apply good_join; [by apply good_abs|done]|]. unfold join_path. rewrite normalize_abs. cbn [is_absolute parts].
    pose proof (normalize_absolute (mkPath (PathPart.Root :: map PathPart.Normal up ++ (normalize target).(parts)) false)) as Hn.
    unfold normalize in Hn. cbn [is_absolute head parts] in Hn. cbn [foldl] in Hn. rewrite foldl_app in Hn.
    change (normalize_step true [PathPart.Root] PathPart.Root) with [PathPart.Root] in Hn. by rewrite normalize_step_names in Hn. }
  destruct (absolute_abs start Hs Ha) as (ts & e & -> & Hts). exists ts, e. split; [done|]. intros rest. by rewrite join_components_abs, normalize_abs.
Qed.

(** ** What was found is found again *)

Section extension.
Context {W N : Type} `{CreationLaws W N}.
Variables (w w' : W) (l : list Mount).
Hypothesis w_inv : inv w.
Hypothesis table : ∀ m, m ∈ l → clean_path m.(path) ∧ clean_path m.(source_path).
Hypothesis keeps_lookup : ∀ f p x, good_path p → fs_lookup w f p = Ok x → fs_lookup w' f p = Ok x.
Hypothesis keeps_get : ∀ d c x, handed d → parsed_part (PathPart.Normal c) → dir_get w d c = Ok x → dir_get w' d c = Ok x.
Hypothesis keeps_target : ∀ n t, handed n → link_target w n = Ok t → link_target w' n = Ok t.

Abbreviation R := (mounts_resolver w l).
Abbreviation R' := (mounts_resolver w' l).

Lemma served_good ns e m r : good_names ns → find_mount_in l (abs_path ns e) = Ok (m, r) → good_path r.
Proof.
  intros Hg Hf. pose proof (find_in_spec l ns e table) as Hs. rewrite Hf in Hs. destruct Hs as (l1 & l2 & ms & rs & ss & Hl & _ & _ & -> & Hso & ->).
  apply good_abs, good_app. split; [|by apply good_app in Hg as [_ ?]]. destruct (table m) as [_ (sn & Hsn & Hg')]; [rewrite Hl; apply elem_of_app; right; by left|].
  rewrite Hso in Hsn. by apply abs_path_inj in Hsn as [-> _].
Qed.

Lemma raw_kept ns x : good_names ns → resolve_raw_with_mounts w l (abs_path ns false) = Ok x →
  resolve_raw_with_mounts w' l (abs_path ns false) = Ok x ∧ handed (inner x).
Proof.
  unfold resolve_raw_with_mounts. rewrite normalize_abs. intros Hg. destruct (find_mount_in l (abs_path ns false)) as [[m r]|e] eqn:Hf; [|done]. cbn.
  apply served_good in Hf; [|done]. intros Hx. split; [by apply keeps_lookup|exact (lookup_handed w _ _ x w_inv Hf Hx)].
Qed.

Lemma child_kept current ns c x : handed (inner current) → good_names (ns ++ [c]) → lookup_child R current (abs_path (ns ++ [c]) false) c = Ok x →
  lookup_child R' current (abs_path (ns ++ [c]) false) c = Ok x ∧ handed (inner x).
Proof.
  intros Hh Hg. cbn. destruct current as [n|n|n]; try done. destruct (find_mount_in l _) as [[m r]|e]; [|done]. cbn.
  destruct (decide _); [by apply raw_kept|]. apply good_app in Hg as [_ Hc]. apply List.Forall_inv in Hc.
  intros Hx. split; [exact (keeps_get n c x Hh Hc Hx)|exact (get_handed w n c x w_inv Hh Hc Hx)].
Qed.

Lemma link_kept followed base c link rest q : good_names (base ++ [c]) → handed link →
  follow_link w R followed (abs_path (base ++ [c]) false) link rest = Restart q →
  ∃ ts e, good_names ts ∧ q = abs_path (ts ++ rest) (match rest with [] => e | _ => false end) ∧
  ∀ rest', follow_link w' R' followed (abs_path (base ++ [c]) false) link rest' = Restart (abs_path (ts ++ rest') (match rest' with [] => e | _ => false end)).
Proof.
  intros Hg Hh. unfold follow_link. change (mount_flags R') with (mount_flags R). destruct (mount_flags R _) as [fl|]; [|done].
  destruct (Z.eqb _ _); [done|]. destruct (Z.ltb _ _); [done|]. destruct (link_target w link) as [t|] eqn:Ht; [|done].
  intros [= <-]. destruct (rewrite_abs (base ++ [c]) t Hg (target_good _ _ _ Ht)) as (ts & e & Hts & Hr). exists ts, e. split; [done|].
  rewrite Hr. split; [done|]. intros rest'. by rewrite (keeps_target _ _ Hh Ht), Hr.
Qed.

(** A pass to a directory can be continued with another component. *)
Lemma walk_components_extend slash ff' slash' followed c cs : cs ≠ [] → ∀ current base, handed (inner current) → good_names (base ++ cs) →
  match walk_components w R true slash followed current (abs_path base false) cs with
  | Finished (Ok (FileLike.Directory d, q)) => handed d ∧ q = abs_path (base ++ cs) false ∧
      walk_components w' R' ff' slash' followed current (abs_path base false) (cs ++ [c]) =
      walk_components w' R' ff' slash' followed (FileLike.Directory d) q [c]
  | Restart q => ∃ ts e, good_names ts ∧ q = abs_path ts e ∧
      walk_components w' R' ff' slash' followed current (abs_path base false) (cs ++ [c]) = Restart (abs_path (ts ++ [c]) false)
  | _ => True
  end.
Proof.
  induction cs as [|a cs IH]; [done|]. intros _ current base Hh Hg. cbn [walk_components app]. rewrite join_component_abs.
  assert (good_names (base ++ [a]) ∧ good_names cs) as [Hba Hcs] by (rewrite cons_middle, app_assoc in Hg; by apply good_app in Hg).
  destruct (lookup_child R current _ a) as [next|e] eqn:Hl; [|done]. apply child_kept in Hl as [-> Hn]; [|done..].
  destruct cs as [|b cs], next as [n|n|n]; cbn [app orb]; try done.
  - by destruct slash.
  - pose proof (follow_link_answers w R followed (abs_path (base ++ [a]) false) n []) as Ha.
    destruct (follow_link w R _ _ n []) as [r|q] eqn:Hf; [by destruct Ha as [e ->]|]. apply link_kept in Hf as (ts & e & Hts & -> & Hr); [|done..].
    rewrite app_nil_r in *. exists ts, e. by rewrite Hr.
  - specialize (IH ltac:(done) (FileLike.Directory n) (base ++ [a]) Hn). rewrite <- (app_assoc base [a] (b :: cs)) in IH. by apply IH.
  - pose proof (follow_link_answers w R followed (abs_path (base ++ [a]) false) n (b :: cs)) as Ha.
    destruct (follow_link w R _ _ n (b :: cs)) as [r|q] eqn:Hf; [by destruct Ha as [e ->]|]. apply link_kept in Hf as (ts & e & Hts & -> & Hr); [|done..].
    exists (ts ++ b :: cs), false. split; [by apply good_app|]. split; [done|]. rewrite (Hr (b :: cs ++ [c])). by rewrite <- app_assoc.
Qed.

Lemma walk_round_extend ff' followed c ns e : good_names (ns ++ [c]) →
  match walk_round w R true followed (abs_path ns e) with
  | Finished (Ok (FileLike.Directory d, q)) => handed d ∧ clean_path q ∧
      walk_round w' R' ff' followed (abs_path (ns ++ [c]) false) = walk_components w' R' ff' false followed (FileLike.Directory d) q [c]
  | Restart q => ∃ ts e, good_names ts ∧ q = abs_path ts e ∧ walk_round w' R' ff' followed (abs_path (ns ++ [c]) false) = Restart (abs_path (ts ++ [c]) false)
  | _ => True
  end.
Proof.
  intros Hg. unfold walk_round. rewrite !normalize_abs, !components_abs, (abs_no_slash (ns ++ [c])) by (done || by destruct ns).
  destruct (resolve_root R) as [root|err] eqn:Hroot; [|done]. apply (raw_kept []) in Hroot as [Hroot Hh]; [|by constructor].
  change (resolve_root R') with (resolve_raw_with_mounts w' l (abs_path [] false)). rewrite Hroot.
  destruct ns as [|a ns].
  - cbn [app]. destruct root as [n|n|n]; try done. split; [done|]. split; [exists []; by repeat constructor|done].
  - apply good_app in Hg as [Hg Hc]. pose proof (walk_components_extend (str_ends_with_slash (as_string (abs_path (a :: ns) e))) ff' false followed c (a :: ns) ltac:(done) root [] Hh Hg) as Hw.
    cbn [app] in *. change (Path_new "/") with (abs_path [] false). destruct (walk_components w R _ _ _ _ _ _) as [[[[n|n|n] q]|err]|q]; try done.
    destruct Hw as (Hn & -> & Hw). split; [done|]. split; [by exists (a :: ns)|done].
Qed.

Lemma walk_rounds_extend ff' c n fuel : ∀ followed ns e d q, good_names (ns ++ [c]) → dir_get w' d c = Ok (FileLike.File n) →
  (∀ m, m ∈ l → m.(path) ≠ join_component q c) →
  walk_rounds fuel w R true followed (abs_path ns e) = Some (Ok (FileLike.Directory d, q)) →
  walk_rounds fuel w' R' ff' followed (abs_path (ns ++ [c]) false) = Some (Ok (FileLike.File n, join_component q c)).
Proof.
  induction fuel as [|fuel IH]; intros followed ns e d q Hg Hget Hnone; cbn [walk_rounds]; [done|].
  pose proof (walk_round_extend ff' followed c ns e Hg) as Hw. destruct (walk_round w R true followed (abs_path ns e)) as [r|p] eqn:Hr.
  - intros [= ->]. destruct Hw as (Hh & (qs & -> & Hq) & ->). cbn [walk_components]. rewrite join_component_abs in *. cbn.
    destruct (find_mount_in l _) as [[m r]|err] eqn:Hf.
    + pose proof (find_in_spec l (qs ++ [c]) false table) as Hs. rewrite Hf in Hs. destruct Hs as (l1 & l2 & _ & _ & _ & -> & _). cbn.
      rewrite decide_False; [by rewrite Hget|]. apply Hnone, elem_of_app. right. by left.
    + exfalso. pose proof (find_in_spec l (qs ++ [c]) false table) as Hs. rewrite Hf in Hs.
      unfold walk_round in Hr. destruct (resolve_root R) as [root|] eqn:Hroot; [|done]. cbn in Hroot. unfold resolve_raw_with_mounts in Hroot.
      change (normalize _) with (abs_path [] false) in Hroot. destruct (find_mount_in l (abs_path [] false)) as [[m r]|] eqn:Hf0; [|done].
      pose proof (find_in_spec l [] false table) as Hs0. rewrite Hf0 in Hs0. destruct Hs0 as (l1 & l2 & ms & rs & ss & Hl & _ & Hm & Hms & _).
      symmetry in Hms. apply app_nil in Hms as [-> ->]. apply (Hs m); [rewrite Hl; apply elem_of_app; right; by left|]. by exists [], (qs ++ [c]).
  - intros Hrest. destruct Hw as (ts & e' & Hts & -> & ->). apply (IH _ ts e' d); try done. apply good_app. split; [done|]. by apply good_app in Hg as [_ ?].
Qed.

Lemma walk_rounds_handed c fuel : ∀ followed ns e d q, good_names (ns ++ [c]) →
  walk_rounds fuel w R true followed (abs_path ns e) = Some (Ok (FileLike.Directory d, q)) → handed d.
Proof.
  induction fuel as [|fuel IH]; intros followed ns e d q Hg; cbn [walk_rounds]; [done|].
  pose proof (walk_round_extend true followed c ns e Hg) as Hw. destruct (walk_round w R true followed (abs_path ns e)) as [r|p].
  - intros [= ->]. by destruct Hw.
  - destruct Hw as (ts & e' & Hts & -> & _). apply IH. apply good_app. split; [done|]. by apply good_app in Hg as [_ ?].
Qed.
End extension.

Lemma parent_normal p : parent (normalize p) = parent p.
Proof. unfold parent. by rewrite normalize_idemp. Qed.

Lemma file_name_normal p : file_name (normalize p) = file_name p.
Proof. unfold file_name. by rewrite normalize_idemp. Qed.

Lemma resolved_no_link {W N} `{CreationLaws W N} w v us l q : good_names us →
  (∀ link, resolve_root (mounts_resolver w v.(mounts)) ≠ Ok (FileLike.Symlink link)) →
  resolve_internal w v (abs_path us false) true ≠ Ok (FileLike.Symlink l, q).
Proof.
  intros Hus Hroot. unfold resolve_internal, resolve_with_mounts. destruct (resolve_path_walk w _ _ true) as [r|] eqn:Hr; [|done]. intros Ha. cbn in Ha. subst r.
  apply (walk_rounds_answer w _ true (target_good w)) in Hr as (followed & p & Hp & Hr); [|rewrite !normalize_abs; by apply good_abs].
  apply walk_round_end in Hr as (_ & Hl & Hr); [|done]. destruct (Hl eq_refl) as [?| ->]; [done|]. specialize (Hr 0). unfold walk_round in Hr.
  destruct (resolve_root _) as [root|] eqn:Hroot'; [|done]. injection Hr as ->. by apply (Hroot l).
Qed.

(** C17. Creating a file makes its path resolve, over file systems that obey [CreationLaws],
    where the root is not itself a link. When [create_file_with_metadata] succeeds at an
    absolute path of clean components, its parent resolved to a directory; and unless a
    mount covers the new name in that directory, the path now resolves to a file, whose
    resolved path is the name in that directory, whether or not links at the end are
    followed. *)
Theorem created_file_resolves {W N} `{CreationLaws W N} w v p mode rdev w' ff :
  inv w → reachable v → good_path p → is_absolute p = true →
  (∀ link, resolve_root (mounts_resolver w v.(mounts)) ≠ Ok (FileLike.Symlink link)) →
  create_file_with_metadata w v p mode rdev = (Ok tt, w') →
  ∃ up name d q, parent p = Some up ∧ file_name p = Some name ∧
    resolve_internal w v up true = Ok (FileLike.Directory d, q) ∧
    ((∀ m, m ∈ v.(mounts) → m.(path) ≠ join_component q name) →
     ∃ n, resolve_internal w' v p ff = Ok (FileLike.File n, join_component q name)).
Proof.
  intros Hinv Hr Hp Ha Hroot. unfold create_file_with_metadata. destruct (absolute_abs p Hp Ha) as (ns & e & Hn & Hns). rewrite Hn.
  destruct e; [done|]. cbn [ends_with_slash abs_path]. destruct (ensure_writable_mount v _) as [?|]; [|done]. cbn.
  unfold resolve_parent_normalized. destruct (list_snoc_inv ns) as [->|(us & c & ->)]; [done|]. rewrite file_name_abs, parent_abs.
  apply good_app in Hns as [Hus Hc']. unfold resolve_dir. change walk_fuel with (S (pred walk_fuel)). cbn [resolve_dir_in].
  destruct (resolve_internal w v (abs_path us false) true) as [[[d|d|d] q]|] eqn:Hup; try done.
  2:{ by destruct (resolved_no_link w v us d q Hus Hroot). }
  cbn. intros Hc. assert (parsed_part (PathPart.Normal c)) as Hname by (by apply List.Forall_inv in Hc').
  assert (∀ m, m ∈ mounts v → clean_path m.(path) ∧ clean_path m.(source_path)) as Ht by (apply (table_clean _ _ _ (proj2 (reachable_vfs_ok v Hr)))).
  assert (resolve_internal w v (abs_path us false) true = answer (walk_rounds walk_fuel w (mounts_resolver w (mounts v)) true 0 (abs_path us false))) as Hwalk.
  { unfold resolve_internal, resolve_with_mounts, resolve_path_walk. by rewrite !normalize_abs. }
  rewrite Hwalk in Hup. destruct (walk_rounds _ w _ true 0 (abs_path us false)) as [r|] eqn:Hrounds; [|done]. cbn in Hup. subst r.
  assert (good_names (us ++ [c])) as Hg by (by apply good_app).
  assert (handed d) as Hd by (exact (walk_rounds_handed w w _ Hinv Ht (λ _ _ _ _ H, H) (λ _ _ _ _ _ H, H) (λ _ _ _ H, H) c _ _ _ _ _ _ Hg Hrounds)).
  destruct (create_file_law w d c mode rdev w' Hinv Hd Hname Hc) as (Hk1 & Hk2 & Hk3 & n & Hget).
  exists (abs_path us false), c, d, q. split; [by rewrite <- parent_normal, Hn, parent_abs|].
  split; [change (file_name p = Some c); by rewrite <- file_name_normal, Hn, file_name_abs|]. split; [by rewrite Hwalk|].
  intros Hnone. exists n. unfold resolve_internal, resolve_with_mounts, resolve_path_walk. rewrite Hn, !normalize_abs.
  by rewrite (walk_rounds_extend w w' _ Hinv Ht Hk1 Hk2 Hk3 ff c n _ _ _ _ _ _ Hg Hget Hnone Hrounds).
Qed.
