(* ===== verification/VfsTmpfs.v ===== *)
(** * Temporary file systems below the virtual file system

    The mounted file systems are those of Tmpfs here, one state for each; an entry is a file
    system and a path text in it, as the handles of filesystem/tmpfs hold it.  They satisfy
    what the walk relies on, so a file created through the mounts resolves; and concrete
    runs over them show where the code does not do what it means to. *)

From stdpp Require Import strings.
From S2P Require Import Prelude Errors SparseFile FsPath Tmpfs TmpfsTree TmpfsProps Vfs VfsProps VfsResolve VfsCreate.

Open Scope Z_scope.

(** ** The interface of Vfs over Tmpfs *)

Abbreviation Systems := (gmap Z TmpfsState).
Abbreviation Entry := (Z * string)%type.

(** The entry of a handle; device files are files to the walk. *)
Definition entry_of (f : Z) (x : Tmpfs.FileLike) : Vfs.FileLike Entry :=
  match x with
  | Tmpfs.FileLike.Directory path => Vfs.FileLike.Directory (f, path)
  | Tmpfs.FileLike.File path _ | Tmpfs.FileLike.DeviceFile path _ _ => Vfs.FileLike.File (f, path)
  | Tmpfs.FileLike.Symlink path => Vfs.FileLike.Symlink (f, path)
  end.

Definition system (w : Systems) (f : Z) : result FSError TmpfsState := ok_or (w !! f) FSError.NotFound.

Definition on_system (w : Systems) (f : Z) (op : TmpfsState → result FSError unit * TmpfsState) : result FSError unit * Systems :=
  match w !! f with
  | None => (Err FSError.NotFound, w)
  | Some st => let '(r, st) := op st in (r, <[f := st]> w)
  end.

Definition tmpfs_content (info : Vfs.DirectoryContentInfo) : Tmpfs.DirectoryContentInfo :=
  mkContentInfo info.(Vfs.content_name)
    match info.(Vfs.content_type) with
    | Vfs.ContentType.File => Tmpfs.DirectoryContentType.File
    | Vfs.ContentType.Directory => Tmpfs.DirectoryContentType.Directory
    | Vfs.ContentType.Symlink => Tmpfs.DirectoryContentType.Symlink
    end info.(Vfs.permission) info.(Vfs.content_rdev).

(** A line of a listing *)
Definition listed (st : TmpfsState) (path name : string) : Vfs.DirectoryContentInfo :=
  mkContent name
    match node st (child_path path name) with
    | Ok n => match n.(kind) with
              | TmpNodeKind.Directory _ _ => Vfs.ContentType.Directory
              | TmpNodeKind.Symlink _ => Vfs.ContentType.Symlink
              | _ => Vfs.ContentType.File
              end
    | Err _ => Vfs.ContentType.File
    end None 0.

Section instance.
Context (owner : Z * Z) (now : FileTimes).

#[global] Instance tmpfs_systems : FileSystems Systems Entry := {
  fs_lookup w f p := st ← system w f; x ← (tmpfs_lookup_path st (absolute_tmp_path p)).1; Ok (entry_of f x);
  fs_rename w f p q := on_system w f (λ st, Tmpfs.rename st (absolute_tmp_path p) (absolute_tmp_path q));
  fs_link w f p q := on_system w f (λ st, Tmpfs.link st (absolute_tmp_path p) (absolute_tmp_path q));
  dir_get w d c := st ← system w d.1; x ← (directory_get st d.2 c).1; Ok (entry_of d.1 x);
  dir_create w d info := on_system w d.1 (λ st, directory_create st owner now d.2 (tmpfs_content info));
  dir_create_symlink w d c target := on_system w d.1 (λ st, Tmpfs.create_symlink st owner now d.2 c target);
  dir_delete w d c := on_system w d.1 (λ st, delete_node st d.2 c);
  dir_contents w d := st ← system w d.1; l ← directory_contents st d.2; Ok (map (λ x, listed st d.2 x.1) l);
  dir_mode_gid w d := st ← system w d.1; i ← directory_info st d.2; Ok (Tmpfs.st_mode i, i.(info_gid));
  like_chown w x uid gid := on_system w (inner x).1 (λ st, path_chown st (inner x).2 uid gid);
  link_target w l := st ← system w l.1; symlink_target st l.2;
}.

(** ** Lookups after a creation *)

Lemma lookup_kept st st' cs x : good cs → tmpfs_ok st → tmpfs_ok st' →
  (∀ i, entry st cs = Some i → entry st' cs = Some i ∧ ∀ n, st.(nodes) !! i = Some n →
     ∃ n', st'.(nodes) !! i = Some n' ∧ (n' = n ∨ is_directory n = true ∧ is_directory n' = true)) →
  (tmpfs_lookup_path st (tmp_path cs)).1 = Ok x → (tmpfs_lookup_path st' (tmp_path cs)).1 = Ok x.
Proof.
  intros Hg Hok Hok' Hkept. unfold tmpfs_lookup_path. rewrite tmpfs_normalize_id by done.
  destruct (entry st cs) as [i|] eqn:Hi; [|by rewrite node_none]. destruct (Hkept i eq_refl) as [Hi' Hn'].
  destruct (entry_node st Hok cs i Hi) as (n & Hn & [[Hin _] _ _ _]). destruct (Hn' n Hn) as (n' & Hn2 & Hor).
  rewrite (node_entry st cs i n Hi Hn), (node_entry st' cs i n' Hi' Hn2). cbn [mbind result_mbind]. destruct Hor as [->|[Hd Hd']].
  - destruct (kind n) eqn:Hk; try done; rewrite Hin; unfold retain_inode, update_node, node_by_inode; rewrite Hn, Hn2; cbn;
      destruct (checked_add _ _) as [?|]; cbn; rewrite ?lookup_insert_eq; cbn; by rewrite ?Hk.
  - unfold is_directory in Hd, Hd'. destruct (kind n); try done. by destruct (kind n').
Qed.

(** What a creation leaves of the other entries *)
Definition keeps_entries (st st' : TmpfsState) : Prop := ∀ cs i, good cs → entry st cs = Some i →
  entry st' cs = Some i ∧ ∀ n, st.(nodes) !! i = Some n →
    ∃ n', st'.(nodes) !! i = Some n' ∧ (n' = n ∨ is_directory n = true ∧ is_directory n' = true).

Lemma create_node_result st st' cs c k : tmpfs_ok st → good (cs ++ [c]) → no_children k → create_node st owner now (tmp_path cs) c k = (Ok tt, st') →
  tmpfs_ok st' ∧ keeps_entries st st' ∧ ∃ i n, entry st' (cs ++ [c]) = Some i ∧ st'.(nodes) !! i = Some n ∧ is_file n = match k with TmpNodeKind.File _ _ _ | TmpNodeKind.Device _ _ => true | _ => false end ∧ n.(open_count) = 0.
Proof.
  intros Hok Hg Hk. rewrite create_node_spec by done. destruct (entry st (cs ++ [c])) as [?|] eqn:Hnone; [done|].
  destruct (entry st cs) as [d|] eqn:Hd; [|by rewrite node_none]. destruct (entry_node st Hok cs d Hd) as (p & Hp & [[Hpi Hlt] _ _ _]).
  rewrite (node_entry st cs d p Hd Hp). destruct (is_directory p) eqn:Hdir; [|done]. intros [= <-]. destruct (fresh_inode st Hok) as [Hfn Hfp].
  split; [apply (create_ok st cs c d p); try done; by apply inherit_no_children|]. split.
  - intros ds i Hds Hi. split.
    + unfold entry in *. cbn. rewrite lookup_insert_ne; [done|]. intros Heq. rewrite Heq in Hnone. congruence.
    + intros n Hn. cbn. rewrite Hpi. destruct (decide (d = i)) as [<-|Hne].
      * rewrite lookup_insert_eq. eexists. split; [done|]. right. assert (n = p) as -> by congruence. by rewrite is_directory_map_children.
      * rewrite lookup_insert_ne by done. exists n. split; [|by left]. rewrite lookup_insert_ne; [done|congruence].
  - exists (next_inode st), (new_node st p owner now k). unfold entry. cbn. rewrite lookup_insert_eq. split; [done|].
    rewrite Hpi, lookup_insert_ne by lia. rewrite lookup_insert_eq. split; [done|]. split; [|done].
    unfold is_file, new_node, inherit. cbn. destruct k, (kind p); cbn; repeat case_match; done.
Qed.

Lemma new_file_found st cs c i n : tmpfs_ok st → good (cs ++ [c]) → entry st (cs ++ [c]) = Some i → st.(nodes) !! i = Some n → is_file n = true → n.(open_count) = 0 →
  ∃ x, (tmpfs_lookup_path st (tmp_path (cs ++ [c]))).1 = Ok x ∧ ∀ f, entry_of f x = Vfs.FileLike.File (f, tmp_path (cs ++ [c])).
Proof.
  intros Hok Hg Hi Hn Hf Ho. unfold tmpfs_lookup_path. rewrite tmpfs_normalize_id by done. destruct (ok_nodes st Hok i n Hn) as [[Hin _] _ _ _].
  rewrite (node_entry st _ i n Hi Hn). cbn [mbind result_mbind]. rewrite Hin. unfold is_file in Hf.
  assert (checked_add 64 0 1 = Some 1) as Hadd by done.
  destruct (kind n) eqn:Hk; try done; unfold retain_inode, update_node, node_by_inode; rewrite Hn; cbn; rewrite Ho, Hadd; cbn; rewrite lookup_insert_eq; cbn; rewrite Hk; cbn; by eexists.
Qed.

Lemma lookup_path st cs x : good cs → (tmpfs_lookup_path st (tmp_path cs)).1 = Ok x → ∀ f, inner (entry_of f x) = (f, tmp_path cs).
Proof.
  intros Hg. unfold tmpfs_lookup_path. rewrite tmpfs_normalize_id by done. destruct (node st _) as [n|]; [|done]. cbn.
  destruct (kind n); cbn; try by intros [= <-].
  all: destruct (retain_inode st _) as [[u|e] st']; cbn; [|done]; destruct (node_by_inode st' _) as [m|]; cbn; [|done]; destruct (kind m); cbn; by intros [= <-].
Qed.

Lemma good_path_parsed p : good_path p → parsed_path p.
Proof. intros Hp. eapply List.Forall_impl; [|exact Hp]. intros [] Hpart; [..|by left|by right]; right; by vm_compute. Qed.

Definition systems_ok (w : Systems) : Prop := ∀ f st, w !! f = Some st → tmpfs_ok st.

Definition handed_out (x : Entry) : Prop := ∃ cs, good cs ∧ x.2 = tmp_path cs.

Lemma system_some w f st : system w f = Ok st → w !! f = Some st.
Proof. unfold system. destruct (w !! f); cbn; [by intros [= ->]|done]. Qed.

Lemma kept_link st st' cs t : keeps_entries st st' → good cs → tmpfs_ok st → tmpfs_ok st' → symlink_target st (tmp_path cs) = Ok t → symlink_target st' (tmp_path cs) = Ok t.
Proof.
  intros Hk Hg Hok Hok'. unfold symlink_target. destruct (entry st cs) as [i|] eqn:Hi; [|by rewrite node_none].
  destruct (entry_node st Hok cs i Hi) as (n & Hn & _), (Hk cs i Hg Hi) as [Hi' Hn']. destruct (Hn' n Hn) as (n' & Hn2 & Hor).
  rewrite (node_entry st cs i n Hi Hn), (node_entry st' cs i n' Hi' Hn2). cbn. destruct Hor as [->|[Hd _]]; [done|].
  unfold is_directory in Hd. by destruct (kind n).
Qed.

Lemma systems_lookup w f p cs x : p = tmp_path cs → good cs → (st ← system w f; y ← (tmpfs_lookup_path st p).1; Ok (entry_of f y)) = Ok x →
  inner x = (f, tmp_path cs) ∧ ∃ st y, w !! f = Some st ∧ (tmpfs_lookup_path st (tmp_path cs)).1 = Ok y ∧ x = entry_of f y.
Proof.
  intros -> Hg. destruct (system w f) as [st|] eqn:Hs; [|done]. cbn. destruct ((tmpfs_lookup_path st _).1) as [y|] eqn:Hy; [|done]. cbn. intros [= <-].
  split; [by eapply lookup_path|]. exists st, y. split; [by apply system_some|done].
Qed.

Lemma tmpfs_lookup_handed w f p x : good_path p → fs_lookup w f p = Ok x → handed_out (inner x).
Proof.
  intros Hp. destruct (absolute_tmp_path_names p (good_path_parsed p Hp)) as [Hg Hn].
  intros [-> _]%(systems_lookup _ _ _ _ _ Hn Hg). by exists (FsPath.resolve p).2.
Qed.

Lemma tmpfs_get_handed w d c x : handed_out d → parsed_part (PathPart.Normal c) → dir_get w d c = Ok x → handed_out (inner x).
Proof.
  intros (cs & Hcs & Hd) Hc. assert (good (cs ++ [c])) as Hg by (apply Forall_app; by split; [|constructor]).
  assert (child_path d.2 c = tmp_path (cs ++ [c])) as Hp by (rewrite Hd; by apply child_path_snoc).
  intros [-> _]%(systems_lookup _ _ _ _ _ Hp Hg). by exists (cs ++ [c]).
Qed.

Lemma tmpfs_target_good w l t : link_target w l = Ok t → good_path t.
Proof.
  cbn. destruct (system w l.1) as [st|]; [|done]. cbn. unfold symlink_target. destruct (node st l.2) as [n|]; [|done]. cbn.
  destruct (kind n); try done. intros [= <-]. apply good_new.
Qed.

Lemma tmpfs_create_law w d c mode rdev w' : systems_ok w → handed_out d → parsed_part (PathPart.Normal c) →
  dir_create w d (mkContent c Vfs.ContentType.File mode rdev) = (Ok tt, w') →
  (∀ f p x, good_path p → fs_lookup w f p = Ok x → fs_lookup w' f p = Ok x) ∧
  (∀ d c x, handed_out d → parsed_part (PathPart.Normal c) → dir_get w d c = Ok x → dir_get w' d c = Ok x) ∧
  (∀ n t, handed_out n → link_target w n = Ok t → link_target w' n = Ok t) ∧
  ∃ n, dir_get w' d c = Ok (Vfs.FileLike.File n).
Proof.
  intros Hw (cs & Hcs & Hd) Hc. assert (good (cs ++ [c])) as Hg by (apply Forall_app; by split; [|constructor]). cbn. unfold on_system. destruct (w !! d.1) as [st|] eqn:Hst; [|done].
  unfold directory_create. cbn. unfold create_file. rewrite Hd. set (k := if _ : bool then _ else _).
  destruct (create_node st owner now (tmp_path cs) c k) as [r st'] eqn:Hcr. intros [= -> <-].
  assert (match k with TmpNodeKind.File _ _ _ | TmpNodeKind.Device _ _ => true | _ => false end = true) as Hfile by (subst k; by case_match).
  assert (no_children k) as Hk by (subst k; by case_match). specialize (Hw _ _ Hst). destruct (create_node_result st st' cs c k Hw Hg Hk Hcr) as (Hok & Hkeep & i & n & Hi & Hn & Hf & Ho).
  assert (∀ f p ds x, p = tmp_path ds → good ds → (st ← system w f; y ← (tmpfs_lookup_path st p).1; Ok (entry_of f y)) = Ok x →
    (st ← system (<[d.1 := st']> w) f; y ← (tmpfs_lookup_path st p).1; Ok (entry_of f y)) = Ok x) as Hlook.
  { intros f p ds x Hp Hds Hx. unfold system in *. destruct (decide (d.1 = f)) as [<-|Hne]; [|by rewrite lookup_insert_ne]. rewrite Hst in Hx. rewrite lookup_insert_eq.
    cbn in *. subst p. destruct ((tmpfs_lookup_path st (tmp_path ds)).1) as [y|] eqn:Hy; [|done].
    rewrite (lookup_kept st st' ds y Hds Hw Hok); [done| |done]. intros j Hj. by apply Hkeep. }
  split_and!.
  - intros f p x Hp. destruct (absolute_tmp_path_names p (good_path_parsed p Hp)) as [Hgp Hnp]. by apply (Hlook f _ (FsPath.resolve p).2).
  - intros e b x (es & Hes & He) Hb. apply (Hlook e.1 _ (es ++ [b])); [rewrite He; by apply child_path_snoc|apply Forall_app; by split; [|constructor]].
  - intros l t (ls & Hls & Hl). unfold system. destruct (decide (d.1 = l.1)) as [<-|Hne]; [|by rewrite lookup_insert_ne]. rewrite Hst, lookup_insert_eq, Hl. cbn. by apply kept_link.
  - rewrite Hfile in Hf. destruct (new_file_found st' cs c i n Hok Hg Hi Hn Hf Ho) as (x & Hx & He).
    exists (d.1, tmp_path (cs ++ [c])). unfold system. rewrite lookup_insert_eq. cbn. unfold directory_get. rewrite child_path_snoc, Hx by done. cbn. by rewrite He.
Qed.

#[global] Instance tmpfs_creation : CreationLaws Systems Entry := {
  inv := systems_ok;
  handed := handed_out;
  lookup_handed w f p x _ := tmpfs_lookup_handed w f p x;
  get_handed w d c x _ := tmpfs_get_handed w d c x;
  target_good := tmpfs_target_good;
  create_file_law := tmpfs_create_law;
}.
End instance.

(** ** A sample: a link of the root file system leads into another one *)

Abbreviation sample_now := sample_times.

Definition sample_root : TmpfsState :=
  let st := tmpfs_new sample_now in
  let st := (directory_create st (0, 0) sample_now "/" (mkContentInfo "data" Tmpfs.DirectoryContentType.Directory None 0)).2 in
  (Tmpfs.create_symlink st (0, 0) sample_now "/" "l" "../data/").2.

Definition sample_systems : Systems := {[ 0 := sample_root; 1 := tmpfs_new sample_now ]}.

Definition sample_vfs : VFS := attach_mount (attach_mount vfs_new (Path_new "/") 0 (Path_new "/") 0) (Path_new "/data") 1 (Path_new "/") 0.

Lemma sample_root_reachable : TmpfsProps.reachable sample_root.
Proof.
  assert (good ["data"%string] ∧ good ["l"%string]) as [Hd Hl] by (split; by repeat constructor).
  eapply (TmpfsProps.reach_step _ _); [eapply (TmpfsProps.reach_step _ _); [apply (TmpfsProps.reach_new sample_now)|apply (step_create _ (0, 0) sample_now [] (mkContentInfo "data" Tmpfs.DirectoryContentType.Directory None 0) Hd)]|].
  apply (step_create_symlink _ (0, 0) sample_now [] "l" "../data/" Hl).
Qed.

Lemma sample_systems_ok : systems_ok sample_systems.
Proof.
  intros f st Hst. unfold sample_systems in Hst. apply lookup_insert_Some in Hst as [[_ <-]|[_ [_ <-]%lookup_singleton_Some]].
  - apply TmpfsProps.reachable_ok, sample_root_reachable.
  - apply TmpfsProps.reachable_ok, TmpfsProps.reach_new.
Qed.

Lemma sample_vfs_reachable : VfsProps.reachable sample_vfs.
Proof.
  assert (clean_path (Path_new "/") ∧ clean_path (Path_new "/data")) as [Hr Hd].
  { split; [exists []; split; [done|by constructor]|]. exists ["data"%string]. split; [done|]. by repeat constructor. }
  eapply (VfsProps.reach_step _ _); [eapply (VfsProps.reach_step _ _); [apply VfsProps.reach_new|by apply (step_attach _ (Path_new "/") 0 (Path_new "/") 0 MountPropagation.Private)]|].
  by apply (step_attach _ (Path_new "/data") 1 (Path_new "/") 0 MountPropagation.Private).
Qed.

(** A file is created through the link, and found through it. *)
Lemma created_file_resolves_witness :
  let w' := (@create_file_with_metadata _ _ (tmpfs_systems (0, 0) sample_now) sample_systems sample_vfs (Path_new "/l/x") None 0).2 in
  ∃ d q, @resolve_internal _ _ (tmpfs_systems (0, 0) sample_now) sample_systems sample_vfs (Path_new "/l") true = Ok (Vfs.FileLike.Directory d, q) ∧
    ∃ n, @resolve_internal _ _ (tmpfs_systems (0, 0) sample_now) w' sample_vfs (Path_new "/l/x") true = Ok (Vfs.FileLike.File n, join_component q "x").
Proof.
  intros w'. assert (@create_file_with_metadata _ _ (tmpfs_systems (0, 0) sample_now) sample_systems sample_vfs (Path_new "/l/x") None 0 = (Ok tt, w')) as Hc by (vm_compute; reflexivity).
  destruct (@created_file_resolves _ _ _ (tmpfs_creation (0, 0) sample_now) sample_systems sample_vfs (Path_new "/l/x") None 0 w' true
    sample_systems_ok sample_vfs_reachable (good_new "/l/x") ltac:(reflexivity) ltac:(vm_compute; discriminate) Hc) as (up & name & d & q & Hup & Hname & Hd & Hn).
  vm_compute in Hup, Hname. injection Hup as <-. injection Hname as <-.
  exists d, q. split; [exact Hd|]. apply Hn. vm_compute in Hd. injection Hd as _ <-.
  intros m Hm. apply list_elem_of_In in Hm. vm_compute in Hm. destruct Hm as [<-|[<-|[]]]; discriminate.
Defined.

(** The link is answered with the directory it leads to. *)
Lemma resolved_path_canonical_witness :
  @resolve_path _ _ (tmpfs_systems (0, 0) sample_now) sample_systems sample_vfs None (Path_new "/x/../l/") true =
    Ok (Vfs.FileLike.Directory (1, "/"%string), Path_new "/data") ∧
  clean_path (Path_new "/data") ∧
  @resolve_path _ _ (tmpfs_systems (0, 0) sample_now) sample_systems sample_vfs None (Path_new "/data") true =
    Ok (Vfs.FileLike.Directory (1, "/"%string), Path_new "/data").
Proof.
  assert (@resolve_path _ _ (tmpfs_systems (0, 0) sample_now) sample_systems sample_vfs None (Path_new "/x/../l/") true =
    Ok (Vfs.FileLike.Directory (1, "/"%string), Path_new "/data")) as Hr by (vm_compute; reflexivity).
  split; [exact Hr|]. destruct (@resolved_path_canonical _ _ (tmpfs_systems (0, 0) sample_now) sample_systems sample_vfs None (Path_new "/x/../l/") true _ _
    (tmpfs_target_good (0, 0) sample_now sample_systems) (good_new "/x/../l/") Hr) as (Hc & _ & Hq). by split.
Defined.

(** ** What concrete runs show

    Steps that differ from what the code, its names or the interfaces it implements say. *)

#[local] Instance systems : FileSystems Systems Entry := tmpfs_systems (0, 0) sample_now.

Definition at_root (f : Z) : VFS := attach_mount vfs_new (Path_new "/") f (Path_new "/") 0.

Definition file_info (name : string) : Tmpfs.DirectoryContentInfo := mkContentInfo name Tmpfs.DirectoryContentType.File None 0.
Definition dir_info (name : string) : Tmpfs.DirectoryContentInfo := mkContentInfo name Tmpfs.DirectoryContentType.Directory None 0.

Definition add (path : string) (info : Tmpfs.DirectoryContentInfo) (st : TmpfsState) : TmpfsState := (directory_create st (0, 0) sample_now path info).2.

Definition linked (path name target : string) (st : TmpfsState) : TmpfsState := (Tmpfs.create_symlink st (0, 0) sample_now path name target).2.

Definition mount_at (p : string) (f : Z) (v : VFS) : VFS := attach_mount v (Path_new p) f (Path_new "/") 0.

(** The file system that serves a path *)
Definition server (v : VFS) (p : string) : result FSError Z := r ← find_mount v (Path_new p); Ok r.1.(fs).

(** ** Mounts *)

(** A mount that is moved beneath another one ([MOVE_MOUNT_BENEATH]) lands on top of it: its
    new identity is the largest, and sorts first. *)
Lemma beneath_is_on_top :
  let v := mount_at "/b" 2 (mount_at "/a" 1 (at_root 0)) in
  server v "/b/x" = Ok 2 ∧ server (stack_mount_beneath v (Path_new "/a") (Path_new "/b")).2 "/b/x" = Ok 1.
Proof. vm_compute. by split. Qed.

(** A recursive bind copies stacked mounts from the top down, so the lowest ends on top. *)
Lemma recursive_bind_reverses_stacks :
  let v := mount_at "/s/p" 2 (mount_at "/s/p" 1 (at_root 0)) in
  let v' := (bind_mount v (Path_new "/s") (Path_new "/t") true).2 in
  server v' "/s/p" = Ok 2 ∧ server v' "/t/p" = Ok 1.
Proof. vm_compute. by split. Qed.

(** An unbindable mount cannot be bound itself, but a recursive bind of what is above copies it. *)
Lemma recursive_bind_copies_unbindable :
  let v := (set_mount_propagation (mount_at "/s/p" 1 (at_root 0)) None (Path_new "/s/p") MountPropagationUpdate.Unbindable false).2 in
  (bind_mount v (Path_new "/s/p") (Path_new "/t") true).1 = Err FSError.InvalidArguments ∧
  server (bind_mount v (Path_new "/s") (Path_new "/t") true).2 "/t/p" = Ok 1.
Proof. vm_compute. by split. Qed.

(** ** Names below mounts *)

Definition two_files : TmpfsState := add "/d" (file_info "f") (add "/" (file_info "f") (add "/" (dir_info "d") (tmpfs_new sample_now))).

Definition entry_at (w : Systems) (v : VFS) (p : string) : result FSError (Vfs.FileLike Entry) :=
  r ← resolve_internal w v (Path_new p) true; Ok r.1.

(** [rename_file] drops the source path of a bind mount: renaming "/m/f", which is "/d/f",
    renames "/f". *)
Lemma rename_below_bind_mount :
  let v := (bind_mount (at_root 0) (Path_new "/d") (Path_new "/m") false).2 in
  let '(r, w) := rename_file {[ 0 := two_files ]} v (Path_new "/m/f") (Path_new "/m/g") in
  entry_at {[ 0 := two_files ]} v "/m/f" = Ok (Vfs.FileLike.File (0, "/d/f"%string)) ∧
  r = Ok tt ∧ entry_at w v "/d/f" = Ok (Vfs.FileLike.File (0, "/d/f"%string)) ∧
  entry_at w v "/f" = Err FSError.NotFound ∧ entry_at w v "/g" = Ok (Vfs.FileLike.File (0, "/g"%string)).
Proof. vm_compute. by split_and!. Qed.

(** It hands the path on as it is written, so a name below a link to a directory, which
    resolves, cannot be renamed. *)
Lemma rename_through_link :
  let st := linked "/" "l" "/d" two_files in
  entry_at {[ 0 := st ]} (at_root 0) "/l/f" = Ok (Vfs.FileLike.File (0, "/d/f"%string)) ∧
  (rename_file {[ 0 := st ]} (at_root 0) (Path_new "/l/f") (Path_new "/l/g")).1 = Err FSError.NotFound.
Proof. vm_compute. by split. Qed.

(** ** The walk *)

(** A file is refused where the path ends with a slash, but not where a link leads to it. *)
Lemma trailing_slash_lost_at_link :
  let w := {[ 0 := linked "/" "l" "/f" two_files ]} in
  entry_at w (at_root 0) "/f/" = Err FSError.NotADirectory ∧ entry_at w (at_root 0) "/l/" = Ok (Vfs.FileLike.File (0, "/f"%string)).
Proof. vm_compute. by split. Qed.

(** [..] is taken off the text before links are followed: "/l/../f" is "/f" and not the file
    next to the directory that the link leads to. *)
Definition nested : TmpfsState := linked "/" "l" "/d/e" (add "/d" (dir_info "e") two_files).

Lemma parent_before_link :
  entry_at {[ 0 := nested ]} (at_root 0) "/l" = Ok (Vfs.FileLike.Directory (0, "/d/e"%string)) ∧
  entry_at {[ 0 := nested ]} (at_root 0) "/l/../f" = Ok (Vfs.FileLike.File (0, "/f"%string)) ∧
  entry_at {[ 0 := nested ]} (at_root 0) "/d/e/../f" = Ok (Vfs.FileLike.File (0, "/d/f"%string)).
Proof. vm_compute. by split_and!. Qed.

(** ** Namespaces *)

Definition first_processes : MountViews := {[ 1 := mkView false 10 None ∅; 2 := mkView false 10 None ∅ ]}.

(** What a mount made by process [pid] does *)
Definition mount_in_namespace (pid : Z) (p : string) (f : Z) (x : VFS * MountViews) : VFS * MountViews :=
  (mount_at p f x.1, add_mount_to_current_mnt_namespace pid x.1.(next_mount_id) x.2).

(** What a process finds at a path *)
Definition seen (x : VFS * MountViews) (pid : Z) (p : string) : result FSError Z :=
  r ← find_mount_in (visible_mounts x.1 (x.2 !! pid ≫= snapshot)) (Path_new p); Ok r.1.(fs).

(** A process that never changed its namespace holds no snapshot and sees every mount, so it
    sees the mounts of a namespace that another process made for itself. *)
Lemma private_mount_seen_outside :
  let x := mount_in_namespace 2 "/x" 1 (unshare_mounts (at_root 0) 2 20 first_processes) in
  seen x 2 "/x/f" = Ok 1 ∧ seen x 1 "/x/f" = Ok 1.
Proof. vm_compute. by split. Qed.

(** When the last process of a namespace ends, the mounts of its snapshot go, also one that a
    process of another namespace made and that propagated into it. *)
Definition shared_namespaces : VFS * MountViews :=
  let v := (set_mount_propagation (at_root 0) None (Path_new "/") MountPropagationUpdate.Shared false).2 in
  let '(v, ps) := unshare_mounts v 2 20 first_processes in
  let '(v, ps) := unshare_mounts v 1 30 ps in
  let id := v.(next_mount_id) in
  (mount_at "/x" 1 v, add_mount_to_current_mnt_namespace 1 id ps).

Lemma exit_detaches_propagated_mount :
  let '(v, ps) := shared_namespaces in
  match find_mount_in (visible_mounts v (ps !! 1 ≫= snapshot)) (Path_new "/") with
  | Ok (root, _) =>
      let x := (v, propagate_mount_from_source v root.(mount_id) (v.(next_mount_id) - 1) ps) in
      seen x 1 "/x/f" = Ok 1 ∧ seen x 2 "/x/f" = Ok 1 ∧ seen (exit_mounts x.1 2 x.2) 1 "/x/f" = Ok 0
  | Err _ => False
  end.
Proof. vm_compute. by split_and!. Qed.
