(* ===== verification/UnixSocket.v ===== *)
(** * Unix domain sockets

    socket/: stream, packet and datagram sockets of AF_UNIX, the registry of their names,
    connections, and the passing of objects along with bytes.

    A socket is named by its number where the code has a reference counted pointer, and is
    alive while the table [socks] holds it; the inner part of a connection or of a datagram
    socket belongs to one socket for all its life and is named by that socket.  The calls of
    [wake_pollers] are logged.  A blocking call is the loop of Blocking.v around one pass.
    The file system, which gives pathname sockets their nodes, and the programs of attached
    filters are an interface. *)

From stdpp Require Import strings.
From S2P Require Import Prelude Errors Blocking Polling.

Open Scope Z_scope.

(** ** Data *)

Definition AF_UNIX : Z := 1.
Definition AF_INET : Z := 2.
Definition SOCK_STREAM : Z := 1.
Definition SOCK_DGRAM : Z := 2.
Definition SOCK_RAW : Z := 3.
Definition SOCK_SEQPACKET : Z := 5.
Definition SOCK_NONBLOCK : Z := 2048.
Definition SOCK_CLOEXEC : Z := 524288.
Definition IPPROTO_TCP : Z := 6.
Definition IPPROTO_UDP : Z := 17.
Definition STREAM_RECV_CAPACITY : Z := 64 * 1024.
Definition DATAGRAM_RECV_CAPACITY : Z := 64 * 1024.

Module UnixSocketKind.
Inductive UnixSocketKind : Type := Stream | Datagram | SeqPacket.
End UnixSocketKind.
Abbreviation UnixSocketKind := UnixSocketKind.UnixSocketKind.

#[export] Instance UnixSocketKind_eq_dec : EqDecision UnixSocketKind.
Proof. solve_decision. Defined.

Definition is_stream_like (k : UnixSocketKind) : bool :=
  match k with UnixSocketKind.Stream | UnixSocketKind.SeqPacket => true | _ => false end.

Record SocketPeerCred := mkCred { pid : Z; uid : Z; gid : Z }.

Definition cred_default : SocketPeerCred := mkCred 0 0 0.

(** The objects that came with a byte, at its place in the buffer *)
Record PendingRights := mkRights { byte_offset : Z; rights : list Z }.

(** Names are bytes; an abstract name starts with a zero. *)
Module RegistryKey.
Inductive UnixSocketRegistryKey : Type :=
  | Abstract (name : list byte)
  | Path (mount_device_id inode : Z).
End RegistryKey.
Abbreviation UnixSocketRegistryKey := RegistryKey.UnixSocketRegistryKey.

#[export] Instance UnixSocketRegistryKey_eq_dec : EqDecision UnixSocketRegistryKey.
Proof. solve_decision. Defined.

#[export] Instance byte_countable : Countable byte.
Proof. apply (inj_countable Byte.to_N Byte.of_N). by intros []. Defined.

#[export] Instance UnixSocketRegistryKey_countable : Countable UnixSocketRegistryKey.
Proof.
  apply (inj_countable' (λ k, match k with RegistryKey.Abstract n => inl n | RegistryKey.Path d i => inr (d, i) end)
    (λ x, match x with inl n => RegistryKey.Abstract n | inr (d, i) => RegistryKey.Path d i end)).
  by intros [].
Defined.

Module RegistryEntry.
Inductive UnixSocketRegistryEntry : Type := StreamReserved | Listener (s : Z) | Datagram (s : Z).
End RegistryEntry.
Abbreviation UnixSocketRegistryEntry := RegistryEntry.UnixSocketRegistryEntry.

Record UnixStreamInner := mkStream {
  recv_buf : list byte;
  pending_rights : list PendingRights;
  pending_packets : list Z;
  peer : option Z;
  peer_cred : SocketPeerCred;
  peer_write_closed : bool;
  peer_closed : bool;
  read_shutdown : bool;
  write_shutdown : bool;
  local_name : option (list byte);
  local_key : option UnixSocketRegistryKey;
  peer_name : option (list byte);
}.

#[export] Instance SocketPeerCred_eq_dec : EqDecision SocketPeerCred.
Proof. solve_decision. Defined.

#[export] Instance PendingRights_eq_dec : EqDecision PendingRights.
Proof. solve_decision. Defined.

#[export] Instance UnixStreamInner_eq_dec : EqDecision UnixStreamInner.
Proof. solve_decision. Defined.

Record UnixDatagramMessage := mkMessage {
  data : list byte;
  sender_name : option (list byte);
  sender_cred : SocketPeerCred;
  message_rights : list Z;
}.

Record UnixDatagramInner := mkDatagram {
  recv_queue : list UnixDatagramMessage;
  dg_peer : option Z;
  dg_local_name : option (list byte);
  dg_local_key : option UnixSocketRegistryKey;
  dg_peer_name : option (list byte);
  dg_peer_key : option UnixSocketRegistryKey;
  dg_peer_cred : SocketPeerCred;
  peer_rights : list Z;
  dg_read_shutdown : bool;
  dg_write_shutdown : bool;
}.

Record UnixListenerInner := mkListener {
  listener_path : list byte;
  listener_key : UnixSocketRegistryKey;
  backlog : Z;
  pending : list Z;
}.

Module UnixSocketState.
Inductive UnixSocketState : Type :=
  | Unbound
  | Bound (path : list byte) (key : UnixSocketRegistryKey)
  | Listener (l : UnixListenerInner)
  | Datagram (d : UnixDatagramInner)
  | Stream (x : UnixStreamInner)
  | Closed.
End UnixSocketState.
Abbreviation UnixSocketState := UnixSocketState.UnixSocketState.

Record UnixSocketObject := mkSocket {
  kind : UnixSocketKind;
  state : UnixSocketState;
  flags : Z;
  pass_cred : bool;
  priority : Z;
  attached_bpf : option Z;
  creator_cred : SocketPeerCred;
}.

(** What sockets use of the file system and of attached programs *)
Class SocketEnv (F : Type) := {
  create_socket_path : F → list byte → result FSError unit * F;
  delete_socket_path : F → list byte → result FSError unit * F;
  (** [Drop] takes the name as it is, the others resolve it from the current directory. *)
  delete_unresolved_path : F → list byte → result FSError unit * F;
  socket_path_key : F → list byte → option (Z * Z);
  run_socket_filter : Z → list byte → bool;
}.

Record Sockets (F : Type) := mkSockets {
  files : F;
  socks : gmap Z UnixSocketObject;
  registry : gmap UnixSocketRegistryKey UnixSocketRegistryEntry;
  next_socket : Z;
  wakes : list (Z * PollableEvent);
}.
Arguments mkSockets {F} files socks registry next_socket wakes.
Arguments files {F} s.
Arguments socks {F} s.
Arguments registry {F} s.
Arguments next_socket {F} s.
Arguments wakes {F} s.

(** ** Updates of one field *)

Definition with_sock_state (st : UnixSocketState) (s : UnixSocketObject) : UnixSocketObject :=
  mkSocket s.(kind) st s.(flags) s.(pass_cred) s.(priority) s.(attached_bpf) s.(creator_cred).
Definition with_flags (f : Z) (s : UnixSocketObject) : UnixSocketObject :=
  mkSocket s.(kind) s.(state) f s.(pass_cred) s.(priority) s.(attached_bpf) s.(creator_cred).

Definition with_recv (b : list byte) (r : list PendingRights) (p : list Z) (x : UnixStreamInner) : UnixStreamInner :=
  mkStream b r p x.(peer) x.(peer_cred) x.(peer_write_closed) x.(peer_closed) x.(read_shutdown) x.(write_shutdown) x.(local_name) x.(local_key) x.(peer_name).
Definition with_peer_closed (write_closed closed : bool) (x : UnixStreamInner) : UnixStreamInner :=
  mkStream x.(recv_buf) x.(pending_rights) x.(pending_packets) x.(peer) x.(peer_cred) write_closed closed x.(read_shutdown) x.(write_shutdown) x.(local_name) x.(local_key) x.(peer_name).
Definition with_shutdown (rd wr : bool) (x : UnixStreamInner) : UnixStreamInner :=
  mkStream x.(recv_buf) x.(pending_rights) x.(pending_packets) x.(peer) x.(peer_cred) x.(peer_write_closed) x.(peer_closed) rd wr x.(local_name) x.(local_key) x.(peer_name).

Definition with_queue (q : list UnixDatagramMessage) (d : UnixDatagramInner) : UnixDatagramInner :=
  mkDatagram q d.(dg_peer) d.(dg_local_name) d.(dg_local_key) d.(dg_peer_name) d.(dg_peer_key) d.(dg_peer_cred) d.(peer_rights) d.(dg_read_shutdown) d.(dg_write_shutdown).
Definition with_sender (m : UnixDatagramMessage) (d : UnixDatagramInner) : UnixDatagramInner :=
  mkDatagram d.(recv_queue) d.(dg_peer) d.(dg_local_name) d.(dg_local_key) m.(sender_name) d.(dg_peer_key) m.(sender_cred) m.(message_rights) d.(dg_read_shutdown) d.(dg_write_shutdown).
Definition with_local (name : list byte) (k : UnixSocketRegistryKey) (d : UnixDatagramInner) : UnixDatagramInner :=
  mkDatagram d.(recv_queue) d.(dg_peer) (Some name) (Some k) d.(dg_peer_name) d.(dg_peer_key) d.(dg_peer_cred) d.(peer_rights) d.(dg_read_shutdown) d.(dg_write_shutdown).
Definition with_dg_peer (p : Z) (k : UnixSocketRegistryKey) (name : option (list byte)) (d : UnixDatagramInner) : UnixDatagramInner :=
  mkDatagram d.(recv_queue) (Some p) d.(dg_local_name) d.(dg_local_key) name (Some k) d.(dg_peer_cred) d.(peer_rights) d.(dg_read_shutdown) d.(dg_write_shutdown).
Definition with_dg_shutdown (rd wr : bool) (d : UnixDatagramInner) : UnixDatagramInner :=
  mkDatagram d.(recv_queue) d.(dg_peer) d.(dg_local_name) d.(dg_local_key) d.(dg_peer_name) d.(dg_peer_key) d.(dg_peer_cred) d.(peer_rights) rd wr.
Definition with_peer_rights (r : list Z) (d : UnixDatagramInner) : UnixDatagramInner :=
  mkDatagram d.(recv_queue) d.(dg_peer) d.(dg_local_name) d.(dg_local_key) d.(dg_peer_name) d.(dg_peer_key) d.(dg_peer_cred) r d.(dg_read_shutdown) d.(dg_write_shutdown).

Definition with_pending (p : list Z) (l : UnixListenerInner) : UnixListenerInner :=
  mkListener l.(listener_path) l.(listener_key) l.(backlog) p.

(** [UnixStreamInner::new] and [UnixDatagramInner::new] *)
Definition stream_new : UnixStreamInner := mkStream [] [] [] None cred_default false false false false None None None.
Definition datagram_new : UnixDatagramInner := mkDatagram [] None None None None None cred_default [] false false.

(** A connection: its peer, the credentials of the peer and the names of both ends *)
Definition connected (p : Z) (cred : SocketPeerCred) (local : option (list byte)) (key : option UnixSocketRegistryKey) (remote : option (list byte)) : UnixStreamInner :=
  mkStream [] [] [] (Some p) cred false false false false local key remote.

Definition is_nonblocking (s : UnixSocketObject) : bool := flag_set s.(flags) NONBLOCK.

Section sockets.
Context {F : Type} `{SocketEnv F}.
Abbreviation World := (Sockets F).
Implicit Types (w : World) (s : Z).

(** ** The table *)

Definition set_sock w s (x : UnixSocketObject) : World := mkSockets w.(files) (<[s := x]> w.(socks)) w.(registry) w.(next_socket) w.(wakes).

Definition set_state w s (st : UnixSocketState) : World :=
  match w.(socks) !! s with Some x => set_sock w s (with_sock_state st x) | None => w end.

Definition set_registry w (r : gmap UnixSocketRegistryKey UnixSocketRegistryEntry) : World := mkSockets w.(files) w.(socks) r w.(next_socket) w.(wakes).

Definition set_files w (f : F) : World := mkSockets f w.(socks) w.(registry) w.(next_socket) w.(wakes).

(** [wake_pollers] of a socket that is alive *)
Definition wake_pollers w s (e : PollableEvent) : World :=
  match w.(socks) !! s with Some _ => mkSockets w.(files) w.(socks) w.(registry) w.(next_socket) (w.(wakes) ++ [(s, e)]) | None => w end.

Definition stream_of w s : option UnixStreamInner :=
  x ← w.(socks) !! s; match x.(state) with UnixSocketState.Stream y => Some y | _ => None end.

Definition datagram_of w s : option UnixDatagramInner :=
  x ← w.(socks) !! s; match x.(state) with UnixSocketState.Datagram d => Some d | _ => None end.

Definition set_stream w s (x : UnixStreamInner) : World := set_state w s (UnixSocketState.Stream x).
Definition set_datagram w s (d : UnixDatagramInner) : World := set_state w s (UnixSocketState.Datagram d).

(** [peer.lock().as_ref().and_then(Weak::upgrade)] *)
Definition live_peer w (x : UnixStreamInner) : option (Z * UnixStreamInner) := p ← x.(peer); y ← stream_of w p; Some (p, y).

(** ** Creation *)

Definition new_socket w (k : UnixSocketKind) (st : UnixSocketState) (fl pr : Z) (cred : SocketPeerCred) : Z * World :=
  let s := w.(next_socket) in
  (s, mkSockets w.(files) (<[s := mkSocket k st fl false pr None cred]> w.(socks)) w.(registry) (s + 1) w.(wakes)).

Definition socket_type (kind : Z) : Z := Z.land kind (Z.lnot (Z.lor SOCK_NONBLOCK SOCK_CLOEXEC)).

Definition create w (domain kind protocol : Z) (cred : SocketPeerCred) : result SocketError Z * World :=
  if negb (domain =? AF_UNIX) then (Err SocketError.AddressFamilyNotSupported, w)
  else if negb (protocol =? 0) then (Err SocketError.ProtocolNotSupported, w)
  else
    let made k st := let '(s, w) := new_socket w k st 0 0 cred in (Ok s, w) in
    if socket_type kind =? SOCK_STREAM then made UnixSocketKind.Stream UnixSocketState.Unbound
    else if socket_type kind =? SOCK_DGRAM then made UnixSocketKind.Datagram (UnixSocketState.Datagram datagram_new)
    else if socket_type kind =? SOCK_SEQPACKET then made UnixSocketKind.SeqPacket UnixSocketState.Unbound
    else (Err SocketError.ProtocolNotSupported, w).

Definition socketpair w (domain kind protocol : Z) (cred : SocketPeerCred) : result SocketError (Z * Z) * World :=
  let t := socket_type kind in
  if negb ((t =? SOCK_STREAM) || (t =? SOCK_DGRAM) || (t =? SOCK_SEQPACKET) || (t =? SOCK_RAW)) then (Err SocketError.InvalidArguments, w)
  else if domain =? AF_INET then
    if ((t =? SOCK_DGRAM) && (protocol =? IPPROTO_UDP)) || ((t =? SOCK_STREAM) && (protocol =? IPPROTO_TCP))
    then (Err SocketError.OperationNotSupported, w) else (Err SocketError.ProtocolNotSupported, w)
  else if negb (domain =? AF_UNIX) then (Err SocketError.AddressFamilyNotSupported, w)
  else if negb (protocol =? 0) then (Err SocketError.ProtocolNotSupported, w)
  else
    let fl := if negb (Z.land kind SOCK_NONBLOCK =? 0) then NONBLOCK else 0 in
    let l := w.(next_socket) in
    let r := l + 1 in
    let pair k st_l st_r :=
      let '(_, w) := new_socket w k st_l fl 0 cred in
      let '(_, w) := new_socket w k st_r fl 0 cred in
      (Ok (l, r), w) in
    if (t =? SOCK_STREAM) || (t =? SOCK_SEQPACKET) then
      pair (if t =? SOCK_SEQPACKET then UnixSocketKind.SeqPacket else UnixSocketKind.Stream)
        (UnixSocketState.Stream (connected r cred None None None)) (UnixSocketState.Stream (connected l cred None None None))
    else if t =? SOCK_DGRAM then
      let end_of p := mkDatagram [] (Some p) None None None None cred [] false false in
      pair UnixSocketKind.Datagram (UnixSocketState.Datagram (end_of r)) (UnixSocketState.Datagram (end_of l))
    else (Err SocketError.InvalidArguments, w).

(** ** Names *)

Definition is_abstract (name : list byte) : bool := match name with b :: _ => bool_decide (b = x00) | [] => false end.

Definition socket_registry_key w (name : list byte) : option UnixSocketRegistryKey :=
  if is_abstract name then Some (RegistryKey.Abstract name)
  else di ← socket_path_key w.(files) name; Some (RegistryKey.Path di.1 di.2).

Definition map_socket_path_create_error (e : FSError) : SocketError :=
  match e with
  | FSError.AlreadyExists => SocketError.AddressInUse
  | FSError.NotADirectory => SocketError.NotADirectory
  | FSError.AccessDenied => SocketError.AccessDenied
  | FSError.InvalidArguments => SocketError.InvalidArguments
  | _ => SocketError.IoError
  end.

Definition delete_path w (name : list byte) : World := set_files w (delete_socket_path w.(files) name).2.

(** The node of a pathname socket: made, or made anew where no socket holds the one there. *)
Definition make_node w (name : list byte) : result SocketError UnixSocketRegistryKey * World :=
  let key_of w := (ok_or (socket_registry_key w name) SocketError.InvalidArguments, w) in
  let '(r, f) := create_socket_path w.(files) name in
  let w := set_files w f in
  match r with
  | Ok _ => key_of w
  | Err FSError.AlreadyExists =>
      match socket_registry_key w name with
      | None => (Err SocketError.AddressInUse, w)
      | Some key =>
          match w.(registry) !! key with
          | Some _ => (Err SocketError.AddressInUse, w)
          | None =>
              match delete_socket_path w.(files) name with
              | (Err _, f) => (Err SocketError.AddressInUse, set_files w f)
              | (Ok _, f) =>
                  match create_socket_path f name with
                  | (Err _, f) => (Err SocketError.AddressInUse, set_files w f)
                  | (Ok _, f) => key_of (set_files w f)
                  end
              end
          end
      end
  | Err e => (Err (map_socket_path_create_error e), w)
  end.

Definition can_bind (x : UnixSocketObject) : bool :=
  match x.(state) with
  | UnixSocketState.Unbound => is_stream_like x.(kind)
  | UnixSocketState.Datagram d => bool_decide (x.(kind) = UnixSocketKind.Datagram) && negb (bool_decide (is_Some d.(dg_local_name)))
  | _ => false
  end.

Definition bind_socket w s (name : list byte) : result SocketError unit * World :=
  match w.(socks) !! s with
  | None => (Err SocketError.InvalidArguments, w)
  | Some x =>
      if negb (can_bind x) then (Err SocketError.InvalidArguments, w)
      else
        let '(r, w) := if is_abstract name then (Ok (RegistryKey.Abstract name), w) else make_node w name in
        match r with
        | Err e => (Err e, w)
        | Ok key =>
            match w.(registry) !! key with
            | Some _ => (Err SocketError.AddressInUse, if is_abstract name then w else delete_path w name)
            | None =>
                match x.(state) with
                | UnixSocketState.Datagram d =>
                    (Ok tt, set_datagram (set_registry w (<[key := RegistryEntry.Datagram s]> w.(registry))) s (with_local name key d))
                | _ => (Ok tt, set_state (set_registry w (<[key := RegistryEntry.StreamReserved]> w.(registry))) s (UnixSocketState.Bound name key))
                end
            end
        end
  end.

Definition listen w s (n : Z) : result SocketError unit * World :=
  match w.(socks) !! s with
  | None => (Err SocketError.InvalidArguments, w)
  | Some x =>
      if negb (is_stream_like x.(kind)) then (Err SocketError.InvalidArguments, w)
      else
        match x.(state) with
        | UnixSocketState.Bound name key =>
            match w.(registry) !! key with
            | None => (Err SocketError.InvalidArguments, w)
            | Some _ =>
                (Ok tt, set_state (set_registry w (<[key := RegistryEntry.Listener s]> w.(registry))) s
                  (UnixSocketState.Listener (mkListener name key (Z.max n 1) [])))
            end
        | _ => (Err SocketError.InvalidArguments, w)
        end
  end.

(** ** Connections *)

Definition listener_of w s : option UnixListenerInner :=
  x ← w.(socks) !! s; match x.(state) with UnixSocketState.Listener l => Some l | _ => None end.

(** The wake-ups of [close_local] at the other end *)
Definition wake_closed w s : World :=
  wake_pollers (wake_pollers (wake_pollers (wake_pollers w s PollableEvent.CanBeRead) s PollableEvent.ReadClosed) s PollableEvent.Closed) s PollableEvent.CanBeWritten.

Definition connect_stream w s (x : UnixSocketObject) (name : list byte) (cred : SocketPeerCred) : result SocketError unit * World :=
  match socket_registry_key w name ≫= (λ key, w.(registry) !! key) with
  | Some (RegistryEntry.Listener ls) =>
      match listener_of w ls with
      | None => (Err SocketError.ConnectionRefused, w)
      | Some l =>
          let connect_from local key :=
            let server_cred := from_option creator_cred cred_default (w.(socks) !! ls) in
            (* a full backlog drops the end made for the listener, which closes its peer *)
            if l.(backlog) <=? zlen l.(pending) then (Err SocketError.TryAgain, wake_closed w s)
            else
              let '(n, w) := new_socket w x.(kind) (UnixSocketState.Stream (connected s cred (Some l.(listener_path)) (Some l.(listener_key)) local)) 0 x.(priority) server_cred in
              let w := set_state w ls (UnixSocketState.Listener (with_pending (l.(pending) ++ [n]) l)) in
              let w := set_stream w s (connected n server_cred local key (Some l.(listener_path))) in
              (Ok tt, wake_pollers w ls PollableEvent.CanBeRead) in
          match x.(state) with
          | UnixSocketState.Unbound => connect_from None None
          | UnixSocketState.Bound path key => connect_from (Some path) (Some key)
          | UnixSocketState.Stream _ => (Err SocketError.IsConnected, w)
          | _ => (Err SocketError.InvalidArguments, w)
          end
      end
  | _ => (Err SocketError.ConnectionRefused, w)
  end.

Definition datagram_endpoint w (key : UnixSocketRegistryKey) : option Z :=
  match w.(registry) !! key with
  | Some (RegistryEntry.Datagram p) => match w.(socks) !! p with Some _ => Some p | None => None end
  | _ => None
  end.

Definition connect_datagram w s (name : list byte) : result SocketError unit * World :=
  match socket_registry_key w name with
  | None => (Err SocketError.ConnectionRefused, w)
  | Some key =>
      match datagram_endpoint w key with
      | None => (Err SocketError.ConnectionRefused, w)
      | Some p =>
          match datagram_of w s with
          | None => (Err SocketError.InvalidArguments, w)
          | Some d =>
              let remote := match datagram_of w p ≫= dg_local_name with Some n => n | None => name end in
              (Ok tt, set_datagram w s (with_dg_peer p key (Some remote) d))
          end
      end
  end.

Definition connect w s (name : list byte) (cred : SocketPeerCred) : result SocketError unit * World :=
  match w.(socks) !! s with
  | None => (Err SocketError.InvalidArguments, w)
  | Some x => if is_stream_like x.(kind) then connect_stream w s x name cred else connect_datagram w s name
  end.

(** One pass of [accept]: the connection that is handed out *)
Definition accept_try s w : attempt World SocketError Z :=
  match w.(socks) !! s with
  | Some x =>
      match x.(state) with
      | UnixSocketState.Listener l =>
          match l.(pending) with
          | n :: rest => Return (Ok n) (set_state w s (UnixSocketState.Listener (with_pending rest l)))
          | [] => if is_nonblocking x then Return (Err SocketError.TryAgain) w else Sleep w
          end
      | _ => Return (Err SocketError.InvalidArguments) w
      end
  | None => Return (Err SocketError.InvalidArguments) w
  end.

(** ** Objects that come with bytes *)

Definition rights_ready (bytes_read : Z) (r : PendingRights) : bool :=
  if bytes_read =? 0 then r.(byte_offset) =? 0 else r.(byte_offset) <? bytes_read.

Definition has_front_rights (x : UnixStreamInner) : bool :=
  match x.(pending_rights) with r :: _ => r.(byte_offset) =? 0 | [] => false end.

(** [while pending.front().is_some_and(is_ready)] *)
Fixpoint split_ready (bytes_read : Z) (l : list PendingRights) : list PendingRights * list PendingRights :=
  match l with
  | r :: rest => if rights_ready bytes_read r then let '(ready, rest) := split_ready bytes_read rest in (r :: ready, rest) else ([], l)
  | [] => ([], [])
  end.

Definition take_ready_rights (bytes_read : Z) (x : UnixStreamInner) : list (list Z) * UnixStreamInner :=
  let '(ready, rest) := split_ready bytes_read x.(pending_rights) in
  let rest := if 0 <? bytes_read then map (λ r, mkRights (sat_sub r.(byte_offset) bytes_read) r.(rights)) rest else rest in
  (map rights ready, with_recv x.(recv_buf) rest x.(pending_packets) x).

Definition peek_ready_rights (bytes_read : Z) (x : UnixStreamInner) : list (list Z) := map rights (split_ready bytes_read x.(pending_rights)).1.

Definition next_packet_len (x : UnixStreamInner) : option Z := head x.(pending_packets).

(** ** Reading *)

(** The writer that waits for room at the other end *)
Definition wake_writer w (x : UnixStreamInner) : World :=
  match live_peer w x with Some (p, _) => wake_pollers w p PollableEvent.CanBeWritten | None => w end.

Definition was_full (x : UnixStreamInner) : bool := STREAM_RECV_CAPACITY <=? zlen x.(recv_buf).

(** [len] bytes leave the buffer, the first [n] of them to the reader. *)
Definition drain w s (x : UnixStreamInner) (n len : Z) (packets : list Z) : attempt World SocketError (list byte) :=
  let w := set_stream w s (with_recv (drop (Z.to_nat len) x.(recv_buf)) x.(pending_rights) packets x) in
  Return (Ok (take (Z.to_nat n) x.(recv_buf))) (if was_full x then wake_writer w x else w).

Definition read_stream (x : UnixStreamInner) s (len : Z) (nonblocking peek allow_control_only : bool) w : attempt World SocketError (list byte) :=
  if allow_control_only && bool_decide (x.(recv_buf) = []) && has_front_rights x then Return (Ok []) w
  else if negb (bool_decide (x.(recv_buf) = [])) then
    let n := Z.min len (zlen x.(recv_buf)) in
    if peek then Return (Ok (take (Z.to_nat n) x.(recv_buf))) w else drain w s x n n x.(pending_packets)
  else if bool_decide (live_peer w x = None) || x.(peer_write_closed) then Return (Ok []) w
  else if nonblocking then Return (Err SocketError.TryAgain) w
  else Sleep w.

(** One pass of [read_socket_with_flags_and_mode_internal] into [len] bytes *)
Definition read_try s (len : Z) (nonblocking peek allow_control_only : bool) w : attempt World SocketError (list byte) :=
  match w.(socks) !! s with
  | None => Return (Err SocketError.InvalidArguments) w
  | Some so =>
      match so.(state) with
      | UnixSocketState.Datagram d =>
          if d.(dg_read_shutdown) then Return (Ok []) w
          else
            match d.(recv_queue) with
            | m :: rest =>
                let d := if peek then d else with_queue rest d in
                Return (Ok (take (Z.to_nat (Z.min len (zlen m.(data)))) m.(data))) (set_datagram w s (with_sender m d))
            | [] => if nonblocking then Return (Err SocketError.TryAgain) w else Sleep w
            end
      | UnixSocketState.Stream x =>
          if x.(read_shutdown) then Return (Ok []) w
          else
            match so.(kind), x.(pending_packets) with
            | UnixSocketKind.SeqPacket, packet_len :: packets =>
                let n := Z.min len packet_len in
                if peek then Return (Ok (take (Z.to_nat n) x.(recv_buf))) w else drain w s x n packet_len packets
            | _, _ => read_stream x s len nonblocking peek allow_control_only w
            end
      | _ => Return (Err SocketError.InvalidArguments) w
      end
  end.

(** The sleep in [wait_for_object_event] ends with nothing to say. *)
Definition on_wake w (_ : result ObjectError unit) : option SocketError * World := (None, w).

Definition read_socket s (len : Z) (force_nonblocking peek allow_control_only : bool) (ws : list (wakeup World)) w
  : option (result SocketError (list byte)) * World :=
  match w.(socks) !! s with
  | None => (Some (Err SocketError.InvalidArguments), w)
  | Some so => blocking_loop (read_try s len (force_nonblocking || is_nonblocking so) peek allow_control_only) on_wake ws w
  end.

Definition accept s (ws : list (wakeup World)) w : option (result SocketError Z) * World := blocking_loop (accept_try s) on_wake ws w.

(** ** Writing *)

Definition write_stream_try s (so : UnixSocketObject) (buffer : list byte) (nonblocking : bool) (objects : list Z) w : attempt World SocketError Z :=
  match so.(state) with
  | UnixSocketState.Stream x =>
      if x.(write_shutdown) then Return (Err SocketError.BrokenPipe) w
      else
        match live_peer w x with
        | None => Return (Err SocketError.BrokenPipe) w
        | Some (p, y) =>
            if y.(read_shutdown) then Return (Err SocketError.BrokenPipe) w
            else
              let packet := bool_decide (so.(kind) = UnixSocketKind.SeqPacket) in
              let write_len := if packet then zlen buffer else Z.min (zlen buffer) (sat_sub STREAM_RECV_CAPACITY (zlen y.(recv_buf))) in
              if packet && (STREAM_RECV_CAPACITY <? write_len) then Return (Err SocketError.InvalidArguments) w
              else if (0 <? write_len) || negb packet && bool_decide (buffer = []) && negb (bool_decide (objects = [])) then
                let y := with_recv (y.(recv_buf) ++ take (Z.to_nat write_len) buffer)
                  (if bool_decide (objects = []) then y.(pending_rights) else y.(pending_rights) ++ [mkRights (zlen y.(recv_buf)) objects])
                  (if packet then y.(pending_packets) ++ [write_len] else y.(pending_packets)) y in
                Return (Ok write_len) (wake_pollers (set_stream w p y) p PollableEvent.CanBeRead)
              else if nonblocking then Return (Err SocketError.TryAgain) w
              else Sleep w
        end
  | _ => Return (Err SocketError.InvalidArguments) w
  end.

(** The socket a datagram goes to: a named one, the connected one, or the one that now has the
    name of the connected one *)
Definition datagram_target w (d : UnixDatagramInner) (target : option (list byte)) : option Z :=
  match target with
  | Some name => key ← socket_registry_key w name; datagram_endpoint w key
  | None =>
      match p ← d.(dg_peer); _ ← w.(socks) !! p; Some p with
      | Some p => Some p
      | None =>
          match d.(dg_peer_key) with
          | Some key => datagram_endpoint w key
          | None => name ← d.(dg_peer_name); key ← socket_registry_key w name; datagram_endpoint w key
          end
      end
  end.

(** A pass of the loop at the end of [write_datagram_socket]; the sender holds the target. *)
Definition push_message s p (d : UnixDatagramInner) (buffer : list byte) (nonblocking : bool) (objects : list Z) (cred : SocketPeerCred) w : attempt World SocketError Z :=
  match datagram_of w p with
  | None => Return (Err SocketError.ConnectionRefused) w
  | Some y =>
      if DATAGRAM_RECV_CAPACITY <=? zlen y.(recv_queue) then
        if nonblocking then Return (Err SocketError.TryAgain) w else Sleep w
      else
        let name := match datagram_of w s with Some d => d.(dg_local_name) | None => d.(dg_local_name) end in
        let w := set_datagram w p (with_queue (y.(recv_queue) ++ [mkMessage buffer name cred objects]) y) in
        Return (Ok (zlen buffer)) (wake_pollers w p PollableEvent.CanBeRead)
  end.

Definition write_datagram_socket s (buffer : list byte) (target : option (list byte)) (force_nonblocking : bool) (objects : list Z) (cred : SocketPeerCred)
  (ws : list (wakeup World)) w : option (result SocketError Z) * World :=
  match w.(socks) !! s, datagram_of w s with
  | Some so, Some d =>
      if d.(dg_write_shutdown) then (Some (Err SocketError.BrokenPipe), w)
      else
        match datagram_target w d target with
        | None => (Some (Err SocketError.ConnectionRefused), w)
        | Some p =>
            match w.(socks) !! p, datagram_of w p with
            | Some po, Some y =>
                if y.(dg_read_shutdown) then (Some (Err SocketError.BrokenPipe), w)
                else if match po.(attached_bpf) with Some program => negb (run_socket_filter program buffer) | None => false end
                then (Some (Err SocketError.InvalidArguments), w)
                else blocking_loop (push_message s p d buffer (force_nonblocking || is_nonblocking so) objects cred) on_wake ws w
            | _, _ => (Some (Err SocketError.ConnectionRefused), w)
            end
        end
  | _, _ => (Some (Err SocketError.InvalidArguments), w)
  end.

(** One pass of [write_socket_with_rights] on a stream *)
Definition write_try s (buffer : list byte) (nonblocking : bool) (objects : list Z) w : attempt World SocketError Z :=
  match w.(socks) !! s with
  | None => Return (Err SocketError.InvalidArguments) w
  | Some so =>
      if bool_decide (buffer = []) && bool_decide (objects = []) then Return (Ok 0) w
      else write_stream_try s so buffer nonblocking objects w
  end.

Definition write_socket s (buffer : list byte) (force_nonblocking : bool) (objects : list Z) (cred : SocketPeerCred) (ws : list (wakeup World)) w
  : option (result SocketError Z) * World :=
  match w.(socks) !! s with
  | None => (Some (Err SocketError.InvalidArguments), w)
  | Some so =>
      if is_stream_like so.(kind) then blocking_loop (write_try s buffer (force_nonblocking || is_nonblocking so) objects) on_wake ws w
      else write_datagram_socket s buffer None force_nonblocking objects cred ws w
  end.

Definition write_socket_to_path s (buffer name : list byte) (force_nonblocking : bool) (objects : list Z) (cred : SocketPeerCred) (ws : list (wakeup World)) w
  : option (result SocketError Z) * World :=
  match w.(socks) !! s with
  | None => (Some (Err SocketError.InvalidArguments), w)
  | Some so =>
      if is_stream_like so.(kind) then write_socket s buffer false [] cred ws w
      else write_datagram_socket s buffer (Some name) force_nonblocking objects cred ws w
  end.

(** [sendto] with an address connects a stream that has no name yet. *)
Definition sendto s (buffer : list byte) (name : option (list byte)) (cred : SocketPeerCred) (ws : list (wakeup World)) w : option (result SocketError Z) * World :=
  match w.(socks) !! s, name with
  | None, _ => (Some (Err SocketError.InvalidArguments), w)
  | Some so, Some name =>
      if bool_decide (so.(kind) = UnixSocketKind.Datagram) then write_socket_to_path s buffer name false [] cred ws w
      else
        match so.(state) with
        | UnixSocketState.Unbound =>
            match connect w s name cred with
            | (Err e, w) => (Some (Err e), w)
            | (Ok _, w) => write_socket s buffer false [] cred ws w
            end
        | _ => write_socket s buffer false [] cred ws w
        end
  | Some _, None => write_socket s buffer false [] cred ws w
  end.

(** ** Shutdown and the end *)

Definition notify_peer_write_shutdown w (x : UnixStreamInner) : World :=
  match live_peer w x with
  | Some (p, y) =>
      let w := set_stream w p (with_peer_closed true y.(peer_closed) y) in
      wake_pollers (wake_pollers (wake_pollers w p PollableEvent.CanBeRead) p PollableEvent.ReadClosed) p PollableEvent.CanBeWritten
  | None => w
  end.

Definition notify_peer_read_shutdown w (x : UnixStreamInner) : World := wake_writer w x.

Definition close_local w (x : UnixStreamInner) : World :=
  match live_peer w x with
  | Some (p, y) => wake_closed (set_stream w p (with_peer_closed true true y)) p
  | None => w
  end.

Definition shut_read w s : World :=
  match stream_of w s with
  | Some x => notify_peer_read_shutdown (set_stream w s (with_shutdown true x.(write_shutdown) x)) x
  | None => w
  end.

Definition shut_write w s : World :=
  match stream_of w s with
  | Some x => if x.(write_shutdown) then w else notify_peer_write_shutdown (set_stream w s (with_shutdown x.(read_shutdown) true x)) x
  | None => w
  end.

Definition dg_shut w s (rd wr : bool) : World :=
  match datagram_of w s with
  | Some d =>
      let closes := wr && negb d.(dg_write_shutdown) in
      let w := set_datagram w s (with_dg_shutdown (rd || d.(dg_read_shutdown)) (wr || d.(dg_write_shutdown)) d) in
      if closes then wake_pollers w s PollableEvent.Closed else w
  | None => w
  end.

Definition shutdown w s (how : Z) : result SocketError unit * World :=
  let rd := (how =? 0) || (how =? 2) in
  let wr := (how =? 1) || (how =? 2) in
  match state <$> w.(socks) !! s with
  | Some (UnixSocketState.Datagram _) => if rd || wr then (Ok tt, dg_shut w s rd wr) else (Err SocketError.InvalidArguments, w)
  | Some (UnixSocketState.Stream _) =>
      if rd || wr then
        let w := if rd then shut_read w s else w in
        (Ok tt, if wr then shut_write w s else w)
      else (Err SocketError.InvalidArguments, w)
  | _ => (Err SocketError.InvalidArguments, w)
  end.

Definition delete_as_written w (name : list byte) : World :=
  if is_abstract name then w else set_files w (delete_unresolved_path w.(files) name).2.

Definition forget w (key : UnixSocketRegistryKey) (name : list byte) : World :=
  delete_as_written (set_registry w (delete key w.(registry))) name.

Definition remove_socket w s : World := mkSockets w.(files) (delete s w.(socks)) w.(registry) w.(next_socket) w.(wakes).

(** What [Drop] does to the connection of a socket: the name of a bound one that connected is
    given back while nobody listens at it. *)
Definition drop_stream w (x : UnixStreamInner) : World :=
  let w :=
    match x.(local_name), x.(local_key) with
    | Some name, Some key => match w.(registry) !! key with Some RegistryEntry.StreamReserved => forget w key name | _ => w end
    | _, _ => w
    end in
  close_local w x.

Definition drop_connection w s : World :=
  match stream_of w s with
  | Some x => drop_stream (remove_socket w s) x
  | None => remove_socket w s
  end.

(** [Drop]; a listener takes the connections with it that nobody accepted. *)
Definition drop_socket w s : World :=
  match state <$> w.(socks) !! s with
  | Some (UnixSocketState.Bound name key) => forget (remove_socket w s) key name
  | Some (UnixSocketState.Listener l) => foldl drop_connection (forget (remove_socket w s) l.(listener_key) l.(listener_path)) l.(pending)
  | Some (UnixSocketState.Datagram d) =>
      match d.(dg_local_name) with
      | Some name =>
          let w := remove_socket w s in
          delete_as_written (match d.(dg_local_key) with Some key => set_registry w (delete key w.(registry)) | None => w end) name
      | None => remove_socket w s
      end
  | Some (UnixSocketState.Stream _) => drop_connection w s
  | Some _ => remove_socket w s
  | None => w
  end.

(** ** Flags and options (traits_object.rs, sockopt.rs) *)

Definition set_flags w s (f : Z) : World :=
  match w.(socks) !! s with Some x => set_sock w s (with_flags f x) | None => w end.

(** [can_set_socket_priority]: above 6 with CAP_NET_ADMIN only *)
Definition can_set_socket_priority (pr : Z) (net_admin : bool) : result SocketError unit :=
  if pr <? 0 then Err SocketError.PermissionDenied
  else if (pr <=? 6) || net_admin then Ok tt else Err SocketError.PermissionDenied.

Definition set_priority w s (pr : Z) (net_admin : bool) : result SocketError unit * World :=
  match w.(socks) !! s, can_set_socket_priority pr net_admin with
  | Some x, Ok _ => (Ok tt, set_sock w s (mkSocket x.(kind) x.(state) x.(flags) x.(pass_cred) pr x.(attached_bpf) x.(creator_cred)))
  | Some _, Err e => (Err e, w)
  | None, _ => (Err SocketError.InvalidArguments, w)
  end.

Definition set_pass_cred w s (b : bool) : World :=
  match w.(socks) !! s with
  | Some x => set_sock w s (mkSocket x.(kind) x.(state) x.(flags) b x.(priority) x.(attached_bpf) x.(creator_cred))
  | None => w
  end.

Definition attach_bpf w s (program : option Z) : World :=
  match w.(socks) !! s with
  | Some x => set_sock w s (mkSocket x.(kind) x.(state) x.(flags) x.(pass_cred) x.(priority) program x.(creator_cred))
  | None => w
  end.

(** ** Readiness *)

Definition is_event_ready w s (e : PollableEvent) : bool :=
  match state <$> w.(socks) !! s, e with
  | Some (UnixSocketState.Listener l), PollableEvent.CanBeRead => negb (bool_decide (l.(pending) = []))
  | Some (UnixSocketState.Stream x), PollableEvent.CanBeRead =>
      negb (bool_decide (x.(recv_buf) = [])) || has_front_rights x || x.(peer_write_closed) || bool_decide (live_peer w x = None)
  | Some (UnixSocketState.Stream x), PollableEvent.CanBeWritten =>
      if x.(write_shutdown) then false
      else match live_peer w x with
           | None => true
           | Some (_, y) => y.(read_shutdown) || (zlen y.(recv_buf) <? STREAM_RECV_CAPACITY)
           end
  | Some (UnixSocketState.Stream x), PollableEvent.Closed => x.(peer_closed) || bool_decide (live_peer w x = None)
  | Some (UnixSocketState.Stream x), PollableEvent.ReadClosed => x.(peer_write_closed)
  | Some (UnixSocketState.Datagram d), PollableEvent.CanBeRead => negb (bool_decide (d.(recv_queue) = []))
  | Some (UnixSocketState.Datagram d), PollableEvent.CanBeWritten => negb d.(dg_write_shutdown) && (zlen d.(recv_queue) <? DATAGRAM_RECV_CAPACITY)
  | Some (UnixSocketState.Datagram d), PollableEvent.Closed => d.(dg_write_shutdown)
  | _, _ => false
  end.

(** ** Receiving messages (systemcall/implementations/socket) *)

(** The room that [n] descriptors take in the control buffer *)
Definition cmsg_align (n : Z) : Z := Z.land (n + 7) (Z.lnot 7).
Definition rights_len (n : Z) : Z := cmsg_align 16 + cmsg_align (4 * n).

(** [rights_control_bytes_for_read]: objects that do not fit are not handed out. *)
Definition fitting (ready : list (list Z)) (control_capacity : Z) : list Z :=
  if control_capacity <? rights_len (zlen (concat ready)) then [] else concat ready.

Definition stream_rights w s (bytes_read : Z) (peek : bool) (control_capacity : Z) : list Z * World :=
  match stream_of w s with
  | None => ([], w)
  | Some x =>
      if peek then (fitting (peek_ready_rights bytes_read x) control_capacity, w)
      else let '(ready, x) := take_ready_rights bytes_read x in (fitting ready control_capacity, set_stream w s x)
  end.

Definition datagram_rights w s (peek : bool) (control_capacity : Z) : list Z * World :=
  match datagram_of w s with
  | None => ([], w)
  | Some d =>
      match fitting [d.(peer_rights)] control_capacity with
      | [] => ([], w)
      | objects => (objects, if peek then w else set_datagram w s (with_peer_rights [] d))
      end
  end.

(** The objects of [unix_socket_control_bytes] *)
Definition control_rights w s (bytes_read : Z) (peek : bool) (control_capacity : Z) : list Z * World :=
  match stream_rights w s bytes_read peek control_capacity with
  | ([], w) => datagram_rights w s peek control_capacity
  | r => r
  end.

Record Received := mkReceived { bytes : list byte; truncated : bool; objects : list Z; answer : Z }.

(** [Recvmsg] on a unix socket, into buffers of [capacity] bytes together *)
Definition recvmsg s (capacity : Z) (dontwait peek report_trunc : bool) (control_capacity : Z) (ws : list (wakeup World)) w
  : option (result SocketError Received) * World :=
  match w.(socks) !! s with
  | None => (Some (Err SocketError.InvalidArguments), w)
  | Some so =>
      let scratch := match so.(kind), stream_of w s ≫= next_packet_len with UnixSocketKind.SeqPacket, Some n => n | _, _ => capacity end in
      match read_socket s scratch dontwait peek true ws w with
      | (None, w) => (None, w)
      | (Some (Err e), w) => (Some (Err e), w)
      | (Some (Ok b), w) =>
          let total := zlen b in
          let copied := Z.min total capacity in
          let with_control := (0 <? total) || negb (bool_decide (so.(kind) = UnixSocketKind.Stream)) ||
            match stream_of w s with Some x => has_front_rights x | None => false end in
          let '(got, w) := if with_control then control_rights w s total peek control_capacity else ([], w) in
          (Some (Ok (mkReceived (take (Z.to_nat copied) b) (copied <? total) got (if report_trunc || (capacity =? 0) then total else copied))), w)
      end
  end.
End sockets.

(** ** Addresses (name.rs) *)

Definition SOCKADDR_UN_PATH_LEN : Z := 108.
Definition SA_FAMILY_LEN : Z := 2.

Definition in_range (lo hi : Z) (b : byte) : bool := (lo <=? Z.of_N (Byte.to_N b)) && (Z.of_N (Byte.to_N b) <=? hi).

Definition byte_at (l : list byte) (i : nat) : byte := default x00 (l !! i).

(** [String::from_utf8_lossy]: the length of the next piece of a text, and whether it is a
    character; the bytes past the end read as zero. *)
Definition utf8_piece (l : list byte) : nat * bool :=
  let first lo hi := in_range lo hi (byte_at l 0) in
  let second lo hi := in_range lo hi (byte_at l 1) in
  let tail i := in_range 128 191 (byte_at l i) in
  if first 0 127 then (1, true)%nat
  else if first 194 223 then if second 128 191 then (2, true)%nat else (1, false)%nat
  else if first 224 239 then
    if (first 224 224 && second 160 191) || (first 225 236 && second 128 191) || (first 237 237 && second 128 159) || (first 238 239 && second 128 191)
    then if tail 2%nat then (3, true)%nat else (2, false)%nat
    else (1, false)%nat
  else if first 240 244 then
    if (first 240 240 && second 144 191) || (first 241 243 && second 128 191) || (first 244 244 && second 128 143)
    then if tail 2%nat then if tail 3%nat then (4, true)%nat else (3, false)%nat else (2, false)%nat
    else (1, false)%nat
  else (1, false)%nat.

Definition REPLACEMENT : list byte := [Byte.xef; Byte.xbf; Byte.xbd].

(** [fuel]: the length of the text; each piece has a byte. *)
Fixpoint utf8_lossy_in (fuel : nat) (l : list byte) : list byte :=
  match fuel, l with
  | S fuel, _ :: _ =>
      let '(n, valid) := utf8_piece l in
      (if valid then take n l else REPLACEMENT) ++ utf8_lossy_in fuel (drop n l)
  | _, _ => []
  end.

Definition from_utf8_lossy (l : list byte) : list byte := utf8_lossy_in (length l) l.

Definition serialize_unix_addr (path : option (list byte)) : list byte :=
  let family := le_encode 2 AF_UNIX in
  match path with
  | None => family
  | Some name =>
      let copy_len := Z.min (zlen name) (if is_abstract name then SOCKADDR_UN_PATH_LEN else SOCKADDR_UN_PATH_LEN - 1) in
      family ++ take (Z.to_nat copy_len) name ++ repeat x00 (Z.to_nat (SOCKADDR_UN_PATH_LEN - copy_len))
  end.

Fixpoint until_zero (l : list byte) : list byte :=
  match l with
  | b :: l => if bool_decide (b = x00) then [] else b :: until_zero l
  | [] => []
  end.

Definition parse_unix_socket_path (address : list byte) : result SocketError (list byte) :=
  if zlen address <? SA_FAMILY_LEN then Err SocketError.InvalidArguments
  else
    let path := take (Z.to_nat SOCKADDR_UN_PATH_LEN) (drop (Z.to_nat SA_FAMILY_LEN) address) in
    match path with
    | [] => Err SocketError.InvalidArguments
    | b :: rest =>
        if bool_decide (b = x00) then if bool_decide (rest = []) then Err SocketError.InvalidArguments else Ok (from_utf8_lossy path)
        else Ok (from_utf8_lossy (until_zero path))
    end.

Definition getsockname (x : UnixSocketObject) : result SocketError (list byte) :=
  match x.(state) with
  | UnixSocketState.Unbound => Ok (serialize_unix_addr None)
  | UnixSocketState.Bound path _ => Ok (serialize_unix_addr (Some path))
  | UnixSocketState.Listener l => Ok (serialize_unix_addr (Some l.(listener_path)))
  | UnixSocketState.Datagram d => Ok (serialize_unix_addr d.(dg_local_name))
  | UnixSocketState.Stream y => Ok (serialize_unix_addr y.(local_name))
  | UnixSocketState.Closed => Err SocketError.InvalidArguments
  end.

Definition getpeername (x : UnixSocketObject) : result SocketError (list byte) :=
  match x.(state) with
  | UnixSocketState.Datagram d => Ok (serialize_unix_addr d.(dg_peer_name))
  | UnixSocketState.Stream y => Ok (serialize_unix_addr y.(peer_name))
  | _ => Err SocketError.InvalidArguments
  end.
