(* ===== verification/UnixSocketProps.v ===== *)
(** * Unix domain sockets: properties

    The two ends of a connection point at each other for as long as both live; what one end
    sends is what the other receives, in order and, on packet sockets, packet by packet; a
    reader, a writer or an acceptor that sleeps is woken when its call can go on. *)

From stdpp Require Import strings.
From S2P Require Import Prelude Errors Blocking Polling UnixSocket.

Open Scope Z_scope.

Abbreviation Table := (gmap Z UnixSocketObject).
Implicit Types (m : Table) (s p : Z).

(** ** The invariant of the table *)

Fixpoint total (l : list Z) : Z := match l with n :: l => n + total l | [] => 0 end.

Definition buffers_ok (k : UnixSocketKind) (x : UnixStreamInner) : Prop :=
  match k with
  | UnixSocketKind.Stream => x.(pending_packets) = [] ∧ zlen x.(recv_buf) <= STREAM_RECV_CAPACITY
  | UnixSocketKind.SeqPacket => Forall (λ n, 0 < n) x.(pending_packets) ∧ total x.(pending_packets) = zlen x.(recv_buf)
  | UnixSocketKind.Datagram => False
  end.

(** The other end: another socket that, while it lives, is a connection back to this one. *)
Definition faces m (next : Z) s (o : UnixSocketObject) (x : UnixStreamInner) : Prop :=
  ∃ p, x.(peer) = Some p ∧ p ≠ s ∧ p < next ∧
    ∀ o', m !! p = Some o' → o'.(kind) = o.(kind) ∧ ∃ y, o'.(state) = UnixSocketState.Stream y ∧ y.(peer) = Some s.

Record table_ok m (next : Z) : Prop := {
  ok_fresh : ∀ s o, m !! s = Some o → s < next;
  ok_stream : ∀ s o x, m !! s = Some o → o.(state) = UnixSocketState.Stream x → buffers_ok o.(kind) x ∧ faces m next s o x;
  ok_pending : ∀ s o l, m !! s = Some o → o.(state) = UnixSocketState.Listener l →
    NoDup l.(pending) ∧ 0 < l.(backlog) ∧ zlen l.(pending) <= l.(backlog) ∧
    ∀ n, n ∈ l.(pending) → ∃ o' x, m !! n = Some o' ∧ o'.(state) = UnixSocketState.Stream x;
  ok_apart : ∀ s s' o o' l l' n, m !! s = Some o → o.(state) = UnixSocketState.Listener l →
    m !! s' = Some o' → o'.(state) = UnixSocketState.Listener l' → n ∈ l.(pending) → n ∈ l'.(pending) → s = s';
}.

Definition plain (st : UnixSocketState) : Prop :=
  match st with UnixSocketState.Stream _ | UnixSocketState.Listener _ => False | _ => True end.

Definition empty_listener (st : UnixSocketState) : Prop :=
  match st with UnixSocketState.Listener l => l.(pending) = [] ∧ 0 < l.(backlog) | _ => plain st end.

(** *** How the table changes *)

Lemma ok_insert_new m next o : table_ok m next → plain o.(state) → table_ok (<[next := o]> m) (next + 1).
Proof.
  intros [Hf Hs Hp Ha] Ho. assert (∀ s o', <[next := o]> m !! s = Some o' → ¬ plain o'.(state) → m !! s = Some o') as Hold.
  { intros s o'. rewrite lookup_insert_Some. intros [[_ <-]|[_ ?]] Hn; [done|done]. }
  assert (∀ s o', m !! s = Some o' → <[next := o]> m !! s = Some o') as Hnew.
  { intros s o' Hm. rewrite lookup_insert_ne; [done|]. intros ->. apply Hf in Hm. lia. }
  split.
  - intros s o' [[<- _]|[_ Hm]]%lookup_insert_Some; [lia|]. apply Hf in Hm. lia.
  - intros s o' x Hm Hst. apply Hold in Hm; [|rewrite Hst; by intros []]. destruct (Hs s o' x Hm Hst) as [Hb (p & H1 & H2 & H3 & H4)].
    split; [done|]. exists p. split_and!; [done..|lia|]. intros o'' Hp'. apply H4. rewrite lookup_insert_ne in Hp'; [done|lia].
  - intros s o' l Hm Hst. apply Hold in Hm; [|rewrite Hst; by intros []]. destruct (Hp s o' l Hm Hst) as (H1 & H2 & H3 & H4).
    split_and!; [done..|]. intros n Hn. destruct (H4 n Hn) as (o'' & x & ? & ?). exists o'', x. split; [by apply Hnew|done].
  - intros s s' o1 o2 l l' n H1 Hl H2 Hl'. apply (Ha s s' o1 o2); try done; apply Hold; try done; rewrite ?Hl, ?Hl'; by intros [].
Qed.

(** A socket that is no connection stays none. *)
Lemma ok_insert_plain m next s o st : table_ok m next → m !! s = Some o → plain o.(state) → empty_listener st →
  table_ok (<[s := with_sock_state st o]> m) next.
Proof.
  intros [Hf Hs Hp Ha] Hm Ho Hst. set (m' := <[s := _]> m).
  assert (∀ s' o' x, m' !! s' = Some o' → o'.(state) = UnixSocketState.Stream x → m !! s' = Some o') as Hold.
  { intros s' o' x. subst m'. rewrite lookup_insert_Some. intros [[_ <-]|[_ ?]] Hx; [|done]. cbn in Hx. by subst st. }
  assert (∀ s' o' x, m !! s' = Some o' → o'.(state) = UnixSocketState.Stream x → m' !! s' = Some o') as Hnew.
  { intros s' o' x Hm' Hx. subst m'. rewrite lookup_insert_ne; [done|]. intros ->. assert (o' = o) as -> by congruence. by rewrite Hx in Ho. }
  assert (∀ s' o' l, m' !! s' = Some o' → o'.(state) = UnixSocketState.Listener l → l.(pending) = [] ∧ 0 < l.(backlog) ∨ m !! s' = Some o') as Hlis.
  { intros s' o' l. subst m'. rewrite lookup_insert_Some. intros [[_ <-]|[_ ?]] Hx; [|by right]. cbn in Hx. subst st. by left. }
  split.
  - intros s' o'. subst m'. rewrite lookup_insert_Some. intros [[<- _]|[_ ?]]; by eapply Hf.
  - intros s' o' x Hm' Hx. pose proof (Hold s' o' x Hm' Hx) as Hm2. destruct (Hs s' o' x Hm2 Hx) as [Hb (p & H1 & H2 & H3 & H4)].
    split; [done|]. exists p. split_and!; [done..|]. intros o'' Hp'. destruct (decide (p = s)) as [->|Hne].
    + destruct (H4 o Hm) as (_ & y & Hy & _). by rewrite Hy in Ho.
    + apply H4. subst m'. by rewrite lookup_insert_ne in Hp'.
  - intros s' o' l Hm' Hl. destruct (Hlis s' o' l Hm' Hl) as [[-> ?]|Hm2].
    + split_and!; [by apply NoDup_nil|done|change (zlen (@nil Z)) with 0; lia|by intros n ?%elem_of_nil].
    + destruct (Hp s' o' l Hm2 Hl) as (H1 & H2 & H3 & H4). split_and!; [done..|]. intros n Hn. destruct (H4 n Hn) as (o2 & x & ? & ?).
      exists o2, x. split; [by eapply Hnew|done].
  - intros s1 s2 o1 o2 l1 l2 n H1 Hl1 H2 Hl2 Hn1 Hn2. destruct (Hlis s1 o1 l1 H1 Hl1) as [[E _]|Hm1]; [rewrite E in Hn1; by apply elem_of_nil in Hn1|].
    destruct (Hlis s2 o2 l2 H2 Hl2) as [[E _]|Hm2]; [rewrite E in Hn2; by apply elem_of_nil in Hn2|]. by apply (Ha s1 s2 o1 o2 l1 l2 n).
Qed.

(** A connection keeps its peer. *)
Lemma ok_insert_stream m next s o x x' : table_ok m next → m !! s = Some o → o.(state) = UnixSocketState.Stream x →
  x'.(peer) = x.(peer) → buffers_ok o.(kind) x' → table_ok (<[s := with_sock_state (UnixSocketState.Stream x') o]> m) next.
Proof.
  intros [Hf Hs Hp Ha] Hm Ho Hpe Hb. set (m' := <[s := _]> m).
  assert (∀ s' o', m' !! s' = Some o' → ∃ o1, m !! s' = Some o1 ∧ o'.(kind) = o1.(kind) ∧
    match o1.(state) with UnixSocketState.Stream y => ∃ y', o'.(state) = UnixSocketState.Stream y' ∧ y'.(peer) = y.(peer) | st => o'.(state) = st end) as Hold.
  { intros s' o'. subst m'. rewrite lookup_insert_Some. intros [[<- <-]|[_ ?]].
    - exists o. split_and!; [done..|]. rewrite Ho. by exists x'.
    - exists o'. split_and!; [done..|]. destruct (state o'); try done. by eexists. }
  assert (∀ s' o' l, m' !! s' = Some o' → o'.(state) = UnixSocketState.Listener l → m !! s' = Some o') as Hlis.
  { intros s' o' l. subst m'. rewrite lookup_insert_Some. by intros [[_ <-]|[_ ?]]. }
  split.
  - intros s' o' Hm'. destruct (Hold s' o' Hm') as (o1 & H1 & _). by eapply Hf.
  - intros s' o' y Hm' Hy. assert (buffers_ok o'.(kind) y ∧ ∃ y0 o0, m !! s' = Some o0 ∧ o0.(state) = UnixSocketState.Stream y0 ∧ y.(peer) = y0.(peer) ∧ o'.(kind) = o0.(kind)) as [Hbuf (y0 & o0 & Hm0 & Hy0 & Hpy & Hk)].
    { subst m'. apply lookup_insert_Some in Hm' as [[<- <-]|[_ Hm']]; [cbn in Hy|].
      - injection Hy as <-. split; [done|]. by exists x, o.
      - destruct (Hs s' o' y Hm' Hy). split; [done|]. by exists y, o'. }
    split; [done|]. destruct (Hs s' o0 y0 Hm0 Hy0) as [_ (p & H1 & H2 & H3 & H4)]. exists p. split_and!; [congruence|done..|].
    intros o2 Hp2. destruct (Hold p o2 Hp2) as (o1 & Ho1 & Hk1 & Hst). destruct (H4 o1 Ho1) as (Hk2 & z & Hz & Hpz). split; [congruence|].
    rewrite Hz in Hst. destruct Hst as (z' & ? & ?). exists z'. split; [done|congruence].
  - intros s' o' l Hm' Hl. destruct (Hp s' o' l (Hlis s' o' l Hm' Hl) Hl) as (H1 & H2 & H3 & H4). split_and!; [done..|].
    intros n Hn. destruct (H4 n Hn) as (o2 & y & Ho2 & Hy). subst m'. destruct (decide (s = n)) as [<-|Hne].
    + rewrite lookup_insert_eq. by eexists _, x'.
    + rewrite lookup_insert_ne by done. by exists o2, y.
  - intros s1 s2 o1 o2 l1 l2 n H1 Hl1 H2 Hl2. apply (Ha s1 s2 o1 o2 l1 l2 n); eauto.
Qed.

(** A socket and a new one become the ends of a connection. *)
Lemma ok_connect m next s o on x y : table_ok m next → m !! s = Some o → plain o.(state) → is_stream_like o.(kind) = true →
  on.(kind) = o.(kind) → on.(state) = UnixSocketState.Stream y → buffers_ok o.(kind) x → buffers_ok o.(kind) y →
  x.(peer) = Some next → y.(peer) = Some s →
  table_ok (<[s := with_sock_state (UnixSocketState.Stream x) o]> (<[next := on]> m)) (next + 1).
Proof.
  intros Hok Hm Ho Hk Hkn Hon Hbx Hby Hpx Hpy. pose proof (ok_fresh _ _ Hok s o Hm) as Hlt. destruct Hok as [Hf Hs Hp Ha]. set (m' := <[s := _]> _).
  assert (m' !! next = Some on) as Hn' by (subst m'; rewrite lookup_insert_ne by lia; apply lookup_insert_eq).
  assert (m' !! s = Some (with_sock_state (UnixSocketState.Stream x) o)) as Hs' by (subst m'; apply lookup_insert_eq).
  assert (∀ s', s' ≠ s → s' ≠ next → m' !! s' = m !! s') as Hne by (intros; subst m'; by rewrite !lookup_insert_ne).
  assert (∀ s' o', m' !! s' = Some o' → s' = s ∧ o' = with_sock_state (UnixSocketState.Stream x) o ∨ s' = next ∧ o' = on ∨ s' ≠ s ∧ s' ≠ next ∧ m !! s' = Some o') as Hcase.
  { intros s' o' H. destruct (decide (s' = s)) as [->|H1]; [left; split; [done|congruence]|]. destruct (decide (s' = next)) as [->|H2]; [right; left; split; [done|congruence]|].
    right; right. by rewrite Hne in H. }
  assert (∀ s' o' l, m' !! s' = Some o' → o'.(state) = UnixSocketState.Listener l → m !! s' = Some o') as Hlis.
  { intros s' o' l H Hl. destruct (Hcase s' o' H) as [[_ ->]|[[_ ->]|(_ & _ & ?)]]; [done|congruence|done]. }
  split.
  - intros s' o' [[-> _]|[[-> _]|(_ & _ & H)]]%Hcase; [lia|lia|]. apply Hf in H. lia.
  - intros s' o' z H Hz. destruct (Hcase s' o' H) as [[-> ->]|[[-> ->]|(H1 & H2 & Hm')]].
    + cbn in Hz. injection Hz as <-. split; [done|]. exists next. split_and!; [done|lia|lia|]. intros o'' H2. assert (o'' = on) as -> by congruence. split; [done|]. by exists y.
    + assert (z = y) as -> by congruence. rewrite Hkn. split; [done|]. exists s. split_and!; [done|lia|lia|]. intros o'' H2. assert (o'' = with_sock_state (UnixSocketState.Stream x) o) as -> by congruence.
      split; [done|]. by exists x.
    + destruct (Hs s' o' z Hm' Hz) as [Hb (p & E1 & E2 & E3 & E4)]. split; [done|]. exists p. split_and!; [done|done|lia|]. intros o'' Hpp.
      destruct (Hcase p o'' Hpp) as [[-> ->]|[[-> ->]|(_ & _ & Hm2)]]; [|lia|by apply E4].
      destruct (E4 o Hm) as (_ & u & Hu & _). by rewrite Hu in Ho.
  - intros s' o' l H Hl. destruct (Hp s' o' l (Hlis s' o' l H Hl) Hl) as (E1 & E2 & E3 & E4). split_and!; [done..|].
    intros n Hn. destruct (E4 n Hn) as (o2 & u & Ho2 & Hu). exists o2, u. split; [|done]. rewrite Hne; [done| |].
    + intros ->. assert (o2 = o) as -> by congruence. by rewrite Hu in Ho.
    + intros ->. apply Hf in Ho2. lia.
  - intros s1 s2 o1 o2 l1 l2 n H1 Hl1 H2 Hl2. apply (Ha s1 s2 o1 o2 l1 l2 n); eauto.
Qed.

(** The pending connections of a listener change. *)
Lemma ok_insert_listener m next s o l q : table_ok m next → m !! s = Some o → o.(state) = UnixSocketState.Listener l →
  NoDup q → zlen q <= l.(backlog) →
  (∀ n, n ∈ q → n ∈ l.(pending) ∨ (∃ o' x, m !! n = Some o' ∧ o'.(state) = UnixSocketState.Stream x) ∧
    ∀ s' o' l', m !! s' = Some o' → o'.(state) = UnixSocketState.Listener l' → n ∉ l'.(pending)) →
  table_ok (<[s := with_sock_state (UnixSocketState.Listener (with_pending q l)) o]> m) next.
Proof.
  intros [Hf Hs Hp Ha] Hm Hl Hnd Hlen Hq. set (m' := <[s := _]> m).
  assert (∀ s' o' x, m' !! s' = Some o' → o'.(state) = UnixSocketState.Stream x → m !! s' = Some o') as Hold.
  { intros s' o' x. subst m'. rewrite lookup_insert_Some. by intros [[_ <-]|[_ ?]]. }
  assert (∀ s' o' x, m !! s' = Some o' → o'.(state) = UnixSocketState.Stream x → m' !! s' = Some o') as Hnew.
  { intros s' o' x Hm' Hx. subst m'. rewrite lookup_insert_ne; [done|]. intros ->. congruence. }
  assert (∀ s' o' l', m' !! s' = Some o' → o'.(state) = UnixSocketState.Listener l' → ∀ n, n ∈ l'.(pending) →
    s' = s ∧ n ∈ q ∨ m !! s' = Some o') as Hlis.
  { intros s' o' l'. subst m'. rewrite lookup_insert_Some. intros [[<- <-]|[_ ?]] Hl' n Hn; [|by right]. cbn in Hl'. injection Hl' as <-. by left. }
  split.
  - intros s' o'. subst m'. rewrite lookup_insert_Some. intros [[<- _]|[_ ?]]; by eapply Hf.
  - intros s' o' x Hm' Hx. pose proof (Hold s' o' x Hm' Hx) as Hm2. destruct (Hs s' o' x Hm2 Hx) as [Hb (p & H1 & H2 & H3 & H4)].
    split; [done|]. exists p. split_and!; [done..|]. intros o'' Hp'. apply H4. subst m'. apply lookup_insert_Some in Hp' as [[<- <-]|[_ ?]]; [|done].
    destruct (H4 o Hm) as (_ & y & Hy & _). congruence.
  - intros s' o' l'. subst m'. rewrite lookup_insert_Some. intros [[<- <-]|[Hne Hm']] Hl'.
    + cbn in Hl'. injection Hl' as <-. destruct (Hp s o l Hm Hl) as (H1 & H2 & H3 & H4). split_and!; [done..|]. intros n Hn.
      destruct (Hq n Hn) as [Hn'|[Hn' _]]; [destruct (H4 n Hn') as (o' & x & ? & ?)|destruct Hn' as (o' & x & ? & ?)]; exists o', x; (split; [by eapply Hnew|done]).
    + destruct (Hp s' o' l' Hm' Hl') as (H1 & H2 & H3 & H4). split_and!; [done..|]. intros n Hn. destruct (H4 n Hn) as (o2 & x & ? & ?). exists o2, x. split; [by eapply Hnew|done].
  - assert (∀ s1 o1 l1 n, m !! s1 = Some o1 → o1.(state) = UnixSocketState.Listener l1 → n ∈ l1.(pending) → n ∈ q → s1 = s) as Hapart.
    { intros s1 o1 l1 n H1 Hl1 Hn Hnq. destruct (Hq n Hnq) as [Hn'|[_ Hno]]; [by apply (Ha s1 s o1 o l1 l n)|by destruct (Hno s1 o1 l1 H1 Hl1)]. }
    intros s1 s2 o1 o2 l1 l2 n H1 Hl1 H2 Hl2 Hn1 Hn2.
    destruct (Hlis s1 o1 l1 H1 Hl1 n Hn1) as [[-> Hq1]|Hm1], (Hlis s2 o2 l2 H2 Hl2 n Hn2) as [[-> Hq2]|Hm2]; [done| | |by apply (Ha s1 s2 o1 o2 l1 l2 n)].
    + symmetry. by apply (Hapart s2 o2 l2 n).
    + by apply (Hapart s1 o1 l1 n).
Qed.

(** A socket that no listener holds goes. *)
Lemma ok_delete m next s : table_ok m next →
  (∀ s' o' l, m !! s' = Some o' → o'.(state) = UnixSocketState.Listener l → s' ≠ s → s ∉ l.(pending)) → table_ok (delete s m) next.
Proof.
  intros [Hf Hs Hp Ha] Hno. split.
  - intros s' o' [_ Hm]%lookup_delete_Some. by eapply Hf.
  - intros s' o' x [_ Hm]%lookup_delete_Some Hx. destruct (Hs s' o' x Hm Hx) as [Hb (p & H1 & H2 & H3 & H4)]. split; [done|]. exists p. split_and!; [done..|].
    intros o'' [_ ?]%lookup_delete_Some. by apply H4.
  - intros s' o' l [Hne Hm]%lookup_delete_Some Hl. destruct (Hp s' o' l Hm Hl) as (H1 & H2 & H3 & H4). split_and!; [done..|].
    intros n Hn. destruct (H4 n Hn) as (o2 & x & ? & ?). exists o2, x. split; [|done]. apply lookup_delete_Some. split; [|done]. intros <-. by apply (Hno s' o' l Hm Hl).
  - intros s1 s2 o1 o2 l1 l2 n [_ H1]%lookup_delete_Some Hl1 [_ H2]%lookup_delete_Some Hl2. by apply (Ha s1 s2 o1 o2 l1 l2 n).
Qed.

(** ** What was sent and received *)

(** [Took]: a reader took objects that came with bytes. *)
Inductive Event : Type := Sent (s : Z) (b : list byte) | Received (s : Z) (b : list byte) | Took (s : Z).

Definition event_of (e : Event) : Z := match e with Sent s _ | Received s _ | Took s => s end.

Fixpoint sent_by (log : list Event) s : list (list byte) :=
  match log with
  | Sent s' b :: log => if s' =? s then b :: sent_by log s else sent_by log s
  | _ :: log => sent_by log s
  | [] => []
  end.

Fixpoint got_by (log : list Event) s : list (list byte) :=
  match log with
  | Received s' b :: log => if s' =? s then b :: got_by log s else got_by log s
  | _ :: log => got_by log s
  | [] => []
  end.

Lemma sent_app l k s : sent_by (l ++ k) s = sent_by l s ++ sent_by k s.
Proof. induction l as [|[s' b|s' b|s'] l IH]; cbn; [done| |done|done]. destruct (s' =? s); cbn; by rewrite IH. Qed.

Lemma got_app l k s : got_by (l ++ k) s = got_by l s ++ got_by k s.
Proof. induction l as [|[s' b|s' b|s'] l IH]; cbn; [done|done| |done]. destruct (s' =? s); cbn; by rewrite IH. Qed.

Definition silent (log : list Event) s : Prop := sent_by log s = [] ∧ got_by log s = [].

Lemma silent_fresh log next s : (∀ e, e ∈ log → event_of e < next) → next <= s → silent log s.
Proof.
  intros Hf Hs. unfold silent. induction log as [|e log IH]; [done|]. destruct IH as [H1 H2]; [intros e' He'; apply Hf; by right|].
  assert (event_of e < next) by (apply Hf; by left). destruct e as [s' b|s' b|s']; cbn in *; [destruct (Z.eqb_spec s' s); (lia || by rewrite ?H1, ?H2)..|done].
Qed.

(** What one end got and what lies in its buffer is what the other sent; a packet is got at
    least in part. *)
Definition flow (k : UnixSocketKind) (sent got : list (list byte)) (x : UnixStreamInner) : Prop :=
  match k with
  | UnixSocketKind.Stream => concat sent = concat got ++ x.(recv_buf)
  | UnixSocketKind.SeqPacket => ∃ taken left, sent = taken ++ left ∧ Forall2 prefix got taken ∧
      concat left = x.(recv_buf) ∧ map zlen left = x.(pending_packets)
  | UnixSocketKind.Datagram => True
  end.

Definition is_stream (st : UnixSocketState) : bool := match st with UnixSocketState.Stream _ => true | _ => false end.

Record history_ok (log : list Event) m (next : Z) : Prop := {
  h_fresh : ∀ e, e ∈ log → event_of e < next;
  h_quiet : ∀ s o, m !! s = Some o → is_stream_like o.(kind) = true → is_stream o.(state) = false → silent log s;
  h_flow : ∀ s o x p, m !! s = Some o → o.(state) = UnixSocketState.Stream x → x.(peer) = Some p →
    flow o.(kind) (sent_by log p) (got_by log s) x;
}.

Definition same_flow (x x' : UnixStreamInner) : Prop :=
  x'.(recv_buf) = x.(recv_buf) ∧ x'.(pending_packets) = x.(pending_packets) ∧ x'.(peer) = x.(peer).

(** A socket goes on as it was, or starts. *)
Definition goes_on m s (o' : UnixSocketObject) : Prop := ∃ o, m !! s = Some o ∧ o'.(kind) = o.(kind) ∧
  match o.(state), o'.(state) with
  | UnixSocketState.Stream x, UnixSocketState.Stream x' => same_flow x x'
  | st, st' => is_stream st = false ∧ is_stream st' = false
  end.

Definition starts (log : list Event) s (o' : UnixSocketObject) : Prop := silent log s ∧
  match o'.(state) with
  | UnixSocketState.Stream x => x.(recv_buf) = [] ∧ x.(pending_packets) = [] ∧ ∀ p, x.(peer) = Some p → silent log p
  | _ => True
  end.

Lemma history_change log m next m' next' : history_ok log m next → next <= next' →
  (∀ s o', m' !! s = Some o' → goes_on m s o' ∨ starts log s o') → history_ok log m' next'.
Proof.
  intros [Hf Hq Hw] Hle Hc. split.
  - intros e He. apply Hf in He. lia.
  - intros s o' Hm Hk Hst. destruct (Hc s o' Hm) as [(o & Ho & Hkind & Hmatch)|[? _]]; [|done]. apply (Hq s o); [done|by rewrite <- Hkind|].
    destruct (state o), (state o'); try done; by destruct Hmatch.
  - intros s o' x p Hm Hst Hp. destruct (Hc s o' Hm) as [(o & Ho & Hkind & Hmatch)|[[Hs1 Hs2] Hnew]]; rewrite Hst in *.
    + destruct (state o) eqn:E; try by destruct Hmatch. destruct Hmatch as (E1 & E2 & E3). rewrite Hkind.
      pose proof (Hw s o x0 p Ho E ltac:(congruence)) as Hfl. unfold flow in *. by rewrite E1, E2.
    + destruct Hnew as (E1 & E2 & E3). destruct (E3 p Hp) as [E4 _]. unfold flow. rewrite E4, Hs2, E1, E2.
      destruct (kind o'); [done|done|]. by exists [], [].
Qed.
