(* ===== verification/UnixSocketChanges.v ===== *)
(** * Unix domain sockets: the changes of the table

    What the operations of UnixSocket.v do to the sockets, as an abstract machine: twelve kinds
    of change, each with what it lets a reader and a writer know.  A change keeps the table
    well formed and the history true, and one that makes a socket ready says so. *)

From stdpp Require Import strings.
From S2P Require Import Prelude Errors Blocking Polling UnixSocket UnixSocketProps.

Open Scope Z_scope.

Abbreviation Wake := (Z * PollableEvent)%type.
Implicit Types (m : Table) (s p : Z).

(** ** Readiness as a function of the table *)

Definition live_in m (x : UnixStreamInner) : option (Z * UnixStreamInner) :=
  p ← x.(peer); o ← m !! p; match o.(state) with UnixSocketState.Stream y => Some (p, y) | _ => None end.

(** [rights_count]: whether objects without bytes are something to read *)
Definition conn_ready (rights_count : bool) m (x : UnixStreamInner) (e : PollableEvent) : bool :=
  match e with
  | PollableEvent.CanBeRead =>
      negb (bool_decide (x.(recv_buf) = [])) || (rights_count && has_front_rights x) || x.(peer_write_closed) || bool_decide (live_in m x = None)
  | PollableEvent.CanBeWritten =>
      if x.(write_shutdown) then false
      else match live_in m x with None => true | Some (_, y) => y.(read_shutdown) || (zlen y.(recv_buf) <? STREAM_RECV_CAPACITY) end
  | PollableEvent.Closed => x.(peer_closed) || bool_decide (live_in m x = None)
  | PollableEvent.ReadClosed => x.(peer_write_closed)
  | _ => false
  end.

Definition still_ready (st : UnixSocketState) (e : PollableEvent) : bool :=
  match st, e with
  | UnixSocketState.Listener l, PollableEvent.CanBeRead => negb (bool_decide (l.(pending) = []))
  | UnixSocketState.Datagram d, PollableEvent.CanBeRead => negb (bool_decide (d.(recv_queue) = []))
  | UnixSocketState.Datagram d, PollableEvent.Closed => d.(dg_write_shutdown)
  | _, _ => false
  end.

Definition watched (rights_count : bool) m s (e : PollableEvent) : bool :=
  match m !! s with
  | Some o => match o.(state) with UnixSocketState.Stream x => conn_ready rights_count m x e | st => still_ready st e end
  | None => false
  end.

(** A step from readiness [b] to [b'] that is announced *)
Definition told (b b' : bool) (ws : list Wake) s (e : PollableEvent) : Prop := b' = true → b = true ∨ (s, e) ∈ ws.

(** ** Changes *)

Definition unheld m s : Prop := ∀ s' o' l, m !! s' = Some o' → o'.(state) = UnixSocketState.Listener l → s' ≠ s → s ∉ l.(pending).

(** What of a connection changes without its bytes: the flags only rise, and what rises is said. *)
Record quiet m s (x x' : UnixStreamInner) (ws : list Wake) : Prop := {
  q_flow : same_flow x x';
  q_rights : told (has_front_rights x) (has_front_rights x') ws s PollableEvent.CanBeRead;
  q_read : told x.(peer_write_closed) x'.(peer_write_closed) ws s PollableEvent.CanBeRead;
  q_read_closed : told x.(peer_write_closed) x'.(peer_write_closed) ws s PollableEvent.ReadClosed;
  q_closed : told x.(peer_closed) x'.(peer_closed) ws s PollableEvent.Closed;
  q_written : x.(write_shutdown) = true → x'.(write_shutdown) = true;
  q_shutdown : ∀ p y, live_in m x = Some (p, y) → told x.(read_shutdown) x'.(read_shutdown) ws p PollableEvent.CanBeWritten;
}.

(** The bytes [b] a reader gets out of a buffer that loses [len] *)
Definition takes (k : UnixSocketKind) (x : UnixStreamInner) (b : list byte) (len : Z) (packets : list Z) : Prop :=
  match k with
  | UnixSocketKind.SeqPacket => x.(pending_packets) = len :: packets ∧ b `prefix_of` take (Z.to_nat len) x.(recv_buf)
  | _ => packets = x.(pending_packets) ∧ b = take (Z.to_nat len) x.(recv_buf)
  end.

Definition puts (k : UnixSocketKind) (y : UnixStreamInner) (b : list byte) (packets : list Z) : Prop :=
  match k with
  | UnixSocketKind.SeqPacket => 0 < zlen b ∧ packets = y.(pending_packets) ++ [zlen b]
  | _ => packets = y.(pending_packets) ∧ zlen y.(recv_buf) + zlen b <= STREAM_RECV_CAPACITY
  end.

Inductive change m (next : Z) : list Event → list Wake → Table → Z → Prop :=
  | c_idle ws : change m next [] ws m next
  | c_fresh o ws : plain o.(state) → (∀ e, still_ready o.(state) e = false) → change m next [] ws (<[next := o]> m) (next + 1)
  | c_other s o st ws : m !! s = Some o → plain o.(state) → empty_listener st →
      (∀ e, told (still_ready o.(state) e) (still_ready st e) ws s e) → change m next [] ws (<[s := with_sock_state st o]> m) next
  | c_options s o o' ws : m !! s = Some o → o'.(kind) = o.(kind) → o'.(state) = o.(state) → change m next [] ws (<[s := o']> m) next
  | c_inner s o x x' ws : m !! s = Some o → o.(state) = UnixSocketState.Stream x → quiet m s x x' ws →
      change m next [] ws (<[s := with_sock_state (UnixSocketState.Stream x') o]> m) next
  | c_rights s o x r ws : m !! s = Some o → o.(state) = UnixSocketState.Stream x →
      change m next [Took s] ws (<[s := with_sock_state (UnixSocketState.Stream (with_recv x.(recv_buf) r x.(pending_packets) x)) o]> m) next
  | c_receive s o x b len packets ws : m !! s = Some o → o.(state) = UnixSocketState.Stream x →
      0 <= len <= zlen x.(recv_buf) → takes o.(kind) x b len packets →
      (∀ p y, live_in m x = Some (p, y) → was_full x = true → (p, PollableEvent.CanBeWritten) ∈ ws) →
      change m next [Received s b] ws (<[s := with_sock_state (UnixSocketState.Stream (with_recv (drop (Z.to_nat len) x.(recv_buf)) x.(pending_rights) packets x)) o]> m) next
  | c_send s p o os y b r packets ws : m !! p = Some o → o.(state) = UnixSocketState.Stream y → y.(peer) = Some s → m !! s = Some os →
      puts o.(kind) y b packets → (p, PollableEvent.CanBeRead) ∈ ws →
      change m next [Sent s b] ws (<[p := with_sock_state (UnixSocketState.Stream (with_recv (y.(recv_buf) ++ b) r packets y)) o]> m) next
  | c_link s o on c c' ln lk ln' lk' rn rn' ws : m !! s = Some o → plain o.(state) → is_stream_like o.(kind) = true → on.(kind) = o.(kind) →
      on.(state) = UnixSocketState.Stream (connected s c ln lk rn) →
      change m next [] ws (<[s := with_sock_state (UnixSocketState.Stream (connected next c' ln' lk' rn')) o]> (<[next := on]> m)) (next + 1)
  | c_pending s o l q ws : m !! s = Some o → o.(state) = UnixSocketState.Listener l → NoDup q → zlen q <= l.(backlog) →
      (∀ n, n ∈ q → n ∈ l.(pending) ∨ (∃ o' x, m !! n = Some o' ∧ o'.(state) = UnixSocketState.Stream x) ∧
        ∀ s' o' l', m !! s' = Some o' → o'.(state) = UnixSocketState.Listener l' → n ∉ l'.(pending)) →
      (l.(pending) = [] → q ≠ [] → (s, PollableEvent.CanBeRead) ∈ ws) →
      change m next [] ws (<[s := with_sock_state (UnixSocketState.Listener (with_pending q l)) o]> m) next
  | c_gone s o ws : m !! s = Some o → unheld m s →
      (∀ x, o.(state) = UnixSocketState.Stream x → live_in m x = None) → change m next [] ws (delete s m) next
  | c_closed s o x p op y ws : m !! s = Some o → unheld m s → o.(state) = UnixSocketState.Stream x → x.(peer) = Some p →
      m !! p = Some op → op.(state) = UnixSocketState.Stream y →
      (∀ e, e ∈ [PollableEvent.CanBeRead; PollableEvent.ReadClosed; PollableEvent.Closed; PollableEvent.CanBeWritten] → (p, e) ∈ ws) →
      change m next [] ws (<[p := with_sock_state (UnixSocketState.Stream (with_peer_closed true true y)) op]> (delete s m)) next.

Inductive changes m next : list Event → list Wake → Table → Z → Prop :=
  | cs_done ws : changes m next [] ws m next
  | cs_more log ws m' next' log' ws' m'' next'' : change m next log ws m' next' → changes m' next' log' ws' m'' next'' →
      changes m next (log ++ log') (ws ++ ws') m'' next''.

(** ** Changes keep the table *)

Lemma total_app l k : total (l ++ k) = total l + total k.
Proof. induction l as [|n l IH]; cbn; [done|]. rewrite IH. lia. Qed.

Lemma ok_same_state m next s o o' : table_ok m next → m !! s = Some o → o'.(kind) = o.(kind) → o'.(state) = o.(state) → table_ok (<[s := o']> m) next.
Proof.
  intros [Hf Hs Hp Ha] Hm Hk Hst. set (m' := <[s := o']> m).
  assert (∀ t u, m' !! t = Some u → ∃ v, m !! t = Some v ∧ u.(kind) = v.(kind) ∧ u.(state) = v.(state)) as Hold.
  { intros t u. subst m'. rewrite lookup_insert_Some. intros [[<- <-]|[_ ?]]; eauto. }
  assert (∀ t v, m !! t = Some v → ∃ u, m' !! t = Some u ∧ u.(state) = v.(state)) as Hnew.
  { intros t v Hv. subst m'. destruct (decide (s = t)) as [<-|]; [rewrite lookup_insert_eq; exists o'; split; congruence|rewrite lookup_insert_ne by done; eauto]. }
  split.
  - intros t u Hu. destruct (Hold t u Hu) as (v & Hv & _). by eapply Hf.
  - intros t u x Hu Hx. destruct (Hold t u Hu) as (v & Hv & Hkv & Hsv). destruct (Hs t v x Hv ltac:(congruence)) as [Hb (p & H1 & H2 & H3 & H4)].
    rewrite Hkv. split; [done|]. exists p. split_and!; [done..|]. intros o2 Ho2. destruct (Hold p o2 Ho2) as (v2 & Hv2 & Hk2 & Hs2).
    destruct (H4 v2 Hv2) as (Hk4 & y & Hy & Hpy). split; [congruence|]. exists y. split; [congruence|done].
  - intros t u l Hu Hl. destruct (Hold t u Hu) as (v & Hv & _ & Hsv). destruct (Hp t v l Hv ltac:(congruence)) as (H1 & H2 & H3 & H4).
    split_and!; [done..|]. intros n Hn. destruct (H4 n Hn) as (o2 & x & Ho2 & Hx). destruct (Hnew n o2 Ho2) as (u2 & Hu2 & Hsu2). exists u2, x. split; [done|congruence].
  - intros s1 s2 o1 o2 l1 l2 n H1 Hl1 H2 Hl2. destruct (Hold s1 o1 H1) as (v1 & Hv1 & _ & E1), (Hold s2 o2 H2) as (v2 & Hv2 & _ & E2).
    apply (Ha s1 s2 v1 v2 l1 l2 n); congruence.
Qed.


Lemma buffers_taken k x b len packets : buffers_ok k x → 0 <= len <= zlen x.(recv_buf) → takes k x b len packets →
  buffers_ok k (with_recv (drop (Z.to_nat len) x.(recv_buf)) x.(pending_rights) packets x).
Proof.
  unfold buffers_ok, takes. cbn. unfold zlen. rewrite length_drop. intros Hb Hl Ht. destruct k; [|done|].
  - destruct Ht as [-> _], Hb as [-> ?]. split; [done|lia].
  - destruct Ht as [E _], Hb as [Hf Ht]. rewrite E in *. apply Forall_cons in Hf as [? ?]. cbn in Ht. split; [done|lia].
Qed.

Lemma buffers_put k y b r packets : buffers_ok k y → puts k y b packets → buffers_ok k (with_recv (y.(recv_buf) ++ b) r packets y).
Proof.
  unfold buffers_ok, puts. cbn. unfold zlen. rewrite length_app. intros Hb Hp. destruct k; [|done|].
  - destruct Hp as [-> ?], Hb as [-> ?]. split; [done|lia].
  - destruct Hp as [? ->], Hb as [Hf Ht]. split; [by apply Forall_app; split; [|constructor]|]. rewrite total_app, Ht. cbn. lia.
Qed.

Lemma ok_change m next log ws m' next' : table_ok m next → change m next log ws m' next' → table_ok m' next'.
Proof.
  intros Hok Hc. destruct Hc as [ws|o ws Ho _|s o st ws Hm Ho Hst _|s o o' ws Hm Hk Hst|s o x x' ws Hm Ho Hq|s o x r ws Hm Ho|s o x b len packets ws Hm Ho Hl Ht _
    |s p o os y b r packets ws Hm Ho _ _ Hp _|s o on c c' ln lk ln' lk' rn rn' ws Hm Ho Hk Hkn Hon|s o l q ws Hm Ho Hnd Hb Hq _|s o ws Hm Hu _|s o x p op y ws Hm Hu Ho Hp Hmp Hop _].
  - done.
  - by apply ok_insert_new.
  - by apply ok_insert_plain.
  - by apply (ok_same_state m next s o).
  - destruct (q_flow _ _ _ _ _ Hq) as (E1 & E2 & E3). apply (ok_insert_stream m next s o x); [done..|].
    destruct (ok_stream _ _ Hok s o x Hm Ho) as [Hb _]. unfold buffers_ok in *. by rewrite E1, E2.
  - apply (ok_insert_stream m next s o x); [done..|]. apply (ok_stream _ _ Hok s o x Hm Ho).
  - apply (ok_insert_stream m next s o x); [done..|]. apply (buffers_taken _ _ b); [|done..]. apply (ok_stream _ _ Hok s o x Hm Ho).
  - apply (ok_insert_stream m next p o y); [done..|]. apply buffers_put; [|done]. apply (ok_stream _ _ Hok p o y Hm Ho).
  - by eapply ok_connect; try done; destruct (kind o).
  - by apply (ok_insert_listener m next s o l).
  - by apply ok_delete.
  - apply (ok_insert_stream _ next p op y); [by apply ok_delete| |done..|].
    + apply lookup_delete_Some. split; [|done]. destruct (ok_stream _ _ Hok s o x Hm Ho) as [_ (p' & E & Hne & _)]. congruence.
    + apply (ok_stream _ _ Hok p op y Hmp Hop).
Qed.

(** ** Changes keep the history *)

Lemma goes_on_refl m s o : m !! s = Some o → goes_on m s o.
Proof. intros Hm. exists o. split_and!; [done..|]. by destruct (state o). Qed.

Lemma history_insert log m next s o' next' : history_ok log m next → next <= next' → goes_on m s o' ∨ starts log s o' → history_ok log (<[s := o']> m) next'.
Proof.
  intros Hh Hle Ho. apply (history_change log m next); [done..|]. intros t u [[<- <-]|[_ Hu]]%lookup_insert_Some; [done|]. left. by apply goes_on_refl.
Qed.

Lemma history_delete log m next s : history_ok log m next → history_ok log (delete s m) next.
Proof. intros Hh. apply (history_change log m next); [done|lia|]. intros t u [_ Hu]%lookup_delete_Some. left. by apply goes_on_refl. Qed.

Lemma history_stream log m next s o x x' : history_ok log m next → m !! s = Some o → o.(state) = UnixSocketState.Stream x → same_flow x x' →
  history_ok log (<[s := with_sock_state (UnixSocketState.Stream x') o]> m) next.
Proof. intros Hh Hm Ho Hf. apply (history_insert _ _ next); [done|lia|]. left. exists o. split_and!; [done..|]. by rewrite Ho. Qed.

Lemma history_still log m next s o st : history_ok log m next → m !! s = Some o → is_stream o.(state) = false → is_stream st = false →
  history_ok log (<[s := with_sock_state st o]> m) next.
Proof. intros Hh Hm Ho Hf. apply (history_insert _ _ next); [done|lia|]. left. exists o. split_and!; [done..|]. cbn. by destruct (state o). Qed.

Lemma plain_still st : plain st → is_stream st = false.
Proof. by destruct st. Qed.

Lemma empty_listener_still st : empty_listener st → is_stream st = false.
Proof. by destruct st. Qed.

Lemma history_took log m next s : history_ok log m next → s < next → history_ok (log ++ [Took s]) m next.
Proof.
  intros [Hf Hq Hw] Hs. split.
  - intros e [He|He]%elem_of_app; [by apply Hf|]. apply list_elem_of_singleton in He as ->. done.
  - intros t o Ht Hk Hst. unfold silent. rewrite sent_app, got_app. cbn. rewrite !app_nil_r. by eapply Hq.
  - intros t o x p Ht Hst Hp. rewrite sent_app, got_app. cbn. rewrite !app_nil_r. by eapply Hw.
Qed.

Lemma flow_taken k sent got x b len packets : flow k sent got x → 0 <= len <= zlen x.(recv_buf) → takes k x b len packets →
  flow k sent (got ++ [b]) (with_recv (drop (Z.to_nat len) x.(recv_buf)) x.(pending_rights) packets x).
Proof.
  unfold flow, takes. intros Hf Hl Ht. destruct k; cbn; [|done|].
  - destruct Ht as [_ ->]. rewrite Hf, concat_app. cbn. by rewrite app_nil_r, <- app_assoc, take_drop.
  - destruct Ht as [E Hpre], Hf as (taken & left & -> & Htk & Hc & Hz). rewrite E in Hz. destruct left as [|a left]; [done|]. cbn in Hz, Hc. injection Hz as Ha Hz.
    assert (Z.to_nat len = length a) as Hlen by (unfold zlen in Ha; lia).
    exists (taken ++ [a]), left. split_and!; [by rewrite <- app_assoc| |by rewrite <- Hc, Hlen, drop_app_length|done].
    apply Forall2_app; [done|]. constructor; [|done]. by rewrite <- Hc, Hlen, take_app_length in Hpre.
Qed.

Lemma flow_put k sent got y b r packets : flow k sent got y → puts k y b packets → flow k (sent ++ [b]) got (with_recv (y.(recv_buf) ++ b) r packets y).
Proof.
  unfold flow, puts. intros Hf Hp. destruct k; cbn; [|done|].
  - rewrite concat_app, Hf. cbn. by rewrite app_nil_r, app_assoc.
  - destruct Hp as [_ ->], Hf as (taken & left & -> & Htk & Hc & Hz). exists taken, (left ++ [b]).
    rewrite concat_app, map_app, Hc, Hz. cbn. by rewrite app_nil_r, app_assoc.
Qed.

Lemma sent_one s b t : sent_by [Sent s b] t = if s =? t then [b] else [].
Proof. cbn. by destruct (s =? t). Qed.

Lemma got_one s b t : got_by [Received s b] t = if s =? t then [b] else [].
Proof. cbn. by destruct (s =? t). Qed.

Lemma history_receive log m next s o x b len packets : table_ok m next → history_ok log m next → m !! s = Some o → o.(state) = UnixSocketState.Stream x →
  0 <= len <= zlen x.(recv_buf) → takes o.(kind) x b len packets →
  history_ok (log ++ [Received s b]) (<[s := with_sock_state (UnixSocketState.Stream (with_recv (drop (Z.to_nat len) x.(recv_buf)) x.(pending_rights) packets x)) o]> m) next.
Proof.
  intros Hok [Hf Hq Hw] Hm Ho Hl Ht. split.
  - intros e [He|He]%elem_of_app; [by apply Hf|]. apply list_elem_of_singleton in He as ->. by eapply ok_fresh.
  - intros t u [[<- <-]|[Hne Hu]]%lookup_insert_Some Hk Hst; [done|]. unfold silent. rewrite sent_app, got_app, got_one.
    destruct (Z.eqb_spec s t); [done|]. cbn. rewrite !app_nil_r. by eapply Hq.
  - intros t u z p [[<- <-]|[Hne Hu]]%lookup_insert_Some Hst Hp; rewrite sent_app, got_app, got_one; cbn [sent_by]; rewrite app_nil_r.
    + rewrite Z.eqb_refl. cbn in Hst. injection Hst as <-. apply (flow_taken _ _ _ _ b); [|done..]. exact (Hw s o x p Hm Ho Hp).
    + destruct (Z.eqb_spec s t); [done|]. rewrite app_nil_r. by eapply Hw.
Qed.

(** Two sockets whose peer is alive and the same are one. *)
Lemma peer_unique m next s os t u z : table_ok m next → m !! s = Some os → m !! t = Some u → u.(state) = UnixSocketState.Stream z → z.(peer) = Some s →
  ∃ y, os.(state) = UnixSocketState.Stream y ∧ y.(peer) = Some t ∧ os.(kind) = u.(kind).
Proof.
  intros Hok Hs Ht Hu Hz. destruct (ok_stream _ _ Hok t u z Ht Hu) as [_ (p & E & _ & _ & H4)]. assert (p = s) as -> by congruence.
  destruct (H4 os Hs) as (Hk & y & Hy & Hp). by exists y.
Qed.

Lemma history_send log m next s p o os y b r packets : table_ok m next → history_ok log m next → m !! p = Some o → o.(state) = UnixSocketState.Stream y →
  y.(peer) = Some s → m !! s = Some os → puts o.(kind) y b packets →
  history_ok (log ++ [Sent s b]) (<[p := with_sock_state (UnixSocketState.Stream (with_recv (y.(recv_buf) ++ b) r packets y)) o]> m) next.
Proof.
  intros Hok [Hf Hq Hw] Hm Ho Hp Hs Hput. destruct (peer_unique _ _ _ _ _ _ _ Hok Hs Hm Ho Hp) as (x & Hx & Hxp & _). split.
  - intros e [He|He]%elem_of_app; [by apply Hf|]. apply list_elem_of_singleton in He as ->. by eapply ok_fresh.
  - intros t u [[<- <-]|[Hne Hu]]%lookup_insert_Some Hk Hst; [done|]. unfold silent. rewrite sent_app, got_app, sent_one. cbn [got_by].
    destruct (Z.eqb_spec s t) as [->|]; [|rewrite !app_nil_r; by eapply Hq]. assert (u = os) as -> by congruence. by rewrite Hx in Hst.
  - intros t u z q [[<- <-]|[Hne Hu]]%lookup_insert_Some Hst Hz; rewrite sent_app, got_app, sent_one; cbn [got_by]; rewrite app_nil_r.
    + cbn in Hst. injection Hst as <-. cbn in Hz. assert (q = s) as -> by congruence. rewrite Z.eqb_refl. apply flow_put; [|done]. exact (Hw p o y s Hm Ho Hp).
    + destruct (Z.eqb_spec s q) as [<-|]; [|rewrite app_nil_r; by eapply Hw]. destruct (peer_unique _ _ _ _ _ _ _ Hok Hs Hu Hst Hz) as (x' & Hx' & Hp' & _). congruence.
Qed.

Lemma history_link log m next s o on x y : table_ok m next → history_ok log m next → m !! s = Some o → plain o.(state) → is_stream_like o.(kind) = true →
  on.(state) = UnixSocketState.Stream y → y.(recv_buf) = [] → y.(pending_packets) = [] → y.(peer) = Some s →
  x.(recv_buf) = [] → x.(pending_packets) = [] → x.(peer) = Some next →
  history_ok log (<[s := with_sock_state (UnixSocketState.Stream x) o]> (<[next := on]> m)) (next + 1).
Proof.
  intros Hok Hh Hm Ho Hk Hon Hy1 Hy2 Hyp Hx1 Hx2 Hxp. destruct (Hh) as [Hf Hq _].
  assert (silent log s) as Hsil by (apply (Hq s o); [done..|by apply plain_still]).
  assert (silent log next) as Hnew by (apply (silent_fresh _ next); [done|lia]).
  apply (history_insert _ _ (next + 1)); [|lia|].
  - apply (history_insert _ _ next); [done|lia|]. right. split; [done|]. rewrite Hon. split_and!; [done..|]. intros p ?. by assert (p = s) as -> by congruence.
  - right. split; [done|]. cbn. split_and!; [done..|]. intros p ?. by assert (p = next) as -> by congruence.
Qed.

Lemma history_of_change log m next log' ws m' next' : table_ok m next → history_ok log m next → change m next log' ws m' next' → history_ok (log ++ log') m' next'.
Proof.
  intros Hok Hh Hc. destruct Hc as [ws|o ws Ho _|s o st ws Hm Ho Hst _|s o o' ws Hm Hk Hst|s o x x' ws Hm Ho Hq|s o x r ws Hm Ho|s o x b len packets ws Hm Ho Hl Ht _
    |s p o os y b r packets ws Hm Ho Hpe Hs Hp _|s o on c c' ln lk ln' lk' rn rn' ws Hm Ho Hk Hkn Hon|s o l q ws Hm Ho Hnd Hb Hq _|s o ws Hm Hu _|s o x p op y ws Hm Hu Ho Hp Hmp Hop _]; rewrite ?app_nil_r.
  - done.
  - apply (history_insert _ _ next); [done|lia|]. right. split; [apply (silent_fresh _ next); [by apply Hh|done]|]. by destruct (state o).
  - apply history_still; [done..|by apply plain_still|by apply empty_listener_still].
  - apply (history_insert _ _ next); [done|lia|]. left. destruct (goes_on_refl m s o Hm) as (o2 & H1 & H2 & H3). exists o2. rewrite Hk, Hst. by split_and!.
  - apply (history_stream _ _ _ _ _ x); [done..|]. apply (q_flow _ _ _ _ _ Hq).
  - apply history_took; [|by apply (ok_fresh _ _ Hok s o)]. by apply (history_stream _ _ _ _ _ x).
  - by apply history_receive.
  - by apply (history_send _ _ _ _ _ _ os).
  - by eapply history_link.
  - apply history_still; [done|done|by rewrite Ho|done].
  - by apply history_delete.
  - apply (history_stream _ _ _ _ _ y); [by apply history_delete| |done..].
    apply lookup_delete_Some. split; [|done]. destruct (ok_stream _ _ Hok s o x Hm Ho) as [_ (p' & E & Hne & _)]. congruence.
Qed.
