(* ===== verification/UnixSocketWakes.v ===== *)
(** * Unix domain sockets: wake-ups

    A change of UnixSocketChanges.v after which a socket is ready for an event, and was not
    before, is among the wake-ups of the change. *)

From stdpp Require Import strings.
From S2P Require Import Prelude Errors Blocking Polling UnixSocket UnixSocketProps UnixSocketChanges.

Open Scope Z_scope.

Implicit Types (m : Table) (s p : Z).

(** The room for writing is watched at connections only: the queue of a datagram socket is
    its readers' affair. *)
Definition guard m (next : Z) t (e : PollableEvent) : Prop :=
  e ≠ PollableEvent.CanBeWritten ∨ match m !! t with Some o => is_stream o.(state) = true | None => t < next end.

Definition silent_rights (rights_count : bool) (log : list Event) t (e : PollableEvent) : Prop :=
  rights_count = false ∨ e ≠ PollableEvent.CanBeRead ∨ Took t ∉ log.

Definition all_told (rights_count : bool) m m' (ws : list Wake) t (e : PollableEvent) : Prop :=
  told (watched rights_count m t e) (watched rights_count m' t e) ws t e.

Lemma told_same b ws s e : told b b ws s e.
Proof. by left. Qed.

Lemma told_false b ws s e : told b false ws s e.
Proof. done. Qed.

Lemma told_or b1 b1' b2 b2' ws s e : told b1 b1' ws s e → told b2 b2' ws s e → told (b1 || b2) (b1' || b2') ws s e.
Proof. unfold told. intros H1 H2 [H|H]%orb_true_iff; [destruct (H1 H) as [->|]|destruct (H2 H) as [->|]]; rewrite ?orb_true_r; auto. Qed.

Lemma told_and c b b' ws s e : told b b' ws s e → told (c && b) (c && b') ws s e.
Proof. by destruct c. Qed.

Lemma told_trans b b' b'' ws ws' s e : told b b' ws s e → told b' b'' ws' s e → told b b'' (ws ++ ws') s e.
Proof. unfold told. intros H1 H2 H. destruct (H2 H) as [Hb|]; [destruct (H1 Hb)|]; rewrite elem_of_app; auto. Qed.

(** ** Readiness elsewhere *)

Lemma watched_insert_ne c m s o' t e : t ≠ s → (∀ o x, m !! t = Some o → o.(state) = UnixSocketState.Stream x → x.(peer) ≠ Some s) →
  watched c (<[s := o']> m) t e = watched c m t e.
Proof.
  intros Hne Hp. unfold watched. rewrite lookup_insert_ne by done. destruct (m !! t) as [o|] eqn:Ht; [|done].
  destruct (state o) as [| | | |x|] eqn:Ho; try done. unfold conn_ready, live_in. specialize (Hp o x eq_refl Ho).
  destruct (peer x) as [p|]; [|done]. cbn. by rewrite lookup_insert_ne by congruence.
Qed.

Lemma watched_delete_ne c m s t e : t ≠ s → (∀ o x, m !! t = Some o → o.(state) = UnixSocketState.Stream x → x.(peer) ≠ Some s) →
  watched c (delete s m) t e = watched c m t e.
Proof.
  intros Hne Hp. unfold watched. rewrite lookup_delete_ne by done. destruct (m !! t) as [o|] eqn:Ht; [|done].
  destruct (state o) as [| | | |x|] eqn:Ho; try done. unfold conn_ready, live_in. specialize (Hp o x eq_refl Ho).
  destruct (peer x) as [p|]; [|done]. cbn. by rewrite lookup_delete_ne by congruence.
Qed.

(** No connection has a socket that is none as its peer. *)
Lemma no_peer m next s o : table_ok m next → m !! s = Some o → is_stream o.(state) = false →
  ∀ t u x, m !! t = Some u → u.(state) = UnixSocketState.Stream x → x.(peer) ≠ Some s.
Proof. intros Hok Hs Ho t u x Ht Hu Hp. destruct (peer_unique _ _ _ _ _ _ _ Hok Hs Ht Hu Hp) as (y & Hy & _). by rewrite Hy in Ho. Qed.

Lemma peer_below m next t u x p : table_ok m next → m !! t = Some u → u.(state) = UnixSocketState.Stream x → x.(peer) = Some p → p < next ∧ p ≠ t.
Proof. intros Hok Ht Hu Hp. destruct (ok_stream _ _ Hok t u x Ht Hu) as [_ (p' & E & ? & ? & _)]. assert (p' = p) as -> by congruence. done. Qed.

Lemma told_still c m next s o st t e ws : table_ok m next → m !! s = Some o → is_stream o.(state) = false → is_stream st = false →
  told (still_ready o.(state) e) (still_ready st e) ws s e → all_told c m (<[s := with_sock_state st o]> m) ws t e.
Proof.
  intros Hok Hs Ho Hst Ht. unfold all_told. destruct (decide (t = s)) as [->|Hne].
  - unfold watched. rewrite lookup_insert_eq, Hs. cbn. by destruct (state o), st.
  - rewrite (watched_insert_ne c m s) by first [done|by eapply no_peer]. apply told_same.
Qed.

Definition writable_end (y : UnixStreamInner) : bool := y.(read_shutdown) || (zlen y.(recv_buf) <? STREAM_RECV_CAPACITY).

(** A connection changes: its own readiness, and the room its peer sees *)
Lemma told_stream c m next s o x x' t e ws : table_ok m next → m !! s = Some o → o.(state) = UnixSocketState.Stream x → x'.(peer) = x.(peer) →
  (t = s → told (conn_ready c m x e) (conn_ready c m x' e) ws s e) →
  (∀ p y, live_in m x = Some (p, y) → told (writable_end x) (writable_end x') ws p PollableEvent.CanBeWritten) →
  all_told c m (<[s := with_sock_state (UnixSocketState.Stream x') o]> m) ws t e.
Proof.
  intros Hok Hs Ho Hp Hown Hroom. unfold all_told. set (m' := <[s := _]> m).
  assert (∀ z q, z.(peer) = Some q → q ≠ s → live_in m' z = live_in m z) as Hlive.
  { intros z q Hz Hq. unfold live_in. rewrite Hz. cbn. subst m'. by rewrite lookup_insert_ne. }
  destruct (decide (t = s)) as [->|Hne].
  - unfold watched. subst m'. rewrite lookup_insert_eq, Hs, Ho. cbn.
    destruct (ok_stream _ _ Hok s o x Hs Ho) as [_ (p & E & Hps & _)].
    replace (conn_ready c _ x' e) with (conn_ready c m x' e); [by apply Hown|]. unfold conn_ready. by rewrite (Hlive x' p) by congruence.
  - unfold watched. subst m'. rewrite lookup_insert_ne by done. destruct (m !! t) as [u|] eqn:Ht; [|done].
    destruct (state u) as [| | | |z|] eqn:Hu; try apply told_same. destruct (decide (z.(peer) = Some s)) as [Hz|Hz].
    + destruct (peer_unique _ _ _ _ _ _ _ Hok Hs Ht Hu Hz) as (x0 & Hx0 & Hpt & _). assert (x0 = x) as -> by congruence.
      assert (live_in m x = Some (t, z)) as Hl by (unfold live_in; rewrite Hpt; cbn; by rewrite Ht; cbn; rewrite Hu).
      specialize (Hroom t z Hl). unfold conn_ready, live_in. rewrite Hz. cbn. rewrite lookup_insert_eq, Hs. cbn. rewrite Ho.
      destruct e; try apply told_same. destruct (write_shutdown z); [done|exact Hroom].
    + destruct (ok_stream _ _ Hok t u z Ht Hu) as [_ (q & E & _)]. unfold conn_ready. rewrite (Hlive z q) by congruence. apply told_same.
Qed.

Lemma quiet_told c m s x x' ws e : quiet m s x x' ws → told (conn_ready c m x e) (conn_ready c m x' e) ws s e.
Proof.
  intros [(E1 & E2 & E3) Hr Hpr Hprc Hpc Hw _]. assert (live_in m x' = live_in m x) as Hl by (unfold live_in; by rewrite E3).
  destruct e; cbn; rewrite ?Hl, ?E1; try apply told_same.
  - apply told_or; [|apply told_same]. apply told_or; [apply told_or; [apply told_same|by apply told_and]|done].
  - destruct (write_shutdown x); [by rewrite Hw|]. destruct (write_shutdown x'); [apply told_false|apply told_same].
  - by apply told_or; [|apply told_same].
  - done.
Qed.

Lemma quiet_room m s x x' ws p y : quiet m s x x' ws → live_in m x = Some (p, y) → told (writable_end x) (writable_end x') ws p PollableEvent.CanBeWritten.
Proof. intros [(E1 & _) _ _ _ _ _ Hs] Hl. unfold writable_end. rewrite E1. apply told_or; [by eapply Hs|apply told_same]. Qed.

(** ** Changes say what they make ready *)

Lemma silent_one c s t : silent_rights c [Took s] t PollableEvent.CanBeRead → t = s → c = false.
Proof. intros [?|[?|Hn]] ->; [done|done|]. exfalso. apply Hn. by left. Qed.

Lemma rights_told c m next s o x r ws t e : table_ok m next → m !! s = Some o → o.(state) = UnixSocketState.Stream x → silent_rights c [Took s] t e →
  all_told c m (<[s := with_sock_state (UnixSocketState.Stream (with_recv x.(recv_buf) r x.(pending_packets) x)) o]> m) ws t e.
Proof.
  intros Hok Hm Ho Hc. apply (told_stream c m next s o x); [done..| |intros; apply told_same]. intros ->.
  destruct e; try apply told_same. apply silent_one in Hc as ->; [|done]. apply told_same.
Qed.

Lemma receive_told c m next s o x len packets ws t e : table_ok m next → m !! s = Some o → o.(state) = UnixSocketState.Stream x →
  (∀ p y, live_in m x = Some (p, y) → was_full x = true → (p, PollableEvent.CanBeWritten) ∈ ws) →
  all_told c m (<[s := with_sock_state (UnixSocketState.Stream (with_recv (drop (Z.to_nat len) x.(recv_buf)) x.(pending_rights) packets x)) o]> m) ws t e.
Proof.
  intros Hok Hm Ho Hw. apply (told_stream c m next s o x); [done..| |].
  - intros _. destruct e; try apply told_same. cbn. do 3 (apply told_or; [|apply told_same]). unfold told. destruct (recv_buf x); [by rewrite drop_nil|by left].
  - intros p y Hl. unfold writable_end. cbn. apply told_or; [apply told_same|]. unfold told. intros _. destruct (was_full x) eqn:Hf; [by right; eapply Hw|].
    left. unfold was_full in Hf. apply Z.leb_gt in Hf. by apply Z.ltb_lt.
Qed.

Lemma send_told c m next p o y b r packets ws t e : table_ok m next → m !! p = Some o → o.(state) = UnixSocketState.Stream y → (p, PollableEvent.CanBeRead) ∈ ws →
  all_told c m (<[p := with_sock_state (UnixSocketState.Stream (with_recv (y.(recv_buf) ++ b) r packets y)) o]> m) ws t e.
Proof.
  intros Hok Hm Ho Hw. apply (told_stream c m next p o y); [done..| |].
  - intros _. destruct e; try apply told_same. by right.
  - intros q z _. unfold writable_end. cbn. apply told_or; [apply told_same|]. unfold told, zlen. rewrite length_app. intros Hlt%Z.ltb_lt. left. apply Z.ltb_lt. lia.
Qed.

Lemma fresh_told c m next o ws t e : table_ok m next → plain o.(state) → (∀ e, still_ready o.(state) e = false) → all_told c m (<[next := o]> m) ws t e.
Proof.
  intros Hok Ho Hr. unfold all_told. destruct (decide (t = next)) as [->|Hne].
  - unfold watched at 2. rewrite lookup_insert_eq. specialize (Hr e). destruct (state o); try done; rewrite Hr; apply told_false.
  - rewrite watched_insert_ne; [apply told_same|done|]. intros u x Ht Hu Hp. destruct (peer_below _ _ _ _ _ _ Hok Ht Hu Hp). lia.
Qed.

Lemma options_told c m s o o' ws t e : m !! s = Some o → o'.(state) = o.(state) → all_told c m (<[s := o']> m) ws t e.
Proof.
  intros Hm Hst. unfold all_told. assert (∀ x, live_in (<[s := o']> m) x = live_in m x) as Hl.
  { intros x. unfold live_in. destruct (peer x) as [p|]; [|done]. cbn. destruct (decide (s = p)) as [<-|]; [|by rewrite lookup_insert_ne].
    rewrite lookup_insert_eq, Hm. cbn. by rewrite Hst. }
  replace (watched c (<[s := o']> m) t e) with (watched c m t e); [apply told_same|]. unfold watched, conn_ready.
  destruct (decide (s = t)) as [<-|]; [rewrite lookup_insert_eq, Hm, Hst|rewrite lookup_insert_ne by done; destruct (m !! t) as [u|]; [|done]];
    (case_match; [done..| |done]); by rewrite Hl.
Qed.

Lemma linked_not_ready c m p op y cred ln lk rn e : m !! p = Some op → op.(state) = UnixSocketState.Stream y → e ≠ PollableEvent.CanBeWritten → conn_ready c m (connected p cred ln lk rn) e = false.
Proof.
  intros Hp Hop He. assert (live_in m (connected p cred ln lk rn) = Some (p, y)) as Hl by (unfold live_in; cbn; rewrite Hp; cbn; by rewrite Hop).
  destruct e; try done; unfold conn_ready; rewrite Hl; [by destruct c|done].
Qed.

Lemma link_told c m next s o on cr cr' ln lk ln' lk' rn rn' ws t e : table_ok m next → guard m next t e → m !! s = Some o → plain o.(state) →
  on.(state) = UnixSocketState.Stream (connected s cr ln lk rn) →
  all_told c m (<[s := with_sock_state (UnixSocketState.Stream (connected next cr' ln' lk' rn')) o]> (<[next := on]> m)) ws t e.
Proof.
  intros Hok Hg Hm Ho Hon. unfold all_told. pose proof (ok_fresh _ _ Hok s o Hm) as Hlt. set (m' := <[s := _]> _).
  assert (m' !! next = Some on) as Hn by (subst m'; rewrite lookup_insert_ne by lia; apply lookup_insert_eq).
  assert (m !! next = None) as Hno by (destruct (m !! next) eqn:E; [apply (ok_fresh _ _ Hok) in E; lia|done]).
  destruct (decide (t = s)) as [->|Hts]; [|destruct (decide (t = next)) as [->|Htn]].
  - destruct Hg as [He|Hg]; [|rewrite Hm in Hg; by destruct (state o)]. unfold watched at 2. subst m'. rewrite lookup_insert_eq. cbn [state with_sock_state].
    rewrite (linked_not_ready c _ next on _ _ _ _ _ e Hn Hon He). apply told_false.
  - destruct Hg as [He|Hg]; [|rewrite Hno in Hg; lia]. unfold watched at 2. rewrite Hn, Hon.
    erewrite (linked_not_ready c m' s); [apply told_false|subst m'; apply lookup_insert_eq|done|done].
  - subst m'. rewrite !watched_insert_ne; try done; [apply told_same| |].
    + intros u x Ht Hu Hp. destruct (peer_below _ _ _ _ _ _ Hok Ht Hu Hp). lia.
    + intros u x. rewrite lookup_insert_ne by done. apply (no_peer m next s o); [done..|by apply plain_still].
Qed.

Lemma gone_told c m next s o ws t e : table_ok m next → m !! s = Some o → (∀ x, o.(state) = UnixSocketState.Stream x → live_in m x = None) →
  all_told c m (delete s m) ws t e.
Proof.
  intros Hok Hm Hno. unfold all_told. destruct (decide (t = s)) as [->|Hne]; [unfold watched at 2; by rewrite lookup_delete_eq|].
  rewrite watched_delete_ne; [apply told_same|done|]. intros u z Ht Hu Hz. destruct (peer_unique _ _ _ _ _ _ _ Hok Hm Ht Hu Hz) as (x & Hx & Hp & _).
  specialize (Hno x Hx). unfold live_in in Hno. rewrite Hp in Hno. cbn in Hno. rewrite Ht in Hno. cbn in Hno. by rewrite Hu in Hno.
Qed.

Lemma closed_told c m next s o x p op y ws t e : table_ok m next → m !! s = Some o → o.(state) = UnixSocketState.Stream x → x.(peer) = Some p →
  m !! p = Some op → op.(state) = UnixSocketState.Stream y →
  (∀ e, e ∈ [PollableEvent.CanBeRead; PollableEvent.ReadClosed; PollableEvent.Closed; PollableEvent.CanBeWritten] → (p, e) ∈ ws) →
  all_told c m (<[p := with_sock_state (UnixSocketState.Stream (with_peer_closed true true y)) op]> (delete s m)) ws t e.
Proof.
  intros Hok Hm Ho Hp Hmp Hop Hw. unfold all_told. destruct (peer_below _ _ _ _ _ _ Hok Hm Ho Hp) as [_ Hps].
  destruct (peer_unique _ _ _ _ _ _ _ Hok Hmp Hm Ho Hp) as (y0 & Hy0 & Hys & _). assert (y0 = y) as -> by congruence.
  destruct (decide (t = p)) as [->|Htp]; [|destruct (decide (t = s)) as [->|Hts]].
  - unfold watched at 2. rewrite lookup_insert_eq. cbn [state with_sock_state]. destruct e; try apply told_false; intros _; right; apply Hw; set_solver.
  - unfold watched at 2. rewrite lookup_insert_ne, lookup_delete_eq by done. apply told_false.
  - rewrite watched_insert_ne, watched_delete_ne; [apply told_same|done| |done|].
    + intros u z Ht Hu Hz. destruct (peer_unique _ _ _ _ _ _ _ Hok Hm Ht Hu Hz) as (x0 & Hx0 & Hpt & _). congruence.
    + intros u z [_ Ht]%lookup_delete_Some Hu Hz. destruct (peer_unique _ _ _ _ _ _ _ Hok Hmp Ht Hu Hz) as (x0 & Hx0 & Hpt & _). congruence.
Qed.

Lemma pending_told c m next s o l q ws t e : table_ok m next → m !! s = Some o → o.(state) = UnixSocketState.Listener l →
  (l.(pending) = [] → q ≠ [] → (s, PollableEvent.CanBeRead) ∈ ws) →
  all_told c m (<[s := with_sock_state (UnixSocketState.Listener (with_pending q l)) o]> m) ws t e.
Proof.
  intros Hok Hm Ho Hw. apply (told_still c m next); [done|done|by rewrite Ho|done|]. rewrite Ho. destruct e; try apply told_same.
  unfold told. cbn. intros Hq%negb_true_iff%bool_decide_eq_false. destruct (decide (pending l = [])) as [E|E]; [right; by apply Hw|left].
  by rewrite bool_decide_eq_false_2.
Qed.

Lemma told_of_change c m next log ws m' next' t e : table_ok m next → guard m next t e → silent_rights c log t e → change m next log ws m' next' →
  all_told c m m' ws t e.
Proof.
  intros Hok Hg Hr Hc. destruct Hc as [ws|o ws Ho He|s o st ws Hm Ho Hst He|s o o' ws Hm Hk Hst|s o x x' ws Hm Ho Hq|s o x r ws Hm Ho|s o x b len packets ws Hm Ho Hl Ht Hw
    |s p o os y b r packets ws Hm Ho Hpe Hs Hp Hw|s o on cr cr' ln lk ln' lk' rn rn' ws Hm Ho Hk Hkn Hon|s o l q ws Hm Ho Hnd Hb Hq Hw|s o ws Hm Hu Hno|s o x p op y ws Hm Hu Ho Hp Hmp Hop Hw].
  - apply told_same.
  - by apply (fresh_told c m next).
  - apply (told_still c m next); [done|done|by apply plain_still|by apply empty_listener_still|done].
  - by apply (options_told c m s o).
  - apply (told_stream c m next s o x); [done..|apply (q_flow _ _ _ _ _ Hq)| |].
    + intros _. by apply quiet_told.
    + intros p y. by apply (quiet_room m s).
  - by apply (rights_told c m next).
  - by apply (receive_told c m next).
  - by apply (send_told c m next).
  - by eapply link_told.
  - by apply (pending_told c m next).
  - by apply (gone_told c m next s o).
  - by apply (closed_told c m next s o x p op y).
Qed.

(** *** Sequences *)

Lemma next_grows m next log ws m' next' : change m next log ws m' next' → next <= next'.
Proof. destruct 1; lia. Qed.

Lemma guard_insert m next next' s o o' t e : m !! s = Some o → (is_stream o.(state) = true → is_stream o'.(state) = true) → next <= next' →
  guard m next t e → guard (<[s := o']> m) next' t e.
Proof.
  intros Hm Ho Hle [He|Hg]; [by left|right]. destruct (decide (s = t)) as [<-|]; [rewrite Hm in Hg; rewrite lookup_insert_eq; auto|].
  rewrite lookup_insert_ne by done. destruct (m !! t); [done|lia].
Qed.

Lemma guard_new m next o t e : guard m next t e → table_ok m next → guard (<[next := o]> m) (next + 1) t e.
Proof.
  intros [He|Hg] Hok; [by left|right]. assert (t ≠ next) as Hne.
  { intros ->. destruct (m !! next) eqn:E; [apply (ok_fresh _ _ Hok) in E|]; lia. }
  rewrite lookup_insert_ne by done. destruct (m !! t); [done|lia].
Qed.

Lemma guard_delete m next s o t e : table_ok m next → m !! s = Some o → guard m next t e → guard (delete s m) next t e.
Proof.
  intros Hok Hm [He|Hg]; [by left|right]. destruct (decide (s = t)) as [<-|]; [rewrite lookup_delete_eq; by apply (ok_fresh _ _ Hok s o)|].
  by rewrite lookup_delete_ne.
Qed.

Lemma guard_change m next log ws m' next' t e : table_ok m next → guard m next t e → change m next log ws m' next' → guard m' next' t e.
Proof.
  intros Hok Hg Hc. destruct Hc as [ws|o ws Ho He|s o st ws Hm Ho Hst He|s o o' ws Hm Hk Hst|s o x x' ws Hm Ho Hq|s o x r ws Hm Ho|s o x b len packets ws Hm Ho Hl Ht Hw
    |s p o os y b r packets ws Hm Ho Hpe Hs Hp Hw|s o on cr cr' ln lk ln' lk' rn rn' ws Hm Ho Hk Hkn Hon|s o l q ws Hm Ho Hnd Hb Hq Hw|s o ws Hm Hu Hno|s o x p op y ws Hm Hu Ho Hp Hmp Hop Hw];
    try done; try (apply (guard_insert m next next _ _ _ _ _ Hm); [by rewrite ?Hst|lia|done]).
  - by apply guard_new.
  - apply (guard_insert m next next s o); [done| |lia|done]. by rewrite (plain_still _ Ho).
  - apply (guard_insert (<[next := on]> m) (next + 1) (next + 1) s o); [|done|lia|by apply guard_new].
    rewrite lookup_insert_ne; [done|]. apply (ok_fresh _ _ Hok) in Hm. lia.
  - apply (guard_insert m next next s o); [done| |lia|done]. by rewrite Ho.
  - by apply (guard_delete m next s o).
  - apply (guard_insert (delete s m) next next p op); [|done|lia|by apply (guard_delete m next s o)].
    apply lookup_delete_Some. split; [|done]. intros ->. by destruct (peer_below _ _ _ _ _ _ Hok Hm Ho Hp).
Qed.

Lemma changes_told c m next log ws m' next' t e : table_ok m next → guard m next t e → silent_rights c log t e → changes m next log ws m' next' →
  all_told c m m' ws t e.
Proof.
  intros Hok Hg Hr Hcs. induction Hcs as [m next ws|m next log ws m1 n1 log' ws' m2 n2 Hc Hcs IH]; [apply told_same|].
  apply (told_trans _ (watched c m1 t e)).
  - apply (told_of_change c m next log ws m1 n1); [done..| |done]. destruct Hr as [|[|Hn]]; [by left|by right; left|right; right]. set_solver.
  - apply IH; [by eapply ok_change|by eapply guard_change|]. destruct Hr as [|[|Hn]]; [by left|by right; left|right; right]. set_solver.
Qed.

Lemma changes_good m next log log' ws m' next' : table_ok m next → history_ok log m next → changes m next log' ws m' next' →
  table_ok m' next' ∧ history_ok (log ++ log') m' next'.
Proof.
  intros Hok Hh Hcs. revert log Hh. induction Hcs as [m next ws|m next l1 ws m1 n1 l2 ws' m2 n2 Hc Hcs IH]; intros log Hh.
  - by rewrite app_nil_r.
  - rewrite app_assoc. apply IH; [by eapply ok_change|by eapply history_of_change].
Qed.

Lemma changes_trans m next l1 ws1 m1 n1 l2 ws2 m2 n2 : changes m next l1 ws1 m1 n1 → changes m1 n1 l2 ws2 m2 n2 → changes m next (l1 ++ l2) (ws1 ++ ws2) m2 n2.
Proof.
  intros H1 H2. revert H2. induction H1 as [m next ws|m next l ws m' n' l' ws' m'' n'' Hc Hcs IH]; intros H2.
  - exact (cs_more _ _ [] ws _ _ _ _ _ _ (c_idle _ _ ws) H2).
  - rewrite <- !app_assoc. by eapply cs_more; [|apply IH].
Qed.
