(* ===== verification/UnixSocketRuns.v ===== *)
(** * Unix domain sockets: runs

    Every operation of UnixSocket.v makes changes of UnixSocketChanges.v.  A run is any
    interleaving of operations, each pass of a blocking call a step of its own; with each run
    goes the history of what was sent and received. *)

From stdpp Require Import strings.
From S2P Require Import Prelude Errors Blocking Polling UnixSocket UnixSocketProps UnixSocketChanges UnixSocketWakes.

Open Scope Z_scope.

Section runs.
Context {F : Type} `{SocketEnv F}.
Abbreviation World := (Sockets F).
Implicit Types (w : World) (s p : Z).

Definition well_formed w : Prop := table_ok w.(socks) w.(next_socket).

(** [w'] comes from [w] by changes that are logged. *)
Definition does w (log : list Event) w' : Prop :=
  ∃ ws, w'.(wakes) = w.(wakes) ++ ws ∧ changes w.(socks) w.(next_socket) log ws w'.(socks) w'.(next_socket).

Lemma does_one w log ws w' : w'.(wakes) = w.(wakes) ++ ws → change w.(socks) w.(next_socket) log ws w'.(socks) w'.(next_socket) → does w log w'.
Proof.
  intros Hw Hc. exists ws. split; [done|]. rewrite <- (app_nil_r log), <- (app_nil_r ws). eapply cs_more; [exact Hc|apply cs_done].
Qed.

Lemma does_idle w ws w' : w'.(wakes) = w.(wakes) ++ ws → w'.(socks) = w.(socks) → w'.(next_socket) = w.(next_socket) → does w [] w'.
Proof. intros Hw Hs Hn. exists ws. split; [done|]. rewrite Hs, Hn. apply cs_done. Qed.

Lemma does_refl w : does w [] w.
Proof. apply (does_idle w []); by rewrite ?app_nil_r. Qed.

Lemma does_trans w1 l1 w2 l2 w3 : does w1 l1 w2 → does w2 l2 w3 → does w1 (l1 ++ l2) w3.
Proof.
  intros (ws1 & E1 & H1) (ws2 & E2 & H2). exists (ws1 ++ ws2). split; [by rewrite E2, E1, app_assoc|]. by eapply changes_trans.
Qed.

Lemma does_then w1 w2 w3 : does w1 [] w2 → does w2 [] w3 → does w1 [] w3.
Proof. intros H1 H2. exact (does_trans w1 [] w2 [] w3 H1 H2). Qed.

Lemma does_good w log w' : well_formed w → does w log w' → well_formed w'.
Proof.
  intros Hw (ws & _ & Hc). unfold well_formed in *. revert Hw. induction Hc; [done|]. intros Hok. by eapply IHHc, ok_change.
Qed.

(** ** Equations *)

Lemma set_state_eq w s o st : w.(socks) !! s = Some o → set_state w s st = mkSockets w.(files) (<[s := with_sock_state st o]> w.(socks)) w.(registry) w.(next_socket) w.(wakes).
Proof. intros Hs. unfold set_state. by rewrite Hs. Qed.

Lemma with_sock_state_id o st : o.(state) = st → with_sock_state st o = o.
Proof. by intros <-; destruct o. Qed.

Lemma wake_eq w s e o : w.(socks) !! s = Some o → wake_pollers w s e = mkSockets w.(files) w.(socks) w.(registry) w.(next_socket) (w.(wakes) ++ [(s, e)]).
Proof. intros Hs. unfold wake_pollers. by rewrite Hs. Qed.

Lemma stream_of_Some w s x : stream_of w s = Some x ↔ ∃ o, w.(socks) !! s = Some o ∧ o.(state) = UnixSocketState.Stream x.
Proof.
  unfold stream_of. destruct (socks w !! s) as [o|]; cbn; [|split; [done|by intros (? & ? & _)]].
  split; [intros Hx; exists o; split; [done|]; destruct (state o); congruence|]. intros (o' & [= <-] & ->). done.
Qed.

Lemma datagram_of_Some w s d : datagram_of w s = Some d ↔ ∃ o, w.(socks) !! s = Some o ∧ o.(state) = UnixSocketState.Datagram d.
Proof.
  unfold datagram_of. destruct (socks w !! s) as [o|]; cbn; [|split; [done|by intros (? & ? & _)]].
  split; [intros Hx; exists o; split; [done|]; destruct (state o); congruence|]. intros (o' & [= <-] & ->). done.
Qed.

Lemma live_peer_eq w x : live_peer w x = live_in w.(socks) x.
Proof.
  unfold live_peer, live_in, stream_of. destruct (peer x) as [p|]; [|done]. cbn. destruct (socks w !! p) as [o|]; [|done]. cbn. by destruct (state o).
Qed.

Lemma live_peer_Some w x p y : live_peer w x = Some (p, y) → x.(peer) = Some p ∧ ∃ o, w.(socks) !! p = Some o ∧ o.(state) = UnixSocketState.Stream y.
Proof.
  unfold live_peer. destruct (peer x) as [q|]; [|done]. cbn. destruct (stream_of w q) eqn:E; [|done]. cbn. intros [= -> ->]. split; [done|]. by apply stream_of_Some.
Qed.

(** Waking changes no socket. *)
Lemma does_wake w s e : does w [] (wake_pollers w s e).
Proof.
  unfold wake_pollers. destruct (socks w !! s); [|apply does_refl]. by apply (does_idle w [(s, e)]).
Qed.

Lemma does_wake_closed w s : does w [] (wake_closed w s).
Proof. unfold wake_closed. do 3 (eapply does_then; [|apply does_wake]). apply does_wake. Qed.

(** A socket that is no connection goes from one state to another. *)
Lemma does_other w s o st ws : w.(socks) !! s = Some o → plain o.(state) → empty_listener st →
  (∀ e, told (still_ready o.(state) e) (still_ready st e) ws s e) → ∀ w', w'.(wakes) = w.(wakes) ++ ws →
  w'.(socks) = <[s := with_sock_state st o]> w.(socks) → w'.(next_socket) = w.(next_socket) → does w [] w'.
Proof. intros Hs Ho Hst Ht w' Hw Hm Hn. apply (does_one w [] ws); [done|]. rewrite Hm, Hn. by apply c_other. Qed.

Definition same_table w w' : Prop := w'.(socks) = w.(socks) ∧ w'.(next_socket) = w.(next_socket) ∧ w'.(wakes) = w.(wakes).

Lemma does_same w w' : same_table w w' → does w [] w'.
Proof. intros (? & ? & E). apply (does_idle w []); [by rewrite E, app_nil_r|done|done]. Qed.

Lemma does_quietly w w1 s o st : same_table w w1 → w.(socks) !! s = Some o → plain o.(state) → empty_listener st →
  (∀ e, still_ready st e = true → still_ready o.(state) e = true) → does w [] (set_state w1 s st).
Proof.
  intros (E1 & E2 & E3) Hs Ho Hst Ht. rewrite (set_state_eq _ _ o) by congruence.
  apply (does_other w s o st []); try done; cbn; [|by rewrite E3, app_nil_r|by rewrite E1]. intros e Hb. left. by apply Ht.
Qed.

(** ** Creation *)

Lemma does_new w k st fl pr cred : plain st → (∀ e, still_ready st e = false) → does w [] (new_socket w k st fl pr cred).2.
Proof. intros Hp Hr. apply (does_one w [] []); [by rewrite app_nil_r|]. by apply c_fresh. Qed.

Lemma create_does w domain kind protocol cred : does w [] (create w domain kind protocol cred).2.
Proof.
  unfold create. destruct (negb (domain =? AF_UNIX)); [apply does_refl|]. destruct (negb (protocol =? 0)); [apply does_refl|]. cbv zeta.
  do 3 (case_match; [by apply does_new; [|intros []]|]). apply does_refl.
Qed.

(** Two new ends that face each other *)
Lemma does_pair w k fl cred : is_stream_like k = true →
  let l := w.(next_socket) in let r := l + 1 in
  does w [] (new_socket (new_socket w k (UnixSocketState.Stream (connected r cred None None None)) fl 0 cred).2 k (UnixSocketState.Stream (connected l cred None None None)) fl 0 cred).2.
Proof.
  intros Hk l r. set (o0 := mkSocket k UnixSocketState.Unbound fl false 0 None cred). set (on := mkSocket k (UnixSocketState.Stream (connected l cred None None None)) fl false 0 None cred).
  exists ([] ++ []). split; [by rewrite app_nil_r|]. change (@nil Event) with (@nil Event ++ ([] ++ [])).
  apply (cs_more _ _ [] [] (<[l := o0]> w.(socks)) r).
  { apply (c_fresh _ _ o0); [exact I|by intros []]. }
  change (@nil Wake) with (@nil Wake ++ []).
  eapply cs_more; [|apply cs_done]. cbn.
  replace (<[_ := _]> (<[_ := _]> (socks w))) with (<[l := with_sock_state (UnixSocketState.Stream (connected r cred None None None)) o0]> (<[r := on]> (<[l := o0]> w.(socks)))).
  - eapply (c_link _ _ l o0 on); [apply lookup_insert_eq|exact I|exact Hk|done|done].
  - rewrite (insert_insert_ne (<[l := o0]> (socks w)) l r) by lia. by rewrite insert_insert_eq.
Qed.

Lemma socketpair_does w domain kind protocol cred : does w [] (socketpair w domain kind protocol cred).2.
Proof.
  unfold socketpair. cbv zeta. destruct (negb _); [apply does_refl|]. destruct (domain =? AF_INET); [destruct (_ || _); apply does_refl|].
  destruct (negb (domain =? AF_UNIX)); [apply does_refl|]. destruct (negb (protocol =? 0)); [apply does_refl|].
  destruct (_ || _); [by apply does_pair; destruct (_ =? _)|]. destruct (_ =? _); [|apply does_refl].
  eapply does_then; apply does_new; try done; by intros [].
Qed.
(** ** Names *)

Lemma make_node_same w name : same_table w (make_node w name).2.
Proof. unfold make_node. by repeat case_match. Qed.

Lemma bind_does w s name : does w [] (bind_socket w s name).2.
Proof.
  unfold bind_socket. destruct (socks w !! s) as [x|] eqn:Hs; [|apply does_refl]. destruct (can_bind x) eqn:Hcan; [|apply does_refl]. cbn [negb].
  destruct (if is_abstract name then _ else _) as [r w1] eqn:E. assert (same_table w w1) as Hsame.
  { destruct (is_abstract name); [by injection E as _ <-|]. pose proof (make_node_same w name). by rewrite E in *. }
  destruct r as [key|e]; [|by apply does_same]. destruct (registry w1 !! key); [apply does_same; by destruct (is_abstract name)|].
  unfold can_bind in Hcan. destruct (state x) as [| | |d| |] eqn:Hx; try done; (apply (does_quietly w _ s x); [done|done|by rewrite Hx|done|rewrite Hx; by intros []]).
Qed.

Lemma listen_does w s n : does w [] (listen w s n).2.
Proof.
  unfold listen. destruct (socks w !! s) as [x|] eqn:Hs; [|apply does_refl]. destruct (negb _); [apply does_refl|].
  destruct (state x) as [|name key| | | |] eqn:Hx; try apply does_refl. destruct (registry w !! key); [|apply does_refl].
  apply (does_quietly w _ s x); [done|done|by rewrite Hx|split; [done|cbn; lia]|by intros []].
Qed.

(** ** Connections *)

Lemma connect_datagram_does w s name : does w [] (connect_datagram w s name).2.
Proof.
  unfold connect_datagram. destruct (socket_registry_key w name) as [key|]; [|apply does_refl]. destruct (datagram_endpoint w key); [|apply does_refl].
  destruct (datagram_of w s) as [d|] eqn:Hd; [|apply does_refl]. apply datagram_of_Some in Hd as (o & Hs & Ho). 
  apply (does_quietly w _ s o); [done|done|by rewrite Ho|done|rewrite Ho; by intros []].
Qed.

(** The two ends join, and the listener gets one of them. *)
Lemma does_connect w s o ls ol l c c' ln lk ln' lk' rn rn' fl pr : well_formed w → w.(socks) !! s = Some o → plain o.(state) → is_stream_like o.(kind) = true →
  w.(socks) !! ls = Some ol → ol.(state) = UnixSocketState.Listener l → zlen l.(pending) < l.(backlog) →
  ∀ w', let n := w.(next_socket) in let on := mkSocket o.(kind) (UnixSocketState.Stream (connected s c ln lk rn)) fl false pr None c' in
  w'.(socks) = <[s := with_sock_state (UnixSocketState.Stream (connected n c' ln' lk' rn')) o]>
    (<[ls := with_sock_state (UnixSocketState.Listener (with_pending (l.(pending) ++ [n]) l)) ol]> (<[n := on]> w.(socks))) →
  w'.(next_socket) = n + 1 → w'.(wakes) = w.(wakes) ++ [(ls, PollableEvent.CanBeRead)] → does w [] w'.
Proof.
  intros Hok Hs Ho Hk Hls Hol Hlen w' n on Hm Hn Hw. exists [(ls, PollableEvent.CanBeRead)]. split; [done|]. rewrite Hm, Hn.
  assert (s ≠ ls) as Hne by (intros ->; assert (ol = o) as -> by congruence; by rewrite Hol in Ho).
  pose proof (ok_fresh _ _ Hok ls ol Hls) as Hlt. pose proof (ok_fresh _ _ Hok s o Hs) as Hlt'. fold n in Hlt, Hlt'.
  rewrite (insert_insert_ne _ s ls) by done. set (m1 := <[s := _]> (<[n := on]> (socks w))).
  assert (change w.(socks) n [] [] m1 (n + 1)) as Hlink by (eapply c_link; done).
  change (@nil Event) with (@nil Event ++ ([] ++ [])). change [(ls, PollableEvent.CanBeRead)] with ([] ++ [(ls, PollableEvent.CanBeRead)] ++ []).
  apply (cs_more _ _ [] [] m1 (n + 1)); [done|]. eapply cs_more; [|apply cs_done].
  assert (∀ t, t ∈ l.(pending) → t ≠ n) as Hold.
  { intros t Ht ->. destruct (ok_pending _ _ Hok ls ol l Hls Hol) as (_ & _ & _ & Hp). destruct (Hp n Ht) as (o' & x & Ho' & _). apply (ok_fresh _ _ Hok) in Ho'. lia. }
  assert (∀ t u l', m1 !! t = Some u → u.(state) = UnixSocketState.Listener l' → socks w !! t = Some u) as Hlis.
  { intros t u l'. subst m1. rewrite !lookup_insert_Some. intros [[_ <-]|(_ & [[_ <-]|[_ ?]])]; done. }
  apply c_pending.
  - subst m1. by rewrite !lookup_insert_ne by (done || lia).
  - done.
  - destruct (ok_pending _ _ Hok ls ol l Hls Hol) as (Hnd & _). apply NoDup_app. split_and!; [done| |apply NoDup_singleton].
    intros t Ht ->%list_elem_of_singleton. by apply (Hold n).
  - unfold zlen in *. rewrite length_app. cbn. lia.
  - intros t [Ht| ->%list_elem_of_singleton]%elem_of_app; [by left|right]. split.
    + exists on, (connected s c ln lk rn). split; [|done]. subst m1. rewrite lookup_insert_ne by lia. apply lookup_insert_eq.
    + intros t u l' Ht Hu Hin. apply Hlis with (l' := l') in Ht; [|done]. destruct (ok_pending _ _ Hok t u l' Ht Hu) as (_ & _ & _ & Hp).
      destruct (Hp n Hin) as (o' & x & Ho' & _). apply (ok_fresh _ _ Hok) in Ho'. lia.
  - intros _ _. by left.
Qed.

Lemma listener_of_Some w s l : listener_of w s = Some l → ∃ o, w.(socks) !! s = Some o ∧ o.(state) = UnixSocketState.Listener l.
Proof. unfold listener_of. destruct (socks w !! s) as [o|]; [|done]. cbn. intros Ho. exists o. split; [done|]. destruct (state o); congruence. Qed.

Lemma connect_stream_does w s x name cred : well_formed w → w.(socks) !! s = Some x → is_stream_like x.(kind) = true → does w [] (connect_stream w s x name cred).2.
Proof.
  intros Hok Hs Hk. unfold connect_stream. destruct (_ ≫= _) as [[|ls|]|]; try apply does_refl.
  destruct (listener_of w ls) as [l|] eqn:Hl; [|apply does_refl]. apply listener_of_Some in Hl as (ol & Hls & Hol). cbv zeta.
  pose proof (ok_fresh _ _ Hok ls ol Hls) as Hlt. pose proof (ok_fresh _ _ Hok s x Hs) as Hlt'.
  destruct (state x) as [|path key| | | |] eqn:Hx; try apply does_refl; (destruct (_ <=? _) eqn:Hb; [apply does_wake_closed|]); cbn [snd new_socket].
  all: assert (s ≠ ls) as Hne by (intros ->; congruence).
  all: rewrite (set_state_eq _ ls ol) by (cbn; by rewrite lookup_insert_ne by lia).
  all: unfold set_stream; rewrite (set_state_eq _ s x) by (cbn; by rewrite !lookup_insert_ne by (done || lia)).
  all: rewrite (wake_eq _ ls _ (with_sock_state (UnixSocketState.Listener (with_pending (pending l ++ [next_socket w]) l)) ol)) by (cbn; rewrite lookup_insert_ne by done; apply lookup_insert_eq).
  all: eapply (does_connect w s x ls ol l); try done; first [by rewrite Hx|lia].
Qed.

Lemma connect_does w s name cred : well_formed w → does w [] (connect w s name cred).2.
Proof.
  intros Hok. unfold connect. destruct (socks w !! s) as [x|] eqn:Hs; [|apply does_refl].
  destruct (is_stream_like _) eqn:Hk; [by apply connect_stream_does|apply connect_datagram_does].
Qed.

(** ** Passes of blocking calls *)

Definition after {A} (a : attempt World SocketError A) : World := match a with Return _ w | Sleep w => w end.

Lemma accept_does w s : well_formed w → does w [] (after (accept_try s w)).
Proof.
  intros Hok. unfold accept_try. destruct (socks w !! s) as [x|] eqn:Hs; [|apply does_refl]. destruct (state x) as [| |l| | |] eqn:Hx; try apply does_refl.
  destruct (pending l) as [|n rest] eqn:Hp; [destruct (is_nonblocking x); apply does_refl|]. cbn [after]. rewrite (set_state_eq _ _ x) by done.
  destruct (ok_pending _ _ Hok s x l Hs Hx) as (Hnd & _ & Hlen & _). rewrite Hp in Hnd, Hlen. apply NoDup_cons in Hnd as [_ Hnd].
  apply (does_one w [] []); [by rewrite app_nil_r|]. apply c_pending; try done.
  - unfold zlen in *. cbn in Hlen. lia.
  - intros t Ht. left. rewrite Hp. by right.
  - by rewrite Hp.
Qed.
(** A pass of [read] received what it took out of the buffer, if it took something. *)
Definition heard w s (a : attempt World SocketError (list byte)) : list Event :=
  match a with Return (Ok b) w' => if bool_decide (stream_of w' s = stream_of w s) then [] else [Received s b] | _ => [] end.

(** A pass of [write] sent the bytes that it counts. *)
Definition said s (buffer : list byte) (a : attempt World SocketError Z) : list Event :=
  match a with Return (Ok n) _ => if 0 <? n then [Sent s (take (Z.to_nat n) buffer)] else [] | _ => [] end.

Lemma heard_same w s r : heard w s (Return r w) = [].
Proof. destruct r; [|done]. cbn. by rewrite bool_decide_eq_true_2. Qed.

Lemma wake_writer_wakes w x : ∃ ws, (wake_writer w x).(wakes) = w.(wakes) ++ ws ∧ same_table (mkSockets w.(files) w.(socks) w.(registry) w.(next_socket) (w.(wakes) ++ ws)) (wake_writer w x) ∧
  ∀ p y, live_peer w x = Some (p, y) → (p, PollableEvent.CanBeWritten) ∈ ws.
Proof.
  unfold wake_writer. destruct (live_peer w x) as [[p y]|] eqn:Hl; [|exists []; rewrite app_nil_r; by split_and!].
  apply live_peer_Some in Hl as (_ & o & Hp & _). exists [(p, PollableEvent.CanBeWritten)]. rewrite (wake_eq _ _ _ o) by done. split_and!; [done|done|].
  intros q z [= <- _]. by left.
Qed.

Lemma live_in_insert m next s o x x' y : table_ok m next → m !! s = Some o → o.(state) = UnixSocketState.Stream x → y.(peer) = x.(peer) →
  live_in (<[s := with_sock_state (UnixSocketState.Stream x') o]> m) y = live_in m x.
Proof.
  intros Hok Hs Ho Hy. destruct (ok_stream _ _ Hok s o x Hs Ho) as [_ (p & E & Hne & _)]. unfold live_in. rewrite Hy, E. cbn. by rewrite lookup_insert_ne.
Qed.

Lemma drain_does w s o x n len packets : well_formed w → w.(socks) !! s = Some o → o.(state) = UnixSocketState.Stream x →
  0 <= len <= zlen x.(recv_buf) → takes o.(kind) x (take (Z.to_nat n) x.(recv_buf)) len packets →
  does w (heard w s (drain w s x n len packets)) (after (drain w s x n len packets)).
Proof.
  intros Hok Hs Ho Hl Ht. unfold drain, set_stream. rewrite (set_state_eq _ _ o) by done. set (x' := with_recv _ _ _ x). set (w1 := mkSockets _ _ _ _ _).
  set (w2 := if was_full x then wake_writer w1 x else w1).
  assert (∃ ws, w2.(wakes) = w.(wakes) ++ ws ∧ w2.(socks) = w1.(socks) ∧ w2.(next_socket) = w.(next_socket) ∧
    ∀ p y, live_in w.(socks) x = Some (p, y) → was_full x = true → (p, PollableEvent.CanBeWritten) ∈ ws) as (ws & Hw & Hm & Hn & Hroom).
  { subst w2. destruct (was_full x); [|exists []; rewrite app_nil_r; by split_and!].
    destruct (wake_writer_wakes w1 x) as (ws & Hw & (Hm & Hn & _) & Hroom). exists ws. split_and!; [done|done|done|]. intros p y Hp _. apply (Hroom p y).
    rewrite live_peer_eq. rewrite <- Hp. by apply (live_in_insert _ w.(next_socket) s o x). }
  cbn [heard after]. destruct (bool_decide _) eqn:Hb.
  - apply bool_decide_eq_true in Hb. assert (x' = x) as Hx.
    { assert (stream_of w2 s = Some x') as E1 by (apply stream_of_Some; rewrite Hm; eexists; split; [apply lookup_insert_eq|done]).
      assert (stream_of w s = Some x) as E2 by (apply stream_of_Some; eauto). congruence. }
    apply (does_idle w ws); [done| |done]. rewrite Hm. unfold w1. cbn. rewrite Hx. apply insert_id. rewrite Hs. f_equal. symmetry. by apply with_sock_state_id.
  - apply (does_one w _ ws); [done|]. rewrite Hm, Hn. unfold w1. cbn. by apply c_receive.
Qed.

Lemma read_stream_does w s o x len nonblocking peek control : well_formed w → w.(socks) !! s = Some o → o.(state) = UnixSocketState.Stream x →
  o.(kind) = UnixSocketKind.Stream ∨ x.(pending_packets) = [] → 0 <= len →
  does w (heard w s (read_stream x s len nonblocking peek control w)) (after (read_stream x s len nonblocking peek control w)).
Proof.
  intros Hok Hs Ho Hk Hlen. unfold read_stream. assert (∀ r, does w (heard w s (Return r w)) w) as Hidle by (intros; rewrite heard_same; apply does_refl).
  destruct (_ && _ && _); [apply Hidle|]. destruct (negb _) eqn:Hb.
  - destruct peek; [apply Hidle|]. assert (o.(kind) = UnixSocketKind.Stream) as Hkind.
    { destruct Hk as [|Hp]; [done|]. destruct (ok_stream _ _ Hok s o x Hs Ho) as [Hbuf _]. unfold buffers_ok in Hbuf. rewrite Hp in Hbuf.
      destruct (kind o); [done|done|]. destruct Hbuf as [_ Hz]. apply negb_true_iff, bool_decide_eq_false in Hb. exfalso. apply Hb. unfold zlen in Hz. cbn in Hz. destruct (recv_buf x); [done|cbn in Hz; lia]. }
    apply drain_does with (o := o); [done..| |rewrite Hkind; by split]. unfold zlen. lia.
  - destruct (_ || _); [apply Hidle|]. destruct nonblocking; [apply Hidle|apply does_refl].
Qed.

Lemma read_does w s len nonblocking peek control : well_formed w → 0 <= len →
  does w (heard w s (read_try s len nonblocking peek control w)) (after (read_try s len nonblocking peek control w)).
Proof.
  intros Hok Hlen. unfold read_try. assert (∀ r, does w (heard w s (Return r w)) w) as Hidle by (intros; rewrite heard_same; apply does_refl).
  destruct (socks w !! s) as [o|] eqn:Hs; [|apply Hidle]. destruct (state o) as [| | |d|x|] eqn:Ho; try apply Hidle.
  - destruct (dg_read_shutdown d); [apply Hidle|]. destruct (recv_queue d) as [|m rest] eqn:Hq; [destruct nonblocking; [apply Hidle|apply does_refl]|]. cbv zeta. cbn [after].
    assert (∀ d', heard w s (Return (Ok (take (Z.to_nat (Z.min len (zlen (data m)))) (data m))) (set_datagram w s d')) = []) as ->.
    { intros d'. cbn [heard]. rewrite bool_decide_eq_true_2; [done|]. unfold set_datagram. rewrite (set_state_eq _ _ o) by done. unfold stream_of. cbn. rewrite lookup_insert_eq, Hs. cbn. by rewrite Ho. }
    apply (does_quietly w _ s o); [done|done|by rewrite Ho|done|]. rewrite Ho. intros []; try done; cbn; rewrite ?Hq; by destruct peek.
  - destruct (read_shutdown x); [apply Hidle|]. destruct (ok_stream _ _ Hok s o x Hs Ho) as [Hb _]. unfold buffers_ok in Hb.
    destruct (kind o) eqn:Hk; [by apply (read_stream_does w s o); auto|done|]. destruct (pending_packets x) as [|n packets] eqn:Hp; [by apply (read_stream_does w s o); auto|].
    destruct peek; [apply Hidle|]. destruct Hb as [Hf Ht]. apply Forall_cons in Hf as [Hn Hf]. cbn in Ht.
    assert (0 <= total packets) by (clear -Hf; induction Hf; cbn; lia).
    apply (drain_does w s o); [done..|lia|]. rewrite Hk. split; [done|]. replace (take (Z.to_nat (Z.min len n)) (recv_buf x)) with (take (Z.to_nat len) (take (Z.to_nat n) (recv_buf x))).
    + apply prefix_take.
    + rewrite take_take. f_equal. lia.
Qed.
Lemma write_stream_does w s so buffer nonblocking objects : well_formed w → w.(socks) !! s = Some so →
  does w (said s buffer (write_stream_try s so buffer nonblocking objects w)) (after (write_stream_try s so buffer nonblocking objects w)).
Proof.
  intros Hok Hs. unfold write_stream_try. destruct (state so) as [| | | |x|] eqn:Hso; try apply does_refl.
  destruct (write_shutdown x); [apply does_refl|]. destruct (live_peer w x) as [[p y]|] eqn:Hl; [|apply does_refl].
  apply live_peer_Some in Hl as (Hp & op & Hop & Hy). destruct (read_shutdown y); [apply does_refl|]. cbv zeta.
  destruct (peer_unique _ _ _ _ _ _ _ Hok Hop Hs Hso Hp) as (y0 & Hy0 & Hys & Hkind). assert (y0 = y) as -> by congruence.
  set (packet := bool_decide (kind so = UnixSocketKind.SeqPacket)). set (n := if packet then _ else _).
  assert (0 <= n <= zlen buffer ∧ (packet = false → zlen (recv_buf y) + n <= STREAM_RECV_CAPACITY ∨ n = 0)) as [Hn Hroom].
  { subst n. unfold sat_sub, zlen. destruct packet; lia. }
  assert (packet = true → n = zlen buffer) as Hall by (subst n; by intros ->).
  destruct (packet && (STREAM_RECV_CAPACITY <? n)); [apply does_refl|]. destruct (_ || _) eqn:Hsend; [|destruct nonblocking; apply does_refl].
  cbn [after said]. unfold set_stream. set (y' := with_recv _ _ _ y). rewrite (set_state_eq _ _ op) by done. rewrite (wake_eq _ _ _ (with_sock_state (UnixSocketState.Stream y') op)) by apply lookup_insert_eq.
  assert (zlen (take (Z.to_nat n) buffer) = n) as Hb by (unfold zlen in *; rewrite length_take; lia).
  destruct (Z.ltb_spec 0 n) as [Hpos|Hz]; (apply (does_one w _ [(p, PollableEvent.CanBeRead)]); [done|]).
  - eapply c_send; [done|done|done|exact Hs| |by left]. rewrite Hkind. unfold puts. subst packet. destruct (kind so) eqn:Hk; cbn.
    + split; [done|]. rewrite Hb. destruct Hroom; [done|lia|lia].
    + destruct (ok_stream _ _ Hok s so x Hs Hso) as [Hbuf _]. unfold buffers_ok in Hbuf. by rewrite Hk in Hbuf.
    + rewrite Hb. by split.
  - apply (c_inner _ _ p op y y'); [done|done|]. cbn [orb] in Hsend. assert (packet = false) as Hpk by (destruct packet; [done|done]).
    split; try (apply told_same || done); try (by right; left); [|intros; apply told_same]. subst y'. rewrite Hpk. split_and!; [|done|done].
    assert (n = 0) as -> by lia. cbn. by rewrite take_0, app_nil_r.
Qed.

Lemma write_does w s buffer nonblocking objects : well_formed w →
  does w (said s buffer (write_try s buffer nonblocking objects w)) (after (write_try s buffer nonblocking objects w)).
Proof.
  intros Hok. unfold write_try. destruct (socks w !! s) as [so|] eqn:Hs; [|apply does_refl]. destruct (_ && _); [apply does_refl|]. by apply write_stream_does.
Qed.

Lemma push_does w s p d buffer nonblocking objects cred : does w [] (after (push_message s p d buffer nonblocking objects cred w)).
Proof.
  unfold push_message. destruct (datagram_of w p) as [y|] eqn:Hd; [|apply does_refl]. apply datagram_of_Some in Hd as (o & Hp & Ho).
  destruct (_ <=? _); [destruct nonblocking; apply does_refl|]. cbn [after]. unfold set_datagram. set (st := UnixSocketState.Datagram _).
  rewrite (set_state_eq _ _ o) by done. rewrite (wake_eq _ _ _ (with_sock_state st o)) by apply lookup_insert_eq.
  eapply (does_other w p o st); [done|by rewrite Ho|done| |done|done|done]. intros e. rewrite Ho. destruct e; try apply told_same. right. by left.
Qed.

(** ** Shutdown *)

Lemma shut_read_does w s : well_formed w → does w [] (shut_read w s).
Proof.
  intros Hok. unfold shut_read. destruct (stream_of w s) as [x|] eqn:Hx; [|apply does_refl]. apply stream_of_Some in Hx as (o & Hs & Ho).
  unfold notify_peer_read_shutdown, set_stream. rewrite (set_state_eq _ _ o) by done. set (w1 := mkSockets _ _ _ _ _).
  destruct (wake_writer_wakes w1 x) as (ws & Hw & (Hm & Hn & _) & Hroom). apply (does_one w [] ws); [done|]. rewrite Hm, Hn. cbn.
  apply (c_inner _ _ s o x); [done|done|]. split; try apply told_same; [by split_and!|done|]. intros p y Hp _. right. apply (Hroom p y).
  rewrite live_peer_eq, <- Hp. by apply (live_in_insert _ w.(next_socket) s o x).
Qed.

Lemma shut_write_does w s : well_formed w → does w [] (shut_write w s).
Proof.
  intros Hok. unfold shut_write. destruct (stream_of w s) as [x|] eqn:Hx; [|apply does_refl]. apply stream_of_Some in Hx as (o & Hs & Ho).
  destruct (write_shutdown x) eqn:Hsh; [apply does_refl|]. unfold set_stream. rewrite (set_state_eq _ _ o) by done. set (w1 := mkSockets _ _ _ _ _).
  apply (does_then _ w1).
  - apply (does_one w [] []); [by rewrite app_nil_r|]. apply (c_inner _ _ s o x); [done|done|]. split; try apply told_same; [by split_and!|done|]. intros p y Hp. apply told_same.
  - unfold notify_peer_write_shutdown. destruct (live_peer w1 x) as [[p y]|] eqn:Hl; [|apply does_refl]. apply live_peer_Some in Hl as (_ & op & Hop & Hy).
    unfold set_stream. set (st := UnixSocketState.Stream _). rewrite (set_state_eq _ _ op) by done.
    rewrite (wake_eq _ _ PollableEvent.CanBeRead (with_sock_state st op)), (wake_eq _ _ PollableEvent.ReadClosed (with_sock_state st op)), (wake_eq _ _ PollableEvent.CanBeWritten (with_sock_state st op)) by apply lookup_insert_eq.
    apply (does_one w1 [] [(p, PollableEvent.CanBeRead); (p, PollableEvent.ReadClosed); (p, PollableEvent.CanBeWritten)]); [cbn; by rewrite <- !app_assoc|].
    apply (c_inner _ _ p op y); [done|done|]. split; try apply told_same; [by split_and!|right; set_solver|right; set_solver|done|]. intros q z _. apply told_same.
Qed.

Lemma dg_shut_does w s rd wr : does w [] (dg_shut w s rd wr).
Proof.
  unfold dg_shut. destruct (datagram_of w s) as [d|] eqn:Hd; [|apply does_refl]. apply datagram_of_Some in Hd as (o & Hs & Ho). cbv zeta.
  unfold set_datagram. set (st := UnixSocketState.Datagram _). rewrite (set_state_eq _ _ o) by done. destruct (wr && negb (dg_write_shutdown d)) eqn:Hc.
  - rewrite (wake_eq _ _ _ (with_sock_state st o)) by apply lookup_insert_eq. eapply (does_other w s o st); [done|by rewrite Ho|done| |done|done|done].
    intros e. rewrite Ho. destruct e; try apply told_same. right. by left.
  - eapply (does_other w s o st []); [done|by rewrite Ho|done| |by rewrite app_nil_r|done|done]. intros e. rewrite Ho. destruct e; try apply told_same.
    unfold told. cbn. destruct wr; [|by left]. left. by destruct (dg_write_shutdown d).
Qed.

Lemma shutdown_does w s how : well_formed w → does w [] (shutdown w s how).2.
Proof.
  intros Hok. unfold shutdown. set (rd := (how =? 0) || (how =? 2)). set (wr := (how =? 1) || _). destruct (state <$> socks w !! s) as [[]|]; try apply does_refl.
  - cbv zeta. destruct (rd || wr); [apply dg_shut_does|apply does_refl].
  - cbv zeta. destruct (rd || wr); [|apply does_refl]. cbn [snd]. assert (does w [] (if rd then shut_read w s else w)) as H1 by (destruct rd; [by apply shut_read_does|apply does_refl]).
    destruct wr; [|done]. eapply does_then; [done|]. apply shut_write_does. by eapply does_good.
Qed.
(** ** The rest *)

Lemma options_does w s o o' : w.(socks) !! s = Some o → o'.(kind) = o.(kind) → o'.(state) = o.(state) → does w [] (set_sock w s o').
Proof. intros Hs Hk Hst. apply (does_one w [] []); [by rewrite app_nil_r|]. by apply (c_options _ _ s o). Qed.

Lemma set_flags_does w s f : does w [] (set_flags w s f).
Proof. unfold set_flags. destruct (socks w !! s) as [o|] eqn:Hs; [by apply (options_does w s o)|apply does_refl]. Qed.

Lemma set_priority_does w s pr net_admin : does w [] (set_priority w s pr net_admin).2.
Proof.
  unfold set_priority. destruct (socks w !! s) as [o|] eqn:Hs; [|apply does_refl]. destruct (can_set_socket_priority _ _); [by apply (options_does w s o)|apply does_refl].
Qed.

Lemma set_pass_cred_does w s b : does w [] (set_pass_cred w s b).
Proof. unfold set_pass_cred. destruct (socks w !! s) as [o|] eqn:Hs; [by apply (options_does w s o)|apply does_refl]. Qed.

Lemma attach_bpf_does w s program : does w [] (attach_bpf w s program).
Proof. unfold attach_bpf. destruct (socks w !! s) as [o|] eqn:Hs; [by apply (options_does w s o)|apply does_refl]. Qed.

(** Objects are taken from a connection, unless they are only looked at. *)
Definition took w s (peek : bool) : list Event := match stream_of w s with Some _ => if peek then [] else [Took s] | None => [] end.

Lemma control_does w s n peek cap : does w (took w s peek) (control_rights w s n peek cap).2.
Proof.
  unfold control_rights, stream_rights, took. destruct (stream_of w s) as [x|] eqn:Hx.
  - apply stream_of_Some in Hx as (o & Hs & Ho). set (log := if peek then _ else _). set (r := if peek then _ else _). assert (does w log r.2) as H1.
    { subst r log. destruct peek; [apply does_refl|]. unfold take_ready_rights. destruct (split_ready _ _) as [ready rest]. cbn [snd]. unfold set_stream.
      rewrite (set_state_eq _ _ o) by done. apply (does_one w _ []); [by rewrite app_nil_r|]. by apply c_rights. }
    assert (datagram_of r.2 s = None) as Hno.
    { destruct (datagram_of r.2 s) as [d|] eqn:Hd; [|done]. apply datagram_of_Some in Hd as (o' & Hs' & Ho'). subst r. destruct peek; [cbn in Hs'; congruence|].
      unfold take_ready_rights in Hs'. destruct (split_ready _ _) as [ready rest]. cbn [snd] in Hs'. unfold set_stream in Hs'. rewrite (set_state_eq _ _ o) in Hs' by done.
      cbn in Hs'. rewrite lookup_insert_eq in Hs'. injection Hs' as <-. done. }
    destruct r as [[|y l] w']; [|done]. cbn in Hno. unfold datagram_rights. by rewrite Hno.
  - unfold datagram_rights. destruct (datagram_of w s) as [d|] eqn:Hd; [|apply does_refl]. apply datagram_of_Some in Hd as (o & Hs & Ho).
    destruct (fitting _ _); [apply does_refl|]. destruct peek; [apply does_refl|]. cbn [snd]. apply (does_quietly w _ s o); [done|done|by rewrite Ho|done|]. rewrite Ho. by intros [].
Qed.

(** ** The end of a socket *)

Lemma forget_same w key name : same_table w (forget w key name).
Proof. unfold forget, delete_as_written. by destruct (is_abstract name). Qed.

Lemma same_trans w1 w2 w3 : same_table w1 w2 → same_table w2 w3 → same_table w1 w3.
Proof. unfold same_table. intros (? & ? & ?) (? & ? & ?). split_and!; congruence. Qed.

Lemma drop_connection_does w s : well_formed w → unheld w.(socks) s → does w [] (drop_connection w s).
Proof.
  intros Hok Hu. unfold drop_connection. destruct (stream_of w s) as [x|] eqn:Hx.
  - apply stream_of_Some in Hx as (o & Hs & Ho). unfold drop_stream. set (w1 := match local_name x with Some _ => _ | None => _ end).
    assert (same_table (remove_socket w s) w1) as (E1 & E2 & E3) by (subst w1; repeat case_match; first [done|apply forget_same]). cbn in E1, E2, E3.
    assert (∀ p, x.(peer) = Some p → p ≠ s) as Hne by (intros p Hp; by destruct (peer_below _ _ _ _ _ _ Hok Hs Ho Hp)).
    unfold close_local. destruct (live_peer w1 x) as [[p y]|] eqn:Hl.
    + apply live_peer_Some in Hl as (Hp & op & Hop & Hy). rewrite E1 in Hop. apply lookup_delete_Some in Hop as [_ Hop].
      unfold set_stream. set (st := UnixSocketState.Stream _). rewrite (set_state_eq _ _ op) by (rewrite E1, lookup_delete_ne by (by apply not_eq_sym, Hne); done). unfold wake_closed.
      rewrite (wake_eq _ _ PollableEvent.CanBeRead (with_sock_state st op)), (wake_eq _ _ PollableEvent.ReadClosed (with_sock_state st op)),
        (wake_eq _ _ PollableEvent.Closed (with_sock_state st op)), (wake_eq _ _ PollableEvent.CanBeWritten (with_sock_state st op)) by apply lookup_insert_eq.
      apply (does_one w [] [(p, PollableEvent.CanBeRead); (p, PollableEvent.ReadClosed); (p, PollableEvent.Closed); (p, PollableEvent.CanBeWritten)]); [cbn; by rewrite E3, <- !app_assoc|].
      cbn. rewrite E1, E2. eapply c_closed; try done. set_solver.
    + apply (does_one w [] []); [by rewrite E3, app_nil_r|]. rewrite E1, E2. apply (c_gone _ _ s o); [done|done|]. intros x' Hx'. assert (x' = x) as -> by congruence.
      rewrite live_peer_eq, E1 in Hl. unfold live_in in *. destruct (peer x) as [p|] eqn:Hp; [|done]. cbn in *. rewrite lookup_delete_ne in Hl by (by apply not_eq_sym, Hne). done.
  - destruct (socks w !! s) as [o|] eqn:Hs; [|apply does_same; split_and!; [by apply delete_id|done|done]].
    apply (does_one w [] []); [by rewrite app_nil_r|]. apply (c_gone _ _ s o); [done|done|]. intros x Ho. assert (stream_of w s = Some x) by (apply stream_of_Some; eauto). congruence.
Qed.

(** Dropping a connection leaves the listeners as they are. *)
Lemma drop_connection_listeners w s t u l : (drop_connection w s).(socks) !! t = Some u → u.(state) = UnixSocketState.Listener l → w.(socks) !! t = Some u.
Proof.
  assert (∀ w' p y, (set_stream w' p y).(socks) !! t = Some u → u.(state) = UnixSocketState.Listener l → w'.(socks) !! t = Some u) as Hset.
  { intros w' p y. unfold set_stream, set_state. destruct (socks w' !! p); [|done]. cbn. intros [[_ <-]|[_ ?]]%lookup_insert_Some; done. }
  assert (∀ w' p, (wake_closed w' p).(socks) = w'.(socks)) as Hwake.
  { intros w' p. unfold wake_closed, wake_pollers. destruct (socks w' !! p) eqn:E; cbn; rewrite ?E; cbn; rewrite ?E; cbn; by rewrite ?E. }
  assert ((remove_socket w s).(socks) !! t = Some u → w.(socks) !! t = Some u) as Hrm by (cbn; by intros [_ ?]%lookup_delete_Some).
  unfold drop_connection. destruct (stream_of w s) as [x|]; [|by intros Ht _; apply Hrm]. unfold drop_stream. set (w1 := match local_name x with Some _ => _ | None => _ end).
  assert (same_table (remove_socket w s) w1) as (E1 & _) by (subst w1; repeat case_match; first [done|apply forget_same]).
  unfold close_local. destruct (live_peer w1 x) as [[p y]|]; [rewrite Hwake|]; intros Ht Hl; apply Hrm; rewrite <- E1; [by eapply Hset|done].
Qed.

Lemma drop_pending_does ns w : well_formed w → (∀ n, n ∈ ns → ∀ t u l, w.(socks) !! t = Some u → u.(state) = UnixSocketState.Listener l → n ∉ l.(pending)) →
  does w [] (foldl drop_connection w ns).
Proof.
  revert w. induction ns as [|n ns IH]; intros w Hok Hno; [apply does_refl|]. cbn.
  assert (does w [] (drop_connection w n)) as H1 by (apply drop_connection_does; [done|]; intros t u l Ht Hu _; apply (Hno n) with t u; [by left|done..]).
  eapply does_then; [exact H1|]. apply IH; [by eapply does_good|]. intros k Hk t u l Ht Hu. apply (Hno k) with t u; [by right| |done]. by apply (drop_connection_listeners w n t u l).
Qed.

Lemma remove_does w s o : well_formed w → w.(socks) !! s = Some o → is_stream o.(state) = false → unheld w.(socks) s → does w [] (remove_socket w s).
Proof.
  intros Hok Hs Ho Hu. apply (does_one w [] []); [by rewrite app_nil_r|]. apply (c_gone _ _ s o); [done|done|]. intros x Hx. by rewrite Hx in Ho.
Qed.

Lemma drop_does w s : well_formed w → unheld w.(socks) s → does w [] (drop_socket w s).
Proof.
  intros Hok Hu. unfold drop_socket. destruct (socks w !! s) as [o|] eqn:Hs; [|apply does_refl]. cbn [option_map fmap option_fmap].
  change (state <$> Some o) with (Some (state o)). destruct (state o) as [|name key|l|d|x|] eqn:Ho.
  - by apply (remove_does w s o); rewrite ?Ho.
  - eapply does_then; [by apply (remove_does w s o); rewrite ?Ho|]. apply does_same, forget_same.
  - assert (does w [] (forget (remove_socket w s) (listener_key l) (listener_path l))) as H1.
    { eapply does_then; [by apply (remove_does w s o); rewrite ?Ho|]. apply does_same, forget_same. }
    eapply does_then; [exact H1|]. apply drop_pending_does; [by eapply does_good|]. destruct (forget_same (remove_socket w s) (listener_key l) (listener_path l)) as (E & _).
    intros n Hn t u l' Ht Hl' Hn'. rewrite E in Ht. cbn in Ht. apply lookup_delete_Some in Ht as [Hne Ht]. apply Hne. by apply (ok_apart _ _ Hok s t o u l l' n).
  - destruct (dg_local_name d) as [name|]; [|by apply (remove_does w s o); rewrite ?Ho]. eapply does_then; [by apply (remove_does w s o); rewrite ?Ho|].
    apply does_same. unfold delete_as_written. by destruct (dg_local_key d), (is_abstract name).
  - by apply drop_connection_does.
  - by apply (remove_does w s o); rewrite ?Ho.
Qed.
End runs.
