(* ===== verification/UnixSocketTraffic.v ===== *)
(** * Unix domain sockets: what reaches the other end

    The theorems about runs: the ends of a connection, the bytes and packets between them,
    and the sleepers that are woken. *)

From stdpp Require Import strings.
From S2P Require Import Prelude Errors Blocking Polling UnixSocket UnixSocketProps UnixSocketChanges UnixSocketWakes UnixSocketRuns.

Open Scope Z_scope.

Section traffic.
Context {F : Type} `{SocketEnv F}.
Abbreviation World := (Sockets F).
Implicit Types (w : World) (s p : Z).

(** One operation, or one pass of one that blocks, of some thread *)
Inductive step w : list Event → World → Prop :=
  | step_create domain kind protocol cred : step w [] (create w domain kind protocol cred).2
  | step_pair domain kind protocol cred : step w [] (socketpair w domain kind protocol cred).2
  | step_bind s name : step w [] (bind_socket w s name).2
  | step_listen s n : step w [] (listen w s n).2
  | step_connect s name cred : step w [] (connect w s name cred).2
  | step_accept s : step w [] (after (accept_try s w))
  | step_read s len nonblocking peek control : 0 <= len →
      step w (heard w s (read_try s len nonblocking peek control w)) (after (read_try s len nonblocking peek control w))
  | step_write s buffer nonblocking objects :
      step w (said s buffer (write_try s buffer nonblocking objects w)) (after (write_try s buffer nonblocking objects w))
  | step_push s p d buffer nonblocking objects cred : step w [] (after (push_message s p d buffer nonblocking objects cred w))
  | step_shutdown s how : step w [] (shutdown w s how).2
  | step_control s n peek capacity : step w (took w s peek) (control_rights w s n peek capacity).2
  | step_flags s f : step w [] (set_flags w s f)
  | step_priority s pr net_admin : step w [] (set_priority w s pr net_admin).2
  | step_pass_cred s b : step w [] (set_pass_cred w s b)
  | step_bpf s program : step w [] (attach_bpf w s program)
  (** nobody but its listener holds a connection that was not accepted *)
  | step_drop s : unheld w.(socks) s → step w [] (drop_socket w s)
  | step_files f : step w [] (set_files w f).

Inductive runs w : list Event → World → Prop :=
  | runs_done : runs w [] w
  | runs_more log w' log' w'' : runs w log w' → step w' log' w'' → runs w (log ++ log') w''.

Definition no_sockets (f : F) : World := mkSockets f ∅ ∅ 0 [].

Definition reachable (log : list Event) w : Prop := ∃ f, runs (no_sockets f) log w.

(** The wake-ups of a step from [w] to [w'] *)
Definition new_wakes w w' : list Wake := drop (length w.(wakes)) w'.(wakes).

Lemma step_does w log w' : well_formed w → step w log w' → does w log w'.
Proof.
  intros Hok Hstep. destruct Hstep.
  - apply create_does.
  - apply socketpair_does.
  - apply bind_does.
  - apply listen_does.
  - by apply connect_does.
  - by apply accept_does.
  - by apply read_does.
  - by apply write_does.
  - apply push_does.
  - by apply shutdown_does.
  - apply control_does.
  - apply set_flags_does.
  - apply set_priority_does.
  - apply set_pass_cred_does.
  - apply attach_bpf_does.
  - by apply drop_does.
  - by apply does_same.
Qed.

Lemma runs_good w log0 log w' : well_formed w → history_ok log0 w.(socks) w.(next_socket) → runs w log w' →
  well_formed w' ∧ history_ok (log0 ++ log) w'.(socks) w'.(next_socket).
Proof.
  intros Hok Hh Hr. induction Hr as [|log w1 log' w2 Hr IH Hs]; [by rewrite app_nil_r|]. destruct IH as [Hok1 Hh1].
  destruct (step_does _ _ _ Hok1 Hs) as (ws & _ & Hc). rewrite app_assoc. by apply (changes_good w1.(socks) w1.(next_socket) _ _ ws).
Qed.

Lemma no_sockets_lookup f s : (no_sockets f).(socks) !! s = None.
Proof. apply lookup_empty. Qed.

Lemma reachable_good log w : reachable log w → well_formed w ∧ history_ok log w.(socks) w.(next_socket).
Proof.
  intros [f Hr]. apply (runs_good (no_sockets f) []); [| |done].
  - split; intros s o; by rewrite ?no_sockets_lookup.
  - split; [by intros e ?%elem_of_nil|intros s o; by rewrite no_sockets_lookup|intros s o x p; by rewrite no_sockets_lookup].
Qed.

Lemma runs_trans w1 l1 w2 l2 w3 : runs w1 l1 w2 → runs w2 l2 w3 → runs w1 (l1 ++ l2) w3.
Proof.
  intros H1 H2. induction H2 as [|log w' log' w'' H2 IH Hs]; [by rewrite app_nil_r|]. rewrite app_assoc. by eapply runs_more.
Qed.

Lemma runs_one w log w' : step w log w' → runs w log w'.
Proof. intros Hs. exact (runs_more w [] w log w' (runs_done w) Hs). Qed.

(** ** Whole calls *)

(** While a call sleeps the others run. *)
Definition others_run (ws : list (wakeup World)) : Prop := Forall (λ u, ∀ w, ∃ log, runs w log (u.(others) w)) ws.

Lemma blocking_runs {A} (pass : World → attempt World SocketError A) ws w : (∀ w', ∃ log, step w' log (after (pass w'))) → others_run ws →
  ∃ log, runs w log (blocking_loop pass on_wake ws w).2.
Proof.
  intros Hp Hws. revert w. induction Hws as [|u ws Hu Hws IH]; intros w; destruct (Hp w) as [l1 H1]; cbn; destruct (pass w) as [r w1|w1]; cbn in H1.
  1-3: exists l1; by apply runs_one.
  destruct (Hu w1) as [l2 H2]. destruct (IH (others u w1)) as [l3 H3]. exists (l1 ++ l2 ++ l3). eapply runs_trans; [by apply runs_one|]. by eapply runs_trans.
Qed.

Lemma read_call_runs s len force peek control ws w : 0 <= len → others_run ws → ∃ log, runs w log (read_socket s len force peek control ws w).2.
Proof.
  intros Hl Hws. unfold read_socket. destruct (socks w !! s); [|exists []; apply runs_done]. apply blocking_runs; [|done]. intros w'. eexists. by apply step_read.
Qed.

Lemma accept_call_runs s ws w : others_run ws → ∃ log, runs w log (accept s ws w).2.
Proof. intros Hws. apply blocking_runs; [|done]. intros w'. eexists. apply step_accept. Qed.

Lemma write_datagram_call_runs s buffer target force objects cred ws w : others_run ws →
  ∃ log, runs w log (write_datagram_socket s buffer target force objects cred ws w).2.
Proof.
  intros Hws. unfold write_datagram_socket. destruct (socks w !! s) as [so|]; [|exists []; apply runs_done]. destruct (datagram_of w s) as [d|]; [|exists []; apply runs_done].
  destruct (dg_write_shutdown d); [exists []; apply runs_done|]. destruct (datagram_target w d target) as [p|]; [|exists []; apply runs_done].
  destruct (socks w !! p) as [po|]; [|exists []; apply runs_done]. destruct (datagram_of w p) as [y|]; [|exists []; apply runs_done].
  destruct (dg_read_shutdown y); [exists []; apply runs_done|]. destruct (match attached_bpf po with Some _ => _ | None => _ end); [exists []; apply runs_done|].
  apply blocking_runs; [|done]. intros w'. eexists. apply step_push.
Qed.

Lemma write_call_runs s buffer force objects cred ws w : others_run ws → ∃ log, runs w log (write_socket s buffer force objects cred ws w).2.
Proof.
  intros Hws. unfold write_socket. destruct (socks w !! s) as [so|]; [|exists []; apply runs_done]. destruct (is_stream_like _); [|by apply write_datagram_call_runs].
  apply blocking_runs; [|done]. intros w'. eexists. apply step_write.
Qed.

Lemma sendto_call_runs s buffer name cred ws w : others_run ws → ∃ log, runs w log (sendto s buffer name cred ws w).2.
Proof.
  intros Hws. unfold sendto. destruct (socks w !! s) as [so|] eqn:Hs; [|exists []; by destruct name; apply runs_done].
  destruct name as [name|]; [|by apply write_call_runs]. destruct (bool_decide _).
  - unfold write_socket_to_path. rewrite Hs. destruct (is_stream_like _); [by apply write_call_runs|by apply write_datagram_call_runs].
  - destruct (state so); try by apply write_call_runs. destruct (connect w s name cred) as [r w1] eqn:Hc.
    assert (runs w [] w1) as H1 by (apply runs_one; pose proof (step_connect w s name cred) as Hst; by rewrite Hc in Hst).
    destruct r; [|by exists []]. destruct (write_call_runs s buffer false [] cred ws w1 Hws) as [log H2]. exists ([] ++ log). by eapply runs_trans.
Qed.

Lemma recvmsg_call_runs s capacity dontwait peek report cap ws w : 0 <= capacity → well_formed w → others_run ws →
  ∃ log, runs w log (recvmsg s capacity dontwait peek report cap ws w).2.
Proof.
  intros Hcap Hok Hws. unfold recvmsg. destruct (socks w !! s) as [so|] eqn:Hs; [|exists []; apply runs_done]. set (scratch := match kind so with UnixSocketKind.Stream => _ | _ => _ end).
  assert (0 <= scratch) as Hsc.
  { subst scratch. destruct (kind so) eqn:Hk; [done|done|]. destruct (stream_of w s) as [x|] eqn:Hx; [|done]. cbn. unfold next_packet_len. destruct (pending_packets x) eqn:Hp; [done|]. cbn.
    apply stream_of_Some in Hx as (o & Ho & Hx). assert (o = so) as -> by congruence. destruct (ok_stream _ _ Hok s so x Hs Hx) as [Hb _]. unfold buffers_ok in Hb. rewrite Hk, Hp in Hb.
    destruct Hb as [Hf _]. apply Forall_cons in Hf as [? _]. lia. }
  destruct (read_call_runs s scratch dontwait peek true ws w Hsc Hws) as [l1 H1]. destruct (read_socket _ _ _ _ _ _ _) as [[[b|e]|] w1]; cbn in H1; [|by exists l1..].
  cbv zeta. destruct (_ || _); [|by exists l1]. pose proof (step_control w1 s (zlen b) peek cap) as Hst. destruct (control_rights _ _ _ _ _) as [got w2].
  exists (l1 ++ took w1 s peek). cbn. eapply runs_trans; [exact H1|]. by apply runs_one.
Qed.
Lemma reachable_step log w log' w' : reachable log w → step w log' w' → reachable (log ++ log') w'.
Proof. intros [f Hr] Hs. exists f. by eapply runs_more. Qed.

(** ** Readiness *)

(** What makes a reader return: bytes, the end of the connection, a message, a connection to
    accept, and objects without bytes for [recvmsg] only *)
Definition readable (control : bool) w s : bool := watched control w.(socks) s PollableEvent.CanBeRead.

Lemma conn_ready_eq w s x o e : w.(socks) !! s = Some o → o.(state) = UnixSocketState.Stream x → is_event_ready w s e = conn_ready true w.(socks) x e.
Proof.
  intros Hs Ho. unfold is_event_ready, conn_ready. rewrite Hs. change (state <$> Some o) with (Some (state o)). rewrite Ho. by destruct e; rewrite ?live_peer_eq.
Qed.

Lemma readable_is_ready w s : readable true w s = is_event_ready w s PollableEvent.CanBeRead.
Proof.
  unfold readable, watched. destruct (socks w !! s) as [o|] eqn:Hs; [|unfold is_event_ready; by rewrite Hs].
  destruct (state o) as [| | | |x|] eqn:Ho; [..|by erewrite conn_ready_eq|]; unfold is_event_ready; rewrite Hs; change (state <$> Some o) with (Some (state o)); by rewrite Ho.
Qed.

Lemma watched_is_ready w s x : stream_of w s = Some x → ∀ e, watched true w.(socks) s e = is_event_ready w s e.
Proof. intros (o & Hs & Ho)%stream_of_Some e. unfold watched. by rewrite Hs, Ho, (conn_ready_eq w s x o). Qed.

(** A step that makes a socket ready wakes those who wait for that. *)
Lemma edge_is_announced c w log w' s e : well_formed w → step w log w' → guard w.(socks) w.(next_socket) s e → silent_rights c log s e →
  watched c w.(socks) s e = false → watched c w'.(socks) s e = true → (s, e) ∈ new_wakes w w'.
Proof.
  intros Hok Hs Hg Hr H0 H1. destruct (step_does _ _ _ Hok Hs) as (ws & Hw & Hc). unfold new_wakes. rewrite Hw, drop_app_length.
  destruct (changes_told c _ _ _ _ _ _ s e Hok Hg Hr Hc H1) as [H2|]; [congruence|done].
Qed.

Lemma read_sleeps s len nonblocking peek control w w1 : read_try s len nonblocking peek control w = Sleep w1 →
  w1 = w ∧ nonblocking = false ∧ readable control w s = false ∧
  match state <$> w.(socks) !! s with Some (UnixSocketState.Stream _ | UnixSocketState.Datagram _) => True | _ => False end.
Proof.
  unfold read_try, readable, watched. destruct (socks w !! s) as [o|] eqn:Hs; [|done]. change (state <$> Some o) with (Some (state o)).
  destruct (state o) as [| | |d|x|] eqn:Ho; try done.
  - destruct (dg_read_shutdown d); [done|]. destruct (recv_queue d) eqn:Hq; [|done]. destruct nonblocking; [done|]. intros [= <-]. cbn. by rewrite Hq.
  - destruct (read_shutdown x); [done|]. assert (read_stream x s len nonblocking peek control w = Sleep w1 →
      w1 = w ∧ nonblocking = false ∧ conn_ready control (socks w) x PollableEvent.CanBeRead = false ∧ True) as Hstream.
    { unfold read_stream. cbn. rewrite <- live_peer_eq. destruct (bool_decide (recv_buf x = [])); cbn [negb andb orb]; [|rewrite andb_false_r; by destruct peek].
      rewrite andb_true_r. destruct (control && has_front_rights x); [done|]. destruct (bool_decide (live_peer w x = None)); [done|]. destruct (peer_write_closed x); [done|].
      destruct nonblocking; [done|]. by intros [= <-]. }
    destruct (kind o); [done|done|]. destruct (pending_packets x); [done|]. by destruct peek.
Qed.

Lemma read_returns s len nonblocking peek control w : readable control w s = true → stream_of w s ≠ None ∨ datagram_of w s ≠ None →
  ∃ r w', read_try s len nonblocking peek control w = Return r w'.
Proof.
  intros Hr Hst. destruct (read_try s len nonblocking peek control w) as [r w'|w'] eqn:E; [by exists r, w'|]. apply read_sleeps in E as (_ & _ & E & _). congruence.
Qed.

Lemma write_sleeps s buffer nonblocking objects w w1 : buffer ≠ [] → write_try s buffer nonblocking objects w = Sleep w1 →
  w1 = w ∧ ∃ x, stream_of w s = Some x ∧ is_event_ready w s PollableEvent.CanBeWritten = false.
Proof.
  intros Hb. unfold write_try. destruct (socks w !! s) as [o|] eqn:Hs; [|done]. rewrite (bool_decide_eq_false_2 (buffer = [])) by done. cbn [andb].
  unfold write_stream_try. destruct (state o) as [| | | |x|] eqn:Ho; try done. destruct (write_shutdown x) eqn:Hws; [done|].
  destruct (live_peer w x) as [[p y]|] eqn:Hl; [|done]. destruct (read_shutdown y) eqn:Hrs; [done|]. cbv zeta.
  set (packet := bool_decide (kind o = UnixSocketKind.SeqPacket)). set (n := if packet then _ else _). destruct (packet && _); [done|].
  assert (0 < zlen buffer) as Hlen by (destruct buffer; [done|unfold zlen; cbn; lia]).
  destruct (_ || _) eqn:Hsend; [done|]. apply orb_false_iff in Hsend as [Hn _]. apply Z.ltb_ge in Hn. destruct nonblocking; [done|]. intros [= <-]. split; [done|].
  exists x. split; [apply stream_of_Some; by exists o|]. rewrite (conn_ready_eq w s x o) by done. unfold conn_ready. rewrite Hws, <- live_peer_eq, Hl, Hrs. cbn.
  apply Z.ltb_ge. subst n. unfold sat_sub in Hn. destruct packet; lia.
Qed.

Lemma write_returns s buffer nonblocking objects w x : buffer ≠ [] → stream_of w s = Some x → is_event_ready w s PollableEvent.CanBeWritten = true →
  ∃ r w', write_try s buffer nonblocking objects w = Return r w'.
Proof.
  intros Hb Hx Hr. destruct (write_try s buffer nonblocking objects w) as [r w'|w'] eqn:E; [by exists r, w'|].
  destruct (write_sleeps _ _ _ _ _ _ Hb E) as (_ & _ & _ & ?). congruence.
Qed.

(** ** The theorems *)

(** C13. At any time of any interleaving of the socket calls of [step]: each end of a connection
    points at another socket that, while it lives, is a connection of the same kind that
    points back; the buffer of a stream holds at most 64 KiB; a packet socket's packets make
    up its buffer; a listener holds no more connections than its backlog, each alive, and
    none of them is held by another. *)
Theorem ends_face_each_other log w : reachable log w → well_formed w.
Proof. apply reachable_good. Qed.

(** C12. What one end of a stream connection sent, in the order of the calls, is what the other
    end, while connected, received followed by what lies in its buffer: no byte is lost,
    doubled or moved by any interleaving of readers, writers and the other calls of [step]. *)
Theorem bytes_arrive_in_order log w s o x p : reachable log w → w.(socks) !! s = Some o → o.(kind) = UnixSocketKind.Stream →
  o.(state) = UnixSocketState.Stream x → x.(peer) = Some p →
  concat (sent_by log p) = concat (got_by log s) ++ x.(recv_buf).
Proof.
  intros Hr Hs Hk Ho Hp. destruct (reachable_good _ _ Hr) as [_ Hh]. pose proof (h_flow _ _ _ Hh s o x p Hs Ho Hp) as Hf. by rewrite Hk in Hf.
Qed.

(** On a packet connection each receive takes one packet, of which it gets the start, in
    the order in which the packets were sent; the packets not yet taken are in the buffer,
    whole and with their lengths. *)
Lemma packets_arrive_in_order log w s o x p : reachable log w → w.(socks) !! s = Some o → o.(kind) = UnixSocketKind.SeqPacket →
  o.(state) = UnixSocketState.Stream x → x.(peer) = Some p →
  ∃ taken left, sent_by log p = taken ++ left ∧ Forall2 prefix (got_by log s) taken ∧ concat left = x.(recv_buf) ∧ map zlen left = x.(pending_packets).
Proof.
  intros Hr Hs Hk Ho Hp. destruct (reachable_good _ _ Hr) as [_ Hh]. pose proof (h_flow _ _ _ Hh s o x p Hs Ho Hp) as Hf. by rewrite Hk in Hf.
Qed.

(** A reader sleeps only while there is nothing to read, and the step of another thread
    after which there is something (bytes, a message, the end of the connection; objects for
    [recvmsg]) wakes it, and its next pass returns. *)
Lemma sleeping_reader_is_woken log0 w s len nonblocking peek control w1 log w' : reachable log0 w →
  read_try s len nonblocking peek control w = Sleep w1 → step w1 log w' → Took s ∉ log → readable control w' s = true →
  readable control w1 s = false ∧ (s, PollableEvent.CanBeRead) ∈ new_wakes w1 w' ∧ ∃ r w'', read_try s len nonblocking peek control w' = Return r w''.
Proof.
  intros Hr Hsleep Hstep Hnt Hready. destruct (reachable_good _ _ Hr) as [Hok _]. destruct (read_sleeps _ _ _ _ _ _ _ Hsleep) as (-> & _ & Hno & _). split; [done|]. split.
  - apply (edge_is_announced control w log); [done|done|by left|by right; right|done|done].
  - destruct (read_try s len nonblocking peek control w') as [r w''|w''] eqn:E; [by exists r, w''|]. apply read_sleeps in E as (_ & _ & E & _). congruence.
Qed.

(** A writer with something to write sleeps only while the other end is alive, reads and
    has a full buffer, and the step of another thread after which it can go on wakes it, and
    its next pass returns. *)
Lemma sleeping_writer_is_woken log0 w s buffer nonblocking objects w1 log w' : reachable log0 w → buffer ≠ [] →
  write_try s buffer nonblocking objects w = Sleep w1 → step w1 log w' → is_Some (stream_of w' s) → is_event_ready w' s PollableEvent.CanBeWritten = true →
  is_event_ready w1 s PollableEvent.CanBeWritten = false ∧ (s, PollableEvent.CanBeWritten) ∈ new_wakes w1 w' ∧
  ∃ r w'', write_try s buffer nonblocking objects w' = Return r w''.
Proof.
  intros Hr Hb Hsleep Hstep [x' Hx'] Hready. destruct (reachable_good _ _ Hr) as [Hok _]. destruct (write_sleeps _ _ _ _ _ _ Hb Hsleep) as (-> & x & Hx & Hno). split; [done|]. split; [|by eapply write_returns].
  apply stream_of_Some in Hx as Hx2. destruct Hx2 as (o & Hs & Ho). apply (edge_is_announced true w log); [done|done| |by right; left|by rewrite (watched_is_ready w s x)|by rewrite (watched_is_ready w' s x')].
  right. by rewrite Hs, Ho.
Qed.

(** The same for [accept] *)
Lemma sleeping_acceptor_is_woken log0 w s w1 log w' : reachable log0 w → accept_try s w = Sleep w1 → step w1 log w' → Took s ∉ log →
  is_event_ready w' s PollableEvent.CanBeRead = true → (s, PollableEvent.CanBeRead) ∈ new_wakes w1 w'.
Proof.
  intros Hr Hsleep Hstep Hnt Hready. destruct (reachable_good _ _ Hr) as [Hok _].
  assert (w1 = w ∧ readable true w s = false) as [-> Hno].
  { unfold accept_try in Hsleep. unfold readable, watched. destruct (socks w !! s) as [o|]; [|done]. destruct (state o) as [| |l| | |]; try done. cbn.
    destruct (pending l); [|done]. destruct (is_nonblocking o); [done|]. by injection Hsleep. }
  apply (edge_is_announced true w log); [done|done|by left|by right; right|done|]. by rewrite <- readable_is_ready in Hready.
Qed.
End traffic.

(** ** A small file system, and runs of a connection *)

(** Nodes by name; a name that does not start with a slash is of the directory [/h]. *)
Abbreviation Nodes := (gmap (list byte) Z).

Definition resolve_name (name : list byte) : list byte :=
  match name with b :: _ => if bool_decide (b = Byte.x2f) then name else [Byte.x2f; Byte.x68; Byte.x2f] ++ name | [] => [] end.

Definition node_create (f : Nodes) (name : list byte) : result FSError unit * Nodes :=
  match f !! name with Some _ => (Err FSError.AlreadyExists, f) | None => (Ok tt, <[name := Z.of_nat (size f)]> f) end.

Definition node_delete (f : Nodes) (name : list byte) : result FSError unit * Nodes :=
  match f !! name with Some _ => (Ok tt, delete name f) | None => (Err FSError.NotFound, f) end.

#[export] Instance node_env : SocketEnv Nodes := {
  create_socket_path f name := node_create f (resolve_name name);
  delete_socket_path f name := node_delete f (resolve_name name);
  delete_unresolved_path f name := node_delete f (match name with b :: _ => if bool_decide (b = Byte.x2f) then name else Byte.x2f :: name | [] => [] end);
  socket_path_key f name := i ← f !! resolve_name name; Some (1, i);
  run_socket_filter _ _ := true;
}.

Section example.
#[local] Abbreviation a := Byte.x61.
#[local] Abbreviation b := Byte.x62.
#[local] Abbreviation c := Byte.x63.

Definition pair_of (kind : Z) : Sockets Nodes := (socketpair (no_sockets ∅) AF_UNIX kind 0 cred_default).2.
Definition wrote (kind : Z) : Sockets Nodes := after (write_try 0 [a; b; c] true [] (pair_of kind)).
Definition read_two (kind : Z) : Sockets Nodes := after (read_try 1 2 true false false (wrote kind)).

Lemma read_two_reachable kind : kind ∈ [SOCK_STREAM; SOCK_SEQPACKET] → reachable [Sent 0 [a; b; c]; Received 1 [a; b]] (read_two kind).
Proof.
  intros Hk. exists ∅. change [Sent 0 [a; b; c]; Received 1 [a; b]] with ((([] ++ []) ++ [Sent 0 [a; b; c]]) ++ [Received 1 [a; b]]).
  apply (runs_more _ _ (wrote kind)); [apply (runs_more _ _ (pair_of kind)); [apply (runs_more _ _ (no_sockets ∅)); [apply runs_done|apply step_pair]|]|].
  - pose proof (step_write (pair_of kind) 0 [a; b; c] true []) as Hs. replace (said _ _ _) with [Sent 0 [a; b; c]] in Hs; [done|].
    repeat (apply elem_of_cons in Hk as [->|Hk]; [by vm_compute|]). by apply elem_of_nil in Hk.
  - pose proof (step_read (wrote kind) 1 2 true false false ltac:(lia)) as Hs. replace (heard _ _ _) with [Received 1 [a; b]] in Hs; [done|].
    repeat (apply elem_of_cons in Hk as [->|Hk]; [by vm_compute|]). by apply elem_of_nil in Hk.
Qed.

Lemma ends_face_each_other_witness : reachable [Sent 0 [a; b; c]; Received 1 [a; b]] (read_two SOCK_STREAM) ∧ well_formed (read_two SOCK_STREAM).
Proof. assert (reachable [Sent 0 [a; b; c]; Received 1 [a; b]] (read_two SOCK_STREAM)) as H by (apply read_two_reachable; by left). split; [exact H|exact (ends_face_each_other _ _ H)]. Defined.

Definition half_read (packets : list Z) : UnixStreamInner := mkStream [c] [] packets (Some 0) cred_default false false false false None None None.

Lemma bytes_arrive_in_order_witness : concat (sent_by [Sent 0 [a; b; c]; Received 1 [a; b]] 0) = concat (got_by [Sent 0 [a; b; c]; Received 1 [a; b]] 1) ++ [c].
Proof.
  apply (bytes_arrive_in_order _ (read_two SOCK_STREAM) 1 (mkSocket UnixSocketKind.Stream (UnixSocketState.Stream (half_read [])) 0 false 0 None cred_default) (half_read []) 0);
    [apply read_two_reachable; by left|by vm_compute|done|done|done].
Defined.

(** The rest of a packet that was read in part is gone. *)
Definition empty_end : UnixStreamInner := mkStream [] [] [] (Some 0) cred_default false false false false None None None.

Lemma packets_arrive_in_order_witness : ∃ taken left, sent_by [Sent 0 [a; b; c]; Received 1 [a; b]] 0 = taken ++ left ∧
  Forall2 prefix (got_by [Sent 0 [a; b; c]; Received 1 [a; b]] 1) taken ∧ concat left = [] ∧ map zlen left = [].
Proof.
  apply (packets_arrive_in_order _ (read_two SOCK_SEQPACKET) 1 (mkSocket UnixSocketKind.SeqPacket (UnixSocketState.Stream empty_end) 0 false 0 None cred_default) empty_end 0);
    [apply read_two_reachable; by right; left|by vm_compute|done|done|done].
Defined.

Lemma pair_reachable kind : reachable [] (pair_of kind).
Proof. exists ∅. apply (runs_one (no_sockets ∅)), step_pair. Qed.

Lemma sleeping_reader_is_woken_witness : read_try 1 2 false false false (pair_of SOCK_STREAM) = Sleep (pair_of SOCK_STREAM) ∧
  (1, PollableEvent.CanBeRead) ∈ new_wakes (pair_of SOCK_STREAM) (wrote SOCK_STREAM).
Proof.
  split; [reflexivity|].
  apply (sleeping_reader_is_woken [] (pair_of SOCK_STREAM) 1 2 false false false (pair_of SOCK_STREAM) (said 0 [a; b; c] (write_try 0 [a; b; c] true [] (pair_of SOCK_STREAM))));
    [apply pair_reachable|reflexivity|apply step_write|vm_compute; set_solver|reflexivity].
Defined.

(** A buffer that one write filled *)
Definition filled : Sockets Nodes := after (write_try 0 (repeat a (Z.to_nat STREAM_RECV_CAPACITY)) true [] (pair_of SOCK_STREAM)).

Lemma filled_reachable : ∃ log, reachable log filled.
Proof. eexists. eapply reachable_step; [apply pair_reachable|]. apply step_write. Qed.

Lemma filled_sleeps : ∃ w1, write_try 0 [b] false [] filled = Sleep w1.
Proof.
  assert (match write_try 0 [b] false [] filled with Sleep _ => true | _ => false end = true) as Hs by (vm_compute; reflexivity).
  destruct (write_try 0 [b] false [] filled) as [r w1|w1]; [done|by exists w1].
Qed.

Lemma sleeping_writer_is_woken_witness : ∃ w1, write_try 0 [b] false [] filled = Sleep w1 ∧
  (0, PollableEvent.CanBeWritten) ∈ new_wakes w1 (after (read_try 1 1 true false false filled)).
Proof.
  destruct filled_sleeps as [w1 Hs], filled_reachable as [log Hr]. exists w1. split; [exact Hs|]. destruct (write_sleeps 0 [b] false [] filled w1 ltac:(done) Hs) as [E _].
  assert (step w1 (heard filled 1 (read_try 1 1 true false false filled)) (after (read_try 1 1 true false false filled))) as Hst by (rewrite E; by apply step_read).
  apply (sleeping_writer_is_woken log filled 0 [b] false [] w1 _ _ Hr ltac:(done) Hs Hst);
    [unfold is_Some; exists (mkStream [] [] [] (Some 1) cred_default false false false false None None None); vm_compute; reflexivity|vm_compute; reflexivity].
Defined.
End example.
