(* ===== verification/UnixSocketNames.v ===== *)
(** * Unix domain sockets: names

    The text of a name after [from_utf8_lossy], and an address that [getsockname] fills in
    and [bind] or [connect] reads again. *)

From stdpp Require Import strings.
From S2P Require Import Prelude Errors Blocking Polling UnixSocket.

Open Scope Z_scope.

(** A character is known by its own bytes. *)
Lemma piece_ext l l' n : (∀ i, (i < n)%nat → byte_at l i = byte_at l' i) → utf8_piece l = (n, true) → utf8_piece l' = (n, true).
Proof.
  intros Hext Hl. assert ((1 <= n)%nat) as Hn by (unfold utf8_piece in Hl; repeat case_match; injection Hl; lia).
  unfold utf8_piece in *.
  rewrite <- (Hext 0%nat) by lia. set (b := byte_at l 0%nat) in *.
  destruct (in_range 0 127 b); [done|]. destruct (in_range 194 223 b).
  { destruct (in_range 128 191 (byte_at l 1)) eqn:E; [|done]. injection Hl as <-. by rewrite <- (Hext 1%nat), E by lia. }
  destruct (in_range 224 239 b).
  { destruct (_ || _ || _ || _) eqn:E in Hl; [|done]. destruct (in_range 128 191 (byte_at l 2)) eqn:E2; [|done]. injection Hl as <-.
    rewrite <- (Hext 1%nat), <- (Hext 2%nat), E, E2 by lia. done. }
  destruct (in_range 240 244 b); [|done]. destruct (_ || _ || _) eqn:E in Hl; [|done]. destruct (in_range 128 191 (byte_at l 2)) eqn:E2; [|done].
  destruct (in_range 128 191 (byte_at l 3)) eqn:E3; [|done]. injection Hl as <-. rewrite <- (Hext 1%nat), <- (Hext 2%nat), <- (Hext 3%nat), E, E2, E3 by lia. done.
Qed.

Lemma tail_inside l i : in_range 128 191 (byte_at l i) = true → (i < length l)%nat.
Proof. unfold byte_at. destruct (l !! i) eqn:E; [intros _; by eapply lookup_lt_Some|done]. Qed.

Lemma utf8_piece_bounds l n v : utf8_piece l = (n, v) → (1 <= n)%nat ∧ (l ≠ [] → v = true → (n <= length l)%nat).
Proof.
  intros Hl. assert (l ≠ [] → (1 <= length l)%nat) as H1 by (by destruct l; cbn; [|lia]). unfold utf8_piece in Hl.
  repeat (case_match; try (injection Hl as <- <-; split; [lia|intros ? [=]; auto]));
    repeat match goal with E : in_range 128 191 (byte_at l _) = true |- _ => apply tail_inside in E end; lia.
Qed.

Lemma piece_prefix l r n : l ≠ [] → utf8_piece l = (n, true) → utf8_piece (take n l ++ r) = (n, true) ∧ take n (take n l ++ r) = take n l.
Proof.
  intros Hne Hl. destruct (utf8_piece_bounds _ _ _ Hl) as [_ Hn]. specialize (Hn Hne eq_refl). assert (length (take n l) = n) as Hlen by (rewrite length_take; lia). split.
  - apply (piece_ext l); [|done]. intros i Hi. unfold byte_at. rewrite lookup_app_l by lia. by rewrite lookup_take_lt.
  - by rewrite take_app_length'.
Qed.

Lemma replacement_piece r : utf8_piece (REPLACEMENT ++ r) = (3%nat, true).
Proof. apply (piece_ext REPLACEMENT); [|done]. intros i Hi. unfold byte_at. by rewrite lookup_app_l by (cbn; lia). Qed.

(** ** Reading a text *)

Lemma lossy_fuel fuel l : (length l <= fuel)%nat → utf8_lossy_in fuel l = from_utf8_lossy l.
Proof.
  unfold from_utf8_lossy. remember (length l) as k eqn:Hk. intros Hle.
  assert (∀ k l f, (length l <= k)%nat → (k <= f)%nat → utf8_lossy_in f l = utf8_lossy_in k l) as Hstable; [|by apply Hstable; subst].
  clear. induction k as [|k IH]; intros l f Hl Hf; [destruct l; [by destruct f|cbn in Hl; lia]|]. destruct f as [|f]; [lia|]. destruct l as [|b l]; [done|].
  cbn [utf8_lossy_in]. destruct (utf8_piece (b :: l)) as [n v] eqn:E. destruct (utf8_piece_bounds _ _ _ E) as [Hn _]. f_equal. apply IH; [|lia]. rewrite length_drop. cbn in *. lia.
Qed.

Lemma lossy_step l n v : l ≠ [] → utf8_piece l = (n, v) → from_utf8_lossy l = (if v then take n l else REPLACEMENT) ++ from_utf8_lossy (drop n l).
Proof.
  intros Hne E. destruct l as [|b l]; [done|]. unfold from_utf8_lossy at 1. cbn [length utf8_lossy_in]. rewrite E. f_equal. apply lossy_fuel.
  destruct (utf8_piece_bounds _ _ _ E) as [Hn _]. rewrite length_drop. cbn. lia.
Qed.

(** Induction over the pieces of a text *)
Lemma pieces_ind (P : list byte → Prop) : P [] → (∀ l n v, l ≠ [] → utf8_piece l = (n, v) → P (drop n l) → P l) → ∀ l, P l.
Proof.
  intros H0 HS l. remember (length l) as k eqn:Hk. revert l Hk. induction (lt_wf k) as [k _ IH]. intros l ->. destruct (decide (l = [])) as [->|Hne]; [done|].
  destruct (utf8_piece l) as [n v] eqn:E. destruct (utf8_piece_bounds _ _ _ E) as [Hn _]. apply (HS l n v Hne E). apply (IH (length (drop n l))); [|done].
  rewrite length_drop. destruct l; [done|cbn; lia].
Qed.

(** A text that was read is read as it is. *)
Lemma lossy_idempotent l : from_utf8_lossy (from_utf8_lossy l) = from_utf8_lossy l.
Proof.
  induction l as [|l n v Hne E IH] using pieces_ind; [done|]. rewrite (lossy_step l n v Hne E). set (rest := from_utf8_lossy (drop n l)) in *. destruct v.
  - destruct (piece_prefix l rest n Hne E) as [H1 H2]. destruct (utf8_piece_bounds _ _ _ E) as [Hn Hle]. specialize (Hle Hne eq_refl).
    assert (length (take n l) = n) as Hlen by (rewrite length_take; lia).
    rewrite (lossy_step _ n true), H2, drop_app_length', IH; [done|done| |done]. intros [Hnil _]%app_nil. rewrite Hnil in Hlen. cbn in Hlen. lia.
  - rewrite (lossy_step _ 3%nat true); [|done|apply replacement_piece]. cbn [REPLACEMENT take drop app]. by rewrite drop_0, take_0, IH.
Qed.

Lemma lossy_no_zero l : x00 ∉ l → x00 ∉ from_utf8_lossy l.
Proof.
  induction l as [|l n v Hne E IH] using pieces_ind; [done|]. intros Hl. rewrite (lossy_step l n v Hne E), elem_of_app. intros [Hz|Hz].
  - destruct v; [apply Hl; rewrite <- (take_drop n l), elem_of_app; by left|]. unfold REPLACEMENT in Hz. set_solver.
  - apply IH; [|done]. intros Hz'. apply Hl. rewrite <- (take_drop n l), elem_of_app. by right.
Qed.

Lemma lossy_nonempty l : l ≠ [] → from_utf8_lossy l ≠ [].
Proof.
  intros Hne. destruct (utf8_piece l) as [n v] eqn:E. rewrite (lossy_step l n v Hne E). destruct (utf8_piece_bounds _ _ _ E) as [Hn _].
  destruct v, l; try done. by destruct n; [lia|].
Qed.

(** ** Addresses *)

Lemma until_zero_no_zero l : x00 ∉ until_zero l.
Proof. induction l as [|b l IH]; cbn; [by intros ?%elem_of_nil|]. case_bool_decide; [by intros ?%elem_of_nil|]. by intros [<-|]%elem_of_cons. Qed.

Lemma until_zero_padded l k : x00 ∉ l → (0 < k)%nat → until_zero (l ++ repeat x00 k) = l.
Proof.
  intros Hl Hk. induction l as [|b l IH]; cbn; [destruct k; [lia|done]|]. rewrite bool_decide_eq_false_2 by (intros ->; apply Hl; by left).
  f_equal. apply IH. intros Hz. apply Hl. by right.
Qed.

(** The name of an address that is no abstract one *)
Lemma parsed_name a name : parse_unix_socket_path a = Ok name → is_abstract name = false → name ≠ [] ∧ (x00 ∉ name) ∧ from_utf8_lossy name = name.
Proof.
  unfold parse_unix_socket_path. destruct (_ <? _); [done|]. set (path := take _ _). destruct path as [|b rest] eqn:Hpath; [done|].
  case_bool_decide as Hb; [subst b|].
  - case_bool_decide; [done|]. intros Hn. assert (name = from_utf8_lossy (x00 :: rest)) as -> by congruence. assert (utf8_piece (x00 :: rest) = (1%nat, true)) as E by done. rewrite (lossy_step (x00 :: rest) _ _ ltac:(done) E). done.
  - intros Hn _. assert (name = from_utf8_lossy (until_zero (b :: rest))) as -> by congruence. split_and!; [apply lossy_nonempty; cbn; by rewrite bool_decide_eq_false_2|apply lossy_no_zero, until_zero_no_zero|apply lossy_idempotent].
Qed.

(** The name that a path address names is read back, the same, from the address that
    [getsockname] and [getpeername] make of it, whatever bytes the first address held. *)
Lemma address_round_trip a name : parse_unix_socket_path a = Ok name → is_abstract name = false → zlen name < SOCKADDR_UN_PATH_LEN →
  parse_unix_socket_path (serialize_unix_addr (Some name)) = Ok name.
Proof.
  intros Ha Hab Hlen. destruct (parsed_name a name Ha Hab) as (Hne & Hz & Hl). unfold serialize_unix_addr. rewrite Hab. unfold SOCKADDR_UN_PATH_LEN in *.
  replace (Z.min (zlen name) (108 - 1)) with (zlen name) by lia. rewrite (firstn_all2 name) by (unfold zlen; lia).
  unfold parse_unix_socket_path. set (pad := repeat x00 _). assert (length pad = Z.to_nat (108 - zlen name)) as Hpad by apply repeat_length.
  replace (zlen (le_encode 2 AF_UNIX ++ name ++ pad) <? SA_FAMILY_LEN) with false by (symmetry; apply Z.ltb_ge; unfold zlen; rewrite !length_app; change SA_FAMILY_LEN with 2; change (length (le_encode 2 AF_UNIX)) with 2%nat; lia).
  assert (drop (Z.to_nat SA_FAMILY_LEN) (le_encode 2 AF_UNIX ++ name ++ pad) = name ++ pad) as -> by done.
  rewrite (firstn_all2 (name ++ pad)) by (rewrite length_app, Hpad; unfold zlen in *; change (Z.to_nat SOCKADDR_UN_PATH_LEN) with 108%nat; lia).
  destruct name as [|b name]; [done|]. cbn [app]. rewrite bool_decide_eq_false_2 by (intros ->; apply Hz; by left).
  change (b :: name ++ pad) with ((b :: name) ++ pad). subst pad. rewrite until_zero_padded; [by rewrite Hl|done|lia].
Qed.

Lemma address_round_trip_witness :
  let a := [Byte.x01; x00; Byte.x2f; Byte.xff; Byte.x61; x00; Byte.x62] in
  parse_unix_socket_path a = Ok (Byte.x2f :: REPLACEMENT ++ [Byte.x61]) ∧ parse_unix_socket_path (serialize_unix_addr (Some (Byte.x2f :: REPLACEMENT ++ [Byte.x61]))) = Ok (Byte.x2f :: REPLACEMENT ++ [Byte.x61]).
Proof. intros a. split; [reflexivity|]. by apply (address_round_trip a). Defined.
