(* ===== verification/UnixFindings.v ===== *)
(** * Unix domain sockets: what concrete runs show

    Runs of steps that differ from what the code, its comments or the interfaces it
    implements say. *)

From stdpp Require Import strings.
From S2P Require Import Prelude Errors Blocking Polling UnixSocket UnixSocketProps UnixSocketChanges UnixSocketRuns UnixSocketTraffic.

Open Scope Z_scope.

(** The nodes [/s] and [/h/s], and an abstract name *)
#[local] Abbreviation root_s := [Byte.x2f; Byte.x73].
#[local] Abbreviation home_s := [Byte.x2f; Byte.x68; Byte.x2f; Byte.x73].
#[local] Abbreviation just_s := [Byte.x73].

Definition with_nodes (f : Nodes) : Sockets Nodes := no_sockets f.
Definition made (kind : Z) (w : Sockets Nodes) : Sockets Nodes := (create w AF_UNIX kind 0 cred_default).2.
Definition named (s : Z) (name : list byte) (w : Sockets Nodes) : Sockets Nodes := (bind_socket w s name).2.
Definition listening (s n : Z) (w : Sockets Nodes) : Sockets Nodes := (listen w s n).2.

(** ** Names in the file system *)

(** [bind] takes the node of a regular file for a stale socket, deletes it and puts its own
    there. *)
Lemma bind_replaces_file :
  let w := made SOCK_STREAM (with_nodes {[ root_s := 7 ]}) in
  (bind_socket w 0 root_s).1 = Ok tt ∧ (named 0 root_s w).(files) !! root_s = Some 0.
Proof. vm_compute. by split. Qed.

(** The end of a socket with a relative name deletes that name below the root and leaves the
    node of the socket. *)
Lemma drop_deletes_other_file :
  let w := drop_socket (named 0 just_s (made SOCK_STREAM (with_nodes {[ root_s := 7 ]}))) 0 in
  w.(files) !! root_s = None ∧ w.(files) !! home_s = Some 1.
Proof. vm_compute. by split. Qed.

(** A connection that a listener made keeps the listener's name; when it ends while another
    socket has bound that name and does not listen yet, the name is taken from that socket. *)
Definition server_gone : Sockets Nodes :=
  let w := listening 0 1 (named 0 [x00; Byte.x73] (made SOCK_STREAM (made SOCK_STREAM (with_nodes ∅)))) in
  let w := (connect w 1 [x00; Byte.x73] cred_default).2 in
  let w := drop_socket (after (accept_try 0 w)) 0 in
  named 3 [x00; Byte.x73] (made SOCK_STREAM w).

Lemma old_connection_takes_name :
  (listen server_gone 3 1).1 = Ok tt ∧ (listen (drop_socket server_gone 2) 3 1).1 = Err SocketError.InvalidArguments.
Proof. vm_compute. by split. Qed.

(** An abstract name is filled up with zeros in an address and read back with them. *)
Lemma abstract_name_grows :
  parse_unix_socket_path (serialize_unix_addr (Some [x00; Byte.x73])) = Ok ([x00; Byte.x73] ++ repeat x00 106).
Proof. vm_compute. reflexivity. Qed.

(** ** Sleepers *)

(** [shutdown] of the reading half wakes nobody who sleeps in a read of the same socket, though
    the read would return the end of the file. *)
Lemma shutdown_leaves_own_reader :
  let w := pair_of SOCK_STREAM in
  read_try 1 2 false false false w = Sleep w ∧ new_wakes w (shutdown w 1 0).2 = [(0, PollableEvent.CanBeWritten)] ∧
  match read_try 1 2 false false false (shutdown w 1 0).2 with Return (Ok []) _ => True | _ => False end.
Proof. split; [reflexivity|]. by split. Qed.

(** While objects without bytes wait, a plain read has nothing to return and its socket counts
    as readable, so the read polls in a loop instead of sleeping. *)
Definition object_sent : Sockets Nodes := after (write_try 0 [] false [5] (pair_of SOCK_STREAM)).

Lemma reader_spins_on_objects :
  read_try 1 2 false false false object_sent = Sleep object_sent ∧ is_event_ready object_sent 1 PollableEvent.CanBeRead = true.
Proof. split; reflexivity. Qed.

(** Taking a message off a datagram socket wakes no sender that waits for room. *)
Lemma datagram_reader_wakes_nobody {F} `{SocketEnv F} (w : Sockets F) s len nonblocking peek control d : datagram_of w s = Some d →
  (after (read_try s len nonblocking peek control w)).(wakes) = w.(wakes).
Proof.
  intros (o & Hs & Ho)%datagram_of_Some. unfold read_try. rewrite Hs, Ho. destruct (dg_read_shutdown d); [done|]. destruct (recv_queue d); [by destruct nonblocking|].
  cbn [after]. unfold set_datagram. by rewrite (set_state_eq _ _ o).
Qed.

(** An empty packet with an object is never sent: the writer waits for room that is there. *)
Lemma empty_packet_waits :
  let w := pair_of SOCK_SEQPACKET in
  write_try 0 [] false [5] w = Sleep w ∧ is_event_ready w 0 PollableEvent.CanBeWritten = true.
Proof. split; reflexivity. Qed.

(** ** Objects *)

(** A plain read moves the bytes and leaves the places of the objects: the object that came
    with the second byte is handed out with the fourth. *)
Definition two_sent : Sockets Nodes :=
  after (write_try 0 [Byte.x63; Byte.x64] true [] (after (write_try 0 [Byte.x62] true [5] (after (write_try 0 [Byte.x61] true [] (pair_of SOCK_STREAM)))))).

Lemma plain_read_misplaces_objects :
  let w := after (read_try 1 2 true false false two_sent) in
  let w := after (read_try 1 1 true false true w) in
  (control_rights w 1 1 false 64).1 = [] ∧
  let w := (control_rights w 1 1 false 64).2 in
  (control_rights (after (read_try 1 1 true false true w)) 1 1 false 64).1 = [5].
Proof. split; reflexivity. Qed.

(** Objects for which the control buffer has no room are gone. *)
Lemma objects_without_room_are_lost :
  let '(got, w) := control_rights object_sent 1 0 false 8 in got = [] ∧ (control_rights w 1 0 false 64).1 = [].
Proof. vm_compute. by split. Qed.

(** ** Kinds and backlogs *)

(** A packet socket connects to a stream listener; the end that is accepted is a packet
    socket. *)
Lemma connect_mixes_kinds :
  let w := listening 0 1 (named 0 [x00; Byte.x73] (made SOCK_SEQPACKET (made SOCK_STREAM (with_nodes ∅)))) in
  (connect w 1 [x00; Byte.x73] cred_default).1 = Ok tt.
Proof. vm_compute. reflexivity. Qed.

(** A blocking connect to a listener whose backlog is full fails with EAGAIN, which is the
    answer for a socket that does not block. *)
Lemma full_backlog_refuses_blocking :
  let w := listening 0 1 (named 0 [x00; Byte.x73] (made SOCK_STREAM (made SOCK_STREAM (made SOCK_STREAM (with_nodes ∅))))) in
  let w := (connect w 1 [x00; Byte.x73] cred_default).2 in
  (is_nonblocking <$> w.(socks) !! 2) = Some false ∧ (connect w 2 [x00; Byte.x73] cred_default).1 = Err SocketError.TryAgain.
Proof. vm_compute. by split. Qed.
