(* ===== verification/PageCache.v ===== *)
(** * The page cache of files

    filesystem/page_cache.rs: clusters of sixteen pages of file contents by device, inode and
    position, with second-chance eviction, and reads through them; that evictions end and make
    room, and that a cluster holds the bytes of its file, against the laws of [FilesLaws].  The files are the class
    [Files] of what the trait [File] (filesystem/vfs_traits.rs) offers; a file is named by a
    number where the code has a shared handle. *)

From S2P Require Import Prelude Errors Tmpfs.

Open Scope Z_scope.

(** ** Files *)

(** [file_identity]: the inode and the size that [page_cache_identity] reads from [info], of a
    regular file whose contents are not generated.  [fifo]: whether the mode is that of a
    pipe.  Reads give the bytes that they put at the start of the buffer, whose length they
    take; a write takes the buffer and counts what it took. *)
Class Files (W : Type) := {
  file_identity : W → Z → option (Z * Z);
  fifo : W → Z → result FSError bool;
  vfs_read_at : W → Z → Z → Z → result FSError (list byte) * W;
  vfs_read : W → Z → Z → result FSError (list byte) * W;
  vfs_write : W → Z → list byte → result FSError Z * W;
  vfs_seek : W → Z → Z → Whence → result FSError Z * W;
  vfs_truncate : W → Z → Z → result FSError unit * W;
  vfs_allocate : W → Z → Z → Z → Z → result FSError unit * W;
}.

(** ** The cache *)

Definition PAGE_SIZE : Z := 4096.
Definition FILE_CACHE_CLUSTER_PAGES : Z := 16.
Definition MAX_CACHED_PAGES : Z := 16384.
Definition MAX_CACHED_CLUSTERS : Z := MAX_CACHED_PAGES / FILE_CACHE_CLUSTER_PAGES.

(** Device and inode *)
Abbreviation FileCacheKey := (Z * Z)%type.

Record FileCacheIdentity := mkIdentity { identity_file : FileCacheKey; size : Z }.

Definition FileCacheIdentity_new (device_id inode size : Z) : FileCacheIdentity := mkIdentity (device_id, inode) size.

(** File and number of the cluster *)
Abbreviation CachedClusterKey := (FileCacheKey * Z)%type.

Record CachedCluster := mkCluster { data : list byte; valid_len : Z }.

Record CachedClusterEntry := mkEntry { cluster : CachedCluster; referenced : bool }.

Record PageCacheState := mkCache {
  entries : gmap CachedClusterKey CachedClusterEntry;
  eviction_queue : list CachedClusterKey;
}.

Definition cache_new : PageCacheState := mkCache ∅ [].

Definition touch (c : PageCacheState) (key : CachedClusterKey) : PageCacheState :=
  match c.(entries) !! key with
  | Some e => mkCache (<[key := mkEntry e.(cluster) true]> c.(entries)) c.(eviction_queue)
  | None => c
  end.

(** [fuel]: one more than the queue is long. *)
Fixpoint evict_loop (fuel : nat) (c : PageCacheState) : PageCacheState :=
  match fuel, c.(eviction_queue) with
  | S fuel, candidate :: rest =>
      match c.(entries) !! candidate with
      | None => evict_loop fuel (mkCache c.(entries) rest)
      | Some e =>
          if e.(referenced) then evict_loop fuel (mkCache (<[candidate := mkEntry e.(cluster) false]> c.(entries)) (rest ++ [candidate]))
          else mkCache (delete candidate c.(entries)) rest
      end
  | _, _ => c
  end.

Definition evict_one (c : PageCacheState) : PageCacheState := evict_loop (S (length c.(eviction_queue))) c.

Definition entry_count (c : PageCacheState) : Z := Z.of_nat (base.size c.(entries)).

(** [fuel]: one more than there are entries. *)
Fixpoint make_room (fuel : nat) (c : PageCacheState) : PageCacheState :=
  match fuel with
  | O => c
  | S fuel =>
      if MAX_CACHED_CLUSTERS <=? entry_count c then
        let c' := evict_one c in
        if entry_count c' =? entry_count c then c' else make_room fuel c'
      else c
  end.

Definition insert (c : PageCacheState) (key : CachedClusterKey) (x : CachedCluster) : PageCacheState :=
  let c :=
    match c.(entries) !! key with
    | Some _ => c
    | None => let c := make_room (S (base.size c.(entries))) c in mkCache c.(entries) (c.(eviction_queue) ++ [key])
    end in
  mkCache (<[key := mkEntry x true]> c.(entries)) c.(eviction_queue).

Definition invalidate_file (c : PageCacheState) (file : FileCacheKey) : PageCacheState :=
  mkCache (filter (λ ke, ke.1.1 ≠ file) c.(entries)) c.(eviction_queue).

(** ** Loading *)

Definition cluster_len : Z := PAGE_SIZE * FILE_CACHE_CLUSTER_PAGES.

Definition cluster_index_for_page (page_index : Z) : Z := page_index / FILE_CACHE_CLUSTER_PAGES.
Definition page_offset_in_cluster (page_index : Z) : Z := page_index mod FILE_CACHE_CLUSTER_PAGES * PAGE_SIZE.

Section cache.
Context {W : Type} `{Files W}.
Implicit Types (w : W) (c : PageCacheState) (f : Z).

(** The loop of [load_cluster]; each round but the last gets a byte, so [fuel] is one more
    than the bytes that are wanted. *)
Fixpoint load_loop (fuel : nat) w f (start target_len : Z) (got : list byte) : result FSError (list byte) * W :=
  match fuel with
  | O => (Ok got, w)
  | S fuel =>
      if zlen got <? target_len then
        match vfs_read_at w f (target_len - zlen got) (start + zlen got) with
        | (Err e, w) => (Err e, w)
        | (Ok b, w) => if bool_decide (b = []) then (Ok got, w) else load_loop fuel w f start target_len (got ++ b)
        end
      else (Ok got, w)
  end.

Definition load_cluster w f (cluster_offset file_size : Z) : result FSError CachedCluster * W :=
  let target_len := Z.min cluster_len (sat_sub file_size cluster_offset) in
  match load_loop (S (Z.to_nat target_len)) w f cluster_offset target_len [] with
  | (Err e, w) => (Err e, w)
  | (Ok got, w) => (Ok (mkCluster (got ++ repeat x00 (Z.to_nat (cluster_len - zlen got))) (zlen got)), w)
  end.

(** [was_hit]; the cycle counts are for profiling. *)
Record CachedClusterRead := mkRead { read_data : list byte; read_valid_len : Z; was_hit : bool }.

(** The first and the last part of [get_or_load_cluster], each under the lock of the cache;
    between them the cluster is loaded under the lock of the file. *)
Definition lookup_cluster c (key : CachedClusterKey) : option CachedClusterRead * PageCacheState :=
  match c.(entries) !! key with
  | Some e => (Some (mkRead e.(cluster).(data) e.(cluster).(valid_len) true), touch c key)
  | None => (None, c)
  end.

Definition publish_cluster c (key : CachedClusterKey) (x : CachedCluster) : CachedClusterRead * PageCacheState :=
  match lookup_cluster c key with
  | (Some r, c) => (r, c)
  | (None, c) => (mkRead x.(data) x.(valid_len) false, insert c key x)
  end.

Definition get_or_load_cluster c w f (file_key : FileCacheKey) (page_index file_size : Z) : result FSError CachedClusterRead * PageCacheState * W :=
  let key := (file_key, cluster_index_for_page page_index) in
  match lookup_cluster c key with
  | (Some r, c) => (Ok r, c, w)
  | (None, c) =>
      match load_cluster w f (cluster_index_for_page page_index * cluster_len) file_size with
      | (Err e, w) => (Err e, c, w)
      | (Ok x, w) => let '(r, c) := publish_cluster c key x in (Ok r, c, w)
      end
  end.

Definition read_page_from_cluster (r : CachedClusterRead) (page_index : Z) : CachedClusterRead :=
  mkRead r.(read_data) (Z.min PAGE_SIZE (sat_sub r.(read_valid_len) (page_offset_in_cluster page_index))) r.(was_hit).

Definition read_page c w f (id : FileCacheIdentity) (page_index : Z) : result FSError CachedClusterRead * PageCacheState * W :=
  match get_or_load_cluster c w f id.(identity_file) page_index id.(size) with
  | (Err e, c, w) => (Err e, c, w)
  | (Ok r, c, w) => (Ok (read_page_from_cluster r page_index), c, w)
  end.

Definition read_cluster c w f (id : FileCacheIdentity) (page_index : Z) : result FSError CachedClusterRead * PageCacheState * W :=
  get_or_load_cluster c w f id.(identity_file) page_index id.(size).

(** The loop of [read]: the bytes of a page are taken from the data of its cluster at the
    offset in the page.  Each round copies a byte, so [fuel] is one more than the length. *)
Fixpoint read_loop (fuel : nat) c w f (id : FileCacheIdentity) (len current_offset : Z) (got : list byte) : result FSError (list byte) * PageCacheState * W :=
  match fuel with
  | O => (Ok got, c, w)
  | S fuel =>
      if (zlen got <? len) && (current_offset <? id.(size)) then
        let page_offset := current_offset mod PAGE_SIZE in
        match read_page c w f id (current_offset / PAGE_SIZE) with
        | (Err e, c, w) => (Err e, c, w)
        | (Ok page, c, w) =>
            let available := sat_sub page.(read_valid_len) page_offset in
            if available =? 0 then (Ok got, c, w)
            else
              let copy_len := Z.min available (len - zlen got) in
              read_loop fuel c w f id len (current_offset + copy_len) (got ++ zslice page.(read_data) page_offset (page_offset + copy_len))
        end
      else (Ok got, c, w)
  end.

(** [read] into a buffer of [len] bytes *)
Definition read c w f (id : FileCacheIdentity) (len offset : Z) : result FSError (list byte) * PageCacheState * W :=
  if len =? 0 then (Ok [], c, w)
  else if id.(size) <=? offset then (Ok [], c, w)
  else read_loop (S (Z.to_nat len)) c w f id len offset [].
End cache.

(** ** Eviction *)

Definition queued (c : PageCacheState) : Prop := ∀ k, is_Some (c.(entries) !! k) → k ∈ c.(eviction_queue).

(** What is left of a cache: entries may go and flags change, clusters do not. *)
Definition part_of (c' c : PageCacheState) : Prop :=
  ∀ k e', c'.(entries) !! k = Some e' → ∃ e, c.(entries) !! k = Some e ∧ e'.(cluster) = e.(cluster).

#[export] Instance part_of_preorder : PreOrder part_of.
Proof.
  split.
  - intros c k e He. by exists e.
  - intros c1 c2 c3 H12 H23 k e He. destruct (H12 k e He) as (e2 & H2 & E2). destruct (H23 k e2 H2) as (e3 & H3 & E3). exists e3. split; [done|congruence].
Qed.

Lemma part_of_flag c k e b q : c.(entries) !! k = Some e → part_of (mkCache (<[k := mkEntry e.(cluster) b]> c.(entries)) q) c.
Proof. intros Hk k' e'. cbn. intros [[<- <-]|[_ ?]]%lookup_insert_Some; eauto. Qed.

Lemma part_of_delete c k q : part_of (mkCache (delete k c.(entries)) q) c.
Proof. intros k' e'. cbn. intros [_ ?]%lookup_delete_Some; eauto. Qed.

Lemma touch_part c k : part_of (touch c k) c.
Proof. unfold touch. destruct (entries c !! k) as [e|] eqn:Hk; [by apply part_of_flag|done]. Qed.

(** The entries whose second chance is over stand at the end of the queue. *)
Definition spent (c : PageCacheState) (b : list CachedClusterKey) : Prop := ∀ k, k ∈ b → ∃ e, c.(entries) !! k = Some e ∧ e.(referenced) = false.

(** What an eviction leaves of [c]: one entry fewer *)
Definition evicted (c c' : PageCacheState) : Prop := part_of c' c ∧ queued c' ∧ (base.size c'.(entries) + 1 = base.size c.(entries))%nat.

Lemma evict_loop_spec a b fuel c : c.(eviction_queue) = a ++ b → spent c b → queued c → c.(entries) ≠ ∅ → (length a < fuel)%nat → evicted c (evict_loop fuel c).
Proof.
  revert b fuel c. induction a as [|k a IH]; intros b fuel c Hq Hb Hin Hne Hf; (destruct fuel as [|fuel]; [cbn in Hf; lia|]); cbn [evict_loop]; rewrite Hq; cbn [app].
  - destruct b as [|k b].
    + destruct (map_choose _ Hne) as (k & e & Hk). specialize (Hin k ltac:(eauto)). rewrite Hq in Hin. by apply elem_of_nil in Hin.
    + destruct (Hb k ltac:(by left)) as (e & Hk & He). rewrite Hk, He. split_and!; [apply part_of_delete| |].
      * intros k' [e' Hk']; cbn in Hk'; apply lookup_delete_Some in Hk' as [Hne' Hk']. specialize (Hin k' ltac:(eauto)). rewrite Hq in Hin. apply elem_of_cons in Hin as [->|?]; [done|done].
      * cbn. rewrite map_size_delete_Some by eauto. assert (base.size (entries c) ≠ 0)%nat by (intros E; by apply map_size_empty_inv in E). lia.
  - destruct (entries c !! k) as [e|] eqn:Hk; [destruct (referenced e) eqn:He|].
    + assert (entries c !! k = Some e) as Hk' by done. set (c1 := mkCache (<[k := mkEntry (cluster e) false]> (entries c)) ((a ++ b) ++ [k])).
      destruct (IH (b ++ [k]) fuel c1) as (H1 & H2 & H3).
      * cbn. by rewrite app_assoc.
      * intros k' [Hk2|Hk2]%elem_of_app.
        -- destruct (Hb k' Hk2) as (e' & He' & Hr). cbn. destruct (decide (k = k')) as [<-|]; [rewrite lookup_insert_eq; eauto|rewrite lookup_insert_ne by done; eauto].
        -- apply list_elem_of_singleton in Hk2 as ->. cbn. rewrite lookup_insert_eq. eauto.
      * intros k' [e' Hk2]. cbn in *. assert (k' ∈ c.(eviction_queue)) as Hin' by (apply Hin; apply lookup_insert_Some in Hk2 as [[<- _]|[_ ?]]; eauto). rewrite Hq in Hin'.
        apply elem_of_cons in Hin' as [->|Hin']; rewrite elem_of_app; [right; by left|by left].
      * cbn. apply insert_non_empty.
      * cbn in Hf. lia.
      * split_and!; [etransitivity; [exact H1|by apply part_of_flag]|done|]. rewrite H3. cbn. by rewrite map_size_insert_Some by eauto.
    + split_and!; [apply part_of_delete| |].
      * intros k' [e' Hk']; cbn in Hk'; apply lookup_delete_Some in Hk' as [Hne' Hk']. specialize (Hin k' ltac:(eauto)). rewrite Hq in Hin. apply elem_of_cons in Hin as [->|?]; [done|done].
      * cbn. rewrite map_size_delete_Some by eauto. assert (base.size (entries c) ≠ 0)%nat by (intros E; by apply map_size_empty_inv in E). lia.
    + destruct (IH b fuel (mkCache (entries c) (a ++ b))) as (H1 & H2 & H3); [done|done| |done|cbn in Hf; lia|by split_and!].
      intros k' Hk'. specialize (Hin k' Hk'). rewrite Hq in Hin. apply elem_of_cons in Hin as [->|?]; [cbn in Hk'; rewrite Hk in Hk'; by destruct Hk'|done].
Qed.

Lemma evict_one_spec c : queued c → c.(entries) ≠ ∅ → evicted c (evict_one c).
Proof.
  intros Hq Hne. unfold evict_one. apply (evict_loop_spec c.(eviction_queue) []); [by rewrite app_nil_r|by intros k ?%elem_of_nil|done|done|lia].
Qed.

Lemma make_room_spec fuel c : queued c → (base.size c.(entries) < fuel)%nat → let c' := make_room fuel c in part_of c' c ∧ queued c' ∧ entry_count c' < MAX_CACHED_CLUSTERS.
Proof.
  revert c. induction fuel as [|fuel IH]; intros c Hq Hf; [lia|]. cbn [make_room]. cbv zeta. destruct (Z.leb_spec MAX_CACHED_CLUSTERS (entry_count c)) as [Hle|Hlt]; [|by split_and!].
  assert (c.(entries) ≠ ∅) as Hne by (intros E; unfold entry_count in Hle; rewrite E, map_size_empty in Hle; vm_compute in Hle; by apply Hle).
  destruct (evict_one_spec c Hq Hne) as (H1 & H2 & H3). replace (entry_count (evict_one c) =? entry_count c) with false by (symmetry; apply Z.eqb_neq; unfold entry_count; lia).
  destruct (IH (evict_one c)) as (H4 & H5 & H6); [done|lia|]. split_and!; [by etransitivity|done|done].
Qed.

(** A cache within its bounds *)
Definition bounded (c : PageCacheState) : Prop := queued c ∧ entry_count c <= MAX_CACHED_CLUSTERS.

Lemma bounded_new : bounded cache_new.
Proof. split; [intros k Hk; exfalso; exact (lookup_empty_is_Some k Hk)|done]. Qed.

Lemma touch_bounded c k : bounded c → bounded (touch c k).
Proof.
  intros [Hq Hb]. unfold touch. destruct (entries c !! k) as [e|] eqn:Hk; [|done]. split.
  - intros k' [e' Hk']; cbn in Hk'; apply lookup_insert_Some in Hk' as [[<- _]|[_ ?]]; apply Hq; eauto.
  - unfold entry_count in *. cbn. by rewrite map_size_insert_Some by eauto.
Qed.

Lemma insert_spec c k x : bounded c → bounded (insert c k x) ∧
  ∀ k' e', (insert c k x).(entries) !! k' = Some e' → k' = k ∧ e'.(cluster) = x ∨ ∃ e, c.(entries) !! k' = Some e ∧ e'.(cluster) = e.(cluster).
Proof.
  intros [Hq Hb]. unfold insert. destruct (entries c !! k) as [e|] eqn:Hk.
  - split; [split|].
    + intros k' [e' Hk']; cbn in Hk'; apply lookup_insert_Some in Hk' as [[<- _]|[_ ?]]; apply Hq; eauto.
    + unfold entry_count in *. cbn. by rewrite map_size_insert_Some by eauto.
    + intros k' e'; cbn; intros [[<- <-]|[_ ?]]%lookup_insert_Some; [by left|eauto].
  - destruct (make_room_spec (S (base.size (entries c))) c Hq ltac:(lia)) as (H1 & H2 & H3). set (c1 := make_room _ c) in *. split; [split|].
    + intros k' [e' Hk']; cbn in *; rewrite elem_of_app; apply lookup_insert_Some in Hk' as [[<- _]|[_ Hk']]; [right; by left|left; apply H2; eauto].
    + unfold entry_count in *. cbn [entries]. assert (entries c1 !! k = None) as Hno.
      { destruct (entries c1 !! k) as [e1|] eqn:E; [|done]. destruct (H1 k e1 E) as (e2 & He2 & _). congruence. }
      rewrite map_size_insert_None by done. lia.
    + intros k' e'; cbn; intros [[<- <-]|[_ Hk']]%lookup_insert_Some; [by left|right]. by apply H1.
Qed.

Lemma invalidate_file_lookup c f k e : (invalidate_file c f).(entries) !! k = Some e ↔ c.(entries) !! k = Some e ∧ k.1 ≠ f.
Proof. unfold invalidate_file. cbn. by rewrite map_lookup_filter_Some. Qed.

Lemma invalidate_file_bounded c f : bounded c → bounded (invalidate_file c f).
Proof.
  intros [Hq Hb]. split.
  - intros k [e [Hk _]%invalidate_file_lookup]. apply Hq. eauto.
  - unfold entry_count in *. etransitivity; [|exact Hb]. cbn. apply inj_le. apply map_subseteq_size, map_filter_subseteq.
Qed.

Lemma publish_bounded c k x : bounded c → bounded (publish_cluster c k x).2.
Proof.
  intros Hb. unfold publish_cluster, lookup_cluster. destruct (entries c !! k); [by apply touch_bounded|by apply insert_spec].
Qed.

(** ** Files with contents *)

(** The file behind a handle, by device and inode, the bytes of a file, the position of a
    handle, and what the file systems keep *)
Class FileContents (W : Type) := {
  file_at : W → Z → option FileCacheKey;
  file_bytes : W → FileCacheKey → list byte;
  position : W → Z → Z;
  files_ok : W → Prop;
}.

Section contents.
Context {W : Type} `{FileContents W}.

(** Only the bytes of the file [k], if any, are other ones. *)
Definition changes_only (k : option FileCacheKey) (w w' : W) : Prop :=
  (∀ f, file_at w' f = file_at w f) ∧ (∀ k', k ≠ Some k' → file_bytes w' k' = file_bytes w k') ∧ (files_ok w → files_ok w').

#[export] Instance changes_only_preorder k : PreOrder (changes_only k).
Proof.
  split; [done|]. intros w1 w2 w3 (A1 & B1 & C1) (A2 & B2 & C2). split; [intros f; by rewrite A2|]. split; [intros k' Hk; by rewrite B2, B1|]. eauto.
Qed.

Lemma changes_weaken k w w' : changes_only None w w' → changes_only k w w'.
Proof. intros (H1 & H2 & H3). split; [done|]. split; [|done]. intros k' _. by apply H2. Qed.
End contents.

(** What the cache relies on: the identity of a file is its inode and its length; a read at
    an offset gets bytes of the file from there, at least one unless it is at the end; every
    other operation changes the bytes of its own file only.  Seeking answers the position,
    a write that fits below 2^64 moves it by its count. *)
Class FilesLaws (W : Type) `{Files W} `{FileContents W} : Prop := {
  law_identity : ∀ (w : W) f, files_ok w → file_identity w f = (λ k, (k.2, zlen (file_bytes w k))) <$> file_at w f;
  law_read_at : ∀ (w : W) f k len off r w', files_ok w → file_at w f = Some k → 0 <= off → vfs_read_at w f len off = (r, w') → changes_only None w w' ∧
    ∀ b, r = Ok b → b = zslice (file_bytes w k) off (off + zlen b) ∧ zlen b <= Z.max 0 len ∧ (0 < len → off < zlen (file_bytes w k) → b ≠ []);
  law_read_at_uncached : ∀ (w : W) f len off, changes_only None w (vfs_read_at w f len off).2;
  law_read : ∀ (w : W) f len, changes_only None w (vfs_read w f len).2;
  law_seek : ∀ (w : W) f off whence r w', vfs_seek w f off whence = (r, w') → changes_only None w w' ∧
    ∀ p, r = Ok p → position w' f = p ∧ (whence = Whence.Start → p = off);
  law_write : ∀ (w : W) f b r w', position w f + zlen b < 2 ^ 64 → vfs_write w f b = (r, w') → changes_only (file_at w f) w w' ∧
    ∀ n, r = Ok n → 0 <= n <= zlen b ∧ position w' f <= position w f + n;
  law_truncate : ∀ (w : W) f n, 0 <= n < 2 ^ 64 → changes_only (file_at w f) w (vfs_truncate w f n).2;
  law_allocate : ∀ (w : W) f mode off n, 0 <= off → 0 <= n → changes_only (file_at w f) w (vfs_allocate w f mode off n).2;
}.

(** ** Clusters that agree with their files *)

Definition cluster_bytes (l : list byte) (i : Z) : list byte := zslice l (i * cluster_len) (i * cluster_len + cluster_len).

(** The bytes, filled up with zeros *)
Definition holds (data : list byte) (valid : Z) (l : list byte) : Prop := valid = zlen l ∧ data = l ++ repeat x00 (Z.to_nat (cluster_len - zlen l)).

Lemma zlen_zslice_min {A} (l : list A) a b : 0 <= a → a <= b → zlen (zslice l a b) = Z.min (b - a) (Z.max 0 (zlen l - a)).
Proof. intros Ha Hb. unfold zslice, zlen. rewrite length_take, length_drop. lia. Qed.

Section current.
Context {W : Type} `{FilesLaws W}.
Implicit Types (w : W) (c : PageCacheState) (f : Z) (k : FileCacheKey).

Definition current c w : Prop := ∀ k i e, c.(entries) !! (k, i) = Some e → holds e.(cluster).(data) e.(cluster).(valid_len) (cluster_bytes (file_bytes w k) i).

Lemma current_part c c' w : part_of c' c → current c w → current c' w.
Proof. intros Hp Hc k i e' He'. destruct (Hp _ _ He') as (e & He & ->). by apply Hc. Qed.

Lemma current_same c w w' : changes_only None w w' → current c w → current c w'.
Proof. intros (_ & Hb & _) Hc k i e He. rewrite Hb by done. by apply Hc. Qed.

(** Dropping the clusters of a file lets its bytes change. *)
Lemma current_changed c w w' k : current c w → changes_only (Some k) w w' → current (invalidate_file c k) w'.
Proof. intros Hc (_ & Hb & _) k' i e [He Hne]%invalidate_file_lookup. rewrite Hb by (intros [= <-]; done). by apply Hc. Qed.

Lemma load_loop_spec fuel w f k start target got : files_ok w → file_at w f = Some k → 0 <= start → target <= Z.max 0 (zlen (file_bytes w k) - start) →
  zlen got <= Z.max 0 target → got = zslice (file_bytes w k) start (start + zlen got) → target - zlen got < Z.of_nat fuel →
  let '(r, w') := load_loop fuel w f start target got in changes_only None w w' ∧ ∀ b, r = Ok b → b = zslice (file_bytes w k) start (start + Z.max 0 target).
Proof.
  revert w got. induction fuel as [|fuel IH]; intros w got Hok Hf Hs Ht Hg Hgot Hfu; cbn [load_loop]; pose proof (zlen_nonneg got).
  - split; [done|]. intros b [= <-]. by replace (Z.max 0 target) with (zlen got) by lia.
  - destruct (Z.ltb_spec (zlen got) target) as [Hlt|Hge].
    2:{ split; [done|]. intros b [= <-]. by replace (Z.max 0 target) with (zlen got) by lia. }
    destruct (vfs_read_at w f (target - zlen got) (start + zlen got)) as [r w1] eqn:Hr.
    destruct (law_read_at w f k (target - zlen got) (start + zlen got) r w1 Hok Hf ltac:(lia) Hr) as [Hsame Hb]. destruct r as [b|e]; [|by split].
    destruct (Hb b eq_refl) as (Hb1 & Hb2 & Hb3). case_bool_decide as Hnil; [exfalso; apply Hb3; [lia|lia|done]|].
    assert (0 < zlen b) by (unfold zlen; destruct b; [done|cbn; lia]). destruct Hsame as (Hat & Hby & Hst).
    assert (zlen (got ++ b) = zlen got + zlen b) as Hlen by (unfold zlen; rewrite length_app; lia).
    assert (file_bytes w1 k = file_bytes w k) as Hk by (by apply Hby).
    specialize (IH w1 (got ++ b)). rewrite Hat, Hk, Hlen in IH. specialize (IH (Hst Hok) Hf Hs Ht ltac:(lia)).
    destruct (load_loop fuel w1 f start target (got ++ b)) as [r2 w2] eqn:E. destruct IH as [IH1 IH2]; [|lia|].
    + rewrite Hgot at 1. rewrite Hb1 at 1. replace (start + (zlen got + zlen b)) with (start + zlen got + zlen b) by lia. by rewrite zslice_app by lia.
    + split; [etransitivity; [by split|done]|done].
Qed.

Lemma zslice_clip {A} (l : list A) a n : 0 <= a → 0 <= n → zslice l a (a + n) = zslice l a (a + Z.min n (Z.max 0 (zlen l - a))).
Proof.
  intros Ha Hn. unfold zslice. replace (Z.to_nat (a + n - a)) with (Z.to_nat n) by lia.
  replace (Z.to_nat (a + Z.min n (Z.max 0 (zlen l - a)) - a)) with (Nat.min (Z.to_nat n) (length (drop (Z.to_nat a) l))) by (unfold zlen; rewrite length_drop; lia).
  destruct (Nat.min_spec (Z.to_nat n) (length (drop (Z.to_nat a) l))) as [[_ ->]|[Hle ->]]; [done|]. rewrite (firstn_all2 (n:=Z.to_nat n)) by lia. by rewrite firstn_all.
Qed.

Lemma load_cluster_spec w f k i : files_ok w → file_at w f = Some k → 0 <= i →
  let '(r, w') := load_cluster w f (i * cluster_len) (zlen (file_bytes w k)) in changes_only None w w' ∧
  ∀ x, r = Ok x → holds x.(data) x.(valid_len) (cluster_bytes (file_bytes w k) i).
Proof.
  intros Hok Hf Hi. unfold load_cluster, sat_sub. assert (0 < cluster_len) by done. set (size := zlen (file_bytes w k)). set (target := Z.min cluster_len _).
  assert (target <= Z.max 0 (size - i * cluster_len)) as Ht by (subst target; lia). assert (0 <= target) by (subst target; lia).
  pose proof (load_loop_spec (S (Z.to_nat target)) w f k (i * cluster_len) target [] Hok Hf ltac:(lia) Ht) as Hl.
  destruct (load_loop _ w f _ target []) as [r w']. destruct Hl as [Hsame Hb]; [change (zlen (@nil byte)) with 0; lia| |change (zlen (@nil byte)) with 0; lia|].
  { unfold zslice. change (zlen (@nil byte)) with 0. by replace (i * cluster_len + 0 - i * cluster_len) with 0 by lia. }
  destruct r as [got|e]; split; try done. intros x [= <-]. cbn. specialize (Hb got eq_refl). replace (Z.max 0 target) with target in Hb by lia.
  assert (got = cluster_bytes (file_bytes w k) i) as Hgot.
  { rewrite Hb. unfold cluster_bytes. rewrite (zslice_clip _ _ cluster_len) by lia. f_equal; subst target; fold size; lia. }
  split; by rewrite Hgot.
Qed.

Lemma current_insert c w k i x : bounded c → current c w → holds x.(data) x.(valid_len) (cluster_bytes (file_bytes w k) i) → current (insert c (k, i) x) w.
Proof.
  intros Hb Hc Hx k' i' e' He'. destruct (insert_spec c (k, i) x Hb) as [_ Hsub]. destruct (Hsub _ _ He') as [[[= -> ->] ->]|(e & He & ->)]; [done|by apply Hc].
Qed.

Lemma lookup_cluster_spec c w k i : bounded c → current c w → let '(r, c') := lookup_cluster c (k, i) in bounded c' ∧ current c' w ∧
  ∀ x, r = Some x → holds x.(read_data) x.(read_valid_len) (cluster_bytes (file_bytes w k) i).
Proof.
  intros Hb Hc. unfold lookup_cluster. destruct (entries c !! (k, i)) as [e|] eqn:He; [|by split_and!].
  split_and!; [by apply touch_bounded|by eapply current_part; [apply touch_part|]|]. intros x [= <-]. cbn. by apply Hc.
Qed.

(** A cluster that is looked up or loaded holds the bytes of the file. *)
Lemma get_or_load_spec c w f k page : files_ok w → file_at w f = Some k → bounded c → current c w → 0 <= page →
  let '(r, c', w') := get_or_load_cluster c w f k page (zlen (file_bytes w k)) in
  changes_only None w w' ∧ bounded c' ∧ current c' w' ∧
  ∀ x, r = Ok x → holds x.(read_data) x.(read_valid_len) (cluster_bytes (file_bytes w k) (cluster_index_for_page page)).
Proof.
  intros Hok Hf Hb Hc Hp. unfold get_or_load_cluster. set (i := cluster_index_for_page page). assert (0 <= i) as Hi by (by apply Z.div_pos).
  pose proof (lookup_cluster_spec c w k i Hb Hc) as Hl. destruct (lookup_cluster c (k, i)) as [[r|] c1]; destruct Hl as (Hb1 & Hc1 & Hx).
  - split_and!; [done..|]. intros x [= <-]. by apply Hx.
  - pose proof (load_cluster_spec w f k i Hok Hf Hi) as Hload. destruct (load_cluster _ _ _ _) as [[x|e] w1]; destruct Hload as [Hsame Hx1].
    2:{ split_and!; [done|done|by eapply current_same|done]. }
    specialize (Hx1 x eq_refl). assert (file_bytes w1 k = file_bytes w k) as Hk by (by apply Hsame).
    assert (current c1 w1) as Hc2 by (by eapply current_same). unfold publish_cluster.
    pose proof (lookup_cluster_spec c1 w1 k i Hb1 Hc2) as Hl. destruct (lookup_cluster c1 (k, i)) as [[r|] c2]; destruct Hl as (Hb3 & Hc3 & Hx3).
    + split_and!; [done..|]. intros y [= <-]. rewrite <- Hk. by apply Hx3.
    + split_and!; [done|by apply insert_spec|apply current_insert; [done|done|by rewrite Hk]|]. intros y [= <-]. done.
Qed.

(** ** Reads *)

Lemma read_loop_keeps fuel c w f k len off got : files_ok w → file_at w f = Some k → 0 <= off →
  let '(r, c', w') := read_loop fuel c w f (mkIdentity k (zlen (file_bytes w k))) len off got in bounded c → current c w → changes_only None w w' ∧ bounded c' ∧ current c' w'.
Proof.
  revert c w off got. induction fuel as [|fuel IH]; intros c w off got Hok Hf Hoff; cbn [read_loop]; [done|]. destruct (_ && _) eqn:Hgo; [|done]. unfold read_page. cbn [size identity_file].
  pose proof (λ Hb Hc, get_or_load_spec c w f k (off / PAGE_SIZE) Hok Hf Hb Hc ltac:(by apply Z.div_pos)) as Hspec.
  destruct (get_or_load_cluster _ _ _ _ _ _) as [[[x|e] c1] w1]; [|by intros Hb Hc; destruct (Hspec Hb Hc) as (? & ? & ? & _)].
  set (available := sat_sub _ _). destruct (Z.eqb_spec available 0); [by intros Hb Hc; destruct (Hspec Hb Hc) as (? & ? & ? & _)|].
  destruct (read_loop fuel c1 w1 f _ len _ _) as [[r c2] w2] eqn:E. intros Hb Hc. destruct (Hspec Hb Hc) as ((Hat & Hby & Hst) & Hb1 & Hc1 & _).
  assert (file_bytes w1 k = file_bytes w k) as Hk by (by apply Hby). rewrite <- Hk in E. specialize (IH c1 w1).
  apply andb_true_iff in Hgo as [Hlen _]. apply Z.ltb_lt in Hlen. assert (0 <= available) by (subst available; unfold sat_sub; lia).
  match type of E with read_loop _ _ _ _ _ _ ?o ?g = _ => specialize (IH o g); rewrite Hat in IH; specialize (IH (Hst Hok) Hf ltac:(lia)); rewrite E in IH end.
  destruct (IH Hb1 Hc1) as (? & ? & ?). split_and!; [etransitivity; [by split|done]|done|done].
Qed.
Lemma read_keeps c w f k len off : files_ok w → file_at w f = Some k → 0 <= off → bounded c → current c w →
  let '(r, c', w') := read c w f (mkIdentity k (zlen (file_bytes w k))) len off in changes_only None w w' ∧ bounded c' ∧ current c' w'.
Proof.
  intros Hok Hf Hoff Hb Hc. unfold read. destruct (len =? 0); [done|]. destruct (_ <=? off); [done|].
  pose proof (read_loop_keeps (S (Z.to_nat len)) c w f k len off [] Hok Hf Hoff) as Hl. destruct (read_loop _ _ _ _ _ _ _ _) as [[r c'] w']. by apply Hl.
Qed.

Lemma zslice_cluster l i a b : 0 <= i → 0 <= a → a <= b → b <= cluster_len → zslice (cluster_bytes l i) a b = zslice l (i * cluster_len + a) (i * cluster_len + b).
Proof.
  intros Hi Ha Hab Hb. unfold cluster_bytes, zslice. assert (0 < cluster_len) by done. rewrite skipn_firstn_comm, drop_drop, firstn_firstn. f_equal; [lia|]. f_equal. lia.
Qed.

(** The byte that a read gets for the place [pos]: the place in the page, in the first page of
    the cluster. *)
Definition cached_byte (l : list byte) (pos : Z) : byte := default x00 (l !! Z.to_nat (pos / cluster_len * cluster_len + pos mod PAGE_SIZE)).

Lemma map_seqZ_shift {A} (g1 g2 : Z → A) a b n : (∀ j, 0 <= j < n → g1 (a + j) = g2 (b + j)) → map g1 (seqZ a n) = map g2 (seqZ b n).
Proof.
  intros Heq. unfold seqZ. rewrite <- !list_fmap_compose. apply list_fmap_ext. intros i j Hj. apply lookup_seq in Hj as [-> Hi]. cbn.
  rewrite (Z.add_comm _ a), (Z.add_comm _ b). apply Heq. lia.
Qed.

Lemma zslice_as_map (l : list byte) a n : 0 <= a → 0 <= n → a + n <= zlen l → zslice l a (a + n) = map (λ j, default x00 (l !! Z.to_nat j)) (seqZ a n).
Proof.
  intros Ha Hn Hl. unfold zslice, seqZ. rewrite <- list_fmap_compose. replace (a + n - a) with n by lia. unfold zlen in Hl. apply list_eq_same_length with (Z.to_nat n).
  - by rewrite length_fmap, length_seq.
  - rewrite length_take, length_drop. lia.
  - intros i x y Hi Hx Hy. rewrite lookup_take_lt, lookup_drop in Hx by lia. apply list_lookup_fmap_Some in Hy as (j & -> & Hj). apply lookup_seq in Hj as [-> _]. cbn.
    replace (Z.to_nat (Z.of_nat i + a)) with (Z.to_nat a + i)%nat by lia. by rewrite Hx.
Qed.

(** Where an offset is in its cluster, and what its page has from there *)
Lemma split_offset off : 0 <= off → let i := off / cluster_len in let pic := page_offset_in_cluster (off / PAGE_SIZE) in let po := off mod PAGE_SIZE in
  cluster_index_for_page (off / PAGE_SIZE) = i ∧ off = i * cluster_len + pic + po ∧ 0 <= i ∧ 0 <= pic ∧ pic + PAGE_SIZE <= cluster_len ∧ 0 <= po < PAGE_SIZE.
Proof.
  intros Hoff i pic po. assert (0 < PAGE_SIZE) as Hp by done. pose proof (Z.mod_pos_bound off PAGE_SIZE Hp) as Hpo. assert (0 <= i) as Hi by (by apply Z.div_pos).
  unfold i, pic, po, cluster_index_for_page, page_offset_in_cluster, cluster_len, FILE_CACHE_CLUSTER_PAGES, PAGE_SIZE in *.
  pose proof (Z.div_mod off 4096 ltac:(lia)). pose proof (Z.div_mod (off / 4096) 16 ltac:(lia)). pose proof (Z.mod_pos_bound (off / 4096) 16 ltac:(lia)).
  rewrite (Z.div_div off 4096 16) in * by lia. change (4096 * 16) with 65536 in *. lia.
Qed.

Lemma available_at l off : 0 <= off → off < zlen l →
  sat_sub (Z.min PAGE_SIZE (sat_sub (zlen (cluster_bytes l (off / cluster_len))) (page_offset_in_cluster (off / PAGE_SIZE)))) (off mod PAGE_SIZE) =
  Z.min (PAGE_SIZE - off mod PAGE_SIZE) (zlen l - off).
Proof.
  intros Hoff Hl. destruct (split_offset off Hoff) as (_ & Hs & Hi & Hp1 & Hp2 & Hpo). assert (0 <= off / cluster_len * cluster_len) by (by apply Z.mul_nonneg_nonneg).
  unfold cluster_bytes. rewrite zlen_zslice_min by lia. unfold sat_sub. lia.
Qed.

Lemma copied_bytes l data valid off n : 0 <= off → 0 <= n → n <= Z.min (PAGE_SIZE - off mod PAGE_SIZE) (zlen l - off) → holds data valid (cluster_bytes l (off / cluster_len)) →
  zslice data (off mod PAGE_SIZE) (off mod PAGE_SIZE + n) = map (cached_byte l) (seqZ off n).
Proof.
  intros Hoff Hn Hle [_ ->]. destruct (split_offset off Hoff) as (_ & Hs & Hi & Hp1 & Hp2 & Hpo). set (i := off / cluster_len) in *. set (po := off mod PAGE_SIZE) in *. set (pic := page_offset_in_cluster _) in *. assert (0 <= i * cluster_len) by (by apply Z.mul_nonneg_nonneg).
  assert (zlen (cluster_bytes l i) = Z.min cluster_len (Z.max 0 (zlen l - i * cluster_len))) as Hcl by (unfold cluster_bytes; rewrite zlen_zslice_min by lia; f_equal; lia).
  rewrite zslice_app_left by lia. rewrite zslice_cluster by lia. rewrite Z.add_assoc, zslice_as_map by lia. symmetry. apply map_seqZ_shift. intros j Hj. unfold cached_byte. do 3 f_equal.
  assert ((off + j) / cluster_len = i) as -> by (symmetry; apply Z.div_unique with (pic + po + j); lia).
  assert ((off + j) mod PAGE_SIZE = po + j) as ->; [|lia]. unfold po in *. rewrite <- Z.add_mod_idemp_l by done. apply Z.mod_small. lia.
Qed.

Lemma seqZ_map_app {A} (g : Z → A) a n m : 0 <= n → 0 <= m → map g (seqZ a n) ++ map g (seqZ (a + n) m) = map g (seqZ a (n + m)).
Proof. intros Hn Hm. rewrite seqZ_app by done. by rewrite map_app. Qed.

Lemma read_loop_gets fuel c w f k len off got : files_ok w → file_at w f = Some k → bounded c → current c w → 0 <= off → len - zlen got < Z.of_nat fuel →
  ∀ b, (read_loop fuel c w f (mkIdentity k (zlen (file_bytes w k))) len off got).1.1 = Ok b → b = got ++ map (cached_byte (file_bytes w k)) (seqZ off (Z.min (len - zlen got) (zlen (file_bytes w k) - off))).
Proof.
  revert c w off got. induction fuel as [|fuel IH]; intros c w off got Hok Hf Hb Hc Hoff Hfuel b; cbn [read_loop].
  - intros [= <-]. rewrite seqZ_nil by lia. cbn. by rewrite app_nil_r.
  - cbn [size]. set (l := file_bytes w k). destruct ((zlen got <? len) && (off <? zlen l)) eqn:Hgo.
    2:{ intros [= <-]. rewrite seqZ_nil by lia. cbn. by rewrite app_nil_r. }
    unfold read_page. cbn [size identity_file]. pose proof (get_or_load_spec c w f k (off / PAGE_SIZE) Hok Hf Hb Hc ltac:(by apply Z.div_pos)) as Hspec. fold l in Hspec.
    destruct (get_or_load_cluster _ _ _ _ _ _) as [[[x|e] c1] w1]; [|done]. destruct Hspec as ((Hat & Hby & Hst) & Hb1 & Hc1 & Hx). specialize (Hx x eq_refl).
    destruct (split_offset off Hoff) as (Hi & _ & _ & _ & _ & Hpo). rewrite Hi in Hx. unfold read_page_from_cluster. cbn [read_valid_len read_data].
    assert (read_valid_len x = zlen (cluster_bytes l (off / cluster_len))) as -> by apply Hx. rewrite available_at by lia. set (available := Z.min _ _).
    assert (0 < available) by (subst available; lia). replace (available =? 0) with false by lia. set (n := Z.min available (len - zlen got)).
    rewrite (copied_bytes l _ (read_valid_len x) off n) by (done || lia). assert (file_bytes w1 k = l) as Hk by (by apply Hby).
    assert (zlen (got ++ map (cached_byte l) (seqZ off n)) = zlen got + n) as Hlen by (unfold zlen; rewrite length_app, length_map, length_seqZ; lia).
    intros Hr. specialize (IH c1 w1 (off + n) (got ++ map (cached_byte l) (seqZ off n)) (Hst Hok)). rewrite Hat, Hk, Hlen in IH. rewrite (IH Hf Hb1 Hc1 ltac:(lia) ltac:(lia) b Hr).
    rewrite <- app_assoc. f_equal. rewrite seqZ_map_app by lia. do 2 f_equal. lia.
Qed.

(** A read gets, for each place up to its length and the end of the file, the byte at that
    place of the page in the first page of the cluster. *)
Lemma read_gets c w f k len off : files_ok w → file_at w f = Some k → bounded c → current c w → 0 <= off → 0 <= len →
  ∀ b, (read c w f (mkIdentity k (zlen (file_bytes w k))) len off).1.1 = Ok b → b = map (cached_byte (file_bytes w k)) (seqZ off (Z.min len (zlen (file_bytes w k) - off))).
Proof.
  intros Hok Hf Hb Hc Hoff Hlen b. unfold read. cbn [size]. destruct (Z.eqb_spec len 0) as [->|]; [intros [= <-]; by rewrite seqZ_nil by lia|].
  destruct (Z.leb_spec (zlen (file_bytes w k)) off); [intros [= <-]; by rewrite seqZ_nil by lia|].
  intros Hr. pose proof (read_loop_gets (S (Z.to_nat len)) c w f k len off [] Hok Hf Hb Hc Hoff) as Hl. change (zlen (@nil byte)) with 0 in Hl. rewrite Z.sub_0_r in Hl. apply Hl; [lia|done].
Qed.
End current.
