(* ===== verification/OpenFile.v ===== *)
(** * Open regular files

    filesystem/object.rs: the operations of [OpenedFileObject] on a regular file: reads at an
    offset go through the page cache, reads at the position do not, and what changes the file
    drops its clusters first.  Devices, directories and links behind an open file are not
    covered.  Whatever programs do with them, each by its own descriptor, the page cache
    holds the bytes that the files have, within its bounds. *)

From S2P Require Import Prelude Errors Tmpfs PageCache.

Open Scope Z_scope.

(** [file]: the handle of the backend, with its position *)
Record OpenedFile := mkOpened { file : Z; mount_device_id : Z; append : bool }.

Record FileWorld (W : Type) := mkWorld { page_cache : PageCacheState; files : W }.
Arguments mkWorld {W} page_cache files.
Arguments page_cache {W} f.
Arguments files {W} f.

Section files.
Context {W : Type} `{Files W}.
Implicit Types (x : FileWorld W) (o : OpenedFile).

Definition with_cache (c : PageCacheState) x : FileWorld W := mkWorld c x.(files).
Definition with_files (w : W) x : FileWorld W := mkWorld x.(page_cache) w.

(** An operation of the file, on its own *)
Definition on_files {A} (r : result FSError A * W) x : result FSError A * FileWorld W := (r.1, with_files r.2 x).

Definition page_cache_identity x o : option FileCacheIdentity :=
  i ← file_identity x.(files) o.(file); Some (FileCacheIdentity_new o.(mount_device_id) i.1 i.2).

Definition readonly_page_cache_file x o : option (Z * FileCacheIdentity) := id ← page_cache_identity x o; Some (o.(file), id).

Definition mapping_identity x o : option FileCacheKey := identity_file <$> page_cache_identity x o.

Definition invalidate_page_cache x o : FileWorld W :=
  match page_cache_identity x o with
  | Some id => with_cache (invalidate_file x.(page_cache) id.(identity_file)) x
  | None => x
  end.

(** ** Reading *)

Definition read_at x o (len offset : Z) : result FSError (list byte) * FileWorld W :=
  match readonly_page_cache_file x o with
  | Some (f, id) => let '(r, c, w) := PageCache.read x.(page_cache) x.(files) f id len offset in (r, mkWorld c w)
  | None => on_files (vfs_read_at x.(files) o.(file) len offset) x
  end.

(** [fuel]: one more than the length. *)
Fixpoint read_exact_loop (fuel : nat) x o (len offset : Z) (got : list byte) : result FSError (list byte) * FileWorld W :=
  match fuel with
  | O => (Ok got, x)
  | S fuel =>
      if zlen got <? len then
        match read_at x o (len - zlen got) (offset + zlen got) with
        | (Err e, x) => (Err e, x)
        | (Ok b, x) => if bool_decide (b = []) then (Err FSError.Other, x) else read_exact_loop fuel x o len offset (got ++ b)
        end
      else (Ok got, x)
  end.

Definition read_exact_at x o (len offset : Z) : result FSError (list byte) * FileWorld W := read_exact_loop (S (Z.to_nat len)) x o len offset [].

(** [Readable::read], at the position *)
Definition read x o (len : Z) : result FSError (list byte) * FileWorld W := on_files (vfs_read x.(files) o.(file) len) x.

(** ** Writing *)

(** [limit]: the file size limit of the process *)
Definition limit_write_len_for_rlimit (limit offset requested_len : Z) : result ObjectError Z :=
  if limit <=? offset then Err ObjectError.Other else Ok (Z.min requested_len (limit - offset)).

(** [fuel]: the length of the buffer; each round takes a byte. *)
Fixpoint write_all_loop (fuel : nat) (w : W) (f : Z) (buf : list byte) (written : Z) : result FSError Z * W :=
  match fuel, buf with
  | S fuel, _ :: _ =>
      match vfs_write w f buf with
      | (Err e, w) => (Err e, w)
      | (Ok count, w) => if count =? 0 then (Err FSError.NoSpace, w) else write_all_loop fuel w f (drop (Z.to_nat count) buf) (written + count)
      end
  | _, _ => (Ok written, w)
  end.

Definition write_all_to_cursor (w : W) (f : Z) (buf : list byte) (offset : Z) : result FSError Z * W :=
  match vfs_seek w f (swrap 64 offset) Whence.Start with
  | (Err e, w) => (Err e, w)
  | (Ok _, w) => write_all_loop (length buf) w f buf 0
  end.

(** The position is restored, whatever [action] answers. *)
Definition with_file_write_cursor {A} x o (invalidate_cache : bool) (action : W → result FSError A * W) : result FSError A * FileWorld W :=
  let x := if invalidate_cache then invalidate_page_cache x o else x in
  match vfs_seek x.(files) o.(file) 0 Whence.Current with
  | (Err e, w) => (Err e, with_files w x)
  | (Ok current, w) =>
      let '(r, w) := action w in
      (r, with_files (vfs_seek w o.(file) (swrap 64 current) Whence.Start).2 x)
  end.

Definition write_at x o (limit : Z) (buf : list byte) (offset : Z) : result FSError Z * FileWorld W :=
  match limit_write_len_for_rlimit limit offset (zlen buf) with
  | Err _ => (Err FSError.Other, x)
  | Ok len => with_file_write_cursor x o true (λ w, write_all_to_cursor w o.(file) (take (Z.to_nat len) buf) offset)
  end.

(** [Writable::write], at the position or, of a file opened for appending, at the end *)
Definition write x o (limit : Z) (buffer : list byte) : result ObjectError Z * FileWorld W :=
  let x := invalidate_page_cache x o in
  match (if o.(append) then vfs_seek x.(files) o.(file) 0 Whence.End_ else (Ok 0, x.(files))) with
  | (Err e, w) => (Err (ObjectError.FSError e), with_files w x)
  | (Ok _, w) =>
      match vfs_seek w o.(file) 0 Whence.Current with
      | (Err e, w) => (Err (ObjectError.FSError e), with_files w x)
      | (Ok offset, w) =>
          match limit_write_len_for_rlimit limit offset (zlen buffer) with
          | Err e => (Err e, with_files w x)
          | Ok len =>
              let '(r, w) := vfs_write w o.(file) (take (Z.to_nat len) buffer) in
              (map_err ObjectError.FSError r, with_files w x)
          end
      end
  end.

Definition truncate x o (length : Z) : result FSError unit * FileWorld W :=
  let x := invalidate_page_cache x o in on_files (vfs_truncate x.(files) o.(file) length) x.

Definition allocate x o (mode offset len : Z) : result FSError unit * FileWorld W :=
  let x := invalidate_page_cache x o in on_files (vfs_allocate x.(files) o.(file) mode offset len) x.

Definition seek x o (offset : Z) (seek_type : Whence) : result ObjectError Z * FileWorld W :=
  match fifo x.(files) o.(file) with
  | Err e => (Err (ObjectError.FSError e), x)
  | Ok true => (Err (ObjectError.FSError FSError.IllegalSeek), x)
  | Ok false => let '(r, w) := vfs_seek x.(files) o.(file) offset seek_type in (map_err ObjectError.FSError r, with_files w x)
  end.

(** ** Other users of the cache *)

(** What a fault in a mapping reads from the page cache, when no other process has the page
    in a frame yet (memory/addrspace/apply.rs) *)
Definition map_cluster x o (page_index : Z) : option (result FSError CachedClusterRead) * FileWorld W :=
  match readonly_page_cache_file x o with
  | Some (f, id) => let '(r, c, w) := read_cluster x.(page_cache) x.(files) f id page_index in (Some r, mkWorld c w)
  | None => (None, x)
  end.

(** A record of process accounting (process/acct.rs), at the end of the file *)
Definition write_accounting_record x o (size : Z) (record : list byte) : FileWorld W :=
  (with_file_write_cursor x o false (λ w, write_all_to_cursor w o.(file) record size)).2.
End files.

Section properties.
Context {W : Type} `{FilesLaws W}.
Implicit Types (x : FileWorld W) (o : OpenedFile) (w : W).

(** The device of an open file is that of its file. *)
Definition opened_at w o : Prop := ∀ k, file_at w o.(file) = Some k → k.1 = o.(mount_device_id).

(** One call on an open file, its arguments in the ranges of their types; a page fault in a
    mapping reads a cluster. *)
Inductive step x : FileWorld W → Prop :=
  | step_read_at o len offset : opened_at x.(files) o → 0 <= offset → step x (read_at x o len offset).2
  | step_read o len : opened_at x.(files) o → step x (OpenFile.read x o len).2
  | step_map o page : opened_at x.(files) o → 0 <= page → step x (map_cluster x o page).2
  | step_write o limit buffer : opened_at x.(files) o → limit < 2 ^ 64 → step x (write x o limit buffer).2
  | step_write_at o limit buffer offset : opened_at x.(files) o → limit < 2 ^ 64 → 0 <= offset → step x (write_at x o limit buffer offset).2
  | step_truncate o n : opened_at x.(files) o → 0 <= n < 2 ^ 64 → step x (truncate x o n).2
  | step_allocate o mode offset n : opened_at x.(files) o → 0 <= offset → 0 <= n → step x (allocate x o mode offset n).2
  | step_seek o offset whence : opened_at x.(files) o → step x (seek x o offset whence).2.

Definition empty_cache w : FileWorld W := mkWorld cache_new w.

Definition reachable x : Prop := ∃ w, files_ok w ∧ rtc step (empty_cache w) x.

(** ** What each call keeps *)

Definition good x : Prop := bounded x.(page_cache) ∧ current x.(page_cache) x.(files) ∧ files_ok x.(files).

Lemma identity_of x o k : files_ok x.(files) → opened_at x.(files) o → file_at x.(files) o.(file) = Some k → page_cache_identity x o = Some (mkIdentity k (zlen (file_bytes x.(files) k))).
Proof.
  intros Hok Ho Hk. unfold page_cache_identity. rewrite law_identity, Hk by done. cbn. specialize (Ho k Hk). unfold FileCacheIdentity_new. rewrite <- Ho. by destruct k.
Qed.

Lemma identity_none x o : files_ok x.(files) → file_at x.(files) o.(file) = None → page_cache_identity x o = None.
Proof. intros Hok Hk. unfold page_cache_identity. by rewrite law_identity, Hk. Qed.

Lemma good_same x w : good x → changes_only None x.(files) w → good (with_files w x).
Proof. intros (Hb & Hc & Hok) Hs. split; [done|]. split; [by eapply current_same|]. by apply Hs. Qed.

(** After the clusters of a file are dropped its bytes may change. *)
Lemma good_changed x o w : good x → opened_at x.(files) o → changes_only (file_at x.(files) o.(file)) x.(files) w → good (with_files w (invalidate_page_cache x o)).
Proof.
  intros (Hb & Hc & Hok) Ho Hch. unfold invalidate_page_cache. destruct (file_at (files x) (file o)) as [k|] eqn:Hk.
  - rewrite (identity_of x o k) by done. split; [by apply invalidate_file_bounded|]. split; [by apply (current_changed _ x.(files))|by apply Hch].
  - rewrite identity_none by done. by apply good_same.
Qed.

Lemma invalidate_files x o : (invalidate_page_cache x o).(files) = x.(files).
Proof. unfold invalidate_page_cache. by destruct (page_cache_identity x o). Qed.

Lemma read_at_good x o len off : good x → opened_at x.(files) o → 0 <= off → good (read_at x o len off).2.
Proof.
  intros Hg Ho Hoff. pose proof Hg as (Hb & Hc & Hok). unfold read_at, readonly_page_cache_file. destruct (file_at (files x) (file o)) as [k|] eqn:Hk.
  - rewrite (identity_of x o k) by done. cbn. pose proof (read_keeps x.(page_cache) x.(files) o.(file) k len off Hok Hk Hoff Hb Hc) as Hr.
    destruct (PageCache.read _ _ _ _ _ _) as [[r c'] w']. destruct Hr as (Hs & ? & ?). split_and!; [done..|by apply Hs].
  - rewrite identity_none by done. cbn. apply good_same; [done|]. apply law_read_at_uncached.
Qed.

Lemma map_good x o page : good x → opened_at x.(files) o → 0 <= page → good (map_cluster x o page).2.
Proof.
  intros Hg Ho Hp. pose proof Hg as (Hb & Hc & Hok). unfold map_cluster, readonly_page_cache_file. destruct (file_at (files x) (file o)) as [k|] eqn:Hk.
  - rewrite (identity_of x o k) by done. cbn. pose proof (get_or_load_spec x.(page_cache) x.(files) o.(file) k page Hok Hk Hb Hc Hp) as Hr.
    unfold read_cluster. cbn. destruct (get_or_load_cluster _ _ _ _ _ _) as [[r c'] w']. destruct Hr as (Hs & ? & ? & _). split_and!; [done..|by apply Hs].
  - by rewrite identity_none.
Qed.

Lemma zlen_drop_count {A} (l : list A) n : 0 <= n <= zlen l → zlen (drop (Z.to_nat n) l) = zlen l - n.
Proof. intros Hn. unfold zlen in *. rewrite length_drop. lia. Qed.

Lemma write_all_changes fuel w f buf n : position w f + zlen buf < 2 ^ 64 → changes_only (file_at w f) w (write_all_loop fuel w f buf n).2.
Proof.
  revert w buf n. induction fuel as [|fuel IH]; intros w buf n Hroom; cbn [write_all_loop]; [done|]. destruct buf as [|b buf]; [done|].
  destruct (vfs_write w f (b :: buf)) as [r w1] eqn:E. destruct (law_write w f (b :: buf) r w1 Hroom E) as [Hch Hcount]. destruct r as [count|e]; [|done].
  destruct (count =? 0); [done|]. destruct (Hcount count eq_refl) as [Hn Hpos]. transitivity w1; [exact Hch|]. destruct Hch as (Hat & _). rewrite <- (Hat f). apply IH.
  rewrite zlen_drop_count by done. lia.
Qed.

Lemma swrap_le z : 0 <= z → swrap 64 z <= z.
Proof.
  intros Hz. unfold swrap. pose proof (Z.mod_le (z + 2 ^ (64 - 1)) (2 ^ 64) ltac:(lia) ltac:(done)). lia.
Qed.

Lemma write_all_to_cursor_changes w f buf off : 0 <= off → off + zlen buf < 2 ^ 64 → changes_only (file_at w f) w (write_all_to_cursor w f buf off).2.
Proof.
  intros Hoff Hroom. unfold write_all_to_cursor. destruct (vfs_seek w f (swrap 64 off) Whence.Start) as [r w1] eqn:E.
  destruct (law_seek w f (swrap 64 off) Whence.Start r w1 E) as [Hs Hp]. destruct r as [p|e]; [|by apply changes_weaken].
  transitivity w1; [by apply changes_weaken|]. destruct Hs as (Hat & _). rewrite <- (Hat f). apply write_all_changes.
  destruct (Hp p eq_refl) as [-> Hpe]. rewrite Hpe by done. pose proof (swrap_le off Hoff). lia.
Qed.

Lemma seek_changes w f off whence : changes_only None w (vfs_seek w f off whence).2.
Proof. destruct (vfs_seek w f off whence) as [r w1] eqn:E. by apply (law_seek w f off whence r). Qed.

Lemma with_cursor_good {A} x o (action : W → result FSError A * W) : good x → opened_at x.(files) o →
  (∀ w, changes_only (file_at w o.(file)) w (action w).2) → good (with_file_write_cursor x o true action).2.
Proof.
  intros Hg Ho Ha. unfold with_file_write_cursor. rewrite invalidate_files. pose proof (seek_changes x.(files) o.(file) 0 Whence.Current) as Hs.
  destruct (vfs_seek _ _ _ _) as [[p|e] w1]; cbn in Hs; [|apply good_changed; [done..|by apply changes_weaken]].
  pose proof (Ha w1) as Hw. destruct (action w1) as [r w2]. cbn in *. apply good_changed; [done..|].
  pose proof Hs as (Hat & _). rewrite Hat in Hw. transitivity w1; [by apply changes_weaken|]. transitivity w2; [exact Hw|]. apply changes_weaken, seek_changes.
Qed.

(** What the file size limit lets through ends before 2^64. *)
Lemma limited_room limit offset n len : limit < 2 ^ 64 → 0 <= n → limit_write_len_for_rlimit limit offset n = Ok len → offset + len < 2 ^ 64 ∧ 0 <= len <= n.
Proof. unfold limit_write_len_for_rlimit. intros Hl Hn. destruct (Z.leb_spec limit offset); [done|]. intros [= <-]. lia. Qed.

Lemma zlen_take_count {A} (l : list A) n : 0 <= n <= zlen l → zlen (take (Z.to_nat n) l) = n.
Proof. intros Hn. unfold zlen in *. rewrite length_take. lia. Qed.

Lemma write_at_good x o limit buffer off : good x → opened_at x.(files) o → limit < 2 ^ 64 → 0 <= off → good (write_at x o limit buffer off).2.
Proof.
  intros Hg Ho Hl Hoff. unfold write_at. destruct (limit_write_len_for_rlimit limit off (zlen buffer)) as [len|e] eqn:E; [|done].
  destruct (limited_room _ _ _ _ Hl (zlen_nonneg buffer) E) as [Hroom Hlen]. apply with_cursor_good; [done..|]. intros w. apply write_all_to_cursor_changes; [done|].
  by rewrite zlen_take_count.
Qed.

Lemma write_good x o limit buffer : good x → opened_at x.(files) o → limit < 2 ^ 64 → good (write x o limit buffer).2.
Proof.
  intros Hg Ho Hl. unfold write. rewrite invalidate_files. set (start := if append o then _ else _).
  assert (changes_only None x.(files) start.2) as Hst by (subst start; destruct (append o); [apply seek_changes|done]). destruct start as [[p|e] w1]; cbn in Hst.
  2:{ apply good_changed; [done..|by apply changes_weaken]. }
  destruct (vfs_seek w1 o.(file) 0 Whence.Current) as [r w2] eqn:Es. destruct (law_seek _ _ _ _ _ _ Es) as [Hcur Hp].
  assert (changes_only None x.(files) w2) as Hsame by (by etransitivity). destruct r as [offset|e]; [|apply good_changed; [done..|by apply changes_weaken]].
  destruct (limit_write_len_for_rlimit limit offset (zlen buffer)) as [len|e] eqn:E; [|by apply good_changed; [..|apply changes_weaken]].
  destruct (limited_room _ _ _ _ Hl (zlen_nonneg buffer) E) as [Hroom Hlen].
  destruct (vfs_write w2 o.(file) (take (Z.to_nat len) buffer)) as [r w3] eqn:Ew. destruct (law_write w2 o.(file) (take (Z.to_nat len) buffer) r w3) as [Hw _]; [|done|].
  { rewrite zlen_take_count by done. destruct (Hp offset eq_refl) as [-> _]. done. }
  cbn in *. apply good_changed; [done..|]. pose proof Hsame as (Hat & _). rewrite Hat in Hw. transitivity w2; [by apply changes_weaken|done].
Qed.

Lemma step_good x x' : good x → step x x' → good x'.
Proof.
  intros Hg Hs. destruct Hs as [o len off Ho Hoff|o len Ho|o page Ho Hp|o limit buffer Ho Hl|o limit buffer off Ho Hl Hoff|o n Ho Hn|o mode off n Ho Hoff Hn|o off whence Ho].
  - by apply read_at_good.
  - apply good_same; [done|apply law_read].
  - by apply map_good.
  - by apply write_good.
  - by apply write_at_good.
  - unfold truncate. apply good_changed; [done..|]. rewrite invalidate_files. by apply law_truncate.
  - unfold allocate. apply good_changed; [done..|]. rewrite invalidate_files. by apply law_allocate.
  - unfold seek. destruct (fifo _ _) as [[]|]; [done| |done]. pose proof (seek_changes x.(files) o.(file) off whence) as Hsk. destruct (vfs_seek _ _ _ _) as [r w1]. by apply good_same.
Qed.

Lemma steps_good x x' : good x → rtc step x x' → good x'.
Proof. intros Hg Hs. induction Hs as [x|x1 x2 x3 Hs _ IH]; [done|]. by apply IH, (step_good x1). Qed.

Lemma empty_good w : files_ok w → good (empty_cache w).
Proof. intros Hok. split; [apply bounded_new|]. split; [|done]. intros k i e He. exfalso. exact (lookup_empty_Some (M := gmap CachedClusterKey) (k, i) e He). Qed.

Lemma opened_good x : reachable x → good x.
Proof. intros (w & Hok & Hr). apply (steps_good (empty_cache w)); [by apply empty_good|done]. Qed.

(** ** The theorems *)

(** The page cache never holds more than 1024 clusters (64 MiB), whatever the calls on
    open files and the faults in mappings; each of them can be found by an eviction, and
    with a full cache an eviction ends and drops exactly one. *)
Lemma page_cache_bounded x : reachable x →
  entry_count x.(page_cache) <= MAX_CACHED_CLUSTERS ∧ (∀ k, is_Some (x.(page_cache).(entries) !! k) → k ∈ x.(page_cache).(eviction_queue)) ∧
  (x.(page_cache).(entries) ≠ ∅ → entry_count (evict_one x.(page_cache)) = entry_count x.(page_cache) - 1).
Proof.
  intros Hr. destruct (opened_good x Hr) as ([Hq Hb] & _). split_and!; [done|done|]. intros Hne. destruct (evict_one_spec _ Hq Hne) as (_ & _ & E). unfold entry_count. lia.
Qed.

(** A cluster that a mapping or a read gets through the page cache is the bytes that the
    file has at that moment, with zeros behind the end, whether it was cached or is loaded,
    and after any reads, writes, truncations and allocations through any open file. *)
Lemma cluster_is_current x o k page : reachable x → opened_at x.(files) o → file_at x.(files) o.(file) = Some k → 0 <= page →
  ∀ r, (map_cluster x o page).1 = Some (Ok r) →
  let bytes := zslice (file_bytes x.(files) k) (cluster_index_for_page page * cluster_len) (cluster_index_for_page page * cluster_len + cluster_len) in
  r.(read_valid_len) = zlen bytes ∧ r.(read_data) = bytes ++ repeat x00 (Z.to_nat (cluster_len - zlen bytes)).
Proof.
  intros Hr Ho Hk Hp r. destruct (opened_good x Hr) as (Hb & Hc & Hok). unfold map_cluster, readonly_page_cache_file. rewrite (identity_of x o k) by done. cbn.
  pose proof (get_or_load_spec x.(page_cache) x.(files) o.(file) k page Hok Hk Hb Hc Hp) as Hs. unfold read_cluster. cbn.
  destruct (get_or_load_cluster _ _ _ _ _ _) as [[[y|e] c'] w']; cbn; intros [= <-]. destruct Hs as (_ & _ & _ & Hx). by apply Hx.
Qed.

(** A read at an offset gets as many bytes as the file has there, up to the length that
    was asked for, but each of them from the first page of its cluster of sixteen pages: the
    byte for the place [pos] is that of [pos / 65536 * 65536 + pos mod 4096], which is the
    byte at [pos] only in such a first page. *)
Lemma read_at_gets_first_pages x o k len offset : reachable x → opened_at x.(files) o → file_at x.(files) o.(file) = Some k → 0 <= offset → 0 <= len →
  ∀ b, (read_at x o len offset).1 = Ok b → zlen b = Z.max 0 (Z.min len (zlen (file_bytes x.(files) k) - offset)) ∧
  ∀ j, 0 <= j < zlen b → let pos := offset + j in b !! Z.to_nat j = file_bytes x.(files) k !! Z.to_nat (pos / cluster_len * cluster_len + pos mod PAGE_SIZE).
Proof.
  intros Hr Ho Hk Hoff Hlen b. destruct (opened_good x Hr) as (Hb & Hc & Hok). unfold read_at, readonly_page_cache_file. rewrite (identity_of x o k) by done. cbn.
  pose proof (read_gets x.(page_cache) x.(files) o.(file) k len offset Hok Hk Hb Hc Hoff Hlen) as Hs. destruct (PageCache.read _ _ _ _ _ _) as [[r c'] w']. cbn. intros Hb'. rewrite (Hs b Hb').
  assert (zlen (map (cached_byte (file_bytes (files x) k)) (seqZ offset (Z.min len (zlen (file_bytes (files x) k) - offset)))) = Z.max 0 (Z.min len (zlen (file_bytes (files x) k) - offset))) as Hz by (unfold zlen; rewrite length_map, length_seqZ; lia).
  split; [done|]. rewrite Hz. intros j Hj. rewrite list_lookup_fmap, lookup_seqZ_lt by lia. cbn. unfold cached_byte. rewrite Z2Nat.id by lia.
  destruct (split_offset (offset + j) ltac:(lia)) as (_ & Hsp & Hi & Hp & _ & Hpo). assert (0 <= (offset + j) / cluster_len * cluster_len) by (by apply Z.mul_nonneg_nonneg).
  destruct (lookup_lt_is_Some_2 (file_bytes (files x) k) (Z.to_nat ((offset + j) / cluster_len * cluster_len + (offset + j) mod PAGE_SIZE))) as [y Hy]; [unfold zlen in *; lia|]. by rewrite Hy.
Qed.
End properties.
