(* ===== verification/OpenTmpfs.v ===== *)
(** * Open files of a temporary file system

    The handles of filesystem/tmpfs/file.rs as files of the page cache: [TmpfsFiles] is an
    instance of [Files] that keeps the laws of [FilesLaws]. *)

From stdpp Require Import strings.
From S2P Require Import Prelude Errors SparseFile FsPath Tmpfs TmpfsTree TmpfsProps PageCache OpenFile.

Open Scope Z_scope.

(** ** The instance *)

(** The handles of a mounted file system; the number of a handle stands for the shared
    [WrappedFile]. *)
Record TmpfsFiles := mkFiles { device : Z; fs : TmpfsState; handles : gmap Z TmpfsFileHandle }.

Definition with_handle (w : TmpfsFiles) (f : Z) (h : TmpfsFileHandle) (st : TmpfsState) : TmpfsFiles := mkFiles w.(device) st (<[f := h]> w.(handles)).

(** An operation of a handle that is there *)
Definition on_handle {A} (w : TmpfsFiles) (f : Z) (op : TmpfsFileHandle → result FSError A * TmpfsFileHandle * TmpfsState) : result FSError A * TmpfsFiles :=
  match w.(handles) !! f with
  | None => (Err FSError.NotFound, w)
  | Some h => let '(r, h, st) := op h in (r, with_handle w f h st)
  end.

Definition handle_info (w : TmpfsFiles) (f : Z) : result FSError FileLikeInfo :=
  match w.(handles) !! f with None => Err FSError.NotFound | Some h => file_info w.(fs) h end.

Definition got_bytes (r : result FSError (Z * list byte)) : result FSError (list byte) := rb ← r; Ok (take (Z.to_nat rb.1) rb.2).

Definition zeros (n : Z) : list byte := repeat x00 (Z.to_nat n).

#[export] Instance tmpfs_files : Files TmpfsFiles := {
  file_identity w f := match handle_info w f with Ok i => match i.(file_like_type) with FileLikeType.File => Some (i.(info_inode), i.(info_size)) | _ => None end | Err _ => None end;
  fifo w f := i ← handle_info w f; Ok (Z.land i.(info_permission) S_IFMT =? 4096);
  vfs_read_at w f len off := on_handle w f (λ h, (got_bytes (file_read_at w.(fs) h (zeros len) off), h, w.(fs)));
  vfs_read w f len := on_handle w f (λ h, let '(r, h) := file_read w.(fs) h (zeros len) in (got_bytes r, h, w.(fs)));
  vfs_write w f buf := on_handle w f (λ h, file_write w.(fs) h buf);
  vfs_seek w f off whence := on_handle w f (λ h, let '(r, h) := file_seek w.(fs) h off whence in (r, h, w.(fs)));
  vfs_truncate w f n := on_handle w f (λ h, let '(r, st) := file_truncate w.(fs) h n in (r, h, st));
  vfs_allocate w f mode off n := on_handle w f (λ h, let '(r, st) := file_allocate w.(fs) h mode off n in (r, h, st));
}.

(** ** Its contents *)

Definition has_info (n : TmpNode) : bool := match n.(kind) with TmpNodeKind.File _ _ _ | TmpNodeKind.Device _ _ => true | _ => false end.

Definition node_bytes (n : TmpNode) : list byte := match n.(kind) with TmpNodeKind.File data _ _ => contents data | _ => [] end.

Record tmpfs_files_ok (w : TmpfsFiles) : Prop := {
  tfo_wf : files_wf w.(fs);
  tfo_inode : ∀ i n, w.(fs).(nodes) !! i = Some n → n.(inode) = i;
  tfo_offset : ∀ f h, w.(handles) !! f = Some h → 0 <= h.(offset);
}.

#[export] Instance tmpfs_contents : FileContents TmpfsFiles := {
  file_at w f := h ← w.(handles) !! f; n ← w.(fs).(nodes) !! h.(handle_inode); if has_info n then Some (w.(device), h.(handle_inode)) else None;
  file_bytes w k := if k.1 =? w.(device) then match w.(fs).(nodes) !! k.2 with Some n => node_bytes n | None => [] end else [];
  position w f := from_option offset 0 (w.(handles) !! f);
  files_ok := tmpfs_files_ok;
}.

(** ** The laws *)

(** At most the data of the node [i] changed. *)
Definition rewritten (w : TmpfsFiles) (st' : TmpfsState) (i : Z) : Prop :=
  st' = w.(fs) ∨ ∃ n d d', w.(fs).(nodes) !! i = Some n ∧ file_data n = Ok d ∧ (tmpfs_files_ok w → wf d') ∧ st' = with_nodes w.(fs) (<[i := with_data n d']> w.(fs).(nodes)).

Lemma file_data_info n d : file_data n = Ok d → has_info n = true.
Proof. unfold file_data, has_info. by destruct (kind n). Qed.

Lemma with_data_info n d : has_info (with_data n d) = has_info n.
Proof. unfold has_info, with_data. by destruct (kind n) eqn:E; cbn; rewrite ?E. Qed.

Lemma with_data_inode n d : inode (with_data n d) = inode n.
Proof. unfold with_data. by destruct (kind n). Qed.

Lemma with_data_file n d d' : file_data n = Ok d → file_data (with_data n d') = Ok d'.
Proof. unfold file_data, with_data. by destruct (kind n) eqn:E. Qed.

Lemma handle_moved w f h h' : w.(handles) !! f = Some h → handle_inode h' = handle_inode h → (tmpfs_files_ok w → 0 <= h'.(offset)) →
  changes_only None w (with_handle w f h' w.(fs)).
Proof.
  intros Hh Hi Ho. split; [|split; [done|]].
  - intros f'. cbn. destruct (decide (f = f')) as [<-|]; [|by rewrite lookup_insert_ne]. rewrite lookup_insert_eq, Hh. cbn. by rewrite Hi.
  - intros Hok. split; [apply (tfo_wf w Hok)|apply (tfo_inode w Hok)|]. intros f' h''. cbn. intros [[<- <-]|[_ Hf]]%lookup_insert_Some; [by apply Ho|by apply (tfo_offset w Hok f')].
Qed.

Lemma rewritten_changes w f h h' st' : w.(handles) !! f = Some h → handle_inode h' = handle_inode h → (tmpfs_files_ok w → 0 <= h'.(offset)) →
  rewritten w st' h.(handle_inode) → changes_only (file_at w f) w (with_handle w f h' st').
Proof.
  intros Hh Hi Ho [->|(n & d & d' & Hn & Hd & Hwf & ->)]; [by apply changes_weaken, (handle_moved w f h)|]. split; [|split].
  - intros f'. cbn. assert (∀ h1, (n1 ← <[handle_inode h := with_data n d']> (nodes (fs w)) !! handle_inode h1; if has_info n1 then Some (device w, handle_inode h1) else None) =
      (n1 ← nodes (fs w) !! handle_inode h1; if has_info n1 then Some (device w, handle_inode h1) else None)) as Heq.
    { intros h1. destruct (decide (h1.(handle_inode) = h.(handle_inode))) as [->|]; [|by rewrite lookup_insert_ne]. rewrite lookup_insert_eq, Hn. cbn. by rewrite with_data_info. }
    destruct (decide (f = f')) as [<-|]; [|rewrite lookup_insert_ne by done; destruct (_ !! f') as [h1|]; [apply Heq|done]].
    rewrite lookup_insert_eq, Hh. cbn. rewrite Heq. by rewrite Hi.
  - intros [dev i] Hk. cbn in *. rewrite Hh in Hk. cbn in Hk. rewrite Hn in Hk. cbn in Hk. rewrite (file_data_info n d Hd) in Hk.
    destruct (Z.eqb_spec dev (device w)) as [->|]; [|done]. by rewrite lookup_insert_ne by congruence.
  - intros Hok. split.
    + intros j m data. cbn. intros [[<- <-]|[_ Hm]]%lookup_insert_Some Hdm; [|by apply (tfo_wf w Hok j m)]. rewrite (with_data_file n d) in Hdm by done. injection Hdm as <-. by apply Hwf.
    + intros j m. cbn. intros [[<- <-]|[_ Hm]]%lookup_insert_Some; [rewrite with_data_inode; by apply (tfo_inode w Hok)|by apply (tfo_inode w Hok)].
    + intros f' h''. cbn. intros [[<- <-]|[_ Hf]]%lookup_insert_Some; [by apply Ho|by apply (tfo_offset w Hok f')].
Qed.

(** [Err] or the data of the node *)
Lemma handle_node (st : TmpfsState) (h : TmpfsFileHandle) :
  (∃ e, (n ← node_by_inode st h.(handle_inode); file_data n) = Err e) ∨
  ∃ n d, st.(nodes) !! h.(handle_inode) = Some n ∧ file_data n = Ok d ∧ node_by_inode st h.(handle_inode) = Ok n.
Proof.
  unfold node_by_inode. destruct (nodes st !! handle_inode h) as [n|] eqn:Hn; cbn; [|left; by eexists]. destruct (file_data n) as [d|e] eqn:Hd; [right; by exists n, d|left; by eexists].
Qed.

Lemma got_bytes_at d buffer off : wf d → 0 <= off → take (Z.to_nat (SparseFile.read_at d buffer off).1) (SparseFile.read_at d buffer off).2 = spec_read (contents d) off (zlen buffer).
Proof.
  intros Hd Hoff. rewrite read_at_spec by done. cbn. set (l := spec_read _ _ _). unfold zlen. rewrite Nat2Z.id. apply take_app_length.
Qed.

Lemma zlen_zeros n : zlen (zeros n) = Z.max 0 n.
Proof. unfold zlen, zeros. rewrite repeat_length. lia. Qed.

Lemma tmpfs_identity w f : tmpfs_files_ok w → file_identity w f = (λ k, (k.2, zlen (file_bytes w k))) <$> file_at w f.
Proof.
  intros Hok. cbn. unfold handle_info. destruct (handles w !! f) as [h|] eqn:Hh; [|done]. cbn. unfold file_info, node_by_inode.
  destruct (nodes (fs w) !! handle_inode h) as [n|] eqn:Hn; [|done]. cbn. pose proof (tfo_inode w Hok _ _ Hn) as Hi. pose proof (tfo_wf w Hok (handle_inode h) n) as Hwf. unfold has_info, node_bytes, file_data in *.
  destruct (kind n) as [|data mode rdev|mode rdev|] eqn:Hk; cbn; try done; rewrite Z.eqb_refl, Hn, Hk, Hi; [|done].
  destruct (Hwf data Hn eq_refl) as [Hlen _]. do 2 f_equal. unfold zlen. rewrite length_contents. lia.
Qed.

Lemma same_handle w f h : w.(handles) !! f = Some h → changes_only None w (with_handle w f h w.(fs)).
Proof. intros Hh. apply (handle_moved w f h); [done|done|]. intros Hok. by apply (tfo_offset w Hok f). Qed.

Lemma tmpfs_read_at_changes w f len off : changes_only None w (vfs_read_at w f len off).2.
Proof. cbn. unfold on_handle. destruct (handles w !! f) as [h|] eqn:Hh; [|done]. by apply same_handle. Qed.

Lemma tmpfs_read_at w f k len off b : tmpfs_files_ok w → file_at w f = Some k → 0 <= off → (vfs_read_at w f len off).1 = Ok b →
  b = zslice (file_bytes w k) off (off + zlen b) ∧ zlen b <= Z.max 0 len ∧ (0 < len → off < zlen (file_bytes w k) → b ≠ []).
Proof.
  intros Hok Hk Hoff. cbn in *. unfold on_handle. destruct (handles w !! f) as [h|] eqn:Hh; [|done]. cbn in *. unfold file_read_at.
  destruct (handle_node w.(fs) h) as [[e He]|(n & d & Hn & Hd & He)].
  - destruct (node_by_inode (fs w) (handle_inode h)) as [n|]; cbn in *; [|done]. by rewrite He.
  - rewrite He. cbn. rewrite Hd. cbn. rewrite Hn in Hk. cbn in Hk. rewrite (file_data_info n d Hd) in Hk. injection Hk as <-. cbn. rewrite Z.eqb_refl, Hn.
    assert (node_bytes n = contents d) as -> by (unfold node_bytes, file_data in *; destruct (kind n); congruence). set (l := contents d).
    rewrite got_bytes_at by (done || by apply (tfo_wf w Hok (handle_inode h) n)). rewrite zlen_zeros. intros [= <-]. fold l. unfold spec_read.
    assert (zlen (zslice l off (off + Z.max 0 len)) = Z.min (Z.max 0 len) (Z.max 0 (zlen l - off))) as Hz by (rewrite zlen_zslice_min by lia; f_equal; lia).
    split_and!; [rewrite Hz; apply zslice_clip; lia|lia|]. intros Hlen Hin E. rewrite E in Hz. change (zlen (@nil byte)) with 0 in Hz. lia.
Qed.

Lemma tmpfs_read w f len : changes_only None w (vfs_read w f len).2.
Proof.
  cbn. unfold on_handle. destruct (handles w !! f) as [h|] eqn:Hh; [|done]. unfold file_read. destruct (file_read_at _ _ _ _) as [[n buffer]|e] eqn:Hr; cbn; [|by apply same_handle].
  apply (handle_moved w f h); [done|done|]. intros Hok. cbn. pose proof (tfo_offset w Hok f h Hh) as Ho. unfold file_read_at in Hr.
  destruct (handle_node w.(fs) h) as [[e He]|(m & d & Hn & Hd & He)].
  - destruct (node_by_inode (fs w) (handle_inode h)) as [m|]; cbn in *; [|done]. by rewrite He in Hr.
  - rewrite He in Hr. cbn in Hr. rewrite Hd in Hr. cbn in Hr. injection Hr as Hr. rewrite read_at_spec in Hr by (done || by apply (tfo_wf w Hok (handle_inode h) m)).
    injection Hr as <- _. pose proof (zlen_nonneg (spec_read (contents d) (offset h) (zlen (zeros len)))). lia.
Qed.

Lemma tmpfs_seek w f off whence : changes_only None w (vfs_seek w f off whence).2 ∧
  ∀ p, (vfs_seek w f off whence).1 = Ok p → position (vfs_seek w f off whence).2 f = p ∧ (whence = Whence.Start → p = off).
Proof.
  cbn. unfold on_handle. destruct (handles w !! f) as [h|] eqn:Hh; [|by split]. unfold file_seek.
  destruct (n ← _; _) as [n|e]; cbn; [|split; [by apply same_handle|done]]. set (next := match whence with Whence.Start => _ | _ => _ end).
  assert (∀ p, next = Ok p → whence = Whence.Start → p = off) as Hst by (subst next; intros p Hp ->; by injection Hp as <-).
  destruct next as [next|e]; cbn; [|split; [by apply same_handle|done]]. destruct (Z.ltb_spec next 0); cbn; [split; [by apply same_handle|done]|].
  split; [by apply (handle_moved w f h)|]. intros p [= <-]. rewrite lookup_insert_eq. split; [done|]. by apply Hst.
Qed.

Lemma tmpfs_write w f b : position w f + zlen b < 2 ^ 64 → changes_only (file_at w f) w (vfs_write w f b).2 ∧
  ∀ n, (vfs_write w f b).1 = Ok n → 0 <= n <= zlen b ∧ position (vfs_write w f b).2 f <= position w f + n.
Proof.
  intros Hroom. remember (file_at w f) as k eqn:Hk. cbn in Hroom |- *. unfold on_handle. destruct (handles w !! f) as [h|] eqn:Hh; [|by split]. cbn in Hroom. pose proof (zlen_nonneg b) as Hb. unfold file_write.
  destruct (handle_node w.(fs) h) as [[e He]|(n & d & Hn & Hd & He)].
  - assert ((n ← node_by_inode (fs w) (handle_inode h); data ← file_data n; Ok (n, data)) = Err e) as ->.
    { destruct (node_by_inode (fs w) (handle_inode h)) as [n|]; cbn in *; [by rewrite He|by injection He as ->]. }
    cbn. split; [|done]. apply changes_weaken. by apply same_handle.
  - rewrite He. cbn. rewrite Hd. cbn. destruct (SparseFile.write_at d (offset h) b) as [n1 d'] eqn:Hw. cbn.
    assert (n1 = zlen b) as -> by (unfold SparseFile.write_at in Hw; destruct (Z.eqb_spec (zlen b) 0); injection Hw; lia).
    split.
    + rewrite Hk. apply (rewritten_changes w f h); [done|done| |].
      * intros Hok. cbn. unfold sat_add. pose proof (tfo_offset w Hok f h Hh). lia.
      * right. exists n, d, d'. split_and!; [done|done| |done]. intros Hok. pose proof (write_at_spec d (offset h) b (tfo_wf w Hok (handle_inode h) n d Hn Hd) (tfo_offset w Hok f h Hh) Hroom) as (_ & Hwf & _).
        by rewrite Hw in Hwf.
    + intros m [= <-]. rewrite lookup_insert_eq. cbn. unfold sat_add. lia.
Qed.

Lemma update_rewritten w i f : (∀ d, wf d → wf (f d)) → rewritten w (update_data w.(fs) i f).2 i.
Proof.
  intros Hf. unfold update_data, update_node, node_by_inode. destruct (nodes (fs w) !! i) as [n|] eqn:Hn; cbn; [|by left]. destruct (file_data n) as [d|e] eqn:Hd; cbn; [|by left].
  right. exists n, d, (f d). split_and!; [done|done| |done]. intros Hok. by apply Hf, (tfo_wf w Hok i n).
Qed.

Lemma truncate_wf d n : 0 <= n < 2 ^ 64 → wf d → wf (SparseFile.truncate d n).
Proof. intros Hn Hd. apply (resize_spec d n 0); [done|lia..]. Qed.

Lemma tmpfs_truncate w f n : 0 <= n < 2 ^ 64 → changes_only (file_at w f) w (vfs_truncate w f n).2.
Proof.
  intros Hn. remember (file_at w f) as k eqn:Hk. cbn. unfold on_handle. destruct (handles w !! f) as [h|] eqn:Hh; [|done]. unfold file_truncate.
  pose proof (update_rewritten w (handle_inode h) (λ d, SparseFile.truncate d n) (λ d, truncate_wf d n Hn)) as Hr. destruct (update_data _ _ _) as [r st']. cbn in *.
  rewrite Hk. apply (rewritten_changes w f h); [done|done|intros Hok; by apply (tfo_offset w Hok f)|done].
Qed.

Lemma tmpfs_allocate w f mode off n : 0 <= off → 0 <= n → changes_only (file_at w f) w (vfs_allocate w f mode off n).2.
Proof.
  intros Ho Hn. remember (file_at w f) as k eqn:Hk. cbn. unfold on_handle. destruct (handles w !! f) as [h|] eqn:Hh; [|done].
  assert (rewritten w (file_allocate w.(fs) h mode off n).2 h.(handle_inode)) as Hr.
  { unfold file_allocate. destruct (checked_add 64 off n) as [end_|] eqn:He; cbn; [|by left]. destruct (_ && _); [by left|]. destruct (_ =? _); [by left|]. destruct (negb _); [by left|].
    apply update_rewritten. intros d Hd. destruct (_ =? _); [done|]. unfold checked_add in He. destruct (Z.ltb_spec (off + n) (2 ^ 64)); [|done]. injection He as <-. apply (resize_spec d (off + n) 0); [done|lia..]. }
  destruct (file_allocate _ _ _ _ _) as [r st']. cbn in *. rewrite Hk. apply (rewritten_changes w f h); [done|done|intros Hok; by apply (tfo_offset w Hok f)|done].
Qed.

#[export] Instance tmpfs_laws : FilesLaws TmpfsFiles.
Proof.
  split.
  - apply tmpfs_identity.
  - intros w f k len off r w' Hok Hk Hoff E. pose proof (tmpfs_read_at_changes w f len off) as Hch. rewrite E in Hch. split; [done|]. intros b ->.
    apply (tmpfs_read_at w f k len off b); [done..|]. by rewrite E.
  - apply tmpfs_read_at_changes.
  - apply tmpfs_read.
  - intros w f off whence r w' E. pose proof (tmpfs_seek w f off whence) as Hs. by rewrite E in Hs.
  - intros w f b r w' Hroom E. pose proof (tmpfs_write w f b Hroom) as Hs. by rewrite E in Hs.
  - apply tmpfs_truncate.
  - apply tmpfs_allocate.
Qed.

(** A mounted file system in a reachable state, its handles at positions that are not negative *)
Lemma tmpfs_reachable_ok dev st hs : TmpfsProps.reachable st → (∀ f h, hs !! f = Some h → 0 <= h.(offset)) → tmpfs_files_ok (mkFiles dev st hs).
Proof.
  intros Hr Hh. destruct (reachable_ok st Hr) as [Hok Hwf]. split; [done| |done]. intros i n Hn. by apply (ok_inode _ _ _ _ (ok_nodes _ Hok i n Hn)).
Qed.

(** ** Concrete inputs *)

(** "/g", opened as handle 0 on device 7 *)
Definition dev7 : TmpfsFiles := mkFiles 7 opened {[ 0 := g_handle ]}.
Definition open0 : OpenedFile := mkOpened 0 7 false.
Definition g_key : FileCacheKey := (7, g_inode).
Definition no_limit : Z := 2 ^ 64 - 1.

Lemma opened_reachable : TmpfsProps.reachable opened.
Proof. eapply reach_step; [apply sample_reachable|]. apply step_lookup, parsed_path_new. Qed.

Lemma dev7_ok : tmpfs_files_ok dev7.
Proof. apply (tmpfs_reachable_ok 7); [apply opened_reachable|]. by intros f h [<- <-]%lookup_singleton_Some. Qed.

(** "A" written at the start and "B" at the start of the second page *)
Definition wrote_a : FileWorld TmpfsFiles := (write_at (empty_cache dev7) open0 no_limit [Byte.x41] 0).2.
Definition wrote_ab : FileWorld TmpfsFiles := (write_at wrote_a open0 no_limit [Byte.x42] 4096).2.

Lemma opened_by_key w k : file_at w (file open0) = Some k → k.1 = mount_device_id open0 → opened_at w open0.
Proof. intros Hk Hd k' Hk'. rewrite Hk in Hk'. by injection Hk' as <-. Qed.

Lemma at_dev7 : opened_at dev7 open0.
Proof. apply (opened_by_key dev7 g_key); [vm_compute; reflexivity|reflexivity]. Qed.

Lemma at_wrote_a : opened_at wrote_a.(files) open0.
Proof. apply (opened_by_key wrote_a.(files) g_key); [vm_compute; reflexivity|reflexivity]. Qed.

Lemma at_wrote_ab : opened_at wrote_ab.(files) open0.
Proof. apply (opened_by_key wrote_ab.(files) g_key); [vm_compute; reflexivity|reflexivity]. Qed.

Lemma wrote_ab_reachable : OpenFile.reachable wrote_ab.
Proof.
  exists dev7. split; [exact dev7_ok|]. eapply rtc_l; [apply (step_write_at (empty_cache dev7) open0 no_limit [Byte.x41] 0); [exact at_dev7|done|done]|].
  apply rtc_once. apply (step_write_at wrote_a open0 no_limit [Byte.x42] 4096); [exact at_wrote_a|done|done].
Qed.

(** A read of the second page gets the byte of the first. *)
Lemma read_at_gets_first_pages_witness : OpenFile.reachable wrote_ab ∧ (read_at wrote_ab open0 1 4096).1 = Ok [Byte.x41] ∧
  file_bytes wrote_ab.(files) g_key !! 4096%nat = Some Byte.x42 ∧ [Byte.x41] !! 0%nat = file_bytes wrote_ab.(files) g_key !! 0%nat.
Proof.
  split; [exact wrote_ab_reachable|]. assert ((read_at wrote_ab open0 1 4096).1 = Ok [Byte.x41]) as Hr by (vm_compute; reflexivity). split; [exact Hr|]. split; [vm_compute; reflexivity|].
  destruct (read_at_gets_first_pages wrote_ab open0 g_key 1 4096 wrote_ab_reachable at_wrote_ab ltac:(vm_compute; reflexivity) ltac:(lia) ltac:(lia) [Byte.x41] Hr) as [_ H].
  specialize (H 0 (conj (Z.le_refl 0) eq_refl)). revert H. generalize (file_bytes wrote_ab.(files) g_key). intros l H. exact H.
Defined.

Lemma cluster_is_current_witness : OpenFile.reachable wrote_ab ∧ ∃ r, (map_cluster wrote_ab open0 1).1 = Some (Ok r) ∧ r.(read_valid_len) = 4097 ∧ r.(read_data) !! 4096%nat = Some Byte.x42.
Proof.
  split; [exact wrote_ab_reachable|]. destruct ((map_cluster wrote_ab open0 1).1) as [[r|e]|] eqn:E.
  - exists r. split; [reflexivity|]. destruct (cluster_is_current wrote_ab open0 g_key 1 wrote_ab_reachable at_wrote_ab ltac:(vm_compute; reflexivity) ltac:(lia) r E) as [H1 H2].
    split; [rewrite H1; vm_compute; reflexivity|]. rewrite H2. rewrite lookup_app_l; [vm_compute; reflexivity|]. apply Nat.ltb_lt. vm_compute. reflexivity.
  - exfalso. assert (match (map_cluster wrote_ab open0 1).1 with Some (Ok _) => true | _ => false end = true) as Ht by (vm_compute; reflexivity). rewrite E in Ht. discriminate.
  - exfalso. assert (match (map_cluster wrote_ab open0 1).1 with Some (Ok _) => true | _ => false end = true) as Ht by (vm_compute; reflexivity). rewrite E in Ht. discriminate.
Defined.

Definition mapped_ab : FileWorld TmpfsFiles := (map_cluster wrote_ab open0 1).2.

Lemma mapped_ab_reachable : OpenFile.reachable mapped_ab.
Proof. destruct wrote_ab_reachable as (w & Hw & Hr). exists w. split; [done|]. eapply rtc_r; [exact Hr|]. apply step_map; [exact at_wrote_ab|lia]. Qed.

Lemma page_cache_bounded_witness : entry_count mapped_ab.(page_cache) = 1 ∧ entry_count (evict_one mapped_ab.(page_cache)) = 0.
Proof.
  destruct (page_cache_bounded mapped_ab mapped_ab_reachable) as (_ & _ & H). assert (entry_count mapped_ab.(page_cache) = 1) as H1 by (vm_compute; reflexivity). split; [exact H1|].
  rewrite H, H1; [reflexivity|]. intros E. unfold entry_count in H1. rewrite E, map_size_empty in H1. discriminate H1.
Defined.

(** ** What is not kept *)

(** A record of process accounting is written without dropping the clusters: a read at an
    offset still ends where the file ended before. *)
Lemma accounting_record_unseen :
  let x := (read_at wrote_a open0 1 0).2 in let x' := write_accounting_record x open0 1 [Byte.x42] in
  file_bytes x'.(files) g_key = [Byte.x41; Byte.x42] ∧ (read_at x' open0 2 0).1 = Ok [Byte.x41] ∧ (OpenFile.read x' open0 2).1 = Ok [Byte.x41; Byte.x42].
Proof. cbv zeta. split; [|split]; vm_compute; reflexivity. Qed.

(** Between the load of a cluster and its publication another thread writes: the old cluster
    is published after the write has dropped what was cached, and stays. *)
Lemma stale_cluster_published :
  let key := (g_key, 0) in
  match load_cluster wrote_a.(files) 0 0 1 with
  | (Ok loaded, w) =>
      let x := (write_at (with_files w wrote_a) open0 no_limit [Byte.x42] 0).2 in
      let x' := with_cache (publish_cluster x.(page_cache) key loaded).2 x in
      file_bytes x'.(files) g_key = [Byte.x42] ∧ (read_at x' open0 1 0).1 = Ok [Byte.x41] ∧ (read_at x open0 1 0).1 = Ok [Byte.x42]
  | _ => False
  end.
Proof.
  cbv zeta. destruct (load_cluster _ _ _ _) as [[loaded|e] w] eqn:E.
  - assert (loaded = match (load_cluster wrote_a.(files) 0 0 1).1 with Ok c => c | Err _ => mkCluster [] 0 end) as -> by (by rewrite E).
    assert (w = (load_cluster wrote_a.(files) 0 0 1).2) as -> by (by rewrite E). clear E. split; [|split]; vm_compute; reflexivity.
  - assert (match (load_cluster wrote_a.(files) 0 0 1).1 with Ok _ => true | _ => false end = true) as Ht by (vm_compute; reflexivity). rewrite E in Ht. discriminate Ht.
Qed.

Lemma insert_empty c k x : c.(entries) = ∅ → insert c k x = mkCache (<[k := mkEntry x true]> ∅) (c.(eviction_queue) ++ [k]).
Proof. intros He. unfold insert. rewrite He, lookup_empty. unfold make_room, entry_count. rewrite He, map_size_empty. change (Z.of_nat 0) with 0. change (MAX_CACHED_CLUSTERS <=? 0) with false. cbn [entries eviction_queue]. by rewrite He. Qed.

(** Dropping the clusters of a file leaves their keys in the queue: writing and reading in
    turn makes the queue as long as there are rounds, with one cluster cached. *)
Lemma eviction_queue_grows k x n : let round c := insert (invalidate_file c k.1) k x in
  length (Nat.iter n round cache_new).(eviction_queue) = n ∧ ∀ k', is_Some ((Nat.iter n round cache_new).(entries) !! k') → k' = k.
Proof.
  cbv zeta. induction n as [|n [IH1 IH2]].
  - split; [done|]. intros k' Hk'. exfalso. exact (lookup_empty_is_Some (M := gmap CachedClusterKey) k' Hk').
  - rewrite Nat.iter_succ. set (c := Nat.iter n _ _) in *. assert (entries (invalidate_file c k.1) = ∅) as Hemp.
    { apply map_eq. intros k'. rewrite lookup_empty. destruct (entries (invalidate_file c k.1) !! k') as [e|] eqn:E; [|done]. apply invalidate_file_lookup in E as [E Hne]. by rewrite (IH2 k' ltac:(by eexists)) in Hne. }
    cbv beta. rewrite insert_empty by done. cbn [entries eviction_queue]. rewrite length_app. cbn [length]. split; [change (eviction_queue (invalidate_file c k.1)) with (eviction_queue c); lia|].
    intros k' [e He]. by apply lookup_insert_Some in He as [[<- _]|[_ ?%lookup_empty_Some]].
Qed.
